(* ===== verification/_CoqProject ===== *)
-Q . S2P
Prelude.v
BlockPool.v
RequestIndex.v
Positions.v
StopString.v
NGram.v
StepPlan.v
Request.v
PagedPlanner.v
Scheduler.v
PrefixCache.v
PrefixCacheProofs.v
Json.v
TurnPolicy.v
Reservation.v
ReservationProofs.v
GraphIds.v
ReservationBuild.v
EngineInvariants.v
PagedCache.v
Accounting.v
PagedCacheProofs.v
PagedCacheTables.v
PagedCacheCalls.v
Logits.v
GreedySearch.v
Turns.v
TurnsProofs.v
Speculation.v
TurnSteps.v
Lifecycle.v
StateManifest.v
StateManifestProofs.v
FixedStateSpec.v
FixedStatePool.v
FixedStateDevice.v
FixedStateReserve.v
FixedStateCommit.v
FixedStateConstruct.v
FixedStateStep.v
FixedStateClose.v
FixedStatePublish.v
FixedStateTransaction.v
FixedStateCalls.v
FixedStateBytes.v
FixedStateSamples.v
