(* ===== verification/Prelude.v ===== *)
(** * Verification of the ONNX Runtime GenAI serving core

    The repository is a C++ library that runs generative models on ONNX Runtime.  Its
    core, under src/src/engine, serves many requests at once: a scheduler picks the
    requests and token counts of the next step, a paged key-value cache gives every
    request the memory blocks its tokens need, a prefix cache shares the blocks of equal
    prompts, a transaction takes the blocks of a step before the model runs and publishes
    or returns them afterwards, a pool keeps the fixed decoder state of models that have
    recurrent or convolution layers, and stop strings and turn policies decide when a request is
    done.  This development models that core as executable definitions and proves what
    makes it correct.  The model itself (tensors, sessions, device kernels) is outside it.

    ** Conventions

    A C++ operation is a function in the state-and-outcome monad [M] of this file: it
    returns, throws a value of an error type, calls [std::terminate], or is undefined (a
    null or dangling handle, an index out of range, a division by zero).  An exception
    keeps the writes made before it, so exception safety is a theorem and not built in.
    [size_t] and [uint64_t] values whose overflow matters are [N] with the wrap-around
    written out ([u64_add] and so on); counts of objects that exist in memory are [nat];
    [int32_t] and [int64_t] are [Z].  Shared objects live in a heap indexed by address and
    a [std::shared_ptr] is an address, null being [None] (or 0 for a request's address).
    Classes the code passes as interfaces (the reference observer of the pool, the cache
    manager of the scheduler, the reclaimer of a reservation) are type classes, with their
    laws where a client depends on them.  Failing memory allocation is not modelled.

    ** Files

    - [BlockPool]: engine/block.{h,cpp}.  Blocks, reference counts and the pool.
    - [RequestIndex]: engine/request_index.h.  The open-addressing table of requests.
    - [Positions]: engine/window_ring.h, sequence_positions.h, admission.h.
    - [StopString]: stop_string_matcher.{h,cpp}, stop_string_controller.{h,cpp}.
    - [NGram]: decoding/n_gram_lookup.h.
    - [StepPlan]: engine/step_plan.h, request_status.h, decode_first_scheduler_policy.cpp.
    - [Request]: the scheduling part of engine/request.{h,cpp}.
    - [PagedPlanner]: [PagedKeyValueCache::PlanStepResources].
    - [Scheduler]: engine/scheduler.{h,cpp}, against the interface of the cache manager.
    - [PrefixCache], [PrefixCacheProofs]: engine/prefix_cache.{h,cpp}, model and proofs.
    - [Json]: json.{h,cpp}.
    - [TurnPolicy]: engine/turn_policy.{h,cpp}.
    - [Reservation], [ReservationProofs], [ReservationBuild]:
      engine/paged_cache_reservation.{h,cpp}; the model, the commit, the construction.
    - [GraphIds]: engine/graph_annotation_ids.h.
    - [EngineInvariants]: engine/engine_invariants.{h,cpp}.
    - [PagedCache]: the accounting of engine/paged_key_value_cache.{h,cpp}; [Accounting],
      [PagedCacheProofs], [PagedCacheTables] and [PagedCacheCalls] hold its proofs: the
      balance of references, admission, growth, removal and snapshots, the block tables,
      and sealing with the states any sequence of calls reaches.
    - [Logits]: sampling_distribution.h, the penalties of search.cpp, [ArgMax] of search.h.
    - [GreedySearch]: [GreedySearch_Cpu] of search.{h,cpp} with sequences.{h,cpp}.
    - [Turns]: the whole class of engine/request.{h,cpp}, what scheduled_requests.cpp does
      to one request of a step, and the admission transaction of [Engine::BeginTurn].
      [TurnsProofs] runs its operations over the search of one sequence, [Speculation]
      compares speculative with plain steps, [TurnSteps] has rollback and termination, and
      [Lifecycle] the admission and the states any sequence of calls reaches.
    - [StateManifest], [StateManifestProofs]: models/model_state_manifest.{h,cpp}, the
      validation of the decoder state a model declares and of the session that binds it.
    - [FixedStateSpec], [FixedStatePool]: engine/fixed_state_pool.{h,cpp}, the fixed decoder
      state of a request on the device.  [FixedStateSpec] has the tensors, the views of a
      reservation and their sizes; [FixedStatePool] the pool and its reservation.
      [FixedStateConstruct] has the constructor and its proof.  [FixedStateDevice],
      [FixedStateReserve], [FixedStateCommit], [FixedStateStep], [FixedStateClose] and
      [FixedStatePublish] run its phases; [FixedStateTransaction] puts them together as one
      step, [FixedStateCalls] has release, checkpoints and sequences of calls,
      [FixedStateBytes] the sizes, [FixedStateSamples] a sample pool.

    ** What the theorems show

    - Memory safety and invariants: [pool_invariant], [prefix_cache_invariant],
      [paged_cache_invariant], [request_lifecycle]: in every state a sequence of calls
      reaches, blocks, references, indexes, turns and counters agree, and no call is
      undefined or terminates.
    - Generation: [speculation_lossless] (verifying drafts gives what plain decoding
      gives), [turn_finishes], [greedy_search_refines], [greedy_never_repeats],
      [penalty_paths_agree].
    - Transactions: [commit_all_or_nothing], [reserve_then_commit], [adoption_atomic],
      [aborted_step_retry], [turn_admission_transaction], [reserve_rollback_roundtrip],
      [controller_rollback].
    - Fixed decoder state: [fixed_step_transaction] and [fixed_step_refines] (a step either
      publishes the model's rows or leaves the visible state, under every pattern of device
      failures), [fixed_calls_invariant], [checkpoint_roundtrip], [release_exact],
      [pool_constructed], [planned_bytes_exact].
    - Planning: [plan_step_correct], [paged_plan_fits], [paged_plan_honest],
      [chunks_complete], [chunked_prefill_admission].
    - Refinement and equivalence: the request index is a finite map, the matcher finds the
      first occurrence of a stop string, the fast free check equals its specification, the
      n-gram index is the last occurrence, the validator accepts exactly the consistent
      snapshots, JSON text is parsed as its grammar says.
    - Errors and bounds: which inputs are refused and that a refusal changes nothing
      ([turn_admission_exact], [manifest_config_exact], [json_total], [window_ring_correct]).

    The theorems on steps are about requests of the plain class: greedy, no grammar, no
    pending reseed, on the CPU search.  The definitions of [Turns] cover the other requests
    too: a grammar engine and a device sampler are interfaces, and what a random draw yields
    is an argument.  A model is any function from a token list to a row of logits.  For the
    fixed state the model is any function on device memory; a tensor row is one value, a
    replay of accepted drafts is an operation of the device interface that reads only its
    sources, and the faults of the device are an arbitrary list.

    ** Fuel

    Loops without a structural measure run on fuel, and a theorem shows that the fuel they
    get is enough: the JSON parser gets the length of the document and more ([json_total]),
    the doubling loops of the request index and of the graph columns at most 66 rounds
    because a 64-bit size can double only 64 times ([request_index_capacity],
    [graph_columns_bucket]), the probe loops of the index one round per slot.

    ** Not modelled

    The run loop of the engine, the cache manager that joins the two caches, the prefix
    snapshots, the decoders and the model executor, the batched device sampler, beam search
    and the random draws themselves, the generator, the models and their processors,
    configuration setters, the C API and the language bindings, execution providers,
    telemetry.  They are tensor plumbing over third-party runtimes or glue; the manifest
    lists each with its reason.  Of the paged cache, the layout of its device tensors is left out. *)

From stdpp Require Export base option list numbers gmap sorting.
From Stdlib Require Export ZArith NArith Lia.

Set Default Goal Selector "!".

(** ** Results of C++ operations

    An operation of the code either returns, throws an exception the caller can
    observe, calls [std::terminate], or runs into undefined behaviour (a null or
    dangling dereference, an out-of-range index, a division by zero).  The last
    case is a value of the model so that its absence can be proved. *)

Inductive outcome (E A : Type) : Type :=
  | Ok (a : A)
  | Throw (e : E)
  | Terminate
  | Undefined.
Arguments Ok {E A} a.
Arguments Throw {E A} e.
Arguments Terminate {E A}.
Arguments Undefined {E A}.

Definition is_ok {E A} (o : outcome E A) : bool :=
  match o with Ok _ => true | _ => false end.

(** A computation reads and writes a state; an exception keeps the writes that
    happened before it, as in C++, so that an exception guarantee is a theorem. *)
Definition M (S E A : Type) : Type := S -> outcome E A * S.

#[global] Instance M_ret {S E} : MRet (M S E) := fun A a s => (Ok a, s).

#[global] Instance M_bind {S E} : MBind (M S E) := fun A B k m s =>
  match m s with
  | (Ok a, s') => k a s'
  | (Throw e, s') => (Throw e, s')
  | (Terminate, s') => (Terminate, s')
  | (Undefined, s') => (Undefined, s')
  end.

#[global] Instance M_fmap {S E} : FMap (M S E) := fun A B f m => m ≫= fun a => mret (f a).

Definition throw {S E A} (e : E) : M S E A := fun s => (Throw e, s).
Definition terminate {S E A} : M S E A := fun s => (Terminate, s).
Definition undefined {S E A} : M S E A := fun s => (Undefined, s).
Definition gets {S E A} (f : S -> A) : M S E A := fun s => (Ok (f s), s).
Definition modify {S E} (f : S -> S) : M S E unit := fun s => (Ok tt, f s).
Definition lift {S E A} (o : outcome E A) : M S E A := fun s => (o, s).

(** [if (b) throw e;] *)
Definition throw_if {S E} (b : bool) (e : E) : M S E unit :=
  if b then throw e else mret tt.

(** [for (x : l) f(x);] *)
Fixpoint for_each {S E A} (f : A -> M S E unit) (l : list A) : M S E unit :=
  match l with
  | [] => mret tt
  | x :: l' => f x ≫= fun _ => for_each f l'
  end.

Section monad_laws.
Context {S E : Type}.
Implicit Types s : S.

Lemma bind_ok {A B} (m : M S E A) (k : A -> M S E B) s a s' :
  m s = (Ok a, s') -> (m ≫= k) s = k a s'.
Proof. intros Hm. unfold mbind, M_bind. by rewrite Hm. Qed.

Lemma bind_throw {A B} (m : M S E A) (k : A -> M S E B) s e s' :
  m s = (Throw e, s') -> (m ≫= k) s = (Throw e, s').
Proof. intros Hm. unfold mbind, M_bind. by rewrite Hm. Qed.

Lemma bind_inv_ok {A B} (m : M S E A) (k : A -> M S E B) s b s'' :
  (m ≫= k) s = (Ok b, s'') -> exists a s', m s = (Ok a, s') /\ k a s' = (Ok b, s'').
Proof.
  unfold mbind, M_bind. destruct (m s) as [[a|e| |] s'] eqn:Hm; intros Hk; try done.
  eauto.
Qed.

Lemma gets_bind {A B} (f : S -> A) (k : A -> M S E B) s : (gets f ≫= k) s = k (f s) s.
Proof. done. Qed.

Lemma modify_bind {B} (f : S -> S) (k : unit -> M S E B) s : (modify f ≫= k) s = k tt (f s).
Proof. done. Qed.

Lemma ret_bind {A B} (a : A) (k : A -> M S E B) s : (mret a ≫= k) s = k a s.
Proof. done. Qed.

Lemma bind_bind {A B C} (m : M S E A) (k : A -> M S E B) (h : B -> M S E C) s :
  ((m ≫= k) ≫= h) s = (m ≫= (fun a => k a ≫= h)) s.
Proof. unfold mbind, M_bind. by destruct (m s) as [[]]. Qed.

Lemma throw_if_false {B} b e (k : unit -> M S E B) s : b = false -> (throw_if b e ≫= k) s = k tt s.
Proof. by intros ->. Qed.

(** A loop whose body succeeds and keeps an invariant succeeds and keeps it. *)
Lemma for_each_inv {A} (f : A -> M S E unit) (I : list A -> S -> Prop) :
  (forall x l s, I (x :: l) s -> exists s', f x s = (Ok tt, s') /\ I l s') ->
  forall l s, I l s -> exists s', for_each f l s = (Ok tt, s') /\ I [] s'.
Proof.
  intros Hstep l. induction l as [|x l IH]; intros s HI.
  - exists s. done.
  - destruct (Hstep x l s HI) as (s1 & Hf & HI1).
    destruct (IH s1 HI1) as (s2 & Hl & HI2). exists s2. split; [|done].
    simpl. by rewrite (bind_ok _ _ _ _ _ Hf).
Qed.

(** A counting loop: the invariant is indexed by the number of rounds done. *)
Lemma for_seq_inv (f : nat -> M S E unit) (I : nat -> S -> Prop) n :
  (forall k s, k < n -> I k s -> exists s', f k s = (Ok tt, s') /\ I (k + 1) s') ->
  forall s, I 0 s -> exists s', for_each f (seq 0 n) s = (Ok tt, s') /\ I n s'.
Proof.
  intros Hstep. set (J := fun (l : list nat) s => exists k, k <= n /\ l = seq k (n - k) /\ I k s).
  assert (forall x l s, J (x :: l) s -> exists s', f x s = (Ok tt, s') /\ J l s') as HJ.
  { intros x l s (k & Hk & Hl & HI). destruct (n - k) as [|m] eqn:Hm; [done|]. injection Hl as -> ->.
    destruct (Hstep k s) as (s' & Hf & HI'); [lia|done|]. exists s'. split; [done|]. exists (k + 1).
    split_and!; [lia| |done]. replace (n - (k + 1)) with m by lia. f_equal; lia. }
  intros s HI. destruct (for_each_inv f J HJ (seq 0 n) s) as (s' & Hf & k & Hk & Hl & HI').
  { exists 0. split_and!; [lia|by rewrite Nat.sub_0_r|done]. }
  exists s'. split; [done|]. destruct (n - k) as [|m] eqn:Hm; [|done]. by replace n with k by lia.
Qed.
End monad_laws.

(** Running the steps of a computation that only read, write or return. *)
Create Rewrite HintDb run.
#[export] Hint Rewrite @gets_bind @modify_bind @ret_bind : run.

(** A partial-correctness triple: from [P], a computation returns in [Q], throws
    in [R], or terminates the process; it never runs into undefined behaviour. *)
Definition triple {S E A} (P : S -> Prop) (m : M S E A) (Q : A -> S -> Prop) (R : S -> Prop) :
    Prop :=
  forall s, P s ->
    match m s with
    | (Ok a, s') => Q a s'
    | (Throw _, s') => R s'
    | (Terminate, _) => True
    | (Undefined, _) => False
    end.

Section triples.
Context {S E : Type}.

Lemma triple_ret {A} (a : A) (Q : A -> S -> Prop) R : triple (E := E) (Q a) (mret a) Q R.
Proof. intros s HP. exact HP. Qed.

Lemma triple_bind {A B} P (m : M S E A) (k : A -> M S E B) Q1 Q R :
  triple P m Q1 R -> (forall a, triple (Q1 a) (k a) Q R) -> triple P (m ≫= k) Q R.
Proof.
  intros Hm Hk s HP. specialize (Hm s HP). unfold mbind, M_bind.
  destruct (m s) as [[a|e| |] s']; auto. apply (Hk a s' Hm).
Qed.

Lemma triple_throw {A} (e : E) (Q : A -> S -> Prop) (R : S -> Prop) : triple R (throw e) Q R.
Proof. intros s HP. exact HP. Qed.

Lemma triple_terminate {A} P (Q : A -> S -> Prop) R : triple (E := E) P terminate Q R.
Proof. intros s HP. exact I. Qed.

Lemma triple_gets {A} (f : S -> A) (P R : S -> Prop) :
  triple (E := E) P (gets f) (fun a s => P s /\ a = f s) R.
Proof. intros s HP. by split. Qed.

Lemma triple_modify (f : S -> S) (P Q R : S -> Prop) :
  (forall s, P s -> Q (f s)) -> triple (E := E) P (modify f) (fun _ => Q) R.
Proof. intros Hf s HP. by apply Hf. Qed.

Lemma triple_conseq {A} (P P' : S -> Prop) (m : M S E A) Q Q' (R R' : S -> Prop) :
  triple P m Q R -> (forall s, P' s -> P s) -> (forall a s, Q a s -> Q' a s) ->
  (forall s, R s -> R' s) -> triple P' m Q' R'.
Proof.
  intros Hm HP HQ HR s Hs. specialize (Hm s (HP s Hs)).
  destruct (m s) as [[a|e| |] s']; auto.
Qed.

Lemma triple_for_each {A} (f : A -> M S E unit) (l : list A) (P R : S -> Prop) :
  (forall x, x ∈ l -> triple P (f x) (fun _ => P) R) -> triple P (for_each f l) (fun _ => P) R.
Proof.
  induction l as [|x l IH]; intros Hf; simpl.
  - intros s HP. exact HP.
  - eapply triple_bind; [apply Hf; left|]. intros []. apply IH. intros y Hy. apply Hf. by right.
Qed.
End triples.

(** ** Assignment to a field

    [s <| f := v |>] is [s] after [s.f = v]; every field a class assigns has an instance. *)

Class Setter {R T : Type} (field : R -> T) : Type := set_field : T -> R -> R.
Arguments set_field {R T} field {_} v r.

Declare Scope field_scope.
Delimit Scope field_scope with field.
Notation "r <| f := v |>" := (set_field f v r)
  (at level 1, left associativity, f at level 9, v at level 99, format "r <| f := v |>") : field_scope.
Open Scope field_scope.

(** ** Machine integers *)

Definition two64 : N := 18446744073709551616%N.
Definition u64_succ (n : N) : N := ((n + 1) mod two64)%N.
Definition u64_mul (a b : N) : N := ((a * b) mod two64)%N.
Definition u64_add (a b : N) : N := ((a + b) mod two64)%N.
Definition u64_sub (a b : N) : N := ((a + two64 - b) mod two64)%N.

(** [static_cast<size_t>] of a signed integer. *)
Definition u64_of_Z (z : Z) : N := Z.to_N (z mod Z.of_N two64).

Lemma u64_add_small a b : (a + b < two64)%N -> u64_add a b = (a + b)%N.
Proof. apply N.mod_small. Qed.

Lemma u64_sub_small a b : (b <= a)%N -> (a < two64)%N -> u64_sub a b = (a - b)%N.
Proof.
  intros Hle Hlt. unfold u64_sub. replace (a + two64 - b)%N with (a - b + 1 * two64)%N by lia.
  rewrite N.Div0.mod_add. apply N.mod_small. lia.
Qed.

Lemma u64_mul_small a b : (a * b < two64)%N -> u64_mul a b = (a * b)%N.
Proof. apply N.mod_small. Qed.

Lemma u64_of_Z_small z : (0 <= z < Z.of_N two64)%Z -> u64_of_Z z = Z.to_N z.
Proof. intros Hz. unfold u64_of_Z. by rewrite Z.mod_small. Qed.

(** ** Tactics *)

(** Unfold the monad on a goal whose head computation is known. *)
Ltac unfold_m :=
  unfold mbind, M_bind, mret, M_ret, gets, modify, throw_if, throw, terminate,
    undefined, lift in *; simpl in *.

Ltac dmatch :=
  match goal with
  | H : context [match ?x with _ => _ end] |- _ => destruct x eqn:?
  | |- context [match ?x with _ => _ end] => destruct x eqn:?
  end.

(** ** Lists *)

(** Number of occurrences of [x]. *)
Definition occ (x : nat) (l : list nat) : nat := length (filter (fun y => y = x) l).

Lemma occ_cons x y l : occ x (y :: l) = (if decide (y = x) then 1 else 0) + occ x l.
Proof. unfold occ. rewrite filter_cons. by case_decide. Qed.

Lemma occ_app x l1 l2 : occ x (l1 ++ l2) = occ x l1 + occ x l2.
Proof. unfold occ. by rewrite filter_app, length_app. Qed.

Lemma occ_pos x l : x ∈ l <-> 0 < occ x l.
Proof.
  induction l as [|y l IH].
  - unfold occ. simpl. split; [by intros ?%not_elem_of_nil|lia].
  - rewrite occ_cons, elem_of_cons, IH. case_decide; naive_solver lia.
Qed.

#[global] Instance occ_perm x : Proper (Permutation ==> eq) (occ x).
Proof. intros l1 l2 Hp. unfold occ. by rewrite Hp. Qed.

Lemma filter_ext_in {A} (P Q : A -> Prop) `{!forall x, Decision (P x), !forall x, Decision (Q x)} (l : list A) :
  (forall x, x ∈ l -> P x <-> Q x) -> filter P l = filter Q l.
Proof.
  induction l as [|x l IH]; intros Hl; [done|]. rewrite !filter_cons.
  assert (P x <-> Q x) as Hx by (apply Hl; left).
  rewrite IH by (intros y Hy; apply Hl; by right).
  do 2 case_decide; naive_solver.
Qed.

Lemma filter_none {A} (P : A -> Prop) `{!forall x, Decision (P x)} (l : list A) :
  (forall x, x ∈ l -> ~ P x) -> filter P l = [].
Proof.
  induction l as [|x l IH]; intros Hl; [done|]. rewrite filter_cons_False by (apply Hl; left).
  apply IH. intros y Hy. apply Hl. by right.
Qed.

Lemma filter_all {A} (P : A -> Prop) `{!forall x, Decision (P x)} (l : list A) :
  (forall x, x ∈ l -> P x) -> filter P l = l.
Proof.
  induction l as [|x l IH]; intros Hl; [done|]. rewrite filter_cons_True by (apply Hl; left).
  f_equal. apply IH. intros y Hy. apply Hl. by right.
Qed.

Lemma elem_of_rev {A} (x : A) (l : list A) : x ∈ rev l <-> x ∈ l.
Proof. by rewrite !list_elem_of_In, <- in_rev. Qed.

(** Sum of a list of naturals. *)
Abbreviation sum := (list_sum).

Lemma sum_app l1 l2 : sum (l1 ++ l2) = sum l1 + sum l2.
Proof. induction l1; simpl; lia. Qed.

(** A set built from a list is no larger than the list. *)
Lemma size_list_to_set_le `{Countable A} (l : list A) : size (list_to_set l : gset A) <= length l.
Proof.
  induction l as [|x l IH].
  - rewrite list_to_set_nil, size_empty. done.
  - rewrite list_to_set_cons, size_union_alt, size_singleton. cbn [length].
    assert (size (list_to_set l ∖ {[x]} : gset A) <= size (list_to_set l : gset A))
      by (apply subseteq_size; set_solver). lia.
Qed.
