(* ===== verification/BlockPool.v ===== *)
(** * Paged-cache blocks and the block pool (src/engine/block.h, block.cpp)

    [Block] is one fixed-capacity run of key-value slots, [BlockPool] the owner
    of every block of the paged cache.  Callers hold [std::shared_ptr<Block>]
    handles, so several holders see one object: blocks live in a heap indexed by
    address, a handle is an address (a null handle is [None]), and the pool's
    table holds handles.  The pool tells one observer about reference
    transitions; the observer is an interface, [BlockReferenceObserver], that
    the prefix cache implements. *)

From S2P Require Import Prelude.

Set Warnings "-register-all".

(** ** Identities

    Identities are immutable and shared through [shared_ptr<const ...>]; the code
    compares them by address.  [li_addr] and [bi_addr] are that address. *)

Abbreviation addr := nat (only parsing).

Inductive LogicalPrefixIdentity : Type := mkLogical
  { li_addr : addr;
    li_hash : N;
    li_parent : option LogicalPrefixIdentity;
    li_tokens : list Z }.

Inductive BlockIdentity : Type := mkIdentity
  { bi_addr : addr;
    bi_hash : N;
    bi_block_id : nat;
    bi_parent : option BlockIdentity;
    bi_tokens : list Z;
    bi_logical : option LogicalPrefixIdentity }.

Definition Tokens (i : BlockIdentity) : list Z :=
  match bi_logical i with
  | Some l => li_tokens l
  | None => bi_tokens i
  end.

(** ** Block *)

Record Block : Type := mkBlock
  { id_ : nat;
    size_ : nat;
    capacity_ : nat;
    ref_count_ : nat;
    identity_ : option BlockIdentity;
    reference_observer_cookie_ : option addr }.

Definition set_size (n : nat) (b : Block) : Block :=
  mkBlock (id_ b) n (capacity_ b) (ref_count_ b) (identity_ b) (reference_observer_cookie_ b).
Definition set_ref_count (n : nat) (b : Block) : Block :=
  mkBlock (id_ b) (size_ b) (capacity_ b) n (identity_ b) (reference_observer_cookie_ b).
Definition set_identity (i : option BlockIdentity) (b : Block) : Block :=
  mkBlock (id_ b) (size_ b) (capacity_ b) (ref_count_ b) i (reference_observer_cookie_ b).
Definition set_cookie (c : option addr) (b : Block) : Block :=
  mkBlock (id_ b) (size_ b) (capacity_ b) (ref_count_ b) (identity_ b) c.

Inductive BlockError : Type :=
  | SlotsBeyondCapacity
  | NoIdentity (id : nat)
  | NullIdentity
  | IdentityOnPartialBlock
  | IdentityTokenCount
  | ReleaseWithoutReference
  | BlocksExceedAvailable (needed num_slots available : nat)
  | NullBlock
  | IdOutOfRange (id capacity : nat)
  | NotAllocatedByPool (id : nat)
  | NotEnoughReferences (id count refs : nat)
  | AddRefNotOwned
  | ReleaseNotOwned
  | SecondObserver
  | CookieArgument.

(** The constructor [Block(id, slots, block_size)]. *)
Definition make_Block (id slots block_size : nat) : Block :=
  mkBlock id slots block_size 1 None None.

Definition IsFull (b : Block) : bool := size_ b =? capacity_ b.
Definition EmptySlots (b : Block) : nat := capacity_ b - size_ b.
Definition IsShared (b : Block) : bool := 1 <? ref_count_ b.
Definition HasIdentity (b : Block) : bool := bool_decide (is_Some (identity_ b)).
Definition IsShareable (b : Block) : bool := IsFull b && HasIdentity b.

Definition AddSlots (slots : nat) (b : Block) : outcome BlockError Block :=
  if EmptySlots b <? slots then Throw SlotsBeyondCapacity
  else Ok (set_size (size_ b + slots) b).

Definition AddSlot (b : Block) : outcome BlockError Block := AddSlots 1 b.

(** [std::iota] from [Id() * Capacity()]. *)
Definition SlotIds (b : Block) : list nat := seq (id_ b * capacity_ b) (size_ b).

Definition Identity (b : Block) : outcome BlockError BlockIdentity :=
  match identity_ b with
  | None => Throw (NoIdentity (id_ b))
  | Some i => Ok i
  end.

Definition SetIdentity (identity : option BlockIdentity) (b : Block) : outcome BlockError Block :=
  match identity with
  | None => Throw NullIdentity
  | Some i =>
      if negb (IsFull b) then Throw IdentityOnPartialBlock
      else if negb (length (Tokens i) =? capacity_ b) then Throw IdentityTokenCount
      else Ok (set_identity (Some i) b)
  end.

Definition ClearIdentity (b : Block) : Block := set_identity None b.

Definition Block_AddRef (b : Block) : Block := set_ref_count (S (ref_count_ b)) b.

Definition ReleaseRef (b : Block) : outcome BlockError (nat * Block) :=
  match ref_count_ b with
  | 0 => Throw ReleaseWithoutReference
  | S n => Ok (n, set_ref_count n b)
  end.

(** ** The observer interface

    The callbacks are [noexcept]: they update the observer or terminate. *)
Class BlockReferenceObserver (O : Type) : Type :=
  { OnBlockBecameReferenced : addr -> addr -> O -> option O;
    OnBlockBecameReclaimable : addr -> addr -> O -> option O }.

(** ** BlockPool *)

Record BlockPool : Type := mkPool
  { block_size_ : nat;
    pool_capacity_ : nat;
    blocks_ : list (option addr);
    validation_marks_ : list N;
    validation_counts_ : list nat;
    validation_epoch_ : N;
    mutation_generation_ : N;
    reference_observer_ : option addr }.

Definition set_blocks (bs : list (option addr)) (p : BlockPool) : BlockPool :=
  mkPool (block_size_ p) (pool_capacity_ p) bs (validation_marks_ p) (validation_counts_ p)
    (validation_epoch_ p) (mutation_generation_ p) (reference_observer_ p).
Definition set_validation (ms : list N) (cs : list nat) (e : N) (p : BlockPool) : BlockPool :=
  mkPool (block_size_ p) (pool_capacity_ p) (blocks_ p) ms cs e (mutation_generation_ p)
    (reference_observer_ p).
Definition set_reference_observer (o : option addr) (p : BlockPool) : BlockPool :=
  mkPool (block_size_ p) (pool_capacity_ p) (blocks_ p) (validation_marks_ p)
    (validation_counts_ p) (validation_epoch_ p) (mutation_generation_ p) o.
Definition RecordOccupancyMutation (p : BlockPool) : BlockPool :=
  mkPool (block_size_ p) (pool_capacity_ p) (blocks_ p) (validation_marks_ p)
    (validation_counts_ p) (validation_epoch_ p) (u64_succ (mutation_generation_ p))
    (reference_observer_ p).

Definition make_BlockPool (block_size num_blocks : nat) : BlockPool :=
  mkPool block_size num_blocks (replicate num_blocks None) (replicate num_blocks 0%N)
    (replicate num_blocks 0) 0 0 None.

Definition AvailableBlocks (p : BlockPool) : nat :=
  length (filter (fun b => b = None) (blocks_ p)).
Definition Size (p : BlockPool) : nat := pool_capacity_ p - AvailableBlocks p.
Definition BlocksNeeded (p : BlockPool) (num_slots : nat) : nat :=
  num_slots / block_size_ p + (if num_slots mod block_size_ p =? 0 then 0 else 1).
Definition OwnedBlocks (p : BlockPool) : list addr := omap id (blocks_ p).

(** The program state the pool's methods act on: the heap of block objects, the
    next free address, the pool and the observer. *)
Record world (O : Type) : Type := mkWorld
  { heap : gmap addr Block;
    next_addr : addr;
    pool : BlockPool;
    observer : O }.
Arguments mkWorld {O} _ _ _ _.
Arguments heap {O} _.
Arguments next_addr {O} _.
Arguments pool {O} _.
Arguments observer {O} _.

Section Pool.
  Context {O : Type} `{BlockReferenceObserver O}.
  Abbreviation PM := (M (world O) BlockError).

Definition set_heap (h : gmap addr Block) (w : world O) : world O :=
  mkWorld h (next_addr w) (pool w) (observer w).
Definition set_pool (p : BlockPool) (w : world O) : world O :=
  mkWorld (heap w) (next_addr w) p (observer w).
Definition set_observer (o : O) (w : world O) : world O :=
  mkWorld (heap w) (next_addr w) (pool w) o.

Definition deref (a : addr) : PM Block := fun w =>
  match heap w !! a with
  | Some b => (Ok b, w)
  | None => (Undefined, w)
  end.
Definition update (a : addr) (b : Block) : PM unit :=
  modify (fun w => set_heap (<[a := b]> (heap w)) w).

(** [std::make_shared<Block>(...)] *)
Definition make_shared (b : Block) : PM addr := fun w =>
  (Ok (next_addr w),
   mkWorld (<[next_addr w := b]> (heap w)) (S (next_addr w)) (pool w) (observer w)).

(** The slot test [blocks_[id] == block] of an in-range [id]. *)
Definition slot_holds (p : BlockPool) (id : nat) (a : addr) : bool :=
  bool_decide (blocks_ p !! id = Some (Some a)).

Definition Owns (block : option addr) : PM bool :=
  match block with
  | None => mret false
  | Some a =>
      b ← deref a;
      p ← gets pool;
      mret ((id_ b <? pool_capacity_ p) && slot_holds p (id_ b) a)
  end.

(** The allocation scan: free ids in ascending order until enough are found. *)
Fixpoint scan_free (block_size num_slots needed : nat) (mark_slots_used : bool)
    (id : nat) (slots : list (option addr)) (allocated : list Block) : list Block :=
  match slots with
  | [] => allocated
  | s :: rest =>
      if length allocated <? needed then
        match s with
        | None =>
            let allocated_slots := length allocated * block_size in
            let n := if mark_slots_used then min block_size (num_slots - allocated_slots) else 0 in
            scan_free block_size num_slots needed mark_slots_used (S id) rest
              (allocated ++ [make_Block id n block_size])
        | Some _ =>
            scan_free block_size num_slots needed mark_slots_used (S id) rest allocated
        end
      else allocated
  end.

Fixpoint make_all (bs : list Block) : PM (list addr) :=
  match bs with
  | [] => mret []
  | b :: bs' => a ← make_shared b; rest ← make_all bs'; mret (a :: rest)
  end.

Definition publish (a : addr) : PM unit :=
  b ← deref a;
  modify (fun w => set_pool (set_blocks (<[id_ b := Some a]> (blocks_ (pool w))) (pool w)) w).

(** [AllocateBlocks(num_slots, mark_slots_used)] *)
Definition AllocateBlocks_ (num_slots : nat) (mark_slots_used : bool) : PM (list addr) :=
  p ← gets pool;
  if block_size_ p =? 0 then undefined else
  let needed := BlocksNeeded p num_slots in
  if AvailableBlocks p <? needed then
    throw (BlocksExceedAvailable needed num_slots (AvailableBlocks p))
  else
    allocated ← make_all
      (scan_free (block_size_ p) num_slots needed mark_slots_used 0 (blocks_ p) []);
    _ ← for_each publish allocated;
    _ ← (if bool_decide (allocated = []) then mret tt
         else modify (fun w => set_pool (RecordOccupancyMutation (pool w)) w));
    mret allocated.

Definition AllocateBlocks (num_slots : nat) : PM (list addr) := AllocateBlocks_ num_slots true.
Definition ReserveBlocks (num_slots : nat) : PM (list addr) := AllocateBlocks_ num_slots false.

(** *** Ownership validation *)

Definition validate_one (block : option addr) : PM nat :=
  match block with
  | None => throw NullBlock
  | Some a =>
      b ← deref a;
      p ← gets pool;
      if negb (id_ b <? pool_capacity_ p) then throw (IdOutOfRange (id_ b) (pool_capacity_ p))
      else if negb (slot_holds p (id_ b) a) then throw (NotAllocatedByPool (id_ b))
      else mret (id_ b)
  end.

Fixpoint validate_ids (blocks : list (option addr)) : PM (list nat) :=
  match blocks with
  | [] => mret []
  | b :: rest => i ← validate_one b; ids ← validate_ids rest; mret (i :: ids)
  end.

(** The occurrence list under construction is kept last-first, so that its head
    is [occurrences.back()]. *)
Definition count_step (occurrences : list (nat * nat)) (id : nat) : list (nat * nat) :=
  match occurrences with
  | (j, c) :: rest => if j =? id then (j, S c) :: rest else (id, 1) :: occurrences
  | [] => [(id, 1)]
  end.

Definition occurrences_of (ids : list nat) : list (nat * nat) :=
  rev (fold_left count_step (merge_sort le ids) []).

Definition block_at (id : nat) : PM (addr * Block) := fun w =>
  match blocks_ (pool w) !! id with
  | Some (Some a) => match heap w !! a with Some b => (Ok (a, b), w) | None => (Undefined, w) end
  | _ => (Undefined, w)
  end.

Definition check_references (require_references : bool) (occurrence : nat * nat) : PM unit :=
  if require_references then
    ab ← block_at occurrence.1;
    throw_if (ref_count_ ab.2 <? occurrence.2)
      (NotEnoughReferences occurrence.1 occurrence.2 (ref_count_ ab.2))
  else mret tt.

Definition ValidateOwnership (blocks : list (option addr)) (require_references : bool) :
    PM (list (nat * nat)) :=
  ids ← validate_ids blocks;
  let occurrences := occurrences_of ids in
  _ ← for_each (check_references require_references) occurrences;
  mret occurrences.

Definition ValidateFree (blocks : list (option addr)) : PM unit :=
  _ ← ValidateOwnership blocks true; mret tt.

(** *** References *)

Definition notify_referenced (a : addr) (cookie : option addr) : PM unit := fun w =>
  match cookie with
  | Some c =>
      match OnBlockBecameReferenced a c (observer w) with
      | Some o => (Ok tt, set_observer o w)
      | None => (Terminate, w)
      end
  | None => (Ok tt, w)
  end.

Definition notify_reclaimable (a : addr) (cookie : option addr) : PM unit := fun w =>
  match cookie with
  | Some c =>
      match OnBlockBecameReclaimable a c (observer w) with
      | Some o => (Ok tt, set_observer o w)
      | None => (Terminate, w)
      end
  | None => (Ok tt, w)
  end.

(** One reference added to the block at address [a], shared by both overloads. *)
Definition add_ref_at (a : addr) (b : Block) : PM unit :=
  let was_reclaimable :=
    (ref_count_ b =? 1) && bool_decide (is_Some (reference_observer_cookie_ b)) in
  _ ← update a (Block_AddRef b);
  p ← gets pool;
  if was_reclaimable && bool_decide (is_Some (reference_observer_ p))
  then notify_referenced a (reference_observer_cookie_ b) else mret tt.

(** [AddRef(span)] *)
Definition AddRefs (blocks : list (option addr)) : PM unit :=
  occurrences ← ValidateOwnership blocks false;
  for_each (fun oc : nat * nat =>
    for_each (fun _ : nat => ab ← block_at oc.1; add_ref_at ab.1 ab.2) (seq 0 oc.2))
    occurrences.

(** [AddRef(block)] *)
Definition AddRef (block : option addr) : PM unit :=
  owned ← Owns block;
  match block with
  | Some a => if negb owned then throw AddRefNotOwned else b ← deref a; add_ref_at a b
  | None => throw AddRefNotOwned
  end.

(** Drop one reference.  A block left with one reference and a cookie is reported
    reclaimable; a block left with none loses its identity and its table slot.
    The result says whether the slot was released. *)
Definition release_at (a : addr) (b : Block) : PM bool :=
  rb ← lift (ReleaseRef b);
  let '(remaining, b') := rb in
  _ ← update a b';
  p ← gets pool;
  if (remaining =? 1) && bool_decide (is_Some (reference_observer_cookie_ b)) &&
     bool_decide (is_Some (reference_observer_ p))
  then _ ← notify_reclaimable a (reference_observer_cookie_ b); mret false
  else if remaining =? 0 then
    _ ← update a (ClearIdentity b');
    _ ← modify (fun w => set_pool (set_blocks (<[id_ b := None]> (blocks_ (pool w))) (pool w)) w);
    mret true
  else mret false.

Definition Release (block : option addr) : PM unit :=
  owned ← Owns block;
  match block with
  | Some a =>
      if negb owned then throw ReleaseNotOwned else
      b ← deref a;
      freed ← release_at a b;
      if freed : bool then modify (fun w => set_pool (RecordOccupancyMutation (pool w)) w)
      else mret tt
  | None => throw ReleaseNotOwned
  end.

Definition SetReferenceObserver (obs : option addr) : PM unit :=
  p ← gets pool;
  match reference_observer_ p, obs with
  | Some o, Some o' =>
      if negb (o =? o') then throw SecondObserver
      else modify (fun w => set_pool (set_reference_observer obs (pool w)) w)
  | _, _ => modify (fun w => set_pool (set_reference_observer obs (pool w)) w)
  end.

Definition SetReferenceObserverCookie (block : option addr) (cookie : option addr) : PM unit :=
  owned ← Owns block;
  match block, cookie with
  | Some a, Some c =>
      if negb owned then throw CookieArgument
      else b ← deref a; update a (set_cookie (Some c) b)
  | _, _ => throw CookieArgument
  end.

Definition ClearReferenceObserverCookie (block : option addr) : PM unit :=
  owned ← Owns block;
  match block with
  | Some a => if negb owned then terminate else b ← deref a; update a (set_cookie None b)
  | None => terminate
  end.

(** *** Allocation-free validation and publication *)

(** A new epoch; the marks are cleared when the 64-bit counter wraps to zero. *)
Definition next_epoch (p : BlockPool) : BlockPool :=
  let e := u64_succ (validation_epoch_ p) in
  if (e =? 0)%N
  then set_validation (replicate (length (validation_marks_ p)) 0%N) (validation_counts_ p)
         (u64_succ e) p
  else set_validation (validation_marks_ p) (validation_counts_ p) e p.

(** Count one more occurrence of [id] in the current epoch. *)
Definition mark_occurrence (id : nat) (p : BlockPool) : BlockPool :=
  let fresh := negb (bool_decide (validation_marks_ p !! id = Some (validation_epoch_ p))) in
  let ms := if fresh then <[id := validation_epoch_ p]> (validation_marks_ p)
            else validation_marks_ p in
  let cs := if fresh then <[id := 0]> (validation_counts_ p) else validation_counts_ p in
  set_validation ms (alter S id cs) (validation_epoch_ p) p.

Fixpoint can_free_loop (blocks : list (option addr)) : PM bool :=
  match blocks with
  | [] => mret true
  | None :: _ => mret false
  | Some a :: rest =>
      b ← deref a;
      p ← gets pool;
      if negb (id_ b <? length (blocks_ p)) || negb (slot_holds p (id_ b) a) then mret false
      else
        let p' := mark_occurrence (id_ b) p in
        _ ← modify (set_pool p');
        match validation_counts_ p' !! id_ b with
        | None => undefined
        | Some n => if ref_count_ b <? n then mret false else can_free_loop rest
        end
  end.

Definition CanFreeValidated (blocks : list (option addr)) : PM bool :=
  _ ← modify (fun w => set_pool (next_epoch (pool w)) w);
  can_free_loop blocks.

(** A throw inside a [noexcept] function terminates. *)
Definition noexcept {A} (m : PM A) : PM A := fun w =>
  match m w with
  | (Throw _, w') => (Terminate, w')
  | r => r
  end.

Definition free_one (block : option addr) : PM unit :=
  match block with
  | None => undefined
  | Some a => b ← deref a; _ ← release_at a b; mret tt
  end.

Definition FreeValidated (blocks : list (option addr)) : PM unit :=
  noexcept (
    ok ← CanFreeValidated blocks;
    if negb ok then terminate else
    _ ← for_each free_one blocks;
    if bool_decide (blocks = []) then mret tt
    else modify (fun w => set_pool (RecordOccupancyMutation (pool w)) w)).

Definition Free (blocks : list (option addr)) : PM unit :=
  _ ← ValidateFree blocks; FreeValidated blocks.

(** *** Rollback of a reservation *)

Definition rollback_one (released : bool) (block : option addr) : PM bool :=
  match block with
  | None => mret released
  | Some a =>
      b ← deref a;
      p ← gets pool;
      if (id_ b <? length (blocks_ p)) && slot_holds p (id_ b) a then
        _ ← modify (set_pool (set_blocks (<[id_ b := None]> (blocks_ p)) p));
        mret true
      else mret released
  end.

Fixpoint rollback_loop (released : bool) (blocks : list (option addr)) : PM bool :=
  match blocks with
  | [] => mret released
  | b :: rest => r ← rollback_one released b; rollback_loop r rest
  end.

Definition RollbackReservedBlocks (blocks : list (option addr)) : PM unit :=
  released ← rollback_loop false blocks;
  if released : bool then modify (fun w => set_pool (RecordOccupancyMutation (pool w)) w)
  else mret tt.

End Pool.

#[global] Arguments mark_occurrence : simpl never.
#[global] Arguments next_epoch : simpl never.

(** ** Lists of free slots *)

Fixpoint free_ids (id : nat) (slots : list (option addr)) : list nat :=
  match slots with
  | [] => []
  | None :: rest => id :: free_ids (S id) rest
  | Some _ :: rest => free_ids (S id) rest
  end.

Definition available (bl : list (option addr)) : nat := length (filter (fun b => b = None) bl).

(** Slots given to the [k]-th block of an allocation of [n] slots. *)
Definition slots_of (block_size n : nat) (mark : bool) (k : nat) : nat :=
  if mark then min block_size (n - k * block_size) else 0.

Lemma free_ids_length id bl : length (free_ids id bl) = available bl.
Proof.
  unfold available. revert id.
  induction bl as [|[a|] bl IH]; intros id; simpl; rewrite ?filter_cons; simpl; auto.
Qed.

Lemma elem_of_free_ids x id bl :
  x ∈ free_ids id bl <-> exists i, x = id + i /\ bl !! i = Some None.
Proof.
  revert id. induction bl as [|o bl IH]; intros id; simpl.
  - rewrite elem_of_nil. naive_solver.
  - assert (Hsucc : x ∈ free_ids (S id) bl <->
        exists i, x = id + S i /\ (o :: bl) !! S i = Some None).
    { rewrite IH. simpl. split; intros (i & -> & Hi); exists i; split; auto; lia. }
    destruct o as [a|]; rewrite ?elem_of_cons, Hsucc; split.
    + naive_solver.
    + intros ([|i] & -> & Hi); [done|eauto].
    + intros [->|(i & -> & Hi)]; [exists 0; split; [lia|done]|eauto].
    + intros ([|i] & -> & Hi); [left; lia|right; eauto].
Qed.

Lemma free_ids_ge x id bl : x ∈ free_ids id bl -> id <= x.
Proof. rewrite elem_of_free_ids. intros (i & -> & _). lia. Qed.

Lemma free_ids_NoDup id bl : NoDup (free_ids id bl).
Proof.
  revert id. induction bl as [|[a|] bl IH]; intros id; simpl; auto.
  - constructor.
  - apply NoDup_cons. split; [|auto]. intros Hin%free_ids_ge. lia.
Qed.

(** The scan takes the first free ids, in ascending order. *)
Lemma scan_free_spec bs n needed mark id bl acc :
  scan_free bs n needed mark id bl acc =
  acc ++ imap (fun k fid => make_Block fid (slots_of bs n mark (length acc + k)) bs)
           (take (needed - length acc) (free_ids id bl)).
Proof.
  revert id acc. induction bl as [|o bl IH]; intros id acc; simpl.
  - by rewrite take_nil, app_nil_r.
  - destruct (Nat.ltb_spec (length acc) needed) as [Hlt|Hge].
    + destruct o as [a|]; rewrite IH; [done|].
      rewrite length_app. simpl. rewrite <-app_assoc. f_equal.
      replace (needed - length acc) with (S (needed - (length acc + 1))) by lia.
      simpl. unfold slots_of at 2. rewrite Nat.add_0_r. f_equal.
      apply imap_ext. intros k x _. simpl. do 2 f_equal. lia.
    + replace (needed - length acc) with 0 by lia. simpl. by rewrite app_nil_r.
Qed.

(** The blocks an allocation creates. *)
Definition new_blocks (p : BlockPool) (n : nat) (mark : bool) : list Block :=
  imap (fun k fid => make_Block fid (slots_of (block_size_ p) n mark k) (block_size_ p))
    (take (BlocksNeeded p n) (free_ids 0 (blocks_ p))).

Lemma blocks_needed_bounds bs n :
  0 < bs ->
  let k := n / bs + (if n mod bs =? 0 then 0 else 1) in
  n <= k * bs /\ (0 < k -> (k - 1) * bs < n).
Proof.
  intros Hbs k. subst k. pose proof (Nat.div_mod n bs ltac:(lia)) as Hdm.
  pose proof (Nat.mod_upper_bound n bs ltac:(lia)).
  destruct (Nat.eqb_spec (n mod bs) 0); nia.
Qed.

(** Filling block after block hands out exactly [n] slots. *)
Lemma sum_slots_of bs n k :
  sum (slots_of bs n true <$> seq 0 k) = min n (k * bs).
Proof.
  induction k as [|k IH]; [simpl; lia|].
  rewrite seq_S, fmap_app, sum_app, IH. simpl. unfold slots_of. lia.
Qed.

(** ** Heap and table after allocation *)

Definition insert_slots (bl : list (option addr)) (news : list (nat * addr)) : list (option addr) :=
  fold_left (fun bl na => <[na.1 := Some na.2]> bl) news bl.

Lemma insert_slots_length bl news : length (insert_slots bl news) = length bl.
Proof.
  revert bl. induction news as [|[i a] news IH]; intros bl; simpl; [done|].
  by rewrite IH, length_insert.
Qed.

Lemma insert_slots_lookup_notin bl news i :
  i ∉ news.*1 -> insert_slots bl news !! i = bl !! i.
Proof.
  revert bl. induction news as [|[j a] news IH]; intros bl Hi; simpl in *; [done|].
  apply not_elem_of_cons in Hi as [Hij Hi]. rewrite (IH _ Hi).
  by apply list_lookup_insert_ne.
Qed.

Lemma insert_slots_lookup_in bl news i a :
  NoDup news.*1 -> (i, a) ∈ news -> i < length bl ->
  insert_slots bl news !! i = Some (Some a).
Proof.
  revert bl. induction news as [|[j a'] news IH]; intros bl Hnd Hin Hi; simpl in *.
  - by apply not_elem_of_nil in Hin.
  - apply NoDup_cons in Hnd as [Hj Hnd]. apply elem_of_cons in Hin as [[= <- <-]|Hin].
    + fold (insert_slots (<[i:=Some a]> bl) news).
      rewrite insert_slots_lookup_notin by done. by apply list_lookup_insert_eq.
    + apply IH; auto. by rewrite length_insert.
Qed.

Lemma available_insert bl i a :
  bl !! i = Some None -> S (available (<[i := Some a]> bl)) = available bl.
Proof.
  unfold available. revert i. induction bl as [|o bl IH]; intros [|i] Hi; simplify_eq/=.
  - rewrite !filter_cons. simpl. done.
  - rewrite !filter_cons. destruct o; simpl; rewrite <-(IH i Hi); done.
Qed.

Lemma available_insert_slots bl news :
  NoDup news.*1 -> (forall i, i ∈ news.*1 -> bl !! i = Some None) ->
  available (insert_slots bl news) + length news = available bl.
Proof.
  revert bl. induction news as [|[i a] news IH]; intros bl Hnd Hfree; simpl in *; [lia|].
  apply NoDup_cons in Hnd as [Hi Hnd].
  pose proof (available_insert bl i a (Hfree i ltac:(left))) as Ha.
  fold (insert_slots (<[i:=Some a]> bl) news).
  specialize (IH (<[i:=Some a]> bl) Hnd). rewrite <-Ha.
  rewrite <-IH; [lia|]. intros j Hj. rewrite list_lookup_insert_ne by (intros ->; done).
  apply Hfree. by right.
Qed.

(** ** Well-formed states *)

Record block_wf (block_size id : nat) (b : Block) : Prop := mk_block_wf
  { bw_id : id_ b = id;
    bw_capacity : capacity_ b = block_size;
    bw_size : size_ b <= capacity_ b;
    bw_refs : 0 < ref_count_ b;
    bw_identity : forall i, identity_ b = Some i ->
      size_ b = capacity_ b /\ length (Tokens i) = capacity_ b }.

(** The invariant of the pool.  Table slot [id] holds block [id]; the scratch
    arrays have the pool's length and no mark is ahead of the epoch. *)
Record pool_wf {O} (w : world O) : Prop := mk_pool_wf
  { pw_block_size : 0 < block_size_ (pool w);
    pw_length : length (blocks_ (pool w)) = pool_capacity_ (pool w);
    pw_marks : length (validation_marks_ (pool w)) = pool_capacity_ (pool w);
    pw_counts : length (validation_counts_ (pool w)) = pool_capacity_ (pool w);
    pw_epoch : (validation_epoch_ (pool w) < two64)%N;
    pw_mark_le : Forall (fun m => (m <= validation_epoch_ (pool w))%N) (validation_marks_ (pool w));
    pw_slot : forall id a, blocks_ (pool w) !! id = Some (Some a) ->
      exists b, heap w !! a = Some b /\ block_wf (block_size_ (pool w)) id b;
    pw_fresh : forall a b, heap w !! a = Some b -> a < next_addr w }.

(** The initial state: an empty pool over an empty heap. *)
Definition initial_world {O} (block_size num_blocks : nat) (o : O) : world O :=
  mkWorld ∅ 0 (make_BlockPool block_size num_blocks) o.

Lemma initial_world_wf {O} block_size num_blocks (o : O) :
  0 < block_size -> pool_wf (initial_world block_size num_blocks o).
Proof.
  intros Hbs. split; simpl; rewrite ?length_replicate; auto.
  - done.
  - by apply Forall_replicate.
  - intros id a Hid. by apply lookup_replicate in Hid as [? _].
  - intros a b Ha. by rewrite lookup_empty in Ha.
Qed.

Section AllocateFacts.
Context {O : Type} `{BlockReferenceObserver O}.
Implicit Types w : world O.

Lemma make_all_spec bs w :
  exists w', make_all bs w = (Ok (seq (next_addr w) (length bs)), w') /\
    pool w' = pool w /\ observer w' = observer w /\
    next_addr w' = next_addr w + length bs /\
    forall a, heap w' !! a =
      (if decide (next_addr w <= a < next_addr w + length bs)
       then bs !! (a - next_addr w) else heap w !! a).
Proof.
  revert w. induction bs as [|b bs IH]; intros w.
  - exists w. repeat split; simpl; try lia. intros a. case_decide; [lia|done].
  - set (w1 := mkWorld (<[next_addr w := b]> (heap w)) (S (next_addr w)) (pool w) (observer w)).
    destruct (IH w1) as (w' & Hrun & Hp & Ho & Hn & Hh).
    exists w'. simpl. rewrite (bind_ok (make_shared b) _ w (next_addr w) w1) by done.
    rewrite (bind_ok (make_all bs) _ w1 _ _ Hrun). repeat split; auto.
    + simpl in Hn. lia.
    + intros a. rewrite Hh. unfold w1. simpl.
      destruct (decide (a = next_addr w)) as [->|Hne].
      * rewrite decide_False by lia. rewrite decide_True by lia.
        rewrite lookup_insert_eq. by rewrite Nat.sub_diag.
      * rewrite lookup_insert_ne by done.
        repeat case_decide; try lia; [|done].
        replace (a - next_addr w) with (S (a - S (next_addr w))) by lia. done.
Qed.

Lemma publish_all_spec (news : list (nat * addr)) w :
  (forall i a, (i, a) ∈ news -> exists b, heap w !! a = Some b /\ id_ b = i) ->
  for_each publish news.*2 w =
    (Ok tt, set_pool (set_blocks (insert_slots (blocks_ (pool w)) news) (pool w)) w).
Proof.
  revert w. induction news as [|[i a] news IH]; intros w Hheap; simpl.
  - unfold mret, M_ret. f_equal. by destruct w as [? ? [] ?].
  - destruct (Hheap i a) as (b & Hb & Hid); [left|].
    set (w1 := set_pool (set_blocks (<[i := Some a]> (blocks_ (pool w))) (pool w)) w).
    rewrite (bind_ok (publish a) _ w tt w1).
    2:{ unfold publish. rewrite (bind_ok (deref a) _ w b w).
        - unfold modify, w1. by rewrite Hid.
        - unfold deref. by rewrite Hb. }
    rewrite IH; [done|]. intros j a' Hin. apply Hheap. by right.
Qed.
End AllocateFacts.

Section Allocate.
Context {O : Type} `{BlockReferenceObserver O}.
Implicit Types w : world O.

(** The ids an allocation of [n] slots takes, and the handles it creates. *)
Definition taken_ids (p : BlockPool) (n : nat) : list nat :=
  take (BlocksNeeded p n) (free_ids 0 (blocks_ p)).
Definition new_handles w (n : nat) : list addr :=
  seq (next_addr w) (BlocksNeeded (pool w) n).

Lemma taken_ids_length p n :
  BlocksNeeded p n <= AvailableBlocks p -> length (taken_ids p n) = BlocksNeeded p n.
Proof.
  intros Hle. unfold taken_ids. rewrite length_take, free_ids_length.
  unfold AvailableBlocks in Hle. unfold available. lia.
Qed.

Lemma taken_ids_free p n i : i ∈ taken_ids p n -> blocks_ p !! i = Some None.
Proof.
  unfold taken_ids. intros Hin%elem_of_take. destruct Hin as (k & Hk & _).
  apply list_elem_of_lookup_2, elem_of_free_ids in Hk. naive_solver.
Qed.

Lemma taken_ids_NoDup p n : NoDup (taken_ids p n).
Proof.
  eapply sublist_NoDup; [apply (free_ids_NoDup 0 (blocks_ p))|]. apply sublist_take.
Qed.

Lemma new_blocks_length p n mark :
  BlocksNeeded p n <= AvailableBlocks p -> length (new_blocks p n mark) = BlocksNeeded p n.
Proof. intros Hle. unfold new_blocks. rewrite length_imap. by apply taken_ids_length. Qed.

Lemma new_blocks_lookup p n mark k b :
  new_blocks p n mark !! k = Some b ->
  exists i, taken_ids p n !! k = Some i /\
    b = make_Block i (slots_of (block_size_ p) n mark k) (block_size_ p).
Proof.
  unfold new_blocks. rewrite list_lookup_imap. fold (taken_ids p n).
  destruct (taken_ids p n !! k); simpl; naive_solver.
Qed.

Definition alloc_world w (n : nat) (h : gmap addr Block) : world O :=
  let p := pool w in
  let p' := set_blocks (insert_slots (blocks_ p) (zip (taken_ids p n) (new_handles w n))) p in
  mkWorld h (next_addr w + BlocksNeeded p n)
    (if bool_decide (new_handles w n = []) then p' else RecordOccupancyMutation p') (observer w).

Lemma AllocateBlocks_run n mark w :
  pool_wf w -> BlocksNeeded (pool w) n <= AvailableBlocks (pool w) ->
  exists h, AllocateBlocks_ n mark w = (Ok (new_handles w n), alloc_world w n h) /\
    forall a, h !! a = (if decide (next_addr w <= a < next_addr w + BlocksNeeded (pool w) n)
                        then new_blocks (pool w) n mark !! (a - next_addr w) else heap w !! a).
Proof.
  intros Hwf Hle. pose proof (pw_block_size _ Hwf) as Hbs.
  destruct (make_all_spec (new_blocks (pool w) n mark) w) as (w1 & Hrun & Hp & Ho & Hn & Hh).
  rewrite new_blocks_length in Hrun, Hn, Hh by done.
  exists (heap w1). split; [|done].
  set (news := zip (taken_ids (pool w) n) (new_handles w n)).
  assert (Hlen : length (new_handles w n) = length (taken_ids (pool w) n))
    by (rewrite taken_ids_length by done; unfold new_handles; apply length_seq).
  assert (Hsnd : news.*2 = new_handles w n) by (apply snd_zip; lia).
  assert (Hpub : for_each publish (new_handles w n) w1 =
    (Ok tt, set_pool (set_blocks (insert_slots (blocks_ (pool w1)) news) (pool w1)) w1)).
  { rewrite <-Hsnd. apply publish_all_spec. intros i a Hin.
    apply list_elem_of_lookup in Hin as (k & Hk). unfold news in Hk.
    apply lookup_zip_with_Some in Hk as (i' & a' & [= <- <-] & Hi & Ha).
    unfold new_handles in Ha. apply lookup_seq in Ha as [-> Hk].
    rewrite Hh, decide_True by lia. replace (next_addr w + k - next_addr w) with k by lia.
    unfold new_blocks. rewrite list_lookup_imap. fold (taken_ids (pool w) n). rewrite Hi.
    simpl. eauto. }
  unfold AllocateBlocks_. rewrite (bind_ok (gets pool) _ w (pool w) w) by done.
  destruct (Nat.eqb_spec (block_size_ (pool w)) 0); [lia|].
  destruct (Nat.ltb_spec (AvailableBlocks (pool w)) (BlocksNeeded (pool w) n)); [lia|].
  rewrite scan_free_spec. simpl. rewrite Nat.sub_0_r.
  fold (new_blocks (pool w) n mark). rewrite (bind_ok _ _ _ _ _ Hrun).
  fold (new_handles w n). rewrite (bind_ok _ _ _ _ _ Hpub).
  clear Hrun Hpub Hh. destruct w1 as [h1 n1 p1 o1]. simpl in *. subst p1 o1 n1.
  unfold alloc_world. fold news. by case_bool_decide.
Qed.

Lemma alloc_world_blocks w n h :
  blocks_ (pool (alloc_world w n h)) =
  insert_slots (blocks_ (pool w)) (zip (taken_ids (pool w) n) (new_handles w n)).
Proof. unfold alloc_world. simpl. by case_bool_decide. Qed.

Lemma alloc_world_wf w n mark h :
  pool_wf w -> BlocksNeeded (pool w) n <= AvailableBlocks (pool w) ->
  (forall a, h !! a = (if decide (next_addr w <= a < next_addr w + BlocksNeeded (pool w) n)
                       then new_blocks (pool w) n mark !! (a - next_addr w) else heap w !! a)) ->
  pool_wf (alloc_world w n h).
Proof.
  intros Hwf Hle Hh. pose proof (taken_ids_length _ _ Hle) as Htl.
  assert (Hhl : length (new_handles w n) = BlocksNeeded (pool w) n)
    by (unfold new_handles; apply length_seq).
  assert (Hfst : (zip (taken_ids (pool w) n) (new_handles w n)).*1 = taken_ids (pool w) n)
    by (apply fst_zip; lia).
  split; unfold alloc_world; simpl; try (case_bool_decide; simpl; by apply Hwf).
  - case_bool_decide; simpl; rewrite insert_slots_length; by apply Hwf.
  - intros id a Hid.
    assert (Hid' : insert_slots (blocks_ (pool w))
      (zip (taken_ids (pool w) n) (new_handles w n)) !! id = Some (Some a))
      by (revert Hid; by case_bool_decide).
    assert (Hbs : forall b, block_wf (block_size_ (pool w)) id b ->
      block_wf (block_size_ (pool (alloc_world w n h))) id b)
      by (unfold alloc_world; simpl; by case_bool_decide).
    destruct (decide (id ∈ taken_ids (pool w) n)) as [Hin|Hnin].
    + apply list_elem_of_lookup in Hin as (k & Hk).
      pose proof (lookup_lt_Some _ _ _ Hk) as Hkl.
      rewrite (insert_slots_lookup_in _ _ id (next_addr w + k)) in Hid'.
      * injection Hid' as <-. rewrite Hh, decide_True by lia.
        replace (next_addr w + k - next_addr w) with k by lia.
        unfold new_blocks. rewrite list_lookup_imap. fold (taken_ids (pool w) n).
        rewrite Hk. simpl. eexists. split; [done|]. apply Hbs.
        split; simpl; auto; [|done]. unfold slots_of. destruct mark; lia.
      * rewrite Hfst. apply taken_ids_NoDup.
      * apply list_elem_of_lookup. exists k. apply lookup_zip_with_Some.
        exists id, (next_addr w + k). repeat split; auto.
        unfold new_handles. apply lookup_seq. lia.
      * apply list_elem_of_lookup_2, taken_ids_free, lookup_lt_Some in Hk. done.
    + rewrite insert_slots_lookup_notin in Hid' by (by rewrite Hfst).
      destruct (pw_slot _ Hwf _ _ Hid') as (b & Hb & Hbw).
      exists b. split; [|by apply Hbs].
      rewrite Hh, decide_False; [done|]. pose proof (pw_fresh _ Hwf _ _ Hb). lia.
  - intros a b Hab. rewrite Hh in Hab. case_decide as Hdec; [lia|].
    pose proof (pw_fresh _ Hwf _ _ Hab). lia.
Qed.
End Allocate.

(** Slots marked used in the block at an address. *)
Definition used_slots {O} (w : world O) (a : addr) : nat :=
  match heap w !! a with Some b => size_ b | None => 0 end.

Section AllocateTheorems.
Context {O : Type} `{BlockReferenceObserver O}.
Implicit Types w : world O.

Lemma new_blocks_sizes p n mark :
  0 < block_size_ p -> BlocksNeeded p n <= AvailableBlocks p ->
  sum (size_ <$> new_blocks p n mark) = if mark then n else 0.
Proof.
  intros Hbs Hle.
  assert (Heq : size_ <$> new_blocks p n mark =
    slots_of (block_size_ p) n mark <$> seq 0 (BlocksNeeded p n)).
  { apply list_eq. intros k. rewrite !list_lookup_fmap. unfold new_blocks. rewrite list_lookup_imap.
    fold (taken_ids p n). destruct (decide (k < BlocksNeeded p n)) as [Hk|Hk].
    - rewrite (proj2 (lookup_seq 0 _ k k)) by lia.
      destruct (lookup_lt_is_Some_2 (taken_ids p n) k) as [i Hi];
        [by rewrite taken_ids_length|]. by rewrite Hi.
    - rewrite (lookup_ge_None_2 (taken_ids p n)) by (rewrite taken_ids_length; [lia|done]).
      rewrite (lookup_ge_None_2 (seq _ _)); [done|]. rewrite length_seq. lia. }
  rewrite Heq. destruct mark.
  - rewrite sum_slots_of. pose proof (blocks_needed_bounds (block_size_ p) n Hbs) as [Hb _].
    unfold BlocksNeeded. lia.
  - clear. by induction (seq 0 (BlocksNeeded p n)); simpl.
Qed.

(** The state an allocation leaves, seen from the handles it returned. *)
Record allocated w (n : nat) (mark : bool) (hs : list addr) w' : Prop := mk_allocated
  { al_wf : pool_wf w';
    al_count : length hs = BlocksNeeded (pool w) n;
    al_NoDup : NoDup hs;
    al_available : AvailableBlocks (pool w') + length hs = AvailableBlocks (pool w);
    al_new : forall a, a ∈ hs -> heap w !! a = None /\
      exists b, heap w' !! a = Some b /\ blocks_ (pool w) !! id_ b = Some None /\
        blocks_ (pool w') !! id_ b = Some (Some a) /\ ref_count_ b = 1 /\ identity_ b = None;
    al_slots : sum (used_slots w' <$> hs) = if mark then n else 0;
    al_heap : forall a b, heap w !! a = Some b -> heap w' !! a = Some b;
    al_table : forall id a, blocks_ (pool w) !! id = Some (Some a) ->
      blocks_ (pool w') !! id = Some (Some a);
    al_only : forall id a, blocks_ (pool w') !! id = Some (Some a) ->
      a ∈ hs \/ blocks_ (pool w) !! id = Some (Some a);
    al_length : length (blocks_ (pool w')) = length (blocks_ (pool w));
    al_observer : observer w' = observer w }.

Lemma map_used_slots h w w1 n mark :
  (forall a, h !! a = (if decide (next_addr w <= a < next_addr w + BlocksNeeded (pool w) n)
                       then new_blocks (pool w) n mark !! (a - next_addr w) else heap w !! a)) ->
  heap w1 = h -> BlocksNeeded (pool w) n <= AvailableBlocks (pool w) ->
  used_slots w1 <$> new_handles w n = size_ <$> new_blocks (pool w) n mark.
Proof.
  intros Hh Hw1 Hle. apply list_eq. intros k. rewrite !list_lookup_fmap. unfold new_handles.
  destruct (decide (k < BlocksNeeded (pool w) n)) as [Hk|Hk].
  - rewrite (proj2 (lookup_seq (next_addr w) _ k (next_addr w + k))) by lia. simpl.
    unfold used_slots. rewrite Hw1, Hh, decide_True by lia.
    replace (next_addr w + k - next_addr w) with k by lia.
    destruct (lookup_lt_is_Some_2 (new_blocks (pool w) n mark) k) as [b Hb];
      [by rewrite new_blocks_length|]. by rewrite Hb.
  - rewrite (lookup_ge_None_2 (new_blocks _ _ _)) by (rewrite new_blocks_length; [lia|done]).
    rewrite (lookup_ge_None_2 (seq _ _)); [done|]. rewrite length_seq. lia.
Qed.

Lemma AllocateBlocks_allocated n mark w :
  pool_wf w -> BlocksNeeded (pool w) n <= AvailableBlocks (pool w) ->
  exists hs w', AllocateBlocks_ n mark w = (Ok hs, w') /\ allocated w n mark hs w'.
Proof.
  intros Hwf Hle. destruct (AllocateBlocks_run n mark w Hwf Hle) as (h & Hrun & Hh).
  exists (new_handles w n), (alloc_world w n h). split; [done|].
  pose proof (taken_ids_length _ _ Hle) as Htl.
  assert (Hhl : length (new_handles w n) = BlocksNeeded (pool w) n)
    by (unfold new_handles; apply length_seq).
  assert (Hfst : (zip (taken_ids (pool w) n) (new_handles w n)).*1 = taken_ids (pool w) n)
    by (apply fst_zip; lia).
  pose proof (taken_ids_NoDup (pool w) n) as Hnd.
  split.
  - by eapply alloc_world_wf.
  - done.
  - apply NoDup_ListNoDup, seq_NoDup.
  - unfold AvailableBlocks. rewrite alloc_world_blocks.
    fold (available (blocks_ (pool w))). rewrite <-(available_insert_slots _ _ (eq_ind_r _ Hnd Hfst)).
    + rewrite length_zip_with. unfold available. lia.
    + rewrite Hfst. intros i. apply taken_ids_free.
  - intros a Ha. apply list_elem_of_lookup in Ha as (k & Hk).
    unfold new_handles in Hk. apply lookup_seq in Hk as [-> Hk]. split.
    + destruct (heap w !! (next_addr w + k)) eqn:E; [|done].
      pose proof (pw_fresh _ Hwf _ _ E). lia.
    + simpl. rewrite Hh, decide_True by lia.
      replace (next_addr w + k - next_addr w) with k by lia.
      destruct (lookup_lt_is_Some_2 (new_blocks (pool w) n mark) k) as [b Hb];
        [by rewrite new_blocks_length|]. exists b. split; [done|].
      destruct (new_blocks_lookup _ _ _ _ _ Hb) as (i & Hi & ->). simpl.
      pose proof (taken_ids_free _ _ _ (list_elem_of_lookup_2 _ _ _ Hi)) as Hfree.
      split; [done|]. split; [|done].
      change (blocks_ (pool (alloc_world w n h)) !! i = Some (Some (next_addr w + k))).
      rewrite alloc_world_blocks. apply insert_slots_lookup_in.
      * by rewrite Hfst.
      * apply list_elem_of_lookup. exists k. apply lookup_zip_with_Some.
        exists i, (next_addr w + k). repeat split; auto. unfold new_handles. apply lookup_seq. lia.
      * by eapply lookup_lt_Some.
  - rewrite (map_used_slots h w _ n mark) by done.
    apply new_blocks_sizes; [apply Hwf|done].
  - intros a b Hab. simpl. rewrite Hh, decide_False; [done|].
    pose proof (pw_fresh _ Hwf _ _ Hab). lia.
  - intros id a Hid. rewrite alloc_world_blocks, insert_slots_lookup_notin; [done|].
    rewrite Hfst. intros Hin%taken_ids_free. congruence.
  - intros id a. rewrite alloc_world_blocks. intros Hid.
    destruct (decide (id ∈ taken_ids (pool w) n)) as [Hin|Hnin].
    + left. apply list_elem_of_lookup in Hin as (k & Hk).
      rewrite (insert_slots_lookup_in _ _ id (next_addr w + k)) in Hid.
      * injection Hid as <-. unfold new_handles. apply elem_of_seq.
        apply lookup_lt_Some in Hk. lia.
      * by rewrite Hfst.
      * apply list_elem_of_lookup. exists k. apply lookup_zip_with_Some.
        exists id, (next_addr w + k). repeat split; auto. unfold new_handles.
        apply lookup_seq. apply lookup_lt_Some in Hk. lia.
      * apply list_elem_of_lookup_2, taken_ids_free, lookup_lt_Some in Hk. done.
    + right. by rewrite insert_slots_lookup_notin in Hid by (by rewrite Hfst).
  - rewrite alloc_world_blocks. apply insert_slots_length.
  - done.
Qed.

Lemma AllocateBlocks_refused n mark w :
  pool_wf w -> AvailableBlocks (pool w) < BlocksNeeded (pool w) n ->
  AllocateBlocks_ n mark w =
    (Throw (BlocksExceedAvailable (BlocksNeeded (pool w) n) n (AvailableBlocks (pool w))), w).
Proof.
  intros Hwf Hlt. pose proof (pw_block_size _ Hwf).
  unfold AllocateBlocks_. rewrite (bind_ok (gets pool) _ w (pool w) w) by done.
  destruct (Nat.eqb_spec (block_size_ (pool w)) 0); [lia|].
  by destruct (Nat.ltb_spec (AvailableBlocks (pool w)) (BlocksNeeded (pool w) n)); [|lia].
Qed.
End AllocateTheorems.

(** ** Occurrence counting *)

Lemma count_fold_spec l : StronglySorted le l -> forall j c rest,
  (forall x, x ∈ l -> j <= x) -> (forall k m, (k, m) ∈ rest -> k < j) ->
  forall id k, (id, k) ∈ fold_left count_step l ((j, c) :: rest) <->
    (id, k) ∈ rest \/ (id = j /\ k = c + occ j l) \/ (id <> j /\ id ∈ l /\ k = occ id l).
Proof.
  induction 1 as [|x l Hsl IH Hx]; intros j c rest Hj Hrest id k; simpl.
  - rewrite elem_of_cons. assert (occ j [] = 0) as -> by done.
    rewrite elem_of_nil, Nat.add_0_r. naive_solver.
  - rewrite List.Forall_forall in Hx. setoid_rewrite <-list_elem_of_In in Hx.
    destruct (Nat.eqb_spec j x) as [->|Hne].
    + rewrite IH; [|by auto|done]. rewrite !occ_cons, decide_True, elem_of_cons by done.
      case_decide as Hid; [subst|]; naive_solver lia.
    + assert (Hjx : j < x) by (specialize (Hj x ltac:(left)); lia).
      assert (Hjl : j ∉ l) by (intros Hin%Hx; lia).
      assert (Hocc : occ j l = 0).
      { destruct (occ j l) eqn:E; [done|]. destruct Hjl. apply occ_pos. lia. }
      rewrite IH; [|by auto|].
      * rewrite !occ_cons, !elem_of_cons, decide_False by done.
        rewrite Hocc. destruct (decide (x = id)) as [->|Hxid].
        -- split; [|naive_solver lia].
           intros [[[= -> ->]|Hr]|Hr]; [lia|auto|]. naive_solver lia.
        -- split; [naive_solver lia|].
           intros [Hr|[[-> ->]|Hr]]; [auto|left; left; f_equal; lia|]. naive_solver lia.
      * intros k' m' [[= -> ->]|Hin]%elem_of_cons; [done|]. specialize (Hrest _ _ Hin). lia.
Qed.

(** Sorting and merging neighbours counts occurrences. *)
Lemma occurrences_of_spec ids id k :
  (id, k) ∈ occurrences_of ids <-> id ∈ ids /\ k = occ id ids.
Proof.
  unfold occurrences_of. rewrite list_elem_of_In, <-in_rev, <-list_elem_of_In.
  pose proof (merge_sort_Permutation le ids) as Hp.
  assert (Hs : StronglySorted le (merge_sort le ids)).
  { apply StronglySorted_merge_sort; typeclasses eauto. }
  assert (Hid : id ∈ ids <-> id ∈ merge_sort le ids) by (by rewrite Hp).
  assert (Hocc : occ id ids = occ id (merge_sort le ids)) by (by rewrite Hp).
  rewrite Hid, Hocc. clear Hp Hid Hocc.
  destruct (merge_sort le ids) as [|x l]; simpl.
  - rewrite !elem_of_nil. naive_solver.
  - inversion_clear Hs as [|?? Hsl Hx]. rewrite List.Forall_forall in Hx.
    setoid_rewrite <-list_elem_of_In in Hx.
    rewrite (count_fold_spec l Hsl x 1 []); [|done|by intros ?? ?%elem_of_nil].
    rewrite elem_of_nil, occ_cons, elem_of_cons. case_decide; naive_solver lia.
Qed.

Section Validation.
Context {O : Type} `{BlockReferenceObserver O}.
Implicit Types w : world O.

(** A handle to a block the pool currently owns. *)
Definition owned w (block : option addr) : Prop :=
  exists a b, block = Some a /\ heap w !! a = Some b /\
    blocks_ (pool w) !! id_ b = Some (Some a).

(** Handles are never dangling. *)
Definition handles_valid w (blocks : list (option addr)) : Prop :=
  forall a, Some a ∈ blocks -> is_Some (heap w !! a).

Definition block_id w (block : option addr) : nat :=
  match block with
  | Some a => match heap w !! a with Some b => id_ b | None => 0 end
  | None => 0
  end.

(** The specification of a free: every handle is owned, and no block is freed
    more often than it has references. *)
Definition freeable w (blocks : list (option addr)) : Prop :=
  Forall (owned w) blocks /\
  forall id a b, blocks_ (pool w) !! id = Some (Some a) -> heap w !! a = Some b ->
    occ id (block_id w <$> blocks) <= ref_count_ b.

Lemma handles_valid_cons w block blocks :
  handles_valid w (block :: blocks) <->
  (forall a, block = Some a -> is_Some (heap w !! a)) /\ handles_valid w blocks.
Proof.
  unfold handles_valid. setoid_rewrite elem_of_cons. naive_solver.
Qed.

Lemma slot_holds_iff p id a : slot_holds p id a = true <-> blocks_ p !! id = Some (Some a).
Proof. unfold slot_holds. by rewrite bool_decide_eq_true. Qed.

Lemma owned_in_range w a b :
  pool_wf w -> blocks_ (pool w) !! id_ b = Some (Some a) -> id_ b < pool_capacity_ (pool w).
Proof. intros Hwf Hs. rewrite <-(pw_length _ Hwf). by eapply lookup_lt_Some. Qed.

Lemma deref_ok a b w : heap w !! a = Some b -> deref a w = (Ok b, w).
Proof. intros Ha. unfold deref. by rewrite Ha. Qed.

Lemma validate_one_owned w block :
  pool_wf w -> owned w block -> validate_one block w = (Ok (block_id w block), w).
Proof.
  intros Hwf (a & b & -> & Ha & Hs). simpl. rewrite (bind_ok _ _ _ _ _ (deref_ok _ _ _ Ha)).
  unfold_m. rewrite Ha. pose proof (owned_in_range _ _ _ Hwf Hs).
  destruct (Nat.ltb_spec (id_ b) (pool_capacity_ (pool w))); [|lia].
  by rewrite (proj2 (slot_holds_iff _ _ _) Hs).
Qed.

Lemma validate_one_not_owned w block :
  pool_wf w -> handles_valid w [block] -> ~ owned w block ->
  exists e, validate_one block w = (Throw e, w).
Proof.
  intros Hwf Hv Hno. destruct block as [a|]; simpl; [|by eexists].
  destruct (Hv a ltac:(left)) as [b Ha]. rewrite (bind_ok _ _ _ _ _ (deref_ok _ _ _ Ha)).
  unfold_m. destruct (Nat.ltb_spec (id_ b) (pool_capacity_ (pool w))); simpl; [|by eexists].
  destruct (slot_holds (pool w) (id_ b) a) eqn:Hs; simpl; [|by eexists].
  destruct Hno. exists a, b. by rewrite <-slot_holds_iff.
Qed.

Lemma owned_dec w block : handles_valid w [block] -> owned w block \/ ~ owned w block.
Proof.
  intros Hv. destruct block as [a|]; [|right; intros (? & ? & ? & ?); done].
  destruct (Hv a ltac:(left)) as [b Ha].
  destruct (decide (blocks_ (pool w) !! id_ b = Some (Some a))) as [Hs|Hs].
  - left. by exists a, b.
  - right. intros (a' & b' & [= <-] & Ha' & Hs'). congruence.
Qed.

Lemma handles_valid_singleton w block blocks :
  handles_valid w (block :: blocks) -> handles_valid w [block] /\ handles_valid w blocks.
Proof.
  intros Hv. split; intros a Ha; apply Hv.
  - apply elem_of_cons in Ha as [->|Hn]; [left|by apply not_elem_of_nil in Hn].
  - by right.
Qed.

Lemma all_owned_dec w blocks :
  handles_valid w blocks -> Forall (owned w) blocks \/ ~ Forall (owned w) blocks.
Proof.
  induction blocks as [|block blocks IH]; intros Hv; [left; constructor|].
  apply handles_valid_singleton in Hv as [Hv1 Hv2]. rewrite Forall_cons.
  destruct (owned_dec _ _ Hv1), (IH Hv2); tauto.
Qed.

Lemma validate_ids_owned w blocks :
  pool_wf w -> Forall (owned w) blocks ->
  validate_ids blocks w = (Ok (block_id w <$> blocks), w).
Proof.
  intros Hwf. induction 1 as [|block blocks Ho _ IH]; simpl; [done|].
  rewrite (bind_ok _ _ _ _ _ (validate_one_owned _ _ Hwf Ho)).
  by rewrite (bind_ok _ _ _ _ _ IH).
Qed.

Lemma validate_ids_not_owned w blocks :
  pool_wf w -> handles_valid w blocks -> ~ Forall (owned w) blocks ->
  exists e, validate_ids blocks w = (Throw e, w).
Proof.
  intros Hwf. induction blocks as [|block blocks IH]; intros Hv Hno; simpl.
  - destruct Hno. constructor.
  - apply handles_valid_singleton in Hv as [Hv1 Hv2].
    destruct (owned_dec _ _ Hv1) as [Ho|Ho].
    + rewrite (bind_ok _ _ _ _ _ (validate_one_owned _ _ Hwf Ho)).
      destruct IH as (e & He); [done|by intros ?; destruct Hno; constructor|].
      exists e. by apply bind_throw.
    + destruct (validate_one_not_owned w block Hwf Hv1 Ho) as (e & He).
      exists e. by apply bind_throw.
Qed.

(** Checking the counted occurrences compares each with the block's count. *)
Lemma check_references_all w occs :
  pool_wf w -> (forall id k, (id, k) ∈ occs -> exists a b,
    blocks_ (pool w) !! id = Some (Some a) /\ heap w !! a = Some b) ->
  (for_each (check_references true) occs w = (Ok tt, w) /\
     forall id k a b, (id, k) ∈ occs -> blocks_ (pool w) !! id = Some (Some a) ->
       heap w !! a = Some b -> k <= ref_count_ b) \/
  exists id k a b, (id, k) ∈ occs /\ blocks_ (pool w) !! id = Some (Some a) /\
    heap w !! a = Some b /\ ref_count_ b < k /\
    for_each (check_references true) occs w = (Throw (NotEnoughReferences id k (ref_count_ b)), w).
Proof.
  intros Hwf. induction occs as [|[id k] occs IH]; intros Hocc.
  - left. split; [done|]. by intros ?? ?? ?%elem_of_nil.
  - destruct (Hocc id k) as (a & b & Hs & Ha); [left|].
    assert (Hone : check_references true (id, k) w =
      throw_if (ref_count_ b <? k) (NotEnoughReferences id k (ref_count_ b)) w).
    { unfold check_references. rewrite (bind_ok _ _ w (a, b) w); [done|].
      unfold block_at. simpl. by rewrite Hs, Ha. }
    unfold throw_if in Hone. destruct (Nat.ltb_spec (ref_count_ b) k) as [Hlt|Hge].
    + right. exists id, k, a, b. repeat split; auto; [left|]. by apply bind_throw.
    + simpl. rewrite (bind_ok _ _ _ _ _ Hone). destruct IH as [[Hrun Hall]|Hbad].
      * intros id' k' Hin. apply (Hocc id' k'). by right.
      * left. split; [done|]. intros id' k' a' b' [[= -> ->]|Hin]%elem_of_cons Hs' Ha'.
        -- congruence.
        -- by eapply Hall.
      * right. destruct Hbad as (id' & k' & a' & b' & Hin & Hrest).
        exists id', k', a', b'. split; [by right|done].
Qed.
End Validation.

Section FreeCheck.
Context {O : Type} `{BlockReferenceObserver O}.
Implicit Types w : world O.

Lemma owned_block_id w block :
  owned w block -> exists a b, block = Some a /\ heap w !! a = Some b /\
    block_id w block = id_ b /\ blocks_ (pool w) !! block_id w block = Some (Some a).
Proof. intros (a & b & -> & Ha & Hs). exists a, b. simpl. by rewrite Ha. Qed.

Lemma occurrences_owned w blocks id k :
  Forall (owned w) blocks -> (id, k) ∈ occurrences_of (block_id w <$> blocks) ->
  exists a b, blocks_ (pool w) !! id = Some (Some a) /\ heap w !! a = Some b.
Proof.
  intros Ho [Hin _]%occurrences_of_spec. apply list_elem_of_fmap in Hin as (block & -> & Hin).
  rewrite Forall_forall in Ho.
  destruct (owned_block_id _ _ (Ho _ Hin)) as (a & b & -> & Ha & _ & Hs). eauto.
Qed.

(** [ValidateFree] accepts exactly the freeable lists and changes nothing. *)
Lemma ValidateFree_spec w blocks :
  pool_wf w -> handles_valid w blocks ->
  (ValidateFree blocks w = (Ok tt, w) /\ freeable w blocks) \/
  (exists e, ValidateFree blocks w = (Throw e, w) /\ ~ freeable w blocks).
Proof.
  intros Hwf Hv. unfold ValidateFree, ValidateOwnership.
  destruct (all_owned_dec w blocks Hv) as [Ho|Hno].
  - pose proof (validate_ids_owned _ _ Hwf Ho) as Hids.
    destruct (check_references_all w (occurrences_of (block_id w <$> blocks)) Hwf)
      as [[Hrun Hle]|(id & k & a & b & Hin & Hs & Ha & Hlt & Hrun)].
    + intros id k. by apply occurrences_owned.
    + left. split.
      * erewrite bind_ok; [done|]. erewrite bind_ok by done. by erewrite bind_ok.
      * split; [done|]. intros id a b Hs Ha.
        destruct (decide (id ∈ block_id w <$> blocks)) as [Hin|Hnin].
        -- by eapply Hle; [apply occurrences_of_spec|..].
        -- destruct (occ id (block_id w <$> blocks)) eqn:E; [lia|].
           destruct Hnin. apply occ_pos. lia.
    + right. eexists. split.
      * apply bind_throw. erewrite bind_ok by done. apply bind_throw. done.
      * intros [_ Hc]. specialize (Hc _ _ _ Hs Ha).
        apply occurrences_of_spec in Hin as [_ ->]. lia.
  - destruct (validate_ids_not_owned _ _ Hwf Hv Hno) as (e & He).
    right. exists e. split; [|by intros [? _]]. apply bind_throw. by apply bind_throw.
Qed.

(** What the scratch arrays record for [id] in the current epoch. *)
Definition marked_count (p : BlockPool) (id : nat) : nat :=
  if decide (validation_marks_ p !! id = Some (validation_epoch_ p))
  then default 0 (validation_counts_ p !! id) else 0.

(** The scratch arrays are the only part of a state that differs. *)
Definition same_but_scratch w w' : Prop :=
  heap w' = heap w /\ next_addr w' = next_addr w /\ observer w' = observer w /\
  exists ms cs e, pool w' = set_validation ms cs e (pool w).

Lemma same_but_scratch_refl w : same_but_scratch w w.
Proof.
  repeat split. exists (validation_marks_ (pool w)), (validation_counts_ (pool w)),
    (validation_epoch_ (pool w)). by destruct (pool w).
Qed.

Lemma same_but_scratch_trans w1 w2 w3 :
  same_but_scratch w1 w2 -> same_but_scratch w2 w3 -> same_but_scratch w1 w3.
Proof.
  intros (Hh & Hn & Ho & ms & cs & e & Hp) (Hh' & Hn' & Ho' & ms' & cs' & e' & Hp').
  repeat split; try congruence. exists ms', cs', e'. by rewrite Hp', Hp.
Qed.

Lemma next_epoch_fresh w :
  pool_wf w -> let w' := set_pool (next_epoch (pool w)) w in
  pool_wf w' /\ same_but_scratch w w' /\ forall id, marked_count (pool w') id = 0.
Proof.
  intros Hwf w'.
  assert (Hcases :
    (next_epoch (pool w) = set_validation (replicate (length (validation_marks_ (pool w))) 0%N)
       (validation_counts_ (pool w)) 1 (pool w)) \/
    (exists e, (validation_epoch_ (pool w) < e < two64)%N /\
       next_epoch (pool w) = set_validation (validation_marks_ (pool w))
         (validation_counts_ (pool w)) e (pool w))).
  { unfold next_epoch, u64_succ. pose proof (pw_epoch _ Hwf) as He.
    destruct (decide (validation_epoch_ (pool w) + 1 = two64)%N) as [Hw|Hw].
    - left. rewrite Hw, N.Div0.mod_same. done.
    - right. exists (validation_epoch_ (pool w) + 1)%N. split; [lia|].
      rewrite N.mod_small by lia. destruct (N.eqb_spec (validation_epoch_ (pool w) + 1) 0); [lia|done]. }
  pose proof (pw_mark_le _ Hwf) as Hle. subst w'.
  destruct Hcases as [Heq|(e & He & Heq)]; rewrite Heq.
  - split; [|split].
    + destruct Hwf. split; simpl; auto; [by rewrite length_replicate|done|].
      apply Forall_replicate. done.
    + repeat split; eauto.
    + intros id. unfold marked_count. simpl. rewrite decide_False; [done|].
      intros [? _]%lookup_replicate. done.
  - split; [|split].
    + destruct Hwf. split; simpl; auto; [lia|].
      eapply Forall_impl; [done|]. simpl. lia.
    + repeat split; eauto.
    + intros id. unfold marked_count. simpl. rewrite decide_False; [done|].
      intros Hid. rewrite Forall_lookup in Hle. apply Hle in Hid. lia.
Qed.
End FreeCheck.

Section CanFree.
Context {O : Type} `{BlockReferenceObserver O}.
Implicit Types w : world O.

Lemma mark_occurrence_count p id id' :
  id < length (validation_marks_ p) -> id < length (validation_counts_ p) ->
  marked_count (mark_occurrence id p) id' =
    marked_count p id' + (if decide (id = id') then 1 else 0).
Proof.
  intros Hm Hc. unfold marked_count, mark_occurrence; simpl.
  destruct (lookup_lt_is_Some_2 _ _ Hc) as [c Hcid].
  case_bool_decide as Hfresh; simpl.
  - destruct (decide (id = id')) as [<-|Hne].
    + rewrite !decide_True by done. rewrite list_lookup_alter_eq, Hcid. simpl. lia.
    + rewrite list_lookup_alter_ne by done. repeat case_decide; try done; lia.
  - destruct (decide (id = id')) as [<-|Hne].
    + rewrite list_lookup_insert_eq, decide_True by done.
      rewrite list_lookup_alter_eq, list_lookup_insert_eq by done.
      rewrite decide_False by done. done.
    + rewrite list_lookup_insert_ne by done.
      rewrite list_lookup_alter_ne, list_lookup_insert_ne by done.
      repeat case_decide; try done; lia.
Qed.

Lemma mark_occurrence_lookup p id :
  id < length (validation_marks_ p) -> id < length (validation_counts_ p) ->
  validation_counts_ (mark_occurrence id p) !! id = Some (S (marked_count p id)).
Proof.
  intros Hm Hc. unfold marked_count, mark_occurrence; simpl.
  destruct (lookup_lt_is_Some_2 _ _ Hc) as [c Hcid]. rewrite list_lookup_alter_eq.
  case_bool_decide as Hfresh; simpl.
  - rewrite decide_True, Hcid by done. done.
  - rewrite decide_False by done. by rewrite list_lookup_insert_eq.
Qed.

Lemma mark_occurrence_wf w id :
  pool_wf w -> let w' := set_pool (mark_occurrence id (pool w)) w in
  pool_wf w' /\ same_but_scratch w w'.
Proof.
  intros Hwf w'. split; [|by repeat split; eauto].
  destruct Hwf as [? ? Hm Hc ? Hle ? ?].
  split; simpl; auto; unfold mark_occurrence; simpl; case_bool_decide; simpl;
    rewrite ?length_alter, ?length_insert; auto.
  apply Forall_insert; [done|]. lia.
Qed.

Lemma can_free_loop_spec blocks : forall w,
  pool_wf w -> handles_valid w blocks ->
  (forall id a b, blocks_ (pool w) !! id = Some (Some a) -> heap w !! a = Some b ->
     marked_count (pool w) id <= ref_count_ b) ->
  exists ok w', can_free_loop blocks w = (Ok ok, w') /\ same_but_scratch w w' /\ pool_wf w' /\
    (ok = true <-> Forall (owned w) blocks /\
      forall id a b, blocks_ (pool w) !! id = Some (Some a) -> heap w !! a = Some b ->
        marked_count (pool w) id + occ id (block_id w <$> blocks) <= ref_count_ b).
Proof.
  induction blocks as [|block blocks IH]; intros w Hwf Hv Hinv; cbn [can_free_loop].
  - exists true, w. split; [done|]. split; [apply same_but_scratch_refl|]. split; [done|].
    split; [|done]. intros _. split; [constructor|]. intros id a b Hs Ha. specialize (Hinv _ _ _ Hs Ha).
    unfold occ. simpl. lia.
  - assert (Hrefuse := same_but_scratch_refl w).
    destruct block as [a|].
    2:{ exists false, w. rewrite Forall_cons. repeat (split; [done|]).
        intros [[(? & ? & ? & ?) _] _]. done. }
    apply handles_valid_cons in Hv as [Hva Hv]. destruct (Hva a eq_refl) as [b Ha].
    rewrite (bind_ok _ _ _ _ _ (deref_ok _ _ _ Ha)), (bind_ok (gets pool) _ w (pool w) w) by done.
    destruct (slot_holds (pool w) (id_ b) a) eqn:Hs.
    + apply slot_holds_iff in Hs. pose proof (owned_in_range _ _ _ Hwf Hs) as Hr.
      destruct (Nat.ltb_spec (id_ b) (length (blocks_ (pool w)))) as [_|Hge];
        [|rewrite (pw_length _ Hwf) in Hge; lia]. cbn [negb orb].
      set (w1 := set_pool (mark_occurrence (id_ b) (pool w)) w).
      destruct (mark_occurrence_wf w (id_ b) Hwf) as [Hwf1 Hss1]. fold w1 in Hwf1, Hss1.
      rewrite (bind_ok (modify _) _ w tt w1) by done.
      assert (Hm : id_ b < length (validation_marks_ (pool w))) by (rewrite (pw_marks _ Hwf); done).
      assert (Hc : id_ b < length (validation_counts_ (pool w))) by (rewrite (pw_counts _ Hwf); done).
      rewrite mark_occurrence_lookup by done.
      assert (Hself : owned w (Some a)) by (by exists a, b).
      assert (Hid : block_id w (Some a) = id_ b) by (simpl; by rewrite Ha).
      destruct (Nat.ltb_spec (ref_count_ b) (S (marked_count (pool w) (id_ b)))) as [Hlt|Hge].
      * exists false, w1. split; [done|]. split; [done|]. split; [done|].
        split; [done|]. intros [_ Hall]. specialize (Hall _ _ _ Hs Ha).
        rewrite fmap_cons, Hid, occ_cons, decide_True in Hall by done. lia.
      * destruct (IH w1) as (ok & w' & Hrun & Hss & Hwf' & Hok); auto.
        { intros id' a' b' Hs' Ha'. simpl in Hs', Ha'. simpl.
          rewrite mark_occurrence_count by done. specialize (Hinv _ _ _ Hs' Ha').
          case_decide as Heq; [|lia]. subst id'. simplify_eq. lia. }
        exists ok, w'. split; [done|]. split; [by apply (same_but_scratch_trans w w1 w')|].
        split; [done|]. rewrite Hok, Forall_cons, fmap_cons, Hid.
        assert (Heqid : forall id, occ id (id_ b :: (block_id w <$> blocks)) =
          (if decide (id_ b = id) then 1 else 0) + occ id (block_id w <$> blocks))
          by (intros; apply occ_cons).
        change (block_id w1) with (block_id w). change (owned w1) with (owned w).
        assert (Hmc : forall id, marked_count (pool w1) id =
          marked_count (pool w) id + (if decide (id_ b = id) then 1 else 0))
          by (intros; by apply mark_occurrence_count).
        split; intros Hx.
        -- destruct Hx as [Hf Hx]. split; [by split|]. intros id' a' b' Hs' Ha'.
           rewrite Heqid. specialize (Hx _ _ _ Hs' Ha'). rewrite Hmc in Hx. lia.
        -- destruct Hx as [[_ Hf] Hx]. split; [done|]. intros id' a' b' Hs' Ha'.
           specialize (Hx _ _ _ Hs' Ha'). rewrite Heqid in Hx. rewrite Hmc. lia.
    + rewrite orb_true_r.
      exists false, w. rewrite Forall_cons. repeat (split; [done|]). intros [[(a' & b' & [= <-] & Ha' & Hs') _] _].
      simplify_eq. rewrite (proj2 (slot_holds_iff _ _ _) Hs') in Hs. done.
Qed.
End CanFree.

Section FreeFacts.
Context {O : Type} `{BlockReferenceObserver O}.
Implicit Types w : world O.

(** Dropping [k] references of a block. *)
Definition drop_refs (k : nat) (b : Block) : Block :=
  if ref_count_ b =? k then ClearIdentity (set_ref_count 0 b)
  else set_ref_count (ref_count_ b - k) b.

(** The effect of freeing [blocks] on the heap and the table: each owned block
    loses as many references as it occurs, and a block left with none leaves
    the table. *)
Record freed w (blocks : list (option addr)) w' : Prop := mk_freed
  { fr_wf : pool_wf w';
    fr_block_size : block_size_ (pool w') = block_size_ (pool w);
    fr_capacity : pool_capacity_ (pool w') = pool_capacity_ (pool w);
    fr_free : forall id, blocks_ (pool w) !! id = Some None -> blocks_ (pool w') !! id = Some None;
    fr_owned : forall id a b, blocks_ (pool w) !! id = Some (Some a) -> heap w !! a = Some b ->
      let k := occ id (block_id w <$> blocks) in
      heap w' !! a = Some (if k =? 0 then b else drop_refs k b) /\
      blocks_ (pool w') !! id = Some (if ref_count_ b =? k then None else Some a);
    fr_other : forall a, (forall id, blocks_ (pool w) !! id <> Some (Some a)) ->
      heap w' !! a = heap w !! a }.

Definition released_world (a : addr) (b : Block) (o : O) w : world O :=
  mkWorld (<[a := drop_refs 1 b]> (heap w)) (next_addr w)
    (if ref_count_ b =? 1 then set_blocks (<[id_ b := None]> (blocks_ (pool w))) (pool w)
     else pool w) o.

(** One release: the observer may refuse (and the process terminates). *)
Lemma release_at_spec a b w :
  heap w !! a = Some b -> 0 < ref_count_ b ->
  (exists o, release_at a b w = (Ok (ref_count_ b =? 1), released_world a b o w)) \/
  (exists w' c, release_at a b w = (Terminate, w') /\
     reference_observer_cookie_ b = Some c /\ ref_count_ b = 2 /\
     OnBlockBecameReclaimable a c (observer w) = None).
Proof.
  intros Ha Href. unfold release_at, ReleaseRef.
  destruct (ref_count_ b) as [|n] eqn:Hr; [lia|].
  erewrite bind_ok by done. cbn iota beta. erewrite bind_ok by done. erewrite bind_ok by done.
  unfold released_world, drop_refs. rewrite Hr. simpl. rewrite Nat.sub_0_r.
  destruct (Nat.eqb_spec n 1) as [->|Hn1]; simpl.
  - destruct (reference_observer_cookie_ b) as [c|] eqn:Hc;
      destruct (reference_observer_ (pool w)) eqn:Hobs; simpl;
      try (left; by exists (observer w)).
    unfold mbind, M_bind, notify_reclaimable. simpl.
    destruct (OnBlockBecameReclaimable a c (observer w)) as [o|] eqn:Ho.
    + left. by exists o.
    + right. eauto 8.
  - destruct (Nat.eqb_spec n 0) as [->|Hn0]; left; exists (observer w); simpl; [|by destruct n].
    unfold_m. unfold set_heap, set_pool. simpl. by rewrite insert_insert_eq.
Qed.

Lemma drop_refs_wf block_size id b k :
  block_wf block_size id b -> k < ref_count_ b -> block_wf block_size id (drop_refs k b).
Proof.
  intros [? ? ? ? ?] Hk. unfold drop_refs. destruct (Nat.eqb_spec (ref_count_ b) k); [lia|].
  split; simpl; auto. lia.
Qed.

Lemma released_world_wf a b o w :
  pool_wf w -> heap w !! a = Some b -> blocks_ (pool w) !! id_ b = Some (Some a) ->
  pool_wf (released_world a b o w).
Proof.
  intros Hwf Ha Hs. destruct (pw_slot _ Hwf _ _ Hs) as (b' & Ha' & Hbw).
  rewrite Ha in Ha'. injection Ha' as <-.
  assert (Hlt : a < next_addr w) by (by eapply pw_fresh).
  pose proof Hwf as [? ? ? ? ? ? Hslot Hfresh].
  split; unfold released_world; simpl;
    try (destruct (Nat.eqb_spec (ref_count_ b) 1); simpl; rewrite ?length_insert; by auto).
  - intros id a' Hid.
    assert (Hid' : blocks_ (pool w) !! id = Some (Some a') /\ (id = id_ b -> ref_count_ b <> 1)).
    { destruct (Nat.eqb_spec (ref_count_ b) 1) as [E|E]; [|by auto]. simpl in Hid.
      destruct (decide (id = id_ b)) as [->|Hne].
      - rewrite list_lookup_insert_eq in Hid by (by eapply lookup_lt_Some). done.
      - rewrite list_lookup_insert_ne in Hid by done. done. }
    destruct Hid' as [Hid' Href].
    assert (Hbs : block_size_ (if ref_count_ b =? 1 then
      set_blocks (<[id_ b := None]> (blocks_ (pool w))) (pool w) else pool w) =
      block_size_ (pool w)) by (by destruct (ref_count_ b =? 1)).
    rewrite Hbs. destruct (decide (a' = a)) as [->|Hne].
    + rewrite lookup_insert_eq. eexists. split; [done|].
      destruct (Hslot _ _ Hid') as (b1 & Hb1 & Hw1). rewrite Ha in Hb1. injection Hb1 as <-.
      apply drop_refs_wf; [done|]. pose proof (bw_refs _ _ _ Hw1).
      pose proof (Href (eq_sym (bw_id _ _ _ Hw1))). lia.
    + rewrite lookup_insert_ne by done. by apply Hslot.
  - intros a' b'. destruct (decide (a' = a)) as [->|Hne]; [by intros _|].
    rewrite lookup_insert_ne by done. apply Hfresh.
Qed.

(** Two owned blocks with the same address sit in the same slot. *)
Lemma slot_unique w id1 id2 a :
  pool_wf w -> blocks_ (pool w) !! id1 = Some (Some a) ->
  blocks_ (pool w) !! id2 = Some (Some a) -> id1 = id2.
Proof.
  intros Hwf H1 H2. destruct (pw_slot _ Hwf _ _ H1) as (b1 & Hb1 & [? _ _ _ _]).
  destruct (pw_slot _ Hwf _ _ H2) as (b2 & Hb2 & [? _ _ _ _]). congruence.
Qed.
End FreeFacts.

Section FreeLoop.
Context {O : Type} `{BlockReferenceObserver O}.
Implicit Types w : world O.

(** Ids of handles do not change when a release keeps every block in the heap. *)
Lemma block_id_released a b o w block :
  heap w !! a = Some b -> block_id (released_world a b o w) block = block_id w block.
Proof.
  intros Ha. destruct block as [a'|]; simpl; [|done].
  destruct (decide (a' = a)) as [->|Hne].
  - rewrite lookup_insert_eq, Ha. unfold drop_refs. by destruct (ref_count_ b =? 1).
  - by rewrite lookup_insert_ne.
Qed.

Lemma block_ids_released a b o w (blocks : list (option addr)) :
  heap w !! a = Some b -> block_id (released_world a b o w) <$> blocks = block_id w <$> blocks.
Proof. intros Ha. apply list_fmap_ext. intros. by apply block_id_released. Qed.

Lemma released_slot a b o w id :
  blocks_ (pool (released_world a b o w)) !! id =
  (if decide (id = id_ b /\ ref_count_ b = 1 /\ is_Some (blocks_ (pool w) !! id))
   then Some None else blocks_ (pool w) !! id).
Proof.
  unfold released_world. simpl. destruct (Nat.eqb_spec (ref_count_ b) 1) as [E|E]; simpl.
  - destruct (decide (id = id_ b)) as [->|Hne].
    + case_decide as Hd.
      * apply list_lookup_insert_eq. apply lookup_lt_is_Some_1. tauto.
      * rewrite list_lookup_insert. rewrite decide_False; [done|].
        intros [_ Hlt]. destruct Hd. split; [done|]. split; [done|]. by apply lookup_lt_is_Some_2.
    + rewrite list_lookup_insert_ne by done. rewrite decide_False; naive_solver.
  - rewrite decide_False; naive_solver.
Qed.

Lemma freeable_step a b o w blocks :
  pool_wf w -> heap w !! a = Some b -> blocks_ (pool w) !! id_ b = Some (Some a) ->
  freeable w (Some a :: blocks) -> freeable (released_world a b o w) blocks.
Proof.
  intros Hwf Ha Hs [Hall Hle]. apply Forall_cons in Hall as [_ Hall].
  assert (Hself : occ (id_ b) (block_id w <$> Some a :: blocks) =
    S (occ (id_ b) (block_id w <$> blocks))).
  { rewrite fmap_cons, occ_cons. simpl. rewrite Ha. by rewrite decide_True. }
  pose proof (Hle _ _ _ Hs Ha) as Href. rewrite Hself in Href.
  assert (Hne : forall block, block ∈ blocks -> ref_count_ b = 1 -> block_id w block <> id_ b).
  { intros block Hin Hr1 Heq. assert (id_ b ∈ block_id w <$> blocks) as Hocc%occ_pos; [|lia].
    apply list_elem_of_fmap. eauto. }
  split.
  - rewrite Forall_forall in Hall |- *. intros block Hin.
    destruct (Hall _ Hin) as (a' & b' & -> & Ha' & Hs').
    assert (Hslot : blocks_ (pool (released_world a b o w)) !! id_ b' = Some (Some a')).
    { rewrite released_slot, decide_False; [done|]. intros (He & Hr1 & _).
      apply (Hne _ Hin Hr1). simpl. by rewrite Ha'. }
    destruct (decide (a' = a)) as [->|Hna].
    + rewrite Ha in Ha'. injection Ha' as <-. exists a, (drop_refs 1 b). simpl.
      rewrite lookup_insert_eq. repeat split.
      assert (Hid : id_ (drop_refs 1 b) = id_ b)
        by (unfold drop_refs; by destruct (ref_count_ b =? 1)).
      rewrite Hid. exact Hslot.
    + exists a', b'. simpl. by rewrite lookup_insert_ne.
  - intros id a' b' Hs' Ha'. rewrite block_ids_released by done.
    rewrite released_slot in Hs'. case_decide as Hd; [done|].
    simpl in Ha'. destruct (decide (a' = a)) as [->|Hna].
    + rewrite lookup_insert_eq in Ha'. injection Ha' as <-.
      pose proof (slot_unique _ _ _ _ Hwf Hs Hs') as <-.
      assert (ref_count_ b <> 1) by (intros E; apply Hd; split; [done|]; split; eauto).
      unfold drop_refs. destruct (Nat.eqb_spec (ref_count_ b) 1); [done|]. simpl. lia.
    + rewrite lookup_insert_ne in Ha' by done.
      specialize (Hle _ _ _ Hs' Ha'). rewrite fmap_cons, occ_cons in Hle. lia.
Qed.

Lemma freed_step a b o w blocks w' :
  pool_wf w -> heap w !! a = Some b -> blocks_ (pool w) !! id_ b = Some (Some a) ->
  freeable w (Some a :: blocks) -> freed (released_world a b o w) blocks w' ->
  freed w (Some a :: blocks) w'.
Proof.
  intros Hwf Ha Hs [_ Hle] [Hwf' Hbs Hcap Hfree Hown Hoth].
  assert (Hself : occ (id_ b) (block_id w <$> Some a :: blocks) =
    S (occ (id_ b) (block_id w <$> blocks))).
  { rewrite fmap_cons, occ_cons. simpl. rewrite Ha. by rewrite decide_True. }
  pose proof (Hle _ _ _ Hs Ha) as Href. rewrite Hself in Href.
  rewrite block_ids_released in Hown by done.
  assert (Hpool : block_size_ (pool (released_world a b o w)) = block_size_ (pool w) /\
    pool_capacity_ (pool (released_world a b o w)) = pool_capacity_ (pool w))
    by (simpl; by destruct (ref_count_ b =? 1)).
  split; [done|by rewrite Hbs; apply Hpool|by rewrite Hcap; apply Hpool|..].
  - intros id Hid. apply Hfree. rewrite released_slot. by case_decide.
  - intros id a' b' Hs' Ha' k. subst k. destruct (decide (id = id_ b)) as [->|Hne].
    + rewrite Hs in Hs'. injection Hs' as <-. rewrite Ha in Ha'. injection Ha' as <-.
      rewrite Hself. destruct (decide (ref_count_ b = 1)) as [E|E].
      * assert (Hz : occ (id_ b) (block_id w <$> blocks) = 0) by lia. rewrite Hz, E. simpl.
        rewrite Hoth.
        -- simpl. rewrite lookup_insert_eq. split; [done|]. apply Hfree.
           rewrite released_slot, decide_True; [done|]. split; [done|]. split; [done|]. eauto.
        -- intros id Hid. rewrite released_slot in Hid. case_decide as Hd; [done|].
           pose proof (slot_unique _ _ _ _ Hwf Hs Hid) as <-. apply Hd. eauto.
      * destruct (Hown (id_ b) a (drop_refs 1 b)) as [Hh Hb].
        { rewrite released_slot, decide_False; [done|]. naive_solver. }
        { simpl. apply lookup_insert_eq. }
        rewrite Hh, Hb. unfold drop_refs.
        destruct (Nat.eqb_spec (ref_count_ b) 1) as [|_]; [done|]. simpl.
        set (k := occ (id_ b) (block_id w <$> blocks)) in *.
        destruct (Nat.eqb_spec k 0) as [->|Hk]; simpl.
        { by destruct (Nat.eqb_spec (ref_count_ b) 1), (Nat.eqb_spec (ref_count_ b - 1) 0); try lia. }
        destruct (Nat.eqb_spec (ref_count_ b - 1) k), (Nat.eqb_spec (ref_count_ b) (S k));
          try lia; [done|].
        unfold set_ref_count. simpl. split; do 2 f_equal. lia.
    + assert (Hocc : occ id (block_id w <$> Some a :: blocks) = occ id (block_id w <$> blocks)).
      { rewrite fmap_cons, occ_cons. simpl. rewrite Ha, decide_False by congruence. done. }
      rewrite Hocc. apply Hown.
      * rewrite released_slot, decide_False; naive_solver.
      * simpl. rewrite lookup_insert_ne; [done|]. intros <-. apply Hne.
        exact (slot_unique w id (id_ b) a Hwf Hs' Hs).
  - intros a' Ha'. rewrite Hoth.
    + simpl. rewrite lookup_insert_ne; [done|]. intros <-. by apply (Ha' (id_ b)).
    + intros id Hid. rewrite released_slot in Hid. case_decide; [done|]. by eapply Ha'.
Qed.
End FreeLoop.

Section FreeTheorems.
Context {O : Type} `{BlockReferenceObserver O}.
Implicit Types w : world O.

(** The observer refused a callback. *)
Definition observer_refused : Prop :=
  exists a c o, OnBlockBecameReclaimable (O := O) a c o = None.

Lemma freed_nil w : pool_wf w -> freed w [] w.
Proof.
  intros Hwf. split; auto. intros id a b Hs Ha k. subst k. unfold occ. simpl.
  split; [done|]. destruct (pw_slot _ Hwf _ _ Hs) as (b' & Hb' & Hbw).
  pose proof (bw_refs _ _ _ Hbw). destruct (Nat.eqb_spec (ref_count_ b) 0); [|done].
  simplify_eq. lia.
Qed.

Lemma free_loop_spec blocks : forall w,
  pool_wf w -> freeable w blocks ->
  (exists w', for_each free_one blocks w = (Ok tt, w') /\ freed w blocks w') \/
  (exists w', for_each free_one blocks w = (Terminate, w') /\ observer_refused).
Proof.
  induction blocks as [|block blocks IH]; intros w Hwf Hf; simpl.
  - left. exists w. split; [done|]. by apply freed_nil.
  - pose proof Hf as [Hall _]. apply Forall_cons in Hall as [(a & b & -> & Ha & Hs) _].
    destruct (pw_slot _ Hwf _ _ Hs) as (b' & Hb' & Hbw). rewrite Ha in Hb'. injection Hb' as <-.
    destruct (release_at_spec a b w Ha (bw_refs _ _ _ Hbw))
      as [(o & Hrel)|(w1 & c & Hrel & _ & _ & Href)].
    + assert (Hone : free_one (Some a) w = (Ok tt, released_world a b o w)).
      { simpl. erewrite bind_ok by (by apply deref_ok). by erewrite bind_ok. }
      rewrite (bind_ok _ _ _ _ _ Hone).
      destruct (IH (released_world a b o w)) as [(w' & Hrun & Hfr)|Hterm].
      * by apply released_world_wf.
      * by apply freeable_step.
      * left. exists w'. split; [done|]. by eapply freed_step.
      * by right.
    + right. exists w1. split; [|by exists a, c, (observer w)].
      unfold mbind at 1, M_bind at 1. simpl. erewrite bind_ok by (by apply deref_ok).
      unfold mbind, M_bind. by rewrite Hrel.
Qed.

Lemma freeable_scratch w w' blocks :
  same_but_scratch w w' -> freeable w blocks <-> freeable w' blocks.
Proof.
  intros (Hh & _ & _ & ms & cs & e & Hp). unfold freeable, owned, block_id. rewrite Hh, Hp. done.
Qed.

Lemma freed_scratch w1 w blocks w' :
  same_but_scratch w1 w -> freed w blocks w' -> freed w1 blocks w'.
Proof.
  intros (Hh & _ & _ & ms & cs & e & Hp) [? Hbs Hcap Hfree Hown Hoth].
  unfold block_id in Hown. rewrite Hh, Hp in *. by split.
Qed.

Lemma freed_generation w blocks w' :
  freed w blocks w' -> freed w blocks (set_pool (RecordOccupancyMutation (pool w')) w').
Proof. intros [[] ? ? ? ? ?]. split; auto. by split. Qed.

(** The epoch-stamped check, run on a well-formed state. *)
Lemma CanFreeValidated_spec w blocks :
  pool_wf w -> handles_valid w blocks ->
  exists ok w', CanFreeValidated blocks w = (Ok ok, w') /\ same_but_scratch w w' /\
    pool_wf w' /\ (ok = true <-> freeable w blocks).
Proof.
  intros Hwf Hv. destruct (next_epoch_fresh w Hwf) as (Hwf1 & Hss1 & Hzero).
  set (w1 := set_pool (next_epoch (pool w)) w) in *.
  destruct (can_free_loop_spec blocks w1 Hwf1) as (ok & w' & Hrun & Hss & Hwf' & Hok).
  - intros a Hin. apply Hv in Hin. done.
  - intros id a b _ _. rewrite Hzero. lia.
  - exists ok, w'. unfold CanFreeValidated. rewrite (bind_ok (modify _) _ w tt w1) by done.
    split; [done|]. split; [by apply (same_but_scratch_trans w w1 w')|]. split; [done|].
    rewrite Hok, (freeable_scratch w w1) by done. unfold freeable.
    setoid_rewrite Hzero. done.
Qed.

Lemma Free_spec w blocks :
  pool_wf w -> handles_valid w blocks -> freeable w blocks ->
  (exists w', Free blocks w = (Ok tt, w') /\ freed w blocks w') \/
  (exists w', Free blocks w = (Terminate, w') /\ observer_refused).
Proof.
  intros Hwf Hv Hf.
  destruct (ValidateFree_spec w blocks Hwf Hv) as [[Hval _]|(e & _ & Hno)]; [|done].
  destruct (CanFreeValidated_spec w blocks Hwf Hv) as (ok & w1 & Hcan & Hss & Hwf1 & Hok).
  rewrite (proj2 Hok Hf) in Hcan. apply (freeable_scratch _ _ _ Hss) in Hf.
  unfold Free. rewrite (bind_ok _ _ _ _ _ Hval). unfold FreeValidated, noexcept.
  rewrite (bind_ok _ _ _ _ _ Hcan). simpl.
  destruct (free_loop_spec blocks w1 Hwf1 Hf) as [(w' & Hrun & Hfr)|(w' & Hrun & Href)].
  - left. rewrite (bind_ok _ _ _ _ _ Hrun). apply (freed_scratch w) in Hfr; [|done].
    case_bool_decide; [by exists w'|].
    exists (set_pool (RecordOccupancyMutation (pool w')) w'). split; [done|].
    by apply freed_generation.
  - right. exists w'. split; [|done]. unfold mbind, M_bind. by rewrite Hrun.
Qed.
End FreeTheorems.

(** ** Every operation keeps the invariant *)

Section Preservation.
Context {O : Type} `{BlockReferenceObserver O}.
Implicit Types w : world O.

(** A well-formed state in which the handles in [D] are alive. *)
Definition alive (D : addr -> Prop) w : Prop :=
  pool_wf w /\ forall a, D a -> is_Some (heap w !! a).

(** Replacing an object by one that is still well formed at its slot. *)
Lemma update_wf a b b' w :
  pool_wf w -> heap w !! a = Some b ->
  (forall id, block_wf (block_size_ (pool w)) id b -> block_wf (block_size_ (pool w)) id b') ->
  pool_wf (set_heap (<[a := b']> (heap w)) w).
Proof.
  intros Hwf Ha Hb. pose proof Hwf as [? ? ? ? ? ? Hslot Hfresh]. split; simpl; auto.
  - intros id a' Hid. destruct (Hslot _ _ Hid) as (b1 & Hb1 & Hw1).
    destruct (decide (a' = a)) as [->|Hne].
    + rewrite lookup_insert_eq. simplify_eq. eauto.
    + rewrite lookup_insert_ne by done. eauto.
  - intros a' b1. destruct (decide (a' = a)) as [->|Hne].
    + intros _. by eapply Hfresh.
    + rewrite lookup_insert_ne by done. apply Hfresh.
Qed.

Lemma update_alive D a b b' w :
  alive D w -> heap w !! a = Some b ->
  (forall id, block_wf (block_size_ (pool w)) id b -> block_wf (block_size_ (pool w)) id b') ->
  alive D (set_heap (<[a := b']> (heap w)) w).
Proof.
  intros [Hwf Hd] Ha Hb. split; [by eapply update_wf|]. intros a' Ha'. simpl.
  destruct (decide (a' = a)) as [->|Hne]; [rewrite lookup_insert_eq; by eexists|].
  rewrite lookup_insert_ne by done. auto.
Qed.

Lemma triple_update D a b b' R :
  (forall bs id, block_wf bs id b -> block_wf bs id b') ->
  triple (fun w => alive D w /\ heap w !! a = Some b) (update a b') (fun _ => alive D) R.
Proof. intros Hb w [Hw Ha]. simpl. eapply update_alive; eauto. Qed.

Lemma triple_deref D a R :
  D a -> triple (alive D) (deref a) (fun b w => alive D w /\ heap w !! a = Some b) R.
Proof.
  intros Ha w [Hwf Hd]. unfold deref. destruct (Hd a Ha) as [b Hb]. rewrite Hb. done.
Qed.

Definition handle_in (D : addr -> Prop) (block : option addr) : Prop :=
  forall a, block = Some a -> D a.

(** [Owns] reads only; a positive answer is ownership. *)
Lemma triple_Owns D block R :
  handle_in D block ->
  triple (alive D) (Owns block) (fun r w => alive D w /\ (r = true -> owned w block)) R.
Proof.
  intros Hin w Hw. unfold Owns. destruct block as [a|]; simpl; [|done].
  destruct Hw as [Hwf Hd]. destruct (Hd a (Hin a eq_refl)) as [b Hb].
  rewrite (bind_ok _ _ _ _ _ (deref_ok _ _ _ Hb)). unfold_m. split; [done|].
  intros [_ Hs]%andb_prop. apply slot_holds_iff in Hs. by exists a, b.
Qed.

(** Adding a reference keeps the table. *)
Lemma triple_add_ref_at D bl a b R :
  triple (fun w => (alive D w /\ blocks_ (pool w) = bl) /\ heap w !! a = Some b)
    (add_ref_at a b) (fun _ w => alive D w /\ blocks_ (pool w) = bl) R.
Proof.
  intros w [[Hw Hbl] Ha]. unfold add_ref_at.
  set (w1 := set_heap (<[a := Block_AddRef b]> (heap w)) w).
  assert (Hw1 : alive D w1).
  { eapply update_alive; eauto. intros id [? ? ? ? ?]. split; auto. simpl. lia. }
  rewrite (bind_ok (update a _) _ w tt w1) by done.
  rewrite (bind_ok (gets pool) _ w1 (pool w1) w1) by done.
  destruct (_ && _); [|by split]. unfold notify_referenced.
  destruct (reference_observer_cookie_ b) as [c|]; [|by split].
  destruct (OnBlockBecameReferenced a c (observer w1)); [|done].
  split; [|done]. destruct Hw1 as [[] ?]. by split; [split|].
Qed.

Lemma triple_release_at D a b R :
  triple (fun w => alive D w /\ heap w !! a = Some b /\
            blocks_ (pool w) !! id_ b = Some (Some a)) (release_at a b) (fun _ => alive D) R.
Proof.
  intros w ([Hwf Hd] & Ha & Hs). destruct (pw_slot _ Hwf _ _ Hs) as (b' & Hb' & Hbw).
  rewrite Ha in Hb'. injection Hb' as <-. destruct (release_at_spec a b w Ha (bw_refs _ _ _ Hbw))
    as [(o & ->)|(w1 & c & -> & _)]; [|done].
  split; [by apply released_world_wf|]. intros a' Ha'. simpl.
  destruct (decide (a' = a)) as [->|Hne]; [rewrite lookup_insert_eq; by eexists|].
  rewrite lookup_insert_ne by done. auto.
Qed.
End Preservation.

Section Operations.
Context {O : Type} `{BlockReferenceObserver O}.
Implicit Types w : world O.

(** The calls a client makes.  [AddSlots], [SetIdentity] and [ClearIdentity]
    are calls on a block, the others calls on the pool. *)
Inductive pool_call : Type :=
  | CallAllocate (num_slots : nat) (mark_slots_used : bool)
  | CallFree (blocks : list (option addr))
  | CallAddRefs (blocks : list (option addr))
  | CallAddRef (block : option addr)
  | CallRelease (block : option addr)
  | CallSetObserver (obs : option addr)
  | CallSetCookie (block cookie : option addr)
  | CallClearCookie (block : option addr)
  | CallRollback (blocks : list (option addr))
  | CallAddSlots (a : addr) (slots : nat)
  | CallSetIdentity (a : addr) (i : option BlockIdentity)
  | CallClearIdentity (a : addr).

Definition on_block (a : addr) (f : Block -> outcome BlockError Block) :
    M (world O) BlockError unit :=
  b ← deref a; b' ← lift (f b); update a b'.

Definition run_call (c : pool_call) : M (world O) BlockError unit :=
  match c with
  | CallAllocate n mark => _ ← AllocateBlocks_ n mark; mret tt
  | CallFree blocks => Free blocks
  | CallAddRefs blocks => AddRefs blocks
  | CallAddRef block => AddRef block
  | CallRelease block => Release block
  | CallSetObserver obs => SetReferenceObserver obs
  | CallSetCookie block cookie => SetReferenceObserverCookie block cookie
  | CallClearCookie block => ClearReferenceObserverCookie block
  | CallRollback blocks => RollbackReservedBlocks blocks
  | CallAddSlots a n => on_block a (AddSlots n)
  | CallSetIdentity a i => on_block a (SetIdentity i)
  | CallClearIdentity a => on_block a (fun b => Ok (ClearIdentity b))
  end.

Definition call_handles (c : pool_call) : list (option addr) :=
  match c with
  | CallFree blocks | CallAddRefs blocks | CallRollback blocks => blocks
  | CallAddRef b | CallRelease b | CallSetCookie b _ | CallClearCookie b => [b]
  | CallAddSlots a _ | CallSetIdentity a _ | CallClearIdentity a => [Some a]
  | _ => []
  end.

(** States a client can drive the pool into.  A call that throws leaves the
    state it threw in; a call that terminates leaves no state. *)
Inductive reachable (block_size num_blocks : nat) (o : O) : world O -> Prop :=
  | reach_init : reachable block_size num_blocks o (initial_world block_size num_blocks o)
  | reach_call w c r w' :
      reachable block_size num_blocks o w -> handles_valid w (call_handles c) ->
      run_call c w = (r, w') -> r <> Terminate ->
      reachable block_size num_blocks o w'.

Lemma on_block_triple D a f R :
  D a -> (forall w, alive D w -> R w) ->
  (forall bs id b b', block_wf bs id b -> f b = Ok b' -> block_wf bs id b') ->
  (forall b, f b <> Undefined) ->
  triple (alive D) (on_block a f) (fun _ => alive D) R.
Proof.
  intros Ha HR Hf Hu. unfold on_block. eapply triple_bind; [by apply triple_deref|].
  intros b w [Hw Hb]. specialize (Hu b). unfold_m.
  destruct (f b) as [b'|e| |] eqn:E; auto.
  eapply update_alive; eauto.
Qed.

Lemma triple_ValidateOwnership_ids D blocks R :
  Forall (handle_in D) blocks -> (forall w, alive D w -> R w) ->
  triple (alive D) (ValidateOwnership blocks false)
    (fun occs w => alive D w /\ forall id k, (id, k) ∈ occs ->
       exists a b, blocks_ (pool w) !! id = Some (Some a) /\ heap w !! a = Some b) R.
Proof.
  intros Hin HR w Hw. pose proof Hw as [Hwf Hd].
  assert (Hv : handles_valid w blocks).
  { intros a Ha. apply Hd. rewrite Forall_forall in Hin. by apply (Hin _ Ha). }
  assert (Hloop : forall occs, for_each (check_references false) occs w = (Ok tt, w))
    by (induction occs; done).
  unfold ValidateOwnership. destruct (all_owned_dec w blocks Hv) as [Ho|Hno].
  - erewrite bind_ok by (by apply validate_ids_owned). erewrite bind_ok by done.
    split; [done|]. intros id k. by apply occurrences_owned.
  - destruct (validate_ids_not_owned w blocks Hwf Hv Hno) as (e & He).
    rewrite (bind_throw _ _ _ _ _ He). by apply HR.
Qed.

Lemma triple_AddRefs D blocks R :
  Forall (handle_in D) blocks -> (forall w, alive D w -> R w) ->
  triple (alive D) (AddRefs blocks) (fun _ => alive D) R.
Proof.
  intros Hin HR. unfold AddRefs. eapply triple_bind; [by apply triple_ValidateOwnership_ids|].
  intros occs w [Hw Hocc]. set (bl := blocks_ (pool w)) in Hocc.
  assert (Ht : triple (fun w => alive D w /\ blocks_ (pool w) = bl)
    (for_each (fun oc : nat * nat =>
      for_each (fun _ : nat => ab ← block_at oc.1; add_ref_at ab.1 ab.2) (seq 0 oc.2)) occs)
    (fun _ w => alive D w /\ blocks_ (pool w) = bl) R).
  { apply triple_for_each. intros [id k] Hk. apply triple_for_each. intros _ _.
    destruct (Hocc id k Hk) as (a & b0 & Hs & _). intros w1 [Hw1 Hbl]. simpl.
    assert (exists b, heap w1 !! a = Some b) as (b & Hb).
    { pose proof Hw1 as [Hwf _]. rewrite <-Hbl in Hs.
      destruct (pw_slot _ Hwf _ _ Hs) as (b & Hb & _). eauto. }
    rewrite (bind_ok (block_at id) _ w1 (a, b) w1).
    - by apply (triple_add_ref_at D bl a b).
    - unfold block_at. by rewrite Hbl, Hs, Hb. }
  specialize (Ht w (conj Hw eq_refl)). destruct (for_each _ occs w) as [[[]|e| |] w']; auto.
  by apply Ht.
Qed.

Lemma triple_AddRef D block R :
  handle_in D block -> (forall w, alive D w -> R w) ->
  triple (alive D) (AddRef block) (fun _ => alive D) R.
Proof.
  intros Hin HR. unfold AddRef. eapply triple_bind; [by apply triple_Owns|].
  intros r. destruct block as [a|]; [|intros w [Hw _]; by apply HR].
  destruct r; [|intros w [Hw _]; by apply HR]. intros w [Hw _]. simpl.
  pose proof Hw as [_ Hd].
  destruct (Hd a (Hin a eq_refl)) as [b Hb]. rewrite (bind_ok _ _ _ _ _ (deref_ok _ _ _ Hb)).
  pose proof (triple_add_ref_at D (blocks_ (pool w)) a b R w (conj (conj Hw eq_refl) Hb)) as Ht.
  destruct (add_ref_at a b w) as [[[]|e| |] w']; auto. by apply Ht.
Qed.

Lemma generation_alive D w :
  alive D w -> alive D (set_pool (RecordOccupancyMutation (pool w)) w).
Proof. intros [[] Hd]. split; [by split|done]. Qed.

Lemma triple_Release D block R :
  handle_in D block -> (forall w, alive D w -> R w) ->
  triple (alive D) (Release block) (fun _ => alive D) R.
Proof.
  intros Hin HR. unfold Release. eapply triple_bind; [by apply triple_Owns|].
  intros r. destruct block as [a|]; [|intros w [Hw _]; by apply HR].
  destruct r; [|intros w [Hw _]; by apply HR]. intros w [Hw Hown]. simpl.
  destruct (Hown eq_refl) as (a' & b & [= <-] & Hb & Hs).
  rewrite (bind_ok _ _ _ _ _ (deref_ok _ _ _ Hb)).
  pose proof (triple_release_at D a b R w (conj Hw (conj Hb Hs))) as Ht.
  unfold mbind, M_bind. destruct (release_at a b w) as [[[]|e| |] w']; auto.
  simpl. by apply generation_alive.
Qed.

Lemma rollback_loop_alive D blocks : Forall (handle_in D) blocks ->
  forall released w, alive D w -> exists r w', rollback_loop released blocks w = (Ok r, w') /\
    alive D w' /\ heap w' = heap w /\ observer w' = observer w.
Proof.
  induction 1 as [|block blocks Hin _ IH]; intros released w Hw; [by exists released, w|].
  assert (Hone : exists r w1, rollback_one released block w = (Ok r, w1) /\ alive D w1 /\
    heap w1 = heap w /\ observer w1 = observer w).
  { destruct block as [a|]; [|by exists released, w]. pose proof Hw as [Hwf Hd].
    destruct (Hd a (Hin a eq_refl)) as [b Hb]. simpl.
    rewrite (bind_ok _ _ _ _ _ (deref_ok _ _ _ Hb)), (bind_ok (gets pool) _ w (pool w) w) by done.
    destruct (_ && _); [|by exists released, w].
    eexists true, _. split; [done|]. split; [|done]. split; [|done].
    destruct Hwf as [? ? ? ? ? ? Hslot ?]. split; simpl; auto; [by rewrite length_insert|].
    intros id a' [[_ [??]]|[_ Hid]]%list_lookup_insert_Some; [done|]. by apply Hslot. }
  destruct Hone as (r & w1 & Hrun & Hw1 & Hh & Ho). simpl. rewrite (bind_ok _ _ _ _ _ Hrun).
  destruct (IH r w1 Hw1) as (r' & w' & Hrun' & Hw' & Hh' & Ho').
  exists r', w'. split; [done|]. split; [done|]. split; congruence.
Qed.
End Operations.

Section Reachability.
Context {O : Type} `{BlockReferenceObserver O}.
Implicit Types w : world O.

Lemma AddSlots_wf n bs id b b' : block_wf bs id b -> AddSlots n b = Ok b' -> block_wf bs id b'.
Proof.
  unfold AddSlots, EmptySlots. intros [? ? ? ? Hid] Hadd.
  destruct (Nat.ltb_spec (capacity_ b - size_ b) n); [done|]. injection Hadd as <-.
  split; simpl; auto; [lia|]. intros i Hi. destruct (Hid i Hi). lia.
Qed.

Lemma SetIdentity_wf i bs id b b' :
  block_wf bs id b -> SetIdentity i b = Ok b' -> block_wf bs id b'.
Proof.
  unfold SetIdentity, IsFull. intros [? ? ? ? Hid] Hset. destruct i as [i|]; [|done].
  destruct (Nat.eqb_spec (size_ b) (capacity_ b)); [|done]. simpl in Hset.
  destruct (Nat.eqb_spec (length (Tokens i)) (capacity_ b)); [|done]. injection Hset as <-.
  split; simpl; auto. by intros i' [= <-].
Qed.

Lemma set_cookie_wf c bs id b : block_wf bs id b -> block_wf bs id (set_cookie c b).
Proof. intros []. by split. Qed.

Lemma triple_cookie D block c R e :
  handle_in D block -> (forall w, alive D w -> R w) ->
  triple (alive D)
    (owned ← Owns block;
     match block with
     | Some a => if negb owned then throw e else b ← deref a; update a (set_cookie c b)
     | None => throw e
     end) (fun _ => alive D) R.
Proof.
  intros Hin HR. eapply triple_bind; [by apply triple_Owns|].
  intros r. destruct block as [a|]; [|intros w [Hw _]; by apply HR].
  destruct r; [|intros w [Hw _]; by apply HR]. simpl.
  intros w [Hw _]. revert w Hw. eapply triple_bind; [by apply triple_deref, Hin|].
  intros b. apply triple_update. intros. by apply set_cookie_wf.
Qed.

Lemma handles_in D c w :
  D = (fun a => is_Some (heap w !! a)) -> handles_valid w (call_handles c) ->
  Forall (handle_in D) (call_handles c).
Proof. intros -> Hv. apply Forall_forall. intros block Hin a ->. by apply Hv. Qed.

(** Every call of a client keeps the invariant, does not invalidate a handle
    and never runs into undefined behaviour. *)
Lemma run_call_alive D c :
  Forall (handle_in D) (call_handles c) ->
  triple (alive D) (run_call c) (fun _ => alive D) (alive D).
Proof.
  intros Hin. assert (HR : forall w, alive D w -> alive D w) by done.
  destruct c; simpl in Hin |- *.
  - intros w [Hwf Hd]. destruct (decide (BlocksNeeded (pool w) num_slots <= AvailableBlocks (pool w))) as [Hle|n].
    + destruct (AllocateBlocks_allocated num_slots mark_slots_used w) as (hs & w' & Hrun & Hal); auto.
      rewrite (bind_ok _ _ _ _ _ Hrun). split; [by apply Hal|]. intros a Ha.
      destruct (Hd a Ha) as [b Hb]. exists b. by apply Hal.
    + rewrite (bind_throw _ _ _ _ _ (AllocateBlocks_refused num_slots mark_slots_used w Hwf
        (proj2 (Nat.lt_nge _ _) n))). by split.
  - intros w [Hwf Hd].
    assert (Hv : handles_valid w blocks).
    { intros a Ha. apply Hd. rewrite Forall_forall in Hin. by apply (Hin _ Ha). }
    destruct (ValidateFree_spec w blocks Hwf Hv) as [[_ Hf]|(e & Hthrow & _)].
    + destruct (Free_spec w blocks Hwf Hv Hf) as [(w' & -> & Hfr)|(w' & -> & _)]; [|done].
      split; [by apply Hfr|]. intros a Ha. destruct (Hd a Ha) as [b Hb].
      destruct (decide (blocks_ (pool w) !! id_ b = Some (Some a))) as [Hs|Hs].
      * rewrite (proj1 (fr_owned _ _ _ Hfr _ _ _ Hs Hb)). by eexists.
      * rewrite (fr_other _ _ _ Hfr), Hb; [by eexists|]. intros id Hid.
        destruct (pw_slot _ Hwf _ _ Hid) as (b' & Hb' & [Hid' _ _ _ _]). congruence.
    + unfold Free. rewrite (bind_throw _ _ _ _ _ Hthrow). by split.
  - by apply triple_AddRefs.
  - apply Forall_cons in Hin as [Hin _]. by apply triple_AddRef.
  - apply Forall_cons in Hin as [Hin _]. by apply triple_Release.
  - intros w [Hwf Hd]. unfold SetReferenceObserver. rewrite (bind_ok (gets pool) _ w (pool w) w) by done.
    assert (Hset : alive D (set_pool (set_reference_observer obs (pool w)) w)).
    { split; [by destruct Hwf; split|done]. }
    destruct (reference_observer_ (pool w)) as [o|], obs as [o'|]; try done.
    destruct (o =? o'); by simpl.
  - apply Forall_cons in Hin as [Hin _]. unfold SetReferenceObserverCookie.
    destruct cookie as [c|].
    + pose proof (triple_cookie D block (Some c) (alive D) CookieArgument Hin HR) as Ht.
      by destruct block.
    + eapply triple_bind; [by apply triple_Owns|]. intros r w [Hw _]. by destruct block.
  - apply Forall_cons in Hin as [Hin _]. unfold ClearReferenceObserverCookie.
    eapply triple_bind; [by apply triple_Owns|]. intros r.
    destruct block as [a|]; [|apply triple_terminate]. destruct r; [|apply triple_terminate].
    simpl. intros w [Hw _]. revert w Hw. eapply triple_bind; [by apply triple_deref, Hin|].
    intros b. apply triple_update. intros. by apply set_cookie_wf.
  - intros w Hw. unfold RollbackReservedBlocks.
    destruct (rollback_loop_alive D blocks Hin false w Hw) as (r & w' & Hrun & Hw' & _).
    rewrite (bind_ok _ _ _ _ _ Hrun). destruct r; [by apply generation_alive|done].
  - apply Forall_cons in Hin as [Hin _]. apply on_block_triple; [by apply Hin|done|..].
    + apply AddSlots_wf.
    + intros b. unfold AddSlots. by destruct (_ <? _).
  - apply Forall_cons in Hin as [Hin _]. apply on_block_triple; [by apply Hin|done|..].
    + apply SetIdentity_wf.
    + intros b. unfold SetIdentity. repeat case_match; done.
  - apply Forall_cons in Hin as [Hin _]. apply on_block_triple; [by apply Hin|done|..]; [|done].
    intros bs id b b' [] [= <-]. by split.
Qed.

Lemma reachable_wf block_size num_blocks o w :
  0 < block_size -> reachable block_size num_blocks o w -> pool_wf w.
Proof.
  intros Hbs. induction 1 as [|w c r w' _ Hwf Hv Hrun Hr]; [by apply initial_world_wf|].
  set (D := fun a => is_Some (heap w !! a)).
  pose proof (run_call_alive D c (handles_in D c w eq_refl Hv) w (conj Hwf (fun a Ha => Ha))) as Ht.
  rewrite Hrun in Ht. destruct r; [apply Ht|apply Ht|done|done].
Qed.
End Reachability.

(** ** Undoing a reservation *)

Section Rollback.
Context {O : Type} `{BlockReferenceObserver O}.
Implicit Types w : world O.

Lemma rollback_loop_table hs : forall w released,
  pool_wf w -> NoDup hs -> (forall a, a ∈ hs -> owned w (Some a)) ->
  exists w', rollback_loop released (Some <$> hs) w =
      (Ok (released || negb (bool_decide (hs = []))), w') /\
    heap w' = heap w /\ observer w' = observer w /\
    (exists bl, pool w' = set_blocks bl (pool w)) /\
    forall id, blocks_ (pool w') !! id =
      match blocks_ (pool w) !! id with
      | Some (Some a) => if decide (a ∈ hs) then Some None else Some (Some a)
      | o => o
      end.
Proof.
  induction hs as [|a hs IH]; intros w released Hwf Hnd Hown.
  - exists w. rewrite bool_decide_true, orb_false_r by done.
    split; [done|]. split; [done|]. split; [done|]. split.
    + exists (blocks_ (pool w)). by destruct (pool w).
    + intros id. by destruct (blocks_ (pool w) !! id) as [[a|]|].
  - apply NoDup_cons in Hnd as [Hna Hnd].
    destruct (Hown a ltac:(left)) as (a' & b & [= <-] & Hb & Hs).
    set (w1 := set_pool (set_blocks (<[id_ b := None]> (blocks_ (pool w))) (pool w)) w).
    assert (Hrun1 : rollback_one released (Some a) w = (Ok true, w1)).
    { simpl. rewrite (bind_ok _ _ _ _ _ (deref_ok _ _ _ Hb)), (bind_ok (gets pool) _ w (pool w) w) by done.
      rewrite (proj2 (Nat.ltb_lt _ _) (lookup_lt_Some _ _ _ Hs)), (proj2 (slot_holds_iff _ _ _) Hs).
      done. }
    assert (Hslot1 : forall id a', blocks_ (pool w1) !! id = Some (Some a') ->
      blocks_ (pool w) !! id = Some (Some a')).
    { simpl. intros id a' [[_ [??]]|[_ Hid]]%list_lookup_insert_Some; done. }
    assert (Hwf1 : pool_wf w1).
    { destruct Hwf as [? ? ? ? ? ? Hslot ?]. split; simpl; rewrite ?length_insert; auto;
        intros id a' Hid%Hslot1; by apply Hslot. }
    destruct (IH w1 true Hwf1 Hnd) as (w' & Hrun & Hh & Ho & (bl & Hp) & Hbl).
    { intros a' Hin. destruct (Hown a' ltac:(by right)) as (a'' & b' & [= <-] & Hb' & Hs').
      exists a', b'. split; [done|]. split; [done|]. simpl.
      rewrite list_lookup_insert_ne; [done|]. intros Heq. rewrite Heq in Hs.
      rewrite Hs in Hs'. injection Hs' as ->. done. }
    exists w'. rewrite fmap_cons. cbn [rollback_loop]. rewrite (bind_ok _ _ _ _ _ Hrun1), Hrun.
    rewrite (bool_decide_false (a :: hs = [])), orb_true_r by done.
    split; [done|]. split; [done|]. split; [done|]. split; [by exists bl; rewrite Hp|].
    intros id. rewrite Hbl. simpl. destruct (decide (id = id_ b)) as [->|Hne].
    + rewrite list_lookup_insert_eq, Hs by (by eapply lookup_lt_Some).
      rewrite decide_True; [done|left].
    + rewrite list_lookup_insert_ne by done.
      destruct (blocks_ (pool w) !! id) as [[a'|]|] eqn:Hid; try done.
      assert (a' <> a) by (intros ->; destruct Hne; by apply (slot_unique w _ _ a)).
      destruct (decide (a' ∈ hs)) as [Hin|Hnin].
      * rewrite decide_True; [done|by right].
      * rewrite decide_False; [done|]. by intros [?|?]%elem_of_cons.
Qed.

Lemma rollback_allocated w n mark hs w1 :
  pool_wf w -> allocated w n mark hs w1 ->
  exists w2, RollbackReservedBlocks (Some <$> hs) w1 = (Ok tt, w2) /\
    blocks_ (pool w2) = blocks_ (pool w) /\ observer w2 = observer w /\
    (forall a b, heap w !! a = Some b -> heap w2 !! a = Some b).
Proof.
  intros Hwf [Hwf1 _ Hnd _ Hnew _ Hheap Htab Honly Hlen Hobs].
  destruct (rollback_loop_table hs w1 false Hwf1 Hnd) as (w2 & Hrun & Hh & Ho & (bl & Hp) & Hbl).
  { intros a Ha. destruct (Hnew a Ha) as (_ & b & Hb & _ & Hs & _). by exists a, b. }
  assert (Htable : blocks_ (pool w2) = blocks_ (pool w)).
  { apply list_eq. intros id. rewrite Hbl.
    destruct (blocks_ (pool w) !! id) as [[a|]|] eqn:Hid.
    - rewrite (Htab _ _ Hid), decide_False; [done|]. intros Hin.
      destruct (Hnew a Hin) as [Hnone _]. destruct (pw_slot _ Hwf _ _ Hid) as (b & Hb & _). congruence.
    - destruct (blocks_ (pool w1) !! id) as [[a|]|] eqn:Hid1; try done.
      + destruct (Honly _ _ Hid1) as [Hin|Hw]; [|congruence]. by rewrite decide_True.
      + apply lookup_ge_None in Hid1. apply lookup_lt_Some in Hid. lia.
    - apply lookup_ge_None in Hid. rewrite lookup_ge_None_2; [done|]. lia. }
  unfold RollbackReservedBlocks. rewrite (bind_ok _ _ _ _ _ Hrun). simpl.
  case_bool_decide; simpl; eexists; (split; [done|]); simpl; rewrite Ho, Hh; auto.
Qed.
End Rollback.

(** ** Properties of the pool *)

Section PoolProperties.
  Context {O : Type} `{BlockReferenceObserver O}.
  Implicit Types w : world O.

(** An allocation of [num_slots] slots succeeds exactly when enough blocks
    are free.  It then returns that many new handles to distinct blocks taken
    from free slots, hands out exactly [num_slots] used slots (none for a
    reservation), leaves every other block and slot as it was and keeps the
    invariant; otherwise it throws and changes nothing. *)
Theorem allocate_blocks_correct (num_slots : nat) (mark : bool) w :
  pool_wf w ->
  (BlocksNeeded (pool w) num_slots <= AvailableBlocks (pool w) /\
   exists hs w', AllocateBlocks_ num_slots mark w = (Ok hs, w') /\ allocated w num_slots mark hs w') \/
  (AvailableBlocks (pool w) < BlocksNeeded (pool w) num_slots /\
   AllocateBlocks_ num_slots mark w =
     (Throw (BlocksExceedAvailable (BlocksNeeded (pool w) num_slots) num_slots
               (AvailableBlocks (pool w))), w)).
Proof.
  intros Hwf. destruct (Nat.le_gt_cases (BlocksNeeded (pool w) num_slots) (AvailableBlocks (pool w))).
  - left. split; [done|]. by apply AllocateBlocks_allocated.
  - right. split; [done|]. by apply AllocateBlocks_refused.
Qed.

(** C29: the allocation-free check of [FreeValidated], with its per-epoch marks
    and counts, accepts exactly the lists the sorting check [ValidateFree]
    accepts; a wrapped epoch counter changes nothing. *)
Theorem can_free_validated_equiv w (blocks : list (option addr)) :
  pool_wf w -> handles_valid w blocks ->
  exists ok w', CanFreeValidated blocks w = (Ok ok, w') /\ same_but_scratch w w' /\ pool_wf w' /\
    (ok = true <-> ValidateFree blocks w = (Ok tt, w)).
Proof.
  intros Hwf Hv. destruct (CanFreeValidated_spec w blocks Hwf Hv) as (ok & w' & Hrun & Hss & Hwf' & Hok).
  exists ok, w'. split; [done|]. split; [done|]. split; [done|]. rewrite Hok.
  destruct (ValidateFree_spec w blocks Hwf Hv) as [[-> Hf]|(e & -> & Hf)]; naive_solver.
Qed.

(** [Free] either throws and changes nothing, exactly when some handle is
    not owned or is freed more often than it has references; or it releases
    precisely those references, returning blocks left with none to the pool.  It
    terminates only if the observer refuses a callback. *)
Theorem free_blocks_correct w (blocks : list (option addr)) :
  pool_wf w -> handles_valid w blocks ->
  (freeable w blocks /\ exists w', Free blocks w = (Ok tt, w') /\ freed w blocks w') \/
  (freeable w blocks /\ exists w', Free blocks w = (Terminate, w') /\ observer_refused (O := O)) \/
  (~ freeable w blocks /\ exists e, Free blocks w = (Throw e, w)).
Proof.
  intros Hwf Hv. destruct (ValidateFree_spec w blocks Hwf Hv) as [[_ Hf]|(e & Hthrow & Hno)].
  - destruct (Free_spec w blocks Hwf Hv Hf); [left|right; left]; done.
  - right; right. split; [done|]. exists e. unfold Free. by apply bind_throw.
Qed.

(** C21: whatever sequence of calls a client makes with live handles, the pool
    invariant holds, so slot [id] always holds the well-formed block [id] with a
    positive reference count, every block is either free or in use, and no call
    can run into undefined behaviour. *)
Theorem pool_invariant (block_size num_blocks : nat) (o : O) w :
  0 < block_size -> reachable block_size num_blocks o w ->
  pool_wf w /\ Size (pool w) + AvailableBlocks (pool w) = pool_capacity_ (pool w) /\
  forall c, handles_valid w (call_handles c) -> (run_call c w).1 <> Undefined.
Proof.
  intros Hbs Hr. pose proof (reachable_wf _ _ _ _ Hbs Hr) as Hwf. split; [done|]. split.
  - unfold Size, AvailableBlocks. pose proof (length_filter (fun b : option addr => b = None)
      (blocks_ (pool w))) as Hle. rewrite (pw_length _ Hwf) in Hle. lia.
  - intros c Hv. set (D := fun a => is_Some (heap w !! a)).
    pose proof (run_call_alive D c (handles_in D c w eq_refl Hv) w (conj Hwf (fun a Ha => Ha))) as Ht.
    by destruct (run_call c w) as [[[]|e| |] w'].
Qed.

(** Rolling back a reservation restores the pool's table exactly, leaves the
    observer alone and does not touch any block that existed before. *)
Theorem reserve_rollback_roundtrip (num_slots : nat) w hs w1 :
  pool_wf w -> ReserveBlocks num_slots w = (Ok hs, w1) ->
  exists w2, RollbackReservedBlocks (Some <$> hs) w1 = (Ok tt, w2) /\
    blocks_ (pool w2) = blocks_ (pool w) /\ observer w2 = observer w /\
    (forall a b, heap w !! a = Some b -> heap w2 !! a = Some b).
Proof.
  intros Hwf Hres. unfold ReserveBlocks in Hres.
  destruct (Nat.le_gt_cases (BlocksNeeded (pool w) num_slots) (AvailableBlocks (pool w))) as [Hle|Hgt].
  - destruct (AllocateBlocks_allocated num_slots false w Hwf Hle) as (hs' & w' & Hrun & Hal).
    rewrite Hres in Hrun. injection Hrun as <- <-. by eapply rollback_allocated.
  - by rewrite AllocateBlocks_refused in Hres.
Qed.
End PoolProperties.

(** ** Concrete instances *)

#[global] Instance unit_observer : BlockReferenceObserver unit :=
  {| OnBlockBecameReferenced := fun _ _ o => Some o;
     OnBlockBecameReclaimable := fun _ _ o => Some o |}.

Definition sample_world : world unit := initial_world 4 3 tt.

Lemma sample_world_wf : pool_wf sample_world.
Proof. apply initial_world_wf. lia. Qed.

Lemma allocate_blocks_correct_witness :
  (BlocksNeeded (pool sample_world) 6 <= AvailableBlocks (pool sample_world) /\
   exists hs w', AllocateBlocks_ 6 true sample_world = (Ok hs, w') /\
     allocated sample_world 6 true hs w') \/
  (AvailableBlocks (pool sample_world) < BlocksNeeded (pool sample_world) 6 /\
   AllocateBlocks_ 6 true sample_world = (Throw (BlocksExceedAvailable 2 6 3), sample_world)).
Proof. exact (allocate_blocks_correct 6 true sample_world sample_world_wf). Defined.

Lemma can_free_validated_equiv_witness :
  exists ok w', CanFreeValidated [None] sample_world = (Ok ok, w') /\
    same_but_scratch sample_world w' /\ pool_wf w' /\
    (ok = true <-> ValidateFree [None] sample_world = (Ok tt, sample_world)).
Proof.
  apply (can_free_validated_equiv sample_world [None] sample_world_wf).
  intros a Ha. by apply list_elem_of_singleton in Ha.
Defined.

(** Two blocks in use, one of them full. *)
Definition sample_used : world unit := (AllocateBlocks_ 6 true sample_world).2.

Lemma sample_used_wf : pool_wf sample_used.
Proof.
  destruct (AllocateBlocks_allocated 6 true sample_world sample_world_wf) as (hs & w' & Hrun & Hal).
  - vm_compute. lia.
  - unfold sample_used. rewrite Hrun. apply Hal.
Qed.

Lemma sample_used_handles : handles_valid sample_used [Some 0; Some 1].
Proof.
  intros a Ha. apply elem_of_cons in Ha as [[= ->]|[[= ->]|Ha]%elem_of_cons];
    [vm_compute; eauto..|by apply not_elem_of_nil in Ha].
Qed.

Lemma free_blocks_correct_witness :
  exists w', Free [Some 0; Some 1] sample_used = (Ok tt, w') /\
    freed sample_used [Some 0; Some 1] w'.
Proof.
  destruct (free_blocks_correct sample_used [Some 0; Some 1] sample_used_wf sample_used_handles)
    as [[_ Hok]|[[_ (w' & Hrun & _)]|[_ (e & Hrun)]]].
  - exact Hok.
  - vm_compute in Hrun. discriminate.
  - vm_compute in Hrun. discriminate.
Defined.

Lemma sample_used_reachable : reachable 4 3 tt sample_used.
Proof.
  apply (reach_call 4 3 tt sample_world (CallAllocate 6 true) (Ok tt)).
  - apply reach_init.
  - intros a Ha. by apply not_elem_of_nil in Ha.
  - reflexivity.
  - discriminate.
Qed.

Lemma pool_invariant_witness :
  pool_wf sample_used /\
  Size (pool sample_used) + AvailableBlocks (pool sample_used) = pool_capacity_ (pool sample_used) /\
  forall c, handles_valid sample_used (call_handles c) -> (run_call c sample_used).1 <> Undefined.
Proof. apply (pool_invariant 4 3 tt sample_used); [lia|apply sample_used_reachable]. Defined.

Lemma reserve_rollback_roundtrip_witness :
  exists hs w1 w2, ReserveBlocks 3 sample_used = (Ok hs, w1) /\
    RollbackReservedBlocks (Some <$> hs) w1 = (Ok tt, w2) /\
    blocks_ (pool w2) = blocks_ (pool sample_used).
Proof.
  destruct (ReserveBlocks 3 sample_used) as [r w1] eqn:E.
  assert (Hr : r = Ok [2]) by (vm_compute in E; congruence). subst r.
  destruct (reserve_rollback_roundtrip 3 sample_used [2] w1 sample_used_wf E)
    as (w2 & Hrun & Hbl & _).
  exists [2], w1, w2. auto.
Defined.
