(* ===== verification/RequestIndex.v ===== *)
(** * Request index (src/engine/request_index.h)

    A fixed-capacity open-addressing table from request addresses to positions:
    linear probing over a power-of-two table, and deletion that re-inserts the
    following cluster instead of leaving tombstones.  The refinement theorems at
    the end show that it is a finite map. *)

From S2P Require Import Prelude.

(** ** Model *)

Inductive State : Type := Empty | Occupied.

#[global] Instance State_eq_dec : EqDecision State.
Proof. solve_decision. Defined.

(** Request ids are addresses: 64-bit values, 0 is null. *)
Record Entry : Type := mkEntry
  { request_id : N;
    value : nat;
    state : State }.

Definition empty_entry : Entry := mkEntry 0 0 Empty.

Record RequestIndex : Type := mkIndex
  { entries_ : list Entry;
    max_entries_ : nat;
    index_size_ : nat }.

Inductive IndexError : Type := CapacityOverflow | TableSizeOverflow.

Definition size_max : N := (two64 - 1)%N.

(** The doubling loop of the constructor. *)
Fixpoint grow_table (fuel : nat) (table_size required : N) : outcome IndexError N :=
  match fuel with
  | 0 => Undefined
  | S fuel' =>
      if (table_size <? required)%N then
        if (size_max / 2 <? table_size)%N then Throw TableSizeOverflow
        else grow_table fuel' (table_size * 2)%N required
      else Ok table_size
  end.

Definition make_RequestIndex (max_entries : N) : outcome IndexError RequestIndex :=
  if ((size_max - 1) / 2 <? max_entries)%N then Throw CapacityOverflow
  else
    match grow_table 65 1 (max_entries * 2 + 1) with
    | Ok table_size =>
        Ok (mkIndex (replicate (N.to_nat table_size) empty_entry) (N.to_nat max_entries) 0)
    | Throw e => Throw e
    | Terminate => Terminate
    | Undefined => Undefined
    end.

(** The finalizer [Hash]; [sizeof(size_t) * 4] is 32. *)
Definition Hash (request_id : N) : N :=
  let v1 := N.lxor request_id (N.shiftr request_id 32) in
  let v2 := u64_mul v1 0xff51afd7ed558ccd in
  N.lxor v2 (N.shiftr v2 32).

Definition mask (n : nat) (x : N) : nat := N.to_nat (N.land x (N.of_nat n - 1)).
Definition home (n : nat) (request_id : N) : nat := mask n (Hash request_id).
Definition next (n : nat) (index : nat) : nat := mask n (N.of_nat (index + 1)).

(** The probe loop of [Find]; an index outside the table cannot occur. *)
Fixpoint find_loop (entries : list Entry) (key : N) (probes index : nat) : option nat :=
  match probes with
  | 0 => None
  | S probes' =>
      match entries !! index with
      | None => None
      | Some e =>
          if bool_decide (state e = Empty) then None
          else if bool_decide (state e = Occupied) && (request_id e =? key)%N then Some (value e)
          else find_loop entries key probes' (next (length entries) index)
      end
  end.

Definition Find (r : RequestIndex) (key : N) : option nat :=
  if (key =? 0)%N then None
  else find_loop (entries_ r) key (length (entries_ r)) (home (length (entries_ r)) key).

(** The probe loop of [Insert]: the slot to fill, if any. *)
Fixpoint insert_loop (entries : list Entry) (key : N) (probes index : nat) : option nat :=
  match probes with
  | 0 => None
  | S probes' =>
      match entries !! index with
      | None => None
      | Some e =>
          if bool_decide (state e = Occupied) && (request_id e =? key)%N then None
          else if bool_decide (state e = Empty) then Some index
          else insert_loop entries key probes' (next (length entries) index)
      end
  end.

Definition Insert (r : RequestIndex) (key : N) (v : nat) : bool * RequestIndex :=
  if (key =? 0)%N || (max_entries_ r <=? index_size_ r) then (false, r)
  else
    match insert_loop (entries_ r) key (length (entries_ r)) (home (length (entries_ r)) key) with
    | None => (false, r)
    | Some i =>
        (true, mkIndex (<[i := mkEntry key v Occupied]> (entries_ r)) (max_entries_ r)
                 (S (index_size_ r)))
    end.

(** The probe loop of [Erase]: the slot holding the key, if any. *)
Fixpoint erase_find (entries : list Entry) (key : N) (probes index : nat) : option nat :=
  match probes with
  | 0 => None
  | S probes' =>
      match entries !! index with
      | None => None
      | Some e =>
          if bool_decide (state e = Empty) then None
          else if bool_decide (state e = Occupied) && (request_id e =? key)%N then Some index
          else erase_find entries key probes' (next (length entries) index)
      end
  end.

(** Clearing a slot: [entry = {}; --size_;] *)
Definition clear_slot (r : RequestIndex) (i : nat) : RequestIndex :=
  mkIndex (<[i := empty_entry]> (entries_ r)) (max_entries_ r) (pred (index_size_ r)).

(** Re-insertion of the cluster that follows a cleared slot.  Running out of fuel
    stands for a loop that does not stop. *)
Fixpoint close_cluster (fuel : nat) (r : RequestIndex) (displaced : nat) :
    outcome IndexError RequestIndex :=
  match fuel with
  | 0 => Undefined
  | S fuel' =>
      match entries_ r !! displaced with
      | None => Undefined
      | Some e =>
          if bool_decide (state e = Occupied) then
            let '(inserted, r') := Insert (clear_slot r displaced) (request_id e) (value e) in
            if negb inserted then Terminate
            else close_cluster fuel' r' (next (length (entries_ r)) displaced)
          else Ok r
      end
  end.

Definition Erase (r : RequestIndex) (key : N) : outcome IndexError (bool * RequestIndex) :=
  if (key =? 0)%N then Ok (false, r)
  else
    match erase_find (entries_ r) key (length (entries_ r)) (home (length (entries_ r)) key) with
    | None => Ok (false, r)
    | Some i =>
        match close_cluster (length (entries_ r)) (clear_slot r i) (next (length (entries_ r)) i) with
        | Ok r' => Ok (true, r')
        | Throw e => Throw e
        | Terminate => Terminate
        | Undefined => Undefined
        end
    end.

Definition Clear (r : RequestIndex) : RequestIndex :=
  mkIndex (replicate (length (entries_ r)) empty_entry) (max_entries_ r) 0.

(** ** Cyclic positions *)

Section Cyclic.
Context (n : nat).

Definition at_ (i t : nat) : nat := (i + t) mod n.

Lemma at_lt i t : 0 < n -> at_ i t < n.
Proof. intros Hn. apply Nat.mod_upper_bound. lia. Qed.

Lemma at_0 i : i < n -> at_ i 0 = i.
Proof. intros Hi. unfold at_. rewrite Nat.add_0_r. by apply Nat.mod_small. Qed.

Lemma at_at i s t : at_ (at_ i s) t = at_ i (s + t).
Proof. unfold at_. rewrite Nat.Div0.add_mod_idemp_l. f_equal. lia. Qed.

Lemma at_reach i j : i < n -> j < n -> exists t, t < n /\ j = at_ i t.
Proof.
  intros Hi Hj. unfold at_. destruct (decide (i <= j)).
  - exists (j - i). split; [lia|]. rewrite Nat.mod_small; lia.
  - exists (j + n - i). split; [lia|]. replace (i + (j + n - i)) with (j + 1 * n) by lia.
    rewrite Nat.Div0.mod_add, Nat.mod_small; lia.
Qed.

Lemma at_inj i s t : i < n -> s < n -> t < n -> at_ i s = at_ i t -> s = t.
Proof.
  intros Hi Hs Ht. unfold at_. intros Heq.
  assert (Hcase : forall x, x < n -> (i + x) mod n = if decide (i + x < n) then i + x else i + x - n).
  { intros x Hx. case_decide; [by apply Nat.mod_small|].
    replace (i + x) with (i + x - n + 1 * n) at 1 by lia.
    rewrite Nat.Div0.mod_add. apply Nat.mod_small. lia. }
  rewrite !Hcase in Heq by done. repeat case_decide; lia.
Qed.
End Cyclic.

#[global] Arguments at_ : simpl never.

(** ** The table invariant *)

Definition occ_at (E : list Entry) (j : nat) (k : N) (v : nat) : Prop :=
  E !! j = Some (mkEntry k v Occupied).
Definition occupied (E : list Entry) (j : nat) : Prop := exists k v, occ_at E j k v.
Definition vacant (E : list Entry) (j : nat) : Prop :=
  exists e, E !! j = Some e /\ state e = Empty.

(** [j] is reached from the home of [k] in [d] steps through slots satisfying [P]. *)
Definition path (n : nat) (P : nat -> Prop) (k : N) (j d : nat) : Prop :=
  d < n /\ j = at_ n (home n k) d /\ forall t, t < d -> P (at_ n (home n k) t).

Definition unique_keys (E : list Entry) : Prop :=
  forall j1 j2 k v1 v2, occ_at E j1 k v1 -> occ_at E j2 k v2 -> j1 = j2.
Definition probe_ok (E : list Entry) : Prop :=
  forall j k v, occ_at E j k v -> exists d, path (length E) (occupied E) k j d.

Fixpoint count_occupied (E : list Entry) : nat :=
  match E with
  | [] => 0
  | e :: E' => (if bool_decide (state e = Occupied) then 1 else 0) + count_occupied E'
  end.

Record index_wf (r : RequestIndex) : Prop := mk_index_wf
  { iw_pow2 : exists b, length (entries_ r) = 2 ^ b;
    iw_room : max_entries_ r < length (entries_ r);
    iw_size : index_size_ r = count_occupied (entries_ r);
    iw_max : index_size_ r <= max_entries_ r;
    iw_keys : forall j k v, occ_at (entries_ r) j k v -> k <> 0%N;
    iw_unique : unique_keys (entries_ r);
    iw_probe : probe_ok (entries_ r) }.

Lemma mask_spec n b x : n = 2 ^ b -> mask n x = N.to_nat x mod n.
Proof.
  intros ->. unfold mask.
  replace (N.of_nat (2 ^ b) - 1)%N with (N.ones (N.of_nat b)).
  - rewrite N.land_ones, N2Nat.inj_mod. f_equal.
    rewrite N2Nat.inj_pow, Nat2N.id. done.
  - rewrite N.ones_equiv, <-N.sub_1_r. f_equal.
    apply N2Nat.inj. rewrite N2Nat.inj_pow, !Nat2N.id. done.
Qed.

Lemma home_lt n b k : n = 2 ^ b -> home n k < n.
Proof.
  intros Hn. unfold home. rewrite (mask_spec n b) by done. apply Nat.mod_upper_bound.
  rewrite Hn. by apply Nat.pow_nonzero.
Qed.

Lemma next_spec n b i : n = 2 ^ b -> next n i = at_ n i 1.
Proof. intros Hn. unfold next, at_. rewrite (mask_spec n b) by done. by rewrite Nat2N.id. Qed.

Lemma slot_cases E j : j < length E -> vacant E j \/ occupied E j.
Proof.
  intros Hj. destruct (lookup_lt_is_Some_2 _ _ Hj) as [[k v []] He].
  - left. by eexists.
  - right. by exists k, v.
Qed.

Lemma vacant_not_occupied E j : vacant E j -> ~ occupied E j.
Proof. intros (e & He & Hs) (k & v & Ho). unfold occ_at in Ho. simplify_eq. Qed.

Lemma occupied_lt E j : occupied E j -> j < length E.
Proof. intros (k & v & Ho). by eapply lookup_lt_Some. Qed.

Lemma count_occupied_le E : count_occupied E <= length E.
Proof. induction E as [|e E IH]; simpl; [lia|]. case_bool_decide; lia. Qed.

(** A table that is not full has a vacant slot. *)
Lemma vacant_exists E : count_occupied E < length E -> exists j, j < length E /\ vacant E j.
Proof.
  induction E as [|e E IH]; simpl; [lia|]. intros Hlt.
  destruct (state e) eqn:Hs.
  - exists 0. split; [lia|]. by exists e.
  - rewrite bool_decide_true in Hlt by done. destruct IH as (j & Hj & Hv); [lia|].
    exists (S j). split; [lia|]. done.
Qed.

Lemma count_occupied_insert E i e e' :
  E !! i = Some e ->
  count_occupied (<[i := e']> E) + (if bool_decide (state e = Occupied) then 1 else 0) =
  count_occupied E + (if bool_decide (state e' = Occupied) then 1 else 0).
Proof.
  revert i. induction E as [|e0 E IH]; intros [|i] Hi; simplify_eq/=.
  - lia.
  - specialize (IH i Hi). lia.
Qed.

Lemma occ_at_insert E i e j k v :
  occ_at (<[i := e]> E) j k v <->
  (j = i /\ i < length E /\ e = mkEntry k v Occupied) \/ (j <> i /\ occ_at E j k v).
Proof.
  unfold occ_at. destruct (decide (j = i)) as [->|Hne].
  - destruct (decide (i < length E)).
    + rewrite list_lookup_insert_eq by done. naive_solver.
    + rewrite list_insert_ge by lia. rewrite lookup_ge_None_2 by lia. naive_solver.
  - rewrite list_lookup_insert_ne by done. naive_solver.
Qed.

(** ** Probing *)

Section Probing.
Context (E : list Entry) (b : nat) (Hpow : length E = 2 ^ b).

Lemma length_pos : 0 < length E.
Proof. rewrite Hpow. pose proof (Nat.pow_nonzero 2 b). lia. Qed.

Lemma next_at i t : next (length E) (at_ (length E) i t) = at_ (length E) i (S t).
Proof. rewrite (next_spec _ b), at_at by done. f_equal. lia. Qed.

(** Probing past occupied slots that hold other keys. *)
Lemma find_loop_hit key j v d : unique_keys E -> occ_at E j key v ->
  path (length E) (occupied E) key j d ->
  forall t, t <= d ->
    find_loop E key (length E - t) (at_ (length E) (home (length E) key) t) = Some v.
Proof.
  intros Hu Ho (Hd & Hj & Hocc).
  assert (Hgo : forall m t, m = d - t -> t <= d ->
    find_loop E key (length E - t) (at_ (length E) (home (length E) key) t) = Some v).
  { induction m as [|m IH]; intros t Hm Ht;
      replace (length E - t) with (S (length E - S t)) by lia; simpl.
    - replace t with d by lia. rewrite <-Hj. unfold occ_at in Ho. rewrite Ho. simpl.
      by rewrite N.eqb_refl.
    - destruct (Hocc t ltac:(lia)) as (k' & v' & Ho'). pose proof Ho' as Ho''.
      unfold occ_at in Ho'. rewrite Ho'. simpl.
      destruct (N.eqb_spec k' key) as [->|Hne].
      + assert (Heq : at_ (length E) (home (length E) key) t = at_ (length E) (home (length E) key) d)
          by (rewrite <-Hj; exact (Hu _ _ _ _ _ Ho'' Ho)).
        apply at_inj in Heq; [lia|by eapply home_lt|lia|lia].
      + rewrite next_at. apply IH; lia. }
  intros t Ht. by eapply Hgo.
Qed.

Lemma find_loop_miss key : (forall j v, ~ occ_at E j key v) ->
  forall m i, find_loop E key m i = None.
Proof.
  intros Hno m. induction m as [|m IH]; intros i; simpl; [done|].
  destruct (E !! i) as [[k v s]|] eqn:Hi; [|done]. simpl. destruct s; [done|]. simpl.
  destruct (N.eqb_spec k key) as [->|]; [|apply IH]. by destruct (Hno i v).
Qed.

(** [Erase] probes as [Find] does, and reports the slot instead of the value. *)
Lemma erase_find_find key : forall m i,
  find_loop E key m i =
    (j ← erase_find E key m i; e ← E !! j; Some (value e)) /\
  (forall j, erase_find E key m i = Some j -> exists v, occ_at E j key v).
Proof.
  induction m as [|m IH]; intros i; simpl; [done|].
  destruct (E !! i) as [[k v s]|] eqn:Hi; [|done]. simpl. destruct s; [done|]. simpl.
  destruct (N.eqb_spec k key) as [->|]; simpl; [|apply IH].
  rewrite Hi. split; [done|]. intros j [= <-]. by exists v.
Qed.

(** [Insert] fills the first vacant slot of the probe sequence. *)
Lemma insert_loop_fill key dv : (forall j v, ~ occ_at E j key v) ->
  dv < length E -> vacant E (at_ (length E) (home (length E) key) dv) ->
  forall m t, m = dv - t -> t <= dv ->
  exists d, t <= d <= dv /\ vacant E (at_ (length E) (home (length E) key) d) /\
    (forall s, t <= s < d -> occupied E (at_ (length E) (home (length E) key) s)) /\
    insert_loop E key (length E - t) (at_ (length E) (home (length E) key) t) =
      Some (at_ (length E) (home (length E) key) d).
Proof.
  intros Hno Hdv Hv. induction m as [|m IH]; intros t Hm Ht;
    replace (length E - t) with (S (length E - S t)) by lia; simpl.
  - replace t with dv by lia. destruct Hv as (e & He & Hs). exists dv.
    rewrite He, Hs. split; [lia|]. split; [by exists e|]. split; [lia|done].
  - pose proof length_pos as Hp.
    destruct (slot_cases E (at_ (length E) (home (length E) key) t)) as [Hvac|Hocc];
      [by apply at_lt|..].
    + pose proof Hvac as (e & He & Hs). exists t. rewrite He, Hs. split; [lia|].
      split; [done|]. split; [lia|done].
    + pose proof Hocc as (k' & v' & Ho). pose proof Ho as Ho'. unfold occ_at in Ho'.
      rewrite Ho'. simpl. destruct (N.eqb_spec k' key) as [->|Hne]; [by destruct (Hno _ _ Ho)|].
      rewrite next_at. destruct (IH (S t)) as (d & Hd & Hvd & Hocd & Hrun); [lia..|].
      exists d. split; [lia|]. split; [done|]. split; [|done].
      intros s Hs. destruct (decide (s = t)) as [->|]; [done|]. apply Hocd. lia.
Qed.

Lemma insert_loop_present key j v d : unique_keys E -> occ_at E j key v ->
  path (length E) (occupied E) key j d ->
  insert_loop E key (length E) (home (length E) key) = None.
Proof.
  intros Hu Ho (Hd & Hj & Hocc).
  assert (Hgo : forall m t, m = d - t -> t <= d ->
    insert_loop E key (length E - t) (at_ (length E) (home (length E) key) t) = None).
  { induction m as [|m IH]; intros t Hm Ht;
      replace (length E - t) with (S (length E - S t)) by lia; simpl.
    - replace t with d by lia. rewrite <-Hj. unfold occ_at in Ho. rewrite Ho. simpl.
      by rewrite N.eqb_refl.
    - destruct (Hocc t ltac:(lia)) as (k' & v' & Ho'). unfold occ_at in Ho'. rewrite Ho'. simpl.
      destruct (N.eqb_spec k' key) as [->|Hne]; [done|]. simpl. rewrite next_at. apply IH; lia. }
  specialize (Hgo d 0 ltac:(lia) ltac:(lia)).
  rewrite at_0, Nat.sub_0_r in Hgo; [done|]. by eapply home_lt.
Qed.
End Probing.

(** ** The cluster after a cleared slot

    [E0] is the table before the erase, [i] the erased slot and [m] the distance
    to the next vacant slot.  After [s - 1] re-insertions the slots [i+s .. i+m-1]
    still hold their old entries; only those may have holes among [i .. i+s-1] on
    their probe path. *)

Definition hole (n i s x : nat) : Prop := exists u, u < s /\ x = at_ n i u.
Definition pending (n i s m j : nat) : Prop := exists t, s <= t < m /\ j = at_ n i t.

Record closing (E0 : list Entry) (key : N) (i m s : nat) (E : list Entry) : Prop := mk_closing
  { cl_length : length E = length E0;
    cl_range : 1 <= s <= m;
    cl_m : m < length E0;
    cl_i : i < length E0;
    cl_vacant : vacant E0 (at_ (length E0) i m);
    cl_cluster : forall t, 1 <= t < m -> occupied E0 (at_ (length E0) i t);
    cl_keep : forall t, s <= t <= m -> E !! at_ (length E0) i t = E0 !! at_ (length E0) i t;
    cl_unique : unique_keys E;
    cl_same : forall k v, (exists j, occ_at E j k v) <-> (exists j, occ_at E0 j k v) /\ k <> key;
    cl_path : forall j k v, occ_at E j k v -> exists d,
      path (length E0) (fun x => occupied E x \/ hole (length E0) i s x) k j d /\
      (~ pending (length E0) i s m j -> path (length E0) (occupied E) k j d) }.

Section Closing.
Context (E0 : list Entry) (b : nat) (Hpow : length E0 = 2 ^ b) (key : N) (i m : nat).
Abbreviation n := (length E0).

(** Clearing the erased slot opens the first hole. *)
Lemma closing_start v : unique_keys E0 -> probe_ok E0 -> occ_at E0 i key v ->
  1 <= m < n -> vacant E0 (at_ n i m) -> (forall t, 1 <= t < m -> occupied E0 (at_ n i t)) ->
  closing E0 key i m 1 (<[i := empty_entry]> E0).
Proof.
  intros Hu Hp Ho Hm Hv Hc. pose proof (lookup_lt_Some _ _ _ Ho) as Hi.
  assert (Hocc : forall j k w, occ_at (<[i := empty_entry]> E0) j k w <-> j <> i /\ occ_at E0 j k w).
  { intros j k w. rewrite occ_at_insert. unfold empty_entry. naive_solver. }
  split; auto; try lia.
  - by rewrite length_insert.
  - intros t Ht. rewrite list_lookup_insert_ne; [done|]. intros Heq.
    assert (Heq' : at_ n i 0 = at_ n i t) by (rewrite at_0; done).
    apply at_inj in Heq'; lia.
  - intros j1 j2 k v1 v2 [_ H1]%Hocc [_ H2]%Hocc. exact (Hu _ _ _ _ _ H1 H2).
  - intros k w. split.
    + intros (j & [Hne Hj]%Hocc). split; [eauto|]. intros ->.
      destruct Hne. exact (Hu _ _ _ _ _ Hj Ho).
    + intros [(j & Hj) Hne]. exists j. apply Hocc. split; [|done]. intros ->.
      unfold occ_at in *. simplify_eq.
  - intros j k w [Hne Hj]%Hocc. destruct (Hp _ _ _ Hj) as (d & Hd & Hjd & Hall).
    assert (Hsplit : forall t, t < d -> occupied (<[i := empty_entry]> E0) (at_ n (home n k) t) \/
      at_ n (home n k) t = i).
    { intros t Ht. destruct (decide (at_ n (home n k) t = i)) as [|Hti]; [by right|left].
      destruct (Hall t Ht) as (k' & v' & Ho'). exists k', v'. by apply Hocc. }
    exists d. split; [split; [done|]; split; [done|]|].
    + intros t Ht. destruct (Hsplit t Ht) as [|Hti]; [by left|right].
      exists 0. split; [lia|]. rewrite at_0 by done. exact Hti.
    + intros Hnp. split; [done|]. split; [done|]. intros t Ht.
      destruct (Hsplit t Ht) as [|Hti]; [done|]. exfalso. apply Hnp.
      (* the path continues from i to j through occupied slots, so j precedes the vacant slot *)
      assert (Hj2 : j = at_ n i (d - t)).
      { rewrite <-Hti, at_at. replace (t + (d - t)) with d by lia. done. }
      exists (d - t). split; [|done]. split; [lia|].
      destruct (Nat.lt_ge_cases (d - t) m) as [|Hge]; [done|]. exfalso.
      apply (vacant_not_occupied _ _ Hv).
      destruct (decide (m = d - t)) as [->|Hne2].
      { rewrite <-Hj2. by exists k, w. }
      replace (at_ n i m) with (at_ n (home n k) (t + m)).
      { apply Hall. lia. }
      rewrite <-Hti, at_at. done.
Qed.

(** One round of the loop that closes an erase: the entry of slot [p] is taken out and
    re-inserted at [q], the first vacant slot of its own probe path. *)
Section closing_round.
Context (s : nat) (E : list Entry) (k : N) (v : nat) (d : nat).
Let p := at_ n i s.
Let q := at_ n (home n k) d.
Let E1 := <[p := empty_entry]> E.
Let E2 := <[q := mkEntry k v Occupied]> E1.
Hypothesis (Hcl : closing E0 key i m s E) (Hs : s < m) (Ho : occ_at E p k v) (Hd : d < n).
Hypothesis Hvac : vacant E1 q.
Hypothesis Hpre : forall t, t < d -> occupied E1 (at_ n (home n k) t).

Lemma round_emptied j k' w : occ_at E1 j k' w <-> j <> p /\ occ_at E j k' w.
Proof.
  pose proof Hcl as [Hlen Hrange Hm Hi _ _ _ _ _ _]. assert (p < length E) by (rewrite Hlen; apply at_lt; lia).
  unfold E1. rewrite occ_at_insert. unfold empty_entry. naive_solver.
Qed.

Lemma round_moved j k' w : occ_at E2 j k' w <-> (j = q /\ k' = k /\ w = v) \/ (j <> q /\ j <> p /\ occ_at E j k' w).
Proof.
  pose proof Hcl as [Hlen Hrange Hm Hi _ _ _ _ _ _]. assert (q < length E1) by (unfold E1; rewrite length_insert, Hlen; apply at_lt; lia).
  unfold E2. rewrite occ_at_insert, round_emptied. naive_solver.
Qed.

Lemma round_grows x : occupied E x -> x = p \/ occupied E2 x.
Proof.
  intros (k' & w & Hx). destruct (decide (x = p)) as [|Hxp]; [by left|right]. destruct (decide (x = q)) as [->|Hxq].
  - exists k, v. apply round_moved. by left.
  - exists k', w. apply round_moved. by right.
Qed.

Lemma round_distinct t t' : t < n -> t' < n -> at_ n i t = at_ n i t' -> t = t'.
Proof. pose proof (cl_i _ _ _ _ _ _ Hcl). intros. by apply (at_inj n i). Qed.

(** The entry does not land on the vacant slot that ends the cluster. *)
Lemma round_not_end : at_ n i m <> q.
Proof.
  pose proof Hcl as [_ Hrange Hm Hi Hv _ Hkeep _ _ Hpath]. intros Heq.
  destruct (Hpath _ _ _ Ho) as (d0 & (Hd0 & Hpd & Hall) & _).
  assert (d <= d0) as Hle.
  { destruct (Nat.le_gt_cases d d0) as [|Hgt]; [done|]. specialize (Hpre d0 Hgt).
    rewrite <-Hpd in Hpre. destruct Hpre as (k' & w & Hx). by apply round_emptied in Hx as [? _]. }
  destruct (decide (d = d0)) as [Hdd|Hne].
  - assert (m = s); [|lia]. apply round_distinct; [lia..|]. rewrite Heq. unfold q. by rewrite Hdd.
  - destruct (Hall d ltac:(lia)) as [Hoq|(u & Hu' & Hq')].
    + fold q in Hoq. rewrite <-Heq in Hoq. apply (vacant_not_occupied _ _ Hv).
      destruct Hoq as (k' & w & Hx). unfold occ_at in Hx. rewrite Hkeep in Hx by lia. by exists k', w.
    + fold q in Hq'. rewrite <-Heq in Hq'. apply round_distinct in Hq'; lia.
Qed.

(** Nor on a slot of the cluster that is still to be visited. *)
Lemma round_not_pending t : S s <= t <= m -> at_ n i t <> q.
Proof.
  intros Ht Heq. destruct (decide (t = m)) as [->|Htm]; [by apply round_not_end|].
  pose proof Hcl as [_ Hrange Hm Hi _ Hc Hkeep _ _ _].
  apply (vacant_not_occupied _ _ Hvac). rewrite <-Heq.
  destruct (Hc t ltac:(lia)) as (k' & w & Hx). exists k', w. apply round_emptied. split.
  - intros He. apply round_distinct in He; lia.
  - unfold occ_at. by rewrite Hkeep by lia.
Qed.

Lemma round_unique : unique_keys E2.
Proof.
  pose proof Hcl as [_ _ _ _ _ _ _ Hu _ _].
  assert (forall j w, occ_at E j k w -> j = p) as HkE by (intros j w Hj; exact (Hu _ _ _ _ _ Hj Ho)).
  intros j1 j2 k' v1 v2 H1%round_moved H2%round_moved.
  destruct H1 as [(-> & -> & ->)|(Hq1 & Hp1 & H1)], H2 as [(-> & Hk & ->)|(Hq2 & Hp2 & H2)]; try done.
  - by apply HkE in H2.
  - subst k'. by apply HkE in H1.
  - exact (Hu _ _ _ _ _ H1 H2).
Qed.

Lemma round_same k' w : (exists j, occ_at E2 j k' w) <-> exists j, occ_at E j k' w.
Proof.
  split.
  - intros (j & [(-> & -> & ->)|(_ & _ & Hj)]%round_moved); eauto.
  - intros (j & Hj). destruct (decide (j = p)) as [->|Hjp].
    + unfold occ_at in Hj, Ho. rewrite Ho in Hj. injection Hj as <- <-. exists q. apply round_moved. by left.
    + exists j. apply round_moved. right. split; [|done]. intros ->.
      apply (vacant_not_occupied _ _ Hvac). exists k', w. by apply round_emptied.
Qed.

(** The probe path of the moved entry has no hole. *)
Lemma round_moved_path : path n (occupied E2) k q d.
Proof.
  split; [done|]. split; [done|]. intros t Ht. destruct (Hpre t Ht) as (k' & w & Hx).
  apply round_emptied in Hx as [Hxp Hx]. destruct (round_grows (at_ n (home n k) t)); [by exists k', w|done..].
Qed.

(** An entry outside the slots still to be visited keeps its whole path: the slot taken out
    cannot lie on it. *)
Lemma round_other_path j k' w dj t : occ_at E j k' w -> j = at_ n (home n k') dj -> dj < n ->
  (forall t, t < dj -> occupied E (at_ n (home n k') t)) ->
  (forall t, S s <= t < m -> j <> at_ n i t) -> j <> p -> t < dj -> at_ n (home n k') t <> p.
Proof.
  pose proof Hcl as [_ Hrange Hm Hi Hv _ Hkeep _ _ _]. intros Hj Hjd Hdj Hocc Hnp Hjp Ht Hxp.
  assert (j = at_ n i (s + (dj - t))) as Hj2.
  { rewrite <-at_at. fold p. rewrite <-Hxp, at_at. replace (t + (dj - t)) with dj by lia. done. }
  destruct (Nat.lt_ge_cases (s + (dj - t)) m) as [Hlt|Hge]; [by apply (Hnp (s + (dj - t)) ltac:(lia))|].
  assert (vacant E (at_ n i m)) as Hvm by (destruct Hv as (e & He & Hs'); exists e; rewrite Hkeep by lia; done).
  apply (vacant_not_occupied _ _ Hvm). destruct (decide (m = s + (dj - t))) as [->|Hne2].
  { rewrite <-Hj2. by exists k', w. }
  replace (at_ n i m) with (at_ n (home n k') (t + (m - s))).
  { apply Hocc. lia. }
  rewrite <-at_at, Hxp. unfold p. rewrite at_at. f_equal. lia.
Qed.
(** Re-inserting the entry at [i+s] closes its hole. *)
Lemma closing_step : closing E0 key i m (S s) (<[at_ n (home n k) d := mkEntry k v Occupied]> (<[at_ n i s := empty_entry]> E)).
Proof.
  pose proof Hcl as [Hlen Hrange Hm Hi Hv Hc Hkeep Hu Hsame Hpath]. pose proof round_not_pending as Hq.
  split; auto; try lia.
  - by rewrite !length_insert.
  - intros t Ht. rewrite list_lookup_insert_ne by (apply not_eq_sym; apply Hq; lia).
    rewrite list_lookup_insert_ne; [apply Hkeep; lia|]. intros He. apply round_distinct in He; lia.
  - exact round_unique.
  - intros k' w. rewrite <-Hsame. apply round_same.
  - intros j k' w [(-> & -> & ->)|(Hjq & Hjp & Hj)]%round_moved.
    + exists d. destruct round_moved_path as (? & ? & Hf). split; [|done]. split; [done|]. split; [done|]. auto.
    + destruct (Hpath _ _ _ Hj) as (dj & (Hdj & Hjd & Hall) & Hfull). exists dj. split.
      * split; [done|]. split; [done|]. intros t Ht. destruct (Hall t Ht) as [Hx|(u & Hu' & Hx)].
        -- destruct (round_grows _ Hx) as [Hxp|]; [right; exists s; split; [lia|done]|by left].
        -- right. exists u. split; [lia|done].
      * intros Hnp. destruct Hfull as (_ & _ & Hocc).
        { intros (t & Ht & Hjt). apply Hnp. exists t. split; [|done]. destruct (decide (t = s)) as [->|]; [done|lia]. }
        split; [done|]. split; [done|]. intros t Ht. destruct (round_grows _ (Hocc t Ht)) as [Hxp|]; [|done].
        exfalso. refine (round_other_path j k' w dj t Hj Hjd Hdj Hocc _ Hjp Ht Hxp).
        intros u Hu' Heq. apply Hnp. exists u. by split.
Qed.
End closing_round.
End Closing.

(** ** The cluster loop stops with a well-formed table *)

Lemma vacant_insert_self E p : p < length E -> vacant (<[p := empty_entry]> E) p.
Proof. intros Hp. exists empty_entry. split; [by apply list_lookup_insert_eq|done]. Qed.

Lemma close_cluster_closes E0 b key i m : length E0 = 2 ^ b -> forall fuel r s,
  closing E0 key i m s (entries_ r) -> index_size_ r = count_occupied (entries_ r) ->
  index_size_ r <= max_entries_ r -> (forall j k v, occ_at (entries_ r) j k v -> k <> 0%N) ->
  m - s < fuel ->
  exists r', close_cluster fuel r (at_ (length E0) i s) = Ok r' /\
    closing E0 key i m m (entries_ r') /\ index_size_ r' = index_size_ r /\
    index_size_ r' = count_occupied (entries_ r') /\ max_entries_ r' = max_entries_ r.
Proof.
  intros Hpow. induction fuel as [|fuel IH]; intros r s Hcl Hsize Hmax Hkeys Hfuel; [lia|].
  pose proof Hcl as [Hlen Hrange Hm Hi Hv Hc Hkeep _ _ Hpath].
  assert (HposE : 0 < length E0) by lia. simpl.
  destruct (decide (s = m)) as [->|Hsm].
  { destruct Hv as (e & He & Hs). rewrite Hkeep, He, Hs by lia. simpl. exists r. done. }
  destruct (Hc s ltac:(lia)) as (k & v & Ho). unfold occ_at in Ho. rewrite <-Hkeep in Ho by lia.
  rewrite Ho. simpl. set (p := at_ (length E0) i s) in *.
  assert (HoE : occ_at (entries_ r) p k v) by done.
  assert (HpL : p < length (entries_ r)) by (by eapply lookup_lt_Some).
  set (E1 := <[p := empty_entry]> (entries_ r)).
  assert (Hlen1 : length E1 = length E0) by (unfold E1; by rewrite length_insert).
  assert (Hno : forall j w, ~ occ_at E1 j k w).
  { intros j w Hj. unfold E1 in Hj. apply occ_at_insert in Hj as [(_ & _ & [=])|[Hne Hj]].
    destruct Hne. exact (cl_unique _ _ _ _ _ _ Hcl _ _ _ _ _ Hj HoE). }
  assert (Hcount : S (count_occupied E1) = count_occupied (entries_ r)).
  { pose proof (count_occupied_insert _ _ _ empty_entry HoE) as Hci. simpl in Hci.
    fold E1 in Hci. lia. }
  destruct (at_reach (length E0) (home (length E0) k) p) as (dv & Hdv & Hpd);
    [by eapply home_lt|by rewrite <-Hlen|].
  destruct (insert_loop_fill E1 b ltac:(by rewrite Hlen1) k dv Hno) with (m := dv) (t := 0)
    as (d & Hd & Hvd & Hocd & Hrun); [by rewrite Hlen1|..|lia|lia|].
  { rewrite Hlen1, <-Hpd. by apply vacant_insert_self. }
  rewrite Hlen1, Nat.sub_0_r, at_0 in Hrun by (by eapply home_lt). rewrite Hlen1 in Hvd, Hocd.
  unfold Insert, clear_slot. simpl. fold E1. rewrite Hlen1, Hrun.
  destruct (N.eqb_spec k 0) as [Hk0|_]; [by destruct (Hkeys _ _ _ HoE)|].
  destruct (Nat.leb_spec (max_entries_ r) (pred (index_size_ r))) as [Hbad|_]; [lia|]. simpl.
  rewrite Hlen. replace (next (length E0) p) with (at_ (length E0) i (S s)).
  2:{ unfold p. rewrite (next_spec _ b), at_at by done. f_equal. lia. }
  destruct Hvd as (e & He & Hes).
  destruct (IH (mkIndex (<[at_ (length E0) (home (length E0) k) d := mkEntry k v Occupied]> E1)
    (max_entries_ r) (S (pred (index_size_ r)))) (S s)) as (r' & Hrun' & Hcl' & Hsz' & Hcnt' & Hmx');
    simpl; try lia.
  - apply (closing_step E0 b Hpow); auto; [lia|lia|by exists e|]. intros t Ht. apply Hocd. lia.
  - pose proof (count_occupied_insert _ _ _ (mkEntry k v Occupied) He) as Hci. rewrite Hes in Hci.
    simpl in Hci. lia.
  - intros j k' w [(_ & _ & [= <- <-])|[_ Hj]]%occ_at_insert; [by eapply Hkeys|].
    apply occ_at_insert in Hj as [(_ & _ & [=])|[_ Hj]]. by eapply Hkeys.
  - exists r'. simpl in Hsz', Hmx'. split; [done|]. split; [done|]. split; [lia|done].
Qed.

(** ** Abstraction to a finite map *)

Fixpoint entries_map (E : list Entry) : gmap N nat :=
  match E with
  | [] => ∅
  | e :: E' =>
      if bool_decide (state e = Occupied) then <[request_id e := value e]> (entries_map E')
      else entries_map E'
  end.

(** The map a request index stands for. *)
Definition contents (r : RequestIndex) : gmap N nat := entries_map (entries_ r).

Lemma unique_keys_cons e E : unique_keys (e :: E) -> unique_keys E.
Proof.
  intros Hu j1 j2 k v1 v2 H1 H2.
  assert (S j1 = S j2) by (exact (Hu (S j1) (S j2) k v1 v2 H1 H2)). lia.
Qed.

Lemma entries_map_spec E k v : unique_keys E ->
  entries_map E !! k = Some v <-> exists j, occ_at E j k v.
Proof.
  induction E as [|[k0 v0 s0] E IH]; intros Hu; simpl.
  - rewrite lookup_empty. split; [done|]. intros (j & Hj). by destruct j.
  - specialize (IH (unique_keys_cons _ _ Hu)).
    assert (Hsucc : (exists j, occ_at E j k v) <-> exists j, occ_at (mkEntry k0 v0 s0 :: E) (S j) k v)
      by done.
    destruct s0; simpl.
    + rewrite IH, Hsucc. split; intros (j & Hj); [eauto|]. destruct j as [|j]; [done|eauto].
    + destruct (decide (k0 = k)) as [->|Hne].
      * rewrite lookup_insert_eq. split.
        -- intros [= ->]. by exists 0.
        -- intros ([|j] & Hj); [unfold occ_at in Hj; simpl in Hj; congruence|].
           assert (0 = S j) by (exact (Hu 0 (S j) k v0 v eq_refl Hj)). lia.
      * rewrite lookup_insert_ne, IH, Hsucc by done. split; intros (j & Hj); [eauto|].
        destruct j as [|j]; [|eauto]. unfold occ_at in Hj. simpl in Hj. congruence.
Qed.

Lemma entries_map_none E k : unique_keys E ->
  entries_map E !! k = None <-> forall j v, ~ occ_at E j k v.
Proof.
  intros Hu. destruct (entries_map E !! k) as [v|] eqn:Hk.
  - split; [done|]. intros Hno. apply entries_map_spec in Hk as (j & Hj); [|done].
    by destruct (Hno j v).
  - split; [|done]. intros _ j v Hj.
    assert (entries_map E !! k = Some v) by (apply entries_map_spec; eauto). congruence.
Qed.

(** ** Refinement *)

Lemma absent_key r k : index_wf r -> contents r !! k = None -> forall j v, ~ occ_at (entries_ r) j k v.
Proof. intros Hwf. apply entries_map_none, Hwf. Qed.

Lemma contents_null r : index_wf r -> contents r !! 0%N = None.
Proof.
  intros Hwf. apply entries_map_none; [apply Hwf|]. intros j v Hj.
  by apply (iw_keys _ Hwf _ _ _ Hj).
Qed.

Lemma Find_contents r k : index_wf r -> Find r k = contents r !! k.
Proof.
  intros Hwf. destruct (iw_pow2 _ Hwf) as [b Hb]. unfold Find.
  destruct (N.eqb_spec k 0) as [->|Hk]; [by rewrite contents_null|].
  destruct (contents r !! k) as [v|] eqn:Hc.
  - apply entries_map_spec in Hc as (j & Hj); [|apply Hwf].
    destruct (iw_probe _ Hwf _ _ _ Hj) as (d & Hpath).
    pose proof (find_loop_hit _ b Hb k j v d (iw_unique _ Hwf) Hj Hpath 0 ltac:(lia)) as Hrun.
    rewrite Nat.sub_0_r, at_0 in Hrun by (by eapply home_lt). done.
  - apply find_loop_miss. by apply absent_key.
Qed.

(** The slot an accepted insertion fills. *)
Lemma Insert_slot r k : index_wf r -> contents r !! k = None -> index_size_ r < max_entries_ r ->
  exists d, d < length (entries_ r) /\
    vacant (entries_ r) (at_ (length (entries_ r)) (home (length (entries_ r)) k) d) /\
    (forall t, t < d -> occupied (entries_ r) (at_ (length (entries_ r)) (home (length (entries_ r)) k) t)) /\
    insert_loop (entries_ r) k (length (entries_ r)) (home (length (entries_ r)) k) =
      Some (at_ (length (entries_ r)) (home (length (entries_ r)) k) d).
Proof.
  intros Hwf Hc Hsz. destruct (iw_pow2 _ Hwf) as [b Hb].
  pose proof (iw_room _ Hwf) as Hroom. pose proof (iw_size _ Hwf) as Hcount.
  destruct (vacant_exists (entries_ r)) as (j & Hj & Hv); [lia|].
  pose proof (home_lt _ _ k Hb) as Hh.
  destruct (at_reach (length (entries_ r)) (home (length (entries_ r)) k) j Hh Hj) as (dv & Hdv & ->).
  destruct (insert_loop_fill _ b Hb k dv (absent_key _ _ Hwf Hc) Hdv Hv dv 0)
    as (d & Hd & Hvd & Hocc & Hrun); [lia..|].
  rewrite Nat.sub_0_r, at_0 in Hrun by done. exists d. split; [lia|]. split; [done|].
  split; [|done]. intros t Ht. apply Hocc. lia.
Qed.

Lemma insert_wf r k v d : index_wf r -> k <> 0%N -> contents r !! k = None ->
  index_size_ r < max_entries_ r -> d < length (entries_ r) ->
  let i := at_ (length (entries_ r)) (home (length (entries_ r)) k) d in
  vacant (entries_ r) i ->
  (forall t, t < d -> occupied (entries_ r) (at_ (length (entries_ r)) (home (length (entries_ r)) k) t)) ->
  let r' := mkIndex (<[i := mkEntry k v Occupied]> (entries_ r)) (max_entries_ r) (S (index_size_ r)) in
  index_wf r' /\ contents r' = <[k := v]> (contents r).
Proof.
  intros Hwf Hk Hc Hsz Hd i Hv Hpre r'. destruct (iw_pow2 _ Hwf) as [b Hb].
  pose proof (absent_key _ _ Hwf Hc) as Hno.
  assert (Hi : i < length (entries_ r)) by (apply at_lt; lia).
  assert (Hocc : forall j k' w, occ_at (entries_ r') j k' w <->
    (j = i /\ k' = k /\ w = v) \/ (j <> i /\ occ_at (entries_ r) j k' w)).
  { intros j k' w. simpl. rewrite occ_at_insert. naive_solver. }
  assert (Hgrow : forall x, occupied (entries_ r) x -> occupied (entries_ r') x).
  { intros x (k' & w & Hx). destruct (decide (x = i)) as [->|Hne].
    - by destruct (vacant_not_occupied _ _ Hv); exists k', w.
    - exists k', w. apply Hocc. by right. }
  assert (Huniq : unique_keys (entries_ r')).
  { intros j1 j2 k' v1 v2 [(-> & -> & ->)|[_ H1]]%Hocc [(-> & Hk2 & ->)|[_ H2]]%Hocc; auto.
    - by destruct (Hno _ _ H2).
    - subst. by destruct (Hno _ _ H1).
    - exact (iw_unique _ Hwf _ _ _ _ _ H1 H2). }
  assert (Hlen : length (entries_ r') = length (entries_ r)) by apply length_insert.
  split.
  - pose proof Hwf as [_ Hroom Hsize Hmax Hkeys _ Hprobe]. split; auto; rewrite ?Hlen; eauto.
    + simpl. destruct Hv as (e & He & Hs).
      pose proof (count_occupied_insert _ _ _ (mkEntry k v Occupied) He) as Hci.
      rewrite Hs in Hci. simpl in Hci. lia.
    + intros j k' w [(-> & -> & ->)|[_ Hj]]%Hocc; [done|]. by eapply Hkeys.
    + intros j k' w [(-> & -> & ->)|[_ Hj]]%Hocc.
      * exists d. rewrite Hlen. split; [done|]. split; [done|]. auto.
      * destruct (Hprobe _ _ _ Hj) as (d' & Hd' & Hjd & Hall). exists d'. rewrite Hlen.
        split; [done|]. split; [done|]. auto.
  - apply map_eq. intros k'. apply option_eq. intros w. unfold contents.
    rewrite (entries_map_spec _ _ _ Huniq). setoid_rewrite Hocc.
    destruct (decide (k' = k)) as [->|Hne].
    + rewrite lookup_insert_eq. split.
      * intros (j & [(_ & _ & ->)|[_ Hj]]); [done|]. by destruct (Hno _ _ Hj).
      * intros [= ->]. exists i. by left.
    + rewrite lookup_insert_ne by done. rewrite (entries_map_spec _ _ _ (iw_unique _ Hwf)). split.
      * intros (j & [(_ & ? & _)|[_ Hj]]); [done|eauto].
      * intros (j & Hj). exists j. right. split; [|done]. intros ->.
        apply (vacant_not_occupied _ _ Hv). by exists k', w.
Qed.

(** The first vacant slot after [i]. *)
Lemma Insert_ok r k v :
  index_wf r -> k <> 0%N -> contents r !! k = None -> index_size_ r < max_entries_ r ->
  exists r', Insert r k v = (true, r') /\ index_wf r' /\ contents r' = <[k := v]> (contents r) /\
    max_entries_ r' = max_entries_ r /\ index_size_ r' = S (index_size_ r).
Proof.
  intros Hwf Hk Hc Hroom. unfold Insert. rewrite (proj2 (N.eqb_neq _ _) Hk).
  destruct (Nat.leb_spec (max_entries_ r) (index_size_ r)); [lia|]. simpl.
  destruct (Insert_slot r k Hwf Hc Hroom) as (d & Hd & Hv & Hpre & ->).
  destruct (insert_wf r k v d Hwf Hk Hc Hroom Hd Hv Hpre) as [Hwf' Hc'].
  eexists. split; [reflexivity|]. done.
Qed.

Lemma first_vacant E i t0 : 0 < length E -> 1 <= t0 -> vacant E (at_ (length E) i t0) ->
  exists m, 1 <= m <= t0 /\ vacant E (at_ (length E) i m) /\
    forall t, 1 <= t < m -> occupied E (at_ (length E) i t).
Proof.
  intros Hpos. induction t0 as [t0 IH] using lt_wf_ind. intros Ht0 Hv.
  assert (Hcases : (exists t, 1 <= t < t0 /\ vacant E (at_ (length E) i t)) \/
    forall t, 1 <= t < t0 -> occupied E (at_ (length E) i t)).
  - clear IH Hv. induction t0 as [|t0 IH]; [right; lia|].
    destruct (decide (t0 = 0)) as [->|Hne]; [right; lia|].
    destruct IH as [(t & Ht & Hv)|Hall]; [lia|left; exists t; split; [lia|done]|].
    destruct (slot_cases E (at_ (length E) i t0)) as [Hv|Ho]; [by apply at_lt|left; exists t0; split; [lia|done]|].
    right. intros t Ht. destruct (decide (t = t0)) as [->|]; [done|]. apply Hall. lia.
  - destruct Hcases as [(t & Ht & Hv')|Hall].
    + destruct (IH t) as (m & Hm & Hvm & Hoc); [lia|lia|done|]. exists m. split; [lia|done].
    + exists t0. split; [lia|done].
Qed.

Lemma erase_present r k v : index_wf r -> contents r !! k = Some v ->
  exists r', Erase r k = Ok (true, r') /\ index_wf r' /\ contents r' = delete k (contents r) /\
    max_entries_ r' = max_entries_ r.
Proof.
  intros Hwf Hc. pose proof Hwf as [(b & Hb) Hroom Hsize Hmax Hkeys Huniq Hprobe].
  pose proof (Find_contents r k Hwf) as Hfind. rewrite Hc in Hfind. unfold Find in Hfind.
  unfold Erase. destruct (N.eqb_spec k 0) as [|Hk]; [done|].
  destruct (erase_find_find (entries_ r) k (length (entries_ r)) (home (length (entries_ r)) k))
    as [Heq Hocc]. rewrite Heq in Hfind.
  destruct (erase_find _ _ _ _) as [i|]; [|done]. destruct (Hocc i eq_refl) as (v' & Hi).
  destruct (vacant_exists (entries_ r)) as (j & Hj & Hv); [lia|].
  assert (HiL : i < length (entries_ r)) by (by eapply lookup_lt_Some).
  destruct (at_reach (length (entries_ r)) i j HiL Hj) as (t0 & Ht0 & ->).
  assert (Ht1 : 1 <= t0).
  { destruct t0; [|lia]. rewrite at_0 in Hv by done.
    by destruct (vacant_not_occupied _ _ Hv); exists k, v'. }
  destruct (first_vacant (entries_ r) i t0 ltac:(lia) Ht1 Hv) as (m & Hm & Hvm & Hoc).
  pose proof (count_occupied_insert _ _ _ empty_entry Hi) as Hci. simpl in Hci.
  destruct (close_cluster_closes (entries_ r) b k i m Hb (length (entries_ r)) (clear_slot r i) 1)
    as (r' & Hrun & Hcl & Hsz & Hcnt & Hmx); simpl; try lia.
  - by eapply closing_start; [..|lia|done|].
  - intros j' k' w [(_ & _ & [=])|[_ Hj']]%occ_at_insert. by eapply Hkeys.
  - rewrite (next_spec _ b), Hrun by done. exists r'. split; [done|].
    destruct Hcl as [Hlen _ _ _ _ _ _ Hu' Hsame Hpath']. simpl in Hsz, Hmx. split; [|split; [|done]].
    + split; rewrite ?Hlen; eauto; try lia.
      * intros j' k' w Hj'. destruct (proj1 (Hsame k' w)) as [(j2 & Hj2) _]; [eauto|]. by eapply Hkeys.
      * intros j' k' w Hj'. destruct (Hpath' _ _ _ Hj') as (d & _ & Hp). exists d. rewrite Hlen.
        apply Hp. intros (t & Ht & _). lia.
    + apply map_eq. intros k'. apply option_eq. intros w. unfold contents.
      rewrite (entries_map_spec _ _ _ Hu'), Hsame. destruct (decide (k' = k)) as [->|Hne].
      * rewrite lookup_delete_eq. naive_solver.
      * rewrite lookup_delete_ne by done. rewrite (entries_map_spec _ _ _ Huniq). naive_solver.
Qed.

Lemma erase_absent r k : index_wf r -> contents r !! k = None -> Erase r k = Ok (false, r).
Proof.
  intros Hwf Hc. pose proof (Find_contents r k Hwf) as Hfind. rewrite Hc in Hfind. unfold Find in Hfind.
  unfold Erase. destruct (N.eqb_spec k 0) as [|Hk]; [done|].
  destruct (erase_find_find (entries_ r) k (length (entries_ r)) (home (length (entries_ r)) k))
    as [Heq Hocc]. rewrite Heq in Hfind.
  destruct (erase_find _ _ _ _) as [i|]; [|done]. destruct (Hocc i eq_refl) as (v' & Hi).
  unfold occ_at in Hi. simpl in Hfind. by rewrite Hi in Hfind.
Qed.

Lemma empty_table_wf b max : max < 2 ^ b -> index_wf (mkIndex (replicate (2 ^ b) empty_entry) max 0).
Proof.
  intros Hmax.
  assert (Hno : forall j k v, ~ occ_at (replicate (2 ^ b) empty_entry) j k v).
  { intros j k v Hj. unfold occ_at in Hj. by apply lookup_replicate in Hj as [[=] _]. }
  split; simpl; rewrite ?length_replicate; eauto; try lia.
  - clear. induction (2 ^ b) as [|n IH]; simpl; done.
  - intros j k v Hj. by destruct (Hno _ _ _ Hj).
  - intros j1 j2 k v1 v2 Hj. by destruct (Hno _ _ _ Hj).
  - intros j k v Hj. by destruct (Hno _ _ _ Hj).
Qed.

Lemma empty_table_contents n max : contents (mkIndex (replicate n empty_entry) max 0) = ∅.
Proof. unfold contents. simpl. induction n as [|n IH]; simpl; done. Qed.

Lemma grow_table_spec fuel : forall i required, i <= 63 -> 65 <= fuel + i ->
  (exists j, i <= j <= 63 /\ (required <= 2 ^ N.of_nat j)%N /\
     grow_table fuel (2 ^ N.of_nat i) required = Ok (2 ^ N.of_nat j)%N) \/
  ((2 ^ 63 < required)%N /\ grow_table fuel (2 ^ N.of_nat i) required = Throw TableSizeOverflow).
Proof.
  induction fuel as [|fuel IH]; intros i required Hi Hf; [lia|]. simpl.
  destruct (N.ltb_spec (2 ^ N.of_nat i) required) as [Hlt|Hge].
  2:{ left. exists i. split; [lia|]. done. }
  assert (Hhalf : (size_max / 2 = 2 ^ 63 - 1)%N) by reflexivity. rewrite Hhalf.
  destruct (decide (i = 63)) as [->|Hne].
  - right. split; [exact Hlt|]. reflexivity.
  - assert (Hpow : (2 ^ N.of_nat i < 2 ^ 63)%N) by (apply N.pow_lt_mono_r; lia).
    destruct (N.ltb_spec (2 ^ 63 - 1) (2 ^ N.of_nat i)); [lia|].
    assert (Hdouble : (2 ^ N.of_nat i * 2 = 2 ^ N.of_nat (S i))%N).
    { rewrite Nat2N.inj_succ, N.pow_succ_r'. lia. }
    rewrite Hdouble. destruct (IH (S i) required) as [(j & Hj & Hrest)|Hbad]; [lia|lia|left|by right].
    exists j. split; [lia|done].
Qed.

(** ** The abstract index: a finite map of bounded size *)

Inductive index_op : Type :=
  | OpFind (k : N)
  | OpInsert (k : N) (v : nat)
  | OpErase (k : N)
  | OpClear.

Inductive index_reply : Type := Found (v : option nat) | Accepted (b : bool) | Done.

Definition spec_step (max : nat) (o : index_op) (m : gmap N nat) : index_reply * gmap N nat :=
  match o with
  | OpFind k => (Found (m !! k), m)
  | OpInsert k v =>
      if negb (k =? 0)%N && bool_decide (m !! k = None) && (size m <? max)
      then (Accepted true, <[k := v]> m) else (Accepted false, m)
  | OpErase k => (Accepted (bool_decide (is_Some (m !! k))), delete k m)
  | OpClear => (Done, ∅)
  end.

Definition impl_step (o : index_op) (r : RequestIndex) : outcome IndexError (index_reply * RequestIndex) :=
  match o with
  | OpFind k => Ok (Found (Find r k), r)
  | OpInsert k v => let '(b, r') := Insert r k v in Ok (Accepted b, r')
  | OpErase k =>
      match Erase r k with
      | Ok (b, r') => Ok (Accepted b, r')
      | Throw e => Throw e
      | Terminate => Terminate
      | Undefined => Undefined
      end
  | OpClear => Ok (Done, Clear r)
  end.

Fixpoint spec_run (max : nat) (ops : list index_op) (m : gmap N nat) : list index_reply :=
  match ops with
  | [] => []
  | o :: ops' => let '(reply, m') := spec_step max o m in reply :: spec_run max ops' m'
  end.

Fixpoint impl_run (ops : list index_op) (r : RequestIndex) : outcome IndexError (list index_reply) :=
  match ops with
  | [] => Ok []
  | o :: ops' =>
      match impl_step o r with
      | Ok (reply, r') =>
          match impl_run ops' r' with
          | Ok replies => Ok (reply :: replies)
          | Throw e => Throw e
          | Terminate => Terminate
          | Undefined => Undefined
          end
      | Throw e => Throw e
      | Terminate => Terminate
      | Undefined => Undefined
      end
  end.

Lemma entries_map_size E : unique_keys E -> size (entries_map E) = count_occupied E.
Proof.
  induction E as [|[k v s] E IH]; intros Hu; simpl; [by rewrite map_size_empty|].
  specialize (IH (unique_keys_cons _ _ Hu)). destruct s; simpl; [done|].
  rewrite map_size_insert_None, IH; [done|].
  apply entries_map_none; [by eapply unique_keys_cons|]. intros j w Hj.
  assert (0 = S j) by (exact (Hu 0 (S j) k v w eq_refl Hj)). lia.
Qed.

Lemma contents_size r : index_wf r -> size (contents r) = index_size_ r.
Proof. intros Hwf. rewrite (iw_size _ Hwf). apply entries_map_size, Hwf. Qed.

(** One operation of the table is one operation of the map. *)
Lemma step_refines o r : index_wf r ->
  exists r', impl_step o r = Ok ((spec_step (max_entries_ r) o (contents r)).1, r') /\
    index_wf r' /\ contents r' = (spec_step (max_entries_ r) o (contents r)).2 /\
    max_entries_ r' = max_entries_ r.
Proof.
  intros Hwf. destruct o as [k|k v|k|]; simpl.
  - exists r. by rewrite Find_contents.
  - unfold Insert. rewrite (contents_size r Hwf).
    destruct (N.eqb_spec k 0) as [|Hk]; simpl; [by exists r|].
    destruct (Nat.leb_spec (max_entries_ r) (index_size_ r)) as [Hfull|Hroom].
    { rewrite (proj2 (Nat.ltb_ge _ _)), andb_false_r by lia. by exists r. }
    rewrite (proj2 (Nat.ltb_lt _ _)), andb_true_r by lia.
    destruct (contents r !! k) as [v'|] eqn:Hc.
    + rewrite bool_decide_false by done. destruct (iw_pow2 _ Hwf) as [b Hb].
      apply entries_map_spec in Hc as (j & Hj); [|apply Hwf].
      destruct (iw_probe _ Hwf _ _ _ Hj) as (d & Hpath).
      rewrite (insert_loop_present _ b Hb k j v' d (iw_unique _ Hwf) Hj Hpath). by exists r.
    + rewrite bool_decide_true by done.
      destruct (Insert_slot r k Hwf Hc Hroom) as (d & Hd & Hv & Hpre & ->).
      destruct (insert_wf r k v d Hwf Hk Hc Hroom Hd Hv Hpre) as [Hwf' Hc'].
      eexists. split; [done|]. done.
  - destruct (contents r !! k) as [v|] eqn:Hc.
    + destruct (erase_present r k v Hwf Hc) as (r' & -> & Hwf' & Hc' & Hm').
      rewrite bool_decide_true by eauto. by exists r'.
    + rewrite (erase_absent r k Hwf Hc), bool_decide_false by (by intros [? ?]).
      exists r. repeat (split; [done|]). split; [|done]. by rewrite delete_id.
  - exists (Clear r). split; [done|]. unfold Clear. destruct (iw_pow2 _ Hwf) as [b Hb]. rewrite Hb.
    split; [apply empty_table_wf; rewrite <-Hb; apply Hwf|]. split; [apply empty_table_contents|done].
Qed.

Lemma run_refines ops : forall r, index_wf r ->
  impl_run ops r = Ok (spec_run (max_entries_ r) ops (contents r)).
Proof.
  induction ops as [|o ops IH]; intros r Hwf; simpl; [done|].
  destruct (step_refines o r Hwf) as (r' & -> & Hwf' & Hc & Hm). simpl.
  rewrite (IH r' Hwf'), Hc, Hm. by destruct (spec_step _ _ _).
Qed.

Lemma make_spec max : (max < 2 ^ 62)%N ->
  exists r, make_RequestIndex max = Ok r /\ index_wf r /\ contents r = ∅ /\
    max_entries_ r = N.to_nat max.
Proof.
  intros Hmax. unfold make_RequestIndex.
  assert (Hhalf : ((size_max - 1) / 2 = 2 ^ 63 - 1)%N) by reflexivity. rewrite Hhalf.
  destruct (N.ltb_spec (2 ^ 63 - 1) max) as [|_]; [lia|].
  destruct (grow_table_spec 65 0 (max * 2 + 1)) as [(j & Hj & Hle & Hrun)|[Hbad _]]; [lia|lia|..].
  - change (2 ^ N.of_nat 0)%N with 1%N in Hrun. rewrite Hrun. eexists. split; [done|].
    rewrite N2Nat.inj_pow, Nat2N.id. change (N.to_nat 2) with 2.
    split; [apply empty_table_wf|split; [apply empty_table_contents|done]].
    assert (Hnat : N.to_nat (2 ^ N.of_nat j) = 2 ^ j).
    { rewrite N2Nat.inj_pow, Nat2N.id. done. }
    rewrite <-Hnat. lia.
  - exfalso. change (2 ^ 63)%N with (2 * 2 ^ 62)%N in Hbad. lia.
Qed.

Lemma make_refuses max : (2 ^ 62 <= max)%N ->
  exists e, make_RequestIndex max = Throw e.
Proof.
  intros Hmax. unfold make_RequestIndex.
  assert (Hhalf : ((size_max - 1) / 2 = 2 ^ 63 - 1)%N) by reflexivity. rewrite Hhalf.
  destruct (N.ltb_spec (2 ^ 63 - 1) max) as [|_]; [by eexists|].
  destruct (grow_table_spec 65 0 (max * 2 + 1)) as [(j & Hj & Hle & _)|[_ Hrun]]; [lia|lia|..].
  - exfalso. assert (2 ^ N.of_nat j <= 2 ^ 63)%N by (apply N.pow_le_mono_r; lia).
    change (2 ^ 63)%N with (2 * 2 ^ 62)%N in *. lia.
  - change (2 ^ N.of_nat 0)%N with 1%N in Hrun. rewrite Hrun. by eexists.
Qed.

(** ** Properties of the request index *)

(** C22: For every capacity the constructor accepts and every sequence of
    [Find], [Insert], [Erase] and [Clear] calls, the open-addressing table gives
    exactly the replies of a finite map of bounded size: nothing is lost or found
    twice when an erase re-inserts a probe cluster, the cluster loop stops, and
    [Erase] never terminates the process. *)
Theorem request_index_refines_map (max : N) (r : RequestIndex) (ops : list index_op) :
  make_RequestIndex max = Ok r ->
  impl_run ops r = Ok (spec_run (N.to_nat max) ops ∅).
Proof.
  intros Hmake. destruct (N.lt_ge_cases max (2 ^ 62)) as [Hlt|Hge].
  - destruct (make_spec max Hlt) as (r' & Hmake' & Hwf & Hc & Hm). rewrite Hmake in Hmake'.
    injection Hmake' as <-. rewrite run_refines by done. by rewrite Hc, Hm.
  - destruct (make_refuses max Hge) as (e & He). congruence.
Qed.

(** The constructor accepts exactly the capacities below 2^62, builds an empty
    table with more slots than its capacity, and otherwise throws; the doubling
    loop never overflows a 64-bit size and always stops. *)
Theorem request_index_capacity (max : N) :
  ((max < 2 ^ 62)%N /\ exists r, make_RequestIndex max = Ok r /\ index_wf r /\ contents r = ∅ /\
     max_entries_ r = N.to_nat max) \/
  ((2 ^ 62 <= max)%N /\ exists e, make_RequestIndex max = Throw e).
Proof.
  destruct (N.lt_ge_cases max (2 ^ 62)) as [Hlt|Hge].
  - left. split; [done|]. by apply make_spec.
  - right. split; [done|]. by apply make_refuses.
Qed.

Definition sample_index : RequestIndex :=
  mkIndex (replicate 8 empty_entry) 3 0.

Lemma request_index_refines_map_witness :
  make_RequestIndex 3 = Ok sample_index /\
  impl_run [OpInsert 16 0; OpInsert 24 1; OpErase 16; OpFind 24; OpInsert 24 2; OpFind 16] sample_index =
  Ok [Accepted true; Accepted true; Accepted true; Found (Some 1); Accepted false; Found None].
Proof.
  split; [reflexivity|].
  exact (request_index_refines_map 3 sample_index
    [OpInsert 16 0; OpInsert 24 1; OpErase 16; OpFind 24; OpInsert 24 2; OpFind 16] eq_refl).
Defined.
