(* ===== verification/Positions.v ===== *)
(** * Position arithmetic shared by the decoder and the paged cache

    Models [engine/window_ring.h] (the ring of blocks of a sliding-window layer),
    [engine/sequence_positions.h] and [engine/admission.h].  All quantities are
    [size_t], that is, naturals below [two64] with the wrap-around written out. *)

From S2P Require Import Prelude.

Open Scope N_scope.

(** ** The sliding-window ring *)

Definition WindowLiveSpan (chunk_size window_size : N) : N :=
  u64_sub (u64_add chunk_size window_size) 1.

(** Integer division by zero is undefined in C++. *)
Definition WindowRingBlocks (chunk_size window_size block_size : N) : option N :=
  if block_size =? 0 then None
  else Some (u64_sub (u64_add (WindowLiveSpan chunk_size window_size) block_size) 1 / block_size).

Definition WindowRingColumn (column ring_blocks : N) : option N :=
  if ring_blocks =? 0 then None else Some (column mod ring_blocks).

Definition WindowRingSlot (position ring_blocks block_size : N) : option N :=
  if block_size =? 0 then None
  else
    column ← WindowRingColumn (position / block_size) ring_blocks;
    Some (u64_add (u64_mul column block_size) (position mod block_size)).

(** ** Slots of a step *)

Definition SlotsAfterStep (processed_length : Z) (scheduled_tokens : N) : N :=
  u64_add (u64_of_Z processed_length) scheduled_tokens.

Definition SlotsForWholeSequence (sequence_length : Z) : N := u64_of_Z sequence_length.

Definition ScheduledTokenCount (unprocessed : N) (chunk_size : option N) : N :=
  match chunk_size with
  | None => unprocessed
  | Some c => if c =? 0 then unprocessed else N.min c unprocessed
  end.

Definition RequiredSlots (processed_sequence_length unprocessed_token_count : N) : N :=
  u64_add processed_sequence_length unprocessed_token_count.

(** ** Properties of the ring *)

(** Two positions less than a period apart have different residues. *)
Lemma mod_window_inj m p q : 0 < m -> p < q -> q - p < m -> p mod m <> q mod m.
Proof.
  intros Hm Hpq Hd Heq.
  pose proof (N.div_mod p m ltac:(lia)) as Hp. pose proof (N.div_mod q m ltac:(lia)) as Hq.
  rewrite <- Heq in Hq. assert (q - p = m * (q / m - p / m)) as Hdiff by nia.
  assert (q / m - p / m = 0 \/ 1 <= q / m - p / m) as [H0|H1] by lia; [nia|].
  assert (m * 1 <= m * (q / m - p / m)) by (apply N.mul_le_mono_l; lia). lia.
Qed.

(** The table lookup is [position mod ring_slots]. *)
Lemma ring_slot_mod position ring block :
  0 < ring -> 0 < block -> ring * block < two64 ->
  WindowRingSlot position ring block = Some (position mod (ring * block)).
Proof.
  intros Hr Hb Hlt. unfold WindowRingSlot, WindowRingColumn.
  destruct (N.eqb_spec block 0) as [|_]; [lia|]. destruct (N.eqb_spec ring 0) as [|_]; [lia|].
  simpl. f_equal.
  pose proof (N.mod_lt (position / block) ring ltac:(lia)) as H1.
  pose proof (N.mod_lt position block ltac:(lia)) as H2.
  set (column := (position / block) mod ring) in *.
  assert ((column + 1) * block <= ring * block) by (apply N.mul_le_mono_r; lia).
  rewrite u64_mul_small by lia. rewrite u64_add_small by lia. subst column.
  rewrite (N.mul_comm ring block), N.Div0.mod_mul_r. lia.
Qed.

Lemma live_span_small chunk window :
  0 < chunk + window -> chunk + window < two64 -> WindowLiveSpan chunk window = chunk + window - 1.
Proof.
  intros H0 H. unfold WindowLiveSpan. rewrite u64_add_small by done. apply u64_sub_small; lia.
Qed.

Lemma ring_blocks_small chunk window block :
  0 < chunk + window -> 0 < block -> chunk + window + block < two64 ->
  WindowRingBlocks chunk window block = Some ((chunk + window - 1 + block - 1) / block).
Proof.
  intros H0 Hb H. unfold WindowRingBlocks. destruct (N.eqb_spec block 0) as [|_]; [lia|].
  rewrite live_span_small, u64_add_small, u64_sub_small by lia. done.
Qed.

(** Rounding up covers the span, and one block fewer would not. *)
Lemma ceil_div_bounds n b :
  0 < n -> 0 < b -> let c := (n + b - 1) / b in n <= c * b /\ (c - 1) * b < n /\ 0 < c.
Proof.
  intros Hn Hb c. subst c.
  pose proof (N.div_mod (n + b - 1) b ltac:(lia)) as Hd.
  pose proof (N.mod_lt (n + b - 1) b ltac:(lia)) as Hm.
  set (c := (n + b - 1) / b) in *.
  assert (0 < c) by (apply N.div_str_pos; lia). clearbody c.
  generalize dependent ((n + b - 1) mod b). intros r Hd Hr. nia.
Qed.

(** C36: The ring of a sliding-window layer keeps a whole step apart.  For a step
    that writes positions [past, past + scheduled) with [scheduled <= chunk_size],
    every position it writes or still reads (back to [past - (window_size - 1)])
    has its own slot inside the ring, so no write overwrites a live position; the
    slot is the position modulo the ring's slots; and the ring is no larger than
    needed, since one block fewer cannot hold the live span. *)
Theorem window_ring_correct chunk window block past scheduled p q :
  0 < window -> 0 < block -> 0 < chunk -> chunk + window + 2 * block < two64 ->
  scheduled <= chunk ->
  past - (window - 1) <= p -> p < q -> q < past + scheduled ->
  exists ring, WindowRingBlocks chunk window block = Some ring /\
    WindowRingSlot p ring block = Some (p mod (ring * block)) /\
    WindowRingSlot q ring block = Some (q mod (ring * block)) /\
    p mod (ring * block) <> q mod (ring * block) /\
    WindowLiveSpan chunk window <= ring * block /\
    (ring - 1) * block < WindowLiveSpan chunk window.
Proof.
  intros Hw Hb Hc Hlt Hs Hp Hpq Hq.
  exists ((chunk + window - 1 + block - 1) / block).
  rewrite ring_blocks_small, live_span_small by lia. split; [done|].
  destruct (ceil_div_bounds (chunk + window - 1) block) as (Hcov & Htight & Hpos); [lia..|].
  set (ring := (chunk + window - 1 + block - 1) / block) in *.
  assert (ring * block < two64) by (rewrite N.mul_sub_distr_r in Htight; lia).
  rewrite !ring_slot_mod by lia. repeat split; try lia. apply mod_window_inj; nia.
Qed.

Lemma window_ring_correct_witness : exists ring, WindowRingBlocks 4 6 4 = Some ring /\
    WindowRingSlot 5 ring 4 = Some (5 mod (ring * 4)) /\
    WindowRingSlot 13 ring 4 = Some (13 mod (ring * 4)) /\
    5 mod (ring * 4) <> 13 mod (ring * 4) /\
    WindowLiveSpan 4 6 <= ring * 4 /\ (ring - 1) * 4 < WindowLiveSpan 4 6.
Proof. apply (window_ring_correct 4 6 4 10 4 5 13); unfold two64; lia. Defined.

(** ** Chunked prefill *)

(** One step of a request that still has [unprocessed] tokens: the step writes the
    scheduled tokens, after which they are processed. *)
Definition prefill_step (chunk : option N) (st : N * N) : N * N :=
  let n := ScheduledTokenCount st.2 chunk in (st.1 + n, st.2 - n).

Fixpoint prefill (steps : nat) (chunk : option N) (st : N * N) : N * N :=
  match steps with O => st | S k => prefill k chunk (prefill_step chunk st) end.

Lemma scheduled_le u chunk : ScheduledTokenCount u chunk <= u.
Proof. unfold ScheduledTokenCount. destruct chunk as [c|]; [|lia]. case_match; lia. Qed.

Lemma scheduled_pos u chunk : 0 < u -> 0 < ScheduledTokenCount u chunk.
Proof.
  unfold ScheduledTokenCount. intros Hu. destruct chunk as [c|]; [|lia].
  destruct (N.eqb_spec c 0); lia.
Qed.

Lemma prefill_conserves k chunk st : (prefill k chunk st).1 + (prefill k chunk st).2 = st.1 + st.2.
Proof.
  revert st. induction k as [|k IH]; intros st; simpl; [done|]. rewrite IH. simpl.
  pose proof (scheduled_le st.2 chunk). lia.
Qed.

Lemma prefill_done k chunk p : prefill k chunk (p, 0) = (p, 0).
Proof.
  induction k as [|k IH]; simpl; [done|]. unfold prefill_step. simpl.
  pose proof (scheduled_le 0 chunk) as H. replace (ScheduledTokenCount 0 chunk) with 0 by lia.
  by rewrite N.add_0_r.
Qed.

(** With chunks of [c], [k] steps leave [u - k * c] tokens. *)
Lemma prefill_chunked k c p u :
  0 < c -> prefill k (Some c) (p, u) = (p + N.min u (N.of_nat k * c), u - N.of_nat k * c).
Proof.
  intros Hc. revert p u. induction k as [|k IH]; intros p u; [simpl; f_equal; lia|].
  cbn [prefill]. unfold prefill_step, ScheduledTokenCount. simpl fst; simpl snd.
  destruct (N.eqb_spec c 0) as [|_]; [lia|]. rewrite IH.
  rewrite Nat2N.inj_succ, N.mul_succ_l. f_equal; lia.
Qed.

(** The remaining tokens do not depend on where the prefill started. *)
Lemma prefill_snd k chunk p q u : (prefill k chunk (p, u)).2 = (prefill k chunk (q, u)).2.
Proof. revert p q u. induction k as [|k IH]; intros p q u; [done|]. apply IH. Qed.

(** The number of steps a prefill takes. *)
Lemma prefill_done_iff k chunk p u :
  0 < u ->
  (prefill k chunk (p, u)).2 = 0 <->
  match chunk with Some c => if c =? 0 then 1 else (u + c - 1) / c | None => 1 end <= N.of_nat k.
Proof.
  intros Hu.
  assert (forall c, ScheduledTokenCount u c = u -> (prefill k c (p, u)).2 = 0 <-> 1 <= N.of_nat k)
    as Hone.
  { intros c Hc. destruct k as [|k]; simpl; [lia|]. unfold prefill_step. simpl. rewrite Hc.
    rewrite N.sub_diag, prefill_done. simpl. lia. }
  destruct chunk as [c|]; [|by apply Hone].
  destruct (N.eqb_spec c 0) as [->|Hc]; [by apply Hone|]. rewrite prefill_chunked by lia.
  cbn [snd]. destruct (ceil_div_bounds u c ltac:(lia) ltac:(lia)) as (H1 & H2 & H3).
  set (d := (u + c - 1) / c) in *. rewrite N.mul_sub_distr_r in H2. split; nia.
Qed.

(** C37: A chunked prefill is admitted on what it finally needs.  Running the steps
    of a request with [u] unprocessed tokens, every step but a finished one makes
    progress, the prefill is complete after ceil(u / chunk) steps (one when no
    chunk size is set) and not before, and after any number of steps the slots the
    next step addresses ([SlotsAfterStep], [RequiredSlots]) stay within
    [SlotsForWholeSequence], the figure admission reserves. *)
Theorem chunked_prefill_admission (chunk : option N) (p u : N) (k : nat) :
  p + u < two64 -> 0 < u ->
  let st := prefill k chunk (p, u) in
  let steps := match chunk with Some c => if c =? 0 then 1 else (u + c - 1) / c | None => 1 end in
  (st.2 = 0 <-> steps <= N.of_nat k) /\
  (0 < st.2 -> 0 < ScheduledTokenCount st.2 chunk) /\
  SlotsAfterStep (Z.of_N st.1) (ScheduledTokenCount st.2 chunk)
    <= SlotsForWholeSequence (Z.of_N (p + u)) /\
  RequiredSlots st.1 st.2 = SlotsForWholeSequence (Z.of_N (p + u)).
Proof.
  intros Hlt Hu st steps.
  pose proof (prefill_conserves k chunk (p, u)) as Hsum. fold st in Hsum. simpl in Hsum.
  pose proof (scheduled_le st.2 chunk) as Hle.
  split; [by apply prefill_done_iff|split; [apply scheduled_pos|]].
  unfold SlotsAfterStep, RequiredSlots, SlotsForWholeSequence.
  rewrite !u64_of_Z_small, !N2Z.id, !u64_add_small by lia. lia.
Qed.

Lemma chunked_prefill_admission_witness :
  let st := prefill 2 (Some 4) (3, 10) in
  (st.2 = 0 <-> 3 <= 2) /\ (0 < st.2 -> 0 < ScheduledTokenCount st.2 (Some 4)) /\
  SlotsAfterStep (Z.of_N st.1) (ScheduledTokenCount st.2 (Some 4)) <= SlotsForWholeSequence 13 /\
  RequiredSlots st.1 st.2 = SlotsForWholeSequence 13.
Proof. apply (chunked_prefill_admission (Some 4) 3 10 2); unfold two64; lia. Defined.
