(* ===== verification/StopString.v ===== *)
(** * Stop strings: UTF-8 validation, the incremental matcher and its controller

    Models [stop_string_matcher.{h,cpp}] and [stop_string_controller.{h,cpp}].
    A byte is a natural (below 256 when it comes from a C++ string), lengths and
    indices of in-memory strings are [nat], the stream offsets are [uint64_t]. *)

From S2P Require Import Prelude.

Abbreviation byte := N (only parsing).
Abbreviation bytes := (list N) (only parsing).

(** ** Validation *)

Definition kMaxStopStringCount : nat := 16.
Definition kMaxStopStringTotalBytes : N := (16 * 1024)%N.

Definition Utf8SequenceLength (lead : byte) : nat :=
  if (lead <? 0x80)%N then 1
  else if (0xC2 <=? lead)%N && (lead <=? 0xDF)%N then 2
  else if (0xE0 <=? lead)%N && (lead <=? 0xEF)%N then 3
  else if (0xF0 <=? lead)%N && (lead <=? 0xF4)%N then 4
  else 0.

(** The loop over the continuation bytes [bytes[i + 1 .. i + length - 1]]. *)
Definition is_continuation (b : byte) : bool := negb ((b <? 0x80)%N || (0xBF <? b)%N).

(** [second], zero for a one-byte sequence. *)
Definition second_byte (length : nat) (s : bytes) (i : nat) : byte :=
  if 1 <? length then nth (i + 1) s 0%N else 0%N.

Definition bad_second (length : nat) (lead second : byte) : bool :=
  ((length =? 3)%nat && (lead =? 0xE0) && (second <? 0xA0))%N ||
  ((length =? 3)%nat && (lead =? 0xED) && (0x9F <? second))%N ||
  ((length =? 4)%nat && (lead =? 0xF0) && (second <? 0x90))%N ||
  ((length =? 4)%nat && (lead =? 0xF4) && (0x8F <? second))%N.

Fixpoint utf8_loop (fuel : nat) (s : bytes) (i : nat) : option bool :=
  match fuel with
  | O => None
  | S fuel =>
    if i <? length s then
      let lead := nth i s 0%N in
      let len := Utf8SequenceLength lead in
      if (len =? 0) || (length s <? i + len) then Some false
      else if negb (forallb is_continuation (take (len - 1) (drop (i + 1) s))) then Some false
      else if bad_second len lead (second_byte len s i) then Some false
      else utf8_loop fuel s (i + len)
    else Some true
  end.

Definition IsValidUtf8 (s : bytes) : option bool := utf8_loop (S (length s)) s 0.

Inductive StopError : Type :=
  | TooManyStopStrings (count : nat)
  | EmptyStopString (index : nat)
  | InvalidUtf8 (index : nat)
  | TooManyBytes (total : N)
  | ConsumeAfterFlush.

(** The loop over the entries; [total] is a [size_t]. *)
Fixpoint validate_entries (i : nat) (l : list bytes) (total : N) : outcome StopError N :=
  match l with
  | [] => Ok total
  | s :: l =>
    match s with
    | [] => Throw (EmptyStopString i)
    | _ =>
      match IsValidUtf8 s with
      | Some true => validate_entries (S i) l (u64_add total (N.of_nat (length s)))
      | Some false => Throw (InvalidUtf8 i)
      | None => Undefined
      end
    end
  end.

Definition ValidateStopStrings (l : list bytes) : outcome StopError unit :=
  if kMaxStopStringCount <? length l then Throw (TooManyStopStrings (length l))
  else
    match validate_entries 0 l 0 with
    | Ok total =>
      if (kMaxStopStringTotalBytes <? total)%N then Throw (TooManyBytes total) else Ok tt
    | Throw e => Throw e
    | Terminate => Terminate
    | Undefined => Undefined
    end.

(** ** The matcher *)

(** [std::string::operator[]]: the terminating zero at [size()], undefined beyond. *)
Definition char_at (s : bytes) (k : nat) : option byte :=
  if k =? length s then Some 0%N else s !! k.

(** [while (q > 0 && pattern[q] != b) q = failure_table[q - 1];] *)
Fixpoint fall_back (fuel : nat) (pattern : bytes) (table : list nat) (b : byte) (q : nat) :
    option nat :=
  if q =? 0 then Some q
  else
    c ← char_at pattern q;
    if (c =? b)%N then Some q
    else
      match fuel with
      | O => None
      | S fuel => q' ← table !! (q - 1); fall_back fuel pattern table b q'
      end.

(** The loop followed by [if (pattern[q] == b) ++q;] *)
Definition kmp_step (pattern : bytes) (table : list nat) (b : byte) (q : nat) : option nat :=
  q' ← fall_back q pattern table b q;
  c ← char_at pattern q';
  Some (if (c =? b)%N then S q' else q').

(** The loop [for (k = 1; k < pattern.size(); ++k)] of the constructor, on the bytes
    of [pattern] from [k] on. *)
Fixpoint build_table (rest : bytes) (pattern : bytes) (k matched : nat) (table : list nat) :
    option (list nat) :=
  match rest with
  | [] => Some table
  | b :: rest =>
    matched' ← kmp_step pattern table b matched;
    build_table rest pattern (S k) matched' (<[k := matched']> table)
  end.

Definition failure_table (pattern : bytes) : option (list nat) :=
  build_table (drop 1 pattern) pattern 1 0 (replicate (length pattern) 0).

Record StopStringMatch : Type := mkMatch
  { index : nat; start_offset : N; end_offset : N }.

Record StopStringMatcher : Type := mkMatcher
  { stop_strings_ : list bytes;
    stop_string_failure_tables_ : list (list nat);
    current_prefix_lengths_ : list nat;
    longest_stop_string_ : nat;
    safe_ : bytes;
    pending_ : bytes;
    pending_begin_ : nat;
    pending_start_offset_ : N;
    consumed_bytes_ : N;
    match_ : option StopStringMatch;
    flushed_ : bool }.

Definition make_StopStringMatcher (stop_strings : list bytes) :
    outcome StopError StopStringMatcher :=
  match ValidateStopStrings stop_strings with
  | Ok _ =>
    match mapM failure_table stop_strings with
    | Some tables =>
      Ok (mkMatcher stop_strings tables (replicate (length stop_strings) 0)
            (max_list (length <$> stop_strings)) [] [] 0 0 0 None false)
    | None => Undefined
    end
  | Throw e => Throw e
  | Terminate => Terminate
  | Undefined => Undefined
  end.

(** The loop over the automatons for one byte: their next states and the best match. *)
Fixpoint advance_all (i : nat) (b : byte) (ss : list bytes) (tables : list (list nat))
    (qs : list nat) (best_length best_index : nat) : option (list nat * (nat * nat)) :=
  match ss, tables, qs with
  | s :: ss, t :: tables, q :: qs =>
    q' ← kmp_step s t b q;
    let best :=
      if (q' =? length s) && (best_length <? length s) then (length s, i)
      else (best_length, best_index) in
    r ← advance_all (S i) b ss tables qs best.1 best.2;
    Some (q' :: r.1, r.2)
  | _, _, _ => Some (qs, (best_length, best_index))
  end.

Abbreviation Matcher := (M StopStringMatcher StopError).

(** The fields a stream changes, in the order automatons, safe output, pending
    buffer, its begin, its offset, consumed bytes, match, flushed. *)
Definition set_stream (m : StopStringMatcher) (qs : list nat) (safe pending : bytes)
    (begin_ : nat) (start consumed : N) (mt : option StopStringMatch) (fl : bool) :
    StopStringMatcher :=
  mkMatcher (stop_strings_ m) (stop_string_failure_tables_ m) qs (longest_stop_string_ m)
    safe pending begin_ start consumed mt fl.

Definition set_prefix_lengths (qs : list nat) (m : StopStringMatcher) : StopStringMatcher :=
  set_stream m qs (safe_ m) (pending_ m) (pending_begin_ m) (pending_start_offset_ m)
    (consumed_bytes_ m) (match_ m) (flushed_ m).

(** The body under [if (best_length != 0)]. *)
Definition complete_match (previously_pending k best_length best_index : nat)
    (m : StopStringMatcher) : StopStringMatcher :=
  let e := u64_add (pending_start_offset_ m) (N.of_nat (previously_pending + k + 1)) in
  let mt := mkMatch best_index (u64_sub e (N.of_nat best_length)) e in
  let count := N.to_nat (u64_sub (start_offset mt) (pending_start_offset_ m)) in
  set_stream m (current_prefix_lengths_ m)
    (safe_ m ++ take count (drop (pending_begin_ m) (pending_ m))) [] 0 (end_offset mt)
    (consumed_bytes_ m) (Some mt) (flushed_ m).

(** The byte loop; it stops at the first byte that completes a match. *)
Fixpoint consume_loop (previously_pending k : nat) (chunk : bytes) :
    Matcher (option StopStringMatch) :=
  match chunk with
  | [] => mret None
  | b :: chunk =>
    m ← gets id;
    match advance_all 0 b (stop_strings_ m) (stop_string_failure_tables_ m)
            (current_prefix_lengths_ m) 0 0 with
    | None => undefined
    | Some (qs, (best_length, best_index)) =>
      _ ← modify (set_prefix_lengths qs);
      if negb (best_length =? 0) then
        _ ← modify (complete_match previously_pending k best_length best_index);
        gets match_
      else consume_loop previously_pending (S k) chunk
    end
  end.

(** Publishing what cannot match any more, and compacting the buffer. *)
Definition release_safe (m : StopStringMatcher) : StopStringMatcher :=
  let longest_active_prefix := max_list (current_prefix_lengths_ m) in
  let release := length (pending_ m) - pending_begin_ m - longest_active_prefix in
  let begin_ := pending_begin_ m + release in
  let live_pending := length (pending_ m) - begin_ in
  let compact := live_pending <=? begin_ in
  set_stream m (current_prefix_lengths_ m)
    (safe_ m ++ take release (drop (pending_begin_ m) (pending_ m)))
    (if compact then (if live_pending =? 0 then [] else drop begin_ (pending_ m))
     else pending_ m)
    (if compact then 0 else begin_)
    (u64_add (pending_start_offset_ m) (N.of_nat release))
    (consumed_bytes_ m) (match_ m) (flushed_ m).

Definition count_consumed (n : nat) (m : StopStringMatcher) : StopStringMatcher :=
  set_stream m (current_prefix_lengths_ m) (safe_ m) (pending_ m) (pending_begin_ m)
    (pending_start_offset_ m) (u64_add (consumed_bytes_ m) (N.of_nat n)) (match_ m) (flushed_ m).

Definition append_safe (chunk : bytes) (m : StopStringMatcher) : StopStringMatcher :=
  set_stream m (current_prefix_lengths_ m) (safe_ m ++ chunk) (pending_ m) (pending_begin_ m)
    (pending_start_offset_ m) (consumed_bytes_ m) (match_ m) (flushed_ m).

Definition append_pending (chunk : bytes) (m : StopStringMatcher) : StopStringMatcher :=
  set_stream m (current_prefix_lengths_ m) (safe_ m) (pending_ m ++ chunk) (pending_begin_ m)
    (pending_start_offset_ m) (consumed_bytes_ m) (match_ m) (flushed_ m).

Definition Consume (chunk : bytes) : Matcher (option StopStringMatch) :=
  m ← gets id;
  if flushed_ m then throw ConsumeAfterFlush
  else if match_ m is Some _ then mret None
  else
    _ ← modify (count_consumed (length chunk));
    if (length (stop_strings_ m) =? 0) then
      _ ← modify (append_safe chunk); mret None
    else
      let previously_pending := length (pending_ m) - pending_begin_ m in
      _ ← modify (append_pending chunk);
      r ← consume_loop previously_pending 0 chunk;
      match r with
      | Some mt => mret (Some mt)
      | None => _ ← modify release_safe; mret None
      end.

Definition PendingOutput (m : StopStringMatcher) : bytes := drop (pending_begin_ m) (pending_ m).

Definition TakeSafeOutput (m : StopStringMatcher) : bytes * StopStringMatcher :=
  (safe_ m,
   set_stream m (current_prefix_lengths_ m) [] (pending_ m) (pending_begin_ m)
     (pending_start_offset_ m) (consumed_bytes_ m) (match_ m) (flushed_ m)).

Definition Flush (m : StopStringMatcher) : bytes * StopStringMatcher :=
  let '(output, m1) := TakeSafeOutput m in
  (output ++ drop (pending_begin_ m1) (pending_ m1),
   set_stream m1 (current_prefix_lengths_ m1) (safe_ m1) [] 0
     (u64_add (pending_start_offset_ m1) (N.of_nat (length (pending_ m1) - pending_begin_ m1)))
     (consumed_bytes_ m1) (match_ m1) true).

Definition Reset (m : StopStringMatcher) : StopStringMatcher :=
  set_stream m (replicate (length (current_prefix_lengths_ m)) 0) [] [] 0 0 0 None false.

(** ** UTF-8: the validator accepts exactly the encodings *)

Definition scalar_value (c : N) : Prop := (c < 0xD800 \/ 0xE000 <= c <= 0x10FFFF)%N.

Definition utf8_encode (c : N) : bytes :=
  (if c <? 0x80 then [c]
   else if c <? 0x800 then [0xC0 + c / 64; 0x80 + c mod 64]
   else if c <? 0x10000 then [0xE0 + c / 4096; 0x80 + (c / 64) mod 64; 0x80 + c mod 64]
   else [0xF0 + c / 262144; 0x80 + (c / 4096) mod 64; 0x80 + (c / 64) mod 64; 0x80 + c mod 64])%N.

(** What the loop body accepts at the head of [t]: the length of the sequence. *)
Definition utf8_head (t : bytes) : option nat :=
  match t with
  | [] => None
  | lead :: _ =>
    let len := Utf8SequenceLength lead in
    if (len =? 0) || (length t <? len) then None
    else if negb (forallb is_continuation (take (len - 1) (drop 1 t))) then None
    else if bad_second len lead (if 1 <? len then nth 1 t 0%N else 0%N) then None
    else Some len
  end.

(** The well-formed byte sequences, lead byte by lead byte. *)
Definition cont (b : byte) : Prop := (0x80 <= b <= 0xBF)%N.

Inductive well_formed_head : bytes -> nat -> Prop :=
  | wf1 x t : (x < 0x80)%N -> well_formed_head (x :: t) 1
  | wf2 x y t : (0xC2 <= x <= 0xDF)%N -> cont y -> well_formed_head (x :: y :: t) 2
  | wf3 x y z t : (0xE0 <= x <= 0xEF)%N -> cont y -> cont z ->
      (x = 0xE0 -> 0xA0 <= y)%N -> (x = 0xED -> y <= 0x9F)%N ->
      well_formed_head (x :: y :: z :: t) 3
  | wf4 x y z w t : (0xF0 <= x <= 0xF4)%N -> cont y -> cont z -> cont w ->
      (x = 0xF0 -> 0x90 <= y)%N -> (x = 0xF4 -> y <= 0x8F)%N ->
      well_formed_head (x :: y :: z :: w :: t) 4.

Lemma is_continuation_spec b : is_continuation b = true <-> cont b.
Proof.
  unfold is_continuation, cont. destruct (N.ltb_spec b 0x80), (N.ltb_spec 0xBF b); simpl; split; lia.
Qed.

Lemma is_continuation_false b : is_continuation b = false -> ~ cont b.
Proof. rewrite <- is_continuation_spec. by destruct (is_continuation b). Qed.

Lemma sequence_length_spec x :
  ((x < 0x80)%N /\ Utf8SequenceLength x = 1) \/ ((0xC2 <= x <= 0xDF)%N /\ Utf8SequenceLength x = 2) \/
  ((0xE0 <= x <= 0xEF)%N /\ Utf8SequenceLength x = 3) \/
  ((0xF0 <= x <= 0xF4)%N /\ Utf8SequenceLength x = 4) \/
  ((0x80 <= x < 0xC2 \/ 0xF4 < x)%N /\ Utf8SequenceLength x = 0).
Proof.
  unfold Utf8SequenceLength.
  destruct (N.ltb_spec x 0x80), (N.leb_spec 0xC2 x), (N.leb_spec x 0xDF), (N.leb_spec 0xE0 x),
    (N.leb_spec x 0xEF), (N.leb_spec 0xF0 x), (N.leb_spec x 0xF4); simpl; lia.
Qed.

Lemma bad_second_3 x y : bad_second 3 x y = false <-> (x = 0xE0 -> 0xA0 <= y)%N /\ (x = 0xED -> y <= 0x9F)%N.
Proof.
  unfold bad_second. simpl. rewrite !orb_false_r.
  destruct (N.eqb_spec x 0xE0), (N.eqb_spec x 0xED), (N.ltb_spec y 0xA0), (N.ltb_spec 0x9F y); simpl;
    split; (discriminate || naive_solver lia).
Qed.

Lemma bad_second_4 x y : bad_second 4 x y = false <-> (x = 0xF0 -> 0x90 <= y)%N /\ (x = 0xF4 -> y <= 0x8F)%N.
Proof.
  unfold bad_second. simpl.
  destruct (N.eqb_spec x 0xF0), (N.eqb_spec x 0xF4), (N.ltb_spec y 0x90), (N.ltb_spec 0x8F y); simpl;
    split; (discriminate || naive_solver lia).
Qed.

(** The continuation loop and the checks on the second byte accept the table. *)
Lemma utf8_head_spec t n : utf8_head t = Some n <-> well_formed_head t n.
Proof.
  split.
  - destruct t as [|x t]; [done|]. unfold utf8_head.
    destruct (sequence_length_spec x) as [[Hx ->]|[[Hx ->]|[[Hx ->]|[[Hx ->]|[Hx ->]]]]]; simpl.
    + intros [= <-]. by constructor.
    + destruct t as [|y t]; [done|]. simpl. destruct (is_continuation y) eqn:Hy; [|done].
      simpl. intros [= <-]. constructor; [done|by apply is_continuation_spec].
    + destruct t as [|y [|z t]]; try done. simpl.
      destruct (is_continuation y) eqn:Hy, (is_continuation z) eqn:Hz; simpl; try done.
      destruct (bad_second 3 x y) eqn:Hb; [done|]. intros [= <-]. apply bad_second_3 in Hb as [??].
      constructor; try done; by apply is_continuation_spec.
    + destruct t as [|y [|z [|w t]]]; try done. simpl.
      destruct (is_continuation y) eqn:Hy, (is_continuation z) eqn:Hz, (is_continuation w) eqn:Hw;
        simpl; try done.
      destruct (bad_second 4 x y) eqn:Hb; [done|]. intros [= <-]. apply bad_second_4 in Hb as [??].
      constructor; try done; by apply is_continuation_spec.
    + done.
  - intros [x t' Hx|x y t' Hx Hy|x y z t' Hx Hy Hz H1 H2|x y z w t' Hx Hy Hz Hw H1 H2]; unfold utf8_head;
      destruct (sequence_length_spec x) as [[? ->]|[[? ->]|[[? ->]|[[? ->]|[? ->]]]]]; try lia; simpl.
    + done.
    + by rewrite (proj2 (is_continuation_spec y) Hy).
    + rewrite (proj2 (is_continuation_spec y) Hy), (proj2 (is_continuation_spec z) Hz). simpl.
      by rewrite (proj2 (bad_second_3 x y) (conj H1 H2)).
    + rewrite (proj2 (is_continuation_spec y) Hy), (proj2 (is_continuation_spec z) Hz),
        (proj2 (is_continuation_spec w) Hw). simpl.
      by rewrite (proj2 (bad_second_4 x y) (conj H1 H2)).
Qed.

Lemma utf8_head_length t n : utf8_head t = Some n -> 1 <= n <= length t.
Proof. rewrite utf8_head_spec. intros []; simpl; lia. Qed.

Ltac Zify.zify_post_hook ::= Z.to_euclidean_division_equations.

Lemma well_formed_encode c t :
  scalar_value c -> well_formed_head (utf8_encode c ++ t) (length (utf8_encode c)).
Proof.
  unfold scalar_value, utf8_encode. intros Hc.
  destruct (N.ltb_spec c 0x80); [by constructor|].
  destruct (N.ltb_spec c 0x800); [|destruct (N.ltb_spec c 0x10000)]; simpl; constructor; unfold cont; lia.
Qed.

Lemma well_formed_decode t n :
  well_formed_head t n -> exists c, scalar_value c /\ t = utf8_encode c ++ drop n t /\
    n = length (utf8_encode c).
Proof.
  unfold scalar_value, utf8_encode.
  intros [x t' Hx|x y t' Hx Hy|x y z t' Hx Hy Hz H1 H2|x y z w t' Hx Hy Hz Hw H1 H2];
    unfold cont in *.
  - exists x. split; [lia|]. destruct (N.ltb_spec x 0x80); [done|lia].
  - exists (64 * (x - 0xC0) + (y - 0x80))%N. split; [lia|].
    match goal with |- context [(?c <? 0x80)%N] => remember c as c0 eqn:Hc0 end.
    destruct (N.ltb_spec c0 0x80); [lia|]. destruct (N.ltb_spec c0 0x800); [|lia].
    simpl. split; [|done]. repeat f_equal; lia.
  - exists (4096 * (x - 0xE0) + 64 * (y - 0x80) + (z - 0x80))%N. split; [lia|].
    match goal with |- context [(?c <? 0x80)%N] => remember c as c0 eqn:Hc0 end.
    destruct (N.ltb_spec c0 0x80); [lia|]. destruct (N.ltb_spec c0 0x800); [lia|].
    destruct (N.ltb_spec c0 0x10000); [|lia].
    simpl. split; [|done]. repeat f_equal; lia.
  - exists (262144 * (x - 0xF0) + 4096 * (y - 0x80) + 64 * (z - 0x80) + (w - 0x80))%N. split; [lia|].
    match goal with |- context [(?c <? 0x80)%N] => remember c as c0 eqn:Hc0 end.
    destruct (N.ltb_spec c0 0x80); [lia|]. destruct (N.ltb_spec c0 0x800); [lia|].
    destruct (N.ltb_spec c0 0x10000); [lia|].
    simpl. split; [|done]. repeat f_equal; lia.
Qed.

Ltac Zify.zify_post_hook ::= idtac.

Lemma nth_drop_head (s : bytes) i k : nth (i + k) s 0%N = nth k (drop i s) 0%N.
Proof.
  revert i. induction s as [|x s IH]; intros [|i]; simpl; try done.
  by destruct k.
Qed.

Lemma utf8_loop_unfold fuel s i :
  utf8_loop (S fuel) s i =
  match drop i s with
  | [] => Some true
  | t => match utf8_head t with Some n => utf8_loop fuel s (i + n) | None => Some false end
  end.
Proof.
  cbn [utf8_loop]. destruct (Nat.ltb_spec i (length s)) as [Hi|Hi]; [|by rewrite drop_ge].
  assert (nth i s 0%N = nth 0 (drop i s) 0%N) as -> by (rewrite <- nth_drop_head; f_equal; lia).
  assert (length s = i + length (drop i s)) as Hlen by (rewrite length_drop; lia).
  assert (drop (i + 1) s = drop 1 (drop i s)) as -> by (by rewrite drop_drop).
  unfold second_byte. rewrite nth_drop_head.
  destruct (drop i s) as [|x t] eqn:Hd; [simpl in Hlen; lia|]. change (nth 0 (x :: t) 0%N) with x.
  unfold utf8_head.
  replace (length s <? i + Utf8SequenceLength x) with (length (x :: t) <? Utf8SequenceLength x)
    by (destruct (Nat.ltb_spec (length (x :: t)) (Utf8SequenceLength x)),
          (Nat.ltb_spec (length s) (i + Utf8SequenceLength x)); lia).
  destruct (_ || _); [done|]. destruct (negb _); [done|]. by destruct (bad_second _ _ _).
Qed.

(** The byte strings that are concatenations of encoded scalar values. *)
Definition utf8_string (s : bytes) : Prop :=
  exists cs, Forall scalar_value cs /\ s = concat (utf8_encode <$> cs).

Lemma utf8_string_nil : utf8_string [].
Proof. by exists []. Qed.

(** Decoding is deterministic: the head of an encoded string is the first scalar. *)
Lemma utf8_string_step t n :
  utf8_head t = Some n -> utf8_string t <-> utf8_string (drop n t).
Proof.
  intros Hn. pose proof (proj1 (utf8_head_spec _ _) Hn) as (c & Hc & Ht & Hlen)%well_formed_decode.
  split.
  - intros (cs & Hcs & Heq). destruct cs as [|c' cs].
    { simpl in Heq. subst t. done. }
    apply Forall_cons in Hcs as [Hc' Hcs]. exists cs. split; [done|].
    rewrite Heq in Hn. simpl in Hn.
    rewrite (proj2 (utf8_head_spec _ _) (well_formed_encode c' _ Hc')) in Hn. injection Hn as Hn.
    rewrite Heq. simpl. by rewrite drop_app_length'.
  - intros (cs & Hcs & Heq). exists (c :: cs). split; [by constructor|].
    rewrite fmap_cons. cbn [concat]. rewrite <- Heq. exact Ht.
Qed.

Lemma utf8_string_head t : utf8_string t -> t <> [] -> exists n, utf8_head t = Some n.
Proof.
  intros (cs & Hcs & ->) Hne. destruct cs as [|c cs]; [done|].
  apply Forall_cons in Hcs as [Hc Hcs]. eexists. simpl. apply utf8_head_spec. by apply well_formed_encode.
Qed.

Lemma utf8_loop_spec fuel s i :
  length (drop i s) < fuel ->
  exists b, utf8_loop fuel s i = Some b /\ (b = true <-> utf8_string (drop i s)).
Proof.
  revert i. induction fuel as [|fuel IH]; intros i Hf; [lia|]. rewrite utf8_loop_unfold.
  destruct (drop i s) as [|x t] eqn:Hd.
  { exists true. split; [done|]. split; [|done]. intros _. apply utf8_string_nil. }
  destruct (utf8_head (x :: t)) as [n|] eqn:Hh.
  - pose proof (utf8_head_length _ _ Hh) as Hn.
    assert (drop (i + n) s = drop n (x :: t)) as Hdn by (by rewrite <- Hd, drop_drop).
    destruct (IH (i + n)) as (b & Hb & Hspec).
    { rewrite Hdn, length_drop. lia. }
    exists b. split; [done|]. by rewrite Hspec, Hdn, (utf8_string_step _ _ Hh).
  - exists false. split; [done|]. split; [done|]. intros Hs.
    destruct (utf8_string_head _ Hs ltac:(done)) as [n Hn]. congruence.
Qed.

Lemma is_valid_utf8_spec s : exists b, IsValidUtf8 s = Some b /\ (b = true <-> utf8_string s).
Proof.
  destruct (utf8_loop_spec (S (length s)) s 0) as (b & Hb & Hs); [rewrite drop_0; lia|].
  rewrite drop_0 in Hs. by exists b.
Qed.

(** C40: [IsValidUtf8] always answers, and accepts exactly the byte strings that are
    the UTF-8 encoding of a sequence of Unicode scalar values: overlong forms,
    surrogates, values above U+10FFFF, and truncated or stray continuation bytes
    are all rejected and nothing else is. *)
Theorem utf8_valid_iff_encoding s :
  (IsValidUtf8 s = Some true /\ utf8_string s) \/ (IsValidUtf8 s = Some false /\ ~ utf8_string s).
Proof.
  destruct (is_valid_utf8_spec s) as ([|] & Hb & Hs); [left; naive_solver|right].
  split; [done|]. by intros ?%Hs.
Qed.

(** ** Validation of a configuration *)

Definition total_length (l : list bytes) : N := N.of_nat (length (concat l)).

Definition entry_ok (s : bytes) : Prop := s <> [] /\ utf8_string s.

Lemma total_length_cons s l : total_length (s :: l) = (N.of_nat (length s) + total_length l)%N.
Proof. unfold total_length. simpl. rewrite length_app. lia. Qed.

Lemma validate_entries_spec l i total :
  (total + total_length l < two64)%N ->
  match validate_entries i l total with
  | Ok n => Forall entry_ok l /\ n = (total + total_length l)%N
  | Throw e => exists k s, l !! k = Some s /\ Forall entry_ok (take k l) /\
      ((e = EmptyStopString (i + k) /\ s = []) \/
       (e = InvalidUtf8 (i + k) /\ s <> [] /\ ~ utf8_string s))
  | _ => False
  end.
Proof.
  revert i total. induction l as [|s l IH]; intros i total Hlt; simpl.
  { split; [constructor|]. unfold total_length. simpl. lia. }
  rewrite total_length_cons in Hlt. destruct s as [|x s0]; [|remember (x :: s0) as s eqn:Es].
  { exists 0, []. rewrite Nat.add_0_r. repeat split; [constructor|by left]. }
  assert (s <> []) as Hne by (by subst).
  destruct (is_valid_utf8_spec s) as ([|] & -> & Hs).
  - rewrite u64_add_small by lia.
    specialize (IH (S i) (total + N.of_nat (length s))%N ltac:(lia)).
    destruct (validate_entries _ _ _) as [n|e| |]; try done.
    + destruct IH as [IH ->]. rewrite total_length_cons. split; [|lia]. constructor; [|done].
      split; [done|by apply Hs].
    + destruct IH as (k & s' & Hk & Hpre & He). exists (S k), s'.
      replace (S i + k) with (i + S k) in He by lia. split; [done|]. split; [|done].
      simpl. constructor; [|done]. split; [done|by apply Hs].
  - exists 0, s. rewrite Nat.add_0_r. split; [done|]. split; [constructor|]. right.
    split_and!; [done..|]. by intros ?%Hs.
Qed.

Definition config_ok (l : list bytes) : Prop :=
  length l <= kMaxStopStringCount /\ Forall entry_ok l /\
  (total_length l <= kMaxStopStringTotalBytes)%N.

(** [ValidateStopStrings] accepts a configuration exactly when it has at most 16
    entries, every entry is non-empty well-formed UTF-8 and all entries together
    have at most 16 KiB; otherwise it throws, and the exception names the first
    offending entry (the count first, the aggregate last). *)
Theorem validate_stop_strings_correct l :
  (total_length l < two64)%N ->
  match ValidateStopStrings l with
  | Ok _ => config_ok l
  | Throw (TooManyStopStrings n) => n = length l /\ kMaxStopStringCount < n
  | Throw (EmptyStopString i) => l !! i = Some [] /\ Forall entry_ok (take i l)
  | Throw (InvalidUtf8 i) =>
      exists s, l !! i = Some s /\ s <> [] /\ ~ utf8_string s /\ Forall entry_ok (take i l)
  | Throw (TooManyBytes n) =>
      Forall entry_ok l /\ n = total_length l /\ (kMaxStopStringTotalBytes < n)%N
  | _ => False
  end.
Proof.
  intros Hlt. unfold ValidateStopStrings.
  destruct (Nat.ltb_spec kMaxStopStringCount (length l)) as [Hc|Hc]; [done|].
  pose proof (validate_entries_spec l 0 0 ltac:(lia)) as Hspec.
  destruct (validate_entries 0 l 0) as [n|e| |]; try done.
  - destruct Hspec as [Hok ->]. rewrite N.add_0_l.
    destruct (N.ltb_spec kMaxStopStringTotalBytes (total_length l)); [done|]. by split_and!.
  - destruct Hspec as (k & s & Hk & Hpre & [[-> ->]|(-> & Hne & Hs)]); simpl; [done|]. by exists s.
Qed.

Lemma validate_stop_strings_correct_witness :
  ValidateStopStrings [[0x61; 0x62]; [0xC0; 0x80]]%N = Throw (InvalidUtf8 1) /\
  exists s, [[0x61; 0x62]; [0xC0; 0x80]]%N !! 1 = Some s /\ s <> [] /\ ~ utf8_string s /\
    Forall entry_ok (take 1 [[0x61; 0x62]; [0xC0; 0x80]]%N).
Proof.
  split; [reflexivity|].
  exact (validate_stop_strings_correct [[0x61; 0x62]; [0xC0; 0x80]]%N eq_refl).
Defined.

(** ** The automatons *)

(** [q] bytes of [P] are a suffix of the stream [s]. *)
Definition border (P : bytes) (q : nat) (s : bytes) : Prop :=
  q <= length P /\ take q P `suffix_of` s.

Definition longest (P s : bytes) (q : nat) : Prop :=
  border P q s /\ forall k, border P k s -> k <= q.

(** The first [n] entries of the failure table are right: entry [k] is the longest
    prefix of [P] that is a proper suffix of its first [k + 1] bytes. *)
Definition ft_ok (P : bytes) (t : list nat) (n : nat) : Prop :=
  forall k, k < n -> exists j, t !! k = Some j /\ longest P (drop 1 (take (S k) P)) j.

Lemma border_0 P s : border P 0 s.
Proof. split; [lia|]. rewrite take_0. apply suffix_nil. Qed.

Lemma border_length P q s : border P q s -> q <= length s.
Proof. intros [Hq Hs]. apply suffix_length in Hs. rewrite length_take in Hs. lia. Qed.

Lemma border_snoc P k s b : border P (S k) (s ++ [b]) <-> border P k s /\ P !! k = Some b.
Proof.
  split.
  - intros [Hk Hs]. destruct (lookup_lt_is_Some_2 P k ltac:(lia)) as [c Hc].
    rewrite (take_S_r _ _ _ Hc) in Hs. pose proof (suffix_snoc_inv_1 _ _ _ _ Hs) as <-.
    apply suffix_snoc_inv_2 in Hs. split; [|done]. split; [lia|done].
  - intros [[Hk Hs] Hb]. pose proof (lookup_lt_Some _ _ _ Hb). split; [lia|].
    rewrite (take_S_r _ _ _ Hb). by apply suffix_snoc.
Qed.

(** Shorter borders of the stream are the proper borders of the current prefix. *)
Lemma border_chain P q s k : border P q s -> k < q ->
  border P k s <-> border P k (drop 1 (take q P)).
Proof.
  intros [Hq Hs] Hk. split.
  - intros [_ Hks]. split; [lia|].
    assert (take k P `suffix_of` take q P) as [w Hw].
    { destruct (suffix_weak_total _ _ _ Hks Hs) as [?|Hx]; [done|].
      apply suffix_length in Hx. rewrite !length_take in Hx. lia. }
    rewrite Hw. destruct w as [|x w].
    + apply (f_equal length) in Hw. simpl in Hw. rewrite !length_take in Hw. lia.
    + simpl. rewrite drop_0. by exists w.
  - intros [? Hks]. split; [lia|]. etrans; [exact Hks|]. etrans; [|exact Hs]. apply suffix_drop.
Qed.

Lemma ft_ok_mono P t n m : ft_ok P t n -> m <= n -> ft_ok P t m.
Proof. intros Ht Hm k Hk. apply Ht. lia. Qed.

Lemma char_at_lookup P k : k < length P -> char_at P k = P !! k.
Proof. intros Hk. unfold char_at. destruct (Nat.eqb_spec k (length P)); [lia|done]. Qed.

Section kmp.
Context (P : bytes) (t : list nat) (s : bytes) (b : byte).

(** [q] is at least as long as every prefix that [b] could extend. *)
Definition dominates (q : nat) : Prop :=
  forall k, border P k s -> P !! k = Some b -> k <= q.

Lemma fall_back_spec fuel q :
  q <= fuel -> q < length P -> ft_ok P t q -> border P q s -> dominates q ->
  exists q', fall_back fuel P t b q = Some q' /\ q' <= q /\ border P q' s /\
    (q' = 0 \/ P !! q' = Some b) /\ dominates q'.
Proof.
  revert q. induction fuel as [|fuel IH]; intros q Hf Hq Ht Hb Hd; simpl.
  { exists q. replace q with 0 in * by lia. split_and!; [done..|by left|done]. }
  destruct (Nat.eqb_spec q 0) as [->|Hq0]; [exists 0; split_and!; [done..|by left|done]|].
  rewrite char_at_lookup by done. destruct (lookup_lt_is_Some_2 P q Hq) as [c Hc]. rewrite Hc. simpl.
  destruct (N.eqb_spec c b) as [->|Hcb]; [exists q; split_and!; [done..|by right|done]|].
  destruct (Ht (q - 1)) as (j & Hj & Hjb & Hjm); [lia|]. rewrite Hj. simpl.
  replace (S (q - 1)) with q in * by lia.
  assert (j < q) as Hjq.
  { apply border_length in Hjb. rewrite length_drop, length_take in Hjb. lia. }
  destruct (IH j) as (q' & -> & Hle & Hrest); [lia..| | | |].
  - by apply (ft_ok_mono _ _ q); [|lia].
  - by apply (border_chain P q s j).
  - intros k Hk Hkb. apply Hjm. pose proof (Hd k Hk Hkb).
    assert (k <> q) by congruence. by apply (border_chain P q s k); [|lia|].
  - exists q'. split_and!; [done|lia|naive_solver..].
Qed.

(** One byte takes the longest active prefix of [s] to that of [s ++ [b]]. *)
Lemma kmp_step_spec q :
  longest P s q -> q < length P -> ft_ok P t q ->
  exists q', kmp_step P t b q = Some q' /\ longest P (s ++ [b]) q'.
Proof.
  intros [Hb Hm] Hq Ht. unfold kmp_step.
  destruct (fall_back_spec q q) as (q' & -> & Hle & Hb' & Hor & Hd); [lia|done..| |].
  { intros k Hk _. by apply Hm. }
  simpl. rewrite char_at_lookup by lia.
  destruct (lookup_lt_is_Some_2 P q' ltac:(lia)) as [c Hc]. rewrite Hc. simpl.
  assert (forall k, border P k (s ++ [b]) -> k <= S q' /\ (k = S q' -> P !! q' = Some b)) as Hall.
  { intros [|k] Hk; [split; lia|]. apply border_snoc in Hk as [Hk Hkb].
    pose proof (Hd k Hk Hkb). split; [lia|]. by intros [= ->]. }
  destruct (N.eqb_spec c b) as [->|Hcb].
  - exists (S q'). split; [done|]. split; [by apply border_snoc|]. intros k Hk. by apply Hall.
  - exists q'. split; [done|]. destruct Hor as [->|?]; [|congruence].
    split; [apply border_0|]. intros k Hk. destruct (Hall k Hk) as [Hk1 Hk2].
    assert (k <> 1) by (intros ->; specialize (Hk2 eq_refl); congruence). lia.
Qed.
End kmp.

Lemma build_table_spec P rest k matched t :
  rest = drop k P -> 1 <= k <= length P -> longest P (drop 1 (take k P)) matched ->
  ft_ok P t k -> length t = length P ->
  exists t', build_table rest P k matched t = Some t' /\ ft_ok P t' (length P) /\ length t' = length P.
Proof.
  revert k matched t. induction rest as [|b rest IH]; intros k matched t Hrest Hk Hl Ht Hlen; simpl.
  { exists t. split_and!; [done| |done]. apply (ft_ok_mono _ _ k); [done|].
    apply (f_equal length) in Hrest. rewrite length_drop in Hrest. simpl in Hrest. lia. }
  assert (P !! k = Some b) as Hb.
  { rewrite <- (Nat.add_0_r k), <- lookup_drop, <- Hrest. done. }
  pose proof (lookup_lt_Some _ _ _ Hb) as Hklt.
  assert (matched < k) as Hmk.
  { destruct Hl as [Hl _]. apply border_length in Hl. rewrite length_drop, length_take in Hl. lia. }
  destruct (kmp_step_spec P t (drop 1 (take k P)) b matched) as (m' & -> & Hm'); [done|lia| |].
  { by apply (ft_ok_mono _ _ k); [|lia]. }
  assert (drop 1 (take k P) ++ [b] = drop 1 (take (S k) P)) as Hsnoc.
  { rewrite (take_S_r _ _ _ Hb), drop_app_le; [done|]. rewrite length_take. lia. }
  rewrite Hsnoc in Hm'. simpl. apply IH.
  - apply (f_equal (drop 1)) in Hrest. rewrite drop_drop in Hrest. simpl in Hrest.
    rewrite drop_0, Nat.add_1_r in Hrest. done.
  - lia.
  - done.
  - intros i Hi. destruct (decide (i = k)) as [->|Hne].
    + exists m'. rewrite list_lookup_insert_eq by lia. done.
    + rewrite list_lookup_insert_ne by done. apply Ht. lia.
  - by rewrite length_insert.
Qed.

Lemma failure_table_spec P :
  exists t, failure_table P = Some t /\ ft_ok P t (length P) /\ length t = length P.
Proof.
  unfold failure_table. destruct P as [|x P].
  { exists []. split_and!; [done| |done]. intros k Hk. simpl in Hk. lia. }
  apply build_table_spec; [done|simpl; lia| | |by rewrite length_replicate].
  - simpl. split; [apply border_0|]. intros k Hk%border_length. done.
  - intros k Hk. exists 0. replace k with 0 by lia. split; [done|].
    simpl. split; [apply border_0|]. intros j Hj%border_length. done.
Qed.

(** ** What a match is *)

(** No stop string ends at or before the end of [s]. *)
Definition no_occurrence (ss : list bytes) (s : bytes) : Prop :=
  forall P e, P ∈ ss -> e <= length s -> ~ P `suffix_of` take e s.

(** Among the stop strings that are suffixes of [s], entry [i] (the string [P]) is a
    longest one, and the first of that length. *)
Definition best_suffix (ss : list bytes) (s : bytes) (i : nat) (P : bytes) : Prop :=
  ss !! i = Some P /\ P `suffix_of` s /\
  forall j Q, ss !! j = Some Q -> Q `suffix_of` s ->
    length Q < length P \/ (length Q = length P /\ i <= j).

(** The deterministic choice the matcher documents: earliest end, then earliest
    start, then lowest index. *)
Definition is_first_match (ss : list bytes) (s : bytes) (mt : StopStringMatch) : Prop :=
  exists e P, 0 < e <= length s /\ no_occurrence ss (take (e - 1) s) /\
    best_suffix ss (take e s) (index mt) P /\
    end_offset mt = N.of_nat e /\ start_offset mt = N.of_nat (e - length P).

Lemma no_occurrence_snoc ss s b :
  no_occurrence ss s -> (forall P, P ∈ ss -> ~ P `suffix_of` s ++ [b]) -> no_occurrence ss (s ++ [b]).
Proof.
  intros Hs Hb P e HP He. rewrite length_app in He. simpl in He.
  destruct (decide (e = length s + 1)) as [->|Hne].
  - rewrite take_ge by (rewrite length_app; simpl; lia). by apply Hb.
  - rewrite take_app_le by lia. apply Hs; [done|lia].
Qed.

Lemma is_first_match_app ss s s' mt : is_first_match ss s mt -> is_first_match ss (s ++ s') mt.
Proof.
  intros (e & P & He & Hno & Hbest & Hrest). exists e, P. rewrite length_app.
  rewrite !take_app_le by lia. split; [lia|done].
Qed.

(** ** Every automaton at once *)

Definition tables_ok : list bytes -> list (list nat) -> Prop :=
  Forall2 (fun P t => P <> [] /\ ft_ok P t (length P)).
Definition states_ok (s : bytes) : list bytes -> list nat -> Prop :=
  Forall2 (fun P q => longest P s q).
Definition live (s : bytes) : list bytes -> list nat -> Prop :=
  Forall2 (fun P q => longest P s q /\ q < length P).

Lemma longest_full P s q : longest P s q -> q = length P <-> P `suffix_of` s.
Proof.
  intros [[Hq Hs] Hm]. split.
  - intros ->. by rewrite take_ge in Hs.
  - intros HP. assert (length P <= q); [|lia]. apply Hm. split; [done|]. by rewrite take_ge.
Qed.

(** The best match seen so far, after looking at the entries from [i] on. *)
Definition best_from (ss : list bytes) (s : bytes) (i bl0 bi0 bl bi : nat) : Prop :=
  (bl = bl0 /\ bi = bi0 /\ forall P, P ∈ ss -> P `suffix_of` s -> length P <= bl0) \/
  (exists j P, bi = i + j /\ bl = length P /\ bl0 < length P /\ best_suffix ss s j P).

Lemma best_from_cons_skip ss s i bl0 bi0 bl bi P :
  (P `suffix_of` s -> length P <= bl0) ->
  best_from ss s (S i) bl0 bi0 bl bi -> best_from (P :: ss) s i bl0 bi0 bl bi.
Proof.
  intros HP [(-> & -> & Hall)|(j & Q & -> & -> & Hlt & Hj & Hs & Hbest)].
  - left. split_and!; [done..|]. intros Q [->|HQ]%elem_of_cons; auto.
  - right. exists (S j), Q. split_and!; [lia|done..|]. split_and!; [done..|].
    intros [|j'] Q' Hj' Hs'; simpl in Hj'.
    + simplify_eq. specialize (HP Hs'). lia.
    + destruct (Hbest j' Q' Hj' Hs'); lia.
Qed.

Lemma best_from_cons_take ss s i bl0 bi0 bl bi P :
  P `suffix_of` s -> bl0 < length P ->
  best_from ss s (S i) (length P) i bl bi -> best_from (P :: ss) s i bl0 bi0 bl bi.
Proof.
  intros HP Hlt [(-> & -> & Hall)|(j & Q & -> & -> & Hlt' & Hj & Hs & Hbest)]; right.
  - exists 0, P. split_and!; [lia|done..|]. split_and!; [done..|].
    intros [|j'] Q' Hj' Hs'; simpl in Hj'; [simplify_eq; lia|].
    specialize (Hall Q' (list_elem_of_lookup_2 _ _ _ Hj') Hs'). lia.
  - exists (S j), Q. split_and!; [lia|done|lia|]. split_and!; [done..|].
    intros [|j'] Q' Hj' Hs'; simpl in Hj'; [simplify_eq; lia|].
    destruct (Hbest j' Q' Hj' Hs'); lia.
Qed.

Lemma advance_all_spec ss tables qs s b i bl0 bi0 :
  tables_ok ss tables -> live s ss qs ->
  exists qs' bl bi, advance_all i b ss tables qs bl0 bi0 = Some (qs', (bl, bi)) /\
    states_ok (s ++ [b]) ss qs' /\ best_from ss (s ++ [b]) i bl0 bi0 bl bi.
Proof.
  revert tables qs i bl0 bi0. induction ss as [|P ss IH]; intros tables qs i bl0 bi0 Ht Hl.
  { inversion Hl; subst. inversion Ht; subst. exists [], bl0, bi0. split_and!; [done|constructor|].
    left. split_and!; [done..|]. by intros P ?%not_elem_of_nil. }
  apply Forall2_cons_inv_l in Ht as (t & tables' & [Hne Ht] & Hts & ->).
  apply Forall2_cons_inv_l in Hl as (q & qs' & [Hq Hlt] & Hl & ->). simpl.
  destruct (kmp_step_spec P t s b q Hq Hlt) as (q' & -> & Hq'); [by apply (ft_ok_mono _ _ (length P)); [|lia]|].
  simpl. pose proof (longest_full _ _ _ Hq') as Hfull.
  destruct (Nat.eqb_spec q' (length P)) as [Heq|Hneq], (Nat.ltb_spec bl0 (length P)) as [Hb|Hb]; simpl.
  1: destruct (IH tables' qs' (S i) (length P) i Hts Hl) as (qs1 & bl & bi & -> & Hs & Hbest).
  2-4: destruct (IH tables' qs' (S i) bl0 bi0 Hts Hl) as (qs1 & bl & bi & -> & Hs & Hbest).
  all: exists (q' :: qs1), bl, bi; (split_and!; [done|by constructor|]).
  - apply best_from_cons_take; [by apply Hfull|done..].
  - apply best_from_cons_skip; [lia|done].
  - apply best_from_cons_skip; [|done]. intros ?%Hfull. lia.
  - apply best_from_cons_skip; [lia|done].
Qed.

(** If nothing ends here, every automaton stays strictly inside its pattern. *)
Lemma states_live s ss qs :
  states_ok s ss qs -> (forall P, P ∈ ss -> ~ P `suffix_of` s) -> live s ss qs.
Proof.
  intros Hs Hno. apply Forall2_same_length_lookup in Hs as [Hlen Hs].
  apply Forall2_same_length_lookup_2; [done|]. intros i P q HP Hq. specialize (Hs i P q HP Hq).
  split; [done|]. pose proof (Hno P (list_elem_of_lookup_2 _ _ _ HP)) as Hn.
  rewrite <- (longest_full P s q Hs) in Hn. destruct Hs as [[? _] _]. lia.
Qed.

(** ** The byte loop *)

(** The effect of the loop on a matcher whose automatons have read [s]. *)
Definition loop_post (prev k : nat) (rest s : bytes) (m : StopStringMatcher)
    (r : option StopStringMatch) (m' : StopStringMatcher) : Prop :=
  match r with
  | None => exists qs, m' = set_prefix_lengths qs m /\
      live (s ++ rest) (stop_strings_ m) qs /\ no_occurrence (stop_strings_ m) (s ++ rest)
  | Some mt => exists n P i qs, n < length rest /\
      no_occurrence (stop_strings_ m) (s ++ take n rest) /\
      best_suffix (stop_strings_ m) (s ++ take (S n) rest) i P /\
      m' = complete_match prev (k + n) (length P) i (set_prefix_lengths qs m) /\
      match_ m' = Some mt
  end.

Lemma consume_loop_spec prev k rest s m :
  tables_ok (stop_strings_ m) (stop_string_failure_tables_ m) ->
  live s (stop_strings_ m) (current_prefix_lengths_ m) ->
  no_occurrence (stop_strings_ m) s ->
  exists r m', consume_loop prev k rest m = (Ok r, m') /\ loop_post prev k rest s m r m'.
Proof.
  revert k s m. induction rest as [|b rest IH]; intros k s m Ht Hl Hno.
  { exists None, m. split; [done|]. exists (current_prefix_lengths_ m). rewrite app_nil_r.
    split_and!; [by destruct m|done..]. }
  simpl. destruct (advance_all_spec _ _ _ _ b 0 0 0 Ht Hl) as (qs & bl & bi & Hadv & Hst & Hbest).
  unfold mbind, M_bind, gets, modify, id. rewrite Hadv.
  destruct Hbest as [(-> & -> & Hnone)|(j & P & -> & -> & Hpos & Hbest)]; simpl.
  - assert (forall P, P ∈ stop_strings_ m -> ~ P `suffix_of` s ++ [b]) as Hno'.
    { intros P HP Hsuf. specialize (Hnone P HP Hsuf).
      apply list_elem_of_lookup in HP as [i HP]. destruct (Forall2_lookup_l _ _ _ _ _ Ht HP) as (t & _ & Hne & _).
      destruct P; [done|simpl in Hnone; lia]. }
    destruct (IH (S k) (s ++ [b]) (set_prefix_lengths qs m)) as (r & m' & Hrun & Hpost); [done| | |].
    { by apply states_live. }
    { by apply no_occurrence_snoc. }
    exists r, m'. split; [done|]. unfold loop_post in *. destruct r as [mt|].
    + destruct Hpost as (n & P & i & qs' & Hn & Hpost). exists (S n), P, i, qs'.
      rewrite <- (assoc_L (++)) in Hpost. rewrite <- (assoc_L (++)) in Hpost.
      replace (k + S n) with (S k + n) by lia. simpl. split; [lia|exact Hpost].
    + destruct Hpost as (qs' & -> & Hl' & Hno''). rewrite <- (assoc_L (++)) in *. by exists qs'.
  - destruct (Nat.eqb_spec (length P) 0) as [|_]; [lia|]. simpl. eexists _, _. split; [done|].
    exists 0, P, j, qs. rewrite take_0, app_nil_r, Nat.add_0_r. simpl. split; [lia|done].
Qed.

(** ** The stream invariant *)

(** What a matcher keeps of its construction. *)
Record static (ss : list bytes) (m : StopStringMatcher) : Prop := mk_static
  { st_strings : stop_strings_ m = ss;
    st_tables : tables_ok ss (stop_string_failure_tables_ m);
    st_longest : longest_stop_string_ m = max_list (length <$> ss) }.

(** A matcher that has read [s] without a match, having handed out [out]. *)
Record unmatched (ss : list bytes) (out s : bytes) (m : StopStringMatcher) : Prop := mk_unmatched
  { um_static : static ss m;
    um_match : match_ m = None;
    um_flushed : flushed_ m = false;
    um_live : live s ss (current_prefix_lengths_ m);
    um_no : no_occurrence ss s;
    um_begin : pending_begin_ m <= length (pending_ m);
    um_compact : pending_begin_ m = 0 \/ pending_begin_ m < length (PendingOutput m);
    um_pending : PendingOutput m = drop (length s - max_list (current_prefix_lengths_ m)) s;
    um_start : ss <> [] ->
      pending_start_offset_ m = N.of_nat (length s - max_list (current_prefix_lengths_ m));
    um_consumed : consumed_bytes_ m = N.of_nat (length s);
    um_out : out ++ safe_ m = take (length s - max_list (current_prefix_lengths_ m)) s }.

(** A matcher that stopped at [mt], the first match of the stream [s]. *)
Record matched (ss : list bytes) (out s : bytes) (mt : StopStringMatch) (m : StopStringMatcher) :
    Prop := mk_matched
  { ma_static : static ss m;
    ma_match : match_ m = Some mt;
    ma_flushed : flushed_ m = false;
    ma_first : is_first_match ss s mt;
    ma_pending : pending_ m = [] /\ pending_begin_ m = 0;
    ma_out : out ++ safe_ m = take (N.to_nat (start_offset mt)) s }.

Lemma max_list_cons x l : max_list (x :: l) = x `max` max_list l.
Proof. done. Qed.

Lemma max_list_le_iff l n : max_list l <= n <-> Forall (fun x => x <= n) l.
Proof.
  induction l as [|x l IH]; simpl; [split; [constructor|lia]|]. rewrite Forall_cons, <- IH. lia.
Qed.

Lemma live_le s ss qs : live s ss qs -> max_list qs <= length s.
Proof.
  intros Hl. apply max_list_le_iff. apply Forall_lookup. intros i q Hq.
  destruct (Forall2_lookup_r _ _ _ _ _ Hl Hq) as (P & _ & [Hb _] & _). by apply border_length in Hb.
Qed.

Lemma live_lt_longest s ss qs : live s ss qs -> ss <> [] -> max_list qs < max_list (length <$> ss).
Proof.
  intros Hl Hne. induction Hl as [|P q ss qs [_ Hq] Hl IH]; [done|].
  rewrite fmap_cons, !max_list_cons.
  destruct ss as [|P' ss]; [inversion Hl; subst; simpl; lia|]. specialize (IH ltac:(done)). lia.
Qed.

(** An active prefix grows by at most one per byte. *)
Lemma border_app P q s c : border P q (s ++ c) -> length c <= q -> border P (q - length c) s.
Proof.
  intros [Hq [w Hw]] Hc. split; [lia|].
  rewrite <- (take_drop (q - length c) (take q P)), take_take, (assoc_L (++)) in Hw.
  rewrite Nat.min_l in Hw by lia.
  apply app_inj_2 in Hw as [-> _]; [by exists w|]. rewrite length_drop, length_take. lia.
Qed.

Lemma live_border_app s ss qs c i P q :
  live s ss qs -> ss !! i = Some P -> border P q (s ++ c) -> q <= max_list qs + length c.
Proof.
  intros Hl HP Hb. destruct (decide (q < length c)) as [|Hlen]; [lia|].
  destruct (Forall2_lookup_l _ _ _ _ _ Hl HP) as (q0 & Hq & [_ Hm] & _).
  pose proof (proj1 (max_list_le_iff qs (max_list qs)) (Nat.le_refl _)) as Hall.
  pose proof (proj1 (Forall_lookup _ _) Hall i q0 Hq). simpl in *.
  pose proof (Hm _ (border_app _ _ _ _ Hb ltac:(lia))). lia.
Qed.

Lemma live_max_app s ss qs c qs' :
  live s ss qs -> live (s ++ c) ss qs' -> max_list qs' <= max_list qs + length c.
Proof.
  intros Hl Hl'. apply max_list_le_iff, Forall_lookup. intros i q' Hq'.
  destruct (Forall2_lookup_r _ _ _ _ _ Hl' Hq') as (P & HP & [Hb _] & _).
  by apply (live_border_app s ss qs c i P).
Qed.

(** A stop string that ends after [s] starts inside the withheld suffix of [s]. *)
Lemma match_starts_in_pending ss s c qs i P :
  live s ss qs -> ss !! i = Some P -> P `suffix_of` s ++ c ->
  length s - max_list qs <= length (s ++ c) - length P.
Proof.
  intros Hl HP Hsuf. rewrite length_app.
  assert (border P (length P) (s ++ c)) as Hb by (split; [done|]; by rewrite take_ge).
  pose proof (live_border_app _ _ _ _ _ _ _ Hl HP Hb). lia.
Qed.

Lemma static_set ss m qs sf pd bg st cn mt fl :
  static ss m -> static ss (set_stream m qs sf pd bg st cn mt fl).
Proof. intros [H1 H2 H3]. by constructor. Qed.

Lemma app_take_drop_take (a b : nat) (l out x : bytes) :
  out = take a l -> x = drop a l -> a <= b -> out ++ take (b - a) x = take b l.
Proof. intros -> -> Hab. rewrite take_take_drop. f_equal. lia. Qed.

(** Completing a match: the offsets are exact and the output is what precedes it. *)
Lemma complete_match_spec ss out s chunk qs n P i m :
  unmatched ss out s m -> ss <> [] -> (N.of_nat (length (s ++ chunk)) < two64)%N ->
  n < length chunk -> no_occurrence ss (s ++ take n chunk) ->
  best_suffix ss (s ++ take (S n) chunk) i P ->
  let m1 := set_prefix_lengths qs (append_pending chunk (count_consumed (length chunk) m)) in
  let m' := complete_match (length (pending_ m) - pending_begin_ m) n (length P) i m1 in
  exists mt, match_ m' = Some mt /\ matched ss out (s ++ chunk) mt m'.
Proof.
  intros Hu Hne Hlt Hn Hno Hbest m1 m'. pose proof (um_live _ _ _ _ Hu) as Hl.
  pose proof (live_le _ _ _ Hl) as HL. set (L := max_list (current_prefix_lengths_ m)) in *.
  destruct Hbest as (Hi & Hsuf & Hmax).
  pose proof (match_starts_in_pending _ _ _ _ _ _ Hl Hi Hsuf) as Hstart. fold L in Hstart.
  pose proof (suffix_length _ _ Hsuf) as HP.
  rewrite !length_app, length_take in *. set (e := length s + S n).
  assert (length (pending_ m) - pending_begin_ m = L) as Hprev.
  { pose proof (f_equal length (um_pending _ _ _ _ Hu)) as Hp. unfold PendingOutput in Hp.
    rewrite !length_drop in Hp. fold L in Hp. lia. }
  assert (u64_add (pending_start_offset_ m) (N.of_nat (L + n + 1)) = N.of_nat e) as He.
  { rewrite (um_start _ _ _ _ Hu Hne). fold L. rewrite u64_add_small by lia. lia. }
  subst m'. unfold complete_match, set_stream at 2. cbn [match_]. eexists. split; [reflexivity|].
  change (pending_start_offset_ m1) with (pending_start_offset_ m). rewrite Hprev, He.
  rewrite (u64_sub_small (N.of_nat e)) by lia. constructor; simpl.
  - destruct (um_static _ _ _ _ Hu). by constructor.
  - done.
  - exact (um_flushed _ _ _ _ Hu).
  - exists e, P. simpl. rewrite length_app. split; [lia|].
    rewrite take_app_ge, take_app_ge by lia. replace (e - 1 - length s) with n by lia.
    replace (e - length s) with (S n) by lia. split_and!; [done|done|done|lia].
  - done.
  - rewrite (um_start _ _ _ _ Hu Hne). fold L. rewrite u64_sub_small by lia.
    rewrite (assoc_L (++)), drop_app_le by exact (um_begin _ _ _ _ Hu).
    replace (N.to_nat (N.of_nat e - N.of_nat (length P) - N.of_nat (length s - L)))
      with ((e - length P) - (length s - L)) by lia.
    replace (N.to_nat (N.of_nat e - N.of_nat (length P))) with (e - length P) by lia.
    apply app_take_drop_take; [|..|lia].
    + rewrite take_app_le by lia. apply (um_out _ _ _ _ Hu).
    + rewrite drop_app_le by lia. f_equal. apply (um_pending _ _ _ _ Hu).
Qed.

(** Without a match, exactly the bytes before the longest active prefix are released. *)
Lemma release_safe_spec ss out s chunk qs m :
  unmatched ss out s m -> ss <> [] -> (N.of_nat (length (s ++ chunk)) < two64)%N ->
  live (s ++ chunk) ss qs -> no_occurrence ss (s ++ chunk) ->
  unmatched ss out (s ++ chunk)
    (release_safe (set_prefix_lengths qs (append_pending chunk (count_consumed (length chunk) m)))).
Proof.
  intros Hu Hne Hlt Hl' Hno. pose proof (um_live _ _ _ _ Hu) as Hl.
  pose proof (live_le _ _ _ Hl) as HL. pose proof (live_le _ _ _ Hl') as HL'.
  pose proof (live_max_app _ _ _ _ _ Hl Hl') as Hgrow.
  pose proof (um_pending _ _ _ _ Hu) as Hpend. pose proof (um_out _ _ _ _ Hu) as Hout.
  pose proof (um_begin _ _ _ _ Hu) as Hbeg. pose proof (um_start _ _ _ _ Hu Hne) as Hstart.
  set (L := max_list (current_prefix_lengths_ m)) in *. set (L' := max_list qs) in *.
  unfold PendingOutput in Hpend. rewrite length_app in *.
  assert (length (pending_ m) - pending_begin_ m = L) as Hprev.
  { apply (f_equal length) in Hpend. rewrite !length_drop in Hpend. lia. }
  set (release := L + length chunk - L').
  assert (drop (pending_begin_ m + release) (pending_ m ++ chunk)
          = drop (length s + length chunk - L') (s ++ chunk)) as Hdrop.
  { rewrite <- drop_drop, drop_app_le, Hpend, <- drop_app_le, drop_drop by lia. f_equal. lia. }
  assert (length (pending_ m ++ chunk) - (pending_begin_ m + release) = L') as Hlive.
  { apply (f_equal length) in Hdrop. rewrite !length_drop, !length_app in *. lia. }
  unfold release_safe. cbn -[take drop N.of_nat]. fold L'.
  replace (length (pending_ m ++ chunk) - pending_begin_ m - L') with release
    by (rewrite length_app; lia).
  rewrite Hlive.
  constructor; cbn -[take drop N.of_nat]; rewrite ?length_app.
  - destruct (um_static _ _ _ _ Hu). by constructor.
  - exact (um_match _ _ _ _ Hu).
  - exact (um_flushed _ _ _ _ Hu).
  - exact Hl'.
  - exact Hno.
  - destruct (Nat.leb_spec L' (pending_begin_ m + release)); [lia|]. rewrite length_app in *. lia.
  - unfold PendingOutput. cbn -[take drop N.of_nat].
    destruct (Nat.leb_spec L' (pending_begin_ m + release)); [by left|right].
    rewrite length_drop. lia.
  - fold L'. unfold PendingOutput. cbn -[take drop N.of_nat]. rewrite <- Hdrop.
    destruct (Nat.leb_spec L' (pending_begin_ m + release)); [|done].
    destruct (Nat.eqb_spec L' 0); rewrite drop_0; [|done]. symmetry. apply nil_length_inv.
    rewrite length_drop. lia.
  - intros _. fold L'. rewrite Hstart, u64_add_small by lia. lia.
  - rewrite (um_consumed _ _ _ _ Hu), u64_add_small by lia. lia.
  - fold L'. rewrite (assoc_L (++)), drop_app_le by done.
    replace release with ((length s + length chunk - L') - (length s - L)) by lia.
    apply app_take_drop_take; [|..|lia].
    + by rewrite take_app_le by lia.
    + rewrite drop_app_le by lia. by rewrite Hpend.
Qed.

(** ** One call *)

(** The state of a stream: [s] was fed and [out] was handed out. *)
Definition stream_state (ss : list bytes) (out s : bytes) (m : StopStringMatcher) : Prop :=
  unmatched ss out s m \/ exists mt, matched ss out s mt m.

Lemma consume_unmatched ss out s chunk m :
  unmatched ss out s m -> (N.of_nat (length (s ++ chunk)) < two64)%N ->
  exists r m', Consume chunk m = (Ok r, m') /\
    match r with
    | None => unmatched ss out (s ++ chunk) m'
    | Some mt => matched ss out (s ++ chunk) mt m'
    end.
Proof.
  intros Hu Hlt. unfold Consume, mbind, M_bind, gets, modify, id.
  rewrite (um_flushed _ _ _ _ Hu), (um_match _ _ _ _ Hu), (st_strings _ _ (um_static _ _ _ _ Hu)).
  destruct (Nat.eqb_spec (length ss) 0) as [Hss|Hss].
  { apply nil_length_inv in Hss. subst ss. exists None. eexists. split; [reflexivity|].
    pose proof (um_live _ _ _ _ Hu) as Hqs. apply Forall2_nil_inv_l in Hqs.
    destruct Hu as [Hst Hmt Hfl _ _ Hbeg Hcmp Hpend _ Hcon Hout].
    rewrite Hqs in Hpend, Hout. simpl in Hpend, Hout. rewrite Nat.sub_0_r in Hpend, Hout.
    rewrite drop_all in Hpend.
    constructor; cbn -[take drop N.of_nat]; try done; rewrite ?Hqs; simpl; rewrite ?Nat.sub_0_r.
    - by constructor; destruct Hst.
    - constructor.
    - intros P e HP. by apply not_elem_of_nil in HP.
    - by rewrite drop_all.
    - rewrite length_app in *. rewrite Hcon, u64_add_small by lia. lia.
    - rewrite (assoc_L (++)), Hout, !firstn_all. done. }
  assert (ss <> []) as Hne by (by intros ->).
  edestruct (consume_loop_spec (length (pending_ m) - pending_begin_ m) 0 chunk s
    (append_pending chunk (count_consumed (length chunk) m))) as (r & m' & Hrun & Hpost).
  { simpl. rewrite (st_strings _ _ (um_static _ _ _ _ Hu)). apply (um_static _ _ _ _ Hu). }
  { simpl. rewrite (st_strings _ _ (um_static _ _ _ _ Hu)). apply (um_live _ _ _ _ Hu). }
  { simpl. rewrite (st_strings _ _ (um_static _ _ _ _ Hu)). apply (um_no _ _ _ _ Hu). }
  rewrite Hrun. unfold loop_post in Hpost. cbn -[complete_match set_prefix_lengths release_safe] in Hpost.
  rewrite (st_strings _ _ (um_static _ _ _ _ Hu)) in Hpost. destruct r as [mt|].
  - destruct Hpost as (n & P & i & qs & Hn & Hno & Hbest & -> & Hmt).
    destruct (complete_match_spec ss out s chunk qs n P i m) as (mt' & Hmt' & Hma); [done..|].
    assert (mt' = mt) as -> by congruence. by eexists _, _.
  - destruct Hpost as (qs & -> & Hl' & Hno'). eexists _, _. split; [done|]. by apply release_safe_spec.
Qed.

Lemma consume_matched ss out s mt chunk m :
  matched ss out s mt m -> Consume chunk m = (Ok None, m) /\ matched ss out (s ++ chunk) mt m.
Proof.
  intros Hm. split.
  - unfold Consume, mbind, M_bind, gets, id. by rewrite (ma_flushed _ _ _ _ _ Hm), (ma_match _ _ _ _ _ Hm).
  - destruct Hm as [H1 H2 H3 H4 H5 H6]. constructor; try done; [by apply is_first_match_app|].
    destruct H4 as (e & P & He & _ & _ & _ & Hs). rewrite Hs in *. rewrite take_app_le by lia. done.
Qed.

Lemma take_safe_output_spec ss out s m :
  stream_state ss out s m ->
  stream_state ss (out ++ (TakeSafeOutput m).1) s (TakeSafeOutput m).2 /\
  match_ (TakeSafeOutput m).2 = match_ m.
Proof.
  intros Hs. split; [|done]. destruct Hs as [[Hst Hmt Hfl Hl Hno Hbeg Hcmp Hpend Hstart Hcon Hout]|(mt & [Hst Hmt Hfl Hfirst Hpend Hout])].
  - left. constructor; simpl; try done; [by destruct Hst|]. by rewrite app_nil_r.
  - right. exists mt. constructor; simpl; try done; [by destruct Hst|]. by rewrite app_nil_r.
Qed.

Lemma mapM_failure_tables ss :
  Forall (fun P => P <> []) ss -> exists ts, mapM failure_table ss = Some ts /\ tables_ok ss ts.
Proof.
  induction ss as [|P ss IH]; intros Hne; simpl.
  { exists []. split; [done|constructor]. }
  apply Forall_cons in Hne as [HP Hne]. destruct (IH Hne) as (ts & -> & Hts).
  destruct (failure_table_spec P) as (t & -> & Ht & _). exists (t :: ts). split; [done|].
  by constructor.
Qed.

(** A fresh or reset matcher is at the start of an empty stream. *)
Lemma fresh_unmatched ss m :
  static ss m -> Forall (fun P => P <> []) ss ->
  current_prefix_lengths_ m = replicate (length ss) 0 -> safe_ m = [] -> pending_ m = [] ->
  pending_begin_ m = 0 -> pending_start_offset_ m = 0%N -> consumed_bytes_ m = 0%N ->
  match_ m = None -> flushed_ m = false -> unmatched ss [] [] m.
Proof.
  intros Hst Hne Hqs Hsafe Hpend Hbeg Hstart Hcon Hmt Hfl.
  constructor; try done; rewrite ?Hpend, ?Hbeg, ?Hcon, ?Hsafe; simpl; try done.
  - rewrite Hqs. apply Forall2_same_length_lookup_2; [by rewrite length_replicate|].
    intros i P q HP [-> _]%lookup_replicate. split.
    + split; [apply border_0|]. intros k Hk%border_length. done.
    + pose proof (proj1 (Forall_lookup _ _) Hne i P HP) as HP0. simpl in HP0. destruct P; [done|simpl; lia].
  - intros P e HP He. simpl in He. rewrite take_nil. intros Hs.
    pose proof (proj1 (Forall_forall _ _) Hne P HP) as HP0. apply HP0. by apply suffix_nil_inv in Hs.
  - by left.
  - unfold PendingOutput. by rewrite Hpend, !drop_nil.
Qed.

Lemma make_matcher_spec ss m :
  (total_length ss < two64)%N -> make_StopStringMatcher ss = Ok m -> unmatched ss [] [] m.
Proof.
  intros Hlt. unfold make_StopStringMatcher, ValidateStopStrings.
  destruct (kMaxStopStringCount <? length ss); [done|].
  pose proof (validate_entries_spec ss 0 0 ltac:(lia)) as Hspec.
  destruct (validate_entries 0 ss 0) as [n|e| |]; try done. destruct Hspec as [Hok _].
  destruct (kMaxStopStringTotalBytes <? n)%N; [done|].
  assert (Forall (fun P => P <> []) ss) as Hne by (eapply Forall_impl; [exact Hok|]; by intros P [? _]).
  destruct (mapM_failure_tables ss Hne) as (ts & -> & Hts). intros [= <-].
  by apply fresh_unmatched.
Qed.

(** ** Whole streams *)

(** What a caller does with a stream: feed chunks and take the safe output. *)
Inductive stream_op : Type := Feed (chunk : bytes) | Drain.

Fixpoint run_ops (ops : list stream_op) : Matcher (list (option StopStringMatch) * bytes) :=
  match ops with
  | [] => mret ([], [])
  | Feed chunk :: ops =>
    r ← Consume chunk;
    x ← run_ops ops;
    mret (r :: x.1, x.2)
  | Drain :: ops =>
    o ← (fun m => (Ok (TakeSafeOutput m).1, (TakeSafeOutput m).2));
    x ← run_ops ops;
    mret (x.1, o ++ x.2)
  end.

Definition fed (ops : list stream_op) : bytes :=
  ops ≫= fun o => match o with Feed chunk => chunk | Drain => [] end.

(** The matches reported between two states. *)
Definition reported (before after : option StopStringMatch) : list StopStringMatch :=
  match before, after with None, Some mt => [mt] | _, _ => [] end.

Lemma omap_id_cons {A} (r : option A) rs : omap id (r :: rs) = option_list r ++ omap id rs.
Proof. by destruct r. Qed.

Lemma run_ops_spec ss ops out s m :
  stream_state ss out s m -> (N.of_nat (length (s ++ fed ops)) < two64)%N ->
  exists rs o m', run_ops ops m = (Ok (rs, o), m') /\
    stream_state ss (out ++ o) (s ++ fed ops) m' /\
    omap id rs = reported (match_ m) (match_ m') /\
    (match_ m' = match_ m \/ match_ m = None).
Proof.
  revert out s m. induction ops as [|[chunk|] ops IH]; intros out s m Hs Hlt.
  - exists [], [], m. unfold fed. simpl. rewrite !app_nil_r. split_and!; [done|done| |].
    + by destruct (match_ m).
    + by left.
  - assert (fed (Feed chunk :: ops) = chunk ++ fed ops) as Hfed by done. rewrite Hfed, (assoc_L (++)) in *.
    assert (exists r m1, Consume chunk m = (Ok r, m1) /\ stream_state ss out (s ++ chunk) m1 /\
      option_list r = reported (match_ m) (match_ m1) /\ (match_ m1 = match_ m \/ match_ m = None))
      as (r & m1 & Hrun & Hs1 & Hr & Hmt).
    { destruct Hs as [Hu|[mt Hm]].
      - destruct (consume_unmatched ss out s chunk m Hu) as (r & m1 & Hrun & Hr).
        { rewrite length_app in Hlt. lia. }
        exists r, m1. rewrite (um_match _ _ _ _ Hu). destruct r as [mt|].
        + rewrite (ma_match _ _ _ _ _ Hr). split_and!; [done|right; by exists mt|done|by right].
        + rewrite (um_match _ _ _ _ Hr). split_and!; [done|by left|done|by right].
      - destruct (consume_matched _ _ _ _ chunk _ Hm) as [Hrun Hm1]. exists None, m.
        split_and!; [done|right; by exists mt| |by left]. by destruct (match_ m). }
    destruct (IH _ _ _ Hs1 Hlt) as (rs & o & m' & Hrun' & Hs' & Hrs & Hst).
    exists (r :: rs), o, m'. cbn [run_ops]. rewrite (bind_ok _ _ _ _ _ Hrun), (bind_ok _ _ _ _ _ Hrun').
    split_and!; [done..| |].
    + rewrite omap_id_cons, Hrs, Hr.
      destruct (match_ m), (match_ m1), (match_ m'); simpl in *; naive_solver.
    + destruct Hmt as [<-|?]; [done|by right].
  - destruct (take_safe_output_spec _ _ _ _ Hs) as [Hs1 Hmt].
    destruct (IH _ _ _ Hs1 Hlt) as (rs & o & m' & Hrun' & Hs' & Hrs & Hst).
    exists rs, ((TakeSafeOutput m).1 ++ o), m'. simpl. unfold mbind at 1, M_bind at 1.
    rewrite (bind_ok _ _ _ _ _ Hrun'). rewrite Hmt in Hrs, Hst. rewrite (assoc_L (++)). done.
Qed.

Lemma no_occurrence_take ss s e : no_occurrence ss s -> no_occurrence ss (take e s).
Proof.
  intros Hno P e' HP He'. rewrite length_take in He'. rewrite take_take, Nat.min_l by lia.
  apply Hno; [done|lia].
Qed.

Lemma first_match_occurs ss s mt : is_first_match ss s mt -> ~ no_occurrence ss s.
Proof.
  intros (e & P & He & _ & (Hi & Hs & _) & _) Hno.
  apply (Hno P e); [by eapply list_elem_of_lookup_2|lia|done].
Qed.

Lemma first_match_unique ss s mt1 mt2 :
  is_first_match ss s mt1 -> is_first_match ss s mt2 -> mt1 = mt2.
Proof.
  assert (forall e1 e2 i P, 0 < e1 <= length s -> e1 < e2 -> no_occurrence ss (take (e2 - 1) s) ->
    best_suffix ss (take e1 s) i P -> False) as Hord.
  { intros e1 e2 i P He Hlt Hno (Hi & Hs & _).
    apply (Hno P e1); [by eapply list_elem_of_lookup_2|rewrite length_take; lia|].
    rewrite take_take, Nat.min_l by lia. done. }
  intros (e1 & P1 & He1 & Hno1 & Hb1 & Hend1 & Hst1) (e2 & P2 & He2 & Hno2 & Hb2 & Hend2 & Hst2).
  destruct (lt_eq_lt_dec e1 e2) as [[Hlt| ->]|Hlt]; [by destruct (Hord e1 e2 _ _ He1 Hlt Hno2 Hb1)| |
    by destruct (Hord e2 e1 _ _ He2 Hlt Hno1 Hb2)].
  destruct Hb1 as (Hi1 & Hs1 & Hm1), Hb2 as (Hi2 & Hs2 & Hm2).
  pose proof (Hm1 _ _ Hi2 Hs2). pose proof (Hm2 _ _ Hi1 Hs1).
  destruct mt1, mt2. simpl in *. f_equal; lia.
Qed.

(** C23: The incremental matcher implements its specification.  For every way of
    cutting the decoded bytes into chunks, and whenever the caller takes output,
    no call throws or reads out of bounds, a match is reported by exactly one call
    if and only if a stop string occurs in the whole stream, and it is the one
    with the earliest end, then the earliest start, then the lowest index.  In
    particular the result does not depend on the chunk boundaries. *)
Theorem matcher_finds_first_match ss m0 ops ops' :
  make_StopStringMatcher ss = Ok m0 -> (total_length ss < two64)%N ->
  (N.of_nat (length (fed ops)) < two64)%N -> fed ops' = fed ops ->
  exists rs o m, run_ops ops m0 = (Ok (rs, o), m) /\
    match match_ m with
    | Some mt => is_first_match ss (fed ops) mt /\ omap id rs = [mt]
    | None => no_occurrence ss (fed ops) /\ omap id rs = []
    end /\
    exists rs' o' m', run_ops ops' m0 = (Ok (rs', o'), m') /\ match_ m' = match_ m.
Proof.
  intros Hmake Htot Hlt Hfed. pose proof (make_matcher_spec ss m0 Htot Hmake) as Hu.
  destruct (run_ops_spec ss ops [] [] m0) as (rs & o & m & Hrun & Hs & Hrs & _); [by left|done|].
  destruct (run_ops_spec ss ops' [] [] m0) as (rs' & o' & m' & Hrun' & Hs' & _ & _);
    [by left|by rewrite Hfed|].
  rewrite (um_match _ _ _ _ Hu) in Hrs. rewrite Hfed in Hs'. exists rs, o, m. split; [done|].
  split; [|exists rs', o', m'; split; [done|]].
  - destruct Hs as [Hs|[mt Hs]].
    + rewrite (um_match _ _ _ _ Hs) in *. split; [apply (um_no _ _ _ _ Hs)|done].
    + rewrite (ma_match _ _ _ _ _ Hs) in *. split; [apply (ma_first _ _ _ _ _ Hs)|done].
  - destruct Hs as [Hs|[mt Hs]], Hs' as [Hs'|[mt' Hs']].
    + by rewrite (um_match _ _ _ _ Hs), (um_match _ _ _ _ Hs').
    + destruct (first_match_occurs _ _ _ (ma_first _ _ _ _ _ Hs') (um_no _ _ _ _ Hs)).
    + destruct (first_match_occurs _ _ _ (ma_first _ _ _ _ _ Hs) (um_no _ _ _ _ Hs')).
    + rewrite (ma_match _ _ _ _ _ Hs), (ma_match _ _ _ _ _ Hs'). f_equal.
      exact (first_match_unique _ _ _ _ (ma_first _ _ _ _ _ Hs') (ma_first _ _ _ _ _ Hs)).
Qed.

(** "ab" and "bab", fed as "xb" then "a" then "b!". *)
Definition sample_ops : list stream_op :=
  [Feed [0x78; 0x62]; Drain; Feed [0x61]; Feed [0x62; 0x21]]%N.
Definition sample_strings : list bytes := [[0x61; 0x62]; [0x62; 0x61; 0x62]]%N.
Definition sample_matcher : StopStringMatcher :=
  match make_StopStringMatcher sample_strings with
  | Ok m => m
  | _ => mkMatcher [] [] [] 0 [] [] 0 0 0 None false
  end.

Lemma matcher_finds_first_match_witness :
  exists rs o m, run_ops sample_ops sample_matcher = (Ok (rs, o), m) /\
    match match_ m with
    | Some mt => is_first_match sample_strings (fed sample_ops) mt /\ omap id rs = [mt]
    | None => no_occurrence sample_strings (fed sample_ops) /\ omap id rs = []
    end /\
    exists rs' o' m', run_ops [Feed (fed sample_ops)] sample_matcher = (Ok (rs', o'), m') /\
      match_ m' = match_ m.
Proof.
  apply (matcher_finds_first_match sample_strings sample_matcher sample_ops
           [Feed (fed sample_ops)]); reflexivity.
Defined.

Example sample_match :
  match_ (run_ops sample_ops sample_matcher).2 = Some (mkMatch 1 1 4).
Proof. reflexivity. Qed.

Lemma flush_output ss out s m :
  stream_state ss out s m ->
  out ++ (Flush m).1 =
    match match_ m with Some mt => take (N.to_nat (start_offset mt)) s | None => s end.
Proof.
  unfold Flush. simpl. rewrite (assoc_L (++)). intros [Hu|[mt Hm]].
  - rewrite (um_match _ _ _ _ Hu), (um_out _ _ _ _ Hu). pose proof (um_pending _ _ _ _ Hu) as Hp.
    unfold PendingOutput in Hp. rewrite Hp. apply take_drop.
  - rewrite (ma_match _ _ _ _ _ Hm), (ma_out _ _ _ _ _ Hm).
    destruct (ma_pending _ _ _ _ _ Hm) as [-> ->]. by rewrite app_nil_r.
Qed.

Lemma max_list_attained l : max_list l = 0 \/ max_list l ∈ l.
Proof.
  induction l as [|x l [IH|IH]]; [by left| |]; rewrite max_list_cons.
  - rewrite IH, Nat.max_0_r. right. by left.
  - right. destruct (Nat.max_spec x (max_list l)) as [[_ ->]|[_ ->]]; [by right|by left].
Qed.

(** The withheld bytes are the longest suffix of the stream that starts a stop string. *)
Lemma pending_is_longest ss out s m :
  unmatched ss out s m ->
  (PendingOutput m = [] \/ exists P, P ∈ ss /\ PendingOutput m `prefix_of` P) /\
  (forall P t, P ∈ ss -> t `prefix_of` P -> t `suffix_of` s -> t `suffix_of` PendingOutput m).
Proof.
  intros Hu. rewrite (um_pending _ _ _ _ Hu). pose proof (um_live _ _ _ _ Hu) as Hl.
  pose proof (live_le _ _ _ Hl) as HL. set (qs := current_prefix_lengths_ m) in *. split.
  - destruct (max_list_attained qs) as [->|Hin]; [left; by rewrite Nat.sub_0_r, drop_all|right].
    apply list_elem_of_lookup in Hin as [i Hi].
    destruct (Forall2_lookup_r _ _ _ _ _ Hl Hi) as (P & HP & [[Hle [w Hw]] _] & _).
    exists P. split; [by eapply list_elem_of_lookup_2|].
    assert (length w = length s - max_list qs) as Hlw.
    { apply (f_equal length) in Hw. rewrite length_app, length_take in Hw. lia. }
    rewrite Hw, drop_app_length'; [apply prefix_take|]. rewrite <- Hw. done.
  - intros P t HP [r Hr] Ht. apply list_elem_of_lookup in HP as [i HP].
    destruct (Forall2_lookup_l _ _ _ _ _ Hl HP) as (q & Hq & [_ Hm] & _).
    assert (length t <= q) as Hlen.
    { apply Hm. split; [rewrite Hr, length_app; lia|]. by rewrite Hr, take_app_length. }
    pose proof (proj1 (max_list_le_iff qs (max_list qs)) (Nat.le_refl _)) as Hall.
    pose proof (proj1 (Forall_lookup _ _) Hall i q Hq). simpl in *.
    destruct (suffix_weak_total _ _ _ Ht (suffix_drop s (length s - max_list qs))) as [?|Hs]; [done|].
    destruct Hs as [w Hw]. assert (length w = 0) as ->%nil_length_inv.
    { apply (f_equal length) in Hw. rewrite length_app, length_drop in Hw. lia. }
    by rewrite Hw.
Qed.

(** C33: The output of a stream is conserved and safe.  The bytes a caller has taken,
    followed by what [Flush] returns, are the whole stream when nothing matched and
    exactly the bytes before the match otherwise; so bytes handed out early are
    never part of a later match.  While nothing matched, the withheld bytes are the
    longest suffix of the stream that is a prefix of a stop string, so nothing is
    withheld needlessly, and [Consume] after [Flush] throws without effect. *)
Theorem matcher_output_conserved ss m0 ops :
  make_StopStringMatcher ss = Ok m0 -> (total_length ss < two64)%N ->
  (N.of_nat (length (fed ops)) < two64)%N ->
  exists rs o m, run_ops ops m0 = (Ok (rs, o), m) /\
    let s := fed ops in
    let '(rest, m') := Flush m in
    o ++ rest = match match_ m with Some mt => take (N.to_nat (start_offset mt)) s | None => s end /\
    (match_ m = None ->
       (PendingOutput m = [] \/ exists P, P ∈ ss /\ PendingOutput m `prefix_of` P) /\
       (forall P t, P ∈ ss -> t `prefix_of` P -> t `suffix_of` s -> t `suffix_of` PendingOutput m)) /\
    (forall chunk, Consume chunk m' = (Throw ConsumeAfterFlush, m')).
Proof.
  intros Hmake Htot Hlt. pose proof (make_matcher_spec ss m0 Htot Hmake) as Hu.
  destruct (run_ops_spec ss ops [] [] m0) as (rs & o & m & Hrun & Hs & _ & _); [by left|done|].
  exists rs, o, m. split; [done|]. pose proof (flush_output _ _ _ _ Hs) as Hout.
  destruct (Flush m) as [rest m'] eqn:Hf. simpl in Hout. split_and!; [done| |].
  - intros Hnone. destruct Hs as [Hs|[mt Hs]]; [exact (pending_is_longest _ _ _ _ Hs)|].
    rewrite (ma_match _ _ _ _ _ Hs) in Hnone. done.
  - intros chunk. unfold Flush in Hf. simpl in Hf. injection Hf as _ <-. done.
Qed.

Lemma matcher_output_conserved_witness :
  exists rs o m, run_ops sample_ops sample_matcher = (Ok (rs, o), m) /\
    let s := fed sample_ops in
    let '(rest, m') := Flush m in
    o ++ rest = match match_ m with Some mt => take (N.to_nat (start_offset mt)) s | None => s end /\
    (match_ m = None ->
       (PendingOutput m = [] \/ exists P, P ∈ sample_strings /\ PendingOutput m `prefix_of` P) /\
       (forall P t, P ∈ sample_strings -> t `prefix_of` P -> t `suffix_of` s ->
          t `suffix_of` PendingOutput m)) /\
    (forall chunk, Consume chunk m' = (Throw ConsumeAfterFlush, m')).
Proof. apply (matcher_output_conserved sample_strings sample_matcher sample_ops); reflexivity. Defined.

(** The documented storage bound: between calls the live pending suffix is
    shorter than the longest stop string, and the backing buffer, released prefix
    included, is shorter than twice the longest stop string. *)
Theorem matcher_storage_bound ss m0 ops :
  make_StopStringMatcher ss = Ok m0 -> (total_length ss < two64)%N -> ss <> [] ->
  (N.of_nat (length (fed ops)) < two64)%N ->
  exists rs o m, run_ops ops m0 = (Ok (rs, o), m) /\
    longest_stop_string_ m = max_list (length <$> ss) /\
    length (PendingOutput m) < longest_stop_string_ m /\
    length (pending_ m) < 2 * longest_stop_string_ m.
Proof.
  intros Hmake Htot Hne Hlt. pose proof (make_matcher_spec ss m0 Htot Hmake) as Hu.
  pose proof (live_lt_longest _ _ _ (um_live _ _ _ _ Hu) Hne) as Hpos.
  destruct (run_ops_spec ss ops [] [] m0) as (rs & o & m & Hrun & Hs & _ & _); [by left|done|].
  exists rs, o, m. split; [done|]. destruct Hs as [Hs|[mt Hs]].
  - rewrite (st_longest _ _ (um_static _ _ _ _ Hs)). split; [done|].
    pose proof (live_lt_longest _ _ _ (um_live _ _ _ _ Hs) Hne) as Hmax.
    pose proof (f_equal length (um_pending _ _ _ _ Hs)) as Hp. rewrite length_drop in Hp.
    assert (length (PendingOutput m) = length (pending_ m) - pending_begin_ m) as Hp2
      by (unfold PendingOutput; by rewrite length_drop).
    destruct (um_compact _ _ _ _ Hs); lia.
  - rewrite (st_longest _ _ (ma_static _ _ _ _ _ Hs)). unfold PendingOutput.
    destruct (ma_pending _ _ _ _ _ Hs) as [-> ->]. simpl. split_and!; [done|lia..].
Qed.

Lemma matcher_storage_bound_witness :
  exists rs o m, run_ops sample_ops sample_matcher = (Ok (rs, o), m) /\
    longest_stop_string_ m = 3 /\ length (PendingOutput m) < longest_stop_string_ m /\
    length (pending_ m) < 2 * longest_stop_string_ m.
Proof. apply (matcher_storage_bound sample_strings sample_matcher sample_ops); [reflexivity..|discriminate|reflexivity]. Defined.

(** ** The token-aware controller

    The tokenizer lives outside this code: it creates streams, and a stream decodes
    one token at a time into bytes, changing its own state, or throws. *)

Class Tokenizer (T E : Type) : Type := {
  CreateStream : outcome E T;
  Decode : T -> Z -> outcome E bytes * T
}.

Inductive ControllerError (E : Type) : Type :=
  | MatcherError (e : StopError)
  | RequiresTokenizer
  | CheckpointExceedsHistory
  | TokenizerError (e : E).
Arguments MatcherError {E} e.
Arguments RequiresTokenizer {E}.
Arguments CheckpointExceedsHistory {E}.
Arguments TokenizerError {E} e.

Section controller.
Context {T E : Type} `{!Tokenizer T E}.

Record StopStringController : Type := mkController
  { stream_ : T;
    matcher_ : StopStringMatcher;
    turn_tokens_ : list Z }.

Abbreviation Ctrl := (M StopStringController (ControllerError E)).

Definition map_error {F G A} (f : F -> G) (o : outcome F A) : outcome G A :=
  match o with Ok a => Ok a | Throw e => Throw (f e) | Terminate => Terminate | Undefined => Undefined end.

Definition on_matcher {A} (f : Matcher A) : Ctrl A := fun c =>
  let '(r, m) := f (matcher_ c) in (map_error MatcherError r, mkController (stream_ c) m (turn_tokens_ c)).

Definition DecodeIntoMatcher (token : Z) : Ctrl unit :=
  chunk ← (fun c =>
    let '(r, s) := Decode (stream_ c) token in
    (map_error TokenizerError r, mkController s (matcher_ c) (turn_tokens_ c)));
  _ ← on_matcher (Consume chunk);
  mret tt.

(** The safe output is taken and discarded. *)
Definition drain : Ctrl unit := modify (fun c =>
  mkController (stream_ c) (TakeSafeOutput (matcher_ c)).2 (turn_tokens_ c)).

Definition ObserveToken (token : Z) : Ctrl (option StopStringMatch) :=
  _ ← modify (fun c => mkController (stream_ c) (matcher_ c) (turn_tokens_ c ++ [token]));
  _ ← DecodeIntoMatcher token;
  _ ← drain;
  gets (fun c => match_ (matcher_ c)).

Definition RebuildStream : Ctrl unit :=
  s ← lift (map_error TokenizerError CreateStream);
  modify (fun c => mkController s (matcher_ c) (turn_tokens_ c)).

Definition RollbackTo (committed_token_count : nat) : Ctrl unit :=
  c ← gets id;
  if length (turn_tokens_ c) <? committed_token_count then throw CheckpointExceedsHistory
  else if committed_token_count =? length (turn_tokens_ c) then mret tt
  else
    _ ← modify (fun c => mkController (stream_ c) (matcher_ c) (take committed_token_count (turn_tokens_ c)));
    _ ← modify (fun c => mkController (stream_ c) (Reset (matcher_ c)) (turn_tokens_ c));
    _ ← RebuildStream;
    tokens ← gets turn_tokens_;
    for_each (fun token => _ ← DecodeIntoMatcher token; drain) tokens.

(** The constructor: the matcher is a member initialised before the body runs. *)
Definition make_StopStringController (tokenizer : bool) (stop_strings : list bytes) :
    outcome (ControllerError E) StopStringController :=
  match make_StopStringMatcher stop_strings with
  | Ok m =>
    if tokenizer then
      match CreateStream with
      | Ok s => Ok (mkController s m [])
      | Throw e => Throw (TokenizerError e)
      | Terminate => Terminate
      | Undefined => Undefined
      end
    else Throw RequiresTokenizer
  | Throw e => Throw (MatcherError e)
  | Terminate => Terminate
  | Undefined => Undefined
  end.

Definition observe_all (tokens : list Z) : Ctrl unit :=
  for_each (fun token => _ ← ObserveToken token; mret tt) tokens.

(** What the stream decodes a token sequence into, from state [s]. *)
Fixpoint decode_all (s : T) (tokens : list Z) : option (list bytes) :=
  match tokens with
  | [] => Some []
  | t :: tokens =>
    match Decode s t with
    | (Ok chunk, s') => chunks ← decode_all s' tokens; Some (chunk :: chunks)
    | _ => None
    end
  end.

(** *** Rolling back is replaying *)

Lemma advance_all_length i b ss ts qs bl bi r :
  advance_all i b ss ts qs bl bi = Some r -> length r.1 = length qs.
Proof.
  revert i ts qs bl bi r. induction ss as [|s ss IH]; intros i [|t ts] [|q qs] bl bi r; simpl;
    try (by intros [= <-]).
  destruct (kmp_step s t b q) as [q'|]; [|done]. simpl. destruct (advance_all _ _ _ _ _ _ _) as [r'|] eqn:Hr; [|done].
  simpl. intros [= <-]. simpl. f_equal. exact (IH _ _ _ _ _ _ Hr).
Qed.

(** The stream state is all a call changes, so [Reset] forgets the call. *)
Lemma consume_loop_reset prev k chunk m : Reset (consume_loop prev k chunk m).2 = Reset m.
Proof.
  revert k m. induction chunk as [|b chunk IH]; intros k m; [done|]. simpl.
  unfold mbind, M_bind, gets, modify, id, undefined.
  destruct (advance_all _ _ _ _ _ _ _) as [[qs [bl bi]]|] eqn:Ha; [|done].
  apply advance_all_length in Ha. simpl in Ha.
  destruct (negb (bl =? 0)); [unfold Reset; simpl; by rewrite Ha|].
  rewrite IH. unfold Reset. simpl. by rewrite Ha.
Qed.

Lemma consume_reset chunk m : Reset (Consume chunk m).2 = Reset m.
Proof.
  unfold Consume, mbind, M_bind, gets, modify, id, throw.
  destruct (flushed_ m); [done|]. destruct (match_ m); [done|].
  destruct (length (stop_strings_ m) =? 0); [done|].
  pose proof (consume_loop_reset (length (pending_ m) - pending_begin_ m) 0 chunk
    (append_pending chunk (count_consumed (length chunk) m))) as Hr.
  destruct (consume_loop _ _ _ _) as [[[mt|]|e| |] m']; simpl in Hr; done.
Qed.

(** Observing a token is appending it to the history and replaying it. *)
Definition with_tokens (ts : list Z) (c : StopStringController) : StopStringController :=
  mkController (stream_ c) (matcher_ c) ts.

Definition replay (token : Z) : Ctrl unit := _ ← DecodeIntoMatcher token; drain.

Lemma replay_tokens token c ts :
  replay token (with_tokens ts c) = ((replay token c).1, with_tokens ts (replay token c).2) /\
  turn_tokens_ (replay token c).2 = turn_tokens_ c /\
  Reset (matcher_ (replay token c).2) = Reset (matcher_ c).
Proof.
  unfold replay, DecodeIntoMatcher, on_matcher, drain, mbind, M_bind, modify, mret, M_ret. simpl.
  destruct (Decode (stream_ c) token) as [[chunk|e| |] s]; simpl; try done.
  pose proof (consume_reset chunk (matcher_ c)) as Hr.
  destruct (Consume chunk (matcher_ c)) as [[r|e| |] m]; simpl in *; done.
Qed.

Lemma observe_is_replay token c :
  (_ ← ObserveToken token; mret tt) c = replay token (with_tokens (turn_tokens_ c ++ [token]) c).
Proof.
  unfold ObserveToken, replay, drain, mbind, M_bind, modify, gets, mret, M_ret, with_tokens.
  by destruct (DecodeIntoMatcher token _) as [[[]|e| |] c'].
Qed.

Lemma observe_all_replays tokens c c' :
  observe_all tokens c = (Ok tt, c') ->
  turn_tokens_ c' = turn_tokens_ c ++ tokens /\ Reset (matcher_ c') = Reset (matcher_ c) /\
  forall ts, for_each replay tokens (with_tokens ts c) = (Ok tt, with_tokens ts c').
Proof.
  unfold observe_all. revert c. induction tokens as [|t tokens IH]; intros c; simpl.
  { intros [= <-]. by rewrite app_nil_r. }
  intros ([] & c1 & Hobs & Hrest)%bind_inv_ok. rewrite observe_is_replay in Hobs.
  destruct (replay_tokens t c (turn_tokens_ c ++ [t])) as (Heq & Htok & Hreset).
  rewrite Hobs in Heq. destruct (IH c1 Hrest) as (Htok' & Hreset' & Hall).
  injection Heq as Hok ->. simpl in *. split_and!.
  - by rewrite Htok', <- (assoc_L (++)).
  - by rewrite Hreset', Hreset.
  - intros ts. destruct (replay_tokens t c ts) as (Heq & _). rewrite <- Hok in Heq.
    rewrite (bind_ok _ _ _ _ _ Heq). exact (Hall ts).
Qed.

Lemma for_each_app {S0 E0 A} (f : A -> M S0 E0 unit) l1 l2 s :
  for_each f (l1 ++ l2) s = (for_each f l1 ≫= fun _ => for_each f l2) s.
Proof.
  revert s. induction l1 as [|x l1 IH]; intros s; [done|]. simpl. unfold mbind, M_bind.
  destruct (f x s) as [[[]|e| |] s']; try done.
Qed.

Lemma reset_fresh ss m :
  make_StopStringMatcher ss = Ok m -> Reset m = m.
Proof.
  unfold make_StopStringMatcher. destruct (ValidateStopStrings ss); try done.
  destruct (mapM failure_table ss); [|done]. intros [= <-]. unfold Reset. simpl. by rewrite length_replicate.
Qed.

Lemma make_controller_tokens ss c0 : make_StopStringController true ss = Ok c0 -> turn_tokens_ c0 = [].
Proof.
  unfold make_StopStringController. destruct (make_StopStringMatcher ss); try done. destruct CreateStream; try done. by intros [= <-].
Qed.

(** Rolling back to the first [k] of the observed tokens. *)
Lemma rollback_run ss c0 ts c k :
  make_StopStringController true ss = Ok c0 -> observe_all ts c0 = (Ok tt, c) -> k <= length ts ->
  exists ck, observe_all (take k ts) c0 = (Ok tt, ck) /\ RollbackTo k c = (Ok tt, ck).
Proof.
  intros Hmake Hobs Hk. unfold make_StopStringController in Hmake.
  destruct (make_StopStringMatcher ss) as [m| | |] eqn:Hm; try done.
  destruct CreateStream as [s| | |] eqn:Hcreate; try done. injection Hmake as <-.
  destruct (observe_all_replays _ _ _ Hobs) as (Htok & Hreset & _). simpl in Htok, Hreset.
  unfold RollbackTo, mbind, M_bind, gets, modify, id. rewrite Htok.
  destruct (Nat.ltb_spec (length ts) k) as [|_]; [lia|].
  pose proof Hobs as Hsplit. rewrite <- (take_drop k ts) in Hsplit. unfold observe_all in Hsplit.
  rewrite for_each_app in Hsplit. apply bind_inv_ok in Hsplit as ([] & ck & Hck & Hrest).
  exists ck. split; [exact Hck|]. destruct (Nat.eqb_spec k (length ts)) as [->|Hne].
  - rewrite drop_all in Hrest. simpl in Hrest. by injection Hrest as ->.
  - unfold RebuildStream, mbind, M_bind, lift, modify. rewrite Hcreate. simpl.
    destruct (observe_all_replays _ _ _ Hck) as (Htok' & _ & Hall). simpl in Htok'.
    specialize (Hall (take k ts)). unfold with_tokens in Hall. simpl in Hall.
    rewrite Hreset, (reset_fresh ss m Hm).
    rewrite Htok. etrans; [exact Hall|].
    by destruct ck as [s' m' tk]; simpl in *; subst tk.
Qed.

(** C32: Rolling back restores the checkpoint exactly.  Whenever a controller has
    observed the tokens [ts] since its construction, rolling it back to [k] tokens
    succeeds and leaves precisely the controller that observed only the first [k]
    tokens: tokenizer stream, matcher (buffers, offsets, automatons, match) and
    history.  A checkpoint beyond the history throws and changes nothing. *)
Theorem controller_rollback ss c0 ts c k :
  make_StopStringController true ss = Ok c0 -> observe_all ts c0 = (Ok tt, c) ->
  (k <= length ts -> exists ck, observe_all (take k ts) c0 = (Ok tt, ck) /\
     RollbackTo k c = (Ok tt, ck)) /\
  (length ts < k -> RollbackTo k c = (Throw CheckpointExceedsHistory, c)).
Proof.
  intros Hmake Hobs. split; [by apply (rollback_run ss)|]. intros Hk.
  destruct (observe_all_replays _ _ _ Hobs) as (Htok & _). rewrite (make_controller_tokens _ _ Hmake) in Htok.
  unfold RollbackTo. rewrite gets_bind. unfold id. by rewrite Htok, (proj2 (Nat.ltb_lt _ _)).
Qed.
End controller.

(** A byte-level tokenizer whose stream counts the tokens it decoded. *)
#[local] Instance byte_tokenizer : Tokenizer nat unit := {
  CreateStream := Ok 0;
  Decode s t := if (t <? 0)%Z then (Throw tt, s) else (Ok [Z.to_N t], S s)
}.

Definition sample_controller : StopStringController (T := nat) :=
  mkController 0 sample_matcher [].

Lemma controller_rollback_witness :
  let c := (observe_all [98; 97; 99; 98]%Z sample_controller).2 in
  (2 <= 4 -> exists ck, observe_all [98; 97]%Z sample_controller = (Ok tt, ck) /\
     RollbackTo 2 c = (Ok tt, ck)) /\
  (4 < 2 -> RollbackTo 2 c = (Throw CheckpointExceedsHistory, c)).
Proof.
  exact (@controller_rollback nat unit byte_tokenizer sample_strings sample_controller [98; 97; 99; 98]%Z _ 2
    ltac:(vm_compute; reflexivity) ltac:(vm_compute; reflexivity)).
Defined.
