(* ===== verification/NGram.v ===== *)
(** * N-gram lookup

    Models [decoding/n_gram_lookup.h]: the incremental index over committed token
    history that proposes draft tokens.  The unordered map compares keys exactly, so
    it is a finite map on token vectors and its hash function does not matter. *)

From S2P Require Import Prelude.

Record NGramLookup : Type := mkLookup
  { ngram_size_ : Z;
    key_length_ : nat;
    history_ : list Z;
    occurrences_ : gmap (list Z) nat }.

Inductive NGramError : Type := RequiresSizeAtLeastTwo.

Definition int_min : Z := (- 2 ^ 31)%Z.

(** [ngram_size - 1] is a member initialiser, evaluated before the check. *)
Definition make_NGramLookup (ngram_size : Z) : outcome NGramError NGramLookup :=
  if (ngram_size =? int_min)%Z then Undefined
  else if (ngram_size <? 2)%Z then Throw RequiresSizeAtLeastTwo
  else Ok (mkLookup ngram_size (N.to_nat (u64_of_Z (ngram_size - 1))) [] ∅).

Definition MakeKey (n : NGramLookup) (start : nat) : list Z :=
  take (key_length_ n) (drop start (history_ n)).

Definition AppendToken (token : Z) (n : NGramLookup) : NGramLookup :=
  let n1 := mkLookup (ngram_size_ n) (key_length_ n) (history_ n ++ [token]) (occurrences_ n) in
  if length (history_ n1) <=? key_length_ n1 then n1
  else
    let newly_eligible_start := length (history_ n1) - key_length_ n1 - 1 in
    mkLookup (ngram_size_ n1) (key_length_ n1) (history_ n1)
      (<[MakeKey n1 newly_eligible_start := newly_eligible_start]> (occurrences_ n1)).

Definition Append (committed_suffix : list Z) (n : NGramLookup) : NGramLookup :=
  foldl (fun n token => AppendToken token n) n committed_suffix.

Definition Reset (committed : list Z) (n : NGramLookup) : NGramLookup :=
  Append committed (mkLookup (ngram_size_ n) (key_length_ n) [] ∅).

(** [std::rotate] by one, then [context.back() = token]; [back()] of an empty vector
    is undefined. *)
Definition advance_context (context : list Z) (token : Z) : option (list Z) :=
  if length context =? 0 then None
  else Some (<[length context - 1 := token]> (drop 1 context ++ take 1 context)).

(** The chained loop; the fuel is [max_tokens - proposal.size()]. *)
Fixpoint chain_loop (fuel : nat) (n : NGramLookup) (context : list Z) (occurrence : option nat) :
    option (list Z) :=
  match fuel with
  | O => Some []
  | S fuel =>
    match occurrence with
    | None => Some []
    | Some p =>
      token ← history_ n !! (p + key_length_ n);
      if fuel =? 0 then Some [token]
      else
        context' ← advance_context context token;
        rest ← chain_loop fuel n context' (occurrences_ n !! context');
        Some (token :: rest)
    end
  end.

(** [None] is undefined behaviour. *)
Definition Propose (n : NGramLookup) (max_tokens : nat) (chained_lookup : bool) : option (list Z) :=
  if (max_tokens =? 0) || (length (history_ n) <? key_length_ n) then Some []
  else
    let context := MakeKey n (length (history_ n) - key_length_ n) in
    match occurrences_ n !! context with
    | None => Some []
    | Some p =>
      if chained_lookup then chain_loop max_tokens n context (Some p)
      else
        let continuation := p + key_length_ n in
        let count := min max_tokens (length (history_ n) - continuation) in
        if length (history_ n) <? continuation then None
        else Some (take count (drop continuation (history_ n)))
    end.

(** ** Specification *)

(** [p] is the most recent position of [key] that has a continuation. *)
Definition last_occurrence (h : list Z) (kl : nat) (key : list Z) (p : nat) : Prop :=
  p + kl < length h /\ take kl (drop p h) = key /\
  forall p', p < p' -> p' + kl < length h -> take kl (drop p' h) <> key.

Definition never_occurs (h : list Z) (kl : nat) (key : list Z) : Prop :=
  forall p, p + kl < length h -> take kl (drop p h) <> key.

(** The last [kl] tokens of [w]. *)
Definition context_of (kl : nat) (w : list Z) : list Z := drop (length w - kl) w.

Record lookup_inv (n : NGramLookup) : Prop := mk_lookup_inv
  { li_length : 1 <= key_length_ n;
    li_index : forall key p, occurrences_ n !! key = Some p <->
      last_occurrence (history_ n) (key_length_ n) key p }.

Lemma last_occurrence_unique h kl key p q :
  last_occurrence h kl key p -> last_occurrence h kl key q -> p = q.
Proof.
  intros (Hp & Hpk & Hpm) (Hq & Hqk & Hqm). destruct (lt_eq_lt_dec p q) as [[Hlt|]|Hlt]; [|done|].
  - by destruct (Hpm q Hlt Hq).
  - by destruct (Hqm p Hlt Hp).
Qed.

Lemma slice_snoc (h : list Z) t p kl : p + kl <= length h ->
  take kl (drop p (h ++ [t])) = take kl (drop p h).
Proof. intros Hp. rewrite drop_app_le by lia. apply take_app_le. rewrite length_drop. lia. Qed.

(** Appending a token makes exactly one position eligible. *)
Lemma last_occurrence_snoc h t kl key p :
  kl <= length h ->
  last_occurrence (h ++ [t]) kl key p <->
  (p = length h - kl /\ take kl (drop p h) = key) \/
  (take kl (drop (length h - kl) h) <> key /\ last_occurrence h kl key p).
Proof.
  intros Hkl. unfold last_occurrence. rewrite length_app. simpl. split.
  - intros (Hp & Hkey & Hmax). rewrite slice_snoc in Hkey by lia.
    destruct (decide (p = length h - kl)) as [->|Hne]; [by left|right].
    split; [|split_and!; [lia|done|]].
    + intros Heq. apply (Hmax (length h - kl)); [lia..|]. by rewrite slice_snoc by lia.
    + intros p' Hlt Hp'. rewrite <- (slice_snoc h t) by lia. apply Hmax; lia.
  - intros [[-> Hkey]|(Hnew & Hp & Hkey & Hmax)].
    + split_and!; [lia|by rewrite slice_snoc by lia|]. intros p' Hlt Hp'. lia.
    + split_and!; [lia|by rewrite slice_snoc by lia|]. intros p' Hlt Hp'. rewrite slice_snoc by lia.
      destruct (decide (p' = length h - kl)) as [->|Hne]; [done|]. apply Hmax; lia.
Qed.

Lemma append_token_inv t n :
  lookup_inv n -> lookup_inv (AppendToken t n) /\ history_ (AppendToken t n) = history_ n ++ [t] /\
    key_length_ (AppendToken t n) = key_length_ n.
Proof.
  intros [Hlen Hidx]. unfold AppendToken. simpl. rewrite length_app. simpl.
  destruct (Nat.leb_spec (length (history_ n) + 1) (key_length_ n)) as [Hle|Hgt]; simpl.
  - split; [|done]. constructor; simpl; [done|]. intros key p. rewrite Hidx.
    unfold last_occurrence. rewrite length_app. simpl. split; intros (Hp & _); lia.
  - split; [|done]. constructor; simpl; [done|]. intros key p. unfold MakeKey. simpl.
    replace (length (history_ n) + 1 - key_length_ n - 1) with (length (history_ n) - key_length_ n) by lia.
    rewrite slice_snoc, last_occurrence_snoc, lookup_insert_Some, Hidx by lia. naive_solver.
Qed.

Lemma append_inv ts n :
  lookup_inv n -> lookup_inv (Append ts n) /\ history_ (Append ts n) = history_ n ++ ts /\
    key_length_ (Append ts n) = key_length_ n.
Proof.
  revert n. induction ts as [|t ts IH]; intros n Hn; simpl; [by rewrite app_nil_r|].
  destruct (append_token_inv t n Hn) as (Hn1 & Hh & Hk).
  destruct (IH _ Hn1) as (Hn2 & Hh2 & Hk2). split_and!; [done| |congruence].
  by rewrite Hh2, Hh, <- (assoc_L (++)).
Qed.

Lemma empty_inv s kl : 1 <= kl -> lookup_inv (mkLookup s kl [] ∅).
Proof.
  intros Hkl. constructor; simpl; [done|]. intros key p. rewrite lookup_empty.
  split; [done|]. intros (Hp & _). simpl in Hp. lia.
Qed.

Lemma lookup_absent n key :
  lookup_inv n -> occurrences_ n !! key = None -> never_occurs (history_ n) (key_length_ n) key.
Proof.
  intros [_ Hidx] Hnone p Hp Hkey.
  (* the largest such position would be indexed *)
  assert (exists q, last_occurrence (history_ n) (key_length_ n) key q) as [q Hq%Hidx]; [|congruence].
  assert (forall d p, length (history_ n) - p <= d -> p + key_length_ n < length (history_ n) ->
    take (key_length_ n) (drop p (history_ n)) = key ->
    exists q, last_occurrence (history_ n) (key_length_ n) key q) as Hmax; [|by eapply (Hmax _ p)].
  clear p Hp Hkey. induction d as [|d IH]; intros p Hd Hp Hkey; [lia|].
  destruct (decide (Exists (fun p' => p < p' /\ p' + key_length_ n < length (history_ n) /\
    take (key_length_ n) (drop p' (history_ n)) = key) (seq 0 (length (history_ n))))) as [Hex|Hex].
  - apply Exists_exists in Hex as (p' & _ & Hlt & Hp' & Hkey'). apply (IH p'); [lia|done..].
  - exists p. split_and!; [done..|]. intros p' Hlt Hp' Hkey'. apply Hex. apply Exists_exists.
    exists p'. split; [|done]. apply list_elem_of_In, in_seq. lia.
Qed.

(** ** Properties *)

Inductive history_op : Type := OpAppend (ts : list Z) | OpReset (ts : list Z).

Definition run_history (ops : list history_op) (n : NGramLookup) : NGramLookup :=
  foldl (fun n o => match o with OpAppend ts => Append ts n | OpReset ts => Reset ts n end) n ops.

(** The committed history after the operations. *)
Definition committed (ops : list history_op) (h : list Z) : list Z :=
  foldl (fun h o => match o with OpAppend ts => h ++ ts | OpReset ts => ts end) h ops.

Lemma run_history_inv ops n :
  lookup_inv n -> lookup_inv (run_history ops n) /\
    history_ (run_history ops n) = committed ops (history_ n) /\
    key_length_ (run_history ops n) = key_length_ n.
Proof.
  revert n. induction ops as [|[ts|ts] ops IH]; intros n Hn; simpl; [done|..].
  - destruct (append_inv ts n Hn) as (Hn1 & Hh & Hk). destruct (IH _ Hn1) as (Hn2 & Hh2 & Hk2).
    rewrite Hh2, Hh, Hk2. done.
  - destruct (append_inv ts (mkLookup (ngram_size_ n) (key_length_ n) [] ∅)) as (Hn1 & Hh & Hk).
    { apply empty_inv, Hn. }
    destruct (IH _ Hn1) as (Hn2 & Hh2 & Hk2). unfold Reset. rewrite Hh2, Hh, Hk2. done.
Qed.

Lemma make_inv size n0 :
  (size < 2 ^ 31)%Z -> make_NGramLookup size = Ok n0 ->
  lookup_inv n0 /\ history_ n0 = [] /\ key_length_ n0 = Z.to_nat (size - 1).
Proof.
  unfold make_NGramLookup. intros Hlt. destruct (Z.eqb_spec size int_min); [done|].
  destruct (Z.ltb_spec size 2); [done|]. intros [= <-]. simpl.
  rewrite u64_of_Z_small by (unfold two64; lia). split_and!; [|done|lia]. apply empty_inv. lia.
Qed.

(** The index is determined by the history. *)
Lemma index_unique n1 n2 :
  lookup_inv n1 -> lookup_inv n2 -> history_ n1 = history_ n2 -> key_length_ n1 = key_length_ n2 ->
  occurrences_ n1 = occurrences_ n2.
Proof.
  intros [_ H1] [_ H2] Hh Hk. apply map_eq. intros key. apply option_eq. intros p.
  by rewrite H1, H2, Hh, Hk.
Qed.

(** C39: The incremental index is exact.  After any sequence of appends and resets the
    table maps every (n-1)-gram of the committed history that has a continuation to
    its most recent such position and contains nothing else, so it is the table one
    rebuild over the final history would produce; nothing from before a reset is left. *)
Theorem ngram_index_correct size n0 ops :
  make_NGramLookup size = Ok n0 -> (size < 2 ^ 31)%Z ->
  let n := run_history ops n0 in
  history_ n = committed ops [] /\
  (forall key p, occurrences_ n !! key = Some p <->
     last_occurrence (committed ops []) (Z.to_nat (size - 1)) key p) /\
  occurrences_ n = occurrences_ (Reset (committed ops []) n0).
Proof.
  intros Hmake Hlt n. destruct (make_inv _ _ Hlt Hmake) as (Hn0 & Hh0 & Hk0).
  destruct (run_history_inv ops n0 Hn0) as (Hn & Hh & Hk). fold n in Hn, Hh, Hk.
  rewrite Hh0 in Hh. split_and!; [done| |].
  - intros key p. rewrite (li_index _ Hn), Hh, Hk, Hk0. done.
  - destruct (append_inv (committed ops []) (mkLookup (ngram_size_ n0) (key_length_ n0) [] ∅)) as (Hn1 & Hh1 & Hk1).
    { apply empty_inv, Hn0. }
    apply index_unique; [done|done|..]; unfold Reset; [by rewrite Hh, Hh1|by rewrite Hk, Hk1].
Qed.

Lemma context_of_snoc kl w t :
  1 <= kl <= length w -> advance_context (context_of kl w) t = Some (context_of kl (w ++ [t])).
Proof.
  intros Hkl. unfold advance_context, context_of.
  assert (length (drop (length w - kl) w) = kl) as Hlen by (rewrite length_drop; lia).
  rewrite Hlen. destruct (Nat.eqb_spec kl 0); [lia|]. f_equal.
  rewrite length_app. simpl. rewrite drop_app_le by lia.
  replace (length w + 1 - kl) with ((length w - kl) + 1) by lia. rewrite <- drop_drop.
  destruct (drop (length w - kl) w) as [|x c]; [simpl in Hlen; lia|]. simpl. rewrite drop_0.
  simpl in Hlen. replace (kl - 1) with (length c + 0) by lia. by rewrite insert_app_r.
Qed.

Section propose.
Context (n : NGramLookup) (Hn : lookup_inv n).
Abbreviation h := (history_ n).
Abbreviation kl := (key_length_ n).

(** [r] continues [w] by most recent occurrences in the history. *)
Definition chained (w r : list Z) : Prop :=
  forall i t, r !! i = Some t ->
    exists p, last_occurrence h kl (context_of kl (w ++ take i r)) p /\ h !! (p + kl) = Some t.

Lemma chain_loop_spec fuel w :
  kl <= length w ->
  exists r, chain_loop fuel n (context_of kl w) (occurrences_ n !! context_of kl w) = Some r /\
    length r <= fuel /\ chained w r /\
    (length r < fuel -> never_occurs h kl (context_of kl (w ++ r))).
Proof.
  revert w. induction fuel as [|fuel IH]; intros w Hw; simpl.
  { exists []. split_and!; [done..|simpl; lia]. }
  destruct (occurrences_ n !! context_of kl w) as [p|] eqn:Hocc.
  2:{ exists []. split_and!; [done|simpl; lia|done|]. intros _. rewrite app_nil_r.
      by apply lookup_absent. }
  apply (li_index _ Hn) in Hocc. destruct (lookup_lt_is_Some_2 h (p + kl)) as [t Ht]; [apply Hocc|].
  rewrite Ht. simpl. destruct (Nat.eqb_spec fuel 0) as [->|Hf].
  - exists [t]. split_and!; [done..| |simpl; lia]. intros [|i] t' Hi; [|done].
    injection Hi as <-. exists p. by rewrite take_0, app_nil_r.
  - rewrite context_of_snoc by (pose proof (li_length _ Hn); lia). simpl.
    destruct (IH (w ++ [t])) as (r & -> & Hlen & Hch & Hend); [rewrite length_app; simpl; lia|].
    simpl. exists (t :: r). split_and!; [done|simpl; lia| |].
    + intros [|i] t' Hi; simpl in Hi.
      * injection Hi as <-. exists p. by rewrite take_0, app_nil_r.
      * destruct (Hch i t' Hi) as (q & Hq). exists q. simpl. rewrite <- (assoc_L (++)) in Hq. exact Hq.
    + simpl. intros Hlt. rewrite <- (assoc_L (++)) in Hend. apply Hend. lia.
Qed.
End propose.

(** What a proposal is.  [Propose] never indexes out of range and proposes at
    most [max_tokens] tokens.  In regular mode it copies the tokens that followed the
    most recent earlier occurrence of the current context, as many as there are; it
    proposes nothing when there is none.  In chained mode every proposed token is the
    one that followed the most recent occurrence of the context extended by the
    tokens proposed before it, and the chain stops early only when that context never
    occurred; the history and the index are not changed by it. *)
Theorem ngram_propose_correct size n0 ops max_tokens :
  make_NGramLookup size = Ok n0 -> (size < 2 ^ 31)%Z ->
  let n := run_history ops n0 in
  let h := committed ops [] in
  let kl := key_length_ n in
  0 < max_tokens -> kl <= length h ->
  (exists r, Propose n max_tokens true = Some r /\ length r <= max_tokens /\ chained n h r /\
     (length r < max_tokens -> never_occurs h kl (context_of kl (h ++ r)))) /\
  ((never_occurs h kl (context_of kl h) /\ Propose n max_tokens false = Some []) \/
   (exists p, last_occurrence h kl (context_of kl h) p /\
      Propose n max_tokens false = Some (take max_tokens (drop (p + kl) h)))).
Proof.
  intros Hmake Hlt n h kl Hmax Hkl. destruct (make_inv _ _ Hlt Hmake) as (Hn0 & Hh0 & Hk0).
  destruct (run_history_inv ops n0 Hn0) as (Hn & Hh & Hk). fold n in Hn, Hh, Hk.
  rewrite Hh0 in Hh. fold h in Hh. unfold Propose. rewrite Hh. fold kl.
  destruct (Nat.eqb_spec max_tokens 0) as [|_]; [lia|].
  destruct (Nat.ltb_spec (length h) kl) as [|_]; [lia|]. simpl.
  assert (MakeKey n (length h - kl) = context_of kl h) as ->.
  { unfold MakeKey, context_of. rewrite Hh. fold kl. apply take_ge. rewrite length_drop. lia. }
  pose proof (chain_loop_spec n Hn max_tokens h Hkl) as Hchain. fold kl in Hchain. rewrite Hh in Hchain.
  destruct (occurrences_ n !! context_of kl h) as [p|] eqn:Hocc; (split; [|]).
  - exact Hchain.
  - right. apply (li_index _ Hn) in Hocc. rewrite Hh in Hocc. fold kl in Hocc. exists p. split; [done|].
    destruct Hocc as (Hp & _). destruct (Nat.ltb_spec (length h) (p + kl)) as [|_]; [lia|].
    f_equal. destruct (Nat.min_spec max_tokens (length h - (p + kl))) as [[_ ->]|[? ->]]; [done|].
    rewrite !take_ge; [done|rewrite length_drop; lia..].
  - destruct Hchain as (r & Hr & Hrest). destruct max_tokens as [|k]; [lia|]. simpl in Hr.
    injection Hr as <-. exists []. done.
  - left. split; [|done]. pose proof (lookup_absent n _ Hn Hocc) as Habs. by rewrite Hh in Habs.
Qed.

(** History 1 2 3 1 2 4 1 2 with bigram contexts. *)
Definition sample_lookup : NGramLookup := mkLookup 3 2 [] ∅.
Definition sample_history : list history_op :=
  [OpAppend [9; 9]; OpReset [1; 2; 3; 1]; OpAppend [2; 4; 1; 2]]%Z.

Lemma ngram_index_correct_witness :
  let n := run_history sample_history sample_lookup in
  history_ n = [1; 2; 3; 1; 2; 4; 1; 2]%Z /\
  (forall key p, occurrences_ n !! key = Some p <->
     last_occurrence [1; 2; 3; 1; 2; 4; 1; 2]%Z 2 key p) /\
  occurrences_ n = occurrences_ (Reset [1; 2; 3; 1; 2; 4; 1; 2]%Z sample_lookup).
Proof. exact (ngram_index_correct 3 sample_lookup sample_history eq_refl eq_refl). Defined.

Lemma ngram_propose_correct_witness :
  let n := run_history sample_history sample_lookup in
  let h := committed sample_history [] in
  let kl := key_length_ n in
  (exists r, Propose n 4 true = Some r /\ length r <= 4 /\ chained n h r /\
     (length r < 4 -> never_occurs h kl (context_of kl (h ++ r)))) /\
  ((never_occurs h kl (context_of kl h) /\ Propose n 4 false = Some []) \/
   (exists p, last_occurrence h kl (context_of kl h) p /\
      Propose n 4 false = Some (take 4 (drop (p + kl) h)))).
Proof.
  apply (ngram_propose_correct 3 sample_lookup sample_history 4); [reflexivity|reflexivity|lia|].
  vm_compute. lia.
Defined.

Example sample_proposals :
  let n := run_history sample_history sample_lookup in
  (Propose n 4 false, Propose n 4 true) = (Some [4; 1; 2], Some [4; 1; 2; 4])%Z.
Proof. vm_compute. reflexivity. Qed.
