(* ===== verification/StepPlan.v ===== *)
(** * Step plans, request status and the decode-first budget

    Models [engine/step_plan.h], [engine/request_status.h] and
    [engine/decode_first_scheduler_policy.{h,cpp}]: the data a planned engine step
    consists of, and the policy that orders candidates and divides the token budget.
    A request is identified by its address, an [N] that is zero for null. *)

From S2P Require Import Prelude.

Open Scope N_scope.

(** ** [request_status.h] *)

Inductive RequestStatus : Type := Unassigned | Assigned | Active | TurnComplete | Closed.

#[global] Instance RequestStatus_eq_dec : EqDecision RequestStatus.
Proof. solve_decision. Defined.

Inductive GenerationFinishReason : Type :=
  | FinishNone | EosToken | StopString | TurnLimit | ContextLimit | Canceled | Failed.

#[global] Instance GenerationFinishReason_eq_dec : EqDecision GenerationFinishReason.
Proof. solve_decision. Defined.

Definition IsQueued (status : RequestStatus) : bool := bool_decide (status = Assigned).
Definition IsExecuting (status : RequestStatus) : bool := bool_decide (status = Active).
Definition IsExecutable (status : RequestStatus) : bool := IsQueued status || IsExecuting status.
Definition IsTurnComplete (status : RequestStatus) : bool := bool_decide (status = TurnComplete).
Definition IsClosed (status : RequestStatus) : bool := bool_decide (status = Closed).

(** ** [step_plan.h] *)

Definition kMaxDraftTokensPerStep : N := 7.
Definition kMaxGeneratedTokensPerStep : N := kMaxDraftTokensPerStep + 1.

Inductive StepOutcomeKind : Type :=
  | NoWork
  | CapacityDeferred
  | UnserviceableRequest
  | Committed
  | RetryableBatchAbort
  | ExecutionCapacityExceeded
  | ExecutionContractFailure
  | FatalExecutionFailure.

Record StepOutcome : Type := mkOutcome
  { kind : StepOutcomeKind;
    outcome_transaction_id : N;
    outcome_request_id : N }.

Record StepPlanningResult : Type := mkResult
  { executable : bool;
    capacity_deferred : bool;
    unserviceable_request_id : N;
    planning_outcome : StepOutcome }.

(** A prefix-cache match: its tokens, the ids of its blocks in order, and whether it
    carries a fixed-state checkpoint. *)
Record PrefixCacheMatch : Type := mkPrefixMatch
  { token_count : N;
    match_blocks : list nat;
    fixed_state_checkpoint : bool }.

Record RequestStepPlan : Type := mkStepEntry
  { request_id : N;
    sequence_length_before : Z;
    unprocessed_token_count : N;
    draft_token_count : N;
    packed_token_offset : N;
    logits_row_index : N;
    target_cache_slots : N;
    whole_sequence_cache_slots : N;
    is_prefill : bool;
    newly_admitted : bool;
    scheduling_order : nat;
    prefix_match : option PrefixCacheMatch }.

Record FixedStateResourcePlan : Type := mkFixedPlan
  { required : bool;
    row_count : N;
    new_slot_count : N;
    staging_bytes : N }.

Definition no_fixed_state : FixedStateResourcePlan := mkFixedPlan false 0 0 0.

Record StepPlan : Type := mkPlan
  { transaction_id : N;
    requests : list RequestStepPlan;
    scheduled_request_limit : N;
    plan_token_count : N;
    proposed_block_table_columns : N;
    fixed_state : FixedStateResourcePlan;
    graph_capture_eligible : bool }.

(** Every exception planning can throw, by its message. *)
Inductive PlanError : Type :=
  | CommittedExceedBatch
  | LimitExceedsBatch
  | TargetPrecedesBoundary
  | DuplicateRequest
  | NewAlreadyResident
  | ResidentNotCommitted
  | GraphCapacityZero
  | IndexOverflow
  | InvalidStatus
  | NoUnprocessedTokens
  | InvalidOrDuplicateCandidate
  | UnknownSelected
  | LimitsNotPositive
  | BudgetNotPositive
  | TooManySelected
  | NoPendingTokens
  | DuplicatePlanned
  | RejectedRequiredWork
  | AdoptionRefused
  | OtherPlanError (code : N).

(** ** [decode_first_scheduler_policy.cpp] *)

Record DecodeFirstBudgetCandidate : Type := mkBudget
  { budget_is_prefill : bool;
    pending_token_count : N;
    prefill_token_cap : option N;
    decode_extra_token_count : N }.

(** The indices [start, start + 1, ...] of the candidates that satisfy [f]. *)
Fixpoint indices_where (f : DecodeFirstBudgetCandidate -> bool) (start : nat)
    (cs : list DecodeFirstBudgetCandidate) : list nat :=
  match cs with
  | [] => []
  | c :: cs => (if f c then [start] else []) ++ indices_where f (S start) cs
  end.

Definition DecodeFirstCandidateOrder (candidates : list DecodeFirstBudgetCandidate) : list nat :=
  indices_where (fun c => negb (budget_is_prefill c)) 0 candidates ++
  indices_where budget_is_prefill 0 candidates.

Definition DecodeFirstProvisionalRequestLimit (max_scheduled_tokens max_batch_size : N) :
    outcome PlanError N :=
  if (max_scheduled_tokens =? 0) || (max_batch_size =? 0) then Throw LimitsNotPositive
  else Ok (N.min max_scheduled_tokens max_batch_size).

(** The loop over decode candidates; prefill candidates keep their single token. *)
Fixpoint decode_loop (cs : list DecodeFirstBudgetCandidate) (remaining : N) :
    outcome PlanError (list N * N) :=
  match cs with
  | [] => Ok ([], remaining)
  | c :: cs =>
    if pending_token_count c =? 0 then Throw NoPendingTokens
    else
      let additional := if budget_is_prefill c then 0 else N.min (decode_extra_token_count c) remaining in
      match decode_loop cs (remaining - additional) with
      | Ok (counts, rest) => Ok ((1 + additional) :: counts, rest)
      | Throw e => Throw e
      | Terminate => Terminate
      | Undefined => Undefined
      end
  end.

(** What a prefill candidate may take: its pending tokens, capped. *)
Definition prefill_limit (c : DecodeFirstBudgetCandidate) : N :=
  if negb (default 0 (prefill_token_cap c) =? 0)
  then N.min (pending_token_count c) (default 0 (prefill_token_cap c))
  else pending_token_count c.

(** The loop over prefill candidates. *)
Fixpoint prefill_loop (cs : list DecodeFirstBudgetCandidate) (counts : list N) (remaining : N) :
    list N :=
  match cs, counts with
  | c :: cs, n :: counts =>
    let additional := if budget_is_prefill c then N.min (prefill_limit c - 1) remaining else 0 in
    (n + additional) :: prefill_loop cs counts (remaining - additional)
  | _, _ => counts
  end.

Definition AllocateDecodeFirstTokenBudget (selected : list DecodeFirstBudgetCandidate)
    (max_scheduled_tokens : N) : outcome PlanError (list N) :=
  if max_scheduled_tokens =? 0 then Throw BudgetNotPositive
  else if max_scheduled_tokens <? N.of_nat (length selected) then Throw TooManySelected
  else
    match decode_loop selected (max_scheduled_tokens - N.of_nat (length selected)) with
    | Ok (counts, rest) => Ok (prefill_loop selected counts rest)
    | Throw e => Throw e
    | Terminate => Terminate
    | Undefined => Undefined
    end.

(** ** Properties of the policy *)

(** What a candidate may take at most. *)
Definition demand (c : DecodeFirstBudgetCandidate) : N :=
  if budget_is_prefill c then prefill_limit c else 1 + decode_extra_token_count c.

Definition total (l : list N) : N := foldr N.add 0 l.

Lemma total_cons x l : total (x :: l) = x + total l.
Proof. done. Qed.

Lemma prefill_limit_pos c : 0 < pending_token_count c -> 0 < prefill_limit c <= pending_token_count c.
Proof. unfold prefill_limit. intros Hc. destruct (N.eqb_spec (default 0 (prefill_token_cap c)) 0); simpl; lia. Qed.

Definition decode_ok (cs : list DecodeFirstBudgetCandidate) (remaining : N) (counts : list N) (rest : N) : Prop :=
  rest <= remaining /\ total counts + rest = N.of_nat (length cs) + remaining /\
  (0 < rest -> Forall2 (fun c n => n = if budget_is_prefill c then 1 else demand c) cs counts) /\
  Forall2 (fun c n => 1 <= n /\ if budget_is_prefill c then n = 1 else n <= demand c) cs counts.

Lemma decode_loop_spec cs remaining :
  match decode_loop cs remaining with
  | Ok (counts, rest) => Forall (fun c => 0 < pending_token_count c) cs /\ decode_ok cs remaining counts rest
  | Throw e => e = NoPendingTokens /\ Exists (fun c => pending_token_count c = 0) cs
  | _ => False
  end.
Proof.
  revert remaining. induction cs as [|c cs IH]; intros remaining; simpl.
  { split; [constructor|]. unfold decode_ok. simpl. split_and!; [lia|lia|constructor|constructor]. }
  destruct (N.eqb_spec (pending_token_count c) 0) as [H0|H0]; [split; [done|by left]|].
  set (additional := if budget_is_prefill c then 0 else N.min (decode_extra_token_count c) remaining).
  assert (additional <= remaining) as Hle by (unfold additional; destruct (budget_is_prefill c); lia).
  specialize (IH (remaining - additional)).
  destruct (decode_loop cs (remaining - additional)) as [[counts rest]|e| |]; try done.
  2: by destruct IH as [-> ?]; split; [|right].
  destruct IH as (Hpos & Hrest & Htot & Hfull & Hall). split; [constructor; [lia|done]|].
  unfold decode_ok. rewrite total_cons. simpl length. split_and!; [lia|lia| |].
  - intros Hr. constructor; [|by apply Hfull].
    unfold additional, demand in *. destruct (budget_is_prefill c); lia.
  - constructor; [|done]. unfold additional, demand. destruct (budget_is_prefill c); lia.
Qed.

Lemma prefill_loop_spec cs counts remaining :
  Forall (fun c => 0 < pending_token_count c) cs ->
  Forall2 (fun c n => 1 <= n /\ if budget_is_prefill c then n = 1 else n <= demand c) cs counts ->
  let r := prefill_loop cs counts remaining in
  total counts <= total r <= total counts + remaining /\
  Forall2 (fun c n => 1 <= n <= demand c) cs r /\
  (total r < total counts + remaining ->
     Forall2 (fun c n => budget_is_prefill c = true -> n = demand c) cs r) /\
  (Forall2 (fun c n => budget_is_prefill c = false -> n = demand c) cs counts ->
   Forall2 (fun c n => budget_is_prefill c = false -> n = demand c) cs r) /\
  (remaining = 0 -> r = counts).
Proof.
  intros Hpos Hc. revert remaining. induction Hc as [|c n cs counts [Hn Hdem] Hc IH]; intros remaining r; subst r; simpl.
  { split_and!; [lia|lia|constructor|constructor|constructor|done]. }
  apply Forall_cons in Hpos as [Hp Hpos]. pose proof (prefill_limit_pos c Hp) as Hlim.
  set (additional := if budget_is_prefill c then N.min (prefill_limit c - 1) remaining else 0).
  assert (additional <= remaining) as Hle by (unfold additional; destruct (budget_is_prefill c); lia).
  destruct (IH Hpos (remaining - additional)) as ([Hlo Hhi] & Hall & Hfull & Hdec & Hzero).
  fold (total (prefill_loop cs counts (remaining - additional))). fold (total counts).
  split_and!; [lia|lia| | | |].
  - constructor; [|done]. unfold additional, demand in *. destruct (budget_is_prefill c); lia.
  - intros Hlt. constructor; [|apply Hfull; lia].
    unfold additional, demand in *. destruct (budget_is_prefill c); [|done]. intros _. lia.
  - intros [Hd1 Hd2]%Forall2_cons. constructor; [|by apply Hdec].
    unfold additional. intros Hf. specialize (Hd1 Hf). rewrite Hf. lia.
  - intros ->. f_equal; [|apply Hzero; lia]. unfold additional. destruct (budget_is_prefill c); lia.
Qed.

Lemma Forall2_and {A B} (P Q : A -> B -> Prop) l k :
  Forall2 P l k -> Forall2 Q l k -> Forall2 (fun x y => P x y /\ Q x y) l k.
Proof.
  intros HP. induction HP; intros HQ; [constructor|].
  apply Forall2_cons in HQ as [??]. constructor; auto.
Qed.

Lemma decode_first_budget cs max :
  match AllocateDecodeFirstTokenBudget cs max with
  | Ok counts =>
    0 < max /\ N.of_nat (length cs) <= max /\ Forall (fun c => 0 < pending_token_count c) cs /\
    total counts <= max /\
    Forall2 (fun c n => 1 <= n <= demand c) cs counts /\
    (total counts < max -> Forall2 (fun c n => n = demand c) cs counts) /\
    (Forall2 (fun c n => budget_is_prefill c = false -> n = demand c) cs counts \/
     Forall2 (fun c n => budget_is_prefill c = true -> n = 1) cs counts)
  | Throw e =>
    max = 0 \/ max < N.of_nat (length cs) \/ Exists (fun c => pending_token_count c = 0) cs
  | _ => False
  end.
Proof.
  unfold AllocateDecodeFirstTokenBudget. destruct (N.eqb_spec max 0) as [|Hmax]; [by left|].
  destruct (N.ltb_spec max (N.of_nat (length cs))) as [|Hlen]; [by right; left|].
  pose proof (decode_loop_spec cs (max - N.of_nat (length cs))) as Hd.
  destruct (decode_loop cs _) as [[counts rest]|e| |]; try done; [|by right; right; apply Hd].
  destruct Hd as (Hpos & Hrest & Htot & Hfull & Hall).
  destruct (prefill_loop_spec cs counts rest Hpos Hall) as ([Hlo Hhi] & Hdem & Hpre & Hdec & Hzero).
  set (r := prefill_loop cs counts rest) in *.
  assert (0 < rest -> Forall2 (fun c n => budget_is_prefill c = false -> n = demand c) cs r) as Hdec'.
  { intros Hr. apply Hdec. eapply Forall2_impl; [by apply Hfull|]. simpl. intros c n -> Hf. by rewrite Hf. }
  split_and!; [lia|lia|done|lia|done| |].
  - intros Hlt. assert (0 < rest) as Hr by lia.
    eapply Forall2_impl; [exact (Forall2_and _ _ _ _ (Hpre ltac:(lia)) (Hdec' Hr))|].
    simpl. intros c n [H1 H2]. destruct (budget_is_prefill c); auto.
  - destruct (N.eq_0_gt_0_cases rest) as [Hr|Hr]; [right|left; auto].
    rewrite (Hzero Hr). eapply Forall2_impl; [exact Hall|]. simpl. intros c n [_ H1] Hp. by rewrite Hp in H1.
Qed.

(** What the scheduler needs of it. *)
Lemma decode_budget cs max :
  match AllocateDecodeFirstTokenBudget cs max with
  | Ok counts => total counts <= max /\ Forall2 (fun c n => 1 <= n <= demand c) cs counts
  | Throw _ => True
  | _ => False
  end.
Proof.
  pose proof (decode_first_budget cs max) as Hb.
  destruct (AllocateDecodeFirstTokenBudget cs max); naive_solver.
Qed.

(** The decode-first budget.  [AllocateDecodeFirstTokenBudget] succeeds exactly
    when the budget is positive, covers one token per selected request and every
    request has pending tokens.  It then gives every request at least one token and
    at most its demand (a decode its drafts, a prefill its pending tokens or its
    cap), never exceeds the budget, wastes none of it (below budget, every demand is
    met), and serves decodes first: unless every decode got its full demand, no
    prefill gets more than one token. *)
Theorem decode_first_budget_correct cs max :
  match AllocateDecodeFirstTokenBudget cs max with
  | Ok counts =>
    0 < max /\ N.of_nat (length cs) <= max /\ Forall (fun c => 0 < pending_token_count c) cs /\
    total counts <= max /\
    Forall2 (fun c n => 1 <= n <= demand c) cs counts /\
    (total counts < max -> Forall2 (fun c n => n = demand c) cs counts) /\
    (Forall2 (fun c n => budget_is_prefill c = false -> n = demand c) cs counts \/
     Forall2 (fun c n => budget_is_prefill c = true -> n = 1) cs counts)
  | Throw e =>
    max = 0 \/ max < N.of_nat (length cs) \/ Exists (fun c => pending_token_count c = 0) cs
  | _ => False
  end.
Proof. apply decode_first_budget. Qed.

(** ** The candidate order *)

Lemma indices_where_spec f cs start i :
  i ∈ indices_where f start cs <-> exists k c, i = (start + k)%nat /\ cs !! k = Some c /\ f c = true.
Proof.
  revert start. induction cs as [|c cs IH]; intros start; simpl.
  { split; [by intros ?%not_elem_of_nil|]. intros (k & c & _ & Hk & _). done. }
  rewrite elem_of_app, IH. split.
  - intros [Hi|(k & c' & -> & Hk & Hc)].
    + destruct (f c) eqn:Hf; [|by apply not_elem_of_nil in Hi]. apply list_elem_of_singleton in Hi as ->.
      exists 0%nat, c. split_and!; [lia|done..].
    + exists (S k), c'. split_and!; [lia|done..].
  - intros ([|k] & c' & -> & Hk & Hc); simpl in Hk.
    + injection Hk as ->. left. rewrite Hc. apply list_elem_of_singleton. lia.
    + right. exists k, c'. split_and!; [lia|done..].
Qed.

Lemma indices_where_sorted f cs start :
  StronglySorted lt (indices_where f start cs).
Proof.
  revert start. induction cs as [|c cs IH]; intros start; simpl; [constructor|].
  destruct (f c); simpl; [|apply IH]. constructor; [apply IH|].
  apply Forall_forall. intros i (k & c' & -> & _)%indices_where_spec. lia.
Qed.

Lemma StronglySorted_lt_NoDup l : StronglySorted lt l -> NoDup l.
Proof.
  induction 1 as [|x l Hs IH Hx]; constructor; [|done]. intros Hin.
  pose proof (proj1 (Forall_forall _ _) Hx x Hin). simpl in *. lia.
Qed.

Lemma candidate_order_perm cs : DecodeFirstCandidateOrder cs ≡ₚ seq 0 (length cs).
Proof.
  apply NoDup_Permutation.
  - unfold DecodeFirstCandidateOrder. apply NoDup_app.
    split_and!; [apply StronglySorted_lt_NoDup, indices_where_sorted| |apply StronglySorted_lt_NoDup, indices_where_sorted].
    intros i (k & c & -> & Hk & Hc)%indices_where_spec (k' & c' & Heq & Hk' & Hc')%indices_where_spec.
    simpl in Heq. subst k'. rewrite Hk in Hk'. injection Hk' as <-. rewrite Hc' in Hc. done.
  - apply NoDup_ListNoDup, seq_NoDup.
  - intros i. unfold DecodeFirstCandidateOrder. rewrite elem_of_app, !indices_where_spec, list_elem_of_In, in_seq.
    split.
    + intros [(k & c & -> & Hk & _)|(k & c & -> & Hk & _)]; apply lookup_lt_Some in Hk; lia.
    + intros Hi. destruct (lookup_lt_is_Some_2 cs i ltac:(lia)) as [c Hc].
      destruct (budget_is_prefill c) eqn:Hp; [right|left]; exists i, c; rewrite Hp; done.
Qed.

(** [DecodeFirstCandidateOrder] is a permutation of all candidate positions that
    puts every decode before every prefill and keeps the arrival order within each
    group, so no candidate is dropped, duplicated or reordered within its class. *)
Theorem candidate_order_correct cs :
  let order := DecodeFirstCandidateOrder cs in
  order ≡ₚ seq 0 (length cs) /\
  exists decodes prefills, order = decodes ++ prefills /\
    StronglySorted lt decodes /\ StronglySorted lt prefills /\
    Forall (fun i => exists c, cs !! i = Some c /\ budget_is_prefill c = false) decodes /\
    Forall (fun i => exists c, cs !! i = Some c /\ budget_is_prefill c = true) prefills.
Proof.
  intros order. split.
  - apply candidate_order_perm.
  - exists (indices_where (fun c => negb (budget_is_prefill c)) 0 cs), (indices_where budget_is_prefill 0 cs).
    split_and!; [done|apply indices_where_sorted|apply indices_where_sorted|..]; apply Forall_forall;
      intros i (k & c & -> & Hk & Hc)%indices_where_spec; exists c; split; [done| |done|done].
    by apply negb_true_iff.
Qed.

Example budget_example :
  AllocateDecodeFirstTokenBudget
    [mkBudget false 1 None 3; mkBudget true 10 (Some 4) 0; mkBudget true 6 None 0] 9
  = Ok [4; 4; 1].
Proof. reflexivity. Qed.
