(* ===== verification/Request.v ===== *)
(** * The scheduling state of a request

    Models the part of [engine/request.{h,cpp}] that planning and chunked execution
    read and write: status, sequence lengths, drafts, chunk scheduling and the staged
    adoption of a cached prefix.  Sequence lengths are [int64_t], counts [size_t]. *)

From S2P Require Import Prelude Positions StepPlan.

Open Scope N_scope.

Record Request : Type := mkRequest
  { status_ : RequestStatus;
    has_search : bool;                 (* search_ is not null *)
    sequence_length : Z;               (* search_->GetSequenceLength() *)
    tokens_host_size : N;              (* tokens_host_.size() *)
    draft_tokens_size : N;             (* draft_tokens_.size() *)
    staged_draft_count_ : N;
    processed_sequence_length_ : Z;
    prompt_sequence_length_ : Z;
    chunk_size : option N;             (* params_->search.chunk_size *)
    scheduled_token_count_ : N;
    turn_prompt_tokens_ : N;
    turn_cached_prompt_tokens_ : N;
    adopted_prefix_length_ : N;
    prefix_adoption_staged_ : bool }.

Inductive RequestError : Type :=
  | NotAdded | NoTokens | BadTokenCount | CannotStagePrefix.

Definition set_status (s : RequestStatus) (r : Request) : Request :=
  mkRequest s (has_search r) (sequence_length r) (tokens_host_size r) (draft_tokens_size r)
    (staged_draft_count_ r) (processed_sequence_length_ r) (prompt_sequence_length_ r) (chunk_size r)
    (scheduled_token_count_ r) (turn_prompt_tokens_ r) (turn_cached_prompt_tokens_ r)
    (adopted_prefix_length_ r) (prefix_adoption_staged_ r).

Definition set_scheduled (n : N) (r : Request) : Request :=
  mkRequest (status_ r) (has_search r) (sequence_length r) (tokens_host_size r) (draft_tokens_size r)
    (staged_draft_count_ r) (processed_sequence_length_ r) (prompt_sequence_length_ r) (chunk_size r)
    n (turn_prompt_tokens_ r) (turn_cached_prompt_tokens_ r)
    (adopted_prefix_length_ r) (prefix_adoption_staged_ r).

Definition set_adoption (processed : Z) (scheduled cached adopted : N) (staged : bool) (r : Request) : Request :=
  mkRequest (status_ r) (has_search r) (sequence_length r) (tokens_host_size r) (draft_tokens_size r)
    (staged_draft_count_ r) processed (prompt_sequence_length_ r) (chunk_size r)
    scheduled (turn_prompt_tokens_ r) cached adopted staged.

Definition CurrentSequenceLength (r : Request) : Z := sequence_length r.
Definition CommittedSequenceLength (r : Request) : Z :=
  (CurrentSequenceLength r - Z.of_N (staged_draft_count_ r))%Z.
Definition IsPrefill (r : Request) : bool := (processed_sequence_length_ r <? prompt_sequence_length_ r)%Z.
Definition PendingDraftTokenCount (r : Request) : N := draft_tokens_size r.
Definition PrefillChunkSize (r : Request) : option N := chunk_size r.

(** The fields of [RequestStateSnapshot] that planning reads. *)
Record RequestStateSnapshot : Type := mkSnapshot
  { snapshot_status : RequestStatus;
    current_sequence_length : Z;
    processed_sequence_length : Z;
    snapshot_is_prefill : bool }.

Definition Snapshot (r : Request) : RequestStateSnapshot :=
  mkSnapshot (status_ r) (CommittedSequenceLength r) (processed_sequence_length_ r) (IsPrefill r).

Definition Schedule (r : Request) : outcome RequestError Request :=
  if negb (bool_decide (status_ r = Assigned)) then Throw NotAdded
  else if negb (has_search r) || (CurrentSequenceLength r =? 0)%Z then Throw NoTokens
  else Ok (set_status Active r).

Definition unprocessed (r : Request) : N :=
  u64_of_Z (CurrentSequenceLength r - processed_sequence_length_ r).

Definition ScheduledTokenCount (r : Request) : N := N.min (scheduled_token_count_ r) (unprocessed r).

Definition ScheduleTokens (r : Request) : Request :=
  set_scheduled (Positions.ScheduledTokenCount (unprocessed r) (PrefillChunkSize r)) r.

Definition BindScheduledTokenCount (token_count : N) (r : Request) : outcome RequestError Request :=
  let remaining := (CurrentSequenceLength r - processed_sequence_length_ r +
                    Z.of_N (u64_sub (draft_tokens_size r) (staged_draft_count_ r)))%Z in
  if (remaining <=? 0)%Z || (token_count =? 0) || (u64_of_Z remaining <? token_count)
  then Throw BadTokenCount
  else Ok (set_scheduled token_count r).

Definition IsChunkComplete (r : Request) : bool :=
  (CurrentSequenceLength r <=? processed_sequence_length_ r + Z.of_N (ScheduledTokenCount r))%Z.

Definition AdvanceChunk (r : Request) : Request :=
  set_adoption (processed_sequence_length_ r + Z.of_N (ScheduledTokenCount r))%Z
    (scheduled_token_count_ r) (turn_cached_prompt_tokens_ r) (adopted_prefix_length_ r)
    (prefix_adoption_staged_ r) r.

Definition StagePrefixAdoption (adopted_tokens : N) (r : Request) : outcome RequestError Request :=
  if negb (IsQueued (status_ r)) || prefix_adoption_staged_ r ||
     negb (processed_sequence_length_ r =? 0)%Z || (adopted_tokens =? 0) ||
     (u64_of_Z (CurrentSequenceLength r) <=? adopted_tokens) || (tokens_host_size r <? adopted_tokens)
  then Throw CannotStagePrefix
  else
    let turn_start := u64_sub (tokens_host_size r) (turn_prompt_tokens_ r) in
    Ok (set_adoption (Z.of_N adopted_tokens) (scheduled_token_count_ r)
          (if turn_start <? adopted_tokens then adopted_tokens - turn_start else 0)
          adopted_tokens true r).

Definition RollbackPrefixAdoption (r : Request) : Request :=
  if negb (prefix_adoption_staged_ r) then r else set_adoption 0 0 0 0 false r.

Definition CommitPrefixAdoption (r : Request) : Request :=
  set_adoption (processed_sequence_length_ r) (scheduled_token_count_ r) (turn_cached_prompt_tokens_ r)
    (adopted_prefix_length_ r) false r.

(** ** Properties *)

(** The lengths of a request between steps. *)
Definition lengths_ok (r : Request) : Prop :=
  (0 <= processed_sequence_length_ r <= sequence_length r)%Z /\ (sequence_length r < 2 ^ 62)%Z.

Lemma unprocessed_spec r :
  lengths_ok r -> Z.of_N (unprocessed r) = (sequence_length r - processed_sequence_length_ r)%Z.
Proof.
  intros [Hp Hs]. unfold unprocessed, CurrentSequenceLength.
  rewrite u64_of_Z_small by (unfold two64; lia). lia.
Qed.

(** Chunks of [chunk], [n] times. *)
Fixpoint run_chunks (n : nat) (r : Request) : Request :=
  match n with O => r | S n => run_chunks n (AdvanceChunk (ScheduleTokens r)) end.

Lemma schedule_advance r :
  lengths_ok r ->
  let r' := AdvanceChunk (ScheduleTokens r) in
  lengths_ok r' /\ sequence_length r' = sequence_length r /\ chunk_size r' = chunk_size r /\
  Z.of_N (unprocessed r') = (Z.of_N (unprocessed r) -
    Z.of_N (Positions.ScheduledTokenCount (unprocessed r) (chunk_size r)))%Z /\
  IsChunkComplete (ScheduleTokens r) = (unprocessed r' =? 0).
Proof.
  intros Hr r'. pose proof (unprocessed_spec r Hr) as Hu.
  pose proof (scheduled_le (unprocessed r) (chunk_size r)) as Hle.
  set (n := Positions.ScheduledTokenCount (unprocessed r) (chunk_size r)) in *.
  assert (ScheduledTokenCount (ScheduleTokens r) = n) as Hn.
  { unfold ScheduledTokenCount, ScheduleTokens. simpl. unfold PrefillChunkSize. fold n.
    change (unprocessed (set_scheduled n r)) with (unprocessed r). lia. }
  assert (lengths_ok r') as Hr'.
  { destruct Hr as [Hp Hs]. unfold lengths_ok, r', AdvanceChunk. rewrite Hn. simpl. lia. }
  pose proof (unprocessed_spec r' Hr') as Hu'.
  assert (processed_sequence_length_ r' = processed_sequence_length_ r + Z.of_N n)%Z as Hp'.
  { unfold r', AdvanceChunk. simpl. by rewrite Hn. }
  change (sequence_length r') with (sequence_length r) in Hu'.
  split_and!; [done..|lia|]. unfold IsChunkComplete. rewrite Hn. unfold CurrentSequenceLength.
  change (sequence_length (ScheduleTokens r)) with (sequence_length r).
  change (processed_sequence_length_ (ScheduleTokens r)) with (processed_sequence_length_ r).
  destruct (Z.leb_spec (sequence_length r) (processed_sequence_length_ r + Z.of_N n)),
    (N.eqb_spec (unprocessed r') 0); (done || lia).
Qed.

(** Chunked execution reaches the end of the sequence.  Scheduling and advancing
    chunks keeps the processed length within the sequence, and [n] chunks process
    everything exactly when [n] is at least ceil(unprocessed / chunk) (one chunk when
    no chunk size is set): every chunk makes progress, none overshoots. *)
Theorem chunks_complete r n :
  lengths_ok r -> 0 < unprocessed r ->
  lengths_ok (run_chunks n r) /\
  (processed_sequence_length_ (run_chunks n r) = sequence_length r <->
   (match chunk_size r with
    | Some k => if k =? 0 then 1 else (unprocessed r + k - 1) / k
    | None => 1
    end) <= N.of_nat n).
Proof.
  intros Hr Hu.
  assert (forall m q, lengths_ok q -> lengths_ok (run_chunks m q) /\
    sequence_length (run_chunks m q) = sequence_length q /\
    unprocessed (run_chunks m q) = (prefill m (chunk_size q) (0, unprocessed q)).2) as Hrun.
  { clear. induction m as [|m IH]; intros q Hq; [done|]. cbn [run_chunks prefill].
    destruct (schedule_advance q Hq) as (Hq' & Hseq & Hch & Hun & _).
    destruct (IH _ Hq') as (Hl & Hs & Hp). split_and!; [done|congruence|]. rewrite Hp, Hch.
    unfold prefill_step. simpl fst. simpl snd.
    pose proof (scheduled_le (unprocessed q) (chunk_size q)).
    assert (unprocessed (AdvanceChunk (ScheduleTokens q)) =
      unprocessed q - Positions.ScheduledTokenCount (unprocessed q) (chunk_size q)) as -> by lia.
    apply prefill_snd. }
  destruct (Hrun n r Hr) as (Hl & Hs & Hp). split; [done|].
  rewrite <- (prefill_done_iff n (chunk_size r) 0 (unprocessed r) Hu), <- Hp.
  pose proof (unprocessed_spec _ Hl) as Hz. rewrite Hs in Hz. split; lia.
Qed.

Definition sample_request : Request :=
  mkRequest Assigned true 10 10 0 0 0 10 (Some 4) 0 10 0 0 false.

Lemma chunks_complete_witness :
  lengths_ok (run_chunks 3 sample_request) /\
  (processed_sequence_length_ (run_chunks 3 sample_request) = sequence_length sample_request <->
   (unprocessed sample_request + 4 - 1) / 4 <= N.of_nat 3).
Proof. apply (chunks_complete sample_request 3); [by vm_compute|by vm_compute]. Defined.

(** Rolling back what was staged, and rolling back twice. *)
Lemma stage_rollback k r r' :
  StagePrefixAdoption k r = Ok r' -> turn_cached_prompt_tokens_ r = 0 -> adopted_prefix_length_ r = 0 ->
  RollbackPrefixAdoption r' = set_scheduled 0 r /\ processed_sequence_length_ r' = Z.of_N k /\
  prefix_adoption_staged_ r' = true.
Proof.
  unfold StagePrefixAdoption. intros Hst Hc Ha. destruct (_ || _) eqn:Hb; [done|].
  apply orb_false_iff in Hb as [[[[[_ Hs]%orb_false_iff Hp]%orb_false_iff _]%orb_false_iff _]%orb_false_iff _].
  apply negb_false_iff, Z.eqb_eq in Hp. injection Hst as <-. split_and!; [|done|done].
  unfold RollbackPrefixAdoption, set_adoption, set_scheduled. simpl. destruct r; simpl in *. by subst.
Qed.

Lemma rollback_idempotent r : RollbackPrefixAdoption (RollbackPrefixAdoption r) = RollbackPrefixAdoption r.
Proof. unfold RollbackPrefixAdoption. destruct (prefix_adoption_staged_ r) eqn:Hs; simpl; [done|]. by rewrite Hs. Qed.

Lemma rollback_unstaged r : prefix_adoption_staged_ r = false -> RollbackPrefixAdoption r = r.
Proof. unfold RollbackPrefixAdoption. by intros ->. Qed.

(** Adopting a cached prefix is a transaction.  [StagePrefixAdoption] succeeds
    exactly for a queued, unprocessed request with no adoption staged and a prefix of
    at least one token that leaves at least one token to process; it throws without
    effect otherwise.  A rollback of a staged adoption restores the request (with no
    tokens scheduled), and after a commit a rollback changes nothing. *)
Theorem prefix_adoption_transaction k r :
  lengths_ok r -> (sequence_length r <= Z.of_N (tokens_host_size r))%Z ->
  turn_cached_prompt_tokens_ r = 0 -> adopted_prefix_length_ r = 0 ->
  let adoptable := status_ r = Assigned /\ prefix_adoption_staged_ r = false /\
    processed_sequence_length_ r = 0%Z /\ (0 < Z.of_N k < sequence_length r)%Z in
  match StagePrefixAdoption k r with
  | Ok r' =>
    adoptable /\ processed_sequence_length_ r' = Z.of_N k /\ lengths_ok r' /\
    RollbackPrefixAdoption r' = set_scheduled 0 r /\
    RollbackPrefixAdoption (CommitPrefixAdoption r') = CommitPrefixAdoption r'
  | Throw e => e = CannotStagePrefix /\ ~ adoptable
  | _ => False
  end.
Proof.
  intros [Hp Hs] Htok Hcached Hadopted adoptable. unfold StagePrefixAdoption, IsQueued, CurrentSequenceLength.
  rewrite u64_of_Z_small by (unfold two64; lia).
  destruct (bool_decide_reflect (status_ r = Assigned)) as [Hst|Hst]; simpl; [|split; [done|intros (? & _); done]].
  destruct (prefix_adoption_staged_ r) eqn:Hstaged; simpl; [split; [done|intros (_ & ? & _); done]|].
  destruct (Z.eqb_spec (processed_sequence_length_ r) 0) as [H0|H0]; simpl; [|split; [done|intros (_ & _ & ? & _); done]].
  destruct (N.eqb_spec k 0); simpl; [split; [done|intros (_ & _ & _ & ?); lia]|].
  destruct (N.leb_spec (Z.to_N (sequence_length r)) k); simpl; [split; [done|intros (_ & _ & _ & ?); lia]|].
  destruct (N.ltb_spec (tokens_host_size r) k); simpl; [lia|].
  split_and!; try done; try lia.
  - unfold adoptable. split_and!; [done..|lia|lia].
  - unfold lengths_ok. simpl. lia.
  - unfold RollbackPrefixAdoption, set_adoption, set_scheduled. simpl. destruct r; simpl in *. by subst.
Qed.

Lemma prefix_adoption_transaction_witness :
  let r := sample_request in
  let adoptable := status_ r = Assigned /\ prefix_adoption_staged_ r = false /\
    processed_sequence_length_ r = 0%Z /\ (0 < Z.of_N 8 < sequence_length r)%Z in
  match StagePrefixAdoption 8 r with
  | Ok r' =>
    adoptable /\ processed_sequence_length_ r' = Z.of_N 8 /\ lengths_ok r' /\
    RollbackPrefixAdoption r' = set_scheduled 0 r /\
    RollbackPrefixAdoption (CommitPrefixAdoption r') = CommitPrefixAdoption r'
  | Throw e => e = CannotStagePrefix /\ ~ adoptable
  | _ => False
  end.
Proof. apply (prefix_adoption_transaction 8 sample_request); by vm_compute. Defined.
