(* ===== verification/PagedPlanner.v ===== *)
(** * Capacity planning of the paged cache

    Models [PagedKeyValueCache::PlanStepResources] and [GetGraphBlockTableColumns]
    (engine/paged_key_value_cache.{h,cpp}): which of the proposed requests a step can
    serve with the blocks that are free or reclaimable.  The block pool and the
    request index are the components of [BlockPool] and [RequestIndex]; what planning
    asks the prefix cache is the interface [PrefixReclamation]. *)

From S2P Require Import Prelude BlockPool RequestIndex StepPlan.

Open Scope N_scope.

(** The committed blocks of one request. *)
Record PagedCacheBlockTable : Type := mkTable
  { table_request_id : N;
    table_blocks : list nat;
    committed_slots_ : N }.

Record PagedKeyValueCache : Type := mkCache
  { max_batch_size_ : N;
    block_tables_ : list PagedCacheBlockTable;
    block_table_index_ : RequestIndex.RequestIndex;
    block_pool_ : BlockPool.BlockPool;
    window_ring_blocks_ : N;
    window_block_pool_ : BlockPool.BlockPool;
    graph_capture_ : bool;
    max_block_table_columns_ : N }.

Definition Windowed (c : PagedKeyValueCache) : bool := 0 <? window_ring_blocks_ c.

(** What planning asks of the prefix cache: how many retained blocks eviction could
    free, and which of a match's blocks are among them (each once). *)
Class PrefixReclamation (P : Type) : Type := {
  ReclaimableBlocks : P -> N;
  ReclaimableBlockIds : P -> list nat -> list nat;
  ReclaimableBlockIds_sublist : forall p blocks, sublist (ReclaimableBlockIds p blocks) blocks
}.

Definition kMinGraphBlockTableColumns : N := 8.

Fixpoint columns_loop (fuel : nat) (columns max_blocks max_columns : N) : option N :=
  match fuel with
  | O => None
  | S fuel =>
    if columns <? max_blocks then
      if max_columns / 2 <? columns then Some max_columns
      else columns_loop fuel (u64_mul columns 2) max_blocks max_columns
    else Some columns
  end.

(** [size_t] doubles at most 64 times. *)
Definition GetGraphBlockTableColumns (max_blocks max_columns : N) : outcome PlanError N :=
  if max_columns =? 0 then Throw GraphCapacityZero
  else
    match columns_loop 66 (N.min kMinGraphBlockTableColumns max_columns) max_blocks max_columns with
    | Some columns => Ok columns
    | None => Undefined
    end.

Section planner.
Context {P : Type} `{!PrefixReclamation P} (prefix_cache_ : P) (c : PagedKeyValueCache).

Record CacheGrowth : Type := mkGrowth
  { proposed_blocks : N;
    new_blocks : N;
    claimed_retained_blocks : list nat }.

Definition BlocksNeededN (slots : N) : N :=
  N.of_nat (BlocksNeeded (block_pool_ c) (N.to_nat slots)).

Definition committed_slots (entry : RequestStepPlan) (table : option PagedCacheBlockTable) : N :=
  match table with
  | Some t => committed_slots_ t
  | None => match prefix_match entry with Some m => token_count m | None => 0 end
  end.

Definition committed_blocks (entry : RequestStepPlan) (table : option PagedCacheBlockTable) : N :=
  match table with
  | Some t => N.of_nat (length (table_blocks t))
  | None =>
    match prefix_match entry with Some m => N.of_nat (length (match_blocks m)) | None => 0 end
  end.

(** Retained blocks the entry would claim: only paged-only matches contribute. *)
Definition retained (entry : RequestStepPlan) : list nat :=
  match prefix_match entry with
  | Some m =>
    if fixed_state_checkpoint m then [] else ReclaimableBlockIds prefix_cache_ (match_blocks m)
  | None => []
  end.

Definition calculate_growth (charged : gset nat) (entry : RequestStepPlan)
    (table : option PagedCacheBlockTable) : outcome PlanError CacheGrowth :=
  if target_cache_slots entry <? committed_slots entry table then Throw TargetPrecedesBoundary
  else
    let reserved_slots := N.max (whole_sequence_cache_slots entry) (target_cache_slots entry) in
    let claimed := filter (fun b => b ∉ charged) (retained entry) in
    let committed_capacity :=
      u64_mul (committed_blocks entry table) (N.of_nat (block_size_ (block_pool_ c))) in
    let additional_slots :=
      if committed_capacity <? reserved_slots then reserved_slots - committed_capacity else 0 in
    let blocks := BlocksNeededN additional_slots in
    Ok (mkGrowth (u64_add (committed_blocks entry table) blocks) blocks claimed).

Definition permanently_unserviceable (growth : CacheGrowth) : bool :=
  (N.of_nat (pool_capacity_ (block_pool_ c)) <? proposed_blocks growth) ||
  (graph_capture_ c && (max_block_table_columns_ c <? proposed_blocks growth)).

(** The variables of the loop; [selected] is the compacted front of [plan.requests]. *)
Record LoopState : Type := mkLoop
  { planned_blocks : N;
    selected : list RequestStepPlan;
    selected_new_requests : N;
    max_blocks_per_request : N;
    loop_deferred : bool;
    loop_unserviceable : N;
    charged_retained_blocks : gset nat;
    request_ids : RequestIndex.RequestIndex }.

Definition find_table (request : N) : outcome PlanError (option PagedCacheBlockTable) :=
  match Find (block_table_index_ c) request with
  | Some i =>
    match block_tables_ c !! i with Some t => Ok (Some t) | None => Undefined end
  | None => Ok None
  end.

Definition demand_of (growth : CacheGrowth) : N :=
  new_blocks growth + N.of_nat (length (claimed_retained_blocks growth)).

(** The test that defers a serviceable request. *)
Definition must_defer (limit available available_window : N) (st : LoopState)
    (candidate : RequestStepPlan) (growth : CacheGrowth) : bool :=
  (limit <=? N.of_nat (length (selected st))) ||
  (newly_admitted candidate &&
   ((max_batch_size_ c <=? u64_add (N.of_nat (length (block_tables_ c))) (selected_new_requests st)) ||
    (Windowed c &&
     (available_window <? u64_mul (u64_add (selected_new_requests st) 1) (window_ring_blocks_ c))))) ||
  (available <? u64_add (planned_blocks st) (demand_of growth)).

Definition select (st : LoopState) (candidate : RequestStepPlan) (growth : CacheGrowth)
    (ids : RequestIndex.RequestIndex) : LoopState :=
  mkLoop (u64_add (planned_blocks st) (demand_of growth)) (selected st ++ [candidate])
    (if newly_admitted candidate then selected_new_requests st + 1 else selected_new_requests st)
    (N.max (max_blocks_per_request st) (proposed_blocks growth))
    (loop_deferred st) (loop_unserviceable st)
    (charged_retained_blocks st ∪ list_to_set (claimed_retained_blocks growth)) ids.

(** One iteration: the candidate at position [i]. *)
Definition plan_one (limit available available_window : N) (i : nat) (candidate : RequestStepPlan)
    (st : LoopState) : outcome PlanError LoopState :=
  let '(inserted, ids) := RequestIndex.Insert (request_ids st) (request_id candidate) i in
  if negb inserted then Throw DuplicateRequest
  else
    match find_table (request_id candidate) with
    | Ok table =>
      if newly_admitted candidate && bool_decide (is_Some table) then Throw NewAlreadyResident
      else if negb (newly_admitted candidate) && bool_decide (table = None) then
        Throw ResidentNotCommitted
      else
        match calculate_growth (charged_retained_blocks st) candidate table with
        | Ok growth =>
          if permanently_unserviceable growth then
            Ok (mkLoop (planned_blocks st) (selected st) (selected_new_requests st)
                  (max_blocks_per_request st) (loop_deferred st)
                  (if loop_unserviceable st =? 0 then request_id candidate else loop_unserviceable st)
                  (charged_retained_blocks st) ids)
          else if must_defer limit available available_window st candidate growth then
            Ok (mkLoop (planned_blocks st) (selected st) (selected_new_requests st)
                  (max_blocks_per_request st) true (loop_unserviceable st)
                  (charged_retained_blocks st) ids)
          else Ok (select st candidate growth ids)
        | Throw e => Throw e
        | Terminate => Terminate
        | Undefined => Undefined
        end
    | Throw e => Throw e
    | Terminate => Terminate
    | Undefined => Undefined
    end.

Fixpoint plan_loop (limit available available_window : N) (i : nat) (rs : list RequestStepPlan)
    (st : LoopState) : outcome PlanError LoopState :=
  match rs with
  | [] => Ok st
  | r :: rs =>
    match plan_one limit available available_window i r st with
    | Ok st' => plan_loop limit available available_window (S i) rs st'
    | Throw e => Throw e
    | Terminate => Terminate
    | Undefined => Undefined
    end
  end.

Definition planning_result (plan : StepPlan) (st : LoopState) : StepPlanningResult :=
  if negb (length (selected st) =? 0)%nat then
    mkResult true (loop_deferred st) (loop_unserviceable st)
      (mkOutcome Committed (transaction_id plan) 0)
  else if negb (loop_unserviceable st =? 0) then
    mkResult false (loop_deferred st) (loop_unserviceable st)
      (mkOutcome UnserviceableRequest (transaction_id plan) (loop_unserviceable st))
  else if loop_deferred st then
    mkResult false true 0 (mkOutcome CapacityDeferred (transaction_id plan) 0)
  else mkResult false false 0 (mkOutcome NoWork (transaction_id plan) 0).

Definition available_blocks : N :=
  u64_add (N.of_nat (AvailableBlocks (block_pool_ c))) (ReclaimableBlocks prefix_cache_).
Definition available_window_blocks : N :=
  if Windowed c then N.of_nat (AvailableBlocks (window_block_pool_ c)) else 0.

Definition effective_limit (plan : StepPlan) : N :=
  if scheduled_request_limit plan =? 0 then max_batch_size_ c else scheduled_request_limit plan.

Definition initial_loop (ids : RequestIndex.RequestIndex) : LoopState :=
  mkLoop 0 [] 0 0 false 0 ∅ ids.

Definition set_plan (plan : StepPlan) (rs : list RequestStepPlan) (columns : N) : StepPlan :=
  mkPlan (transaction_id plan) rs (scheduled_request_limit plan) (plan_token_count plan) columns
    (fixed_state plan) (graph_capture_eligible plan).

Definition PlanStepResources (plan : StepPlan) : outcome PlanError (StepPlanningResult * StepPlan) :=
  if max_batch_size_ c <? N.of_nat (length (block_tables_ c)) then Throw CommittedExceedBatch
  else if max_batch_size_ c <? effective_limit plan then Throw LimitExceedsBatch
  else
    match make_RequestIndex (N.of_nat (length (requests plan))) with
    | Ok ids =>
      match plan_loop (effective_limit plan) available_blocks available_window_blocks 0
              (requests plan) (initial_loop ids) with
      | Ok st =>
        match (if graph_capture_ c
               then GetGraphBlockTableColumns (max_blocks_per_request st) (max_block_table_columns_ c)
               else Ok (max_blocks_per_request st)) with
        | Ok columns => Ok (planning_result plan st, set_plan plan (selected st) columns)
        | Throw e => Throw e
        | Terminate => Terminate
        | Undefined => Undefined
        end
      | Throw e => Throw e
      | Terminate => Terminate
      | Undefined => Undefined
      end
    | Throw _ => Throw IndexOverflow
    | Terminate => Terminate
    | Undefined => Undefined
    end.
End planner.

(** ** The column buckets *)

Lemma columns_loop_spec fuel k columns max_blocks max_columns :
  columns = N.min kMinGraphBlockTableColumns max_columns * 2 ^ N.of_nat k ->
  0 < max_columns < two64 -> columns <= max_columns -> (65 < fuel + k)%nat ->
  exists r, columns_loop fuel columns max_blocks max_columns = Some r /\
    columns <= r <= max_columns /\ (max_blocks <= max_columns -> max_blocks <= r) /\
    (r = max_columns \/ exists j, r = N.min kMinGraphBlockTableColumns max_columns * 2 ^ N.of_nat j) /\
    (r = columns \/ r < 2 * max_blocks).
Proof.
  revert k columns. induction fuel as [|fuel IH]; intros k columns Hc Hmax Hle Hf.
  { assert (2 ^ 64 <= 2 ^ N.of_nat k) by (apply N.pow_le_mono_r; lia).
    assert (1 <= N.min kMinGraphBlockTableColumns max_columns) by (unfold kMinGraphBlockTableColumns; lia).
    exfalso. unfold two64 in Hmax. nia. }
  simpl. destruct (N.ltb_spec columns max_blocks) as [Hlt|Hge].
  2:{ exists columns. split_and!; [done|lia|lia|lia|right; by exists k|by left]. }
  destruct (N.ltb_spec (max_columns / 2) columns) as [Hhalf|Hhalf].
  - exists max_columns. pose proof (N.mod_lt max_columns 2 ltac:(lia)).
    pose proof (N.div_mod max_columns 2 ltac:(lia)).
    split_and!; [done|lia|lia|lia|by left|right; lia].
  - pose proof (N.Div0.mul_div_le max_columns 2) as Hdiv.
    rewrite u64_mul_small by lia.
    destruct (IH (S k) (columns * 2)) as (r & Hr & Hb & Hcov & Hbucket & Htight); [|done|lia|lia|].
    { rewrite Hc, Nat2N.inj_succ, N.pow_succ_r'. lia. }
    exists r. split_and!; [done|lia|lia|done|done|]. right. destruct Htight; lia.
Qed.

(** The width of a graph-captured block table is a bucket: it covers the blocks
    whenever they fit at all, never exceeds the reserved columns, is the minimum
    width times a power of two or the maximum, and is less than twice what is needed
    once above the minimum; the doubling cannot overflow or run forever. *)
Theorem graph_columns_bucket max_blocks max_columns :
  0 < max_columns < two64 ->
  exists r, GetGraphBlockTableColumns max_blocks max_columns = Ok r /\
    r <= max_columns /\ (max_blocks <= max_columns -> max_blocks <= r) /\
    (r = max_columns \/ exists j, r = N.min kMinGraphBlockTableColumns max_columns * 2 ^ N.of_nat j) /\
    (r <= kMinGraphBlockTableColumns \/ r < 2 * max_blocks).
Proof.
  intros Hmax. unfold GetGraphBlockTableColumns. destruct (N.eqb_spec max_columns 0) as [|_]; [lia|].
  destruct (columns_loop_spec 66 0 (N.min kMinGraphBlockTableColumns max_columns) max_blocks max_columns)
    as (r & -> & Hb & Hcov & Hbucket & Htight); [simpl; lia|done|lia|lia|].
  exists r. split_and!; [done|lia|done|done|]. destruct Htight as [->|?]; [left; lia|by right].
Qed.

Lemma graph_columns_bucket_witness :
  exists r, GetGraphBlockTableColumns 20 100 = Ok r /\
    r <= 100 /\ (20 <= 100 -> 20 <= r) /\
    (r = 100 \/ exists j, r = N.min kMinGraphBlockTableColumns 100 * 2 ^ N.of_nat j) /\
    (r <= kMinGraphBlockTableColumns \/ r < 2 * 20).
Proof. apply (graph_columns_bucket 20 100). unfold two64. lia. Defined.

(** ** What a plan needs *)

Section planner_proofs.
Context {P : Type} `{!PrefixReclamation P} (prefix_cache_ : P) (c : PagedKeyValueCache).

Definition table_of (e : RequestStepPlan) : option PagedCacheBlockTable :=
  Find (block_table_index_ c) (request_id e) ≫= fun i => block_tables_ c !! i.

(** The blocks an entry has to take from the pool, without wrap-around. *)
Definition need (e : RequestStepPlan) : N :=
  BlocksNeededN c (N.max (whole_sequence_cache_slots e) (target_cache_slots e) -
    committed_blocks e (table_of e) * N.of_nat (block_size_ (block_pool_ c))).

Definition own_blocks (e : RequestStepPlan) : N := committed_blocks e (table_of e) + need e.

Definition serviceable (e : RequestStepPlan) : Prop :=
  own_blocks e <= N.of_nat (pool_capacity_ (block_pool_ c)) /\
  (graph_capture_ c = true -> own_blocks e <= max_block_table_columns_ c).

(** The retained blocks a selection protects from eviction. *)
Definition claims (es : list RequestStepPlan) : gset nat :=
  ⋃ ((fun e => list_to_set (retained prefix_cache_ e)) <$> es).

Definition new_count (es : list RequestStepPlan) : N :=
  N.of_nat (length (filter (fun e => newly_admitted e = true) es)).

(** The cache a plan is made against: its parts are consistent and its sizes are far
    from the limits of [size_t]. *)
Record cache_ok : Prop := mk_cache_ok
  { co_block : (0 < block_size_ (block_pool_ c))%nat;
    co_capacity : N.of_nat (pool_capacity_ (block_pool_ c)) * N.of_nat (block_size_ (block_pool_ c)) < 2 ^ 62;
    co_available : N.of_nat (AvailableBlocks (block_pool_ c)) + ReclaimableBlocks prefix_cache_ < 2 ^ 62;
    co_tables : forall r i, Find (block_table_index_ c) r = Some i ->
      exists t, block_tables_ c !! i = Some t /\
        (length (table_blocks t) <= pool_capacity_ (block_pool_ c))%nat;
    co_batch : N.of_nat (length (block_tables_ c)) <= max_batch_size_ c < 2 ^ 31;
    co_window : window_ring_blocks_ c < 2 ^ 31;
    co_columns : graph_capture_ c = true -> 0 < max_block_table_columns_ c < two64 }.

Record entry_ok (e : RequestStepPlan) : Prop := mk_entry_ok
  { eo_id : request_id e <> 0;
    eo_member : newly_admitted e = true <-> table_of e = None;
    eo_target : committed_slots e (table_of e) <= target_cache_slots e;
    eo_slots : target_cache_slots e < 2 ^ 62 /\ whole_sequence_cache_slots e < 2 ^ 62;
    eo_match : forall m, prefix_match e = Some m ->
      NoDup (match_blocks m) /\ (length (match_blocks m) <= pool_capacity_ (block_pool_ c))%nat }.

Record plan_ok (plan : StepPlan) : Prop := mk_plan_ok
  { po_entries : Forall entry_ok (requests plan);
    po_unique : NoDup (request_id <$> requests plan);
    po_length : N.of_nat (length (requests plan)) < 2 ^ 62;
    po_limit : scheduled_request_limit plan <= max_batch_size_ c }.

Lemma blocks_needed_le slots : cache_ok -> BlocksNeededN c slots <= slots.
Proof.
  intros Hc. unfold BlocksNeededN, BlocksNeeded. pose proof (co_block Hc) as Hb.
  set (bs := block_size_ (block_pool_ c)) in *.
  enough (N.to_nat slots / bs + (if (N.to_nat slots mod bs =? 0)%nat then 0 else 1) <= N.to_nat slots)%nat by lia.
  pose proof (Nat.div_mod (N.to_nat slots) bs ltac:(lia)) as Hd.
  destruct (Nat.eqb_spec (N.to_nat slots mod bs) 0); nia.
Qed.

Lemma committed_blocks_le e :
  cache_ok -> entry_ok e ->
  committed_blocks e (table_of e) <= N.of_nat (pool_capacity_ (block_pool_ c)).
Proof.
  intros Hc He. unfold committed_blocks, table_of.
  destruct (Find (block_table_index_ c) (request_id e)) as [i|] eqn:Hf; simpl.
  - destruct (co_tables Hc _ _ Hf) as (t & -> & Ht). lia.
  - destruct (prefix_match e) as [m|] eqn:Hm; [|lia]. destruct (eo_match _ He m Hm). lia.
Qed.

Lemma find_table_ok e : cache_ok -> find_table c (request_id e) = Ok (table_of e).
Proof.
  intros Hc. unfold find_table, table_of.
  destruct (Find (block_table_index_ c) (request_id e)) as [i|] eqn:Hf; simpl; [|done].
  by destruct (co_tables Hc _ _ Hf) as (t & -> & Ht).
Qed.

Lemma need_bound e : cache_ok -> entry_ok e -> need e < 2 ^ 62.
Proof.
  intros Hc He. pose proof (eo_slots _ He).
  eapply N.le_lt_trans; [apply (blocks_needed_le _ Hc)|]. lia.
Qed.

Lemma growth_ok charged e :
  cache_ok -> entry_ok e ->
  calculate_growth prefix_cache_ c charged e (table_of e) =
  Ok (mkGrowth (own_blocks e) (need e) (filter (fun b => b ∉ charged) (retained prefix_cache_ e))).
Proof.
  intros Hc He. unfold calculate_growth.
  destruct (N.ltb_spec (target_cache_slots e) (committed_slots e (table_of e))) as [Hlt|_].
  { pose proof (eo_target _ He). lia. }
  pose proof (committed_blocks_le e Hc He) as Hcb. pose proof (co_capacity Hc) as Hcap.
  pose proof (need_bound e Hc He) as Hneed.
  assert (committed_blocks e (table_of e) * N.of_nat (block_size_ (block_pool_ c)) < 2 ^ 62) as Hmul.
  { eapply N.le_lt_trans; [|exact Hcap]. by apply N.mul_le_mono_r. }
  rewrite u64_mul_small by (unfold two64; lia).
  set (cc := committed_blocks e (table_of e) * N.of_nat (block_size_ (block_pool_ c))) in *.
  assert ((if cc <? N.max (whole_sequence_cache_slots e) (target_cache_slots e)
     then N.max (whole_sequence_cache_slots e) (target_cache_slots e) - cc else 0) =
     N.max (whole_sequence_cache_slots e) (target_cache_slots e) - cc) as ->.
  { destruct (N.ltb_spec cc (N.max (whole_sequence_cache_slots e) (target_cache_slots e))); lia. }
  change (BlocksNeededN c (_ - cc)) with (need e). rewrite u64_add_small; [done|].
  pose proof (co_block Hc). assert (N.of_nat (pool_capacity_ (block_pool_ c)) < 2 ^ 62) by nia.
  unfold two64. lia.
Qed.

#[local] Instance serviceable_dec e : Decision (serviceable e).
Proof. unfold serviceable. apply _. Defined.

Lemma unserviceable_spec e l :
  permanently_unserviceable c (mkGrowth (own_blocks e) (need e) l) = true <-> ~ serviceable e.
Proof.
  unfold permanently_unserviceable, serviceable. simpl.
  destruct (N.ltb_spec (N.of_nat (pool_capacity_ (block_pool_ c))) (own_blocks e)),
    (graph_capture_ c), (N.ltb_spec (max_block_table_columns_ c) (own_blocks e)); simpl;
    split; try done; intros Hx; try (exfalso; apply Hx; split; [lia|]; intros; (done || lia)); intros [H1 H2];
    try lia; specialize (H2 eq_refl); lia.
Qed.

(** *** The loop *)

Lemma insert_fresh r k v :
  index_wf r -> k <> 0 -> contents r !! k = None -> (size (contents r) < max_entries_ r)%nat ->
  exists r', RequestIndex.Insert r k v = (true, r') /\ index_wf r' /\
    contents r' = <[k := v]> (contents r) /\ max_entries_ r' = max_entries_ r.
Proof.
  intros Hwf Hk Hc Hs. destruct (step_refines (OpInsert k v) r Hwf) as (r' & Himpl & Hwf' & Hc' & Hm).
  simpl in *. destruct (N.eqb_spec k 0); [done|]. rewrite bool_decide_true in * by done.
  rewrite (proj2 (Nat.ltb_lt _ _) Hs) in *. simpl in *.
  destruct (RequestIndex.Insert r k v) as [b r0]. injection Himpl as -> ->. by exists r'.
Qed.

(** Why a request cannot be served even by an otherwise empty step. *)
Definition blocked_alone (limit : N) (e : RequestStepPlan) : Prop :=
  limit = 0 \/
  (newly_admitted e = true /\
   (max_batch_size_ c = N.of_nat (length (block_tables_ c)) \/
    (Windowed c = true /\ available_window_blocks c < window_ring_blocks_ c))) \/
  available_blocks prefix_cache_ c < need e + N.of_nat (length (retained prefix_cache_ e)).

#[local] Instance blocked_alone_dec limit e : Decision (blocked_alone limit e).
Proof. unfold blocked_alone. apply _. Defined.

Record loop_inv (limit : N) (n : nat) (seen : list RequestStepPlan) (st : LoopState) : Prop := mk_loop_inv
  { lv_sub : sublist (selected st) seen;
    lv_ids : index_wf (request_ids st);
    lv_keys : dom (contents (request_ids st)) = list_to_set (request_id <$> seen);
    lv_room : max_entries_ (request_ids st) = n;
    lv_charged : charged_retained_blocks st = claims (selected st);
    lv_planned : planned_blocks st = total (need <$> selected st) + N.of_nat (size (charged_retained_blocks st));
    lv_fits : planned_blocks st <= available_blocks prefix_cache_ c;
    lv_limit : N.of_nat (length (selected st)) <= limit;
    lv_new : selected_new_requests st = new_count (selected st);
    lv_batch : N.of_nat (length (block_tables_ c)) + selected_new_requests st <= max_batch_size_ c;
    lv_window : Windowed c = true ->
      selected_new_requests st * window_ring_blocks_ c <= available_window_blocks c;
    lv_serv : Forall (fun e => serviceable e /\ own_blocks e <= max_blocks_per_request st) (selected st);
    lv_max : max_blocks_per_request st = 0 \/ exists e, e ∈ selected st /\ max_blocks_per_request st = own_blocks e;
    lv_all : loop_deferred st = false -> loop_unserviceable st = 0 -> selected st = seen;
    lv_honest : selected st = [] -> Forall (fun e => ~ serviceable e \/ blocked_alone limit e) seen;
    lv_unserv : loop_unserviceable st <> 0 ->
      exists e, e ∈ seen /\ request_id e = loop_unserviceable st /\ ~ serviceable e }.

Lemma retained_nodup e : entry_ok e -> NoDup (retained prefix_cache_ e).
Proof.
  intros He. unfold retained. destruct (prefix_match e) as [m|] eqn:Hm; [|constructor].
  destruct (fixed_state_checkpoint m); [constructor|].
  destruct (eo_match _ He m Hm) as [Hnd _]. eapply sublist_NoDup; [exact Hnd|].
  apply ReclaimableBlockIds_sublist.
Qed.

Lemma retained_le e : cache_ok -> entry_ok e ->
  (length (retained prefix_cache_ e) <= pool_capacity_ (block_pool_ c))%nat.
Proof.
  intros Hc He. unfold retained. destruct (prefix_match e) as [m|] eqn:Hm; [|simpl; lia].
  destruct (fixed_state_checkpoint m); [simpl; lia|].
  destruct (eo_match _ He m Hm) as [_ Hle]. etrans; [|exact Hle].
  apply sublist_length, ReclaimableBlockIds_sublist.
Qed.

(** Claiming a block twice charges it once. *)
Lemma charge_size (charged : gset nat) l :
  NoDup l ->
  size (charged ∪ list_to_set (filter (fun b => b ∉ charged) l)) =
    (size charged + length (filter (fun b => b ∉ charged) l))%nat /\
  charged ∪ list_to_set (filter (fun b => b ∉ charged) l) = charged ∪ list_to_set l.
Proof.
  intros Hnd. split.
  - rewrite size_union, size_list_to_set; [done|by apply NoDup_filter|].
    intros b Hb [Hn _]%elem_of_list_to_set%list_elem_of_filter. done.
  - apply set_eq. intros b. rewrite !elem_of_union, !elem_of_list_to_set, list_elem_of_filter.
    destruct (decide (b ∈ charged)); naive_solver.
Qed.

Lemma claims_snoc es e : claims (es ++ [e]) = claims es ∪ list_to_set (retained prefix_cache_ e).
Proof.
  unfold claims. rewrite fmap_app, union_list_app_L. simpl. set_solver.
Qed.

Lemma total_snoc l x : total (l ++ [x]) = total l + x.
Proof. induction l as [|y l IH]; simpl; unfold total in *; simpl; lia. Qed.

Lemma new_count_snoc es e : new_count (es ++ [e]) = new_count es + if newly_admitted e then 1 else 0.
Proof.
  unfold new_count. rewrite filter_app, length_app, filter_cons, filter_nil.
  destruct (newly_admitted e); simpl; lia.
Qed.

(** Remembering the id of the next request. *)
Lemma next_id limit n seen st e :
  loop_inv limit n seen st -> entry_ok e -> request_id e ∉ (request_id <$> seen) -> (length seen < n)%nat ->
  exists ids, RequestIndex.Insert (request_ids st) (request_id e) (length seen) = (true, ids) /\
    index_wf ids /\ dom (contents ids) = list_to_set (request_id <$> (seen ++ [e])) /\ max_entries_ ids = n.
Proof.
  intros Hl He Hfresh Hroom.
  assert (contents (request_ids st) !! request_id e = None) as Hnone.
  { apply not_elem_of_dom. rewrite (lv_keys _ _ _ _ Hl). by rewrite elem_of_list_to_set. }
  destruct (insert_fresh (request_ids st) (request_id e) (length seen)) as (ids & Hins & Hwf & Hcon & Hmax).
  - apply (lv_ids _ _ _ _ Hl).
  - apply (eo_id _ He).
  - exact Hnone.
  - rewrite <- size_dom, (lv_keys _ _ _ _ Hl), (lv_room _ _ _ _ Hl).
    eapply Nat.le_lt_trans; [|exact Hroom]. rewrite <- (length_fmap request_id seen).
    apply size_list_to_set_le.
  - exists ids. split_and!; [done..| |].
    + rewrite Hcon, dom_insert_L, (lv_keys _ _ _ _ Hl), fmap_app, list_to_set_app_L. simpl. set_solver.
    + by rewrite Hmax, (lv_room _ _ _ _ Hl).
Qed.

(** The arithmetic of the deferral test, without wrap-around. *)
Lemma must_defer_spec limit st seen n e (charged : gset nat) :
  cache_ok -> entry_ok e -> loop_inv limit n seen st ->
  let g := mkGrowth (own_blocks e) (need e) (filter (fun b => b ∉ charged) (retained prefix_cache_ e)) in
  must_defer c limit (available_blocks prefix_cache_ c) (available_window_blocks c) st e g = false <->
  N.of_nat (length (selected st)) < limit /\
  (newly_admitted e = true ->
     N.of_nat (length (block_tables_ c)) + selected_new_requests st < max_batch_size_ c /\
     (Windowed c = true ->
        (selected_new_requests st + 1) * window_ring_blocks_ c <= available_window_blocks c)) /\
  planned_blocks st + demand_of g <= available_blocks prefix_cache_ c /\
  u64_add (planned_blocks st) (demand_of g) = planned_blocks st + demand_of g.
Proof.
  intros Hc He Hl g. pose proof (need_bound e Hc He) as Hneed.
  pose proof (retained_le e Hc He) as Hret. pose proof (lv_fits _ _ _ _ Hl) as Hfits.
  pose proof (lv_batch _ _ _ _ Hl) as Hb. pose proof (co_batch Hc) as Hbatch. pose proof (co_window Hc) as Hwin.
  pose proof (co_capacity Hc) as Hcap. pose proof (co_block Hc) as Hblk. pose proof (co_available Hc) as Hav.
  assert (length (filter (fun b => b ∉ charged) (retained prefix_cache_ e)) <= length (retained prefix_cache_ e))%nat
    by apply length_filter.
  assert (N.of_nat (pool_capacity_ (block_pool_ c)) < 2 ^ 62) by nia.
  assert (available_blocks prefix_cache_ c < 2 ^ 62) as Hav2.
  { unfold available_blocks. rewrite u64_add_small by (unfold two64; lia). done. }
  assert (u64_add (planned_blocks st) (demand_of g) = planned_blocks st + demand_of g) as Hadd.
  { apply u64_add_small. unfold demand_of, g, two64. simpl. lia. }
  unfold must_defer. rewrite Hadd.
  rewrite (u64_add_small (N.of_nat (length (block_tables_ c)))) by (unfold two64; lia).
  rewrite (u64_add_small (selected_new_requests st)) by (unfold two64; lia).
  rewrite u64_mul_small by (unfold two64; nia).
  set (w := (selected_new_requests st + 1) * window_ring_blocks_ c).
  rewrite !orb_false_iff, N.leb_gt, N.ltb_ge, andb_false_iff, orb_false_iff, N.leb_gt, andb_false_iff, N.ltb_ge.
  destruct (newly_admitted e), (Windowed c); naive_solver.
Qed.

(** A request that nothing blocks on its own fits the empty step. *)
Lemma not_blocked limit st seen n e :
  cache_ok -> entry_ok e -> loop_inv limit n seen st -> selected st = [] -> ~ blocked_alone limit e ->
  let g := mkGrowth (own_blocks e) (need e)
    (filter (fun b => b ∉ charged_retained_blocks st) (retained prefix_cache_ e)) in
  N.of_nat (length (selected st)) < limit /\
  (newly_admitted e = true ->
     N.of_nat (length (block_tables_ c)) + selected_new_requests st < max_batch_size_ c /\
     (Windowed c = true ->
        (selected_new_requests st + 1) * window_ring_blocks_ c <= available_window_blocks c)) /\
  planned_blocks st + demand_of g <= available_blocks prefix_cache_ c /\
  u64_add (planned_blocks st) (demand_of g) = planned_blocks st + demand_of g.
Proof.
  intros Hc He Hl Hs Hn g. pose proof (co_batch Hc) as Hbatch.
  assert (charged_retained_blocks st = ∅) as Hch by (rewrite (lv_charged _ _ _ _ Hl), Hs; done).
  assert (planned_blocks st = 0) as Hp.
  { rewrite (lv_planned _ _ _ _ Hl), Hs, Hch, size_empty. done. }
  assert (selected_new_requests st = 0) as Hsn by (rewrite (lv_new _ _ _ _ Hl), Hs; done).
  assert (demand_of g <= need e + N.of_nat (length (retained prefix_cache_ e))) as Hdem.
  { unfold demand_of, g. simpl.
    pose proof (length_filter (fun b => b ∉ charged_retained_blocks st) (retained prefix_cache_ e)). lia. }
  assert (available_blocks prefix_cache_ c < two64) as Hav by (apply N.mod_lt; done).
  unfold blocked_alone in Hn. rewrite Hp, Hs, Hsn. simpl.
  assert (0 + demand_of g <= available_blocks prefix_cache_ c) by (apply N.nlt_ge; intros ?; apply Hn; right; right; lia).
  split_and!; [apply N.nle_gt; intros ?; apply Hn; left; lia| |done|apply u64_add_small; lia].
  intros Hnew. split.
  - apply N.nle_gt. intros ?. apply Hn. right. left. split; [done|]. left. lia.
  - intros Hw. apply N.nlt_ge. intros ?. apply Hn. right. left. split; [done|]. right. split; [done|lia].
Qed.

(** Selecting keeps the invariant. *)
Lemma select_inv limit n seen st e ids :
  cache_ok -> entry_ok e -> loop_inv limit n seen st -> serviceable e ->
  index_wf ids -> dom (contents ids) = list_to_set (request_id <$> (seen ++ [e])) -> max_entries_ ids = n ->
  let g := mkGrowth (own_blocks e) (need e)
    (filter (fun b => b ∉ charged_retained_blocks st) (retained prefix_cache_ e)) in
  N.of_nat (length (selected st)) < limit ->
  (newly_admitted e = true ->
     N.of_nat (length (block_tables_ c)) + selected_new_requests st < max_batch_size_ c /\
     (Windowed c = true ->
        (selected_new_requests st + 1) * window_ring_blocks_ c <= available_window_blocks c)) ->
  planned_blocks st + demand_of g <= available_blocks prefix_cache_ c ->
  u64_add (planned_blocks st) (demand_of g) = planned_blocks st + demand_of g ->
  loop_inv limit n (seen ++ [e]) (select st e g ids).
Proof.
  intros Hc He Hl Hserv Hwf Hdom Hmax g Hlim Hnew Hfit Hadd.
  destruct (charge_size (charged_retained_blocks st) (retained prefix_cache_ e) (retained_nodup e He)) as [Hsize Hset].
  unfold select. rewrite Hadd. destruct Hl. constructor; simpl; try done.
  - by apply sublist_app.
  - rewrite Hset, lv_charged0, claims_snoc. done.
  - rewrite Hsize, lv_planned0, fmap_app. simpl. rewrite total_snoc. unfold demand_of. simpl. lia.
  - rewrite length_app. simpl. lia.
  - rewrite new_count_snoc, lv_new0. destruct (newly_admitted e); lia.
  - destruct (newly_admitted e); [|done]. destruct (Hnew eq_refl). lia.
  - intros Hw. destruct (newly_admitted e); [|auto]. destruct (Hnew eq_refl) as [_ Hx]. auto.
  - apply Forall_app. split; [|constructor; [|constructor]]; [|split; [done|lia]].
    eapply Forall_impl; [exact lv_serv0|]. simpl. intros e' [? ?]. split; [done|lia].
  - right. destruct (N.max_spec (max_blocks_per_request st) (own_blocks e)) as [[_ ->]|[Hle ->]].
    + exists e. split; [|done]. apply elem_of_app. right. by left.
    + destruct lv_max0 as [Hz|(e' & He' & Hm)].
      * exists e. split; [apply elem_of_app; right; by left|]. lia.
      * exists e'. split; [|done]. apply elem_of_app. by left.
  - intros Hd Hu. by rewrite (lv_all0 Hd Hu).
  - intros Hs. by destruct (selected st).
  - intros Hz. destruct (lv_unserv0 Hz) as (e' & He' & Hid & Hns). exists e'. split_and!; [|done..]. apply elem_of_app. by left.
Qed.

Lemma plan_one_spec limit n seen st e :
  cache_ok -> entry_ok e -> request_id e ∉ (request_id <$> seen) -> (length seen < n)%nat ->
  loop_inv limit n seen st ->
  exists st', plan_one prefix_cache_ c limit (available_blocks prefix_cache_ c) (available_window_blocks c)
                (length seen) e st = Ok st' /\ loop_inv limit n (seen ++ [e]) st'.
Proof.
  intros Hc He Hfresh Hroom Hl. destruct (next_id limit n seen st e Hl He Hfresh Hroom) as (ids & Hins & Hwf & Hdom & Hmax).
  unfold plan_one. rewrite Hins. simpl. rewrite (find_table_ok e Hc).
  assert (newly_admitted e && bool_decide (is_Some (table_of e)) = false) as ->.
  { destruct (newly_admitted e) eqn:Hn; [|done]. rewrite (proj1 (eo_member _ He) Hn).
    apply bool_decide_false. by intros [? ?]. }
  assert (negb (newly_admitted e) && bool_decide (table_of e = None) = false) as ->.
  { destruct (newly_admitted e) eqn:Hn; [done|]. apply bool_decide_false. intros Ht.
    rewrite <- (eo_member _ He) in Ht. congruence. }
  rewrite (growth_ok (charged_retained_blocks st) e Hc He).
  set (g := mkGrowth (own_blocks e) (need e)
    (filter (fun b => b ∉ charged_retained_blocks st) (retained prefix_cache_ e))).
  assert (permanently_unserviceable c g = true <-> ~ serviceable e) as Huns by apply unserviceable_spec.
  destruct (permanently_unserviceable c g) eqn:Hperm.
  - (* permanently unserviceable *)
    eexists. split; [reflexivity|]. destruct Hl. constructor; simpl; try done.
    + by apply sublist_inserts_r.
    + intros Hd Hu. destruct (N.eqb_spec (loop_unserviceable st) 0); [by destruct (eo_id _ He)|done].
    + intros Hs. apply Forall_app. split; [auto|]. constructor; [|constructor]. left. by apply Huns.
    + intros _. destruct (N.eqb_spec (loop_unserviceable st) 0) as [Hz|Hz].
      * exists e. split_and!; [apply elem_of_app; right; by left|done|by apply Huns].
      * destruct (lv_unserv0 Hz) as (e' & He' & Hid & Hns). exists e'. split_and!; [|done..]. apply elem_of_app. by left.
  - assert (serviceable e) as Hserv.
    { destruct (decide (serviceable e)) as [?|Hn]; [done|]. apply Huns in Hn. congruence. }
    pose proof (must_defer_spec limit st seen n e (charged_retained_blocks st) Hc He Hl) as Hdef. fold g in Hdef.
    destruct (must_defer c limit (available_blocks prefix_cache_ c) (available_window_blocks c) st e g) eqn:Hd.
    + (* deferred *)
      eexists. split; [reflexivity|]. assert (selected st = [] -> blocked_alone limit e) as Hblock.
      { intros Hs. destruct (decide (blocked_alone limit e)) as [?|Hn]; [done|].
        apply not_false_iff_true in Hd. destruct Hd. apply Hdef. exact (not_blocked limit st seen n e Hc He Hl Hs Hn). }
      destruct Hl. constructor; simpl; try done.
      * by apply sublist_inserts_r.
      * intros Hs. apply Forall_app. split; [auto|]. constructor; [|constructor]. right. auto.
      * intros Hz. destruct (lv_unserv0 Hz) as (e' & He' & Hid & Hns). exists e'. split_and!; [|done..]. apply elem_of_app. by left.
    + (* selected *)
      destruct (proj1 Hdef Hd) as (Hlim & Hnew & Hfit & Hadd). eexists. split; [reflexivity|].
      by apply select_inv.
Qed.

Lemma plan_loop_spec limit n rs seen st :
  cache_ok -> Forall entry_ok rs -> NoDup (request_id <$> (seen ++ rs)) -> (length seen + length rs <= n)%nat ->
  loop_inv limit n seen st ->
  exists st', plan_loop prefix_cache_ c limit (available_blocks prefix_cache_ c) (available_window_blocks c)
                (length seen) rs st = Ok st' /\ loop_inv limit n (seen ++ rs) st'.
Proof.
  intros Hc. revert seen st. induction rs as [|e rs IH]; intros seen st Hok Hnd Hn Hl; simpl.
  { exists st. by rewrite app_nil_r. }
  apply Forall_cons in Hok as [He Hok]. simpl in Hn.
  assert (request_id e ∉ (request_id <$> seen)) as Hfresh.
  { rewrite fmap_app in Hnd. apply NoDup_app in Hnd as (_ & Hdis & _). intros Hin.
    apply (Hdis _ Hin). rewrite fmap_cons. by left. }
  destruct (plan_one_spec limit n seen st e Hc He Hfresh ltac:(lia) Hl) as (st1 & -> & Hl1).
  replace (S (length seen)) with (length (seen ++ [e])) by (rewrite length_app; simpl; lia).
  replace (seen ++ e :: rs) with ((seen ++ [e]) ++ rs) in * by (by rewrite <- (assoc_L (++))).
  apply IH; [done|done| |done]. rewrite length_app. simpl. lia.
Qed.

Lemma initial_inv limit n ids :
  cache_ok -> index_wf ids -> contents ids = ∅ -> max_entries_ ids = n ->
  loop_inv limit n [] (initial_loop ids).
Proof.
  intros Hc Hwf Hcon Hmax. pose proof (co_batch Hc). constructor; simpl; try done; try lia.
  by rewrite Hcon, dom_empty_L.
Qed.

(** Planning a consistent plan succeeds and ends in the loop invariant. *)
Lemma planning_succeeds plan :
  cache_ok -> plan_ok plan ->
  exists st columns, PlanStepResources prefix_cache_ c plan = Ok (planning_result plan st, set_plan plan (selected st) columns) /\
    loop_inv (effective_limit c plan) (length (requests plan)) (requests plan) st /\
    Forall (fun e => own_blocks e <= columns) (selected st) /\
    (graph_capture_ c = true -> columns <= max_block_table_columns_ c).
Proof.
  intros Hc [Hent Hnd Hlen Hlim]. unfold PlanStepResources. pose proof (co_batch Hc) as Hb.
  destruct (N.ltb_spec (max_batch_size_ c) (N.of_nat (length (block_tables_ c)))) as [|_]; [lia|].
  assert (effective_limit c plan <= max_batch_size_ c) as Heff.
  { unfold effective_limit. destruct (N.eqb_spec (scheduled_request_limit plan) 0); lia. }
  destruct (N.ltb_spec (max_batch_size_ c) (effective_limit c plan)) as [|_]; [lia|].
  destruct (make_spec _ Hlen) as (ids & -> & Hwf & Hcon & Hmax). rewrite Nat2N.id in Hmax.
  destruct (plan_loop_spec (effective_limit c plan) (length (requests plan)) (requests plan) [] (initial_loop ids))
    as (st & Hrun & Hl); [done|done|done|simpl; lia|by apply initial_inv|].
  simpl in Hrun, Hl. rewrite Hrun.
  assert (Forall (fun e => own_blocks e <= max_blocks_per_request st) (selected st)) as Hmx.
  { eapply Forall_impl; [exact (lv_serv _ _ _ _ Hl)|]. by intros e [_ ?]. }
  destruct (graph_capture_ c) eqn:Hg.
  - pose proof (co_columns Hc Hg) as Hcol. unfold GetGraphBlockTableColumns.
    destruct (N.eqb_spec (max_block_table_columns_ c) 0) as [|_]; [lia|].
    destruct (columns_loop_spec 66 0 (N.min kMinGraphBlockTableColumns (max_block_table_columns_ c))
      (max_blocks_per_request st) (max_block_table_columns_ c)) as (r & -> & Hr & Hcov & _); [simpl; lia|done|lia|lia|].
    exists st, r. split_and!; [done..| |lia]. eapply Forall_impl; [exact Hmx|]. simpl. intros e He.
    etrans; [exact He|]. apply Hcov. destruct (lv_max _ _ _ _ Hl) as [->|(e' & He' & ->)]; [lia|].
    destruct (proj1 (Forall_forall _ _) (lv_serv _ _ _ _ Hl) e' He') as [[_ Hs] _]. auto.
  - exists st, (max_blocks_per_request st). done.
Qed.

(** C20: A planned step fits.  For a consistent cache and plan, [PlanStepResources]
    never throws, and the requests it selects keep their order, respect the request
    limit and the batch size, need no more ring blocks than the window pool has, and
    together need no more blocks than are free or reclaimable, where every retained
    block that a selected match protects from eviction is charged exactly once; each
    fits the pool, and the block table is wide enough for all of them. *)
Theorem paged_plan_fits plan :
  cache_ok -> plan_ok plan ->
  exists res plan', PlanStepResources prefix_cache_ c plan = Ok (res, plan') /\
    let sel := requests plan' in
    sublist sel (requests plan) /\
    N.of_nat (length sel) <= effective_limit c plan /\
    N.of_nat (length (block_tables_ c)) + new_count sel <= max_batch_size_ c /\
    (Windowed c = true ->
       new_count sel * window_ring_blocks_ c <= N.of_nat (AvailableBlocks (window_block_pool_ c))) /\
    total (need <$> sel) + N.of_nat (size (claims sel)) <=
      N.of_nat (AvailableBlocks (block_pool_ c)) + ReclaimableBlocks prefix_cache_ /\
    Forall serviceable sel /\
    Forall (fun e => own_blocks e <= proposed_block_table_columns plan') sel /\
    (graph_capture_ c = true -> proposed_block_table_columns plan' <= max_block_table_columns_ c).
Proof.
  intros Hc Hp. destruct (planning_succeeds plan Hc Hp) as (st & columns & -> & Hl & Hcols & Hg).
  eexists _, _. split; [reflexivity|]. simpl. pose proof (co_available Hc) as Hav. destruct Hl.
  split_and!; try done.
  - by rewrite <- lv_new0.
  - intros Hw. specialize (lv_window0 Hw). unfold available_window_blocks in lv_window0.
    rewrite Hw, lv_new0 in lv_window0. done.
  - rewrite <- lv_charged0, <- lv_planned0. etrans; [exact lv_fits0|]. unfold available_blocks.
    rewrite u64_add_small by (unfold two64; lia). done.
  - eapply Forall_impl; [exact lv_serv0|]. by intros e [? _].
Qed.

(** A planning verdict is honest.  The step is executable exactly when something
    was selected; when neither deferral nor an unserviceable request is reported,
    everything was selected; a reported unserviceable request is one of the plan that
    the pool or the captured table could never hold; and when nothing at all is
    selected, every request is unserviceable or would not fit even alone, so planning
    never starves a step by its order; the outcome kind says which case it is. *)
Theorem paged_plan_honest plan :
  cache_ok -> plan_ok plan ->
  exists res plan', PlanStepResources prefix_cache_ c plan = Ok (res, plan') /\
    (executable res = true <-> requests plan' <> []) /\
    (capacity_deferred res = false -> unserviceable_request_id res = 0 -> requests plan' = requests plan) /\
    (unserviceable_request_id res <> 0 ->
       exists e, e ∈ requests plan /\ request_id e = unserviceable_request_id res /\ ~ serviceable e) /\
    (requests plan' = [] ->
       Forall (fun e => ~ serviceable e \/ blocked_alone (effective_limit c plan) e) (requests plan)) /\
    (kind (planning_outcome res) =
       if executable res then Committed
       else if negb (unserviceable_request_id res =? 0) then UnserviceableRequest
       else if capacity_deferred res then CapacityDeferred else NoWork) /\
    (kind (planning_outcome res) = NoWork -> requests plan = []).
Proof.
  intros Hc Hp. destruct (planning_succeeds plan Hc Hp) as (st & columns & -> & Hl & Hcols & Hg).
  eexists _, _. split; [reflexivity|]. simpl. destruct Hl. unfold planning_result.
  destruct (Nat.eqb_spec (length (selected st)) 0) as [Hz|Hz]; simpl.
  - apply nil_length_inv in Hz. rewrite Hz in *.
    destruct (N.eqb_spec (loop_unserviceable st) 0) as [Hu|Hu]; simpl.
    + destruct (loop_deferred st) eqn:Hd; simpl; naive_solver.
    + destruct (N.eqb_spec (loop_unserviceable st) 0); [done|]. simpl. naive_solver.
  - assert (selected st <> []) by (intros Heq; by rewrite Heq in Hz). naive_solver.
Qed.
End planner_proofs.

(** ** A concrete cache: eight blocks of four slots, one resident request *)

#[local] Instance no_prefix_cache : PrefixReclamation unit := {
  ReclaimableBlocks _ := 0;
  ReclaimableBlockIds _ _ := [];
  ReclaimableBlockIds_sublist _ blocks := sublist_nil_l blocks
}.

Definition sample_table_index : RequestIndex.RequestIndex :=
  (RequestIndex.Insert (mkIndex (replicate 8 empty_entry) 3 0) 16 0%nat).2.

Definition sample_cache : PagedKeyValueCache :=
  mkCache 3 [mkTable 16 [0%nat] 3] sample_table_index (make_BlockPool 4 8) 0 (make_BlockPool 4 0) false 0.

(** The resident decodes one token; of two prompts only the first fits. *)
Definition sample_plan : StepPlan :=
  mkPlan 7
    [mkStepEntry 16 4 1 0 0 0 4 4 false false 0 None;
     mkStepEntry 24 20 1 0 0 0 1 20 true true 0 None;
     mkStepEntry 32 20 1 0 0 0 1 20 true true 0 None]
    3 0 0 no_fixed_state false.

Lemma sample_find r i : Find sample_table_index r = Some i -> r = 16 /\ i = 0%nat.
Proof.
  assert (index_wf (mkIndex (replicate 8 empty_entry) 3 0)) as Hwf by (apply (empty_table_wf 3 3); simpl; lia).
  destruct (insert_fresh _ 16 0%nat Hwf ltac:(done) eq_refl ltac:(vm_compute; lia)) as (r' & Hins & Hwf' & Hcon & _).
  unfold sample_table_index. rewrite Hins. simpl. rewrite (Find_contents r' r Hwf'), Hcon.
  rewrite (empty_table_contents 8 3), lookup_insert_Some, lookup_empty. naive_solver.
Qed.

Lemma sample_cache_ok : cache_ok tt sample_cache.
Proof.
  constructor.
  - vm_compute. lia.
  - vm_compute. done.
  - vm_compute. done.
  - intros r i [-> ->]%sample_find. eexists. split; [reflexivity|]. simpl. lia.
  - vm_compute. done.
  - vm_compute. done.
  - done.
Qed.

Lemma sample_plan_ok : plan_ok sample_cache sample_plan.
Proof.
  constructor; [|by vm_compute; repeat (constructor; [set_solver|]); constructor|vm_compute; done|vm_compute; done].
  repeat constructor; simpl; try done.
Qed.

Lemma paged_plan_fits_witness :
  exists res plan', PlanStepResources tt sample_cache sample_plan = Ok (res, plan') /\
    let sel := requests plan' in
    sublist sel (requests sample_plan) /\
    N.of_nat (length sel) <= effective_limit sample_cache sample_plan /\
    N.of_nat (length (block_tables_ sample_cache)) + new_count sel <= max_batch_size_ sample_cache /\
    (Windowed sample_cache = true ->
       new_count sel * window_ring_blocks_ sample_cache <= N.of_nat (AvailableBlocks (window_block_pool_ sample_cache))) /\
    total (need sample_cache <$> sel) + N.of_nat (size (claims tt sel)) <=
      N.of_nat (AvailableBlocks (block_pool_ sample_cache)) + ReclaimableBlocks tt /\
    Forall (serviceable sample_cache) sel /\
    Forall (fun e => own_blocks sample_cache e <= proposed_block_table_columns plan') sel /\
    (graph_capture_ sample_cache = true -> proposed_block_table_columns plan' <= max_block_table_columns_ sample_cache).
Proof. exact (paged_plan_fits tt sample_cache sample_plan sample_cache_ok sample_plan_ok). Defined.

Lemma paged_plan_honest_witness :
  exists res plan', PlanStepResources tt sample_cache sample_plan = Ok (res, plan') /\
    (executable res = true <-> requests plan' <> []) /\
    (capacity_deferred res = false -> unserviceable_request_id res = 0 -> requests plan' = requests sample_plan) /\
    (unserviceable_request_id res <> 0 ->
       exists e, e ∈ requests sample_plan /\ request_id e = unserviceable_request_id res /\ ~ serviceable sample_cache e) /\
    (requests plan' = [] ->
       Forall (fun e => ~ serviceable sample_cache e \/
         blocked_alone tt sample_cache (effective_limit sample_cache sample_plan) e) (requests sample_plan)) /\
    (kind (planning_outcome res) =
       if executable res then Committed
       else if negb (unserviceable_request_id res =? 0) then UnserviceableRequest
       else if capacity_deferred res then CapacityDeferred else NoWork) /\
    (kind (planning_outcome res) = NoWork -> requests sample_plan = []).
Proof. exact (paged_plan_honest tt sample_cache sample_plan sample_cache_ok sample_plan_ok). Defined.

Example sample_planning :
  match PlanStepResources tt sample_cache sample_plan with
  | Ok (res, plan') => (executable res, capacity_deferred res, request_id <$> requests plan',
                        proposed_block_table_columns plan') = (true, true, [16; 24], 5)
  | _ => False
  end.
Proof. vm_compute. reflexivity. Qed.
