(* ===== verification/Scheduler.v ===== *)
(** * The dynamic batch scheduler

    Models [DynamicBatchScheduler] of engine/scheduler.{h,cpp}: how one engine step is
    planned.  The cache manager is the interface [CacheManager] of
    engine/cache_manager.h; what [PlanStep] relies on are the laws
    [CacheManagerLaws]; a small cache manager at the end shows that they can hold.  The
    requests are heap objects found by their address. *)

From S2P Require Import Prelude BlockPool RequestIndex Positions StepPlan Request PagedPlanner.

Open Scope N_scope.

(** ** The cache manager seen by the scheduler *)

Class CacheManager (C : Type) : Type := {
  AllocatedRequests : C -> list N;
  IsResident : C -> N -> bool;
  MaxQueryTokensPerRequest : C -> N;
  MaxDraftTokensPerStep : C -> N;
  MatchPrefix : N -> Request -> C -> outcome PlanError (option PrefixCacheMatch) * C;
  PlanResources : gmap N Request -> C -> StepPlan -> outcome PlanError (StepPlanningResult * StepPlan);
  RecordDeferredPrefixMatches : N -> C -> C;
  OrderStepForExecution : C -> StepPlan -> outcome PlanError StepPlan;
  Deallocate : list N -> C -> outcome PlanError unit * C
}.

(** The scheduler's configuration and state, together with the step plan it fills. *)
Record sched (C : Type) : Type := mkSched
  { request_heap : gmap N Request;
    cache_manager : C;
    requests_pool_ : list N;
    plan : StepPlan }.
Arguments mkSched {C} _ _ _ _.
Arguments request_heap {C} _.
Arguments cache_manager {C} _.
Arguments requests_pool_ {C} _.
Arguments plan {C} _.

Record DynamicBatching : Type := mkBatching
  { max_scheduled_tokens : N;
    max_batch_size : N }.

Section scheduler.
Context {C : Type} `{!CacheManager C} (config : DynamicBatching).

Abbreviation Sched := (M (sched C) PlanError).

Definition set_heap (h : gmap N Request) (s : sched C) : sched C :=
  mkSched h (cache_manager s) (requests_pool_ s) (plan s).
Definition set_cache (c : C) (s : sched C) : sched C :=
  mkSched (request_heap s) c (requests_pool_ s) (plan s).
Definition set_pool (p : list N) (s : sched C) : sched C :=
  mkSched (request_heap s) (cache_manager s) p (plan s).
Definition set_step (p : StepPlan) (s : sched C) : sched C :=
  mkSched (request_heap s) (cache_manager s) (requests_pool_ s) p.

(** Dereferencing a request handle. *)
Definition deref (r : N) : Sched Request :=
  s ← gets id;
  match request_heap s !! r with Some q => mret q | None => undefined end.

(** Calling a method of the cache manager that changes it. *)
Definition on_cache {A} (f : C -> outcome PlanError A * C) : Sched A := fun s =>
  let '(r, c) := f (cache_manager s) in (r, set_cache c s).

(** ** The request pool *)

Definition AddRequest (r : N) : Sched unit := modify (fun s => set_pool (requests_pool_ s ++ [r]) s).

Definition RemoveRequest (r : N) : Sched unit :=
  _ ← on_cache (Deallocate [r]);
  modify (fun s => set_pool (filter (fun x => x <> r) (requests_pool_ s)) s).

Definition HasPendingRequests (s : sched C) : bool :=
  existsb (fun r => match request_heap s !! r with Some q => IsExecutable (status_ q) | None => false end)
    (requests_pool_ s).

(** ** [PlanStep] *)

Record Candidate : Type := mkCandidate
  { entry : RequestStepPlan;
    budget : DecodeFirstBudgetCandidate;
    candidate_processed : N;
    remaining_token_count : N }.

Definition i64_of_u64 (n : N) : Z :=
  if n <? 2 ^ 63 then Z.of_N n else (Z.of_N n - 2 ^ 64)%Z.

(** The lambda [add_candidate]; the candidate is returned instead of appended. *)
Definition add_candidate (cache_query_token_cap max_draft_token_count : N) (r : N) (new : bool) :
    Sched Candidate :=
  q ← deref r;
  let snapshot := Snapshot q in
  let valid_status :=
    if new then IsQueued (snapshot_status snapshot) else IsExecutable (snapshot_status snapshot) in
  _ ← throw_if (negb valid_status) InvalidStatus;
  pm ← (if new then on_cache (MatchPrefix r q) else mret None);
  let effective :=
    match pm with
    | Some m => token_count m
    | None => u64_of_Z (processed_sequence_length snapshot)
    end in
  let remaining := (current_sequence_length snapshot - i64_of_u64 effective)%Z in
  _ ← throw_if (remaining <=? 0)%Z NoUnprocessedTokens;
  let drafts :=
    if snapshot_is_prefill snapshot then 0
    else N.min (PendingDraftTokenCount q) max_draft_token_count in
  let cap :=
    if negb (cache_query_token_cap =? 0) &&
       ((default 0 (PrefillChunkSize q) =? 0) ||
        (cache_query_token_cap <? default 0 (PrefillChunkSize q)))
    then Some cache_query_token_cap else PrefillChunkSize q in
  mret (mkCandidate
    (mkStepEntry r (current_sequence_length snapshot) (1 + drafts) drafts 0 0
       (RequiredSlots (u64_of_Z (processed_sequence_length snapshot)) (1 + drafts))
       (SlotsForWholeSequence (current_sequence_length snapshot))
       (snapshot_is_prefill snapshot) new 0 pm)
    (mkBudget (snapshot_is_prefill snapshot) (u64_of_Z remaining) cap drafts)
    effective (u64_of_Z remaining)).

(** The loop over the cache's requests. *)
Fixpoint resident_candidates (cap drafts : N) (rs : list N) : Sched (list Candidate) :=
  match rs with
  | [] => mret []
  | r :: rs =>
    q ← deref r;
    if IsTurnComplete (status_ q) then resident_candidates cap drafts rs
    else
      x ← add_candidate cap drafts r false;
      xs ← resident_candidates cap drafts rs;
      mret (x :: xs)
  end.

(** The loop over the pool. *)
Fixpoint new_candidates (cap drafts : N) (rs : list N) : Sched (list Candidate) :=
  match rs with
  | [] => mret []
  | r :: rs =>
    q ← deref r;
    s ← gets id;
    if IsQueued (status_ q) && negb (IsResident (cache_manager s) r) then
      x ← add_candidate cap drafts r true;
      xs ← new_candidates cap drafts rs;
      mret (x :: xs)
    else new_candidates cap drafts rs
  end.

Definition set_work (e : RequestStepPlan) (drafts count slots : N) : RequestStepPlan :=
  mkStepEntry (request_id e) (sequence_length_before e) count drafts (packed_token_offset e)
    (logits_row_index e) slots (whole_sequence_cache_slots e) (is_prefill e) (newly_admitted e)
    (scheduling_order e) (prefix_match e).

Definition set_order (e : RequestStepPlan) (k : nat) : RequestStepPlan :=
  mkStepEntry (request_id e) (sequence_length_before e) (unprocessed_token_count e) (draft_token_count e)
    (packed_token_offset e) (logits_row_index e) (target_cache_slots e) (whole_sequence_cache_slots e)
    (is_prefill e) (newly_admitted e) k (prefix_match e).

Definition set_packing (e : RequestStepPlan) (offset row : N) : RequestStepPlan :=
  mkStepEntry (request_id e) (sequence_length_before e) (unprocessed_token_count e) (draft_token_count e)
    offset row (target_cache_slots e) (whole_sequence_cache_slots e) (is_prefill e) (newly_admitted e)
    (scheduling_order e) (prefix_match e).

(** The provisional entry of a candidate: one token, no drafts. *)
Definition probe_entry (x : Candidate) : RequestStepPlan :=
  set_work (entry x) 0 1 (RequiredSlots (candidate_processed x) 1).

Definition cleared_plan (p : StepPlan) : StepPlan := mkPlan (transaction_id p) [] 0 0 0 no_fixed_state false.
Definition with_requests (rs : list RequestStepPlan) (p : StepPlan) : StepPlan :=
  mkPlan (transaction_id p) rs (scheduled_request_limit p) (plan_token_count p)
    (proposed_block_table_columns p) (fixed_state p) (graph_capture_eligible p).
Definition with_limit (limit : N) (p : StepPlan) : StepPlan :=
  mkPlan (transaction_id p) (requests p) limit (plan_token_count p)
    (proposed_block_table_columns p) (fixed_state p) (graph_capture_eligible p).
Definition with_totals (tokens : N) (eligible : bool) (p : StepPlan) : StepPlan :=
  mkPlan (transaction_id p) (requests p) (scheduled_request_limit p) tokens
    (proposed_block_table_columns p) (fixed_state p) eligible.

(** [cache_manager_->PlanStepResources(plan)], which rewrites the plan. *)
Definition plan_resources : Sched StepPlanningResult :=
  s ← gets id;
  x ← lift (PlanResources (request_heap s) (cache_manager s) (plan s));
  _ ← modify (set_step x.2);
  mret x.1.

(** The lambda [record_deferred_prefix_matches]. *)
Definition record_deferred (result : StepPlanningResult) (candidates : list Candidate) : Sched unit :=
  if negb (capacity_deferred result) then mret tt
  else
    s ← gets id;
    let deferred := filter (fun x =>
      is_Some (prefix_match (entry x)) /\
      request_id (entry x) <> unserviceable_request_id result /\
      request_id (entry x) ∉ (request_id <$> requests (plan s))) candidates in
    modify (fun s => set_cache (RecordDeferredPrefixMatches (N.of_nat (length deferred)) (cache_manager s)) s).

(** Indexing requests by id: a null or repeated id throws. *)
Fixpoint index_requests (e : PlanError) (i : nat) (ids : list N) (ix : RequestIndex.RequestIndex) :
    outcome PlanError RequestIndex.RequestIndex :=
  match ids with
  | [] => Ok ix
  | r :: ids =>
    let '(ok, ix') := RequestIndex.Insert ix r i in
    if ok then index_requests e (S i) ids ix' else Throw e
  end.

Definition build_index (e : PlanError) (ids : list N) : outcome PlanError RequestIndex.RequestIndex :=
  match make_RequestIndex (N.of_nat (length ids)) with
  | Ok ix => index_requests e 0 ids ix
  | Throw _ => Throw IndexOverflow
  | Terminate => Terminate
  | Undefined => Undefined
  end.

(** The candidates of the selected entries. *)
Fixpoint selected_candidates (ix : RequestIndex.RequestIndex) (candidates : list Candidate)
    (es : list RequestStepPlan) : outcome PlanError (list Candidate) :=
  match es with
  | [] => Ok []
  | e :: es =>
    match Find ix (request_id e) with
    | None => Throw UnknownSelected
    | Some i =>
      match candidates !! i with
      | None => Undefined
      | Some x =>
        match selected_candidates ix candidates es with
        | Ok xs => Ok (x :: xs)
        | Throw err => Throw err
        | Terminate => Terminate
        | Undefined => Undefined
        end
      end
    end
  end.

(** The loop that writes the budget into the plan. *)
Fixpoint apply_budget (k : nat) (es : list RequestStepPlan) (xs : list Candidate) (counts : list N) :
    list RequestStepPlan :=
  match es, xs, counts with
  | e :: es, x :: xs, n :: counts =>
    set_order (set_work e (if is_prefill e then 0 else n - 1) n (RequiredSlots (candidate_processed x) n)) k
      :: apply_budget (S k) es xs counts
  | _, _, _ => []
  end.

(** The lambda [reduce_draft_count]; [lengths] are [selected_processed_lengths]. *)
Definition reduce_draft_count (lengths : list N) (e : RequestStepPlan) (counts : list N) :
    option (RequestStepPlan * list N) :=
  if (length counts <=? scheduling_order e)%nat then None
  else
    len ← lengths !! scheduling_order e;
    let n := unprocessed_token_count e - 1 in
    Some (set_work e (draft_token_count e - 1) n (RequiredSlots len n), <[scheduling_order e := n]> counts).

(** The loop that takes one draft from every entry that was not planned. *)
Fixpoint reduce_unplanned (lengths : list N) (planned : RequestIndex.RequestIndex)
    (es : list RequestStepPlan) (counts : list N) : option (bool * list RequestStepPlan * list N) :=
  match es with
  | [] => Some (false, [], counts)
  | e :: es =>
    if bool_decide (Find planned (request_id e) = None) && negb (draft_token_count e =? 0) then
      x ← reduce_draft_count lengths e counts;
      y ← reduce_unplanned lengths planned es x.2;
      Some (true, x.1 :: y.1.2, y.2)
    else
      y ← reduce_unplanned lengths planned es counts;
      Some (y.1.1, e :: y.1.2, y.2)
  end.

(** [find_if] from the back: the last entry that still has drafts loses one. *)
Fixpoint reduce_last (lengths : list N) (es : list RequestStepPlan) (counts : list N) :
    option (option (list RequestStepPlan * list N)) :=
  match es with
  | [] => Some None
  | e :: es =>
    y ← reduce_last lengths es counts;
    match y with
    | Some (es', counts') => Some (Some (e :: es', counts'))
    | None =>
      if draft_token_count e =? 0 then Some None
      else x ← reduce_draft_count lengths e counts; Some (Some (x.1 :: es, x.2))
    end
  end.

(** [token_counts[entry.scheduling_order] = entry.unprocessed_token_count] for every entry. *)
Fixpoint read_counts (es : list RequestStepPlan) (counts : list N) : option (list N) :=
  match es with
  | [] => Some counts
  | e :: es =>
    if (length counts <=? scheduling_order e)%nat then None
    else read_counts es (<[scheduling_order e := unprocessed_token_count e]> counts)
  end.

(** The [while (true)] loop that drops drafts until the cache accepts every selected
    request; running out of fuel is undefined. *)
Fixpoint draft_loop (fuel : nat) (lengths : list N) (budgeted : list RequestStepPlan)
    (counts : list N) : Sched (list N) :=
  match fuel with
  | O => undefined
  | S fuel =>
    result ← plan_resources;
    s ← gets id;
    if executable result && (length (requests (plan s)) =? length budgeted)%nat then
      match read_counts (requests (plan s)) counts with
      | Some counts' => mret counts'
      | None => undefined
      end
    else
      planned ← lift (build_index DuplicatePlanned (request_id <$> requests (plan s)));
      match reduce_unplanned lengths planned budgeted counts with
      | None => undefined
      | Some (true, budgeted', counts') =>
        _ ← modify (fun s => set_step (with_requests budgeted' (plan s)) s);
        draft_loop fuel lengths budgeted' counts'
      | Some (false, _, _) =>
        match reduce_last lengths budgeted counts with
        | None => undefined
        | Some None => throw RejectedRequiredWork
        | Some (Some (budgeted', counts')) =>
          _ ← modify (fun s => set_step (with_requests budgeted' (plan s)) s);
          draft_loop fuel lengths budgeted' counts'
        end
      end
  end.

Definition total_drafts (es : list RequestStepPlan) : N := total (draft_token_count <$> es).

(** The packing loop: offsets, logits rows, total tokens and graph eligibility. *)
Fixpoint pack (es : list RequestStepPlan) (counts lengths : list N) (offset : N) (first : option N)
    (tokens : N) (eligible : bool) : option (list RequestStepPlan * N * bool) :=
  match es with
  | [] => Some ([], tokens, eligible)
  | e :: es =>
    n ← counts !! scheduling_order e;
    len ← lengths !! scheduling_order e;
    let e1 := set_work e (draft_token_count e) n (RequiredSlots len n) in
    let e2 := set_packing e1 offset (u64_sub (u64_add offset n) 1) in
    let uniform := default n first in
    y ← pack es counts lengths (u64_add offset n) (Some uniform) (u64_add tokens n)
          (eligible && negb (is_prefill e) && (n =? uniform) && negb (n =? 0));
    Some (e2 :: y.1.1, y.1.2, y.2)
  end.

(** [StagePrefixAdoption] on every matched request; on an exception every request of
    the plan is rolled back and the exception continues. *)
Fixpoint stage_adoptions (es : list RequestStepPlan) : Sched unit :=
  match es with
  | [] => mret tt
  | e :: es =>
    match prefix_match e with
    | None => stage_adoptions es
    | Some m =>
      q ← deref (request_id e);
      match StagePrefixAdoption (token_count m) q with
      | Ok q' => _ ← modify (fun s => set_heap (<[request_id e := q']> (request_heap s)) s); stage_adoptions es
      | Throw _ => throw AdoptionRefused
      | Terminate => terminate
      | Undefined => undefined
      end
    end
  end.

Definition rollback_adoptions (es : list RequestStepPlan) (s : sched C) : sched C :=
  set_heap (foldl (fun h e => alter RollbackPrefixAdoption (request_id e) h) (request_heap s) es) s.

Definition stage_or_rollback (es : list RequestStepPlan) : Sched unit := fun s =>
  match stage_adoptions es s with
  | (Throw e, s') => (Throw e, rollback_adoptions es s')
  | r => r
  end.

(** Lines 307-405: budgets for the selected requests, then the draft loop. *)
Definition budget_selected (candidates : list Candidate) : Sched (list N * list N) :=
  ix ← lift (build_index InvalidOrDuplicateCandidate ((fun x => request_id (entry x)) <$> candidates));
  s ← gets id;
  xs ← lift (selected_candidates ix candidates (requests (plan s)));
  counts ← lift (AllocateDecodeFirstTokenBudget (budget <$> xs) (max_scheduled_tokens config));
  let lengths := candidate_processed <$> xs in
  let budgeted := apply_budget 0 (requests (plan s)) xs counts in
  _ ← modify (fun s => set_step (with_requests budgeted (plan s)) s);
  if existsb (fun e => negb (draft_token_count e =? 0)) budgeted then
    counts' ← draft_loop (S (N.to_nat (total_drafts budgeted))) lengths budgeted counts;
    mret (counts', lengths)
  else mret (counts, lengths).

(** Lines 406-447: execution order, packing, and staging of adoptions. *)
Definition finish_plan (counts lengths : list N) : Sched unit :=
  s ← gets id;
  p ← lift (OrderStepForExecution (cache_manager s) (plan s));
  match pack (requests p) counts lengths 0 None (plan_token_count p)
          (negb (length (requests p) =? 0)%nat) with
  | None => undefined
  | Some (es, tokens, eligible) =>
    _ ← modify (set_step (with_totals tokens eligible (with_requests es p)));
    stage_or_rollback es
  end.

Definition PlanStep : Sched StepPlanningResult :=
  _ ← modify (fun s => set_step (cleared_plan (plan s)) s);
  s ← gets id;
  let cap := MaxQueryTokensPerRequest (cache_manager s) in
  let drafts := MaxDraftTokensPerStep (cache_manager s) in
  residents ← resident_candidates cap drafts (AllocatedRequests (cache_manager s));
  news ← new_candidates cap drafts (requests_pool_ s);
  let candidates := residents ++ news in
  let order := DecodeFirstCandidateOrder (budget <$> candidates) in
  let probes := probe_entry <$> omap (fun i => candidates !! i) order in
  limit ← lift (DecodeFirstProvisionalRequestLimit (max_scheduled_tokens config) (max_batch_size config));
  _ ← modify (fun s => set_step (with_limit limit (with_requests probes (plan s))) s);
  result ← plan_resources;
  if negb (executable result) then
    _ ← record_deferred result candidates;
    mret result
  else
    x ← budget_selected candidates;
    _ ← record_deferred result candidates;
    _ ← finish_plan x.1 x.2;
    mret result.
End scheduler.

(** ** What the cache manager promises *)

(** A planner may drop the drafts of an entry (packed recurrent state cannot verify
    drafts in a step with a prefill); the slots are recomputed later. *)
Definition strip (slots : N) (e : RequestStepPlan) : RequestStepPlan :=
  set_work e 0 (u64_sub (unprocessed_token_count e) (draft_token_count e)) slots.

(** What a planner may do with the entries: keep them, or strip every draft. *)
Definition replanned (es es' : list RequestStepPlan) : Prop :=
  es' = es \/ Forall2 (fun e e' => exists slots, e' = strip slots e) es es'.

Class CacheManagerLaws (C : Type) `{!CacheManager C} : Prop := {
  plan_resources_ok h c p :
    match PlanResources h c p with
    | Ok (res, p') =>
      plan_token_count p' = plan_token_count p /\
      (exists es, replanned (requests p) es /\ sublist (requests p') es) /\
      (executable res = true -> requests p' <> [])
    | Throw _ => True
    | _ => False
    end;
  order_step_ok c p :
    match OrderStepForExecution c p with
    | Ok p' => plan_token_count p' = plan_token_count p /\ requests p' ≡ₚ requests p
    | Throw _ => True
    | _ => False
    end;
  match_prefix_ok r q c :
    match MatchPrefix r q c with
    | (Ok pm, c') => (forall m, pm = Some m -> token_count m < 2 ^ 62) /\
        MaxDraftTokensPerStep c' = MaxDraftTokensPerStep c /\
        MaxQueryTokensPerRequest c' = MaxQueryTokensPerRequest c
    | (Throw _, c') => True
    | _ => False
    end
}.

Section scheduler_proofs.
Context {C : Type} `{!CacheManager C} `{!CacheManagerLaws C} (config : DynamicBatching).
Context (h : gmap N Request) (cap max_drafts : N).

(** Between the phases of [PlanStep] only the plan and the cache change. *)
Definition frame (s : sched C) : Prop := request_heap s = h.

(** The requests on the heap have sensible lengths. *)
Definition heap_ok : Prop := forall r q, h !! r = Some q ->
  (0 <= processed_sequence_length_ q < 2 ^ 62)%Z /\ (sequence_length q < 2 ^ 62)%Z.

(** What is known of a candidate: its request exists; its pending tokens complete its
    sequence; it may attach few enough drafts and a prefill chunk fits the cache. *)
Record cand_ok (x : Candidate) : Prop := mk_cand_ok
  { ca_heap : is_Some (h !! request_id (entry x));
    ca_prefill : budget_is_prefill (budget x) = is_prefill (entry x);
    ca_length : candidate_processed x + pending_token_count (budget x) = whole_sequence_cache_slots (entry x);
    ca_whole : whole_sequence_cache_slots (entry x) < 2 ^ 62;
    ca_drafts : decode_extra_token_count (budget x) <= max_drafts;
    ca_cap : cap <> 0 -> is_prefill (entry x) = true -> prefill_limit (budget x) <= cap }.

Lemma deref_request_ok r (I : sched C -> Prop) :
  (forall s, I s -> frame s) -> is_Some (h !! r) ->
  triple I (deref r) (fun q s => I s /\ h !! r = Some q) (fun _ => True).
Proof.
  intros HI [q Hq] s Hs. unfold deref, mbind, M_bind, gets, id. rewrite (HI s Hs), Hq. done.
Qed.

Lemma throw_if_ok b e (I : sched C -> Prop) :
  triple (E := PlanError) I (throw_if b e) (fun _ s => I s /\ b = false) (fun _ => True).
Proof. intros s Hs. by destruct b. Qed.

Lemma match_prefix_triple r q (P : sched C -> Prop) (new : bool) :
  (forall c s, P s -> P (set_cache c s)) ->
  triple P (if new then on_cache (MatchPrefix r q) else mret None)
    (fun pm s => P s /\ forall m, pm = Some m -> token_count m < 2 ^ 62) (fun _ => True).
Proof.
  intros HP s Hs. destruct new; [|by split].
  unfold on_cache. pose proof (match_prefix_ok r q (cache_manager s)) as Hm.
  destruct (MatchPrefix r q (cache_manager s)) as [[pm|e| |] c']; try done.
  destruct Hm as (Hm & _). split; [by apply HP|done].
Qed.

Definition frame_inv (p : StepPlan) (s : sched C) : Prop := frame s /\ plan s = p.

(** The arithmetic of a candidate. *)
Lemma candidate_arith q pm :
  (0 <= processed_sequence_length_ q < 2 ^ 62)%Z -> (sequence_length q < 2 ^ 62)%Z ->
  (forall m : PrefixCacheMatch, pm = Some m -> token_count m < 2 ^ 62) ->
  let effective := match pm with Some m => token_count m | None => u64_of_Z (processed_sequence_length_ q) end in
  let remaining := (CommittedSequenceLength q - i64_of_u64 effective)%Z in
  (remaining <=? 0)%Z = false ->
  effective + u64_of_Z remaining = SlotsForWholeSequence (CommittedSequenceLength q) /\
  SlotsForWholeSequence (CommittedSequenceLength q) < 2 ^ 62.
Proof.
  intros Hp Hs Hm effective remaining Hrem%Z.leb_gt.
  assert (effective < 2 ^ 62) as Heff.
  { unfold effective. destruct pm as [m|]; [auto|]. rewrite u64_of_Z_small by (unfold two64; lia). lia. }
  assert (i64_of_u64 effective = Z.of_N effective) as Hi.
  { unfold i64_of_u64. destruct (N.ltb_spec effective (2 ^ 63)); lia. }
  unfold SlotsForWholeSequence, remaining in *. rewrite Hi in *. clear Hi Hm.
  clearbody effective. unfold CommittedSequenceLength, CurrentSequenceLength in *.
  rewrite !u64_of_Z_small by (unfold two64; lia). lia.
Qed.

Lemma prefill_cap_le cs chunk n :
  cap <> 0 ->
  prefill_limit (mkBudget true n
    (if negb (cap =? 0) && ((default 0 chunk =? 0) || (cap <? default 0 chunk)) then Some cap else chunk) cs) <= cap.
Proof.
  intros Hcap. unfold prefill_limit. simpl.
  destruct (N.eqb_spec cap 0); [done|]. simpl.
  destruct (N.eqb_spec (default 0 chunk) 0); simpl.
  - destruct (N.eqb_spec cap 0); [done|]. simpl. lia.
  - destruct (N.ltb_spec cap (default 0 chunk)); simpl.
    + destruct (N.eqb_spec cap 0); [done|]. simpl. lia.
    + destruct (N.eqb_spec (default 0 chunk) 0); [done|]. simpl. lia.
Qed.

Lemma add_candidate_ok r new p :
  heap_ok -> is_Some (h !! r) ->
  triple (frame_inv p) (add_candidate cap max_drafts r new)
    (fun x s => frame_inv p s /\ cand_ok x) (fun _ => True).
Proof.
  intros Hh Hr. unfold add_candidate.
  eapply triple_bind; [apply (deref_request_ok r (frame_inv p)); [by intros s []|done]|]. intros q.
  eapply triple_bind; [apply throw_if_ok|]. intros [].
  eapply triple_bind; [apply match_prefix_triple; intros c0 s0 Hs0; exact Hs0|]. intros pm.
  eapply triple_bind; [apply throw_if_ok|]. intros [].
  intros s [[[[Hs Hq] _] Hm] Hrem]. split; [exact Hs|].
  destruct (Hh r q Hq) as [Hp Hlen].
  destruct (candidate_arith q pm Hp Hlen Hm Hrem) as [Hsum Hwhole].
  constructor; simpl.
  - rewrite Hq. by eexists.
  - done.
  - exact Hsum.
  - exact Hwhole.
  - destruct (IsPrefill q); [lia|]. unfold PendingDraftTokenCount. lia.
  - intros Hcap Hpre. rewrite Hpre. by apply prefill_cap_le.
Qed.

Lemma resident_candidates_ok rs p :
  heap_ok -> Forall (fun r => is_Some (h !! r)) rs ->
  triple (frame_inv p) (resident_candidates cap max_drafts rs)
    (fun xs s => frame_inv p s /\ Forall cand_ok xs) (fun _ => True).
Proof.
  intros Hh Hrs. induction Hrs as [|r rs Hr Hrs IH]; simpl.
  { intros s Hs. split; [done|constructor]. }
  eapply triple_bind; [apply (deref_request_ok r (frame_inv p)); [by intros s []|done]|]. intros q.
  destruct (IsTurnComplete (status_ q)).
  { eapply triple_conseq; [exact IH|by intros s []|done..]. }
  eapply triple_bind.
  { eapply triple_conseq; [apply (add_candidate_ok r false p Hh Hr)|by intros s []|by intros ? ? Hx; exact Hx|done]. }
  intros x. eapply triple_bind.
  { intros s [Hs Hx]. specialize (IH s Hs).
    destruct (resident_candidates cap max_drafts rs s) as [[xs|e| |] s']; try done.
    exact (conj (proj1 IH) (Forall_cons_2 _ _ _ Hx (proj2 IH))). }
  intros xs s [Hs Hx]. done.
Qed.

Lemma new_candidates_ok rs p :
  heap_ok -> Forall (fun r => is_Some (h !! r)) rs ->
  triple (frame_inv p) (new_candidates cap max_drafts rs)
    (fun xs s => frame_inv p s /\ Forall cand_ok xs) (fun _ => True).
Proof.
  intros Hh Hrs. induction Hrs as [|r rs Hr Hrs IH]; simpl.
  { intros s Hs. split; [done|constructor]. }
  eapply triple_bind; [apply (deref_request_ok r (frame_inv p)); [by intros s []|done]|]. intros q.
  eapply triple_bind; [apply triple_gets|]. intros s0.
  destruct (IsQueued (status_ q) && negb (IsResident (cache_manager s0) r)).
  2: { eapply triple_conseq; [exact IH|by intros s [[] _]|done..]. }
  eapply triple_bind.
  { eapply triple_conseq; [apply (add_candidate_ok r true p Hh Hr)|by intros s [[] _]|by intros ? ? Hx; exact Hx|done]. }
  intros x. eapply triple_bind.
  { intros s [Hs Hx]. specialize (IH s Hs).
    destruct (new_candidates cap max_drafts rs s) as [[xs|e| |] s']; try done.
    exact (conj (proj1 IH) (Forall_cons_2 _ _ _ Hx (proj2 IH))). }
  intros xs s [Hs Hx]. done.
Qed.
End scheduler_proofs.

(** ** Indexing the candidates *)

Lemma insert_true r k v r' :
  index_wf r -> RequestIndex.Insert r k v = (true, r') ->
  index_wf r' /\ contents r !! k = None /\ contents r' = <[k := v]> (contents r).
Proof.
  intros Hwf Hins. destruct (step_refines (OpInsert k v) r Hwf) as (r0 & Himpl & Hwf0 & Hc0 & _).
  simpl in *. rewrite Hins in Himpl. injection Himpl as Hacc ->.
  destruct (negb (k =? 0) && bool_decide (contents r !! k = None) && (size (contents r) <? max_entries_ r)%nat) eqn:Hb;
    simpl in *; [|done].
  apply andb_prop in Hb as [[_ Hb]%andb_prop _]. apply bool_decide_eq_true in Hb. done.
Qed.

Lemma index_requests_ok e ids seen ix ix' :
  index_wf ix -> NoDup seen -> (forall r i, contents ix !! r = Some i <-> seen !! i = Some r) ->
  index_requests e (length seen) ids ix = Ok ix' ->
  index_wf ix' /\ NoDup (seen ++ ids) /\ (forall r i, contents ix' !! r = Some i <-> (seen ++ ids) !! i = Some r).
Proof.
  revert seen ix. induction ids as [|r ids IH]; intros seen ix Hwf Hnd Hix Hrun; simpl in Hrun.
  { injection Hrun as <-. by rewrite app_nil_r. }
  destruct (RequestIndex.Insert ix r (length seen)) as [[] ix1] eqn:Hins; [|done].
  destruct (insert_true _ _ _ _ Hwf Hins) as (Hwf1 & Hnone & Hc1).
  assert (r ∉ seen) as Hr.
  { intros [i Hi]%list_elem_of_lookup. apply Hix in Hi. congruence. }
  replace (S (length seen)) with (length (seen ++ [r])) in Hrun by (rewrite length_app; simpl; lia).
  replace (seen ++ r :: ids) with ((seen ++ [r]) ++ ids) by (by rewrite <- (assoc_L (++))).
  apply (IH (seen ++ [r]) ix1); [done| |intros r0 i|done].
  - apply NoDup_app. split_and!; [done|intros x Hx ->%list_elem_of_singleton; done|apply NoDup_singleton].
  - rewrite Hc1, lookup_insert_Some, Hix, lookup_app_Some. split.
    + intros [[-> <-]|[Hne Hi]]; [|by left]. right. split; [lia|]. by rewrite Nat.sub_diag.
    + intros [Hi|[Hi Hl]].
      * right. split; [|done]. intros ->. apply Hr. by eapply list_elem_of_lookup_2.
      * left. destruct (i - length seen)%nat as [|k] eqn:Hk; [|by destruct k].
        simpl in Hl. injection Hl as ->. split; [done|lia].
Qed.

Lemma build_index_ok e ids :
  match build_index e ids with
  | Ok ix => NoDup ids /\ forall r i, Find ix r = Some i <-> ids !! i = Some r
  | Throw _ => True
  | _ => False
  end.
Proof.
  unfold build_index. destruct (N.lt_ge_cases (N.of_nat (length ids)) (2 ^ 62)) as [Hlt|Hge].
  2: { by destruct (make_refuses _ Hge) as (err & ->). }
  destruct (make_spec _ Hlt) as (ix & -> & Hwf & Hcon & _).
  assert (forall k l x, match index_requests e k l x with Ok _ | Throw _ => True | _ => False end) as Htot.
  { clear. intros k l. revert k. induction l as [|r l IH]; intros k x; simpl; [done|].
    destruct (RequestIndex.Insert x r k) as [[] x']; [apply IH|done]. }
  specialize (Htot 0%nat ids ix). destruct (index_requests e 0 ids ix) as [ix'|err| |] eqn:Hrun; try done.
  destruct (index_requests_ok e ids [] ix ix' Hwf) as (Hwf' & Hnd & Hix); [constructor| |done|].
  - intros r i. rewrite Hcon, lookup_empty, lookup_nil. done.
  - split; [done|]. intros r i. rewrite (Find_contents ix' r Hwf'). apply Hix.
Qed.

Lemma selected_candidates_ok ix cands es :
  (forall r i, Find ix r = Some i <-> (request_id ∘ entry <$> cands) !! i = Some r) ->
  match selected_candidates ix cands es with
  | Ok xs => Forall2 (fun e x => x ∈ cands /\ request_id e = request_id (entry x)) es xs
  | Throw _ => True
  | _ => False
  end.
Proof.
  intros Hix. induction es as [|e es IH]; simpl; [constructor|].
  destruct (Find ix (request_id e)) as [i|] eqn:Hf; [|done].
  apply Hix in Hf. rewrite list_lookup_fmap_Some in Hf. destruct Hf as (x & Hid & Hx). simpl in Hid.
  rewrite Hx. destruct (selected_candidates ix cands es) as [xs|err| |]; try done.
  constructor; [|done]. split; [by eapply list_elem_of_lookup_2|done].
Qed.

(** ** Budgeted entries *)

(** Entry [e] at position [k] of the budgeted plan carries out part of candidate [x]. *)
Record tracks (k : nat) (x : Candidate) (e : RequestStepPlan) : Prop := mk_tracks
  { tr_order : scheduling_order e = k;
    tr_id : request_id e = request_id (entry x);
    tr_prefill : is_prefill e = is_prefill (entry x);
    tr_whole : whole_sequence_cache_slots e = whole_sequence_cache_slots (entry x);
    tr_count : 1 <= unprocessed_token_count e <= demand (budget x);
    tr_drafts : draft_token_count e = if is_prefill e then 0 else unprocessed_token_count e - 1 }.

Inductive tracked : nat -> list Candidate -> list RequestStepPlan -> Prop :=
  | tracked_nil k : tracked k [] []
  | tracked_cons k x xs e es : tracks k x e -> tracked (S k) xs es -> tracked k (x :: xs) (e :: es).

Abbreviation counts_of es := (unprocessed_token_count <$> es).

Lemma tracked_length k xs es : tracked k xs es -> length es = length xs.
Proof. induction 1; simpl; congruence. Qed.

Lemma tracked_lookup k xs es e :
  tracked k xs es -> e ∈ es -> exists i x, xs !! i = Some x /\ tracks (k + i) x e /\ es !! i = Some e.
Proof.
  induction 1 as [|k x xs e' es Ht Hts IH]; [by intros ?%not_elem_of_nil|].
  intros [->|Hin]%elem_of_cons.
  - exists 0%nat, x. rewrite Nat.add_0_r. done.
  - destruct (IH Hin) as (i & y & Hy & Ht' & Hi). exists (S i), y.
    replace (k + S i)%nat with (S k + i)%nat by lia. done.
Qed.

(** Entries chosen by the planner, as the budget loop sees them. *)
Definition chosen (e : RequestStepPlan) (x : Candidate) : Prop :=
  request_id e = request_id (entry x) /\ is_prefill e = is_prefill (entry x) /\
  whole_sequence_cache_slots e = whole_sequence_cache_slots (entry x) /\
  prefix_match e = prefix_match (entry x).

Lemma apply_budget_ok k es xs counts :
  Forall2 chosen es xs -> Forall2 (fun c n => 1 <= n <= demand c) (budget <$> xs) counts ->
  tracked k xs (apply_budget k es xs counts) /\ counts_of (apply_budget k es xs counts) = counts.
Proof.
  intros Hes. revert k counts. induction Hes as [|e x es xs (Hid & Hpre & Hwh & Hpm) Hes IH]; intros k counts Hc; simpl in *.
  { inversion Hc. split; [constructor|done]. }
  apply Forall2_cons_inv_l in Hc as (n & counts' & Hn & Hc & ->).
  destruct (IH (S k) counts' Hc) as [Ht Hcs]. split.
  - constructor; [|done]. by constructor.
  - rewrite fmap_cons. simpl. by rewrite Hcs.
Qed.

Section reduce.
Context (all : list Candidate).
Abbreviation lengths := (candidate_processed <$> all).

Lemma reduce_one pre x xs e es :
  all = pre ++ x :: xs -> tracks (length pre) x e -> draft_token_count e <> 0 ->
  forall cpre, length cpre = length pre ->
  exists e', reduce_draft_count lengths e (cpre ++ unprocessed_token_count e :: counts_of es) =
      Some (e', cpre ++ unprocessed_token_count e' :: counts_of es) /\
    tracks (length pre) x e' /\ draft_token_count e' = draft_token_count e - 1.
Proof.
  intros Hall [Hord Hid Hpre Hwh Hcnt Hdr] Hne cpre Hlen. unfold reduce_draft_count.
  rewrite length_app. simpl. rewrite Hord, length_fmap.
  destruct (Nat.leb_spec (length cpre + S (length es)) (length pre)) as [|_]; [lia|].
  rewrite Hall, fmap_app, lookup_app_r, length_fmap, Nat.sub_diag by (rewrite length_fmap; lia). simpl.
  destruct (is_prefill e) eqn:Hp; [by rewrite Hdr in Hne|].
  eexists. split; [f_equal; f_equal; rewrite <- Hlen, <- (Nat.add_0_r (length cpre)), insert_app_r; done|].
  split; [|done]. constructor; simpl; rewrite ?Hp; try done; lia.
Qed.

Lemma reduce_lowers x k e e' :
  tracks k x e -> tracks k x e' -> draft_token_count e <> 0 ->
  draft_token_count e' = draft_token_count e - 1 ->
  unprocessed_token_count e' <= unprocessed_token_count e.
Proof.
  intros H1 H2 Hne Hd. pose proof (tr_drafts _ _ _ H1) as Hd1. pose proof (tr_drafts _ _ _ H2) as Hd2.
  rewrite (tr_prefill _ _ _ H2), <- (tr_prefill _ _ _ H1) in Hd2.
  pose proof (tr_count _ _ _ H1). pose proof (tr_count _ _ _ H2). destruct (is_prefill e); lia.
Qed.

Lemma reduce_unplanned_ok planned pre xs es cpre :
  all = pre ++ xs -> tracked (length pre) xs es -> length cpre = length pre ->
  exists b es', reduce_unplanned lengths planned es (cpre ++ counts_of es) = Some (b, es', cpre ++ counts_of es') /\
    tracked (length pre) xs es' /\ total (counts_of es') <= total (counts_of es) /\
    (b = true -> total_drafts es' < total_drafts es) /\ (b = false -> es' = es).
Proof.
  revert pre xs cpre. induction es as [|e es IH]; intros pre xs cpre Hall Ht Hlen; cbn [reduce_unplanned].
  { exists false, []. inversion Ht; subst. split_and!; [done|constructor|done|done|done]. }
  inversion Ht as [|k x xs' e0 es0 Hte Hts]; subst k e0 es0 xs.
  assert (all = (pre ++ [x]) ++ xs') as Hall' by (by rewrite <- (assoc_L (++))).
  replace (S (length pre)) with (length (pre ++ [x])) in Hts by (rewrite length_app; simpl; lia).
  destruct (bool_decide (Find planned (request_id e) = None) && negb (draft_token_count e =? 0)) eqn:Hb.
  - apply andb_prop in Hb as [_ Hd%negb_true_iff%N.eqb_neq].
    destruct (reduce_one pre x xs' e es Hall Hte Hd cpre Hlen) as (e' & Hred & Hte' & Hdr).
    rewrite fmap_cons, Hred. simpl.
    destruct (IH (pre ++ [x]) xs' (cpre ++ [unprocessed_token_count e']) Hall' Hts) as (b & es' & Hrun & Ht' & Htot & Hdec & Hsame).
    { rewrite !length_app. simpl. lia. }
    rewrite <- !(assoc_L (++)) in Hrun. simpl in Hrun. rewrite Hrun. simpl.
    exists true, (e' :: es'). split_and!; [done| | | |done].
    + constructor; [done|]. rewrite length_app, Nat.add_1_r in Ht'. exact Ht'.
    + rewrite !fmap_cons, !total_cons. pose proof (reduce_lowers x _ e e' Hte Hte' Hd Hdr). lia.
    + intros _. unfold total_drafts in *. rewrite !fmap_cons, !total_cons, Hdr. destruct b; [specialize (Hdec eq_refl)|rewrite Hsame by done]; lia.
  - rewrite fmap_cons.
    destruct (IH (pre ++ [x]) xs' (cpre ++ [unprocessed_token_count e]) Hall' Hts) as (b & es' & Hrun & Ht' & Htot & Hdec & Hsame).
    { rewrite !length_app. simpl. lia. }
    rewrite <- !(assoc_L (++)) in Hrun. simpl in Hrun. rewrite Hrun. simpl.
    exists b, (e :: es'). split_and!; [done| | | |].
    + constructor; [done|]. rewrite length_app, Nat.add_1_r in Ht'. exact Ht'.
    + rewrite !fmap_cons, !total_cons. lia.
    + intros Hbt. unfold total_drafts in *. rewrite !fmap_cons, !total_cons. specialize (Hdec Hbt). lia.
    + intros Hbf. by rewrite Hsame.
Qed.

Lemma reduce_last_ok pre xs es cpre :
  all = pre ++ xs -> tracked (length pre) xs es -> length cpre = length pre ->
  (total_drafts es = 0 /\ reduce_last lengths es (cpre ++ counts_of es) = Some None) \/
  exists es', reduce_last lengths es (cpre ++ counts_of es) = Some (Some (es', cpre ++ counts_of es')) /\
    tracked (length pre) xs es' /\ total (counts_of es') <= total (counts_of es) /\
    total_drafts es' < total_drafts es.
Proof.
  revert pre xs cpre. induction es as [|e es IH]; intros pre xs cpre Hall Ht Hlen; cbn [reduce_last].
  { by left. }
  inversion Ht as [|k x xs' e0 es0 Hte Hts]; subst k e0 es0 xs.
  assert (all = (pre ++ [x]) ++ xs') as Hall' by (by rewrite <- (assoc_L (++))).
  replace (S (length pre)) with (length (pre ++ [x])) in Hts by (rewrite length_app; simpl; lia).
  rewrite fmap_cons. destruct (IH (pre ++ [x]) xs' (cpre ++ [unprocessed_token_count e]) Hall' Hts
      ltac:(rewrite !length_app; simpl; lia))
    as [[Hzero Hrun]|(es' & Hrun & Ht' & Htot & Hdec)].
  - rewrite <- !(assoc_L (++)) in Hrun. simpl in Hrun. rewrite Hrun. simpl.
    destruct (N.eqb_spec (draft_token_count e) 0) as [H0|Hd].
    { left. unfold total_drafts in *. rewrite fmap_cons, total_cons. split; [lia|done]. }
    right. destruct (reduce_one pre x xs' e es Hall Hte Hd cpre Hlen) as (e' & Hred & Hte' & Hdr).
    rewrite Hred. simpl. exists (e' :: es). split_and!; [done| | |].
    + constructor; [done|]. rewrite length_app, Nat.add_1_r in Hts. exact Hts.
    + rewrite !fmap_cons, !total_cons. pose proof (reduce_lowers x _ e e' Hte Hte' Hd Hdr). lia.
    + unfold total_drafts. rewrite !fmap_cons, !total_cons. lia.
  - right. rewrite <- !(assoc_L (++)) in Hrun. simpl in Hrun. rewrite Hrun. simpl. exists (e :: es').
    split_and!; [done| | |].
    + constructor; [done|]. rewrite length_app, Nat.add_1_r in Ht'. exact Ht'.
    + rewrite !fmap_cons, !total_cons. lia.
    + unfold total_drafts in *. rewrite !fmap_cons, !total_cons. lia.
Qed.
End reduce.

Lemma read_counts_ok k xs es cpre cs :
  tracked k xs es -> length cpre = k -> length cs = length es ->
  read_counts es (cpre ++ cs) = Some (cpre ++ counts_of es).
Proof.
  intros Ht. revert cpre cs. induction Ht as [|k x xs e es Hte Hts IH]; intros cpre cs Hk Hlen; cbn [read_counts].
  { by apply nil_length_inv in Hlen as ->. }
  destruct cs as [|n cs]; [done|]. simpl in Hlen. rewrite (tr_order _ _ _ Hte), length_app. simpl.
  destruct (Nat.leb_spec (length cpre + S (length cs)) k) as [|_]; [lia|].
  rewrite <- Hk, <- (Nat.add_0_r (length cpre)), insert_app_r. simpl.
  specialize (IH (cpre ++ [unprocessed_token_count e]) cs).
  rewrite <- !(assoc_L (++)) in IH. simpl in IH. rewrite IH; [done| |lia].
  rewrite length_app. simpl. lia.
Qed.

(** Stripping drafts keeps entries on track and never adds tokens. *)
Lemma tracked_replanned k xs es es' :
  tracked k xs es -> total (counts_of es) < two64 -> replanned es es' -> tracked k xs es' /\ total (counts_of es') <= total (counts_of es).
Proof.
  intros Ht Hlt [->|Hs]; [by split|]. revert es' Hlt Hs. induction Ht as [|k x xs e es Hte Hts IH]; intros es' Hlt Hs.
  { inversion Hs. split; [constructor|done]. }
  rewrite fmap_cons, total_cons in Hlt.
  apply Forall2_cons_inv_l in Hs as (e' & es0 & (slots & ->) & Hs & ->).
  destruct (IH es0 ltac:(lia) Hs) as [Ht' Htot]. destruct Hte as [Hord Hid Hpre Hwh Hcnt Hdr].
  assert (draft_token_count e < unprocessed_token_count e) as Hb.
  { rewrite Hdr. destruct (is_prefill e); lia. }
  unfold strip. rewrite u64_sub_small by lia. split.
  - constructor; [|done]. constructor; simpl; try done; [lia|].
    rewrite Hdr. destruct (is_prefill e); lia.
  - rewrite !fmap_cons, !total_cons. simpl. lia.
Qed.

(** ** Packing *)

Definition same_work (e e' : RequestStepPlan) : Prop :=
  request_id e' = request_id e /\ unprocessed_token_count e' = unprocessed_token_count e /\
  draft_token_count e' = draft_token_count e /\ is_prefill e' = is_prefill e /\
  whole_sequence_cache_slots e' = whole_sequence_cache_slots e /\
  scheduling_order e' = scheduling_order e /\ prefix_match e' = prefix_match e.

(** Consecutive rows from [offset] on; each entry's last row gives its logits. *)
Inductive packed : N -> list RequestStepPlan -> Prop :=
  | packed_nil offset : packed offset []
  | packed_cons offset e es :
      packed_token_offset e = offset ->
      logits_row_index e = offset + unprocessed_token_count e - 1 ->
      packed (offset + unprocessed_token_count e) es -> packed offset (e :: es).

Definition uniform_decode (n : option N) (e : RequestStepPlan) : bool :=
  negb (is_prefill e) && (unprocessed_token_count e =? default (unprocessed_token_count e) n) &&
  negb (unprocessed_token_count e =? 0).

Fixpoint all_uniform (n : option N) (es : list RequestStepPlan) : bool :=
  match es with
  | [] => true
  | e :: es => uniform_decode n e && all_uniform (Some (default (unprocessed_token_count e) n)) es
  end.

Lemma pack_ok counts lengths es offset first tokens eligible :
  Forall (fun e => counts !! scheduling_order e = Some (unprocessed_token_count e) /\
                   is_Some (lengths !! scheduling_order e) /\ 1 <= unprocessed_token_count e) es ->
  offset + total (counts_of es) < two64 -> tokens + total (counts_of es) < two64 ->
  exists es', pack es counts lengths offset first tokens eligible =
      Some (es', tokens + total (counts_of es), eligible && all_uniform first es) /\
    Forall2 (fun e e' => same_work e e' /\ exists len, lengths !! scheduling_order e = Some len /\
      target_cache_slots e' = RequiredSlots len (unprocessed_token_count e)) es es' /\
    packed offset es'.
Proof.
  intros Hes. revert offset first tokens eligible.
  induction Hes as [|e es (Hc & [len Hl] & Hpos) Hes IH]; intros offset first tokens eligible Ho Ht; cbn [pack].
  { exists []. rewrite andb_true_r. simpl. rewrite N.add_0_r. split_and!; [done|constructor|constructor]. }
  rewrite fmap_cons, total_cons in *. rewrite Hc. simpl. rewrite Hl. simpl.
  rewrite (u64_add_small offset), (u64_add_small tokens) by lia. rewrite u64_sub_small by lia.
  destruct (IH (offset + unprocessed_token_count e) (Some (default (unprocessed_token_count e) first))
    (tokens + unprocessed_token_count e)
    (eligible && negb (is_prefill e) && (unprocessed_token_count e =? default (unprocessed_token_count e) first) &&
       negb (unprocessed_token_count e =? 0))) as (es' & Hrun & Hall & Hpk); [lia|lia|].
  rewrite Hrun. simpl. eexists. split; [|split].
  - f_equal. f_equal; [f_equal; lia|]. unfold uniform_decode. by rewrite !andb_assoc.
  - constructor; [|done]. split; [done|]. by exists len.
  - by constructor.
Qed.

(** ** The plan [PlanStep] produces *)

Lemma sublist_same_length {A} (l1 l2 : list A) : sublist l1 l2 -> length l1 = length l2 -> l1 = l2.
Proof.
  induction 1 as [|x l1 l2 Hs IH|x l1 l2 Hs IH]; intros Hl; [done| |].
  - f_equal. apply IH. simpl in Hl. lia.
  - apply sublist_length in Hs. simpl in Hl. lia.
Qed.

Lemma omap_lookup_seq {A} (l : list A) : omap (fun i => l !! i) (seq 0 (length l)) = l.
Proof.
  assert (forall pre k, k = length pre -> omap (fun i => (pre ++ l) !! i) (seq k (length l)) = l) as Hgen.
  { induction l as [|x l IH]; intros pre k ->; [done|]. cbn [length seq omap list_omap].
    rewrite lookup_app_r, Nat.sub_diag by lia. simpl. f_equal.
    specialize (IH (pre ++ [x]) (S (length pre))). rewrite <- (assoc_L (++)) in IH. simpl in IH.
    apply IH. rewrite length_app. simpl. lia. }
  exact (Hgen [] 0%nat eq_refl).
Qed.

(** Eligibility for graph capture: all rows decode the same number of tokens. *)
Lemma all_uniform_spec n es :
  all_uniform (Some n) es = true <->
  Forall (fun e => is_prefill e = false /\ unprocessed_token_count e = n /\ unprocessed_token_count e <> 0) es.
Proof.
  induction es as [|e es IH]; simpl; [split; [constructor|done]|].
  rewrite andb_true_iff, IH, Forall_cons. unfold uniform_decode. simpl.
  rewrite !andb_true_iff, !negb_true_iff, N.eqb_eq, N.eqb_neq. naive_solver.
Qed.

Lemma all_uniform_none es :
  Forall (fun e => 1 <= unprocessed_token_count e) es ->
  all_uniform None es = true <->
  exists n, Forall (fun e => is_prefill e = false /\ unprocessed_token_count e = n) es.
Proof.
  intros Hpos. destruct es as [|e es]; [split; [exists 0; constructor|done]|].
  apply Forall_cons in Hpos as [He Hpos]. cbn [all_uniform default].
  rewrite andb_true_iff, all_uniform_spec. unfold uniform_decode. simpl.
  rewrite N.eqb_refl, andb_true_r, andb_true_iff, !negb_true_iff, N.eqb_neq. split.
  - intros [[Hp Hz] Hf]. exists (unprocessed_token_count e). constructor; [done|].
    eapply Forall_impl; [exact Hf|]. simpl. tauto.
  - intros (n & [[Hp Hu] Hf]%Forall_cons). subst n. split; [split; [done|lia]|].
    apply Forall_forall. intros e' He'. pose proof (proj1 (Forall_forall _ _) Hf e' He') as [Hp' Hu'].
    pose proof (proj1 (Forall_forall _ _) Hpos e' He') as Hp1. simpl in Hp1. split_and!; [done|done|lia].
Qed.

Lemma same_work_uniform f es es' : Forall2 same_work es es' -> all_uniform f es = all_uniform f es'.
Proof.
  intros Hs. revert f. induction Hs as [|e e' es es' (_ & Hu & _ & Hp & _) Hs IH]; intros f; [done|].
  simpl. unfold uniform_decode. by rewrite Hu, Hp, IH.
Qed.

Section plan_step.
Context {C : Type} `{!CacheManager C} `{!CacheManagerLaws C} (config : DynamicBatching).
Context (h : gmap N Request) (cap max_drafts : N).

(** What a finished plan guarantees to the engine. *)
Record step_ok (p : StepPlan) : Prop := mk_step_ok
  { so_some : requests p <> [];
    so_unique : NoDup (request_id <$> requests p);
    so_tokens : plan_token_count p = total (counts_of (requests p));
    so_budget : plan_token_count p <= max_scheduled_tokens config;
    so_packed : packed 0 (requests p);
    so_work : Forall (fun e => is_Some (h !! request_id e) /\ 1 <= unprocessed_token_count e /\
      draft_token_count e = if is_prefill e then 0 else unprocessed_token_count e - 1) (requests p);
    so_limits : Forall (fun e =>
      if is_prefill e then target_cache_slots e <= whole_sequence_cache_slots e /\
        (cap <> 0 -> unprocessed_token_count e <= cap)
      else unprocessed_token_count e <= 1 + max_drafts) (requests p);
    so_graph : graph_capture_eligible p = true <->
      exists n, Forall (fun e => is_prefill e = false /\ unprocessed_token_count e = n) (requests p) }.

(** Facts about the selected candidates. *)
Definition cands_ok (xs : list Candidate) : Prop :=
  Forall (cand_ok h cap max_drafts) xs /\ NoDup (request_id ∘ entry <$> xs).

Lemma plan_resources_triple p :
  triple (fun s : sched C => frame h s /\ plan s = p) plan_resources
    (fun res s => frame h s /\ plan_token_count (plan s) = plan_token_count p /\
       (exists es, replanned (requests p) es /\ sublist (requests (plan s)) es) /\
       (executable res = true -> requests (plan s) <> [])) (fun _ => True).
Proof.
  intros s [Hf Hp]. unfold plan_resources, mbind, M_bind, gets, id, lift, modify, mret, M_ret.
  pose proof (plan_resources_ok (request_heap s) (cache_manager s) (plan s)) as Hlaw. rewrite Hp in *.
  destruct (PlanResources (request_heap s) (cache_manager s) p) as [[res p']|e| |]; try done.
Qed.

Lemma tracked_ids k xs es : tracked k xs es -> request_id <$> es = request_id ∘ entry <$> xs.
Proof.
  induction 1 as [|k x xs e es Ht Hts IH]; [done|]. rewrite !fmap_cons, IH. f_equal. exact (tr_id _ _ _ Ht).
Qed.

Definition budget_state (all : list Candidate) (counts : list N) (s : sched C) : Prop :=
  frame h s /\ plan_token_count (plan s) = 0 /\ tracked 0 all (requests (plan s)) /\
  counts = counts_of (requests (plan s)) /\ total counts <= max_scheduled_tokens config.

(** The draft loop always ends, with every selected request still planned. *)
Lemma draft_loop_ok all fuel budgeted :
  (N.to_nat (total_drafts budgeted) < fuel)%nat -> tracked 0 all budgeted ->
  total (counts_of budgeted) <= max_scheduled_tokens config -> max_scheduled_tokens config < two64 ->
  triple (fun s : sched C => frame h s /\ requests (plan s) = budgeted /\ plan_token_count (plan s) = 0)
    (draft_loop fuel (candidate_processed <$> all) budgeted (counts_of budgeted))
    (budget_state all) (fun _ => True).
Proof.
  revert budgeted. induction fuel as [|fuel IH]; intros budgeted Hfuel Ht Htot Hmax; [lia|]. cbn [draft_loop].
  intros s0 (Hf0 & Hr0 & Ht0). 
  pose proof (plan_resources_triple (plan s0) s0 (conj Hf0 eq_refl)) as Hres.
  unfold mbind at 1, M_bind at 1. destruct (plan_resources s0) as [[res|e| |] s1]; try done.
  destruct Hres as (Hf1 & Hc1 & (es & Hrep & Hsub) & _). rewrite Hr0 in Hrep. rewrite Ht0 in Hc1.
  destruct (tracked_replanned 0 all budgeted es Ht ltac:(lia) Hrep) as [Htes Htotes].
  unfold mbind at 1, M_bind at 1, gets, id.
  assert (length es = length budgeted) as Hlen by (rewrite (tracked_length _ _ _ Htes), (tracked_length _ _ _ Ht); done).
  destruct (executable res && (length (requests (plan s1)) =? length budgeted)%nat) eqn:Hdone.
  { apply andb_prop in Hdone as [_ Heq%Nat.eqb_eq].
    assert (requests (plan s1) = es) as Hes by (apply sublist_same_length; [done|lia]).
    pose proof (read_counts_ok 0 all es [] (counts_of budgeted) Htes eq_refl
      ltac:(rewrite length_fmap; lia)) as Hread.
    simpl in Hread. rewrite Hes, Hread. unfold mret, M_ret, budget_state. rewrite Hes. split_and!; [done..|lia]. }
  unfold mbind at 1, M_bind at 1, lift.
  pose proof (build_index_ok DuplicatePlanned (request_id <$> requests (plan s1))) as Hix.
  destruct (build_index DuplicatePlanned (request_id <$> requests (plan s1))) as [planned|e| |]; try done.
  destruct (reduce_unplanned_ok all planned [] all budgeted [] eq_refl Ht eq_refl) as (b & es' & Hrun & Ht' & Htot' & Hdec & Hsame).
  simpl in Hrun. rewrite Hrun. destruct b.
  { unfold mbind at 1, M_bind at 1, modify. specialize (Hdec eq_refl).
    apply IH; [lia|done|lia|done|]. split_and!; [done|done|]. exact Hc1. }
  destruct (reduce_last_ok all [] all budgeted [] eq_refl Ht eq_refl) as [[_ Hl]|(es2 & Hl & Ht2 & Htot2 & Hdec2)];
    simpl in Hl; rewrite Hl; [done|].
  unfold mbind at 1, M_bind at 1, modify. apply IH; [lia|done|lia|done|]. split_and!; [done|done|]. exact Hc1.
Qed.

(** The probes offered to the planner are the candidates, one entry each. *)
Definition probes (cands : list Candidate) : list RequestStepPlan :=
  probe_entry <$> omap (fun i => cands !! i) (DecodeFirstCandidateOrder (budget <$> cands)).

Lemma probes_perm cands : probes cands ≡ₚ probe_entry <$> cands.
Proof.
  unfold probes. apply fmap_Permutation. rewrite candidate_order_perm, length_fmap, omap_lookup_seq. done.
Qed.

Lemma replanned_chosen cands es :
  replanned (probes cands) es -> Forall (fun e => exists x, x ∈ cands /\ chosen e x) es /\
    request_id <$> es ≡ₚ request_id ∘ entry <$> cands.
Proof.
  intros Hrep.
  assert (forall e, e ∈ probes cands -> exists x, x ∈ cands /\ e = probe_entry x) as Hin.
  { intros e. rewrite probes_perm. intros (x & -> & Hx)%list_elem_of_fmap. by exists x. }
  assert (request_id <$> probes cands ≡ₚ request_id ∘ entry <$> cands) as Hids.
  { rewrite probes_perm, <- list_fmap_compose. done. }
  destruct Hrep as [->|Hs].
  - split; [|done]. apply Forall_forall. intros e He. destruct (Hin e He) as (x & Hx & ->). by exists x.
  - split.
    + apply Forall_forall. intros e' [i Hi]%list_elem_of_lookup.
      destruct (Forall2_lookup_r _ _ _ _ _ Hs Hi) as (e & He & slots & ->).
      destruct (Hin e (list_elem_of_lookup_2 _ _ _ He)) as (x & Hx & ->). by exists x.
    + rewrite <- Hids. clear -Hs. revert Hs. generalize (probes cands). intros l Hs.
      induction Hs as [|e e' l es (slots & ->) Hs IH]; [done|]. rewrite !fmap_cons. by rewrite IH.
Qed.

(** The index finds exactly the candidate each selected entry came from. *)
Lemma selected_chosen cands es xs :
  NoDup (request_id ∘ entry <$> cands) ->
  Forall (fun e => exists x, x ∈ cands /\ chosen e x) es ->
  Forall2 (fun e x => x ∈ cands /\ request_id e = request_id (entry x)) es xs ->
  Forall2 chosen es xs.
Proof.
  intros Hnd Hes Hxs. induction Hxs as [|e x es xs [Hx Hid] Hxs IH]; [constructor|].
  apply Forall_cons in Hes as [(y & Hy & Hch) Hes]. constructor; [|auto].
  assert (x = y) as ->; [|done].
  apply list_elem_of_lookup in Hx as [i Hi]. apply list_elem_of_lookup in Hy as [j Hj].
  assert (i = j) as ->; [|congruence].
  eapply (NoDup_lookup _ _ _ (request_id e) Hnd); rewrite list_lookup_fmap_Some.
  - exists x. done.
  - exists y. by destruct Hch.
Qed.

Lemma budget_selected_ok cands :
  max_scheduled_tokens config < two64 -> Forall (cand_ok h cap max_drafts) cands ->
  triple (fun s : sched C => frame h s /\ plan_token_count (plan s) = 0 /\ requests (plan s) <> [] /\
            exists es, replanned (probes cands) es /\ sublist (requests (plan s)) es)
    (budget_selected config cands)
    (fun r s => exists xs, budget_state xs r.1 s /\ r.2 = candidate_processed <$> xs /\ cands_ok xs /\ xs <> [])
    (fun _ => True).
Proof.
  intros Hmax Hc s (Hf & Ht0 & Hne & es0 & Hrep & Hsub). unfold budget_selected, mbind, M_bind, lift, gets, id, modify.
  pose proof (build_index_ok InvalidOrDuplicateCandidate ((fun x => request_id (entry x)) <$> cands)) as Hix.
  destruct (build_index InvalidOrDuplicateCandidate _) as [ix|e| |]; try done. destruct Hix as [Hnd Hix].
  pose proof (selected_candidates_ok ix cands (requests (plan s)) Hix) as Hsel.
  destruct (selected_candidates ix cands (requests (plan s))) as [xs|e| |]; try done.
  pose proof (decode_budget (budget <$> xs) (max_scheduled_tokens config)) as Hb.
  destruct (AllocateDecodeFirstTokenBudget _ _) as [counts|e| |]; try done.
  destruct Hb as [Htot Hdem].
  destruct (replanned_chosen cands es0 Hrep) as [Hch Hperm].
  assert (Forall2 chosen (requests (plan s)) xs) as Hcx.
  { apply (selected_chosen cands); [done| |done]. apply Forall_forall. intros e He.
    apply (proj1 (Forall_forall _ _) Hch). by eapply elem_of_sublist. }
  destruct (apply_budget_ok 0 _ _ _ Hcx Hdem) as [Htr Hcs].
  set (budgeted := apply_budget 0 (requests (plan s)) xs counts) in *.
  assert (cands_ok xs) as Hxs.
  { split.
    - apply Forall_forall. intros x Hx. apply (proj1 (Forall_forall _ _) Hc).
      apply list_elem_of_lookup in Hx as [i Hi].
      destruct (Forall2_lookup_r _ _ _ _ _ Hsel Hi) as (e & _ & Hin & _). done.
    - rewrite <- (tracked_ids 0 xs budgeted Htr).
      assert (request_id <$> budgeted = request_id <$> requests (plan s)) as ->.
      { rewrite (tracked_ids 0 xs budgeted Htr). clear -Hcx.
        induction Hcx as [|e x es xs (Hid & _) Hcx IH]; [done|]. rewrite !fmap_cons, IH. by rewrite Hid. }
      eapply sublist_NoDup; [|apply fmap_sublist; exact Hsub]. rewrite Hperm. exact Hnd. }
  assert (xs <> []) as Hxne.
  { intros ->. apply Forall2_nil_inv_r in Hcx. done. }
  destruct (existsb (fun e => negb (draft_token_count e =? 0)) budgeted).
  - pose proof (draft_loop_ok xs (S (N.to_nat (total_drafts budgeted))) budgeted ltac:(lia) Htr
      ltac:(rewrite Hcs; done) Hmax (set_step (with_requests budgeted (plan s)) s)) as Hdl.
    rewrite Hcs in Hdl. specialize (Hdl (conj Hf (conj eq_refl Ht0))).
    destruct (draft_loop _ _ _ _ _) as [[counts'|e| |] s']; try done.
    simpl. by exists xs.
  - simpl. exists xs. split_and!; [|done..]. unfold budget_state. simpl. rewrite Hcs. done.
Qed.

(** What a tracked entry may do, from what is known of its candidate. *)
Lemma tracked_limits k x e slots :
  tracks k x e -> cand_ok h cap max_drafts x -> slots = RequiredSlots (candidate_processed x) (unprocessed_token_count e) ->
  if is_prefill e then slots <= whole_sequence_cache_slots e /\ (cap <> 0 -> unprocessed_token_count e <= cap)
  else unprocessed_token_count e <= 1 + max_drafts.
Proof.
  intros Ht Hx ->. pose proof (tr_count _ _ _ Ht) as Hcount. pose proof (tr_prefill _ _ _ Ht) as Hpre.
  pose proof (ca_prefill _ _ _ _ Hx) as Hbp. unfold demand in Hcount. rewrite Hbp, <- Hpre in Hcount.
  destruct (is_prefill e) eqn:He.
  - pose proof (ca_length _ _ _ _ Hx) as Hlen. pose proof (ca_whole _ _ _ _ Hx) as Hwh. rewrite (tr_whole _ _ _ Ht).
    assert (0 < pending_token_count (budget x)) as Hpos.
    { unfold prefill_limit in Hcount. destruct (negb _) in Hcount; lia. }
    pose proof (prefill_limit_pos (budget x) Hpos).
    unfold RequiredSlots. rewrite u64_add_small by (unfold two64; lia). split; [lia|].
    intros Hcap. pose proof (ca_cap _ _ _ _ Hx Hcap ltac:(congruence)). lia.
  - pose proof (ca_drafts _ _ _ _ Hx). lia.
Qed.

Lemma stage_frame es p :
  Forall (fun e => is_Some (h !! request_id e)) es ->
  triple (fun s : sched C => dom h ⊆ dom (request_heap s) /\ plan s = p) (stage_or_rollback es)
    (fun _ s => plan s = p) (fun s => plan s = p).
Proof.
  intros Hes s (Hdom & Hp).
  assert (forall s0 : sched C, dom h ⊆ dom (request_heap s0) -> plan s0 = p ->
    match stage_adoptions es s0 with
    | (Ok _, s') | (Throw _, s') => plan s' = p | (Terminate, _) | (Undefined, _) => False end) as Hst.
  { clear s Hdom Hp. induction Hes as [|e es [q0 He] Hes IH]; intros s Hdom Hp; simpl; [done|].
    destruct (prefix_match e) as [m|]; [|by apply IH].
    unfold deref, mbind, M_bind, gets, id.
    assert (is_Some (request_heap s !! request_id e)) as [q Hq].
    { apply elem_of_dom, Hdom, elem_of_dom. by exists q0. }
    rewrite Hq. simpl. unfold StagePrefixAdoption. destruct (_ || _); [done|].
    unfold modify. apply IH; [|done]. simpl. rewrite dom_insert. set_solver. }
  specialize (Hst s Hdom Hp). unfold stage_or_rollback.
  destruct (stage_adoptions es s) as [[[]|e| |] s']; try done.
Qed.

Lemma total_perm l1 l2 : l1 ≡ₚ l2 -> total l1 = total l2.
Proof. induction 1; simpl; unfold total in *; simpl; lia. Qed.

(** The finished plan, from the entries before packing. *)
Lemma finish_step_ok xs counts p es' :
  Forall (cand_ok h cap max_drafts) xs -> total counts <= max_scheduled_tokens config ->
  requests p <> [] -> NoDup (request_id <$> requests p) -> total (counts_of (requests p)) = total counts ->
  Forall2 (fun e e' => same_work e e' /\ exists x, x ∈ xs /\ tracks (scheduling_order e) x e /\
    target_cache_slots e' = RequiredSlots (candidate_processed x) (unprocessed_token_count e)) (requests p) es' ->
  request_id <$> es' = request_id <$> requests p -> counts_of es' = counts_of (requests p) ->
  packed 0 es' ->
  step_ok (with_totals (total counts)
    (negb (length (requests p) =? 0)%nat && all_uniform None (requests p)) (with_requests es' p)).
Proof.
  intros Hxs Htot Hne Hnd Htp Hrel Hids Hcnt Hpk.
  assert (Forall (fun e' => is_Some (h !! request_id e') /\ 1 <= unprocessed_token_count e' /\
    draft_token_count e' = (if is_prefill e' then 0 else unprocessed_token_count e' - 1) /\
    (if is_prefill e' then target_cache_slots e' <= whole_sequence_cache_slots e' /\
        (cap <> 0 -> unprocessed_token_count e' <= cap)
      else unprocessed_token_count e' <= 1 + max_drafts)) es') as Hall.
  { clear -Hxs Hrel CacheManagerLaws0. induction Hrel as [|e e' es es' [(H1 & H2 & H3 & H4 & H5 & _) (x & Hx & Htx & Hsl)] Hrel IH];
      [constructor|]. constructor; [|done].
    pose proof (proj1 (Forall_forall _ _) Hxs x Hx) as Hcx. rewrite H1, H2, H3, H4, H5.
    split_and!; [rewrite (tr_id _ _ _ Htx); apply (ca_heap _ _ _ _ Hcx)|apply (tr_count _ _ _ Htx)|
      apply (tr_drafts _ _ _ Htx)|by apply (tracked_limits (scheduling_order e) x e)]. }
  constructor; simpl.
  - intros ->. apply Forall2_nil_inv_r in Hrel. done.
  - by rewrite Hids.
  - by rewrite Hcnt, Htp.
  - done.
  - done.
  - eapply Forall_impl; [exact Hall|]. simpl. tauto.
  - eapply Forall_impl; [exact Hall|]. simpl. tauto.
  - rewrite (same_work_uniform None (requests p) es') by (eapply Forall2_impl; [exact Hrel|]; by intros e e' [? _]).
    destruct (Nat.eqb_spec (length (requests p)) 0) as [Hz|_]; [by apply nil_length_inv in Hz|]. simpl.
    apply all_uniform_none. eapply Forall_impl; [exact Hall|]. simpl. tauto.
Qed.

Lemma finish_plan_ok xs counts lengths :
  max_scheduled_tokens config < two64 -> cands_ok xs -> xs <> [] -> lengths = candidate_processed <$> xs ->
  triple (budget_state xs counts) (finish_plan counts lengths) (fun _ s => step_ok (plan s)) (fun _ => True).
Proof.
  intros Hmax [Hxs Hnd] Hne -> s (Hf & Ht0 & Htr & Hcs & Htot).
  unfold finish_plan, mbind, M_bind, gets, id, lift.
  pose proof (order_step_ok (cache_manager s) (plan s)) as Hord.
  destruct (OrderStepForExecution (cache_manager s) (plan s)) as [p|e| |]; try done.
  destruct Hord as [Htc Hperm]. set (es := requests (plan s)) in *.
  assert (total (counts_of (requests p)) = total counts) as Htp.
  { rewrite Hcs. apply total_perm. by rewrite Hperm. }
  assert (Forall (fun e => exists x, x ∈ xs /\ tracks (scheduling_order e) x e /\
    counts !! scheduling_order e = Some (unprocessed_token_count e) /\
    (candidate_processed <$> xs) !! scheduling_order e = Some (candidate_processed x)) (requests p)) as Hall.
  { apply Forall_forall. intros e He. rewrite Hperm in He.
    destruct (tracked_lookup _ _ _ _ Htr He) as (i & x & Hx & Htx & Hei). simpl in Htx.
    pose proof (tr_order _ _ _ Htx) as Ho. rewrite Ho. exists x. split; [by eapply list_elem_of_lookup_2|].
    split; [done|]. rewrite Hcs, !list_lookup_fmap, Hei, Hx. done. }
  destruct (pack_ok counts (candidate_processed <$> xs) (requests p) 0 None (plan_token_count p)
    (negb (length (requests p) =? 0)%nat)) as (es' & Hpack & Hsame & Hpacked).
  { eapply Forall_impl; [exact Hall|]. simpl. intros e (x & _ & Htx & H1 & H2). rewrite H2.
    split_and!; [done|by eexists|]. apply (tr_count _ _ _ Htx). }
  { rewrite Htp. lia. }
  { rewrite Htp, Htc, Ht0. lia. }
  rewrite Hpack. unfold modify. rewrite Htc, Ht0, Htp, N.add_0_l.
  assert (Forall2 (fun e e' => same_work e e' /\ exists x, x ∈ xs /\ tracks (scheduling_order e) x e /\
    target_cache_slots e' = RequiredSlots (candidate_processed x) (unprocessed_token_count e)) (requests p) es') as Hrel.
  { clear -Hall Hsame. induction Hsame as [|e e' es es' [Hw (len & Hl & Ht)] Hsame IH]; [constructor|].
    apply Forall_cons in Hall as [(x & Hx & Htx & _ & Hlx) Hall]. constructor; [|auto]. split; [done|].
    exists x. rewrite Hl in Hlx. injection Hlx as ->. done. }
  assert (request_id <$> es' = request_id <$> requests p) as Hids.
  { clear -Hrel. induction Hrel as [|e e' es es' [(Hid & _) _] Hrel IH]; [done|]. rewrite !fmap_cons, IH. by rewrite Hid. }
  assert (counts_of es' = counts_of (requests p)) as Hcnt.
  { clear -Hrel. induction Hrel as [|e e' es es' [(_ & Hid & _) _] Hrel IH]; [done|]. rewrite !fmap_cons, IH. by rewrite Hid. }
  set (fin := with_totals (total counts) _ (with_requests es' p)).
  assert (step_ok fin) as Hok.
  { apply (finish_step_ok xs counts p es'); try done.
    - intros Hnil. pose proof (Permutation_length Hperm) as Hpl. rewrite Hnil in Hpl.
      pose proof (tracked_length _ _ _ Htr) as Htl. fold es in Htl. destruct xs; [done|]. simpl in *. lia.
    - rewrite Hperm, (tracked_ids _ _ _ Htr). done. }
  pose proof (stage_frame es' fin) as Hst.
  assert (Forall (fun e => is_Some (h !! request_id e)) es') as Hheap.
  { eapply Forall_impl; [exact (so_work _ Hok)|]. by intros e [? _]. }
  specialize (Hst Hheap (set_step fin s)). simpl in Hst.
  unfold frame in Hf. rewrite Hf in Hst. specialize (Hst ltac:(done)).
  destruct (stage_or_rollback es' (set_step fin s)) as [[[]|e| |] s']; try done. by rewrite Hst.
Qed.

Lemma record_deferred_ok res cands (P : sched C -> Prop) :
  (forall c s, P s -> P (set_cache c s)) ->
  triple P (record_deferred res cands) (fun _ => P) (fun _ => True).
Proof.
  intros HP s Hs. unfold record_deferred. destruct (negb (capacity_deferred res)); [done|].
  unfold mbind, M_bind, gets, id, modify. by apply HP.
Qed.
End plan_step.

(** C19: Planning a step.  For every cache manager that keeps its promises and every
    heap of requests with sensible lengths, [DynamicBatchScheduler::PlanStep] returns,
    throws or ends the process in a [noexcept] call: no handle dangles, no index is out
    of range and the loop that gives drafts back ends.  If it reports an executable step, the plan serves at least one
    request, none twice; its token count is the sum of its entries' counts and within
    the token budget; the entries are packed into consecutive rows with each one's
    logits in its last row; every entry has a token, a decode's drafts are its tokens
    but one and stay within the cache's limit, a prefill chunk stays within the cache's
    query cap and within the slots reserved for its whole sequence; and the step is
    eligible for graph capture exactly when all entries decode equally many tokens. *)
Theorem plan_step_correct {C} `{!CacheManager C} `{!CacheManagerLaws C} (config : DynamicBatching)
    (s : sched C) :
  heap_ok (request_heap s) -> max_scheduled_tokens config < two64 ->
  Forall (fun r => is_Some (request_heap s !! r)) (AllocatedRequests (cache_manager s)) ->
  Forall (fun r => is_Some (request_heap s !! r)) (requests_pool_ s) ->
  match PlanStep config s with
  | (Ok res, s') =>
    executable res = true ->
    step_ok config (request_heap s) (MaxQueryTokensPerRequest (cache_manager s))
      (MaxDraftTokensPerStep (cache_manager s)) (plan s')
  | (Throw _, _) => True
  | (Terminate, _) => True
  | (Undefined, _) => False
  end.
Proof.
  intros Hh Hmax Halloc Hpool. set (h := request_heap s) in *.
  set (cap := MaxQueryTokensPerRequest (cache_manager s)). set (dr := MaxDraftTokensPerStep (cache_manager s)).
  set (p0 := cleared_plan (plan s)). set (s0 := set_step p0 s).
  change (PlanStep config s) with
    ((residents ← resident_candidates cap dr (AllocatedRequests (cache_manager s));
      news ← new_candidates cap dr (requests_pool_ s);
      let candidates := residents ++ news in
      limit ← lift (DecodeFirstProvisionalRequestLimit (max_scheduled_tokens config) (max_batch_size config));
      _ ← modify (fun s => set_step (with_limit limit (with_requests (probes candidates) (plan s))) s);
      result ← plan_resources;
      if negb (executable result) then _ ← record_deferred result candidates; mret result
      else x ← budget_selected config candidates; _ ← record_deferred result candidates;
        _ ← finish_plan x.1 x.2; mret result) s0).
  assert (frame_inv h p0 s0) as Hs0 by done.
  match goal with |- match ?m s0 with _ => _ end => enough (triple (frame_inv h p0) m
    (fun res s' => executable res = true -> step_ok config h cap dr (plan s')) (fun _ => True)) as Ht
    by (specialize (Ht s0 Hs0); by destruct (m s0) as [[]]) end.
  eapply triple_bind; [by apply resident_candidates_ok|]. intros residents.
  eapply (triple_bind _ _ _ (fun news s => frame_inv h p0 s /\ Forall (cand_ok h cap dr) (residents ++ news))).
  { intros s1 [Hs1 Hr]. pose proof (new_candidates_ok h cap dr (requests_pool_ s) p0 Hh Hpool s1 Hs1) as Hn.
    destruct (new_candidates cap dr (requests_pool_ s) s1) as [[xs|e| |] s2]; try done.
    split; [apply Hn|]. apply Forall_app. split; [done|apply Hn]. }
  intros news. set (cands := residents ++ news).
  intros s1 [Hs1 Hc]. unfold mbind at 1, M_bind at 1, lift.
  unfold DecodeFirstProvisionalRequestLimit. destruct (_ || _); [done|].
  unfold mbind at 1, M_bind at 1, modify.
  match goal with |- match (_ ≫= _) ?s2 with _ => _ end => set (s2' := s2) end.
  pose proof (plan_resources_triple h (plan s2') s2' (conj (proj1 Hs1) eq_refl)) as Hres.
  unfold mbind at 1, M_bind at 1. destruct (plan_resources s2') as [[res|e| |] s3]; try done.
  destruct Hres as (Hf3 & Htc & Hex & Hsome).
  destruct (executable res) eqn:Hexe; cbn [negb].
  - enough (triple (fun s => s = s3) (x ← budget_selected config cands; _ ← record_deferred res cands;
      _ ← finish_plan x.1 x.2; mret res)
      (fun r s' => executable r = true -> step_ok config h cap dr (plan s')) (fun _ => True)) as Ht
      by exact (Ht s3 eq_refl).
    eapply triple_bind.
    { eapply triple_conseq; [apply (budget_selected_ok config h cap dr cands Hmax Hc)| |intros a s' Ha; exact Ha|done].
      intros s' ->. split_and!; [done| |by apply Hsome|exact Hex].
      rewrite Htc. unfold s2'. simpl. by rewrite (proj2 Hs1). }
    intros x. eapply triple_bind; [apply record_deferred_ok; by intros c s' Hs'|]. intros [].
    eapply triple_bind.
    { intros s' (xs & Hbs & Hl & Hco & Hne).
      exact (finish_plan_ok config h cap dr xs x.1 x.2 Hmax Hco Hne Hl s' Hbs). }
    intros [] s' Hok _. exact Hok.
  - pose proof (record_deferred_ok res cands (fun _ : sched C => True) ltac:(done) s3 I) as Hr.
    unfold mbind, M_bind. destruct (record_deferred res cands s3) as [[[]|e| |] s4]; try done.
    simpl. by rewrite Hexe.
Qed.

(** ** Staging prefix adoptions is all or nothing *)

Section adoption.
Context {C : Type} `{!CacheManager C}.

Lemma stage_adoptions_spec es (h0 : gmap N Request) (s : sched C) :
  NoDup (request_id <$> es) -> Forall (fun e => is_Some (h0 !! request_id e)) es ->
  Forall (fun e => request_heap s !! request_id e = h0 !! request_id e) es ->
  match stage_adoptions es s with
  | (Ok _, s') =>
    forall r, request_heap s' !! r = request_heap s !! r /\
        (forall e m, e ∈ es -> r = request_id e -> prefix_match e <> Some m) \/
      exists e m q q', e ∈ es /\ r = request_id e /\ prefix_match e = Some m /\
        h0 !! r = Some q /\ StagePrefixAdoption (token_count m) q = Ok q' /\ request_heap s' !! r = Some q'
  | (Throw _, s') =>
    forall r, request_heap s' !! r = request_heap s !! r \/
      exists e m q q', e ∈ es /\ r = request_id e /\ prefix_match e = Some m /\
        h0 !! r = Some q /\ StagePrefixAdoption (token_count m) q = Ok q' /\ request_heap s' !! r = Some q'
  | _ => False
  end.
Proof.
  revert s. induction es as [|e es IH]; intros s Hnd Hin Hsame; simpl.
  { intros r. left. split; [done|]. intros e m He. by apply not_elem_of_nil in He. }
  rewrite fmap_cons in Hnd. apply NoDup_cons in Hnd as [Hnew Hnd].
  apply Forall_cons in Hin as [[q Hq] Hin]. apply Forall_cons in Hsame as [He Hsame].
  destruct (prefix_match e) as [m|] eqn:Hm.
  2: { specialize (IH s Hnd Hin Hsame). destruct (stage_adoptions es s) as [[[]|err| |] s']; try done.
       - intros r. destruct (IH r) as [[H1 H2]|(e' & m & q0 & q' & He' & Hx)].
         + left. split; [done|]. intros e' m [->|He']%elem_of_cons Hr; [congruence|by apply H2].
         + right. exists e', m, q0, q'. split; [by right|done].
       - intros r. destruct (IH r) as [H1|(e' & m & q0 & q' & He' & Hx)]; [by left|].
         right. exists e', m, q0, q'. split; [by right|done]. }
  unfold deref, mbind, M_bind, gets, id, modify. rewrite He, Hq. simpl.
  destruct (StagePrefixAdoption (token_count m) q) as [q'|err| |] eqn:Hst; simpl.
  2: { intros r. by left. }
  2,3: unfold StagePrefixAdoption in Hst; by destruct (_ || _).
  set (s1 := set_heap (<[request_id e := q']> (request_heap s)) s).
  assert (Forall (fun e0 => request_heap s1 !! request_id e0 = h0 !! request_id e0) es) as Hsame1.
  { apply Forall_forall. intros e0 He0. simpl. rewrite lookup_insert_ne.
    - by apply (proj1 (Forall_forall _ _) Hsame).
    - intros Heq. apply Hnew. rewrite Heq. by apply list_elem_of_fmap_2. }
  assert (forall r, request_heap s1 !! r = request_heap s !! r \/
    (r = request_id e /\ request_heap s1 !! r = Some q')) as Hs1.
  { intros r. simpl. destruct (decide (r = request_id e)) as [->|Hne].
    - right. by rewrite lookup_insert_eq.
    - left. by rewrite lookup_insert_ne. }
  specialize (IH s1 Hnd Hin Hsame1). destruct (stage_adoptions es s1) as [[[]|err| |] s']; try done.
  - intros r. destruct (IH r) as [[H1 H2]|(e' & m' & q0 & q1 & He' & Hx)].
    + destruct (decide (r = request_id e)) as [->|Hne].
      * right. exists e, m, q, q'. simpl in H1. rewrite lookup_insert_eq in H1. split_and!; [by left|done..].
      * left. simpl in H1. rewrite lookup_insert_ne in H1 by done. split; [done|].
        intros e' m' [->|He']%elem_of_cons Hr; [done|by apply H2].
    + right. exists e', m', q0, q1. split; [by right|done].
  - intros r. destruct (IH r) as [H1|(e' & m' & q0 & q1 & He' & Hx)].
    + destruct (Hs1 r) as [H2|[-> H2]]; [left; congruence|].
      right. exists e, m, q, q'. split_and!; [by left|done|done|done|done|congruence].
    + right. exists e', m', q0, q1. split; [by right|done].
Qed.

Lemma rollback_lookup es (h : gmap N Request) r :
  foldl (fun h e => alter RollbackPrefixAdoption (request_id e) h) h es !! r =
  if decide (r ∈ request_id <$> es) then RollbackPrefixAdoption <$> h !! r else h !! r.
Proof.
  revert h. induction es as [|e es IH]; intros h; [done|]. simpl foldl. rewrite IH.
  destruct (decide (request_id e = r)) as [<-|Hne].
  - rewrite lookup_alter_eq, (decide_True (P := request_id e ∈ request_id <$> e :: es)) by (rewrite fmap_cons; by left).
    destruct (decide _); [|done]. destruct (h !! request_id e) as [q|]; [|done]. simpl. by rewrite rollback_idempotent.
  - rewrite lookup_alter_ne by done. rewrite fmap_cons.
    destruct (decide (r ∈ request_id <$> es)) as [Hin|Hin].
    + rewrite decide_True; [done|by right].
    + rewrite decide_False; [done|]. rewrite elem_of_cons. naive_solver.
Qed.

End adoption.

(** ** A concrete cache manager

    It holds a list of residents, has room for everything and serves requests up to
    the plan's limit. *)

#[local] Instance roomy_cache : CacheManager (list N) := {
  AllocatedRequests c := c;
  IsResident c r := bool_decide (r ∈ c);
  MaxQueryTokensPerRequest _ := 0;
  MaxDraftTokensPerStep _ := 3;
  MatchPrefix r _ c := (Ok (if r =? 24 then Some (mkPrefixMatch 4 [2%nat] false) else None), c);
  PlanResources _ _ p :=
    let es := take (N.to_nat (scheduled_request_limit p)) (requests p) in
    let some := negb (length es =? 0)%nat in
    Ok (mkResult some (length es <? length (requests p))%nat 0
          (mkOutcome (if some then Committed else NoWork) (transaction_id p) 0),
        with_requests es p);
  RecordDeferredPrefixMatches _ c := c;
  OrderStepForExecution _ p := Ok p;
  Deallocate rs c := (Ok tt, filter (fun r => r ∉ rs) c)
}.

#[local] Instance roomy_laws : CacheManagerLaws (list N).
Proof.
  split.
  - intros h c p. simpl. split_and!; [done| |].
    + exists (requests p). split; [by left|]. apply sublist_take.
    + intros He Hnil. by rewrite Hnil in He.
  - intros c p. done.
  - intros r q c. simpl. split_and!; [|done|done]. intros m. destruct (r =? 24); [|done].
    intros [= <-]. simpl. lia.
Qed.

(** A resident that decodes with two drafts, a queued prompt with four cached tokens,
    and a second queued prompt. *)
Definition sample_decode : Request := mkRequest Active true 9 9 2 0 8 6 None 1 6 0 0 false.
Definition sample_prompt (n : Z) : Request := mkRequest Assigned true n (Z.to_N n) 0 0 0 n (Some 8) 0 (Z.to_N n) 0 0 false.
Definition sample_sched : sched (list N) :=
  mkSched (<[16 := sample_decode]> (<[24 := sample_prompt 6]> (<[32 := sample_prompt 20]> ∅))) [16] [16; 24; 32]
    (mkPlan 5 [] 0 0 0 no_fixed_state false).
Definition sample_config : DynamicBatching := mkBatching 10 4.

Lemma sample_heap_ok : heap_ok (request_heap sample_sched).
Proof.
  intros r q Hq. unfold sample_sched in Hq. simpl in Hq.
  repeat (apply lookup_insert_Some in Hq as [[<- <-]|[_ Hq]]; [simpl; lia|]). done.
Qed.

Lemma plan_step_correct_witness :
  (exists res s', PlanStep sample_config sample_sched = (Ok res, s') /\ executable res = true /\
     (fun e => (request_id e, unprocessed_token_count e, packed_token_offset e)) <$> requests (plan s') =
       [(16, 3, 0); (24, 2, 3); (32, 5, 5)]) /\
  match PlanStep sample_config sample_sched with
  | (Ok res, s') =>
    executable res = true ->
    step_ok sample_config (request_heap sample_sched) (MaxQueryTokensPerRequest (cache_manager sample_sched))
      (MaxDraftTokensPerStep (cache_manager sample_sched)) (plan s')
  | (Throw _, _) => True
  | (Terminate, _) => True
  | (Undefined, _) => False
  end.
Proof.
  split; [eexists _, _; split; [vm_compute; reflexivity|by vm_compute]|].
  apply (plan_step_correct sample_config sample_sched sample_heap_ok).
  - unfold two64. simpl. lia.
  - repeat (apply Forall_cons; split; [eexists; vm_compute; reflexivity|]). constructor.
  - repeat (apply Forall_cons; split; [eexists; vm_compute; reflexivity|]). constructor.
Defined.

(** Two matched requests; the second adoption covers the whole prompt and is refused. *)
Definition sample_entries (second : N) : list RequestStepPlan :=
  [mkStepEntry 24 6 2 0 0 1 6 6 true true 0 (Some (mkPrefixMatch 4 [2%nat] false));
   mkStepEntry 32 20 5 0 2 6 9 20 true true 1 (Some (mkPrefixMatch second [3%nat] false))].

Lemma sample_unstaged r q :
  request_heap sample_sched !! r = Some q ->
  prefix_adoption_staged_ q = false /\ turn_cached_prompt_tokens_ q = 0 /\ adopted_prefix_length_ q = 0.
Proof.
  intros Hq. unfold sample_sched in Hq. simpl in Hq.
  repeat (apply lookup_insert_Some in Hq as [[<- <-]|[_ Hq]]; [done|]). done.
Qed.

