(* ===== verification/PrefixCache.v ===== *)
(** * The prefix cache

    Models [PrefixCache] (engine/prefix_cache.{h,cpp}): the content-addressed index
    over the block pool's filled blocks, with bounded least-recently-used retention
    and checkpointed prefixes.  The cache is the pool's reference observer, so the
    state of every operation is [BlockPool]'s world with the cache as its observer.

    An [Entry*] is the id of its block, the key under which [entries_] owns it; an
    iterator into one of the lists is the position of that id.  Identities are
    immutable heap objects compared by address; the heaps only grow.  A checkpoint is
    an address too: its token count and the number of holders outside the cache are
    in [checkpoints] and [drafts], since leases change without telling the cache.
    Failing allocations are not modelled. *)

From S2P Require Import Prelude BlockPool.

(** ** Hashing *)

Definition kFnvOffsetBasis : N := 1469598103934665603.
Definition kFnvPrime : N := 1099511628211.

(** The [n] low bytes of [z], least significant first. *)
Fixpoint bytes_of (n : nat) (z : Z) : list N :=
  match n with
  | 0 => []
  | S n => Z.to_N (z mod 256) :: bytes_of n (z / 256)
  end.

Definition HashBytes (hash : N) (bytes : list N) : N :=
  fold_left (fun h b => u64_mul (N.lxor h b) kFnvPrime) bytes hash.

Definition RootHash : N := kFnvOffsetBasis.

Definition ChainHash (parent_hash : N) (tokens : list Z) : N :=
  let hash := HashBytes kFnvOffsetBasis (bytes_of 8 (Z.of_N parent_hash)) in
  let hash := HashBytes hash (bytes_of 8 (Z.of_nat (length tokens))) in
  fold_left (fun h token => HashBytes h (bytes_of 4 token)) tokens hash.

(** ** State *)

Record PrefixCacheOptions : Type := mkOptions
  { enabled : bool;
    max_blocks : nat;
    requires_checkpoint : bool;
    max_checkpoints : nat;
    hash_override : option (N -> list Z -> N) }.

Record PrefixCacheMetrics : Type := mkMetrics
  { lookups : N;
    matches : N;
    deferred_matches : N;
    hits : N;
    queried_tokens : N;
    matched_tokens : N;
    registered_blocks : N;
    duplicate_registrations : N;
    hash_collisions : N;
    evictions : N;
    retention_refusals : N;
    publication_refusals : N }.

Definition zero_metrics : PrefixCacheMetrics := mkMetrics 0 0 0 0 0 0 0 0 0 0 0 0.

Inductive Metric : Type :=
  | Lookups | Matches | DeferredMatches | Hits | QueriedTokens | MatchedTokens | RegisteredBlocks
  | DuplicateRegistrations | HashCollisions | Evictions | RetentionRefusals | PublicationRefusals.

(** [metrics_.m += n] *)
Definition bump (m : Metric) (n : N) (s : PrefixCacheMetrics) : PrefixCacheMetrics :=
  let inc := fun m' => match m, m' with
    | Lookups, Lookups | Matches, Matches | DeferredMatches, DeferredMatches | Hits, Hits
    | QueriedTokens, QueriedTokens | MatchedTokens, MatchedTokens | RegisteredBlocks, RegisteredBlocks
    | DuplicateRegistrations, DuplicateRegistrations | HashCollisions, HashCollisions
    | Evictions, Evictions | RetentionRefusals, RetentionRefusals
    | PublicationRefusals, PublicationRefusals => fun x => u64_add x n
    | _, _ => fun x => x end in
  mkMetrics (inc Lookups (lookups s)) (inc Matches (matches s)) (inc DeferredMatches (deferred_matches s))
    (inc Hits (hits s)) (inc QueriedTokens (queried_tokens s)) (inc MatchedTokens (matched_tokens s))
    (inc RegisteredBlocks (registered_blocks s)) (inc DuplicateRegistrations (duplicate_registrations s))
    (inc HashCollisions (hash_collisions s)) (inc Evictions (evictions s))
    (inc RetentionRefusals (retention_refusals s)) (inc PublicationRefusals (publication_refusals s)).

Record Entry : Type := mkEntry
  { entry_block : addr;
    entry_identity : BlockIdentity;
    checkpoint : option addr;
    draft_checkpoint : option addr;
    parent_block_id : option nat;
    reclaimable : bool;
    promote_on_release : bool }.

(** A fixed-state checkpoint, and a draft checkpoint with its eviction state. *)
Record Checkpoint : Type := mkCheckpoint
  { checkpoint_tokens : nat;
    checkpoint_leases : nat }.
Record DraftCheckpoint : Type := mkDraft
  { draft_tokens : nat;
    draft_evicted : bool;
    draft_leases : nat }.

Record PrefixCache : Type := mkPrefixCache
  { options_ : PrefixCacheOptions;
    entries_ : gmap nat Entry;
    entries_by_hash_ : list (N * nat);
    recency_ : list nat;
    referenced_entries_ : list nat;
    reclaimable_entries_ : list nat;
    entries_by_block_id_ : list (option nat);
    leased_ancestry_ : list bool;
    checkpoint_entries_ : list nat;
    metrics_ : PrefixCacheMetrics;
    checkpoints : gmap addr Checkpoint;
    drafts : gmap addr DraftCheckpoint;
    identities : gmap addr BlockIdentity;
    logicals : gmap addr LogicalPrefixIdentity }.

Definition set_entries (m : gmap nat Entry) (c : PrefixCache) : PrefixCache :=
  mkPrefixCache (options_ c) m (entries_by_hash_ c) (recency_ c) (referenced_entries_ c)
    (reclaimable_entries_ c) (entries_by_block_id_ c) (leased_ancestry_ c) (checkpoint_entries_ c)
    (metrics_ c) (checkpoints c) (drafts c) (identities c) (logicals c).
Definition set_by_hash (l : list (N * nat)) (c : PrefixCache) : PrefixCache :=
  mkPrefixCache (options_ c) (entries_ c) l (recency_ c) (referenced_entries_ c)
    (reclaimable_entries_ c) (entries_by_block_id_ c) (leased_ancestry_ c) (checkpoint_entries_ c)
    (metrics_ c) (checkpoints c) (drafts c) (identities c) (logicals c).
Definition set_lists (recent referenced reclaim : list nat) (c : PrefixCache) : PrefixCache :=
  mkPrefixCache (options_ c) (entries_ c) (entries_by_hash_ c) recent referenced
    reclaim (entries_by_block_id_ c) (leased_ancestry_ c) (checkpoint_entries_ c)
    (metrics_ c) (checkpoints c) (drafts c) (identities c) (logicals c).
Definition set_by_id (l : list (option nat)) (c : PrefixCache) : PrefixCache :=
  mkPrefixCache (options_ c) (entries_ c) (entries_by_hash_ c) (recency_ c) (referenced_entries_ c)
    (reclaimable_entries_ c) l (leased_ancestry_ c) (checkpoint_entries_ c)
    (metrics_ c) (checkpoints c) (drafts c) (identities c) (logicals c).
Definition set_leased (l : list bool) (c : PrefixCache) : PrefixCache :=
  mkPrefixCache (options_ c) (entries_ c) (entries_by_hash_ c) (recency_ c) (referenced_entries_ c)
    (reclaimable_entries_ c) (entries_by_block_id_ c) l (checkpoint_entries_ c)
    (metrics_ c) (checkpoints c) (drafts c) (identities c) (logicals c).
Definition set_checkpoint_entries (l : list nat) (c : PrefixCache) : PrefixCache :=
  mkPrefixCache (options_ c) (entries_ c) (entries_by_hash_ c) (recency_ c) (referenced_entries_ c)
    (reclaimable_entries_ c) (entries_by_block_id_ c) (leased_ancestry_ c) l
    (metrics_ c) (checkpoints c) (drafts c) (identities c) (logicals c).
Definition set_metrics (m : PrefixCacheMetrics) (c : PrefixCache) : PrefixCache :=
  mkPrefixCache (options_ c) (entries_ c) (entries_by_hash_ c) (recency_ c) (referenced_entries_ c)
    (reclaimable_entries_ c) (entries_by_block_id_ c) (leased_ancestry_ c) (checkpoint_entries_ c)
    m (checkpoints c) (drafts c) (identities c) (logicals c).
Definition set_heaps (ids : gmap addr BlockIdentity) (ls : gmap addr LogicalPrefixIdentity)
    (c : PrefixCache) : PrefixCache :=
  mkPrefixCache (options_ c) (entries_ c) (entries_by_hash_ c) (recency_ c) (referenced_entries_ c)
    (reclaimable_entries_ c) (entries_by_block_id_ c) (leased_ancestry_ c) (checkpoint_entries_ c)
    (metrics_ c) (checkpoints c) (drafts c) ids ls.

Definition set_flags (r promote : bool) (e : Entry) : Entry :=
  mkEntry (entry_block e) (entry_identity e) (checkpoint e) (draft_checkpoint e) (parent_block_id e) r promote.
Definition set_checkpoints (cp dr : option addr) (e : Entry) : Entry :=
  mkEntry (entry_block e) (entry_identity e) cp dr (parent_block_id e) (reclaimable e) (promote_on_release e).

Definition Enabled (c : PrefixCache) : bool := enabled (options_ c) && negb (max_blocks (options_ c) =? 0).
Definition Hash (c : PrefixCache) (parent_hash : N) (tokens : list Z) : N :=
  match hash_override (options_ c) with
  | Some f => f parent_hash tokens
  | None => ChainHash parent_hash tokens
  end.

(** The constructor; it also registers itself as the pool's observer. *)
Definition make_PrefixCache (capacity : nat) (options : PrefixCacheOptions) : PrefixCache :=
  mkPrefixCache options ∅ [] [] [] [] (replicate capacity None) (replicate capacity false) []
    zero_metrics ∅ ∅ ∅ ∅.

(** ** Positions in the lists *)

Inductive position : Type := AtBegin | AtEnd | Before (id : nat).

Fixpoint insert_before (p id : nat) (l : list nat) : list nat :=
  match l with
  | [] => [id]
  | x :: l => if x =? p then id :: x :: l else x :: insert_before p id l
  end.

Definition insert_at (pos : position) (id : nat) (l : list nat) : list nat :=
  match pos with
  | AtBegin => id :: l
  | AtEnd => l ++ [id]
  | Before p => insert_before p id l
  end.

Definition remove_id (id : nat) (l : list nat) : list nat := filter (fun x => x <> id) l.

(** [list.splice(pos, list, it)] within one list. *)
Definition splice (pos : position) (id : nat) (l : list nat) : list nat :=
  match pos with
  | Before p => if p =? id then l else insert_at pos id (remove_id id l)
  | _ => insert_at pos id (remove_id id l)
  end.

(** The elements after the first occurrence of [id]. *)
Fixpoint after (id : nat) (l : list nat) : list nat :=
  match l with
  | [] => []
  | x :: l => if x =? id then l else after id l
  end.

Fixpoint remove_first (id : nat) (l : list nat) : list nat :=
  match l with
  | [] => []
  | x :: l => if x =? id then l else x :: remove_first id l
  end.

(** ** Queries *)

Definition same_identity (i j : BlockIdentity) : bool := bi_addr i =? bi_addr j.
Definition same_parent (i j : option BlockIdentity) : bool :=
  match i, j with
  | None, None => true
  | Some i, Some j => same_identity i j
  | _, _ => false
  end.

(** The entry that [entries_by_block_id_[b]] points to. *)
Definition block_entry (c : PrefixCache) (b : nat) : option (nat * Entry) :=
  match entries_by_block_id_ c !! b with
  | Some (Some id) => pair id <$> entries_ c !! id
  | _ => None
  end.

Definition FindEntry (c : PrefixCache) (identity : option BlockIdentity) : option (nat * Entry) :=
  match identity with
  | None => None
  | Some i =>
    match block_entry c (bi_block_id i) with
    | Some (id, e) => if same_identity (entry_identity e) i then Some (id, e) else None
    | None => None
    end
  end.

(** [equal_range(hash)] *)
Definition hash_range (c : PrefixCache) (hash : N) : list nat :=
  snd <$> filter (fun p => p.1 = hash) (entries_by_hash_ c).

Fixpoint find_first (f : Entry -> bool) (c : PrefixCache) (ids : list nat) : option (nat * Entry) :=
  match ids with
  | [] => None
  | id :: ids =>
    match entries_ c !! id with
    | Some e => if f e then Some (id, e) else find_first f c ids
    | None => find_first f c ids
    end
  end.

Definition FindPhysical (c : PrefixCache) (hash : N) (parent : option BlockIdentity) (tokens : list Z) :
    option (nat * Entry) :=
  find_first (fun e => same_parent (bi_parent (entry_identity e)) parent &&
                       bool_decide (Tokens (entry_identity e) = tokens)) c (hash_range c hash).

Fixpoint logical_equals (l : LogicalPrefixIdentity) (right : option LogicalPrefixIdentity) : bool :=
  match right with
  | None => false
  | Some r =>
    (li_addr l =? li_addr r) ||
    ((li_hash l =? li_hash r)%N && bool_decide (li_tokens l = li_tokens r) &&
     match l with
     | mkLogical _ _ (Some p) _ => logical_equals p (li_parent r)
     | mkLogical _ _ None _ => match li_parent r with None => true | Some _ => false end
     end)
  end.

Definition LogicalIdentityEquals (left right : option LogicalPrefixIdentity) : bool :=
  match left, right with
  | None, None => true
  | None, Some _ => false
  | Some l, r => logical_equals l r
  end.

Definition FindLogical (c : PrefixCache) (hash : N) (parent : option LogicalPrefixIdentity) (tokens : list Z) :
    option (nat * Entry) :=
  find_first (fun e =>
    match bi_logical (entry_identity e) with
    | Some l => LogicalIdentityEquals (li_parent l) parent && bool_decide (li_tokens l = tokens)
    | None => false
    end) c (hash_range c hash).

(** [shared_ptr::use_count]: the entries that hold it and the leases outside. *)
Definition use_count (f : Entry -> option addr) (leases : nat) (a : addr) (c : PrefixCache) : nat :=
  length (filter (fun p => f p.2 = Some a) (map_to_list (entries_ c))) + leases.

Definition checkpoint_use_count (c : PrefixCache) (a : addr) : nat :=
  use_count checkpoint (from_option checkpoint_leases 0 (checkpoints c !! a)) a c.
Definition draft_use_count (c : PrefixCache) (a : addr) : nat :=
  use_count draft_checkpoint (from_option draft_leases 0 (drafts c !! a)) a c.

Definition IsCheckpointUnleased (c : PrefixCache) (e : Entry) : bool :=
  match checkpoint e with
  | None => false
  | Some a =>
    (checkpoint_use_count c a =? 1) &&
    match draft_checkpoint e with None => true | Some d => draft_use_count c d =? 1 end
  end.

(** The endpoint test of [MarkLeasedReclaimableBlocks]. *)
Definition endpoint_leased (c : PrefixCache) (e : Entry) : bool :=
  negb (match checkpoint e with None => true | Some a => checkpoint_use_count c a =? 1 end &&
        match draft_checkpoint e with None => true | Some d => draft_use_count c d =? 1 end).

(** The inner loop: mark the retained ancestors until a marked one is met. *)
Fixpoint mark_path (c : PrefixCache) (i : BlockIdentity) (marks : list bool) (protected : nat) :
    list bool * nat :=
  let next marks protected :=
    match i with
    | mkIdentity _ _ _ (Some p) _ _ => mark_path c p marks protected
    | mkIdentity _ _ _ None _ _ => (marks, protected)
    end in
  match FindEntry c (Some i) with
  | None => next marks protected
  | Some (id, e) =>
    if default false (marks !! id) then (marks, protected)
    else next (<[id := true]> marks) (if reclaimable e then S protected else protected)
  end.

Fixpoint mark_endpoints (c : PrefixCache) (ids : list nat) (initialized : bool) (marks : list bool)
    (protected : nat) : list bool * nat :=
  match ids with
  | [] => (marks, protected)
  | id :: ids =>
    match entries_ c !! id with
    | None => mark_endpoints c ids initialized marks protected
    | Some e =>
      if negb (endpoint_leased c e) then mark_endpoints c ids initialized marks protected
      else
        let marks := if initialized then marks else replicate (length marks) false in
        let '(marks, protected) := mark_path c (entry_identity e) marks protected in
        mark_endpoints c ids true marks protected
    end
  end.

(** The new scratch array and the number of protected blocks. *)
Definition MarkLeasedReclaimableBlocks (c : PrefixCache) : list bool * nat :=
  if bool_decide (reclaimable_entries_ c = []) then (leased_ancestry_ c, 0)
  else mark_endpoints c (checkpoint_entries_ c) false (leased_ancestry_ c) 0.

Definition ReclaimableBlocks (c : PrefixCache) : nat :=
  length (reclaimable_entries_ c) - (MarkLeasedReclaimableBlocks c).2.

Definition is_leased (marks : list bool) (protected id : nat) : bool :=
  negb (protected =? 0) && default false (marks !! id).

Definition ReclaimableBlockIds (w : world PrefixCache) (blocks : list (option addr)) : list nat :=
  let c := observer w in
  let '(marks, protected) := MarkLeasedReclaimableBlocks c in
  omap (fun block =>
    a ← block; b ← heap w !! a; x ← block_entry c (id_ b);
    if (entry_block x.2 =? a) && reclaimable x.2 && negb (is_leased marks protected (id_ b))
    then Some (id_ b) else None) blocks.

Fixpoint on_path (i : BlockIdentity) (target : BlockIdentity) : bool :=
  same_identity i target ||
  match i with
  | mkIdentity _ _ _ (Some p) _ _ => on_path p target
  | mkIdentity _ _ _ None _ _ => false
  end.

Definition HasCheckpointedDescendant (c : PrefixCache) (ancestor : nat) (ancestor_entry : Entry) : bool :=
  existsb (fun id =>
    negb (id =? ancestor) &&
    match entries_ c !! id with
    | Some e => match bi_parent (entry_identity e) with
                | Some p => on_path p (entry_identity ancestor_entry)
                | None => false
                end
    | None => false
    end) (checkpoint_entries_ c).

Definition ReclaimableCheckpoints (c : PrefixCache) : nat :=
  length (filter (fun id => from_option (IsCheckpointUnleased c) false (entries_ c !! id) = true)
    (checkpoint_entries_ c)).

(** The nearest ancestor whose checkpoint is unleased. *)
Fixpoint path_checkpoint (c : PrefixCache) (i : BlockIdentity) : option addr :=
  match FindEntry c (Some i) with
  | Some (id, e) =>
    if IsCheckpointUnleased c e then checkpoint e
    else match i with
         | mkIdentity _ _ _ (Some p) _ _ => path_checkpoint c p
         | mkIdentity _ _ _ None _ _ => None
         end
  | None =>
    match i with
    | mkIdentity _ _ _ (Some p) _ _ => path_checkpoint c p
    | mkIdentity _ _ _ None _ _ => None
    end
  end.

Fixpoint first_checkpoint (f : nat -> Entry -> bool) (c : PrefixCache) (ids : list nat) : option addr :=
  match ids with
  | [] => None
  | id :: ids =>
    match entries_ c !! id with
    | Some e => if f id e then checkpoint e else first_checkpoint f c ids
    | None => first_checkpoint f c ids
    end
  end.

Definition ReclaimableCheckpoint (c : PrefixCache) (current_path : option BlockIdentity) : option addr :=
  match current_path ≫= path_checkpoint c with
  | Some a => Some a
  | None =>
    match first_checkpoint (fun id e => IsCheckpointUnleased c e && HasCheckpointedDescendant c id e)
            c (checkpoint_entries_ c) with
    | Some a => Some a
    | None => first_checkpoint (fun _ e => IsCheckpointUnleased c e) c (checkpoint_entries_ c)
    end
  end.

(** ** Order updates and the observer callbacks *)

Definition Reorder (id : nat) (e : Entry) (parent : option BlockIdentity) (c : PrefixCache) : PrefixCache :=
  let move (recency_position reclaimable_position : position) :=
    set_lists (splice recency_position id (recency_ c)) (referenced_entries_ c)
      (if reclaimable e then splice reclaimable_position id (reclaimable_entries_ c)
       else reclaimable_entries_ c) c in
  match parent with
  | None => move AtEnd AtEnd
  | Some _ =>
    match FindEntry c parent with
    | None => move AtBegin AtBegin
    | Some (pid, pe) => move (Before pid) (if reclaimable pe then Before pid else AtEnd)
    end
  end.

(** [std::rotate] of the found element to the end. *)
Definition PromoteCheckpoint (id : nat) (c : PrefixCache) : PrefixCache :=
  if bool_decide (id ∈ checkpoint_entries_ c)
  then set_checkpoint_entries (remove_first id (checkpoint_entries_ c) ++ [id]) c
  else c.

(** Where a released entry enters the reclaimable order. *)
Definition release_position (id : nat) (e : Entry) (c : PrefixCache) : position :=
  if promote_on_release e then
    match parent_block_id e with
    | None => AtEnd
    | Some p =>
      match block_entry c p with
      | Some (pid, pe) =>
        if negb (same_parent (Some (entry_identity pe)) (bi_parent (entry_identity e))) then AtBegin
        else if reclaimable pe then Before pid else AtEnd
      | None => AtBegin
      end
    end
  else
    match find_first reclaimable c (after id (recency_ c)) with
    | Some (next, _) => Before next
    | None => AtEnd
    end.

(** The callbacks; [None] is [std::terminate]. *)
Definition became_referenced (block : addr) (cookie : nat) (c : PrefixCache) : option PrefixCache :=
  e ← entries_ c !! cookie;
  if negb (entry_block e =? block) || negb (reclaimable e) then None
  else Some (set_entries (<[cookie := set_flags false false e]> (entries_ c))
    (set_lists (recency_ c) (referenced_entries_ c ++ [cookie]) (remove_id cookie (reclaimable_entries_ c)) c)).

Definition became_reclaimable (block : addr) (cookie : nat) (c : PrefixCache) : option PrefixCache :=
  e ← entries_ c !! cookie;
  if negb (entry_block e =? block) || reclaimable e then None
  else Some (set_entries (<[cookie := set_flags true true e]> (entries_ c))
    (set_lists (recency_ c) (remove_id cookie (referenced_entries_ c))
       (insert_at (release_position cookie e c) cookie (reclaimable_entries_ c)) c)).

#[global] Instance PrefixCache_observer : BlockReferenceObserver PrefixCache := {
  OnBlockBecameReferenced := became_referenced;
  OnBlockBecameReclaimable := became_reclaimable
}.

(** ** Operations *)

Inductive PrefixError : Type :=
  | PoolError (e : BlockError)
  | IndexNullBlock
  | IndexPartialBlock
  | IndexNotOwned
  | IdentityOccupied
  | InvalidReclaimable
  | UnknownReclaimable
  | CheckpointRequired
  | CheckpointMismatch
  | IncompleteBlocks
  | NotPrivateSuffix
  | HashChanged
  | LostParent.

Abbreviation CM := (M (world PrefixCache) PrefixError).

(** A call of the pool; its exceptions propagate. *)
Definition pool_op {A} (m : M (world PrefixCache) BlockError A) : CM A := fun w =>
  match m w with
  | (Ok a, w') => (Ok a, w')
  | (Throw e, w') => (Throw (PoolError e), w')
  | (Terminate, w') => (Terminate, w')
  | (Undefined, w') => (Undefined, w')
  end.

(** [try { m } catch (...) { handler; throw; }] *)
Definition on_throw {A} (m : CM A) (handler : CM unit) : CM A := fun w =>
  match m w with
  | (Throw e, w') =>
    match handler w' with
    | (Ok _, w'') => (Throw e, w'')
    | (Throw e', w'') => (Throw e', w'')
    | (Terminate, w'') => (Terminate, w'')
    | (Undefined, w'') => (Undefined, w'')
    end
  | r => r
  end.

Definition on_cache (f : PrefixCache -> PrefixCache) : CM unit :=
  modify (fun w => set_observer (f (observer w)) w).
Definition count (m : Metric) (n : N) : CM unit := on_cache (fun c => set_metrics (bump m n (metrics_ c)) c).

(** Dereferencing an [Entry*]. *)
Definition entry_of (id : nat) : CM Entry :=
  c ← gets observer;
  match entries_ c !! id with Some e => mret e | None => undefined end.

Definition update_block (a : addr) (f : Block -> Block) : CM unit :=
  b ← pool_op (deref a); pool_op (update a (f b)).

(** [entries_by_block_id_[id] = x] *)
Definition set_block_entry (id : nat) (x : option nat) : CM unit :=
  c ← gets observer;
  if id <? length (entries_by_block_id_ c)
  then on_cache (fun c => set_by_id (<[id := x]> (entries_by_block_id_ c)) c)
  else undefined.

Fixpoint erase_hash (hash : N) (id : nat) (l : list (N * nat)) : list (N * nat) :=
  match l with
  | [] => []
  | p :: l => if (p.1 =? hash)%N && (p.2 =? id) then l else p :: erase_hash hash id l
  end.

Definition Evict (id : nat) : CM unit :=
  e ← entry_of id;
  c ← gets observer;
  _ ← (match checkpoint e with
       | None => mret tt
       | Some _ =>
         if bool_decide (id ∈ checkpoint_entries_ c)
         then on_cache (fun c => set_checkpoint_entries (remove_first id (checkpoint_entries_ c)) c)
         else terminate
       end);
  _ ← on_cache (fun c => set_lists (remove_id id (recency_ c))
         (if reclaimable e then referenced_entries_ c else remove_id id (referenced_entries_ c))
         (if reclaimable e then remove_id id (reclaimable_entries_ c) else reclaimable_entries_ c) c);
  b ← pool_op (deref (entry_block e));
  _ ← set_block_entry (id_ b) None;
  _ ← pool_op (ClearReferenceObserverCookie (Some (entry_block e)));
  _ ← on_cache (fun c => set_by_hash (erase_hash (bi_hash (entry_identity e)) id (entries_by_hash_ c)) c);
  _ ← on_cache (fun c => set_entries (delete id (entries_ c)) c);
  _ ← update_block (entry_block e) ClearIdentity;
  pool_op (Release (Some (entry_block e))).

Definition mark_leased : CM nat :=
  c ← gets observer;
  _ ← on_cache (set_leased (MarkLeasedReclaimableBlocks c).1);
  mret (MarkLeasedReclaimableBlocks c).2.

(** The loop of [Reclaim] over the reclaimable order; only the current entry is
    removed from that list while it runs. *)
Fixpoint reclaim_loop (needed protected : nat) (candidates : list nat) (reclaimed : nat) : CM nat :=
  match candidates with
  | [] => mret reclaimed
  | id :: candidates =>
    if negb (reclaimed <? needed) then mret reclaimed
    else
      e ← entry_of id;
      b ← pool_op (deref (entry_block e));
      _ ← throw_if (negb (reclaimable e) || negb (ref_count_ b =? 1)) InvalidReclaimable;
      c ← gets observer;
      if is_leased (leased_ancestry_ c) protected (id_ b)
      then reclaim_loop needed protected candidates reclaimed
      else
        _ ← throw_if (bool_decide (entries_ c !! id_ b = None)) UnknownReclaimable;
        _ ← Evict (id_ b);
        _ ← count Evictions 1;
        reclaim_loop needed protected candidates (S reclaimed)
  end.

Definition Reclaim (blocks_needed : nat) : CM nat :=
  if blocks_needed =? 0 then mret 0
  else
    protected ← mark_leased;
    c ← gets observer;
    reclaim_loop blocks_needed protected (reclaimable_entries_ c) 0.

(** *** Matching *)

Record PrefixCacheMatch : Type := mkMatch
  { match_token_count : nat;
    match_handles : list addr;
    match_checkpoint : option addr;
    match_draft : option addr }.

Definition no_match : PrefixCacheMatch := mkMatch 0 [] None None.

(** [tokens.subspan(offset, n)] *)
Definition subspan (offset n : nat) (tokens : list Z) : list Z := take n (drop offset tokens).

(** The walk from an endpoint to its root; [tokens = []] compares nothing. *)
Fixpoint path_walk (block_size : nat) (tokens : list Z) (identity : option BlockIdentity) (remaining : nat)
    (acc : list addr) : CM (option (list addr)) :=
  match remaining with
  | 0 => mret (match identity with None => Some acc | Some _ => None end)
  | S remaining =>
    c ← gets observer;
    match identity, FindEntry c identity with
    | Some i, Some (id, e) =>
      b ← pool_op (deref (entry_block e));
      if negb (IsFull b) then mret None
      else if negb (bool_decide (tokens = [])) &&
              negb (bool_decide (Tokens i = subspan (remaining * block_size) block_size tokens))
      then mret None
      else path_walk block_size tokens (bi_parent i) remaining (entry_block e :: acc)
    | _, _ => mret None
    end
  end.

Definition HasRetainedPhysicalPath (endpoint : Entry) (block_count : nat) (tokens : list Z) :
    CM (option (list addr)) :=
  p ← gets pool;
  let block_size := block_size_ p in
  if negb (bool_decide (tokens = [])) &&
     (negb (length tokens mod block_size =? 0) || negb (length tokens / block_size =? block_count))
  then mret None
  else path_walk block_size tokens (Some (entry_identity endpoint)) block_count [].

Definition live_draft (c : PrefixCache) (e : Entry) : option addr :=
  d ← draft_checkpoint e; x ← drafts c !! d; if draft_evicted x then None else Some d.

(** The scan of the checkpoint endpoints, most recently used first. *)
Fixpoint match_endpoints (tokens : list Z) (adoptable : nat) (ids : list nat) (found : PrefixCacheMatch) :
    CM PrefixCacheMatch :=
  match ids with
  | [] => mret found
  | id :: ids =>
    e ← entry_of id;
    c ← gets observer;
    p ← gets pool;
    match checkpoint e with
    | None => terminate
    | Some a =>
      match checkpoints c !! a with
      | None => undefined
      | Some cp =>
        let n := checkpoint_tokens cp in
        if (adoptable <? n) || (n <=? match_token_count found) then match_endpoints tokens adoptable ids found
        else
          path ← HasRetainedPhysicalPath e (n / block_size_ p) (take n tokens);
          match path with
          | None => match_endpoints tokens adoptable ids found
          | Some blocks => match_endpoints tokens adoptable ids (mkMatch n blocks (Some a) (live_draft c e))
          end
      end
    end
  end.

(** The block-by-block walk of a paged-only lookup; [n] blocks are left. *)
Fixpoint match_blocks_loop (tokens : list Z) (n offset : nat) (parent_hash : N) (parent : option BlockIdentity)
    (acc : list addr) : CM (list addr) :=
  match n with
  | 0 => mret acc
  | S n =>
    c ← gets observer;
    p ← gets pool;
    let chunk := subspan offset (block_size_ p) tokens in
    let hash := Hash c parent_hash chunk in
    match FindPhysical c hash parent chunk with
    | None =>
      _ ← (if bool_decide (hash_range c hash = []) then mret tt else count HashCollisions 1);
      mret acc
    | Some (id, e) =>
      b ← pool_op (deref (entry_block e));
      if negb (IsFull b) then mret acc
      else match_blocks_loop tokens n (offset + block_size_ p) hash (Some (entry_identity e)) (acc ++ [entry_block e])
    end
  end.

Definition Match (tokens : list Z) (max_adoptable_tokens : nat) : CM PrefixCacheMatch :=
  c ← gets observer;
  p ← gets pool;
  if negb (Enabled c) then mret no_match
  else if block_size_ p =? 0 then mret no_match
  else
    let n := min max_adoptable_tokens (length tokens) / block_size_ p in
    let adoptable := n * block_size_ p in
    _ ← count Lookups 1;
    _ ← count QueriedTokens (N.of_nat adoptable);
    if requires_checkpoint (options_ c) then
      found ← match_endpoints tokens adoptable (rev (checkpoint_entries_ c)) no_match;
      match match_checkpoint found with
      | None => mret no_match
      | Some _ => _ ← count Matches 1; mret found
      end
    else
      blocks ← match_blocks_loop tokens n 0 RootHash None [];
      match blocks with
      | [] => mret no_match
      | _ => _ ← count Matches 1; mret (mkMatch (length blocks * block_size_ p) blocks None None)
      end.

(** *** Registration *)

Inductive PrefixCacheRegistrationStatus : Type := Indexed | Duplicate | HashCollision | CapacityRefused.

Record PrefixCacheRegistration : Type := mkRegistration
  { status : PrefixCacheRegistrationStatus;
    registered_identity : option BlockIdentity }.

Definition StopsSealing (r : PrefixCacheRegistration) : bool :=
  match status r with Duplicate | HashCollision => true | _ => false end.

(** [make_shared]; the objects are filled before they are shared. *)
Definition make_logical (hash : N) (parent : option LogicalPrefixIdentity) (tokens : list Z) :
    CM LogicalPrefixIdentity :=
  c ← gets observer;
  let l := mkLogical (size (logicals c)) hash parent tokens in
  _ ← on_cache (fun c => set_heaps (identities c) (<[li_addr l := l]> (logicals c)) c);
  mret l.

Definition make_identity (hash : N) (block_id : nat) (parent : option BlockIdentity) (tokens : list Z)
    (logical : option LogicalPrefixIdentity) : CM BlockIdentity :=
  c ← gets observer;
  let i := mkIdentity (size (identities c)) hash block_id parent tokens logical in
  _ ← on_cache (fun c => set_heaps (<[bi_addr i := i]> (identities c)) (logicals c) c);
  mret i.

(** Where an entry enters the recency order: just before its parent. *)
Definition recency_position (c : PrefixCache) (parent : option BlockIdentity) : position :=
  match FindEntry c parent with Some (pid, _) => Before pid | None => AtEnd end.

(** Publishing an entry into [entries_] and the orders. *)
Definition publish_entry (id : nat) (e : Entry) (pos : position) (c : PrefixCache) : PrefixCache :=
  set_by_hash (entries_by_hash_ c ++ [(bi_hash (entry_identity e), id)])
    (set_lists (insert_at pos id (recency_ c)) (referenced_entries_ c ++ [id]) (reclaimable_entries_ c)
       (set_entries (<[id := e]> (entries_ c)) c)).

(** The inverse, when the block cannot be referenced. *)
Definition unpublish_entry (id : nat) (hash : N) (c : PrefixCache) : PrefixCache :=
  set_entries (delete id (entries_ c))
    (set_lists (remove_id id (recency_ c)) (remove_id id (referenced_entries_ c)) (reclaimable_entries_ c)
       (set_by_hash (erase_hash hash id (entries_by_hash_ c)) c)).

Definition set_block_identity (a : addr) (i : BlockIdentity) : CM unit :=
  b ← pool_op (deref a); b' ← lift (match SetIdentity (Some i) b with
    | Ok b' => Ok b' | Throw e => Throw (PoolError e) | Terminate => Terminate | Undefined => Undefined end);
  pool_op (update a b').

(** The cache's own reference, the identity and the observer cookie. *)
Definition attach_block (a : addr) (id : nat) (i : BlockIdentity) : CM unit :=
  let undo := on_cache (unpublish_entry id (bi_hash i)) in
  _ ← on_throw (pool_op (AddRef (Some a))) undo;
  _ ← on_throw (set_block_identity a i) (_ ← pool_op (Release (Some a)); undo);
  _ ← set_block_entry id (Some id);
  on_throw (pool_op (SetReferenceObserverCookie (Some a) (Some id)))
    (_ ← update_block a ClearIdentity; _ ← pool_op (Release (Some a)); undo).

(** The identity of a block that is about to be indexed. *)
Definition register_identity (c : PrefixCache) (hash : N) (block_id : nat) (parent : option BlockIdentity)
    (tokens : list Z) : CM BlockIdentity :=
  if requires_checkpoint (options_ c) || negb (max_checkpoints (options_ c) =? 0)
  then
    l ← make_logical hash (parent ≫= bi_logical) tokens;
    make_identity hash block_id parent [] (Some l)
  else make_identity hash block_id parent tokens None.

(** The rest of [Register] once the block may be indexed. *)
Definition index_block (c : PrefixCache) (a : addr) (b : Block) (hash : N) (tokens : list Z)
    (parent : option BlockIdentity) : CM PrefixCacheRegistration :=
  i ← register_identity c hash (id_ b) parent tokens;
  c ← gets observer;
  _ ← throw_if (bool_decide (is_Some (entries_ c !! id_ b))) IdentityOccupied;
  let e := mkEntry a i None None (fst <$> FindEntry c parent) false true in
  _ ← on_cache (publish_entry (id_ b) e (recency_position c parent));
  _ ← attach_block a (id_ b) i;
  _ ← count RegisteredBlocks 1;
  mret (mkRegistration Indexed (Some i)).

Definition Register (block : option addr) (tokens : list Z) (parent : option BlockIdentity) :
    CM PrefixCacheRegistration :=
  c ← gets observer;
  if negb (Enabled c) then mret (mkRegistration CapacityRefused None)
  else
    match block with
    | None => throw IndexNullBlock
    | Some a =>
      b ← pool_op (deref a);
      if negb (IsFull b) || negb (length tokens =? capacity_ b) then throw IndexPartialBlock
      else if HasIdentity b then mret (mkRegistration Indexed (identity_ b))
      else
        owned ← pool_op (Owns block);
        if negb owned then throw IndexNotOwned
        else
          let hash := Hash c (from_option bi_hash RootHash parent) tokens in
          match FindPhysical c hash parent tokens with
          | Some (id, e) =>
            _ ← count DuplicateRegistrations 1;
            _ ← on_cache (Reorder id e parent);
            mret (mkRegistration Duplicate None)
          | None =>
            if negb (bool_decide (hash_range c hash = [])) then
              _ ← count HashCollisions 1; mret (mkRegistration HashCollision None)
            else
              refused ← (if max_blocks (options_ c) <=? size (entries_ c)
                         then n ← Reclaim 1; mret (n =? 0) else mret false);
              if refused : bool then
                _ ← count RetentionRefusals 1; mret (mkRegistration CapacityRefused None)
              else
                index_block c a b hash tokens parent
          end
    end.

(** *** Adoption *)

Definition adopt_one (block : option addr) : CM unit :=
  match block with
  | None => terminate
  | Some a =>
    b ← pool_op (deref a);
    match identity_ b with
    | None => terminate
    | Some i =>
      c ← gets observer;
      match FindEntry c (Some i) with
      | None => terminate
      | Some (id, e) =>
        if negb (entry_block e =? a) then terminate
        else
          _ ← on_cache (fun c => set_entries (<[id := set_flags (reclaimable e) true e]> (entries_ c)) c);
          _ ← on_cache (Reorder id (set_flags (reclaimable e) true e) (bi_parent i));
          on_cache (PromoteCheckpoint id)
      end
    end
  end.

Definition RecordAdoption (blocks : list (option addr)) : CM unit :=
  if bool_decide (blocks = []) then mret tt
  else
    _ ← for_each adopt_one blocks;
    _ ← count Hits 1;
    p ← gets pool;
    count MatchedTokens (N.of_nat (length blocks * block_size_ p)).

Definition RecordDeferredMatches (n : N) : CM unit := count DeferredMatches n.
Definition RecordPublicationRefusal : CM unit := count PublicationRefusals 1.

(** *** Checkpoints *)

Definition CheckpointCount (c : PrefixCache) : nat := length (checkpoint_entries_ c).

Definition CanAttachCheckpoint (c : PrefixCache) (identity : option BlockIdentity) : bool :=
  if negb (Enabled c) || bool_decide (identity = None) || (max_checkpoints (options_ c) =? 0) then false
  else match FindEntry c identity with Some (_, e) => bool_decide (checkpoint e = None) | None => false end.

(** Blocks on the way from an identity to its root. *)
Fixpoint depth (i : BlockIdentity) : nat :=
  match i with
  | mkIdentity _ _ _ (Some p) _ _ => S (depth p)
  | mkIdentity _ _ _ None _ _ => 1
  end.

(** The loop of [ReclaimCheckpoint] over the endpoints. *)
Fixpoint find_unleased (c : PrefixCache) (a : addr) (ids : list nat) : option (nat * Entry) :=
  match ids with
  | [] => None
  | id :: ids =>
    match entries_ c !! id with
    | Some e => if bool_decide (checkpoint e = Some a) && IsCheckpointUnleased c e then Some (id, e)
                else find_unleased c a ids
    | None => find_unleased c a ids
    end
  end.

Definition ReclaimCheckpoint (a : option addr) : CM bool :=
  match a with
  | None => mret false
  | Some a =>
    c ← gets observer;
    match find_unleased c a (checkpoint_entries_ c) with
    | None => mret false
    | Some (id, e) =>
      _ ← on_cache (fun c => set_checkpoint_entries (remove_first id (checkpoint_entries_ c))
                               (set_entries (<[id := set_checkpoints None None e]> (entries_ c)) c));
      mret true
    end
  end.

Fixpoint reclaim_checkpoints_loop (needed reclaimed : nat) : CM nat :=
  match needed with
  | 0 => mret reclaimed
  | S needed =>
    c ← gets observer;
    match ReclaimableCheckpoint c None with
    | None => mret reclaimed
    | Some a =>
      ok ← ReclaimCheckpoint (Some a);
      if ok : bool then reclaim_checkpoints_loop needed (S reclaimed) else mret reclaimed
    end
  end.

Definition ReclaimCheckpoints (checkpoints_needed : nat) : CM nat :=
  reclaim_checkpoints_loop checkpoints_needed 0.

Definition AttachCheckpoint (identity : option BlockIdentity) (cp : option addr) : CM bool :=
  match identity, cp with
  | Some i, Some a =>
    c ← gets observer;
    match FindEntry c (Some i) with
    | None => mret false
    | Some (id, e) =>
      match checkpoint e with
      | Some _ => mret true
      | None =>
        p ← gets pool;
        match checkpoints c !! a with
        | None => undefined
        | Some x =>
          if negb (checkpoint_tokens x =? depth i * block_size_ p) then throw CheckpointMismatch
          else
            refused ← (if max_checkpoints (options_ c) <=? CheckpointCount c
                       then n ← ReclaimCheckpoints 1; mret (n =? 0) else mret false);
            if refused : bool then mret false
            else
              e ← entry_of id;
              let e := set_checkpoints (Some a) (draft_checkpoint e) e in
              _ ← on_cache (fun c => set_entries (<[id := e]> (entries_ c)) c);
              _ ← on_cache (fun c => set_checkpoint_entries (checkpoint_entries_ c ++ [id]) c);
              _ ← on_cache (Reorder id e (bi_parent (entry_identity e)));
              mret true
        end
      end
    end
  | _, _ => throw CheckpointRequired
  end.

Definition draft_absent (c : PrefixCache) (e : Entry) : bool :=
  match draft_checkpoint e with
  | None => true
  | Some d => from_option draft_evicted false (drafts c !! d)
  end.

Definition CanAttachDraftCheckpoint (c : PrefixCache) (identity : option BlockIdentity) (token_count : nat) : bool :=
  if negb (Enabled c) || bool_decide (identity = None) then false
  else
    match FindEntry c identity with
    | Some (_, e) =>
      match checkpoint e with
      | Some a => from_option (fun x => checkpoint_tokens x =? token_count) false (checkpoints c !! a) && draft_absent c e
      | None => false
      end
    | None => false
    end.

Definition DraftBoundary (c : PrefixCache) (identity : option BlockIdentity) (token_count : nat) : option addr :=
  if CanAttachDraftCheckpoint c identity token_count
  then x ← FindEntry c identity; checkpoint x.2 else None.

Definition AttachDraftCheckpoint (identity : option BlockIdentity) (fixed draft : option addr) : CM bool :=
  c ← gets observer;
  match draft, fixed with
  | Some d, Some a =>
    match drafts c !! d with
    | None => undefined
    | Some x =>
      if negb (CanAttachDraftCheckpoint c identity (draft_tokens x)) then mret false
      else
        match FindEntry c identity with
        | Some (id, e) =>
          if negb (bool_decide (checkpoint e = Some a)) then mret false
          else
            _ ← on_cache (fun c => set_entries (<[id := set_checkpoints (Some a) (Some d) e]> (entries_ c)) c);
            mret true
        | None => mret false
        end
    end
  | _, _ => mret false
  end.

(** One step of the loop over the entries. *)
Definition drop_draft (c : PrefixCache) (id : nat) : PrefixCache :=
  match entries_ c !! id with
  | Some e =>
    match draft_checkpoint e with
    | Some d => if draft_use_count c d =? 1
                then set_entries (<[id := set_checkpoints (checkpoint e) None e]> (entries_ c)) c else c
    | None => c
    end
  | None => c
  end.

Definition DropUnleasedDraftCheckpoints : CM unit :=
  on_cache (fun c => fold_left drop_draft (map_to_list (entries_ c)).*1 c).

(** *** Checkpointed publication *)

Record CheckpointedPrefixPlan : Type := mkPrefixPlan
  { plan_status : PrefixCacheRegistrationStatus;
    retiring_block_ids : list nat;
    logical_identities : list LogicalPrefixIdentity }.

Definition stopped (s : PrefixCacheRegistrationStatus) : CheckpointedPrefixPlan := mkPrefixPlan s [] [].

(** Whether an endpoint with this logical identity is already usable on its own. *)
Fixpoint has_duplicate (logical : LogicalPrefixIdentity) (blocks_total : nat) (ids : list nat) : CM bool :=
  match ids with
  | [] => mret false
  | id :: ids =>
    e ← entry_of id;
    c ← gets observer;
    p ← gets pool;
    match checkpoint e with
    | None => has_duplicate logical blocks_total ids
    | Some a =>
      if LogicalIdentityEquals (bi_logical (entry_identity e)) (Some logical) &&
         from_option (fun x => checkpoint_tokens x =? blocks_total * block_size_ p) false (checkpoints c !! a)
      then
        path ← HasRetainedPhysicalPath e blocks_total [];
        match path with Some _ => mret true | None => has_duplicate logical blocks_total ids end
      else has_duplicate logical blocks_total ids
    end
  end.

(** The loop over the suffix: its logical identities and the first duplicate entry,
    or an early status.  [blocks_total] counts the blocks of the whole prefix. *)
Fixpoint plan_suffix (tokens : list Z) (blocks_total index : nat) (blocks : list (option addr))
    (logical_parent : option LogicalPrefixIdentity) (duplicate_root : option Entry)
    (acc : list LogicalPrefixIdentity) :
    CM (PrefixCacheRegistrationStatus + option Entry * list LogicalPrefixIdentity) :=
  match blocks with
  | [] => mret (inr (duplicate_root, acc))
  | block :: blocks =>
    p ← gets pool;
    private ← (match block with
      | None => mret false
      | Some a =>
        b ← pool_op (deref a);
        if HasIdentity b || negb (IsFull b) || negb (capacity_ b =? block_size_ p) then mret false
        else pool_op (Owns block)
      end);
    _ ← throw_if (negb private) NotPrivateSuffix;
    c ← gets observer;
    let chunk := subspan (index * block_size_ p) (block_size_ p) tokens in
    let hash := Hash c (from_option li_hash RootHash logical_parent) chunk in
    let existing := FindLogical c hash logical_parent chunk in
    if bool_decide (existing = None) && negb (bool_decide (hash_range c hash = [])) then
      _ ← count HashCollisions 1; mret (inl HashCollision)
    else
      step ← (match existing with
        | Some (_, e) =>
          match bi_logical (entry_identity e) with
          | Some l => mret (l, match duplicate_root with Some r => Some r | None => Some e end)
          | None => undefined
          end
        | None => l ← make_logical hash logical_parent chunk; mret (l, duplicate_root)
        end);
      let '(logical, root) := step in
      duplicate ← (match blocks with [] => has_duplicate logical blocks_total (hash_range c hash) | _ => mret false end);
      if duplicate : bool then
        _ ← count DuplicateRegistrations 1; mret (inl Duplicate)
      else plan_suffix tokens blocks_total (S index) blocks (Some logical) root (acc ++ [logical])
  end.

(** The scan for entries behind the duplicate root; [None] refuses. *)
Fixpoint retire_duplicates (root : BlockIdentity) (ids : list nat) (acc : list nat) : CM (option (list nat)) :=
  match ids with
  | [] => mret (Some acc)
  | id :: ids =>
    e ← entry_of id;
    if negb (on_path (entry_identity e) root) then retire_duplicates root ids acc
    else
      b ← pool_op (deref (entry_block e));
      c ← gets observer;
      if negb (ref_count_ b =? 1) || endpoint_leased c e then mret None
      else retire_duplicates root ids (acc ++ [id_ b])
  end.

(** The scan that retires reclaimable blocks until the budget is met. *)
Fixpoint retire_for_budget (budget new_blocks : nat) (marks : list bool) (protected : nat) (ids : list nat)
    (retained : nat) (acc : list nat) : nat * list nat :=
  match ids with
  | [] => (retained, acc)
  | id :: ids =>
    if retained + new_blocks <=? budget then (retained, acc)
    else if negb (is_leased marks protected id) && negb (bool_decide (id ∈ acc))
    then retire_for_budget budget new_blocks marks protected ids (retained - 1) (acc ++ [id])
    else retire_for_budget budget new_blocks marks protected ids retained acc
  end.

Definition PlanCheckpointedPrefix (blocks : list (option addr)) (tokens : list Z)
    (parent : option BlockIdentity) : CM CheckpointedPrefixPlan :=
  c ← gets observer;
  p ← gets pool;
  if bool_decide (blocks = []) || negb (length tokens / block_size_ p =? length blocks) ||
     negb (length tokens mod block_size_ p =? 0)
  then throw IncompleteBlocks
  else if max_checkpoints (options_ c) =? 0 then
    _ ← count RetentionRefusals 1; mret (stopped CapacityRefused)
  else
    let total := from_option depth 0 parent + length blocks in
    r ← plan_suffix tokens total 0 blocks (parent ≫= bi_logical) None [];
    match r with
    | inl s => mret (stopped s)
    | inr (root, logical) =>
      retiring ← (match root with
        | Some e =>
          if max_checkpoints (options_ c) <=? 1
          then retire_duplicates (entry_identity e) (recency_ c) [] else mret (Some [])
        | None => mret (Some [])
        end);
      match retiring with
      | None => _ ← count RetentionRefusals 1; mret (stopped CapacityRefused)
      | Some retiring =>
        let budget := max_blocks (options_ c) in
        if budget <? length blocks then _ ← count RetentionRefusals 1; mret (stopped CapacityRefused)
        else
          let retained := size (entries_ c) - length retiring in
          protected ← (if budget <? retained + length blocks then mark_leased else mret 0);
          c ← gets observer;
          let '(retained, retiring) :=
            retire_for_budget budget (length blocks) (leased_ancestry_ c) protected (reclaimable_entries_ c)
              retained retiring in
          if (budget <? retained + length blocks) ||
             ((max_checkpoints (options_ c) <=? CheckpointCount c) && (ReclaimableCheckpoints c =? 0))
          then _ ← count RetentionRefusals 1; mret (mkPrefixPlan CapacityRefused retiring logical)
          else mret (mkPrefixPlan Indexed retiring logical)
      end
    end.

Definition CheckCheckpointedPrefix (blocks : list (option addr)) (tokens : list Z)
    (parent : option BlockIdentity) : CM PrefixCacheRegistrationStatus :=
  plan ← PlanCheckpointedPrefix blocks tokens parent; mret (plan_status plan).

(** The loop that stages entries; [None] is a block that occurs twice. *)
Fixpoint stage_entries (tokens : list Z) (index : nat) (blocks : list (option addr))
    (plan : list LogicalPrefixIdentity) (identity : option BlockIdentity) (previous : option nat)
    (parent : option BlockIdentity) (acc : list (nat * Entry)) : CM (option (list (nat * Entry))) :=
  match blocks, plan with
  | [], _ => mret (Some acc)
  | Some a :: blocks, l :: plan =>
    c ← gets observer;
    p ← gets pool;
    let chunk := subspan (index * block_size_ p) (block_size_ p) tokens in
    let hash := Hash c (from_option bi_hash RootHash identity) chunk in
    _ ← throw_if (negb (hash =? li_hash l)%N) HashChanged;
    b ← pool_op (deref a);
    next ← make_identity hash (id_ b) identity [] (Some l);
    parent_id ← (match previous, parent with
      | Some id, _ => mret (Some id)
      | None, None => mret None
      | None, Some _ =>
        match FindEntry c parent with Some (id, _) => mret (Some id) | None => throw LostParent end
      end);
    if bool_decide (id_ b ∈ acc.*1) then _ ← count HashCollisions 1; mret None
    else stage_entries tokens (S index) blocks plan (Some next) (Some (id_ b)) parent
           (acc ++ [(id_ b, mkEntry a next None None parent_id false true)])
  | _, _ => undefined
  end.

Definition retire_one (id : nat) : CM unit :=
  c ← gets observer;
  if bool_decide (is_Some (entries_ c !! id)) then _ ← Evict id; count Evictions 1 else terminate.

(** Publication of the staged entries, root first. *)
Fixpoint publish_staged (staged : list (nat * Entry)) (current : option BlockIdentity) : CM unit :=
  match staged with
  | [] => mret tt
  | (id, e) :: staged =>
    c ← gets observer;
    if bool_decide (is_Some (entries_ c !! id)) then terminate
    else
      _ ← on_cache (publish_entry id e (match FindEntry c current with Some (pid, _) => Before pid | None => AtEnd end));
      _ ← pool_op (AddRef (Some (entry_block e)));
      _ ← set_block_identity (entry_block e) (entry_identity e);
      _ ← set_block_entry id (Some id);
      _ ← pool_op (SetReferenceObserverCookie (Some (entry_block e)) (Some id));
      _ ← count RegisteredBlocks 1;
      publish_staged staged (Some (entry_identity e))
  end.

Definition ReplaceCheckpointedPrefix (blocks : list (option addr)) (tokens : list Z)
    (parent : option BlockIdentity) (plan : CheckpointedPrefixPlan) (capture : CM (option addr)) :
    CM PrefixCacheRegistration :=
  p ← gets pool;
  let token_count := length tokens + from_option depth 0 parent * block_size_ p in
  staged ← stage_entries tokens 0 blocks (logical_identities plan) parent None parent [];
  match staged with
  | None => mret (mkRegistration HashCollision None)
  | Some staged =>
    cp ← capture;
    match cp with
    | None => mret (mkRegistration CapacityRefused None)
    | Some a =>
      c ← gets observer;
      match checkpoints c !! a with
      | None => undefined
      | Some x =>
        _ ← throw_if (negb (checkpoint_tokens x =? token_count)) CheckpointMismatch;
        _ ← for_each retire_one (retiring_block_ids plan);
        c ← gets observer;
        _ ← (if max_checkpoints (options_ c) <=? CheckpointCount c
             then n ← ReclaimCheckpoints 1; if n =? 1 then mret tt else terminate else mret tt);
        _ ← publish_staged staged parent;
        let identity := match last staged with Some (_, e) => Some (entry_identity e) | None => parent end in
        c ← gets observer;
        match FindEntry c identity with
        | None => terminate
        | Some (id, e) =>
          _ ← on_cache (fun c => set_checkpoint_entries (checkpoint_entries_ c ++ [id])
                 (set_entries (<[id := set_checkpoints (Some a) (draft_checkpoint e) e]> (entries_ c)) c));
          mret (mkRegistration Indexed identity)
        end
      end
    end
  end.

Definition RegisterCheckpointedPrefix (blocks : list (option addr)) (tokens : list Z)
    (parent : option BlockIdentity) (capture : CM (option addr)) : CM PrefixCacheRegistration :=
  plan ← PlanCheckpointedPrefix blocks tokens parent;
  match plan_status plan with
  | Indexed => ReplaceCheckpointedPrefix blocks tokens parent plan capture
  | s => mret (mkRegistration s None)
  end.

(** The destructor: every retained block loses the cache's reference. *)
Definition teardown_one (p : nat * Entry) : CM unit :=
  _ ← pool_op (ClearReferenceObserverCookie (Some (entry_block p.2)));
  _ ← update_block (entry_block p.2) ClearIdentity;
  pool_op (Release (Some (entry_block p.2))).

Definition destroy : CM unit :=
  _ ← pool_op (SetReferenceObserver None);
  c ← gets observer;
  _ ← for_each teardown_one (map_to_list (entries_ c));
  on_cache (fun c => set_entries ∅ (set_by_hash [] (set_lists [] [] [] (set_checkpoint_entries [] c)))).
