(* ===== verification/PrefixCacheProofs.v ===== *)
(** * Invariant and correctness of the prefix cache

    The index structures of [PrefixCache] agree with each other and with the block
    pool, whatever sequence of operations runs. *)

From S2P Require Import Prelude BlockPool PrefixCache.

(** ** The lists *)

Lemma elem_of_insert_before p id l x : x ∈ insert_before p id l <-> x = id \/ x ∈ l.
Proof.
  induction l as [|y l IH]; simpl; [rewrite list_elem_of_singleton; set_solver|].
  destruct (y =? p); rewrite !elem_of_cons, ?IH; tauto.
Qed.

Lemma elem_of_insert_at pos id l x : x ∈ insert_at pos id l <-> x = id \/ x ∈ l.
Proof.
  destruct pos; simpl; [by rewrite elem_of_cons| |apply elem_of_insert_before].
  rewrite elem_of_app, list_elem_of_singleton. tauto.
Qed.

Lemma insert_before_perm p id l : insert_before p id l ≡ₚ id :: l.
Proof.
  induction l as [|y l IH]; simpl; [done|]. destruct (y =? p); [done|].
  rewrite IH. constructor.
Qed.

Lemma insert_at_perm pos id l : insert_at pos id l ≡ₚ id :: l.
Proof. destruct pos; simpl; [done|by rewrite Permutation_app_comm|apply insert_before_perm]. Qed.

Lemma elem_of_remove_id id l x : x ∈ remove_id id l <-> x ∈ l /\ x <> id.
Proof. unfold remove_id. rewrite list_elem_of_filter. tauto. Qed.

Lemma NoDup_remove_id id l : NoDup l -> NoDup (remove_id id l).
Proof. apply NoDup_filter. Qed.

Lemma NoDup_insert_at pos id l : id ∉ l -> NoDup l -> NoDup (insert_at pos id l).
Proof. intros Hid Hl. rewrite insert_at_perm. by constructor. Qed.

Lemma splice_perm pos id l : NoDup l -> id ∈ l -> splice pos id l ≡ₚ l.
Proof.
  intros Hnd Hid. assert (insert_at pos id (remove_id id l) ≡ₚ l) as Hp.
  { rewrite insert_at_perm. apply NoDup_Permutation; [|done|].
    - constructor; [rewrite elem_of_remove_id; tauto|by apply NoDup_remove_id].
    - intros x. rewrite elem_of_cons, elem_of_remove_id. destruct (decide (x = id)); naive_solver. }
  unfold splice. destruct pos as [| |p]; [done|done|]. by destruct (p =? id).
Qed.

Lemma remove_first_perm id l : id ∈ l -> l ≡ₚ id :: remove_first id l.
Proof.
  induction l as [|y l IH]; [by intros ?%not_elem_of_nil|]. simpl. intros Hin.
  destruct (Nat.eqb_spec y id) as [->|Hne]; [done|].
  apply elem_of_cons in Hin as [?|Hin]; [by subst|]. rewrite (IH Hin) at 1. constructor.
Qed.

Lemma elem_of_remove_first id l x : NoDup l -> id ∈ l -> x ∈ remove_first id l <-> x ∈ l /\ x <> id.
Proof.
  intros Hnd Hin. pose proof (remove_first_perm id l Hin) as Hp. rewrite Hp in Hnd.
  apply NoDup_cons in Hnd as [Hn Hnd]. rewrite Hp at 2. rewrite elem_of_cons. naive_solver.
Qed.

Lemma NoDup_remove_first id l : NoDup l -> id ∈ l -> NoDup (remove_first id l).
Proof.
  intros Hnd Hin. rewrite (remove_first_perm id l Hin) in Hnd. by apply NoDup_cons in Hnd as [_ ?].
Qed.

Lemma remove_id_length id l : NoDup l -> id ∈ l -> S (length (remove_id id l)) = length l.
Proof.
  intros Hnd Hin. change (length (id :: remove_id id l) = length l). apply Permutation_length.
  change (id :: remove_id id l) with (insert_at AtBegin id (remove_id id l)).
  exact (splice_perm AtBegin id l Hnd Hin).
Qed.

Lemma erase_hash_perm h id l : (h, id) ∈ l -> l ≡ₚ (h, id) :: erase_hash h id l.
Proof.
  induction l as [|[h' id'] l IH]; [by intros ?%not_elem_of_nil|]. simpl. intros Hin.
  destruct (N.eqb_spec h' h) as [->|Hne]; simpl.
  2: { apply elem_of_cons in Hin as [?|Hin]; [by simplify_eq|]. rewrite (IH Hin) at 1. constructor. }
  destruct (Nat.eqb_spec id' id) as [->|Hne]; [done|].
  apply elem_of_cons in Hin as [?|Hin]; [by simplify_eq|]. rewrite (IH Hin) at 1. constructor.
Qed.

(** ** The invariant *)

(** The index structures of the cache agree.  [n] is the pool's capacity. *)
Record index_ok (n : nat) (c : PrefixCache) : Prop := mk_index_ok
  { ix_length : length (entries_by_block_id_ c) = n;
    ix_by_id : forall b x, entries_by_block_id_ c !! b = Some x -> x = (fun _ => b) <$> entries_ c !! b;
    ix_marks : length (leased_ancestry_ c) = n;
    ix_entry : forall id e, entries_ c !! id = Some e ->
      id < n /\ bi_block_id (entry_identity e) = id /\
      identities c !! bi_addr (entry_identity e) = Some (entry_identity e);
    ix_recency : NoDup (recency_ c) /\ forall id, id ∈ recency_ c <-> is_Some (entries_ c !! id);
    ix_reclaimable : NoDup (reclaimable_entries_ c) /\
      forall id, id ∈ reclaimable_entries_ c <-> exists e, entries_ c !! id = Some e /\ reclaimable e = true;
    ix_referenced : NoDup (referenced_entries_ c) /\
      forall id, id ∈ referenced_entries_ c <-> exists e, entries_ c !! id = Some e /\ reclaimable e = false;
    ix_hash : NoDup (snd <$> entries_by_hash_ c) /\
      forall h id, (h, id) ∈ entries_by_hash_ c <->
        exists e, entries_ c !! id = Some e /\ bi_hash (entry_identity e) = h;
    ix_checkpoints : NoDup (checkpoint_entries_ c) /\
      forall id, id ∈ checkpoint_entries_ c <-> exists e, entries_ c !! id = Some e /\ is_Some (checkpoint e);
    ix_leases : forall id e a, entries_ c !! id = Some e -> checkpoint e = Some a -> is_Some (checkpoints c !! a);
    ix_identities : forall a i, identities c !! a = Some i ->
      bi_addr i = a /\ a < size (identities c) /\
      (forall p, bi_parent i = Some p -> identities c !! bi_addr p = Some p) /\
      (forall l, bi_logical i = Some l -> logicals c !! li_addr l = Some l);
    ix_logicals : forall a l, logicals c !! a = Some l ->
      li_addr l = a /\ a < size (logicals c) /\
      (forall p, li_parent l = Some p -> logicals c !! li_addr p = Some p);
    ix_hashed : forall a i, identities c !! a = Some i ->
      bi_hash i = Hash c (from_option bi_hash RootHash (bi_parent i)) (Tokens i);
    ix_budget : size (entries_ c) <= max_blocks (options_ c) /\
      length (checkpoint_entries_ c) <= max_checkpoints (options_ c) }.

(** What an entry and its block know of each other. *)
Record block_linked (w : world PrefixCache) (id : nat) (e : Entry) (b : Block) : Prop := mk_block_linked
  { lk_heap : heap w !! entry_block e = Some b;
    lk_id : id_ b = id;
    lk_slot : blocks_ (pool w) !! id = Some (Some (entry_block e));
    lk_full : IsFull b = true;
    lk_identity : identity_ b = Some (entry_identity e);
    lk_cookie : reference_observer_cookie_ b = Some id;
    lk_reclaimable : reclaimable e = (ref_count_ b =? 1) }.

(** The invariant of the cache and its pool: exactly the indexed blocks have an
    identity and a cookie, and an entry is reclaimable when the cache alone holds it. *)
Record cache_ok (w : world PrefixCache) : Prop := mk_cache_ok
  { ck_pool : pool_wf w;
    ck_observer : is_Some (reference_observer_ (pool w));
    ck_index : index_ok (pool_capacity_ (pool w)) (observer w);
    ck_linked : forall id e, entries_ (observer w) !! id = Some e -> exists b, block_linked w id e b;
    ck_cookie : forall a b (k : nat), heap w !! a = Some b -> reference_observer_cookie_ b = Some k ->
      exists e, entries_ (observer w) !! k = Some e /\ entry_block e = a;
    ck_identity : forall a b i, heap w !! a = Some b -> identity_ b = Some i ->
      exists e, entries_ (observer w) !! id_ b = Some e /\ entry_block e = a }.

(** ** The callbacks *)

(** What a callback or a reordering changes: flags of entries and the three orders. *)
Record reordered (c c' : PrefixCache) : Prop := mk_reordered
  { ro_options : options_ c' = options_ c;
    ro_hash : entries_by_hash_ c' = entries_by_hash_ c;
    ro_by_id : entries_by_block_id_ c' = entries_by_block_id_ c;
    ro_checkpoints : checkpoint_entries_ c' ≡ₚ checkpoint_entries_ c;
    ro_heaps : checkpoints c' = checkpoints c /\ drafts c' = drafts c /\
      identities c' = identities c /\ logicals c' = logicals c;
    ro_recency : recency_ c' ≡ₚ recency_ c;
    ro_entries : forall id, (fun e => set_flags false false e) <$> entries_ c' !! id =
      (fun e => set_flags false false e) <$> entries_ c !! id }.

Definition core (e : Entry) : Entry := set_flags false false e.

Lemma reordered_sym c c' : reordered c c' -> reordered c' c.
Proof. intros [? ? ? ? (? & ? & ? & ?) ? ?]. constructor; naive_solver. Qed.

Lemma reordered_lookup c c' id e :
  reordered c c' -> entries_ c !! id = Some e -> exists e', entries_ c' !! id = Some e' /\ core e' = core e.
Proof.
  intros Hr He. pose proof (ro_entries _ _ Hr id) as Hx. rewrite He in Hx. simpl in Hx.
  apply fmap_Some in Hx as (e' & He' & Hcore). exists e'. by split.
Qed.

Lemma reordered_is_Some c c' id :
  reordered c c' -> is_Some (entries_ c' !! id) <-> is_Some (entries_ c !! id).
Proof.
  intros Hr. split; intros [e He].
  - destruct (reordered_lookup _ _ _ _ (reordered_sym _ _ Hr) He) as (e' & -> & _). by eexists.
  - destruct (reordered_lookup _ _ _ _ Hr He) as (e' & -> & _). by eexists.
Qed.

Lemma reordered_size c c' : reordered c c' -> size (entries_ c') = size (entries_ c).
Proof.
  intros Hr. rewrite <- !size_dom. f_equal. apply set_eq. intros id.
  rewrite !elem_of_dom. by apply reordered_is_Some.
Qed.

(** A property of entries that ignores the flags. *)
Lemma reordered_exists (P : Entry -> Prop) c c' id :
  reordered c c' -> (forall e e', core e = core e' -> P e -> P e') ->
  (exists e, entries_ c' !! id = Some e /\ P e) <-> (exists e, entries_ c !! id = Some e /\ P e).
Proof.
  intros Hr HP. split; intros (e & He & Hp).
  - destruct (reordered_lookup _ _ _ _ (reordered_sym _ _ Hr) He) as (e' & He' & Hcore). exists e'.
    split; [done|]. by eapply HP.
  - destruct (reordered_lookup _ _ _ _ Hr He) as (e' & He' & Hcore). exists e'.
    split; [done|]. by eapply HP.
Qed.

Lemma core_fields e e' : core e = core e' ->
  entry_block e = entry_block e' /\ entry_identity e = entry_identity e' /\ checkpoint e = checkpoint e' /\
  draft_checkpoint e = draft_checkpoint e' /\ parent_block_id e = parent_block_id e'.
Proof. destruct e, e'. unfold core, set_flags. simpl. intros [=]. by subst. Qed.

Lemma reordered_index n c c' :
  index_ok n c -> reordered c c' -> length (leased_ancestry_ c') = n ->
  NoDup (reclaimable_entries_ c') ->
  (forall id, id ∈ reclaimable_entries_ c' <-> exists e, entries_ c' !! id = Some e /\ reclaimable e = true) ->
  NoDup (referenced_entries_ c') ->
  (forall id, id ∈ referenced_entries_ c' <-> exists e, entries_ c' !! id = Some e /\ reclaimable e = false) ->
  index_ok n c'.
Proof.
  intros Hc Hr Hm H1 H2 H3 H4. pose proof (ro_heaps _ _ Hr) as (Hcp & Hdr & Hid & Hlg). constructor; try done.
  - rewrite (ro_by_id _ _ Hr). apply Hc.
  - intros b x Hb. rewrite (ro_by_id _ _ Hr) in Hb. rewrite (ix_by_id _ _ Hc b x Hb).
    pose proof (reordered_is_Some _ _ b Hr) as Hs.
    destruct (entries_ c !! b), (entries_ c' !! b); simpl; try done.
    + by destruct (proj2 Hs ltac:(done)).
    + by destruct (proj1 Hs ltac:(done)).
  - intros id e He. destruct (reordered_lookup _ _ _ _ (reordered_sym _ _ Hr) He) as (e' & He' & Hcore).
    destruct (core_fields _ _ Hcore) as (_ & <- & _). rewrite Hid. by apply Hc.
  - rewrite (ro_recency _ _ Hr). split; [apply Hc|]. intros id.
    rewrite (reordered_is_Some _ _ id Hr), (ro_recency _ _ Hr). apply Hc.
  - rewrite (ro_hash _ _ Hr). split; [apply Hc|]. intros h id. rewrite (proj2 (ix_hash _ _ Hc)).
    symmetry. apply reordered_exists; [done|]. intros e e' (_ & -> & _)%core_fields. done.
  - rewrite (ro_checkpoints _ _ Hr). split; [apply Hc|]. intros id.
    rewrite (ro_checkpoints _ _ Hr), (proj2 (ix_checkpoints _ _ Hc)). symmetry. apply reordered_exists; [done|].
    intros e e' (_ & _ & -> & _)%core_fields. done.
  - intros id e a He Ha. destruct (reordered_lookup _ _ _ _ (reordered_sym _ _ Hr) He) as (e' & He' & Hcore).
    destruct (core_fields _ _ Hcore) as (_ & _ & Heq & _). rewrite Hcp. eapply (ix_leases _ _ Hc); [exact He'|congruence].
  - rewrite Hid, Hlg. apply Hc.
  - rewrite Hlg. apply Hc.
  - rewrite Hid. unfold Hash. rewrite (ro_options _ _ Hr). apply Hc.
  - rewrite (ro_options _ _ Hr), (reordered_size _ _ Hr), (ro_checkpoints _ _ Hr). apply Hc.
Qed.

(** Changing one entry's flags. *)
Lemma reordered_flags c c' id e r p :
  entries_ c !! id = Some e -> entries_ c' = <[id := set_flags r p e]> (entries_ c) ->
  options_ c' = options_ c -> entries_by_hash_ c' = entries_by_hash_ c ->
  entries_by_block_id_ c' = entries_by_block_id_ c -> checkpoint_entries_ c' ≡ₚ checkpoint_entries_ c ->
  checkpoints c' = checkpoints c -> drafts c' = drafts c -> identities c' = identities c ->
  logicals c' = logicals c -> recency_ c' ≡ₚ recency_ c -> reordered c c'.
Proof.
  intros He Hent. intros. constructor; try done. intros k. rewrite Hent.
  destruct (decide (k = id)) as [->|Hne]; [|by rewrite lookup_insert_ne].
  rewrite lookup_insert_eq, He. by destruct e.
Qed.

(** Moving [id] between the two reference lists. *)
Lemma flag_lists (E : gmap nat Entry) (l : list nat) id e r r' p :
  E !! id = Some e ->
  (forall k, k ∈ l <-> exists e, E !! k = Some e /\ reclaimable e = r) ->
  forall k, (if bool_decide (r' = r) then k = id \/ k ∈ l else k ∈ l /\ k <> id) <->
    exists e', <[id := set_flags r' p e]> E !! k = Some e' /\ reclaimable e' = r.
Proof.
  intros He Hl k. destruct (decide (k = id)) as [->|Hne].
  - rewrite lookup_insert_eq. case_bool_decide as Hr.
    + subst. split; [intros _|tauto]. eexists. split; [done|]. done.
    + split; [tauto|]. intros (e' & [= <-] & Hx). by destruct Hr.
  - rewrite lookup_insert_ne by done. rewrite <- Hl. case_bool_decide; tauto.
Qed.

Lemma became_referenced_ok n c (id : nat) e :
  index_ok n c -> entries_ c !! id = Some e -> reclaimable e = true ->
  exists c', became_referenced (entry_block e) id c = Some c' /\ index_ok n c' /\
    entries_ c' = <[id := set_flags false false e]> (entries_ c) /\ reordered c c'.
Proof.
  intros Hc He Hr. unfold became_referenced. rewrite He. simpl.
  rewrite Nat.eqb_refl, Hr. simpl. eexists. split; [reflexivity|].
  pose proof (ix_reclaimable _ _ Hc) as [Hnd1 Hin1]. pose proof (ix_referenced _ _ Hc) as [Hnd2 Hin2].
  match goal with |- index_ok n ?c' /\ _ => assert (reordered c c') as Hro by (by eapply reordered_flags) end.
  split_and!; [|done|done]. eapply reordered_index; [done|done|apply Hc|..]; simpl.
  - by apply NoDup_remove_id.
  - intros k. rewrite elem_of_remove_id. apply (flag_lists _ _ _ _ true false false He Hin1).
  - apply NoDup_app. split_and!; [done| |by apply NoDup_singleton].
    intros x Hx ->%list_elem_of_singleton. apply Hin2 in Hx as (e' & He' & Hf). congruence.
  - intros k. rewrite elem_of_app, list_elem_of_singleton.
    rewrite <- (flag_lists _ _ _ _ false false false He Hin2 k). simpl. tauto.
Qed.

Lemma became_reclaimable_ok n c (id : nat) e :
  index_ok n c -> entries_ c !! id = Some e -> reclaimable e = false ->
  exists c', became_reclaimable (entry_block e) id c = Some c' /\ index_ok n c' /\
    entries_ c' = <[id := set_flags true true e]> (entries_ c) /\ reordered c c'.
Proof.
  intros Hc He Hr. unfold became_reclaimable. rewrite He. simpl.
  rewrite Nat.eqb_refl, Hr. simpl. eexists. split; [reflexivity|].
  pose proof (ix_reclaimable _ _ Hc) as [Hnd1 Hin1]. pose proof (ix_referenced _ _ Hc) as [Hnd2 Hin2].
  match goal with |- index_ok n ?c' /\ _ => assert (reordered c c') as Hro by (by eapply reordered_flags) end.
  split_and!; [|done|done]. eapply reordered_index; [done|done|apply Hc|..]; simpl.
  - apply NoDup_insert_at; [|done]. intros Hx. apply Hin1 in Hx as (e' & He' & Hf). congruence.
  - intros k. rewrite elem_of_insert_at. apply (flag_lists _ _ _ _ true true true He Hin1).
  - by apply NoDup_remove_id.
  - intros k. rewrite elem_of_remove_id. apply (flag_lists _ _ _ _ false true true He Hin2).
Qed.

(** ** References taken and dropped by requests *)

Implicit Types w : world PrefixCache.

Lemma private_block w a b :
  cache_ok w -> heap w !! a = Some b -> reference_observer_cookie_ b = None -> identity_ b = None.
Proof.
  intros Hw Ha Hc. destruct (identity_ b) as [i|] eqn:Hi; [|done].
  destruct (ck_identity _ Hw a b i Ha Hi) as (e & He & Hb). subst a.
  destruct (ck_linked _ Hw _ _ He) as (b' & Hl). pose proof (lk_heap _ _ _ _ Hl) as Hh.
  pose proof (lk_cookie _ _ _ _ Hl). congruence.
Qed.

(** A change that leaves the indexed blocks alone. *)
Lemma cache_ok_private w h n p :
  cache_ok w -> pool_wf (mkWorld h n p (observer w)) -> is_Some (reference_observer_ p) ->
  pool_capacity_ p = pool_capacity_ (pool w) ->
  (forall id e, entries_ (observer w) !! id = Some e ->
     h !! entry_block e = heap w !! entry_block e /\ blocks_ p !! id = blocks_ (pool w) !! id) ->
  (forall a b, h !! a = Some b -> heap w !! a = Some b \/
     (reference_observer_cookie_ b = None /\ identity_ b = None)) ->
  cache_ok (mkWorld h n p (observer w)).
Proof.
  intros Hw Hp Ho Hcap Hsame Hnew. constructor; simpl; try done.
  - rewrite Hcap. apply Hw.
  - intros id e He. destruct (ck_linked _ Hw _ _ He) as (b & Hl). exists b.
    destruct (Hsame _ _ He) as [Hh Hs]. destruct Hl. constructor; simpl; congruence.
  - intros a b k Ha Hk. destruct (Hnew _ _ Ha) as [Hold|[? _]]; [by eapply ck_cookie|congruence].
  - intros a b i Ha Hi. destruct (Hnew _ _ Ha) as [Hold|[_ ?]]; [by eapply ck_identity|congruence].
Qed.

(** Changing the reference count of an indexed block. *)
Lemma cache_ok_refs w id e e' b r c' :
  cache_ok w -> entries_ (observer w) !! id = Some e -> block_linked w id e b ->
  index_ok (pool_capacity_ (pool w)) c' -> entries_ c' = <[id := e']> (entries_ (observer w)) ->
  core e' = core e -> 0 < r -> reclaimable e' = (r =? 1) ->
  cache_ok (mkWorld (<[entry_block e := set_ref_count r b]> (heap w)) (next_addr w) (pool w) c').
Proof.
  intros Hw He Hl Hi Hent Hcore Hr Hrec. pose proof (core_fields _ _ Hcore) as (Hb & Hid & _).
  constructor; simpl; try done.
  - pose proof (update_wf _ b (set_ref_count r b) w (ck_pool _ Hw) (lk_heap _ _ _ _ Hl)) as Hu.
    destruct Hu as [? ? ? ? ? ? Hu1 Hu2]; [by intros k []|]. constructor; try done.
  - apply Hw.
  - intros k x. rewrite Hent. destruct (decide (k = id)) as [->|Hne].
    + rewrite lookup_insert_eq. intros [= <-]. exists (set_ref_count r b). destruct Hl.
      constructor; simpl; rewrite ?Hb, ?Hid; try done. apply lookup_insert_eq.
    + rewrite lookup_insert_ne by done. intros Hx. destruct (ck_linked _ Hw _ _ Hx) as (bx & Hlx).
      exists bx. assert (entry_block x <> entry_block e) as Hneb.
      { intros Heq. destruct Hl, Hlx. rewrite Heq in *. congruence. }
      destruct Hlx. constructor; simpl; try done. by rewrite lookup_insert_ne.
  - intros a b0 k Ha Hk. destruct (decide (a = entry_block e)) as [->|Hne].
    + rewrite lookup_insert_eq in Ha. injection Ha as <-. simpl in Hk.
      pose proof (lk_cookie _ _ _ _ Hl) as Hc. assert (k = id) as -> by congruence.
      exists e'. rewrite Hent, lookup_insert_eq. by split.
    + rewrite lookup_insert_ne in Ha by done. destruct (ck_cookie _ Hw _ _ _ Ha Hk) as (x & Hx & Hxb).
      exists x. split; [|done]. rewrite Hent, lookup_insert_ne; [done|]. intros ->. congruence.
  - intros a b0 i Ha Hk. destruct (decide (a = entry_block e)) as [->|Hne].
    + rewrite lookup_insert_eq in Ha. injection Ha as <-. simpl.
      exists e'. rewrite Hent, (lk_id _ _ _ _ Hl), lookup_insert_eq. by split.
    + rewrite lookup_insert_ne in Ha by done. destruct (ck_identity _ Hw _ _ _ Ha Hk) as (x & Hx & Hxb).
      exists x. split; [|done]. rewrite Hent, lookup_insert_ne; [done|]. intros Heq. subst. congruence.
Qed.

(** The world after a reference was added or dropped: only flags and orders of the
    cache change. *)
Definition refs_changed (a : addr) (b : Block) w w' : Prop :=
  cache_ok w' /\ heap w' = <[a := b]> (heap w) /\ next_addr w' = next_addr w /\
  reordered (observer w) (observer w').

Lemma reordered_refl c : reordered c c.
Proof. by constructor. Qed.

Lemma add_ref_at_ok w a b :
  cache_ok w -> heap w !! a = Some b -> blocks_ (pool w) !! id_ b = Some (Some a) ->
  exists w', add_ref_at a b w = (Ok tt, w') /\ refs_changed a (Block_AddRef b) w w' /\ pool w' = pool w.
Proof.
  intros Hw Ha Hs. destruct (pw_slot _ (ck_pool _ Hw) _ _ Hs) as (b0 & Hb0 & Hbw).
  assert (b0 = b) as -> by congruence. unfold add_ref_at.
  set (w1 := set_heap (<[a := Block_AddRef b]> (heap w)) w).
  rewrite (bind_ok (update a _) _ w tt w1) by done. rewrite (bind_ok (gets pool) _ w1 (pool w1) w1) by done.
  destruct (ck_observer _ Hw) as [o Ho]. change (pool w1) with (pool w). rewrite Ho.
  rewrite (bool_decide_true (is_Some (Some o))) by done. rewrite andb_true_r.
  destruct (reference_observer_cookie_ b) as [k|] eqn:Hk.
  - destruct (ck_cookie _ Hw _ _ _ Ha Hk) as (e & He & <-). destruct (ck_linked _ Hw _ _ He) as (b1 & Hl).
    assert (b1 = b) as -> by (pose proof (lk_heap _ _ _ _ Hl); congruence).
    rewrite (bool_decide_true (is_Some (Some k))) by done. rewrite andb_true_r.
    pose proof (lk_reclaimable _ _ _ _ Hl) as Hrec. destruct (ref_count_ b =? 1) eqn:Hone.
    + destruct (became_referenced_ok _ _ _ _ (ck_index _ Hw) He Hrec) as (c' & Hcb & Hi & Hent & Hro).
      unfold notify_referenced. simpl. rewrite Hcb. eexists. split; [reflexivity|].
      split; [|done]. split_and!; try done.
      eapply (cache_ok_refs w k e _ b _ c'); try done; simpl; try lia.
      symmetry. apply Nat.eqb_neq. apply Nat.eqb_eq in Hone. lia.
    + eexists. split; [reflexivity|]. split; [|done]. split_and!; try done.
      eapply (cache_ok_refs w k e e b _ (observer w)); try done; try apply Hw; try lia.
      * by rewrite insert_id.
      * rewrite Hrec. symmetry. apply Nat.eqb_neq. pose proof (bw_refs _ _ _ Hbw). lia.
  - rewrite (bool_decide_false (is_Some (None : option addr))) by (by intros []). rewrite andb_false_r.
    eexists. split; [reflexivity|]. split; [|done]. split_and!; try done.
    pose proof (private_block _ _ _ Hw Ha Hk) as Hid.
    apply (cache_ok_private w); try done; try apply Hw.
    + pose proof (update_wf a b (Block_AddRef b) w (ck_pool _ Hw) Ha) as Hu.
      destruct Hu as [? ? ? ? ? ? Hu1 Hu2]; [intros x []; constructor; simpl; try done; lia|]. by constructor.
    + intros id e He. split; [|done]. apply lookup_insert_ne. intros ->.
      destruct (ck_linked _ Hw _ _ He) as (b1 & Hl). pose proof (lk_cookie _ _ _ _ Hl).
      pose proof (lk_heap _ _ _ _ Hl). congruence.
    + intros a' b'. destruct (decide (a' = a)) as [->|Hne].
      * rewrite lookup_insert_eq. intros [= <-]. by right.
      * rewrite lookup_insert_ne by done. by left.
Qed.

Lemma release_at_private w a b :
  cache_ok w -> heap w !! a = Some b -> blocks_ (pool w) !! id_ b = Some (Some a) ->
  reference_observer_cookie_ b = None ->
  release_at a b w = (Ok (ref_count_ b =? 1), released_world a b (observer w) w) /\
  cache_ok (released_world a b (observer w) w).
Proof.
  intros Hw Ha Hs Hk. destruct (pw_slot _ (ck_pool _ Hw) _ _ Hs) as (b0 & Hb0 & Hbw).
  assert (b0 = b) as -> by congruence. pose proof (bw_refs _ _ _ Hbw) as Hr.
  pose proof (private_block _ _ _ Hw Ha Hk) as Hid. split.
  - destruct (release_at_spec a b w Ha Hr) as [(o & Ho)|(w' & c & _ & Hc & _)]; [|congruence].
    rewrite Ho. f_equal. enough (observer (released_world a b o w) = observer w) as Hobs
      by (simpl in Hobs; by subst).
    assert (observer (snd (release_at a b w)) = observer w) as Hx; [|by rewrite Ho in Hx].
    clear Ho. unfold release_at, ReleaseRef. destruct (ref_count_ b) as [|n]; [lia|].
    unfold_m. rewrite Hk. rewrite (bool_decide_false (is_Some (None : option addr))) by (by intros []).
    rewrite andb_false_r. simpl. by destruct (n =? 0).
  - apply (cache_ok_private w); try done.
    + apply (released_world_wf a b (observer w) w); [apply Hw|done|done].
    + simpl. destruct (ref_count_ b =? 1); apply Hw.
    + simpl. by destruct (ref_count_ b =? 1).
    + intros id e He. destruct (ck_linked _ Hw _ _ He) as (b1 & Hl).
      assert (a <> entry_block e) as Hne.
      { intros ->. pose proof (lk_cookie _ _ _ _ Hl). pose proof (lk_heap _ _ _ _ Hl). congruence. }
      split; [by apply lookup_insert_ne|]. destruct (ref_count_ b =? 1); [|done].
      simpl. apply list_lookup_insert_ne. intros <-. pose proof (lk_slot _ _ _ _ Hl). congruence.
    + intros a' b'. destruct (decide (a' = a)) as [->|Hne].
      * rewrite lookup_insert_eq. intros [= <-]. right. unfold drop_refs.
        by destruct (ref_count_ b =? 1).
      * rewrite lookup_insert_ne by done. by left.
Qed.

Lemma release_at_shared w a b :
  cache_ok w -> heap w !! a = Some b -> blocks_ (pool w) !! id_ b = Some (Some a) -> 1 < ref_count_ b ->
  exists w', release_at a b w = (Ok false, w') /\ refs_changed a (set_ref_count (ref_count_ b - 1) b) w w' /\
    pool w' = pool w.
Proof.
  intros Hw Ha Hs Hr. destruct (reference_observer_cookie_ b) as [k|] eqn:Hk.
  2: { destruct (release_at_private w a b Hw Ha Hs Hk) as [Hrun Hok]. eexists. rewrite Hrun.
       destruct (Nat.eqb_spec (ref_count_ b) 1); [lia|]. split; [reflexivity|].
       unfold released_world, drop_refs in *. rewrite (proj2 (Nat.eqb_neq _ 1)) in * by lia. by split_and!. }
  destruct (ck_cookie _ Hw _ _ _ Ha Hk) as (e & He & <-). destruct (ck_linked _ Hw _ _ He) as (b1 & Hl).
  assert (b1 = b) as -> by (pose proof (lk_heap _ _ _ _ Hl); congruence).
  pose proof (lk_reclaimable _ _ _ _ Hl) as Hrec. rewrite (proj2 (Nat.eqb_neq _ 1)) in Hrec by lia.
  destruct (ck_observer _ Hw) as [o Ho]. unfold release_at, ReleaseRef.
  destruct (ref_count_ b) as [|n] eqn:Hn; [lia|]. rewrite (bind_ok (lift _) _ w (n, set_ref_count n b) w) by done.
  cbn beta iota. set (w1 := set_heap (<[entry_block e := set_ref_count n b]> (heap w)) w).
  rewrite (bind_ok (update (entry_block e) _) _ w tt w1) by done.
  rewrite (bind_ok (gets pool) _ w1 (pool w1) w1) by done. change (pool w1) with (pool w). rewrite Ho, Hk.
  rewrite (bool_decide_true (is_Some (Some k))), (bool_decide_true (is_Some (Some o))) by done.
  rewrite !andb_true_r. replace (S n - 1) with n by lia. destruct (Nat.eqb_spec n 1) as [->|Hne].
  - destruct (became_reclaimable_ok _ _ _ _ (ck_index _ Hw) He Hrec) as (c' & Hcb & Hi & Hent & Hro).
    unfold notify_reclaimable, mbind, M_bind. simpl. rewrite Hcb. eexists. split; [reflexivity|].
    split; [|done]. split_and!; try done. eapply (cache_ok_refs w k e _ b 1 c'); try done. lia.
  - rewrite (proj2 (Nat.eqb_neq n 0)) by lia. eexists. split; [reflexivity|]. split; [|done].
    split_and!; try done. eapply (cache_ok_refs w k e e b n (observer w)); try done; try apply Hw; try lia.
    + by rewrite insert_id.
    + rewrite Hrec. symmetry. by apply Nat.eqb_neq.
Qed.

(** ** Eviction *)

Lemma pool_op_ok {A} (m : M (world PrefixCache) BlockError A) w a w' :
  m w = (Ok a, w') -> pool_op m w = (Ok a, w').
Proof. intros Hm. unfold pool_op. by rewrite Hm. Qed.

Lemma Owns_owned w a b :
  pool_wf w -> heap w !! a = Some b -> blocks_ (pool w) !! id_ b = Some (Some a) ->
  Owns (Some a) w = (Ok true, w).
Proof.
  intros Hw Ha Hs. unfold Owns. rewrite (bind_ok _ _ _ _ _ (deref_ok _ _ _ Ha)).
  rewrite (bind_ok (gets pool) _ w (pool w) w) by done. unfold mret, M_ret. do 2 f_equal.
  apply andb_true_intro. split; [by apply Nat.ltb_lt, (owned_in_range w a b)|by apply slot_holds_iff].
Qed.

(** The cache without entry [id]. *)
Definition evict_cache (id : nat) (e : Entry) (c : PrefixCache) : PrefixCache :=
  set_entries (delete id (entries_ c))
    (set_by_hash (erase_hash (bi_hash (entry_identity e)) id (entries_by_hash_ c))
       (set_by_id (<[id := None]> (entries_by_block_id_ c))
          (set_lists (remove_id id (recency_ c))
             (if reclaimable e then referenced_entries_ c else remove_id id (referenced_entries_ c))
             (if reclaimable e then remove_id id (reclaimable_entries_ c) else reclaimable_entries_ c)
             (set_checkpoint_entries
                (match checkpoint e with
                 | None => checkpoint_entries_ c
                 | Some _ => remove_first id (checkpoint_entries_ c)
                 end) c)))).

Lemma delete_exists (E : gmap nat Entry) id (P : Entry -> Prop) k :
  (exists x, delete id E !! k = Some x /\ P x) <-> k <> id /\ exists x, E !! k = Some x /\ P x.
Proof.
  destruct (decide (k = id)) as [->|Hne]; [rewrite lookup_delete_eq|rewrite lookup_delete_ne by done]; naive_solver.
Qed.

(** A list of the entries with property [P], after the deletion. *)
Lemma delete_list (E : gmap nat Entry) (l : list nat) id e (P : Entry -> Prop) :
  E !! id = Some e -> (forall k, k ∈ l <-> exists x, E !! k = Some x /\ P x) ->
  forall (l' : list nat), (forall k, k ∈ l' <-> k ∈ l /\ (P e -> k <> id)) ->
  forall k, k ∈ l' <-> exists x, delete id E !! k = Some x /\ P x.
Proof.
  intros He Hl l' Hl' k. rewrite Hl', delete_exists, <- Hl. split; [|naive_solver].
  intros [Hin Hk]. split; [|done]. intros ->. apply Hl in Hin as (x & Hx & HP).
  assert (x = e) as -> by congruence. by apply Hk.
Qed.

Lemma evict_index n c id e :
  index_ok n c -> entries_ c !! id = Some e -> index_ok n (evict_cache id e c).
Proof.
  intros Hc He. destruct Hc as [Hlen Hby Hmk Hent [Hr1 Hr2] [Hc1 Hc2] [Hf1 Hf2] [Hh1 Hh2] [Hk1 Hk2] Hls His Hlg Hhs [Hb1 Hb2]].
  assert ((bi_hash (entry_identity e), id) ∈ entries_by_hash_ c) as Hhin by (apply Hh2; by eexists).
  pose proof (erase_hash_perm _ _ _ Hhin) as Hperm. pose proof Hh1 as Hnd. rewrite Hperm in Hnd.
  rewrite fmap_cons in Hnd. apply NoDup_cons in Hnd as [Hnew Hnd].
  assert (forall a, checkpoint e = Some a -> id ∈ checkpoint_entries_ c) as Hcin.
  { intros a Ha. apply Hk2. rewrite He. naive_solver. }
  constructor; simpl; try done.
  - by rewrite length_insert.
  - intros b x Hx. destruct (decide (b = id)) as [->|Hne].
    + rewrite lookup_delete_eq. by apply list_lookup_insert_Some in Hx as [(_ & <- & _)|[? _]].
    + rewrite lookup_delete_ne by done. rewrite list_lookup_insert_ne in Hx by done. by apply Hby.
  - intros k x [_ Hx]%lookup_delete_Some. by apply Hent.
  - split; [by apply NoDup_remove_id|]. intros k. rewrite elem_of_remove_id, Hr2.
    destruct (decide (k = id)) as [->|Hne]; [rewrite lookup_delete_eq|rewrite lookup_delete_ne by done].
    + split; [tauto|by intros []].
    + tauto.
  - split; [destruct (reclaimable e); [by apply NoDup_remove_id|done]|].
    apply (delete_list _ _ _ _ (fun x => reclaimable x = true) He Hc2). intros k.
    destruct (reclaimable e); [rewrite elem_of_remove_id; tauto|naive_solver].
  - split; [destruct (reclaimable e); [done|by apply NoDup_remove_id]|].
    apply (delete_list _ _ _ _ (fun x => reclaimable x = false) He Hf2). intros k.
    destruct (reclaimable e); [naive_solver|rewrite elem_of_remove_id; tauto].
  - split; [done|]. intros h k. rewrite (delete_exists _ _ (fun x => bi_hash (entry_identity x) = h)), <- Hh2.
    rewrite Hperm at 2. rewrite elem_of_cons. split; [|naive_solver].
    intros Hin. split; [|by right]. intros ->. apply Hnew. by apply (list_elem_of_fmap_2 snd _ (h, id)).
  - split; [destruct (checkpoint e) as [a|] eqn:Ha; [|done]; apply NoDup_remove_first; eauto|].
    apply (delete_list _ _ _ _ (fun x => is_Some (checkpoint x)) He Hk2). intros k.
    destruct (checkpoint e) as [a|] eqn:Ha.
    + rewrite elem_of_remove_first by eauto. naive_solver.
    + split; [|tauto]. intros Hin. split; [done|]. by intros [].
  - intros k x a [_ Hx]%lookup_delete_Some. by apply (Hls k).
  - split.
    + rewrite (map_size_delete_Some _ _ (mk_is_Some _ _ He)). lia.
    + etrans; [|exact Hb2]. destruct (checkpoint e) as [a|] eqn:Ha; [|done].
      rewrite (remove_first_perm id (checkpoint_entries_ c)) at 2 by eauto. simpl. lia.
Qed.

(** The block of an evicted entry is private again. *)
Definition unindexed (id : nat) (e : Entry) (b : Block) w : world PrefixCache :=
  mkWorld (<[entry_block e := set_identity None (set_cookie None b)]> (heap w)) (next_addr w) (pool w)
    (evict_cache id e (observer w)).

Lemma unindexed_ok w id e b :
  cache_ok w -> entries_ (observer w) !! id = Some e -> block_linked w id e b ->
  cache_ok (unindexed id e b w).
Proof.
  intros Hw He Hl. constructor; simpl.
  - pose proof (update_wf _ b (set_identity None (set_cookie None b)) w (ck_pool _ Hw) (lk_heap _ _ _ _ Hl)) as Hu.
    destruct Hu as [? ? ? ? ? ? Hu1 Hu2]; [intros k []; by constructor|]. by constructor.
  - apply Hw.
  - apply evict_index; [apply Hw|done].
  - intros k x [Hne Hx]%lookup_delete_Some. destruct (ck_linked _ Hw _ _ Hx) as (bx & Hlx). exists bx.
    assert (entry_block e <> entry_block x) as Hb.
    { intros Heq. destruct Hl, Hlx. rewrite Heq in *. congruence. }
    destruct Hlx. constructor; simpl; try done. by rewrite lookup_insert_ne.
  - intros a b0 k Ha Hk. destruct (decide (a = entry_block e)) as [->|Hne].
    { rewrite lookup_insert_eq in Ha. injection Ha as <-. done. }
    rewrite lookup_insert_ne in Ha by done. destruct (ck_cookie _ Hw _ _ _ Ha Hk) as (x & Hx & Hxb).
    exists x. split; [|done]. rewrite lookup_delete_ne; [done|]. intros ->. congruence.
  - intros a b0 i Ha Hk. destruct (decide (a = entry_block e)) as [->|Hne].
    { rewrite lookup_insert_eq in Ha. injection Ha as <-. done. }
    rewrite lookup_insert_ne in Ha by done. destruct (ck_identity _ Hw _ _ _ Ha Hk) as (x & Hx & Hxb).
    exists x. split; [|done]. rewrite lookup_delete_ne; [done|]. intros Heq. subst. congruence.
Qed.

Lemma Evict_unindexed w id e b :
  cache_ok w -> entries_ (observer w) !! id = Some e -> block_linked w id e b ->
  Evict id w = pool_op (Release (Some (entry_block e))) (unindexed id e b w).
Proof.
  intros Hw He Hl. pose proof (ck_index _ Hw) as Hi. unfold Evict.
  rewrite (bind_ok (entry_of id) _ w e w).
  2: { unfold entry_of. rewrite (bind_ok (gets observer) _ w (observer w) w) by done. by rewrite He. }
  rewrite (bind_ok (gets observer) _ w (observer w) w) by done.
  set (cps := match checkpoint e with None => checkpoint_entries_ (observer w)
              | Some _ => remove_first id (checkpoint_entries_ (observer w)) end).
  rewrite (bind_ok _ _ w tt (set_observer (set_checkpoint_entries cps (observer w)) w)).
  2: { unfold cps. destruct (checkpoint e) as [a|] eqn:Ha.
       - rewrite bool_decide_true; [done|]. apply (ix_checkpoints _ _ Hi). rewrite He. naive_solver.
       - unfold mret, M_ret. f_equal. destruct w as [? ? ? []]. done. }
  rewrite (bind_ok (on_cache _) _ _ tt _ eq_refl).
  destruct Hl. set (a := entry_block e) in *.
  match goal with |- (_ ≫= _) ?v = _ => set (w1 := v) end.
  assert (heap w1 !! a = Some b) as Ha1 by done.
  rewrite (bind_ok (pool_op (deref a)) _ w1 b w1) by (by apply pool_op_ok, deref_ok).
  assert (id < length (entries_by_block_id_ (observer w))) as Hlen.
  { rewrite (ix_length _ _ Hi). by apply (ix_entry _ _ Hi _ _ He). }
  rewrite (bind_ok (set_block_entry (id_ b) None) _ w1 tt
    (set_observer (set_by_id (<[id := None]> (entries_by_block_id_ (observer w))) (observer w1)) w1)).
  2: { unfold set_block_entry. rewrite (bind_ok (gets observer) _ w1 (observer w1) w1) by done.
       rewrite lk_id0. by rewrite (proj2 (Nat.ltb_lt id (length (entries_by_block_id_ (observer w1)))) Hlen). }
  match goal with |- (_ ≫= _) ?v = _ => set (w2 := v) end.
  assert (pool_wf w2) as Hwf2 by (destruct (ck_pool _ Hw); by constructor).
  rewrite (bind_ok (pool_op (ClearReferenceObserverCookie (Some a))) _ w2 tt
    (set_heap (<[a := set_cookie None b]> (heap w)) w2)).
  2: { apply pool_op_ok. unfold ClearReferenceObserverCookie.
       rewrite (bind_ok _ _ _ _ _ (Owns_owned w2 a b Hwf2 Ha1 ltac:(by rewrite lk_id0))). simpl.
       by rewrite (bind_ok _ _ _ _ _ (deref_ok a b w2 Ha1)). }
  do 2 rewrite (bind_ok (on_cache _) _ _ tt _ eq_refl).
  match goal with |- (_ ≫= _) ?v = _ => set (w3 := v) end.
  assert (heap w3 !! a = Some (set_cookie None b)) as Ha3 by apply lookup_insert_eq.
  rewrite (bind_ok (update_block a ClearIdentity) _ w3 tt (unindexed id e b w)); [done|].
  unfold update_block. rewrite (bind_ok _ _ _ _ _ (pool_op_ok _ _ _ _ (deref_ok a _ w3 Ha3))).
  apply pool_op_ok. unfold update, modify, unindexed, w3, w2, w1, set_heap, set_observer. simpl.
  by rewrite insert_insert_eq.
Qed.

(** The effect of an eviction: the entry is gone, and its block is free if the cache
    was its only holder. *)
Record evicted (id : nat) (e : Entry) w w' : Prop := mk_evicted
  { ev_ok : cache_ok w';
    ev_cache : observer w' = evict_cache id e (observer w);
    ev_blocks : blocks_ (pool w') = if reclaimable e then <[id := None]> (blocks_ (pool w)) else blocks_ (pool w);
    ev_pool : block_size_ (pool w') = block_size_ (pool w) /\ pool_capacity_ (pool w') = pool_capacity_ (pool w) /\
      next_addr w' = next_addr w;
    ev_heap : forall a, a <> entry_block e -> heap w' !! a = heap w !! a;
    ev_handle : is_Some (heap w' !! entry_block e) }.

Lemma cache_ok_generation w : cache_ok w -> cache_ok (set_pool (RecordOccupancyMutation (pool w)) w).
Proof.
  intros [Hp ? ? Hl ? ?]. constructor; try done; simpl.
  - destruct Hp. by constructor.
  - intros id e He. destruct (Hl _ _ He) as (b & []). exists b. by constructor.
Qed.

Lemma Evict_ok w id e :
  cache_ok w -> entries_ (observer w) !! id = Some e ->
  exists w', Evict id w = (Ok tt, w') /\ evicted id e w w'.
Proof.
  intros Hw He. destruct (ck_linked _ Hw _ _ He) as (b & Hl).
  rewrite (Evict_unindexed w id e b Hw He Hl). pose proof (unindexed_ok w id e b Hw He Hl) as Hu.
  set (w1 := unindexed id e b w) in *. set (a := entry_block e) in *. set (b1 := set_identity None (set_cookie None b)).
  assert (heap w1 !! a = Some b1) as Ha by apply lookup_insert_eq.
  assert (blocks_ (pool w1) !! id_ b1 = Some (Some a)) as Hs.
  { simpl. rewrite (lk_id _ _ _ _ Hl). apply (lk_slot _ _ _ _ Hl). }
  destruct (release_at_private w1 a b1 Hu Ha Hs eq_refl) as [Hrun Hok].
  assert (pool_op (Release (Some a)) w1 = (Ok tt, if ref_count_ b =? 1
    then set_pool (RecordOccupancyMutation (pool (released_world a b1 (observer w1) w1))) (released_world a b1 (observer w1) w1)
    else released_world a b1 (observer w1) w1)) as ->.
  { apply pool_op_ok. unfold Release. rewrite (bind_ok _ _ _ _ _ (Owns_owned w1 a b1 (ck_pool _ Hu) Ha Hs)).
    cbn [negb]. rewrite (bind_ok _ _ _ _ _ (deref_ok a b1 w1 Ha)), (bind_ok _ _ _ _ _ Hrun).
    change (ref_count_ b1) with (ref_count_ b). by destruct (ref_count_ b =? 1). }
  eexists. split; [reflexivity|]. pose proof (lk_reclaimable _ _ _ _ Hl) as Hrec. constructor.
  - destruct (ref_count_ b =? 1); [by apply cache_ok_generation|done].
  - by destruct (ref_count_ b =? 1).
  - rewrite Hrec. destruct (ref_count_ b =? 1) eqn:Hone; simpl; rewrite Hone; simpl; [|done].
    by rewrite (lk_id _ _ _ _ Hl).
  - destruct (ref_count_ b =? 1) eqn:Hone; simpl; rewrite Hone; done.
  - intros a' Hne. destruct (ref_count_ b =? 1); simpl; by rewrite !lookup_insert_ne.
  - destruct (ref_count_ b =? 1); simpl; rewrite lookup_insert_eq; by eexists.
Qed.

(** ** Lineages *)

Lemma identity_ind (P : BlockIdentity -> Prop) :
  (forall i, (forall p, bi_parent i = Some p -> P p) -> P i) -> forall i, P i.
Proof.
  intros Hstep i. assert (forall n i, depth i <= n -> P i) as Hn; [|by apply (Hn (depth i))].
  clear i. induction n as [|n IH]; intros i Hd; apply Hstep; intros p Hp;
    destruct i as [? ? ? [q|] ? ?]; simpl in Hp, Hd; try done; injection Hp as ->; [lia|].
  apply IH. lia.
Qed.

Fixpoint chain (i : BlockIdentity) : list BlockIdentity :=
  i :: match i with
       | mkIdentity _ _ _ (Some p) _ _ => chain p
       | mkIdentity _ _ _ None _ _ => []
       end.

Lemma chain_unfold i : chain i = i :: from_option chain [] (bi_parent i).
Proof. by destruct i as [? ? ? [p|] ? ?]. Qed.

Lemma chain_head i : i ∈ chain i.
Proof. rewrite chain_unfold. by left. Qed.

Lemma chain_trans i j k : j ∈ chain i -> k ∈ chain j -> k ∈ chain i.
Proof.
  revert j k. induction i as [i IH] using identity_ind. intros j k. rewrite (chain_unfold i).
  intros [->|Hj]%elem_of_cons Hk; [by rewrite chain_unfold in Hk|]. right.
  destruct (bi_parent i) as [p|] eqn:Hp; [|by apply not_elem_of_nil in Hj]. simpl in *. eauto.
Qed.

(** An identity some [shared_ptr] holds. *)
Definition held (c : PrefixCache) (i : BlockIdentity) : Prop := identities c !! bi_addr i = Some i.

Lemma held_chain n c i j : index_ok n c -> held c i -> j ∈ chain i -> held c j.
Proof.
  intros Hc. revert j. induction i as [i IH] using identity_ind. intros j Hi.
  rewrite chain_unfold. intros [->|Hj]%elem_of_cons; [done|].
  destruct (bi_parent i) as [p|] eqn:Hp; [|by apply not_elem_of_nil in Hj]. simpl in Hj.
  apply (IH p eq_refl j); [|done]. by apply (ix_identities _ _ Hc _ _ Hi).
Qed.

Lemma held_eq c i j : held c i -> held c j -> same_identity i j = true <-> i = j.
Proof.
  unfold held, same_identity. intros Hi Hj. rewrite Nat.eqb_eq. split; [|by intros ->].
  intros Heq. rewrite Heq in Hi. congruence.
Qed.

Lemma block_entry_spec n c b : index_ok n c -> block_entry c b = pair b <$> entries_ c !! b.
Proof.
  intros Hc. unfold block_entry. destruct (entries_by_block_id_ c !! b) as [x|] eqn:Hx.
  - rewrite (ix_by_id _ _ Hc b x Hx). destruct (entries_ c !! b) as [e|] eqn:He; simpl; [|done].
    by rewrite He.
  - destruct (entries_ c !! b) as [e|] eqn:He; simpl; [|done].
    apply lookup_ge_None in Hx. rewrite (ix_length _ _ Hc) in Hx.
    destruct (ix_entry _ _ Hc _ _ He). lia.
Qed.

(** [FindEntry] finds exactly the entry that carries the identity. *)
Lemma FindEntry_spec n c i id e :
  index_ok n c -> held c i ->
  FindEntry c (Some i) = Some (id, e) <-> entries_ c !! id = Some e /\ entry_identity e = i.
Proof.
  intros Hc Hi. unfold FindEntry. rewrite (block_entry_spec n) by done.
  split.
  - destruct (entries_ c !! bi_block_id i) as [e'|] eqn:He; simpl; [|done].
    destruct (same_identity (entry_identity e') i) eqn:Hs; [|done]. intros [= <- <-]. split; [done|].
    apply (held_eq c) in Hs; [done| |done]. by apply (ix_entry _ _ Hc _ _ He).
  - intros [He <-]. destruct (ix_entry _ _ Hc _ _ He) as (_ & -> & _). rewrite He. simpl.
    unfold same_identity. by rewrite Nat.eqb_refl.
Qed.

Lemma FindEntry_none n c i :
  index_ok n c -> held c i ->
  FindEntry c (Some i) = None <-> forall id e, entries_ c !! id = Some e -> entry_identity e <> i.
Proof.
  intros Hc Hi. split.
  - intros Hn id e He Heq. assert (FindEntry c (Some i) = Some (id, e)); [by eapply FindEntry_spec|congruence].
  - intros Hno. destruct (FindEntry c (Some i)) as [[id e]|] eqn:Hf; [|done].
    apply (FindEntry_spec n) in Hf as [He Heq]; [|done|done]. by destruct (Hno id e He).
Qed.

(** ** Leases *)

Section leases.
Context (n : nat) (c : PrefixCache).
Hypothesis (Hc : index_ok n c).

Definition marked (marks : list bool) (id : nat) : Prop := marks !! id = Some true.

(** How many reclaimable entries are marked. *)
Definition marked_count (marks : list bool) : nat :=
  length (filter (fun id => marks !! id = Some true) (reclaimable_entries_ c)).

(** Every retained ancestor of a marked entry is marked. *)
Definition marks_closed (marks : list bool) : Prop :=
  forall id e i k x, marked marks id -> entries_ c !! id = Some e -> i ∈ chain (entry_identity e) ->
    FindEntry c (Some i) = Some (k, x) -> marked marks k.

Lemma mark_count id marks e :
  length marks = n -> entries_ c !! id = Some e -> ~ marked marks id ->
  marked_count (<[id := true]> marks) = (if reclaimable e then S (marked_count marks) else marked_count marks).
Proof.
  intros Hlen He Hm. pose proof (ix_reclaimable _ _ Hc) as [Hnd Hin].
  assert (id < length marks) as Hlt by (rewrite Hlen; by apply (ix_entry _ _ Hc _ _ He)).
  assert (id ∈ reclaimable_entries_ c <-> reclaimable e = true) as Hr by (rewrite Hin; naive_solver).
  assert (forall l : list nat, id ∉ l -> filter (fun k => <[id := true]> marks !! k = Some true) l =
    filter (fun k => marks !! k = Some true) l) as Hsame.
  { intros l Hl. apply filter_ext_in. intros k Hk. by rewrite list_lookup_insert_ne by (intros ->; done). }
  unfold marked_count. destruct (reclaimable e).
  - destruct (proj1 (elem_of_Permutation _ _) (proj2 Hr eq_refl)) as [l Hl].
    rewrite Hl in Hnd |- *. apply NoDup_cons in Hnd as [Hnew Hnd]. rewrite !filter_cons, Hsame by done.
    rewrite decide_True by (by rewrite list_lookup_insert_eq). by rewrite decide_False.
  - rewrite Hsame; [done|]. rewrite Hr. done.
Qed.

(** What marking a path establishes. *)
Record path_marked (i : BlockIdentity) (marks marks' : list bool) (protected' : nat) : Prop := mk_path_marked
  { pm_length : length marks' = n;
    pm_count : protected' = marked_count marks';
    pm_mono : forall id, marked marks id -> marked marks' id;
    pm_new : forall id, marked marks' id -> marked marks id \/
      exists e, entries_ c !! id = Some e /\ entry_identity e ∈ chain i;
    pm_all : forall j k x, j ∈ chain i -> FindEntry c (Some j) = Some (k, x) -> marked marks' k }.

Lemma depth_unfold i : depth i = S (from_option depth 0 (bi_parent i)).
Proof. by destruct i as [? ? ? [p|] ? ?]. Qed.

Definition mark_next (i : BlockIdentity) (marks : list bool) (protected : nat) : list bool * nat :=
  match bi_parent i with Some p => mark_path c p marks protected | None => (marks, protected) end.

Lemma mark_path_unfold i marks protected :
  mark_path c i marks protected =
  match FindEntry c (Some i) with
  | None => mark_next i marks protected
  | Some (id, e) =>
    if default false (marks !! id) then (marks, protected)
    else mark_next i (<[id := true]> marks) (if reclaimable e then S protected else protected)
  end.
Proof. by destruct i as [? ? ? [p|] ? ?]. Qed.

Lemma path_marked_step i marks1 marks2 :
  length marks2 = n -> (forall id, marked marks1 id -> marked marks2 id) ->
  (forall id, marked marks2 id -> marked marks1 id \/ exists e, entries_ c !! id = Some e /\ entry_identity e = i) ->
  (forall k x, FindEntry c (Some i) = Some (k, x) -> marked marks2 k) ->
  forall protected, protected = marked_count marks2 ->
  (forall p, bi_parent i = Some p ->
     let '(marks', protected') := mark_path c p marks2 protected in path_marked p marks2 marks' protected') ->
  let '(marks', protected') := mark_next i marks2 protected in path_marked i marks1 marks' protected'.
Proof.
  intros Hlen Hmono Hnew Hself protected Hp Hrec. unfold mark_next.
  destruct (bi_parent i) as [p|] eqn:Hpar.
  - specialize (Hrec p eq_refl). destruct (mark_path c p marks2 protected) as [marks' protected'].
    destruct Hrec as [H1 H2 H3 H4 H5]. constructor; try done.
    + auto.
    + intros id Hid. destruct (H4 id Hid) as [Hm|(e & He & Hin)].
      * destruct (Hnew id Hm) as [?|(e & He & <-)]; [by left|]. right. exists e. split; [done|apply chain_head].
      * right. exists e. split; [done|]. rewrite chain_unfold, Hpar. by right.
    + intros j k x. rewrite chain_unfold, Hpar. intros [->|Hj]%elem_of_cons Hf; [by eapply H3, Hself|by eapply H5].
  - constructor; try done.
    + intros id Hid. destruct (Hnew id Hid) as [?|(e & He & <-)]; [by left|]. right. exists e. split; [done|apply chain_head].
    + intros j k x. rewrite chain_unfold, Hpar. intros ->%list_elem_of_singleton. apply Hself.
Qed.

(** [marks] was closed when the walk began; the marks set since are deeper than [i]. *)
Lemma mark_path_gen i marks marks1 protected :
  held c i -> marks_closed marks -> length marks1 = n -> protected = marked_count marks1 ->
  (forall id, marked marks id -> marked marks1 id) ->
  (forall id e, marked marks1 id -> ~ marked marks id -> entries_ c !! id = Some e -> depth i < depth (entry_identity e)) ->
  let '(marks', protected') := mark_path c i marks1 protected in path_marked i marks1 marks' protected'.
Proof.
  intros Hi Hclosed. revert Hi marks1 protected. induction i as [i IH] using identity_ind.
  intros Hi marks1 protected Hlen Hp Hmono Hdeep. rewrite mark_path_unfold.
  assert (forall p, bi_parent i = Some p -> held c p /\ depth p < depth i) as Hpar.
  { intros p Hpp. rewrite (depth_unfold i), Hpp. simpl. split; [by apply (ix_identities _ _ Hc _ _ Hi)|lia]. }
  destruct (FindEntry c (Some i)) as [[id e]|] eqn:Hf.
  - pose proof Hf as [He Heq]%(FindEntry_spec n); [|done|done].
    destruct (default false (marks1 !! id)) eqn:Hd.
    + (* already marked: before the walk, so its ancestors are marked too *)
      assert (marked marks1 id) as Hm by (unfold marked; by destruct (marks1 !! id) as [[]|]).
      assert (marked marks id) as Hold.
      { destruct (decide (marks !! id = Some true)) as [?|Hn]; [done|].
        specialize (Hdeep id e Hm Hn He). rewrite Heq in Hdeep. lia. }
      constructor; try done; [by left|]. intros j k x Hj Hfj. apply Hmono.
      eapply (Hclosed id e j); try done. by rewrite Heq.
    + assert (~ marked marks1 id) as Hm by (intros Hx; by rewrite Hx in Hd).
      assert (id < length marks1) as Hlt by (rewrite Hlen; by apply (ix_entry _ _ Hc _ _ He)).
      assert (forall k, marked (<[id := true]> marks1) k <-> k = id \/ marked marks1 k) as Hins.
      { intros k. unfold marked. destruct (decide (k = id)) as [->|Hne].
        - rewrite list_lookup_insert_eq by done. tauto.
        - rewrite list_lookup_insert_ne by done. tauto. }
      apply path_marked_step.
      * by rewrite length_insert.
      * intros k Hk. apply Hins. by right.
      * intros k [ ->|Hk]%Hins; [right; by exists e|by left].
      * intros k x Hfk. rewrite Hf in Hfk. injection Hfk as <- _. apply Hins. by left.
      * rewrite (mark_count id marks1 e) by done. by destruct (reclaimable e); subst.
      * intros p Hpp. destruct (Hpar p Hpp) as [Hheld Hlt']. apply (IH p Hpp Hheld).
        -- by rewrite length_insert.
        -- rewrite (mark_count id marks1 e) by done. by destruct (reclaimable e); subst.
        -- intros k Hk. apply Hins. right. auto.
        -- intros k x Hk Hno Hx. apply Hins in Hk as [->|Hk].
           ++ assert (x = e) as -> by congruence. by rewrite Heq.
           ++ specialize (Hdeep k x Hk Hno Hx). lia.
  - apply path_marked_step; try done; [by left|intros k x Hfk; congruence|]. intros p Hpp. destruct (Hpar p Hpp) as [Hheld Hlt'].
    apply (IH p Hpp Hheld); try done. intros k x Hk Hno Hx. specialize (Hdeep k x Hk Hno Hx). lia.
Qed.

(** One leased endpoint. *)
Lemma mark_path_spec i marks protected :
  held c i -> length marks = n -> marks_closed marks -> protected = marked_count marks ->
  let '(marks', protected') := mark_path c i marks protected in
  path_marked i marks marks' protected' /\ marks_closed marks'.
Proof.
  intros Hi Hlen Hclosed Hp. pose proof (mark_path_gen i marks marks protected Hi Hclosed Hlen Hp) as Hgen.
  destruct (mark_path c i marks protected) as [marks' protected']. specialize (Hgen ltac:(done) ltac:(done)).
  split; [done|]. intros id e j k x Hid He Hj Hf. destruct Hgen as [_ _ Hmono Hnew Hall].
  destruct (Hnew id Hid) as [Hold|(e' & He' & Hin)].
  - eapply Hmono, Hclosed; eauto.
  - assert (e' = e) as -> by congruence. eapply Hall; [|done]. by eapply chain_trans.
Qed.

(** Entry [k] is a retained ancestor of one of the leased endpoints [ids]. *)
Definition leased_by (ids : list nat) (k : nat) : Prop :=
  exists id e x, id ∈ ids /\ entries_ c !! id = Some e /\ endpoint_leased c e = true /\
    entries_ c !! k = Some x /\ entry_identity x ∈ chain (entry_identity e).

(** The state after the endpoints [ids]; before the first leased one nothing counts. *)
Record endpoints_marked (ids : list nat) (initialized : bool) (marks : list bool) (protected : nat) : Prop :=
  mk_endpoints_marked
  { em_length : length marks = n;
    em_none : initialized = false -> protected = 0 /\
      Forall (fun id => forall e, entries_ c !! id = Some e -> endpoint_leased c e = false) ids;
    em_some : initialized = true -> protected = marked_count marks /\ marks_closed marks /\
      forall k, marked marks k <-> leased_by ids k }.

Lemma marked_count_none marks : (forall id, ~ marked marks id) -> marked_count marks = 0.
Proof.
  intros Hm. unfold marked_count. rewrite filter_none; [done|]. intros id _. apply Hm.
Qed.

Lemma mark_endpoints_spec seen ids initialized marks protected :
  endpoints_marked seen initialized marks protected ->
  let '(marks', protected') := mark_endpoints c ids initialized marks protected in
  exists initialized', endpoints_marked (seen ++ ids) initialized' marks' protected'.
Proof.
  revert seen initialized marks protected. induction ids as [|id ids IH]; intros seen initialized marks protected Hs; simpl.
  { exists initialized. by rewrite app_nil_r. }
  replace (seen ++ id :: ids) with ((seen ++ [id]) ++ ids) by (by rewrite <- (assoc_L (++))).
  assert (forall x, x ∈ seen ++ [id] <-> x ∈ seen \/ x = id) as Hin.
  { intros x. rewrite elem_of_app, list_elem_of_singleton. done. }
  assert ((forall e, entries_ c !! id = Some e -> endpoint_leased c e = false) ->
    endpoints_marked (seen ++ [id]) initialized marks protected) as Hskip.
  { intros Hno. destruct Hs as [Hl Hn Hsm]. constructor; [done| |].
    - intros Hi. destruct (Hn Hi) as [-> Hf]. split; [done|]. apply Forall_app. split; [done|by repeat constructor].
    - intros Hi. destruct (Hsm Hi) as (Hp & Hcl & Hall). split_and!; [done|done|]. intros k. rewrite Hall.
      split; intros (id' & e & x & Hk & He & Hle & Hx).
      + exists id', e, x. split; [apply Hin; by left|done].
      + apply Hin in Hk as [Hk| ->]; [by exists id', e, x|]. rewrite (Hno e He) in Hle. done. }
  destruct (entries_ c !! id) as [e|] eqn:He; [|by apply IH, Hskip].
  destruct (endpoint_leased c e) eqn:Hle; simpl; [|apply IH, Hskip; intros x [= <-]; done].
  set (marks1 := if initialized then marks else replicate (length marks) false).
  assert (length marks1 = n /\ protected = marked_count marks1 /\ marks_closed marks1 /\
    forall k, marked marks1 k <-> leased_by seen k) as (Hl1 & Hp1 & Hc1 & Hall).
  { destruct Hs as [Hl Hn Hsm]. unfold marks1. destruct initialized.
    - by destruct (Hsm eq_refl) as (? & ? & ?).
    - assert (forall k, ~ marked (replicate (length marks) false) k) as Hno.
      { intros k Hk. unfold marked in Hk. by apply lookup_replicate in Hk as [? _]. }
      destruct (Hn eq_refl) as [Hp0 Hf]. rewrite Forall_forall in Hf.
      rewrite length_replicate, (marked_count_none _ Hno). split_and!; [done|done| |].
      + intros k x j k' y Hk. by destruct (Hno k).
      + intros k. split; [by intros ?%Hno|]. intros (id' & x & y & Hk & Hx & Hlx & _).
        rewrite (Hf id' Hk x Hx) in Hlx. done. }
  assert (held c (entry_identity e)) as Hheld by (by apply (ix_entry _ _ Hc _ _ He)).
  pose proof (mark_path_spec (entry_identity e) marks1 protected Hheld Hl1 Hc1 Hp1) as Hmp.
  destruct (mark_path c (entry_identity e) marks1 protected) as [marks' protected'].
  destruct Hmp as [[H1 H2 H3 H4 H5] Hcl']. apply IH. constructor; [done|done|]. intros _. split_and!; [done|done|].
  intros k. split.
  - intros Hk. destruct (H4 k Hk) as [Hold|(x & Hx & Hxin)].
    + apply Hall in Hold as (id' & e' & x & Hid' & Hrest). exists id', e', x. split; [apply Hin; by left|done].
    + exists id, e, x. split; [apply Hin; by right|done].
  - intros (id' & e' & x & [Hid'| ->]%Hin & He' & Hle' & Hx & Hxin).
    + apply H3, Hall. by exists id', e', x.
    + assert (e' = e) as -> by congruence. eapply (H5 (entry_identity x)); [done|].
      apply (FindEntry_spec n); [done| |done]. by apply (ix_entry _ _ Hc _ _ Hx).
Qed.

(** Marking the leased ancestry: the count is exact and the marks are exactly the
    retained ancestors of leased checkpoints, as far as they are reclaimable. *)
Lemma MarkLeased_spec :
  let '(marks, protected) := MarkLeasedReclaimableBlocks c in
  length marks = n /\
  protected = length (filter (fun id => is_leased marks protected id = true) (reclaimable_entries_ c)) /\
  forall id, id ∈ reclaimable_entries_ c ->
    is_leased marks protected id = true <-> leased_by (checkpoint_entries_ c) id.
Proof.
  unfold MarkLeasedReclaimableBlocks. case_bool_decide as Hnil.
  { rewrite Hnil. split_and!; [apply Hc|done|]. by intros id ?%not_elem_of_nil. }
  assert (endpoints_marked [] false (leased_ancestry_ c) 0) as H0.
  { constructor; [apply Hc|intros _; by split|done]. }
  pose proof (mark_endpoints_spec [] (checkpoint_entries_ c) _ _ _ H0) as Hm. simpl in Hm.
  destruct (mark_endpoints c (checkpoint_entries_ c) false (leased_ancestry_ c) 0) as [marks protected].
  destruct Hm as ([|] & [Hlen Hnone Hsome]); (split; [done|]).
  - destruct (Hsome eq_refl) as (Hp & _ & Hall). clear Hnone Hsome.
    assert (forall id, is_leased marks protected id = true <-> protected <> 0 /\ marked marks id) as Hl.
    { intros id. unfold is_leased. rewrite andb_true_iff, negb_true_iff, Nat.eqb_neq. unfold marked.
      destruct (marks !! id) as [[]|]; simpl; naive_solver. }
    split.
    + destruct (decide (protected = 0)) as [->|Hne].
      * rewrite filter_none; [done|]. intros id _. rewrite Hl. naive_solver.
      * rewrite Hp at 1. unfold marked_count. f_equal. apply filter_ext_in. intros id _. rewrite Hl. naive_solver.
    + intros id Hid. rewrite Hl, <- Hall. split; [tauto|]. intros Hm. split; [|done]. rewrite Hp. unfold marked_count.
      intros Hz. apply nil_length_inv in Hz.
      assert (id ∈ filter (fun id => marks !! id = Some true) (reclaimable_entries_ c)) as Hx by (by apply list_elem_of_filter).
      rewrite Hz in Hx. by apply not_elem_of_nil in Hx.
  - destruct (Hnone eq_refl) as [-> Hf]. rewrite Forall_forall in Hf. split.
    + by rewrite filter_none.
    + intros id Hid. split; [done|]. intros (id' & e & x & Hid' & He & Hle & _). rewrite (Hf id' Hid' e He) in Hle. done.
Qed.
End leases.

(** ** Reclamation *)

Lemma cache_ok_metrics w m : cache_ok w -> cache_ok (set_observer (set_metrics m (observer w)) w).
Proof.
  intros [Hp Ho Hi Hl Hc Hd]. constructor; simpl; try done.
  - destruct Hp. by constructor.
  - destruct Hi. by constructor.
  - intros id e He. destruct (Hl _ _ He) as (b & []). exists b. by constructor.
Qed.

Lemma cache_ok_leased w marks :
  length marks = pool_capacity_ (pool w) -> cache_ok w -> cache_ok (set_observer (set_leased marks (observer w)) w).
Proof.
  intros Hm [Hp Ho Hi Hl Hc Hd]. constructor; simpl; try done.
  - destruct Hp. by constructor.
  - destruct Hi. by constructor.
  - intros id e He. destruct (Hl _ _ He) as (b & []). exists b. by constructor.
Qed.

Lemma available_release bl id a :
  bl !! id = Some (Some a) -> available (<[id := None]> bl) = S (available bl).
Proof.
  intros Hid. pose proof (available_insert (<[id := None]> bl) id a) as Ha.
  rewrite list_insert_insert_eq, (list_insert_id bl id (Some a)) in Ha by done. symmetry. apply Ha.
  apply list_lookup_insert_eq. by eapply lookup_lt_Some.
Qed.

(** The effect of evicting the reclaimable entries [v]. *)
Record reclaimed (v : list nat) w w' : Prop := mk_reclaimed
  { rc_ok : cache_ok w';
    rc_victims : forall id, id ∈ v -> exists e, entries_ (observer w) !! id = Some e /\ reclaimable e = true;
    rc_entries : forall id, entries_ (observer w') !! id =
      if decide (id ∈ v) then None else entries_ (observer w) !! id;
    rc_reclaimable : reclaimable_entries_ (observer w') = filter (fun id => id ∉ v) (reclaimable_entries_ (observer w));
    rc_recency : recency_ (observer w') = filter (fun id => id ∉ v) (recency_ (observer w));
    rc_cache : options_ (observer w') = options_ (observer w) /\
      identities (observer w') = identities (observer w) /\ logicals (observer w') = logicals (observer w) /\
      checkpoints (observer w') = checkpoints (observer w) /\ drafts (observer w') = drafts (observer w);
    rc_available : AvailableBlocks (pool w') = AvailableBlocks (pool w) + length v;
    rc_pool : block_size_ (pool w') = block_size_ (pool w) /\ pool_capacity_ (pool w') = pool_capacity_ (pool w) /\
      next_addr w' = next_addr w;
    rc_slots : forall id, blocks_ (pool w') !! id = if decide (id ∈ v) then Some None else blocks_ (pool w) !! id;
    rc_handles : forall a, is_Some (heap w !! a) -> is_Some (heap w' !! a);
    rc_heap : forall a b, heap w !! a = Some b ->
      (forall id e, id ∈ v -> entries_ (observer w) !! id = Some e -> entry_block e <> a) -> heap w' !! a = Some b }.

Lemma reclaimed_nil w : cache_ok w -> reclaimed [] w w.
Proof.
  intros Hw. constructor; try done.
  - by intros id ?%not_elem_of_nil.
  - rewrite filter_all; [done|]. intros id _ ?%not_elem_of_nil. done.
  - rewrite filter_all; [done|]. intros id _ ?%not_elem_of_nil. done.
Qed.

Lemma reclaimed_metrics v w w' m :
  reclaimed v w w' -> reclaimed v w (set_observer (set_metrics m (observer w')) w').
Proof. intros [Hok ? ? ? ? ? ? ? ? ? ?]. constructor; try done. by apply cache_ok_metrics. Qed.

Lemma evicted_reclaimed w id e w1 :
  cache_ok w -> entries_ (observer w) !! id = Some e -> reclaimable e = true -> evicted id e w w1 ->
  reclaimed [id] w w1.
Proof.
  intros Hw He Hr Hev. destruct (ck_linked _ Hw _ _ He) as (b & Hl).
  destruct Hev as [Hok Hc Hb (Hp1 & Hp2 & Hp3) Hh Hhd]. rewrite Hr in Hb.
  assert (forall k, k ∈ [id] <-> k = id) as Hin by (intros k; by rewrite list_elem_of_singleton).
  constructor; rewrite ?Hc; simpl; rewrite ?Hr; try done.
  - intros k ->%Hin. by exists e.
  - intros k. destruct (decide (k ∈ [id])) as [->%Hin|Hn]; [by rewrite lookup_delete_eq|].
    rewrite lookup_delete_ne; [done|]. intros ->. apply Hn, Hin. done.
  - apply filter_ext_in. intros k _. by rewrite Hin.
  - apply filter_ext_in. intros k _. by rewrite Hin.
  - unfold AvailableBlocks. rewrite Hb. change (available (<[id := None]> (blocks_ (pool w))) = available (blocks_ (pool w)) + 1).
    rewrite (available_release _ _ _ (lk_slot _ _ _ _ Hl)). lia.
  - intros k. rewrite Hb. destruct (decide (k ∈ [id])) as [->%Hin|Hn].
    + apply list_lookup_insert_eq. eapply lookup_lt_Some, (lk_slot _ _ _ _ Hl).
    + apply list_lookup_insert_ne. intros ->. apply Hn, Hin. done.
  - intros a [x Hx]. destruct (decide (a = entry_block e)) as [->|Hne]; [done|]. rewrite Hh by done. by eexists.
  - intros a x Hx Hn. rewrite Hh; [done|]. intros ->. by apply (Hn id e); [apply Hin|..].
Qed.

Lemma reclaimed_trans v1 v2 w1 w2 w3 :
  (forall id, id ∈ v1 -> id ∈ v2 -> False) -> reclaimed v1 w1 w2 -> reclaimed v2 w2 w3 -> reclaimed (v1 ++ v2) w1 w3.
Proof.
  intros Hdis [A1 AV A2 A3 A4 (A5 & A6 & A7 & A8 & A9) A11 (A12 & A13 & A14) A15 A16 A17]
    [B1 BV B2 B3 B4 (B5 & B6 & B7 & B8 & B9) B11 (B12 & B13 & B14) B15 B16 B17].
  assert (forall k, k ∈ v1 ++ v2 <-> k ∈ v1 \/ k ∈ v2) as Hin by (intros k; apply elem_of_app).
  constructor; try done; try (split_and!; congruence).
  - intros k [Hk|Hk]%Hin; [by apply AV|]. destruct (BV k Hk) as (e & He & Hr). rewrite A2 in He. case_decide; [done|]. by exists e.
  - intros k. rewrite B2, A2. destruct (decide (k ∈ v1 ++ v2)) as [Hk|Hk]; rewrite Hin in Hk; repeat case_decide; tauto.
  - rewrite B3, A3, list_filter_filter. apply filter_ext_in. intros k _. rewrite Hin. tauto.
  - rewrite B4, A4, list_filter_filter. apply filter_ext_in. intros k _. rewrite Hin. tauto.
  - rewrite B11, A11, length_app. lia.
  - intros k. rewrite B15, A15. destruct (decide (k ∈ v1 ++ v2)) as [Hk|Hk]; rewrite Hin in Hk; repeat case_decide; tauto.
  - auto.
  - intros a b Ha Hb. apply B17.
    + apply A17; [done|]. intros id e Hid. apply Hb, Hin. by left.
    + intros id e Hid He. rewrite A2 in He. case_decide; [done|]. apply (Hb id); [apply Hin; by right|done].
Qed.

(** The entries a reclamation of [needed] blocks takes from [candidates]. *)
Definition victims (marks : list bool) (protected needed : nat) (candidates : list nat) : list nat :=
  take needed (filter (fun id => is_leased marks protected id = false) candidates).

Lemma reclaim_loop_spec marks protected needed candidates w r :
  cache_ok w -> leased_ancestry_ (observer w) = marks -> NoDup candidates ->
  (forall id, id ∈ candidates -> id ∈ reclaimable_entries_ (observer w)) ->
  let v := victims marks protected (needed - r) candidates in
  exists w', reclaim_loop needed protected candidates r w = (Ok (r + length v), w') /\ reclaimed v w w'.
Proof.
  revert w r. induction candidates as [|id l IH]; intros w r Hw Hm Hnd Hin v; simpl.
  { exists w. unfold v, victims. rewrite filter_nil, take_nil. split; [simpl; by rewrite Nat.add_0_r|by apply reclaimed_nil]. }
  apply NoDup_cons in Hnd as [Hnew Hnd]. destruct (Nat.ltb_spec r needed) as [Hlt|Hge]; simpl.
  2: { exists w. unfold v, victims. replace (needed - r) with 0 by lia. simpl. rewrite Nat.add_0_r.
       split; [done|by apply reclaimed_nil]. }
  destruct (proj1 (proj2 (ix_reclaimable _ _ (ck_index _ Hw)) id) (Hin id ltac:(left))) as (e & He & Hr).
  destruct (ck_linked _ Hw _ _ He) as (b & Hl). pose proof (lk_reclaimable _ _ _ _ Hl) as Hrec.
  rewrite (bind_ok (entry_of id) _ w e w).
  2: { unfold entry_of. rewrite (bind_ok (gets observer) _ w (observer w) w) by done. by rewrite He. }
  rewrite (bind_ok _ _ _ _ _ (pool_op_ok _ _ _ _ (deref_ok _ _ w (lk_heap _ _ _ _ Hl)))).
  rewrite <- Hrec, Hr. cbn [negb orb]. rewrite (bind_ok (throw_if false _) _ w tt w) by done.
  rewrite (bind_ok (gets observer) _ w (observer w) w) by done. rewrite Hm, (lk_id _ _ _ _ Hl), He.
  destruct (is_leased marks protected id) eqn:Hls.
  { destruct (IH w r Hw Hm Hnd ltac:(intros k Hk; apply Hin; by right)) as (w' & Hrun & Hrc).
    exists w'. unfold v, victims. rewrite filter_cons_False by (rewrite Hls; done). done. }
  rewrite bool_decide_false by done. rewrite (bind_ok (throw_if false _) _ w tt w) by done.
  destruct (Evict_ok w id e Hw He) as (w1 & Hrun1 & Hev). rewrite (bind_ok _ _ _ _ _ Hrun1).
  pose proof (evicted_reclaimed w id e w1 Hw He Hr Hev) as Hrc1.
  set (w2 := set_observer (set_metrics (bump Evictions 1 (metrics_ (observer w1))) (observer w1)) w1).
  rewrite (bind_ok (count Evictions 1) _ w1 tt w2) by done.
  apply (reclaimed_metrics _ _ _ (bump Evictions 1 (metrics_ (observer w1)))) in Hrc1. fold w2 in Hrc1.
  destruct (IH w2 (S r)) as (w' & Hrun & Hrc); [apply Hrc1| |done| |].
  - simpl. by rewrite (ev_cache _ _ _ _ Hev).
  - intros k Hk. rewrite (rc_reclaimable _ _ _ Hrc1). apply list_elem_of_filter. split; [|apply Hin; by right].
    rewrite list_elem_of_singleton. by intros ->.
  - exists w'. assert (v = id :: victims marks protected (needed - S r) l) as Hv.
    { unfold v, victims. rewrite filter_cons_True by done. by replace (needed - r) with (S (needed - S r)) by lia. }
    rewrite Hv. split; [rewrite Hrun; simpl; do 2 f_equal; lia|].
    apply (reclaimed_trans [id] _ w w2 w'); [|done|done]. intros k ->%list_elem_of_singleton Hk.
    unfold victims in Hk. apply elem_of_take in Hk as (j & Hk & _). apply list_elem_of_lookup_2, list_elem_of_filter in Hk.
    tauto.
Qed.

Lemma Reclaim_spec w needed :
  cache_ok w ->
  exists w', Reclaim needed w =
    (Ok (length (victims (MarkLeasedReclaimableBlocks (observer w)).1 (MarkLeasedReclaimableBlocks (observer w)).2
                   needed (reclaimable_entries_ (observer w)))), w') /\
    reclaimed (victims (MarkLeasedReclaimableBlocks (observer w)).1 (MarkLeasedReclaimableBlocks (observer w)).2
                 needed (reclaimable_entries_ (observer w))) w w'.
Proof.
  intros Hw. unfold Reclaim. destruct (Nat.eqb_spec needed 0) as [->|Hne].
  { exists w. split; [done|by apply reclaimed_nil]. }
  pose proof (MarkLeased_spec _ _ (ck_index _ Hw)) as Hmk. unfold mark_leased.
  destruct (MarkLeasedReclaimableBlocks (observer w)) as [marks protected] eqn:Hm. destruct Hmk as (Hlen & _).
  set (w1 := set_observer (set_leased marks (observer w)) w).
  assert (cache_ok w1) as Hw1 by (by apply cache_ok_leased).
  rewrite (bind_ok _ _ w protected w1).
  2: { rewrite (bind_ok (gets observer) _ w (observer w) w) by done. by rewrite Hm. }
  rewrite (bind_ok (gets observer) _ w1 (observer w1) w1) by done.
  destruct (reclaim_loop_spec marks protected needed (reclaimable_entries_ (observer w)) w1 0 Hw1 eq_refl)
    as (w' & Hrun & Hrc); [apply (ix_reclaimable _ _ (ck_index _ Hw))|done|].
  rewrite Nat.sub_0_r in *. exists w'. split; [exact Hrun|]. destruct Hrc. by constructor.
Qed.

Lemma filter_complement {A} (f : A -> bool) (l : list A) :
  length (filter (fun x => f x = false) l) = length l - length (filter (fun x => f x = true) l).
Proof.
  assert (length (filter (fun x => f x = false) l) + length (filter (fun x => f x = true) l) = length l) as H; [|lia].
  induction l as [|x l IH]; [done|]. rewrite !filter_cons. destruct (f x); simpl; lia.
Qed.

(** As many entries can be reclaimed as [ReclaimableBlocks] says. *)
Lemma victims_length w needed :
  cache_ok w ->
  length (victims (MarkLeasedReclaimableBlocks (observer w)).1 (MarkLeasedReclaimableBlocks (observer w)).2
            needed (reclaimable_entries_ (observer w))) = min needed (ReclaimableBlocks (observer w)).
Proof.
  intros Hw. pose proof (MarkLeased_spec _ _ (ck_index _ Hw)) as Hmk. unfold ReclaimableBlocks, victims.
  destruct (MarkLeasedReclaimableBlocks (observer w)) as [marks protected]. destruct Hmk as (_ & Hp & _).
  simpl. rewrite length_take, filter_complement, <- Hp. done.
Qed.

(** C25: Retention never starves a request.  Reclaiming [needed] blocks always
    succeeds and returns as many as [ReclaimableBlocks] promised, up to [needed], and
    exactly that many blocks become free in the pool.  It evicts a prefix of the
    reclaimable order that skips exactly the retained ancestry of leased checkpoints;
    every other entry, every block a request holds, and the invariant of cache and
    pool survive. *)
Theorem reclaim_correct w needed :
  cache_ok w ->
  exists v w', Reclaim needed w = (Ok (length v), w') /\ cache_ok w' /\
    length v = min needed (ReclaimableBlocks (observer w)) /\
    AvailableBlocks (pool w') = AvailableBlocks (pool w) + length v /\
    (exists l, v = take needed l /\ sublist l (reclaimable_entries_ (observer w)) /\
       forall id, id ∈ reclaimable_entries_ (observer w) ->
         id ∈ l <-> ~ leased_by (observer w) (checkpoint_entries_ (observer w)) id) /\
    (forall id, entries_ (observer w') !! id = if decide (id ∈ v) then None else entries_ (observer w) !! id) /\
    (forall a b, heap w !! a = Some b -> 1 < ref_count_ b -> heap w' !! a = Some b).
Proof.
  intros Hw. destruct (Reclaim_spec w needed Hw) as (w' & Hrun & Hrc). pose proof (victims_length w needed Hw) as Hlen.
  pose proof (MarkLeased_spec _ _ (ck_index _ Hw)) as Hmk. unfold victims in *.
  destruct (MarkLeasedReclaimableBlocks (observer w)) as [marks protected]. destruct Hmk as (_ & _ & Hls). simpl in *.
  set (l := filter (fun id => is_leased marks protected id = false) (reclaimable_entries_ (observer w))) in *.
  exists (take needed l), w'. split_and!; try done; try apply Hrc.
  - exists l. split_and!; [done|apply sublist_filter|]. intros id Hid. rewrite <- Hls by done.
    unfold l. rewrite list_elem_of_filter. destruct (is_leased marks protected id); naive_solver.
  - intros a b Ha Hr. apply (rc_heap _ _ _ Hrc a b Ha). intros id e Hin He Hb.
    apply elem_of_take in Hin as (j & Hj & _). apply list_elem_of_lookup_2, list_elem_of_filter in Hj as [_ Hj].
    apply (ix_reclaimable _ _ (ck_index _ Hw)) in Hj as (e' & He' & Hrec). assert (e' = e) as -> by congruence.
    destruct (ck_linked _ Hw _ _ He) as (b' & Hl). rewrite (lk_reclaimable _ _ _ _ Hl) in Hrec. apply Nat.eqb_eq in Hrec.
    pose proof (lk_heap _ _ _ _ Hl). rewrite Hb in *. assert (b' = b) as -> by congruence. lia.
Qed.

(** ** Changes of the cache alone *)

(** What the pool depends on. *)
Definition link (e : Entry) : addr * BlockIdentity * bool := (entry_block e, entry_identity e, reclaimable e).

Lemma link_lookup (E E' : gmap nat Entry) id e :
  (forall k, link <$> E' !! k = link <$> E !! k) -> E !! id = Some e ->
  exists e', E' !! id = Some e' /\ entry_block e' = entry_block e /\
    entry_identity e' = entry_identity e /\ reclaimable e' = reclaimable e.
Proof.
  intros Hk He. specialize (Hk id). rewrite He in Hk. apply fmap_Some in Hk as (e' & He' & Hl).
  exists e'. unfold link in Hl. by simplify_eq.
Qed.

Lemma cache_ok_cache w c' :
  cache_ok w -> index_ok (pool_capacity_ (pool w)) c' ->
  (forall id, link <$> entries_ c' !! id = link <$> entries_ (observer w) !! id) ->
  cache_ok (set_observer c' w).
Proof.
  intros [Hp Ho Hi Hl Hc Hd] Hi' Hlink. constructor; simpl; try done.
  - destruct Hp. by constructor.
  - intros id e' He'. destruct (link_lookup _ _ _ _ (fun k => eq_sym (Hlink k)) He') as (e & He & Hb & Hid & Hr).
    destruct (Hl _ _ He) as (b & []). exists b. constructor; simpl; congruence.
  - intros a b k Ha Hk. destruct (Hc _ _ _ Ha Hk) as (e & He & Hb).
    destruct (link_lookup _ _ _ _ Hlink He) as (e' & He' & Hb' & _). exists e'. split; [done|congruence].
  - intros a b i Ha Hk. destruct (Hd _ _ _ Ha Hk) as (e & He & Hb).
    destruct (link_lookup _ _ _ _ Hlink He) as (e' & He' & Hb' & _). exists e'. split; [done|congruence].
Qed.

Lemma Reorder_reordered n c id e parent :
  index_ok n c -> entries_ c !! id = Some e ->
  reordered c (Reorder id e parent c) /\ index_ok n (Reorder id e parent c) /\
  entries_ (Reorder id e parent c) = entries_ c.
Proof.
  intros Hc He. pose proof (ix_recency _ _ Hc) as [Hr1 Hr2]. pose proof (ix_reclaimable _ _ Hc) as [Hc1 Hc2].
  assert (exists p1 p2, Reorder id e parent c =
    set_lists (splice p1 id (recency_ c)) (referenced_entries_ c)
      (if reclaimable e then splice p2 id (reclaimable_entries_ c) else reclaimable_entries_ c) c) as (p1 & p2 & Heq).
  { unfold Reorder. destruct parent; [|by eexists _, _]. destruct (FindEntry c _) as [[]|]; by eexists _, _. }
  assert (splice p1 id (recency_ c) ≡ₚ recency_ c) as Hp1.
  { apply splice_perm; [done|]. apply Hr2. by eexists. }
  assert ((if reclaimable e then splice p2 id (reclaimable_entries_ c) else reclaimable_entries_ c) ≡ₚ
    reclaimable_entries_ c) as Hp2.
  { destruct (reclaimable e) eqn:Hr; [|done]. apply splice_perm; [done|]. apply Hc2. by exists e. }
  rewrite Heq. assert (reordered c (set_lists (splice p1 id (recency_ c)) (referenced_entries_ c)
      (if reclaimable e then splice p2 id (reclaimable_entries_ c) else reclaimable_entries_ c) c)) as Hro by done.
  split_and!; [done| |done]. eapply reordered_index; [done|done|apply Hc|..]; simpl; rewrite ?Hp2; try apply Hc; try done.
  intros k. rewrite Hp2. apply Hc2.
Qed.

Lemma PromoteCheckpoint_index n c id : index_ok n c -> index_ok n (PromoteCheckpoint id c).
Proof.
  intros Hc. unfold PromoteCheckpoint. case_bool_decide as Hin; [|done].
  assert (remove_first id (checkpoint_entries_ c) ++ [id] ≡ₚ checkpoint_entries_ c) as Hp.
  { rewrite Permutation_app_comm. simpl. symmetry. by apply remove_first_perm. }
  pose proof (ix_reclaimable _ _ Hc). pose proof (ix_referenced _ _ Hc).
  eapply (reordered_index n c); [done| |apply Hc|naive_solver..]. by constructor.
Qed.

(** ** Indexing a block *)

(** The cache with a new entry for block [id]. *)
Definition index_cache (id : nat) (e : Entry) (pos : position) (c : PrefixCache) : PrefixCache :=
  set_by_id (<[id := Some id]> (entries_by_block_id_ c)) (publish_entry id e pos c).

Lemma index_cache_ok n c id a i pid pos :
  index_ok n c -> entries_ c !! id = None -> id < n -> held c i -> bi_block_id i = id ->
  size (entries_ c) < max_blocks (options_ c) ->
  index_ok n (index_cache id (mkEntry a i None None pid false true) pos c).
Proof.
  intros Hc Hnone Hid Hheld Hbid Hsize.
  destruct Hc as [Hlen Hby Hmk Hent [Hr1 Hr2] [Hc1 Hc2] [Hf1 Hf2] [Hh1 Hh2] [Hk1 Hk2] Hls His Hlg Hhs [Hb1 Hb2]].
  set (e := mkEntry a i None None pid false true).
  assert (forall (P : Entry -> Prop) k, (exists x, <[id := e]> (entries_ c) !! k = Some x /\ P x) <->
    (k = id /\ P e) \/ exists x, entries_ c !! k = Some x /\ P x) as Hins.
  { intros P k. destruct (decide (k = id)) as [->|Hne].
    - rewrite lookup_insert_eq. split; [naive_solver|]. intros [[_ ?]|(x & Hx & _)]; [by exists e|congruence].
    - rewrite lookup_insert_ne by done. naive_solver. }
  constructor; simpl; try done.
  - by rewrite length_insert.
  - intros b x Hx. destruct (decide (b = id)) as [->|Hne].
    + rewrite lookup_insert_eq. rewrite list_lookup_insert_eq in Hx by lia. by injection Hx as <-.
    + rewrite lookup_insert_ne by done. rewrite list_lookup_insert_ne in Hx by done. by apply Hby.
  - intros k x. destruct (decide (k = id)) as [->|Hne].
    + rewrite lookup_insert_eq. by intros [= <-].
    + rewrite lookup_insert_ne by done. apply Hent.
  - split.
    + apply NoDup_insert_at; [|done]. rewrite Hr2, Hnone. by intros [].
    + intros k. rewrite elem_of_insert_at, Hr2. destruct (decide (k = id)) as [->|Hne].
      * rewrite lookup_insert_eq. split; [done|by left].
      * rewrite lookup_insert_ne by done. tauto.
  - split; [done|]. intros k. rewrite (Hins (fun x => reclaimable x = true)), Hc2. simpl. naive_solver.
  - split.
    + apply NoDup_app. split_and!; [done| |by apply NoDup_singleton].
      intros x Hx ->%list_elem_of_singleton. apply Hf2 in Hx as (y & Hy & _). congruence.
    + intros k. rewrite (Hins (fun x => reclaimable x = false)), elem_of_app, list_elem_of_singleton, Hf2. simpl. naive_solver.
  - split.
    + rewrite fmap_app. apply NoDup_app. split_and!; [done| |by apply NoDup_singleton].
      intros x Hx ->%list_elem_of_singleton. apply list_elem_of_fmap in Hx as ([h k] & Hk & Hx). simpl in Hk. subst k.
      apply Hh2 in Hx as (y & Hy & _). congruence.
    + intros h k. rewrite (Hins (fun x => bi_hash (entry_identity x) = h)), elem_of_app, list_elem_of_singleton, Hh2.
      simpl. naive_solver.
  - split; [done|]. intros k. rewrite (Hins (fun x => is_Some (checkpoint x))), Hk2. simpl.
    split; [naive_solver|]. intros [[_ []]|?]; done.
  - intros k x y. destruct (decide (k = id)) as [->|Hne].
    + rewrite lookup_insert_eq. by intros [= <-].
    + rewrite lookup_insert_ne by done. apply Hls.
  - split; [|done]. rewrite map_size_insert_None by done. lia.
Qed.

(** Indexing gives the block its identity, cookie and a reference. *)
Definition indexed_block (id : nat) (i : BlockIdentity) (b : Block) : Block :=
  set_cookie (Some id) (set_identity (Some i) (Block_AddRef b)).
Definition indexed_world (id : nat) (e : Entry) (pos : position) (b : Block) w : world PrefixCache :=
  mkWorld (<[entry_block e := indexed_block id (entry_identity e) b]> (heap w)) (next_addr w) (pool w)
    (index_cache id e pos (observer w)).

Lemma indexed_world_ok w b a i pid pos :
  cache_ok w -> heap w !! a = Some b -> blocks_ (pool w) !! id_ b = Some (Some a) -> identity_ b = None ->
  IsFull b = true -> length (Tokens i) = capacity_ b -> held (observer w) i -> bi_block_id i = id_ b ->
  size (entries_ (observer w)) < max_blocks (options_ (observer w)) ->
  cache_ok (indexed_world (id_ b) (mkEntry a i None None pid false true) pos b w).
Proof.
  intros Hw Ha Hs Hno Hfull Htok Hheld Hbid Hsize. pose proof (ck_pool _ Hw) as Hp.
  assert (entries_ (observer w) !! id_ b = None) as Hnone.
  { destruct (entries_ (observer w) !! id_ b) as [x|] eqn:Hx; [|done]. destruct (ck_linked _ Hw _ _ Hx) as (bx & Hl).
    pose proof (lk_slot _ _ _ _ Hl). pose proof (lk_heap _ _ _ _ Hl). pose proof (lk_identity _ _ _ _ Hl). congruence. }
  destruct (pw_slot _ Hp _ _ Hs) as (b0 & Hb0 & Hbw). assert (b0 = b) as -> by congruence.
  constructor; simpl.
  - pose proof (update_wf a b (indexed_block (id_ b) i b) w Hp Ha) as Hu.
    destruct Hu as [? ? ? ? ? ? Hu1 Hu2]; [|by constructor]. intros k []. constructor; simpl; try done; [lia|].
    intros i' [= <-]. split; [|done]. by apply Nat.eqb_eq.
  - apply Hw.
  - apply index_cache_ok; try done; [apply Hw|by apply (owned_in_range w a b)].
  - intros k x. destruct (decide (k = id_ b)) as [->|Hne].
    + rewrite lookup_insert_eq. intros [= <-]. exists (indexed_block (id_ b) i b). constructor; simpl; try done.
      * apply lookup_insert_eq.
      * symmetry. apply Nat.eqb_neq. pose proof (bw_refs _ _ _ Hbw). lia.
    + rewrite lookup_insert_ne by done. intros Hx. destruct (ck_linked _ Hw _ _ Hx) as (bx & Hl). exists bx.
      destruct Hl. constructor; simpl; try done. rewrite lookup_insert_ne; [done|]. intros ->. congruence.
  - intros a' b' k Ha' Hk. destruct (decide (a' = a)) as [->|Hne].
    + rewrite lookup_insert_eq in Ha'. injection Ha' as <-. injection Hk as <-. rewrite lookup_insert_eq. by eexists.
    + rewrite lookup_insert_ne in Ha' by done. destruct (ck_cookie _ Hw _ _ _ Ha' Hk) as (x & Hx & Hxb).
      exists x. split; [|done]. rewrite lookup_insert_ne; [done|]. congruence.
  - intros a' b' k Ha' Hk. destruct (decide (a' = a)) as [->|Hne].
    + rewrite lookup_insert_eq in Ha'. injection Ha' as <-. simpl. rewrite lookup_insert_eq. by eexists.
    + rewrite lookup_insert_ne in Ha' by done. destruct (ck_identity _ Hw _ _ _ Ha' Hk) as (x & Hx & Hxb).
      exists x. split; [|done]. rewrite lookup_insert_ne; [done|]. congruence.
Qed.

Lemma on_throw_ok {A} (m : CM A) h w a w' : m w = (Ok a, w') -> on_throw m h w = (Ok a, w').
Proof. intros Hm. unfold on_throw. by rewrite Hm. Qed.

Lemma AddRef_unobserved w a b :
  pool_wf w -> heap w !! a = Some b -> blocks_ (pool w) !! id_ b = Some (Some a) ->
  reference_observer_cookie_ b = None ->
  AddRef (Some a) w = (Ok tt, set_heap (<[a := Block_AddRef b]> (heap w)) w).
Proof.
  intros Hp Ha Hs Hk. unfold AddRef. rewrite (bind_ok _ _ _ _ _ (Owns_owned w a b Hp Ha Hs)). cbn [negb].
  rewrite (bind_ok _ _ _ _ _ (deref_ok a b w Ha)). unfold add_ref_at.
  rewrite (bind_ok (update a _) _ w tt (set_heap (<[a := Block_AddRef b]> (heap w)) w)) by done.
  set (w1 := set_heap _ w). rewrite (bind_ok (gets pool) _ w1 (pool w) w1) by done. rewrite Hk.
  rewrite (bool_decide_false (is_Some (None : option addr))) by (by intros []). by rewrite andb_false_r.
Qed.

Lemma set_block_identity_run w a b i :
  heap w !! a = Some b -> IsFull b = true -> length (Tokens i) = capacity_ b ->
  set_block_identity a i w = (Ok tt, set_heap (<[a := set_identity (Some i) b]> (heap w)) w).
Proof.
  intros Ha Hf Ht. unfold set_block_identity. rewrite (bind_ok _ _ _ _ _ (pool_op_ok _ _ _ _ (deref_ok a b w Ha))).
  rewrite (bind_ok (lift _) _ w (set_identity (Some i) b) w); [done|].
  unfold lift, SetIdentity. rewrite Hf, Ht, Nat.eqb_refl. done.
Qed.

Lemma set_block_entry_run w id x :
  id < length (entries_by_block_id_ (observer w)) ->
  set_block_entry id x w =
    (Ok tt, set_observer (set_by_id (<[id := x]> (entries_by_block_id_ (observer w))) (observer w)) w).
Proof.
  intros Hid. unfold set_block_entry. rewrite (bind_ok (gets observer) _ w (observer w) w) by done.
  by rewrite (proj2 (Nat.ltb_lt _ _) Hid).
Qed.

Lemma set_cookie_run w a b k :
  pool_wf w -> heap w !! a = Some b -> blocks_ (pool w) !! id_ b = Some (Some a) ->
  SetReferenceObserverCookie (Some a) (Some k) w = (Ok tt, set_heap (<[a := set_cookie (Some k) b]> (heap w)) w).
Proof.
  intros Hp Ha Hs. unfold SetReferenceObserverCookie.
  rewrite (bind_ok _ _ _ _ _ (Owns_owned w a b Hp Ha Hs)). cbn [negb].
  by rewrite (bind_ok _ _ _ _ _ (deref_ok a b w Ha)).
Qed.

(** A world whose block table is unchanged stays well formed under heap updates of a
    live block. *)
Lemma pool_wf_update w a b b' (c : PrefixCache) :
  pool_wf w -> heap w !! a = Some b ->
  (forall id, block_wf (block_size_ (pool w)) id b -> block_wf (block_size_ (pool w)) id b') ->
  pool_wf (mkWorld (<[a := b']> (heap w)) (next_addr w) (pool w) c).
Proof. intros Hp Ha Hb. destruct (update_wf a b b' w Hp Ha Hb). by constructor. Qed.

(** The four steps that attach a block to its entry, with or without handlers. *)
Lemma attach_steps w a b id i (k1 k2 k3 k4 : CM unit -> CM unit) :
  (forall k, k ∈ [k1; k2; k3; k4] -> forall (m : CM unit) v v', m v = (Ok tt, v') -> k m v = (Ok tt, v')) ->
  pool_wf w -> heap w !! a = Some b -> blocks_ (pool w) !! id_ b = Some (Some a) ->
  reference_observer_cookie_ b = None -> IsFull b = true -> length (Tokens i) = capacity_ b ->
  id < length (entries_by_block_id_ (observer w)) ->
  (_ ← k1 (pool_op (AddRef (Some a))); _ ← k2 (set_block_identity a i); _ ← k3 (set_block_entry id (Some id));
   k4 (pool_op (SetReferenceObserverCookie (Some a) (Some id)))) w =
  (Ok tt, mkWorld (<[a := indexed_block id i b]> (heap w)) (next_addr w) (pool w)
            (set_by_id (<[id := Some id]> (entries_by_block_id_ (observer w))) (observer w))).
Proof.
  intros Hk Hp Ha Hs Hc Hf Ht Hid.
  assert (forall m v v', m v = (Ok tt, v') -> k1 m v = (Ok tt, v')) as H1 by (apply Hk; set_solver).
  assert (forall m v v', m v = (Ok tt, v') -> k2 m v = (Ok tt, v')) as H2 by (apply Hk; set_solver).
  assert (forall m v v', m v = (Ok tt, v') -> k3 m v = (Ok tt, v')) as H3 by (apply Hk; set_solver).
  assert (forall m v v', m v = (Ok tt, v') -> k4 m v = (Ok tt, v')) as H4 by (apply Hk; set_solver).
  rewrite (bind_ok _ _ _ _ _ (H1 _ _ _ (pool_op_ok _ _ _ _ (AddRef_unobserved w a b Hp Ha Hs Hc)))).
  set (w1 := set_heap _ w). assert (heap w1 !! a = Some (Block_AddRef b)) as Ha1 by apply lookup_insert_eq.
  rewrite (bind_ok _ _ _ _ _ (H2 _ _ _ (set_block_identity_run w1 a _ i Ha1 Hf Ht))).
  set (w2 := set_heap _ w1). assert (heap w2 !! a = Some (set_identity (Some i) (Block_AddRef b))) as Ha2 by apply lookup_insert_eq.
  rewrite (bind_ok _ _ _ _ _ (H3 _ _ _ (set_block_entry_run w2 id (Some id) Hid))).
  set (w3 := set_observer _ w2).
  assert (pool_wf w3) as Hp3.
  { unfold w3, w2, w1, set_observer, set_heap. simpl. rewrite insert_insert_eq. eapply pool_wf_update; [done|done|].
    intros k []. constructor; simpl; try done; [lia|]. intros i' [= <-]. split; [|done]. by apply Nat.eqb_eq. }
  etrans; [exact (H4 _ _ _ (pool_op_ok _ _ _ _ (set_cookie_run w3 a _ id Hp3 Ha2 Hs)))|].
  unfold w3, w2, w1, set_observer, set_heap. simpl. by rewrite !insert_insert_eq.
Qed.

(** ** Registration *)

Definition parent_held (c : PrefixCache) (parent : option BlockIdentity) : Prop :=
  forall p, parent = Some p -> held c p.
Definition logical_held (c : PrefixCache) (parent : option LogicalPrefixIdentity) : Prop :=
  forall p, parent = Some p -> logicals c !! li_addr p = Some p.

Lemma fresh_insert_size {A} (m : gmap addr A) (x : A) :
  (forall a y, m !! a = Some y -> a < size m) ->
  m !! size m = None /\ size (<[size m := x]> m) = S (size m).
Proof.
  intros Hm. assert (m !! size m = None) as Hn.
  { destruct (m !! size m) as [y|] eqn:Hy; [|done]. apply Hm in Hy. lia. }
  split; [done|]. by rewrite map_size_insert_None.
Qed.

Lemma index_ok_logical n c h p t :
  index_ok n c -> logical_held c p ->
  let l := mkLogical (size (logicals c)) h p t in
  index_ok n (set_heaps (identities c) (<[li_addr l := l]> (logicals c)) c).
Proof.
  intros Hc Hp l. pose proof (ix_logicals _ _ Hc) as Hlg.
  destruct (fresh_insert_size (logicals c) l) as [Hn Hsize]; [intros a y Hy; by destruct (Hlg _ _ Hy) as (_ & ? & _)|].
  assert (forall a y, logicals c !! a = Some y -> <[size (logicals c) := l]> (logicals c) !! a = Some y) as Hmono.
  { intros a y Hy. rewrite lookup_insert_ne; [done|]. intros <-. congruence. }
  destruct Hc. constructor; simpl; try done.
  - intros a i Hi. destruct (ix_identities0 _ _ Hi) as (? & ? & ? & Hl). split_and!; try done. intros l' Hl'. by apply Hmono, Hl.
  - rewrite Hsize. intros a y. destruct (decide (a = size (logicals c))) as [->|Hne].
    + rewrite lookup_insert_eq. intros [= <-]. split_and!; [done|lia|]. intros q Hq. by apply Hmono, Hp.
    + rewrite lookup_insert_ne by done. intros Hy. destruct (Hlg _ _ Hy) as (? & ? & Hq). split_and!; [done|lia|].
      intros q Hq'. by apply Hmono, Hq.
Qed.

Lemma index_ok_identity n c h b p t lg :
  index_ok n c -> parent_held c p -> logical_held c lg ->
  let i := mkIdentity (size (identities c)) h b p t lg in
  h = Hash c (from_option bi_hash RootHash p) (Tokens i) ->
  index_ok n (set_heaps (<[bi_addr i := i]> (identities c)) (logicals c) c) /\
  (forall j, held c j -> held (set_heaps (<[bi_addr i := i]> (identities c)) (logicals c) c) j).
Proof.
  intros Hc Hp Hl i Hhash. pose proof (ix_identities _ _ Hc) as His.
  destruct (fresh_insert_size (identities c) i) as [Hn Hsize]; [intros a y Hy; by destruct (His _ _ Hy) as (_ & ? & _)|].
  assert (forall a y, identities c !! a = Some y -> <[size (identities c) := i]> (identities c) !! a = Some y) as Hmono.
  { intros a y Hy. rewrite lookup_insert_ne; [done|]. intros <-. congruence. }
  split; [|by intros j Hj; apply Hmono]. destruct Hc. constructor; simpl; try done.
  - intros id e He. destruct (ix_entry0 _ _ He) as (? & ? & ?). split_and!; try done. by apply Hmono.
  - rewrite Hsize. intros a y. destruct (decide (a = size (identities c))) as [->|Hne].
    + rewrite lookup_insert_eq. intros [= <-]. split_and!; [done|lia| |done]. intros q Hq. by apply Hmono, Hp.
    + rewrite lookup_insert_ne by done. intros Hy. destruct (His _ _ Hy) as (? & ? & Hq & ?). split_and!; [done|lia| |done].
      intros q Hq'. by apply Hmono, Hq.
  - intros a y. destruct (decide (a = size (identities c))) as [->|Hne].
    + rewrite lookup_insert_eq. by intros [= <-].
    + rewrite lookup_insert_ne by done. apply ix_hashed0.
Qed.

Lemma cache_ok_heaps w ids ls :
  cache_ok w -> index_ok (pool_capacity_ (pool w)) (set_heaps ids ls (observer w)) ->
  cache_ok (set_observer (set_heaps ids ls (observer w)) w).
Proof. intros Hw Hi. by apply cache_ok_cache. Qed.

(** The identity a registration creates. *)
Definition new_identity (c : PrefixCache) (hash : N) (block_id : nat) (parent : option BlockIdentity)
    (tokens : list Z) (i : BlockIdentity) : Prop :=
  bi_hash i = hash /\ bi_block_id i = block_id /\ bi_parent i = parent /\ Tokens i = tokens /\
  bi_addr i = size (identities c).

Definition identity_world (i : BlockIdentity) w : world PrefixCache :=
  set_observer (set_heaps (<[bi_addr i := i]> (identities (observer w))) (logicals (observer w)) (observer w)) w.

Lemma make_identity_run w h b p t lg :
  make_identity h b p t lg w =
    (Ok (mkIdentity (size (identities (observer w))) h b p t lg),
     identity_world (mkIdentity (size (identities (observer w))) h b p t lg) w).
Proof. done. Qed.

(** What creating identities changes: only their heaps, which grow. *)
Record heaps_grow (c c' : PrefixCache) : Prop := mk_heaps_grow
  { hg_same : c' = set_heaps (identities c') (logicals c') c;
    hg_held : forall j, held c j -> held c' j }.

Lemma parent_logical n c parent : index_ok n c -> parent_held c parent -> logical_held c (parent ≫= bi_logical).
Proof.
  intros Hc Hp l Hl. destruct parent as [p|]; [|done]. simpl in Hl.
  by apply (ix_identities _ _ Hc _ _ (Hp p eq_refl)).
Qed.

Lemma register_identity_ok c w hash block_id parent tokens :
  cache_ok w -> parent_held (observer w) parent ->
  hash = Hash (observer w) (from_option bi_hash RootHash parent) tokens ->
  exists i w', register_identity c hash block_id parent tokens w = (Ok i, w') /\
    cache_ok w' /\ heaps_grow (observer w) (observer w') /\ w' = set_observer (observer w') w /\
    held (observer w') i /\ new_identity (observer w) hash block_id parent tokens i.
Proof.
  intros Hw Hp Hh. pose proof (ck_index _ Hw) as Hi. unfold register_identity.
  destruct (_ || _).
  - pose proof (parent_logical _ _ _ Hi Hp) as Hlh.
    set (l := mkLogical (size (logicals (observer w))) hash (parent ≫= bi_logical) tokens).
    set (w1 := set_observer (set_heaps (identities (observer w)) (<[li_addr l := l]> (logicals (observer w))) (observer w)) w).
    assert (cache_ok w1) as Hw1 by (apply cache_ok_heaps; [done|]; by apply index_ok_logical).
    rewrite (bind_ok (make_logical hash (parent ≫= bi_logical) tokens) _ w l w1) by done.
    destruct (index_ok_identity _ (observer w1) hash block_id parent [] (Some l) (ck_index _ Hw1)) as [Hi2 Hheld];
      [done| |done|].
    { intros q [= <-]. apply lookup_insert_eq. }
    rewrite make_identity_run. eexists _, _. split; [reflexivity|]. split_and!; try done.
    + by apply cache_ok_cache.
    + apply lookup_insert_eq.
  - destruct (index_ok_identity _ (observer w) hash block_id parent tokens None Hi Hp) as [Hi2 Hheld]; [done|done|].
    rewrite make_identity_run. eexists _, _. split; [reflexivity|]. split_and!; try done.
    + by apply cache_ok_cache.
    + apply lookup_insert_eq.
Qed.

Lemma unindexed_cookie w a b :
  cache_ok w -> heap w !! a = Some b -> identity_ b = None -> reference_observer_cookie_ b = None.
Proof.
  intros Hw Ha Hi. destruct (reference_observer_cookie_ b) as [k|] eqn:Hk; [|done].
  destruct (ck_cookie _ Hw _ _ _ Ha Hk) as (e & He & <-). destruct (ck_linked _ Hw _ _ He) as (b' & Hl).
  pose proof (lk_heap _ _ _ _ Hl). pose proof (lk_identity _ _ _ _ Hl). congruence.
Qed.

Lemma unindexed_entry w a b :
  cache_ok w -> heap w !! a = Some b -> blocks_ (pool w) !! id_ b = Some (Some a) -> identity_ b = None ->
  entries_ (observer w) !! id_ b = None.
Proof.
  intros Hw Ha Hs Hi. destruct (entries_ (observer w) !! id_ b) as [x|] eqn:Hx; [|done].
  destruct (ck_linked _ Hw _ _ Hx) as (bx & Hl). pose proof (lk_slot _ _ _ _ Hl).
  pose proof (lk_heap _ _ _ _ Hl). pose proof (lk_identity _ _ _ _ Hl). congruence.
Qed.

(** The world after block [a] was indexed under the new identity [i]. *)
Record newly_indexed (a : addr) (b : Block) (hash : N) (tokens : list Z) (parent : option BlockIdentity)
    (i : BlockIdentity) w w' : Prop := mk_newly_indexed
  { ni_ok : cache_ok w';
    ni_identity : new_identity (observer w) hash (id_ b) parent tokens i;
    ni_held : held (observer w') i /\ forall j, held (observer w) j -> held (observer w') j;
    ni_entry : exists pid, entries_ (observer w') =
      <[id_ b := mkEntry a i None None pid false true]> (entries_ (observer w));
    ni_hash : entries_by_hash_ (observer w') = entries_by_hash_ (observer w) ++ [(hash, id_ b)];
    ni_options : options_ (observer w') = options_ (observer w);
    ni_heap : heap w' = <[a := indexed_block (id_ b) i b]> (heap w);
    ni_pool : pool w' = pool w }.

Lemma index_block_ok c w a b hash tokens parent :
  cache_ok w -> heap w !! a = Some b -> blocks_ (pool w) !! id_ b = Some (Some a) -> identity_ b = None ->
  IsFull b = true -> length tokens = capacity_ b -> parent_held (observer w) parent ->
  size (entries_ (observer w)) < max_blocks (options_ (observer w)) ->
  hash = Hash (observer w) (from_option bi_hash RootHash parent) tokens ->
  exists i w', index_block c a b hash tokens parent w = (Ok (mkRegistration Indexed (Some i)), w') /\
    newly_indexed a b hash tokens parent i w w'.
Proof.
  intros Hw Ha Hs Hno Hf Ht Hp Hsize Hhsh. unfold index_block.
  destruct (register_identity_ok c w hash (id_ b) parent tokens Hw Hp Hhsh)
    as (i & w1 & Hrun & Hw1 & [Hsame Hgrow] & Hw1eq & Hheld & Hnew).
  rewrite (bind_ok _ _ _ _ _ Hrun), (bind_ok (gets observer) _ w1 (observer w1) w1) by done.
  assert (heap w1 = heap w /\ pool w1 = pool w /\ next_addr w1 = next_addr w) as (Hh & Hpool & Hnext) by (by rewrite Hw1eq).
  assert (entries_ (observer w1) = entries_ (observer w) /\ options_ (observer w1) = options_ (observer w) /\
    entries_by_hash_ (observer w1) = entries_by_hash_ (observer w)) as (He & Ho & Hbh) by (by rewrite Hsame).
  assert (entries_ (observer w1) !! id_ b = None) as Hnone.
  { rewrite He. by apply (unindexed_entry w a b). }
  rewrite Hnone, bool_decide_false by (by intros []). rewrite (bind_ok (throw_if false _) _ w1 tt w1) by done. cbv zeta.
  set (pid := fst <$> FindEntry (observer w1) parent). set (pos := recency_position (observer w1) parent).
  set (e := mkEntry a i None None pid false true).
  set (w2 := set_observer (publish_entry (id_ b) e pos (observer w1)) w1).
  rewrite (bind_ok (on_cache _) _ w1 tt w2) by done.
  destruct Hnew as (Hhash & Hbid & Hpar & Htok & Haddr).
  assert (id_ b < length (entries_by_block_id_ (observer w2))) as Hlen.
  { simpl. rewrite (ix_length _ _ (ck_index _ Hw1)), Hpool. by apply (owned_in_range w a b (ck_pool _ Hw)). }
  pose proof (unindexed_cookie w a b Hw Ha Hno) as Hcookie.
  rewrite (bind_ok (attach_block a (id_ b) i) _ w2 tt (indexed_world (id_ b) e pos b w1)).
  2: { unfold attach_block. etrans; [apply (attach_steps w2 a b (id_ b) i
         (fun m => on_throw m _) (fun m => on_throw m _) (fun m => m) (fun m => on_throw m _))|]; try done.
       - intros k Hk m v v' Hm. rewrite !elem_of_cons in Hk.
         destruct Hk as [->|[->|[->|[->|Hk%elem_of_nil]]]]; try done; by apply on_throw_ok.
       - destruct (ck_pool _ Hw1). by constructor.
       - simpl. by rewrite Hh.
       - simpl. by rewrite Hpool.
       - by rewrite Htok. }
  assert (cache_ok (indexed_world (id_ b) e pos b w1)) as Hok.
  { apply indexed_world_ok; try done; rewrite ?Hh, ?Hpool, ?Htok, ?He, ?Ho; done. }
  rewrite (bind_ok (count RegisteredBlocks 1) _ _ tt _ eq_refl).
  eexists i, _. split; [reflexivity|]. constructor; simpl; try done.
  - exact (cache_ok_metrics _ _ Hok).
  - exists pid. by rewrite He.
  - by rewrite Hbh, Hhash.
  - by rewrite Hh.
Qed.

Lemma find_first_spec f c ids :
  match find_first f c ids with
  | Some (id, e) => id ∈ ids /\ entries_ c !! id = Some e /\ f e = true
  | None => forall id e, id ∈ ids -> entries_ c !! id = Some e -> f e = false
  end.
Proof.
  induction ids as [|id ids IH]; simpl; [by intros id e ?%not_elem_of_nil|].
  destruct (entries_ c !! id) as [e|] eqn:He.
  - destruct (f e) eqn:Hf; [split_and!; [by left|done|done]|].
    destruct (find_first f c ids) as [[k x]|].
    + destruct IH as (? & ? & ?). split_and!; [by right|done|done].
    + intros k x [->|Hk]%elem_of_cons Hx; [congruence|by eapply IH].
  - destruct (find_first f c ids) as [[k x]|].
    + destruct IH as (? & ? & ?). split_and!; [by right|done|done].
    + intros k x [->|Hk]%elem_of_cons Hx; [congruence|by eapply IH].
Qed.

Lemma hash_range_spec n c hash id :
  index_ok n c -> id ∈ hash_range c hash <-> exists e, entries_ c !! id = Some e /\ bi_hash (entry_identity e) = hash.
Proof.
  intros Hc. unfold hash_range. rewrite list_elem_of_fmap. rewrite <- (proj2 (ix_hash _ _ Hc)). split.
  - intros ([h k] & -> & [Hh Hin]%list_elem_of_filter). simpl in *. by subst.
  - intros Hin. exists (hash, id). split; [done|]. by apply list_elem_of_filter.
Qed.

Lemma same_parent_spec c p q :
  parent_held c p -> parent_held c q -> same_parent p q = true <-> p = q.
Proof.
  intros Hp Hq. destruct p as [p|], q as [q|]; simpl; try done.
  rewrite (held_eq c) by auto. split; [by intros ->|by intros [= ->]].
Qed.

(** The entry [e] holds exactly [tokens] after the lineage [parent]. *)
Definition holds (e : Entry) (hash : N) (parent : option BlockIdentity) (tokens : list Z) : Prop :=
  bi_hash (entry_identity e) = hash /\ bi_parent (entry_identity e) = parent /\ Tokens (entry_identity e) = tokens.

Lemma entry_parent_held n c id e :
  index_ok n c -> entries_ c !! id = Some e -> parent_held c (bi_parent (entry_identity e)).
Proof.
  intros Hc He p Hp. destruct (ix_entry _ _ Hc _ _ He) as (_ & _ & Hh).
  by apply (ix_identities _ _ Hc _ _ Hh).
Qed.

Lemma FindPhysical_spec n c hash parent tokens :
  index_ok n c -> parent_held c parent ->
  match FindPhysical c hash parent tokens with
  | Some (id, e) => entries_ c !! id = Some e /\ holds e hash parent tokens
  | None => forall id e, entries_ c !! id = Some e -> ~ holds e hash parent tokens
  end.
Proof.
  intros Hc Hp. unfold FindPhysical.
  match goal with |- context [find_first ?f c ?l] => pose proof (find_first_spec f c l) as Hf;
    destruct (find_first f c l) as [[id e]|] end.
  - destruct Hf as (Hin & He & [Hs Ht]%andb_prop). apply (hash_range_spec _ _ _ _ Hc) in Hin as (e' & He' & Hh).
    assert (e' = e) as -> by congruence. split; [done|]. split_and!; [done| |by apply bool_decide_eq_true in Ht].
    by apply (same_parent_spec c) in Hs; [|by eapply entry_parent_held|].
  - intros id e He (Hh & Hpar & Ht). assert (id ∈ hash_range c hash) as Hin by (apply (hash_range_spec _ _ _ _ Hc); by exists e).
    specialize (Hf id e Hin He). simpl in Hf. rewrite Hpar, Ht, bool_decide_true in Hf by done.
    rewrite (proj2 (same_parent_spec c parent parent Hp Hp)) in Hf; done.
Qed.

Lemma evict_keeps w v w' a b :
  cache_ok w -> reclaimed v w w' -> heap w !! a = Some b -> blocks_ (pool w) !! id_ b = Some (Some a) ->
  identity_ b = None -> (forall id, id ∈ v -> is_Some (entries_ (observer w) !! id)) ->
  heap w' !! a = Some b /\ blocks_ (pool w') !! id_ b = Some (Some a).
Proof.
  intros Hw Hrc Ha Hs Hno Hv. split.
  - apply (rc_heap _ _ _ Hrc); [done|]. intros id e Hid He Heq. subst a.
    destruct (ck_linked _ Hw _ _ He) as (b' & Hl). pose proof (lk_heap _ _ _ _ Hl). pose proof (lk_identity _ _ _ _ Hl).
    congruence.
  - rewrite (rc_slots _ _ _ Hrc). rewrite decide_False; [done|]. intros Hin.
    destruct (Hv _ Hin) as [e He]. pose proof (unindexed_entry w a b Hw Ha Hs Hno). congruence.
Qed.

Lemma reclaimed_size v w w' :
  NoDup v -> (forall id, id ∈ v -> is_Some (entries_ (observer w) !! id)) -> reclaimed v w w' ->
  size (entries_ (observer w')) + length v = size (entries_ (observer w)).
Proof.
  intros Hnd Hv Hrc. rewrite <- !size_dom.
  assert (dom (entries_ (observer w')) = dom (entries_ (observer w)) ∖ list_to_set v) as ->.
  { apply set_eq. intros id. rewrite elem_of_difference, elem_of_list_to_set, !elem_of_dom, (rc_entries _ _ _ Hrc).
    case_decide; [|tauto]. split; [by intros []|tauto]. }
  rewrite <- (size_list_to_set (C := gset nat) v Hnd).
  rewrite Nat.add_comm, (comm_L Nat.add), <- size_union by set_solver. f_equal.
  assert ((list_to_set v : gset nat) ⊆ dom (entries_ (observer w))).
  { intros id. rewrite elem_of_list_to_set, elem_of_dom. apply Hv. }
  apply set_eq. intros id. destruct (decide (id ∈ (list_to_set v : gset nat))); set_solver.
Qed.

Lemma victims_entries w marks protected needed :
  cache_ok w -> let v := victims marks protected needed (reclaimable_entries_ (observer w)) in
  NoDup v /\ forall id, id ∈ v -> is_Some (entries_ (observer w) !! id).
Proof.
  intros Hw v. pose proof (ix_reclaimable _ _ (ck_index _ Hw)) as [Hnd Hin]. split.
  - eapply sublist_NoDup; [|apply sublist_take]. by apply NoDup_filter.
  - intros id Hid. apply elem_of_take in Hid as (j & Hj & _).
    apply list_elem_of_lookup_2, list_elem_of_filter in Hj as [_ Hj]. apply Hin in Hj as (e & -> & _). by eexists.
Qed.

Lemma Owns_spec w a b :
  pool_wf w -> heap w !! a = Some b ->
  Owns (Some a) w = (Ok (bool_decide (blocks_ (pool w) !! id_ b = Some (Some a))), w).
Proof.
  intros Hw Ha. case_bool_decide as Hs; [by apply (Owns_owned w a b)|].
  unfold Owns. rewrite (bind_ok _ _ _ _ _ (deref_ok _ _ _ Ha)).
  rewrite (bind_ok (gets pool) _ w (pool w) w) by done. unfold mret, M_ret. do 2 f_equal.
  apply andb_false_intro2. unfold slot_holds. by apply bool_decide_false.
Qed.

(** Making room in the budget: one reclamation when it is full. *)
Definition make_room (c : PrefixCache) : CM bool :=
  if max_blocks (options_ c) <=? size (entries_ c) then n ← Reclaim 1; mret (n =? 0) else mret false.

Lemma make_room_spec w :
  cache_ok w ->
  exists v w1, make_room (observer w) w = (Ok (bool_decide (length v = 0 /\ max_blocks (options_ (observer w)) <= size (entries_ (observer w)))), w1) /\
    reclaimed v w w1 /\ NoDup v /\ (forall id, id ∈ v -> is_Some (entries_ (observer w) !! id)) /\
    length v = (if max_blocks (options_ (observer w)) <=? size (entries_ (observer w))
                then min 1 (ReclaimableBlocks (observer w)) else 0).
Proof.
  intros Hw. unfold make_room. destruct (Nat.leb_spec (max_blocks (options_ (observer w))) (size (entries_ (observer w)))) as [Hle|Hgt].
  - destruct (Reclaim_spec w 1 Hw) as (w1 & Hrun & Hrc). pose proof (victims_length w 1 Hw) as Hlen.
    destruct (victims_entries w (MarkLeasedReclaimableBlocks (observer w)).1 (MarkLeasedReclaimableBlocks (observer w)).2 1 Hw) as [Hnd Hv].
    eexists _, w1. split_and!; [|exact Hrc|done..]. rewrite (bind_ok _ _ _ _ _ Hrun). unfold mret, M_ret. do 2 f_equal.
    destruct (Nat.eqb_spec (length (victims (MarkLeasedReclaimableBlocks (observer w)).1
      (MarkLeasedReclaimableBlocks (observer w)).2 1 (reclaimable_entries_ (observer w)))) 0); case_bool_decide; tauto.
  - exists [], w. split_and!; [|by apply reclaimed_nil|constructor|by intros id ?%not_elem_of_nil|done].
    rewrite bool_decide_false by lia. done.
Qed.

(** What registering the live block [b] at [a] may do. *)
Definition registration (w : world PrefixCache) (a : addr) (b : Block) (tokens : list Z) (parent : option BlockIdentity)
    (result : outcome PrefixError PrefixCacheRegistration * world PrefixCache) : Prop :=
  let c := observer w in
  let hash := Hash c (from_option bi_hash RootHash parent) tokens in
  match result with
  | (Throw _, w') => w' = w /\
      (IsFull b = false \/ length tokens <> capacity_ b \/ blocks_ (pool w) !! id_ b <> Some (Some a))
  | (Ok r, w') => cache_ok w' /\ IsFull b = true /\ length tokens = capacity_ b /\
      (forall j, held c j -> held (observer w') j) /\
      match status r with
      | Indexed => exists i, registered_identity r = Some i /\
          ((identity_ b = Some i /\ w' = w) \/
           (identity_ b = None /\ (forall id e, entries_ c !! id = Some e -> bi_hash (entry_identity e) <> hash) /\
            exists v w1, reclaimed v w w1 /\ newly_indexed a b hash tokens parent i w1 w' /\
              length v = if max_blocks (options_ c) <=? size (entries_ c) then 1 else 0))
      | Duplicate => registered_identity r = None /\ heap w' = heap w /\ pool w' = pool w /\ entries_ (observer w') = entries_ c /\
          exists id e, entries_ c !! id = Some e /\ holds e hash parent tokens
      | HashCollision => registered_identity r = None /\ heap w' = heap w /\ pool w' = pool w /\ entries_ (observer w') = entries_ c /\
          (exists id e, entries_ c !! id = Some e /\ bi_hash (entry_identity e) = hash) /\
          forall id e, entries_ c !! id = Some e -> ~ holds e hash parent tokens
      | CapacityRefused => registered_identity r = None /\ reclaimed [] w w' /\ entries_ (observer w') = entries_ c /\
          size (entries_ c) = max_blocks (options_ c) /\ ReclaimableBlocks c = 0
      end
  | _ => False
  end.

Lemma Register_live w a b tokens parent :
  cache_ok w -> heap w !! a = Some b -> parent_held (observer w) parent -> Enabled (observer w) = true ->
  registration w a b tokens parent (Register (Some a) tokens parent w).
Proof.
  intros Hw Ha Hp Hen. unfold registration. cbv zeta. set (c := observer w).
  set (hash := Hash c (from_option bi_hash RootHash parent) tokens).
  pose proof (ck_index _ Hw) as Hi. unfold Register.
  rewrite (bind_ok (gets observer) _ w c w) by done. unfold c. rewrite Hen. cbn [negb].
  rewrite (bind_ok _ _ _ _ _ (pool_op_ok _ _ _ _ (deref_ok a b w Ha))).
  destruct (IsFull b) eqn:Hf; simpl; [|by auto].
  destruct (Nat.eqb_spec (length tokens) (capacity_ b)) as [Ht|Ht]; simpl; [|by auto].
  unfold HasIdentity. case_bool_decide as Hid.
  { destruct Hid as [i Hid]. split_and!; try done. simpl. exists i. split; [done|by left]. }
  apply eq_None_not_Some in Hid.
  rewrite (bind_ok _ _ _ _ _ (pool_op_ok _ _ _ _ (Owns_spec w a b (ck_pool _ Hw) Ha))).
  case_bool_decide as Hs; cbn [negb]; [|naive_solver]. fold c. fold hash.
  pose proof (FindPhysical_spec _ c hash parent tokens Hi Hp) as Hfp.
  destruct (FindPhysical c hash parent tokens) as [[id e]|].
  { destruct Hfp as [He Hh]. rewrite (bind_ok (count _ _) _ w tt _ eq_refl).
    destruct (Reorder_reordered _ _ id e parent (ck_index _ Hw) He) as (_ & Hi' & He').
    set (w1 := set_observer (set_metrics _ (observer w)) w).
    assert (cache_ok w1) as Hw1 by (by apply cache_ok_metrics).
    destruct (Reorder_reordered _ _ id e parent (ck_index _ Hw1) He) as (Hro & Hi1 & He1).
    rewrite (bind_ok (on_cache _) _ w1 tt _ eq_refl). split_and!; try done.
    - apply (cache_ok_cache w1); [done|done|]. intros k. by rewrite He1.
    - intros j Hj. destruct (ro_heaps _ _ Hro) as (_ & _ & Hids & _). exact (eq_trans (f_equal (.!! bi_addr j) Hids) Hj).
    - split_and!; try done. by exists id, e. }
  destruct (decide (hash_range c hash = [])) as [Hr|Hr].
  2: { rewrite bool_decide_false by done. cbn [negb]. rewrite (bind_ok (count _ _) _ w tt _ eq_refl).
       split_and!; try done; [by apply cache_ok_metrics|]. split_and!; try done.
       destruct (hash_range c hash) as [|id l] eqn:Hrange; [done|].
       destruct (proj1 (hash_range_spec _ c hash id Hi)) as (e & He & Hh); [rewrite Hrange; by left|]. by exists id, e. }
  rewrite bool_decide_true by done. cbn [negb]. change (if max_blocks (options_ c) <=? size (entries_ c)
    then n ← Reclaim 1; mret (n =? 0) else mret false) with (make_room c).
  destruct (make_room_spec w Hw) as (v & w1 & Hrun & Hrc & Hnd & Hv & Hlen). fold c in Hrun, Hlen, Hv.
  rewrite (bind_ok _ _ _ _ _ Hrun). pose proof (ix_budget _ _ Hi) as [Hb _]. fold c in Hb.
  case_bool_decide as Hroom.
  - destruct Hroom as [Hv0 Hfull]. apply nil_length_inv in Hv0. subst v. rewrite (bind_ok (count _ _) _ w1 tt _ eq_refl).
    destruct (rc_cache _ _ _ Hrc) as (_ & Hids & _).
    split_and!; try done; [apply cache_ok_metrics, Hrc|intros j; unfold held; cbn; by rewrite Hids|]. simpl.
    rewrite (proj2 (Nat.leb_le _ _) Hfull) in Hlen. cbn [length] in Hlen. split_and!; [done|by apply reclaimed_metrics| |lia|lia].
    apply map_eq. intros k. rewrite (rc_entries _ _ _ Hrc). case_decide as Hk; [by apply not_elem_of_nil in Hk|done].
  - destruct (evict_keeps w v w1 a b Hw Hrc Ha Hs Hid Hv) as [Ha1 Hs1].
    pose proof (reclaimed_size v w w1 Hnd Hv Hrc) as Hsize.
    destruct (rc_cache _ _ _ Hrc) as (Ho & Hids & _).
    destruct (index_block_ok c w1 a b hash tokens parent (rc_ok _ _ _ Hrc) Ha1 Hs1 Hid Hf Ht) as (i & w' & Hrun' & Hni).
    + intros p Hpp. unfold held. rewrite Hids. by apply Hp.
    + rewrite Ho. fold c. fold c in Hsize. revert Hlen.
      destruct (Nat.leb_spec (max_blocks (options_ c)) (size (entries_ c))); lia.
    + unfold hash, Hash. by rewrite Ho.
    + rewrite Hrun'. split_and!; try done; [apply Hni|intros j Hj; apply (ni_held _ _ _ _ _ _ _ _ Hni); unfold held; by rewrite Hids|].
      simpl. exists i. split; [done|]. right. split_and!; [done| |].
      * intros k e He Heq. assert (k ∈ hash_range c hash) as Hk by (apply (hash_range_spec _ _ _ _ Hi); by exists e).
        rewrite Hr in Hk. by apply not_elem_of_nil in Hk.
      * exists v, w1. split_and!; [done|done|]. revert Hlen.
        destruct (Nat.leb_spec (max_blocks (options_ c)) (size (entries_ c))); lia.
Qed.

(** C28: Registering a block is total on live handles and keeps the invariant.  A
    disabled cache refuses and a null block throws, both without effect.  Otherwise it
    throws, without effect, exactly when the block is not full, the tokens do not
    cover it or the pool does not own it.  A block that has an identity keeps it.
    Otherwise a new identity with this hash, lineage and content is indexed only if
    no entry holds the same content after the same lineage ([Duplicate]), none has the
    same hash ([HashCollision]), and the budget has room or one entry was reclaimed
    ([CapacityRefused] otherwise); a refused block stays private. *)
Theorem register_correct w (block : option addr) tokens parent :
  cache_ok w -> parent_held (observer w) parent ->
  (forall a, block = Some a -> is_Some (heap w !! a)) ->
  if negb (Enabled (observer w)) then Register block tokens parent w = (Ok (mkRegistration CapacityRefused None), w)
  else
    match block with
    | None => Register block tokens parent w = (Throw IndexNullBlock, w)
    | Some a => exists b, heap w !! a = Some b /\ registration w a b tokens parent (Register block tokens parent w)
    end.
Proof.
  intros Hw Hp Hh. destruct (Enabled (observer w)) eqn:Hen; cbn [negb].
  - destruct block as [a|].
    + destruct (Hh a eq_refl) as [b Hb]. exists b. split; [done|]. by apply Register_live.
    + unfold Register. rewrite (bind_ok (gets observer) _ w (observer w) w) by done. by rewrite Hen.
  - unfold Register. rewrite (bind_ok (gets observer) _ w (observer w) w) by done. by rewrite Hen.
Qed.

(** ** Matching *)

(** All the tokens of an identity's lineage, oldest first. *)
Fixpoint history (i : BlockIdentity) : list Z :=
  match i with
  | mkIdentity _ _ _ (Some p) _ _ => history p ++ Tokens i
  | mkIdentity _ _ _ None _ _ => Tokens i
  end.

Lemma history_unfold i : history i = from_option history [] (bi_parent i) ++ Tokens i.
Proof. by destruct i as [? ? ? [p|] ? ?]. Qed.

(** The entries [es] continue the lineage [parent] with the tokens from [offset] on. *)
Inductive lineage (c : PrefixCache) (block_size : nat) (tokens : list Z) :
    nat -> option BlockIdentity -> list Entry -> Prop :=
  | lineage_nil offset parent : lineage c block_size tokens offset parent []
  | lineage_cons offset parent id e es :
      entries_ c !! id = Some e -> bi_parent (entry_identity e) = parent ->
      Tokens (entry_identity e) = subspan offset block_size tokens ->
      lineage c block_size tokens (offset + block_size) (Some (entry_identity e)) es ->
      lineage c block_size tokens offset parent (e :: es).

Definition last_identity (parent : option BlockIdentity) (es : list Entry) : option BlockIdentity :=
  match last es with Some e => Some (entry_identity e) | None => parent end.

Lemma last_identity_cons parent e es :
  last_identity parent (e :: es) = last_identity (Some (entry_identity e)) es.
Proof. unfold last_identity. rewrite last_cons. by destruct (last es). Qed.

Lemma take_subspan offset n (tokens : list Z) : take offset tokens ++ subspan offset n tokens = take (offset + n) tokens.
Proof. unfold subspan. apply take_take_drop. Qed.

Lemma lineage_history c block_size tokens offset parent es k e :
  lineage c block_size tokens offset parent es -> from_option history [] parent = take offset tokens ->
  es !! k = Some e -> history (entry_identity e) = take (offset + (k + 1) * block_size) tokens.
Proof.
  intros Hl. revert k. induction Hl as [|offset parent id x es Hx Hp Ht Hl IH]; intros k Hh Hk; [done|].
  assert (history (entry_identity x) = take (offset + block_size) tokens) as Hx'.
  { rewrite history_unfold, Hp, Ht, Hh. apply take_subspan. }
  destruct k as [|k]; simpl in Hk.
  - injection Hk as <-. rewrite Hx'. f_equal. lia.
  - rewrite (IH k Hx' Hk). f_equal. lia.
Qed.

(** Nothing indexed continues [es]: no entry holds the next chunk after its lineage. *)
Definition maximal (c : PrefixCache) (block_size : nat) (tokens : list Z) (offset : nat)
    (parent : option BlockIdentity) (es : list Entry) : Prop :=
  forall id e, entries_ c !! id = Some e -> bi_parent (entry_identity e) = last_identity parent es ->
    Tokens (entry_identity e) <> subspan (offset + length es * block_size) block_size tokens.

(** Counting changes nothing but the metrics. *)
Definition only_metrics w w' : Prop := exists m, w' = set_observer (set_metrics m (observer w)) w.

Lemma only_metrics_refl w : only_metrics w w.
Proof. exists (metrics_ (observer w)). by destruct w as [? ? ? []]. Qed.

Lemma only_metrics_count w w' m n : only_metrics w w' -> only_metrics w (count m n w').2.
Proof. intros [x ->]. by eexists. Qed.

Lemma only_metrics_trans w1 w2 w3 : only_metrics w1 w2 -> only_metrics w2 w3 -> only_metrics w1 w3.
Proof. intros [x ->] [y ->]. by exists y. Qed.

Lemma only_metrics_ok w w' : cache_ok w -> only_metrics w w' -> cache_ok w'.
Proof. intros Hw [m ->]. by apply cache_ok_metrics. Qed.

Lemma match_loop_spec tokens n offset parent acc w :
  cache_ok w -> parent_held (observer w) parent ->
  exists es w', match_blocks_loop tokens n offset (from_option bi_hash RootHash parent) parent acc w =
      (Ok (acc ++ (entry_block <$> es)), w') /\
    only_metrics w w' /\ length es <= n /\
    lineage (observer w) (block_size_ (pool w)) tokens offset parent es /\
    (length es < n -> maximal (observer w) (block_size_ (pool w)) tokens offset parent es).
Proof.
  intros Hw. revert offset parent acc. induction n as [|n IH]; intros offset parent acc Hp; simpl.
  { exists [], w. rewrite app_nil_r. split_and!; [done|apply only_metrics_refl|done|constructor|simpl; lia]. }
  set (bs := block_size_ (pool w)). set (c := observer w) in *. set (chunk := subspan offset bs tokens).
  rewrite (bind_ok (gets observer) _ w c w), (bind_ok (gets pool) _ w (pool w) w) by done.
  fold bs. fold chunk. set (hash := Hash c (from_option bi_hash RootHash parent) chunk).
  pose proof (FindPhysical_spec _ c hash parent chunk (ck_index _ Hw) Hp) as Hf.
  destruct (FindPhysical c hash parent chunk) as [[id e]|].
  - destruct Hf as [He (Hh & Hpar & Ht)]. destruct (ck_linked _ Hw _ _ He) as (b & Hl).
    rewrite (bind_ok _ _ _ _ _ (pool_op_ok _ _ _ _ (deref_ok _ _ w (lk_heap _ _ _ _ Hl)))), (lk_full _ _ _ _ Hl).
    cbn [negb]. destruct (IH (offset + bs) (Some (entry_identity e)) (acc ++ [entry_block e]))
      as (es & w' & Hrun & Hom & Hlen & Hlin & Hmax).
    { intros p [= <-]. by apply (ix_entry _ _ (ck_index _ Hw) _ _ He). }
    simpl in Hrun. rewrite Hh in Hrun. exists (e :: es), w'. split_and!.
    + rewrite Hrun, <- (assoc_L (++)). done.
    + done.
    + simpl. lia.
    + by eapply lineage_cons.
    + intros Hlt id' e' He' Hpar'. rewrite last_identity_cons in Hpar'.
      pose proof (Hmax ltac:(simpl in Hlt; lia) id' e' He' Hpar') as Hm. simpl. by rewrite Nat.add_assoc.
  - assert (forall b : bool, exists w', (_ ← (if b then mret tt else count HashCollisions 1); mret acc) w = (Ok acc, w') /\ only_metrics w w') as Hstop.
    { intros [|]; eexists; (split; [reflexivity|]); [apply only_metrics_refl|].
      apply (only_metrics_count w w HashCollisions 1). apply only_metrics_refl. }
    destruct (Hstop (bool_decide (hash_range c hash = []))) as (w' & Hrun & Hom). exists [], w'.
    rewrite app_nil_r. split_and!; [done|done|simpl; lia|constructor|].
    intros _ id e He Hpar Ht. apply (Hf id e He). simpl in Ht. rewrite Nat.add_0_r in Ht. split_and!; [|done|done].
    destruct (ix_entry _ _ (ck_index _ Hw) _ _ He) as (_ & _ & Hheld).
    rewrite (ix_hashed _ _ (ck_index _ Hw) _ _ Hheld), Hpar, Ht. done.
Qed.

(** C26: A paged-only lookup is sound and longest.  It returns the physical blocks of
    indexed entries whose complete token history is exactly the leading tokens of the
    prompt, block by block from the root, never more than the caller may adopt,
    whatever the hash function; and it stops only at the adoptable bound or when no
    entry holds the next chunk after that lineage.  Nothing but the metrics changes,
    so matching does not affect the eviction order. *)
Theorem match_paged_correct w tokens max_adoptable :
  cache_ok w -> Enabled (observer w) = true -> requires_checkpoint (options_ (observer w)) = false ->
  let bs := block_size_ (pool w) in
  exists es w', Match tokens max_adoptable w = (Ok (mkMatch (length es * bs) (entry_block <$> es) None None), w') /\
    only_metrics w w' /\
    length es * bs <= min max_adoptable (length tokens) /\
    lineage (observer w) bs tokens 0 None es /\
    (forall k e, es !! k = Some e -> history (entry_identity e) = take ((k + 1) * bs) tokens) /\
    ((length es + 1) * bs <= min max_adoptable (length tokens) -> maximal (observer w) bs tokens 0 None es).
Proof.
  intros Hw Hen Hreq bs. pose proof (pw_block_size _ (ck_pool _ Hw)) as Hbs. fold bs in Hbs. unfold Match.
  rewrite (bind_ok (gets observer) _ w (observer w) w), (bind_ok (gets pool) _ w (pool w) w) by done.
  rewrite Hen, Hreq. fold bs. destruct (Nat.eqb_spec bs 0) as [|_]; [lia|]. cbn [negb].
  set (n := min max_adoptable (length tokens) / bs).
  set (w1 := set_observer (set_metrics (bump Lookups 1 (metrics_ (observer w))) (observer w)) w).
  set (w2 := set_observer (set_metrics (bump QueriedTokens (N.of_nat (n * bs)) (metrics_ (observer w1))) (observer w)) w).
  rewrite (bind_ok (count Lookups 1) _ w tt w1) by done.
  rewrite (bind_ok (count QueriedTokens _) _ w1 tt w2) by done.
  assert (only_metrics w w2) as Hom2 by (by eexists).
  destruct (match_loop_spec tokens n 0 None [] w2 (only_metrics_ok _ _ Hw Hom2) ltac:(done))
    as (es & w3 & Hrun & Hom3 & Hlen & Hlin & Hmax).
  rewrite (bind_ok _ _ _ _ _ Hrun). rewrite app_nil_l.
  assert (lineage (observer w) bs tokens 0 None es) as Hlin' by (clear -Hlin; induction Hlin; econstructor; eauto).
  assert (n * bs <= min max_adoptable (length tokens)) as Hn.
  { unfold n. rewrite (Nat.mul_comm _ bs). apply Nat.Div0.mul_div_le. }
  exists es, (match es with [] => w3 | _ => (count Matches 1 w3).2 end). split_and!.
  - destruct es as [|e es]; [done|]. rewrite fmap_cons. rewrite (bind_ok (count Matches 1) _ w3 tt _ eq_refl).
    unfold mret, M_ret. cbn [length]. by rewrite length_fmap.
  - pose proof (only_metrics_trans _ _ _ Hom2 Hom3) as Hom. destruct es; [done|by apply only_metrics_count].
  - etrans; [|exact Hn]. by apply Nat.mul_le_mono_r.
  - done.
  - intros k e Hk. by rewrite (lineage_history _ _ _ _ _ _ k e Hlin' eq_refl Hk).
  - intros Hmore. apply Hmax. assert (length es + 1 <= n); [|lia].
    unfold n. apply Nat.div_le_lower_bound; [lia|]. lia.
Qed.

(** The entries [es] are the complete retained lineage of [o], root first, and hold
    [tokens] when there are any to compare. *)
Definition retained_path (c : PrefixCache) (block_size : nat) (tokens : list Z) (o : option BlockIdentity)
    (es : list Entry) : Prop :=
  entry_identity <$> es = rev (from_option chain [] o) /\
  Forall (fun e => exists id, entries_ c !! id = Some e) es /\
  (tokens <> [] -> forall k e, es !! k = Some e -> Tokens (entry_identity e) = subspan (k * block_size) block_size tokens).

Lemma retained_path_snoc c bs tokens i es :
  retained_path c bs tokens (Some i) es <->
  exists es' e, es = es' ++ [e] /\ entry_identity e = i /\ (exists id, entries_ c !! id = Some e) /\
    retained_path c bs tokens (bi_parent i) es' /\
    (tokens <> [] -> Tokens i = subspan (length es' * bs) bs tokens).
Proof.
  unfold retained_path. cbn [from_option]. rewrite chain_unfold. simpl rev. split.
  - intros (Hid & Hf & Ht). destruct es as [|x es] using rev_ind.
    { symmetry in Hid. by apply app_nil in Hid as [_ ?]. }
    rewrite fmap_app in Hid. apply app_inj_tail in Hid as [Hid Hx]. apply Forall_app in Hf as [Hf Hx'].
    apply Forall_cons in Hx' as [Hx' _]. exists es, x. split_and!; try done.
    + intros Hne k e Hk. apply (Ht Hne). by apply lookup_app_l_Some.
    + intros Hne. rewrite <- Hx. apply (Ht Hne). by rewrite lookup_app_r, Nat.sub_diag.
  - intros (es' & e & -> & Hi & He & (Hid & Hf & Ht) & Hlast). split_and!.
    + by rewrite fmap_app, Hid, <- Hi.
    + apply Forall_app. by split; [|apply Forall_singleton].
    + intros Hne k x Hk. apply lookup_app_Some in Hk as [Hk|[Hge Hk]]; [by apply (Ht Hne)|].
      destruct (k - length es') as [|j] eqn:Hj; [|done]. injection Hk as <-.
      replace k with (length es') by lia. rewrite Hi. auto.
Qed.

(** The walk finds the retained lineage if it has the right length and content. *)
Lemma path_walk_spec tokens o n acc w :
  cache_ok w -> parent_held (observer w) o ->
  exists r, path_walk (block_size_ (pool w)) tokens o n acc w = (Ok r, w) /\
    match r with
    | Some bl => exists es, bl = (entry_block <$> es) ++ acc /\ length es = n /\
        retained_path (observer w) (block_size_ (pool w)) tokens o es
    | None => forall es, length es = n -> ~ retained_path (observer w) (block_size_ (pool w)) tokens o es
    end.
Proof.
  intros Hw. pose proof (ck_index _ Hw) as Hi. set (c := observer w) in *. set (bs := block_size_ (pool w)).
  revert o acc. induction n as [|n IH]; intros o acc Ho; cbn [path_walk].
  { eexists. split; [reflexivity|]. destruct o as [i|].
    - intros es Hes (Hid & _). apply nil_length_inv in Hes. subst es. cbn [from_option] in Hid.
      rewrite chain_unfold in Hid. simpl in Hid. symmetry in Hid. by apply app_nil in Hid as [_ ?].
    - exists []. split_and!; try done. }
  rewrite (bind_ok (gets observer) _ w c w) by done. destruct o as [i|].
  2: { eexists. split; [reflexivity|]. intros es Hes (Hid & _). apply (f_equal length) in Hid.
       rewrite length_fmap in Hid. simpl in Hid. lia. }
  destruct (FindEntry c (Some i)) as [[id e]|] eqn:Hf.
  2: { eexists. split; [reflexivity|]. intros es _ (es' & e & _ & Heq & (id & He) & _)%retained_path_snoc.
       by apply (proj1 (FindEntry_none _ _ _ Hi (Ho i eq_refl)) Hf id e). }
  apply (FindEntry_spec _ _ _ _ _ Hi (Ho i eq_refl)) in Hf as [He Heq].
  destruct (ck_linked _ Hw _ _ He) as (b & Hl).
  rewrite (bind_ok _ _ _ _ _ (pool_op_ok _ _ _ _ (deref_ok _ _ w (lk_heap _ _ _ _ Hl)))), (lk_full _ _ _ _ Hl). cbn [negb].
  destruct (decide (tokens <> [] /\ Tokens i <> subspan (n * bs) bs tokens)) as [[Hne Hneq]|Hok].
  { rewrite !bool_decide_false by done. simpl. eexists. split; [reflexivity|].
    intros es Hes (es' & x & -> & _ & _ & _ & Ht)%retained_path_snoc. rewrite length_app in Hes. simpl in Hes.
    replace n with (length es') in Hneq by lia. by destruct Hneq, Ht. }
  assert (negb (bool_decide (tokens = [])) && negb (bool_decide (Tokens i = subspan (n * bs) bs tokens)) = false) as ->.
  { destruct (decide (tokens = [])); [by rewrite bool_decide_true|]. rewrite (bool_decide_false (tokens = [])) by done.
    rewrite bool_decide_true; [done|]. destruct (decide (Tokens i = subspan (n * bs) bs tokens)); tauto. }
  destruct (IH (bi_parent i) (entry_block e :: acc)) as (r & Hrun & Hr).
  { subst i. by eapply entry_parent_held. }
  exists r. split; [done|]. destruct r as [bl|].
  - destruct Hr as (es & -> & Hlen & Hpath). exists (es ++ [e]). split_and!.
    + by rewrite fmap_app, <- (assoc_L (++)).
    + rewrite length_app. simpl. lia.
    + apply retained_path_snoc. exists es, e. split_and!; try done; [by exists id|]. rewrite Hlen. intros Hne.
      destruct (decide (Tokens i = subspan (n * bs) bs tokens)); tauto.
  - intros es Hes (es' & x & -> & _ & _ & Hpath & _)%retained_path_snoc.
    apply (Hr es'); [|done]. rewrite length_app in Hes. simpl in Hes. lia.
Qed.

Lemma retained_path_history c bs tokens o es :
  retained_path c bs tokens o es -> tokens <> [] -> from_option history [] o = take (length es * bs) tokens.
Proof.
  revert o. induction es as [|e es IH] using rev_ind; intros o Hp Hne.
  - destruct Hp as (Hid & _). destruct o as [i|]; [|done]. cbn [from_option] in Hid. rewrite chain_unfold in Hid.
    simpl in Hid. symmetry in Hid. by apply app_nil in Hid as [_ ?].
  - destruct o as [i|].
    2: { destruct Hp as (Hid & _). rewrite fmap_app in Hid. by apply app_nil in Hid as [_ ?]. }
    apply retained_path_snoc in Hp as (es' & e' & Heq & Hi & He & Hp & Ht).
    apply app_inj_tail in Heq as [<- <-]. simpl. rewrite history_unfold, (IH _ Hp Hne), (Ht Hne), take_subspan.
    rewrite length_app. simpl. f_equal. lia.
Qed.

(** Endpoint [id] carries the checkpoint [a] of exactly the first [n] tokens: its
    complete lineage [es] is retained and spells them. *)
Definition usable (w : world PrefixCache) (tokens : list Z) (adoptable id n : nat) (a : addr) (es : list Entry) : Prop :=
  exists e x, entries_ (observer w) !! id = Some e /\ checkpoint e = Some a /\
    checkpoints (observer w) !! a = Some x /\ checkpoint_tokens x = n /\ 0 < n <= adoptable /\
    length es * block_size_ (pool w) = n /\
    retained_path (observer w) (block_size_ (pool w)) (take n tokens) (Some (entry_identity e)) es.

Lemma has_path_spec w e n tokens :
  cache_ok w -> parent_held (observer w) (Some (entry_identity e)) -> 0 < n <= length tokens ->
  let bs := block_size_ (pool w) in
  exists r, HasRetainedPhysicalPath e (n / bs) (take n tokens) w = (Ok r, w) /\
    match r with
    | Some bl => exists es, bl = entry_block <$> es /\ length es * bs = n /\
        retained_path (observer w) bs (take n tokens) (Some (entry_identity e)) es
    | None => forall es, length es * bs = n ->
        ~ retained_path (observer w) bs (take n tokens) (Some (entry_identity e)) es
    end.
Proof.
  intros Hw Hh Hn bs. pose proof (pw_block_size _ (ck_pool _ Hw)) as Hbs. fold bs in Hbs.
  unfold HasRetainedPhysicalPath. rewrite (bind_ok (gets pool) _ w (pool w) w) by done. fold bs.
  assert (length (take n tokens) = n) as Hlen by (rewrite length_take; lia).
  assert (take n tokens <> []) as Hne by (intros Hz; rewrite Hz in Hlen; simpl in Hlen; lia).
  rewrite Hlen, Nat.eqb_refl, (bool_decide_false (take n tokens = [])) by done. cbn [negb andb]. rewrite orb_false_r.
  destruct (Nat.eqb_spec (n mod bs) 0) as [Hmod|Hmod]; cbn [negb].
  - destruct (path_walk_spec (take n tokens) (Some (entry_identity e)) (n / bs) [] w Hw Hh) as (r & Hrun & Hr).
    exists r. split; [done|]. pose proof (Nat.Div0.div_exact n bs) as Hx. destruct r as [bl|].
    + destruct Hr as (es & -> & Hl & Hp). exists es. rewrite app_nil_r. split_and!; [done|rewrite Hl; lia|done].
    + intros es Hes. apply Hr. rewrite <- Hes. by rewrite Nat.div_mul by lia.
  - eexists. split; [reflexivity|]. intros es Hes. destruct Hmod. rewrite <- Hes. apply Nat.Div0.mod_mul.
Qed.

Lemma match_endpoints_spec tokens adoptable ids found w :
  cache_ok w -> adoptable <= length tokens ->
  (forall id, id ∈ ids -> id ∈ checkpoint_entries_ (observer w)) ->
  exists r, match_endpoints tokens adoptable ids found w = (Ok r, w) /\
    match_token_count found <= match_token_count r /\
    (r = found \/ exists id n a es, id ∈ ids /\ usable w tokens adoptable id n a es /\
       match_token_count r = n /\ match_handles r = entry_block <$> es /\ match_checkpoint r = Some a) /\
    (forall id n a es, id ∈ ids -> usable w tokens adoptable id n a es -> n <= match_token_count r).
Proof.
  intros Hw Had. pose proof (ck_index _ Hw) as Hi. revert found.
  induction ids as [|id ids IH]; intros found Hin; cbn [match_endpoints].
  { exists found. split_and!; [done|done|by left|by intros id n a es ?%not_elem_of_nil]. }
  assert (forall k, k ∈ ids -> k ∈ checkpoint_entries_ (observer w)) as Hin' by (intros k Hk; apply Hin; by right).
  destruct (proj1 (proj2 (ix_checkpoints _ _ Hi) id) (Hin id ltac:(by left))) as (e & He & [a Ha]).
  rewrite (bind_ok (entry_of id) _ w e w).
  2: { unfold entry_of. rewrite (bind_ok (gets observer) _ w (observer w) w) by done. by rewrite He. }
  rewrite (bind_ok (gets observer) _ w (observer w) w), (bind_ok (gets pool) _ w (pool w) w) by done.
  rewrite Ha. destruct (ix_leases _ _ Hi id e a He Ha) as [x Hx]. rewrite Hx.
  set (n := checkpoint_tokens x).
  assert (forall n' a' es, usable w tokens adoptable id n' a' es -> n' = n /\ a' = a /\
    length es * block_size_ (pool w) = n /\
    retained_path (observer w) (block_size_ (pool w)) (take n tokens) (Some (entry_identity e)) es /\ 0 < n <= adoptable) as Hinv.
  { intros n' a' es (e' & x' & He' & Ha' & Hx' & Hn' & Hb & Hl & Hp). assert (e' = e) as -> by congruence.
    assert (a' = a) as -> by congruence. assert (x' = x) as -> by congruence. unfold n. subst n'. done. }
  destruct (decide (n <= match_token_count found \/ adoptable < n)) as [Hskip|Hgo].
  { assert ((adoptable <? n) || (n <=? match_token_count found) = true) as ->.
    { apply orb_true_iff. rewrite Nat.ltb_lt, Nat.leb_le. tauto. }
    destruct (IH found Hin') as (r & Hrun & Hle & Hr & Hmax). exists r. split_and!; [done|done| |].
    - destruct Hr as [->|(k & n' & a' & es & Hk & Hrest)]; [by left|]. right. exists k, n', a', es. split; [by right|done].
    - intros k n' a' es [->|Hk]%elem_of_cons Hu; [|by eapply Hmax].
      destruct (Hinv _ _ _ Hu) as (-> & _ & _ & _ & Hb). lia. }
  assert ((adoptable <? n) || (n <=? match_token_count found) = false) as ->.
  { apply orb_false_iff. rewrite Nat.ltb_ge, Nat.leb_gt. lia. }
  assert (parent_held (observer w) (Some (entry_identity e))) as Hheld.
  { intros q [= <-]. by apply (ix_entry _ _ Hi _ _ He). }
  destruct (has_path_spec w e n tokens Hw Hheld ltac:(lia)) as (r1 & Hrun1 & Hr1).
  rewrite (bind_ok _ _ _ _ _ Hrun1). destruct r1 as [bl|].
  - destruct Hr1 as (es & -> & Hl & Hp).
    destruct (IH (mkMatch n (entry_block <$> es) (Some a) (live_draft (observer w) e)) Hin') as (r & Hrun & Hle & Hr & Hmax).
    simpl in Hle. exists r. split_and!; [done|lia| |].
    + right. destruct Hr as [->|(k & n' & a' & es' & Hk & Hrest)].
      * exists id, n, a, es. split_and!; [by left| |done..]. exists e, x. split_and!; try done; lia.
      * exists k, n', a', es'. split; [by right|done].
    + intros k n' a' es' [->|Hk]%elem_of_cons Hu; [|by eapply Hmax]. destruct (Hinv _ _ _ Hu) as (-> & _). done.
  - destruct (IH found Hin') as (r & Hrun & Hle & Hr & Hmax). exists r. split_and!; [done|done| |].
    + destruct Hr as [->|(k & n' & a' & es & Hk & Hrest)]; [by left|]. right. exists k, n', a', es. split; [by right|done].
    + intros k n' a' es [->|Hk]%elem_of_cons Hu; [|by eapply Hmax].
      destruct (Hinv _ _ _ Hu) as (-> & _ & Hl & Hp & _). by destruct (Hr1 es Hl).
Qed.

(** C27: A hybrid lookup returns an indivisible hit.  When it matches, the blocks are
    the complete retained lineage of one checkpointed endpoint whose token history is
    exactly the leading [match_token_count] tokens, the attached checkpoint is that
    endpoint's and covers the same tokens; no usable endpoint within the bound covers
    more.  When it reports no match there is no usable endpoint.  It never terminates
    the process, and changes only the metrics. *)
Theorem match_hybrid_correct w tokens max_adoptable :
  cache_ok w -> Enabled (observer w) = true -> requires_checkpoint (options_ (observer w)) = true ->
  let adoptable := min max_adoptable (length tokens) / block_size_ (pool w) * block_size_ (pool w) in
  exists r w', Match tokens max_adoptable w = (Ok r, w') /\ only_metrics w w' /\
    (r = no_match /\ (forall id n a es, id ∈ checkpoint_entries_ (observer w) -> ~ usable w tokens adoptable id n a es) \/
     exists id n a es e, id ∈ checkpoint_entries_ (observer w) /\ usable w tokens adoptable id n a es /\
       match_token_count r = n /\ n <= max_adoptable /\ match_handles r = entry_block <$> es /\
       match_checkpoint r = Some a /\ entries_ (observer w) !! id = Some e /\
       history (entry_identity e) = take n tokens /\
       forall id' n' a' es', id' ∈ checkpoint_entries_ (observer w) -> usable w tokens adoptable id' n' a' es' -> n' <= n).
Proof.
  intros Hw Hen Hreq adoptable. pose proof (pw_block_size _ (ck_pool _ Hw)) as Hbs.
  unfold Match. rewrite (bind_ok (gets observer) _ w (observer w) w), (bind_ok (gets pool) _ w (pool w) w) by done.
  rewrite Hen, Hreq. destruct (Nat.eqb_spec (block_size_ (pool w)) 0) as [|_]; [lia|]. cbn [negb].
  set (w1 := set_observer (set_metrics (bump Lookups 1 (metrics_ (observer w))) (observer w)) w).
  set (w2 := set_observer (set_metrics (bump QueriedTokens (N.of_nat adoptable) (metrics_ (observer w1))) (observer w)) w).
  rewrite (bind_ok (count Lookups 1) _ w tt w1), (bind_ok (count QueriedTokens _) _ w1 tt w2) by done.
  assert (only_metrics w w2) as Hom2 by (by eexists). pose proof (only_metrics_ok _ _ Hw Hom2) as Hw2.
  assert (adoptable <= min max_adoptable (length tokens)) as Had.
  { unfold adoptable. rewrite Nat.mul_comm. apply Nat.Div0.mul_div_le. }
  destruct (match_endpoints_spec tokens adoptable (rev (checkpoint_entries_ (observer w))) no_match w2 Hw2 ltac:(lia))
    as (r & Hrun & _ & Hr & Hmax); [intros id; by rewrite elem_of_rev|].
  rewrite (bind_ok _ _ _ _ _ Hrun). setoid_rewrite elem_of_rev in Hmax.
  assert (forall id n a es, usable w tokens adoptable id n a es <-> usable w2 tokens adoptable id n a es) as Hus.
  { intros. split; intros (e & x & He & Ha & Hx & Hn & Hb & Hl & Hp1 & Hp2 & Hp3); exists e, x; split_and!; try done; lia. }
  setoid_rewrite <- Hus in Hmax. destruct Hr as [->|(id & n & a & es & Hid & Hu & Hn & Hbl & Ha)].
  - exists no_match, w2. split_and!; [done|done|]. left. split; [done|]. intros id n a es Hid Hu.
    pose proof (Hmax id n a es Hid Hu) as Hle. destruct Hu as (e & x & _ & _ & _ & _ & Hb & _). simpl in Hle. lia.
  - rewrite Ha. exists r, (count Matches 1 w2).2. split_and!; [done|by apply only_metrics_count|]. right.
    rewrite elem_of_rev in Hid. apply Hus in Hu. pose proof Hu as (e & x & He & Hc & Hx & Hcn & Hb & Hl & Hp).
    exists id, n, a, es, e. split_and!; try done.
    + lia.
    + assert (take n tokens <> []) as Hne.
      { intros Hz. apply (f_equal length) in Hz. rewrite length_take in Hz. simpl in Hz. lia. }
      pose proof (retained_path_history _ _ _ _ _ Hp Hne) as Hh. simpl in Hh. rewrite Hh, Hl. rewrite take_take. f_equal. lia.
    + intros id' n' a' es' Hid' Hu'. rewrite <- Hn. by eapply Hmax.
Qed.

(** ** Checkpoints and adoption keep the invariant *)

(** Replacing the checkpoints of one entry. *)
Definition with_checkpoints (id : nat) (e : Entry) (cp dr : option addr) (l : list nat) (c : PrefixCache) : PrefixCache :=
  set_checkpoint_entries l (set_entries (<[id := set_checkpoints cp dr e]> (entries_ c)) c).

Lemma insert_exists (E : gmap nat Entry) id e x (P : Entry -> Prop) k :
  E !! id = Some e -> (P x <-> P e) ->
  (exists y, <[id := x]> E !! k = Some y /\ P y) <-> (exists y, E !! k = Some y /\ P y).
Proof.
  intros He HP. destruct (decide (k = id)) as [->|Hne].
  - rewrite lookup_insert_eq, He. naive_solver.
  - by rewrite lookup_insert_ne.
Qed.

Lemma with_checkpoints_index n c id e cp dr l :
  index_ok n c -> entries_ c !! id = Some e -> NoDup l ->
  (forall k, k ∈ l <-> if decide (k = id) then is_Some cp else k ∈ checkpoint_entries_ c) ->
  (forall a, cp = Some a -> is_Some (checkpoints c !! a)) -> length l <= max_checkpoints (options_ c) ->
  index_ok n (with_checkpoints id e cp dr l c).
Proof.
  intros Hc He Hnd Hl Hcp Hlen.
  assert (forall P : Entry -> Prop, (P (set_checkpoints cp dr e) <-> P e) -> forall k,
    (exists y, <[id := set_checkpoints cp dr e]> (entries_ c) !! k = Some y /\ P y) <-> (exists y, entries_ c !! k = Some y /\ P y)) as Hex.
  { intros P HP k. by apply (insert_exists _ id e). }
  destruct Hc as [Hln Hby Hmk Hent [Hr1 Hr2] [Hc1 Hc2] [Hf1 Hf2] [Hh1 Hh2] [Hk1 Hk2] Hls His Hlg Hhs [Hb1 Hb2]].
  assert (forall k, is_Some (<[id := set_checkpoints cp dr e]> (entries_ c) !! k) <-> is_Some (entries_ c !! k)) as Hsome.
  { intros k. destruct (decide (k = id)) as [->|Hne]; [rewrite lookup_insert_eq, He; by split; eexists|by rewrite lookup_insert_ne]. }
  constructor; simpl; try done.
  - intros b x Hx. rewrite (Hby b x Hx). destruct (decide (b = id)) as [->|Hne].
    + by rewrite lookup_insert_eq, He.
    + by rewrite lookup_insert_ne.
  - intros k x. destruct (decide (k = id)) as [->|Hne].
    + rewrite lookup_insert_eq. intros [= <-]. by apply (Hent id e).
    + rewrite lookup_insert_ne by done. apply Hent.
  - split; [done|]. intros k. by rewrite Hsome.
  - split; [done|]. intros k. by rewrite (Hex (fun y => reclaimable y = true)).
  - split; [done|]. intros k. by rewrite (Hex (fun y => reclaimable y = false)).
  - split; [done|]. intros h k. by rewrite (Hex (fun y => bi_hash (entry_identity y) = h)).
  - split; [done|]. intros k. rewrite Hl. case_decide as Hk.
    + subst. rewrite lookup_insert_eq. split; [naive_solver|]. by intros (y & [= <-] & ?).
    + rewrite lookup_insert_ne by done. apply Hk2.
  - intros k x a. destruct (decide (k = id)) as [->|Hne].
    + rewrite lookup_insert_eq. intros [= <-]. apply Hcp.
    + rewrite lookup_insert_ne by done. apply Hls.
  - split; [|done]. by rewrite map_size_insert_Some.
Qed.

Lemma with_checkpoints_ok w id e cp dr l :
  cache_ok w -> entries_ (observer w) !! id = Some e -> NoDup l ->
  (forall k, k ∈ l <-> if decide (k = id) then is_Some cp else k ∈ checkpoint_entries_ (observer w)) ->
  (forall a, cp = Some a -> is_Some (checkpoints (observer w) !! a)) -> length l <= max_checkpoints (options_ (observer w)) ->
  cache_ok (set_observer (with_checkpoints id e cp dr l (observer w)) w).
Proof.
  intros Hw He Hnd Hl Hcp Hlen. apply cache_ok_cache; [done|by apply with_checkpoints_index; [apply Hw|..]|].
  intros k. simpl. destruct (decide (k = id)) as [->|Hne]; [by rewrite lookup_insert_eq, He|by rewrite lookup_insert_ne].
Qed.

Lemma find_unleased_spec c a ids id e :
  find_unleased c a ids = Some (id, e) -> id ∈ ids /\ entries_ c !! id = Some e /\ checkpoint e = Some a.
Proof.
  induction ids as [|k ids IH]; simpl; [done|]. destruct (entries_ c !! k) as [x|] eqn:Hx.
  - destruct (bool_decide (checkpoint x = Some a) && IsCheckpointUnleased c x) eqn:Hb.
    + intros [= <- <-]. apply andb_prop in Hb as [Hb _]. apply bool_decide_eq_true in Hb. split_and!; [by left|done|done].
    + intros H. destruct (IH H) as (? & ? & ?). split_and!; [by right|done|done].
  - intros H. destruct (IH H) as (? & ? & ?). split_and!; [by right|done|done].
Qed.

(** What dropping checkpoints leaves alone. *)
Definition checkpoints_dropped w w' : Prop :=
  cache_ok w' /\ heap w' = heap w /\ pool w' = pool w /\ next_addr w' = next_addr w /\
  options_ (observer w') = options_ (observer w) /\ checkpoints (observer w') = checkpoints (observer w) /\
  identities (observer w') = identities (observer w) /\ logicals (observer w') = logicals (observer w) /\
  (forall id, link <$> entries_ (observer w') !! id = link <$> entries_ (observer w) !! id) /\
  (forall id, id ∈ checkpoint_entries_ (observer w') -> id ∈ checkpoint_entries_ (observer w)).

Lemma checkpoints_dropped_refl w : cache_ok w -> checkpoints_dropped w w.
Proof. intros Hw. unfold checkpoints_dropped. split_and!; done. Qed.

Lemma checkpoints_dropped_trans w1 w2 w3 :
  checkpoints_dropped w1 w2 -> checkpoints_dropped w2 w3 -> checkpoints_dropped w1 w3.
Proof.
  intros (A1 & A2 & A3 & A4 & A5 & A6 & A7 & A8 & A9 & A10) (B1 & B2 & B3 & B4 & B5 & B6 & B7 & B8 & B9 & B10).
  unfold checkpoints_dropped. split_and!; try congruence; auto.
Qed.

Lemma ReclaimCheckpoint_ok w o :
  cache_ok w ->
  exists r w', ReclaimCheckpoint o w = (Ok r, w') /\ checkpoints_dropped w w' /\
    CheckpointCount (observer w') + (if r then 1 else 0) = CheckpointCount (observer w).
Proof.
  intros Hw. pose proof (ix_checkpoints _ _ (ck_index _ Hw)) as [Hnd Hin]. destruct o as [a|]; simpl.
  2: { exists false, w. split_and!; [done|by apply checkpoints_dropped_refl|lia]. }
  unfold ReclaimCheckpoint. rewrite (bind_ok (gets observer) _ w (observer w) w) by done.
  destruct (find_unleased (observer w) a (checkpoint_entries_ (observer w))) as [[id e]|] eqn:Hf.
  2: { exists false, w. split_and!; [done|by apply checkpoints_dropped_refl|lia]. }
  apply find_unleased_spec in Hf as (Hid & He & Ha). set (l := remove_first id (checkpoint_entries_ (observer w))).
  pose proof (remove_first_perm id _ Hid) as Hperm. fold l in Hperm.
  assert (S (length l) = length (checkpoint_entries_ (observer w))) as Hlen by (by rewrite Hperm).
  assert (forall k, k ∈ l <-> k ∈ checkpoint_entries_ (observer w) /\ k <> id) as Hl.
  { intros k. by apply elem_of_remove_first. }
  assert (cache_ok (set_observer (with_checkpoints id e None None l (observer w)) w)) as Hok.
  { apply with_checkpoints_ok; try done.
    - by apply NoDup_remove_first.
    - intros k. rewrite Hl. case_decide; [|tauto]. split; [tauto|by intros []].
    - pose proof (ix_budget _ _ (ck_index _ Hw)). lia. }
  eexists true, _. split; [reflexivity|]. split; [|unfold CheckpointCount; simpl; fold l; lia].
  unfold checkpoints_dropped. split_and!; try done.
  - intros k. simpl. destruct (decide (k = id)) as [->|Hne]; [by rewrite lookup_insert_eq, He|by rewrite lookup_insert_ne].
  - intros k Hk. by apply Hl.
Qed.

Lemma reclaim_checkpoints_ok needed r w :
  cache_ok w ->
  exists r' w', reclaim_checkpoints_loop needed r w = (Ok r', w') /\ checkpoints_dropped w w' /\ r <= r' /\
    CheckpointCount (observer w') + r' = CheckpointCount (observer w) + r.
Proof.
  revert r w. induction needed as [|n IH]; intros r w Hw; simpl.
  { exists r, w. split_and!; [done|by apply checkpoints_dropped_refl|lia|lia]. }
  rewrite (bind_ok (gets observer) _ w (observer w) w) by done.
  destruct (ReclaimableCheckpoint (observer w) None) as [a|].
  2: { exists r, w. split_and!; [done|by apply checkpoints_dropped_refl|lia|lia]. }
  destruct (ReclaimCheckpoint_ok w (Some a) Hw) as (ok & w1 & Hrun & Hd & Hcnt).
  rewrite (bind_ok _ _ _ _ _ Hrun). destruct ok.
  - destruct (IH (S r) w1 ltac:(apply Hd)) as (r' & w' & Hrun' & Hd' & Hle & Hcnt').
    exists r', w'. split_and!; [done|by eapply checkpoints_dropped_trans|lia|lia].
  - exists r, w1. split_and!; [done|done|lia|lia].
Qed.

(** What adoption and attachment leave alone. *)
Definition pool_kept w w' : Prop :=
  cache_ok w' /\ heap w' = heap w /\ pool w' = pool w /\ next_addr w' = next_addr w.

Lemma promote_index n c id e :
  index_ok n c -> entries_ c !! id = Some e ->
  index_ok n (set_entries (<[id := set_flags (reclaimable e) true e]> (entries_ c)) c).
Proof.
  intros Hc He. pose proof (ix_reclaimable _ _ Hc) as [H1 H2]. pose proof (ix_referenced _ _ Hc) as [H3 H4].
  eapply (reordered_index n c); [done|by eapply reordered_flags|apply Hc|done| |done|]; simpl.
  - intros k. by rewrite (insert_exists _ id e _ (fun y => reclaimable y = true)).
  - intros k. by rewrite (insert_exists _ id e _ (fun y => reclaimable y = false)).
Qed.

Lemma adopt_one_ok w a b :
  cache_ok w -> heap w !! a = Some b -> is_Some (identity_ b) ->
  exists w', adopt_one (Some a) w = (Ok tt, w') /\ pool_kept w w'.
Proof.
  intros Hw Ha [i Hi]. pose proof (ck_index _ Hw) as Hix.
  destruct (ck_identity _ Hw _ _ _ Ha Hi) as (e & He & <-). destruct (ck_linked _ Hw _ _ He) as (b' & Hl).
  assert (b' = b) as -> by (pose proof (lk_heap _ _ _ _ Hl); congruence).
  assert (entry_identity e = i) as Hei by (pose proof (lk_identity _ _ _ _ Hl); congruence).
  unfold adopt_one. rewrite (bind_ok _ _ _ _ _ (pool_op_ok _ _ _ _ (deref_ok _ b w Ha))), Hi.
  rewrite (bind_ok (gets observer) _ w (observer w) w) by done.
  assert (FindEntry (observer w) (Some i) = Some (id_ b, e)) as ->.
  { apply (FindEntry_spec _ _ _ _ _ Hix); [|done]. rewrite <- Hei. by apply (ix_entry _ _ Hix _ _ He). }
  rewrite Nat.eqb_refl. cbn [negb]. set (e1 := set_flags (reclaimable e) true e).
  set (c1 := set_entries (<[id_ b := e1]> (entries_ (observer w))) (observer w)).
  set (w1 := set_observer c1 w). rewrite (bind_ok (on_cache _) _ w tt w1) by done.
  assert (index_ok (pool_capacity_ (pool w)) c1) as Hi1 by (by apply promote_index).
  assert (entries_ c1 !! id_ b = Some e1) as He1 by apply lookup_insert_eq.
  destruct (Reorder_reordered _ c1 (id_ b) e1 (bi_parent i) Hi1 He1) as (_ & Hi2 & He2).
  set (c2 := Reorder (id_ b) e1 (bi_parent i) c1) in *.
  rewrite (bind_ok (on_cache _) _ w1 tt (set_observer c2 w)) by done.
  eexists. split; [reflexivity|]. split_and!; try done.
  apply (cache_ok_cache w (PromoteCheckpoint (id_ b) c2)); [done|by apply PromoteCheckpoint_index|]. intros k.
  assert (entries_ (PromoteCheckpoint (id_ b) c2) = entries_ c2) as -> by (unfold PromoteCheckpoint; by case_bool_decide).
  rewrite He2. simpl. destruct (decide (k = id_ b)) as [->|Hne]; [by rewrite lookup_insert_eq, He|by rewrite lookup_insert_ne].
Qed.

Lemma RecordAdoption_ok w blocks :
  cache_ok w ->
  Forall (fun o => exists a b, o = Some a /\ heap w !! a = Some b /\ is_Some (identity_ b)) blocks ->
  exists w', RecordAdoption blocks w = (Ok tt, w') /\ pool_kept w w'.
Proof.
  intros Hw Hbl. unfold RecordAdoption. case_bool_decide; [by exists w|].
  destruct (for_each_inv adopt_one (fun l v => pool_kept w v /\
    Forall (fun o => exists a b, o = Some a /\ heap w !! a = Some b /\ is_Some (identity_ b)) l)) with (l := blocks) (s := w)
    as (w1 & Hrun & (Hok & Hh & Hp & Hn) & _).
  - intros o l v [(Hv & Hh & Hp & Hn) Hl]. apply Forall_cons in Hl as [(a & b & -> & Ha & Hi) Hl].
    destruct (adopt_one_ok v a b Hv ltac:(by rewrite Hh) Hi) as (v' & Hrun & Hok' & Hh' & Hp' & Hn').
    exists v'. split; [done|]. split; [|done]. split_and!; congruence.
  - by split.
  - rewrite (bind_ok _ _ _ _ _ Hrun). rewrite (bind_ok (count Hits 1) _ w1 tt _ eq_refl).
    eexists. split; [reflexivity|]. split_and!; try done. apply (cache_ok_metrics _ _ (cache_ok_metrics _ _ Hok)).
Qed.

(** Making room for one checkpoint. *)
Lemma checkpoint_room w :
  cache_ok w ->
  exists r w1, (if max_checkpoints (options_ (observer w)) <=? CheckpointCount (observer w)
                then n ← ReclaimCheckpoints 1; mret (n =? 0) else mret false) w = (Ok r, w1) /\
    checkpoints_dropped w w1 /\ (r = false -> CheckpointCount (observer w1) < max_checkpoints (options_ (observer w))).
Proof.
  intros Hw. destruct (Nat.leb_spec (max_checkpoints (options_ (observer w))) (CheckpointCount (observer w))) as [Hle|Hgt].
  - destruct (reclaim_checkpoints_ok 1 0 w Hw) as (n & w1 & Hrun & Hd & _ & Hcnt).
    exists (n =? 0), w1. unfold ReclaimCheckpoints. rewrite (bind_ok _ _ _ _ _ Hrun). split_and!; [done|done|].
    intros Hn%Nat.eqb_neq. destruct (ix_budget _ _ (ck_index _ Hw)) as [_ Hb]. unfold CheckpointCount in *. lia.
  - exists false, w. split_and!; [done|by apply checkpoints_dropped_refl|done].
Qed.

Lemma AttachCheckpoint_ok w i a :
  cache_ok w -> held (observer w) i -> is_Some (checkpoints (observer w) !! a) ->
  match AttachCheckpoint (Some i) (Some a) w with
  | (Ok _, w') => pool_kept w w'
  | (Throw _, w') => w' = w
  | _ => False
  end.
Proof.
  intros Hw Hheld [x Hx]. pose proof (ck_index _ Hw) as Hi. unfold AttachCheckpoint.
  rewrite (bind_ok (gets observer) _ w (observer w) w) by done.
  destruct (FindEntry (observer w) (Some i)) as [[id e]|] eqn:Hf; [|by split_and!].
  apply (FindEntry_spec _ _ _ _ _ Hi Hheld) in Hf as [He _].
  destruct (checkpoint e) as [a0|] eqn:Hc; [by split_and!|].
  rewrite (bind_ok (gets pool) _ w (pool w) w), Hx by done. destruct (negb _); [done|].
  destruct (checkpoint_room w Hw) as (r & w1 & Hrun & Hd & Hroom). rewrite (bind_ok _ _ _ _ _ Hrun).
  destruct Hd as (Hw1 & Hh1 & Hp1 & Hn1 & Ho1 & Hcp1 & _ & _ & Hlk1 & Hsub1).
  destruct r; [by split_and!|]. specialize (Hroom eq_refl).
  destruct (link_lookup _ _ _ _ Hlk1 He) as (e1 & He1 & _ & Hid1 & _).
  rewrite (bind_ok (entry_of id) _ w1 e1 w1).
  2: { unfold entry_of. rewrite (bind_ok (gets observer) _ w1 (observer w1) w1) by done. by rewrite He1. }
  set (e2 := set_checkpoints (Some a) (draft_checkpoint e1) e1).
  assert (id ∉ checkpoint_entries_ (observer w1)) as Hnew.
  { intros Hin%Hsub1. apply (ix_checkpoints _ _ Hi) in Hin as (e' & He' & [? ?]). congruence. }
  set (l := checkpoint_entries_ (observer w1) ++ [id]).
  assert (cache_ok (set_observer (with_checkpoints id e1 (Some a) (draft_checkpoint e1) l (observer w1)) w1)) as Hok2.
  { apply with_checkpoints_ok; try done.
    - apply NoDup_app. split_and!; [apply (ix_checkpoints _ _ (ck_index _ Hw1))| |by apply NoDup_singleton].
      by intros k Hk ->%list_elem_of_singleton.
    - intros k. unfold l. rewrite elem_of_app, list_elem_of_singleton. case_decide; [|tauto]. split; [by eexists|tauto].
    - intros a' [= <-]. rewrite Hcp1, Hx. by eexists.
    - unfold l. rewrite length_app, Ho1. simpl. unfold CheckpointCount in Hroom. lia. }
  set (w2 := set_observer _ w1) in Hok2.
  rewrite (bind_ok (on_cache _) _ w1 tt _ eq_refl), (bind_ok (on_cache _) _ _ tt w2) by done.
  assert (entries_ (observer w2) !! id = Some e2) as He2 by apply lookup_insert_eq.
  destruct (Reorder_reordered _ _ id e2 (bi_parent (entry_identity e2)) (ck_index _ Hok2) He2) as (_ & Hi3 & He3).
  rewrite (bind_ok (on_cache _) _ w2 tt _ eq_refl). split_and!; try done.
  apply (cache_ok_cache w2); [done|done|]. intros k. by rewrite He3.
Qed.

(** ** The invariant over all operations *)

Lemma allocate_ok w n mark :
  cache_ok w ->
  match AllocateBlocks_ n mark w with
  | (Ok _, w') => cache_ok w'
  | (Throw _, w') => w' = w
  | _ => False
  end.
Proof.
  intros Hw. pose proof (ck_pool _ Hw) as Hp.
  destruct (decide (BlocksNeeded (pool w) n <= AvailableBlocks (pool w))) as [Hle|Hgt].
  2: { by rewrite (AllocateBlocks_refused n mark w Hp) by lia. }
  destruct (AllocateBlocks_run n mark w Hp Hle) as (h & -> & Hh). pose proof (alloc_world_wf w n mark h Hp Hle Hh) as Hwf.
  pose proof (alloc_world_blocks w n h) as Hbl. unfold alloc_world in *. simpl in Hbl.
  apply (cache_ok_private w); try done.
  - case_bool_decide; apply Hw.
  - by case_bool_decide.
  - intros id e He. destruct (ck_linked _ Hw _ _ He) as (b & Hl). split.
    + rewrite Hh. rewrite decide_False; [done|]. pose proof (pw_fresh _ Hp _ _ (lk_heap _ _ _ _ Hl)). lia.
    + rewrite Hbl. apply insert_slots_lookup_notin. intros Hin. rewrite fst_zip in Hin.
      * apply taken_ids_free in Hin. pose proof (lk_slot _ _ _ _ Hl). congruence.
      * rewrite (taken_ids_length _ _ Hle). unfold new_handles. by rewrite length_seq.
  - intros a b. rewrite Hh. case_decide; [|by left]. intros Hb. right.
    apply new_blocks_lookup in Hb as (i & _ & ->). done.
Qed.

Lemma fill_ok w a b n :
  cache_ok w -> heap w !! a = Some b ->
  match on_block a (AddSlots n) w with
  | (Ok _, w') => cache_ok w'
  | (Throw _, w') => w' = w
  | _ => False
  end.
Proof.
  intros Hw Ha. unfold on_block. rewrite (bind_ok _ _ _ _ _ (deref_ok a b w Ha)). unfold AddSlots.
  destruct (EmptySlots b <? n) eqn:Hlt; [done|]. apply Nat.ltb_ge in Hlt.
  change (cache_ok (set_heap (<[a := set_size (size_ b + n) b]> (heap w)) w)).
  destruct (identity_ b) as [i|] eqn:Hi.
  - destruct (ck_identity _ Hw _ _ _ Ha Hi) as (e & He & <-). destruct (ck_linked _ Hw _ _ He) as (b' & Hl).
    assert (b' = b) as -> by (pose proof (lk_heap _ _ _ _ Hl); congruence).
    pose proof (lk_full _ _ _ _ Hl) as Hf. apply Nat.eqb_eq in Hf. unfold EmptySlots in Hlt.
    replace (set_size (size_ b + n) b) with b by (destruct b; unfold set_size; simpl in *; f_equal; lia).
    unfold set_heap. rewrite insert_id by done. by destruct w.
  - pose proof (unindexed_cookie w a b Hw Ha Hi) as Hk. apply (cache_ok_private w); try done; try apply Hw.
    + eapply pool_wf_update; [apply Hw|done|]. intros id []. constructor; simpl; try done; [unfold EmptySlots in Hlt; lia|congruence].
    + intros id e He. split; [|done]. apply lookup_insert_ne. intros ->. destruct (ck_linked _ Hw _ _ He) as (b' & Hl).
      pose proof (lk_heap _ _ _ _ Hl). pose proof (lk_identity _ _ _ _ Hl). congruence.
    + intros a' b'. destruct (decide (a' = a)) as [->|Hne]; [rewrite lookup_insert_eq; intros [= <-]; by right|].
      rewrite lookup_insert_ne by done. by left.
Qed.

(** Replacing the draft of an entry. *)
Lemma draft_ok w id e dr :
  cache_ok w -> entries_ (observer w) !! id = Some e ->
  cache_ok (set_observer (set_entries (<[id := set_checkpoints (checkpoint e) dr e]> (entries_ (observer w))) (observer w)) w).
Proof.
  intros Hw He. pose proof (ck_index _ Hw) as Hi. pose proof (ix_checkpoints _ _ Hi) as [Hnd Hin].
  replace (set_entries _ (observer w)) with (with_checkpoints id e (checkpoint e) dr (checkpoint_entries_ (observer w)) (observer w))
    by (by destruct (observer w)).
  apply with_checkpoints_ok; try done; [|by intros a Ha; eapply ix_leases|apply Hi].
  intros k. case_decide; [|done]. subst. rewrite Hin. naive_solver.
Qed.

Lemma drop_draft_ok w id : cache_ok w -> cache_ok (set_observer (drop_draft (observer w) id) w).
Proof.
  intros Hw. assert (cache_ok (set_observer (observer w) w)) as Hsame by (by destruct w).
  unfold drop_draft. destruct (entries_ (observer w) !! id) as [e|] eqn:He; [|done].
  destruct (draft_checkpoint e); [|done]. destruct (_ =? 1); [|done]. by apply draft_ok.
Qed.

Lemma drop_drafts_ok w ids : cache_ok w -> cache_ok (set_observer (fold_left drop_draft ids (observer w)) w).
Proof.
  revert w. induction ids as [|id ids IH]; intros w Hw; simpl; [by destruct w|].
  apply (IH (set_observer (drop_draft (observer w) id) w)). by apply drop_draft_ok.
Qed.

Lemma AttachDraft_ok w o fixed d :
  cache_ok w -> parent_held (observer w) o -> is_Some (drafts (observer w) !! d) ->
  match AttachDraftCheckpoint o fixed (Some d) w with
  | (Ok _, w') => pool_kept w w'
  | _ => False
  end.
Proof.
  intros Hw Ho [x Hx]. unfold AttachDraftCheckpoint. rewrite (bind_ok (gets observer) _ w (observer w) w) by done.
  destruct fixed as [a|]; [|by split_and!]. rewrite Hx. destruct (negb _); [by split_and!|].
  destruct (FindEntry (observer w) o) as [[id e]|] eqn:Hf; [|by split_and!].
  case_bool_decide as Hc; cbn [negb]; [|by split_and!]. destruct o as [i|]; [|done].
  apply (FindEntry_spec _ _ _ _ _ (ck_index _ Hw) (Ho i eq_refl)) in Hf as [He _].
  rewrite (bind_ok (on_cache _) _ w tt _ eq_refl). split_and!; try done.
  rewrite <- Hc. by apply draft_ok.
Qed.

(** The calls that requests and the cache manager make, and the steps of the
    fixed-state pools that create checkpoints and take and drop leases on them. *)
Inductive cache_call : Type :=
  | CallAllocate (num_slots : nat) (mark_slots_used : bool)
  | CallFill (a : addr) (slots : nat)
  | CallAddRef (a : addr)
  | CallRelease (a : addr)
  | CallMatch (tokens : list Z) (max_adoptable : nat)
  | CallRegister (a : addr) (tokens : list Z) (parent : option BlockIdentity)
  | CallAdopt (blocks : list addr)
  | CallReclaim (needed : nat)
  | CallAttachCheckpoint (i : BlockIdentity) (cp : addr)
  | CallReclaimCheckpoints (needed : nat)
  | CallAttachDraft (i : BlockIdentity) (fixed draft : addr)
  | CallDropDrafts
  | CallLease (a : addr) (cp : Checkpoint)
  | CallLeaseDraft (a : addr) (d : DraftCheckpoint).

Definition set_lease (a : addr) (cp : Checkpoint) (c : PrefixCache) : PrefixCache :=
  mkPrefixCache (options_ c) (entries_ c) (entries_by_hash_ c) (recency_ c) (referenced_entries_ c)
    (reclaimable_entries_ c) (entries_by_block_id_ c) (leased_ancestry_ c) (checkpoint_entries_ c)
    (metrics_ c) (<[a := cp]> (checkpoints c)) (drafts c) (identities c) (logicals c).
Definition set_draft_lease (a : addr) (d : DraftCheckpoint) (c : PrefixCache) : PrefixCache :=
  mkPrefixCache (options_ c) (entries_ c) (entries_by_hash_ c) (recency_ c) (referenced_entries_ c)
    (reclaimable_entries_ c) (entries_by_block_id_ c) (leased_ancestry_ c) (checkpoint_entries_ c)
    (metrics_ c) (checkpoints c) (<[a := d]> (drafts c)) (identities c) (logicals c).

Definition run_cache_call (c : cache_call) : CM unit :=
  match c with
  | CallAllocate n mark => _ ← pool_op (AllocateBlocks_ n mark); mret tt
  | CallFill a n => pool_op (on_block a (AddSlots n))
  | CallAddRef a => pool_op (AddRef (Some a))
  | CallRelease a => pool_op (Release (Some a))
  | CallMatch tokens n => _ ← Match tokens n; mret tt
  | CallRegister a tokens parent => _ ← Register (Some a) tokens parent; mret tt
  | CallAdopt blocks => RecordAdoption (Some <$> blocks)
  | CallReclaim n => _ ← Reclaim n; mret tt
  | CallAttachCheckpoint i cp => _ ← AttachCheckpoint (Some i) (Some cp); mret tt
  | CallReclaimCheckpoints n => _ ← ReclaimCheckpoints n; mret tt
  | CallAttachDraft i cp d => _ ← AttachDraftCheckpoint (Some i) (Some cp) (Some d); mret tt
  | CallDropDrafts => DropUnleasedDraftCheckpoints
  | CallLease a cp => on_cache (set_lease a cp)
  | CallLeaseDraft a d => on_cache (set_draft_lease a d)
  end.

(** Handles are live, identities are held, and a caller releases only references of
    its own: the cache's reference on an indexed block is not the caller's. *)
Definition cache_call_valid (c : cache_call) w : Prop :=
  match c with
  | CallFill a _ | CallAddRef a | CallRegister a _ _ => is_Some (heap w !! a)
  | CallRelease a => exists b, heap w !! a = Some b /\ (is_Some (identity_ b) -> 1 < ref_count_ b)
  | CallAdopt blocks => Forall (fun a => exists b, heap w !! a = Some b /\ is_Some (identity_ b)) blocks
  | CallAttachCheckpoint i cp => held (observer w) i /\ is_Some (checkpoints (observer w) !! cp)
  | CallAttachDraft i _ d => held (observer w) i /\ is_Some (drafts (observer w) !! d)
  | _ => True
  end /\
  match c with CallRegister _ _ parent => parent_held (observer w) parent | _ => True end.

Lemma Match_safe w tokens n : cache_ok w -> exists r w', Match tokens n w = (Ok r, w') /\ only_metrics w w'.
Proof.
  intros Hw. pose proof (pw_block_size _ (ck_pool _ Hw)) as Hbs. unfold Match.
  rewrite (bind_ok (gets observer) _ w (observer w) w), (bind_ok (gets pool) _ w (pool w) w) by done.
  destruct (negb _); [exists no_match, w; split; [done|apply only_metrics_refl]|].
  destruct (Nat.eqb_spec (block_size_ (pool w)) 0) as [|_]; [lia|].
  set (k := min n (length tokens) / block_size_ (pool w)). set (adoptable := k * block_size_ (pool w)).
  set (w1 := set_observer (set_metrics (bump Lookups 1 (metrics_ (observer w))) (observer w)) w).
  set (w2 := set_observer (set_metrics (bump QueriedTokens (N.of_nat adoptable) (metrics_ (observer w1))) (observer w)) w).
  rewrite (bind_ok (count Lookups 1) _ w tt w1), (bind_ok (count QueriedTokens _) _ w1 tt w2) by done.
  assert (only_metrics w w2) as Hom by (by eexists). pose proof (only_metrics_ok _ _ Hw Hom) as Hw2.
  assert (adoptable <= min n (length tokens)) as Had.
  { unfold adoptable, k. rewrite Nat.mul_comm. apply Nat.Div0.mul_div_le. }
  destruct (requires_checkpoint _).
  - destruct (match_endpoints_spec tokens adoptable (rev (checkpoint_entries_ (observer w))) no_match w2 Hw2 ltac:(lia))
      as (r & Hrun & _); [intros id; by rewrite elem_of_rev|].
    rewrite (bind_ok _ _ _ _ _ Hrun). destruct (match_checkpoint r); [|by exists no_match, w2].
    eexists _, _. split; [reflexivity|]. by apply (only_metrics_count w w2 Matches 1).
  - destruct (match_loop_spec tokens k 0 None [] w2 Hw2 ltac:(done)) as (es & w3 & Hrun & Hom3 & _).
    rewrite (bind_ok _ _ _ _ _ Hrun). pose proof (only_metrics_trans _ _ _ Hom Hom3) as Hom'.
    destruct ([] ++ (entry_block <$> es)); [by exists no_match, w3|].
    eexists _, _. split; [reflexivity|]. by apply (only_metrics_count w w3 Matches 1).
Qed.

Lemma AddRef_ok w a b :
  cache_ok w -> heap w !! a = Some b ->
  match AddRef (Some a) w with
  | (Ok _, w') => cache_ok w'
  | (Throw _, w') => w' = w
  | _ => False
  end.
Proof.
  intros Hw Ha. unfold AddRef. rewrite (bind_ok _ _ _ _ _ (Owns_spec w a b (ck_pool _ Hw) Ha)).
  case_bool_decide as Hs; cbn [negb]; [|done]. rewrite (bind_ok _ _ _ _ _ (deref_ok a b w Ha)).
  destruct (add_ref_at_ok w a b Hw Ha Hs) as (w' & -> & (Hok & _) & _). done.
Qed.

Lemma Release_ok w a b :
  cache_ok w -> heap w !! a = Some b -> (is_Some (identity_ b) -> 1 < ref_count_ b) ->
  match Release (Some a) w with
  | (Ok _, w') => cache_ok w'
  | (Throw _, w') => w' = w
  | _ => False
  end.
Proof.
  intros Hw Ha Hr. unfold Release. rewrite (bind_ok _ _ _ _ _ (Owns_spec w a b (ck_pool _ Hw) Ha)).
  case_bool_decide as Hs; cbn [negb]; [|done]. rewrite (bind_ok _ _ _ _ _ (deref_ok a b w Ha)).
  destruct (identity_ b) as [i|] eqn:Hi.
  - destruct (release_at_shared w a b Hw Ha Hs) as (w' & Hrun & (Hok & _) & _); [by apply Hr; eexists|].
    by rewrite (bind_ok _ _ _ _ _ Hrun).
  - destruct (release_at_private w a b Hw Ha Hs (unindexed_cookie w a b Hw Ha Hi)) as [Hrun Hok].
    rewrite (bind_ok _ _ _ _ _ Hrun). destruct (ref_count_ b =? 1); [|done]. by apply cache_ok_generation in Hok.
Qed.

(** A call that returns or throws in a state satisfying the invariant. *)
Definition safe {E A} (r : outcome E A * world PrefixCache) : Prop :=
  match r with (Ok _, w') | (Throw _, w') => cache_ok w' | _ => False end.

Lemma safe_pool_op {A} (m : M (world PrefixCache) BlockError A) w : safe (m w) -> safe (pool_op m w).
Proof. unfold pool_op, safe. by destruct (m w) as [[]]. Qed.

Lemma safe_ignore {A} (m : CM A) w : safe (m w) -> safe ((_ ← m; mret tt) w).
Proof. unfold mbind, M_bind, safe. by destruct (m w) as [[]]. Qed.

Lemma lease_ok a cp w : cache_ok w -> cache_ok (set_observer (set_lease a cp (observer w)) w).
Proof.
  intros [Hp Ho Hi Hl Hc Hid]. constructor; try done; [by destruct Hp| |].
  - destruct Hi. constructor; try assumption; simpl. intros id e x He Hx.
    destruct (decide (a = x)) as [->|Hne]; [rewrite lookup_insert_eq; by eexists|]. rewrite lookup_insert_ne by done. eauto.
  - intros id e He. destruct (Hl id e He) as [b []]. by exists b.
Qed.

Lemma draft_lease_ok a d w : cache_ok w -> cache_ok (set_observer (set_draft_lease a d (observer w)) w).
Proof.
  intros [Hp Ho Hi Hl Hc Hid]. constructor; try done; [by destruct Hp|by destruct Hi|].
  intros id e He. destruct (Hl id e He) as [b []]. by exists b.
Qed.

Lemma run_cache_call_safe c w : cache_ok w -> cache_call_valid c w -> safe (run_cache_call c w).
Proof.
  intros Hw [Hv Hv']. destruct c; cbn [run_cache_call]; cbn in Hv, Hv'.
  - apply safe_ignore, safe_pool_op. pose proof (allocate_ok w num_slots mark_slots_used Hw) as H. unfold safe.
    destruct (AllocateBlocks_ _ _ w) as [[]]; try done. by subst.
  - destruct Hv as [b Hb]. apply safe_pool_op. pose proof (fill_ok w a b slots Hw Hb) as H. unfold safe.
    destruct (on_block a _ w) as [[]]; try done. by subst.
  - destruct Hv as [b Hb]. apply safe_pool_op. pose proof (AddRef_ok w a b Hw Hb) as H. unfold safe.
    destruct (AddRef _ w) as [[]]; try done. by subst.
  - destruct Hv as (b & Hb & Hr). apply safe_pool_op. pose proof (Release_ok w a b Hw Hb Hr) as H. unfold safe.
    destruct (Release _ w) as [[]]; try done. by subst.
  - apply safe_ignore. destruct (Match_safe w tokens max_adoptable Hw) as (r & w' & -> & Hom). by eapply only_metrics_ok.
  - destruct Hv as [b Hb]. apply safe_ignore. destruct (Enabled (observer w)) eqn:Hen.
    + pose proof (Register_live w a b tokens parent Hw Hb Hv' Hen) as H. unfold safe, registration in *.
      destruct (Register _ _ _ w) as [[]]; try done; [apply H|]. destruct H as [-> _]. done.
    + unfold Register. rewrite (bind_ok (gets observer) _ w (observer w) w) by done. by rewrite Hen.
  - destruct (RecordAdoption_ok w (Some <$> blocks) Hw) as (w' & -> & Hok & _); [|done].
    apply Forall_fmap. eapply Forall_impl; [exact Hv|]. intros a (b & Hb & Hi). by exists a, b.
  - apply safe_ignore. destruct (Reclaim_spec w needed Hw) as (w' & -> & Hrc). apply Hrc.
  - destruct Hv as [Hh Hc]. apply safe_ignore. pose proof (AttachCheckpoint_ok w i cp Hw Hh Hc) as H. unfold safe.
    destruct (AttachCheckpoint _ _ w) as [[]]; try done; [apply H|by subst].
  - apply safe_ignore. destruct (reclaim_checkpoints_ok needed 0 w Hw) as (r & w' & Hrun & Hd & _).
    unfold ReclaimCheckpoints. rewrite Hrun. apply Hd.
  - destruct Hv as [Hh Hd]. apply safe_ignore. pose proof (AttachDraft_ok w (Some i) (Some fixed) draft Hw) as H.
    specialize (H ltac:(by intros p [= <-]) Hd). unfold safe.
    destruct (AttachDraftCheckpoint _ _ _ w) as [[]]; try done. apply H.
  - by apply drop_drafts_ok.
  - by apply lease_ok.
  - by apply draft_lease_ok.
Qed.

(** The states of a cache over a pool of [num_blocks] blocks: the constructor
    registers the cache with the empty pool, then any valid calls follow. *)
Inductive cache_reachable (block_size num_blocks : nat) (options : PrefixCacheOptions) : world PrefixCache -> Prop :=
  | cache_start this w :
      SetReferenceObserver (Some this) (initial_world block_size num_blocks (make_PrefixCache num_blocks options)) = (Ok tt, w) ->
      cache_reachable block_size num_blocks options w
  | cache_step w c r w' :
      cache_reachable block_size num_blocks options w -> cache_call_valid c w -> run_cache_call c w = (r, w') ->
      cache_reachable block_size num_blocks options w'.

Lemma empty_index_ok n options : index_ok n (make_PrefixCache n options).
Proof.
  constructor; simpl; rewrite ?length_replicate; try done.
  - intros b x Hx. by apply lookup_replicate in Hx as [-> _].
  - split; [by constructor|]. intros id. split; [by intros ?%not_elem_of_nil|]. intros [e He]. by rewrite lookup_empty in He.
  - split; [by constructor|]. intros id. split; [by intros ?%not_elem_of_nil|]. intros (e & He & _). by rewrite lookup_empty in He.
  - split; [by constructor|]. intros id. split; [by intros ?%not_elem_of_nil|]. intros (e & He & _). by rewrite lookup_empty in He.
  - split; [by constructor|]. intros h id. split; [by intros ?%not_elem_of_nil|]. intros (e & He & _). by rewrite lookup_empty in He.
  - split; [by constructor|]. intros id. split; [by intros ?%not_elem_of_nil|]. intros (e & He & _). by rewrite lookup_empty in He.
  - rewrite map_size_empty. split; lia.
Qed.

Lemma initial_cache_ok block_size num_blocks options this w :
  0 < block_size ->
  SetReferenceObserver (Some this) (initial_world block_size num_blocks (make_PrefixCache num_blocks options)) = (Ok tt, w) ->
  cache_ok w.
Proof.
  intros Hbs [= <-]. pose proof (initial_world_wf block_size num_blocks (make_PrefixCache num_blocks options) Hbs) as [].
  constructor; [by constructor|by eexists|by apply empty_index_ok|done..].
Qed.

Lemma cache_reachable_ok block_size num_blocks options w :
  0 < block_size -> cache_reachable block_size num_blocks options w -> cache_ok w.
Proof.
  intros Hbs. induction 1 as [this w Hw|w c r w' _ Hw Hv Hrun]; [by eapply initial_cache_ok|].
  pose proof (run_cache_call_safe c w Hw Hv) as Hs. rewrite Hrun in Hs. by destruct r.
Qed.


(** ** A cache in use

    Two blocks of two tokens: one request filled them, registered both, and gave
    them back; a second pool serves a hybrid model whose first block is a
    checkpointed boundary. *)

Definition sample_options (hybrid : bool) : PrefixCacheOptions := mkOptions true 2 hybrid 2 None.

Definition sample_start (hybrid : bool) : world PrefixCache :=
  (SetReferenceObserver (Some 0) (initial_world 2 3 (make_PrefixCache 3 (sample_options hybrid)))).2.

Definition after_call (c : cache_call) (w : world PrefixCache) : world PrefixCache := (run_cache_call c w).2.

Definition identity_at (a : addr) (w : world PrefixCache) : option BlockIdentity := heap w !! a ≫= identity_.

Definition sample_sealed (hybrid : bool) : world PrefixCache :=
  after_call (CallRegister 0 [7; 8]%Z None) (after_call (CallAllocate 4 true) (sample_start hybrid)).

Definition sample_full (hybrid : bool) : world PrefixCache :=
  after_call (CallRegister 1 [9; 10]%Z (identity_at 0 (sample_sealed hybrid))) (sample_sealed hybrid).

Definition sample_retained (hybrid : bool) : world PrefixCache :=
  after_call (CallRelease 1) (after_call (CallRelease 0) (sample_full hybrid)).

Lemma after_call_reachable hybrid c w :
  cache_reachable 2 3 (sample_options hybrid) w -> cache_call_valid c w ->
  cache_reachable 2 3 (sample_options hybrid) (after_call c w).
Proof.
  intros Hw Hv. apply (cache_step _ _ _ w c (run_cache_call c w).1); [done..|]. unfold after_call. by destruct (run_cache_call c w).
Qed.

Lemma sample_sealed_reachable hybrid : cache_reachable 2 3 (sample_options hybrid) (sample_sealed hybrid).
Proof.
  apply after_call_reachable; [apply after_call_reachable; [by apply (cache_start _ _ _ 0)|done]|].
  split; [|done]. destruct hybrid; vm_compute; eauto.
Qed.

Lemma sample_full_reachable hybrid : cache_reachable 2 3 (sample_options hybrid) (sample_full hybrid).
Proof.
  apply after_call_reachable; [apply sample_sealed_reachable|]. split.
  - destruct hybrid; vm_compute; eauto.
  - intros p Hp. destruct hybrid; vm_compute in Hp; injection Hp as <-; vm_compute; reflexivity.
Qed.

Lemma sample_retained_reachable hybrid : cache_reachable 2 3 (sample_options hybrid) (sample_retained hybrid).
Proof.
  apply after_call_reachable; [apply after_call_reachable; [apply sample_full_reachable|]|]; split; try done.
  - destruct hybrid; eexists; (split; [vm_compute; reflexivity|]); intros _; vm_compute; lia.
  - destruct hybrid; eexists; (split; [vm_compute; reflexivity|]); intros _; vm_compute; lia.
Qed.

Lemma sample_retained_ok hybrid : cache_ok (sample_retained hybrid).
Proof. apply (cache_reachable_ok 2 3 (sample_options hybrid)); [lia|apply sample_retained_reachable]. Qed.

(** The hybrid cache after a checkpoint for the first two tokens was attached. *)
Definition sample_leased : world PrefixCache := after_call (CallLease 5 (mkCheckpoint 2 1)) (sample_retained true).
Definition sample_hybrid : world PrefixCache :=
  match identity_at 0 sample_leased with
  | Some i => after_call (CallAttachCheckpoint i 5) sample_leased
  | None => sample_leased
  end.

Lemma sample_hybrid_reachable : cache_reachable 2 3 (sample_options true) sample_hybrid.
Proof.
  assert (cache_reachable 2 3 (sample_options true) sample_leased) as Hl
    by (apply after_call_reachable; [apply sample_retained_reachable|done]).
  unfold sample_hybrid. destruct (identity_at 0 sample_leased) as [i|] eqn:Hi; [|done].
  apply after_call_reachable; [done|]. vm_compute in Hi. injection Hi as <-.
  split; [|done]. split; [vm_compute; reflexivity|vm_compute; eauto].
Qed.

Lemma sample_hybrid_ok : cache_ok sample_hybrid.
Proof. apply (cache_reachable_ok 2 3 (sample_options true)); [lia|apply sample_hybrid_reachable]. Qed.


Lemma reclaim_correct_witness :
  exists (v : list nat) w', Reclaim 5 (sample_retained false) = (Ok (length v), w') /\ length v = 2.
Proof.
  destruct (reclaim_correct (sample_retained false) 5 (sample_retained_ok false)) as (v & w' & Hrun & _ & Hv & _).
  exists v, w'. split; [exact Hrun|]. rewrite Hv. vm_compute. reflexivity.
Defined.

Lemma register_correct_witness :
  exists b, heap (sample_retained false) !! 0 = Some b /\
    registration (sample_retained false) 0 b [7; 8]%Z None (Register (Some 0) [7; 8]%Z None (sample_retained false)).
Proof.
  exact (register_correct (sample_retained false) (Some 0) [7; 8]%Z None (sample_retained_ok false)
    ltac:(done) ltac:(intros a [= <-]; vm_compute; eauto)).
Defined.

(** Both retained blocks match the first four tokens of a five-token prompt. *)
Example sample_prompt_match :
  exists w', Match [7; 8; 9; 10; 11]%Z 5 (sample_retained false) = (Ok (mkMatch 4 [0; 1] None None), w').
Proof. eexists. vm_compute. reflexivity. Qed.

Lemma match_paged_correct_witness :
  exists (es : list Entry) w',
    Match [7; 8; 9; 10; 11]%Z 5 (sample_retained false) =
      (Ok (mkMatch (length es * block_size_ (pool (sample_retained false))) (entry_block <$> es) None None), w') /\
    only_metrics (sample_retained false) w'.
Proof.
  destruct (match_paged_correct (sample_retained false) [7; 8; 9; 10; 11]%Z 5 (sample_retained_ok false)
    ltac:(vm_compute; reflexivity) ltac:(vm_compute; reflexivity)) as (es & w' & Hrun & Hom & _).
  exists es, w'. split; [exact Hrun|exact Hom].
Defined.

Lemma match_hybrid_correct_witness :
  exists r w', Match [7; 8; 9; 10; 11]%Z 5 sample_hybrid = (Ok r, w') /\ only_metrics sample_hybrid w'.
Proof.
  destruct (match_hybrid_correct sample_hybrid [7; 8; 9; 10; 11]%Z 5 sample_hybrid_ok
    ltac:(vm_compute; reflexivity) ltac:(vm_compute; reflexivity)) as (r & w' & Hrun & Hom & _).
  exists r, w'. split; [exact Hrun|exact Hom].
Defined.
