(* ===== verification/Json.v ===== *)
(** * The JSON reader

    Models [json.h] and [json.cpp]: the event parser that reads the configuration
    files.  The document is a list of bytes and [current] the offset of [current_];
    reading at or past the end is undefined behaviour.  An [Element] is a client
    object whose callbacks run on a client state and may throw.  Messages are
    values of an error type with the constructor that throws them.  The recursion of
    the parser is bounded by fuel; [json_total] shows that the fuel [Parse] supplies
    always suffices. *)

From S2P Require Import Prelude StopString.
From Stdlib Require Import SpecFloat.

(** ** Values, errors and callbacks *)

(** The alternatives of [Value], in the order of [value_names]. *)
Inductive Value : Type :=
  | VString (s : bytes)
  | VNumber (d : spec_float)
  | VBool (b : bool)
  | VNull.

Inductive value_kind : Type := KString | KNumber | KBool | KNull.

Definition kind_of (v : Value) : value_kind :=
  match v with VString _ => KString | VNumber _ => KNumber | VBool _ => KBool | VNull => KNull end.

(** What a [std::runtime_error] says. *)
Inductive message : Type :=
  | UnexpectedEnd
  | ExpectingName
  | ExpectingColon
  | ExpectingBraceOrComma
  | ExpectingBracketOrComma
  | ExpectingNumber
  | EndOfUnicodeEscape
  | BadUnicodeEscape
  | UnescapedControl
  | InvalidSurrogatePair
  | InvalidEscape
  | UnknownValueName (name : bytes)
  | ExpectedKind (name : bytes) (expected seen : value_kind)
  | InValue (name : bytes) (m : message)
  | JsonError (m : message) (line index : nat)
  | StdWhat
  | Said (text : bytes).

Inductive exn : Type :=
  | runtime_error (m : message)
  | unknown_value_error
  | type_mismatch (seen expected : value_kind)
  | other_std_exception
  | other_exception.

(** [JSON::Get<T>], for each alternative [T]. *)
Definition get_string (v : Value) : outcome exn bytes :=
  match v with VString s => Ok s | _ => Throw (type_mismatch (kind_of v) KString) end.
Definition get_number (v : Value) : outcome exn spec_float :=
  match v with VNumber d => Ok d | _ => Throw (type_mismatch (kind_of v) KNumber) end.
Definition get_bool (v : Value) : outcome exn bool :=
  match v with VBool b => Ok b | _ => Throw (type_mismatch (kind_of v) KBool) end.

(** The interface [Element]: [H] are the element objects, [S] their state. *)
Class Element (H S : Type) : Type :=
  { OnComplete : H -> bool -> M S exn unit;
    OnValue : H -> bytes -> Value -> M S exn unit;
    OnArray : H -> bytes -> M S exn H;
    OnObject : H -> bytes -> M S exn H }.

(** ** Numbers

    [std::from_chars] for a double: the longest prefix of the form digits, point,
    digits, exponent, or an infinity or NaN, without a leading plus; the value is the
    exact decimal, rounded to nearest even. *)

Definition is_digit (c : byte) : bool := (48 <=? c)%N && (c <=? 57)%N.

Fixpoint span_digits (l : bytes) : bytes :=
  match l with
  | c :: l => if is_digit c then c :: span_digits l else []
  | [] => []
  end.

Definition digits_value (l : bytes) : N := fold_left (fun n c => (10 * n + (c - 48))%N) l 0%N.

Inductive scanned : Type :=
  | Decimal (mantissa : N) (exponent : Z)
  | Infinite
  | NotANumber.

Definition lower (c : byte) : byte := if (65 <=? c)%N && (c <=? 90)%N then (c + 32)%N else c.

Fixpoint matches_word (word l : bytes) : bool :=
  match word, l with
  | [], _ => true
  | w :: word, c :: l => (w =? lower c)%N && matches_word word l
  | _, [] => false
  end.

(** ["inf"], ["infinity"], ["nan"] *)
Definition word_inf : bytes := [105; 110; 102]%N.
Definition word_infinity : bytes := [105; 110; 102; 105; 110; 105; 116; 121]%N.
Definition word_nan : bytes := [110; 97; 110]%N.

(** The optional exponent: its value and the number of bytes it takes. *)
Definition scan_exponent (l : bytes) : Z * nat :=
  match l with
  | e :: l =>
    if ((e =? 101) || (e =? 69))%N then
      let '(negative, sign, rest) :=
        match l with
        | c :: r => if (c =? 45)%N then (true, 1, r) else if (c =? 43)%N then (false, 1, r) else (false, 0, l)
        | [] => (false, 0, l)
        end in
      match span_digits rest with
      | [] => (0%Z, 0)
      | ds => ((if negative : bool then - Z.of_N (digits_value ds) else Z.of_N (digits_value ds))%Z,
               1 + sign + length ds)
      end
    else (0%Z, 0)
  | [] => (0%Z, 0)
  end.

(** The part after the sign. *)
Definition scan_unsigned (l : bytes) : option (scanned * nat) :=
  let int := span_digits l in
  let rest := drop (length int) l in
  let '(frac, point) :=
    match rest with
    | c :: r => if (c =? 46)%N then (span_digits r, 1) else ([], 0)
    | [] => ([], 0)
    end in
  if (length int + length frac =? 0) then
    if matches_word word_infinity l then Some (Infinite, 8)
    else if matches_word word_inf l then Some (Infinite, 3)
    else if matches_word word_nan l then Some (NotANumber, 3)
    else None
  else
    let taken := length int + point + length frac in
    let '(e, n) := scan_exponent (drop taken l) in
    Some (Decimal (digits_value (int ++ frac)) (e - Z.of_nat (length frac)), taken + n).

Definition binary64_of_decimal (negative : bool) (m : N) (e : Z) : spec_float :=
  match m with
  | N0 => S754_zero negative
  | Npos p =>
    if (0 <=? e)%Z then
      match (Z.pos p * 10 ^ e)%Z with
      | Z.pos q => binary_round 53 1024 negative q 0
      | _ => S754_nan
      end
    else
      match (10 ^ (- e))%Z with
      | Z.pos q =>
        let '(mz, ez, loc) := SFdiv_core_binary 53 1024 (Z.pos p) 0 (Z.pos q) 0 in
        binary_round_aux 53 1024 negative mz ez loc
      | _ => S754_nan
      end
  end.

(** [None] is [std::errc::result_out_of_range]. *)
Definition in_range (m : N) (d : spec_float) : option spec_float :=
  match d with
  | S754_infinity _ => None
  | S754_zero _ => if (m =? 0)%N then Some d else None
  | _ => Some d
  end.

Definition from_chars (l : bytes) : option (spec_float * nat) :=
  let '(negative, sign, rest) :=
    match l with
    | c :: r => if (c =? 45)%N then (true, 1, r) else (false, 0, l)
    | [] => (false, 0, l)
    end in
  match scan_unsigned rest with
  | Some (Decimal m e, n) => d ← in_range m (binary64_of_decimal negative m e); Some (d, sign + n)
  | Some (Infinite, n) => Some (S754_infinity negative, sign + n)
  | Some (NotANumber, n) => Some (S754_nan, sign + n)
  | None => None
  end.

(** [std::from_chars(current_, current_ + 4, value, 16)] that takes all four bytes. *)
Definition hex_digit (c : byte) : option N :=
  if is_digit c then Some (c - 48)%N
  else if ((97 <=? c) && (c <=? 102))%N then Some (c - 87)%N
  else if ((65 <=? c) && (c <=? 70))%N then Some (c - 55)%N
  else None.

Definition hex4 (l : bytes) : option N :=
  match l with
  | [a; b; c; d] =>
    a ← hex_digit a; b ← hex_digit b; c ← hex_digit c; d ← hex_digit d;
    Some (4096 * a + 256 * b + 16 * c + d)%N
  | _ => None
  end.

(** ** UTF-8 *)

Definition to_char (n : N) : byte := (n mod 256)%N.

Definition Append_Utf8 (output : bytes) (codepoint : N) : bytes :=
  if (codepoint <=? 0x7f)%N then output ++ [to_char codepoint]
  else if (codepoint <=? 0x7ff)%N then
    output ++ [to_char (N.lor 0xc0 (N.shiftr codepoint 6)); to_char (N.lor 0x80 (N.land codepoint 0x3f))]
  else if (codepoint <=? 0xffff)%N then
    output ++ [to_char (N.lor 0xe0 (N.shiftr codepoint 12));
               to_char (N.lor 0x80 (N.land (N.shiftr codepoint 6) 0x3f));
               to_char (N.lor 0x80 (N.land codepoint 0x3f))]
  else
    output ++ [to_char (N.lor 0xf0 (N.shiftr codepoint 18));
               to_char (N.lor 0x80 (N.land (N.shiftr codepoint 12) 0x3f));
               to_char (N.lor 0x80 (N.land (N.shiftr codepoint 6) 0x3f));
               to_char (N.lor 0x80 (N.land codepoint 0x3f))].

(** ** The parser *)

Record parser (S : Type) : Type := mkParser
  { current : nat;
    elements : S }.
Arguments mkParser {S} _ _.
Arguments current {S} _.
Arguments elements {S} _.

Definition is_space (c : byte) : bool := ((c =? 0x20) || (c =? 9) || (c =? 0xD) || (c =? 0xA))%N.

Fixpoint spaces (l : bytes) : nat :=
  match l with
  | c :: l => if is_space c then S (spaces l) else 0
  | [] => 0
  end.

Section Parser.
Context {H S : Type} `{Element H S}.
Variable document : bytes.

Abbreviation JM := (M (parser S) exn).

(** A callback runs on the client state. *)
Definition callback {A} (m : M S exn A) : JM A := fun s =>
  match m (elements s) with (r, st) => (r, mkParser (current s) st) end.

Definition seek (n : nat) : JM unit := modify (fun s => mkParser n (elements s)).

(** [*p], undefined outside the document. *)
Definition char_at_offset (n : nat) : JM byte :=
  match document !! n with Some c => mret c | None => undefined end.

Definition SkipChar (c : byte) : JM bool :=
  n ← gets current;
  if n =? length document then mret false
  else
    d ← char_at_offset n;
    if negb (d =? c)%N then mret false else _ ← seek (n + 1); mret true.

(** [Skip] of a literal. *)
Definition SkipLiteral (sz : bytes) : JM bool :=
  n ← gets current;
  if (length document <=? n + length sz) || negb (bool_decide (take (length sz) (drop n document) = sz))
  then mret false
  else _ ← seek (n + length sz); mret true.

Definition GetChar : JM byte :=
  n ← gets current;
  if n =? length document then throw (runtime_error UnexpectedEnd)
  else c ← char_at_offset n; _ ← seek (n + 1); mret c.

Definition Parse_Whitespace : JM unit :=
  n ← gets current; seek (n + spaces (drop n document)).

Definition Parse_Number : JM spec_float :=
  n ← gets current;
  match from_chars (drop n document) with
  | Some (value, count) => _ ← seek (n + count); mret value
  | None => throw (runtime_error ExpectingNumber)
  end.

Definition Parse_Hex4 : JM N :=
  n ← gets current;
  if length document <? n + 4 then throw (runtime_error EndOfUnicodeEscape)
  else
    match hex4 (take 4 (drop n document)) with
    | Some value => _ ← seek (n + 4); mret value
    | None => throw (runtime_error BadUnicodeEscape)
    end.

(** The code point of a [\u] escape after its [u]. *)
Definition Parse_Codepoint : JM N :=
  codepoint ← Parse_Hex4;
  if ((0xd800 <=? codepoint) && (codepoint <=? 0xdbff))%N then
    b ← SkipChar 92%N;
    u ← (if b : bool then SkipChar 117%N else mret false);
    if negb u then throw (runtime_error InvalidSurrogatePair)
    else
      low ← Parse_Hex4;
      if ((low <? 0xdc00) || (0xdfff <? low))%N then throw (runtime_error InvalidSurrogatePair)
      else mret (0x10000 + N.shiftl (codepoint - 0xd800) 10 + (low - 0xdc00))%N
  else if ((0xdc00 <=? codepoint) && (codepoint <=? 0xdfff))%N then throw (runtime_error InvalidSurrogatePair)
  else mret codepoint.

(** The character a one-letter escape stands for. *)
Definition simple_escape (c : byte) : option byte :=
  if ((c =? 34) || (c =? 92) || (c =? 47))%N then Some c
  else if (c =? 98)%N then Some 8%N
  else if (c =? 110)%N then Some 10%N
  else if (c =? 102)%N then Some 12%N
  else if (c =? 114)%N then Some 13%N
  else if (c =? 116)%N then Some 9%N
  else None.

Fixpoint string_loop (fuel : nat) (string : bytes) : JM bytes :=
  match fuel with
  | O => undefined
  | Datatypes.S fuel =>
    c ← GetChar;
    if (c =? 34)%N then mret string
    else if (c <? 0x20)%N then throw (runtime_error UnescapedControl)
    else if (c =? 92)%N then
      c ← GetChar;
      if (c =? 117)%N then codepoint ← Parse_Codepoint; string_loop fuel (Append_Utf8 string codepoint)
      else
        match simple_escape c with
        | Some c => string_loop fuel (string ++ [c])
        | None => throw (runtime_error InvalidEscape)
        end
    else string_loop fuel (string ++ [c])
  end.

Definition Parse_String : JM bytes := string_loop (length document + 1) [].

Definition TranslateException (name : bytes) (e : exn) : exn :=
  match e with
  | unknown_value_error => runtime_error (UnknownValueName name)
  | type_mismatch seen expected => runtime_error (ExpectedKind name expected seen)
  | _ => e
  end.

(** The handlers of [Parse_Value]. *)
Definition value_error (name : bytes) (e : exn) : exn :=
  match e with
  | runtime_error m => match name with [] => e | _ => runtime_error (InValue name m) end
  | _ => TranslateException name e
  end.

Definition catch {A} (m : JM A) (handler : exn -> exn) : JM A := fun s =>
  match m s with (Throw e, s') => (Throw (handler e), s') | r => r end.

(** ["rue"], ["alse"], ["ull"] *)
Definition lit_true : bytes := [114; 117; 101]%N.
Definition lit_false : bytes := [97; 108; 115; 101]%N.
Definition lit_null : bytes := [117; 108; 108]%N.

Definition Parse_Object (loop : H -> JM unit) (element : H) : JM unit :=
  _ ← Parse_Whitespace;
  closed ← SkipChar 125%N;
  if closed : bool then callback (OnComplete element true) else loop element.

Definition Parse_Array (loop : H -> JM unit) (element : H) : JM unit :=
  _ ← Parse_Whitespace;
  closed ← SkipChar 93%N;
  if closed : bool then callback (OnComplete element true) else loop element.

(** The switch of [Parse_Value], given the loops over members and items. *)
Definition value_switch (members items : H -> JM unit) (element : H) (name : bytes) : JM unit :=
  c ← GetChar;
  if (c =? 123)%N then object ← callback (OnObject element name); Parse_Object members object
  else if (c =? 91)%N then array ← callback (OnArray element name); Parse_Array items array
  else if (c =? 34)%N then s ← Parse_String; callback (OnValue element name (VString s))
  else if (c =? 116)%N then
    b ← SkipLiteral lit_true; if b : bool then callback (OnValue element name (VBool true)) else mret tt
  else if (c =? 102)%N then
    b ← SkipLiteral lit_false; if b : bool then callback (OnValue element name (VBool false)) else mret tt
  else if (c =? 110)%N then
    b ← SkipLiteral lit_null; if b : bool then callback (OnValue element name VNull) else mret tt
  else if is_digit c || (c =? 45)%N then
    n ← gets current; _ ← seek (n - 1);
    d ← Parse_Number; callback (OnValue element name (VNumber d))
  else throw unknown_value_error.

Fixpoint Parse_Value (fuel : nat) (element : H) (name : bytes) : JM unit :=
  match fuel with
  | O => undefined
  | Datatypes.S fuel =>
    _ ← Parse_Whitespace;
    _ ← catch (value_switch (object_loop fuel) (array_loop fuel) element name) (value_error name);
    Parse_Whitespace
  end
with object_loop (fuel : nat) (element : H) : JM unit :=
  match fuel with
  | O => undefined
  | Datatypes.S fuel =>
    quote ← SkipChar 34%N;
    if negb quote then throw (runtime_error ExpectingName)
    else
      name ← Parse_String;
      _ ← Parse_Whitespace;
      c ← GetChar;
      if negb (c =? 58)%N then throw (runtime_error ExpectingColon)
      else
        _ ← Parse_Value fuel element name;
        c ← GetChar;
        if (c =? 44)%N then _ ← Parse_Whitespace; object_loop fuel element
        else if (c =? 125)%N then callback (OnComplete element false)
        else throw (runtime_error ExpectingBraceOrComma)
  end
with array_loop (fuel : nat) (element : H) : JM unit :=
  match fuel with
  | O => undefined
  | Datatypes.S fuel =>
    _ ← Parse_Value fuel element [];
    c ← GetChar;
    if (c =? 44)%N then array_loop fuel element
    else if (c =? 93)%N then callback (OnComplete element false)
    else throw (runtime_error ExpectingBracketOrComma)
  end.

(** The line of the error and its distance from the last line feed, counted over the
    bytes before [current_]. *)
Fixpoint locate (l : bytes) (offset line last_cr : nat) : nat * nat :=
  match l with
  | [] => (line, offset - last_cr)
  | c :: l => if (c =? 10)%N then locate l (offset + 1) (line + 1) offset else locate l (offset + 1) line last_cr
  end.

Definition error_location (n : nat) : nat * nat := locate (take n document) 0 1 0.

(** The handler of the constructor: only exceptions that derive from [std::exception]
    get a location. *)
Definition document_error (n : nat) (e : exn) : exn :=
  let '(line, index) := error_location n in
  match e with
  | runtime_error m => runtime_error (JsonError m line index)
  | unknown_value_error | other_std_exception => runtime_error (JsonError StdWhat line index)
  | type_mismatch _ _ | other_exception => e
  end.

Definition JSON (element : H) : JM unit := fun s =>
  match (_ ← Parse_Value (2 * length document + 2) element []; callback (OnComplete element false)) s with
  | (Throw e, s') => (Throw (document_error (current s') e), s')
  | r => r
  end.
End Parser.

Definition Parse {H S} `{Element H S} (element : H) (document : bytes) : M S exn unit := fun st =>
  match JSON document element (mkParser 0 st) with (r, s) => (r, elements s) end.

(** ** A recording client *)

Inductive event : Type :=
  | EObject (name : bytes)
  | EArray (name : bytes)
  | EValue (name : bytes) (v : Value)
  | EComplete (empty : bool).

#[global] Instance recorder : Element unit (list event) :=
  { OnComplete := fun _ empty => modify (fun l => l ++ [EComplete empty]);
    OnValue := fun _ name v => modify (fun l => l ++ [EValue name v]);
    OnArray := fun _ name l => (Ok tt, l ++ [EArray name]);
    OnObject := fun _ name l => (Ok tt, l ++ [EObject name]) }.

(** ** Totality and memory safety *)

Section Totality.
Context {H S : Type} `{Element H S}.
Variable document : bytes.
Implicit Types s : parser S.

(** A computation that starts with at most [r] bytes left returns after taking at
    least [k] of them, or throws; it stays inside the document. *)
Definition consumes {A} (r k : nat) (m : M (parser S) exn A) : Prop :=
  forall s, current s <= length document -> length document - current s <= r ->
    match m s with
    | (Ok _, s') => current s + k <= current s' <= length document
    | (Throw _, s') => current s' <= length document
    | _ => False
    end.

Lemma consumes_ret {A} r (a : A) : consumes r 0 (mret a).
Proof. intros s Hs Hr. simpl. lia. Qed.

Lemma consumes_throw {A} r k e : consumes r k (throw (A := A) e).
Proof. intros s Hs Hr. simpl. lia. Qed.

Lemma consumes_bind {A B} r k1 k2 (m : M (parser S) exn A) (f : A -> M (parser S) exn B) :
  consumes r k1 m -> (k1 <= r -> forall a, consumes (r - k1) k2 (f a)) -> consumes r (k1 + k2) (m ≫= f).
Proof.
  intros Hm Hf s Hs Hr. specialize (Hm s Hs Hr). unfold mbind, M_bind.
  destruct (m s) as [[a|e| |] s1]; try done.
  specialize (Hf ltac:(lia) a s1 ltac:(lia) ltac:(lia)). destruct (f a s1) as [[b|e| |] s2]; try done. lia.
Qed.

Lemma consumes_weaken {A} r r' k k' (m : M (parser S) exn A) :
  consumes r k m -> r' <= r -> k' <= k -> consumes r' k' m.
Proof.
  intros Hm Hr Hk s Hs Hs'. specialize (Hm s Hs ltac:(lia)). destruct (m s) as [[a|e| |] s1]; try done. lia.
Qed.

(** After [k1] bytes, possibly none, the rest still has to take [k]. *)
Lemma consumes_then {A B} r k1 k (m : M (parser S) exn A) (f : A -> M (parser S) exn B) :
  consumes r k1 m -> (k1 <= r -> forall a, consumes (r - k1) (k - k1) (f a)) -> consumes r k (m ≫= f).
Proof. intros Hm Hf. eapply consumes_weaken; [by apply (consumes_bind r k1 (k - k1))|lia..]. Qed.

Lemma consumes_catch {A} r k (m : M (parser S) exn A) h : consumes r k m -> consumes r k (catch m h).
Proof. intros Hm s Hs Hr. specialize (Hm s Hs Hr). unfold catch. by destruct (m s) as [[]]. Qed.

Lemma drop_cons_lookup n : n < length document -> exists c l, document !! n = Some c /\ drop n document = c :: l.
Proof.
  intros Hn. destruct (lookup_lt_is_Some_2 _ _ Hn) as [c Hc]. exists c, (drop (Datatypes.S n) document).
  split; [done|]. by apply drop_S.
Qed.

Lemma consumes_GetChar r : consumes r 1 (GetChar document).
Proof.
  intros s Hs Hr. unfold GetChar, char_at_offset. unfold_m.
  destruct (Nat.eqb_spec (current s) (length document)); [done|].
  destruct (drop_cons_lookup (current s) ltac:(lia)) as (c & l & -> & _). simpl. lia.
Qed.

Lemma consumes_SkipChar r c : consumes r 0 (SkipChar document c).
Proof.
  intros s Hs Hr. unfold SkipChar, char_at_offset. unfold_m.
  destruct (Nat.eqb_spec (current s) (length document)); simpl; [lia|].
  destruct (drop_cons_lookup (current s) ltac:(lia)) as (d & l & -> & _). destruct (negb _); simpl; lia.
Qed.

Lemma consumes_SkipLiteral r sz : consumes r 0 (SkipLiteral document sz).
Proof.
  intros s Hs Hr. unfold SkipLiteral. unfold_m. destruct (Nat.leb_spec (length document) (current s + length sz));
    simpl; [lia|]. destruct (negb _); simpl; lia.
Qed.

Lemma spaces_le l : spaces l <= length l.
Proof. induction l as [|c l IH]; simpl; [lia|]. destruct (is_space c); lia. Qed.

Lemma consumes_Whitespace r : consumes r 0 (Parse_Whitespace document).
Proof.
  intros s Hs Hr. unfold Parse_Whitespace. unfold_m. pose proof (spaces_le (drop (current s) document)) as Hl.
  rewrite length_drop in Hl. lia.
Qed.

Lemma span_digits_le l : length (span_digits l) <= length l.
Proof. induction l as [|c l IH]; simpl; [lia|]. destruct (is_digit c); simpl; lia. Qed.

Lemma scan_exponent_le l : (scan_exponent l).2 <= length l.
Proof.
  destruct l as [|e l]; simpl; [lia|]. destruct (_ || _); [|simpl; lia].
  destruct l as [|c r]; simpl; [lia|]. pose proof (span_digits_le r). pose proof (span_digits_le (c :: r)) as Hc.
  destruct (c =? 45)%N; [destruct (span_digits r); simpl in *; lia|].
  destruct (c =? 43)%N; [destruct (span_digits r); simpl in *; lia|].
  change (length (span_digits (c :: r)) <= Datatypes.S (length r)) in Hc. simpl in Hc |- *.
  destruct (is_digit c); simpl in *; lia.
Qed.

Lemma matches_word_length word l : matches_word word l = true -> length word <= length l.
Proof.
  revert l. induction word as [|w word IH]; intros l Hm; simpl in *; [lia|]. destruct l as [|c l]; [done|].
  apply andb_true_iff in Hm as [_ Hm]. specialize (IH l Hm). simpl. lia.
Qed.

Lemma scan_unsigned_bounds l v n : scan_unsigned l = Some (v, n) -> 0 < n <= length l.
Proof.
  unfold scan_unsigned. pose proof (span_digits_le l) as Hi. remember (span_digits l) as int eqn:Eint. clear Eint.
  destruct (match drop (length int) l with [] => _ | _ => _ end) as [frac point] eqn:Ef.
  assert (length int + point + length frac <= length l) as Hlen.
  { destruct (drop (length int) l) as [|c r] eqn:Ed; [simplify_eq; simpl; lia|].
    assert (length (c :: r) = length l - length int) as Hr by (by rewrite <- Ed, length_drop). simpl in Hr.
    destruct (c =? 46)%N; simplify_eq; simpl; [|lia]. pose proof (span_digits_le r). lia. }
  destruct (Nat.eqb_spec (length int + length frac) 0).
  - destruct (matches_word word_infinity l) eqn:E1; [intros [= <- <-]; apply matches_word_length in E1; simpl in E1; lia|].
    destruct (matches_word word_inf l) eqn:E2; [intros [= <- <-]; apply matches_word_length in E2; simpl in E2; lia|].
    destruct (matches_word word_nan l) eqn:E3; [intros [= <- <-]; apply matches_word_length in E3; simpl in E3; lia|done].
  - pose proof (scan_exponent_le (drop (length int + point + length frac) l)) as He. rewrite length_drop in He.
    destruct (scan_exponent _) as [e k]. intros [= <- <-]. simpl in He. lia.
Qed.

Lemma from_chars_bounds l d n : from_chars l = Some (d, n) -> 0 < n <= length l.
Proof.
  unfold from_chars. assert (forall neg k r, length r + k = length l -> k <= 1 ->
    match scan_unsigned r with
    | Some (Decimal m e, n) => d ← in_range m (binary64_of_decimal neg m e); Some (d, k + n)
    | Some (Infinite, n) => Some (S754_infinity neg, k + n)
    | Some (NotANumber, n) => Some (S754_nan, k + n)
    | None => None
    end = Some (d, n) -> 0 < n <= length l) as Hscan.
  { intros neg k r Hl Hk. destruct (scan_unsigned r) as [[v i]|] eqn:E; [|done].
    apply scan_unsigned_bounds in E. destruct v; simpl; [destruct (in_range _ _); simpl|..]; intros; simplify_eq; lia. }
  destruct l as [|c r]; [apply Hscan; simpl; lia|]. destruct (c =? 45)%N; apply Hscan; simpl; lia.
Qed.

Lemma consumes_Number r : consumes r 1 (Parse_Number document).
Proof.
  intros s Hs Hr. unfold Parse_Number. unfold_m. destruct (from_chars _) as [[d n]|] eqn:E; simpl; [|lia].
  apply from_chars_bounds in E. rewrite length_drop in E. lia.
Qed.

Lemma consumes_Hex4 r : consumes r 0 (Parse_Hex4 document).
Proof.
  intros s Hs Hr. unfold Parse_Hex4. unfold_m. destruct (Nat.ltb_spec (length document) (current s + 4)); [done|].
  destruct (hex4 _); simpl; lia.
Qed.

Lemma consumes_Codepoint r : consumes r 0 (Parse_Codepoint document).
Proof.
  unfold Parse_Codepoint. apply (consumes_then r 0 0); [apply consumes_Hex4|]. intros _ cp.
  destruct (_ && _).
  - apply (consumes_then _ 0); [apply consumes_SkipChar|]. intros _ b.
    apply (consumes_then _ 0); [destruct b; [apply consumes_SkipChar|apply consumes_ret]|]. intros _ u.
    destruct (negb u); [apply consumes_throw|]. apply (consumes_then _ 0); [apply consumes_Hex4|]. intros _ low.
    destruct (_ || _); [apply consumes_throw|]. eapply consumes_weaken; [apply consumes_ret|done|lia].
  - destruct (_ && _); [apply consumes_throw|]. eapply consumes_weaken; [apply consumes_ret|done|lia].
Qed.

Lemma consumes_string_loop fuel acc : consumes (fuel - 1) 0 (string_loop document fuel acc) \/ fuel = 0.
Proof.
  revert acc. induction fuel as [|fuel IH]; intros acc; [by right|]. left. cbn [string_loop].
  assert (forall acc, consumes (fuel - 1) 0 (string_loop document fuel acc) \/ fuel = 0) as IH' by (intros; apply IH).
  intros s Hs Hr. destruct (decide (fuel = 0)) as [->|Hf].
  { unfold GetChar. unfold_m. destruct (Nat.eqb_spec (current s) (length document)); [done|lia]. }
  revert s Hs Hr. change (consumes (Datatypes.S fuel - 1) 0 (c ← GetChar document; if (c =? 34)%N then mret acc
    else if (c <? 0x20)%N then throw (runtime_error UnescapedControl) else if (c =? 92)%N then
      c ← GetChar document; if (c =? 117)%N then cp ← Parse_Codepoint document; string_loop document fuel (Append_Utf8 acc cp)
      else match simple_escape c with Some c => string_loop document fuel (acc ++ [c])
           | None => throw (runtime_error InvalidEscape) end
    else string_loop document fuel (acc ++ [c]))).
  assert (forall k acc, consumes (Datatypes.S fuel - 1 - 1 - k) 0 (string_loop document fuel acc)) as Hrec.
  { intros k acc'. destruct (IH' acc') as [Hl|]; [|done]. eapply consumes_weaken; [exact Hl|lia..]. }
  apply (consumes_then _ 1); [apply consumes_GetChar|]. intros _ c. destruct (c =? 34)%N; [apply consumes_ret|].
  destruct (c <? 0x20)%N; [apply consumes_throw|]. destruct (c =? 92)%N.
  2: { specialize (Hrec 0 (acc ++ [c])). by rewrite Nat.sub_0_r in Hrec. }
  apply (consumes_then _ 1); [apply consumes_GetChar|]. intros _ c'. destruct (c' =? 117)%N.
  - apply (consumes_then _ 0); [apply consumes_Codepoint|]. intros _ cp. rewrite Nat.sub_0_r. apply (Hrec 1).
  - destruct (simple_escape c'); [apply (Hrec 1)|apply consumes_throw].
Qed.

Lemma consumes_String r : consumes r 0 (Parse_String document).
Proof.
  intros s Hs _. destruct (consumes_string_loop (length document + 1) []) as [Hl|]; [|lia]. apply Hl; [done|lia].
Qed.

(** Callbacks that return or throw. *)
Definition well_behaved : Prop :=
  (forall h b st, match (OnComplete h b st).1 with Ok _ | Throw _ => True | _ => False end) /\
  (forall h n v st, match (OnValue h n v st).1 with Ok _ | Throw _ => True | _ => False end) /\
  (forall h n st, match (OnArray h n st).1 with Ok _ | Throw _ => True | _ => False end) /\
  (forall h n st, match (OnObject h n st).1 with Ok _ | Throw _ => True | _ => False end).

Lemma consumes_callback {A} r (m : M S exn A) :
  (forall st, match (m st).1 with Ok _ | Throw _ => True | _ => False end) -> consumes r 0 (callback m).
Proof.
  intros Hm s Hs Hr. specialize (Hm (elements s)). unfold callback. destruct (m (elements s)) as [[]]; simpl in *; try done. lia.
Qed.

Hypothesis Hcb : well_behaved.

Lemma consumes_switch r members items h name :
  (1 <= r -> forall h, consumes (r - 1) 0 (members h)) -> (1 <= r -> forall h, consumes (r - 1) 0 (items h)) ->
  consumes r 1 (value_switch document members items h name).
Proof.
  intros Hmem Hit s Hs Hr. destruct Hcb as (HC & HV & HA & HO).
  destruct (Nat.eq_dec (current s) (length document)) as [He|Hne].
  { unfold value_switch, GetChar. unfold_m. by rewrite He, Nat.eqb_refl. }
  destruct (drop_cons_lookup (current s) ltac:(lia)) as (c & l & Hc & _).
  assert (GetChar document s = (Ok c, mkParser (current s + 1) (elements s))) as Hget.
  { unfold GetChar, char_at_offset. unfold_m. destruct (Nat.eqb_spec (current s) (length document)); [lia|]. by rewrite Hc. }
  unfold value_switch. rewrite (bind_ok _ _ _ _ _ Hget). set (s1 := mkParser (current s + 1) (elements s)).
  assert (forall (m : M (parser S) exn unit), consumes (r - 1) 0 m -> match m s1 with
    | (Ok _, s') => current s + 1 <= current s' <= length document
    | (Throw _, s') => current s' <= length document | _ => False end) as Hk.
  { intros m Hm. specialize (Hm s1 ltac:(simpl; lia) ltac:(simpl; lia)). destruct (m s1) as [[]]; try done. simpl in Hm. lia. }
  destruct (c =? 123)%N; [apply Hk|destruct (c =? 91)%N; [apply Hk|destruct (c =? 34)%N; [apply Hk|]]].
  - apply (consumes_then _ 0 0); [apply consumes_callback, HO|]. intros _ o. unfold Parse_Object.
    apply (consumes_then _ 0); [apply consumes_Whitespace|]. intros _ _. apply (consumes_then _ 0); [apply consumes_SkipChar|].
    intros _ []; rewrite !Nat.sub_0_r; [apply consumes_callback, HC|apply Hmem; lia].
  - apply (consumes_then _ 0 0); [apply consumes_callback, HA|]. intros _ o. unfold Parse_Array.
    apply (consumes_then _ 0); [apply consumes_Whitespace|]. intros _ _. apply (consumes_then _ 0); [apply consumes_SkipChar|].
    intros _ []; rewrite !Nat.sub_0_r; [apply consumes_callback, HC|apply Hit; lia].
  - apply (consumes_then _ 0 0); [apply consumes_String|]. intros _ v. apply consumes_callback, HV.
  - assert (forall sz v, consumes (r - 1) 0 (b ← SkipLiteral document sz; if b : bool then callback (OnValue h name v) else mret tt)) as Hlit.
    { intros sz v. apply (consumes_then _ 0 0); [apply consumes_SkipLiteral|].
      intros _ []; [apply consumes_callback, HV|apply consumes_ret]. }
    destruct (c =? 116)%N; [by apply Hk|]. destruct (c =? 102)%N; [by apply Hk|]. destruct (c =? 110)%N; [by apply Hk|].
    destruct (_ || _); [|simpl; lia]. rewrite (bind_ok (gets current) _ s1 (current s + 1) s1) by done.
    rewrite (bind_ok (seek _) _ s1 tt s) by (unfold seek, modify, s1; simpl; rewrite Nat.add_sub; by destruct s).
    apply (consumes_then r 1 1 (Parse_Number document)); [apply consumes_Number| |done|done].
    intros _ d. apply consumes_callback, HV.
Qed.

(** The fuel every function of the recursion needs. *)
Lemma consumes_value fuel :
  (forall h name r, 2 * r + 1 <= fuel -> consumes r 1 (Parse_Value document fuel h name)) /\
  (forall h r, 2 * r + 2 <= fuel -> consumes r 0 (object_loop document fuel h)) /\
  (forall h r, 2 * r + 2 <= fuel -> consumes r 0 (array_loop document fuel h)).
Proof.
  induction fuel as [|fuel (IHv & IHo & IHa)]; [split_and!; intros; lia|].
  pose proof Hcb as (HC & _). split_and!.
  - intros h name r Hr. cbn [Parse_Value]. apply (consumes_then _ 0); [apply consumes_Whitespace|]. intros _ _.
    rewrite !Nat.sub_0_r. apply (consumes_then _ 1); [|intros _ _; apply consumes_Whitespace].
    apply consumes_catch, consumes_switch; intros Hpos h'; [apply IHo|apply IHa]; lia.
  - intros h r Hr. cbn [object_loop]. apply (consumes_then _ 0); [apply consumes_SkipChar|]. intros _ q.
    destruct (negb q); [apply consumes_throw|]. rewrite !Nat.sub_0_r.
    apply (consumes_then _ 0); [apply consumes_String|]. intros _ name. rewrite !Nat.sub_0_r.
    apply (consumes_then _ 0); [apply consumes_Whitespace|]. intros _ _. rewrite !Nat.sub_0_r.
    apply (consumes_then _ 1); [apply consumes_GetChar|]. intros H1 c. destruct (negb _); [apply consumes_throw|].
    apply (consumes_then _ 1); [apply IHv; lia|]. intros H2 _.
    apply (consumes_then _ 1); [apply consumes_GetChar|]. intros H3 c'. destruct (c' =? 44)%N.
    + apply (consumes_then _ 0); [apply consumes_Whitespace|]. intros _ _. apply IHo. lia.
    + destruct (c' =? 125)%N; [apply consumes_callback, HC|apply consumes_throw].
  - intros h r Hr. cbn [array_loop]. apply (consumes_then _ 1); [apply IHv; lia|]. intros H1 _.
    apply (consumes_then _ 1); [apply consumes_GetChar|]. intros H2 c. destruct (c =? 44)%N; [apply IHa; lia|].
    destruct (c =? 93)%N; [apply consumes_callback, HC|apply consumes_throw].
Qed.
End Totality.

Definition line_feeds (l : bytes) : nat := length (filter (fun c => c = 10%N) l).

Lemma locate_spec l offset line last_cr :
  (locate l offset line last_cr).1 = line + line_feeds l /\ (locate l offset line last_cr).2 <= offset + length l.
Proof.
  revert offset line last_cr. unfold line_feeds. induction l as [|c l IH]; intros offset line last_cr; simpl; [lia|].
  rewrite filter_cons. destruct (N.eqb_spec c 10) as [->|Hc].
  - rewrite decide_True by done. destruct (IH (offset + 1) (line + 1) offset). simpl. lia.
  - rewrite decide_False by done. destruct (IH (offset + 1) line last_cr). lia.
Qed.

(** C31: The JSON reader is total and memory safe.  On every document, well formed or
    not, and with any client whose callbacks return or throw, parsing terminates
    within the fuel that [Parse] supplies and never reads outside the document; a
    syntax error, and any standard exception of a callback, surfaces as one located
    error whose line is one more than the line feeds before the failure. *)
Theorem json_total {H S} `{Element H S} (element : H) (document : bytes) (st : S) :
  well_behaved (H := H) (S := S) ->
  match Parse element document st with
  | (Ok _, _) => True
  | (Throw (runtime_error (JsonError _ line index)), _) =>
      exists n, n <= length document /\ line = 1 + line_feeds (take n document) /\ index <= n
  | (Throw (type_mismatch _ _), _) | (Throw other_exception, _) => True
  | _ => False
  end.
Proof.
  intros Hcb. unfold Parse, JSON. pose proof Hcb as (HC & _).
  pose proof (consumes_then document (length document) 1 0 _ _
    (proj1 (consumes_value document Hcb (2 * length document + 2)) element [] (length document) ltac:(lia))
    (fun _ _ => consumes_callback document _ _ (HC element false))) as Hc.
  specialize (Hc (mkParser 0 st) ltac:(simpl; lia) ltac:(simpl; lia)).
  destruct (mbind (M := M (parser S) exn) _ _ (mkParser 0 st)) as [[u|e| |] s']; try done. unfold document_error, error_location.
  destruct (locate_spec (take (current s') document) 0 1 0) as [Hl Hi]. rewrite length_take in Hi.
  destruct (locate _ 0 1 0) as [line index]. simpl in Hl, Hi, Hc.
  destruct e; try done; exists (current s'); split_and!; try done; lia.
Qed.

(** ** The grammar *)

#[local] Set Warnings "-register-all".

Inductive json : Type :=
  | JString (s : bytes)
  | JNumber (d : spec_float)
  | JBool (b : bool)
  | JNull
  | JArray (items : list json)
  | JObject (members : list (bytes * json)).

Definition white (w : bytes) : Prop := forallb is_space w = true.
Definition digits (w : bytes) : Prop := forallb is_digit w = true /\ w <> [].

(** The characters between the quotes, and the bytes they stand for. *)
Inductive string_text : bytes -> bytes -> Prop :=
  | st_end : string_text [] []
  | st_raw c s t : (32 <= c)%N -> c <> 34%N -> c <> 92%N -> string_text s t -> string_text (c :: s) (c :: t)
  | st_escape e c s t : simple_escape e = Some c -> string_text s t -> string_text (c :: s) (92%N :: e :: t)
  | st_unicode h cp s t :
      hex4 h = Some cp -> (cp < 0xd800 \/ 0xdfff < cp)%N -> string_text s t ->
      string_text (Append_Utf8 [] cp ++ s) (92%N :: 117%N :: h ++ t)
  | st_pair h1 h2 hi lo s t :
      hex4 h1 = Some hi -> hex4 h2 = Some lo -> (0xd800 <= hi <= 0xdbff)%N -> (0xdc00 <= lo <= 0xdfff)%N ->
      string_text s t ->
      string_text (Append_Utf8 [] (0x10000 + (hi - 0xd800) * 1024 + (lo - 0xdc00)) ++ s)
        (92%N :: 117%N :: h1 ++ 92%N :: 117%N :: h2 ++ t).

(** A number: an optional minus, digits, an optional fraction and exponent. *)
Inductive number_text : bytes -> Prop :=
  | number_parts (minus : bool) int frac exp :
      digits int -> (frac = [] \/ exists f, digits f /\ frac = 46%N :: f) ->
      (exp = [] \/ exists e sign ds, (e = 101 \/ e = 69)%N /\ (sign = [] \/ sign = [43%N] \/ sign = [45%N]) /\
         digits ds /\ exp = e :: sign ++ ds) ->
      number_text ((if minus then [45%N] else []) ++ int ++ frac ++ exp).

Inductive value_text : json -> bytes -> Prop :=
  | vt_string s t : string_text s t -> value_text (JString s) (34%N :: t ++ [34%N])
  | vt_number d t : number_text t -> from_chars t = Some (d, length t) -> value_text (JNumber d) t
  | vt_true : value_text (JBool true) (116%N :: lit_true)
  | vt_false : value_text (JBool false) (102%N :: lit_false)
  | vt_null : value_text JNull (110%N :: lit_null)
  | vt_array_empty w : white w -> value_text (JArray []) (91%N :: w ++ [93%N])
  | vt_array js t : items_text js t -> value_text (JArray js) (91%N :: t ++ [93%N])
  | vt_object_empty w : white w -> value_text (JObject []) (123%N :: w ++ [125%N])
  | vt_object ms t : members_text ms t -> value_text (JObject ms) (123%N :: t ++ [125%N])
with element_text : json -> bytes -> Prop :=
  | et_value j w1 v w2 : white w1 -> value_text j v -> white w2 -> element_text j (w1 ++ v ++ w2)
with items_text : list json -> bytes -> Prop :=
  | it_one j t : element_text j t -> items_text [j] t
  | it_more j js t ts : element_text j t -> items_text js ts -> items_text (j :: js) (t ++ 44%N :: ts)
with members_text : list (bytes * json) -> bytes -> Prop :=
  | mt_one k j w1 t w2 e :
      white w1 -> string_text k t -> white w2 -> element_text j e ->
      members_text [(k, j)] (w1 ++ 34%N :: t ++ 34%N :: w2 ++ 58%N :: e)
  | mt_more k j ms w1 t w2 e ts :
      white w1 -> string_text k t -> white w2 -> element_text j e -> members_text ms ts ->
      members_text ((k, j) :: ms) (w1 ++ 34%N :: t ++ 34%N :: w2 ++ 58%N :: e ++ 44%N :: ts).

Scheme value_text_ind' := Induction for value_text Sort Prop
  with element_text_ind' := Induction for element_text Sort Prop
  with items_text_ind' := Induction for items_text Sort Prop
  with members_text_ind' := Induction for members_text Sort Prop.
Combined Scheme text_mutind from value_text_ind', element_text_ind', items_text_ind', members_text_ind'.

Definition is_nil {A} (l : list A) : bool := match l with [] => true | _ => false end.

(** The events a value stands for. *)
Fixpoint events (name : bytes) (j : json) : list event :=
  match j with
  | JString s => [EValue name (VString s)]
  | JNumber d => [EValue name (VNumber d)]
  | JBool b => [EValue name (VBool b)]
  | JNull => [EValue name VNull]
  | JArray js => EArray name :: flat_map (events []) js ++ [EComplete (is_nil js)]
  | JObject ms => EObject name :: flat_map (fun m => events m.1 m.2) ms ++ [EComplete (is_nil ms)]
  end.

(** ** Numbers end at a delimiter *)

(** What may follow a value: nothing, white space, a comma or a closing bracket. *)
Definition delimited (rest : bytes) : Prop :=
  match rest with
  | [] => True
  | c :: _ => is_space c = true \/ c = 44%N \/ c = 93%N \/ c = 125%N
  end.

Definition not_digit_first (r : bytes) : Prop := match r with [] => True | c :: _ => is_digit c = false end.

Lemma span_digits_app a r : forallb is_digit a = true -> not_digit_first r -> span_digits (a ++ r) = a.
Proof.
  intros Ha Hr. induction a as [|c a IH]; simpl in *.
  - destruct r as [|c r]; [done|]. simpl in *. by rewrite Hr.
  - apply andb_true_iff in Ha as [-> Ha]. by rewrite IH.
Qed.

Lemma delimited_head rest : delimited rest ->
  match rest with
  | [] => True
  | c :: _ => is_digit c = false /\ (c =? 46)%N = false /\ (c =? 101)%N = false /\ (c =? 69)%N = false
  end.
Proof.
  destruct rest as [|c r]; [done|]. simpl. unfold is_space, is_digit.
  intros [Hs|[->|[->| ->]]]; [|done..]. apply orb_true_iff in Hs as [Hs|Hs%N.eqb_eq]; [|by subst].
  apply orb_true_iff in Hs as [Hs|Hs%N.eqb_eq]; [|by subst].
  apply orb_true_iff in Hs as [Hs%N.eqb_eq|Hs%N.eqb_eq]; by subst.
Qed.

Lemma delimited_digits rest : delimited rest -> not_digit_first rest.
Proof. intros Hd%delimited_head. by destruct rest as [|c r]; [|destruct Hd]. Qed.

Definition exponent_text (exp : bytes) : Prop :=
  exp = [] \/ exists e sign ds, (e = 101 \/ e = 69)%N /\ (sign = [] \/ sign = [43%N] \/ sign = [45%N]) /\
    digits ds /\ exp = e :: sign ++ ds.

Lemma scan_exponent_app exp rest :
  exponent_text exp -> delimited rest ->
  scan_exponent (exp ++ rest) = ((scan_exponent exp).1, length exp).
Proof.
  intros [->|(e & sign & ds & He & Hsign & [Hds Hne] & ->)] Hd.
  - apply delimited_head in Hd. destruct rest as [|c r]; [done|]. destruct Hd as (_ & _ & H1 & H2). simpl. by rewrite H1, H2.
  - assert ((e =? 101)%N || (e =? 69)%N = true) as He' by (by destruct He as [-> | ->]).
    assert (span_digits (ds ++ rest) = ds) as Hr by (apply span_digits_app; [done|by apply delimited_digits]).
    assert (span_digits ds = ds) as Hr' by (rewrite <- (app_nil_r ds) at 1; by apply span_digits_app).
    destruct ds as [|d ds]; [done|]. assert (is_digit d = true) as Hdig by (by apply andb_true_iff in Hds as [? _]).
    assert ((d =? 45)%N = false /\ (d =? 43)%N = false) as [H45 H43].
    { unfold is_digit in Hdig. apply andb_true_iff in Hdig as [?%N.leb_le ?%N.leb_le]. split; apply N.eqb_neq; lia. }
    destruct Hsign as [->|[->| ->]]; unfold scan_exponent; cbn [app]; rewrite He'.
    + rewrite H45, H43. change (d :: ds ++ rest) with ((d :: ds) ++ rest). rewrite Hr, Hr'. done.
    + change (43 =? 45)%N with false. change (43 =? 43)%N with true. cbv iota.
      change (d :: ds ++ rest) with ((d :: ds) ++ rest). rewrite Hr, Hr'. done.
    + change (45 =? 45)%N with true. cbv iota.
      change (d :: ds ++ rest) with ((d :: ds) ++ rest). rewrite Hr, Hr'. done.
Qed.

Lemma exponent_first exp rest : exponent_text exp -> delimited rest ->
  match exp ++ rest with [] => True | c :: _ => is_digit c = false /\ (c =? 46)%N = false end.
Proof.
  intros [->|(e & sign & ds & He & _ & _ & ->)] Hd.
  - apply delimited_head in Hd. destruct rest; [done|]. simpl. by destruct Hd as (? & ? & _).
  - simpl. by destruct He as [-> | ->].
Qed.

Lemma scan_unsigned_app int frac exp rest :
  digits int -> (frac = [] \/ exists f, digits f /\ frac = 46%N :: f) -> exponent_text exp -> delimited rest ->
  scan_unsigned (int ++ frac ++ exp ++ rest) =
    Some (Decimal (digits_value (int ++ drop 1 frac))
      ((scan_exponent exp).1 - Z.of_nat (length (drop 1 frac))), length (int ++ frac ++ exp)).
Proof.
  intros [Hint Hne] Hfrac Hexp Hd. pose proof (exponent_first exp rest Hexp Hd) as Hfirst.
  assert (span_digits (int ++ frac ++ exp ++ rest) = int) as Hi.
  { apply span_digits_app; [done|]. destruct Hfrac as [->|(f & _ & ->)]; [|done]. simpl.
    destruct (exp ++ rest); [done|by destruct Hfirst]. }
  assert (length int <> 0) as Hlen by (by destruct int).
  unfold scan_unsigned. rewrite Hi, drop_app_length. destruct Hfrac as [->|(f & [Hf Hfne] & ->)]; cbn [app].
  - assert (match exp ++ rest with c :: r => if (c =? 46)%N then (span_digits r, 1) else ([], 0) | [] => ([], 0) end = ([], 0)) as ->.
    { destruct (exp ++ rest); [done|]. destruct Hfirst as [_ ->]. done. }
    destruct (Nat.eqb_spec (length int + length ([] : bytes)) 0) as [E|_]; [simpl in E; lia|].
    cbn [length drop]. rewrite !Nat.add_0_r, drop_app_length, scan_exponent_app by done.
    rewrite !app_nil_r, length_app. done.
  - rewrite N.eqb_refl. assert (span_digits (f ++ exp ++ rest) = f) as Hfs.
    { apply span_digits_app; [done|]. destruct (exp ++ rest); [done|by destruct Hfirst]. }
    rewrite Hfs. destruct (Nat.eqb_spec (length int + length f) 0); [lia|]. cbn [drop].
    assert (drop (length int + 1 + length f) (int ++ 46%N :: f ++ exp ++ rest) = exp ++ rest) as ->.
    { replace (int ++ 46%N :: f ++ exp ++ rest) with ((int ++ 46%N :: f) ++ exp ++ rest) by (by rewrite <- app_assoc).
      apply drop_app_length'. rewrite length_app. simpl. lia. }
    rewrite scan_exponent_app by done. rewrite drop_0, !length_app. simpl. rewrite length_app. do 2 f_equal. lia.
Qed.

Lemma from_chars_delimited t rest d n :
  number_text t -> delimited rest -> from_chars t = Some (d, n) -> from_chars (t ++ rest) = Some (d, length t).
Proof.
  intros [minus int frac exp Hint Hfrac Hexp] Hd Ht.
  pose proof (scan_unsigned_app int frac exp rest Hint Hfrac Hexp Hd) as H1.
  pose proof (scan_unsigned_app int frac exp [] Hint Hfrac Hexp I) as H0. rewrite app_nil_r in H0.
  assert (exists c r, int = c :: r /\ (c =? 45)%N = false) as (c & r & Hc & H45).
  { destruct Hint as [Hi Hne]. destruct int as [|c r]; [done|]. exists c, r. split; [done|].
    apply andb_true_iff in Hi as [Hi _]. unfold is_digit in Hi. apply andb_true_iff in Hi as [?%N.leb_le _]. apply N.eqb_neq. lia. }
  rewrite <- !app_assoc. unfold from_chars in *. destruct minus; cbn [app] in *.
  - change (45 =? 45)%N with true in *. cbv iota in *. rewrite H0 in Ht. rewrite H1.
    destruct (in_range _ _); [|done]. simpl in Ht |- *. simplify_eq. done.
  - subst int. cbn [app] in *. rewrite H45 in *. rewrite H0 in Ht. rewrite H1.
    destruct (in_range _ _); [|done]. simpl in Ht |- *. simplify_eq. done.
Qed.

(** ** Completeness: every document of the grammar is read *)

Section Completeness.
Variable document : bytes.
Abbreviation P n st := (mkParser (S := list event) n st).

Lemma at_app n l1 l2 : drop n document = l1 ++ l2 -> drop (n + length l1) document = l2.
Proof. intros Hn. rewrite <- drop_drop, Hn. apply drop_app_length. Qed.

Lemma at_cons n c l : drop n document = c :: l ->
  document !! n = Some c /\ n < length document /\ drop (n + 1) document = l.
Proof.
  intros Hn. assert (document !! n = Some c) as Hc by (by rewrite <- (Nat.add_0_r n), <- lookup_drop, Hn).
  split_and!; [done|by apply lookup_lt_Some in Hc|]. by apply (at_app n [c] l).
Qed.

Lemma at_length n l : drop n document = l -> l <> [] -> length l = length document - n.
Proof. intros <- _. by rewrite length_drop. Qed.

Lemma GetChar_at n c l st : drop n document = c :: l -> GetChar document (P n st) = (Ok c, P (n + 1) st).
Proof.
  intros (Hc & Hlt & _)%at_cons. unfold GetChar, char_at_offset. unfold_m.
  destruct (Nat.eqb_spec n (length document)); [lia|]. by rewrite Hc.
Qed.

Lemma SkipChar_at n c d l st : drop n document = d :: l ->
  SkipChar document c (P n st) = if (d =? c)%N then (Ok true, P (n + 1) st) else (Ok false, P n st).
Proof.
  intros (Hc & Hlt & _)%at_cons. unfold SkipChar, char_at_offset. unfold_m.
  destruct (Nat.eqb_spec n (length document)); [lia|]. rewrite Hc. by destruct (d =? c)%N.
Qed.

Definition solid (l : bytes) : Prop := match l with [] => True | c :: _ => is_space c = false end.

Lemma spaces_app w l : white w -> solid l -> spaces (w ++ l) = length w.
Proof.
  intros Hw Hl. induction w as [|c w IH]; simpl in *.
  - destruct l as [|c l]; [done|]. simpl in *. by rewrite Hl.
  - unfold white in Hw. simpl in Hw. apply andb_true_iff in Hw as [-> Hw]. by rewrite IH.
Qed.

Lemma Whitespace_at n w l st : drop n document = w ++ l -> white w -> solid l ->
  Parse_Whitespace document (P n st) = (Ok tt, P (n + length w) st).
Proof. intros Hn Hw Hl. unfold Parse_Whitespace. unfold_m. by rewrite Hn, spaces_app. Qed.

Lemma Append_Utf8_app acc cp : Append_Utf8 acc cp = acc ++ Append_Utf8 [] cp.
Proof. unfold Append_Utf8. destruct (cp <=? 0x7f)%N, (cp <=? 0x7ff)%N, (cp <=? 0xffff)%N; done. Qed.

Lemma hex4_length h cp : hex4 h = Some cp -> length h = 4.
Proof. by destruct h as [|? [|? [|? [|? [|]]]]]. Qed.

Lemma Hex4_at n h l cp st : drop n document = h ++ l -> hex4 h = Some cp ->
  Parse_Hex4 document (P n st) = (Ok cp, P (n + 4) st).
Proof.
  intros Hn Hh. pose proof (hex4_length _ _ Hh) as Hlen. unfold Parse_Hex4. unfold_m.
  assert (length h + length l = length document - n) as Hl by (by rewrite <- length_app, <- Hn, length_drop).
  destruct (Nat.ltb_spec (length document) (n + 4)); [lia|]. rewrite Hn, take_app_length' by done. by rewrite Hh.
Qed.

Lemma simple_escape_u e c : simple_escape e = Some c -> (e =? 117)%N = false.
Proof. intros He. apply N.eqb_neq. by intros ->. Qed.

Lemma string_at s t : string_text s t -> forall fuel n l acc st,
  drop n document = t ++ 34%N :: l -> length t < fuel ->
  string_loop document fuel acc (P n st) = (Ok (acc ++ s), P (n + length t + 1) st).
Proof.
  induction 1 as [|c s t Hc Hq Hb _ IH|e c s t He _ IH|h cp s t Hh Hcp _ IH|h1 h2 hi lo s t Hh1 Hh2 Hhi Hlo _ IH];
    intros [|fuel] n l acc st Hn Hf; try (simpl in Hf; lia); cbn [string_loop]; rewrite <- ?app_comm_cons in Hn.
  - rewrite (bind_ok _ _ _ _ _ (GetChar_at n 34%N l st Hn)). simpl. by rewrite app_nil_r, Nat.add_0_r.
  - rewrite (bind_ok _ _ _ _ _ (GetChar_at n c _ st Hn)).
    rewrite (proj2 (N.eqb_neq _ _) Hq), (proj2 (N.eqb_neq _ _) Hb). destruct (N.ltb_spec c 0x20); [lia|].
    apply at_cons in Hn as (_ & _ & Hn). rewrite (IH fuel _ l _ _ Hn) by (simpl in Hf; lia).
    rewrite <- app_assoc. simpl. do 2 f_equal. lia.
  - rewrite (bind_ok _ _ _ _ _ (GetChar_at n 92%N _ st Hn)). simpl. apply at_cons in Hn as (_ & _ & Hn).
    rewrite (bind_ok _ _ _ _ _ (GetChar_at _ e _ st Hn)), (simple_escape_u _ _ He), He.
    apply at_cons in Hn as (_ & _ & Hn). rewrite (IH fuel _ l _ _ Hn) by (simpl in Hf; lia).
    rewrite <- app_assoc. simpl. do 2 f_equal. lia.
  - rewrite (bind_ok _ _ _ _ _ (GetChar_at n 92%N _ st Hn)). simpl. apply at_cons in Hn as (_ & _ & Hn).
    rewrite (bind_ok _ _ _ _ _ (GetChar_at _ 117%N _ st Hn)). simpl. apply at_cons in Hn as (_ & _ & Hn).
    rewrite <- app_assoc in Hn. pose proof (hex4_length _ _ Hh) as H4.
    assert (Parse_Codepoint document (P (n + 1 + 1) st) = (Ok cp, P (n + 1 + 1 + 4) st)) as Hrun.
    { unfold Parse_Codepoint. rewrite (bind_ok _ _ _ _ _ (Hex4_at _ _ _ _ st Hn Hh)).
      destruct (N.leb_spec 0xd800 cp), (N.leb_spec cp 0xdbff), (N.leb_spec 0xdc00 cp), (N.leb_spec cp 0xdfff);
        simpl; try lia; done. }
    rewrite (bind_ok _ _ _ _ _ Hrun). apply at_app in Hn. rewrite H4 in Hn.
    rewrite (IH fuel _ l _ _ Hn) by (simpl in Hf; rewrite length_app in Hf; lia).
    rewrite Append_Utf8_app, <- app_assoc. simpl. rewrite length_app. do 2 f_equal. lia.
  - rewrite (bind_ok _ _ _ _ _ (GetChar_at n 92%N _ st Hn)). simpl. apply at_cons in Hn as (_ & _ & Hn).
    rewrite (bind_ok _ _ _ _ _ (GetChar_at _ 117%N _ st Hn)). simpl. apply at_cons in Hn as (_ & _ & Hn).
    rewrite <- app_assoc in Hn. rewrite <- !app_comm_cons, <- app_assoc in Hn.
    pose proof (hex4_length _ _ Hh1) as H41. pose proof (hex4_length _ _ Hh2) as H42.
    pose proof (at_app _ _ _ Hn) as Hn1. rewrite H41 in Hn1. pose proof (at_cons _ _ _ Hn1) as (_ & _ & Hn2).
    pose proof (at_cons _ _ _ Hn2) as (_ & _ & Hn3).
    assert (Parse_Codepoint document (P (n + 1 + 1) st) =
      (Ok (0x10000 + (hi - 0xd800) * 1024 + (lo - 0xdc00))%N, P (n + 1 + 1 + 4 + 1 + 1 + 4) st)) as Hrun.
    { unfold Parse_Codepoint. rewrite (bind_ok _ _ _ _ _ (Hex4_at _ _ _ _ st Hn Hh1)).
      destruct (N.leb_spec 0xd800 hi), (N.leb_spec hi 0xdbff); try lia. cbn [andb].
      rewrite (bind_ok _ _ _ _ _ (SkipChar_at _ 92%N _ _ st Hn1)). cbv iota.
      rewrite (bind_ok _ _ _ _ _ (SkipChar_at _ 117%N _ _ st Hn2)). cbn [negb].
      rewrite (bind_ok _ _ _ _ _ (Hex4_at _ _ _ _ st Hn3 Hh2)).
      destruct (N.ltb_spec lo 0xdc00), (N.ltb_spec 0xdfff lo); try lia. cbn [orb].
      rewrite N.shiftl_mul_pow2. done. }
    rewrite (bind_ok _ _ _ _ _ Hrun). apply at_app in Hn3. rewrite H42 in Hn3.
    rewrite (IH fuel _ l _ _ Hn3) by (simpl in Hf; rewrite !length_app in Hf; simpl in Hf; rewrite length_app in Hf; lia).
    rewrite Append_Utf8_app, <- app_assoc. simpl. rewrite !length_app. simpl. rewrite !length_app. do 2 f_equal. lia.
Qed.

Lemma String_at n s t l st : drop n document = t ++ 34%N :: l -> string_text s t ->
  Parse_String document (P n st) = (Ok s, P (n + length t + 1) st).
Proof.
  intros Hn Ht. unfold Parse_String. rewrite (string_at s t Ht _ n l [] st Hn); [done|].
  assert (length t + (1 + length l) = length document - n) as Hl by (rewrite <- length_drop, Hn, length_app; done). lia.
Qed.

Lemma Literal_at n lit c l st : drop n document = lit ++ c :: l ->
  SkipLiteral document lit (P n st) = (Ok true, P (n + length lit) st).
Proof.
  intros Hn. assert (length lit + (1 + length l) = length document - n) as Hl by (rewrite <- length_drop, Hn, length_app; done).
  unfold SkipLiteral. unfold_m. rewrite Hn, take_app_length.
  destruct (Nat.leb_spec (length document) (n + length lit)); [lia|]. by rewrite bool_decide_eq_true_2.
Qed.

(** A value starts with a byte that is neither white space nor a bracket that closes. *)
Lemma value_first j v : value_text j v -> exists c r, v = c :: r /\ is_space c = false /\ c <> 93%N /\ c <> 125%N.
Proof.
  destruct 1 as [s t _|d t Ht _| | | |w _|js t _|w _|ms t _]; try (eexists _, _; split_and!; [reflexivity|done..]).
  destruct Ht as [minus int frac exp [Hint Hne] _ _]. destruct minus; [eexists _, _; split_and!; [reflexivity|done..]|].
  destruct int as [|c r]; [done|]. exists c, (r ++ frac ++ exp). split; [done|].
  apply andb_true_iff in Hint as [Hc _]. unfold is_digit in Hc. apply andb_true_iff in Hc as [?%N.leb_le ?%N.leb_le].
  unfold is_space. split_and!; [|lia..]. rewrite !orb_false_iff, !N.eqb_neq. lia.
Qed.

Lemma white_app w1 w2 : white (w1 ++ w2) <-> white w1 /\ white w2.
Proof. unfold white. rewrite forallb_app, andb_true_iff. done. Qed.

(** White space in front of a text that starts with a solid byte is part of the
    white space the text allows there. *)
Lemma white_prefix w0 w1 t t' : white w0 -> solid t -> t <> [] -> w0 ++ t' = w1 ++ t ->
  exists w1', w1 = w0 ++ w1' /\ t' = w1' ++ t.
Proof.
  revert w1. induction w0 as [|c w0 IH]; intros w1 Hw Ht Hne Heq; [by exists w1|].
  unfold white in Hw. simpl in Hw. apply andb_true_iff in Hw as [Hc Hw]. destruct w1 as [|d w1].
  - simpl in Heq. subst t. simpl in Ht. congruence.
  - simpl in Heq. injection Heq as -> Heq. destruct (IH w1 Hw Ht Hne Heq) as (w1' & -> & ->). by exists w1'.
Qed.

Definition is_literal (j : json) : bool := match j with JBool _ | JNull => true | _ => false end.
Definition closes (rest : bytes) : Prop :=
  match rest with [] => True | c :: _ => c = 44%N \/ c = 93%N \/ c = 125%N end.
Definition ends_in_space (t : bytes) : Prop := exists t0 c, t = t0 ++ [c] /\ is_space c = true.

Lemma closes_solid rest : closes rest -> solid rest.
Proof. destruct rest as [|c r]; [done|]. by intros [->|[->| ->]]. Qed.

Lemma delimited_app w rest : white w -> closes rest -> delimited (w ++ rest).
Proof.
  intros Hw Hr. destruct w as [|c w]; simpl; [destruct rest; [done|by right]|]. left.
  unfold white in Hw. by apply andb_true_iff in Hw as [? _].
Qed.

(** What reading each kind of text does, from the state at its start. *)
Definition reads_value (j : json) (v : bytes) : Prop := forall n rest fuel name st,
  drop n document = v ++ rest -> delimited rest -> (is_literal j = true -> rest <> []) ->
  2 * (length v + length rest) <= fuel ->
  value_switch document (object_loop document fuel) (array_loop document fuel) tt name (P n st) =
    (Ok tt, P (n + length v) (st ++ events name j)).
Definition reads_element (j : json) (e : bytes) : Prop := forall w0 t n rest fuel name st,
  e = w0 ++ t -> white w0 -> drop n document = t ++ rest -> closes rest ->
  (is_literal j = true -> rest <> [] \/ ends_in_space e) -> 2 * (length t + length rest) + 1 <= fuel ->
  Parse_Value document fuel tt name (P n st) = (Ok tt, P (n + length t) (st ++ events name j)).
Definition reads_items (js : list json) (ts : bytes) : Prop := forall w0 t n rest fuel st,
  ts = w0 ++ t -> white w0 -> drop n document = t ++ 93%N :: rest -> 2 * (length t + 1 + length rest) + 2 <= fuel ->
  array_loop document fuel tt (P n st) =
    (Ok tt, P (n + length t + 1) (st ++ flat_map (events []) js ++ [EComplete false])).
Definition reads_members (ms : list (bytes * json)) (ts : bytes) : Prop := forall w0 t n rest fuel st,
  ts = w0 ++ 34%N :: t -> white w0 -> drop n document = 34%N :: t ++ 125%N :: rest ->
  2 * (length t + 2 + length rest) + 2 <= fuel ->
  object_loop document fuel tt (P n st) =
    (Ok tt, P (n + length t + 2) (st ++ flat_map (fun m => events m.1 m.2) ms ++ [EComplete false])).

Lemma Number_at n t rest d st :
  drop n document = t ++ rest -> number_text t -> delimited rest -> from_chars t = Some (d, length t) ->
  Parse_Number document (P n st) = (Ok d, P (n + length t) st).
Proof. intros Hn Ht Hr Hf. unfold Parse_Number. unfold_m. by rewrite Hn, (from_chars_delimited t rest d (length t)). Qed.

Lemma number_first t : number_text t -> exists c r, t = c :: r /\ is_digit c || (c =? 45)%N = true /\
  (c =? 123)%N = false /\ (c =? 91)%N = false /\ (c =? 34)%N = false /\ (c =? 116)%N = false /\
  (c =? 102)%N = false /\ (c =? 110)%N = false.
Proof.
  intros [minus int frac exp [Hint Hne] _ _]. destruct minus; [eexists _, _; split_and!; [reflexivity|done..]|].
  destruct int as [|c r]; [done|]. exists c, (r ++ frac ++ exp). split; [done|].
  apply andb_true_iff in Hint as [Hc _]. rewrite Hc. unfold is_digit in Hc. apply andb_true_iff in Hc as [?%N.leb_le ?%N.leb_le].
  split_and!; try done; apply N.eqb_neq; lia.
Qed.

Lemma reads_number d t : number_text t -> from_chars t = Some (d, length t) -> reads_value (JNumber d) t.
Proof.
  intros Ht Hf n rest fuel name st Hn Hr _ _. destruct (number_first t Ht) as (c & r & Et & Hc & H1 & H2 & H3 & H4 & H5 & H6).
  assert (drop n document = c :: r ++ rest) as Hn' by (by rewrite Hn, Et).
  unfold value_switch. rewrite (bind_ok _ _ _ _ _ (GetChar_at n c _ st Hn')), H1, H2, H3, H4, H5, H6, Hc.
  rewrite (bind_ok (gets current) _ _ (n + 1) (P (n + 1) st)) by done.
  rewrite (bind_ok (seek _) _ _ tt (P n st)) by (unfold seek, modify; simpl; by rewrite Nat.add_sub).
  rewrite (bind_ok _ _ _ _ _ (Number_at n t rest d st Hn Ht Hr Hf)). done.
Qed.

Lemma reads_string s t : string_text s t -> reads_value (JString s) (34%N :: t ++ [34%N]).
Proof.
  intros Ht n rest fuel name st Hn _ _ _. rewrite <- app_comm_cons, <- app_assoc in Hn. unfold value_switch.
  rewrite (bind_ok _ _ _ _ _ (GetChar_at n 34%N _ st Hn)). apply at_cons in Hn as (_ & _ & Hn).
  change (34 =? 123)%N with false. change (34 =? 91)%N with false. change (34 =? 34)%N with true. cbv iota.
  rewrite (bind_ok _ _ _ _ _ (String_at _ s t rest st Hn Ht)). unfold callback. simpl.
  rewrite length_app. simpl. do 2 f_equal. lia.
Qed.

Lemma reads_literal j c lit v :
  (c = 116%N /\ lit = lit_true /\ j = JBool true /\ v = VBool true \/
   c = 102%N /\ lit = lit_false /\ j = JBool false /\ v = VBool false \/
   c = 110%N /\ lit = lit_null /\ j = JNull /\ v = VNull) -> reads_value j (c :: lit).
Proof.
  intros Hcase n rest fuel name st Hn _ Hne _. unfold value_switch.
  rewrite (bind_ok _ _ _ _ _ (GetChar_at n c _ st Hn)). apply at_cons in Hn as (_ & _ & Hn).
  destruct rest as [|d rest]; [by destruct Hne; [destruct Hcase as [(_ & _ & -> & _)|[(_ & _ & -> & _)|(_ & _ & -> & _)]]|]|].
  pose proof (Literal_at _ _ _ _ st Hn) as Hlit.
  destruct Hcase as [(-> & -> & -> & ->)|[(-> & -> & -> & ->)|(-> & -> & -> & ->)]]; simpl;
    rewrite (bind_ok _ _ _ _ _ Hlit); unfold callback; simpl; do 2 f_equal; lia.
Qed.

Lemma element_first j e : element_text j e -> exists w c r, e = w ++ c :: r /\ white w /\ is_space c = false /\ c <> 93%N.
Proof.
  intros [j' w1 v w2 Hw1 Hv _]. destruct (value_first _ _ Hv) as (c & r & -> & Hc & H93 & _).
  exists w1, c, (r ++ w2). by rewrite <- app_comm_cons.
Qed.

Lemma items_first js ts : items_text js ts -> exists w c r, ts = w ++ c :: r /\ white w /\ is_space c = false /\ c <> 93%N.
Proof.
  intros [j t Ht|j js' t ts' Ht _]; destruct (element_first _ _ Ht) as (w & c & r & -> & Hw & Hc); [by exists w, c, r|].
  exists w, c, (r ++ 44%N :: ts'). by rewrite <- app_assoc.
Qed.

Lemma members_first ms ts : members_text ms ts -> exists w r, ts = w ++ 34%N :: r /\ white w.
Proof. destruct 1; eauto. Qed.

Lemma close_at n w c l st : drop n document = w ++ c :: l -> white w -> is_space c = false ->
  forall m : M (parser (list event)) exn unit,
  (_ ← Parse_Whitespace document; closed ← SkipChar document c;
   if closed : bool then callback (OnComplete tt true) else m) (P n st) =
    (Ok tt, P (n + length w + 1) (st ++ [EComplete true])).
Proof.
  intros Hn Hw Hc m. rewrite (bind_ok _ _ _ _ _ (Whitespace_at n w (c :: l) st Hn Hw Hc)). apply at_app in Hn.
  pose proof (SkipChar_at _ c c l st Hn) as Hs. rewrite N.eqb_refl in Hs. by rewrite (bind_ok _ _ _ _ _ Hs).
Qed.

Lemma open_at n w c d l st : drop n document = w ++ d :: l -> white w -> is_space d = false -> d <> c ->
  forall m : M (parser (list event)) exn unit,
  (_ ← Parse_Whitespace document; closed ← SkipChar document c;
   if closed : bool then callback (OnComplete tt true) else m) (P n st) = m (P (n + length w) st).
Proof.
  intros Hn Hw Hd Hne m. rewrite (bind_ok _ _ _ _ _ (Whitespace_at n w (d :: l) st Hn Hw Hd)). apply at_app in Hn.
  pose proof (SkipChar_at _ c d l st Hn) as Hs. rewrite (proj2 (N.eqb_neq _ _) Hne) in Hs. by rewrite (bind_ok _ _ _ _ _ Hs).
Qed.

Lemma reads_empty_array w : white w -> reads_value (JArray []) (91%N :: w ++ [93%N]).
Proof.
  intros Hw n rest fuel name st Hn _ _ _. rewrite <- app_comm_cons, <- app_assoc in Hn. unfold value_switch.
  rewrite (bind_ok _ _ _ _ _ (GetChar_at n 91%N _ st Hn)). apply at_cons in Hn as (_ & _ & Hn). simpl.
  rewrite (bind_ok (callback _) _ _ tt (P (n + 1) (st ++ [EArray name]))) by done. unfold Parse_Array.
  rewrite (close_at _ w 93%N rest _ Hn Hw eq_refl), <- app_assoc, length_app. simpl. do 2 f_equal. lia.
Qed.

Lemma reads_empty_object w : white w -> reads_value (JObject []) (123%N :: w ++ [125%N]).
Proof.
  intros Hw n rest fuel name st Hn _ _ _. rewrite <- app_comm_cons, <- app_assoc in Hn. unfold value_switch.
  rewrite (bind_ok _ _ _ _ _ (GetChar_at n 123%N _ st Hn)). apply at_cons in Hn as (_ & _ & Hn). simpl.
  rewrite (bind_ok (callback _) _ _ tt (P (n + 1) (st ++ [EObject name]))) by done. unfold Parse_Object.
  rewrite (close_at _ w 125%N rest _ Hn Hw eq_refl), <- app_assoc, length_app. simpl. do 2 f_equal. lia.
Qed.

Lemma items_not_nil js ts : items_text js ts -> is_nil js = false.
Proof. by destruct 1. Qed.

Lemma members_not_nil ms ts : members_text ms ts -> is_nil ms = false.
Proof. by destruct 1. Qed.

Lemma reads_array js ts : items_text js ts -> reads_items js ts -> reads_value (JArray js) (91%N :: ts ++ [93%N]).
Proof.
  intros Hts IH n rest fuel name st Hn _ _ Hf. destruct (items_first _ _ Hts) as (w & c & r & Ets & Hw & Hc & H93).
  rewrite <- app_comm_cons, <- app_assoc in Hn. unfold value_switch.
  rewrite (bind_ok _ _ _ _ _ (GetChar_at n 91%N _ st Hn)). apply at_cons in Hn as (_ & _ & Hn). simpl.
  rewrite (bind_ok (callback _) _ _ tt (P (n + 1) (st ++ [EArray name]))) by done. unfold Parse_Array.
  subst ts. rewrite <- app_assoc in Hn. rewrite (open_at _ w 93%N c _ _ Hn Hw Hc H93). apply at_app in Hn.
  simpl in Hf. rewrite !length_app in Hf. simpl in Hf.
  rewrite (IH w (c :: r) _ rest fuel _ eq_refl Hw Hn) by (simpl; lia).
  rewrite (items_not_nil _ _ Hts), <- app_assoc, !length_app. simpl. do 2 f_equal. lia.
Qed.

Lemma reads_object ms ts : members_text ms ts -> reads_members ms ts -> reads_value (JObject ms) (123%N :: ts ++ [125%N]).
Proof.
  intros Hts IH n rest fuel name st Hn _ _ Hf. destruct (members_first _ _ Hts) as (w & r & Ets & Hw).
  rewrite <- app_comm_cons, <- app_assoc in Hn. unfold value_switch.
  rewrite (bind_ok _ _ _ _ _ (GetChar_at n 123%N _ st Hn)). apply at_cons in Hn as (_ & _ & Hn). simpl.
  rewrite (bind_ok (callback _) _ _ tt (P (n + 1) (st ++ [EObject name]))) by done. unfold Parse_Object.
  subst ts. rewrite <- app_assoc in Hn. rewrite (open_at _ w 125%N 34%N _ _ Hn Hw eq_refl ltac:(done)). apply at_app in Hn.
  simpl in Hf. rewrite !length_app in Hf. simpl in Hf.
  rewrite (IH w r _ rest fuel _ eq_refl Hw Hn) by lia.
  rewrite (members_not_nil _ _ Hts), <- app_assoc, !length_app. simpl. do 2 f_equal. lia.
Qed.

Lemma literal_no_space_end j w v : is_literal j = true -> value_text j v -> ~ ends_in_space (w ++ v).
Proof.
  intros Hl Hv (t0 & c & Heq & Hc).
  assert (exists v0 d, v = v0 ++ [d] /\ is_space d = false) as (v0 & d & -> & Hd).
  { destruct Hv; try done; [by exists [116; 114; 117]%N, 101%N|by exists [102; 97; 108; 115]%N, 101%N|by exists [110; 117; 108]%N, 108%N]. }
  rewrite app_assoc in Heq. apply app_inj_tail in Heq as [_ ->]. congruence.
Qed.

Lemma reads_element_case j w1 v w2 : white w1 -> value_text j v -> reads_value j v -> white w2 -> reads_element j (w1 ++ v ++ w2).
Proof.
  intros Hw1 Hv IH Hw2 w0 t n rest [|fuel] name st He Hw0 Hn Hr Hlit Hf; [lia|].
  destruct (value_first _ _ Hv) as (c & r & Ev & Hc & _).
  destruct (white_prefix w0 w1 (v ++ w2) t Hw0) as (w1' & -> & ->); [by subst v|by subst v|done|].
  apply white_app in Hw1 as [_ Hw1]. rewrite <- !app_assoc in Hn. cbn [Parse_Value].
  assert (solid (v ++ w2 ++ rest)) as Hsolid by (by subst v).
  rewrite (bind_ok _ _ _ _ _ (Whitespace_at n w1' _ st Hn Hw1 Hsolid)). apply at_app in Hn.
  rewrite !length_app in Hf.
  assert (is_literal j = true -> w2 ++ rest <> []) as Hne.
  { intros Hl Hnil. apply app_eq_nil in Hnil as [-> ->]. destruct (Hlit Hl) as [|Hend]; [done|].
    rewrite app_nil_r in Hend. by eapply literal_no_space_end. }
  assert (catch (value_switch document (object_loop document fuel) (array_loop document fuel) tt name) (value_error name)
    (P (n + length w1') st) = (Ok tt, P (n + length w1' + length v) (st ++ events name j))) as Hrun.
  { unfold catch. rewrite (IH _ (w2 ++ rest) fuel name st Hn); [done|by apply delimited_app|done|rewrite length_app; lia]. }
  rewrite (bind_ok _ _ _ _ _ Hrun). apply at_app in Hn.
  rewrite (Whitespace_at _ w2 rest _ Hn Hw2 (closes_solid _ Hr)), !length_app. do 2 f_equal. lia.
Qed.

Lemma items_last j t : element_text j t -> reads_element j t -> reads_items [j] t.
Proof.
  intros _ IH w0 t' n rest [|fuel] st Ht Hw0 Hn Hf; [lia|]. cbn [array_loop].
  rewrite (bind_ok _ _ _ _ _ (IH w0 t' n (93%N :: rest) fuel [] st Ht Hw0 Hn ltac:(simpl; tauto) ltac:(by left) ltac:(simpl; lia))).
  apply at_app in Hn. rewrite (bind_ok _ _ _ _ _ (GetChar_at _ 93%N rest _ Hn)). simpl.
  unfold callback. simpl. by rewrite app_nil_r, <- app_assoc.
Qed.

Lemma items_step j js t ts :
  element_text j t -> reads_element j t -> reads_items js ts -> reads_items (j :: js) (t ++ 44%N :: ts).
Proof.
  intros Ht IHe IHs w0 t' n rest [|fuel] st Heq Hw0 Hn Hf; [lia|].
  destruct (element_first _ _ Ht) as (w & c & r & Et & Hw & Hc & _). subst t. rewrite <- app_assoc in Heq. symmetry in Heq.
  destruct (white_prefix w0 w ((c :: r) ++ 44%N :: ts) t' Hw0 Hc ltac:(done) Heq) as (w' & -> & ->).
  rewrite app_assoc in Hn, Hf |- *. rewrite !length_app in Hf. cbn [length] in Hf. rewrite <- (app_assoc _ _ (93%N :: rest)) in Hn.
  cbn [array_loop].
  rewrite (bind_ok _ _ _ _ _ (IHe w0 (w' ++ c :: r) n (44%N :: ts ++ 93%N :: rest) fuel [] st
    ltac:(by rewrite <- !app_assoc) Hw0 Hn ltac:(simpl; tauto) ltac:(by left)
    ltac:(rewrite !length_app; cbn [length]; rewrite length_app; cbn [length]; lia))).
  apply at_app in Hn. rewrite (bind_ok _ _ _ _ _ (GetChar_at _ 44%N _ _ Hn)). apply at_cons in Hn as (_ & _ & Hn).
  change (44 =? 44)%N with true. cbv iota.
  rewrite (IHs [] ts _ rest fuel _ eq_refl eq_refl Hn) by lia.
  rewrite !length_app. cbn [length flat_map]. rewrite <- !app_assoc. do 2 f_equal. lia.
Qed.

Lemma member_prefix w0 w1 t u : white w0 -> white w1 -> w0 ++ 34%N :: t = w1 ++ 34%N :: u -> t = u.
Proof.
  revert w1. induction w0 as [|c w0 IH]; intros [|d w1] H0 H1 Heq; unfold white in *; simpl in *; simplify_eq; try done.
  apply andb_true_iff in H0 as [_ H0], H1 as [_ H1]. by apply (IH w1).
Qed.

(** A member up to the value it names. *)
Lemma member_at n t w2 rest k st (m : bytes -> M (parser (list event)) exn unit) :
  drop n document = 34%N :: t ++ 34%N :: w2 ++ 58%N :: rest -> string_text k t -> white w2 ->
  (quote ← SkipChar document 34%N;
   if negb quote then throw (runtime_error ExpectingName)
   else
     name ← Parse_String document;
     _ ← Parse_Whitespace document;
     c ← GetChar document;
     if negb (c =? 58)%N then throw (runtime_error ExpectingColon) else m name) (P n st) =
  m k (P (n + length t + length w2 + 3) st) /\ drop (n + length t + length w2 + 3) document = rest.
Proof.
  intros Hn Hk Hw2. rewrite (bind_ok _ _ _ _ _ (SkipChar_at n 34%N 34%N _ st Hn)). cbn [negb].
  apply at_cons in Hn as (_ & _ & Hn). rewrite (bind_ok _ _ _ _ _ (String_at _ k t _ st Hn Hk)).
  apply at_app, at_cons in Hn as (_ & _ & Hn). rewrite (bind_ok _ _ _ _ _ (Whitespace_at _ w2 _ st Hn Hw2 ltac:(done))).
  apply at_app in Hn. rewrite (bind_ok _ _ _ _ _ (GetChar_at _ 58%N _ _ Hn)). apply at_cons in Hn as (_ & _ & Hn).
  change (negb (58 =? 58)%N) with false. cbv iota.
  replace (n + length t + length w2 + 3) with (n + 1 + length t + 1 + length w2 + 1) by lia. done.
Qed.

Lemma object_loop_S fuel :
  object_loop document (Datatypes.S fuel) tt = (quote ← SkipChar document 34%N;
   if negb quote then throw (runtime_error ExpectingName)
   else
     name ← Parse_String document;
     _ ← Parse_Whitespace document;
     c ← GetChar document;
     if negb (c =? 58)%N then throw (runtime_error ExpectingColon)
     else
       _ ← Parse_Value document fuel tt name; c ← GetChar document;
       if (c =? 44)%N then _ ← Parse_Whitespace document; object_loop document fuel tt
       else if (c =? 125)%N then callback (OnComplete tt false) else throw (runtime_error ExpectingBraceOrComma)).
Proof. done. Qed.

Lemma members_last k j w1 t w2 e :
  white w1 -> string_text k t -> white w2 -> reads_element j e ->
  reads_members [(k, j)] (w1 ++ 34%N :: t ++ 34%N :: w2 ++ 58%N :: e).
Proof.
  intros Hw1 Hk Hw2 IH w0 t' n rest [|fuel] st Heq Hw0 Hn Hf; [lia|].
  apply (eq_sym) in Heq. apply member_prefix in Heq as ->; [|done..].
  rewrite <- !app_assoc, <- app_comm_cons, <- app_assoc, <- app_comm_cons in Hn.
  rewrite !length_app in Hf. cbn [length] in Hf. rewrite !length_app in Hf. cbn [length] in Hf. rewrite object_loop_S.
  destruct (member_at n t w2 (e ++ 125%N :: rest) k st (fun name =>
    _ ← Parse_Value document fuel tt name; c ← GetChar document;
    if (c =? 44)%N then _ ← Parse_Whitespace document; object_loop document fuel tt
    else if (c =? 125)%N then callback (OnComplete tt false) else throw (runtime_error ExpectingBraceOrComma)) Hn Hk Hw2)
    as [-> Hn'].
  rewrite (bind_ok _ _ _ _ _ (IH [] e _ (125%N :: rest) fuel k st eq_refl eq_refl Hn' ltac:(simpl; tauto) ltac:(by left) ltac:(simpl; lia))).
  apply at_app in Hn'. rewrite (bind_ok _ _ _ _ _ (GetChar_at _ 125%N rest _ Hn')). simpl. unfold callback. simpl.
  rewrite app_nil_r, <- app_assoc, !length_app. simpl. rewrite length_app. simpl. do 2 f_equal. lia.
Qed.

Lemma members_step k j ms w1 t w2 e ts :
  white w1 -> string_text k t -> white w2 -> reads_element j e -> members_text ms ts -> reads_members ms ts ->
  reads_members ((k, j) :: ms) (w1 ++ 34%N :: t ++ 34%N :: w2 ++ 58%N :: e ++ 44%N :: ts).
Proof.
  intros Hw1 Hk Hw2 IHe Hts IHs w0 t' n rest [|fuel] st Heq Hw0 Hn Hf; [lia|].
  apply (eq_sym) in Heq. apply member_prefix in Heq as ->; [|done..].
  destruct (members_first _ _ Hts) as (w & r & Ets & Hw).
  rewrite <- !app_assoc, <- app_comm_cons, <- app_assoc, <- app_comm_cons, <- app_assoc, <- app_comm_cons in Hn.
  rewrite !length_app in Hf. cbn [length] in Hf. rewrite !length_app in Hf. cbn [length] in Hf.
  rewrite length_app in Hf. cbn [length] in Hf. rewrite object_loop_S.
  destruct (member_at n t w2 (e ++ 44%N :: ts ++ 125%N :: rest) k st (fun name =>
    _ ← Parse_Value document fuel tt name; c ← GetChar document;
    if (c =? 44)%N then _ ← Parse_Whitespace document; object_loop document fuel tt
    else if (c =? 125)%N then callback (OnComplete tt false) else throw (runtime_error ExpectingBraceOrComma)) Hn Hk Hw2)
    as [-> Hn'].
  rewrite (bind_ok _ _ _ _ _ (IHe [] e _ (44%N :: ts ++ 125%N :: rest) fuel k st eq_refl eq_refl Hn' ltac:(simpl; tauto)
    ltac:(by left) ltac:(cbn [length]; rewrite length_app; cbn [length]; lia))).
  apply at_app in Hn'. rewrite (bind_ok _ _ _ _ _ (GetChar_at _ 44%N _ _ Hn')). apply at_cons in Hn' as (_ & _ & Hn').
  change (44 =? 44)%N with true. cbv iota.
  assert (length ts = length w + (1 + length r)) as Elen by (by rewrite Ets, length_app).
  rewrite Ets in Hn'. rewrite <- app_assoc in Hn'.
  rewrite (bind_ok _ _ _ _ _ (Whitespace_at _ w _ _ Hn' Hw ltac:(done))). apply at_app in Hn'.
  rewrite (IHs w r _ rest fuel _ Ets Hw Hn') by lia.
  rewrite !length_app. cbn [length flat_map fst snd]. rewrite !length_app. cbn [length]. rewrite !length_app. cbn [length].
  rewrite <- !app_assoc. do 2 f_equal. lia.
Qed.

Lemma reads_text :
  (forall j v, value_text j v -> reads_value j v) /\ (forall j e, element_text j e -> reads_element j e) /\
  (forall js ts, items_text js ts -> reads_items js ts) /\ (forall ms ts, members_text ms ts -> reads_members ms ts).
Proof.
  apply text_mutind; intros.
  - by apply reads_string.
  - by apply reads_number.
  - eapply reads_literal. left. done.
  - eapply reads_literal. right. left. done.
  - eapply reads_literal. right. right. done.
  - by apply reads_empty_array.
  - by apply reads_array.
  - by apply reads_empty_object.
  - by apply reads_object.
  - by apply reads_element_case.
  - by apply items_last.
  - by apply items_step.
  - by apply members_last.
  - by apply members_step.
Qed.
End Completeness.


(** ** Escapes *)

Lemma lor_table b n x :
  forallb (fun k => N.lor b (N.of_nat k) =? b + N.of_nat k)%N (seq 0 n) = true -> (x < N.of_nat n)%N ->
  N.lor b x = (b + x)%N.
Proof.
  intros Ht Hx. rewrite forallb_forall in Ht. specialize (Ht (N.to_nat x)).
  rewrite N2Nat.id in Ht. apply N.eqb_eq, Ht, in_seq. lia.
Qed.

Lemma continuation_byte x : to_char (N.lor 0x80 (N.land x 0x3f)) = (0x80 + x mod 64)%N.
Proof.
  change 0x3f%N with (N.ones 6). rewrite N.land_ones. pose proof (N.mod_lt x 64 ltac:(done)) as Hx.
  change (2 ^ 6)%N with 64%N. rewrite (lor_table 0x80 64) by done. unfold to_char. apply N.mod_small. lia.
Qed.

Lemma lead_byte b n x : (b + N.of_nat n <= 256)%N ->
  forallb (fun k => N.lor b (N.of_nat k) =? b + N.of_nat k)%N (seq 0 n) = true -> (x < N.of_nat n)%N ->
  to_char (N.lor b x) = (b + x)%N.
Proof. intros Hb Ht Hx. rewrite (lor_table b n) by done. unfold to_char. apply N.mod_small. lia. Qed.

Lemma Append_Utf8_encodes out c : scalar_value c -> Append_Utf8 out c = out ++ utf8_encode c.
Proof.
  intros Hc. unfold Append_Utf8, utf8_encode, scalar_value in *. rewrite !continuation_byte, !N.shiftr_div_pow2.
  change (2 ^ 6)%N with 64%N. change (2 ^ 12)%N with 4096%N. change (2 ^ 18)%N with 262144%N.
  destruct (N.leb_spec c 0x7f), (N.ltb_spec c 0x80); try lia.
  { unfold to_char. by rewrite N.mod_small by lia. }
  destruct (N.leb_spec c 0x7ff), (N.ltb_spec c 0x800); try lia.
  { rewrite (lead_byte 0xc0 32); [done|done|done|]. apply N.Div0.div_lt_upper_bound. simpl. lia. }
  destruct (N.leb_spec c 0xffff), (N.ltb_spec c 0x10000); try lia.
  - rewrite (lead_byte 0xe0 16); [done|done|done|]. apply N.Div0.div_lt_upper_bound. simpl. lia.
  - rewrite (lead_byte 0xf0 8); [done|done|done|]. apply N.Div0.div_lt_upper_bound. simpl. lia.
Qed.

Lemma hex_digit_lt c v : hex_digit c = Some v -> (v < 16)%N.
Proof.
  unfold hex_digit, is_digit. destruct (N.leb_spec 48 c), (N.leb_spec c 57); simpl; intros; simplify_eq; try lia;
    destruct (N.leb_spec 97 c), (N.leb_spec c 102); simpl in *; simplify_eq; try lia;
    destruct (N.leb_spec 65 c), (N.leb_spec c 70); simpl in *; simplify_eq; lia.
Qed.

Lemma hex4_lt h v : hex4 h = Some v -> (v < 0x10000)%N.
Proof.
  destruct h as [|a [|b [|c [|d [|]]]]]; try done. unfold hex4. intros Hv.
  destruct (hex_digit a) eqn:Ea; [|done]. destruct (hex_digit b) eqn:Eb; [|done].
  destruct (hex_digit c) eqn:Ec; [|done]. destruct (hex_digit d) eqn:Ed; [|done].
  apply hex_digit_lt in Ea, Eb, Ec, Ed. simpl in Hv. simplify_eq. lia.
Qed.

Lemma Hex4_lt {S} document (s s' : parser S) v : Parse_Hex4 document s = (Ok v, s') -> (v < 0x10000)%N.
Proof.
  unfold Parse_Hex4. unfold_m. destruct (_ <? _); [done|]. destruct (hex4 _) eqn:E; [|done].
  intros [= <- _]. by eapply hex4_lt.
Qed.

(** A [\u] escape, alone or as a surrogate pair, is either rejected or decoded to a
    Unicode scalar value, and what is appended to the string is exactly that value's
    UTF-8 encoding: the reader never turns an escape into malformed UTF-8. *)
Theorem json_escapes_are_utf8 {S} document (s s' : parser S) codepoint :
  Parse_Codepoint document s = (Ok codepoint, s') ->
  scalar_value codepoint /\ forall string, Append_Utf8 string codepoint = string ++ utf8_encode codepoint.
Proof.
  intros Hrun. assert (scalar_value codepoint) as Hsc; [|split; [done|intros; by apply Append_Utf8_encodes]].
  unfold Parse_Codepoint in Hrun. apply bind_inv_ok in Hrun as (hi & s1 & Hhi & Hrun). apply Hex4_lt in Hhi.
  unfold scalar_value. destruct (N.leb_spec 0xd800 hi), (N.leb_spec hi 0xdbff); cbn [andb] in Hrun; [|
    destruct (N.leb_spec 0xdc00 hi), (N.leb_spec hi 0xdfff); cbn [andb] in Hrun; try done;
      injection Hrun as <- _; lia..].
  apply bind_inv_ok in Hrun as (b & s2 & _ & Hrun). apply bind_inv_ok in Hrun as (u & s3 & _ & Hrun).
  destruct (negb u); [done|]. apply bind_inv_ok in Hrun as (lo & s4 & _ & Hrun).
  destruct (N.ltb_spec lo 0xdc00), (N.ltb_spec 0xdfff lo); try done. cbn [orb] in Hrun. injection Hrun as <- _.
  rewrite N.shiftl_mul_pow2. change (2 ^ 10)%N with 1024%N. lia.
Qed.

(** ** Samples *)

(** The document  {"a": [1, true, "\u00e9"], "b": {}}  and a line feed. *)
Definition sample_document : bytes :=
  [123; 34; 97; 34; 58; 32; 91; 49; 44; 32; 116; 114; 117; 101; 44; 32; 34; 92; 117; 48; 48; 101; 57; 34; 93; 44; 32;
   34; 98; 34; 58; 32; 123; 125; 125; 10]%N.

Definition sample_one : spec_float := S754_finite false 4503599627370496 (-52).

Definition sample_json : json :=
  JObject [([97%N], JArray [JNumber sample_one; JBool true; JString [195; 169]%N]); ([98%N], JObject [])].

Lemma sample_text : element_text sample_json sample_document.
Proof.
  apply (et_value sample_json [] [123; 34; 97; 34; 58; 32; 91; 49; 44; 32; 116; 114; 117; 101; 44; 32; 34; 92; 117; 48; 48; 101; 57; 34; 93; 44; 32;
    34; 98; 34; 58; 32; 123; 125; 125]%N [10%N]); [done| |done].
  apply (vt_object _ [34; 97; 34; 58; 32; 91; 49; 44; 32; 116; 114; 117; 101; 44; 32; 34; 92; 117; 48; 48; 101; 57; 34; 93; 44; 32;
    34; 98; 34; 58; 32; 123; 125]%N).
  apply (mt_more [97%N] _ _ [] [97%N] [] [32; 91; 49; 44; 32; 116; 114; 117; 101; 44; 32; 34; 92; 117; 48; 48; 101; 57; 34; 93]%N
    [32; 34; 98; 34; 58; 32; 123; 125]%N); [done|apply st_raw; [lia|done|done|constructor]|done| |].
  - apply (et_value _ [32%N] [91; 49; 44; 32; 116; 114; 117; 101; 44; 32; 34; 92; 117; 48; 48; 101; 57; 34; 93]%N []); [done| |done].
    apply (vt_array _ [49; 44; 32; 116; 114; 117; 101; 44; 32; 34; 92; 117; 48; 48; 101; 57; 34]%N).
    apply (it_more _ _ [49%N] [32; 116; 114; 117; 101; 44; 32; 34; 92; 117; 48; 48; 101; 57; 34]%N).
    + apply (et_value _ [] [49%N] []); [done| |done]. apply vt_number; [|by vm_compute].
      apply (number_parts false [49%N] [] []); [done|by left|by left].
    + apply (it_more _ _ [32; 116; 114; 117; 101]%N [32; 34; 92; 117; 48; 48; 101; 57; 34]%N).
      * apply (et_value _ [32%N] [116; 114; 117; 101]%N []); [done|apply vt_true|done].
      * apply it_one. apply (et_value _ [32%N] [34; 92; 117; 48; 48; 101; 57; 34]%N []); [done| |done].
        apply (vt_string _ [92; 117; 48; 48; 101; 57]%N).
        apply (st_unicode [48; 48; 101; 57]%N 0xe9 [] []); [done|by left|constructor].
  - apply (mt_one [98%N] _ [32%N] [98%N] [] [32; 123; 125]%N); [done|apply st_raw; [lia|done|done|constructor]|done|].
    apply (et_value _ [32%N] [123; 125]%N []); [done|by apply (vt_object_empty [])|done].
Qed.

Lemma recorder_well_behaved : well_behaved (H := unit) (S := list event).
Proof. split_and!; done. Qed.

Lemma json_total_witness :
  match Parse tt [91; 49]%N ([] : list event) with
  | (Throw (runtime_error (JsonError _ line index)), _) =>
      exists n, n <= 2 /\ line = 1 + line_feeds (take n [91; 49]%N) /\ index <= n
  | _ => False
  end.
Proof.
  pose proof (json_total (H := unit) tt [91; 49]%N ([] : list event) recorder_well_behaved) as Ht.
  vm_compute in Ht |- *. exact Ht.
Defined.


Lemma json_escapes_are_utf8_witness :
  scalar_value 0x1F600 /\ Append_Utf8 [] 0x1F600 = [240; 159; 152; 128]%N.
Proof.
  destruct (json_escapes_are_utf8 [100; 56; 51; 100; 92; 117; 100; 101; 48; 48]%N (mkParser 0 tt) (mkParser 10 tt) 0x1F600
    ltac:(vm_compute; reflexivity)) as [Hs Happ].
  split; [exact Hs|]. rewrite Happ. vm_compute. reflexivity.
Defined.

(** A literal cut short is not an error when what follows happens to be a delimiter:
    [[t]] is read as an array whose item is silently missing. *)
Lemma truncated_literal_accepted :
  Parse tt [91; 116; 93]%N ([] : list event) = (Ok tt, [EArray []; EComplete false; EComplete false]).
Proof. vm_compute. reflexivity. Qed.

(** A bare literal that ends the document is dropped. *)
Lemma final_literal_dropped :
  Parse tt [116; 114; 117; 101]%N ([] : list event) = (Ok tt, [EComplete false]).
Proof. vm_compute. reflexivity. Qed.
