(* ===== verification/TurnPolicy.v ===== *)
(** * The generation policy of a turn

    Models [engine/turn_policy.{h,cpp}]: how the policy of a turn is resolved from the
    model's search defaults and the options of the turn, and which resolved policies
    are admitted.  [float] is IEEE binary32 as specified by the Standard Library's
    [spec_float]; [int] is [Z] and [size_t] is [N]. *)

From S2P Require Import Prelude.
From Stdlib Require Import SpecFloat QArith.

Open Scope N_scope.

Definition float := spec_float.

Definition zero32 : float := S754_zero false.
Definition one32 : float := S754_finite false 8388608 (-23).

Definition isfinite (x : float) : bool :=
  match x with S754_zero _ | S754_finite _ _ _ => true | _ => false end.

Inductive DeviceType : Type :=
  | CPU | CUDA | DML | WEBGPU | QnnHtp | QnnGpu | OpenVINO | NvTensorRtRtx | RyzenAI | AMDGPU | MAX.
#[global] Instance DeviceType_eq_dec : EqDecision DeviceType.
Proof. solve_decision. Defined.

(** The fields of [Config::Search] that are read. *)
Record Search : Type := mkSearch
  { search_do_sample : bool;
    search_temperature : float;
    search_top_p : float;
    search_top_k : Z;
    search_repetition_penalty : float;
    search_no_repeat_ngram_size : Z }.

(** The fields of [TurnOptions] that are read. *)
Record TurnOptions : Type := mkTurnOptions
  { opt_max_generated_tokens : option N;
    opt_min_generated_tokens : option N;
    opt_do_sample : option bool;
    opt_temperature : option float;
    opt_top_p : option float;
    opt_top_k : option Z;
    opt_repetition_penalty : option float;
    opt_no_repeat_ngram_size : option Z }.

Record EffectiveTurnPolicy : Type := mkPolicy
  { do_sample : bool;
    temperature : float;
    top_p : float;
    top_k : Z;
    repetition_penalty : float;
    no_repeat_ngram_size : Z;
    min_generated_tokens : N;
    max_generated_tokens : option N }.

Definition IsGreedy (p : EffectiveTurnPolicy) : bool :=
  negb (do_sample p) || (top_k p =? 1)%Z || SFeqb (temperature p) zero32.

Definition SupportsNoRepeatNgram (d : DeviceType) : bool := bool_decide (d = CPU).

Definition ResolveTurnPolicy (model_defaults : Search) (options : TurnOptions) : EffectiveTurnPolicy :=
  mkPolicy (default (search_do_sample model_defaults) (opt_do_sample options))
    (default (search_temperature model_defaults) (opt_temperature options))
    (default (search_top_p model_defaults) (opt_top_p options))
    (default (search_top_k model_defaults) (opt_top_k options))
    (default (search_repetition_penalty model_defaults) (opt_repetition_penalty options))
    (default (search_no_repeat_ngram_size model_defaults) (opt_no_repeat_ngram_size options))
    (default 0 (opt_min_generated_tokens options))
    (opt_max_generated_tokens options).

Inductive scalar : Type := Temperature | TopP | TopK.
Inductive cause : Type := DoSampleFalse | TopKIsOne | TemperatureIsZero.

Inductive TurnError : Type :=
  | BadTemperature (t : float)
  | BadTopP (p : float)
  | BadTopK (k : Z)
  | BadRepetitionPenalty (r : float)
  | BadNgramSize (n : Z)
  | NgramUnsupported (d : DeviceType)
  | UnknownDevice
  | ModelSuppliedGreedy (causes : list cause)
  | ContradictoryScalars (causes : list cause) (fields : list scalar)
  | ModelTopKExceedsVocab (k vocab : Z)
  | TopKExceedsVocab (k vocab : Z)
  | NothingToSample
  | MinExceedsMax (min max : N)
  | MinDoesNotFit (min prompt session : N).

Abbreviation TM := (outcome TurnError).

#[local] Instance outcome_bind {E} : MBind (outcome E) := fun A B f m =>
  match m with Ok a => f a | Throw e => Throw e | Terminate => Terminate | Undefined => Undefined end.

Definition reject_if (b : bool) (e : TurnError) : TM unit := if b then Throw e else Ok tt.

Definition has_value {A} (o : option A) : bool := match o with Some _ => true | None => false end.

(** The ranges of the scalars. *)
Definition check_ranges (policy : EffectiveTurnPolicy) (device : DeviceType) : TM unit :=
  _ ← reject_if (negb (isfinite (temperature policy)) || SFltb (temperature policy) zero32)
    (BadTemperature (temperature policy));
  _ ← reject_if (negb (isfinite (top_p policy)) || SFltb (top_p policy) zero32 || SFltb one32 (top_p policy))
    (BadTopP (top_p policy));
  _ ← reject_if (top_k policy <? 0)%Z (BadTopK (top_k policy));
  _ ← reject_if (negb (isfinite (repetition_penalty policy)) || SFleb (repetition_penalty policy) zero32)
    (BadRepetitionPenalty (repetition_penalty policy));
  _ ← reject_if (no_repeat_ngram_size policy <? 0)%Z (BadNgramSize (no_repeat_ngram_size policy));
  reject_if ((0 <? no_repeat_ngram_size policy)%Z && negb (SupportsNoRepeatNgram device))
    (if decide (device = MAX) then UnknownDevice else NgramUnsupported device).

Definition model_causes (policy : EffectiveTurnPolicy) : list cause :=
  (if (top_k policy =? 1)%Z then [TopKIsOne] else []) ++
  (if SFeqb (temperature policy) zero32 then [TemperatureIsZero] else []).

Definition greedy_causes (policy : EffectiveTurnPolicy) : list cause :=
  (if negb (do_sample policy) then [DoSampleFalse] else []) ++ model_causes policy.

Definition contradictory (policy : EffectiveTurnPolicy) (options : TurnOptions) : list scalar :=
  (if has_value (opt_temperature options) && negb (SFeqb (temperature policy) zero32) &&
      negb (SFeqb (temperature policy) one32) then [Temperature] else []) ++
  (if has_value (opt_top_p options) && SFltb zero32 (top_p policy) && SFltb (top_p policy) one32 then [TopP] else []) ++
  (if has_value (opt_top_k options) && (1 <? top_k policy)%Z then [TopK] else []).

Definition caller_requested_greedy (policy : EffectiveTurnPolicy) (options : TurnOptions) : bool :=
  (has_value (opt_top_k options) && (top_k policy =? 1)%Z) ||
  (has_value (opt_temperature options) && SFeqb (temperature policy) zero32).

(** The branch for a policy that selects the top logit; the [assert] aborts. *)
Definition check_greedy (policy : EffectiveTurnPolicy) (options : TurnOptions) : TM unit :=
  _ ← (if default false (opt_do_sample options) && negb (caller_requested_greedy policy options) then
         match model_causes policy with
         | [] => Terminate
         | causes => Throw (ModelSuppliedGreedy causes)
         end
       else Ok tt);
  match contradictory policy options with
  | [] => Ok tt
  | fields => Throw (ContradictoryScalars (greedy_causes policy) fields)
  end.

Definition check_sampled (policy : EffectiveTurnPolicy) (options : TurnOptions) (vocab_size : Z) : TM unit :=
  _ ← reject_if (vocab_size <? top_k policy)%Z
    (if has_value (opt_top_k options) then TopKExceedsVocab (top_k policy) vocab_size
     else ModelTopKExceedsVocab (top_k policy) vocab_size);
  reject_if ((top_k policy =? 0)%Z && SFeqb (top_p policy) zero32) NothingToSample.

Definition check_lengths (policy : EffectiveTurnPolicy) (turn_prompt_length max_session_tokens : N) : TM unit :=
  let min := min_generated_tokens policy in
  if min =? 0 then Ok tt
  else
    _ ← (match max_generated_tokens policy with
         | Some max => reject_if (max <? min) (MinExceedsMax min max)
         | None => Ok tt
         end);
    let remaining_session_tokens :=
      if turn_prompt_length <? max_session_tokens then max_session_tokens - turn_prompt_length else 0 in
    reject_if (remaining_session_tokens <? min) (MinDoesNotFit min turn_prompt_length max_session_tokens).

Definition ValidateTurnPolicy (policy : EffectiveTurnPolicy) (options : TurnOptions) (scoring_device_type : DeviceType)
    (vocab_size : Z) (turn_prompt_length max_session_tokens : N) : TM unit :=
  _ ← check_ranges policy scoring_device_type;
  _ ← (if IsGreedy policy then check_greedy policy options else check_sampled policy options vocab_size);
  check_lengths policy turn_prompt_length max_session_tokens.

(** ** The rational value of a float *)

Open Scope Q_scope.

Definition value (x : float) : option Q :=
  match x with
  | S754_zero _ => Some 0
  | S754_finite s m e =>
      Some (let q := match e with
                     | Z.neg p => Z.pos m # (2 ^ p)
                     | _ => inject_Z (Z.pos m * 2 ^ e)
                     end in if s then - q else q)
  | _ => None
  end.

(** A binary32 number: at most 24 bits, exactly 24 unless subnormal. *)
Definition binary32 (x : float) : Prop := valid_binary 24 128 x = true.

Lemma isfinite_value x : isfinite x = true <-> is_Some (value x).
Proof. destruct x; simpl; split; intros Hx; try done; try (by eexists); by destruct Hx. Qed.

Lemma magnitude_pos m e : 0 < match e with Z.neg p => Z.pos m # (2 ^ p) | _ => inject_Z (Z.pos m * 2 ^ e) end.
Proof. destruct e; unfold Qlt, inject_Z; simpl; try lia. Qed.

Lemma compare_zero x q : value x = Some q ->
  SFcompare x zero32 = Some (q ?= 0) /\ SFcompare zero32 x = Some (0 ?= q).
Proof.
  destruct x as [s| | |s m e]; simpl; try done; intros [= <-]; [done|].
  pose proof (magnitude_pos m e) as Hm.
  destruct s; split; f_equal; symmetry.
  - apply Qlt_alt. apply Qopp_lt_compat in Hm. exact Hm.
  - apply Qgt_alt. apply Qopp_lt_compat in Hm. exact Hm.
  - by apply Qgt_alt.
  - by apply Qlt_alt.
Qed.

(** ** Comparison with one *)

Lemma digits2_bounds m : (2 ^ (Z.pos (digits2_pos m) - 1) <= Z.pos m < 2 ^ Z.pos (digits2_pos m))%Z.
Proof.
  induction m as [m IH|m IH|]; simpl digits2_pos; try lia.
  - rewrite Pos2Z.inj_succ. replace (Z.succ (Z.pos (digits2_pos m)) - 1)%Z with (Z.pos (digits2_pos m)) by lia.
    rewrite Z.pow_succ_r by lia. replace (Z.pos (digits2_pos m)) with (1 + (Z.pos (digits2_pos m) - 1))%Z at 1 by lia.
    rewrite Z.pow_add_r by lia. lia.
  - rewrite Pos2Z.inj_succ. replace (Z.succ (Z.pos (digits2_pos m)) - 1)%Z with (Z.pos (digits2_pos m)) by lia.
    rewrite Z.pow_succ_r by lia. replace (Z.pos (digits2_pos m)) with (1 + (Z.pos (digits2_pos m) - 1))%Z at 1 by lia.
    rewrite Z.pow_add_r by lia. lia.
Qed.

Lemma binary32_bits s m e : binary32 (S754_finite s m e) ->
  (Z.pos (digits2_pos m) <= 24 /\ -149 <= e /\ (-149 < e -> Z.pos (digits2_pos m) = 24))%Z.
Proof.
  unfold binary32, valid_binary, bounded, canonical_mantissa, fexp, emin. rewrite andb_true_iff, Z.eqb_eq. lia.
Qed.

Lemma pow2_pos p : Z.pos (2 ^ p) = (2 ^ Z.pos p)%Z.
Proof. by rewrite Pos2Z.inj_pow. Qed.

Lemma compare_cont_compare m n : Pos.compare_cont Eq m n = (m ?= n)%positive.
Proof. reflexivity. Qed.

Lemma compare_flip c m n :
  match CompOpp c with Eq => Pos.compare_cont Eq n m | Lt => Lt | Gt => Gt end =
  CompOpp (match c with Eq => Pos.compare_cont Eq m n | Lt => Lt | Gt => Gt end).
Proof. destruct c; [|done..]. cbn [CompOpp]. rewrite !compare_cont_compare. apply Pos.compare_antisym. Qed.

(** The magnitude [m * 2^e] against one is the float comparison. *)
Lemma magnitude_one m e s : binary32 (S754_finite s m e) ->
  match (e ?= -23)%Z with Lt => Lt | Gt => Gt | Eq => Pos.compare_cont Eq m 8388608 end =
  (match e with Z.neg p => Z.pos m # (2 ^ p) | _ => inject_Z (Z.pos m * 2 ^ e) end ?= 1).
Proof.
  intros Hb. destruct (binary32_bits _ _ _ Hb) as (Hd & He & Hn). pose proof (digits2_bounds m) as [Hlo Hhi].
  unfold Qcompare. destruct (Z.compare_spec e (-23)) as [->|Hlt|Hgt].
  - cbn [Qnum Qden]. rewrite Z.mul_1_r, Z.mul_1_l. replace (2 ^ 23)%positive with 8388608%positive by (by vm_compute).
    by rewrite compare_cont_compare, Pos2Z.inj_compare.
  - destruct e as [|p|p]; try lia. cbn [Qnum Qden]. symmetry. apply Z.compare_lt_iff.
    rewrite Z.mul_1_r, Z.mul_1_l, pow2_pos. eapply Z.lt_le_trans; [exact Hhi|]. apply Z.pow_le_mono_r; lia.
  - assert (Z.pos (digits2_pos m) = 24)%Z as E by lia. rewrite E in Hlo. change (2 ^ (24 - 1))%Z with 8388608%Z in Hlo.
    symmetry. apply Z.compare_gt_iff. destruct e as [|p|p]; cbn [Qnum Qden inject_Z].
    + lia.
    + assert (0 < 2 ^ Z.pos p)%Z by (apply Z.pow_pos_nonneg; lia). nia.
    + rewrite Z.mul_1_l, Z.mul_1_r, pow2_pos. apply (Z.lt_le_trans _ (2 ^ 23)); [|exact Hlo]. apply Z.pow_lt_mono_r; lia.
Qed.

Lemma compare_one x q : binary32 x -> value x = Some q ->
  SFcompare x one32 = Some (q ?= 1) /\ SFcompare one32 x = Some (1 ?= q).
Proof.
  intros Hb Hv. destruct x as [s|s| |s m e]; try discriminate Hv; injection Hv as <-; [split; reflexivity|].
  cbn [SFcompare one32]. pose proof (magnitude_one m e s Hb) as Hm. pose proof (magnitude_pos m e) as Hp.
  destruct s.
  - assert (forall r, 0 < r -> - r < 1) as Hneg by (intros r Hr; apply (Qlt_trans _ 0); [apply Qopp_lt_compat in Hr; exact Hr|done]).
    split; f_equal; symmetry; [apply Qlt_alt|apply Qgt_alt]; by apply Hneg.
  - cbv beta iota zeta. set (q := match e with Z.neg p => _ | _ => _ end) in *. split; f_equal; [exact Hm|].
    rewrite <- (Qcompare_antisym q 1), <- Hm, (Z.compare_antisym e). apply compare_flip.
Qed.

Lemma zero_tests x q : value x = Some q ->
  (SFltb x zero32 = true <-> q < 0) /\ (SFleb x zero32 = true <-> q <= 0) /\
  (SFeqb x zero32 = true <-> q == 0) /\ (SFltb zero32 x = true <-> 0 < q).
Proof.
  intros [H1 H2]%compare_zero. unfold SFltb, SFleb, SFeqb. rewrite H1, H2, !Qlt_alt, Qeq_alt, Qle_alt.
  destruct (q ?= 0), (0 ?= q); naive_solver.
Qed.

Lemma one_tests x q : binary32 x -> value x = Some q ->
  (SFltb one32 x = true <-> 1 < q) /\ (SFltb x one32 = true <-> q < 1) /\ (SFeqb x one32 = true <-> q == 1).
Proof.
  intros Hb [H1 H2]%(compare_one _ _ Hb). unfold SFltb, SFeqb. rewrite H1, H2, !Qlt_alt, Qeq_alt.
  destruct (q ?= 1), (1 ?= q); naive_solver.
Qed.

(** ** Which policies a turn may run under *)

(** The scalars are in range, and an n-gram restriction has a device that applies it. *)
Record in_ranges (p : EffectiveTurnPolicy) (device : DeviceType) : Prop := mk_in_ranges
  { range_temperature : exists t, value (temperature p) = Some t /\ 0 <= t;
    range_top_p : exists q, value (top_p p) = Some q /\ 0 <= q <= 1;
    range_top_k : (0 <= top_k p)%Z;
    range_penalty : exists r, value (repetition_penalty p) = Some r /\ 0 < r;
    range_ngram : no_repeat_ngram_size p = 0%Z \/ (0 < no_repeat_ngram_size p)%Z /\ device = CPU }.

(** The turn selects the top logit. *)
Definition greedy (p : EffectiveTurnPolicy) : Prop :=
  do_sample p = false \/ top_k p = 1%Z \/ exists t, value (temperature p) = Some t /\ t == 0.

(** A greedy turn: nobody who asked for sampling was overruled by the model, and no
    option of the turn asks for a distribution. *)
Record greedy_agreed (p : EffectiveTurnPolicy) (o : TurnOptions) : Prop := mk_greedy_agreed
  { agreed_sample : opt_do_sample o = Some true ->
      is_Some (opt_top_k o) /\ top_k p = 1%Z \/
      is_Some (opt_temperature o) /\ exists t, value (temperature p) = Some t /\ t == 0;
    agreed_temperature : is_Some (opt_temperature o) -> exists t, value (temperature p) = Some t /\ (t == 0 \/ t == 1);
    agreed_top_p : is_Some (opt_top_p o) -> exists q, value (top_p p) = Some q /\ (q <= 0 \/ 1 <= q);
    agreed_top_k : is_Some (opt_top_k o) -> (top_k p <= 1)%Z }.

(** A sampled turn draws from something, within the vocabulary. *)
Definition sample_possible (p : EffectiveTurnPolicy) (vocab_size : Z) : Prop :=
  (top_k p <= vocab_size)%Z /\ (top_k p <> 0%Z \/ exists q, value (top_p p) = Some q /\ ~ q == 0).

(** The floor on generated tokens fits below the ceiling and inside the session. *)
Definition lengths_fit (p : EffectiveTurnPolicy) (prompt session : N) : Prop :=
  min_generated_tokens p = 0%N \/
  (forall m, max_generated_tokens p = Some m -> (min_generated_tokens p <= m)%N) /\
  (prompt + min_generated_tokens p <= session)%N.

(** A check decides a property: it returns exactly when the property holds. *)
Definition decides (m : TM unit) (P : Prop) : Prop :=
  match m with Ok _ => P | Throw _ => ~ P | _ => False end.

Lemma decides_reject b e P : (b = false <-> P) -> decides (reject_if b e) P.
Proof. destruct b; simpl; naive_solver. Qed.

Lemma decides_and m1 m2 (P1 P2 : Prop) : decides m1 P1 -> (P1 -> decides m2 P2) -> decides (_ ← m1; m2) (P1 /\ P2).
Proof. unfold mbind, outcome_bind, decides. destruct m1; [|naive_solver..]. intros H1 H2. specialize (H2 H1). destruct m2; naive_solver. Qed.

Lemma decides_iff m P Q : decides m P -> (P <-> Q) -> decides m Q.
Proof. unfold decides. destruct m; naive_solver. Qed.

Lemma is_Some_has {A} (o : option A) : is_Some o <-> has_value o = true.
Proof. by destruct o; simpl; split. Qed.

Section Validation.
Context (p : EffectiveTurnPolicy) (o : TurnOptions).
Context (Ht : binary32 (temperature p)) (Hp : binary32 (top_p p)) (Hr : binary32 (repetition_penalty p)).

Lemma temperature_range :
  negb (isfinite (temperature p)) || SFltb (temperature p) zero32 = false <-> exists t, value (temperature p) = Some t /\ 0 <= t.
Proof.
  rewrite orb_false_iff, negb_false_iff, isfinite_value. split.
  - intros [[t Hv] Hf]. exists t. split; [done|]. apply Qnot_lt_le. intros Hlt%(zero_tests _ _ Hv). congruence.
  - intros (t & Hv & Hle). split; [by exists t|]. apply not_true_iff_false. intros Hlt%(zero_tests _ _ Hv). by apply (Qle_not_lt 0 t).
Qed.

Lemma top_p_range :
  negb (isfinite (top_p p)) || SFltb (top_p p) zero32 || SFltb one32 (top_p p) = false <->
  exists q, value (top_p p) = Some q /\ 0 <= q <= 1.
Proof.
  rewrite !orb_false_iff, negb_false_iff, isfinite_value. split.
  - intros [[[q Hv] Hf] Hf1]. exists q. split_and!; [done|..]; apply Qnot_lt_le.
    + intros Hlt%(zero_tests _ _ Hv). congruence.
    + intros Hlt%(one_tests _ _ Hp Hv). congruence.
  - intros (q & Hv & Hle & Hle1). split_and!; [by exists q|..]; apply not_true_iff_false.
    + intros Hlt%(zero_tests _ _ Hv). by apply (Qle_not_lt 0 q).
    + intros Hlt%(one_tests _ _ Hp Hv). by apply (Qle_not_lt q 1).
Qed.

Lemma penalty_range :
  negb (isfinite (repetition_penalty p)) || SFleb (repetition_penalty p) zero32 = false <->
  exists r, value (repetition_penalty p) = Some r /\ 0 < r.
Proof.
  rewrite orb_false_iff, negb_false_iff, isfinite_value. split.
  - intros [[t Hv] Hf]. exists t. split; [done|]. apply Qnot_le_lt. intros Hlt%(zero_tests _ _ Hv). congruence.
  - intros (t & Hv & Hlt). split; [by exists t|]. apply not_true_iff_false. intros Hle%(zero_tests _ _ Hv). by apply (Qlt_not_le 0 t).
Qed.

Lemma ranges_decided device : decides (check_ranges p device) (in_ranges p device).
Proof.
  unfold check_ranges. eapply decides_iff.
  - apply decides_and; [apply decides_reject, temperature_range|intros _].
    apply decides_and; [apply decides_reject, top_p_range|intros _].
    apply decides_and; [apply decides_reject, Z.ltb_ge|intros _].
    apply decides_and; [apply decides_reject, penalty_range|intros _].
    apply decides_and; [apply decides_reject, Z.ltb_ge|intros Hn].
    apply (decides_reject _ _ (no_repeat_ngram_size p = 0%Z \/ (0 < no_repeat_ngram_size p)%Z /\ device = CPU)).
    unfold SupportsNoRepeatNgram. rewrite andb_false_iff, negb_false_iff, Z.ltb_ge, bool_decide_eq_true.
    split; [intros [?|?]; [left; lia|destruct (Z.eq_dec (no_repeat_ngram_size p) 0); [by left|right; split; [lia|done]]]|
            intros [->|[_ ?]]; [left; lia|by right]].
  - split; [intros (?&?&?&?&?&?); by constructor|]. intros [? ? ? ? Hn]. split_and!; try done. lia.
Qed.

Lemma greedy_iff : is_Some (value (temperature p)) -> IsGreedy p = true <-> greedy p.
Proof.
  intros [t Hv]. unfold IsGreedy, greedy. rewrite !orb_true_iff, negb_true_iff, Z.eqb_eq.
  destruct (zero_tests _ _ Hv) as (_ & _ & Hz & _). rewrite Hz. naive_solver.
Qed.

Lemma app_nil_iff {A} (l1 l2 : list A) : l1 ++ l2 = [] <-> l1 = [] /\ l2 = [].
Proof. split; [apply app_eq_nil|by intros [-> ->]]. Qed.

Lemma and_iff_compat (A B C D : Prop) : (A <-> C) -> (B <-> D) -> A /\ B <-> C /\ D.
Proof. tauto. Qed.

Lemma if_nil {A} (b : bool) (x : A) : (if b then [x] else []) = [] <-> b = false.
Proof. by destruct b. Qed.

Lemma no_contradiction t q : value (temperature p) = Some t -> value (top_p p) = Some q ->
  contradictory p o = [] <->
    (is_Some (opt_temperature o) -> t == 0 \/ t == 1) /\ (is_Some (opt_top_p o) -> q <= 0 \/ 1 <= q) /\
    (is_Some (opt_top_k o) -> (top_k p <= 1)%Z).
Proof.
  intros Hvt Hvq. unfold contradictory. rewrite !app_nil_iff, !if_nil, !is_Some_has.
  destruct (zero_tests _ _ Hvt) as (_ & _ & Hz & _). destruct (one_tests _ _ Ht Hvt) as (_ & _ & Ho).
  destruct (zero_tests _ _ Hvq) as (_ & _ & _ & Hqz). destruct (one_tests _ _ Hp Hvq) as (_ & Hqo & _).
  apply and_iff_compat; [|apply and_iff_compat].
  - rewrite <- Hz, <- Ho. destruct (has_value _), (SFeqb _ zero32), (SFeqb _ one32); simpl; naive_solver.
  - transitivity (has_value (opt_top_p o) = true -> ~ 0 < q \/ ~ q < 1).
    + rewrite <- Hqz, <- Hqo. destruct (has_value _), (SFltb zero32 _), (SFltb _ one32); simpl; naive_solver.
    + split; intros H Hh; (destruct (H Hh); [left|right]); first [by apply Qnot_lt_le|by apply Qle_not_lt].
  - rewrite <- Z.ltb_ge. destruct (has_value _), (1 <? top_k p)%Z; simpl; naive_solver.
Qed.

Lemma model_causes_nil t : value (temperature p) = Some t ->
  model_causes p = [] <-> top_k p <> 1%Z /\ ~ t == 0.
Proof.
  intros Hv. destruct (zero_tests _ _ Hv) as (_ & _ & Hz & _). unfold model_causes.
  by rewrite app_nil_iff, !if_nil, Z.eqb_neq, <- Hz, not_true_iff_false.
Qed.

Lemma greedy_decided t q :
  value (temperature p) = Some t -> value (top_p p) = Some q -> greedy p ->
  (do_sample p = default (do_sample p) (opt_do_sample o)) ->
  decides (check_greedy p o) (greedy_agreed p o).
Proof.
  intros Hvt Hvq Hg Hres. destruct (zero_tests _ _ Hvt) as (_ & _ & Hz & _).
  pose proof (no_contradiction t q Hvt Hvq) as Hc. unfold check_greedy.
  set (sample_ok := opt_do_sample o = Some true -> is_Some (opt_top_k o) /\ top_k p = 1%Z \/ is_Some (opt_temperature o) /\ t == 0).
  apply (decides_iff _ (sample_ok /\ contradictory p o = [])); [apply decides_and|].
  - assert (caller_requested_greedy p o = true <->
      is_Some (opt_top_k o) /\ top_k p = 1%Z \/ is_Some (opt_temperature o) /\ t == 0) as Hcall.
    { unfold caller_requested_greedy. by rewrite orb_true_iff, !andb_true_iff, !is_Some_has, Z.eqb_eq, Hz. }
    unfold sample_ok. destruct (opt_do_sample o) as [[|]|] eqn:Eo; simpl; [|done..].
    destruct (caller_requested_greedy p o); simpl; [tauto|]. destruct (model_causes p) eqn:Em; simpl.
    + apply (model_causes_nil t Hvt) in Em as [Hk Ht0]. simpl in Hres.
      destruct Hg as [?|[?|(t' & ? & ?)]]; [congruence|done|simplify_eq; done].
    + naive_solver.
  - intros _. destruct (contradictory p o); simpl; done.
  - rewrite Hc. unfold sample_ok. split.
    + intros (Hs & H1 & H2 & H3). constructor; try done; [|intros Hi; exists t; auto|intros Hi; exists q; auto].
      intros Hi. destruct (Hs Hi) as [?|[? ?]]; [by left|right; split; [done|by exists t]].
    + intros [Hs H1 H2 H3]. split_and!; [|intros Hi..|done].
      * intros Hi. destruct (Hs Hi) as [?|[? (t' & ? & ?)]]; [by left|right; simplify_eq; done].
      * destruct (H1 Hi) as (t' & ? & ?). by simplify_eq.
      * destruct (H2 Hi) as (t' & ? & ?). by simplify_eq.
Qed.

Lemma sampled_decided q vocab : value (top_p p) = Some q -> decides (check_sampled p o vocab) (sample_possible p vocab).
Proof.
  intros Hv. destruct (zero_tests _ _ Hv) as (_ & _ & Hz & _). unfold check_sampled, sample_possible.
  apply decides_and; [apply decides_reject, Z.ltb_ge|]. intros _. apply decides_reject.
  rewrite andb_false_iff, Z.eqb_neq, <- not_true_iff_false, Hz. naive_solver.
Qed.

Lemma lengths_decided prompt session : decides (check_lengths p prompt session) (lengths_fit p prompt session).
Proof.
  unfold check_lengths, lengths_fit. destruct (N.eqb_spec (min_generated_tokens p) 0) as [|Hne]; [by left|].
  eapply decides_iff; [apply (decides_and _ _ (forall m, max_generated_tokens p = Some m -> (min_generated_tokens p <= m)%N)
    (prompt + min_generated_tokens p <= session)%N)|naive_solver].
  - destruct (max_generated_tokens p) as [m|]; [|done]. apply decides_reject. rewrite N.ltb_ge. naive_solver.
  - intros _. apply decides_reject. rewrite N.ltb_ge. destruct (N.ltb_spec prompt session); lia.
Qed.
End Validation.

(** C35: Turn admission is exact.  A policy resolved from the model's defaults and the
    turn's options is admitted exactly when: its scalars are finite and in range as
    real numbers; a repeated n-gram restriction runs on a device that applies it; a
    greedy turn was not asked to sample by a caller who left greedy selection to the
    model, and carries no explicit option that only makes sense for a distribution; a
    sampled turn has something to draw from within the vocabulary; and the floor on
    generated tokens fits the ceiling and the session.  The assertion that the
    rejection of a model-supplied greedy turn names a cause always holds. *)
Theorem turn_admission_exact defaults options device vocab prompt session :
  let p := ResolveTurnPolicy defaults options in
  binary32 (temperature p) -> binary32 (top_p p) -> binary32 (repetition_penalty p) ->
  decides (ValidateTurnPolicy p options device vocab prompt session)
    (in_ranges p device /\
     ((greedy p /\ greedy_agreed p options) \/ (~ greedy p /\ sample_possible p vocab)) /\
     lengths_fit p prompt session).
Proof.
  intros p Ht Hp Hr. unfold ValidateTurnPolicy. apply decides_and; [by apply ranges_decided|].
  intros [(t & Hvt & _) (q & Hvq & _) _ _ _]. apply decides_and; [|intros _; apply lengths_decided].
  pose proof (greedy_iff p ltac:(by exists t)) as Hg. destruct (IsGreedy p) eqn:Eg.
  - assert (greedy p) as Hgp by tauto. eapply decides_iff; [eapply (greedy_decided p options Ht Hp t q); try done|tauto].
    unfold p, ResolveTurnPolicy. simpl. by destruct (opt_do_sample options).
  - assert (~ greedy p) as Hgp by (intros ?%Hg; done). eapply decides_iff; [by apply (sampled_decided p options q)|tauto].
Qed.

(** ** A turn that overrides a greedy model *)

Definition half32 : float := S754_finite false 8388608 (-24).
Definition greedy_model : Search := mkSearch false one32 one32 1 one32 0.
Definition no_options : TurnOptions := mkTurnOptions None None None None None None None None.
Definition sampling_options : TurnOptions := mkTurnOptions (Some 16%N) (Some 4%N) (Some true) (Some half32) None (Some 40%Z) None None.

Example sampling_admitted :
  ValidateTurnPolicy (ResolveTurnPolicy greedy_model sampling_options) sampling_options CUDA 1000 10 100 = Ok tt.
Proof. reflexivity. Qed.

Example sampling_refused :
  let o := mkTurnOptions None None (Some true) None None None None None in
  ValidateTurnPolicy (ResolveTurnPolicy greedy_model o) o CUDA 1000 10 100 = Throw (ModelSuppliedGreedy [TopKIsOne]).
Proof. reflexivity. Qed.

Lemma turn_admission_exact_witness :
  let p := ResolveTurnPolicy greedy_model sampling_options in
  in_ranges p CUDA /\ ~ greedy p /\ lengths_fit p 10 100.
Proof.
  destruct (turn_admission_exact greedy_model sampling_options CUDA 1000 10 100 eq_refl eq_refl eq_refl)
    as (Hr & [[Hg _]|[Hg _]] & Hl).
  - exfalso. destruct Hg as [Hg|[Hg|(t & Ht & Hz)]]; [discriminate Hg|discriminate Hg|].
    injection Ht as <-. discriminate Hz.
  - split; [exact Hr|]. split; [exact Hg|exact Hl].
Defined.
