(* ===== verification/Reservation.v ===== *)
(** * The paged-cache reservation

    Models [engine/paged_cache_reservation.{h,cpp}]: the transaction that takes every
    block a step needs before the model runs, and either publishes the grown block
    tables or gives everything back.

    The blocks live in the heaps of [BlockPool]: the full-attention pool in [main] and
    the sliding-window pool, when there is one, in [window].  A [std::vector] of
    handles carries its capacity and the address of its buffer, which the commit
    compares.  The reclaimer that evicts retained blocks is the interface
    [BlockReclaimer].  The request lookup tables are those of [RequestIndex]. *)

From S2P Require Import Prelude BlockPool RequestIndex Positions PrefixCache.

Open Scope nat_scope.

Abbreviation handle := (option addr) (only parsing).

(** ** Vectors and tables *)

Record vec : Type := mkVec
  { items : list handle;
    vec_capacity : nat;
    data : nat }.

Definition empty_vec : vec := mkVec [] 0 0.

(** [reserve(n)]: a larger capacity moves the items to a new buffer. *)
Definition reserve (n fresh : nat) (v : vec) : vec :=
  if vec_capacity v <? n then mkVec (items v) n fresh else v.

(** [insert(end(), ...)] within the capacity; a larger one would move the buffer. *)
Definition append (l : list handle) (fresh : nat) (v : vec) : vec :=
  if vec_capacity v <? length (items v) + length l
  then mkVec (items v ++ l) (length (items v) + length l) fresh
  else mkVec (items v ++ l) (vec_capacity v) (data v).

Record PagedCacheBlockTable : Type := mkTable
  { request_id_ : N;
    committed_slots_ : nat;
    table_blocks_ : vec;
    window_blocks_ : vec;
    sealed_blocks_ : nat;
    sealed_identity_ : option BlockIdentity;
    sealing_stopped_ : bool;
    table_generation_ : N }.

(** [PagedCacheBlockTable table;] with the request and boundary set. *)
Definition new_table (id : N) (committed : nat) : PagedCacheBlockTable :=
  mkTable id committed empty_vec empty_vec 0 None false 0.

Definition set_table_blocks (v : vec) (t : PagedCacheBlockTable) : PagedCacheBlockTable :=
  mkTable (request_id_ t) (committed_slots_ t) v (window_blocks_ t) (sealed_blocks_ t)
    (sealed_identity_ t) (sealing_stopped_ t) (table_generation_ t).
Definition set_window_blocks (v : vec) (t : PagedCacheBlockTable) : PagedCacheBlockTable :=
  mkTable (request_id_ t) (committed_slots_ t) (table_blocks_ t) v (sealed_blocks_ t)
    (sealed_identity_ t) (sealing_stopped_ t) (table_generation_ t).
Definition set_sealed (n : nat) (i : option BlockIdentity) (t : PagedCacheBlockTable) : PagedCacheBlockTable :=
  mkTable (request_id_ t) (committed_slots_ t) (table_blocks_ t) (window_blocks_ t) n i
    (sealing_stopped_ t) (table_generation_ t).
Definition set_committed (n : nat) (t : PagedCacheBlockTable) : PagedCacheBlockTable :=
  mkTable (request_id_ t) n (table_blocks_ t) (window_blocks_ t) (sealed_blocks_ t)
    (sealed_identity_ t) (sealing_stopped_ t) (table_generation_ t).
Definition bump_generation (t : PagedCacheBlockTable) : PagedCacheBlockTable :=
  mkTable (request_id_ t) (committed_slots_ t) (table_blocks_ t) (window_blocks_ t) (sealed_blocks_ t)
    (sealed_identity_ t) (sealing_stopped_ t) (u64_succ (table_generation_ t)).

(** Move assignment: the target must own no blocks; the moved-from table keeps its
    scalars and loses its blocks and identity. *)
Definition assign_table {E} (target source : PagedCacheBlockTable) :
    outcome E (PagedCacheBlockTable * PagedCacheBlockTable) :=
  if negb (bool_decide (items (table_blocks_ target) = [])) || negb (bool_decide (items (window_blocks_ target) = []))
  then Terminate
  else
    Ok (mkTable (request_id_ source) (committed_slots_ source) (table_blocks_ source) (window_blocks_ source)
          (sealed_blocks_ source) (sealed_identity_ source) (sealing_stopped_ source)
          (u64_succ (table_generation_ target)),
        mkTable (request_id_ source) (committed_slots_ source) empty_vec empty_vec (sealed_blocks_ source) None
          (sealing_stopped_ source) (table_generation_ source)).

(** ** Requests, deltas and the reservation *)

Record PagedCacheReservationRequest : Type := mkRequest
  { rq_request_id : N;
    rq_target_slots : nat;
    rq_newly_admitted : bool;
    rq_reserved_slots : nat;
    rq_prefix_match : option PrefixCacheMatch }.

Record PagedCacheReservationDelta : Type := mkDelta
  { d_request_id : N;
    d_committed_slots : nat;
    d_table_generation : N;
    d_target_slots : nat;
    d_reserved_block_offset : nat;
    d_reserved_block_count : nat;
    d_reserved_window_block_offset : nat;
    d_reserved_window_block_count : nat;
    d_advance_block_offset : nat;
    d_advance_block_count : nat;
    d_adopted_block_offset : nat;
    d_adopted_block_count : nat;
    d_newly_admitted : bool }.

Definition set_target_slots (n : nat) (d : PagedCacheReservationDelta) : PagedCacheReservationDelta :=
  mkDelta (d_request_id d) (d_committed_slots d) (d_table_generation d) n (d_reserved_block_offset d)
    (d_reserved_block_count d) (d_reserved_window_block_offset d) (d_reserved_window_block_count d)
    (d_advance_block_offset d) (d_advance_block_count d) (d_adopted_block_offset d)
    (d_adopted_block_count d) (d_newly_admitted d).

Inductive PagedCacheReservationState : Type := Reserved | Committed | Released.
#[global] Instance ReservationState_eq_dec : EqDecision PagedCacheReservationState.
Proof. solve_decision. Defined.

Record ResidentTableSnapshot : Type := mkSnapshot
  { sn_request_id : N;
    sn_committed_slots : nat;
    sn_mutation_generation : N;
    sn_blocks_data : nat;
    sn_block_count : nat;
    sn_window_blocks_data : nat;
    sn_window_block_count : nat }.

Definition snapshot (t : PagedCacheBlockTable) : ResidentTableSnapshot :=
  mkSnapshot (request_id_ t) (committed_slots_ t) (table_generation_ t) (data (table_blocks_ t))
    (length (items (table_blocks_ t))) (data (window_blocks_ t)) (length (items (window_blocks_ t))).

#[global] Instance snapshot_eq_dec : EqDecision ResidentTableSnapshot.
Proof. solve_decision. Defined.

Record PagedCacheReservation : Type := mkReservation
  { window_ring_blocks_ : nat;
    resident_table_index_ : RequestIndex.RequestIndex;
    reserved_blocks_ : list handle;
    reserved_window_blocks_ : list handle;
    adopted_blocks_ : list handle;
    deltas_ : list PagedCacheReservationDelta;
    delta_index_ : RequestIndex.RequestIndex;
    delta_visit_generations_ : list N;
    next_delta_visit_generation_ : N;
    new_tables_ : list PagedCacheBlockTable;
    advance_blocks_ : list handle;
    resident_table_snapshots_ : list ResidentTableSnapshot;
    block_pool_generation_ : N;
    window_block_pool_generation_ : N;
    state_ : PagedCacheReservationState }.

Inductive what : Type := AdoptedSlots | CommittedSlots | ReservedSlots | ReservedWindowSlots | TargetSlots.

Inductive ReservationError : Type :=
  | InconsistentWindow
  | CapacityOverflow (w : what)
  | SumOverflow
  | TableIndexMismatch
  | InvalidCommittedTables
  | InvalidRequest
  | MembershipMismatch
  | PrefixNotAdoptable
  | PrefixIncomplete
  | PrefixNotShareable
  | CannotReduce
  | WindowRingSize
  | WindowRingBlock
  | WindowRingShared
  | WindowBlocksWithoutPool
  | BoundaryExceedsCapacity
  | OccupancyInconsistent
  | GrowthShared
  | NotEnoughWindowBlocks
  | NotEnoughBlocks
  | ReclaimFailed
  | NotActive
  | BadShape
  | DuplicateRow
  | NotAccepting
  | NotInReservation
  | BadPrefixCommit
  | CommittedOnce
  | PoolChanged
  | MembershipChanged
  | MappingChanged
  | InvalidDelta
  | OwnershipChanged
  | CommittedStateChanged
  | DeltaInconsistent
  | InvalidReservedBlocks
  | ReservedNotOwned
  | AdoptedInvalid
  | CannotReachTarget
  | NoCommitCapacity
  | CommitResources
  | OccupancyChanged
  | OutOfRange
  | CannotReleaseCommitted
  | IndexFailure (e : IndexError)
  | PoolFailure (e : BlockError).

(** The program state a reservation acts on. *)
Record cache_state (O : Type) : Type := mkState
  { main : world O;
    window : option (world unit);
    tables : list PagedCacheBlockTable;
    tables_capacity : nat;
    table_index : option RequestIndex.RequestIndex;
    next_buffer : nat }.
Arguments mkState {O} _ _ _ _ _ _.
Arguments main {O} _.
Arguments window {O} _.
Arguments tables {O} _.
Arguments tables_capacity {O} _.
Arguments table_index {O} _.
Arguments next_buffer {O} _.

(** The interface of the reclaimer: [BlockReclaimer::Reclaim]. *)
Class BlockReclaimer (O : Type) : Type :=
  { reclaim_error : Type;
    reclaim_blocks : nat -> M (world O) reclaim_error nat }.

(** ** Checked arithmetic on [size_t] *)

Definition CheckedBlockSlots (block_count block_size : nat) (w : what) : outcome ReservationError nat :=
  if negb (block_size =? 0) && (size_max / N.of_nat block_size <? N.of_nat block_count)%N
  then Throw (CapacityOverflow w)
  else Ok (block_count * block_size).

Definition CheckedAdd (left right : nat) : outcome ReservationError nat :=
  if (size_max - N.of_nat left <? N.of_nat right)%N then Throw SumOverflow else Ok (left + right).

Section Reservation.
Context {O : Type} `{!BlockReferenceObserver O} `{!BlockReclaimer O}.
Abbreviation state := (cache_state O).
Abbreviation RM := (M state ReservationError).

Definition set_main (w : world O) (s : state) : state :=
  mkState w (window s) (tables s) (tables_capacity s) (table_index s) (next_buffer s).
Definition set_window (w : option (world unit)) (s : state) : state :=
  mkState (main s) w (tables s) (tables_capacity s) (table_index s) (next_buffer s).
Definition set_tables (l : list PagedCacheBlockTable) (s : state) : state :=
  mkState (main s) (window s) l (tables_capacity s) (table_index s) (next_buffer s).
Definition set_tables_capacity (n : nat) (s : state) : state :=
  mkState (main s) (window s) (tables s) n (table_index s) (next_buffer s).
Definition set_table_index (i : option RequestIndex.RequestIndex) (s : state) : state :=
  mkState (main s) (window s) (tables s) (tables_capacity s) i (next_buffer s).
Definition set_next_buffer (n : nat) (s : state) : state :=
  mkState (main s) (window s) (tables s) (tables_capacity s) (table_index s) n.

(** An operation of the block pool, and of the window pool. *)
Definition on_main {A} (m : M (world O) BlockError A) : RM A := fun s =>
  match m (main s) with
  | (Ok a, w) => (Ok a, set_main w s)
  | (Throw e, w) => (Throw (PoolFailure e), set_main w s)
  | (Terminate, w) => (Terminate, set_main w s)
  | (Undefined, w) => (Undefined, set_main w s)
  end.

Definition on_window {A} (m : M (world unit) BlockError A) : RM A := fun s =>
  match window s with
  | None => (Undefined, s)
  | Some w =>
    match m w with
    | (Ok a, w') => (Ok a, set_window (Some w') s)
    | (Throw e, w') => (Throw (PoolFailure e), set_window (Some w') s)
    | (Terminate, w') => (Terminate, set_window (Some w') s)
    | (Undefined, w') => (Undefined, set_window (Some w') s)
    end
  end.

Definition fresh_buffer : RM nat := fun s => (Ok (next_buffer s), set_next_buffer (S (next_buffer s)) s).

Definition bs (s : state) : nat := block_size_ (pool (main s)).
Definition windowed (s : state) : bool := match window s with Some _ => true | None => false end.

(** A handle that has to be non-null. *)
Definition deref_main (h : handle) : RM Block :=
  match h with Some a => on_main (deref a) | None => undefined end.
Definition deref_window (h : handle) : RM Block :=
  match h with Some a => on_window (deref a) | None => undefined end.

Definition is_some {A} (o : option A) : bool := match o with Some _ => true | None => false end.

(** *** Lookup *)

Definition FindCommittedTable (index : RequestIndex.RequestIndex) (id : N) : RM (option (nat * PagedCacheBlockTable)) :=
  match Find index id with
  | None => mret None
  | Some i =>
    l ← gets tables;
    match l !! i with
    | Some t => if (request_id_ t =? id)%N then mret (Some (i, t)) else throw TableIndexMismatch
    | None => throw TableIndexMismatch
    end
  end.

(** *** The constructor *)

(** The loop over the committed tables. *)
Fixpoint index_tables (i : nat) (l : list PagedCacheBlockTable) (index : RequestIndex.RequestIndex) :
    RM RequestIndex.RequestIndex :=
  match l with
  | [] => mret index
  | t :: l =>
    let '(inserted, index') := Insert index (request_id_ t) i in
    if (request_id_ t =? 0)%N || negb inserted then throw InvalidCommittedTables
    else
      ti ← gets table_index;
      match ti with
      | None => index_tables (S i) l index'
      | Some ti =>
        if bool_decide (Find ti (request_id_ t) = Some i) then index_tables (S i) l index'
        else throw TableIndexMismatch
      end
  end.

(** The variables of the loop over the requests. *)
Record staging : Type := mkStaging
  { sg_deltas : list PagedCacheReservationDelta;
    sg_index : RequestIndex.RequestIndex;
    sg_adopted : list handle;
    sg_new_tables : list PagedCacheBlockTable;
    sg_reserved : nat;
    sg_reserved_window : nat;
    sg_advance : nat;
    sg_touched : gset addr;
    sg_window_blocks : gset addr }.

(** [request.prefix_match && !request.prefix_match->Empty()] *)
Definition active_match (r : PagedCacheReservationRequest) : option PrefixCacheMatch :=
  match rq_prefix_match r with
  | Some pm => if bool_decide (match_handles pm = []) then None else Some pm
  | None => None
  end.

Definition check_shareable (h : handle) : RM unit :=
  owned ← on_main (Owns h);
  if negb owned then throw PrefixNotShareable
  else b ← deref_main h; throw_if (negb (IsShareable b)) PrefixNotShareable.

Definition check_match (r : PagedCacheReservationRequest) (pm : PrefixCacheMatch) : RM unit :=
  n ← gets bs;
  slots ← lift (CheckedBlockSlots (length (match_handles pm)) n AdoptedSlots);
  if negb (match_token_count pm =? slots) || (rq_target_slots r <=? match_token_count pm) then throw PrefixIncomplete
  else for_each check_shareable (Some <$> match_handles pm).

Fixpoint check_ring (l : list handle) (seen : gset addr) : RM (gset addr) :=
  match l with
  | [] => mret seen
  | h :: l =>
    owned ← on_window (Owns h);
    if negb owned then throw WindowRingBlock
    else
      match h with
      | None => undefined
      | Some a =>
        b ← on_window (deref a);
        size ← on_window (gets (fun w => block_size_ (pool w)));
        if negb (capacity_ b =? size) then throw WindowRingBlock
        else if bool_decide (a ∈ seen) then throw WindowRingShared
        else check_ring l ({[ a ]} ∪ seen)
      end
  end.

(** The checks on the window ring of a resident table. *)
Definition check_resident_window (ring : nat) (t : PagedCacheBlockTable) (seen : gset addr) : RM (gset addr) :=
  win ← gets windowed;
  if win : bool then
    if negb (length (items (window_blocks_ t)) =? ring) then throw WindowRingSize
    else check_ring (items (window_blocks_ t)) seen
  else if negb (bool_decide (items (window_blocks_ t) = [])) then throw WindowBlocksWithoutPool
  else mret seen.

(** The occupancy checks of the blocks a resident request grows into. *)
Fixpoint check_growth (indices : list nat) (first committed block_size : nat) (l : list handle) (touched : gset addr) :
    RM (gset addr) :=
  match indices with
  | [] => mret touched
  | i :: indices =>
    match l !! i with
    | None => undefined
    | Some h =>
      let expected := if i =? first then committed mod block_size else 0 in
      owned ← on_main (Owns h);
      if negb owned then throw OccupancyInconsistent
      else
        match h with
        | None => undefined
        | Some a =>
          b ← on_main (deref a);
          if negb (capacity_ b =? block_size) || negb (size_ b =? expected) then throw OccupancyInconsistent
          else if bool_decide (a ∈ touched) then throw GrowthShared
          else check_growth indices first committed block_size l ({[ a ]} ∪ touched)
        end
    end
  end.

Definition blocks_for (block_size slots : nat) : nat :=
  slots / block_size + (if slots mod block_size =? 0 then 0 else 1).

(** The new table of an admitted request. *)
Definition make_new_table (r : PagedCacheReservationRequest) (committed : nat) (pm : option PrefixCacheMatch)
    (new_blocks ring : nat) : RM PagedCacheBlockTable :=
  let t := new_table (rq_request_id r) committed in
  f1 ← fresh_buffer;
  t ← (match pm with
       | Some pm =>
         match last (match_handles pm) with
         | Some a =>
           b ← deref_main (Some a);
           mret (set_sealed (length (match_handles pm)) (identity_ b)
             (set_table_blocks (mkVec (Some <$> match_handles pm) (length (match_handles pm)) f1) t))
         | None => undefined
         end
       | None => mret t
       end);
  n ← lift (CheckedAdd (from_option (fun pm => length (match_handles pm)) 0 pm) new_blocks);
  f2 ← fresh_buffer;
  f3 ← fresh_buffer;
  mret (set_window_blocks (reserve ring f3 (window_blocks_ t)) (set_table_blocks (reserve n f2 (table_blocks_ t)) t)).

(** [committed_table->blocks_.reserve(...)] *)
Definition reserve_table (i : nat) (t : PagedCacheBlockTable) (n : nat) : RM unit :=
  f ← fresh_buffer;
  modify (fun s => set_tables (<[i := set_table_blocks (reserve n f (table_blocks_ t)) t]> (tables s)) s).

(** The body of the loop over the requests. *)
Definition stage_request (ring : nat) (resident : RequestIndex.RequestIndex) (r : PagedCacheReservationRequest)
    (sg : staging) : RM staging :=
  let '(inserted, index) := Insert (sg_index sg) (rq_request_id r) (length (sg_deltas sg)) in
  _ ← throw_if ((rq_request_id r =? 0)%N || negb inserted) InvalidRequest;
  found ← FindCommittedTable resident (rq_request_id r);
  _ ← throw_if (Bool.eqb (rq_newly_admitted r) (is_some found)) MembershipMismatch;
  win ← gets windowed;
  let pm := active_match r in
  _ ← throw_if (is_some pm && (negb (rq_newly_admitted r) || win)) PrefixNotAdoptable;
  _ ← (match pm with Some pm => check_match r pm | None => mret tt end);
  n ← gets bs;
  if n =? 0 then undefined else
  let adopted := from_option (fun pm => Some <$> match_handles pm) [] pm in
  let committed := match found with
    | Some (_, t) => committed_slots_ t
    | None => from_option match_token_count 0 pm end in
  let committed_blocks := match found with
    | Some (_, t) => length (items (table_blocks_ t))
    | None => length adopted end in
  let generation := from_option (fun it : nat * PagedCacheBlockTable => table_generation_ it.2) 0%N found in
  _ ← throw_if (rq_target_slots r <? committed) CannotReduce;
  seen ← (match found with
          | Some (_, t) => check_resident_window ring t (sg_window_blocks sg)
          | None => mret (sg_window_blocks sg) end);
  capacity ← lift (CheckedBlockSlots committed_blocks n CommittedSlots);
  _ ← throw_if (capacity <? committed) BoundaryExceedsCapacity;
  touched ← (match found with
    | Some (_, t) =>
      if committed <? rq_target_slots r then
        let first := committed / n in
        let end_block := min committed_blocks (blocks_for n (rq_target_slots r)) in
        check_growth (seq first (end_block - first)) first committed n (items (table_blocks_ t)) (sg_touched sg)
      else mret (sg_touched sg)
    | None => mret (sg_touched sg) end);
  let reserved_slots := max (rq_reserved_slots r) (rq_target_slots r) in
  let additional := if capacity <? reserved_slots then reserved_slots - capacity else 0 in
  let new_blocks := blocks_for n additional in
  let advance := blocks_for n (rq_target_slots r) - committed / n in
  let ring_blocks := if rq_newly_admitted r then ring else 0 in
  let delta := mkDelta (rq_request_id r) committed generation (rq_target_slots r) (sg_reserved sg) new_blocks
    (sg_reserved_window sg) ring_blocks (sg_advance sg) advance (length (sg_adopted sg)) (length adopted)
    (rq_newly_admitted r) in
  reserved ← lift (CheckedAdd (sg_reserved sg) new_blocks);
  total_advance ← lift (CheckedAdd (sg_advance sg) advance);
  reserved_window ← (if rq_newly_admitted r then lift (CheckedAdd (sg_reserved_window sg) ring)
                     else mret (sg_reserved_window sg));
  created ← (match found with
    | Some (i, t) =>
      total ← lift (CheckedAdd committed_blocks new_blocks);
      _ ← reserve_table i t total; mret []
    | None => t ← make_new_table r committed pm new_blocks ring; mret [t] end);
  mret (mkStaging (sg_deltas sg ++ [delta]) index (sg_adopted sg ++ adopted) (sg_new_tables sg ++ created)
    reserved reserved_window total_advance touched seen).

Fixpoint stage_requests (ring : nat) (resident : RequestIndex.RequestIndex) (l : list PagedCacheReservationRequest)
    (sg : staging) : RM staging :=
  match l with
  | [] => mret sg
  | r :: l => sg ← stage_request ring resident r sg; stage_requests ring resident l sg
  end.

(** Reclaiming and reserving: the body of the [try]. *)
Definition call_reclaimer (n : nat) : RM unit := fun s =>
  match reclaim_blocks n (main s) with
  | (Ok _, w) => (Ok tt, set_main w s)
  | (Throw _, w) => (Throw ReclaimFailed, set_main w s)
  | (Terminate, w) => (Terminate, set_main w s)
  | (Undefined, w) => (Undefined, set_main w s)
  end.

Definition available_main (s : state) : nat := AvailableBlocks (pool (main s)).

Definition take_main (reclaimer : bool) (count : nat) : RM (list handle) :=
  available ← gets available_main;
  _ ← (if reclaimer && (available <? count) then call_reclaimer (count - available) else mret tt);
  available ← gets available_main;
  if available <? count then throw NotEnoughBlocks
  else
    n ← gets bs;
    slots ← lift (CheckedBlockSlots count n ReservedSlots);
    l ← on_main (ReserveBlocks slots);
    mret (Some <$> l).

Definition take_window (count : nat) : RM (list handle) :=
  win ← gets windowed;
  if win : bool then
    n ← on_window (gets (fun w => block_size_ (pool w)));
    slots ← lift (CheckedBlockSlots count n ReservedWindowSlots);
    l ← on_window (ReserveBlocks slots);
    mret (Some <$> l)
  else mret [].

(** The handler: give back what was taken, then rethrow. *)
Definition give_back (reserved adopted : list handle) : RM unit :=
  _ ← on_main (RollbackReservedBlocks reserved);
  for_each (fun h => on_main (BlockPool.Release h)) adopted.

Definition on_error {A} (m : RM A) (handler : RM unit) : RM A := fun s =>
  match m s with
  | (Throw e, s1) =>
    match handler s1 with
    | (Ok _, s2) => (Throw e, s2)
    | (Throw e', s2) => (Throw e', s2)
    | (Terminate, s2) => (Terminate, s2)
    | (Undefined, s2) => (Undefined, s2)
    end
  | r => r
  end.

Definition take_blocks (reclaimer : bool) (count window_count : nat) (adopted : list handle) :
    RM (list handle * list handle) :=
  reserved ← on_error (take_main reclaimer count) (give_back [] adopted);
  reserved_window ← on_error (take_window window_count) (give_back reserved adopted);
  mret (reserved, reserved_window).

(** The blocks one delta writes into. *)
Definition delta_advance (reserved : list handle) (resident : RequestIndex.RequestIndex)
    (d : PagedCacheReservationDelta) : RM (list handle) :=
  found ← FindCommittedTable resident (d_request_id d);
  n ← gets bs;
  if n =? 0 then undefined else
  let blocks := from_option (fun it : nat * PagedCacheBlockTable => items (table_blocks_ it.2)) [] found in
  let committed_blocks := match found with Some (_, t) => length blocks | None => d_adopted_block_count d end in
  let first := d_committed_slots d / n in
  match mapM (fun i => if first + i <? committed_blocks then blocks !! (first + i)
                       else reserved !! (d_reserved_block_offset d + (first + i) - committed_blocks))
             (seq 0 (d_advance_block_count d)) with
  | Some l => mret l
  | None => undefined
  end.

Fixpoint all_advance (reserved : list handle) (resident : RequestIndex.RequestIndex)
    (l : list PagedCacheReservationDelta) : RM (list handle) :=
  match l with
  | [] => mret []
  | d :: l => a ← delta_advance reserved resident d; rest ← all_advance reserved resident l; mret (a ++ rest)
  end.

Definition make_index (n : nat) : RM RequestIndex.RequestIndex :=
  match make_RequestIndex (N.of_nat n) with
  | Ok i => mret i
  | Throw e => throw (IndexFailure e)
  | Terminate => terminate
  | Undefined => undefined
  end.

(** The constructor. *)
Definition make_Reservation (requests : list PagedCacheReservationRequest) (ring : nat) (reclaimer : bool) :
    RM PagedCacheReservation :=
  committed ← gets tables;
  resident ← make_index (length committed);
  deltas ← make_index (length requests);
  win ← gets windowed;
  _ ← throw_if (Bool.eqb win (ring =? 0)) InconsistentWindow;
  total ← lift (CheckedAdd (length committed) (length requests));
  _ ← modify (fun s => set_tables_capacity (max total (tables_capacity s)) s);
  ti ← gets table_index;
  _ ← throw_if (match ti with Some ti => negb (index_size_ ti =? length committed) | None => false end) TableIndexMismatch;
  resident ← index_tables 0 committed resident;
  sg ← stage_requests ring resident requests (mkStaging [] deltas [] [] 0 0 0 ∅ ∅);
  w ← gets window;
  _ ← throw_if (match w with Some w => AvailableBlocks (pool w) <? sg_reserved_window sg | None => false end)
        NotEnoughWindowBlocks;
  _ ← (if bool_decide (sg_adopted sg = []) then mret tt else on_main (AddRefs (sg_adopted sg)));
  taken ← take_blocks reclaimer (sg_reserved sg) (sg_reserved_window sg) (sg_adopted sg);
  generation ← gets (fun s => mutation_generation_ (pool (main s)));
  window_generation ← gets (fun s => from_option (fun w => mutation_generation_ (pool w)) 0%N (window s));
  advance ← all_advance taken.1 resident (sg_deltas sg);
  snapshots ← gets (fun s => snapshot <$> tables s);
  mret (mkReservation ring resident taken.1 taken.2 (sg_adopted sg) (sg_deltas sg) (sg_index sg)
    (replicate (length requests) 0%N) 1 (sg_new_tables sg) advance snapshots generation window_generation Reserved).

(** ** Using a reservation *)

Abbreviation TM := (M (state * PagedCacheReservation) ReservationError).

Definition on_state {A} (m : RM A) : TM A := fun sr =>
  match m sr.1 with (r, s) => (r, (s, sr.2)) end.
Definition this : TM PagedCacheReservation := gets snd.
Definition set_this (r : PagedCacheReservation) : TM unit := modify (fun sr => (sr.1, r)).

Definition RequiredBlockTableColumns : TM nat :=
  r ← this;
  (fix loop (l : list PagedCacheReservationDelta) (columns : nat) : TM nat :=
     match l with
     | [] => mret columns
     | d :: l =>
       found ← on_state (FindCommittedTable (resident_table_index_ r) (d_request_id d));
       let committed_blocks := match found with
         | Some (_, t) => length (items (table_blocks_ t))
         | None => d_adopted_block_count d end in
       loop l (max columns (committed_blocks + d_reserved_block_count d))
     end) (deltas_ r) 0.

Definition set_visits (marks : list N) (next : N) (r : PagedCacheReservation) : PagedCacheReservation :=
  mkReservation (window_ring_blocks_ r) (resident_table_index_ r) (reserved_blocks_ r) (reserved_window_blocks_ r)
    (adopted_blocks_ r) (deltas_ r) (delta_index_ r) marks next (new_tables_ r) (advance_blocks_ r)
    (resident_table_snapshots_ r) (block_pool_generation_ r) (window_block_pool_generation_ r) (state_ r).

Definition BeginDeltaResolution : TM N :=
  r ← this;
  let '(marks, next) :=
    if (next_delta_visit_generation_ r =? size_max)%N
    then (replicate (length (delta_visit_generations_ r)) 0%N, 1%N)
    else (delta_visit_generations_ r, next_delta_visit_generation_ r) in
  _ ← set_this (set_visits marks (u64_succ next) r);
  mret next.

Definition ResolveDelta (id : N) (visit : N) : TM PagedCacheReservationDelta :=
  r ← this;
  match Find (delta_index_ r) id with
  | None => throw DuplicateRow
  | Some i =>
    match deltas_ r !! i, delta_visit_generations_ r !! i with
    | None, _ => throw DuplicateRow
    | Some _, None => undefined
    | Some d, Some mark =>
      if (mark =? visit)%N || negb (d_request_id d =? id)%N then throw DuplicateRow
      else
        _ ← set_this (set_visits (<[i := visit]> (delta_visit_generations_ r)) (next_delta_visit_generation_ r) r);
        mret d
    end
  end.

(** [static_cast<int32_t>] *)
Definition to_int32 (n : nat) : Z := ((Z.of_nat n + 2 ^ 31) mod 2 ^ 32 - 2 ^ 31)%Z.

Definition block_ids (read : handle -> RM Block) : list handle -> TM (list Z) :=
  fix loop (l : list handle) :=
  match l with
  | [] => mret []
  | h :: l => b ← on_state (read h); rest ← loop l; mret (to_int32 (id_ b) :: rest)
  end.

Definition slice {A} (offset count : nat) (l : list A) : list A := take count (drop offset l).

(** One row of the block table: its block ids, padded with -1. *)
Definition fill_row (columns : nat) (visit : N) (id : N) : TM (list Z) :=
  d ← ResolveDelta id visit;
  r ← this;
  found ← on_state (FindCommittedTable (resident_table_index_ r) id);
  let committed := match found with
    | Some (_, t) => items (table_blocks_ t)
    | None => slice (d_adopted_block_offset d) (d_adopted_block_count d) (adopted_blocks_ r) end in
  ids ← block_ids deref_main (committed ++ slice (d_reserved_block_offset d) (d_reserved_block_count d) (reserved_blocks_ r));
  if columns <? length ids then undefined
  else mret (ids ++ replicate (columns - length ids) (-1)%Z).

Fixpoint fill_rows (row : N -> TM (list Z)) (l : list N) : TM (list Z) :=
  match l with
  | [] => mret []
  | id :: l => a ← row id; rest ← fill_rows row l; mret (a ++ rest)
  end.

Definition FillBlockTable (request_ids : list N) (columns output_size : nat) : TM (list Z) :=
  r ← this;
  if negb (bool_decide (state_ r = Reserved)) then throw NotActive
  else if length (deltas_ r) <? length request_ids then throw BadShape
  else
    required ← RequiredBlockTableColumns;
    if (columns <? required) || negb (output_size =? length request_ids * columns) then throw BadShape
    else
      visit ← BeginDeltaResolution;
      fill_rows (fill_row columns visit) request_ids.

(** One row of the window block table, which repeats the ring. *)
Definition fill_window_row (columns : nat) (visit : N) (id : N) : TM (list Z) :=
  d ← ResolveDelta id visit;
  r ← this;
  found ← on_state (FindCommittedTable (resident_table_index_ r) id);
  handles ←
    (fix loop (l : list nat) : TM (list handle) :=
       match l with
       | [] => mret []
       | column :: l =>
         match WindowRingColumn (N.of_nat column) (N.of_nat (window_ring_blocks_ r)) with
         | None => undefined
         | Some k =>
           let h := match found with
             | Some (_, t) => items (window_blocks_ t) !! N.to_nat k
             | None => reserved_window_blocks_ r !! (d_reserved_window_block_offset d + N.to_nat k) end in
           match h with None => throw OutOfRange | Some h => rest ← loop l; mret (h :: rest) end
         end
       end) (seq 0 columns);
  block_ids deref_window handles.

Definition FillWindowBlockTable (request_ids : list N) (columns output_size : nat) : TM (list Z) :=
  r ← this;
  win ← on_state (gets windowed);
  if negb (bool_decide (state_ r = Reserved)) || negb win then throw NotActive
  else if (length (deltas_ r) <? length request_ids) || negb (output_size =? length request_ids * columns) then throw BadShape
  else
    visit ← BeginDeltaResolution;
    fill_rows (fill_window_row columns visit) request_ids.

(** *** CommitPrefix *)

Definition set_deltas (l : list PagedCacheReservationDelta) (r : PagedCacheReservation) : PagedCacheReservation :=
  mkReservation (window_ring_blocks_ r) (resident_table_index_ r) (reserved_blocks_ r) (reserved_window_blocks_ r)
    (adopted_blocks_ r) l (delta_index_ r) (delta_visit_generations_ r) (next_delta_visit_generation_ r) (new_tables_ r)
    (advance_blocks_ r) (resident_table_snapshots_ r) (block_pool_generation_ r) (window_block_pool_generation_ r) (state_ r).

Definition find_delta (id : N) (l : list PagedCacheReservationDelta) : option (nat * PagedCacheReservationDelta) :=
  list_find (fun d => d_request_id d = id) l.

Definition CommitPrefix (id : N) (step_slots kept_slots : nat) : TM unit :=
  r ← this;
  if negb (bool_decide (state_ r = Reserved)) then throw NotAccepting
  else
    match find_delta id (deltas_ r) with
    | None => throw NotInReservation
    | Some (i, d) =>
      if (kept_slots =? 0) || (step_slots <? kept_slots) ||
         negb (step_slots =? d_target_slots d - d_committed_slots d) then throw BadPrefixCommit
      else set_this (set_deltas (<[i := set_target_slots (d_committed_slots d + kept_slots) d]> (deltas_ r)) r)
    end.

(** *** Validation *)

Definition ValidateResidentTablesUnchanged (r : PagedCacheReservation) : RM unit :=
  l ← gets tables;
  if negb (length l =? length (resident_table_snapshots_ r)) then throw MembershipChanged
  else throw_if (negb (bool_decide (snapshot <$> l = resident_table_snapshots_ r))) MappingChanged.

(** The loop of [ValidateAdvancePreconditions]: every iteration covers at least one
    slot, so [remaining] iterations suffice. *)
Fixpoint advance_loop (fuel : nat) (r : PagedCacheReservation) (d : PagedCacheReservationDelta) (blocks : list handle)
    (block_size first block_index remaining : nat) : RM unit :=
  if remaining =? 0 then mret tt
  else
    match fuel with
    | 0 => undefined
    | S fuel =>
      h ← (match blocks !! block_index with
           | Some h => mret h
           | None =>
             let k := block_index - length blocks in
             if d_reserved_block_count d <=? k then throw CannotReachTarget
             else match reserved_blocks_ r !! (d_reserved_block_offset d + k) with
                  | Some h => mret h | None => throw OutOfRange end
           end);
      let expected := if block_index =? first then d_committed_slots d mod block_size else 0 in
      match h with
      | None => throw OccupancyChanged
      | Some a =>
        b ← on_main (deref a);
        if negb (capacity_ b =? block_size) || negb (size_ b =? expected) || (d_advance_block_count d <=? block_index - first)
        then throw OccupancyChanged
        else
          match advance_blocks_ r !! (d_advance_block_offset d + block_index - first) with
          | None => throw OutOfRange
          | Some h' =>
            if negb (bool_decide (h' = Some a)) then throw OccupancyChanged
            else advance_loop fuel r d blocks block_size first (S block_index)
                   (remaining - min remaining (block_size - expected))
          end
      end
    end.

Definition ValidateAdvancePreconditions (r : PagedCacheReservation) (d : PagedCacheReservationDelta)
    (t : PagedCacheBlockTable) : RM unit :=
  n ← gets bs;
  if n =? 0 then undefined
  else
    let remaining := d_target_slots d - d_committed_slots d in
    let first := d_committed_slots d / n in
    advance_loop remaining r d (items (table_blocks_ t)) n first first remaining.

Definition ValidateEmptyReservedBlocks (l : list handle) (size : nat) : RM unit :=
  for_each (fun h =>
    match h with
    | None => throw InvalidReservedBlocks
    | Some a =>
      b ← on_main (deref a);
      throw_if (negb (capacity_ b =? size) || negb (size_ b =? 0)) InvalidReservedBlocks
    end) l.

Definition ValidateEmptyReservedWindowBlocks (l : list handle) (size : nat) : RM unit :=
  for_each (fun h =>
    match h with
    | None => throw InvalidReservedBlocks
    | Some a =>
      b ← on_window (deref a);
      throw_if (negb (capacity_ b =? size) || negb (size_ b =? 0)) InvalidReservedBlocks
    end) l.

Definition check_owned (h : handle) : RM unit :=
  owned ← on_main (Owns h); throw_if (negb owned) ReservedNotOwned.
Definition check_window_owned (h : handle) : RM unit :=
  owned ← on_window (Owns h); throw_if (negb owned) ReservedNotOwned.
Definition check_adopted (h : handle) : RM unit :=
  owned ← on_main (Owns h);
  if negb owned then throw AdoptedInvalid else b ← deref_main h; throw_if (negb (IsShareable b)) AdoptedInvalid.

(** The counters of the validation loop. *)
Record assigned : Type := mkAssigned
  { as_reserved : nat; as_window : nat; as_adopted : nat; as_new : nat }.

Definition delta_layout_ok (r : PagedCacheReservation) (a : assigned) (d : PagedCacheReservationDelta) : bool :=
  negb ((d_target_slots d <? d_committed_slots d) ||
    negb (d_reserved_block_offset d =? as_reserved a) || (length (reserved_blocks_ r) <? as_reserved a) ||
    (length (reserved_blocks_ r) - as_reserved a <? d_reserved_block_count d) ||
    negb (d_reserved_window_block_offset d =? as_window a) || (length (reserved_window_blocks_ r) <? as_window a) ||
    (length (reserved_window_blocks_ r) - as_window a <? d_reserved_window_block_count d) ||
    negb (d_adopted_block_offset d =? as_adopted a) || (length (adopted_blocks_ r) <? as_adopted a) ||
    (length (adopted_blocks_ r) - as_adopted a <? d_adopted_block_count d)).

Definition validate_delta (r : PagedCacheReservation) (i : nat) (d : PagedCacheReservationDelta) (a : assigned) : RM assigned :=
  _ ← throw_if ((d_request_id d =? 0)%N || negb (bool_decide (Find (delta_index_ r) (d_request_id d) = Some i))) InvalidDelta;
  found ← FindCommittedTable (resident_table_index_ r) (d_request_id d);
  _ ← throw_if (Bool.eqb (d_newly_admitted d) (is_some found)) OwnershipChanged;
  _ ← throw_if (match found with
        | Some (_, t) => negb (committed_slots_ t =? d_committed_slots d) || negb (table_generation_ t =? d_table_generation d)%N
        | None => false end) CommittedStateChanged;
  _ ← throw_if (negb (delta_layout_ok r a d)) DeltaInconsistent;
  n ← gets bs;
  let reserved := slice (as_reserved a) (d_reserved_block_count d) (reserved_blocks_ r) in
  _ ← ValidateEmptyReservedBlocks reserved n;
  _ ← for_each check_owned reserved;
  win ← gets windowed;
  _ ← (if win : bool then
         let ring := slice (as_window a) (d_reserved_window_block_count d) (reserved_window_blocks_ r) in
         size ← on_window (gets (fun w => block_size_ (pool w)));
         _ ← ValidateEmptyReservedWindowBlocks ring size;
         for_each check_window_owned ring
       else mret tt);
  _ ← for_each check_adopted (slice (as_adopted a) (d_adopted_block_count d) (adopted_blocks_ r));
  let committed_blocks := match found with
    | Some (_, t) => length (items (table_blocks_ t))
    | None => d_adopted_block_count d end in
  total ← lift (CheckedAdd committed_blocks (d_reserved_block_count d));
  capacity ← lift (CheckedBlockSlots total n TargetSlots);
  _ ← throw_if (capacity <? d_target_slots d) CannotReachTarget;
  _ ← throw_if (match found with Some (_, t) => vec_capacity (table_blocks_ t) <? total | None => false end) NoCommitCapacity;
  target ← (match found with
            | Some (_, t) => mret t
            | None => match new_tables_ r !! as_new a with Some t => mret t | None => throw OutOfRange end end);
  _ ← ValidateAdvancePreconditions r d target;
  mret (mkAssigned (as_reserved a + d_reserved_block_count d) (as_window a + d_reserved_window_block_count d)
    (as_adopted a + d_adopted_block_count d) (as_new a + if d_newly_admitted d then 1 else 0)).

Fixpoint validate_deltas (r : PagedCacheReservation) (i : nat) (l : list PagedCacheReservationDelta) (a : assigned) : RM assigned :=
  match l with
  | [] => mret a
  | d :: l => a ← validate_delta r i d a; validate_deltas r (S i) l a
  end.

Fixpoint check_resident_index (r : PagedCacheReservation) (i : nat) (l : list PagedCacheBlockTable) : RM unit :=
  match l with
  | [] => mret tt
  | t :: l =>
    if (request_id_ t =? 0)%N || negb (bool_decide (Find (resident_table_index_ r) (request_id_ t) = Some i))
    then throw InvalidCommittedTables
    else check_resident_index r (S i) l
  end.

Definition pools_unchanged (r : PagedCacheReservation) (s : state) : bool :=
  (mutation_generation_ (pool (main s)) =? block_pool_generation_ r)%N &&
  match window s with
  | Some w => (mutation_generation_ (pool w) =? window_block_pool_generation_ r)%N
  | None => true
  end.

Definition ValidateCommit : TM unit :=
  r ← this;
  if negb (bool_decide (state_ r = Reserved)) then throw CommittedOnce
  else on_state (
    win ← gets windowed;
    _ ← throw_if (Bool.eqb win (window_ring_blocks_ r =? 0)) InconsistentWindow;
    same ← gets (pools_unchanged r);
    _ ← throw_if (negb same) PoolChanged;
    _ ← ValidateResidentTablesUnchanged r;
    l ← gets tables;
    _ ← check_resident_index r 0 l;
    a ← validate_deltas r 0 (deltas_ r) (mkAssigned 0 0 0 0);
    ti ← gets table_index;
    capacity ← gets tables_capacity;
    throw_if (negb (as_reserved a =? length (reserved_blocks_ r)) || negb (as_window a =? length (reserved_window_blocks_ r)) ||
      negb (as_adopted a =? length (adopted_blocks_ r)) || negb (as_new a =? length (new_tables_ r)) ||
      match ti with Some ti => max_entries_ ti - index_size_ ti <? as_new a | None => false end ||
      (capacity - length l <? as_new a)) CommitResources).

(** *** Publication *)

Fixpoint preflight (r : PagedCacheReservation) (l : list PagedCacheReservationDelta) (new : nat) : RM nat :=
  match l with
  | [] => mret new
  | d :: l =>
    found ← FindCommittedTable (resident_table_index_ r) (d_request_id d);
    _ ← (if d_newly_admitted d then throw_if (is_some found) OwnershipChanged
         else match found with
              | None => throw CommittedStateChanged
              | Some (_, t) =>
                throw_if (negb (table_generation_ t =? d_table_generation d)%N ||
                  negb (committed_slots_ t =? d_committed_slots d)) CommittedStateChanged
              end);
    target ← (match found with
              | Some (_, t) => mret t
              | None => match new_tables_ r !! new with Some t => mret t | None => throw OutOfRange end end);
    _ ← throw_if (match found with
          | Some (_, t) => vec_capacity (table_blocks_ t) - length (items (table_blocks_ t)) <? d_reserved_block_count d
          | None => false end) NoCommitCapacity;
    _ ← ValidateAdvancePreconditions r d target;
    preflight r l (match found with Some _ => new | None => new + 1 end)
  end.

(** The number of newly admitted deltas. *)
Definition new_count (l : list PagedCacheReservationDelta) : nat := length (filter (fun d => d_newly_admitted d = true) l).

(** The loop of [AdvanceCommittedSlots]: [std::vector::at] throws past the end. *)
Fixpoint fill_slots (blocks : list handle) (remaining : nat) : RM unit :=
  if remaining =? 0 then mret tt
  else
    match blocks with
    | [] => throw OutOfRange
    | h :: blocks =>
      b ← deref_main h;
      let slots := min remaining (EmptySlots b) in
      _ ← on_main (match h with Some a => on_block a (AddSlots slots) | None => undefined end);
      fill_slots blocks (remaining - slots)
    end.

Definition AdvanceCommittedSlots (t : PagedCacheBlockTable) (target : nat) : RM PagedCacheBlockTable :=
  n ← gets bs;
  if n =? 0 then undefined
  else
    _ ← fill_slots (drop (committed_slots_ t / n) (items (table_blocks_ t))) (target - committed_slots_ t);
    mret (set_committed target t).

(** One delta published: its table grows in place, or is appended. *)
Definition publish_delta (r : PagedCacheReservation) (d : PagedCacheReservationDelta) (new : nat) : RM nat :=
  found ← FindCommittedTable (resident_table_index_ r) (d_request_id d);
  target ← (if d_newly_admitted d then
              match new_tables_ r !! new with Some t => mret (None, t) | None => throw OutOfRange end
            else match found with Some (i, t) => mret (Some i, t) | None => undefined end);
  f1 ← fresh_buffer;
  f2 ← fresh_buffer;
  let t := set_window_blocks
      (append (slice (d_reserved_window_block_offset d) (d_reserved_window_block_count d) (reserved_window_blocks_ r)) f2
        (window_blocks_ target.2))
      (set_table_blocks
        (append (slice (d_reserved_block_offset d) (d_reserved_block_count d) (reserved_blocks_ r)) f1
          (table_blocks_ target.2)) target.2) in
  t ← AdvanceCommittedSlots t (d_target_slots d);
  let t := bump_generation t in
  match target.1 with
  | Some i => _ ← modify (fun s => set_tables (<[i := t]> (tables s)) s); mret new
  | None =>
    _ ← modify (fun s => set_tables_capacity (max (tables_capacity s) (length (tables s) + 1)) (set_tables (tables s ++ [t]) s));
    ti ← gets table_index;
    _ ← (match ti with
         | None => mret tt
         | Some ti =>
           n ← gets (fun s => length (tables s));
           let '(inserted, ti') := Insert ti (d_request_id d) (n - 1) in
           if negb inserted then terminate else modify (set_table_index (Some ti'))
         end);
    mret (new + 1)
  end.

Fixpoint publish_deltas (r : PagedCacheReservation) (l : list PagedCacheReservationDelta) (new : nat) : RM nat :=
  match l with
  | [] => mret new
  | d :: l => new ← publish_delta r d new; publish_deltas r l new
  end.

Definition closed (st : PagedCacheReservationState) (adopted : list handle) (r : PagedCacheReservation) : PagedCacheReservation :=
  mkReservation (window_ring_blocks_ r) (resident_table_index_ r) [] [] adopted (deltas_ r) (delta_index_ r)
    (delta_visit_generations_ r) (next_delta_visit_generation_ r) [] [] (resident_table_snapshots_ r)
    (block_pool_generation_ r) (window_block_pool_generation_ r) st.

Definition CommitValidated : TM unit :=
  r ← this;
  if negb (bool_decide (state_ r = Reserved)) then throw CommittedOnce
  else
    _ ← on_state (
      same ← gets (pools_unchanged r);
      _ ← throw_if (negb same) PoolChanged;
      _ ← ValidateResidentTablesUnchanged r;
      _ ← preflight r (deltas_ r) 0;
      room ← gets (fun s => tables_capacity s - length (tables s));
      _ ← throw_if (room <? new_count (deltas_ r)) CommitResources;
      _ ← publish_deltas r (deltas_ r) 0;
      if existsb (fun d => negb (d_target_slots d =? d_committed_slots d)) (deltas_ r)
      then on_main (modify (fun w => set_pool (RecordOccupancyMutation (pool w)) w)) else mret tt);
    set_this (closed Committed (adopted_blocks_ r) r).

Definition Commit : TM unit := _ ← ValidateCommit; CommitValidated.

(** *** Giving back *)

Definition Release : TM unit :=
  r ← this;
  match state_ r with
  | Released => mret tt
  | Committed => throw CannotReleaseCommitted
  | Reserved =>
    win ← on_state (gets windowed);
    _ ← on_state (on_main (ValidateFree (reserved_blocks_ r)));
    _ ← on_state (on_main (ValidateFree (adopted_blocks_ r)));
    _ ← (if win : bool then on_state (on_window (ValidateFree (reserved_window_blocks_ r))) else mret tt);
    _ ← on_state (on_main (FreeValidated (reserved_blocks_ r)));
    _ ← on_state (on_main (FreeValidated (adopted_blocks_ r)));
    _ ← (if win : bool then on_state (on_window (FreeValidated (reserved_window_blocks_ r))) else mret tt);
    set_this (closed Released [] r)
  end.

(** The destructor is [noexcept]: a throw inside it terminates. *)
Definition destroy_reservation : TM unit := fun sr =>
  match (r ← this;
    if negb (bool_decide (state_ r = Reserved)) then mret tt
    else
      win ← on_state (gets windowed);
      _ ← on_state (on_main (RollbackReservedBlocks (reserved_blocks_ r)));
      _ ← (if win : bool then on_state (on_window (RollbackReservedBlocks (reserved_window_blocks_ r))) else mret tt);
      on_state (for_each (fun h => on_main (BlockPool.Release h)) (adopted_blocks_ r))) sr with
  | (Throw _, sr') => (Terminate, sr')
  | r => r
  end.
End Reservation.

(** [PagedKeyValueCache::RetainedBlockReclaimer] *)
#[global] Instance RetainedBlockReclaimer : BlockReclaimer PrefixCache.PrefixCache :=
  {| reclaim_error := PrefixError; reclaim_blocks := Reclaim |}.
