(* ===== verification/ReservationProofs.v ===== *)
(** * Correctness of the paged-cache reservation

    The commit contract: what [ValidateCommit] accepts, [CommitValidated] publishes
    without failing, as one exact update of the block tables. *)

From S2P Require Import Prelude BlockPool RequestIndex Positions PrefixCache Reservation.

Open Scope nat_scope.

(** ** Computations that only read *)

Section ReadOnly.
Context {S E : Type}.

Definition reads {A} (m : M S E A) : Prop := forall s, (m s).2 = s.

Lemma reads_ret {A} (a : A) : reads (mret a).
Proof. done. Qed.
Lemma reads_throw {A} e : reads (throw (A := A) e).
Proof. done. Qed.
Lemma reads_undefined {A} : reads (undefined (A := A)).
Proof. done. Qed.
Lemma reads_gets {A} (f : S -> A) : reads (gets f).
Proof. done. Qed.
Lemma reads_lift {A} (o : outcome E A) : reads (lift o).
Proof. done. Qed.
Lemma reads_throw_if b e : reads (throw_if b e).
Proof. by destruct b. Qed.

Lemma reads_bind {A B} (m : M S E A) (k : A -> M S E B) : reads m -> (forall a, reads (k a)) -> reads (m ≫= k).
Proof.
  intros Hm Hk s. specialize (Hm s). unfold mbind, M_bind. destruct (m s) as [[a|e| |] s']; simpl in *; subst; [apply Hk|done..].
Qed.

Lemma reads_for_each {A} (f : A -> M S E unit) l : (forall x, reads (f x)) -> reads (for_each f l).
Proof. intros Hf. induction l as [|x l IH]; simpl; [apply reads_ret|]. by apply reads_bind. Qed.

Lemma reads_run {A} (m : M S E A) s r s' : reads m -> m s = (r, s') -> s' = s.
Proof. intros Hm Hrun. specialize (Hm s). by rewrite Hrun in Hm. Qed.

(** Inverting a successful run whose first step only reads. *)
Lemma reads_inv {A B} (m : M S E A) (k : A -> M S E B) s b s' :
  reads m -> (m ≫= k) s = (Ok b, s') -> exists a, m s = (Ok a, s) /\ k a s = (Ok b, s').
Proof.
  intros Hm Hrun. apply bind_inv_ok in Hrun as (a & s1 & H1 & H2). assert (s1 = s) as -> by (by eapply reads_run). eauto.
Qed.

Lemma throw_if_inv {B} b e (k : unit -> M S E B) s x s' :
  (throw_if b e ≫= k) s = (Ok x, s') -> b = false /\ k tt s = (Ok x, s').
Proof. destruct b; [done|]. intros Hrun. by split. Qed.

Lemma gets_inv {A B} (f : S -> A) (k : A -> M S E B) s b s' : (gets f ≫= k) s = (Ok b, s') -> k (f s) s = (Ok b, s').
Proof. done. Qed.

Lemma lift_inv {A B} (o : outcome E A) (k : A -> M S E B) s b s' :
  (lift o ≫= k) s = (Ok b, s') -> exists a, o = Ok a /\ k a s = (Ok b, s').
Proof. destruct o; try done. intros Hrun. by exists a. Qed.

(** A run that returns or throws. *)
Definition safe {A} (m : M S E A) (s : S) : Prop := (m s).1 <> Terminate /\ (m s).1 <> Undefined.

Lemma safe_bind {A B} (m : M S E A) (k : A -> M S E B) s : reads m -> safe m s ->
  (forall a, m s = (Ok a, s) -> safe (k a) s) -> safe (m ≫= k) s.
Proof.
  intros Hr Hm Hk. specialize (Hr s). unfold safe in *. unfold mbind, M_bind. destruct (m s) as [[a|e| |] s'] eqn:Hrun; cbn in *; subst;
    [by apply Hk|done|by destruct Hm|by destruct Hm].
Qed.

Lemma safe_ret {A} (a : A) s : safe (mret a) s.
Proof. done. Qed.
Lemma safe_throw {A} e s : safe (throw (A := A) e) s.
Proof. done. Qed.
Lemma safe_gets {A} (f : S -> A) s : safe (gets f) s.
Proof. done. Qed.
Lemma safe_throw_if b e s : safe (throw_if b e) s.
Proof. by destruct b. Qed.

Lemma safe_for_each {A} (f : A -> M S E unit) l s : (forall x, reads (f x)) -> (forall x, x ∈ l -> safe (f x) s) ->
  safe (for_each f l) s.
Proof.
  intros Hr. induction l as [|x l IH]; intros Hl; cbn; [apply safe_ret|]. apply safe_bind; [done|apply Hl; left|].
  intros a _. apply IH. intros y Hy. apply Hl. by right.
Qed.

Lemma for_each_ok {A} (f : A -> M S E unit) l s s' : (forall x, reads (f x)) ->
  for_each f l s = (Ok tt, s') -> s' = s /\ forall x, x ∈ l -> f x s = (Ok tt, s).
Proof.
  intros Hf. induction l as [|x l IH]; simpl; intros Hrun.
  - injection Hrun as <-. split; [done|]. intros x Hx. by apply not_elem_of_nil in Hx.
  - apply reads_inv in Hrun as ([] & Hx & Hrun); [|done]. destruct (IH Hrun) as [-> Hl]. split; [done|].
    intros y [->|Hy]%elem_of_cons; auto.
Qed.

Lemma for_each_reads {A} (f : A -> M S E unit) l s :
  (forall x, x ∈ l -> f x s = (Ok tt, s)) -> for_each f l s = (Ok tt, s).
Proof.
  induction l as [|x l IH]; intros Hl; simpl; [done|]. rewrite (bind_ok _ _ _ _ _ (Hl x ltac:(left))).
  apply IH. intros y Hy. apply Hl. by right.
Qed.
End ReadOnly.

Create HintDb safe.
#[export] Hint Resolve safe_ret safe_throw safe_gets safe_throw_if : safe.

Create HintDb reads.
#[export] Hint Resolve reads_ret reads_throw reads_undefined reads_gets reads_lift reads_throw_if : reads.

(** Proves that a composition of reading steps only reads. *)
Ltac solve_reads :=
  repeat first
    [ apply reads_ret | apply reads_throw | apply reads_undefined | apply reads_gets | apply reads_lift
    | apply reads_throw_if | apply reads_bind; [|intros ?] | apply reads_for_each; intros ?
    | solve [eauto with reads]
    | match goal with
      | |- reads (match ?x with _ => _ end) => destruct x
      | |- reads (if ?x then _ else _) => destruct x
      | |- reads (let '_ := ?x in _) => destruct x
      end ].

Section Reservation.
Context {O : Type} `{!BlockReferenceObserver O} `{!BlockReclaimer O}.
Implicit Types s : cache_state O.
Implicit Types r : PagedCacheReservation.
Implicit Types d : PagedCacheReservationDelta.

Lemma set_main_id s : set_main (main s) s = s.
Proof. by destruct s. Qed.

Lemma reads_on_main {A} (m : M (world O) BlockError A) : reads m -> reads (on_main m).
Proof.
  intros Hm s. specialize (Hm (main s)). unfold on_main. destruct (m (main s)) as [[] w]; simpl in *; subst; apply set_main_id.
Qed.

Lemma reads_on_window {A} (m : M (world unit) BlockError A) : reads m -> reads (on_window (O := O) m).
Proof.
  intros Hm s. unfold on_window. destruct (window s) as [w|] eqn:Hw; [|done]. specialize (Hm w).
  destruct (m w) as [[] w']; simpl in *; subst; destruct s; simpl in *; by subst.
Qed.

Lemma reads_deref {P} (a : addr) : reads (deref (O := P) a).
Proof. intros w. unfold deref. by destruct (heap w !! a). Qed.

Lemma reads_Owns {P} (h : handle) : reads (Owns (O := P) h).
Proof. destruct h as [a|]; [|apply reads_ret]. apply reads_bind; [apply reads_deref|]. intros b. solve_reads. Qed.

#[local] Hint Resolve reads_on_main reads_on_window reads_deref reads_Owns reads_gets : reads.

Lemma reads_deref_main h : reads (deref_main (O := O) h).
Proof. destruct h; [|apply reads_undefined]. simpl. eauto with reads. Qed.
#[local] Hint Resolve reads_deref_main : reads.

Lemma reads_Find index id : reads (FindCommittedTable (O := O) index id).
Proof. unfold FindCommittedTable. solve_reads. Qed.
#[local] Hint Resolve reads_Find : reads.

Lemma reads_advance_loop fuel r d blocks n first i rem : reads (advance_loop (O := O) fuel r d blocks n first i rem).
Proof.
  revert i rem. induction fuel as [|fuel IH]; intros i rem; simpl; solve_reads.
Qed.
#[local] Hint Resolve reads_advance_loop : reads.

Lemma reads_ValidateAdvance r d t : reads (ValidateAdvancePreconditions (O := O) r d t).
Proof. unfold ValidateAdvancePreconditions. solve_reads. Qed.
#[local] Hint Resolve reads_ValidateAdvance : reads.

Lemma reads_validate_delta r i d a : reads (validate_delta (O := O) r i d a).
Proof.
  unfold validate_delta, ValidateEmptyReservedBlocks, ValidateEmptyReservedWindowBlocks, check_owned, check_window_owned, check_adopted.
  solve_reads.
Qed.
#[local] Hint Resolve reads_validate_delta : reads.

Lemma reads_validate_deltas r l : forall i a, reads (validate_deltas (O := O) r i l a).
Proof. induction l as [|d l IH]; intros i a; simpl; solve_reads. Qed.

Lemma reads_resident_index r l : forall i, reads (check_resident_index (O := O) r i l).
Proof. induction l as [|t l IH]; intros i; simpl; solve_reads. Qed.

Lemma reads_unchanged r : reads (ValidateResidentTablesUnchanged (O := O) r).
Proof. unfold ValidateResidentTablesUnchanged. solve_reads. Qed.

(** ** Filling blocks

    The writes of a commit, as block addresses with their new sizes. *)

Implicit Types h : gmap addr Block.

Fixpoint writes_from (n target k : nat) (l : list (option addr)) : list (addr * nat) :=
  match l with
  | Some a :: l => if k * n <? target then (a, min n (target - k * n)) :: writes_from n target (S k) l else []
  | _ => []
  end.

Definition writes (n committed target : nat) (l : list (option addr)) : list (addr * nat) :=
  if committed <? target then writes_from n target (committed / n) (drop (committed / n) l) else [].

Definition apply_writes (ws : list (addr * nat)) (h : gmap addr Block) : gmap addr Block :=
  foldl (fun h w => alter (set_size w.2) w.1 h) h ws.

(** Block [k] of the list holds exactly the committed slots that fall into it. *)
Fixpoint fillable (n committed target k : nat) (l : list (option addr)) (h : gmap addr Block) : Prop :=
  k * n < target ->
  match l with
  | Some a :: l =>
    (exists b, h !! a = Some b /\ capacity_ b = n /\ size_ b = committed - k * n) /\
    fillable n committed target (S k) l h
  | _ => False
  end.

Lemma alter_as_insert (f : Block -> Block) a b h : h !! a = Some b -> alter f a h = <[a := f b]> h.
Proof.
  intros Hb. apply map_eq. intros x. destruct (decide (x = a)) as [->|].
  - by rewrite lookup_insert_eq, lookup_alter_eq, Hb.
  - by rewrite lookup_insert_ne, lookup_alter_ne.
Qed.

Lemma apply_writes_app ws1 ws2 h : apply_writes (ws1 ++ ws2) h = apply_writes ws2 (apply_writes ws1 h).
Proof. apply foldl_app. Qed.

Lemma apply_writes_frame ws h a : a ∉ ws.*1 -> apply_writes ws h !! a = h !! a.
Proof.
  revert h. induction ws as [|[x z] ws IH]; intros h Ha; [done|]. cbn. apply not_elem_of_cons in Ha as [Hne Ha].
  fold (apply_writes ws (alter (set_size z) x h)). rewrite IH by done. by rewrite lookup_alter_ne.
Qed.

Lemma apply_writes_lookup ws h a z b : NoDup ws.*1 -> (a, z) ∈ ws -> h !! a = Some b ->
  apply_writes ws h !! a = Some (set_size z b).
Proof.
  revert h. induction ws as [|[x y] ws IH]; intros h Hnd Hin Hb; [by apply not_elem_of_nil in Hin|].
  cbn in *. apply NoDup_cons in Hnd as [Hx Hnd]. fold (apply_writes ws (alter (set_size y) x h)).
  apply elem_of_cons in Hin as [[= -> ->]|Hin].
  - rewrite apply_writes_frame by done. by rewrite lookup_alter_eq, Hb.
  - apply IH; [done..|]. rewrite lookup_alter_ne; [done|]. intros ->. apply Hx. by apply (list_elem_of_fmap_2 fst) in Hin.
Qed.

Lemma fillable_agree n committed target l : forall k h h',
  (forall a, a ∈ (writes_from n target k l).*1 -> h' !! a = h !! a) ->
  fillable n committed target k l h -> fillable n committed target k l h'.
Proof.
  induction l as [|[a|] l IH]; intros k h h' Hag Hf; cbn [fillable] in *; intros Hk; [by apply Hf..| |by apply Hf].
  specialize (Hf Hk) as [(b & Hb & Hcap & Hsz) Hf]. cbn [writes_from] in Hag.
  rewrite (proj2 (Nat.ltb_lt _ _) Hk) in Hag. cbn in Hag. split.
  - exists b. split; [|done]. rewrite Hag by left. done.
  - apply (IH _ h); [|done]. intros x Hx. apply Hag. by right.
Qed.

Lemma set_heap_id s : set_main (set_heap (heap (main s)) (main s)) s = s.
Proof. by destruct s as [[]]. Qed.

Lemma writes_from_nil n target k l : target <= k * n -> writes_from n target k l = [].
Proof. intros Hk. destruct l as [|[a|] l]; cbn [writes_from]; [done| |done]. destruct (Nat.ltb_spec (k * n) target); [lia|done]. Qed.

(** [fill_slots] performs exactly the writes. *)
Lemma fill_slots_ok n committed target l : 0 < n -> committed < target -> forall k s,
  committed <= k * n + n -> NoDup (writes_from n target k l).*1 ->
  fillable n committed target k l (heap (main s)) ->
  fill_slots l (target - max (k * n) committed) s =
    (Ok tt, set_main (set_heap (apply_writes (writes_from n target k l) (heap (main s))) (main s)) s).
Proof.
  intros Hn Hct. induction l as [|h l IH]; intros k s Hk Hnd Hf.
  - cbn [fillable] in Hf. destruct (decide (k * n < target)) as [Hlt|]; [by destruct (Hf Hlt)|].
    cbn [fill_slots writes_from]. rewrite (proj2 (Nat.eqb_eq _ _)) by lia. cbn. by rewrite set_heap_id.
  - cbn [fill_slots]. destruct (Nat.eqb_spec (target - max (k * n) committed) 0) as [Hz|Hz].
    + rewrite writes_from_nil by lia. cbn. by rewrite set_heap_id.
    + cbn [fillable] in Hf. assert (k * n < target) as Hlt by lia. specialize (Hf Hlt).
      destruct h as [a|]; [|done]. destruct Hf as [(b & Hb & Hcap & Hsz) Hf].
      cbn [writes_from] in Hnd |- *. rewrite (proj2 (Nat.ltb_lt _ _) Hlt) in Hnd |- *. cbn in Hnd.
      apply NoDup_cons in Hnd as [Ha Hnd].
      set (z := min n (target - k * n)).
      set (s1 := set_main (set_heap (alter (set_size z) a (heap (main s))) (main s)) s).
      assert (deref_main (Some a) s = (Ok b, s)) as Hd.
      { cbn. unfold on_main. rewrite (deref_ok _ _ _ Hb). by rewrite set_main_id. }
      rewrite (bind_ok _ _ _ _ _ Hd). set (slots := min _ (EmptySlots b)).
      assert (EmptySlots b = n - (committed - k * n)) as He by (unfold EmptySlots; lia).
      assert (size_ b + slots = z) as Hslots by (subst slots z; rewrite He; lia).
      assert (on_main (on_block a (AddSlots slots)) s = (Ok tt, s1)) as Hadd.
      { unfold on_main, on_block. rewrite (bind_ok _ _ _ _ _ (deref_ok _ _ _ Hb)). unfold AddSlots.
        destruct (Nat.ltb_spec (EmptySlots b) slots); [subst slots; lia|]. unfold_m. rewrite Hslots.
        subst s1. by rewrite (alter_as_insert _ _ _ _ Hb). }
      rewrite (bind_ok _ _ _ _ _ Hadd).
      replace (target - max (k * n) committed - slots) with (target - max (S k * n) committed) by (subst slots z; lia).
      rewrite IH.
      * done.
      * lia.
      * done.
      * apply (fillable_agree _ _ _ _ _ (heap (main s))); [|done]. intros x Hx. subst s1. cbn.
        rewrite lookup_alter_ne; [done|]. by intros ->.
Qed.

(** ** What the advance checks establish *)

Definition reserved_of (r : PagedCacheReservation) (d : PagedCacheReservationDelta) : list (option addr) :=
  slice (d_reserved_block_offset d) (d_reserved_block_count d) (reserved_blocks_ r).
Definition window_of (r : PagedCacheReservation) (d : PagedCacheReservationDelta) : list (option addr) :=
  slice (d_reserved_window_block_offset d) (d_reserved_window_block_count d) (reserved_window_blocks_ r).
(** The blocks a growing delta writes into. *)
Definition advance_of (r : PagedCacheReservation) (d : PagedCacheReservationDelta) : list (option addr) :=
  if d_committed_slots d <? d_target_slots d
  then slice (d_advance_block_offset d) (d_advance_block_count d) (advance_blocks_ r) else [].

Lemma slice_lookup {A} off cnt (l : list A) i x : slice off cnt l !! i = Some x <-> i < cnt /\ l !! (off + i) = Some x.
Proof.
  unfold slice. destruct (decide (i < cnt)).
  - rewrite lookup_take_lt, lookup_drop by done. naive_solver.
  - rewrite lookup_take_ge by lia. naive_solver.
Qed.

Lemma on_main_deref_inv a s b s' : on_main (deref a) s = (Ok b, s') -> s' = s /\ heap (main s) !! a = Some b.
Proof.
  unfold on_main, deref. destruct (heap (main s) !! a) as [b'|]; [|done]. intros [= <- <-]. by rewrite set_main_id.
Qed.

(** The block an iteration fetches is block [k] of the grown list. *)
Lemma fetch_inv r d blocks k s x s' :
  (match blocks !! k with
   | Some h => mret h
   | None =>
     let j := k - length blocks in
     if d_reserved_block_count d <=? j then throw CannotReachTarget
     else match reserved_blocks_ r !! (d_reserved_block_offset d + j) with Some h => mret h | None => throw OutOfRange end
   end : M (cache_state O) ReservationError (option addr)) s = (Ok x, s') ->
  s' = s /\ (blocks ++ reserved_of r d) !! k = Some x.
Proof.
  rewrite lookup_app. destruct (blocks !! k) as [h|] eqn:Hk; cbn zeta; [by intros [= -> ->]|].
  destruct (Nat.leb_spec (d_reserved_block_count d) (k - length blocks)); [done|].
  destruct (reserved_blocks_ r !! _) as [h|] eqn:Hh; [|done]. intros [= -> ->]. split; [done|].
  unfold reserved_of. by apply slice_lookup.
Qed.

Lemma advance_loop_inv r d blocks n fuel :
  0 < n -> d_committed_slots d < d_target_slots d -> forall k s s',
  d_committed_slots d / n <= k ->
  advance_loop (O := O) fuel r d blocks n (d_committed_slots d / n) k
    (d_target_slots d - max (k * n) (d_committed_slots d)) s = (Ok tt, s') ->
  let l := drop k (blocks ++ reserved_of r d) in
  fillable n (d_committed_slots d) (d_target_slots d) k l (heap (main s)) /\
  (Some <$> (writes_from n (d_target_slots d) k l).*1) `prefix_of` drop (k - d_committed_slots d / n) (advance_of r d).
Proof.
  intros Hn Hct. set (first := d_committed_slots d / n). assert (d_committed_slots d = n * first + d_committed_slots d mod n) as Hdm
    by (apply Nat.div_mod; lia). pose proof (Nat.mod_upper_bound (d_committed_slots d) n ltac:(lia)) as Hmod.
  induction fuel as [|fuel IH]; intros k s s' Hk Hrun l; cbn [advance_loop] in Hrun;
    destruct (Nat.eqb_spec (d_target_slots d - max (k * n) (d_committed_slots d)) 0) as [Hz|Hz]; [|done| |].
  1,2: rewrite (writes_from_nil _ _ _ l) by lia; split; [|apply prefix_nil]; destruct l; cbn [fillable]; lia.
  apply bind_inv_ok in Hrun as (h & s1 & Hh & Hrun). apply fetch_inv in Hh as [-> Hh].
  cbn zeta in Hrun. destruct h as [a|]; [|done].
  apply bind_inv_ok in Hrun as (b & s1 & Hb & Hrun). apply on_main_deref_inv in Hb as [-> Hb].
  destruct (negb (capacity_ b =? n) || _ || _) eqn:Hc; [done|].
  apply orb_false_iff in Hc as [[Hcap%negb_false_iff%Nat.eqb_eq Hsz%negb_false_iff%Nat.eqb_eq]%orb_false_iff Hcnt%Nat.leb_gt].
  destruct (advance_blocks_ r !! _) as [h'|] eqn:Hadv; [|done].
  destruct (bool_decide_reflect (h' = Some a)) as [->|]; [cbn in Hrun|done].
  assert (size_ b = d_committed_slots d - k * n) as Hsize.
  { rewrite Hsz. destruct (Nat.eqb_spec k first) as [->|]; [lia|]. assert (first + 1 <= k) by lia. nia. }
  rewrite <-Hsz, Hsize in Hrun.
  replace (_ - min _ _) with (d_target_slots d - max (S k * n) (d_committed_slots d)) in Hrun by lia.
  destruct (IH (S k) s s' ltac:(lia) Hrun) as [Hf Hp].
  assert (l = Some a :: drop (S k) (blocks ++ reserved_of r d)) as -> by (subst l; by apply drop_S).
  split.
  - cbn [fillable]. intros _. split; [by exists b|done].
  - cbn [writes_from]. destruct (Nat.ltb_spec (k * n) (d_target_slots d)); [|lia].
    rewrite (drop_S (advance_of r d) (Some a)).
    + cbn. apply prefix_cons. by replace (S (k - first)) with (S k - first) by lia.
    + unfold advance_of. rewrite (proj2 (Nat.ltb_lt _ _) Hct). apply slice_lookup. split; [done|].
      by replace (d_advance_block_offset d + (k - first)) with (d_advance_block_offset d + k - first) by lia.
Qed.

(** ** What the validation establishes *)

(** The table a delta is published into: [Some i] for resident table [i], [None]
    for new table number [new]. *)
Inductive targets s r d (new : nat) : option nat -> PagedCacheBlockTable -> Prop :=
  | TargetsResident i t :
      d_newly_admitted d = false -> Find (resident_table_index_ r) (d_request_id d) = Some i ->
      tables s !! i = Some t -> request_id_ t = d_request_id d -> committed_slots_ t = d_committed_slots d ->
      table_generation_ t = d_table_generation d ->
      length (items (table_blocks_ t)) + d_reserved_block_count d <= vec_capacity (table_blocks_ t) ->
      targets s r d new (Some i) t
  | TargetsNew t :
      d_newly_admitted d = true -> Find (resident_table_index_ r) (d_request_id d) = None ->
      new_tables_ r !! new = Some t -> targets s r d new None t.

Record validated s r (i : nat) d (a : assigned) : Prop := mk_validated
  { va_id : d_request_id d <> 0%N;
    va_index : Find (delta_index_ r) (d_request_id d) = Some i;
    va_target : d_committed_slots d <= d_target_slots d;
    va_offset : d_reserved_block_offset d = as_reserved a;
    va_count : as_reserved a + d_reserved_block_count d <= length (reserved_blocks_ r);
    va_advance : exists o t, targets s r d (as_new a) o t /\ ValidateAdvancePreconditions r d t s = (Ok tt, s) }.

Definition next_assigned (a : assigned) d : assigned :=
  mkAssigned (as_reserved a + d_reserved_block_count d) (as_window a + d_reserved_window_block_count d)
    (as_adopted a + d_adopted_block_count d) (as_new a + if d_newly_admitted d then 1 else 0).

Lemma Find_inv index id s o s' : FindCommittedTable (O := O) index id s = (Ok o, s') ->
  s' = s /\ match o with
            | None => Find index id = None
            | Some (i, t) => Find index id = Some i /\ tables s !! i = Some t /\ request_id_ t = id
            end.
Proof.
  unfold FindCommittedTable. destruct (Find index id) as [i|]; [|by intros [= <- <-]].
  unfold_m. destruct (tables s !! i) as [t|] eqn:Ht; [|done].
  destruct (N.eqb_spec (request_id_ t) id); [|done]. intros [= <- <-]. done.
Qed.

Lemma Find_run index id s i t : Find index id = Some i -> tables s !! i = Some t -> request_id_ t = id ->
  FindCommittedTable index id s = (Ok (Some (i, t)), s).
Proof. intros Hf Ht Hid. unfold FindCommittedTable. rewrite Hf. unfold_m. by rewrite Ht, Hid, N.eqb_refl. Qed.

Lemma Find_run_none index id s : Find index id = None -> FindCommittedTable (O := O) index id s = (Ok None, s).
Proof. intros Hf. unfold FindCommittedTable. by rewrite Hf. Qed.

Lemma delta_layout_inv r a d : delta_layout_ok r a d = true ->
  d_committed_slots d <= d_target_slots d /\ d_reserved_block_offset d = as_reserved a /\
  as_reserved a + d_reserved_block_count d <= length (reserved_blocks_ r).
Proof.
  unfold delta_layout_ok. intros Hl%negb_true_iff. repeat rewrite orb_false_iff in Hl.
  destruct Hl as [[[[[[[[[H1 H2] H3] H4] _] _] _] _] _] _].
  apply Nat.ltb_ge in H1, H3, H4. apply negb_false_iff, Nat.eqb_eq in H2. lia.
Qed.

Lemma validate_delta_inv r i d a s a' s' : validate_delta (O := O) r i d a s = (Ok a', s') ->
  s' = s /\ a' = next_assigned a d /\ validated s r i d a.
Proof.
  intros Hrun. assert (s' = s) as -> by (eapply reads_run; [apply (reads_validate_delta r i d a)|done]).
  split; [done|]. unfold validate_delta in Hrun.
  apply throw_if_inv in Hrun as [[Hid%N.eqb_neq Hix%negb_false_iff%bool_decide_eq_true]%orb_false_iff Hrun].
  apply reads_inv in Hrun as (found & Hfound & Hrun); [|eauto with reads].
  apply throw_if_inv in Hrun as [Hnew Hrun]. apply throw_if_inv in Hrun as [Hstate Hrun].
  apply throw_if_inv in Hrun as [(Hct & Hoff & Hcnt)%negb_false_iff%delta_layout_inv Hrun].
  apply gets_inv in Hrun. apply reads_inv in Hrun as ([] & _ & Hrun); [|unfold ValidateEmptyReservedBlocks; solve_reads].
  apply reads_inv in Hrun as ([] & _ & Hrun); [|unfold check_owned; solve_reads]. apply gets_inv in Hrun.
  apply reads_inv in Hrun as ([] & _ & Hrun);
    [|unfold ValidateEmptyReservedWindowBlocks, check_window_owned; solve_reads].
  apply reads_inv in Hrun as ([] & _ & Hrun); [|unfold check_adopted; solve_reads].
  apply lift_inv in Hrun as (total & Htotal & Hrun). apply lift_inv in Hrun as (capacity & _ & Hrun).
  apply throw_if_inv in Hrun as [_ Hrun]. apply throw_if_inv in Hrun as [Hcap Hrun].
  apply reads_inv in Hrun as (t & Ht & Hrun); [|solve_reads].
  apply reads_inv in Hrun as ([] & Hadv & Hrun); [|eauto with reads].
  injection Hrun as <-. split; [done|]. split; [done..|].
  apply Find_inv in Hfound as [_ Hfound]. destruct found as [[j t']|]; cbn in Hnew.
  - destruct Hfound as (Hf & Hj & Htid). injection Ht as <-. exists (Some j), t'. split; [|done].
    apply orb_false_iff in Hstate as [Hc%negb_false_iff%Nat.eqb_eq Hg%negb_false_iff%N.eqb_eq].
    apply Nat.ltb_ge in Hcap. constructor; try done.
    + by destruct (d_newly_admitted d).
    + unfold CheckedAdd in Htotal. destruct (_ <? _)%N; [done|]. injection Htotal as <-. done.
  - destruct (new_tables_ r !! as_new a) as [t'|] eqn:Hn; [|done]. injection Ht as <-.
    exists None, t'. split; [|done]. constructor; try done. by destruct (d_newly_admitted d).
Qed.

(** ** Publishing one delta *)

Definition target_writes (n : nat) r d (t : PagedCacheBlockTable) : list (addr * nat) :=
  writes n (d_committed_slots d) (d_target_slots d) (items (table_blocks_ t) ++ reserved_of r d).

(** The blocks [t] gains and fills hold what the advance checks require. *)
Definition advance_ready (h : gmap addr Block) (n : nat) r d (t : PagedCacheBlockTable) : Prop :=
  d_committed_slots d < d_target_slots d ->
  fillable n (d_committed_slots d) (d_target_slots d) (d_committed_slots d / n)
    (drop (d_committed_slots d / n) (items (table_blocks_ t) ++ reserved_of r d)) h /\
  (Some <$> (target_writes n r d t).*1) `prefix_of` advance_of r d.

Definition publish_table r d (t : PagedCacheBlockTable) (buffer : nat) : PagedCacheBlockTable :=
  bump_generation (set_committed (d_target_slots d)
    (set_window_blocks (append (window_of r d) (S buffer) (window_blocks_ t))
      (set_table_blocks (append (reserved_of r d) buffer (table_blocks_ t)) t))).

Definition published r d (o : option nat) (t : PagedCacheBlockTable) s : cache_state O :=
  let s1 := set_next_buffer (S (S (next_buffer s)))
    (set_main (set_heap (apply_writes (target_writes (bs s) r d t) (heap (main s))) (main s)) s) in
  let t' := publish_table r d t (next_buffer s) in
  match o with
  | Some i => set_tables (<[i := t']> (tables s)) s1
  | None =>
    set_table_index ((fun ti => (Insert ti (d_request_id d) (length (tables s))).2) <$> table_index s)
      (set_tables_capacity (max (tables_capacity s) (length (tables s) + 1)) (set_tables (tables s ++ [t']) s1))
  end.

Lemma append_items l f v : items (append l f v) = items v ++ l.
Proof. unfold append. by destruct (_ <? _). Qed.

Lemma ValidateAdvance_ready r d t s : 0 < bs s -> ValidateAdvancePreconditions r d t s = (Ok tt, s) ->
  advance_ready (heap (main s)) (bs s) r d t.
Proof.
  intros Hn Hrun Hct. unfold ValidateAdvancePreconditions in Hrun. apply gets_inv in Hrun.
  destruct (Nat.eqb_spec (bs s) 0); [lia|]. cbn zeta in Hrun.
  assert (d_committed_slots d / bs s * bs s <= d_committed_slots d) by (rewrite Nat.mul_comm; apply Nat.Div0.mul_div_le).
  replace (d_target_slots d - d_committed_slots d) with
    (d_target_slots d - max (d_committed_slots d / bs s * bs s) (d_committed_slots d)) in Hrun at 2 by lia.
  apply advance_loop_inv in Hrun as [Hf Hp]; [|done..]. split; [done|].
  rewrite Nat.sub_diag, drop_0 in Hp. unfold target_writes, writes.
  by rewrite (proj2 (Nat.ltb_lt _ _) Hct).
Qed.

Lemma prefix_NoDup {A} (l k : list A) : l `prefix_of` k -> NoDup k -> NoDup l.
Proof. intros [m ->] Hnd. by apply NoDup_app in Hnd as (? & _). Qed.

Lemma AdvanceCommittedSlots_ok r d t s t' : 0 < bs s -> advance_ready (heap (main s)) (bs s) r d t ->
  NoDup (advance_of r d) -> d_committed_slots d <= d_target_slots d -> committed_slots_ t' = d_committed_slots d ->
  items (table_blocks_ t') = items (table_blocks_ t) ++ reserved_of r d ->
  AdvanceCommittedSlots t' (d_target_slots d) s = (Ok (set_committed (d_target_slots d) t'),
    set_main (set_heap (apply_writes (target_writes (bs s) r d t) (heap (main s))) (main s)) s).
Proof.
  intros Hn Hready Hnd Hle Hc Hi. unfold AdvanceCommittedSlots. unfold gets at 1, mbind at 1, M_bind at 1.
  destruct (Nat.eqb_spec (bs s) 0); [lia|]. rewrite Hc, Hi. unfold target_writes, writes.
  destruct (Nat.ltb_spec (d_committed_slots d) (d_target_slots d)) as [Hct|].
  - destruct (Hready Hct) as [Hf Hp]. unfold target_writes, writes in Hp. rewrite (proj2 (Nat.ltb_lt _ _) Hct) in Hp.
    pose proof (Nat.div_mod (d_committed_slots d) (bs s) ltac:(lia)).
    pose proof (Nat.mod_upper_bound (d_committed_slots d) (bs s) ltac:(lia)).
    pose proof (fill_slots_ok (bs s) (d_committed_slots d) (d_target_slots d) _ Hn Hct (d_committed_slots d / bs s) s
      ltac:(lia) (NoDup_fmap_1 Some _ (prefix_NoDup _ _ Hp Hnd)) Hf) as Hfill.
    replace (max _ _) with (d_committed_slots d) in Hfill by lia. by rewrite (bind_ok _ _ _ _ _ Hfill).
  - replace (_ - _) with 0 by lia. cbn. rewrite set_heap_id. by destruct (drop _ _).
Qed.

Lemma publish_delta_ok r d new o t s : 0 < bs s -> targets s r d new o t ->
  committed_slots_ t = d_committed_slots d -> request_id_ t = d_request_id d ->
  advance_ready (heap (main s)) (bs s) r d t -> NoDup (advance_of r d) -> d_committed_slots d <= d_target_slots d ->
  (o = None -> forall ti, table_index s = Some ti -> (Insert ti (d_request_id d) (length (tables s))).1 = true) ->
  publish_delta r d new s = (Ok (new + if d_newly_admitted d then 1 else 0), published r d o t s).
Proof.
  intros Hn Ht Hc Hid Hready Hnd Hle Hins. unfold publish_delta.
  set (s1 := set_next_buffer (S (S (next_buffer s))) s).
  pose proof (AdvanceCommittedSlots_ok r d t s1 (set_window_blocks (append (window_of r d) (S (next_buffer s)) (window_blocks_ t))
    (set_table_blocks (append (reserved_of r d) (next_buffer s) (table_blocks_ t)) t)) Hn Hready Hnd Hle Hc (append_items _ _ _)) as Hadv.
  destruct Ht as [i t Hnew Hf Ht _ _ _ _|t Hnew Hf Ht]; rewrite Hnew in *.
  - rewrite (bind_ok _ _ _ _ _ (Find_run _ _ _ _ _ Hf Ht Hid)).
    cbn. unfold fresh_buffer. unfold mbind at 1 2 3, M_bind at 1 2 3. cbn.
    fold s1. rewrite (bind_ok _ _ _ _ _ Hadv). unfold_m. by rewrite Nat.add_0_r.
  - rewrite (bind_ok _ _ _ _ _ (Find_run_none _ _ _ Hf)). rewrite Ht.
    cbn. unfold fresh_buffer. unfold mbind at 1 2 3, M_bind at 1 2 3. cbn.
    fold s1. rewrite (bind_ok _ _ _ _ _ Hadv). unfold published. cbn. unfold_m.
    destruct (table_index s) as [ti|] eqn:Hti; cbn.
    + rewrite length_app, Nat.add_sub. specialize (Hins eq_refl ti eq_refl).
      destruct (Insert ti (d_request_id d) (length (tables s))) as [ins ti'] eqn:Hi. cbn in Hins. subst ins. cbn. done.
    + subst s1. destruct s. cbn in *. by subst.
Qed.

(** ** Publishing them all *)

Abbreviation entry := (PagedCacheReservationDelta * option nat * PagedCacheBlockTable)%type.
Implicit Types ts : list entry.

Record ready s r (new : nat) (e : entry) : Prop := mk_ready
  { rd_targets : targets s r e.1.1 new e.1.2 e.2;
    rd_committed : committed_slots_ e.2 = d_committed_slots e.1.1;
    rd_id : request_id_ e.2 = d_request_id e.1.1;
    rd_target : d_committed_slots e.1.1 <= d_target_slots e.1.1;
    rd_nonzero : d_request_id e.1.1 <> 0%N;
    rd_advance : advance_ready (heap (main s)) (bs s) r e.1.1 e.2 }.

Fixpoint planned s r (new : nat) ts : Prop :=
  match ts with
  | [] => True
  | e :: ts => ready s r new e /\ planned s r (new + if d_newly_admitted e.1.1 then 1 else 0) ts
  end.

Definition publish_all r ts s : cache_state O := foldl (fun s e => published r e.1.1 e.1.2 e.2 s) s ts.

Definition entry_ids ts : list N := (fun e : entry => d_request_id e.1.1) <$> ts.
Definition new_ids ts : list N := entry_ids (filter (fun e : entry => d_newly_admitted e.1.1 = true) ts).
Definition entry_writes (n : nat) r ts : list (addr * nat) := ts ≫= fun e => target_writes n r e.1.1 e.2.

(** The table index, when there is one, maps each request to its table. *)
Definition index_sync s : Prop :=
  match table_index s with
  | None => True
  | Some ti => index_wf ti /\ forall id i, contents ti !! id = Some i <-> exists t, tables s !! i = Some t /\ request_id_ t = id
  end.

Definition index_room s (n : nat) : Prop :=
  match table_index s with None => True | Some ti => index_size_ ti + n <= max_entries_ ti end.

(** What the publication loop needs of its state. *)
Record loop_ok s r ts : Prop := mk_loop_ok
  { lo_bs : 0 < bs s;
    lo_ids : NoDup (entry_ids ts);
    lo_advance : NoDup (ts ≫= fun e => advance_of r e.1.1);
    lo_fresh : forall id, id ∈ new_ids ts -> id ∉ request_id_ <$> tables s;
    lo_sync : index_sync s;
    lo_room : index_room s (length (new_ids ts)) }.

Lemma new_ids_cons e ts : new_ids (e :: ts) = (if d_newly_admitted e.1.1 then [d_request_id e.1.1] else []) ++ new_ids ts.
Proof. unfold new_ids. rewrite filter_cons. destruct (d_newly_admitted e.1.1); case_decide; done. Qed.

Lemma new_ids_subset id ts : id ∈ new_ids ts -> id ∈ entry_ids ts.
Proof.
  unfold new_ids, entry_ids. intros (e & -> & He)%list_elem_of_fmap. apply list_elem_of_filter in He as [_ He].
  by apply (list_elem_of_fmap_2 (fun e : entry => d_request_id e.1.1)).
Qed.

(** The state after one delta. *)
Lemma published_ids r d o t s new : targets s r d new o t -> request_id_ t = d_request_id d ->
  request_id_ <$> tables (published r d o t s) =
    (request_id_ <$> tables s) ++ (if d_newly_admitted d then [d_request_id d] else []).
Proof.
  intros Ht Hid. destruct Ht as [i t Hnew Hf Ht _ _ _ _|t Hnew Hf Ht]; rewrite Hnew; cbn.
  - rewrite app_nil_r, list_fmap_insert. apply list_insert_id. rewrite list_lookup_fmap, Ht. done.
  - rewrite fmap_app. cbn. by rewrite Hid.
Qed.

Lemma index_missing s ti id : index_sync s -> table_index s = Some ti -> id ∉ request_id_ <$> tables s -> contents ti !! id = None.
Proof.
  intros Hs Hti Hid. unfold index_sync in Hs. rewrite Hti in Hs. destruct Hs as [_ Hs].
  destruct (contents ti !! id) as [i|] eqn:Hc; [|done]. apply Hs in Hc as (t & Ht & <-). destruct Hid.
  apply (list_elem_of_fmap_2 request_id_). by eapply list_elem_of_lookup_2.
Qed.

Lemma index_insert s ti id : index_sync s -> table_index s = Some ti -> id ∉ request_id_ <$> tables s -> id <> 0%N ->
  index_size_ ti < max_entries_ ti ->
  exists ti', Insert ti id (length (tables s)) = (true, ti') /\ index_wf ti' /\
    contents ti' = <[id := length (tables s)]> (contents ti) /\ max_entries_ ti' = max_entries_ ti /\
    index_size_ ti' = S (index_size_ ti).
Proof.
  intros Hs Hti Hid Hnz Hroom. apply Insert_ok; [|done| |done].
  - unfold index_sync in Hs. rewrite Hti in Hs. apply Hs.
  - by eapply index_missing.
Qed.

(** The index stays in step with the tables. *)
Lemma published_sync r d o t s new : targets s r d new o t -> request_id_ t = d_request_id d -> d_request_id d <> 0%N ->
  index_sync s -> index_room s (if d_newly_admitted d then 1 else 0) ->
  (d_newly_admitted d = true -> d_request_id d ∉ request_id_ <$> tables s) -> index_sync (published r d o t s).
Proof.
  intros Htg Hid Hnz Hs Hroom Hfresh. pose proof (published_ids r d o t s new Htg Hid) as Hids.
  destruct Htg as [i t Hnew Hf Ht _ _ _ _|t Hnew Hf Ht]; rewrite Hnew in *.
  - unfold index_sync in *. cbn in *. destruct (table_index s) as [ti|]; [|done]. destruct Hs as [Hwf Hs]. split; [done|].
    intros id j. rewrite Hs. rewrite app_nil_r in Hids.
    assert (forall T : list PagedCacheBlockTable, (exists t, T !! j = Some t /\ request_id_ t = id) <-> (request_id_ <$> T) !! j = Some id) as Hlook.
    { intros T. rewrite list_lookup_fmap. destruct (T !! j) as [x|]; cbn; split; [|intros [= <-]; eauto| |done].
      - by intros (t' & [= ->] & ->).
      - by intros (t' & ? & _). }
    by rewrite !Hlook, Hids.
  - specialize (Hfresh eq_refl). unfold index_sync, published. cbn. destruct (table_index s) as [ti|] eqn:Hti; [|done]. cbn.
    unfold index_room in Hroom. rewrite Hti in Hroom.
    destruct (index_insert s ti (d_request_id d) Hs Hti Hfresh Hnz ltac:(lia)) as (ti' & -> & Hwf & Hc & _). cbn. split; [done|].
    pose proof (index_missing s ti _ Hs Hti Hfresh) as Hnone. unfold index_sync in Hs. rewrite Hti in Hs. destruct Hs as [_ Hs].
    intros id j. rewrite Hc. destruct (decide (id = d_request_id d)) as [->|Hne].
    + rewrite lookup_insert_eq. split.
      * intros [= <-]. eexists. rewrite lookup_app_r, Nat.sub_diag by done. by split.
      * intros (t' & Ht' & Hid'). apply lookup_app_Some in Ht' as [Ht'|[Hj Ht']].
        -- assert (contents ti !! d_request_id d = Some j) by (apply Hs; eauto). congruence.
        -- apply list_lookup_singleton_Some in Ht' as [Hj' _]. f_equal. lia.
    + rewrite lookup_insert_ne, Hs by done. split; intros (t' & Ht' & Hid').
      * exists t'. split; [|done]. by apply lookup_app_l_Some.
      * apply lookup_app_Some in Ht' as [Ht'|[_ Ht']]; [by exists t'|].
        apply list_lookup_singleton_Some in Ht' as [_ <-]. destruct Hne. by rewrite <-Hid'.
Qed.

Lemma published_room r d o t s new n : targets s r d new o t -> request_id_ t = d_request_id d -> d_request_id d <> 0%N ->
  index_sync s -> index_room s ((if d_newly_admitted d then 1 else 0) + n) ->
  (d_newly_admitted d = true -> d_request_id d ∉ request_id_ <$> tables s) -> index_room (published r d o t s) n.
Proof.
  intros Htg Hid Hnz Hs Hroom Hfresh. destruct Htg as [i t Hnew Hf Ht _ _ _ _|t Hnew Hf Ht]; rewrite Hnew in *; [done|].
  specialize (Hfresh eq_refl). unfold index_room, published in *. cbn. destruct (table_index s) as [ti|] eqn:Hti; [|done]. cbn.
  destruct (index_insert s ti (d_request_id d) Hs Hti Hfresh Hnz ltac:(lia)) as (ti' & -> & _ & _ & Hmax & Hsize). cbn. lia.
Qed.

Lemma advance_ready_agree h h' n r d t : (forall a, a ∈ (target_writes n r d t).*1 -> h' !! a = h !! a) ->
  advance_ready h n r d t -> advance_ready h' n r d t.
Proof.
  intros Hag Hr Hct. destruct (Hr Hct) as [Hf Hp]. split; [|done]. apply (fillable_agree _ _ _ _ _ h); [|done].
  unfold target_writes, writes in Hag. by rewrite (proj2 (Nat.ltb_lt _ _) Hct) in Hag.
Qed.

Lemma target_writes_advance h n r d t a : advance_ready h n r d t -> a ∈ (target_writes n r d t).*1 -> Some a ∈ advance_of r d.
Proof.
  intros Hr Ha. destruct (decide (d_committed_slots d < d_target_slots d)) as [Hct|Hct].
  - destruct (Hr Hct) as [_ [m ->]]. apply elem_of_app. left. by apply list_elem_of_fmap_2.
  - unfold target_writes, writes in Ha. destruct (Nat.ltb_spec (d_committed_slots d) (d_target_slots d)); [lia|].
    by apply not_elem_of_nil in Ha.
Qed.

(** The other deltas are still ready after one of them is published. *)
Lemma published_ready r d o t s new e new' : ready s r new (d, o, t) -> ready s r new' e ->
  d_request_id e.1.1 <> d_request_id d -> (forall x, x ∈ advance_of r d -> x ∉ advance_of r e.1.1) ->
  ready (published r d o t s) r new' e.
Proof.
  intros Hd He Hne Hdisj. destruct e as [[d' o'] t']. destruct He as [Htg Hc Hid Hle Hnz Hadv]. cbn in *.
  split; cbn; try done.
  - destruct Htg as [i' t' Hnew' Hf' Ht' Hid' Hc' Hg' Hcap'|t' Hnew' Hf' Ht']; constructor; try done.
    pose proof (rd_targets _ _ _ _ Hd) as Htg. cbn in Htg. clear Hd.
    destruct Htg as [i t Hnew Hf Ht Hid0 _ _ _|t Hnew Hf Ht]; cbn.
    + rewrite list_lookup_insert_ne; [done|]. intros ->. congruence.
    + by apply lookup_app_l_Some.
  - replace (bs (published r d o t s)) with (bs s) by (by destruct o).
    apply (advance_ready_agree (heap (main s))); [|done]. intros a Ha.
    replace (heap (main (published r d o t s))) with (apply_writes (target_writes (bs s) r d t) (heap (main s))) by (by destruct o).
    apply apply_writes_frame. intros Ha2. apply (Hdisj (Some a)).
    + eapply target_writes_advance; [apply (rd_advance _ _ _ _ Hd)|done].
    + by eapply target_writes_advance.
Qed.

Lemma published_planned r d o t s new : ready s r new (d, o, t) -> forall ts new',
  planned s r new' ts -> d_request_id d ∉ entry_ids ts ->
  (forall x, x ∈ advance_of r d -> x ∉ ts ≫= fun e => advance_of r e.1.1) -> planned (published r d o t s) r new' ts.
Proof.
  intros Hd. induction ts as [|e ts IH]; intros new' Hp Hid Hdisj; [done|]. destruct Hp as [He Hp].
  apply not_elem_of_cons in Hid as [Hne Hid]. split.
  - eapply published_ready; [done..|]. intros x Hx He'. apply (Hdisj x Hx). cbn. apply elem_of_app. by left.
  - apply IH; [done..|]. intros x Hx He'. apply (Hdisj x Hx). cbn. apply elem_of_app. by right.
Qed.

Lemma loop_ok_step r d o t s new ts : ready s r new (d, o, t) -> loop_ok s r ((d, o, t) :: ts) ->
  loop_ok (published r d o t s) r ts.
Proof.
  intros [Htg _ Hid _ Hnz _] [Hbs Hids Hadv Hfresh Hsync Hroom]. cbn [fst snd] in *.
  rewrite new_ids_cons in Hfresh, Hroom. cbn in Hfresh, Hroom. rewrite length_app in Hroom.
  assert (d_newly_admitted d = true -> d_request_id d ∉ request_id_ <$> tables s) as Hf.
  { intros Hn. apply Hfresh. rewrite Hn. left. }
  assert (index_room s ((if d_newly_admitted d then 1 else 0) + length (new_ids ts))) as Hroom'
    by (by destruct (d_newly_admitted d)).
  apply NoDup_cons in Hids as [Hnot Hids]. apply NoDup_app in Hadv as (_ & _ & Hadv). split; try done.
  - by destruct o.
  - intros id Hin. rewrite (published_ids r d o t s new) by done. apply not_elem_of_app. split.
    + apply Hfresh. apply elem_of_app. by right.
    + destruct (d_newly_admitted d); [|apply not_elem_of_nil]. intros ->%list_elem_of_singleton. by apply Hnot, new_ids_subset.
  - apply (published_sync r d o t s new); try done. unfold index_room in *. destruct (table_index s); [lia|done].
  - by apply (published_room r d o t s new).
Qed.

Lemma publish_deltas_ok r ts : forall s new, planned s r new ts -> loop_ok s r ts ->
  publish_deltas r ts.*1.*1 new s = (Ok (new + length (new_ids ts)), publish_all r ts s).
Proof.
  induction ts as [|[[d o] t] ts IH]; intros s new Hp Hlo.
  - cbn. by rewrite Nat.add_0_r.
  - destruct Hp as [Hd Hp]. cbn in Hp. pose proof Hd as [Htg Hc Hid Hle Hnz Hadv]. cbn [fst snd] in *.
    pose proof (loop_ok_step r d o t s new ts Hd Hlo) as Hlo'. destruct Hlo as [Hbs Hids Hnd Hfresh Hsync Hroom].
    cbn in Hnd, Hids. apply NoDup_app in Hnd as (Hnd & Hdisj & _). apply NoDup_cons in Hids as [Hnot _].
    rewrite new_ids_cons in *. cbn in Hfresh, Hroom.
    assert (publish_delta r d new s = (Ok (new + if d_newly_admitted d then 1 else 0), published r d o t s)) as Hrun.
    { apply publish_delta_ok; try done. intros -> ti Hti. assert (d_newly_admitted d = true) as Hn by (by inversion Htg).
      rewrite Hn in Hfresh, Hroom. unfold index_room in Hroom. rewrite Hti in Hroom. cbn in Hroom.
      destruct (index_insert s ti (d_request_id d) Hsync Hti) as (ti' & -> & _); [apply Hfresh; left|done|lia|done]. }
    cbn [fmap list_fmap publish_deltas fst snd]. rewrite (bind_ok _ _ _ _ _ Hrun), IH; [|by eapply published_planned|done].
    rewrite length_app. unfold publish_all. cbn [foldl fst snd]. f_equal. f_equal. destruct (d_newly_admitted d); cbn; lia.
Qed.

(** ** From validation to publication *)

Definition newly (l : list PagedCacheReservationDelta) : list PagedCacheReservationDelta :=
  filter (fun d => d_newly_admitted d = true) l.

(** What the constructor establishes and validation does not look at again. *)
Record reservation_wf r : Prop := mk_reservation_wf
  { rw_advance : NoDup (deltas_ r ≫= advance_of r);
    rw_new : Forall2 (fun d t => request_id_ t = d_request_id d /\ committed_slots_ t = d_committed_slots d)
      (newly (deltas_ r)) (new_tables_ r) }.

Fixpoint all_validated s r (i : nat) (l : list PagedCacheReservationDelta) (a : assigned) : Prop :=
  match l with
  | [] => True
  | d :: l => validated s r i d a /\ all_validated s r (S i) l (next_assigned a d)
  end.

Lemma validate_deltas_inv r l : forall i a s a' s', validate_deltas (O := O) r i l a s = (Ok a', s') ->
  s' = s /\ a' = foldl next_assigned a l /\ all_validated s r i l a.
Proof.
  induction l as [|d l IH]; intros i a s a' s' Hrun; cbn in *; [by injection Hrun as -> ->|].
  apply bind_inv_ok in Hrun as (a1 & s1 & Hd & Hrun). apply validate_delta_inv in Hd as (-> & -> & Hd).
  apply IH in Hrun as (-> & -> & Hl). done.
Qed.

Lemma all_validated_index s r l : forall i a, all_validated s r i l a -> forall k d, l !! k = Some d ->
  Find (delta_index_ r) (d_request_id d) = Some (i + k) /\ d_request_id d <> 0%N.
Proof.
  induction l as [|x l IH]; intros i a Hv k d Hk; [done|]. destruct Hv as [Hx Hv]. destruct k as [|k].
  - injection Hk as ->. rewrite Nat.add_0_r. split; apply Hx.
  - destruct (IH _ _ Hv k d Hk) as [Hf ?]. split; [|done]. rewrite Hf. f_equal. lia.
Qed.

Lemma all_validated_ids s r l i a : all_validated s r i l a -> NoDup (d_request_id <$> l).
Proof.
  intros Hv. apply NoDup_alt. intros j k x Hj Hk. rewrite list_lookup_fmap in Hj, Hk.
  destruct (l !! j) as [dj|] eqn:Hdj; [|done]. destruct (l !! k) as [dk|] eqn:Hdk; [|done].
  injection Hj as <-. injection Hk as Heq.
  destruct (all_validated_index _ _ _ _ _ Hv _ _ Hdj) as [Hfj _]. destruct (all_validated_index _ _ _ _ _ Hv _ _ Hdk) as [Hfk _].
  rewrite Heq, Hfj in Hfk. injection Hfk. lia.
Qed.

(** No reserved block is lost and none goes to two tables. *)
Lemma all_validated_reserved s r l : forall i a, all_validated s r i l a ->
  (l ≫= reserved_of r) = slice (as_reserved a) (as_reserved (foldl next_assigned a l) - as_reserved a) (reserved_blocks_ r) /\
  as_reserved a <= as_reserved (foldl next_assigned a l).
Proof.
  induction l as [|d l IH]; intros i a Hv; cbn [foldl].
  - rewrite Nat.sub_diag. done.
  - destruct Hv as [Hd Hv]. destruct (IH _ _ Hv) as [Heq Hle]. cbn [as_reserved next_assigned] in Heq, Hle. split; [|lia].
    cbn. fold (mbind (M := list) (reserved_of r) l). rewrite Heq. unfold reserved_of. rewrite (va_offset _ _ _ _ _ Hd). unfold slice.
    rewrite <-drop_drop. set (L := drop (as_reserved a) (reserved_blocks_ r)).
    replace (as_reserved (foldl _ _ l) - as_reserved a) with
      (d_reserved_block_count d + (as_reserved (foldl next_assigned (next_assigned a d) l) - (as_reserved a + d_reserved_block_count d)))
      by lia.
    by rewrite take_take_drop.
Qed.

(** The plan of the publication. *)
Lemma plan_exists s r l : 0 < bs s -> forall i a, all_validated s r i l a ->
  Forall2 (fun d t => request_id_ t = d_request_id d /\ committed_slots_ t = d_committed_slots d)
    (newly l) (drop (as_new a) (new_tables_ r)) ->
  exists ts, ts.*1.*1 = l /\ planned s r (as_new a) ts.
Proof.
  intros Hbs. induction l as [|d l IH]; intros i a Hv Hnew; [by exists []|]. destruct Hv as [Hd Hv].
  destruct (va_advance _ _ _ _ _ Hd) as (o & t & Htg & Hadv). unfold newly in Hnew. rewrite filter_cons in Hnew.
  assert (committed_slots_ t = d_committed_slots d /\ request_id_ t = d_request_id d /\
    Forall2 (fun d t => request_id_ t = d_request_id d /\ committed_slots_ t = d_committed_slots d)
      (newly l) (drop (as_new (next_assigned a d)) (new_tables_ r))) as (Hc & Hid & Hrest).
  { destruct Htg as [j t Hn Hf Ht Hid Hc _ _|t Hn Hf Ht]; rewrite Hn in *; cbn [as_new next_assigned] in *; rewrite Hn in *.
    - rewrite decide_False in Hnew by done. by rewrite Nat.add_0_r.
    - rewrite decide_True in Hnew by done. rewrite (drop_S _ _ _ Ht) in Hnew.
      apply Forall2_cons in Hnew as [[? ?] Hnew]. by rewrite Nat.add_1_r. }
  destruct (IH _ _ Hv Hrest) as (ts & <- & Hp). exists ((d, o, t) :: ts). split; [done|]. split; [|done].
  split; cbn; try done; try apply Hd. by apply ValidateAdvance_ready.
Qed.

Lemma preflight_ok r l : forall i a s, all_validated s r i l a ->
  preflight r l (as_new a) s = (Ok (as_new (foldl next_assigned a l)), s).
Proof.
  induction l as [|d l IH]; intros i a s Hv; [done|]. destruct Hv as [Hd Hv].
  destruct (va_advance _ _ _ _ _ Hd) as (o & t & Htg & Hadv). specialize (IH _ _ _ Hv).
  cbn [preflight foldl]. destruct Htg as [j t Hn Hf Ht Hid Hc Hg Hcap|t Hn Hf Ht]; cbn [as_new next_assigned] in IH; rewrite Hn in *.
  - rewrite (bind_ok _ _ _ _ _ (Find_run _ _ _ _ _ Hf Ht Hid)). rewrite Hg, Hc, N.eqb_refl, Nat.eqb_refl.
    rewrite (proj2 (Nat.ltb_ge _ _)) by lia. unfold_m. rewrite Hadv. by rewrite Nat.add_0_r in IH.
  - rewrite (bind_ok _ _ _ _ _ (Find_run_none _ _ _ Hf)). cbn. rewrite Ht. unfold_m. by rewrite Hadv.
Qed.

Lemma resident_index_inv r l : forall i s s', check_resident_index (O := O) r i l s = (Ok tt, s') ->
  forall k t, l !! k = Some t -> Find (resident_table_index_ r) (request_id_ t) = Some (i + k).
Proof.
  induction l as [|x l IH]; intros i s s' Hrun k t Hk; [done|]. cbn [check_resident_index] in Hrun.
  destruct ((request_id_ x =? 0)%N || _) eqn:Hx; [done|].
  apply orb_false_iff in Hx as [_ Hx%negb_false_iff%bool_decide_eq_true]. destruct k as [|k].
  - injection Hk as ->. by rewrite Nat.add_0_r.
  - rewrite (IH _ _ _ Hrun k t Hk). f_equal. lia.
Qed.

(** ** The effect of a publication *)

(** A table without the capacity and address of its vectors. *)
Definition forget (t : PagedCacheBlockTable) : PagedCacheBlockTable :=
  set_window_blocks (mkVec (items (window_blocks_ t)) 0 0) (set_table_blocks (mkVec (items (table_blocks_ t)) 0 0) t).

(** Table [t] grown by delta [d]. *)
Definition grown r d (t : PagedCacheBlockTable) : PagedCacheBlockTable :=
  mkTable (request_id_ t) (d_target_slots d)
    (mkVec (items (table_blocks_ t) ++ reserved_of r d) 0 0) (mkVec (items (window_blocks_ t) ++ window_of r d) 0 0)
    (sealed_blocks_ t) (sealed_identity_ t) (sealing_stopped_ t) (u64_succ (table_generation_ t)).

Definition grow_table r (l : list PagedCacheReservationDelta) (t : PagedCacheBlockTable) : PagedCacheBlockTable :=
  match find_delta (request_id_ t) l with Some (_, d) => grown r d t | None => forget t end.

Lemma forget_publish r d t f : forget (publish_table r d t f) = grown r d t.
Proof. unfold forget, publish_table, grown. cbn. by rewrite !append_items. Qed.

Lemma find_delta_cons id d l : find_delta id (d :: l) =
  if decide (d_request_id d = id) then Some (0, d) else (fun p => (S p.1, p.2)) <$> find_delta id l.
Proof. unfold find_delta. cbn. case_decide; [done|]. destruct (list_find _ l) as [[]|]; done. Qed.

Lemma find_delta_none id l : id ∉ d_request_id <$> l -> find_delta id l = None.
Proof.
  induction l as [|d l IH]; intros Hid; [done|]. apply not_elem_of_cons in Hid as [Hne Hid].
  rewrite find_delta_cons, decide_False by done. by rewrite IH.
Qed.

Lemma grow_table_cons_ne r d l t : request_id_ t <> d_request_id d -> grow_table r (d :: l) t = grow_table r l t.
Proof.
  intros Hne. unfold grow_table. rewrite find_delta_cons, decide_False by done. by destruct (find_delta _ l) as [[]|].
Qed.

Lemma grow_table_cons_eq r d l t : request_id_ t = d_request_id d -> grow_table r (d :: l) t = grown r d t.
Proof. intros Heq. unfold grow_table. by rewrite find_delta_cons, decide_True. Qed.

Lemma grow_table_other r l t : request_id_ t ∉ d_request_id <$> l -> grow_table r l t = forget t.
Proof. intros Hid. unfold grow_table. by rewrite find_delta_none. Qed.

Definition new_part r ts : list PagedCacheBlockTable :=
  (fun e : entry => grown r e.1.1 e.2) <$> filter (fun e : entry => d_newly_admitted e.1.1 = true) ts.

Lemma new_part_cons r e ts : new_part r (e :: ts) = (if d_newly_admitted e.1.1 then [grown r e.1.1 e.2] else []) ++ new_part r ts.
Proof. unfold new_part. rewrite filter_cons. by destruct (d_newly_admitted e.1.1); case_decide. Qed.

Lemma grow_step r d o t s new l : targets s r d new o t -> request_id_ t = d_request_id d ->
  NoDup (request_id_ <$> tables s) -> d_request_id d ∉ d_request_id <$> l ->
  (d_newly_admitted d = true -> d_request_id d ∉ request_id_ <$> tables s) ->
  grow_table r l <$> tables (published r d o t s) =
    (grow_table r (d :: l) <$> tables s) ++ (if d_newly_admitted d then [grown r d t] else []).
Proof.
  intros Htg Hid Hnd Hl Hfresh.
  assert (grow_table r l (publish_table r d t (next_buffer s)) = grown r d t) as Hg.
  { rewrite grow_table_other; [apply forget_publish|]. cbn. by rewrite Hid. }
  destruct Htg as [i t Hnew Hf Ht _ _ _ _|t Hnew Hf Ht]; rewrite Hnew in *; cbn.
  - rewrite app_nil_r, list_fmap_insert, Hg. apply list_eq. intros j. rewrite !list_lookup_fmap.
    destruct (decide (j = i)) as [->|Hj].
    + rewrite list_lookup_insert_eq by (rewrite length_fmap; by eapply lookup_lt_Some). rewrite Ht. cbn.
      by rewrite grow_table_cons_eq.
    + rewrite list_lookup_insert_ne, list_lookup_fmap by done. destruct (tables s !! j) as [tj|] eqn:Hj'; [|done]. cbn.
      rewrite grow_table_cons_ne; [done|]. intros Heq. apply Hj. rewrite NoDup_alt in Hnd.
      apply (Hnd j i (d_request_id d)); rewrite list_lookup_fmap.
      * rewrite Hj'. cbn. by rewrite Heq.
      * rewrite Ht. cbn. by rewrite Hid.
  - rewrite fmap_app. cbn. rewrite Hg. f_equal. apply list_fmap_ext. intros j tj Hj. cbn.
    rewrite grow_table_cons_ne; [done|]. intros Heq. apply (Hfresh eq_refl). rewrite <-Heq.
    by eapply list_elem_of_fmap_2, list_elem_of_lookup_2.
Qed.

Lemma publish_all_tables r ts : forall s new, planned s r new ts -> loop_ok s r ts -> NoDup (request_id_ <$> tables s) ->
  forget <$> tables (publish_all r ts s) = (grow_table r ts.*1.*1 <$> tables s) ++ new_part r ts.
Proof.
  induction ts as [|[[d o] t] ts IH]; intros s new Hp Hlo Hnd.
  - cbn. by rewrite app_nil_r.
  - destruct Hp as [Hd Hp]. pose proof (loop_ok_step r d o t s new ts Hd Hlo) as Hlo'.
    destruct Hd as [Htg Hc Hid Hle Hnz Hadv]. destruct Hlo as [Hbs Hids Hadvs Hfresh Hsync Hroom]. cbn [fst snd] in *.
    cbn in Hadvs, Hids. apply NoDup_app in Hadvs as (_ & Hdisj & _). apply NoDup_cons in Hids as [Hnot _].
    assert (d_newly_admitted d = true -> d_request_id d ∉ request_id_ <$> tables s) as Hf.
    { intros Hn. apply Hfresh. rewrite new_ids_cons. cbn. rewrite Hn. left. }
    unfold publish_all. cbn [foldl fst snd]. fold (publish_all r ts (published r d o t s)).
    rewrite (IH _ (new + if d_newly_admitted d then 1 else 0)); [|by eapply published_planned|done|].
    + rewrite (grow_step r d o t s new); try done.
      * rewrite <-app_assoc. f_equal. by rewrite new_part_cons.
      * intros Hin. apply Hnot. unfold entry_ids. rewrite <-!list_fmap_compose in Hin. done.
    + rewrite (published_ids r d o t s new) by done. apply NoDup_app. split_and!; [done| |].
      * intros x Hx Hin. destruct (d_newly_admitted d); [|by apply not_elem_of_nil in Hin].
        apply list_elem_of_singleton in Hin as ->. by apply Hf.
      * destruct (d_newly_admitted d); [apply NoDup_singleton|apply NoDup_nil_2].
Qed.

Lemma newly_cons d l : newly (d :: l) = (if d_newly_admitted d then [d] else []) ++ newly l.
Proof. unfold newly. rewrite filter_cons. by destruct (d_newly_admitted d); case_decide. Qed.

Lemma new_part_zip s r ts : forall new, planned s r new ts ->
  length (newly ts.*1.*1) = length (drop new (new_tables_ r)) ->
  new_part r ts = zip_with (grown r) (newly ts.*1.*1) (drop new (new_tables_ r)).
Proof.
  induction ts as [|[[d o] t] ts IH]; intros new Hp Hlen; [done|]. destruct Hp as [[Htg _ _ _ _ _] Hp].
  rewrite new_part_cons. cbn [fmap list_fmap fst snd] in *. rewrite newly_cons in *.
  destruct Htg as [i t Hn Hf Ht _ _ _ _|t Hn Hf Ht]; rewrite Hn in *.
  - rewrite Nat.add_0_r in Hp. by apply IH.
  - rewrite (drop_S _ _ _ Ht) in *. cbn in *. f_equal. rewrite Nat.add_1_r in Hp. apply IH; [done|]. by injection Hlen.
Qed.

Lemma publish_all_main r ts : forall s,
  main (publish_all r ts s) = set_heap (apply_writes (entry_writes (bs s) r ts) (heap (main s))) (main s) /\
  window (publish_all r ts s) = window s.
Proof.
  induction ts as [|[[d o] t] ts IH]; intros s; [by destruct s as [[]]|].
  unfold publish_all. cbn [foldl fst snd]. fold (publish_all r ts (published r d o t s)).
  destruct (IH (published r d o t s)) as [-> ->]. split; [|by destruct o].
  change (entry_writes (bs s) r ((d, o, t) :: ts)) with (target_writes (bs s) r d t ++ entry_writes (bs s) r ts).
  rewrite apply_writes_app.
  replace (bs (published r d o t s)) with (bs s) by (by destruct o). by destruct o.
Qed.

Lemma publish_all_sync r ts : forall s new, planned s r new ts -> loop_ok s r ts -> index_sync (publish_all r ts s).
Proof.
  induction ts as [|[[d o] t] ts IH]; intros s new Hp Hlo; [apply Hlo|].
  destruct Hp as [Hd Hp]. pose proof (loop_ok_step r d o t s new ts Hd Hlo) as Hlo'.
  destruct Hlo as [_ Hids Hadv _ _ _]. apply NoDup_cons in Hids as [Hnot _]. cbn in Hadv. apply NoDup_app in Hadv as (_ & Hdisj & _).
  unfold publish_all. cbn [foldl fst snd]. eapply IH; [|done]. by eapply published_planned.
Qed.

(** Resident tables grow in place: validation made sure of the capacity. *)
Lemma publish_all_buffers r ts : forall s new, planned s r new ts -> loop_ok s r ts -> forall i t, tables s !! i = Some t ->
  exists t', tables (publish_all r ts s) !! i = Some t' /\ data (table_blocks_ t') = data (table_blocks_ t).
Proof.
  induction ts as [|[[d o] t0] ts IH]; intros s new Hp Hlo i t Hi; [by exists t|].
  destruct Hp as [Hd Hp]. pose proof (loop_ok_step r d o t0 s new ts Hd Hlo) as Hlo'.
  destruct Hlo as [_ Hids Hadv _ _ _]. apply NoDup_cons in Hids as [Hnot _]. cbn in Hadv. apply NoDup_app in Hadv as (_ & Hdisj & _).
  unfold publish_all. cbn [foldl fst snd]. fold (publish_all r ts (published r d o t0 s)).
  assert (exists t1, tables (published r d o t0 s) !! i = Some t1 /\ data (table_blocks_ t1) = data (table_blocks_ t)) as (t1 & Ht1 & <-).
  { pose proof (rd_targets _ _ _ _ Hd) as Htg. cbn [fst snd] in Htg. clear -Htg Hi.
    destruct Htg as [j t0 _ _ Ht _ _ _ Hcap|t0 _ _ Ht]; cbn.
    - destruct (decide (i = j)) as [->|].
      + rewrite list_lookup_insert_eq by (by eapply lookup_lt_Some). eexists. split; [done|]. cbn.
        rewrite Ht in Hi. injection Hi as <-. unfold append, reserved_of, slice.
        destruct (Nat.ltb_spec (vec_capacity (table_blocks_ t0))
          (length (items (table_blocks_ t0)) + length (take (d_reserved_block_count d) (drop (d_reserved_block_offset d) (reserved_blocks_ r)))));
          [|done]. rewrite length_take in *. lia.
      + rewrite list_lookup_insert_ne by done. eauto.
    - exists t. split; [|done]. by apply lookup_app_l_Some. }
  eapply IH; [|done|done]. by eapply published_planned.
Qed.

(** Block [k] of the grown table, when the step fills it. *)
Definition written (n : nat) r d (t : PagedCacheBlockTable) (k : nat) (a : addr) : Prop :=
  d_committed_slots d < d_target_slots d /\ d_committed_slots d / n <= k /\ k * n < d_target_slots d /\
  (items (table_blocks_ t) ++ reserved_of r d) !! k = Some (Some a).

Lemma writes_from_spec n committed target l h a z : forall k, fillable n committed target k l h ->
  (a, z) ∈ writes_from n target k l <->
  exists j, k <= j /\ j * n < target /\ l !! (j - k) = Some (Some a) /\ z = min n (target - j * n).
Proof.
  induction l as [|[x|] l IH]; intros k Hf; cbn [fillable writes_from] in *.
  1, 3: split; [by intros ?%not_elem_of_nil|]; intros (j & Hj & Hlt & _); exfalso; apply Hf; nia.
  destruct (Nat.ltb_spec (k * n) target) as [Hlt|Hge].
  - destruct (Hf Hlt) as [_ Hf']. rewrite elem_of_cons, (IH _ Hf'). split.
    + intros [[= -> ->]|(j & Hj & Hjn & Hl & ->)].
      * exists k. rewrite Nat.sub_diag. done.
      * exists j. split_and!; [lia|done| |done]. replace (j - k) with (S (j - S k)) by lia. done.
    + intros (j & Hj & Hjn & Hl & ->). destruct (decide (j = k)) as [->|].
      * rewrite Nat.sub_diag in Hl. injection Hl as ->. by left.
      * right. exists j. split_and!; [lia|done| |done]. by replace (j - k) with (S (j - S k)) in Hl by lia.
  - split; [by intros ?%not_elem_of_nil|]. intros (j & Hj & Hjn & _). nia.
Qed.

Lemma target_writes_spec h n r d t a z : advance_ready h n r d t ->
  (a, z) ∈ target_writes n r d t <-> exists k, written n r d t k a /\ z = min n (d_target_slots d - k * n).
Proof.
  intros Hr. unfold target_writes, writes, written.
  destruct (Nat.ltb_spec (d_committed_slots d) (d_target_slots d)) as [Hct|Hct].
  - destruct (Hr Hct) as [Hf _]. rewrite (writes_from_spec _ _ _ _ _ _ _ _ Hf). split.
    + intros (j & Hj & Hjn & Hl & ->). exists j. split_and!; [done|done|done| |done].
      rewrite lookup_drop in Hl. by replace (d_committed_slots d / n + _) with j in Hl by lia.
    + intros (k & (_ & Hk & Hkn & Hl) & ->). exists k. split_and!; [done|done| |done].
      rewrite lookup_drop. by replace (d_committed_slots d / n + _) with k by lia.
  - split; [by intros ?%not_elem_of_nil|]. intros (k & (? & _) & _). lia.
Qed.

(** Delta [d] is published into table [t]. *)
Definition updated s r d (t : PagedCacheBlockTable) : Prop :=
  d ∈ deltas_ r /\ request_id_ t = d_request_id d /\ t ∈ (if d_newly_admitted d then new_tables_ r else tables s).

Lemma planned_ready s r ts : forall new e, planned s r new ts -> e ∈ ts -> exists new', ready s r new' e.
Proof.
  induction ts as [|x ts IH]; intros new e Hp He; [by apply not_elem_of_nil in He|]. destruct Hp as [Hx Hp].
  apply elem_of_cons in He as [->|He]; eauto.
Qed.

Lemma NoDup_fmap_inj {A B} (f : A -> B) (l : list A) x y : NoDup (f <$> l) -> x ∈ l -> y ∈ l -> f x = f y -> x = y.
Proof.
  rewrite NoDup_alt. intros Hnd [i Hi]%list_elem_of_lookup [j Hj]%list_elem_of_lookup Heq.
  assert (i = j) as -> by (apply (Hnd i j (f x)); rewrite list_lookup_fmap, ?Hi, ?Hj; cbn; congruence). congruence.
Qed.

Lemma newly_ids l : NoDup (d_request_id <$> l) -> NoDup (d_request_id <$> newly l).
Proof. intros Hnd. eapply sublist_NoDup; [done|]. apply fmap_sublist, sublist_filter. Qed.

Lemma new_tables_ids r : reservation_wf r -> request_id_ <$> new_tables_ r = d_request_id <$> newly (deltas_ r).
Proof.
  intros [_ Hnew]. induction Hnew as [|d t l l' [Hid _] Hl IH]; [done|]. cbn. by rewrite Hid, IH.
Qed.

Lemma entry_updated s r ts : planned s r 0 ts -> ts.*1.*1 = deltas_ r -> reservation_wf r ->
  NoDup (d_request_id <$> deltas_ r) -> NoDup (request_id_ <$> tables s) ->
  forall d t, updated s r d t <-> exists o, (d, o, t) ∈ ts.
Proof.
  intros Hp Hts Hwf Hids Hnd d t. split.
  - intros (Hd & Hid & Ht). rewrite <-Hts in Hd. apply list_elem_of_fmap in Hd as ([d' o] & -> & Hd).
    apply list_elem_of_fmap in Hd as ([[d1 o1] t1] & [= -> ->] & He). exists o1. cbn in *.
    destruct (planned_ready _ _ _ _ _ Hp He) as (new & [Htg _ Hid1 _ _ _]). cbn [fst snd] in *.
    enough (t = t1) as -> by done. destruct Htg as [i t1 Hn _ Ht1 _ _ _ _|t1 Hn _ Ht1]; rewrite Hn in *.
    + apply (NoDup_fmap_inj request_id_ (tables s)); [done|done|by eapply list_elem_of_lookup_2|congruence].
    + apply (NoDup_fmap_inj request_id_ (new_tables_ r)); [|done|by eapply list_elem_of_lookup_2|congruence].
      rewrite new_tables_ids by done. by apply newly_ids.
  - intros [o He]. destruct (planned_ready _ _ _ _ _ Hp He) as (new & [Htg _ Hid1 _ _ _]). cbn [fst snd] in *.
    split_and!; [|done|].
    + rewrite <-Hts. apply (list_elem_of_fmap_2 fst) in He. by apply (list_elem_of_fmap_2 fst) in He.
    + destruct Htg as [i t1 Hn _ Ht1 _ _ _ _|t1 Hn _ Ht1]; rewrite Hn; by eapply list_elem_of_lookup_2.
Qed.

(** The specification of a commit. *)
Record commit_effect s r s' : Prop := mk_commit_effect
  { ce_tables : forget <$> tables s' =
      (grow_table r (deltas_ r) <$> tables s) ++ zip_with (grown r) (newly (deltas_ r)) (new_tables_ r);
    ce_buffers : forall i t, tables s !! i = Some t ->
      exists t', tables s' !! i = Some t' /\ data (table_blocks_ t') = data (table_blocks_ t);
    ce_reserved : (deltas_ r ≫= reserved_of r) = reserved_blocks_ r;
    ce_written : forall d t k a b, updated s r d t -> written (bs s) r d t k a -> heap (main s) !! a = Some b ->
      heap (main s') !! a = Some (set_size (min (bs s) (d_target_slots d - k * bs s)) b);
    ce_frame : forall a, (forall d t k, updated s r d t -> ~ written (bs s) r d t k a) ->
      heap (main s') !! a = heap (main s) !! a;
    ce_pool : pool (main s') =
      if existsb (fun d => negb (d_target_slots d =? d_committed_slots d)) (deltas_ r)
      then RecordOccupancyMutation (pool (main s)) else pool (main s);
    ce_window : window s' = window s;
    ce_index : index_sync s';
    ce_wf : pool_wf (main s) -> pool_wf (main s') }.

Lemma entry_writes_advance s r ts new : planned s r new ts -> forall a, a ∈ (entry_writes (bs s) r ts).*1 ->
  Some a ∈ ts ≫= fun e => advance_of r e.1.1.
Proof.
  revert new. induction ts as [|[[d o] t] ts IH]; intros new Hp a Ha; [by apply not_elem_of_nil in Ha|]. destruct Hp as [Hd Hp].
  change (entry_writes (bs s) r ((d, o, t) :: ts)) with (target_writes (bs s) r d t ++ entry_writes (bs s) r ts) in Ha.
  rewrite fmap_app, elem_of_app in Ha. cbn. apply elem_of_app. destruct Ha as [Ha|Ha]; [left|right; by eapply IH].
  eapply target_writes_advance; [apply Hd|done].
Qed.

Lemma entry_writes_NoDup s r ts new : planned s r new ts -> NoDup (ts ≫= fun e => advance_of r e.1.1) ->
  NoDup (entry_writes (bs s) r ts).*1.
Proof.
  revert new. induction ts as [|[[d o] t] ts IH]; intros new Hp Hnd; [apply NoDup_nil_2|]. destruct Hp as [Hd Hp].
  cbn in Hnd. apply NoDup_app in Hnd as (Hnd1 & Hdisj & Hnd2).
  change (entry_writes (bs s) r ((d, o, t) :: ts)) with (target_writes (bs s) r d t ++ entry_writes (bs s) r ts).
  rewrite fmap_app. pose proof (rd_advance _ _ _ _ Hd) as Hadv. cbn [fst snd] in Hadv. apply NoDup_app. split_and!.
  - destruct (decide (d_committed_slots d < d_target_slots d)) as [Hct|Hct].
    + destruct (Hadv Hct) as [_ Hpre]. eapply NoDup_fmap_1, prefix_NoDup; done.
    + unfold target_writes, writes. destruct (Nat.ltb_spec (d_committed_slots d) (d_target_slots d)); [lia|apply NoDup_nil_2].
  - intros a Ha Ha2. apply (Hdisj (Some a)).
    + by eapply target_writes_advance.
    + by eapply entry_writes_advance.
  - by eapply IH.
Qed.

Lemma writes_from_blocks n committed target l h a z : 0 < n -> forall k, committed < S k * n -> fillable n committed target k l h ->
  (a, z) ∈ writes_from n target k l -> z <= n /\ exists b, h !! a = Some b /\ size_ b < capacity_ b /\ capacity_ b = n.
Proof.
  intros Hn. induction l as [|[x|] l IH]; intros k Hk Hf Hin; cbn [fillable writes_from] in *; [by apply not_elem_of_nil in Hin| |by apply not_elem_of_nil in Hin].
  destruct (Nat.ltb_spec (k * n) target) as [Hlt|Hge]; [|by apply not_elem_of_nil in Hin].
  destruct (Hf Hlt) as [(b & Hb & Hc & Hs) Hf']. apply elem_of_cons in Hin as [[= -> ->]|Hin].
  - split; [lia|]. exists b. split_and!; [done|lia|done].
  - apply (IH (S k)); [lia|done|done].
Qed.

Lemma entry_writes_blocks s r ts new a z : 0 < bs s -> planned s r new ts -> (a, z) ∈ entry_writes (bs s) r ts ->
  z <= bs s /\ exists b, heap (main s) !! a = Some b /\ size_ b < capacity_ b /\ capacity_ b = bs s.
Proof.
  intros Hn Hp. unfold entry_writes. rewrite list_elem_of_bind. intros ([[d o] t] & Hw & He).
  destruct (planned_ready _ _ _ _ _ Hp He) as (new' & [_ _ _ _ _ Hadv]). cbn [fst snd] in *. unfold target_writes, writes in Hw.
  destruct (Nat.ltb_spec (d_committed_slots d) (d_target_slots d)) as [Hct|]; [|by apply not_elem_of_nil in Hw].
  destruct (Hadv Hct) as [Hf _]. eapply writes_from_blocks; [done| |done|done].
  pose proof (Nat.div_mod (d_committed_slots d) (bs s) ltac:(lia)).
  pose proof (Nat.mod_upper_bound (d_committed_slots d) (bs s) ltac:(lia)). lia.
Qed.

Lemma apply_writes_wf {P} (w : world P) ws : pool_wf w -> NoDup ws.*1 ->
  (forall a z, (a, z) ∈ ws -> z <= block_size_ (pool w) /\
    exists b, heap w !! a = Some b /\ size_ b < capacity_ b /\ capacity_ b = block_size_ (pool w)) ->
  pool_wf (set_heap (apply_writes ws (heap w)) w).
Proof.
  intros Hwf Hnd Hws. pose proof Hwf as [? ? ? ? ? ? Hslot Hfresh]. split; try done; cbn.
  - intros id a Ha. destruct (Hslot id a Ha) as (b & Hb & [H1 H2 H3 H4 H5]).
    destruct (decide (a ∈ ws.*1)) as [([a' z] & -> & Hin)%list_elem_of_fmap|Hno].
    + exists (set_size z b). split; [by apply apply_writes_lookup|]. destruct (Hws _ _ Hin) as (Hz & b' & Hb' & Hsz & Hc).
      cbn in Hb, Hb'. assert (b' = b) as -> by congruence. split; cbn; try done; [lia|]. intros i Hi. destruct (H5 i Hi). lia.
    + exists b. by rewrite apply_writes_frame.
  - intros a b Hb. destruct (decide (a ∈ ws.*1)) as [([a' z] & -> & Hin)%list_elem_of_fmap|Hno].
    + destruct (Hws _ _ Hin) as (_ & b' & Hb' & _). by eapply Hfresh.
    + rewrite apply_writes_frame in Hb by done. by eapply Hfresh.
Qed.

Lemma generation_wf {P} (w : world P) : pool_wf w -> pool_wf (set_pool (RecordOccupancyMutation (pool w)) w).
Proof. intros []. by split. Qed.

Lemma publish_effect s r ts s' : planned s r 0 ts -> loop_ok s r ts -> ts.*1.*1 = deltas_ r -> reservation_wf r ->
  NoDup (request_id_ <$> tables s) -> (deltas_ r ≫= reserved_of r) = reserved_blocks_ r ->
  tables s' = tables (publish_all r ts s) -> heap (main s') = heap (main (publish_all r ts s)) ->
  next_addr (main s') = next_addr (main s) -> window s' = window (publish_all r ts s) -> table_index s' = table_index (publish_all r ts s) ->
  pool (main s') = (if existsb (fun d => negb (d_target_slots d =? d_committed_slots d)) (deltas_ r)
    then RecordOccupancyMutation (pool (main s)) else pool (main s)) -> commit_effect s r s'.
Proof.
  intros Hp Hlo Hts Hwf Hnd Hres Htab Hheap Hnext Hwin Hti Hpool.
  assert (NoDup (d_request_id <$> deltas_ r)) as Hids.
  { pose proof (lo_ids _ _ _ Hlo) as Hids. rewrite <-Hts, <-!list_fmap_compose. exact Hids. }
  destruct (publish_all_main r ts s) as [Hmain Hwindow]. rewrite Hmain in Hheap. cbn in Hheap.
  pose proof (entry_writes_NoDup s r ts 0 Hp (lo_advance _ _ _ Hlo)) as Hnodup.
  pose proof (entry_updated s r ts Hp Hts Hwf Hids Hnd) as Hup.
  assert (forall a z, (a, z) ∈ entry_writes (bs s) r ts <-> exists d t k, updated s r d t /\ written (bs s) r d t k a /\
    z = min (bs s) (d_target_slots d - k * bs s)) as Hspec.
  { intros a z. unfold entry_writes. rewrite list_elem_of_bind. split.
    - intros ([[d o] t] & Hw & He). destruct (planned_ready _ _ _ _ _ Hp He) as (new & Hrd).
      apply (target_writes_spec _ _ _ _ _ _ _ (rd_advance _ _ _ _ Hrd)) in Hw as (k & Hw & ->).
      exists d, t, k. split_and!; [|done..]. apply Hup. by exists o.
    - intros (d & t & k & [o He]%Hup & Hw & ->). exists (d, o, t). split; [|done].
      destruct (planned_ready _ _ _ _ _ Hp He) as (new & Hrd).
      apply (target_writes_spec _ _ _ _ _ _ _ (rd_advance _ _ _ _ Hrd)). by exists k. }
  split; try done.
  - rewrite Htab, (publish_all_tables r ts s 0), Hts by done. f_equal. rewrite (new_part_zip s r ts 0), Hts; [done|done|].
    rewrite Hts. apply (Forall2_length _ _ _ (rw_new _ Hwf)).
  - rewrite Htab. by apply (publish_all_buffers r ts s 0).
  - intros d t k a b Hu Hw Hb. rewrite Hheap. apply apply_writes_lookup; [done| |done]. apply Hspec. by exists d, t, k.
  - intros a Hno. rewrite Hheap. apply apply_writes_frame. intros ([a' z] & -> & Hin)%list_elem_of_fmap.
    apply Hspec in Hin as (d & t & k & Hu & Hw & _). by apply (Hno d t k).
  - congruence.
  - pose proof (publish_all_sync r ts s 0 Hp Hlo) as Hsync. unfold index_sync in *. by rewrite Hti, Htab.
  - intros Hpwf. pose proof (apply_writes_wf (main s) (entry_writes (bs s) r ts) Hpwf Hnodup
      (fun a z => entry_writes_blocks s r ts 0 a z (lo_bs _ _ _ Hlo) Hp)) as Hw.
    assert (forall w : world O, pool_wf w -> heap w = heap (main s') -> next_addr w = next_addr (main s') ->
      pool w = pool (main s') -> pool_wf (main s')) as Hcopy.
    { intros w [] H1 H2 H3. rewrite H1, H2, H3 in *. by split. }
    destruct (existsb _ _).
    + by apply (Hcopy _ (generation_wf _ Hw)).
    + by apply (Hcopy _ Hw).
Qed.

(** ** Committing *)

Record commit_valid s r : Prop := mk_commit_valid
  { cv_state : state_ r = Reserved;
    cv_pools : pools_unchanged r s = true;
    cv_unchanged : ValidateResidentTablesUnchanged r s = (Ok tt, s);
    cv_index : forall k t, tables s !! k = Some t -> Find (resident_table_index_ r) (request_id_ t) = Some k;
    cv_deltas : all_validated s r 0 (deltas_ r) (mkAssigned 0 0 0 0);
    cv_reserved : as_reserved (foldl next_assigned (mkAssigned 0 0 0 0) (deltas_ r)) = length (reserved_blocks_ r);
    cv_room : index_room s (as_new (foldl next_assigned (mkAssigned 0 0 0 0) (deltas_ r)));
    cv_capacity : as_new (foldl next_assigned (mkAssigned 0 0 0 0) (deltas_ r)) <= tables_capacity s - length (tables s) }.

Lemma on_state_run {A} (m : M (cache_state O) ReservationError A) s r : on_state m (s, r) = ((m s).1, ((m s).2, r)).
Proof. unfold on_state. cbn. by destruct (m s). Qed.

Definition index_fits s : Prop := match table_index s with None => True | Some ti => index_size_ ti <= max_entries_ ti end.

Lemma sync_fits s : index_sync s -> index_fits s.
Proof. unfold index_sync, index_fits. destruct (table_index s) as [ti|]; [|done]. intros [Hwf _]. apply Hwf. Qed.

Lemma ValidateCommit_inv s r x : index_sync s -> ValidateCommit (s, r) = (Ok tt, x) -> x = (s, r) /\ commit_valid s r.
Proof.
  intros Hsync Hrun. unfold ValidateCommit, this in Hrun. apply gets_inv in Hrun. cbn [snd] in Hrun.
  destruct (bool_decide_reflect (state_ r = Reserved)) as [Hst|]; [cbn [negb] in Hrun|done].
  rewrite on_state_run in Hrun. injection Hrun as Hrun <-.
  match type of Hrun with (?m s).1 = _ => set (body := m) in *; destruct (body s) as [o s'] eqn:Hbody end.
  cbn in Hrun. subst o body. apply gets_inv in Hbody. apply throw_if_inv in Hbody as [_ Hbody]. apply gets_inv in Hbody.
  apply throw_if_inv in Hbody as [Hpools%negb_false_iff Hbody].
  apply reads_inv in Hbody as ([] & Hsnap & Hbody); [|apply reads_unchanged]. apply gets_inv in Hbody.
  apply reads_inv in Hbody as ([] & Hidx & Hbody); [|apply reads_resident_index].
  apply reads_inv in Hbody as (a & Hval & Hbody); [|apply reads_validate_deltas].
  apply validate_deltas_inv in Hval as (_ & -> & Hval). do 2 apply gets_inv in Hbody.
  destruct (negb _ || _ || _ || _ || _ || _) eqn:Hc; [done|]. injection Hbody as <-. split; [done|].
  repeat rewrite orb_false_iff in Hc. destruct Hc as [[[[[H1 _] _] _] H5] H6].
  split; try done.
  - intros k t Hk. by apply (resident_index_inv _ _ _ _ _ Hidx).
  - by apply Nat.eqb_eq, negb_false_iff.
  - apply sync_fits in Hsync. unfold index_room, index_fits in *. destruct (table_index s); [|done]. apply Nat.ltb_ge in H5. lia.
  - by apply Nat.ltb_ge in H6.
Qed.

Lemma as_new_foldl l : forall a, as_new (foldl next_assigned a l) = as_new a + length (newly l).
Proof.
  induction l as [|d l IH]; intros a; cbn [foldl]; [cbn; lia|]. rewrite IH, newly_cons, length_app. cbn.
  destruct (d_newly_admitted d); cbn; lia.
Qed.

Lemma new_ids_newly ts : length (new_ids ts) = length (newly ts.*1.*1).
Proof.
  induction ts as [|[[d o] t] ts IH]; [done|]. rewrite new_ids_cons. cbn [fmap list_fmap fst]. rewrite newly_cons, !length_app, IH.
  cbn. by destruct (d_newly_admitted d).
Qed.

(** Validation, with what the constructor established, is all the loop needs. *)
Lemma commit_plan s r : 0 < bs s -> index_sync s -> reservation_wf r -> commit_valid s r ->
  exists ts, ts.*1.*1 = deltas_ r /\ planned s r 0 ts /\ loop_ok s r ts /\ NoDup (request_id_ <$> tables s).
Proof.
  intros Hbs Hsync Hwf [Hst Hpools _ Hidx Hval _ Hroom _].
  destruct (plan_exists s r (deltas_ r) Hbs 0 (mkAssigned 0 0 0 0) Hval) as (ts & Hts & Hp).
  { cbn [as_new]. rewrite drop_0. apply Hwf. }
  exists ts. split_and!; [done|done| |].
  - split; try done.
    + pose proof (all_validated_ids _ _ _ _ _ Hval) as Hids. rewrite <-Hts, <-!list_fmap_compose in Hids. exact Hids.
    + pose proof (rw_advance _ Hwf) as Hadv. rewrite <-Hts in Hadv. unfold mbind in *.
      revert Hadv. generalize ts. clear. intros ts Hadv.
      replace (list_bind _ _ (fun e : entry => advance_of r e.1.1) ts) with (list_bind _ _ (advance_of r) ts.*1.*1); [done|].
      induction ts as [|e ts IH]; [done|]. cbn in *. f_equal. apply IH. by apply NoDup_app in Hadv as (_ & _ & ?).
    + intros id (e & -> & He)%list_elem_of_fmap (t & Heq & [k Hk]%list_elem_of_lookup)%list_elem_of_fmap.
      apply list_elem_of_filter in He as [Hn He]. destruct (planned_ready _ _ _ _ _ Hp He) as (new & [Htg _ _ _ _ _]).
      specialize (Hidx k t Hk). rewrite <-Heq in Hidx. inversion Htg; congruence.
    + rewrite as_new_foldl in Hroom. cbn [as_new] in Hroom. by rewrite new_ids_newly, Hts.
  - apply NoDup_alt. intros j k x Hj Hk. rewrite list_lookup_fmap in Hj, Hk.
    destruct (tables s !! j) as [tj|] eqn:Htj; [|done]. destruct (tables s !! k) as [tk|] eqn:Htk; [|done].
    injection Hj as <-. injection Hk as Heq. specialize (Hidx j tj Htj) as H1. specialize (Hidx k tk Htk) as H2. congruence.
Qed.

Lemma CommitValidated_ok s r : 0 < bs s -> index_sync s -> reservation_wf r -> commit_valid s r ->
  exists s', CommitValidated (s, r) = (Ok tt, (s', closed Committed (adopted_blocks_ r) r)) /\ commit_effect s r s'.
Proof.
  intros Hbs Hsync Hwf Hcv. destruct (commit_plan s r Hbs Hsync Hwf Hcv) as (ts & Hts & Hp & Hlo & Hnd).
  destruct Hcv as [Hst Hpools Hsnap Hidx Hval Hres Hroom Hcap].
  set (s1 := publish_all r ts s).
  set (s' := if existsb (fun d => negb (d_target_slots d =? d_committed_slots d)) (deltas_ r)
    then set_main (set_pool (RecordOccupancyMutation (pool (main s1))) (main s1)) s1 else s1).
  exists s'. split.
  - unfold CommitValidated, this. rewrite gets_bind. cbn [snd].
    rewrite bool_decide_eq_true_2 by done. cbn [negb].
    match goal with |- (on_state ?b ≫= _) _ = _ => set (body := b) end.
    assert (body s = (Ok tt, s')) as Hbody; [|by unfold mbind, M_bind; rewrite on_state_run, Hbody].
    subst body. rewrite gets_bind, throw_if_false, (bind_ok _ _ _ _ _ Hsnap) by (by rewrite Hpools).
    rewrite (bind_ok _ _ _ _ _ (preflight_ok r (deltas_ r) 0 (mkAssigned 0 0 0 0) s Hval)).
    rewrite gets_bind. rewrite as_new_foldl in Hcap. cbn [as_new] in Hcap.
    unfold new_count. fold (newly (deltas_ r)). rewrite throw_if_false by (apply Nat.ltb_ge; lia).
    pose proof (publish_deltas_ok r ts s 0 Hp Hlo) as Hpub. rewrite Hts in Hpub. rewrite (bind_ok _ _ _ _ _ Hpub).
    fold s1. subst s'. by destruct (existsb _ _).
  - apply (publish_effect s r ts); try done.
    + destruct (all_validated_reserved s r _ _ _ Hval) as [-> _]. cbn [as_reserved]. rewrite Hres, Nat.sub_0_r.
      unfold slice. rewrite drop_0. by apply take_ge.
    + subst s'. by destruct (existsb _ _).
    + subst s'. by destruct (existsb _ _).
    + subst s' s1. destruct (publish_all_main r ts s) as [Hmain _]. destruct (existsb _ _); cbn; by rewrite Hmain.
    + subst s'. by destruct (existsb _ _).
    + subst s'. by destruct (existsb _ _).
    + subst s' s1. destruct (publish_all_main r ts s) as [Hmain _]. destruct (existsb _ _); cbn; by rewrite Hmain.
Qed.

(** ** Validation never fails badly *)

(** Every handle the reservation holds refers to a live block. *)
Record handles_live s r : Prop := mk_handles_live
  { hl_reserved : handles_valid (main s) (reserved_blocks_ r);
    hl_adopted : handles_valid (main s) (adopted_blocks_ r);
    hl_tables : forall t, t ∈ tables s \/ t ∈ new_tables_ r -> handles_valid (main s) (items (table_blocks_ t));
    hl_window : forall w, window s = Some w -> handles_valid w (reserved_window_blocks_ r) }.

Lemma slice_subset {A} off cnt (l : list A) x : x ∈ slice off cnt l -> x ∈ l.
Proof.
  unfold slice. intros Hx. rewrite <-(take_drop off l). apply elem_of_app. right.
  rewrite <-(take_drop cnt (drop off l)). apply elem_of_app. by left.
Qed.

Lemma safe_on_main {A} (m : M (world O) BlockError A) s : safe m (main s) -> safe (on_main m) s.
Proof. unfold safe, on_main. destruct (m (main s)) as [[] w]; cbn; naive_solver. Qed.

Lemma safe_on_window {A} (m : M (world unit) BlockError A) s w : window s = Some w -> safe m w -> safe (on_window (O := O) m) s.
Proof. unfold safe, on_window. intros ->. destruct (m w) as [[] w']; cbn; naive_solver. Qed.

Lemma safe_deref {P} a (w : world P) : is_Some (heap w !! a) -> safe (deref a) w.
Proof. intros [b Hb]. unfold safe. by rewrite (deref_ok _ _ _ Hb). Qed.

Lemma safe_Owns {P} x (w : world P) l : handles_valid w l -> x ∈ l -> safe (Owns x) w.
Proof.
  intros Hl Hx. destruct x as [a|]; [|apply safe_ret]. unfold Owns.
  apply safe_bind; [apply reads_deref|by apply safe_deref, Hl|]. intros b _. apply safe_gets.
Qed.

Lemma Owns_inv x s : on_main (Owns x) s = (Ok true, s) -> is_Some x.
Proof. destruct x; [done|]. cbn. by intros [=]. Qed.

Lemma safe_Find index id s : safe (FindCommittedTable (O := O) index id) s.
Proof.
  unfold FindCommittedTable, safe. destruct (Find index id) as [i|]; [|done]. unfold_m.
  destruct (tables s !! i) as [t|]; [|done]. by destruct (request_id_ t =? id)%N.
Qed.

Lemma safe_advance_loop r d blocks n first fuel : forall k rem s,
  handles_valid (main s) blocks -> handles_valid (main s) (reserved_blocks_ r) -> rem <= fuel ->
  0 < n -> d_committed_slots d mod n < n -> safe (advance_loop fuel r d blocks n first k rem) s.
Proof.
  induction fuel as [|fuel IH]; intros k rem s Hb Hr Hf Hn Hm; cbn [advance_loop]; destruct (Nat.eqb_spec rem 0); try done; [lia|].
  apply safe_bind; [solve_reads| |].
  - destruct (blocks !! k); [done|]. cbn zeta. destruct (_ <=? _); [done|]. by destruct (_ !! _).
  - intros x Hx. apply fetch_inv in Hx as [_ Hx]. cbn zeta. destruct x as [a|]; [|done].
    assert (is_Some (heap (main s) !! a)) as Ha.
    { apply list_elem_of_lookup_2, elem_of_app in Hx as [Hx|Hx]; [by apply Hb|]. by apply Hr, (slice_subset _ _ _ _ Hx). }
    apply safe_bind; [solve_reads|by apply safe_on_main, safe_deref|]. intros b _.
    destruct (negb _ || _ || _); [done|]. destruct (advance_blocks_ r !! _); [|done]. destruct (negb _); [done|].
    apply IH; try done. destruct (k =? first); lia.
Qed.

Lemma safe_ValidateAdvance s r d t : 0 < bs s -> handles_live s r -> t ∈ tables s \/ t ∈ new_tables_ r ->
  safe (ValidateAdvancePreconditions r d t) s.
Proof.
  intros Hn Hl Ht. unfold ValidateAdvancePreconditions. apply safe_bind; [solve_reads|done|]. intros n [= <-].
  destruct (Nat.eqb_spec (bs s) 0); [lia|]. cbn zeta. apply safe_advance_loop; try done; try apply Hl; [done|].
  apply Nat.mod_upper_bound. lia.
Qed.

Lemma safe_validate_delta s r i d a : 0 < bs s -> handles_live s r -> safe (validate_delta r i d a) s.
Proof.
  intros Hn Hl. unfold validate_delta.
  apply safe_bind; [solve_reads|apply safe_throw_if|intros [] _]. apply safe_bind; [solve_reads|apply safe_Find|intros found Hfound].
  apply safe_bind; [solve_reads|apply safe_throw_if|intros [] _]. apply safe_bind; [solve_reads|apply safe_throw_if|intros [] _].
  apply safe_bind; [solve_reads|apply safe_throw_if|intros [] _]. apply safe_bind; [solve_reads|apply safe_gets|intros n _].
  apply safe_bind; [unfold ValidateEmptyReservedBlocks; solve_reads| |intros [] _].
  { apply safe_for_each; [intros x; solve_reads|]. intros [x|] Hx%slice_subset; [|done].
    apply safe_bind; [solve_reads|by apply safe_on_main, safe_deref, Hl|]. intros b _. apply safe_throw_if. }
  apply safe_bind; [unfold check_owned; solve_reads| |intros [] _].
  { apply safe_for_each; [intros x; unfold check_owned; solve_reads|]. intros x Hx%slice_subset. unfold check_owned.
    apply safe_bind; [solve_reads|apply safe_on_main; by eapply safe_Owns; [apply Hl|]|]. intros b _. apply safe_throw_if. }
  apply safe_bind; [solve_reads|apply safe_gets|intros win [= <-]].
  apply safe_bind; [unfold ValidateEmptyReservedWindowBlocks, check_window_owned; solve_reads| |intros [] _].
  { unfold windowed. destruct (window s) as [w|] eqn:Hw; [|done]. pose proof (hl_window _ _ Hl w Hw) as Hlw.
    apply safe_bind; [solve_reads|by eapply safe_on_window|intros size _].
    apply safe_bind; [unfold ValidateEmptyReservedWindowBlocks; solve_reads| |intros [] _].
    - apply safe_for_each; [intros x; solve_reads|]. intros [x|] Hx%slice_subset; [|done].
      apply safe_bind; [solve_reads|by eapply safe_on_window; [done|]; apply safe_deref, Hlw|]. intros b _. apply safe_throw_if.
    - apply safe_for_each; [intros x; unfold check_window_owned; solve_reads|]. intros x Hx%slice_subset. unfold check_window_owned.
      apply safe_bind; [solve_reads|by eapply safe_on_window; [done|]; eapply safe_Owns|]. intros b _. apply safe_throw_if. }
  apply safe_bind; [unfold check_adopted; solve_reads| |intros [] _].
  { apply safe_for_each; [intros x; unfold check_adopted; solve_reads|]. intros x Hx%slice_subset. unfold check_adopted.
    apply safe_bind; [solve_reads|apply safe_on_main; by eapply safe_Owns; [apply (hl_adopted _ _ Hl)|]|]. intros [] Ho; [|done]. cbn [negb].
    apply Owns_inv in Ho as [x' ->]. apply safe_bind; [solve_reads|by apply safe_on_main, safe_deref, (hl_adopted _ _ Hl)|]. intros b _. apply safe_throw_if. }
  apply safe_bind; [solve_reads|unfold lift, safe, CheckedAdd; by destruct (_ <? _)%N|intros total _].
  apply safe_bind; [solve_reads|unfold lift, safe, CheckedBlockSlots; by destruct (_ && _)|intros cap _].
  apply safe_bind; [solve_reads|apply safe_throw_if|intros [] _]. apply safe_bind; [solve_reads|apply safe_throw_if|intros [] _].
  apply safe_bind; [solve_reads|by destruct found as [[]|]; [|destruct (_ !! _)]|intros t Ht].
  apply safe_bind; [solve_reads| |intros [] _; apply safe_ret]. apply safe_ValidateAdvance; [done..|].
  apply Find_inv in Hfound as [_ Hfound]. destruct found as [[j t']|].
  - injection Ht as <-. left. destruct Hfound as (_ & Hj & _). by eapply list_elem_of_lookup_2.
  - destruct (new_tables_ r !! as_new a) as [t'|] eqn:Hn'; [|done]. injection Ht as <-. right. by eapply list_elem_of_lookup_2.
Qed.

Lemma safe_validate_deltas s r l : 0 < bs s -> handles_live s r -> forall i a, safe (validate_deltas r i l a) s.
Proof.
  intros Hn Hl. induction l as [|d l IH]; intros i a; [done|]. cbn.
  apply safe_bind; [solve_reads|by apply safe_validate_delta|]. intros a' _. apply IH.
Qed.

Lemma safe_resident_index r l s : forall i, safe (check_resident_index (O := O) r i l) s.
Proof. induction l as [|t l IH]; intros i; [done|]. cbn [check_resident_index]. destruct (_ || _); [done|apply IH]. Qed.

Lemma ValidateCommit_reads s r : 0 < bs s -> handles_live s r ->
  exists o, ValidateCommit (s, r) = (o, (s, r)) /\ o <> Terminate /\ o <> Undefined.
Proof.
  intros Hn Hl. unfold ValidateCommit, this. rewrite gets_bind. cbn [snd].
  destruct (negb _); [by eexists|]. rewrite on_state_run.
  match goal with |- context [(?m s).1] => set (body := m) end.
  assert (reads body) as Hr.
  { pose proof (reads_validate_deltas r (deltas_ r)). pose proof (reads_unchanged r). pose proof (reads_resident_index r).
    subst body. solve_reads. }
  assert (safe body s) as [H1 H2]; [|rewrite (Hr s); by eexists].
  subst body. apply safe_bind; [solve_reads|apply safe_gets|intros win _]. apply safe_bind; [solve_reads|apply safe_throw_if|intros [] _].
  apply safe_bind; [solve_reads|apply safe_gets|intros same _]. apply safe_bind; [solve_reads|apply safe_throw_if|intros [] _].
  apply safe_bind; [apply reads_unchanged| |intros [] _].
  { unfold ValidateResidentTablesUnchanged, safe. unfold_m. destruct (negb _); [done|]. by destruct (negb _). }
  apply safe_bind; [solve_reads|apply safe_gets|intros l _].
  apply safe_bind; [apply reads_resident_index|apply safe_resident_index|intros [] _].
  apply safe_bind; [apply reads_validate_deltas|by apply safe_validate_deltas|intros a _].
  apply safe_bind; [solve_reads|apply safe_gets|intros ti _]. apply safe_bind; [solve_reads|apply safe_gets|intros cap _].
  apply safe_throw_if.
Qed.

(** C10: committing a reservation is all or nothing.  With live handles, a table index
    in step with the tables, and a reservation as its constructor leaves it, [Commit]
    never terminates the process or meets undefined behaviour; when it throws, nothing
    has changed; when it returns, the publication had exactly the effect of
    [commit_effect]: every resident table with a delta gained its reserved blocks in
    place and its new boundary, the new tables follow in the order of the deltas, every
    reserved block went to exactly one table, each block the step fills has the size
    its position and the target give it, all other blocks are untouched, the table
    index matches the tables, and the pool invariant is kept. *)
Theorem commit_all_or_nothing s r : 0 < bs s -> index_sync s -> reservation_wf r -> handles_live s r ->
  match Commit (s, r) with
  | (Ok _, (s', r')) => commit_effect s r s' /\ r' = closed Committed (adopted_blocks_ r) r
  | (Throw _, sr) => sr = (s, r)
  | _ => False
  end.
Proof.
  intros Hn Hsync Hwf Hl. unfold Commit. destruct (ValidateCommit_reads s r Hn Hl) as (o & Hv & Ht & Hu).
  unfold mbind, M_bind. rewrite Hv. destruct o as [[]|e| |]; [|done|by destruct Ht|by destruct Hu].
  apply ValidateCommit_inv in Hv as [_ Hcv]; [|done].
  destruct (CommitValidated_ok s r Hn Hsync Hwf Hcv) as (s' & -> & He). done.
Qed.
End Reservation.

#[export] Hint Resolve reads_on_main reads_on_window reads_deref reads_Owns reads_deref_main reads_Find
  reads_advance_loop reads_ValidateAdvance reads_validate_delta reads_validate_deltas reads_resident_index reads_unchanged : reads.


(** ** A sample *)

Definition sample_tables : cache_state PrefixCache :=
  mkState (initial_world 2 4 (make_PrefixCache 4 (mkOptions true 2 false 2 None))) None [] 0
    (match make_RequestIndex 3 with Ok i => Some i | _ => None end) 1.

Definition sample_reserved : cache_state PrefixCache * PagedCacheReservation :=
  match make_Reservation [mkRequest 7 3 true 5 None; mkRequest 9 2 true 0 None] 0 true sample_tables with
  | (Ok r, s) => (s, r)
  | (_, s) => (s, mkReservation 0 (mkIndex [] 0 0) [] [] [] [] (mkIndex [] 0 0) [] 0 [] [] [] 0 0 Released)
  end.

Lemma sample_reserved_wf : reservation_wf sample_reserved.2.
Proof.
  split.
  - apply (bool_decide_unpack _). vm_compute. exact I.
  - vm_compute. repeat constructor.
Qed.

Lemma sample_reserved_live : handles_live sample_reserved.1 sample_reserved.2.
Proof.
  split.
  - intros a Ha. assert (a ∈ [0; 1; 2; 3]) as Ha' by (vm_compute in Ha |- *; set_solver).
    vm_compute. repeat (apply elem_of_cons in Ha' as [->|Ha']; [by eexists|]). by apply not_elem_of_nil in Ha'.
  - intros a Ha. vm_compute in Ha. by apply not_elem_of_nil in Ha.
  - intros t [Ht|Ht] a Ha.
    + vm_compute in Ht. by apply not_elem_of_nil in Ht.
    + assert (items (table_blocks_ t) = []) as Hi.
      { vm_compute in Ht. repeat (apply elem_of_cons in Ht as [->|Ht]; [done|]). by apply not_elem_of_nil in Ht. }
      rewrite Hi in Ha. by apply not_elem_of_nil in Ha.
  - intros w Hw. assert (window sample_reserved.1 = None) as Hn by (by vm_compute). rewrite Hn in Hw. discriminate Hw.
Qed.

Lemma sample_reserved_sync : index_sync sample_reserved.1.
Proof.
  destruct (make_spec 3 ltac:(lia)) as (i & Hi & Hwf & Hc & _). unfold index_sync.
  assert (table_index sample_reserved.1 = Some i) as ->.
  { transitivity (match make_RequestIndex 3 with Ok i => Some i | _ => None end); [by vm_compute|by rewrite Hi]. }
  split; [done|]. intros id k. rewrite Hc, lookup_empty. split; [done|]. intros (t & Ht & _).
  assert (tables sample_reserved.1 = []) as Hnil by (by vm_compute).
  rewrite Hnil, lookup_nil in Ht. discriminate Ht.
Qed.

Lemma commit_all_or_nothing_witness :
  match Commit sample_reserved with
  | (Ok _, (s', r')) => commit_effect sample_reserved.1 sample_reserved.2 s'
  | _ => False
  end.
Proof.
  pose proof (commit_all_or_nothing sample_reserved.1 sample_reserved.2 ltac:(vm_compute; lia) sample_reserved_sync
    sample_reserved_wf sample_reserved_live) as H.
  replace (sample_reserved.1, sample_reserved.2) with sample_reserved in H by (by destruct sample_reserved).
  assert (is_ok (Commit sample_reserved).1 = true) as Hok by (by vm_compute).
  destruct (Commit sample_reserved) as [[u|e| |] [s' r']]; [by destruct H|done..].
Defined.
