(* ===== verification/GraphIds.v ===== *)
(** * CUDA graph annotation ids

    Models [engine/graph_annotation_ids.h].  The ids of one allocator are a
    [std::map], an association list in key order; the counter is one process-wide
    atomic, so allocators of several engines interleave at its [fetch_add].  A call of
    [Id] that draws is therefore two steps: the draw, and the insertion into the
    allocator's own map. *)

From S2P Require Import Prelude.

Open Scope Z_scope.

Definition kMaxCapturedShapes : nat := 64.
Definition kMaxKeyComponents : nat := 8.

(** [std::array<size_t, 8>], compared lexicographically. *)
Abbreviation Key := (list N) (only parsing).

Fixpoint key_ltb (k1 k2 : Key) : bool :=
  match k1, k2 with
  | [], _ :: _ => true
  | x :: k1, y :: k2 => (x <? y)%N || ((x =? y)%N && key_ltb k1 k2)
  | _, [] => false
  end.

(** ** The process-wide counter *)

Definition int_max : Z := 2 ^ 31 - 1.

(** [fetch_add] on an [int64_t] wraps; the narrowing cast keeps the low 32 bits. *)
Definition wrap64 (z : Z) : Z := (z + 2 ^ 63) mod 2 ^ 64 - 2 ^ 63.
Definition to_int (z : Z) : Z := (z + 2 ^ 31) mod 2 ^ 32 - 2 ^ 31.

Definition NextProcessWideId (next : Z) : Z * Z :=
  (if next <=? int_max then to_int next else -1, wrap64 (next + 1)).

(** ** One allocator *)

Abbreviation Ids := (list (Key * Z)) (only parsing).

Definition find (key : Key) (ids : Ids) : option Z :=
  snd <$> List.find (fun e : Key * Z => bool_decide (e.1 = key)) ids.

Fixpoint emplace (key : Key) (id : Z) (ids : Ids) : Ids :=
  match ids with
  | [] => [(key, id)]
  | e :: ids' => if key_ltb key e.1 then (key, id) :: ids else e :: emplace key id ids'
  end.

(** What [Id] does before it draws: answer, or draw. *)
Definition lookup_id (key : Key) (ids : Ids) : option Z :=
  match find key ids with
  | Some id => Some id
  | None => if (kMaxCapturedShapes <=? length ids)%nat then Some (-1) else None
  end.

(** The whole call, when nothing interleaves. *)
Definition Id (key : Key) (next : Z) (ids : Ids) : Z * Z * Ids :=
  match lookup_id key ids with
  | Some id => (id, next, ids)
  | None =>
    let '(id, next') := NextProcessWideId next in
    if id <? 0 then (-1, next', ids) else (id, next', emplace key id ids)
  end.

Definition AssignedIds (ids : Ids) : list Z := ids.*2.
Definition Clear (ids : Ids) : Ids := [].

(** ** Several allocators *)

Record allocator : Type := mkAllocator
  { ids_ : list (Key * Z);
    drawn : option (Key * Z) }.

Record process : Type := mkProcess
  { next_id : Z;
    allocators : gmap nat allocator;
    returned : list (nat * Key * Z) }.   (* every id handed out, oldest first *)

Definition initial : process := mkProcess 1 ∅ [].

Definition put (o : nat) (a : allocator) (p : process) : process :=
  mkProcess (next_id p) (<[o := a]> (allocators p)) (returned p).

(** The steps of the allocators; an allocator serves one call at a time. *)
Inductive step : process -> process -> Prop :=
  | step_create p o : allocators p !! o = None -> step p (put o (mkAllocator [] None) p)
  | step_draw p o ids key : allocators p !! o = Some (mkAllocator ids None) -> lookup_id key ids = None ->
      length key = kMaxKeyComponents ->
      step p (mkProcess (NextProcessWideId (next_id p)).2
        (<[o := mkAllocator ids (Some (key, (NextProcessWideId (next_id p)).1))]> (allocators p)) (returned p))
  | step_emplace p o ids key id : allocators p !! o = Some (mkAllocator ids (Some (key, id))) ->
      step p (if id <? 0 then put o (mkAllocator ids None) p
              else mkProcess (next_id p) (<[o := mkAllocator (emplace key id ids) None]> (allocators p))
                     (returned p ++ [(o, key, id)]))
  | step_clear p o ids : allocators p !! o = Some (mkAllocator ids None) -> step p (put o (mkAllocator (Clear ids) None) p)
  | step_destroy p o a : allocators p !! o = Some a -> drawn a = None ->
      step p (mkProcess (next_id p) (delete o (allocators p)) (returned p)).

(** Fewer than [2^62] draws; at one a nanosecond that is over a century. *)
Inductive reachable : process -> Prop :=
  | reach_initial : reachable initial
  | reach_step p p' : reachable p -> next_id p < 2 ^ 62 -> step p p' -> reachable p'.

(** ** Maps *)

Lemma find_elem key ids id : find key ids = Some id -> (key, id) ∈ ids.
Proof.
  unfold find. induction ids as [|[k i] ids IH]; cbn; [done|].
  destruct (bool_decide_reflect (k = key)) as [->|]; cbn; [intros [= ->]; left|]. intros Hf. right. by apply IH.
Qed.

Lemma find_none key ids : find key ids = None -> key ∉ ids.*1.
Proof.
  unfold find. induction ids as [|[k i] ids IH]; cbn; [intros _; apply not_elem_of_nil|].
  destruct (bool_decide_reflect (k = key)); cbn; [done|]. intros Hf. apply not_elem_of_cons. split; [done|by apply IH].
Qed.

Lemma emplace_perm key id ids : emplace key id ids ≡ₚ (key, id) :: ids.
Proof.
  induction ids as [|e ids IH]; cbn; [done|]. destruct (key_ltb key e.1); [done|]. rewrite IH. apply Permutation_swap.
Qed.

Lemma find_NoDup key id ids : NoDup ids.*1 -> (key, id) ∈ ids -> find key ids = Some id.
Proof.
  unfold find. induction ids as [|[k i] ids IH]; cbn; intros Hnd Hin; [by apply not_elem_of_nil in Hin|].
  apply NoDup_cons in Hnd as [Hk Hnd]. apply elem_of_cons in Hin as [[= -> ->]|Hin].
  - by rewrite bool_decide_eq_true_2.
  - rewrite bool_decide_eq_false_2; [by apply IH|]. intros ->. apply Hk. by apply (list_elem_of_fmap_2 fst) in Hin.
Qed.

(** ** The invariant *)

(** The ids an allocator has or is about to insert. *)
Definition owned_ids (a : allocator) : list Z :=
  (ids_ a).*2 ++ match drawn a with Some (_, id) => if id <? 0 then [] else [id] | None => [] end.

Definition all_ids (m : gmap nat allocator) : list Z := map_to_list m ≫= fun oa => owned_ids oa.2.

Record allocator_ok (a : allocator) : Prop := mk_allocator_ok
  { ao_keys : NoDup (ids_ a).*1;
    ao_budget : (length (ids_ a) <= kMaxCapturedShapes)%nat;
    ao_drawn : forall key id, drawn a = Some (key, id) -> lookup_id key (ids_ a) = None }.

Record process_ok (p : process) : Prop := mk_process_ok
  { po_next : 1 <= next_id p;
    po_allocators : map_Forall (fun _ => allocator_ok) (allocators p);
    po_unique : NoDup (all_ids (allocators p));
    po_range : Forall (fun id => 1 <= id <= int_max /\ id < next_id p) (all_ids (allocators p) ++ (returned p).*2);
    po_returned : NoDup (returned p).*2;
    po_pending : forall o a key id, allocators p !! o = Some a -> drawn a = Some (key, id) -> id ∉ (returned p).*2 }.

Lemma all_ids_insert o a m : all_ids (<[o := a]> m) ≡ₚ owned_ids a ++ all_ids (delete o m).
Proof.
  unfold all_ids. rewrite <-insert_delete_eq. rewrite (map_to_list_insert (delete o m) o a) by apply lookup_delete_eq. done.
Qed.

Lemma all_ids_lookup o a m : m !! o = Some a -> all_ids m ≡ₚ owned_ids a ++ all_ids (delete o m).
Proof. intros Ho. rewrite <-all_ids_insert. by rewrite insert_id. Qed.

Lemma draw_spec next : 1 <= next < 2 ^ 62 ->
  (NextProcessWideId next).2 = next + 1 /\
  ((NextProcessWideId next).1 = next /\ next <= int_max \/ (NextProcessWideId next).1 = -1).
Proof.
  intros Hn. unfold NextProcessWideId, wrap64, to_int, int_max. cbn [fst snd]. split.
  - rewrite Z.mod_small by lia. lia.
  - destruct (Z.leb_spec next (2 ^ 31 - 1)); [left|by right]. rewrite Z.mod_small by lia. lia.
Qed.

Lemma lookup_id_none key ids : lookup_id key ids = None -> (key ∉ ids.*1) /\ (length ids < kMaxCapturedShapes)%nat.
Proof.
  unfold lookup_id. destruct (find key ids) eqn:Hf; [done|]. destruct (Nat.leb_spec kMaxCapturedShapes (length ids)); [done|].
  intros _. split; [by apply find_none|done].
Qed.

(** One allocator changes: what its new ids have to satisfy. *)
Lemma replace_ok p o a0 a next' ret' : process_ok p -> allocators p !! o = Some a0 -> allocator_ok a ->
  next_id p <= next' -> returned p `prefix_of` ret' ->
  NoDup (owned_ids a ++ all_ids (delete o (allocators p))) ->
  Forall (fun id => 1 <= id <= int_max /\ id < next') (owned_ids a ++ ret'.*2) -> NoDup ret'.*2 ->
  (forall o' a' key id, allocators p !! o' = Some a' -> o' <> o -> drawn a' = Some (key, id) -> id ∉ ret'.*2) ->
  (forall key id, drawn a = Some (key, id) -> id ∉ ret'.*2) ->
  process_ok (mkProcess next' (<[o := a]> (allocators p)) ret').
Proof.
  intros [Hn Ha Hu Hr _ _] Ho Hok Hle _ Hnd Hf Hret Hothers Hmine. split; cbn; [lia| | | |done|].
  - by apply map_Forall_insert_2.
  - by rewrite all_ids_insert.
  - rewrite all_ids_insert, <-app_assoc. apply Forall_app in Hf as [Hf1 Hf2]. rewrite (all_ids_lookup o a0) in Hr by done.
    rewrite <-app_assoc in Hr. apply Forall_app in Hr as [_ Hr]. apply Forall_app in Hr as [Hr _].
    apply Forall_app_2; [done|]. apply Forall_app_2; [|done]. eapply Forall_impl; [done|]. cbn. lia.
  - intros o' a' key id [[-> ->]|[Hne Hl]]%lookup_insert_Some; [by eapply Hmine|by eapply Hothers].
Qed.

Lemma create_ok p o : process_ok p -> allocators p !! o = None -> process_ok (put o (mkAllocator [] None) p).
Proof.
  intros [Hn Ha Hu Hr Hret Hpend] Ho. split; cbn; try done.
  - apply map_Forall_insert_2; [|done]. split; cbn; [apply NoDup_nil_2|lia|done].
  - rewrite all_ids_insert, delete_id by done. done.
  - rewrite all_ids_insert, delete_id by done. done.
  - intros o' a' key id [[-> <-]|[Hne Hl]]%lookup_insert_Some; [done|by eapply Hpend].
Qed.

Lemma draw_ok p o ids key : process_ok p -> next_id p < 2 ^ 62 ->
  allocators p !! o = Some (mkAllocator ids None) -> lookup_id key ids = None ->
  process_ok (mkProcess (NextProcessWideId (next_id p)).2
    (<[o := mkAllocator ids (Some (key, (NextProcessWideId (next_id p)).1))]> (allocators p)) (returned p)).
Proof.
  intros Hp Hmax Ho Hl. pose proof Hp as [Hn Ha Hu Hr Hret Hpend].
  destruct (draw_spec (next_id p) ltac:(lia)) as [Hnext Hid].
  destruct (NextProcessWideId (next_id p)) as [id next']. cbn [fst snd] in *. subst next'. pose proof (Ha o _ Ho) as [Hk Hb _]. cbn in Hk, Hb.
  rewrite (all_ids_lookup o _ _ Ho) in Hu, Hr. unfold owned_ids in Hu, Hr. cbn in Hu, Hr. rewrite app_nil_r in Hu, Hr.
  assert ((next_id p ∉ ids.*2 ++ all_ids (delete o (allocators p))) /\ (next_id p ∉ (returned p).*2)) as [Hfresh Hfresh2].
  { split; intros Hin; eapply Forall_forall in Hr as [_ Hlt]; [|apply elem_of_app; left; done| |apply elem_of_app; right; done]; lia. }
  eapply replace_ok; [done|done| |lia|done| | |done| |].
  - split; cbn; [done|done|]. by intros ? ? [= <- <-].
  - unfold owned_ids. cbn. destruct Hid as [[-> _]| ->]; cbn; [|by rewrite app_nil_r].
    destruct (Z.ltb_spec (next_id p) 0); [lia|]. rewrite <-app_assoc. cbn.
    rewrite <-Permutation_middle. by apply NoDup_cons.
  - apply Forall_app in Hr as [Hr1 Hr2]. apply Forall_app in Hr1 as [Hr1 _]. apply Forall_app. split.
    + unfold owned_ids. cbn. apply Forall_app. split; [eapply Forall_impl; [done|]; cbn; lia|].
      destruct Hid as [[-> ?]| ->]; cbn; [destruct (Z.ltb_spec (next_id p) 0); [done|]|done].
      constructor; [lia|done].
    + eapply Forall_impl; [done|]. cbn. lia.
  - intros o' a' key' id' Ho' _ Hd'. by eapply Hpend.
  - cbn. intros key' id' [= <- <-]. destruct Hid as [[-> _]| ->]; [done|]. intros Hin.
    apply Forall_app in Hr as [_ Hr]. eapply Forall_forall in Hr as [? _]; [|done]. lia.
Qed.

(** The counter was exhausted: the pending draw is dropped. *)
Lemma decline_ok p o ids key id : process_ok p -> id < 0 -> allocators p !! o = Some (mkAllocator ids (Some (key, id))) ->
  process_ok (put o (mkAllocator ids None) p).
Proof.
  intros Hp Hneg Ho. pose proof Hp as [Hn Ha Hu Hr Hret Hpend]. pose proof (Ha o _ Ho) as [Hk Hb Hd]. cbn in Hk, Hb, Hd.
  rewrite (all_ids_lookup o _ _ Ho) in Hu, Hr. unfold owned_ids in Hu, Hr. cbn in Hu, Hr.
  destruct (Z.ltb_spec id 0) as [_|]; [|lia].
  rewrite app_nil_r in Hu, Hr. eapply replace_ok; [done|done|by split|lia|done| | |done|..].
  - unfold owned_ids. cbn. by rewrite app_nil_r.
  - unfold owned_ids. cbn. rewrite app_nil_r. apply Forall_app in Hr as [Hr1 Hr2]. apply Forall_app in Hr1 as [Hr1 _].
    by apply Forall_app.
  - intros o' a' key' id' Ho' _ Hd'. by eapply Hpend.
  - done.
Qed.

Lemma emplace_ok p o ids key id : process_ok p -> 0 <= id -> allocators p !! o = Some (mkAllocator ids (Some (key, id))) ->
  process_ok (mkProcess (next_id p) (<[o := mkAllocator (emplace key id ids) None]> (allocators p)) (returned p ++ [(o, key, id)])).
Proof.
  intros Hp Hpos Ho. pose proof Hp as [Hn Ha Hu Hr Hret Hpend]. pose proof (Ha o _ Ho) as [Hk Hb Hd]. cbn in Hk, Hb, Hd.
  destruct (lookup_id_none _ _ (Hd key id eq_refl)) as [Hkey Hroom].
  rewrite (all_ids_lookup o _ _ Ho) in Hu, Hr. unfold owned_ids in Hu, Hr. cbn in Hu, Hr.
  destruct (Z.ltb_spec id 0) as [|_]; [lia|].
  assert ((emplace key id ids).*2 ≡ₚ id :: ids.*2) as Hperm by (by rewrite emplace_perm).
  assert (id ∉ (returned p).*2) as Hnew by (by eapply Hpend).
  eapply replace_ok; [done|done| |lia|by apply prefix_app_r|..].
  - split; cbn; [|rewrite emplace_perm; cbn; lia|done]. rewrite emplace_perm. cbn. by apply NoDup_cons.
  - unfold owned_ids. cbn. rewrite app_nil_r, Hperm. rewrite (Permutation_app_comm ids.*2 [id]) in Hu. done.
  - unfold owned_ids. cbn. rewrite app_nil_r, Hperm. rewrite (Permutation_app_comm ids.*2 [id]) in Hr.
    rewrite fmap_app. cbn. apply Forall_app in Hr as [Hr1 Hr2]. apply Forall_app in Hr1 as [Hr1 _].
    apply Forall_cons in Hr1 as [Hid Hids]. apply Forall_cons. split; [done|].
    apply Forall_app. split; [done|]. apply Forall_app. split; [done|]. by constructor.
  - rewrite fmap_app. cbn. apply NoDup_app. split_and!; [done| |apply NoDup_singleton].
    intros x Hx ->%list_elem_of_singleton. done.
  - intros o' a' key' id' Ho' Hne Hd'. rewrite fmap_app. cbn. apply not_elem_of_app. split; [by eapply Hpend|].
    intros ->%list_elem_of_singleton. apply NoDup_app in Hu as (_ & Hdisj & _). apply (Hdisj id).
    + apply elem_of_app. right. left.
    + rewrite (all_ids_lookup o' a') by (by rewrite lookup_delete_ne). apply elem_of_app. left.
      unfold owned_ids. rewrite Hd'. destruct (Z.ltb_spec id 0); [lia|]. apply elem_of_app. right. left.
  - done.
Qed.

Lemma clear_ok p o ids : process_ok p -> allocators p !! o = Some (mkAllocator ids None) ->
  process_ok (put o (mkAllocator (Clear ids) None) p).
Proof.
  intros Hp Ho. pose proof Hp as [Hn Ha Hu Hr Hret Hpend].
  rewrite (all_ids_lookup o _ _ Ho) in Hu, Hr. apply NoDup_app in Hu as (_ & _ & Hu). apply Forall_app in Hr as [_ Hr2].
  eapply replace_ok; [done|done|split; cbn; [apply NoDup_nil_2|lia|done]|lia|done|done|done|done|..].
  - intros o' a' key' id' Ho' _ Hd'. by eapply Hpend.
  - done.
Qed.

Lemma destroy_ok p o a : process_ok p -> allocators p !! o = Some a ->
  process_ok (mkProcess (next_id p) (delete o (allocators p)) (returned p)).
Proof.
  intros [Hn Ha Hu Hr Hret Hpend] Ho. rewrite (all_ids_lookup o _ _ Ho) in Hu, Hr. apply NoDup_app in Hu as (_ & _ & Hu).
  rewrite <-app_assoc in Hr. apply Forall_app in Hr as [_ Hr].
  split; cbn; try done; [by apply map_Forall_delete|].
  intros o' a' key id [_ Hl]%lookup_delete_Some Hd'. by eapply Hpend.
Qed.

Lemma step_ok p p' : process_ok p -> next_id p < 2 ^ 62 -> step p p' -> process_ok p'.
Proof.
  intros Hp Hmax Hstep. destruct Hstep.
  - by apply create_ok.
  - by apply draw_ok.
  - destruct (Z.ltb_spec id 0); [by eapply decline_ok|by apply emplace_ok].
  - by apply clear_ok.
  - by eapply destroy_ok.
Qed.

Lemma reachable_ok p : reachable p -> process_ok p.
Proof.
  induction 1 as [|p p' _ IH Hn Hs]; [|by eapply step_ok]. split; cbn; try done; apply NoDup_nil_2.
Qed.

(** Graph annotation ids never collide.  However the calls of the allocators of one
    process interleave, with allocators cleared, destroyed and created on the way, no
    id is ever handed out twice; every id is a positive [int]; no allocator exceeds its
    budget of 64 shapes; the ids two live allocators would release are disjoint; and a
    key that has an id keeps it: asking again returns it and draws nothing. *)
Theorem graph_ids_unique p : reachable p ->
  NoDup (returned p).*2 /\ Forall (fun id => 1 <= id <= int_max) (returned p).*2 /\
  (forall o a, allocators p !! o = Some a -> (length (ids_ a) <= kMaxCapturedShapes)%nat /\
     (forall key id next, (key, id) ∈ ids_ a -> Id key next (ids_ a) = (id, next, ids_ a))) /\
  (forall o1 o2 a1 a2 id, allocators p !! o1 = Some a1 -> allocators p !! o2 = Some a2 ->
     id ∈ AssignedIds (ids_ a1) -> id ∈ AssignedIds (ids_ a2) -> o1 = o2).
Proof.
  intros Hp%reachable_ok. destruct Hp as [Hn Ha Hu Hr Hret Hpend]. split_and!; [done| | |].
  - apply Forall_app in Hr as [_ Hr]. eapply Forall_impl; [done|]. cbn. lia.
  - intros o a Ho. destruct (Ha o a Ho) as [Hk Hb _]. split; [done|]. intros key id next Hin. unfold Id, lookup_id.
    by rewrite (find_NoDup key id).
  - intros o1 o2 a1 a2 id H1 H2 Hid1 Hid2. destruct (decide (o1 = o2)) as [|Hne]; [done|]. exfalso.
    rewrite (all_ids_lookup o1 a1) in Hu by done. apply NoDup_app in Hu as (_ & Hdisj & _). apply (Hdisj id).
    + apply elem_of_app. by left.
    + rewrite (all_ids_lookup o2 a2) by (by rewrite lookup_delete_ne). apply elem_of_app. left. apply elem_of_app. by left.
Qed.

(** ** A sample: two allocators interleave at the counter *)

Definition sample_key : list N := [1; 0; 0; 0; 0; 0; 0; 0]%N.

Definition sample_process : process :=
  mkProcess 3 {[ 0%nat := mkAllocator [(sample_key, 2)] None; 1%nat := mkAllocator [(sample_key, 1)] None ]}
    [(0%nat, sample_key, 2); (1%nat, sample_key, 1)].

Lemma sample_process_reachable : reachable sample_process.
Proof.
  set (a0 := mkAllocator [] None). set (p1 := put 0%nat a0 initial). set (p2 := put 1%nat a0 p1).
  set (p3 := mkProcess 2 (<[1%nat := mkAllocator [] (Some (sample_key, 1))]> (allocators p2)) []).
  set (p4 := mkProcess 3 (<[0%nat := mkAllocator [] (Some (sample_key, 2))]> (allocators p3)) []).
  set (p5 := mkProcess 3 (<[0%nat := mkAllocator [(sample_key, 2)] None]> (allocators p4)) [(0%nat, sample_key, 2)]).
  assert (reachable p1) as H1 by (by eapply reach_step, (step_create _ 0%nat); [apply reach_initial|..]).
  assert (reachable p2) as H2 by (by eapply reach_step, (step_create _ 1%nat)).
  assert (reachable p3) as H3 by (by eapply reach_step, (step_draw p2 1%nat [] sample_key)).
  assert (reachable p4) as H4 by (by eapply reach_step, (step_draw p3 0%nat [] sample_key)).
  assert (reachable p5) as H5 by (by eapply reach_step, (step_emplace p4 0%nat [] sample_key 2)).
  by eapply reach_step, (step_emplace p5 1%nat [] sample_key 1).
Qed.

Lemma graph_ids_unique_witness : NoDup (returned sample_process).*2.
Proof. by destruct (graph_ids_unique sample_process sample_process_reachable) as (Hnd & _). Defined.
