(* ===== verification/ReservationBuild.v ===== *)
(** * The construction of a paged-cache reservation

    What [make_Reservation] establishes: the layout of the deltas, blocks that no two
    growing deltas share, live handles, and the hypotheses of the commit contract of
    [ReservationProofs]. *)

From S2P Require Import Prelude BlockPool RequestIndex Positions PrefixCache PrefixCacheProofs Reservation ReservationProofs.

Open Scope nat_scope.

(** ** Computations that leave a component of the state alone *)

Section Keeps.
Context {S E B : Type} (f : S -> B).

Definition keeps {A} (m : M S E A) : Prop := forall s, f (m s).2 = f s.

Lemma keeps_reads {A} (m : M S E A) : reads m -> keeps m.
Proof. intros Hm s. by rewrite Hm. Qed.

Lemma keeps_bind {A C} (m : M S E A) (k : A -> M S E C) : keeps m -> (forall a, keeps (k a)) -> keeps (m ≫= k).
Proof.
  intros Hm Hk s. specialize (Hm s). unfold mbind, M_bind. destruct (m s) as [[a|e| |] s']; cbn in *; [by rewrite Hk|done..].
Qed.

Lemma keeps_for_each {A} (g : A -> M S E unit) l : (forall x, keeps (g x)) -> keeps (for_each g l).
Proof. intros Hg. induction l as [|x l IH]; cbn; [done|]. by apply keeps_bind. Qed.
End Keeps.

Lemma reads_ValidateOwnership {P} blocks b : reads (ValidateOwnership (O := P) blocks b).
Proof.
  unfold ValidateOwnership. apply reads_bind; [|intros ids; solve_reads].
  - induction blocks as [|h blocks IH]; cbn; [apply reads_ret|]. unfold validate_one. destruct h; solve_reads.
  - unfold check_references. destruct b; [|apply reads_ret]. apply reads_bind; [|intros; solve_reads].
    intros w. unfold block_at. by destruct (blocks_ (pool w) !! _) as [[a|]|]; [destruct (heap w !! a)|..].
Qed.

Lemma AddRefs_keeps_pool {P} `{!BlockReferenceObserver P} blocks : keeps pool (AddRefs (O := P) blocks).
Proof.
  unfold AddRefs. apply keeps_bind; [apply keeps_reads, reads_ValidateOwnership|]. intros occs.
  apply keeps_for_each. intros [id k]. apply keeps_for_each. intros _. apply keeps_bind.
  - apply keeps_reads. intros w. unfold block_at. by destruct (blocks_ (pool w) !! _) as [[a|]|]; [destruct (heap w !! a)|..].
  - intros [a b]. unfold add_ref_at. apply keeps_bind; [done|]. intros _. apply keeps_bind; [done|]. intros p. cbn [fst snd].
    destruct (_ && _); [|done]. intros w. unfold notify_referenced. destruct (reference_observer_cookie_ b); [|done].
    by destruct (OnBlockBecameReferenced _ _ _).
Qed.

Lemma ReserveBlocks_keeps_size {P} n : keeps (fun w : world P => block_size_ (pool w)) (ReserveBlocks n).
Proof.
  unfold ReserveBlocks, AllocateBlocks_. apply keeps_bind; [done|]. intros p. destruct (_ =? 0); [done|]. destruct (_ <? _); [done|].
  apply keeps_bind; [|intros hs; apply keeps_bind].
  - generalize (scan_free (block_size_ p) n (BlocksNeeded p n) false 0 (blocks_ p) []). intros l.
    induction l as [|b l IH]; cbn; [done|]. apply keeps_bind; [done|]. intros a. apply keeps_bind; [done|done].
  - apply keeps_for_each. intros a. unfold publish. apply keeps_bind; [|done]. apply keeps_reads, reads_deref.
  - intros _. apply keeps_bind; [|done]. by destruct (bool_decide _).
Qed.

(** What the reservation relies on of the reclaimer: an invariant of the observer that
    references keep, under which reclaiming keeps every live handle alive. *)
Class BlockReclaimerLaws (O : Type) `{!BlockReferenceObserver O} `{!BlockReclaimer O} : Type :=
  { retention : world O -> Prop;
    retention_AddRefs : forall blocks w, retention w -> pool_wf w -> handles_valid w blocks ->
      match AddRefs blocks w with
      | (Ok _, w') => retention w'
      | (Throw _, _) => True
      | _ => False
      end;
    reclaim_keeps : forall D n w, alive D w -> retention w ->
      match reclaim_blocks n w with
      | (Ok _, w') | (Throw _, w') => alive D w' /\ block_size_ (pool w') = block_size_ (pool w)
      | _ => False
      end }.

Section Build.
Context {O : Type} `{!BlockReferenceObserver O} `{!BlockReclaimer O}.
Implicit Types s : cache_state O.
Implicit Types d : PagedCacheReservationDelta.
Implicit Types rq : PagedCacheReservationRequest.
Implicit Types sg : staging.
Abbreviation found := (option (nat * PagedCacheBlockTable)) (only parsing).

(** ** The delta of a request *)

Definition rq_adopted rq : list (option addr) := from_option (fun pm => Some <$> match_handles pm) [] (active_match rq).
Definition rq_committed rq (o : found) : nat :=
  match o with Some (_, t) => committed_slots_ t | None => from_option match_token_count 0 (active_match rq) end.
Definition rq_blocks rq (o : found) : nat :=
  match o with Some (_, t) => length (items (table_blocks_ t)) | None => length (rq_adopted rq) end.
Definition rq_new_blocks (n : nat) rq (o : found) : nat :=
  blocks_for n (max (rq_reserved_slots rq) (rq_target_slots rq) - rq_blocks rq o * n).
Definition rq_advance (n : nat) rq (o : found) : nat := blocks_for n (rq_target_slots rq) - rq_committed rq o / n.

Definition rq_delta (n ring : nat) rq (o : found) sg : PagedCacheReservationDelta :=
  mkDelta (rq_request_id rq) (rq_committed rq o) (from_option (fun it : nat * PagedCacheBlockTable => table_generation_ it.2) 0%N o)
    (rq_target_slots rq) (sg_reserved sg) (rq_new_blocks n rq o) (sg_reserved_window sg)
    (if rq_newly_admitted rq then ring else 0) (sg_advance sg) (rq_advance n rq o) (length (sg_adopted sg))
    (length (rq_adopted rq)) (rq_newly_admitted rq).

(** Only capacities and buffer addresses of the tables differ. *)
Record same_tables s s' : Prop := mk_same_tables
  { st_main : main s' = main s;
    st_window : window s' = window s;
    st_index : table_index s' = table_index s;
    st_capacity : tables_capacity s' = tables_capacity s;
    st_tables : forget <$> tables s' = forget <$> tables s }.

Lemma same_tables_refl s : same_tables s s.
Proof. done. Qed.

Lemma same_tables_trans s1 s2 s3 : same_tables s1 s2 -> same_tables s2 s3 -> same_tables s1 s3.
Proof. intros [] []. split; congruence. Qed.

Lemma same_tables_lookup s s' i t : forget <$> tables s' = forget <$> tables s -> tables s !! i = Some t ->
  exists t', tables s' !! i = Some t' /\ forget t' = forget t.
Proof.
  intros Heq Ht. apply (f_equal (fun l => l !! i)) in Heq.
  rewrite !list_lookup_fmap, Ht in Heq. destruct (tables s' !! i) as [t'|]; [|done]. exists t'. split; [done|by apply (inj Some)].
Qed.

Lemma forget_eq t t' : forget t = forget t' -> request_id_ t = request_id_ t' /\ committed_slots_ t = committed_slots_ t' /\
  items (table_blocks_ t) = items (table_blocks_ t') /\ items (window_blocks_ t) = items (window_blocks_ t') /\
  table_generation_ t = table_generation_ t'.
Proof. destruct t, t'. unfold forget. cbn. intros [=]. done. Qed.

(** ** Inverting the checks *)

Lemma reads_check_shareable h : reads (check_shareable (O := O) h).
Proof. unfold check_shareable. solve_reads. Qed.
#[local] Hint Resolve reads_check_shareable : reads.

Lemma reads_check_match rq pm : reads (check_match (O := O) rq pm).
Proof. unfold check_match. solve_reads. Qed.

Lemma reads_check_ring l : forall seen, reads (check_ring (O := O) l seen).
Proof. induction l as [|h l IH]; intros seen; cbn [check_ring]; solve_reads. Qed.
#[local] Hint Resolve reads_check_match reads_check_ring : reads.

Lemma reads_resident_window ring t seen : reads (check_resident_window (O := O) ring t seen).
Proof. unfold check_resident_window. solve_reads. Qed.

Lemma reads_check_growth indices first committed n l : forall touched,
  reads (check_growth (O := O) indices first committed n l touched).
Proof. induction indices as [|i indices IH]; intros touched; cbn [check_growth]; solve_reads. Qed.
#[local] Hint Resolve reads_resident_window reads_check_growth : reads.

(** Block [a] is owned and holds exactly the committed slots of position [k]. *)
Definition occupied_as s (n first committed k : nat) (a : addr) : Prop :=
  exists b, heap (main s) !! a = Some b /\ blocks_ (pool (main s)) !! id_ b = Some (Some a) /\ capacity_ b = n /\
    size_ b = if k =? first then committed mod n else 0.

Lemma on_main_Owns_inv a s x : on_main (Owns (Some a)) s = (Ok true, x) ->
  exists b, heap (main s) !! a = Some b /\ blocks_ (pool (main s)) !! id_ b = Some (Some a).
Proof.
  unfold on_main, Owns, mbind, M_bind, deref. destruct (heap (main s) !! a) as [b|] eqn:Hb; [|done].
  unfold_m. intros [= Hs <-]. apply andb_prop in Hs as [_ Hs]. exists b. split; [done|]. by apply slot_holds_iff.
Qed.

Lemma check_growth_inv first committed n l s : forall m k touched touched' s',
  check_growth (seq k m) first committed n l touched s = (Ok touched', s') ->
  exists addrs, slice k m l = Some <$> addrs /\ length addrs = m /\ NoDup addrs /\ (forall a, a ∈ addrs -> a ∉ touched) /\
    touched' = list_to_set addrs ∪ touched /\
    forall j a, addrs !! j = Some a -> occupied_as s n first committed (k + j) a.
Proof.
  induction m as [|m IH]; intros k touched touched' s' Hrun; cbn [seq check_growth] in Hrun.
  - injection Hrun as <- <-. exists []. split_and!; [done|done|apply NoDup_nil_2| |set_solver|done].
    intros a Ha. by apply not_elem_of_nil in Ha.
  - destruct (l !! k) as [h|] eqn:Hk; [|done].
    apply reads_inv in Hrun as (owned & Ho & Hrun); [|eauto with reads]. destruct owned; [|done]. cbn [negb] in Hrun.
    destruct h as [a|]; [|done]. apply reads_inv in Hrun as (b & Hb & Hrun); [|eauto with reads].
    apply on_main_deref_inv in Hb as [_ Hb]. apply on_main_Owns_inv in Ho as (b' & Hb' & Hslot).
    assert (b' = b) as -> by congruence.
    destruct (negb (capacity_ b =? n) || _) eqn:Hc; [done|].
    apply orb_false_iff in Hc as [Hcap%negb_false_iff%Nat.eqb_eq Hsz%negb_false_iff%Nat.eqb_eq].
    destruct (bool_decide_reflect (a ∈ touched)) as [|Hnew]; [done|].
    destruct (IH _ _ _ _ Hrun) as (addrs & Hsl & Hlen & Hnd & Hfresh & Ht & Hocc).
    exists (a :: addrs). split_and!; [| | | | |].
    + unfold slice in *. rewrite (drop_S _ _ _ Hk). cbn. by rewrite Hsl.
    + cbn. by rewrite Hlen.
    + apply NoDup_cons. split; [|done]. intros Ha. apply Hfresh in Ha. set_solver.
    + intros x [->|Hx]%elem_of_cons; [done|]. apply Hfresh in Hx. set_solver.
    + rewrite Ht. cbn. set_solver.
    + intros [|j] x Hx.
      * injection Hx as <-. rewrite Nat.add_0_r. by exists b.
      * rewrite Nat.add_succ_r. by apply (Hocc j).
Qed.

(** The adopted blocks are owned, full and indexed. *)
Definition shareable s (a : addr) : Prop :=
  exists b, heap (main s) !! a = Some b /\ blocks_ (pool (main s)) !! id_ b = Some (Some a) /\ IsShareable b = true.

Lemma check_match_inv rq pm s s' : check_match rq pm s = (Ok tt, s') ->
  match_token_count pm = length (match_handles pm) * bs s /\ match_token_count pm < rq_target_slots rq /\
  Forall (shareable s) (match_handles pm).
Proof.
  intros Hrun. unfold check_match in Hrun. apply gets_inv in Hrun. apply lift_inv in Hrun as (slots & Hslots & Hrun).
  destruct (negb (match_token_count pm =? slots) || _) eqn:Hc; [done|].
  apply orb_false_iff in Hc as [Htok%negb_false_iff%Nat.eqb_eq Htgt%Nat.leb_gt].
  unfold CheckedBlockSlots in Hslots. destruct (_ && _); [done|]. injection Hslots as <-. split_and!; [done|done|].
  apply for_each_ok in Hrun as [_ Hall]; [|apply reads_check_shareable]. apply Forall_forall. intros a Ha.
  specialize (Hall (Some a) (list_elem_of_fmap_2 Some _ _ Ha)). unfold check_shareable in Hall.
  apply reads_inv in Hall as (owned & Ho & Hall); [|eauto with reads]. destruct owned; [|done]. cbn [negb] in Hall.
  apply on_main_Owns_inv in Ho as (b & Hb & Hslot). exists b. split_and!; [done..|].
  apply reads_inv in Hall as (b' & Hb' & Hall); [|eauto with reads]. cbn in Hb'. apply on_main_deref_inv in Hb' as [_ Hb'].
  assert (b' = b) as -> by congruence. by destruct (IsShareable b).
Qed.

(** ** One staged request *)

(** The blocks of a growing resident table the step writes into. *)
Definition grown_handles (n : nat) rq (o : found) : list (option addr) :=
  match o with
  | Some (_, t) =>
    if committed_slots_ t <? rq_target_slots rq then
      slice (committed_slots_ t / n)
        (min (length (items (table_blocks_ t))) (blocks_for n (rq_target_slots rq)) - committed_slots_ t / n)
        (items (table_blocks_ t))
    else []
  | None => []
  end.

Record stage_ok s s' (ring : nat) (resident : RequestIndex.RequestIndex) rq sg sg' (o : found) (addrs : list addr) : Prop :=
  mk_stage_ok
  { so_bs : 0 < bs s;
    so_id : rq_request_id rq <> 0%N;
    so_insert : Insert (sg_index sg) (rq_request_id rq) (length (sg_deltas sg)) = (true, sg_index sg');
    so_find : match o with
      | None => Find resident (rq_request_id rq) = None
      | Some (i, t) => Find resident (rq_request_id rq) = Some i /\ tables s !! i = Some t /\ request_id_ t = rq_request_id rq
      end;
    so_newly : rq_newly_admitted rq = negb (is_some o);
    so_match : forall pm, active_match rq = Some pm -> rq_newly_admitted rq = true /\ windowed s = false /\
      match_token_count pm = length (match_handles pm) * bs s /\ match_token_count pm < rq_target_slots rq /\
      Forall (shareable s) (match_handles pm);
    so_target : rq_committed rq o <= rq_target_slots rq;
    so_boundary : rq_committed rq o <= rq_blocks rq o * bs s;
    so_handles : grown_handles (bs s) rq o = Some <$> addrs;
    so_unique : NoDup addrs;
    so_fresh : forall a, a ∈ addrs -> a ∉ sg_touched sg;
    so_touched : sg_touched sg' = list_to_set addrs ∪ sg_touched sg;
    so_occupied : forall j a, addrs !! j = Some a ->
      occupied_as s (bs s) (rq_committed rq o / bs s) (rq_committed rq o) (rq_committed rq o / bs s + j) a;
    so_deltas : sg_deltas sg' = sg_deltas sg ++ [rq_delta (bs s) ring rq o sg];
    so_adopted : sg_adopted sg' = sg_adopted sg ++ rq_adopted rq;
    so_reserved : sg_reserved sg' = sg_reserved sg + rq_new_blocks (bs s) rq o;
    so_advance : sg_advance sg' = sg_advance sg + rq_advance (bs s) rq o;
    so_reserved_window : sg_reserved_window sg' = sg_reserved_window sg + if rq_newly_admitted rq then ring else 0;
    so_new : match o with
      | Some _ => sg_new_tables sg' = sg_new_tables sg
      | None => exists t, sg_new_tables sg' = sg_new_tables sg ++ [t] /\ request_id_ t = rq_request_id rq /\
          committed_slots_ t = rq_committed rq o /\ items (table_blocks_ t) = rq_adopted rq
      end;
    so_same : same_tables s s' }.

Lemma reserve_items n f v : items (reserve n f v) = items v.
Proof. unfold reserve. by destruct (_ <? _). Qed.

Lemma make_new_table_inv rq committed pm new ring s t s' : make_new_table rq committed pm new ring s = (Ok t, s') ->
  same_tables s s' /\ request_id_ t = rq_request_id rq /\ committed_slots_ t = committed /\
  items (table_blocks_ t) = from_option (fun pm => Some <$> match_handles pm) [] pm.
Proof.
  intros Hrun. unfold make_new_table in Hrun. apply bind_inv_ok in Hrun as (f1 & s1 & [= <- <-] & Hrun).
  apply bind_inv_ok in Hrun as (t1 & s2 & Ht1 & Hrun). apply lift_inv in Hrun as (m & _ & Hrun).
  apply bind_inv_ok in Hrun as (f2 & s3 & [= <- <-] & Hrun). apply bind_inv_ok in Hrun as (f3 & s4 & [= <- <-] & Hrun).
  injection Hrun as <- <-. cbn. rewrite reserve_items. destruct pm as [pm|]; cbn in Ht1 |- *.
  - destruct (last (match_handles pm)) as [a|]; [|done].
    apply reads_inv in Ht1 as (b & _ & Ht1); [|apply (reads_deref_main (Some a))]. injection Ht1 as <- <-. done.
  - injection Ht1 as <- <-. done.
Qed.

Lemma reserve_table_inv i t n s s' : tables s !! i = Some t -> reserve_table i t n s = (Ok tt, s') -> same_tables s s'.
Proof.
  intros Hi [= <-]. split; try done. cbn. rewrite list_fmap_insert. apply list_insert_id.
  rewrite list_lookup_fmap, Hi. unfold forget. cbn. by rewrite reserve_items.
Qed.

Lemma if_sub a b : (if a <? b then b - a else 0) = b - a.
Proof. destruct (Nat.ltb_spec a b); lia. Qed.

Lemma CheckedAdd_inv l r x : CheckedAdd l r = Ok x -> x = l + r.
Proof. unfold CheckedAdd. destruct (_ <? _)%N; [done|]. by intros [= <-]. Qed.

Lemma CheckedBlockSlots_inv c n w x : CheckedBlockSlots c n w = Ok x -> x = c * n.
Proof. unfold CheckedBlockSlots. destruct (_ && _); [done|]. by intros [= <-]. Qed.

(** The growth checks, as one step of the constructor. *)
Lemma growth_inv rq (o : found) n touched s touched' s' :
  (match o with
   | Some (_, t) =>
     if committed_slots_ t <? rq_target_slots rq then
       check_growth (seq (committed_slots_ t / n)
           (min (length (items (table_blocks_ t))) (blocks_for n (rq_target_slots rq)) - committed_slots_ t / n))
         (committed_slots_ t / n) (committed_slots_ t) n (items (table_blocks_ t)) touched
     else mret touched
   | None => mret touched
   end : M (cache_state O) ReservationError (gset addr)) s = (Ok touched', s') ->
  s' = s /\ exists addrs, grown_handles n rq o = Some <$> addrs /\ NoDup addrs /\ (forall a, a ∈ addrs -> a ∉ touched) /\
    touched' = list_to_set addrs ∪ touched /\
    forall j a, addrs !! j = Some a -> occupied_as s n (rq_committed rq o / n) (rq_committed rq o) (rq_committed rq o / n + j) a.
Proof.
  assert (forall addrs : list addr, addrs = [] -> Some <$> addrs = [] /\ NoDup addrs /\ (forall a, a ∈ addrs -> a ∉ touched) /\
    touched = list_to_set addrs ∪ touched) as Hnil.
  { intros addrs ->. split_and!; [done|apply NoDup_nil_2| |set_solver]. intros a Ha. by apply not_elem_of_nil in Ha. }
  unfold grown_handles, rq_committed. destruct o as [[i t]|]; [destruct (committed_slots_ t <? rq_target_slots rq)|].
  - intros Hrun. assert (s' = s) as -> by (eapply reads_run; [|done]; apply reads_check_growth). split; [done|].
    destruct (check_growth_inv _ _ _ _ _ _ _ _ _ _ Hrun) as (addrs & ? & _ & ? & ? & ? & ?). by exists addrs.
  - intros [= <- <-]. split; [done|]. exists []. destruct (Hnil [] eq_refl) as (? & ? & ? & ?). split_and!; done.
  - intros [= <- <-]. split; [done|]. exists []. destruct (Hnil [] eq_refl) as (? & ? & ? & ?). split_and!; done.
Qed.

Lemma stage_request_inv ring resident rq sg s sg' s' : stage_request ring resident rq sg s = (Ok sg', s') ->
  exists o addrs, stage_ok s s' ring resident rq sg sg' o addrs.
Proof.
  intros Hrun. unfold stage_request in Hrun.
  destruct (Insert (sg_index sg) (rq_request_id rq) (length (sg_deltas sg))) as [ins index] eqn:Hins.
  apply throw_if_inv in Hrun as [[Hid%N.eqb_neq Hi%negb_false_iff]%orb_false_iff Hrun]. subst ins.
  apply reads_inv in Hrun as (o & Ho & Hrun); [|eauto with reads]. apply Find_inv in Ho as [_ Ho].
  apply throw_if_inv in Hrun as [Hnew Hrun]. apply gets_inv in Hrun. apply throw_if_inv in Hrun as [Hpm Hrun].
  apply reads_inv in Hrun as ([] & Hmatch & Hrun); [|destruct (active_match rq); eauto with reads].
  apply gets_inv in Hrun. destruct (Nat.eqb_spec (bs s) 0) as [|Hbs]; [done|].
  apply throw_if_inv in Hrun as [Htgt%Nat.ltb_ge Hrun].
  apply reads_inv in Hrun as (seen & _ & Hrun); [|destruct o as [[]|]; eauto with reads].
  apply lift_inv in Hrun as (capacity & Hcap%CheckedBlockSlots_inv & Hrun).
  apply throw_if_inv in Hrun as [Hbound%Nat.ltb_ge Hrun].
  apply bind_inv_ok in Hrun as (touched & s1 & Hgrow & Hrun).
  assert (forall c, c = rq_committed rq o -> forall b, b = rq_blocks rq o -> (match o with
   | Some (_, t) =>
     if c <? rq_target_slots rq then
       check_growth (seq (c / bs s) (min b (blocks_for (bs s) (rq_target_slots rq)) - c / bs s))
         (c / bs s) c (bs s) (items (table_blocks_ t)) (sg_touched sg)
     else mret (sg_touched sg)
   | None => mret (sg_touched sg)
   end : M (cache_state O) ReservationError (gset addr)) s = (Ok touched, s1)) as Hgrow'.
  { intros c -> b ->. unfold rq_committed, rq_blocks. destruct o as [[]|]; exact Hgrow. }
  specialize (Hgrow' _ eq_refl _ eq_refl).
  assert (s1 = s /\ exists addrs, grown_handles (bs s) rq o = Some <$> addrs /\ NoDup addrs /\
    (forall a, a ∈ addrs -> a ∉ sg_touched sg) /\ touched = list_to_set addrs ∪ sg_touched sg /\
    forall j a, addrs !! j = Some a ->
      occupied_as s (bs s) (rq_committed rq o / bs s) (rq_committed rq o) (rq_committed rq o / bs s + j) a) as [-> (addrs & Hg)].
  { apply (growth_inv rq o (bs s) (sg_touched sg)). destruct o as [[]|]; exact Hgrow'. }
  clear Hgrow Hgrow'. destruct Hg as (Hg1 & Hg2 & Hg3 & Hg4 & Hg5).
  apply lift_inv in Hrun as (reserved & Hres%CheckedAdd_inv & Hrun). apply lift_inv in Hrun as (advance & Hadv%CheckedAdd_inv & Hrun).
  apply reads_inv in Hrun as (rw & Hrw & Hrun); [|destruct (rq_newly_admitted rq); solve_reads].
  apply bind_inv_ok in Hrun as (created & s2 & Hcreated & Hrun). injection Hrun as <- <-.
  rewrite if_sub in *. exists o, addrs.
  assert (forall c, c = rq_committed rq o -> c <= rq_target_slots rq -> rq_committed rq o <= rq_target_slots rq) as Hc1 by (by intros c ->).
  assert (rq_newly_admitted rq = negb (is_some o)) as Hnewly by (by destruct (rq_newly_admitted rq), (is_some o)).
  assert (rw = sg_reserved_window sg + if rq_newly_admitted rq then ring else 0) as Hwin.
  { destruct (rq_newly_admitted rq); [|injection Hrw as <-; lia]. unfold lift in Hrw. injection Hrw as Hrw.
    by apply CheckedAdd_inv in Hrw. }
  assert (forall pm, active_match rq = Some pm -> rq_newly_admitted rq = true /\ windowed s = false /\
      match_token_count pm = length (match_handles pm) * bs s /\ match_token_count pm < rq_target_slots rq /\
      Forall (shareable s) (match_handles pm)) as Hpms.
  { intros pm Ha. rewrite Ha in Hpm, Hmatch. cbn in Hpm. apply orb_false_iff in Hpm as [?%negb_false_iff ?].
    apply check_match_inv in Hmatch as (? & ? & ?). done. }
  destruct o as [[i t]|]; cbn [from_option] in *.
  - assert (created = [] /\ same_tables s s2) as [-> Hsame].
    { apply lift_inv in Hcreated as (total & _ & Hcreated). apply bind_inv_ok in Hcreated as ([] & s3 & Hrt & [= <- <-]).
      split; [done|]. destruct Ho as (_ & Ht & _). by eapply reserve_table_inv. }
    subst. split; cbn; try done; try lia. by rewrite app_nil_r.
  - apply bind_inv_ok in Hcreated as (t & s3 & Ht & [= <- <-]). apply make_new_table_inv in Ht as (Hsame & Ht1 & Ht2 & Ht3).
    subst. split; cbn; try done; try lia. by exists t.
Qed.

(** ** All requests staged *)

(** The growth blocks of the requests, in their order. *)
Inductive staged (ring : nat) (resident : RequestIndex.RequestIndex) :
    list PagedCacheReservationRequest -> cache_state O -> staging -> list (found * list addr) -> cache_state O -> staging -> Prop :=
  | staged_nil s sg : staged ring resident [] s sg [] s sg
  | staged_cons rq l s sg o addrs s1 sg1 es s2 sg2 :
      stage_ok s s1 ring resident rq sg sg1 o addrs -> staged ring resident l s1 sg1 es s2 sg2 ->
      staged ring resident (rq :: l) s sg ((o, addrs) :: es) s2 sg2.

Lemma stage_requests_inv ring resident l : forall sg s sg' s', stage_requests ring resident l sg s = (Ok sg', s') ->
  exists es, staged ring resident l s sg es s' sg'.
Proof.
  induction l as [|rq l IH]; intros sg s sg' s' Hrun; cbn in Hrun.
  - injection Hrun as <- <-. exists []. constructor.
  - apply bind_inv_ok in Hrun as (sg1 & s1 & H1 & Hrun). apply stage_request_inv in H1 as (o & addrs & H1).
    destruct (IH _ _ _ _ Hrun) as (es & Hes). exists ((o, addrs) :: es). by econstructor.
Qed.

Lemma staged_same ring resident l s sg es s' sg' : staged ring resident l s sg es s' sg' -> same_tables s s'.
Proof. induction 1; [apply same_tables_refl|]. eapply same_tables_trans; [by eapply so_same|done]. Qed.

Lemma same_bs s s' : same_tables s s' -> bs s' = bs s.
Proof. intros Hs. unfold bs. by rewrite (st_main _ _ Hs). Qed.

Lemma staged_deltas ring resident l s sg es s' sg' : staged ring resident l s sg es s' sg' ->
  exists ds, sg_deltas sg' = sg_deltas sg ++ ds.
Proof.
  induction 1 as [s sg|rq l s sg o addrs s1 sg1 es s2 sg2 Hok _ (ds & Hds)].
  - exists []. by rewrite app_nil_r.
  - eexists. rewrite Hds, (so_deltas _ _ _ _ _ _ _ _ _ Hok), <-app_assoc. done.
Qed.

(** The first delta of the remaining requests, and the others. *)
Lemma staged_split ring resident rq l s sg o addrs s1 sg1 es s2 sg2 ds :
  stage_ok s s1 ring resident rq sg sg1 o addrs -> staged ring resident l s1 sg1 es s2 sg2 ->
  sg_deltas sg2 = sg_deltas sg ++ ds ->
  exists ds1, sg_deltas sg2 = sg_deltas sg1 ++ ds1 /\ ds = rq_delta (bs s) ring rq o sg :: ds1.
Proof.
  intros Hok Hst Hds. destruct (staged_deltas _ _ _ _ _ _ _ _ Hst) as (ds1 & Hds1). exists ds1. split; [done|].
  rewrite Hds1, (so_deltas _ _ _ _ _ _ _ _ _ Hok), <-app_assoc in Hds. by simplify_list_eq.
Qed.

(** New tables follow the order of the newly admitted deltas. *)
Lemma staged_new ring resident l s sg es s' sg' : staged ring resident l s sg es s' sg' ->
  forall ds, sg_deltas sg' = sg_deltas sg ++ ds ->
  exists ts, sg_new_tables sg' = sg_new_tables sg ++ ts /\
    Forall2 (fun d t => request_id_ t = d_request_id d /\ committed_slots_ t = d_committed_slots d) (newly ds) ts /\
    Forall (fun t => forall h, h ∈ items (table_blocks_ t) -> h ∈ sg_adopted sg') ts.
Proof.
  assert (forall ring resident l s sg es s' sg', staged ring resident l s sg es s' sg' -> forall h, h ∈ sg_adopted sg -> h ∈ sg_adopted sg') as Hmono.
  { induction 1 as [|rq l1 s1 sg1 o addrs s2 sg2 es1 s3 sg3 Hok _ IH]; intros h Hh; [done|]. apply IH.
    rewrite (so_adopted _ _ _ _ _ _ _ _ _ Hok). apply elem_of_app. by left. }
  induction 1 as [s sg|rq l s sg o addrs s1 sg1 es s2 sg2 Hok Hst IH]; intros ds Hds.
  - exists []. split_and!; [by rewrite app_nil_r| |constructor].
    assert (ds = []) as -> by (rewrite <-(app_nil_r (sg_deltas sg)) in Hds at 1; by simplify_list_eq). constructor.
  - destruct (staged_split _ _ _ _ _ _ _ _ _ _ _ _ _ _ Hok Hst Hds) as (ds1 & Hds1 & ->).
    destruct (IH ds1 Hds1) as (ts & Hts & Hf & Hall). rewrite newly_cons. cbn.
    pose proof (so_new _ _ _ _ _ _ _ _ _ Hok) as Hnew. rewrite (so_newly _ _ _ _ _ _ _ _ _ Hok).
    destruct o as [[i t]|]; cbn.
    + exists ts. rewrite Hts, Hnew. done.
    + destruct Hnew as (t & Hnew & Hid & Hc & Hi). exists (t :: ts). split_and!.
      * rewrite Hts, Hnew, <-app_assoc. done.
      * constructor; [done|exact Hf].
      * constructor; [|done]. intros h Hh. eapply Hmono; [done|].
        rewrite (so_adopted _ _ _ _ _ _ _ _ _ Hok). apply elem_of_app. right. by rewrite <-Hi.
Qed.

Lemma staged_touched ring resident l s sg es s' sg' : staged ring resident l s sg es s' sg' ->
  NoDup (es ≫= snd) /\ (forall a, a ∈ es ≫= snd -> (a ∉ sg_touched sg) /\ is_Some (heap (main s) !! a)).
Proof.
  induction 1 as [s sg|rq l s sg o addrs s1 sg1 es s2 sg2 Hok Hst [IH1 IH2]]; cbn.
  - split; [apply NoDup_nil_2|]. intros a Ha. by apply not_elem_of_nil in Ha.
  - rewrite (st_main _ _ (so_same _ _ _ _ _ _ _ _ _ Hok)) in IH2. pose proof (so_touched _ _ _ _ _ _ _ _ _ Hok) as Ht. split.
    + apply NoDup_app. split_and!; [apply Hok| |done]. intros a Ha Ha2. destruct (IH2 a Ha2) as [Hno _].
      apply Hno. rewrite Ht. apply elem_of_union. left. by apply elem_of_list_to_set.
    + intros a [Ha|Ha]%elem_of_app.
      * split; [by eapply so_fresh|]. apply list_elem_of_lookup in Ha as [j Hj].
        destruct (so_occupied _ _ _ _ _ _ _ _ _ Hok j a Hj) as (b & Hb & _). by exists b.
      * destruct (IH2 a Ha) as [Hno Hb]. split; [|done]. intros Hin. apply Hno. rewrite Ht. set_solver.
Qed.

(** ** The blocks a delta writes into *)

Lemma blocks_for_le n x k : 0 < n -> blocks_for n x <= k <-> x <= k * n.
Proof.
  intros Hn. unfold blocks_for. pose proof (Nat.div_mod x n ltac:(lia)) as Hdm.
  pose proof (Nat.mod_upper_bound x n ltac:(lia)) as Hm. destruct (Nat.eqb_spec (x mod n) 0); split; intros H; nia.
Qed.

Lemma div_le_blocks n x k : 0 < n -> x <= k * n -> x / n <= k.
Proof. intros Hn H. apply Nat.Div0.div_le_upper_bound. lia. Qed.

Lemma blocks_for_sub n x k : 0 < n -> blocks_for n x - k <= blocks_for n (x - k * n).
Proof.
  intros Hn. assert (blocks_for n x <= blocks_for n (x - k * n) + k); [|lia]. apply blocks_for_le; [done|].
  pose proof (proj1 (blocks_for_le n (x - k * n) (blocks_for n (x - k * n)) Hn) ltac:(lia)). lia.
Qed.

Lemma rq_new_enough n rq o : 0 < n -> blocks_for n (rq_target_slots rq) - rq_blocks rq o <= rq_new_blocks n rq o.
Proof.
  intros Hn. unfold rq_new_blocks. etransitivity; [by apply blocks_for_sub|]. apply blocks_for_le; [done|].
  pose proof (proj1 (blocks_for_le n (max (rq_reserved_slots rq) (rq_target_slots rq) - rq_blocks rq o * n) _ Hn) (le_n _)). lia.
Qed.

(** The handle at position [i] of the advance list of a delta. *)
Definition advance_at (reserved blocks : list (option addr)) (committed_blocks first offset i : nat) : option (option addr) :=
  if first + i <? committed_blocks then blocks !! (first + i) else reserved !! (offset + (first + i) - committed_blocks).

Lemma mapM_advance reserved blocks cb first off m l :
  mapM (advance_at reserved blocks cb first off) (seq 0 m) = Some l ->
  length l = m /\ forall i, i < m -> l !! i = advance_at reserved blocks cb first off i.
Proof.
  intros H%mapM_Some. pose proof (Forall2_length _ _ _ H) as Hlen. rewrite length_seq in Hlen. split; [done|].
  intros i Hi. destruct (lookup_lt_is_Some_2 l i ltac:(lia)) as [x Hx]. rewrite Hx.
  symmetry. eapply (Forall2_lookup_lr _ _ _ i i x H); [|done]. apply lookup_seq. lia.
Qed.

(** The list splits into the table's own blocks and a prefix of its reserved ones. *)
Lemma advance_split n rq o sg reserved blocks l : 0 < n -> rq_committed rq o < rq_target_slots rq ->
  rq_committed rq o <= rq_blocks rq o * n ->
  match o with Some (_, t) => blocks = items (table_blocks_ t) | None => rq_committed rq o = rq_blocks rq o * n end ->
  mapM (advance_at reserved blocks (rq_blocks rq o) (rq_committed rq o / n) (sg_reserved sg)) (seq 0 (rq_advance n rq o)) = Some l ->
  exists R, l = grown_handles n rq o ++ R /\ R `prefix_of` slice (sg_reserved sg) (rq_new_blocks n rq o) reserved.
Proof.
  intros Hn Hct Hcb Hblocks Hm. apply mapM_advance in Hm as [Hlen Hl].
  pose proof (rq_new_enough n rq o Hn) as Hnew. unfold rq_advance in *.
  set (first := rq_committed rq o / n) in *. set (cb := rq_blocks rq o) in *. set (bft := blocks_for n (rq_target_slots rq)) in *.
  assert (first <= cb) as Hfirst by (by apply div_le_blocks).
  assert (length (grown_handles n rq o) = min cb bft - first /\
    forall i, i < min cb bft - first -> grown_handles n rq o !! i = blocks !! (first + i)) as [Hglen Hg].
  { unfold grown_handles. destruct o as [[j t]|].
    - cbn in Hct. rewrite (proj2 (Nat.ltb_lt _ _) Hct). subst blocks.
      change (committed_slots_ t / n) with first. change (length (items (table_blocks_ t))) with cb.
      fold bft. unfold slice. split; [rewrite length_take, length_drop; change (length (items (table_blocks_ t))) with cb; lia|].
      intros i Hi. rewrite lookup_take_lt, lookup_drop by done. done.
    - assert (first = cb) as -> by (subst first; rewrite Hblocks; apply Nat.div_mul; lia). cbn. split; [lia|]. intros i Hi. lia. }
  set (G := min cb bft - first) in *. exists (drop G l). split.
  - rewrite <-(take_drop G l) at 1. f_equal. apply list_eq. intros i. destruct (decide (i < G)) as [Hi|Hi].
    + rewrite lookup_take_lt by done. rewrite Hl, Hg by lia. unfold advance_at.
      destruct (Nat.ltb_spec (first + i) cb); [done|lia].
    + rewrite lookup_take_ge by lia. symmetry. apply lookup_ge_None_2. lia.
  - exists (drop (length (drop G l)) (slice (sg_reserved sg) (rq_new_blocks n rq o) reserved)).
    rewrite <-(take_drop (length (drop G l)) (slice _ _ reserved)) at 1. f_equal. apply list_eq. intros j.
    rewrite length_drop, Hlen. destruct (decide (j < bft - first - G)) as [Hj|Hj].
    + assert (first + G = cb) as HG by (unfold G in *; lia). rewrite lookup_take_lt by done. rewrite lookup_drop, Hl by lia.
      unfold advance_at. destruct (Nat.ltb_spec (first + (G + j)) cb); [lia|]. unfold slice. rewrite lookup_take_lt, lookup_drop by lia. f_equal. lia.
    + rewrite lookup_take_ge by lia. symmetry. apply lookup_ge_None_2. rewrite length_drop. lia.
Qed.

Lemma reads_delta_advance reserved resident d : reads (delta_advance (O := O) reserved resident d).
Proof. unfold delta_advance. solve_reads. Qed.

Lemma all_advance_inv reserved resident ds : forall s adv s', all_advance (O := O) reserved resident ds s = (Ok adv, s') ->
  s' = s /\ exists ls, adv = concat ls /\ Forall2 (fun d l => delta_advance reserved resident d s = (Ok l, s)) ds ls.
Proof.
  induction ds as [|d ds IH]; intros s adv s' Hrun; cbn in Hrun.
  - injection Hrun as <- <-. split; [done|]. by exists [].
  - apply reads_inv in Hrun as (l & Hl & Hrun); [|apply reads_delta_advance].
    apply bind_inv_ok in Hrun as (rest & s1 & Hrest & [= <- <-]). destruct (IH _ _ _ Hrest) as [-> (ls & -> & Hls)].
    split; [done|]. exists (l :: ls). split; [done|]. by constructor.
Qed.

(** What the delta of a staged request sees after all requests are staged. *)
Lemma delta_advance_inv n ring resident rq o sg reserved s s' l : 0 < n -> bs s' = n -> forget <$> tables s' = forget <$> tables s ->
  match o with
  | None => Find resident (rq_request_id rq) = None
  | Some (i, t) => Find resident (rq_request_id rq) = Some i /\ tables s !! i = Some t /\ request_id_ t = rq_request_id rq
  end ->
  delta_advance reserved resident (rq_delta n ring rq o sg) s' = (Ok l, s') ->
  mapM (advance_at reserved (match o with Some (_, t) => items (table_blocks_ t) | None => [] end) (rq_blocks rq o)
    (rq_committed rq o / n) (sg_reserved sg)) (seq 0 (rq_advance n rq o)) = Some l.
Proof.
  intros Hn Hbs Hsame Ho Hrun. unfold delta_advance in Hrun. cbn [rq_delta d_request_id] in Hrun.
  apply reads_inv in Hrun as (found' & Hf & Hrun); [|eauto with reads]. apply Find_inv in Hf as [_ Hf].
  apply gets_inv in Hrun. rewrite Hbs in Hrun. destruct (Nat.eqb_spec n 0); [lia|]. cbn zeta in Hrun.
  cbn [d_adopted_block_count d_reserved_block_offset d_advance_block_count d_committed_slots rq_delta] in Hrun.
  assert (from_option (fun it : nat * PagedCacheBlockTable => items (table_blocks_ it.2)) [] found' =
      match o with Some (_, t) => items (table_blocks_ t) | None => [] end /\
    match found' with Some _ => length (from_option (fun it : nat * PagedCacheBlockTable => items (table_blocks_ it.2)) [] found')
      | None => length (rq_adopted rq) end = rq_blocks rq o) as [Heq Hcb].
  { destruct o as [[i t]|].
    - destruct Ho as (Hi & Ht & _). destruct found' as [[i' t']|]; [|congruence]. destruct Hf as (Hi' & Ht' & _).
      assert (i' = i) as -> by congruence. destruct (same_tables_lookup _ _ _ _ Hsame Ht) as (t2 & Ht2 & Hfg).
      assert (t2 = t') as -> by congruence. apply forget_eq in Hfg as (_ & _ & Hit & _). cbn. by rewrite Hit.
    - destruct found' as [[i' t']|]; [destruct Hf; congruence|]. done. }
  rewrite Heq in *. destruct (mapM _ _) as [l'|] eqn:Hm; [|done]. injection Hrun as <-. rewrite <-Hm. apply mapM_ext.
  intros i. unfold advance_at. rewrite <-Hcb. destruct found' as [[]|]; done.
Qed.

Lemma slice_prefix {A} (pre l post : list A) k : length pre = k -> slice k (length l) (pre ++ l ++ post) = l.
Proof. intros <-. unfold slice. rewrite drop_app_length. apply take_app_length. Qed.

(** The growing deltas write into their tables' own blocks and their reserved ones. *)
Lemma advance_parts ring resident l s sg es s1 sg1 : staged ring resident l s sg es s1 sg1 ->
  forall r s2 ds ls pre post, sg_deltas sg1 = sg_deltas sg ++ ds -> bs s2 = bs s -> forget <$> tables s2 = forget <$> tables s ->
  Forall2 (fun d l => delta_advance (reserved_blocks_ r) resident d s2 = (Ok l, s2)) ds ls ->
  advance_blocks_ r = pre ++ concat ls ++ post -> length pre = sg_advance sg ->
  exists Rs, (ds ≫= advance_of r) ≡ₚ (Some <$> (es ≫= snd)) ++ concat Rs /\
    Forall2 (fun d R => R `prefix_of` reserved_of r d) ds Rs.
Proof.
  induction 1 as [s sg|rq l s sg o addrs s1 sg1 es s3 sg3 Hok Hst IH]; intros r s2 ds ls pre post Hds Hbs2 Hsame Hls Hadv Hpre.
  { assert (ds = []) as -> by (rewrite <-(app_nil_r (sg_deltas sg)) in Hds at 1; by simplify_list_eq). by exists []. }
  destruct (staged_split _ _ _ _ _ _ _ _ _ _ _ _ _ _ Hok Hst Hds) as (ds1 & Hds1 & ->).
  apply Forall2_cons_inv_l in Hls as (l0 & ls' & Hl0 & Hls & ->). cbn [concat] in Hadv. rewrite <-app_assoc in Hadv.
  assert (forget <$> tables s2 = forget <$> tables s1) as Hs12 by (rewrite (st_tables _ _ (so_same _ _ _ _ _ _ _ _ _ Hok)); done).
  assert (bs s2 = bs s1) as Hbs12 by (rewrite (same_bs s s1); [done|apply Hok]).
  pose proof (so_bs _ _ _ _ _ _ _ _ _ Hok) as Hbs.
  pose proof (delta_advance_inv (bs s) ring resident rq o sg (reserved_blocks_ r) s s2 l0 Hbs Hbs2 Hsame
    (so_find _ _ _ _ _ _ _ _ _ Hok) Hl0) as Hm.
  pose proof (proj1 (mapM_advance _ _ _ _ _ _ _ Hm)) as Hlen0.
  destruct (IH r s2 ds1 ls' (pre ++ l0) post Hds1 Hbs12 Hs12 Hls) as (Rs & Hperm & HRs).
  { rewrite Hadv, <-app_assoc. done. }
  { rewrite length_app, (so_advance _ _ _ _ _ _ _ _ _ Hok). lia. }
  assert (exists R, advance_of r (rq_delta (bs s) ring rq o sg) = (Some <$> addrs) ++ R /\
    R `prefix_of` reserved_of r (rq_delta (bs s) ring rq o sg)) as (R & HR & HRpre).
  { unfold advance_of, reserved_of. cbn [rq_delta d_committed_slots d_target_slots d_advance_block_offset d_advance_block_count
      d_reserved_block_offset d_reserved_block_count]. rewrite Hadv, <-Hlen0, slice_prefix by done.
    rewrite <-(so_handles _ _ _ _ _ _ _ _ _ Hok).
    destruct (Nat.ltb_spec (rq_committed rq o) (rq_target_slots rq)) as [Hct|Hct].
    - assert (match o with
        | Some (_, t) => match o with Some (_, t) => items (table_blocks_ t) | None => [] end = items (table_blocks_ t)
        | None => rq_committed rq o = rq_blocks rq o * bs s end) as Hblocks; cycle 1.
      { destruct (advance_split (bs s) rq o sg (reserved_blocks_ r) _ l0 Hbs Hct (so_boundary _ _ _ _ _ _ _ _ _ Hok) Hblocks Hm)
          as (R & HR1 & HR2). by exists R. }
      destruct o as [[]|]; [done|]. unfold rq_committed, rq_blocks, rq_adopted.
      destruct (active_match rq) as [pm|] eqn:Hpm; [|done]. cbn. rewrite length_fmap. by apply (so_match _ _ _ _ _ _ _ _ _ Hok).
    - exists []. split; [|apply prefix_nil]. unfold grown_handles. destruct o as [[]|]; [|done]. cbn in Hct.
      by rewrite (proj2 (Nat.ltb_ge _ _) Hct). }
  exists (R :: Rs). split; [|by constructor]. cbn. rewrite HR, Hperm, fmap_app, <-!app_assoc. f_equiv.
  rewrite !app_assoc. f_equiv. apply Permutation_app_comm.
Qed.

(** ** Taking the blocks *)

Section Taking.
Context `{!BlockReclaimerLaws O}.

(** A state that differs from [s] in its pools only. *)
Record pools_moved (D : addr -> Prop) s s' : Prop := mk_pools_moved
  { pm_alive : alive D (main s');
    pm_bs : bs s' = bs s;
    pm_tables : tables s' = tables s;
    pm_index : table_index s' = table_index s;
    pm_capacity : tables_capacity s' = tables_capacity s }.

Lemma pools_moved_trans D s1 s2 s3 : pools_moved D s1 s2 -> pools_moved D s2 s3 -> pools_moved D s1 s3.
Proof. intros [] []. split; [done|congruence..]. Qed.

Lemma on_main_inv {A} (m : M (world O) BlockError A) s a s' : on_main m s = (Ok a, s') ->
  exists w, m (main s) = (Ok a, w) /\ s' = set_main w s.
Proof. unfold on_main. destruct (m (main s)) as [[] w] eqn:Hm; try done. intros [= <- <-]. by exists w. Qed.

Lemma on_window_inv {A} (m : M (world unit) BlockError A) s a s' : on_window (O := O) m s = (Ok a, s') ->
  exists w w', window s = Some w /\ m w = (Ok a, w') /\ s' = set_window (Some w') s.
Proof. unfold on_window. destruct (window s) as [w|]; [|done]. destruct (m w) as [[] w'] eqn:Hm; try done. intros [= <- <-]. by exists w, w'. Qed.

Lemma on_error_inv {A} (m : M (cache_state O) ReservationError A) h s a s' : on_error m h s = (Ok a, s') -> m s = (Ok a, s').
Proof.
  unfold on_error. destruct (m s) as [[a'|e| |] s1]; try done. destruct (h s1) as [[] s2]; done.
Qed.

Lemma ReserveBlocks_inv {P} (w : world P) n hs w' : pool_wf w -> ReserveBlocks n w = (Ok hs, w') -> allocated w n false hs w'.
Proof.
  intros Hwf Hrun. unfold ReserveBlocks in Hrun. destruct (decide (BlocksNeeded (pool w) n <= AvailableBlocks (pool w))) as [Hle|Hgt].
  - destruct (AllocateBlocks_allocated n false w Hwf Hle) as (hs' & w2 & Hrun' & Hal). rewrite Hrun in Hrun'. by injection Hrun' as -> ->.
  - rewrite AllocateBlocks_refused in Hrun by (done || lia). done.
Qed.

Lemma adopt_inv D adopted s s' : alive D (main s) -> retention (main s) -> Forall (handle_in D) adopted ->
  (if bool_decide (adopted = []) then mret tt else on_main (AddRefs adopted)) s = (Ok tt, s') ->
  pools_moved D s s' /\ retention (main s') /\ window s' = window s.
Proof.
  intros Ha Hr Hin Hrun. destruct (bool_decide (adopted = [])); [injection Hrun as <-; done|].
  apply on_main_inv in Hrun as (w & Hw & ->). cbn.
  pose proof (triple_AddRefs D adopted (alive D) Hin (fun _ H => H) (main s) Ha) as Ht. rewrite Hw in Ht.
  pose proof (retention_AddRefs adopted (main s) Hr (proj1 Ha)) as Hret. rewrite Hw in Hret.
  pose proof (AddRefs_keeps_pool adopted (main s)) as Hp. rewrite Hw in Hp. cbn in Hp.
  split_and!; [|apply Hret|done].
  - split; try done. unfold bs. cbn. by rewrite Hp.
  - intros a Hin'. destruct Ha as [_ Hd]. apply Hd. rewrite Forall_forall in Hin. by apply (Hin _ Hin' a).
Qed.

Lemma take_main_inv D reclaimer count s l s' : alive D (main s) -> retention (main s) ->
  take_main reclaimer count s = (Ok l, s') ->
  pools_moved D s s' /\ window s' = window s /\ exists hs, l = Some <$> hs /\ NoDup hs /\
    forall a, a ∈ hs -> ~ D a /\ is_Some (heap (main s') !! a).
Proof.
  intros Ha Hr Hrun. unfold take_main in Hrun. apply gets_inv in Hrun. apply bind_inv_ok in Hrun as ([] & s1 & Hrec & Hrun).
  assert (pools_moved D s s1 /\ window s1 = window s) as [Hmv Hwin].
  { destruct (reclaimer && _); [|injection Hrec as <-; done]. unfold call_reclaimer in Hrec.
    pose proof (reclaim_keeps D (count - available_main s) (main s) Ha Hr) as Hk.
    destruct (reclaim_blocks _ (main s)) as [[x|e| |] w]; try done. injection Hrec as <-. destruct Hk as [Hk1 Hk2]. by split. }
  apply gets_inv in Hrun. destruct (available_main s1 <? count); [done|]. apply gets_inv in Hrun.
  apply lift_inv in Hrun as (slots & _ & Hrun). apply bind_inv_ok in Hrun as (hs & s2 & Hres & [= <- <-]).
  apply on_main_inv in Hres as (w & Hrun & ->). pose proof (ReserveBlocks_inv _ _ _ _ (proj1 (pm_alive _ _ _ Hmv)) Hrun) as Hres.
  split_and!; [|done|].
  - eapply pools_moved_trans; [done|]. split; try done.
    + split; [apply Hres|]. intros a Hd. destruct (pm_alive _ _ _ Hmv) as [_ Hl]. destruct (Hl a Hd) as [b Hb].
      exists b. by apply (al_heap _ _ _ _ _ Hres).
    + unfold bs. cbn. by pose proof (ReserveBlocks_keeps_size slots (main s1)) as Hk; rewrite Hrun in Hk.
  - exists hs. split_and!; [done|apply Hres|]. intros a Hin. destruct (al_new _ _ _ _ _ Hres a Hin) as (Hnone & b & Hb & _).
    split; [|by exists b]. intros Hd. destruct (pm_alive _ _ _ Hmv) as [_ Hl]. destruct (Hl a Hd). congruence.
Qed.

Lemma take_window_inv count s l s' : (forall w, window s = Some w -> pool_wf w) -> take_window count s = (Ok l, s') ->
  main s' = main s /\ tables s' = tables s /\ table_index s' = table_index s /\ tables_capacity s' = tables_capacity s /\
  forall w, window s' = Some w -> pool_wf w /\ handles_valid w l.
Proof.
  intros Hwf Hrun. unfold take_window in Hrun. apply gets_inv in Hrun. unfold windowed in Hrun.
  destruct (window s) as [w|] eqn:Hw.
  - apply reads_inv in Hrun as (n & _ & Hrun); [|eauto with reads]. apply lift_inv in Hrun as (slots & _ & Hrun).
    apply bind_inv_ok in Hrun as (hs & s2 & Hres & [= <- <-]). apply on_window_inv in Hres as (w0 & w' & Hw0 & Hres & ->).
    assert (w0 = w) as -> by congruence. apply ReserveBlocks_inv in Hres; [|by apply Hwf]. cbn. split_and!; try done.
    intros w1 [= <-]. split; [apply Hres|]. intros a (x & [= ->] & Hx)%list_elem_of_fmap.
    destruct (al_new _ _ _ _ _ Hres x Hx) as (_ & b & Hb & _). by exists b.
  - injection Hrun as <- <-. split_and!; try done. intros w1 Hw1. congruence.
Qed.

(** The blocks are taken; everything else is as staged. *)
Lemma take_blocks_inv D reclaimer count wcount adopted s res s' : alive D (main s) -> retention (main s) ->
  (forall w, window s = Some w -> pool_wf w) -> take_blocks reclaimer count wcount adopted s = (Ok res, s') ->
  pools_moved D s s' /\ (exists hs, res.1 = Some <$> hs /\ NoDup hs /\ forall a, a ∈ hs -> ~ D a /\ is_Some (heap (main s') !! a)) /\
  forall w, window s' = Some w -> pool_wf w /\ handles_valid w res.2.
Proof.
  intros Ha Hr Hw Hrun. unfold take_blocks in Hrun.
  apply bind_inv_ok in Hrun as (l & s1 & H1%on_error_inv & Hrun). apply bind_inv_ok in Hrun as (lw & s2 & H2%on_error_inv & [= <- <-]).
  apply (take_main_inv D) in H1 as (Hmv & Hwin & Hhs); [|done|done]. rewrite <-Hwin in Hw.
  apply take_window_inv in H2 as (Hm & Ht & Hi & Hc & Hlive); [|done]. cbn [fst snd]. rewrite Hm. split_and!; [|done|done].
  destruct Hmv as [? ? ? ? ?]. split; [by rewrite Hm|unfold bs in *; by rewrite Hm|congruence..].
Qed.

(** What construction needs of the cache. *)
Record build_ready s (requests : list PagedCacheReservationRequest) : Prop := mk_build_ready
  { br_pool : pool_wf (main s);
    br_retention : retention (main s);
    br_window : forall w, window s = Some w -> pool_wf w;
    br_sync : index_sync s;
    br_tables : forall t, t ∈ tables s -> handles_valid (main s) (items (table_blocks_ t));
    br_matches : forall rq pm, rq ∈ requests -> rq_prefix_match rq = Some pm -> handles_valid (main s) (Some <$> match_handles pm) }.

Lemma active_match_of rq pm : active_match rq = Some pm -> rq_prefix_match rq = Some pm.
Proof. unfold active_match. destruct (rq_prefix_match rq) as [pm'|]; [|done]. by destruct (bool_decide _). Qed.

Lemma staged_adopted ring resident l s sg es s' sg' : staged ring resident l s sg es s' sg' ->
  forall h, h ∈ sg_adopted sg' -> h ∈ sg_adopted sg \/ exists rq, rq ∈ l /\ h ∈ rq_adopted rq.
Proof.
  induction 1 as [s sg|rq l s sg o addrs s1 sg1 es s2 sg2 Hok _ IH]; intros h Hh; [by left|].
  destruct (IH h Hh) as [H1|(rq' & Hin & H1)].
  - rewrite (so_adopted _ _ _ _ _ _ _ _ _ Hok) in H1. apply elem_of_app in H1 as [H1|H1]; [by left|]. right. exists rq. split; [left|done].
  - right. exists rq'. split; [by right|done].
Qed.

Lemma staged_reserved ring resident l s sg es s' sg' : staged ring resident l s sg es s' sg' -> forall r ds,
  sg_deltas sg' = sg_deltas sg ++ ds ->
  (ds ≫= reserved_of r) = slice (sg_reserved sg) (sg_reserved sg' - sg_reserved sg) (reserved_blocks_ r) /\ sg_reserved sg <= sg_reserved sg'.
Proof.
  induction 1 as [s sg|rq l s sg o addrs s1 sg1 es s2 sg2 Hok Hst IH]; intros r ds Hds.
  - assert (ds = []) as -> by (rewrite <-(app_nil_r (sg_deltas sg)) in Hds at 1; by simplify_list_eq).
    rewrite Nat.sub_diag. done.
  - destruct (staged_split _ _ _ _ _ _ _ _ _ _ _ _ _ _ Hok Hst Hds) as (ds1 & Hds1 & ->).
    destruct (IH r ds1 Hds1) as [Heq Hle]. rewrite (so_reserved _ _ _ _ _ _ _ _ _ Hok) in *. split; [|lia].
    cbn. fold (mbind (M := list) (reserved_of r) ds1). rewrite Heq. unfold reserved_of. cbn. unfold slice.
    rewrite <-drop_drop. replace (sg_reserved sg2 - sg_reserved sg) with
      (rq_new_blocks (bs s) rq o + (sg_reserved sg2 - (sg_reserved sg + rq_new_blocks (bs s) rq o))) by lia.
    by rewrite take_take_drop.
Qed.

Lemma prefixes_sublist r ds Rs : Forall2 (fun d R => R `prefix_of` reserved_of r d) ds Rs -> sublist (concat Rs) (ds ≫= reserved_of r).
Proof.
  induction 1 as [|d R ds Rs Hp _ IH]; [done|]. cbn. apply sublist_app; [|exact IH]. destruct Hp as [m ->]. by apply sublist_inserts_r.
Qed.

Lemma same_sync s s' : same_tables s s' -> index_sync s -> index_sync s'.
Proof.
  intros Hs Hsync. unfold index_sync in *. rewrite (st_index _ _ Hs). destruct (table_index s) as [ti|]; [|done].
  destruct Hsync as [Hwf Hsync]. split; [done|]. intros id i. rewrite Hsync. split.
  - intros (t & Ht & Hid). destruct (same_tables_lookup _ _ _ _ (st_tables _ _ Hs) Ht) as (t' & Ht' & Hf). apply forget_eq in Hf as (Hf & _).
    exists t'. split; [done|congruence].
  - intros (t & Ht & Hid). destruct (tables s !! i) as [t0|] eqn:Ht0.
    + destruct (same_tables_lookup _ _ _ _ (st_tables _ _ Hs) Ht0) as (t' & Ht' & Hf). assert (t' = t) as -> by congruence.
      apply forget_eq in Hf as (Hf & _). exists t0. split; [done|congruence].
    + pose proof (st_tables _ _ Hs) as Heq. apply (f_equal (fun l => l !! i)) in Heq.
      rewrite !list_lookup_fmap, Ht, Ht0 in Heq. done.
Qed.

(** No two growing deltas write into one block: resident blocks are distinct by the
    growth checks, reserved blocks are fresh. *)
Lemma advance_unique ring resident l s sg es s1 sg1 r s2 ls hs :
  staged ring resident l s sg es s1 sg1 -> sg_deltas sg = [] -> sg_reserved sg = 0 -> sg_advance sg = 0 ->
  bs s2 = bs s -> forget <$> tables s2 = forget <$> tables s -> deltas_ r = sg_deltas sg1 -> reserved_blocks_ r = Some <$> hs -> advance_blocks_ r = concat ls ->
  Forall2 (fun d l => delta_advance (reserved_blocks_ r) resident d s2 = (Ok l, s2)) (sg_deltas sg1) ls ->
  NoDup hs -> (forall a, a ∈ hs -> ~ is_Some (heap (main s) !! a)) -> NoDup (deltas_ r ≫= advance_of r).
Proof.
  intros Hst H0 Hr0 Ha0 Hbs Hsame Hds Hres Hadv Hls Hnd Hfresh.
  assert (sg_deltas sg1 = sg_deltas sg ++ sg_deltas sg1) as Hsplit by (by rewrite H0).
  destruct (advance_parts _ _ _ _ _ _ _ _ Hst r s2 (sg_deltas sg1) ls [] [] Hsplit Hbs Hsame Hls) as (Rs & Hperm & HRs);
    [by rewrite app_nil_r|by rewrite Ha0|].
  rewrite Hds, Hperm. destruct (staged_touched _ _ _ _ _ _ _ _ Hst) as [Htn Htl].
  pose proof (prefixes_sublist _ _ _ HRs) as Hsub. destruct (staged_reserved _ _ _ _ _ _ _ _ Hst r _ Hsplit) as [Heq _].
  rewrite Heq, Hr0 in Hsub. unfold slice in Hsub. rewrite drop_0 in Hsub.
  assert (sublist (concat Rs) (reserved_blocks_ r)) as Hsub2 by (etransitivity; [exact Hsub|apply sublist_take]).
  apply NoDup_app. split_and!.
  - by apply (NoDup_fmap_2 Some).
  - intros x (a & -> & Ha)%list_elem_of_fmap Hin. destruct (Htl a Ha) as [_ Hlive].
    pose proof (elem_of_sublist _ _ _ Hin Hsub2) as Hin2. rewrite Hres in Hin2.
    apply list_elem_of_fmap in Hin2 as (a' & [= <-] & Ha'). by apply (Hfresh a).
  - eapply sublist_NoDup; [|exact Hsub2]. rewrite Hres. by apply (NoDup_fmap_2 Some).
Qed.

(** What a constructed reservation satisfies. *)
Record constructed s r s' : Prop := mk_constructed
  { co_state : state_ r = Reserved;
    co_wf : reservation_wf r;
    co_live : handles_live s' r;
    co_sync : index_sync s';
    co_pool : pool_wf (main s');
    co_tables : forget <$> tables s' = forget <$> tables s;
    co_index : table_index s' = table_index s }.

Lemma index_tables_reads i l index : reads (index_tables (O := O) i l index).
Proof.
  revert i index. induction l as [|t l IH]; intros i index; cbn [index_tables]; [apply reads_ret|].
  destruct (Insert _ _ _). solve_reads.
Qed.

Lemma make_index_reads n : reads (make_index (O := O) n).
Proof. unfold make_index. destruct (make_RequestIndex _); done. Qed.

Lemma forget_handles (l l' : list PagedCacheBlockTable) t : forget <$> l' = forget <$> l -> t ∈ l' ->
  exists t0, t0 ∈ l /\ items (table_blocks_ t0) = items (table_blocks_ t).
Proof.
  intros Heq Ht. apply (list_elem_of_fmap_2 forget) in Ht. rewrite Heq in Ht. apply list_elem_of_fmap in Ht as (t0 & Hf & Ht0).
  exists t0. split; [done|]. apply forget_eq in Hf as (_ & _ & Hi & _). done.
Qed.

Lemma make_Reservation_inv requests ring reclaimer s r s' : build_ready s requests ->
  make_Reservation requests ring reclaimer s = (Ok r, s') -> constructed s r s'.
Proof.
  intros [Hpool Hret Hwin Hsync Htabs Hmatch] Hrun. unfold make_Reservation in Hrun. apply gets_inv in Hrun.
  apply reads_inv in Hrun as (ri & _ & Hrun); [|apply make_index_reads].
  apply reads_inv in Hrun as (di & _ & Hrun); [|apply make_index_reads]. apply gets_inv in Hrun.
  apply throw_if_inv in Hrun as [_ Hrun]. apply lift_inv in Hrun as (total & _ & Hrun).
  apply bind_inv_ok in Hrun as ([] & s0 & [= <-] & Hrun). apply gets_inv in Hrun. apply throw_if_inv in Hrun as [_ Hrun].
  apply reads_inv in Hrun as (resident & _ & Hrun); [|apply index_tables_reads].
  set (s0 := set_tables_capacity _ s) in *. set (sg0 := mkStaging [] di [] [] 0 0 0 ∅ ∅) in *.
  apply bind_inv_ok in Hrun as (sg & s1 & Hstage & Hrun). apply stage_requests_inv in Hstage as (es & Hst).
  pose proof (staged_same _ _ _ _ _ _ _ _ Hst) as Hs1. apply gets_inv in Hrun. apply throw_if_inv in Hrun as [_ Hrun].
  apply bind_inv_ok in Hrun as ([] & s2 & Hadopt & Hrun). apply bind_inv_ok in Hrun as (taken & s3 & Htake & Hrun).
  do 2 apply gets_inv in Hrun. apply bind_inv_ok in Hrun as (adv & s4 & Hadv & Hrun). apply gets_inv in Hrun. injection Hrun as <- <-.
  set (D := fun a => is_Some (heap (main s) !! a)).
  assert (alive D (main s1) /\ retention (main s1)) as [Ha1 Hr1] by (rewrite (st_main _ _ Hs1); split; [split; [done|by intros a]|done]).
  assert (Forall (handle_in D) (sg_adopted sg)) as Hin.
  { apply Forall_forall. intros h Hh a ->. destruct (staged_adopted _ _ _ _ _ _ _ _ Hst _ Hh) as [Hnil|(rq & Hrq & Hh')].
    - by apply not_elem_of_nil in Hnil.
    - unfold rq_adopted in Hh'. destruct (active_match rq) as [pm|] eqn:Hpm; [|by apply not_elem_of_nil in Hh'].
      by apply (Hmatch rq pm Hrq (active_match_of _ _ Hpm)). }
  apply (adopt_inv D) in Hadopt as (Hm2 & Hr2 & Hw2); [|done..].
  assert (forall w, window s2 = Some w -> pool_wf w) as Hwin2 by (rewrite Hw2, (st_window _ _ Hs1); exact Hwin).
  apply (take_blocks_inv D) in Htake as (Hm3 & (hs & Hhs & Hnd & Hnew) & Hw3); [|apply Hm2|done|done].
  apply all_advance_inv in Hadv as (-> & ls & -> & Hls).
  pose proof (pools_moved_trans _ _ _ _ Hm2 Hm3) as Hm.
  assert (forget <$> tables s3 = forget <$> tables s) as Ht3 by (rewrite (pm_tables _ _ _ Hm); apply (st_tables _ _ Hs1)).
  assert (table_index s3 = table_index s) as Hi3 by (rewrite (pm_index _ _ _ Hm); apply (st_index _ _ Hs1)).
  assert (tables s1 = tables s3) as Ht13 by (by rewrite (pm_tables _ _ _ Hm)).
  split; cbn; try done.
  - destruct (staged_new _ _ _ _ _ _ _ _ Hst (sg_deltas sg) eq_refl) as (ts & Hts & Hf & _). cbn in Hts. split; cbn; [|by rewrite Hts].
    set (r0 := mkReservation ring resident taken.1 taken.2 (sg_adopted sg) (sg_deltas sg) (sg_index sg)
      (replicate (length requests) 0%N) 1 (sg_new_tables sg) (concat ls) (snapshot <$> tables s3)
      (mutation_generation_ (pool (main s3))) (from_option (fun w => mutation_generation_ (pool w)) 0%N (window s3)) Reserved).
    apply (advance_unique _ _ _ _ _ _ _ _ r0 s3 ls hs Hst); try done.
    + rewrite (pm_bs _ _ _ Hm). by apply same_bs.
    + intros a Ha. by destruct (Hnew a Ha) as [Hd _].
  - pose proof (pm_alive _ _ _ Hm) as [_ Hlive].
    assert (forall h, h ∈ sg_adopted sg -> forall a, h = Some a -> is_Some (heap (main s3) !! a)) as Hadopted.
    { intros h Hh a ->. apply Hlive. rewrite Forall_forall in Hin. by apply (Hin _ Hh a). }
    split; cbn.
    + intros a Ha. rewrite Hhs in Ha. apply list_elem_of_fmap in Ha as (a' & [= ->] & Ha'). by apply Hnew.
    + intros a Ha. by apply (Hadopted _ Ha).
    + intros t [Ht|Ht] a Ha.
      * destruct (forget_handles _ _ _ Ht3 Ht) as (t0 & Ht0 & Hi). rewrite <-Hi in Ha. apply Hlive. by apply (Htabs t0 Ht0).
      * destruct (staged_new _ _ _ _ _ _ _ _ Hst (sg_deltas sg) eq_refl) as (ts & Hts & _ & Hall). cbn in Hts. rewrite Hts in Ht.
        rewrite Forall_forall in Hall. by apply (Hadopted _ (Hall t Ht _ Ha)).
    + intros w Hw. by apply Hw3.
  - assert (same_tables s (set_main (main s) (set_window (window s) (set_tables_capacity (tables_capacity s) s3)))) as Hsm by (by split).
    exact (same_sync _ _ Hsm Hsync).
  - apply Hm.
Qed.
End Taking.
End Build.

(** ** The prefix cache keeps its promise *)

Lemma AddRefs_cache_ok blocks (w : world PrefixCache) : cache_ok w -> handles_valid w blocks ->
  match AddRefs blocks w with (Ok _, w') => cache_ok w' | (Throw _, _) => True | _ => False end.
Proof.
  intros Hw Hv. unfold AddRefs, ValidateOwnership.
  assert (forall occs, for_each (check_references false) occs w = (Ok tt, w)) as Hloop by (induction occs; done).
  destruct (all_owned_dec w blocks Hv) as [Ho|Hno]; cycle 1.
  { destruct (validate_ids_not_owned w blocks (ck_pool _ Hw) Hv Hno) as (e & He). unfold mbind, M_bind. by rewrite He. }
  set (occs := occurrences_of (block_id w <$> blocks)).
  erewrite bind_ok; [|erewrite bind_ok by (by apply validate_ids_owned; [apply Hw|]); by erewrite bind_ok].
  fold occs. set (I := fun (l : list (nat * nat)) w' => cache_ok w' /\ pool w' = pool w /\ forall oc, oc ∈ l -> oc ∈ occs).
  destruct (for_each_inv (fun oc : nat * nat => for_each (fun _ : nat => ab ← block_at oc.1; add_ref_at ab.1 ab.2) (seq 0 oc.2)) I)
    with (l := occs) (s := w) as (w' & -> & Hw' & _); [|done|done].
  intros [id k] l w1 (Hw1 & Hp1 & Hl). cbn [fst snd]. set (J := fun (_ : list nat) w' => cache_ok w' /\ pool w' = pool w).
  destruct (for_each_inv (fun _ : nat => ab ← block_at id; add_ref_at ab.1 ab.2) J) with (l := seq 0 k) (s := w1) as (w2 & Hrun & Hw2 & Hp2); [|done|].
  - intros x l' w2 [Hw2 Hp2]. destruct (occurrences_owned w blocks id k Ho (Hl (id, k) ltac:(left))) as (a & b0 & Hs & _).
    rewrite <-Hp2 in Hs. destruct (pw_slot _ (ck_pool _ Hw2) _ _ Hs) as (b & Hb & Hbw).
    destruct (add_ref_at_ok w2 a b Hw2 Hb) as (w3 & Hadd & (Hw3 & _) & Hp3); [by rewrite (bw_id _ _ _ Hbw)|].
    exists w3. split; [|split; [done|congruence]]. rewrite (bind_ok (block_at id) _ w2 (a, b) w2); [done|].
    unfold block_at. by rewrite Hs, Hb.
  - exists w2. split; [done|]. split_and!; [done..|]. intros oc Hoc. apply Hl. by right.
Qed.

#[global] Instance RetainedBlockReclaimer_laws : BlockReclaimerLaws PrefixCache.PrefixCache.
Proof.
  refine {| retention := cache_ok |}.
  - intros blocks w Hw _ Hv. by apply AddRefs_cache_ok.
  - intros D n w [_ Hd] Hw. destruct (Reclaim_spec w n Hw) as (w' & Hrun & Hrc). cbn. rewrite Hrun.
    split; [|apply Hrc]. split; [apply Hrc|]. intros a Ha. by apply (rc_handles _ _ _ Hrc), Hd.
Defined.

(** C11: reserving and committing compose.  From a well-formed cache, whatever mix of
    resident and newly admitted requests, adopted prefixes and reclaimed retained
    blocks a reservation was built from, the committed tables are as before and
    committing it is all or nothing with the exact effect of [commit_effect]: the
    constructor gives no block to two growing requests, appends the new tables in the
    order of their deltas, and leaves every handle it keeps alive. *)
Theorem reserve_then_commit (requests : list PagedCacheReservationRequest) (ring : nat) (reclaimer : bool)
    (s : cache_state PrefixCache.PrefixCache) r s' :
  build_ready s requests -> make_Reservation requests ring reclaimer s = (Ok r, s') ->
  forget <$> tables s' = forget <$> tables s /\ table_index s' = table_index s /\
  match Reservation.Commit (s', r) with
  | (Ok _, (s'', r')) => commit_effect s' r s'' /\ r' = closed Committed (adopted_blocks_ r) r
  | (Throw _, sr) => sr = (s', r)
  | _ => False
  end.
Proof.
  intros Hready Hrun. destruct (make_Reservation_inv _ _ _ _ _ _ Hready Hrun) as [Hst Hwf Hlive Hsync Hpool Htab Hidx].
  split_and!; [done..|]. assert (0 < bs s') as Hbs by apply (pw_block_size _ Hpool).
  unfold Reservation.Commit. destruct (ValidateCommit_reads s' r Hbs Hlive) as (o & Hv & Ht & Hu).
  unfold mbind, M_bind. rewrite Hv. destruct o as [[]|e| |]; [|done|by destruct Ht|by destruct Hu].
  apply ValidateCommit_inv in Hv as [_ Hcv]; [|done].
  destruct (CommitValidated_ok s' r Hbs Hsync Hwf Hcv) as (s'' & -> & He). done.
Qed.

(** ** A sample: a new request adopts the two retained blocks of a cached prompt *)

Definition sample_request : PagedCacheReservationRequest := mkRequest 7 5 true 6 (Some (mkMatch 4 [0; 1] None None)).

Definition sample_cache : cache_state PrefixCache.PrefixCache :=
  mkState (sample_retained false) None [] 0 (match make_RequestIndex 3 with Ok i => Some i | _ => None end) 1.

Lemma sample_cache_ready : build_ready sample_cache [sample_request].
Proof.
  split.
  - exact (ck_pool _ (sample_retained_ok false)).
  - exact (sample_retained_ok false).
  - intros w Hw. discriminate Hw.
  - destruct (make_spec 3 ltac:(lia)) as (i & Hi & Hwf & Hc & _). unfold index_sync, sample_cache. cbn [table_index tables].
    rewrite Hi. split; [done|]. intros id k. rewrite Hc, lookup_empty, lookup_nil. split; [done|]. by intros (t & Ht & _).
  - intros t Ht. by apply not_elem_of_nil in Ht.
  - intros rq pm [->|Hrq]%elem_of_cons Hpm; [|by apply not_elem_of_nil in Hrq].
    unfold sample_request in Hpm. cbn in Hpm. injection Hpm as <-. intros a Ha. assert (a = 0 \/ a = 1) as [-> | ->].
    { repeat (apply elem_of_cons in Ha as [[= ->]|Ha]; [by auto|]). by apply not_elem_of_nil in Ha. }
    + eexists. vm_compute. reflexivity.
    + eexists. vm_compute. reflexivity.
Qed.

Lemma reserve_then_commit_witness :
  exists r s' s'' r', make_Reservation [sample_request] 0 true sample_cache = (Ok r, s') /\
    Reservation.Commit (s', r) = (Ok tt, (s'', r')) /\ commit_effect s' r s''.
Proof.
  assert (is_ok (make_Reservation [sample_request] 0 true sample_cache).1 = true) as Hok by (by vm_compute).
  destruct (make_Reservation [sample_request] 0 true sample_cache) as [[r|e| |] s'] eqn:Hrun; try discriminate Hok.
  destruct (reserve_then_commit [sample_request] 0 true sample_cache r s' sample_cache_ready Hrun) as (_ & _ & Hc).
  assert (is_ok (match make_Reservation [sample_request] 0 true sample_cache with
    | (Ok r, s') => (Reservation.Commit (s', r)).1 | _ => Undefined end) = true) as Hok2 by (by vm_compute).
  rewrite Hrun in Hok2. destruct (Reservation.Commit (s', r)) as [[[]|e| |] [s'' r']] eqn:Hcommit; try discriminate Hok2.
  exists r, s', s'', r'. split; [reflexivity|]. split; [exact Hcommit|]. exact (proj1 Hc).
Defined.
