(* ===== verification/EngineInvariants.v ===== *)
(** * The engine's invariant validator

    Models [engine/engine_invariants.{h,cpp}]: the immutable snapshots of requests, of
    the paged cache and of the fixed decoder state, and the checks that run on them.
    Each message is a constructor of [InvariantViolation]; the validators return the
    violations in the order the code reports them.  The counts of a snapshot are
    counts of objects in memory, so their sums are taken on naturals. *)

From S2P Require Import Prelude StepPlan.

Open Scope nat_scope.

(** ** Snapshots *)

Record RequestStateSnapshot : Type := mkRequestState
  { rs_request_id : N;
    rs_status : RequestStatus;
    rs_current_sequence_length : Z;
    rs_processed_sequence_length : Z;
    rs_is_prefill : bool;
    rs_has_current_turn : bool;
    rs_current_turn_id : N;
    rs_finish_reason : GenerationFinishReason;
    rs_matched_stop_string_index : Z }.

Record RequestBlockSnapshot : Type := mkRequestBlocks
  { rb_request_id : N;
    rb_block_ids : list nat;
    rb_used_slots : nat;
    rb_empty_slots : nat }.

Record RequestReservationSnapshot : Type := mkRequestReservation
  { rr_request_id : N;
    rr_committed_slots : nat;
    rr_target_slots : nat;
    rr_reserved_block_ids : list nat;
    rr_adopted_block_ids : list nat }.

Record CachedBlockSnapshot : Type := mkCachedBlock
  { cb_block_id : nat;
    cb_ref_count : nat;
    cb_used_slots : nat;
    cb_full : bool;
    cb_indexed : bool }.

Record WindowBlockPoolSnapshot : Type := mkWindowSnapshot
  { wb_total_blocks : nat;
    wb_free_blocks : nat;
    wb_blocks_per_request : nat;
    wb_requests : list RequestBlockSnapshot;
    wb_transaction_reserved_block_ids : list nat }.

Record PagedCacheSnapshot : Type := mkCacheSnapshot
  { cs_block_size : nat;
    cs_total_blocks : nat;
    cs_free_blocks : nat;
    cs_block_table_columns : nat;
    cs_requests : list RequestBlockSnapshot;
    cs_transaction_reserved_block_ids : list nat;
    cs_transaction_adopted_block_ids : list nat;
    cs_reservations : list RequestReservationSnapshot;
    cs_blocks : list CachedBlockSnapshot;
    cs_window_blocks : WindowBlockPoolSnapshot }.

Definition AllocatedBlocks (c : PagedCacheSnapshot) : nat := sum (length ∘ rb_block_ids <$> cs_requests c).
Definition TransactionReservedBlocks (c : PagedCacheSnapshot) : nat := length (cs_transaction_reserved_block_ids c).

Inductive FixedStateSlotOwnership : Type := SlotFree | SlotReserved | SlotCommitted.
#[global] Instance FixedStateSlotOwnership_eq_dec : EqDecision FixedStateSlotOwnership.
Proof. solve_decision. Defined.

Record FixedStateSlotSnapshot : Type := mkSlotSnapshot
  { fs_request_id : N;
    fs_slot : nat;
    fs_state_generation : N;
    fs_committed_tokens : nat;
    fs_ownership : FixedStateSlotOwnership }.

(** The fields of [FixedStatePoolSnapshot] the validator reads. *)
Record FixedStatePoolSnapshot : Type := mkFixedSnapshot
  { fx_capacity : nat;
    fx_free_slots : nat;
    fx_reserved_slots : nat;
    fx_committed_slots : nat;
    fx_healthy : bool;
    fx_slots : list FixedStateSlotSnapshot }.

Inductive InvariantViolation : Type :=
  | FreeExceedsTotal
  | BlocksDoNotAddUp
  | RequestInTwoTables (id : N)
  | BlockOutOfRange (id : N) (block : nat)
  | BlockRepeated (id : N) (block : nat)
  | BlockOwnedTwice (block : nat) (first second : N)
  | SlotsDoNotFill (id : N)
  | UsedExceedsCapacity (id : N)
  | ReservedOutOfRange (block : nat)
  | ReservedTwice (block : nat)
  | ReservedIsCommitted (block : nat)
  | AdoptedOutOfRange (block : nat)
  | RequestInTwoReservations (id : N)
  | TargetPrecedesCommitted (id : N)
  | NotTransactionReserved (id : N) (block : nat)
  | AssignedToTwoDeltas (block : nat)
  | NotTransactionAdopted (id : N) (block : nat)
  | ReservedWithoutDelta
  | PhysicalBlockInvalid (block : nat)
  | ReferenceCountMismatch (block actual expected : nat)
  | SharedBlockNotIndexed (block : nat)
  | BlockOverfull (block : nat)
  | RequestInTwoWindowTables (id : N)
  | WindowRingWrongSize (id : N) (actual : nat)
  | WindowBlockOutOfRange (id : N) (block : nat)
  | WindowBlockRepeated (block : nat)
  | WindowReservedOutOfRange (block : nat)
  | WindowReservedTwice (block : nat)
  | WindowReservedIsCommitted (block : nat)
  | WindowFreeExceedsTotal
  | WindowBlocksDoNotAddUp
  | ColumnsTooNarrow
  | NegativeLength (id : N)
  | ProcessedExceedsCurrent (id : N)
  | TurnIdZero (id : N)
  | StopStringWithoutIndex (id : N)
  | IndexWithoutStopString (id : N)
  | ExecutableWithoutTurn (id : N)
  | ExecutableFinished (id : N)
  | CompleteWithoutTurn (id : N)
  | CompleteWithoutReason (id : N)
  | CompleteWithInput (id : N)
  | FixedUnhealthy
  | FixedSlotsDoNotAddUp
  | FixedListingSize
  | FixedSlotInvalid (slot : nat)
  | FreeSlotRetainsState (slot : nat)
  | OwnedSlotWithoutRequest (slot : nat)
  | RequestOwnsTwoSlots (id : N)
  | FixedTotalsMismatch
  | UnknownRequest (id : N)
  | PagedWithoutFixed (id : N)
  | BoundariesDiffer (id : N)
  | RequestBoundaryDiffers (id : N)
  | FixedWithoutPaged (id : N).

Abbreviation violations := (list InvariantViolation) (only parsing).

(** [if (b) add(v);] *)
Definition add_if (b : bool) (v : InvariantViolation) : violations := if b then [v] else [].

(** ** [ValidateCacheInvariants] *)

(** The variables the loop over the block tables accumulates. *)
Record owners : Type := mkOwners
  { expected_references : gmap nat nat;
    owner_of_block : gmap nat N;
    seen_requests : gset N;
    max_blocks_per_request : nat }.

(** [++expected_references[block_id]] *)
Definition bump_reference (block : nat) (m : gmap nat nat) : gmap nat nat :=
  <[block := S (default 0 (m !! block))]> m.

(** The inner loop over the block ids of one request. *)
Fixpoint check_blocks (c : PagedCacheSnapshot) (id : N) (ids : list nat) (seen_within : gset nat) (o : owners) :
    violations * owners :=
  match ids with
  | [] => ([], o)
  | block :: ids =>
    let v1 := add_if (cs_total_blocks c <=? block) (BlockOutOfRange id block) in
    let v2 := add_if (bool_decide (block ∈ seen_within)) (BlockRepeated id block) in
    let v3 := match owner_of_block o !! block with
              | Some first => add_if (negb (first =? id)%N && bool_decide (cs_blocks c = [])) (BlockOwnedTwice block first id)
              | None => []
              end in
    let owner := match owner_of_block o !! block with Some _ => owner_of_block o | None => <[block := id]> (owner_of_block o) end in
    let '(vs, o') := check_blocks c id ids ({[block]} ∪ seen_within)
        (mkOwners (bump_reference block (expected_references o)) owner (seen_requests o) (max_blocks_per_request o)) in
    (v1 ++ v2 ++ v3 ++ vs, o')
  end.

Definition check_request (c : PagedCacheSnapshot) (r : RequestBlockSnapshot) (o : owners) : violations * owners :=
  let v1 := add_if (bool_decide (rb_request_id r ∈ seen_requests o)) (RequestInTwoTables (rb_request_id r)) in
  let '(v2, o') := check_blocks c (rb_request_id r) (rb_block_ids r) ∅
    (mkOwners (expected_references o) (owner_of_block o) ({[rb_request_id r]} ∪ seen_requests o)
       (max (max_blocks_per_request o) (length (rb_block_ids r)))) in
  let capacity := length (rb_block_ids r) * cs_block_size c in
  let v3 := if cs_block_size c =? 0 then []
            else add_if (negb (rb_used_slots r + rb_empty_slots r =? capacity)) (SlotsDoNotFill (rb_request_id r)) ++
                 add_if (capacity <? rb_used_slots r) (UsedExceedsCapacity (rb_request_id r)) in
  (v1 ++ v2 ++ v3, o').

Fixpoint check_requests (c : PagedCacheSnapshot) (l : list RequestBlockSnapshot) (o : owners) : violations * owners :=
  match l with
  | [] => ([], o)
  | r :: l => let '(v, o') := check_request c r o in let '(vs, o'') := check_requests c l o' in (v ++ vs, o'')
  end.

(** The loop over the reserved blocks. *)
Fixpoint check_reserved (c : PagedCacheSnapshot) (owner : gmap nat N) (ids : list nat) (reserved : gset nat)
    (refs : gmap nat nat) : violations * gset nat * gmap nat nat :=
  match ids with
  | [] => ([], reserved, refs)
  | block :: ids =>
    let v := add_if (cs_total_blocks c <=? block) (ReservedOutOfRange block) ++
             add_if (bool_decide (block ∈ reserved)) (ReservedTwice block) ++
             add_if (bool_decide (is_Some (owner !! block))) (ReservedIsCommitted block) in
    let '(vs, reserved', refs') := check_reserved c owner ids ({[block]} ∪ reserved) (bump_reference block refs) in
    (v ++ vs, reserved', refs')
  end.

Fixpoint check_adopted_ids (c : PagedCacheSnapshot) (ids : list nat) (adopted : gset nat) (refs : gmap nat nat) :
    violations * gset nat * gmap nat nat :=
  match ids with
  | [] => ([], adopted, refs)
  | block :: ids =>
    let '(vs, adopted', refs') := check_adopted_ids c ids ({[block]} ∪ adopted) (bump_reference block refs) in
    (add_if (cs_total_blocks c <=? block) (AdoptedOutOfRange block) ++ vs, adopted', refs')
  end.

Fixpoint check_delta_blocks (id : N) (reserved : gset nat) (ids : list nat) (assigned : gset nat) : violations * gset nat :=
  match ids with
  | [] => ([], assigned)
  | block :: ids =>
    let v := add_if (negb (bool_decide (block ∈ reserved))) (NotTransactionReserved id block) ++
             add_if (bool_decide (block ∈ assigned)) (AssignedToTwoDeltas block) in
    let '(vs, assigned') := check_delta_blocks id reserved ids ({[block]} ∪ assigned) in
    (v ++ vs, assigned')
  end.

Fixpoint check_reservations (reserved adopted : gset nat) (l : list RequestReservationSnapshot) (requests : gset N)
    (assigned : gset nat) : violations * gset nat :=
  match l with
  | [] => ([], assigned)
  | r :: l =>
    let v1 := add_if (bool_decide (rr_request_id r ∈ requests)) (RequestInTwoReservations (rr_request_id r)) ++
              add_if (rr_target_slots r <? rr_committed_slots r) (TargetPrecedesCommitted (rr_request_id r)) in
    let '(v2, assigned') := check_delta_blocks (rr_request_id r) reserved (rr_reserved_block_ids r) assigned in
    let v3 := rr_adopted_block_ids r ≫= fun block =>
                add_if (negb (bool_decide (block ∈ adopted))) (NotTransactionAdopted (rr_request_id r) block) in
    let '(vs, assigned'') := check_reservations reserved adopted l ({[rr_request_id r]} ∪ requests) assigned' in
    (v1 ++ v2 ++ v3 ++ vs, assigned'')
  end.

(** The loop over the physical blocks; [continue] skips the other checks. *)
Fixpoint check_physical (c : PagedCacheSnapshot) (refs : gmap nat nat) (l : list CachedBlockSnapshot) (seen : gset nat) : violations :=
  match l with
  | [] => []
  | b :: l =>
    if (cs_total_blocks c <=? cb_block_id b) then PhysicalBlockInvalid (cb_block_id b) :: check_physical c refs l seen
    else if bool_decide (cb_block_id b ∈ seen) then PhysicalBlockInvalid (cb_block_id b) :: check_physical c refs l seen
    else
      let references := default 0 (refs !! cb_block_id b) in
      let expected := references + (if cb_indexed b then 1 else 0) in
      add_if (negb (cb_ref_count b =? expected)) (ReferenceCountMismatch (cb_block_id b) (cb_ref_count b) expected) ++
      add_if ((1 <? references) && (negb (cb_full b) || negb (cb_indexed b))) (SharedBlockNotIndexed (cb_block_id b)) ++
      add_if (cs_block_size c <? cb_used_slots b) (BlockOverfull (cb_block_id b)) ++
      check_physical c refs l ({[cb_block_id b]} ∪ seen)
  end.

Fixpoint check_window_blocks (w : WindowBlockPoolSnapshot) (id : N) (ids : list nat) (owner : gset nat) : violations * gset nat :=
  match ids with
  | [] => ([], owner)
  | block :: ids =>
    let v := add_if (wb_total_blocks w <=? block) (WindowBlockOutOfRange id block) ++
             add_if (bool_decide (block ∈ owner)) (WindowBlockRepeated block) in
    let '(vs, owner') := check_window_blocks w id ids ({[block]} ∪ owner) in
    (v ++ vs, owner')
  end.

(** The keys of [window_owner_of_block]: its values are never read. *)
Fixpoint check_window_requests (w : WindowBlockPoolSnapshot) (l : list RequestBlockSnapshot) (requests : gset N)
    (owner : gset nat) : violations * gset nat :=
  match l with
  | [] => ([], owner)
  | r :: l =>
    let v1 := add_if (bool_decide (rb_request_id r ∈ requests)) (RequestInTwoWindowTables (rb_request_id r)) ++
              add_if (negb (length (rb_block_ids r) =? wb_blocks_per_request w))
                (WindowRingWrongSize (rb_request_id r) (length (rb_block_ids r))) in
    let '(v2, owner') := check_window_blocks w (rb_request_id r) (rb_block_ids r) owner in
    let '(vs, owner'') := check_window_requests w l ({[rb_request_id r]} ∪ requests) owner' in
    (v1 ++ v2 ++ vs, owner'')
  end.

Fixpoint check_window_reserved (w : WindowBlockPoolSnapshot) (owner : gset nat) (ids : list nat) (reserved : gset nat) :
    violations * gset nat :=
  match ids with
  | [] => ([], reserved)
  | block :: ids =>
    let v := add_if (wb_total_blocks w <=? block) (WindowReservedOutOfRange block) ++
             add_if (bool_decide (block ∈ reserved)) (WindowReservedTwice block) ++
             add_if (bool_decide (block ∈ owner)) (WindowReservedIsCommitted block) in
    let '(vs, reserved') := check_window_reserved w owner ids ({[block]} ∪ reserved) in
    (v ++ vs, reserved')
  end.

Definition check_window (w : WindowBlockPoolSnapshot) : violations :=
  let allocated := sum (length ∘ rb_block_ids <$> wb_requests w) in
  let '(v1, owner) := check_window_requests w (wb_requests w) ∅ ∅ in
  let '(v2, reserved) := check_window_reserved w owner (wb_transaction_reserved_block_ids w) ∅ in
  v1 ++ v2 ++ add_if (wb_total_blocks w <? wb_free_blocks w) WindowFreeExceedsTotal ++
  add_if (negb (wb_free_blocks w + allocated + size reserved =? wb_total_blocks w)) WindowBlocksDoNotAddUp.

Definition ValidateCacheInvariants (c : PagedCacheSnapshot) : violations :=
  let physical := if bool_decide (cs_blocks c = []) then TransactionReservedBlocks c + AllocatedBlocks c
                  else length (cs_blocks c) in
  let v1 := add_if (cs_total_blocks c <? cs_free_blocks c) FreeExceedsTotal ++
            add_if (negb (cs_free_blocks c + physical =? cs_total_blocks c)) BlocksDoNotAddUp in
  let '(v2, o) := check_requests c (cs_requests c) (mkOwners ∅ ∅ ∅ 0) in
  let '(v3, reserved, refs) :=
    check_reserved c (owner_of_block o) (cs_transaction_reserved_block_ids c) ∅ (expected_references o) in
  let '(v4, adopted, refs) := check_adopted_ids c (cs_transaction_adopted_block_ids c) ∅ refs in
  let '(v5, assigned) := check_reservations reserved adopted (cs_reservations c) ∅ ∅ in
  let v6 := add_if (negb (bool_decide (assigned = reserved))) ReservedWithoutDelta in
  let v7 := if bool_decide (cs_blocks c = []) then [] else check_physical c refs (cs_blocks c) ∅ in
  let v9 := add_if (negb (cs_block_table_columns c =? 0) && (cs_block_table_columns c <? max_blocks_per_request o))
              ColumnsTooNarrow in
  v1 ++ v2 ++ v3 ++ v4 ++ v5 ++ v6 ++ v7 ++ check_window (cs_window_blocks c) ++ v9.

(** ** The other validators *)

Definition ValidateRequestInvariants (r : RequestStateSnapshot) : violations :=
  let id := rs_request_id r in
  add_if ((rs_current_sequence_length r <? 0)%Z || (rs_processed_sequence_length r <? 0)%Z) (NegativeLength id) ++
  add_if (rs_current_sequence_length r <? rs_processed_sequence_length r)%Z (ProcessedExceedsCurrent id) ++
  add_if (rs_has_current_turn r && (rs_current_turn_id r =? 0)%N) (TurnIdZero id) ++
  (if bool_decide (rs_finish_reason r = StopString)
   then add_if (rs_matched_stop_string_index r <? 0)%Z (StopStringWithoutIndex id)
   else add_if (0 <=? rs_matched_stop_string_index r)%Z (IndexWithoutStopString id)) ++
  (if IsExecutable (rs_status r)
   then add_if (negb (rs_has_current_turn r)) (ExecutableWithoutTurn id) ++
        add_if (negb (bool_decide (rs_finish_reason r = FinishNone))) (ExecutableFinished id)
   else []) ++
  (if IsTurnComplete (rs_status r)
   then add_if (negb (rs_has_current_turn r)) (CompleteWithoutTurn id) ++
        add_if (bool_decide (rs_finish_reason r = FinishNone)) (CompleteWithoutReason id) ++
        add_if (rs_is_prefill r && negb (bool_decide (rs_finish_reason r = Canceled)) &&
                negb (bool_decide (rs_finish_reason r = Failed))) (CompleteWithInput id)
   else []).

(** The loop over the slots: the tallies and the sets it accumulates. *)
Record slot_tally : Type := mkTally
  { tally_free : nat;
    tally_reserved : nat;
    tally_committed : nat;
    tally_owners : gset N;
    tally_ids : gset nat }.

Definition check_slot (capacity : nat) (s : FixedStateSlotSnapshot) (t : slot_tally) : violations * slot_tally :=
  let invalid := (capacity <=? fs_slot s) || bool_decide (fs_slot s ∈ tally_ids t) in
  (* [||] skips the insertion of an out-of-range id *)
  let ids := if capacity <=? fs_slot s then tally_ids t else {[fs_slot s]} ∪ tally_ids t in
  let v1 := add_if invalid (FixedSlotInvalid (fs_slot s)) in
  match fs_ownership s with
  | SlotFree =>
    (v1 ++ add_if (negb (fs_request_id s =? 0)%N || negb (fs_state_generation s =? 0)%N || negb (fs_committed_tokens s =? 0))
             (FreeSlotRetainsState (fs_slot s)),
     mkTally (S (tally_free t)) (tally_reserved t) (tally_committed t) (tally_owners t) ids)
  | own =>
    let free_reserved := match own with SlotReserved => S (tally_reserved t) | _ => tally_reserved t end in
    let committed := match own with SlotCommitted => S (tally_committed t) | _ => tally_committed t end in
    if (fs_request_id s =? 0)%N
    then (v1 ++ [OwnedSlotWithoutRequest (fs_slot s)], mkTally (tally_free t) free_reserved committed (tally_owners t) ids)
    else (v1 ++ add_if (bool_decide (fs_request_id s ∈ tally_owners t)) (RequestOwnsTwoSlots (fs_request_id s)),
          mkTally (tally_free t) free_reserved committed ({[fs_request_id s]} ∪ tally_owners t) ids)
  end.

Fixpoint check_slots (capacity : nat) (l : list FixedStateSlotSnapshot) (t : slot_tally) : violations * slot_tally :=
  match l with
  | [] => ([], t)
  | s :: l => let '(v, t') := check_slot capacity s t in let '(vs, t'') := check_slots capacity l t' in (v ++ vs, t'')
  end.

Definition ValidateFixedStateInvariants (f : FixedStatePoolSnapshot) : violations :=
  let v1 := add_if (negb (fx_healthy f)) FixedUnhealthy ++
            add_if (negb (fx_free_slots f + fx_reserved_slots f + fx_committed_slots f =? fx_capacity f)) FixedSlotsDoNotAddUp ++
            add_if (negb (length (fx_slots f) =? fx_capacity f)) FixedListingSize in
  let '(v2, t) := check_slots (fx_capacity f) (fx_slots f) (mkTally 0 0 0 ∅ ∅) in
  v1 ++ v2 ++
  add_if (negb (tally_free t =? fx_free_slots f) || negb (tally_reserved t =? fx_reserved_slots f) ||
          negb (tally_committed t =? fx_committed_slots f)) FixedTotalsMismatch.

Definition ValidateInvariants (c : PagedCacheSnapshot) (requests : list RequestStateSnapshot) : violations :=
  ValidateCacheInvariants c ++ (requests ≫= ValidateRequestInvariants) ++
  (cs_requests c ≫= fun o => add_if (negb (bool_decide (rb_request_id o ∈ rs_request_id <$> requests)))
                               (UnknownRequest (rb_request_id o))).

(** [emplace] keeps the first of several entries of a key. *)
Definition committed_slot (f : FixedStatePoolSnapshot) (id : N) : option FixedStateSlotSnapshot :=
  List.find (fun s => bool_decide (fs_ownership s = SlotCommitted) && (fs_request_id s =? id)%N) (fx_slots f).
Definition request_state (requests : list RequestStateSnapshot) (id : N) : option RequestStateSnapshot :=
  List.find (fun r => (rs_request_id r =? id)%N) requests.

Definition check_paged_owner (f : FixedStatePoolSnapshot) (requests : list RequestStateSnapshot) (p : RequestBlockSnapshot) :
    violations :=
  let id := rb_request_id p in
  match committed_slot f id with
  | None => [PagedWithoutFixed id]
  | Some s =>
    add_if (negb (fs_committed_tokens s =? rb_used_slots p)) (BoundariesDiffer id) ++
    match request_state requests id with
    | Some r => add_if ((rs_processed_sequence_length r <? 0)%Z ||
                        negb (rs_processed_sequence_length r =? Z.of_nat (rb_used_slots p))%Z) (RequestBoundaryDiffers id)
    | None => []
    end
  end.

Definition ValidateCompositeStateInvariants (c : PagedCacheSnapshot) (f : FixedStatePoolSnapshot)
    (requests : list RequestStateSnapshot) : violations :=
  ValidateInvariants c requests ++ ValidateFixedStateInvariants f ++
  (cs_requests c ≫= check_paged_owner f requests) ++
  (fx_slots f ≫= fun s =>
     add_if (bool_decide (fs_ownership s = SlotCommitted) && negb (bool_decide (fs_request_id s ∈ rb_request_id <$> cs_requests c)))
       (FixedWithoutPaged (fs_request_id s))).

(** The throwing wrappers: the exception carries every violation. *)
Definition throw_unless_empty (v : violations) : outcome (list InvariantViolation) unit :=
  if bool_decide (v = []) then Ok tt else Throw v.

Definition ThrowIfInvariantsViolated (c : PagedCacheSnapshot) (requests : list RequestStateSnapshot) :=
  throw_unless_empty (ValidateInvariants c requests).
Definition ThrowIfCompositeStateInvariantsViolated (c : PagedCacheSnapshot) (f : FixedStatePoolSnapshot)
    (requests : list RequestStateSnapshot) :=
  throw_unless_empty (ValidateCompositeStateInvariants c f requests).

(** ** What the validators accept *)

Definition request_blocks (l : list RequestBlockSnapshot) : list nat := l ≫= rb_block_ids.

(** How often a block is held: by the tables, and by the running transaction. *)
Definition references (c : PagedCacheSnapshot) (block : nat) : nat :=
  occ block (request_blocks (cs_requests c) ++ cs_transaction_reserved_block_ids c ++ cs_transaction_adopted_block_ids c).

Record request_consistent (c : PagedCacheSnapshot) (r : RequestBlockSnapshot) : Prop := mk_request_consistent
  { rc_range : Forall (fun b => b < cs_total_blocks c) (rb_block_ids r);
    rc_NoDup : NoDup (rb_block_ids r);
    rc_slots : cs_block_size c <> 0 -> rb_used_slots r + rb_empty_slots r = length (rb_block_ids r) * cs_block_size c }.

Record block_consistent (c : PagedCacheSnapshot) (b : CachedBlockSnapshot) : Prop := mk_block_consistent
  { bc_range : cb_block_id b < cs_total_blocks c;
    bc_references : cb_ref_count b = references c (cb_block_id b) + (if cb_indexed b then 1 else 0);
    bc_shared : 1 < references c (cb_block_id b) -> cb_full b = true /\ cb_indexed b = true;
    bc_used : cb_used_slots b <= cs_block_size c }.

Record reservations_consistent (c : PagedCacheSnapshot) : Prop := mk_reservations_consistent
  { rv_requests : NoDup (rr_request_id <$> cs_reservations c);
    rv_targets : Forall (fun r => rr_committed_slots r <= rr_target_slots r) (cs_reservations c);
    rv_reserved : (cs_reservations c ≫= rr_reserved_block_ids) ≡ₚ cs_transaction_reserved_block_ids c;
    rv_adopted : Forall (fun b => b ∈ cs_transaction_adopted_block_ids c) (cs_reservations c ≫= rr_adopted_block_ids) }.

Record window_consistent (w : WindowBlockPoolSnapshot) : Prop := mk_window_consistent
  { wc_total : wb_free_blocks w + length (request_blocks (wb_requests w)) + length (wb_transaction_reserved_block_ids w) =
      wb_total_blocks w;
    wc_requests : NoDup (rb_request_id <$> wb_requests w);
    wc_rings : Forall (fun r => length (rb_block_ids r) = wb_blocks_per_request w) (wb_requests w);
    wc_range : Forall (fun b => b < wb_total_blocks w) (request_blocks (wb_requests w) ++ wb_transaction_reserved_block_ids w);
    wc_owned : NoDup (request_blocks (wb_requests w) ++ wb_transaction_reserved_block_ids w) }.

(** The accounting the validator is meant to enforce: free and physical blocks make up
    the pool; a request has one table, of distinct blocks whose slots fill its capacity;
    reserved blocks are private to the transaction and each belongs to one delta; the
    reference count of a physical block is exactly the number of its holders, and a
    block with several holders is a full indexed prefix block; window rings partition
    the window pool; the block table is wide enough. *)
Record cache_consistent (c : PagedCacheSnapshot) : Prop := mk_cache_consistent
  { cc_total : cs_free_blocks c + (if bool_decide (cs_blocks c = []) then TransactionReservedBlocks c + AllocatedBlocks c
                                   else length (cs_blocks c)) = cs_total_blocks c;
    cc_requests : NoDup (rb_request_id <$> cs_requests c);
    cc_tables : Forall (request_consistent c) (cs_requests c);
    cc_exclusive : cs_blocks c = [] -> NoDup (request_blocks (cs_requests c));
    cc_reserved : NoDup (cs_transaction_reserved_block_ids c);
    cc_private : forall b, b ∈ cs_transaction_reserved_block_ids c -> b ∉ request_blocks (cs_requests c);
    cc_transaction : Forall (fun b => b < cs_total_blocks c)
      (cs_transaction_reserved_block_ids c ++ cs_transaction_adopted_block_ids c);
    cc_reservations : reservations_consistent c;
    cc_physical : NoDup (cb_block_id <$> cs_blocks c);
    cc_blocks : Forall (block_consistent c) (cs_blocks c);
    cc_window : window_consistent (cs_window_blocks c);
    cc_columns : cs_block_table_columns c <> 0 ->
      Forall (fun r => length (rb_block_ids r) <= cs_block_table_columns c) (cs_requests c) }.

(** ** Loops *)

Lemma add_if_nil b v : add_if b v = [] <-> b = false.
Proof. by destruct b. Qed.

Lemma add_if_negb_nil b v : add_if (negb b) v = [] <-> b = true.
Proof. by destruct b. Qed.

Lemma bind_nil {A B} (f : A -> list B) l : l ≫= f = [] <-> Forall (fun x => f x = []) l.
Proof.
  induction l as [|x l IH]; cbn; [done|]. rewrite Forall_cons, <-IH.
  split; [by intros [? ?]%app_nil|by intros [-> ->]].
Qed.

Lemma bump_reference_lookup block m b :
  default 0 (bump_reference block m !! b) = (if decide (block = b) then 1 else 0) + default 0 (m !! b).
Proof. unfold bump_reference. case_decide as Hb; [subst; by rewrite lookup_insert_eq|by rewrite lookup_insert_ne]. Qed.

Lemma check_blocks_spec c id ids : forall seen o, let '(vs, o') := check_blocks c id ids seen o in
  (forall b, default 0 (expected_references o' !! b) = occ b ids + default 0 (expected_references o !! b)) /\
  (forall b, owner_of_block o' !! b =
     match owner_of_block o !! b with Some x => Some x | None => if decide (b ∈ ids) then Some id else None end) /\
  seen_requests o' = seen_requests o /\ max_blocks_per_request o' = max_blocks_per_request o /\
  (vs = [] <-> Forall (fun b => b < cs_total_blocks c) ids /\ NoDup ids /\ (forall b, b ∈ ids -> b ∉ seen) /\
     (forall b first, b ∈ ids -> owner_of_block o !! b = Some first -> first = id \/ cs_blocks c <> [])).
Proof.
  induction ids as [|block ids IH]; intros seen o; cbn [check_blocks].
  - split_and!; try done; [intros b; by destruct (_ !! b)|]. split; [|done]. intros _.
    split_and!; [done|apply NoDup_nil_2|by intros b ?%not_elem_of_nil|by intros b f ?%not_elem_of_nil].
  - match goal with |- context [check_blocks c id ids ?s ?o1] => specialize (IH s o1); destruct (check_blocks c id ids s o1) as [vs o'] end.
    cbn [expected_references owner_of_block seen_requests max_blocks_per_request] in IH.
    destruct IH as (Hr & Ho & Hs & Hm & Hv). split_and!; [| |done|done|].
    + intros b. rewrite Hr, bump_reference_lookup, occ_cons. lia.
    + intros b. rewrite Ho. destruct (owner_of_block o !! block) as [x|] eqn:Hb.
      * destruct (owner_of_block o !! b) eqn:Hb'; [done|]. destruct (decide (b = block)) as [->|Hne]; [congruence|].
        rewrite (decide_ext (b ∈ block :: ids) (b ∈ ids)); [done|]. rewrite elem_of_cons. naive_solver.
      * destruct (decide (b = block)) as [->|Hne].
        -- rewrite lookup_insert_eq, Hb, decide_True; [done|by left].
        -- rewrite lookup_insert_ne by done. destruct (owner_of_block o !! b); [done|].
           rewrite (decide_ext (b ∈ block :: ids) (b ∈ ids)); [done|]. rewrite elem_of_cons. naive_solver.
    + rewrite !app_nil, Hv, !add_if_nil, Nat.leb_gt, bool_decide_eq_false, Forall_cons, NoDup_cons.
      setoid_rewrite elem_of_cons. setoid_rewrite elem_of_union. setoid_rewrite elem_of_singleton.
      assert ((match owner_of_block o !! block with
               | Some first => add_if (negb (first =? id)%N && bool_decide (cs_blocks c = [])) (BlockOwnedTwice block first id)
               | None => [] end) = [] <->
              (forall first, owner_of_block o !! block = Some first -> first = id \/ cs_blocks c <> [])) as ->.
      { destruct (owner_of_block o !! block) as [x|]; [|naive_solver]. rewrite add_if_nil.
        destruct (N.eqb_spec x id), (bool_decide_reflect (cs_blocks c = [])); cbn; naive_solver. }
      destruct (owner_of_block o !! block) as [x|] eqn:Hb.
      * clear -Hb. naive_solver.
      * assert (forall b, <[block := id]> (owner_of_block o) !! b = if decide (b = block) then Some id else owner_of_block o !! b) as Hi.
        { intros b. case_decide as Hd; [subst; apply lookup_insert_eq|by apply lookup_insert_ne]. }
        setoid_rewrite Hi. split.
        -- intros (H1 & H2 & _ & H3 & H4 & H5 & H6). split_and!; try done; [naive_solver..|].
           intros b first [->|Hin] Hl; [congruence|]. apply (H6 b first Hin). by rewrite decide_False by (by intros ->; apply (H5 block Hin); left).
        -- intros ([H1 H2] & [H3 H4] & H5 & H6). split_and!; try done; [naive_solver..|].
           intros b first Hin. case_decide as Hd; [intros [= <-]; by left|]. naive_solver.
Qed.

Lemma check_request_spec c r o : let '(vs, o') := check_request c r o in
  (forall b, default 0 (expected_references o' !! b) = occ b (rb_block_ids r) + default 0 (expected_references o !! b)) /\
  (forall b, owner_of_block o' !! b =
     match owner_of_block o !! b with Some x => Some x | None => if decide (b ∈ rb_block_ids r) then Some (rb_request_id r) else None end) /\
  seen_requests o' = {[rb_request_id r]} ∪ seen_requests o /\
  max_blocks_per_request o' = max (max_blocks_per_request o) (length (rb_block_ids r)) /\
  (vs = [] <-> (rb_request_id r ∉ seen_requests o) /\ request_consistent c r /\
     (forall b first, b ∈ rb_block_ids r -> owner_of_block o !! b = Some first -> first = rb_request_id r \/ cs_blocks c <> [])).
Proof.
  unfold check_request.
  match goal with |- context [check_blocks c ?id ?ids ?s ?o1] =>
    pose proof (check_blocks_spec c id ids s o1) as Hb; destruct (check_blocks c id ids s o1) as [vs o'] end.
  cbn [expected_references owner_of_block seen_requests max_blocks_per_request] in Hb.
  destruct Hb as (Hr & Ho & Hs & Hm & Hv). split_and!; [done..|].
  rewrite !app_nil, Hv, !add_if_nil, bool_decide_eq_false.
  assert ((if cs_block_size c =? 0 then [] else
     add_if (negb (rb_used_slots r + rb_empty_slots r =? length (rb_block_ids r) * cs_block_size c)) (SlotsDoNotFill (rb_request_id r)) ++
     add_if (length (rb_block_ids r) * cs_block_size c <? rb_used_slots r) (UsedExceedsCapacity (rb_request_id r))) = [] <->
     (cs_block_size c <> 0 -> rb_used_slots r + rb_empty_slots r = length (rb_block_ids r) * cs_block_size c)) as ->.
  { destruct (Nat.eqb_spec (cs_block_size c) 0); [naive_solver|].
    rewrite app_nil, add_if_negb_nil, add_if_nil, Nat.eqb_eq, Nat.ltb_ge. naive_solver lia. }
  split; [|intros (? & [] & ?); split_and!; try done; intros b _; apply not_elem_of_empty].
  intros (? & (? & ? & _ & ?) & ?). by split_and!.
Qed.

Lemma check_requests_spec c l : forall o, (forall b first, owner_of_block o !! b = Some first -> first ∈ seen_requests o) ->
  let '(vs, o') := check_requests c l o in
  (forall b, default 0 (expected_references o' !! b) = occ b (request_blocks l) + default 0 (expected_references o !! b)) /\
  (forall b, is_Some (owner_of_block o' !! b) <-> is_Some (owner_of_block o !! b) \/ b ∈ request_blocks l) /\
  (forall n, max_blocks_per_request o' <= n <-> max_blocks_per_request o <= n /\ Forall (fun r => length (rb_block_ids r) <= n) l) /\
  (vs = [] <-> NoDup (rb_request_id <$> l) /\ (forall r, r ∈ l -> rb_request_id r ∉ seen_requests o) /\
     Forall (request_consistent c) l /\
     (cs_blocks c = [] -> NoDup (request_blocks l) /\ forall b, b ∈ request_blocks l -> owner_of_block o !! b = None)).
Proof.
  induction l as [|r l IH]; intros o Hown; cbn [check_requests].
  - split_and!; [done|intros b; unfold request_blocks; cbn; rewrite elem_of_nil; naive_solver|naive_solver|].
    split; [|done]. intros _. split_and!; [apply NoDup_nil_2|by intros r ?%not_elem_of_nil|done|].
    intros _. split; [apply NoDup_nil_2|by intros b ?%not_elem_of_nil].
  - pose proof (check_request_spec c r o) as Hreq. destruct (check_request c r o) as [v o1]. destruct Hreq as (Hr & Ho & Hs & Hm & Hv).
    specialize (IH o1). destruct (check_requests c l o1) as [vs o']. destruct IH as (Hr' & Ho' & Hm' & Hv').
    { intros b first. rewrite Ho, Hs. destruct (owner_of_block o !! b) eqn:Hb; [intros [= <-]; apply Hown in Hb; set_solver|].
      case_decide; [intros [= <-]; set_solver|done]. }
    assert (request_blocks (r :: l) = rb_block_ids r ++ request_blocks l) as Hcons by done. rewrite Hcons. split_and!.
    + intros b. rewrite Hr', Hr, occ_app. lia.
    + intros b. rewrite Ho', Ho, elem_of_app. destruct (owner_of_block o !! b); [naive_solver|]. case_decide; naive_solver.
    + intros n. rewrite Hm', Hm, Forall_cons. naive_solver lia.
    + rewrite app_nil, Hv, Hv', fmap_cons, NoDup_cons, Forall_cons, NoDup_app, Hs.
      setoid_rewrite elem_of_cons. setoid_rewrite elem_of_app. setoid_rewrite Ho. clear Hr' Ho' Hm' Hv' Hr Ho Hs Hm Hv.
      setoid_rewrite not_elem_of_union. setoid_rewrite not_elem_of_singleton.
      assert (rb_request_id r ∉ seen_requests o -> cs_blocks c = [] ->
        (forall b first, b ∈ rb_block_ids r -> owner_of_block o !! b = Some first -> first = rb_request_id r \/ cs_blocks c <> []) ->
        forall b, b ∈ rb_block_ids r -> owner_of_block o !! b = None) as Hfree.
      { intros Hn He Hall b Hb. destruct (owner_of_block o !! b) as [first|] eqn:Hl; [|done].
        destruct (Hall b first Hb Hl) as [->|]; [|done]. by apply Hown in Hl. }
      split.
      * intros ((Hn & Hrc & Hall) & Hnd & Hseen & Hl & Hex). split_and!; [|done| |done..|].
        -- intros (r' & Heq & Hin)%list_elem_of_fmap. by destruct (Hseen r' Hin) as [[] _].
        -- intros r' [->|Hr']; [done|by apply Hseen].
        -- intros He. destruct (Hex He) as [Hnd' Hex']. split_and!; [apply Hrc| |done|].
           ++ intros b Hb Hb'. specialize (Hex' b Hb'). rewrite decide_True in Hex' by done. by destruct (owner_of_block o !! b).
           ++ intros b [Hb|Hb]; [by apply Hfree|]. specialize (Hex' b Hb). by destruct (owner_of_block o !! b).
      * intros ([Hn Hnd] & Hseen & [Hrc Hl] & Hex). assert (rb_request_id r ∉ seen_requests o) by (by apply Hseen; left).
        split_and!; try done.
        -- intros b first Hb Hl'. destruct (decide (cs_blocks c = [])) as [He|]; [|by right]. destruct (Hex He) as [_ Hnone].
           rewrite (Hnone b) in Hl' by (by left). done.
        -- intros r' Hr'. split; [|by apply Hseen; right]. intros Heq. apply Hn. rewrite <-Heq. by apply list_elem_of_fmap_2.
        -- intros He. destruct (Hex He) as [(_ & Hdisj & Hnd') Hnone]. split; [done|]. intros b Hb. rewrite (Hnone b) by (by right).
           rewrite decide_False; [done|]. intros Hb'. by apply (Hdisj b).
Qed.

(** A loop that reports what it has seen before accepts exactly the duplicate-free
    continuations of what it has seen. *)
Lemma unseen_cons {A} `{Countable A} (x : A) l (seen : gset A) :
  (x ∉ seen) /\ (NoDup l /\ forall y, y ∈ l -> y ∉ {[x]} ∪ seen) <-> NoDup (x :: l) /\ forall y, y ∈ x :: l -> y ∉ seen.
Proof.
  rewrite NoDup_cons. setoid_rewrite elem_of_cons. split.
  - intros (Hx & Hnd & Hl). split_and!; [|done|].
    + intros Hin. apply (Hl x Hin). set_solver.
    + intros y [->|Hy]; [done|]. specialize (Hl y Hy). set_solver.
  - intros ([Hx Hnd] & Hl). split_and!; [by apply Hl; left|done|]. intros y Hy [->%elem_of_singleton|]%elem_of_union; [done|].
    by apply (Hl y); [right|].
Qed.

Lemma union_list_cons {A} `{Countable A} (x : A) l (seen : gset A) :
  list_to_set l ∪ ({[x]} ∪ seen) = list_to_set (x :: l) ∪ seen.
Proof. rewrite list_to_set_cons. set_solver. Qed.

Lemma check_reserved_spec c owner ids : forall reserved refs, let '(vs, reserved', refs') := check_reserved c owner ids reserved refs in
  reserved' = list_to_set ids ∪ reserved /\
  (forall b, default 0 (refs' !! b) = occ b ids + default 0 (refs !! b)) /\
  (vs = [] <-> Forall (fun b => b < cs_total_blocks c) ids /\ (NoDup ids /\ forall b, b ∈ ids -> b ∉ reserved) /\
     forall b, b ∈ ids -> owner !! b = None).
Proof.
  induction ids as [|block ids IH]; intros reserved refs; cbn [check_reserved].
  - split_and!; [set_solver|done|]. split; [|done]. intros _. split_and!; [done|apply NoDup_nil_2|set_solver..].
  - specialize (IH ({[block]} ∪ reserved) (bump_reference block refs)).
    destruct (check_reserved _ _ _ _ _) as [[vs reserved'] refs']. destruct IH as (Hs & Hr & Hv). split_and!.
    + by rewrite Hs, union_list_cons.
    + intros b. rewrite Hr, bump_reference_lookup, occ_cons. lia.
    + rewrite !app_nil, Hv, !add_if_nil, Nat.leb_gt, !bool_decide_eq_false, <-unseen_cons, Forall_cons, <-eq_None_not_Some.
      setoid_rewrite elem_of_cons. naive_solver.
Qed.

Lemma check_adopted_spec c ids : forall adopted refs, let '(vs, adopted', refs') := check_adopted_ids c ids adopted refs in
  adopted' = list_to_set ids ∪ adopted /\
  (forall b, default 0 (refs' !! b) = occ b ids + default 0 (refs !! b)) /\
  (vs = [] <-> Forall (fun b => b < cs_total_blocks c) ids).
Proof.
  induction ids as [|block ids IH]; intros adopted refs; cbn [check_adopted_ids].
  - split_and!; [set_solver|done|naive_solver].
  - specialize (IH ({[block]} ∪ adopted) (bump_reference block refs)).
    destruct (check_adopted_ids _ _ _ _) as [[vs adopted'] refs']. destruct IH as (Hs & Hr & Hv). split_and!.
    + by rewrite Hs, union_list_cons.
    + intros b. rewrite Hr, bump_reference_lookup, occ_cons. lia.
    + rewrite app_nil, Hv, add_if_nil, Nat.leb_gt, Forall_cons. done.
Qed.

Lemma check_delta_blocks_spec id reserved ids : forall assigned, let '(vs, assigned') := check_delta_blocks id reserved ids assigned in
  assigned' = list_to_set ids ∪ assigned /\
  (vs = [] <-> Forall (fun b => b ∈ reserved) ids /\ NoDup ids /\ forall b, b ∈ ids -> b ∉ assigned).
Proof.
  induction ids as [|block ids IH]; intros assigned; cbn [check_delta_blocks].
  - split; [set_solver|]. split; [|done]. intros _. split_and!; [done|apply NoDup_nil_2|set_solver].
  - specialize (IH ({[block]} ∪ assigned)). destruct (check_delta_blocks _ _ _ _) as [vs assigned']. destruct IH as (Hs & Hv). split.
    + by rewrite Hs, union_list_cons.
    + rewrite !app_nil, Hv, add_if_negb_nil, add_if_nil, bool_decide_eq_true, bool_decide_eq_false, <-unseen_cons, Forall_cons. naive_solver.
Qed.

Lemma check_reservations_spec reserved adopted l : forall requests assigned,
  let '(vs, assigned') := check_reservations reserved adopted l requests assigned in
  let blocks := l ≫= rr_reserved_block_ids in
  assigned' = list_to_set blocks ∪ assigned /\
  (vs = [] <-> (NoDup (rr_request_id <$> l) /\ forall id, id ∈ rr_request_id <$> l -> id ∉ requests) /\
     Forall (fun r => rr_committed_slots r <= rr_target_slots r) l /\
     Forall (fun b => b ∈ reserved) blocks /\ (NoDup blocks /\ forall b, b ∈ blocks -> b ∉ assigned) /\
     Forall (fun b => b ∈ adopted) (l ≫= rr_adopted_block_ids)).
Proof.
  induction l as [|r l IH]; intros requests assigned; cbn [check_reservations].
  - cbn. split; [set_solver|]. split; [|done]. intros _. split_and!; try apply NoDup_nil_2; try done; set_solver.
  - pose proof (check_delta_blocks_spec (rr_request_id r) reserved (rr_reserved_block_ids r) assigned) as Hd.
    destruct (check_delta_blocks _ _ _ _) as [v2 assigned1]. destruct Hd as (Hs1 & Hv1).
    specialize (IH ({[rr_request_id r]} ∪ requests) assigned1). destruct (check_reservations _ _ _ _ _) as [vs assigned'].
    destruct IH as (Hs & Hv). cbn zeta. set (blocks := l ≫= rr_reserved_block_ids) in *.
    assert ((r :: l) ≫= rr_reserved_block_ids = rr_reserved_block_ids r ++ blocks) as -> by done.
    assert ((r :: l) ≫= rr_adopted_block_ids = rr_adopted_block_ids r ++ (l ≫= rr_adopted_block_ids)) as -> by done. split.
    + rewrite Hs, Hs1, list_to_set_app_L. set_solver.
    + rewrite !app_nil, Hv, Hv1, bind_nil, !add_if_nil, bool_decide_eq_false, Nat.ltb_ge, fmap_cons, <-unseen_cons, !Forall_cons,
        !Forall_app, NoDup_app, Hs1.
      assert (Forall (fun b => add_if (negb (bool_decide (b ∈ adopted))) (NotTransactionAdopted (rr_request_id r) b) = []) (rr_adopted_block_ids r) <->
              Forall (fun b => b ∈ adopted) (rr_adopted_block_ids r)) as ->.
      { apply Forall_iff. intros b. by rewrite add_if_negb_nil, bool_decide_eq_true. }
      setoid_rewrite elem_of_app. setoid_rewrite not_elem_of_union. setoid_rewrite elem_of_list_to_set.
      clear -Hs1. naive_solver.
Qed.

Lemma check_physical_spec c refs l : forall seen, check_physical c refs l seen = [] <->
  Forall (fun b => cb_block_id b < cs_total_blocks c /\
    cb_ref_count b = default 0 (refs !! cb_block_id b) + (if cb_indexed b then 1 else 0) /\
    (1 < default 0 (refs !! cb_block_id b) -> cb_full b = true /\ cb_indexed b = true) /\
    cb_used_slots b <= cs_block_size c) l /\
  NoDup (cb_block_id <$> l) /\ forall id, id ∈ cb_block_id <$> l -> id ∉ seen.
Proof.
  induction l as [|b l IH]; intros seen; cbn [check_physical].
  - split; [|done]. intros _. split_and!; [done|apply NoDup_nil_2|set_solver].
  - rewrite Forall_cons, fmap_cons, <-unseen_cons.
    destruct (Nat.leb_spec (cs_total_blocks c) (cb_block_id b)); [split; [done|]; naive_solver lia|].
    case_bool_decide; [split; [done|]; naive_solver|]. cbn zeta.
    rewrite !app_nil, IH, add_if_negb_nil, !add_if_nil, Nat.eqb_eq, Nat.ltb_ge.
    destruct (Nat.ltb_spec 1 (default 0 (refs !! cb_block_id b))), (cb_full b), (cb_indexed b); cbn; naive_solver lia.
Qed.

Lemma check_window_blocks_spec w id ids : forall owner, let '(vs, owner') := check_window_blocks w id ids owner in
  owner' = list_to_set ids ∪ owner /\
  (vs = [] <-> Forall (fun b => b < wb_total_blocks w) ids /\ NoDup ids /\ forall b, b ∈ ids -> b ∉ owner).
Proof.
  induction ids as [|block ids IH]; intros owner; cbn [check_window_blocks].
  - split; [set_solver|]. split; [|done]. intros _. split_and!; [done|apply NoDup_nil_2|set_solver].
  - specialize (IH ({[block]} ∪ owner)). destruct (check_window_blocks _ _ _ _) as [vs owner']. destruct IH as (Hs & Hv). split.
    + by rewrite Hs, union_list_cons.
    + rewrite !app_nil, Hv, !add_if_nil, Nat.leb_gt, bool_decide_eq_false, <-unseen_cons, Forall_cons. naive_solver.
Qed.

Lemma check_window_requests_spec w l : forall requests owner, let '(vs, owner') := check_window_requests w l requests owner in
  owner' = list_to_set (request_blocks l) ∪ owner /\
  (vs = [] <-> (NoDup (rb_request_id <$> l) /\ forall id, id ∈ rb_request_id <$> l -> id ∉ requests) /\
     Forall (fun r => length (rb_block_ids r) = wb_blocks_per_request w) l /\
     Forall (fun b => b < wb_total_blocks w) (request_blocks l) /\
     NoDup (request_blocks l) /\ forall b, b ∈ request_blocks l -> b ∉ owner).
Proof.
  induction l as [|r l IH]; intros requests owner; cbn [check_window_requests].
  - cbn. split; [set_solver|]. split; [|done]. intros _. split_and!; try apply NoDup_nil_2; try done; set_solver.
  - pose proof (check_window_blocks_spec w (rb_request_id r) (rb_block_ids r) owner) as Hd.
    destruct (check_window_blocks _ _ _ _) as [v2 owner1]. destruct Hd as (Hs1 & Hv1).
    specialize (IH ({[rb_request_id r]} ∪ requests) owner1). destruct (check_window_requests _ _ _ _) as [vs owner'].
    destruct IH as (Hs & Hv). assert (request_blocks (r :: l) = rb_block_ids r ++ request_blocks l) as -> by done. split.
    + rewrite Hs, Hs1, list_to_set_app_L. set_solver.
    + rewrite !app_nil, Hv, Hv1, add_if_negb_nil, add_if_nil, bool_decide_eq_false, Nat.eqb_eq, fmap_cons, <-unseen_cons, !Forall_cons,
        !Forall_app, NoDup_app, Hs1.
      setoid_rewrite elem_of_app. setoid_rewrite not_elem_of_union. setoid_rewrite elem_of_list_to_set.
      clear -Hs1. naive_solver.
Qed.

Lemma check_window_reserved_spec w owner ids : forall reserved, let '(vs, reserved') := check_window_reserved w owner ids reserved in
  reserved' = list_to_set ids ∪ reserved /\
  (vs = [] <-> Forall (fun b => b < wb_total_blocks w) ids /\ (NoDup ids /\ forall b, b ∈ ids -> b ∉ reserved) /\
     forall b, b ∈ ids -> b ∉ owner).
Proof.
  induction ids as [|block ids IH]; intros reserved; cbn [check_window_reserved].
  - split; [set_solver|]. split; [|done]. intros _. split_and!; [done|apply NoDup_nil_2|set_solver..].
  - specialize (IH ({[block]} ∪ reserved)). destruct (check_window_reserved _ _ _ _) as [vs reserved']. destruct IH as (Hs & Hv). split.
    + by rewrite Hs, union_list_cons.
    + rewrite !app_nil, Hv, !add_if_nil, Nat.leb_gt, !bool_decide_eq_false, <-unseen_cons, Forall_cons.
      setoid_rewrite elem_of_cons. naive_solver.
Qed.

Lemma request_blocks_length l : sum (length ∘ rb_block_ids <$> l) = length (request_blocks l).
Proof.
  induction l as [|r l IH]; [done|]. assert (request_blocks (r :: l) = rb_block_ids r ++ request_blocks l) as -> by done.
  rewrite length_app, <-IH. done.
Qed.

Lemma check_window_exact w : check_window w = [] <-> window_consistent w.
Proof.
  unfold check_window.
  pose proof (check_window_requests_spec w (wb_requests w) ∅ ∅) as H1. destruct (check_window_requests _ _ _ _) as [v1 owner].
  destruct H1 as (Ho & H1).
  pose proof (check_window_reserved_spec w owner (wb_transaction_reserved_block_ids w) ∅) as H2.
  destruct (check_window_reserved _ _ _ _) as [v2 reserved]. destruct H2 as (Hr & H2).
  rewrite !app_nil, H1, H2, add_if_negb_nil, add_if_nil, Nat.ltb_ge, Nat.eqb_eq, request_blocks_length, Ho, Hr.
  setoid_rewrite not_elem_of_union. setoid_rewrite elem_of_list_to_set. rewrite union_empty_r_L. split.
  - intros (([Ha _] & Hb & Hc & Hd & _) & (He & [Hf _] & Hg) & _ & Hi). rewrite size_list_to_set in Hi by done.
    split; try done; [by apply Forall_app|]. apply NoDup_app. naive_solver.
  - intros [Ht Ha Hb Hc [Hd [He Hf]]%NoDup_app]. apply Forall_app in Hc as [Hc1 Hc2]. rewrite size_list_to_set by done.
    split_and!; try done; try lia; set_solver.
Qed.

(** ** The validator is exact *)

Lemma reservations_exact c reserved adopted : reserved = list_to_set (cs_transaction_reserved_block_ids c) ->
  adopted = list_to_set (cs_transaction_adopted_block_ids c) -> NoDup (cs_transaction_reserved_block_ids c) ->
  let '(vs, assigned) := check_reservations reserved adopted (cs_reservations c) ∅ ∅ in
  vs = [] /\ assigned = reserved <-> reservations_consistent c.
Proof.
  intros -> -> Hnd. pose proof (check_reservations_spec (list_to_set (cs_transaction_reserved_block_ids c))
    (list_to_set (cs_transaction_adopted_block_ids c)) (cs_reservations c) ∅ ∅) as H.
  destruct (check_reservations _ _ _ _ _) as [vs assigned]. destruct H as (-> & ->). rewrite union_empty_r_L. split.
  - intros (([Ha _] & Hb & Hc & [Hd _] & He) & Hs). split; [done..| |].
    + apply NoDup_Permutation; [done..|]. intros b.
      by rewrite <-(elem_of_list_to_set (C := gset nat)), Hs, elem_of_list_to_set.
    + eapply Forall_impl; [done|]. intros b. by rewrite elem_of_list_to_set.
  - intros [Ha Hb Hc Hd]. split_and!; try done; try set_solver.
    + apply Forall_forall. intros b Hb'. rewrite Hc in Hb'. by apply elem_of_list_to_set.
    + by rewrite Hc.
    + eapply Forall_impl; [done|]. intros b. by rewrite elem_of_list_to_set.
    + by rewrite Hc.
Qed.

Lemma ValidateCacheInvariants_exact c : ValidateCacheInvariants c = [] <-> cache_consistent c.
Proof.
  unfold ValidateCacheInvariants.
  pose proof (check_requests_spec c (cs_requests c) (mkOwners ∅ ∅ ∅ 0)) as H2.
  destruct (check_requests _ _ _) as [v2 o]. cbn [expected_references owner_of_block seen_requests max_blocks_per_request] in H2. destruct H2 as (Hr2 & Ho2 & Hm2 & H2); [done|].
  pose proof (check_reserved_spec c (owner_of_block o) (cs_transaction_reserved_block_ids c) ∅ (expected_references o)) as H3.
  destruct (check_reserved _ _ _ _ _) as [[v3 reserved] refs]. destruct H3 as (Hs3 & Hr3 & H3).
  pose proof (check_adopted_spec c (cs_transaction_adopted_block_ids c) ∅ refs) as H4.
  destruct (check_adopted_ids _ _ _ _) as [[v4 adopted] refs']. destruct H4 as (Hs4 & Hr4 & H4).
  rewrite union_empty_r_L in Hs3, Hs4.
  assert (forall b, default 0 (refs' !! b) = references c b) as Hrefs.
  { intros b. unfold references. rewrite Hr4, Hr3, Hr2, !occ_app, lookup_empty. cbn [default from_option]. lia. }
  pose proof (reservations_exact c reserved adopted Hs3 Hs4) as H5. destruct (check_reservations _ _ _ _ _) as [v5 assigned].
  assert ((if bool_decide (cs_blocks c = []) then [] else check_physical c refs' (cs_blocks c) ∅) = [] <->
    NoDup (cb_block_id <$> cs_blocks c) /\ Forall (block_consistent c) (cs_blocks c)) as Hphys.
  { assert (forall b, block_consistent c b <-> cb_block_id b < cs_total_blocks c /\
      cb_ref_count b = default 0 (refs' !! cb_block_id b) + (if cb_indexed b then 1 else 0) /\
      (1 < default 0 (refs' !! cb_block_id b) -> cb_full b = true /\ cb_indexed b = true) /\
      cb_used_slots b <= cs_block_size c) as Hb by (intros b; rewrite Hrefs; split; [by intros []|by intros (? & ? & ? & ?)]).
    rewrite (Forall_iff _ _ _ Hb). case_bool_decide as He; [rewrite He; split; [|done]; split; [apply NoDup_nil_2|done]|].
    rewrite check_physical_spec. set_solver. }
  rewrite !app_nil, H2, H3, H4, Hphys, check_window_exact, !add_if_negb_nil, !add_if_nil, Nat.ltb_ge, Nat.eqb_eq, bool_decide_eq_true.
  assert (negb (cs_block_table_columns c =? 0) && (cs_block_table_columns c <? max_blocks_per_request o) = false <->
    (cs_block_table_columns c <> 0 -> Forall (fun r => length (rb_block_ids r) <= cs_block_table_columns c) (cs_requests c))) as ->.
  { specialize (Hm2 (cs_block_table_columns c)). destruct (Nat.eqb_spec (cs_block_table_columns c) 0); cbn [negb andb]; [naive_solver|].
    rewrite Nat.ltb_ge, Hm2. naive_solver lia. }
  assert (forall b, owner_of_block o !! b = None <-> b ∉ request_blocks (cs_requests c)) as Hown.
  { intros b. rewrite eq_None_not_Some, Ho2, lookup_empty. split; [naive_solver|]. intros Hn [[? ?]|?]; done. }
  setoid_rewrite Hown. split.
  - intros ([_ Ht] & (Hnd & _ & Htab & Hex) & (Hrg & [Hrnd _] & Hpriv) & Hadr & Hv5 & Has & [Hp Hb] & Hw & Hc).
    destruct (proj1 (H5 Hrnd) (conj Hv5 Has)). split; try done; [naive_solver|by apply Forall_app].
  - intros [Ht Hnd Htab Hex Hrnd Hpriv [Hrg Hadr]%Forall_app Hres Hp Hb Hw Hc]. apply (H5 Hrnd) in Hres as [-> ->].
    split_and!; try done; try lia.
    intros He. split; [by apply Hex|]. intros b _. apply lookup_empty.
Qed.

Definition count_owned (own : FixedStateSlotOwnership) (l : list FixedStateSlotSnapshot) : nat :=
  length (filter (fun s => fs_ownership s = own) l).

Definition owned_slots (l : list FixedStateSlotSnapshot) : list FixedStateSlotSnapshot :=
  filter (fun s => fs_ownership s <> SlotFree) l.

(** The slot listing is a partition of the pool; a free slot is clean, and an owned slot
    belongs to one request, which owns no other. *)
Record fixed_consistent (f : FixedStatePoolSnapshot) : Prop := mk_fixed_consistent
  { fc_healthy : fx_healthy f = true;
    fc_capacity : length (fx_slots f) = fx_capacity f;
    fc_range : Forall (fun s => fs_slot s < fx_capacity f) (fx_slots f);
    fc_slots : NoDup (fs_slot <$> fx_slots f);
    fc_clean : Forall (fun s => fs_ownership s = SlotFree ->
      fs_request_id s = 0%N /\ fs_state_generation s = 0%N /\ fs_committed_tokens s = 0) (fx_slots f);
    fc_named : Forall (fun s => fs_request_id s <> 0%N) (owned_slots (fx_slots f));
    fc_owners : NoDup (fs_request_id <$> owned_slots (fx_slots f));
    fc_free : count_owned SlotFree (fx_slots f) = fx_free_slots f;
    fc_reserved : count_owned SlotReserved (fx_slots f) = fx_reserved_slots f;
    fc_committed : count_owned SlotCommitted (fx_slots f) = fx_committed_slots f }.

Lemma count_owned_cons own s l :
  count_owned own (s :: l) = (if bool_decide (fs_ownership s = own) then 1 else 0) + count_owned own l.
Proof. unfold count_owned. rewrite filter_cons. by case_decide; case_bool_decide. Qed.

Lemma owned_slots_cons s l :
  owned_slots (s :: l) = if bool_decide (fs_ownership s = SlotFree) then owned_slots l else s :: owned_slots l.
Proof. unfold owned_slots. rewrite filter_cons. by case_decide; case_bool_decide. Qed.

Lemma count_owned_total l : count_owned SlotFree l + count_owned SlotReserved l + count_owned SlotCommitted l = length l.
Proof. induction l as [|s l IH]; [done|]. rewrite !count_owned_cons. cbn [length]. destruct (fs_ownership s); repeat case_bool_decide; done || lia. Qed.

Lemma check_slots_spec capacity l : forall t, let '(vs, t') := check_slots capacity l t in
  tally_free t' = count_owned SlotFree l + tally_free t /\
  tally_reserved t' = count_owned SlotReserved l + tally_reserved t /\
  tally_committed t' = count_owned SlotCommitted l + tally_committed t /\
  (vs = [] <-> Forall (fun s => fs_slot s < capacity) l /\ (NoDup (fs_slot <$> l) /\ forall x, x ∈ fs_slot <$> l -> x ∉ tally_ids t) /\
     Forall (fun s => fs_ownership s = SlotFree -> fs_request_id s = 0%N /\ fs_state_generation s = 0%N /\ fs_committed_tokens s = 0) l /\
     Forall (fun s => fs_request_id s <> 0%N) (owned_slots l) /\
     NoDup (fs_request_id <$> owned_slots l) /\ forall x, x ∈ fs_request_id <$> owned_slots l -> x ∉ tally_owners t).
Proof.
  induction l as [|s l IH]; intros t; cbn [check_slots].
  - split_and!; [done..|]. split; [|done]. intros _. split_and!; try apply NoDup_nil_2; try done; set_solver.
  - unfold check_slot. rewrite !count_owned_cons, owned_slots_cons.
    set (ids := if capacity <=? fs_slot s then tally_ids t else {[fs_slot s]} ∪ tally_ids t).
    set (bad := (capacity <=? fs_slot s) || bool_decide (fs_slot s ∈ tally_ids t)).
    assert (forall l', bad = false /\ (NoDup (fs_slot <$> l') /\ forall x, x ∈ fs_slot <$> l' -> x ∉ ids) <->
      fs_slot s < capacity /\ (NoDup (fs_slot s :: (fs_slot <$> l')) /\ forall x, x ∈ fs_slot s :: (fs_slot <$> l') -> x ∉ tally_ids t)) as Hids.
    { intros l'. unfold bad, ids. rewrite <-unseen_cons. destruct (Nat.leb_spec capacity (fs_slot s)); cbn [orb];
        [split; [intros [? _]; done|intros [? _]; lia]|]. rewrite bool_decide_eq_false. naive_solver. }
    specialize (Hids l). destruct (fs_ownership s) eqn:Hs; cbn zeta; destruct (N.eqb_spec (fs_request_id s) 0) as [Hz|Hz];
      match goal with |- context [check_slots capacity l ?t1] => specialize (IH t1); destruct (check_slots capacity l t1) as [vs t'] end;
      cbn [tally_free tally_reserved tally_committed tally_owners tally_ids] in IH; destruct IH as (H1 & H2 & H3 & H4); cbn match in H1, H2, H3;
      (split_and!; [repeat case_bool_decide; done || lia..|]);
      rewrite ?bool_decide_eq_true_2, ?(bool_decide_eq_false_2 (_ = SlotFree)), ?app_nil, H4, ?add_if_nil, ?fmap_cons, !Forall_cons by (done || by rewrite Hs).
    + destruct (N.eqb_spec (fs_state_generation s) 0), (Nat.eqb_spec (fs_committed_tokens s) 0); cbn [negb orb]; naive_solver.
    + cbn [negb orb]. naive_solver.
    + naive_solver.
    + assert (fs_ownership s = SlotFree -> fs_request_id s = 0%N /\ fs_state_generation s = 0%N /\ fs_committed_tokens s = 0) as Hc by congruence.
      rewrite bool_decide_eq_false, <-(unseen_cons (fs_request_id s)). clear H1 H2 H3 H4. tauto.
    + naive_solver.
    + assert (fs_ownership s = SlotFree -> fs_request_id s = 0%N /\ fs_state_generation s = 0%N /\ fs_committed_tokens s = 0) as Hc by congruence.
      rewrite bool_decide_eq_false, <-(unseen_cons (fs_request_id s)). clear H1 H2 H3 H4. tauto.
Qed.

Lemma ValidateFixedStateInvariants_exact f : ValidateFixedStateInvariants f = [] <-> fixed_consistent f.
Proof.
  unfold ValidateFixedStateInvariants. pose proof (check_slots_spec (fx_capacity f) (fx_slots f) (mkTally 0 0 0 ∅ ∅)) as H.
  destruct (check_slots _ _ _) as [v t]. destruct H as (H1 & H2 & H3 & H4). cbn [tally_free tally_reserved tally_committed] in H1, H2, H3.
  pose proof (count_owned_total (fx_slots f)) as Ht.
  rewrite !app_nil, H4, !add_if_negb_nil, !add_if_nil, !orb_false_iff, !negb_false_iff, !Nat.eqb_eq. split.
  - intros ((Hh & _ & Hl) & (Hr & [Hs _] & Hc & Hn & Ho & _) & [Hf Hres] & Hcm). split; try done; lia.
  - intros [Hh Hl Hr Hs Hc Hn Ho Hf Hres Hcm]. split_and!; try done; try lia; intros x _; apply not_elem_of_empty.
Qed.

(** A request's counters, turn and outcome fit its status. *)
Record request_state_consistent (r : RequestStateSnapshot) : Prop := mk_request_state_consistent
  { sc_lengths : (0 <= rs_processed_sequence_length r <= rs_current_sequence_length r)%Z;
    sc_turn : rs_has_current_turn r = true -> rs_current_turn_id r <> 0%N;
    sc_stop : rs_finish_reason r = StopString <-> (0 <= rs_matched_stop_string_index r)%Z;
    sc_executable : IsExecutable (rs_status r) = true -> rs_has_current_turn r = true /\ rs_finish_reason r = FinishNone;
    sc_complete : rs_status r = TurnComplete -> rs_has_current_turn r = true /\ rs_finish_reason r <> FinishNone /\
      (rs_is_prefill r = true -> rs_finish_reason r = Canceled \/ rs_finish_reason r = Failed) }.

Lemma ValidateRequestInvariants_exact r : ValidateRequestInvariants r = [] <-> request_state_consistent r.
Proof.
  unfold ValidateRequestInvariants, IsTurnComplete.
  rewrite !app_nil, !add_if_nil, orb_false_iff, !Z.ltb_ge, andb_false_iff, N.eqb_neq.
  assert ((if bool_decide (rs_finish_reason r = StopString)
           then add_if (rs_matched_stop_string_index r <? 0)%Z (StopStringWithoutIndex (rs_request_id r))
           else add_if (0 <=? rs_matched_stop_string_index r)%Z (IndexWithoutStopString (rs_request_id r))) = [] <->
          (rs_finish_reason r = StopString <-> (0 <= rs_matched_stop_string_index r)%Z)) as ->.
  { case_bool_decide; rewrite add_if_nil, ?Z.ltb_ge, ?Z.leb_gt; [naive_solver|]. split; [intros ?; split; [done|lia]|].
    intros Hi. destruct (Z.lt_ge_cases (rs_matched_stop_string_index r) 0) as [|Hge]; [done|]. by apply Hi in Hge. }
  assert ((if IsExecutable (rs_status r)
           then add_if (negb (rs_has_current_turn r)) (ExecutableWithoutTurn (rs_request_id r)) ++
                add_if (negb (bool_decide (rs_finish_reason r = FinishNone))) (ExecutableFinished (rs_request_id r)) else []) = [] <->
          (IsExecutable (rs_status r) = true -> rs_has_current_turn r = true /\ rs_finish_reason r = FinishNone)) as ->.
  { destruct (IsExecutable _); [|naive_solver]. rewrite app_nil, !add_if_negb_nil, bool_decide_eq_true. naive_solver. }
  assert ((if bool_decide (rs_status r = TurnComplete)
           then add_if (negb (rs_has_current_turn r)) (CompleteWithoutTurn (rs_request_id r)) ++
                add_if (bool_decide (rs_finish_reason r = FinishNone)) (CompleteWithoutReason (rs_request_id r)) ++
                add_if (rs_is_prefill r && negb (bool_decide (rs_finish_reason r = Canceled)) && negb (bool_decide (rs_finish_reason r = Failed)))
                  (CompleteWithInput (rs_request_id r)) else []) = [] <->
          (rs_status r = TurnComplete -> rs_has_current_turn r = true /\ rs_finish_reason r <> FinishNone /\
            (rs_is_prefill r = true -> rs_finish_reason r = Canceled \/ rs_finish_reason r = Failed))) as ->.
  { case_bool_decide; [|naive_solver]. rewrite !app_nil, add_if_negb_nil, !add_if_nil, bool_decide_eq_false.
    destruct (rs_is_prefill r); [|naive_solver]. do 2 case_bool_decide; cbn [negb andb]; naive_solver. }
  split; [intros (? & ? & Ht & ? & ? & ?)|intros [? Ht ? ? ?]; split_and!; try done; try lia; destruct (rs_has_current_turn r); naive_solver].
  split; try done; [lia|]. intros Htr. destruct Ht as [Hf|]; [congruence|done].
Qed.

(** The paged cache and the fixed decoder state agree: the same requests are committed
    in both, at one token boundary, which is also the request's own. *)
Record stores_agree (c : PagedCacheSnapshot) (f : FixedStatePoolSnapshot) (requests : list RequestStateSnapshot) : Prop :=
  mk_stores_agree
  { sa_paged : forall p, p ∈ cs_requests c -> exists s, s ∈ fx_slots f /\ fs_ownership s = SlotCommitted /\
      fs_request_id s = rb_request_id p /\ fs_committed_tokens s = rb_used_slots p;
    sa_request : forall p r, p ∈ cs_requests c -> request_state requests (rb_request_id p) = Some r ->
      rs_processed_sequence_length r = Z.of_nat (rb_used_slots p);
    sa_fixed : forall s, s ∈ fx_slots f -> fs_ownership s = SlotCommitted -> fs_request_id s ∈ rb_request_id <$> cs_requests c }.

Lemma committed_slot_spec f id s : fixed_consistent f ->
  committed_slot f id = Some s <-> s ∈ fx_slots f /\ fs_ownership s = SlotCommitted /\ fs_request_id s = id.
Proof.
  intros Hf. pose proof (fc_owners _ Hf) as Hnd. unfold committed_slot. split.
  - intros [Hin Hb]%find_some. apply andb_true_iff in Hb as [Ho%bool_decide_eq_true Hid%N.eqb_eq].
    by apply list_elem_of_In in Hin.
  - intros (Hin & Ho & <-). destruct (List.find _ _) as [s'|] eqn:Hs.
    + apply find_some in Hs as [Hin' Hb]. apply andb_true_iff in Hb as [Ho'%bool_decide_eq_true Hid%N.eqb_eq].
      f_equal. apply list_elem_of_In in Hin'.
      assert (forall x, x ∈ fx_slots f -> fs_ownership x = SlotCommitted -> exists i, owned_slots (fx_slots f) !! i = Some x) as Hown.
      { intros x Hx Hc. apply list_elem_of_lookup. apply list_elem_of_filter. rewrite Hc. done. }
      destruct (Hown _ Hin Ho) as [i Hi], (Hown _ Hin' Ho') as [j Hj]. assert (j = i) as ->; [|congruence].
      eapply NoDup_lookup; [done| |]; rewrite list_lookup_fmap; [by rewrite Hj|rewrite Hi; cbn; by rewrite Hid].
    + apply list_elem_of_In, (find_none _ _ Hs) in Hin. by rewrite Ho, N.eqb_refl, bool_decide_eq_true_2 in Hin.
Qed.

Lemma check_owners_exact c f requests : fixed_consistent f ->
  (cs_requests c ≫= check_paged_owner f requests) = [] /\
  (fx_slots f ≫= fun s =>
     add_if (bool_decide (fs_ownership s = SlotCommitted) && negb (bool_decide (fs_request_id s ∈ rb_request_id <$> cs_requests c)))
       (FixedWithoutPaged (fs_request_id s))) = [] <-> stores_agree c f requests.
Proof.
  intros Hf. rewrite !bind_nil, !Forall_forall.
  assert (forall p, check_paged_owner f requests p = [] <->
    (exists s, s ∈ fx_slots f /\ fs_ownership s = SlotCommitted /\ fs_request_id s = rb_request_id p /\ fs_committed_tokens s = rb_used_slots p) /\
    forall r, request_state requests (rb_request_id p) = Some r -> rs_processed_sequence_length r = Z.of_nat (rb_used_slots p)) as Hp.
  { intros p. unfold check_paged_owner. destruct (committed_slot f (rb_request_id p)) as [s|] eqn:Hs.
    - rewrite app_nil, add_if_negb_nil, Nat.eqb_eq. pose proof (proj1 (committed_slot_spec f _ s Hf) Hs) as (Hin & Ho & Hid).
      assert (match request_state requests (rb_request_id p) with
        | Some r => add_if ((rs_processed_sequence_length r <? 0)%Z || negb (rs_processed_sequence_length r =? Z.of_nat (rb_used_slots p))%Z)
                      (RequestBoundaryDiffers (rb_request_id p))
        | None => [] end = [] <-> forall r, request_state requests (rb_request_id p) = Some r ->
          rs_processed_sequence_length r = Z.of_nat (rb_used_slots p)) as ->.
      { destruct (request_state _ _) as [r|]; [|naive_solver]. rewrite add_if_nil, orb_false_iff, negb_false_iff, Z.eqb_eq, Z.ltb_ge.
        naive_solver lia. }
      split; [intros [? ?]; eauto 10|]. intros [(s' & Hin' & Ho' & Hid' & Ht) ?]. split; [|done].
      assert (committed_slot f (rb_request_id p) = Some s') by (by apply committed_slot_spec). congruence.
    - split; [done|]. intros [(s & Hin & Ho & Hid & _) _].
      assert (committed_slot f (rb_request_id p) = Some s) by (by apply committed_slot_spec). congruence. }
  setoid_rewrite Hp. setoid_rewrite add_if_nil. split.
  - intros [H1 H2]. split; [naive_solver|naive_solver|]. intros s Hin Ho. specialize (H2 s Hin).
    rewrite bool_decide_eq_true_2 in H2 by done. by case_bool_decide.
  - intros [H1 H2 H3]. split; [naive_solver|]. intros s Hin. case_bool_decide; [|done]. rewrite bool_decide_eq_true_2; [done|by apply H3].
Qed.

(** C12: the invariant validator is exact.  The composite check of the engine throws
    unless, and only unless, the snapshots describe a consistent engine: the block pool
    adds up and every block's reference count is the number of its holders, no request
    has two tables, transaction blocks are private and each belongs to one delta, window
    rings partition their pool, every request's counters, turn and finish reason fit its
    status, the fixed-state slots partition their pool with one owner each, only known
    requests own blocks, and both stores hold the same requests at the same token
    boundary. *)
Theorem composite_validator_exact c f requests :
  ThrowIfCompositeStateInvariantsViolated c f requests = Ok tt <->
  cache_consistent c /\ Forall request_state_consistent requests /\
  Forall (fun p => rb_request_id p ∈ rs_request_id <$> requests) (cs_requests c) /\
  fixed_consistent f /\ stores_agree c f requests.
Proof.
  unfold ThrowIfCompositeStateInvariantsViolated, throw_unless_empty.
  transitivity (ValidateCompositeStateInvariants c f requests = []); [by case_bool_decide|].
  unfold ValidateCompositeStateInvariants, ValidateInvariants.
  rewrite !app_nil, ValidateCacheInvariants_exact, ValidateFixedStateInvariants_exact, (bind_nil ValidateRequestInvariants),
    (Forall_iff _ _ _ ValidateRequestInvariants_exact).
  assert (forall A B C D E F, (A /\ B /\ C) /\ D /\ E /\ F <-> A /\ B /\ C /\ D /\ (E /\ F)) as -> by tauto.
  rewrite bind_nil. setoid_rewrite add_if_negb_nil. setoid_rewrite bool_decide_eq_true.
  split; intros (H1 & H2 & H3 & Hf & H4); repeat (split; [done|]); by apply (check_owners_exact c f requests Hf).
Qed.
