(* ===== verification/PagedCache.v ===== *)
(** * The paged key-value cache

    Models the accounting of [engine/paged_key_value_cache.{h,cpp}]: the memory budget,
    admission, growth and removal of requests, the sealing of committed blocks into the
    prefix cache, checkpoints, block tables and snapshots.  The cache composes the block
    pools, the request index, the reservation and the prefix cache of the other files;
    its state is the [cache_state] a reservation acts on, with the prefix cache as the
    observer of the full-attention pool.

    Device tensors are not modelled: a block table is the list of [int32] the code
    writes.  [assert]s are compiled out of a release build and are not steps here. *)

From S2P Require Import Prelude PagedPlanner BlockPool RequestIndex Positions PrefixCache PrefixCacheProofs Reservation EngineInvariants.
From Stdlib Require Import SpecFloat.

Open Scope nat_scope.

(** ** The memory budget *)

Inductive BudgetError : Type :=
  | ZeroBytesPerBlock | BudgetBelowReserved | BytesPerBlockOverflow | TooManyBlocks | TooFewBlocks.

Definition float32_of_N (n : N) : spec_float := binary_normalize 24 128 (Z.of_N n) 0 false.

(** [0.9f] *)
Definition memory_fragmentation_factor : spec_float := S754_finite false 15099494 (-24).

(** The conversion of a [float] to [size_t] truncates; out of range it is undefined. *)
Definition size_of_float (x : spec_float) : option N :=
  match x with
  | S754_zero _ => Some 0%N
  | S754_finite sign m e =>
    let z := (match e with Zneg p => Z.pos m / 2 ^ Z.pos p | _ => Z.pos m * 2 ^ e end)%Z in
    if sign then if (z =? 0)%Z then Some 0%N else None
    else if (z <? Z.of_N two64)%Z then Some (Z.to_N z) else None
  | _ => None
  end.

Definition PagedCacheMemoryBudget (available_memory_bytes : N) (gpu_utilization_factor : spec_float) : option N :=
  size_of_float (SFmul 24 128 (SFmul 24 128 (float32_of_N available_memory_bytes) memory_fragmentation_factor)
                   gpu_utilization_factor).

Definition ComputePagedBlockCapacityFromBytes (available_memory_bytes : N) (gpu_utilization_factor : spec_float)
    (reserved_memory_bytes primary_bytes_per_block auxiliary_bytes_per_block : N) : outcome BudgetError N :=
  if (primary_bytes_per_block =? 0)%N then Throw ZeroBytesPerBlock
  else
    match PagedCacheMemoryBudget available_memory_bytes gpu_utilization_factor with
    | None => Undefined
    | Some budget =>
      if (budget <=? reserved_memory_bytes)%N then Throw BudgetBelowReserved
      else if (size_max - primary_bytes_per_block <? auxiliary_bytes_per_block)%N then Throw BytesPerBlockOverflow
      else Ok ((budget - reserved_memory_bytes) / (primary_bytes_per_block + auxiliary_bytes_per_block))%N
    end.

Definition ResolveConfiguredPagedBlockCount (configured_num_blocks primary_bytes_per_block auxiliary_bytes_per_block
    auxiliary_reserved_memory_bytes : N) : outcome BudgetError N :=
  if (primary_bytes_per_block =? 0)%N then Throw ZeroBytesPerBlock
  else if (auxiliary_bytes_per_block =? 0)%N && (auxiliary_reserved_memory_bytes =? 0)%N then Ok configured_num_blocks
  else if (size_max / primary_bytes_per_block <? configured_num_blocks)%N then Throw TooManyBlocks
  else
    let budget := u64_mul configured_num_blocks primary_bytes_per_block in
    if (budget <=? auxiliary_reserved_memory_bytes)%N then Throw BudgetBelowReserved
    else if (size_max - primary_bytes_per_block <? auxiliary_bytes_per_block)%N then Throw BytesPerBlockOverflow
    else
      let blocks := ((budget - auxiliary_reserved_memory_bytes) / (primary_bytes_per_block + auxiliary_bytes_per_block))%N in
      if (blocks =? 0)%N then Throw TooFewBlocks else Ok blocks.

(** ** The cache *)

(** What the constructor fixes. *)
Record PagedConfig : Type := mkConfig
  { window_size_ : N;
    ring_blocks_ : nat;                 (* window_ring_blocks_ *)
    window_live_span_ : N;
    graph_capture_ : bool;
    max_block_table_columns_ : nat;
    max_block_table_rows_ : nat }.

Record PagedKeyValueCache : Type := mkPaged
  { store : cache_state PrefixCache.PrefixCache;
    block_table_columns_ : nat }.

Definition set_store (s : cache_state PrefixCache.PrefixCache) (c : PagedKeyValueCache) : PagedKeyValueCache :=
  mkPaged s (block_table_columns_ c).
Definition set_columns (n : nat) (c : PagedKeyValueCache) : PagedKeyValueCache := mkPaged (store c) n.

(** The part of a request the cache reads. *)
Record CacheRequest : Type := mkCacheRequest
  { cr_request_id : N;
    cr_sequence_length : Z;             (* CurrentSequenceLength() *)
    cr_unprocessed_tokens : N }.        (* UnprocessedTokens().size() *)

Inductive PagedError : Type :=
  | NotEnoughFreeBlocks
  | IndexCannotAdmit
  | NotInCache
  | NotEnoughSlots
  | StepExceedsRing
  | NoCommittedTable
  | MirrorTooShort
  | TableNotRequested
  | TableNarrowerThanReservation
  | GraphTableTooLarge
  | GraphColumns
  | StoreError (e : ReservationError)
  | PrefixFailure (e : PrefixError).

Abbreviation KM := (M PagedKeyValueCache PagedError).

(** Operations of the components on the cache's state. *)
Definition on_store {A} (m : M (cache_state PrefixCache.PrefixCache) ReservationError A) : KM A := fun c =>
  match m (store c) with
  | (Ok a, s) => (Ok a, set_store s c)
  | (Throw e, s) => (Throw (StoreError e), set_store s c)
  | (Terminate, s) => (Terminate, set_store s c)
  | (Undefined, s) => (Undefined, set_store s c)
  end.

Definition on_prefix {A} (m : M (world PrefixCache.PrefixCache) PrefixError A) : KM A := fun c =>
  match m (main (store c)) with
  | (Ok a, w) => (Ok a, set_store (set_main w (store c)) c)
  | (Throw e, w) => (Throw (PrefixFailure e), set_store (set_main w (store c)) c)
  | (Terminate, w) => (Terminate, set_store (set_main w (store c)) c)
  | (Undefined, w) => (Undefined, set_store (set_main w (store c)) c)
  end.

(** A throw inside a [noexcept] method terminates. *)
Definition no_throw {A} (m : KM A) : KM A := fun c =>
  match m c with (Throw _, c') => (Terminate, c') | r => r end.

Definition get_store : KM (cache_state PrefixCache.PrefixCache) := gets store.
Definition get_prefix : KM PrefixCache.PrefixCache := gets (fun c => observer (main (store c))).
Definition modify_store (f : cache_state PrefixCache.PrefixCache -> cache_state PrefixCache.PrefixCache) : KM unit :=
  modify (fun c => set_store (f (store c)) c).
Definition update_table (i : nat) (f : PagedCacheBlockTable -> PagedCacheBlockTable) : KM unit :=
  modify_store (fun s => set_tables (alter f i (tables s)) s).

(** The block size, which divides. *)
Definition block_size : KM nat := s ← get_store; if bs s =? 0 then undefined else mret (bs s).

(** [block_table_index_->...]: the index is never null in this class. *)
Definition find_index (request_id : N) : KM (option nat) :=
  s ← get_store; match table_index s with Some ti => mret (Find ti request_id) | None => undefined end.

(** The [find_if] over the tables. *)
Definition find_table (request_id : N) (l : list PagedCacheBlockTable) : option (nat * PagedCacheBlockTable) :=
  list_find (fun t => request_id_ t = request_id) l.

(** [index && *index < block_tables_.size()], and the table there. *)
Definition indexed_table (request_id : N) : KM (option (nat * PagedCacheBlockTable)) :=
  i ← find_index request_id;
  s ← get_store;
  mret (match i with Some i => (fun t => (i, t)) <$> tables s !! i | None => None end).

Definition RequiredSlots (r : CacheRequest) : nat := N.to_nat (u64_of_Z (cr_sequence_length r)).

Section Cache.
Context (cfg : PagedConfig).

Definition Windowed : bool := 0 <? ring_blocks_ cfg.

(** [subspan(offset, n)]; past the end it is undefined. *)
Definition span {A} (offset n : nat) (l : list A) : KM (list A) :=
  if offset + n <=? length l then mret (take n (drop offset l)) else undefined.

(** *** Admission and growth *)

Definition CanAdd (r : CacheRequest) : KM bool :=
  _ ← block_size;
  s ← get_store;
  if AvailableBlocks (pool (main s)) <? BlocksNeeded (pool (main s)) (RequiredSlots r) then mret false
  else if negb Windowed then mret true
  else match window s with Some w => mret (ring_blocks_ cfg <=? AvailableBlocks (pool w)) | None => undefined end.

Definition Add (r : CacheRequest) : KM unit :=
  ok ← CanAdd r;
  if negb ok then throw NotEnoughFreeBlocks else
  found ← find_index (cr_request_id r);
  s ← get_store;
  match table_index s with
  | None => undefined
  | Some ti =>
    if is_some found || (max_entries_ ti <=? index_size_ ti) then throw IndexCannotAdmit else
    blocks ← on_store (on_main (ReserveBlocks (RequiredSlots r)));
    ring ← (if Windowed then
              on_store (on_window (w ← gets pool; AllocateBlocks (ring_blocks_ cfg * block_size_ w))) else mret []);
    f1 ← on_store fresh_buffer;
    f2 ← on_store fresh_buffer;
    let t := mkTable (cr_request_id r) 0 (mkVec (Some <$> blocks) (length blocks) f1)
               (mkVec (Some <$> ring) (length ring) f2) 0 None false 0 in
    _ ← modify_store (fun s => set_tables_capacity (max (tables_capacity s) (length (tables s) + 1)) (set_tables (tables s ++ [t]) s));
    s ← get_store;
    let '(inserted, ti') := Insert ti (cr_request_id r) (length (tables s) - 1) in
    if negb inserted then terminate else modify_store (set_table_index (Some ti'))
  end.

Definition CanAppendTokens (r : CacheRequest) : KM bool :=
  s ← get_store;
  match find_table (cr_request_id r) (tables s) with
  | None => throw NotInCache
  | Some (_, t) =>
    if RequiredSlots r <=? committed_slots_ t then mret true
    else
      let size := N.of_nat (bs s) in
      let available := u64_add (u64_sub (u64_mul (N.of_nat (length (items (table_blocks_ t)))) size) (N.of_nat (committed_slots_ t)))
                         (u64_mul (N.of_nat (AvailableBlocks (pool (main s)))) size) in
      mret (N.of_nat (RequiredSlots r - committed_slots_ t) <=? available)%N
  end.

(** The loop that marks the slots of the blocks the table already has. *)
Fixpoint fill_tail (blocks : list (option addr)) (num_slots : nat) : KM unit :=
  if num_slots =? 0 then mret tt
  else
    match blocks with
    | [] => mret tt
    | h :: blocks =>
      b ← on_store (deref_main h);
      let slots := min num_slots (EmptySlots b) in
      _ ← on_store (on_main (match h with Some a => on_block a (AddSlots slots) | None => undefined end));
      fill_tail blocks (num_slots - slots)
    end.

Definition AppendTokens (r : CacheRequest) : KM unit :=
  ok ← CanAppendTokens r;
  if negb ok then throw NotEnoughSlots else
  if Windowed && (window_live_span_ cfg <? WindowLiveSpan (cr_unprocessed_tokens r) (window_size_ cfg))%N then throw StepExceedsRing else
  s ← get_store;
  match find_table (cr_request_id r) (tables s) with
  | None => undefined
  | Some (i, t) =>
    if RequiredSlots r <=? committed_slots_ t then mret tt
    else
      n ← block_size;
      let growth := RequiredSlots r - committed_slots_ t in
      let tail_capacity := N.to_nat (u64_sub (u64_mul (N.of_nat (length (items (table_blocks_ t)))) (N.of_nat n))
                                       (N.of_nat (committed_slots_ t))) in
      let new_slots := if tail_capacity <? growth then growth - tail_capacity else 0 in
      let new_block_count := BlocksNeeded (pool (main s)) new_slots in
      f ← on_store fresh_buffer;
      _ ← update_table i (fun t => set_table_blocks (reserve (length (items (table_blocks_ t)) + new_block_count) f (table_blocks_ t)) t);
      allocated ← on_store (on_main (AllocateBlocks new_slots));
      _ ← fill_tail (drop (committed_slots_ t / n) (items (table_blocks_ t))) (growth - new_slots);
      f ← on_store fresh_buffer;
      _ ← update_table i (fun t => bump_generation (set_committed (RequiredSlots r)
            (set_table_blocks (append (Some <$> allocated) f (table_blocks_ t)) t)));
      on_store (on_main (modify (fun w => set_pool (RecordOccupancyMutation (pool w)) w)))
  end.

(** *** Removal *)

Fixpoint reinsert (i : nat) (l : list PagedCacheBlockTable) (ti : RequestIndex.RequestIndex) : KM RequestIndex.RequestIndex :=
  match l with
  | [] => mret ti
  | t :: l => let '(inserted, ti') := Insert ti (request_id_ t) i in if negb inserted then terminate else reinsert (S i) l ti'
  end.

Definition RebuildBlockTableIndex : KM unit :=
  s ← get_store;
  match table_index s with
  | None => undefined
  | Some ti => ti' ← reinsert 0 (tables s) (Clear ti); modify_store (set_table_index (Some ti'))
  end.

Definition ValidateRemove (request_id : N) : KM unit :=
  s ← get_store;
  match find_table request_id (tables s) with
  | None => mret tt
  | Some (_, t) =>
    _ ← on_store (on_main (ValidateFree (items (table_blocks_ t))));
    if windowed s then on_store (on_window (ValidateFree (items (window_blocks_ t)))) else mret tt
  end.

(** [*table = std::move(block_tables_.back()); block_tables_.pop_back();] *)
Definition swap_remove (i : nat) (l : list PagedCacheBlockTable) : outcome PagedError (list PagedCacheBlockTable) :=
  match l !! i, last l with
  | Some t, Some back =>
    if i =? length l - 1 then Ok (take (length l - 1) l)
    else
      match assign_table t back with
      | Ok (t', _) => Ok (take (length l - 1) (<[i := t']> l))
      | Throw e => Throw e
      | Terminate => Terminate
      | Undefined => Undefined
      end
  | _, _ => Undefined
  end.

Definition clear_blocks (t : PagedCacheBlockTable) : PagedCacheBlockTable :=
  set_window_blocks (mkVec [] (vec_capacity (window_blocks_ t)) (data (window_blocks_ t)))
    (set_table_blocks (mkVec [] (vec_capacity (table_blocks_ t)) (data (table_blocks_ t))) t).

(** The checks and frees of [RemoveValidated]. *)
Definition free_table (t : PagedCacheBlockTable) : KM unit :=
  s ← get_store;
  ok ← on_store (on_main (CanFreeValidated (items (table_blocks_ t))));
  window_ok ← (if negb ok then mret false
               else if windowed s then on_store (on_window (CanFreeValidated (items (window_blocks_ t)))) else mret true);
  if negb window_ok then terminate else
  _ ← on_store (on_main (FreeValidated (items (table_blocks_ t))));
  if windowed s then on_store (on_window (FreeValidated (items (window_blocks_ t)))) else mret tt.

Definition RemoveValidated (request_id : N) : KM unit :=
  no_throw (
    s ← get_store;
    match find_table request_id (tables s) with
    | None => mret tt
    | Some (i, t) =>
      _ ← free_table t;
      _ ← update_table i clear_blocks;
      s ← get_store;
      l ← lift (swap_remove i (tables s));
      _ ← modify_store (set_tables l);
      RebuildBlockTableIndex
    end).

Definition Remove (request_id : N) : KM unit := _ ← ValidateRemove request_id; RemoveValidated request_id.

(** *** Lookups *)

Definition OwnsRequest (request_id : N) : KM bool :=
  found ← indexed_table request_id;
  mret (match found with Some (_, t) => (request_id_ t =? request_id)%N | None => false end).

Definition CommittedSlots (request_id : N) : KM nat :=
  found ← indexed_table request_id;
  match found with
  | Some (_, t) => if (request_id_ t =? request_id)%N then mret (committed_slots_ t) else throw NoCommittedTable
  | None => throw NoCommittedTable
  end.

Definition Reserve (requests : list PagedCacheReservationRequest) : KM PagedCacheReservation :=
  on_store (make_Reservation requests (ring_blocks_ cfg) true).

Definition MatchPrefix (tokens : list Z) (max_adoptable_tokens : nat) : KM PrefixCacheMatch :=
  on_prefix (Match tokens max_adoptable_tokens).

Definition RecordPrefixAdoptions (r : PagedCacheReservation) : KM unit :=
  no_throw (for_each (fun d =>
    if d_adopted_block_count d =? 0 then mret tt
    else
      blocks ← span (d_adopted_block_offset d) (d_adopted_block_count d) (adopted_blocks_ r);
      on_prefix (RecordAdoption blocks))
    (deltas_ r)).

Definition RecordDeferredPrefixMatches (count : N) : KM unit := no_throw (on_prefix (RecordDeferredMatches count)).
Definition RecordPrefixPublicationRefusal : KM unit := no_throw (on_prefix RecordPublicationRefusal).

(** *** Sealing *)

Definition RequiresPrefixCheckpoint : KM bool := c ← get_prefix; mret (requires_checkpoint (options_ c)).

Definition set_sealing_stopped (b : bool) (t : PagedCacheBlockTable) : PagedCacheBlockTable :=
  mkTable (request_id_ t) (committed_slots_ t) (table_blocks_ t) (window_blocks_ t) (sealed_blocks_ t)
    (sealed_identity_ t) b (table_generation_ t).

Definition CanSealPrefixCheckpoint (request_id : N) (token_count : nat) (tokens : list Z) : KM bool :=
  found ← indexed_table request_id;
  match found with
  | None => mret false
  | Some (i, t) =>
    n ← block_size;
    if sealing_stopped_ t || (token_count =? 0) || negb (token_count =? committed_slots_ t) ||
       negb (token_count mod n =? 0) || (token_count / n <=? sealed_blocks_ t)
    then mret false
    else
      _ ← throw_if (length tokens <? token_count) MirrorTooShort;
      blocks ← span (sealed_blocks_ t) (token_count / n - sealed_blocks_ t) (items (table_blocks_ t));
      suffix ← span (sealed_blocks_ t * n) (token_count - sealed_blocks_ t * n) tokens;
      status ← on_prefix (CheckCheckpointedPrefix blocks suffix (sealed_identity_ t));
      _ ← update_table i (set_sealing_stopped (match status with HashCollision => true | _ => false end));
      mret (match status with Indexed => true | _ => false end)
  end.

Definition SealCheckpointedPrefix (request_id : N) (tokens : list Z) (token_count : nat)
    (capture_checkpoint : M (world PrefixCache.PrefixCache) PrefixError (option addr)) : KM unit :=
  c ← get_prefix;
  if negb (Enabled c) || negb (requires_checkpoint (options_ c)) then mret tt
  else
    can ← CanSealPrefixCheckpoint request_id token_count tokens;
    if negb can then mret tt
    else
      found ← indexed_table request_id;
      match found with
      | None => undefined
      | Some (i, t) =>
        n ← block_size;
        let full_blocks := token_count / n in
        blocks ← span (sealed_blocks_ t) (full_blocks - sealed_blocks_ t) (items (table_blocks_ t));
        suffix ← span (sealed_blocks_ t * n) ((full_blocks - sealed_blocks_ t) * n) tokens;
        registration ← on_prefix (RegisterCheckpointedPrefix blocks suffix (sealed_identity_ t) capture_checkpoint);
        match registered_identity registration with
        | Some path => update_table i (set_sealed full_blocks (Some path))
        | None => update_table i (set_sealing_stopped (match status registration with HashCollision => true | _ => false end))
        end
      end.

(** The loop over the blocks to seal; [remaining] counts them down. *)
Fixpoint seal_loop (remaining index : nat) (i n : nat) (tokens : list Z) (parent : option BlockIdentity) : KM unit :=
  match remaining with
  | 0 => mret tt
  | S remaining =>
    s ← get_store;
    match tables s !! i with
    | None => undefined
    | Some t =>
      match items (table_blocks_ t) !! index with
      | None => undefined
      | Some block =>
        chunk ← span (index * n) n tokens;
        registration ← on_prefix (Register block chunk parent);
        match registered_identity registration with
        | None => update_table i (set_sealing_stopped (StopsSealing registration))
        | Some path =>
          _ ← update_table i (set_sealed (index + 1) (Some path));
          seal_loop remaining (S index) i n tokens (Some path)
        end
      end
    end
  end.

Definition SealCommittedBlocks (request_id : N) (tokens : list Z) (checkpoint : option addr) : KM unit :=
  c ← get_prefix;
  if negb (Enabled c) then mret tt
  else if requires_checkpoint (options_ c) then
    match checkpoint with
    | None => mret tt
    | Some a =>
      match checkpoints c !! a with
      | None => undefined
      | Some x => SealCheckpointedPrefix request_id tokens (checkpoint_tokens x) (mret (Some a))
      end
    end
  else
    found ← indexed_table request_id;
    match found with
    | None => mret tt
    | Some (i, t) =>
      if sealing_stopped_ t then mret tt
      else
        n ← block_size;
        let full_blocks := committed_slots_ t / n in
        if full_blocks <=? sealed_blocks_ t then mret tt
        else
          _ ← throw_if (length tokens <? full_blocks * n) MirrorTooShort;
          seal_loop (full_blocks - sealed_blocks_ t) (sealed_blocks_ t) i n tokens (sealed_identity_ t)
    end.

(** *** Checkpoints *)

Definition CanAttachPrefixCheckpoint (request_id : N) (token_count : nat) : KM bool :=
  found ← indexed_table request_id;
  match found with
  | None => mret false
  | Some (_, t) =>
    n ← block_size;
    c ← get_prefix;
    mret (negb (token_count =? 0) && (token_count =? committed_slots_ t) && (token_count mod n =? 0) &&
          (sealed_blocks_ t =? token_count / n) && CanAttachCheckpoint c (sealed_identity_ t))
  end.

Definition AttachPrefixCheckpoint (request_id : N) (checkpoint : option addr) : KM bool :=
  match checkpoint with
  | None => mret false
  | Some a =>
    c ← get_prefix;
    match checkpoints c !! a with
    | None => undefined
    | Some x =>
      can ← CanAttachPrefixCheckpoint request_id (checkpoint_tokens x);
      if negb can then mret false
      else
        found ← indexed_table request_id;
        match found with
        | None => undefined
        | Some (_, t) => on_prefix (AttachCheckpoint (sealed_identity_ t) (Some a))
        end
    end
  end.

(** [DraftPrefixBoundary]: an identity and the fixed-state checkpoint of its entry. *)
Definition DraftBoundary (request_id : N) (token_count : nat) : KM (option (option BlockIdentity * addr)) :=
  c ← get_prefix;
  if negb (Enabled c) || negb (requires_checkpoint (options_ c)) then mret None
  else
    found ← indexed_table request_id;
    match found with
    | None => mret None
    | Some (_, t) =>
      n ← block_size;
      if (token_count =? 0) || negb (token_count =? committed_slots_ t) || negb (token_count mod n =? 0) ||
         negb (sealed_blocks_ t =? token_count / n)
      then mret None
      else mret ((fun a => (sealed_identity_ t, a)) <$> PrefixCache.DraftBoundary c (sealed_identity_ t) token_count)
    end.

Definition AttachDraftCheckpoint (boundary : option BlockIdentity * addr) (checkpoint : option addr) : KM bool :=
  on_prefix (PrefixCache.AttachDraftCheckpoint boundary.1 (Some boundary.2) checkpoint).
Definition DropUnleasedDraftCheckpoints : KM unit := on_prefix PrefixCache.DropUnleasedDraftCheckpoints.
Definition ReclaimPrefixCheckpoints (checkpoints_needed : nat) : KM nat := on_prefix (ReclaimCheckpoints checkpoints_needed).
Definition ReclaimPrefixCheckpoint (checkpoint : option addr) : KM bool := on_prefix (ReclaimCheckpoint checkpoint).
Definition ReclaimablePrefixCheckpoints : KM nat := c ← get_prefix; mret (ReclaimableCheckpoints c).

Definition ReclaimablePrefixCheckpoint (request_id : N) : KM (option addr) :=
  path ← (if (request_id =? 0)%N then mret None
          else found ← indexed_table request_id; mret (found ≫= fun it : nat * PagedCacheBlockTable => sealed_identity_ it.2));
  c ← get_prefix;
  mret (ReclaimableCheckpoint c path).

(** *** Block tables *)

Definition MaxRequestBlockCount : KM nat :=
  s ← get_store;
  let capacity := pool_capacity_ (pool (main s)) in
  mret (if max_block_table_columns_ cfg =? 0 then capacity else min capacity (max_block_table_columns_ cfg)).

Definition MaxQueryTokensPerRequest : N :=
  if Windowed then u64_add (u64_sub (window_live_span_ cfg) (window_size_ cfg)) 1 else 0.

(** [data[i] = v]; a write past the buffer is undefined. *)
Definition store_id (i : nat) (v : Z) (d : list Z) : outcome PagedError (list Z) :=
  if i <? length d then Ok (<[i := v]> d) else Undefined.

(** The ids of one row, from column [j] on. *)
Fixpoint fill_ids (read : option addr -> M (cache_state PrefixCache.PrefixCache) ReservationError Block) (l : list (option addr))
    (at_ : nat) (d : list Z) : KM (list Z) :=
  match l with
  | [] => mret d
  | h :: l => b ← on_store (read h); d ← lift (store_id at_ (to_int32 (id_ b)) d); fill_ids read l (S at_) d
  end.

Fixpoint fill_pad (count at_ : nat) (d : list Z) : KM (list Z) :=
  match count with 0 => mret d | S count => d ← lift (store_id at_ (-1) d); fill_pad count (S at_) d end.

(** Column [j] of a windowed row holds [ring[j % ring_blocks]]. *)
Definition ring_row (columns : nat) (ring : list (option addr)) : option (list (option addr)) :=
  mapM (fun j => c ← WindowRingColumn (N.of_nat j) (N.of_nat (ring_blocks_ cfg)); ring !! N.to_nat c) (seq 0 columns).

Fixpoint FillBlockTables (tables : list PagedCacheBlockTable) (requests : list N) (win : bool) (columns : nat) (d : list Z) :
    KM (list Z) :=
  match tables with
  | [] => mret d
  | t :: tables =>
    match list_find (fun id => id = request_id_ t) requests with
    | None => throw TableNotRequested
    | Some (row, _) =>
      d ← (if win then
             match ring_row columns (items (window_blocks_ t)) with
             | Some l => fill_ids deref_window l (row * columns) d
             | None => undefined
             end
           else
             d ← fill_ids deref_main (items (table_blocks_ t)) (row * columns) d;
             fill_pad (columns - length (items (table_blocks_ t))) (row * columns + length (items (table_blocks_ t))) d);
      FillBlockTables tables requests win columns d
    end
  end.

(** The loop that finds the widest table; every table must be requested. *)
Fixpoint widest (tables : list PagedCacheBlockTable) (requests : list N) (max_blocks : nat) : KM nat :=
  match tables with
  | [] => mret max_blocks
  | t :: tables =>
    if bool_decide (request_id_ t ∈ requests) then widest tables requests (max max_blocks (length (items (table_blocks_ t))))
    else throw TableNotRequested
  end.

(** [BlockTables(requests)]; [fresh] is the content of the tensor before it is filled. *)
Definition BlockTables (requests : list N) (fresh : nat -> list Z) : KM (list Z) :=
  s ← get_store;
  max_blocks ← widest (tables s) requests 0;
  columns ← (if graph_capture_ cfg then
               match GetGraphBlockTableColumns (N.of_nat max_blocks) (N.of_nat (max_block_table_columns_ cfg)) with
               | Ok columns =>
                 let columns := N.to_nat columns in
                 _ ← modify (set_columns columns);
                 _ ← throw_if ((columns <? max_blocks) || (max_block_table_rows_ cfg <? length requests)) GraphTableTooLarge;
                 mret columns
               | Throw _ => throw GraphColumns
               | Terminate => terminate
               | Undefined => undefined
               end
             else _ ← modify (set_columns max_blocks); mret max_blocks);
  FillBlockTables (tables s) requests false columns (fresh (length requests * columns)).

(** [WindowBlockTables(requests)] for a cache with a window ring. *)
Definition WindowBlockTables (requests : list N) (fresh : nat -> list Z) : KM (list Z) :=
  s ← get_store;
  columns ← gets block_table_columns_;
  FillBlockTables (tables s) requests true columns (fresh (length requests * columns)).

(** *** Snapshots *)

Fixpoint block_snapshots (l : list addr) : KM (list CachedBlockSnapshot) :=
  match l with
  | [] => mret []
  | a :: l =>
    b ← on_store (on_main (deref a));
    rest ← block_snapshots l;
    mret (mkCachedBlock (id_ b) (ref_count_ b) (size_ b) (IsFull b) (HasIdentity b) :: rest)
  end.

(** The ids and slots of one table. *)
Fixpoint table_snapshot (id : N) (l : list (option addr)) : KM RequestBlockSnapshot :=
  match l with
  | [] => mret (mkRequestBlocks id [] 0 0)
  | h :: l =>
    b ← on_store (deref_main h);
    r ← table_snapshot id l;
    mret (mkRequestBlocks id (id_ b :: rb_block_ids r) (size_ b + rb_used_slots r) (EmptySlots b + rb_empty_slots r))
  end.

Fixpoint window_table_snapshot (id : N) (l : list (option addr)) : KM RequestBlockSnapshot :=
  match l with
  | [] => mret (mkRequestBlocks id [] 0 0)
  | h :: l =>
    b ← on_store (deref_window h);
    r ← window_table_snapshot id l;
    mret (mkRequestBlocks id (id_ b :: rb_block_ids r) 0 0)
  end.

Fixpoint map_k {A B} (f : A -> KM B) (l : list A) : KM (list B) :=
  match l with [] => mret [] | x :: l => y ← f x; ys ← map_k f l; mret (y :: ys) end.

Definition Snapshot : KM PagedCacheSnapshot :=
  s ← get_store;
  columns ← gets block_table_columns_;
  blocks ← block_snapshots (OwnedBlocks (pool (main s)));
  requests ← map_k (fun t => table_snapshot (request_id_ t) (items (table_blocks_ t))) (tables s);
  win ← (if Windowed then
           match window s with
           | Some w =>
             rings ← map_k (fun t => window_table_snapshot (request_id_ t) (items (window_blocks_ t))) (tables s);
             mret (mkWindowSnapshot (pool_capacity_ (pool w)) (AvailableBlocks (pool w)) (ring_blocks_ cfg) rings [])
           | None => undefined
           end
         else mret (mkWindowSnapshot 0 0 0 [] []));
  mret (mkCacheSnapshot (bs s) (pool_capacity_ (pool (main s))) (AvailableBlocks (pool (main s))) columns requests [] [] [] blocks win).

(** The ids of the blocks a running reservation holds. *)
Fixpoint handle_ids (read : option addr -> M (cache_state PrefixCache.PrefixCache) ReservationError Block) (l : list (option addr)) :
    KM (list nat) :=
  match l with [] => mret [] | h :: l => b ← on_store (read h); rest ← handle_ids read l; mret (id_ b :: rest) end.

Definition delta_snapshot (r : PagedCacheReservation) (d : PagedCacheReservationDelta) : KM RequestReservationSnapshot :=
  reserved ← span (d_reserved_block_offset d) (d_reserved_block_count d) (reserved_blocks_ r);
  reserved ← handle_ids deref_main reserved;
  adopted ← span (d_adopted_block_offset d) (d_adopted_block_count d) (adopted_blocks_ r);
  adopted ← handle_ids deref_main adopted;
  mret (mkRequestReservation (d_request_id d) (d_committed_slots d) (d_target_slots d) reserved adopted).

Definition Snapshot_with (r : PagedCacheReservation) : KM PagedCacheSnapshot :=
  c ← Snapshot;
  reserved ← handle_ids deref_main (reserved_blocks_ r);
  adopted ← handle_ids deref_main (adopted_blocks_ r);
  win ← handle_ids deref_window (reserved_window_blocks_ r);
  deltas ← map_k (delta_snapshot r) (deltas_ r);
  let w := cs_window_blocks c in
  mret (mkCacheSnapshot (cs_block_size c) (cs_total_blocks c) (cs_free_blocks c) (cs_block_table_columns c) (cs_requests c)
          reserved adopted deltas (cs_blocks c)
          (mkWindowSnapshot (wb_total_blocks w) (wb_free_blocks w) (wb_blocks_per_request w) (wb_requests w) win)).
End Cache.

(** ** Construction *)

(** The accounting part of the constructor: pools, prefix cache, request index.  The
    block counts come from the budget; [this] is the address of the prefix cache. *)
Definition make_PagedKeyValueCache (size num_blocks ring max_batch_size this : nat) (enabled requires : bool)
    (max_checkpoints : nat) : outcome PagedError PagedKeyValueCache :=
  let options := mkOptions enabled num_blocks requires max_checkpoints None in
  match SetReferenceObserver (Some this) (initial_world size num_blocks (make_PrefixCache num_blocks options)) with
  | (Ok _, w) =>
    match make_RequestIndex (N.of_nat max_batch_size) with
    | Ok i => Ok (mkPaged (mkState w (if ring =? 0 then None else Some (initial_world size (ring * max_batch_size) tt)) [] 0 (Some i) 0) 0)
    | Throw e => Throw (StoreError (IndexFailure e))
    | Terminate => Terminate
    | Undefined => Undefined
    end
  | (Throw e, _) => Throw (StoreError (PoolFailure e))
  | (Terminate, _) => Terminate
  | (Undefined, _) => Undefined
  end.
