(* ===== verification/Accounting.v ===== *)
(** * Reference accounting of the block tables

    What ties the block tables of the paged cache to the pool: every handle a table
    holds is owned, and the reference count of a block is the number of table entries
    that hold it plus one while it is indexed as a prefix.  The lemmas say how the
    pool's operations move this balance. *)

From S2P Require Import Prelude BlockPool PrefixCache PrefixCacheProofs Reservation ReservationProofs.

Open Scope nat_scope.

(** ** Multiplicity in a list of handles *)

Definition copies (h : option addr) (l : list (option addr)) : nat := length (filter (fun x => x = h) l).

Lemma copies_app h l1 l2 : copies h (l1 ++ l2) = copies h l1 + copies h l2.
Proof. unfold copies. by rewrite filter_app, length_app. Qed.

Lemma copies_cons h x l : copies h (x :: l) = (if decide (x = h) then 1 else 0) + copies h l.
Proof. unfold copies. rewrite filter_cons. by case_decide. Qed.

Lemma copies_pos h l : h ∈ l <-> 0 < copies h l.
Proof.
  induction l as [|x l IH]; [unfold copies; cbn; split; [by intros ?%not_elem_of_nil|lia]|].
  rewrite copies_cons, elem_of_cons, IH. case_decide; naive_solver lia.
Qed.

Lemma copies_zero h l : h ∉ l <-> copies h l = 0.
Proof. rewrite copies_pos. lia. Qed.

Lemma copies_NoDup h l : NoDup l -> copies h l <= 1.
Proof.
  induction 1 as [|x l Hx _ IH]; [unfold copies; cbn; lia|]. rewrite copies_cons. case_decide; [subst|lia].
  apply copies_zero in Hx. lia.
Qed.

Lemma NoDup_copies l : (forall h, h ∈ l -> copies h l <= 1) -> NoDup l.
Proof.
  induction l as [|x l IH]; intros Hl; [apply NoDup_nil_2|]. apply NoDup_cons. split.
  - intros Hx%copies_pos. specialize (Hl x ltac:(left)). rewrite copies_cons, decide_True in Hl by done. lia.
  - apply IH. intros h Hh. specialize (Hl h ltac:(by right)). rewrite copies_cons in Hl. lia.
Qed.

#[global] Instance copies_perm h : Proper (Permutation ==> eq) (copies h).
Proof. intros l1 l2 Hp. unfold copies. by rewrite Hp. Qed.

(** ** The balance *)

Definition indexed_ref (b : Block) : nat := if HasIdentity b then 1 else 0.

Section Accounting.
Context {O : Type}.
Implicit Types w : world O.
Implicit Types H : list (option addr).

Lemma owned_some w h : owned w h -> is_Some h.
Proof. by intros (a & b & -> & _). Qed.

(** Owned handles are told apart by their block ids. *)
Lemma block_id_inj w h1 h2 : owned w h1 -> owned w h2 -> block_id w h1 = block_id w h2 -> h1 = h2.
Proof.
  intros (a1 & b1 & -> & Ha1 & Hs1) (a2 & b2 & -> & Ha2 & Hs2). unfold block_id. rewrite Ha1, Ha2. intros Hid.
  rewrite Hid in Hs1. congruence.
Qed.

Lemma owned_slot w id a : pool_wf w -> blocks_ (pool w) !! id = Some (Some a) ->
  exists b, heap w !! a = Some b /\ id_ b = id /\ owned w (Some a) /\ block_id w (Some a) = id.
Proof.
  intros Hwf Hs. destruct (pw_slot _ Hwf _ _ Hs) as (b & Hb & Hbw). pose proof (bw_id _ _ _ Hbw) as Hid.
  exists b. split_and!; [done..| |cbn; by rewrite Hb]. exists a, b. by rewrite Hid.
Qed.

(** Counting handles and counting block ids agree. *)
Lemma copies_occ w H id a : pool_wf w -> Forall (owned w) H -> blocks_ (pool w) !! id = Some (Some a) ->
  occ id (block_id w <$> H) = copies (Some a) H.
Proof.
  intros Hwf Ho Hs. destruct (owned_slot w id a Hwf Hs) as (b & Hb & Hid & Hown & Hbid).
  induction Ho as [|h H Hh _ IH]; [done|]. rewrite fmap_cons, occ_cons, copies_cons, IH. f_equal.
  destruct (decide (h = Some a)) as [->|Hne]; [by rewrite decide_True|].
  rewrite decide_False; [done|]. intros Heq. apply Hne. apply (block_id_inj w); congruence.
Qed.

Record accounted w H : Prop := mk_accounted
  { ac_owned : Forall (owned w) H;
    ac_refs : forall id a b, blocks_ (pool w) !! id = Some (Some a) -> heap w !! a = Some b ->
      ref_count_ b = copies (Some a) H + indexed_ref b;
    ac_shared : forall id a b, blocks_ (pool w) !! id = Some (Some a) -> heap w !! a = Some b ->
      1 < copies (Some a) H -> IsFull b = true /\ HasIdentity b = true }.

Lemma accounted_reorder w H1 H2 : H1 ≡ₚ H2 -> accounted w H1 -> accounted w H2.
Proof.
  intros Hp [Ho Hr Hs]. split; [by rewrite <-Hp|..]; intros id a b Hid Ha; rewrite <-(copies_perm _ _ _ Hp).
  - by apply (Hr id).
  - by apply (Hs id).
Qed.

#[global] Instance accounted_perm w : Proper (Permutation ==> iff) (accounted w).
Proof. intros H1 H2 Hp. split; apply accounted_reorder; [done|by symmetry]. Qed.

Lemma accounted_valid w H h a : accounted w H -> h ∈ H -> h = Some a -> is_Some (heap w !! a).
Proof. intros [Ho _ _] Hh ->. rewrite Forall_forall in Ho. destruct (Ho _ Hh) as (a' & b & [= <-] & Hb & _). by exists b. Qed.

Lemma accounted_handles w H l : accounted w H -> (forall h, h ∈ l -> h ∈ H) -> handles_valid w l.
Proof. intros Ha Hl a Hin. eapply accounted_valid; eauto. Qed.

(** A handle the tables do not hold can only be kept by the index. *)
Lemma allocated_accounted w H n mark hs w' : pool_wf w -> accounted w H -> allocated w n mark hs w' ->
  accounted w' (H ++ (Some <$> hs)).
Proof.
  intros Hwf [Ho Hr Hs] Hal.
  assert (forall h, owned w h -> owned w' h /\ h ∉ Some <$> hs) as Hold.
  { intros h (a & b & -> & Ha & Hsl). split.
    - exists a, b. split_and!; [done|by apply Hal|by apply Hal].
    - intros (a' & [= <-] & Hin)%list_elem_of_fmap. destruct (al_new _ _ _ _ _ Hal a Hin) as [Hn _]. congruence. }
  assert (forall a, a ∈ hs -> copies (Some a) H = 0 /\ copies (Some a) (Some <$> hs) = 1) as Hnew.
  { intros a Hin. split.
    - apply copies_zero. intros Hh. eapply Forall_forall in Ho; [|done]. apply Hold in Ho as [_ Hno]. apply Hno.
      by apply list_elem_of_fmap_2.
    - assert (copies (Some a) (Some <$> hs) <= 1) by (apply copies_NoDup, NoDup_fmap_2; [apply _|apply Hal]).
      assert (0 < copies (Some a) (Some <$> hs)) by (apply copies_pos; by apply list_elem_of_fmap_2). lia. }
  assert (forall id a b, blocks_ (pool w') !! id = Some (Some a) -> heap w' !! a = Some b ->
    a ∈ hs /\ ref_count_ b = 1 /\ identity_ b = None \/
    blocks_ (pool w) !! id = Some (Some a) /\ heap w !! a = Some b /\ copies (Some a) (Some <$> hs) = 0) as Hcase.
  { intros id a b Hid Hb. destruct (al_only _ _ _ _ _ Hal id a Hid) as [Hin|Hsl].
    - left. destruct (al_new _ _ _ _ _ Hal a Hin) as (_ & b' & Hb' & _ & _ & Hr' & Hi'). assert (b' = b) as -> by congruence. done.
    - right. destruct (owned_slot w id a Hwf Hsl) as (b0 & Hb0 & _ & Hown & _). pose proof (al_heap _ _ _ _ _ Hal a b0 Hb0).
      split_and!; [done|congruence|]. apply copies_zero. by apply Hold. }
  split.
  - apply Forall_app. split; [eapply Forall_impl; [done|]; intros h Hh; by apply Hold|]. apply Forall_fmap, Forall_forall.
    intros a Hin. destruct (al_new _ _ _ _ _ Hal a Hin) as (_ & b & Hb & _ & Hsl & _). by exists a, b.
  - intros id a b Hid Hb. rewrite copies_app. destruct (Hcase id a b Hid Hb) as [(Hin & Hr1 & Hi1)|(Hsl & Hb0 & Hz)].
    + destruct (Hnew a Hin) as [-> ->]. unfold indexed_ref, HasIdentity. rewrite Hi1, Hr1. done.
    + rewrite Hz, (Hr id a b Hsl Hb0). lia.
  - intros id a b Hid Hb. rewrite copies_app. destruct (Hcase id a b Hid Hb) as [(Hin & Hr1 & Hi1)|(Hsl & Hb0 & Hz)].
    + destruct (Hnew a Hin) as [-> ->]. lia.
    + rewrite Hz, Nat.add_0_r. by apply (Hs id).
Qed.

(** Marking slots of blocks that are not full. *)
Lemma writes_accounted w H ws : accounted w H -> NoDup ws.*1 ->
  (forall a z, (a, z) ∈ ws -> exists b, heap w !! a = Some b /\ IsFull b = false) ->
  accounted (set_heap (apply_writes ws (heap w)) w) H.
Proof.
  intros [Ho Hr Hs] Hnd Hws.
  assert (forall a b', apply_writes ws (heap w) !! a = Some b' -> exists b, heap w !! a = Some b /\
    (b' = b \/ IsFull b = false /\ exists z, b' = set_size z b)) as Hcase.
  { intros a b' Hb'. destruct (decide (a ∈ ws.*1)) as [([a' z] & -> & Hin)%list_elem_of_fmap|Hno].
    - destruct (Hws _ _ Hin) as (b & Hb & Hf). cbn in *. rewrite (apply_writes_lookup ws _ a' z b) in Hb' by done.
      injection Hb' as <-. exists b. split; [done|]. right. eauto.
    - rewrite apply_writes_frame in Hb' by done. exists b'. split; [done|by left]. }
  split; cbn.
  - eapply Forall_impl; [done|]. intros h (a & b & -> & Hb & Hsl). destruct (decide (a ∈ ws.*1)) as [([a' z] & -> & Hin)%list_elem_of_fmap|Hno].
    + exists a', (set_size z b). split_and!; [done| |done]. by apply apply_writes_lookup.
    + exists a, b. split_and!; [done| |done]. cbn. by rewrite apply_writes_frame.
  - intros id a b' Hid Hb'. destruct (Hcase a b' Hb') as (b & Hb & [->|(_ & z & ->)]); exact (Hr id a b Hid Hb).
  - intros id a b' Hid Hb' Hc. destruct (Hcase a b' Hb') as (b & Hb & [->|(Hf & z & ->)]); [by apply (Hs id a)|].
    destruct (Hs id a b Hid Hb Hc). congruence.
Qed.

Lemma accounted_freeable w H bl rest : pool_wf w -> accounted w H -> H ≡ₚ bl ++ rest -> freeable w bl.
Proof.
  intros Hwf Hac Hp. rewrite Hp in Hac. destruct Hac as [Ho Hr _]. apply Forall_app in Ho as [Ho _]. split; [done|].
  intros id a b Hid Hb. rewrite (copies_occ w bl id a), (Hr id a b Hid Hb), copies_app by done. lia.
Qed.

Lemma freed_accounted w H bl rest w' : pool_wf w -> accounted w H -> H ≡ₚ bl ++ rest -> freed w bl w' -> accounted w' rest.
Proof.
  intros Hwf Hac Hp Hfr. pose proof (accounted_freeable w H bl rest Hwf Hac Hp) as [Hob _]. rewrite Hp in Hac.
  destruct Hac as [Ho Hr Hs]. apply Forall_app in Ho as [_ Ho].
  assert (forall id a b, blocks_ (pool w) !! id = Some (Some a) -> heap w !! a = Some b ->
    heap w' !! a = Some (if copies (Some a) bl =? 0 then b else drop_refs (copies (Some a) bl) b) /\
    blocks_ (pool w') !! id = Some (if ref_count_ b =? copies (Some a) bl then None else Some a)) as Heff.
  { intros id a b Hid Hb. pose proof (fr_owned _ _ _ Hfr id a b Hid Hb) as He. cbn zeta in He. by rewrite (copies_occ w bl id a) in He. }
  assert (forall b k, (ref_count_ b =? k) = false -> k <= ref_count_ b ->
    let b' := if k =? 0 then b else drop_refs k b in
    ref_count_ b' = ref_count_ b - k /\ id_ b' = id_ b /\ IsFull b' = IsFull b /\ HasIdentity b' = HasIdentity b) as Hdrop.
  { intros b k Hk Hle b'. subst b'. unfold drop_refs. rewrite Hk. destruct (Nat.eqb_spec k 0) as [->|]; cbn; split_and!; try done; lia. }
  assert (forall id a b, blocks_ (pool w) !! id = Some (Some a) -> heap w !! a = Some b -> copies (Some a) bl <= ref_count_ b) as Hle.
  { intros id a b Hid Hb. rewrite (Hr id a b Hid Hb), copies_app. lia. }
  assert (forall id a b', blocks_ (pool w') !! id = Some (Some a) -> heap w' !! a = Some b' -> exists b,
    blocks_ (pool w) !! id = Some (Some a) /\ heap w !! a = Some b /\ ref_count_ b <> copies (Some a) bl /\
    ref_count_ b' = ref_count_ b - copies (Some a) bl /\ IsFull b' = IsFull b /\ HasIdentity b' = HasIdentity b) as Hback.
  { intros id a b' Hid Hb'. destruct (blocks_ (pool w) !! id) as [[a0|]|] eqn:Hsl.
    - destruct (owned_slot w id a0 Hwf Hsl) as (b & Hb & _). destruct (Heff id a0 b Hsl Hb) as [Hh Hs'].
      rewrite Hid in Hs'. destruct (ref_count_ b =? copies (Some a0) bl) eqn:Hk; [done|]. injection Hs' as <-.
      destruct (Hdrop b (copies (Some a) bl) Hk (Hle _ _ _ Hsl Hb)) as (H1 & _ & H3 & H4).
      rewrite Hh in Hb'. injection Hb' as <-. exists b. apply Nat.eqb_neq in Hk. done.
    - rewrite (fr_free _ _ _ Hfr id Hsl) in Hid. done.
    - apply lookup_ge_None in Hsl. apply lookup_lt_Some in Hid. rewrite (pw_length _ (fr_wf _ _ _ Hfr)), (fr_capacity _ _ _ Hfr),
        <-(pw_length _ Hwf) in Hid. lia. }
  split.
  - apply Forall_forall. intros h Hh. rewrite Forall_forall in Ho. destruct (Ho h Hh) as (a & b & -> & Hb & Hsl).
    destruct (Heff (id_ b) a b Hsl Hb) as [Hh' Hs']. pose proof (Hr (id_ b) a b Hsl Hb) as Href. rewrite copies_app in Href.
    apply copies_pos in Hh. destruct (ref_count_ b =? copies (Some a) bl) eqn:Hk; [apply Nat.eqb_eq in Hk; lia|].
    destruct (Hdrop b (copies (Some a) bl) Hk (Hle _ _ _ Hsl Hb)) as (_ & Hid & _). eexists a, _. split_and!; [done|done|]. by rewrite Hid.
  - intros id a b' Hid Hb'. destruct (Hback id a b' Hid Hb') as (b & Hsl & Hb & _ & Hrc & _ & Hi).
    rewrite Hrc, (Hr id a b Hsl Hb), copies_app. unfold indexed_ref. rewrite Hi. lia.
  - intros id a b' Hid Hb' Hc. destruct (Hback id a b' Hid Hb') as (b & Hsl & Hb & _ & _ & Hf & Hi). rewrite Hf, Hi.
    apply (Hs id a b Hsl Hb). rewrite copies_app. lia.
Qed.
End Accounting.

(** ** Freeing blocks of a pool the prefix cache observes *)

Lemma cache_ok_scratch w w' : cache_ok w -> pool_wf w' -> same_but_scratch w w' -> cache_ok w'.
Proof.
  intros [Hp Hob Hi Hl Hc Hid] Hp' (Hh & Hn & Ho & ms & cs & e & Hpool). destruct w' as [h' n' p' o']. cbn in *. subst.
  constructor; cbn; try done. intros id x Hx. destruct (Hl id x Hx) as (b & []). exists b. by constructor.
Qed.

(** Every block has a reference for each handle in [bl], and the index keeps its own. *)
Definition covered (w : world PrefixCache.PrefixCache) (bl : list (option addr)) : Prop :=
  Forall (owned w) bl /\ forall id a b, blocks_ (pool w) !! id = Some (Some a) -> heap w !! a = Some b ->
    copies (Some a) bl + indexed_ref b <= ref_count_ b.

Lemma accounted_covered w H bl rest : accounted w H -> H ≡ₚ bl ++ rest -> covered w bl.
Proof.
  intros Hac Hp. rewrite Hp in Hac. destruct Hac as [Ho Hr _]. apply Forall_app in Ho as [Ho _]. split; [done|].
  intros id a b Hid Hb. rewrite (Hr id a b Hid Hb), copies_app. lia.
Qed.

Lemma covered_scratch w w' bl : same_but_scratch w w' -> covered w bl -> covered w' bl.
Proof.
  intros (Hh & _ & _ & ms & cs & e & Hp) [Ho Hr]. unfold covered, owned in *. rewrite Hh, Hp in *. done.
Qed.

Lemma free_one_ok w h bl : cache_ok w -> covered w (h :: bl) ->
  exists w', free_one h w = (Ok tt, w') /\ cache_ok w' /\ covered w' bl /\ identities (observer w') = identities (observer w).
Proof.
  intros Hw [Ho Hr]. apply Forall_cons in Ho as [(a & b & -> & Ha & Hs) Ho]. unfold free_one.
  rewrite (bind_ok _ _ _ _ _ (deref_ok a b w Ha)). pose proof (Hr _ a b Hs Ha) as Hra. rewrite copies_cons, decide_True in Hra by done.
  assert (forall w', cache_ok w' -> blocks_ (pool w') = blocks_ (pool w) ->
    heap w' = <[a := set_ref_count (ref_count_ b - 1) b]> (heap w) -> covered w' bl) as Hkeep.
  { intros w' Hw' Hp' Hh'. split.
    - eapply Forall_impl; [done|]. intros x (a' & b' & -> & Ha' & Hs'). destruct (decide (a' = a)) as [->|Hne].
      + exists a, (set_ref_count (ref_count_ b - 1) b). rewrite Hh', Hp', lookup_insert_eq. done.
      + exists a', b'. rewrite Hh', Hp', lookup_insert_ne by done. done.
    - intros id a' b'. rewrite Hh', Hp'. intros Hid. destruct (decide (a' = a)) as [->|Hne].
      + rewrite lookup_insert_eq. intros [= <-]. unfold indexed_ref, HasIdentity in *. cbn. lia.
      + rewrite lookup_insert_ne by done. intros Hb'. specialize (Hr id a' b' Hid Hb').
        rewrite copies_cons, decide_False in Hr by congruence. lia. }
  destruct (decide (1 < ref_count_ b)) as [Hgt|Hle].
  - destruct (release_at_shared w a b Hw Ha Hs Hgt) as (w' & Hrun & (Hok & Hh & _ & Hro) & Hp). rewrite (bind_ok _ _ _ _ _ Hrun).
    exists w'. split_and!; [done..| |apply (ro_heaps _ _ Hro)]. apply Hkeep; [done|by rewrite Hp|done].
  - assert (identity_ b = None) as Hi.
    { destruct (identity_ b) eqn:Hi; [|done]. unfold indexed_ref, HasIdentity in Hra. rewrite Hi in Hra. cbn in Hra. lia. }
    destruct (release_at_private w a b Hw Ha Hs (unindexed_cookie w a b Hw Ha Hi)) as [Hrun Hok]. rewrite (bind_ok _ _ _ _ _ Hrun).
    exists (released_world a b (observer w) w). split_and!; [done..| |done].
    assert (ref_count_ b = 1 /\ copies (Some a) bl = 0) as [Hone Hz] by (unfold indexed_ref in Hra; lia).
    apply copies_zero in Hz. unfold released_world, drop_refs. rewrite Hone. cbn [Nat.eqb]. split; cbn.
    + rewrite Forall_forall in Ho |- *. intros x Hx. destruct (Ho x Hx) as (a' & b' & -> & Ha' & Hs'). exists a', b'.
      assert (a' <> a) by congruence. cbn. rewrite lookup_insert_ne by done. split_and!; [done..|].
      rewrite list_lookup_insert_ne; [done|]. intros Heq. rewrite Heq in Hs. congruence.
    + intros id a' b' Hid Hb'. assert (id <> id_ b) as Hne.
      { intros ->. rewrite list_lookup_insert_eq in Hid; [done|]. by eapply lookup_lt_Some. }
      rewrite list_lookup_insert_ne in Hid by done. assert (a' <> a) as Hna.
      { intros ->. destruct (owned_slot w id a (ck_pool _ Hw) Hid) as (b0 & Hb0 & Hid0 & _). congruence. }
      rewrite lookup_insert_ne in Hb' by done. specialize (Hr id a' b' Hid Hb').
      rewrite copies_cons, decide_False in Hr by congruence. lia.
Qed.

Lemma free_all_ok bl : forall w, cache_ok w -> covered w bl -> exists w',
  for_each free_one bl w = (Ok tt, w') /\ cache_ok w' /\ identities (observer w') = identities (observer w).
Proof.
  induction bl as [|h bl IH]; intros w Hw Hc; [by exists w|].
  destruct (free_one_ok w h bl Hw Hc) as (w1 & Hrun & Hw1 & Hc1 & <-). cbn [for_each]. rewrite (bind_ok _ _ _ _ _ Hrun).
  by apply IH.
Qed.

(** Freeing what the tables hold never terminates the process and keeps the cache's invariant. *)
Lemma FreeValidated_ok w bl : cache_ok w -> covered w bl -> freeable w bl ->
  exists w', FreeValidated bl w = (Ok tt, w') /\ cache_ok w' /\ freed w bl w' /\ identities (observer w') = identities (observer w).
Proof.
  intros Hw Hc Hf. pose proof (ck_pool _ Hw) as Hp.
  assert (handles_valid w bl) as Hv.
  { intros a Hin. destruct Hc as [Ho _]. rewrite Forall_forall in Ho. destruct (Ho _ Hin) as (a' & b & [= <-] & Hb & _). by exists b. }
  destruct (CanFreeValidated_spec w bl Hp Hv) as (ok & w1 & Hcan & Hss & Hp1 & Hok). rewrite (proj2 Hok Hf) in Hcan.
  unfold FreeValidated, noexcept. rewrite (bind_ok _ _ _ _ _ Hcan). cbn [negb].
  destruct (free_all_ok bl w1 (cache_ok_scratch _ _ Hw Hp1 Hss) (covered_scratch _ _ _ Hss Hc)) as (w2 & Hrun & Hw2 & Hids).
  destruct (free_loop_spec bl w1 Hp1 (proj1 (freeable_scratch _ _ _ Hss) Hf)) as [(w2' & Hrun' & Hfr)|(w2' & Hrun' & _)]; [|congruence].
  assert (w2' = w2) as -> by congruence. rewrite (bind_ok _ _ _ _ _ Hrun). apply (freed_scratch w) in Hfr; [|done].
  assert (observer w1 = observer w) as Ho by (apply Hss). rewrite Ho in Hids.
  case_bool_decide; [by exists w2|]. eexists. split; [reflexivity|]. split_and!; [by apply cache_ok_generation|by apply freed_generation|done].
Qed.

(** Marking slots keeps the invariant of the cache. *)
Lemma writes_cache_ok ws : forall w, cache_ok w -> NoDup ws.*1 ->
  (forall a z, (a, z) ∈ ws -> exists b, heap w !! a = Some b /\ size_ b <= z <= capacity_ b) ->
  cache_ok (set_heap (apply_writes ws (heap w)) w).
Proof.
  induction ws as [|[a z] ws IH]; intros w Hw Hnd Hws; [by destruct w|]. apply NoDup_cons in Hnd as [Ha Hnd].
  destruct (Hws a z ltac:(left)) as (b & Hb & Hz). pose proof (fill_ok w a b (z - size_ b) Hw Hb) as Hfill.
  assert (on_block a (AddSlots (z - size_ b)) w = (Ok tt, set_heap (alter (set_size z) a (heap w)) w)) as Hrun.
  { unfold on_block. rewrite (bind_ok _ _ _ _ _ (deref_ok a b w Hb)). unfold AddSlots, EmptySlots.
    destruct (Nat.ltb_spec (capacity_ b - size_ b) (z - size_ b)); [lia|]. unfold_m.
    replace (size_ b + (z - size_ b)) with z by lia. by rewrite (alter_as_insert _ _ _ _ Hb). }
  rewrite Hrun in Hfill. apply (IH _ Hfill Hnd). intros a' z' Hin. destruct (Hws a' z' ltac:(by right)) as (b' & Hb' & Hz').
  exists b'. split; [|done]. cbn. rewrite lookup_alter_ne; [done|]. intros ->. apply Ha. by apply (list_elem_of_fmap_2 fst) in Hin.
Qed.

(** ** The balance while blocks are indexed and evicted *)

(** A reclaimed entry is one no table holds. *)
Lemma reclaimed_accounted v w w' H : cache_ok w -> accounted w H -> reclaimed v w w' -> accounted w' H /\
  forall a, Some a ∈ H -> heap w' !! a = heap w !! a.
Proof.
  intros Hw [Ho Hr Hs] Hrc.
  assert (forall id a b, blocks_ (pool w) !! id = Some (Some a) -> heap w !! a = Some b -> id ∉ v -> heap w' !! a = Some b) as Hkeep.
  { intros id a b Hid Hb Hv. apply (rc_heap _ _ _ Hrc a b Hb). intros k e Hk He <-. destruct (ck_linked _ Hw _ _ He) as (b' & Hl).
    destruct (owned_slot w id _ (ck_pool _ Hw) Hid) as (b0 & Hb0 & Hid0 & _). pose proof (lk_heap _ _ _ _ Hl). pose proof (lk_id _ _ _ _ Hl). congruence. }
  assert (forall a, Some a ∈ H -> exists b, heap w !! a = Some b /\ blocks_ (pool w) !! id_ b = Some (Some a) /\ id_ b ∉ v) as Hheld.
  { intros a Ha. rewrite Forall_forall in Ho. destruct (Ho _ Ha) as (a' & b & [= <-] & Hb & Hsl). exists b. split_and!; [done..|].
    intros Hv. destruct (rc_victims _ _ _ Hrc _ Hv) as (e & He & Hre). destruct (ck_linked _ Hw _ _ He) as (b' & Hl).
    assert (entry_block e = a) as Hea by (pose proof (lk_slot _ _ _ _ Hl); congruence).
    assert (b' = b) as -> by (pose proof (lk_heap _ _ _ _ Hl); congruence).
    pose proof (lk_reclaimable _ _ _ _ Hl) as Hone. rewrite Hre in Hone. symmetry in Hone. apply Nat.eqb_eq in Hone.
    pose proof (Hr _ a b Hsl Hb) as Href. unfold indexed_ref, HasIdentity in Href. rewrite (lk_identity _ _ _ _ Hl) in Href.
    apply copies_pos in Ha. cbn in Href. lia. }
  assert (forall id a b, blocks_ (pool w') !! id = Some (Some a) -> heap w' !! a = Some b ->
    blocks_ (pool w) !! id = Some (Some a) /\ heap w !! a = Some b) as Hback.
  { intros id a b Hid Hb. rewrite (rc_slots _ _ _ Hrc) in Hid. case_decide as Hv; [done|]. split; [done|].
    destruct (owned_slot w id a (ck_pool _ Hw) Hid) as (b0 & Hb0 & _). rewrite (Hkeep id a b0 Hid Hb0 Hv) in Hb. congruence. }
  split; [split|].
  - apply Forall_forall. intros h Hh. rewrite Forall_forall in Ho. destruct (Ho h Hh) as (a & _ & -> & _ & _).
    destruct (Hheld a Hh) as (b & Hb & Hsl & Hv). exists a, b. split_and!; [done|by eapply Hkeep|]. by rewrite (rc_slots _ _ _ Hrc), decide_False.
  - intros id a b Hid Hb. destruct (Hback id a b Hid Hb). by apply (Hr id).
  - intros id a b Hid Hb. destruct (Hback id a b Hid Hb). by apply (Hs id).
  - intros a Ha. destruct (Hheld a Ha) as (b & Hb & Hsl & Hv). rewrite Hb. by eapply Hkeep.
Qed.

(** Indexing a private block adds the reference of the index. *)
Lemma indexed_accounted (w : world PrefixCache.PrefixCache) H a b i : accounted w H -> heap w !! a = Some b -> blocks_ (pool w) !! id_ b = Some (Some a) -> identity_ b = None ->
  forall w' : world PrefixCache.PrefixCache, heap w' = <[a := indexed_block (id_ b) i b]> (heap w) -> pool w' = pool w -> accounted w' H.
Proof.
  intros [Ho Hr Hs] Hb Hsl Hno w' Hh Hp.
  assert (forall id a' b', heap w' !! a' = Some b' -> blocks_ (pool w') !! id = Some (Some a') ->
    exists b0, heap w !! a' = Some b0 /\ blocks_ (pool w) !! id = Some (Some a') /\
      (b' = b0 \/ a' = a /\ b0 = b /\ b' = indexed_block (id_ b) i b)) as Hback.
  { intros id a' b'. rewrite Hh, Hp. destruct (decide (a' = a)) as [->|Hne].
    - rewrite lookup_insert_eq. intros [= <-] Hid. exists b. split_and!; [done..|]. by right.
    - rewrite lookup_insert_ne by done. intros Hb' Hid. exists b'. split_and!; [done..|by left]. }
  split.
  - eapply Forall_impl; [exact Ho|]. intros h (a' & b' & -> & Hb' & Hsl'). unfold owned. rewrite Hh, Hp. destruct (decide (a' = a)) as [->|Hne].
    + exists a, (indexed_block (id_ b) i b). split_and!; [done|apply lookup_insert_eq|done].
    + exists a', b'. rewrite lookup_insert_ne by done. done.
  - intros id a' b' Hid Hb'. destruct (Hback id a' b' Hb' Hid) as (b0 & Hb0 & Hid0 & [->|(-> & -> & ->)]); [by apply (Hr id)|].
    pose proof (Hr id a b Hid0 Hb0) as Href. unfold indexed_ref, HasIdentity in *. rewrite Hno in Href. cbn in *. lia.
  - intros id a' b' Hid Hb' Hc. destruct (Hback id a' b' Hb' Hid) as (b0 & Hb0 & Hid0 & [->|(-> & -> & ->)]); [by apply (Hs id a' b0)|].
    destruct (Hs id a b Hid0 Hb0 Hc) as [_ Hi]. unfold HasIdentity in Hi. by rewrite Hno in Hi.
Qed.
