(* ===== verification/PagedCacheProofs.v ===== *)
(** * Correctness of the paged key-value cache

    The invariant of the cache and that admission, growth and removal of requests keep
    it, never run into undefined behaviour or terminate the process, and change nothing
    when they throw; the snapshot of a cache in the invariant is what the engine's
    validator accepts. *)

From S2P Require Import Prelude BlockPool RequestIndex Positions PrefixCache PrefixCacheProofs Reservation ReservationProofs EngineInvariants PagedCache Accounting.

Open Scope nat_scope.

(** ** Plumbing *)

Lemma on_store_ok {A} (m : M (cache_state PrefixCache.PrefixCache) ReservationError A) c a s :
  m (store c) = (Ok a, s) -> on_store m c = (Ok a, set_store s c).
Proof. intros Hm. unfold on_store. by rewrite Hm. Qed.

Lemma on_main_ok {A} (m : M (world PrefixCache.PrefixCache) BlockError A) s a w :
  m (main s) = (Ok a, w) -> on_main m s = (Ok a, set_main w s).
Proof. intros Hm. unfold on_main. by rewrite Hm. Qed.

Lemma on_window_ok {A} (m : M (world unit) BlockError A) (s : cache_state PrefixCache.PrefixCache) a w w' :
  window s = Some w -> m w = (Ok a, w') -> on_window m s = (Ok a, set_window (Some w') s).
Proof. intros Hw Hm. unfold on_window. by rewrite Hw, Hm. Qed.

Lemma world_heap_id {O} (w : world O) : set_heap (heap w) w = w.
Proof. by destruct w. Qed.

Lemma set_store_id c : set_store (store c) c = c.
Proof. by destruct c. Qed.

(** ** The invariant *)

Section Invariant.
Context (cfg : PagedConfig).
Abbreviation ring := (ring_blocks_ cfg).
Implicit Types s : cache_state PrefixCache.PrefixCache.
Implicit Types t : PagedCacheBlockTable.

Definition held_blocks (l : list PagedCacheBlockTable) : list (option addr) := l ≫= fun t => items (table_blocks_ t).
Definition held_rings (l : list PagedCacheBlockTable) : list (option addr) := l ≫= fun t => items (window_blocks_ t).

(** Block [k] of a table holds the committed slots that fall into it. *)
Definition filled (h : gmap addr Block) (n committed : nat) (l : list (option addr)) : Prop :=
  forall k a b, l !! k = Some (Some a) -> h !! a = Some b -> size_ b = min n (committed - k * n).

Record table_ok s t : Prop := mk_table_ok
  { to_id : request_id_ t <> 0%N;
    to_NoDup : NoDup (items (table_blocks_ t));
    to_filled : filled (heap (main s)) (bs s) (committed_slots_ t) (items (table_blocks_ t));
    to_capacity : committed_slots_ t <= length (items (table_blocks_ t)) * bs s;
    to_ring : length (items (window_blocks_ t)) = ring;
    to_sealed : parent_held (observer (main s)) (sealed_identity_ t) }.

(** No block of the pool is indexed as a prefix. *)
Definition private_pool {O} (w : world O) : Prop :=
  forall id a b, blocks_ (pool w) !! id = Some (Some a) -> heap w !! a = Some b -> identity_ b = None.

Definition window_ok s : Prop :=
  match window s with
  | None => ring = 0
  | Some w => 0 < ring /\ pool_wf w /\ private_pool w /\ accounted w (held_rings (tables s))
  end.

(** The invariant: pool and prefix cache are consistent, the references of every block
    are those of its table entries and its index entry, the request index maps each
    request to its table, every table is densely filled up to its committed boundary
    and has one full window ring, and the slots of the pool can be counted. *)
Record paged_ok s : Prop := mk_paged_ok
  { po_cache : cache_ok (main s);
    po_account : accounted (main s) (held_blocks (tables s));
    po_width : (N.of_nat (pool_capacity_ (pool (main s)) * bs s) < two64)%N;
    po_window : window_ok s;
    po_index : index_sync s;
    po_indexed : is_Some (table_index s);
    po_tables : Forall (table_ok s) (tables s) }.

Lemma paged_bs s : paged_ok s -> 0 < bs s.
Proof. intros Hs. apply (pw_block_size _ (ck_pool _ (po_cache _ Hs))). Qed.

Lemma paged_ids s : paged_ok s -> NoDup (request_id_ <$> tables s).
Proof.
  intros Hs. pose proof (po_index _ Hs) as Hx. destruct (po_indexed _ Hs) as [ti Hti]. unfold index_sync in Hx. rewrite Hti in Hx.
  destruct Hx as [_ Hx]. apply NoDup_alt. intros i j x Hi Hj. rewrite list_lookup_fmap in Hi, Hj.
  destruct (tables s !! i) as [ti1|] eqn:Hi1; [|done]. destruct (tables s !! j) as [tj|] eqn:Hj1; [|done].
  injection Hi as Hi. injection Hj as Hj.
  assert (contents ti !! x = Some i) as H1 by (apply Hx; eauto). assert (contents ti !! x = Some j) as H2 by (apply Hx; eauto). congruence.
Qed.

Lemma find_table_Some id l i t : find_table id l = Some (i, t) -> l !! i = Some t /\ request_id_ t = id.
Proof. intros (Hl & Hid & _)%list_find_Some. done. Qed.

Lemma find_table_None id l : find_table id l = None -> id ∉ request_id_ <$> l.
Proof. intros Hf%list_find_None Hin. apply list_elem_of_fmap in Hin as (t & -> & Hin). rewrite Forall_forall in Hf. by apply (Hf t Hin). Qed.

Lemma find_index_run c id ti : table_index (store c) = Some ti -> find_index id c = (Ok (Find ti id), c).
Proof. intros Hti. unfold find_index, get_store. rewrite gets_bind, Hti. done. Qed.

Lemma indexed_missing s ti id : paged_ok s -> table_index s = Some ti -> Find ti id = None -> id ∉ request_id_ <$> tables s.
Proof.
  intros Hs Hti Hf Hin. pose proof (po_index _ Hs) as Hx. unfold index_sync in Hx. rewrite Hti in Hx. destruct Hx as [Hwf Hx].
  apply list_elem_of_fmap in Hin as (t & -> & [i Hi]%list_elem_of_lookup).
  assert (contents ti !! request_id_ t = Some i) as Hc by (apply Hx; eauto). rewrite (Find_contents ti _ Hwf), Hc in Hf. done.
Qed.

(** ** Admission *)

Lemma block_size_run c : paged_ok (store c) -> block_size c = (Ok (bs (store c)), c).
Proof.
  intros Hs. pose proof (paged_bs _ Hs) as Hbs. unfold block_size, get_store. rewrite gets_bind.
  by destruct (Nat.eqb_spec (bs (store c)) 0); [lia|].
Qed.

Lemma CanAdd_run c r : paged_ok (store c) -> exists ok, CanAdd cfg r c = (Ok ok, c) /\
  (ok = true -> BlocksNeeded (pool (main (store c))) (RequiredSlots r) <= AvailableBlocks (pool (main (store c))) /\
    forall w, window (store c) = Some w -> ring <= AvailableBlocks (pool w)).
Proof.
  intros Hs. unfold CanAdd, get_store. rewrite (bind_ok _ _ _ _ _ (block_size_run c Hs)), gets_bind.
  destruct (Nat.ltb_spec (AvailableBlocks (pool (main (store c)))) (BlocksNeeded (pool (main (store c))) (RequiredSlots r))) as [|Hle];
    [by exists false|]. unfold Windowed. pose proof (po_window _ Hs) as Hw. unfold window_ok in Hw.
  destruct (window (store c)) as [w|].
  - destruct Hw as (Hr & _). destruct (Nat.ltb_spec 0 ring); [cbn [negb]|lia]. eexists. split; [done|].
    intros Hav%Nat.leb_le. split; [done|]. by intros w' [= <-].
  - destruct (Nat.ltb_spec 0 ring); [lia|]. by exists true.
Qed.

Lemma filled_heap h h' n committed l : (forall a, Some a ∈ l -> h' !! a = h !! a) -> filled h n committed l -> filled h' n committed l.
Proof. intros Hh Hf k a b Hk Hb. rewrite Hh in Hb by (by eapply list_elem_of_lookup_2). by eapply Hf. Qed.

Lemma held_blocks_elem h l : h ∈ held_blocks l <-> exists t, t ∈ l /\ h ∈ items (table_blocks_ t).
Proof. unfold held_blocks. rewrite list_elem_of_bind. naive_solver. Qed.

Lemma table_valid s t a : paged_ok s -> t ∈ tables s -> Some a ∈ items (table_blocks_ t) -> is_Some (heap (main s) !! a).
Proof. intros Hs Ht Ha. eapply accounted_valid; [apply (po_account _ Hs)|apply held_blocks_elem; eauto|done]. Qed.

(** The tables of a cache whose blocks keep their contents. *)
Lemma tables_ok_heap s s' : bs s' = bs s -> (forall j, held (observer (main s)) j -> held (observer (main s')) j) ->
   (forall a, Some a ∈ held_blocks (tables s) -> heap (main s') !! a = heap (main s) !! a) ->
  Forall (table_ok s) (tables s) -> Forall (table_ok s') (tables s).
Proof.
  intros Hbs Hj Hh Hall. rewrite Forall_forall in Hall |- *. intros t Ht. destruct (Hall t Ht) as [H1 H2 H3 H4 H5 H6]. split; try done.
  - rewrite Hbs. eapply filled_heap; [|done]. intros a Ha. apply Hh. apply held_blocks_elem. eauto.
  - by rewrite Hbs.
  - intros p Hp. by apply Hj, H6.
Qed.

Lemma allocated_keeps {O} (w : world O) H n mark hs w' : accounted w H -> allocated w n mark hs w' ->
  forall a, Some a ∈ H -> heap w' !! a = heap w !! a.
Proof.
  intros Hac Hal a Ha. destruct (accounted_valid w H (Some a) a Hac Ha eq_refl) as [b Hb].
  rewrite Hb. by apply (al_heap _ _ _ _ _ Hal).
Qed.

Lemma allocated_sizes {O} (w : world O) n hs w' : allocated w n false hs w' -> forall k a b, hs !! k = Some a -> heap w' !! a = Some b -> size_ b = 0.
Proof.
  intros Hal k a b Hk Hb. pose proof (al_slots _ _ _ _ _ Hal) as Hsum. cbn in Hsum.
  assert (forall l : list nat, sum l = 0 -> forall x, x ∈ l -> x = 0) as Hzero.
  { induction l as [|y l IH]; intros Hl x Hx; [by apply not_elem_of_nil in Hx|]. change (y + sum l = 0) in Hl.
    apply elem_of_cons in Hx as [->|Hx]; [lia|]. apply IH; [lia|done]. }
  specialize (Hzero _ Hsum (used_slots w' a) ltac:(apply list_elem_of_fmap_2; by eapply list_elem_of_lookup_2)).
  unfold used_slots in Hzero. by rewrite Hb in Hzero.
Qed.

Lemma allocate_cache_ok w n mark hs w' : cache_ok w -> AllocateBlocks_ n mark w = (Ok hs, w') -> cache_ok w'.
Proof. intros Hw Hrun. pose proof (allocate_ok w n mark Hw) as Hok. by rewrite Hrun in Hok. Qed.

Lemma allocated_pool {O} (w : world O) n mark hs w' : pool_wf w -> AllocateBlocks_ n mark w = (Ok hs, w') ->
  block_size_ (pool w') = block_size_ (pool w) /\ pool_capacity_ (pool w') = pool_capacity_ (pool w).
Proof.
  intros Hwf Hrun. destruct (Nat.le_gt_cases (BlocksNeeded (pool w) n) (AvailableBlocks (pool w))) as [Hle|Hgt].
  - destruct (AllocateBlocks_run n mark w Hwf Hle) as (h & Hrun' & _). assert (w' = alloc_world w n h) as -> by congruence.
    unfold alloc_world. cbn. by case_bool_decide.
  - rewrite (AllocateBlocks_refused n mark w Hwf) in Hrun by done. done.
Qed.

Lemma allocated_private {O} (w : world O) n mark hs w' : pool_wf w -> private_pool w -> allocated w n mark hs w' -> private_pool w'.
Proof.
  intros Hwf Hp Hal id a b Hs Hb. destruct (al_only _ _ _ _ _ Hal id a Hs) as [Hin|Hold].
  - destruct (al_new _ _ _ _ _ Hal a Hin) as (_ & b' & Hb' & _ & _ & _ & Hi). congruence.
  - destruct (owned_slot w id a Hwf Hold) as (b0 & Hb0 & _). rewrite (al_heap _ _ _ _ _ Hal a b0 Hb0) in Hb.
    injection Hb as <-. by apply (Hp id a).
Qed.

(** A window pool with room gives a whole ring. *)
Lemma ring_allocated (w : world unit) H : pool_wf w -> private_pool w -> accounted w H -> ring <= AvailableBlocks (pool w) ->
  exists hs w', (p ← gets pool; AllocateBlocks (ring * block_size_ p)) w = (Ok hs, w') /\ length hs = ring /\
    pool_wf w' /\ private_pool w' /\ accounted w' (H ++ (Some <$> hs)).
Proof.
  intros Hwf Hp Hac Hroom. rewrite gets_bind. pose proof (pw_block_size _ Hwf) as Hbs.
  assert (BlocksNeeded (pool w) (ring * block_size_ (pool w)) = ring) as Hn.
  { unfold BlocksNeeded. rewrite Nat.div_mul, Nat.Div0.mod_mul by lia. cbn. lia. }
  destruct (AllocateBlocks_allocated (ring * block_size_ (pool w)) true w Hwf ltac:(lia)) as (hs & w' & Hrun & Hal).
  exists hs, w'. split; [done|]. rewrite (al_count _ _ _ _ _ Hal). split_and!; [done|apply Hal|by eapply allocated_private|].
  by eapply allocated_accounted.
Qed.

Lemma held_blocks_snoc l t : held_blocks (l ++ [t]) = held_blocks l ++ items (table_blocks_ t).
Proof. unfold held_blocks. rewrite bind_app. cbn. by rewrite app_nil_r. Qed.

Lemma held_rings_snoc l t : held_rings (l ++ [t]) = held_rings l ++ items (window_blocks_ t).
Proof. unfold held_rings. rewrite bind_app. cbn. by rewrite app_nil_r. Qed.

Lemma sync_snoc s ti ti' t : index_sync s -> table_index s = Some ti -> (request_id_ t ∉ request_id_ <$> tables s) ->
  index_wf ti' -> contents ti' = <[request_id_ t := length (tables s)]> (contents ti) ->
  forall s', tables s' = tables s ++ [t] -> table_index s' = Some ti' -> index_sync s'.
Proof.
  intros Hs Hti Hid Hwf' Hc s' Ht' Hti'. unfold index_sync in *. rewrite Hti in Hs. rewrite Hti', Ht', Hc. split; [done|].
  destruct Hs as [_ Hs]. intros id i. destruct (decide (id = request_id_ t)) as [->|Hne].
  - rewrite lookup_insert_eq. split.
    + intros [= <-]. exists t. rewrite list_lookup_middle by done. done.
    + intros (t' & Hl & Heq). apply lookup_app_Some in Hl as [Hl|[Hge Hl]].
      * destruct Hid. rewrite <-Heq. apply list_elem_of_fmap_2. by eapply list_elem_of_lookup_2.
      * apply list_lookup_singleton_Some in Hl as [Hz _]. f_equal. lia.
  - rewrite lookup_insert_ne, Hs by done. split; intros (t' & Hl & Heq); exists t'; (split; [|done]).
    + by apply lookup_app_l_Some.
    + apply lookup_app_Some in Hl as [Hl|[_ Hl]]; [done|]. apply list_lookup_singleton_Some in Hl as [_ ->]. done.
Qed.

(** What [Add] leaves: the reserved blocks and the ring of the new, empty table. *)
Definition added s r hs w (ring_hs : list addr) (win : option (world unit)) ti' : cache_state PrefixCache.PrefixCache :=
  mkState w win
    (tables s ++ [mkTable (cr_request_id r) 0 (mkVec (Some <$> hs) (length hs) (next_buffer s))
                    (mkVec (Some <$> ring_hs) (length ring_hs) (S (next_buffer s))) 0 None false 0])
    (max (tables_capacity s) (length (tables s) + 1)) (Some ti') (S (S (next_buffer s))).

Lemma added_ok s r hs w ring_hs win ti ti' : paged_ok s -> cr_request_id r <> 0%N -> (cr_request_id r ∉ request_id_ <$> tables s) ->
  table_index s = Some ti -> ReserveBlocks (RequiredSlots r) (main s) = (Ok hs, w) -> allocated (main s) (RequiredSlots r) false hs w ->
  length ring_hs = ring ->
  match win with
  | None => window s = None
  | Some w' => exists w0, window s = Some w0 /\ pool_wf w' /\ private_pool w' /\ accounted w' (held_rings (tables s) ++ (Some <$> ring_hs))
  end ->
  index_wf ti' -> contents ti' = <[cr_request_id r := length (tables s)]> (contents ti) ->
  paged_ok (added s r hs w ring_hs win ti').
Proof.
  intros Hs Hnz Hid Hti Hrun Hal Hring Hwin Hwf' Hc. pose proof (po_cache _ Hs) as Hck.
  destruct (allocated_pool _ _ _ _ _ (ck_pool _ Hck) Hrun) as [Hbs Hcap]. assert (bs (added s r hs w ring_hs win ti') = bs s) as Hbs' by done.
  split; cbn [main tables table_index added].
  - by eapply allocate_cache_ok.
  - rewrite held_blocks_snoc. eapply allocated_accounted; [apply Hck|apply Hs|done].
  - rewrite Hbs', Hcap. apply Hs.
  - unfold window_ok. cbn [window tables added]. pose proof (po_window _ Hs) as Hw. unfold window_ok in Hw. destruct win as [w'|].
    + destruct Hwin as (w0 & Hw0 & H1 & H2 & H3). rewrite Hw0 in Hw. rewrite held_rings_snoc. by split_and!; [apply Hw|..].
    + by rewrite Hwin in Hw.
  - eapply (sync_snoc s ti ti' (mkTable (cr_request_id r) 0 _ _ 0 None false 0)); [apply Hs|done|done|done|exact Hc|reflexivity|reflexivity].
  - by eexists.
  - apply Forall_app. split; [|apply Forall_singleton].
    + eapply tables_ok_heap; [done|cbn [main added]; by rewrite (al_observer _ _ _ _ _ Hal)| |apply Hs]. by eapply allocated_keeps; [apply Hs|].
    + split; cbn [request_id_ table_blocks_ window_blocks_ items committed_slots_]; [done| | |lia|by rewrite length_fmap|done].
      * apply NoDup_fmap_2; [apply _|apply Hal].
      * intros k a b. rewrite list_lookup_fmap. intros Hk Hb. destruct (hs !! k) as [x|] eqn:Hx; [|done]. injection Hk as <-.
        rewrite (allocated_sizes _ _ _ _ Hal k x b Hx Hb). lia.
Qed.

(** An operation that succeeds in the invariant, or throws without effect. *)
Definition keeps_ok {A} (r : outcome PagedError A * PagedKeyValueCache) (c : PagedKeyValueCache) : Prop :=
  match r with
  | (Ok _, c') => paged_ok (store c') /\ block_table_columns_ c' = block_table_columns_ c
  | (Throw _, c') => c' = c
  | _ => False
  end.

Lemma Add_ok c r : paged_ok (store c) -> cr_request_id r <> 0%N -> keeps_ok (Add cfg r c) c.
Proof.
  intros Hs Hnz. pose proof (po_cache _ Hs) as Hck. unfold Add. destruct (CanAdd_run c r Hs) as (ok & Hcan & Hroom).
  rewrite (bind_ok _ _ _ _ _ Hcan). destruct ok; cbn [negb]; [|done]. destruct (Hroom eq_refl) as [Hav Hwav].
  destruct (po_indexed _ Hs) as [ti Hti]. rewrite (bind_ok _ _ _ _ _ (find_index_run c _ ti Hti)). unfold get_store. rewrite gets_bind, Hti.
  destruct (Find ti (cr_request_id r)) as [i|] eqn:Hf; cbn [is_some orb]; [done|].
  destruct (Nat.leb_spec (max_entries_ ti) (index_size_ ti)) as [|Hfit]; [done|].
  pose proof (indexed_missing _ _ _ Hs Hti Hf) as Hid.
  destruct (AllocateBlocks_allocated (RequiredSlots r) false (main (store c)) (ck_pool _ Hck) Hav) as (hs & w & Hrun & Hal).
  rewrite (bind_ok _ _ _ _ _ (on_store_ok _ _ _ _ (on_main_ok _ _ _ _ Hrun))).
  set (s1 := set_main w (store c)). set (c1 := set_store s1 c).
  destruct (index_insert (store c) ti (cr_request_id r) (po_index _ Hs) Hti Hid Hnz Hfit) as (ti' & Hins & Hwf' & Hc' & _ & _).
  assert (exists ring_hs win, (if Windowed cfg then
      on_store (on_window (w ← gets pool; AllocateBlocks (ring * block_size_ w))) else mret []) c1 =
      (Ok ring_hs, set_store (set_window win s1) c) /\ length ring_hs = ring /\
      match win with
      | None => window (store c) = None
      | Some w' => exists w0, window (store c) = Some w0 /\ pool_wf w' /\ private_pool w' /\
          accounted w' (held_rings (tables (store c)) ++ (Some <$> ring_hs))
      end) as (ring_hs & win & Hringrun & Hlen & Hwin).
  { pose proof (po_window _ Hs) as Hw. unfold window_ok, Windowed in *. destruct (window (store c)) as [w0|] eqn:Hw0.
    - destruct Hw as (Hr & Hwf & Hp & Hac). destruct (Nat.ltb_spec 0 ring); [|lia].
      destruct (ring_allocated w0 _ Hwf Hp Hac (Hwav w0 eq_refl)) as (rh & w0' & Hrr & Hrl & ? & ? & ?).
      exists rh, (Some w0'). split_and!; [|done|eauto 10]. exact (on_store_ok _ c1 rh _ (on_window_ok _ s1 rh w0 w0' Hw0 Hrr)).
    - subst. rewrite Hw. exists [], None. split_and!; [|done..]. subst c1 s1. unfold set_window, set_main. cbn. by rewrite Hw0. }
  rewrite (bind_ok _ _ _ _ _ Hringrun). 
  unfold modify_store, mbind, M_bind, on_store, fresh_buffer, modify, gets. cbn -[Insert]. rewrite length_app, Nat.add_sub, Hins. cbn. split; [|done].
  by eapply (added_ok (store c) r hs w ring_hs win ti ti').
Qed.

(** ** Removal *)

Lemma reinsert_ok l : forall i ti c, index_wf ti -> NoDup (request_id_ <$> l) -> Forall (fun t => request_id_ t <> 0%N) l ->
  (forall t, t ∈ l -> contents ti !! request_id_ t = None) -> index_size_ ti + length l <= max_entries_ ti ->
  exists ti', reinsert i l ti c = (Ok ti', c) /\ index_wf ti' /\
    forall id k, contents ti' !! id = Some k <->
      contents ti !! id = Some k \/ i <= k /\ exists t, l !! (k - i) = Some t /\ request_id_ t = id.
Proof.
  induction l as [|t l IH]; intros i ti c Hwf Hnd Hnz Hfree Hroom; cbn [reinsert].
  - exists ti. split_and!; [done..|]. intros id k. split; [by left|]. intros [?|(_ & t & Ht & _)]; [done|]. by rewrite lookup_nil in Ht.
  - cbn in Hnd, Hroom. apply NoDup_cons in Hnd as [Hid Hnd]. apply Forall_cons in Hnz as [Hz Hnz].
    destruct (Insert_ok ti (request_id_ t) i Hwf Hz (Hfree t ltac:(left)) ltac:(lia)) as (ti1 & -> & Hwf1 & Hc1 & Hm1 & Hs1). cbn [negb].
    assert (forall t', t' ∈ l -> request_id_ t' <> request_id_ t) as Hne.
    { intros t' Ht' Heq. apply Hid. rewrite <-Heq. by apply list_elem_of_fmap_2. }
    destruct (IH (S i) ti1 c Hwf1 Hnd Hnz) as (ti' & -> & Hwf' & Hc').
    + intros t' Ht'. rewrite Hc1, lookup_insert_ne by (symmetry; by apply Hne). apply Hfree. by right.
    + rewrite Hm1, Hs1. lia.
    + exists ti'. split_and!; [done..|]. intros id k. rewrite Hc', Hc1, lookup_insert_Some. split.
      * intros [[[<- <-]|[_ Hk]]|(Hge & t' & Ht' & <-)]; [right|by left|right].
        -- split; [done|]. exists t. by rewrite Nat.sub_diag.
        -- split; [lia|]. exists t'. by replace (k - i) with (S (k - S i)) by lia.
      * intros [Hk|(Hge & t' & Ht' & <-)].
        -- left. right. split; [|done]. intros <-. rewrite (Hfree t ltac:(left)) in Hk. done.
        -- destruct (decide (k = i)) as [->|Hki]; [rewrite Nat.sub_diag in Ht'; injection Ht' as <-; left; by left|].
           right. split; [lia|]. exists t'. by replace (k - i) with (S (k - S i)) in Ht' by lia.
Qed.

Lemma Rebuild_ok c ti : table_index (store c) = Some ti -> index_wf ti -> NoDup (request_id_ <$> tables (store c)) ->
  Forall (fun t => request_id_ t <> 0%N) (tables (store c)) -> length (tables (store c)) <= max_entries_ ti ->
  exists ti', RebuildBlockTableIndex c = (Ok tt, set_store (set_table_index (Some ti') (store c)) c) /\
    index_sync (set_table_index (Some ti') (store c)).
Proof.
  intros Hti Hwf Hnd Hnz Hroom. unfold RebuildBlockTableIndex, get_store. rewrite gets_bind, Hti.
  assert (index_wf (Clear ti) /\ contents (Clear ti) = ∅) as [Hwf0 Hc0].
  { unfold Clear. destruct (iw_pow2 _ Hwf) as [b Hb]. rewrite Hb. split; [apply empty_table_wf; rewrite <-Hb; apply Hwf|apply empty_table_contents]. }
  destruct (reinsert_ok (tables (store c)) 0 (Clear ti) c Hwf0 Hnd Hnz) as (ti' & Hrun & Hwf' & Hc').
  - intros t _. by rewrite Hc0, lookup_empty.
  - done.
  - rewrite (bind_ok _ _ _ _ _ Hrun). exists ti'. split; [done|]. unfold index_sync. cbn. split; [done|].
    intros id k. rewrite Hc', Hc0, lookup_empty, Nat.sub_0_r. split; [intros [?|[_ ?]]; done|]. intros H. right. split; [lia|done].
Qed.

(** A table without its generation counter, which only reservations compare. *)
Definition regen t : PagedCacheBlockTable :=
  mkTable (request_id_ t) (committed_slots_ t) (table_blocks_ t) (window_blocks_ t) (sealed_blocks_ t) (sealed_identity_ t)
    (sealing_stopped_ t) 0.

Lemma swap_remove_ok i l t : l !! i = Some t -> items (table_blocks_ t) = [] -> items (window_blocks_ t) = [] ->
  exists l', swap_remove i l = Ok l' /\ regen <$> l' ≡ₚ regen <$> delete i l.
Proof.
  intros Hi Hb Hw. unfold swap_remove. rewrite Hi. destruct (last l) as [back|] eqn:Hlast; [|apply last_None in Hlast; by subst].
  apply last_Some in Hlast as [l0 ->]. rewrite length_app. cbn [length]. rewrite Nat.add_sub.
  destruct (Nat.eqb_spec i (length l0)) as [->|Hne].
  - rewrite take_app_length. exists l0. split; [done|]. rewrite list_lookup_middle in Hi by done. injection Hi as ->.
    rewrite delete_middle, app_nil_r. done.
  - assert (i < length l0) as Hlt by (apply lookup_lt_Some in Hi; rewrite length_app in Hi; cbn in Hi; lia).
    unfold assign_table. rewrite Hb, Hw, !bool_decide_eq_true_2 by done. cbn [negb orb].
    eexists. split; [reflexivity|]. rewrite lookup_app_l in Hi by done. rewrite insert_app_l by done.
    rewrite take_app_length' by (by rewrite length_insert). destruct (list_elem_of_split_length _ _ _ Hi) as (l1 & l2 & -> & ->).
    rewrite <-app_assoc. cbn [app]. rewrite delete_middle, insert_app_r_alt, Nat.sub_diag by done. cbn.
    rewrite !fmap_app. cbn. apply Permutation_app_head. rewrite Permutation_app_comm. done.
Qed.

Lemma held_delete l i t : l !! i = Some t -> held_blocks l ≡ₚ items (table_blocks_ t) ++ held_blocks (delete i l).
Proof. intros Hi. unfold held_blocks. rewrite (delete_Permutation l i t Hi) at 1. done. Qed.

Lemma rings_delete l i t : l !! i = Some t -> held_rings l ≡ₚ items (window_blocks_ t) ++ held_rings (delete i l).
Proof. intros Hi. unfold held_rings. rewrite (delete_Permutation l i t Hi) at 1. done. Qed.

Lemma held_regen l : held_blocks (regen <$> l) = held_blocks l.
Proof. unfold held_blocks. induction l as [|t l IH]; [done|]. cbn in *. by rewrite IH. Qed.

Lemma rings_regen l : held_rings (regen <$> l) = held_rings l.
Proof. unfold held_rings. induction l as [|t l IH]; [done|]. cbn in *. by rewrite IH. Qed.

Lemma held_perm l1 l2 : regen <$> l1 ≡ₚ regen <$> l2 -> held_blocks l1 ≡ₚ held_blocks l2.
Proof. intros Hp. rewrite <-(held_regen l1), <-(held_regen l2). unfold held_blocks. by rewrite Hp. Qed.

Lemma rings_perm l1 l2 : regen <$> l1 ≡ₚ regen <$> l2 -> held_rings l1 ≡ₚ held_rings l2.
Proof. intros Hp. rewrite <-(rings_regen l1), <-(rings_regen l2). unfold held_rings. by rewrite Hp. Qed.

Lemma ids_regen (l : list PagedCacheBlockTable) : request_id_ <$> (regen <$> l) = request_id_ <$> l.
Proof. by rewrite <-list_fmap_compose. Qed.

Lemma freed_private {O} (w : world O) bl w' : pool_wf w -> private_pool w -> freed w bl w' -> private_pool w'.
Proof.
  intros Hwf Hp Hfr id a b Hs Hb. destruct (blocks_ (pool w) !! id) as [[a0|]|] eqn:Hsl.
  - destruct (owned_slot w id a0 Hwf Hsl) as (b0 & Hb0 & _). pose proof (fr_owned _ _ _ Hfr id a0 b0 Hsl Hb0) as [Hh Hs'].
    rewrite Hs in Hs'. destruct (ref_count_ b0 =? _); [done|]. injection Hs' as <-. rewrite Hh in Hb. injection Hb as <-.
    pose proof (Hp id a b0 Hsl Hb0) as Hi. destruct (_ =? 0); [done|]. unfold drop_refs. by destruct (ref_count_ b0 =? _).
  - rewrite (fr_free _ _ _ Hfr id Hsl) in Hs. done.
  - apply lookup_ge_None in Hsl. apply lookup_lt_Some in Hs. rewrite (pw_length _ (fr_wf _ _ _ Hfr)), (fr_capacity _ _ _ Hfr),
      <-(pw_length _ Hwf) in Hs. lia.
Qed.

(** Blocks the remaining tables hold keep their contents. *)
Lemma freed_sizes {O} (w : world O) bl w' a b : pool_wf w -> owned w (Some a) -> freed w bl w' -> heap w' !! a = Some b ->
  exists b0, heap w !! a = Some b0 /\ size_ b = size_ b0.
Proof.
  intros Hwf (a' & b0 & [= <-] & Hb0 & Hs) Hfr Hb. pose proof (fr_owned _ _ _ Hfr (id_ b0) a b0 Hs Hb0) as [Hh _].
  exists b0. split; [done|]. rewrite Hb in Hh. injection Hh as ->. destruct (_ =? 0); [done|]. unfold drop_refs. by destruct (_ =? _).
Qed.

(** What removing table [i] leaves. *)
Record removed s (i : nat) t s' : Prop := mk_removed
  { rm_main : cache_ok (main s') /\ freed (main s) (items (table_blocks_ t)) (main s') /\
      identities (observer (main s')) = identities (observer (main s));
    rm_window : match window s, window s' with
                | None, None => True
                | Some w, Some w' => freed w (items (window_blocks_ t)) w'
                | _, _ => False
                end;
    rm_tables : regen <$> tables s' ≡ₚ regen <$> delete i (tables s);
    rm_index : index_sync s' /\ is_Some (table_index s') }.

Lemma removed_ok s i t s' : paged_ok s -> tables s !! i = Some t -> removed s i t s' -> paged_ok s'.
Proof.
  intros Hs Hi [(Hck & Hfr & Hids) Hwin Htab [Hsync Hti]]. pose proof (held_delete _ _ _ Hi) as Hheld. pose proof (ck_pool _ (po_cache _ Hs)) as Hwf.
  assert (held_blocks (tables s') ≡ₚ held_blocks (delete i (tables s))) as Hh by (by apply held_perm).
  assert (held_rings (tables s') ≡ₚ held_rings (delete i (tables s))) as Hr by (by apply rings_perm).
  assert (bs s' = bs s) as Hbs by apply (fr_block_size _ _ _ Hfr).
  split; try done.
  - rewrite Hh. eapply freed_accounted; [done|apply Hs|done|done].
  - rewrite Hbs, (fr_capacity _ _ _ Hfr). apply Hs.
  - unfold window_ok. pose proof (po_window _ Hs) as Hw. unfold window_ok in Hw.
    destruct (window s) as [w|], (window s') as [w'|]; try done. destruct Hw as (H1 & H2 & H3 & H4).
    split_and!; [done|apply Hwin|by eapply freed_private|]. rewrite Hr. eapply freed_accounted; [done|done|by apply rings_delete|done].
  - rewrite Forall_forall. intros t' Ht'. apply (list_elem_of_fmap_2 regen) in Ht'. rewrite Htab in Ht'.
    apply list_elem_of_fmap in Ht' as (t0 & Heq & Ht0). assert (t0 ∈ tables s) as Hin.
    { rewrite (delete_Permutation _ _ _ Hi). by right. }
    pose proof (po_tables _ Hs) as Hall. rewrite Forall_forall in Hall. destruct (Hall t0 Hin) as [H1 H2 H3 H4 H5 H6].
    unfold regen in Heq. injection Heq as E1 E2 E3 E4 _ E6 _. split; rewrite ?E1, ?E2, ?E3, ?E4, ?E6, ?Hbs; try done.
    2: { intros p Hp. unfold held. rewrite Hids. by apply H6. }
    intros k a b Hk Hb. assert (owned (main s) (Some a)) as Ho.
    { pose proof (ac_owned _ _ (po_account _ Hs)) as Hown. rewrite Forall_forall in Hown. apply Hown, held_blocks_elem.
      exists t0. split; [done|by eapply list_elem_of_lookup_2]. }
    destruct (freed_sizes _ _ _ a b Hwf Ho Hfr Hb) as (b0 & Hb0 & ->). by eapply H3.
Qed.

(** The steps of a removal on either pool. *)
Lemma validate_free_run {O} `{!BlockReferenceObserver O} (w : world O) bl : pool_wf w -> handles_valid w bl -> freeable w bl ->
  ValidateFree bl w = (Ok tt, w).
Proof. intros Hwf Hv Hf. by destruct (ValidateFree_spec w bl Hwf Hv) as [[? _]|(e & _ & ?)]. Qed.

Lemma can_free_run {O} `{!BlockReferenceObserver O} (w : world O) bl : pool_wf w -> handles_valid w bl -> freeable w bl ->
  exists w', CanFreeValidated bl w = (Ok true, w') /\ same_but_scratch w w' /\ pool_wf w'.
Proof.
  intros Hwf Hv Hf. destruct (CanFreeValidated_spec w bl Hwf Hv) as (ok & w' & Hrun & Hss & Hwf' & Hok).
  exists w'. by rewrite (proj2 Hok Hf) in Hrun.
Qed.

Lemma freeable_valid {O} (w : world O) bl : freeable w bl -> handles_valid w bl.
Proof. intros [Ho _] a Ha. rewrite Forall_forall in Ho. destruct (Ho _ Ha) as (a' & b & [= <-] & Hb & _). by exists b. Qed.

Lemma window_free_run (w : world unit) bl : pool_wf w -> freeable w bl -> exists w', FreeValidated bl w = (Ok tt, w') /\ freed w bl w'.
Proof.
  intros Hwf Hf. pose proof (freeable_valid _ _ Hf) as Hv. pose proof (Free_spec w bl Hwf Hv Hf) as Hrun. unfold Free in Hrun.
  rewrite (bind_ok _ _ _ _ _ (validate_free_run w bl Hwf Hv Hf)) in Hrun.
  destruct Hrun as [Hrun|(w' & _ & a & k & o & Href)]; [done|]. done.
Qed.

Lemma no_throw_ok {A} (m : M PagedKeyValueCache PagedError A) c a c' : m c = (Ok a, c') -> no_throw m c = (Ok a, c').
Proof. intros Hm. unfold no_throw. by rewrite Hm. Qed.

Lemma ValidateRemove_run c id : paged_ok (store c) -> ValidateRemove id c = (Ok tt, c).
Proof.
  intros Hs. unfold ValidateRemove, get_store. rewrite gets_bind. destruct (find_table id (tables (store c))) as [[i t]|] eqn:Hf; [|done].
  apply find_table_Some in Hf as [Hi _].
  assert (freeable (main (store c)) (items (table_blocks_ t))) as Hfm
    by (eapply accounted_freeable; [apply (po_cache _ Hs)|apply Hs|by apply held_delete]).
  rewrite (bind_ok _ _ _ _ _ (on_store_ok _ _ _ _ (on_main_ok _ _ _ _
    (validate_free_run _ _ (ck_pool _ (po_cache _ Hs)) (freeable_valid _ _ Hfm) Hfm)))).
  rewrite set_main_id, set_store_id. pose proof (po_window _ Hs) as Hw. unfold window_ok, windowed in *.
  destruct (window (store c)) as [w|] eqn:Hw0; [|done]. destruct Hw as (_ & Hwf & _ & Hac).
  assert (freeable w (items (window_blocks_ t))) as Hfw by (eapply accounted_freeable; [done|done|by apply rings_delete]).
  rewrite (on_store_ok _ _ _ _ (on_window_ok _ _ _ _ _ Hw0 (validate_free_run _ _ Hwf (freeable_valid _ _ Hfw) Hfw))).
  f_equal. destruct c as [[] cols]. unfold set_store, set_window. cbn in *. by subst.
Qed.

Lemma delete_alter {A} (f : A -> A) i (l : list A) : delete i (alter f i l) = delete i l.
Proof. revert i. induction l as [|x l IH]; intros [|i]; cbn; [done..|]. f_equal. apply IH. Qed.

(** Freeing both pools of a table: the state the removal continues from. *)
Lemma free_table_run c i t : paged_ok (store c) -> tables (store c) !! i = Some t ->
  exists w win, free_table t c =
      (Ok tt, set_store (set_window win (set_main w (store c))) c) /\
    cache_ok w /\ freed (main (store c)) (items (table_blocks_ t)) w /\ identities (observer w) = identities (observer (main (store c))) /\
    match window (store c), win with
    | None, None => True
    | Some w0, Some w' => freed w0 (items (window_blocks_ t)) w'
    | _, _ => False
    end.
Proof.
  intros Hs Hi. unfold free_table, get_store. rewrite gets_bind.
  pose proof (po_cache _ Hs) as Hck. pose proof (held_delete _ _ _ Hi) as Hheld.
  assert (freeable (main (store c)) (items (table_blocks_ t))) as Hfm
    by (eapply accounted_freeable; [apply Hck|apply Hs|done]).
  destruct (can_free_run _ _ (ck_pool _ Hck) (freeable_valid _ _ Hfm) Hfm) as (w1 & Hcan & Hss & Hwf1).
  destruct (FreeValidated_ok w1 (items (table_blocks_ t))) as (w2 & Hfree & Hck2 & Hfr & Hids).
  { by eapply cache_ok_scratch. }
  { eapply covered_scratch; [done|]. eapply accounted_covered; [apply Hs|done]. }
  { by apply (freeable_scratch _ _ _ Hss). }
  apply (freed_scratch (main (store c))) in Hfr; [|done]. assert (observer w1 = observer (main (store c))) as Ho by apply Hss. rewrite Ho in Hids.
  rewrite (bind_ok _ _ _ _ _ (on_store_ok _ _ _ _ (on_main_ok _ _ _ _ Hcan))). cbn [negb].
  pose proof (po_window _ Hs) as Hw. unfold window_ok, windowed in *. destruct (window (store c)) as [w0|] eqn:Hw0.
  - destruct Hw as (_ & Hwf & _ & Hac).
    assert (freeable w0 (items (window_blocks_ t))) as Hfw by (eapply accounted_freeable; [done|done|by apply rings_delete]).
    destruct (can_free_run _ _ Hwf (freeable_valid _ _ Hfw) Hfw) as (v1 & Hcanw & Hssw & Hwfv).
    destruct (window_free_run v1 (items (window_blocks_ t)) Hwfv) as (v2 & Hfreew & Hfrw); [by apply (freeable_scratch _ _ _ Hssw)|].
    apply (freed_scratch w0) in Hfrw; [|done]. exists w2, (Some v2). split_and!; try done.
    erewrite bind_ok; [|eapply on_store_ok, on_window_ok; [exact Hw0|exact Hcanw]]. cbn [negb].
    erewrite bind_ok; [|eapply on_store_ok, on_main_ok; exact Hfree].
    erewrite on_store_ok; [|eapply on_window_ok; [reflexivity|exact Hfreew]]. by destruct c as [[]].
  - exists w2, None. split_and!; try done. erewrite bind_ok by done. cbn [negb].
    erewrite bind_ok; [|eapply on_store_ok, on_main_ok; exact Hfree]. destruct c as [[] cols]. cbn in *. by subst.
Qed.

Lemma table_count s ti : paged_ok s -> table_index s = Some ti -> length (tables s) <= index_size_ ti.
Proof.
  intros Hs Hti. pose proof (po_index _ Hs) as Hx. unfold index_sync in Hx. rewrite Hti in Hx. destruct Hx as [Hwf Hx].
  rewrite <-(contents_size ti Hwf), <-(length_fmap request_id_), <-(size_list_to_set (C := gset N)) by (by apply paged_ids).
  rewrite <-size_dom. apply subseteq_size. intros id Hin%elem_of_list_to_set. apply list_elem_of_fmap in Hin as (t & -> & [i Hi]%list_elem_of_lookup).
  apply elem_of_dom. exists i. apply Hx. eauto.
Qed.

(** Removing a request succeeds: without a table it does nothing; with one, exactly
    that table and its references go. *)
Lemma Remove_run c id : paged_ok (store c) -> exists c', Remove id c = (Ok tt, c') /\ block_table_columns_ c' = block_table_columns_ c /\
  match find_table id (tables (store c)) with
  | None => c' = c
  | Some (i, t) => removed (store c) i t (store c')
  end.
Proof.
  intros Hs. unfold Remove. rewrite (bind_ok _ _ _ _ _ (ValidateRemove_run c id Hs)). unfold RemoveValidated.
  destruct (find_table id (tables (store c))) as [[i t]|] eqn:Hf.
  2: { exists c. split_and!; [|done..]. apply no_throw_ok. unfold get_store. rewrite gets_bind, Hf. done. }
  pose proof (find_table_Some _ _ _ _ Hf) as [Hi Hid]. destruct (free_table_run c i t Hs Hi) as (w & win & Hfree & Hck & Hfr & Hids & Hwin).
  set (s1 := set_window win (set_main w (store c))) in *.
  assert (alter clear_blocks i (tables (store c)) !! i = Some (clear_blocks t)) as Hi1 by (by rewrite list_lookup_alter_eq, Hi).
  destruct (swap_remove_ok i (alter clear_blocks i (tables (store c))) (clear_blocks t) Hi1 eq_refl eq_refl) as (l' & Hswap & Hperm).
  rewrite delete_alter in Hperm.
  destruct (po_indexed _ Hs) as [ti Hti]. pose proof (po_index _ Hs) as Hsync. unfold index_sync in Hsync. rewrite Hti in Hsync.
  set (c1 := set_store (set_tables l' s1) c).
  destruct (Rebuild_ok c1 ti) as (ti' & Hreb & Hsync'); [done|apply Hsync|..].
  - cbn. rewrite <-ids_regen, Hperm, ids_regen. pose proof (paged_ids _ Hs) as Hnd. rewrite (delete_Permutation _ _ _ Hi) in Hnd.
    cbn in Hnd. by apply NoDup_cons in Hnd as [_ Hnd].
  - cbn. apply Forall_forall. intros t' Ht'. apply (list_elem_of_fmap_2 regen) in Ht'. rewrite Hperm in Ht'.
    apply list_elem_of_fmap in Ht' as (t0 & Heq & Ht0). assert (t0 ∈ tables (store c)) as Hin by (rewrite (delete_Permutation _ _ _ Hi); by right).
    pose proof (po_tables _ Hs) as Hall. rewrite Forall_forall in Hall. unfold regen in Heq. injection Heq as -> _ _ _ _ _ _. apply (Hall t0 Hin).
  - cbn. rewrite <-(length_fmap regen), Hperm, length_fmap.
    assert (length (delete i (tables (store c))) <= length (tables (store c))) by (rewrite (delete_Permutation _ _ _ Hi) at 2; cbn; lia).
    pose proof (table_count (store c) ti Hs Hti). pose proof (iw_max _ (proj1 Hsync)). lia.
  - exists (set_store (set_table_index (Some ti') (set_tables l' s1)) c). split_and!; [|done|].
    + apply no_throw_ok. unfold get_store. rewrite gets_bind, Hf, (bind_ok _ _ _ _ _ Hfree).
      unfold update_table, modify_store. erewrite bind_ok by reflexivity. rewrite gets_bind. cbn [store set_store tables set_tables s1 set_window set_main].
      rewrite Hswap. erewrite bind_ok by reflexivity. erewrite bind_ok by reflexivity. exact Hreb.
    + by split.
Qed.

(** ** Growth *)

Lemma owned_available {O} (w : world O) : length (OwnedBlocks (pool w)) + AvailableBlocks (pool w) = length (blocks_ (pool w)).
Proof.
  unfold OwnedBlocks, AvailableBlocks. induction (blocks_ (pool w)) as [|[a|] l IH]; [done|..].
  - rewrite filter_cons_False by done. change (S (length (omap id l)) + length (filter (fun b => b = None) l) = S (length l)). lia.
  - rewrite filter_cons_True by done. change (length (omap id l) + S (length (filter (fun b => b = None) l)) = S (length l)). lia.
Qed.

(** The blocks of a table and the free blocks fit in the pool. *)
Lemma owned_room {O} (w : world O) l : Forall (owned w) l -> NoDup l -> length l + AvailableBlocks (pool w) <= length (blocks_ (pool w)).
Proof.
  intros Ho Hnd. rewrite <-owned_available. enough (length l <= length (OwnedBlocks (pool w))) by lia.
  rewrite <-(length_fmap Some (OwnedBlocks (pool w))). apply submseteq_length, NoDup_submseteq; [done|]. intros h Hh. rewrite Forall_forall in Ho.
  destruct (Ho h Hh) as (a & b & -> & _ & Hs). apply list_elem_of_fmap_2. unfold OwnedBlocks. apply list_elem_of_omap.
  exists (Some a). split; [by eapply list_elem_of_lookup_2|done].
Qed.

Lemma table_owned s t : paged_ok s -> t ∈ tables s -> Forall (owned (main s)) (items (table_blocks_ t)).
Proof.
  intros Hs Ht. pose proof (ac_owned _ _ (po_account _ Hs)) as Ho. rewrite Forall_forall in Ho |- *. intros h Hh.
  apply Ho, held_blocks_elem. eauto.
Qed.

Lemma table_room s t : paged_ok s -> t ∈ tables s ->
  (N.of_nat ((length (items (table_blocks_ t)) + AvailableBlocks (pool (main s))) * bs s) < two64)%N.
Proof.
  intros Hs Ht. pose proof (po_tables _ Hs) as Hall. rewrite Forall_forall in Hall. destruct (Hall t Ht) as [_ Hnd _ _ _ _].
  pose proof (owned_room (main s) _ (table_owned s t Hs Ht) Hnd) as Hle. rewrite (pw_length _ (ck_pool _ (po_cache _ Hs))) in Hle.
  pose proof (po_width _ Hs). nia.
Qed.

Lemma CanAppend_run c r i t : paged_ok (store c) -> find_table (cr_request_id r) (tables (store c)) = Some (i, t) ->
  CanAppendTokens r c = (Ok ((RequiredSlots r <=? committed_slots_ t) ||
    (RequiredSlots r <=? (length (items (table_blocks_ t)) + AvailableBlocks (pool (main (store c)))) * bs (store c))), c).
Proof.
  intros Hs Hf. unfold CanAppendTokens, get_store. rewrite gets_bind, Hf. apply find_table_Some in Hf as [Hi _].
  apply list_elem_of_lookup_2 in Hi. pose proof (table_room _ _ Hs Hi) as Hroom. pose proof (po_tables _ Hs) as Hall.
  rewrite Forall_forall in Hall. pose proof (to_capacity _ _ (Hall t Hi)) as Hcap.
  destruct (Nat.leb_spec (RequiredSlots r) (committed_slots_ t)) as [|Hlt]; [done|]. cbn [orb]. unfold mret, M_ret. do 2 f_equal.
  set (len := length (items (table_blocks_ t))) in *. set (av := AvailableBlocks (pool (main (store c)))) in *. set (n := bs (store c)) in *.
  rewrite u64_mul_small by nia. rewrite u64_sub_small by nia. rewrite (u64_mul_small (N.of_nat av)) by nia. rewrite u64_add_small by nia.
  destruct (Nat.leb_spec (RequiredSlots r) ((len + av) * n)); [apply N.leb_le|apply N.leb_gt]; nia.
Qed.

Lemma fill_tail_run l : forall n c s, fill_slots l n (store c) = (Ok tt, s) -> fill_tail l n c = (Ok tt, set_store s c).
Proof.
  induction l as [|h l IH]; intros n c s Hrun; cbn [fill_slots fill_tail] in *; destruct (n =? 0); try done.
  1, 2: injection Hrun as <-; by rewrite set_store_id.
  apply bind_inv_ok in Hrun as (b & s1 & Hd & Hrun). rewrite (bind_ok _ _ _ _ _ (on_store_ok _ _ _ _ Hd)).
  apply bind_inv_ok in Hrun as ([] & s2 & Hadd & Hrun). erewrite bind_ok; [|apply on_store_ok; exact Hadd].
  rewrite (IH _ (set_store s2 (set_store s1 c)) s Hrun). done.
Qed.

Lemma writes_from_prefix n target l : forall k, (Some <$> (writes_from n target k l).*1) `prefix_of` l.
Proof.
  induction l as [|[a|] l IH]; intros k; cbn [writes_from]; [done| |apply prefix_nil].
  destruct (k * n <? target); [|apply prefix_nil]. cbn. by apply prefix_cons.
Qed.

Lemma writes_addresses n committed target l : NoDup l ->
  NoDup (writes n committed target l).*1 /\ forall a, a ∈ (writes n committed target l).*1 -> Some a ∈ l.
Proof.
  intros Hnd. unfold writes. destruct (committed <? target); [|split; [apply NoDup_nil_2|by intros a ?%not_elem_of_nil]].
  pose proof (writes_from_prefix n target (drop (committed / n) l) (committed / n)) as Hp. split.
  - apply (NoDup_fmap_1 Some). eapply prefix_NoDup; [done|]. eapply sublist_NoDup; [exact Hnd|apply sublist_drop].
  - intros a Ha. apply (list_elem_of_fmap_2 Some) in Ha. eapply elem_of_prefix in Ha; [|done]. by eapply subseteq_drop.
Qed.

Section Fill.
Context (h : gmap addr Block) (n committed required : nat) (l : list (option addr)).
Context (Hn : 0 < n) (Hlive : forall a, Some a ∈ l -> exists b, h !! a = Some b /\ capacity_ b = n) (Hsome : Forall is_Some l).
Context (Hfilled : filled h n committed l) (Hcap : committed <= length l * n) (Hreq : committed <= required) (Hnd : NoDup l).
#[local] Abbreviation target := (min required (length l * n)).
#[local] Abbreviation ws := (writes n committed target l).

(** The tail the loop starts in can take the slots. *)
Lemma filled_fillable : forall m k, m = length l - k -> committed / n <= k -> fillable n committed target k (drop k l) h.
Proof.
  induction m as [|m IH]; intros k Hm Hk.
  - rewrite drop_ge by lia. cbn [fillable]. intros Hlt. assert (length l * n <= k * n) by (apply Nat.mul_le_mono_r; lia). lia.
  - destruct (lookup_lt_is_Some_2 l k ltac:(lia)) as [x Hx]. rewrite (drop_S l x k Hx). cbn [fillable]. intros Hlt.
    pose proof (list_elem_of_lookup_2 _ _ _ Hx) as Hin. rewrite Forall_forall in Hsome. destruct (Hsome x Hin) as [a ->].
    destruct (Hlive a Hin) as (b & Hb & Hc). split; [|apply IH; lia]. exists b. split_and!; [done..|].
    rewrite (Hfilled k a b Hx Hb). pose proof (Nat.div_mod committed n ltac:(lia)). pose proof (Nat.mod_upper_bound committed n ltac:(lia)).
    assert (n * (committed / n) <= n * k) by (apply Nat.mul_le_mono_l; lia). lia.
Qed.

Lemma in_writes a z : (a, z) ∈ ws <->
  exists j, committed < target /\ committed / n <= j /\ j * n < target /\ l !! j = Some (Some a) /\ z = min n (target - j * n).
Proof.
  unfold writes. destruct (Nat.ltb_spec committed target) as [Hlt|Hge].
  - rewrite (writes_from_spec n committed target _ h) by (by eapply filled_fillable). split.
    + intros (j & Hj & Hjn & Hl & ->). rewrite lookup_drop in Hl. exists j. split_and!; try done.
      by replace (committed / n + _) with j in Hl by lia.
    + intros (j & _ & Hj & Hjn & Hl & ->). exists j. split_and!; try done. rewrite lookup_drop. by replace (committed / n + _) with j by lia.
  - split; [by intros ?%not_elem_of_nil|]. intros (j & ? & _). lia.
Qed.

Lemma writes_open a z : (a, z) ∈ ws -> exists b, h !! a = Some b /\ IsFull b = false /\ size_ b <= z <= capacity_ b.
Proof.
  intros (j & Hct & Hj & Hjn & Hl & ->)%in_writes. pose proof (list_elem_of_lookup_2 _ _ _ Hl) as Hin.
  destruct (Hlive a Hin) as (b & Hb & Hc). exists b. pose proof (Hfilled j a b Hl Hb) as Hsz.
  pose proof (Nat.div_mod committed n ltac:(lia)). pose proof (Nat.mod_upper_bound committed n ltac:(lia)).
  assert (n * (committed / n) <= n * j) by (apply Nat.mul_le_mono_l; lia). split_and!; [done|apply Nat.eqb_neq; lia|lia..].
Qed.

(** After the writes, the old blocks hold the slots up to the new boundary. *)
Lemma filled_writes : filled (apply_writes ws h) n required l.
Proof.
  intros k a b Hk Hb. pose proof (writes_addresses n committed target l Hnd) as [Hndw _].
  assert (k < length l) as Hlen by (by eapply lookup_lt_Some).
  assert (S k * n <= length l * n) as Hkl by (apply Nat.mul_le_mono_r; lia).
  pose proof (Nat.div_mod committed n ltac:(lia)) as Hdm. pose proof (Nat.mod_upper_bound committed n ltac:(lia)) as Hmod.
  destruct (decide (a ∈ ws.*1)) as [([a' z] & Heq & Hin)%list_elem_of_fmap|Hno].
  - cbn in Heq. subst a'. pose proof Hin as (j & Hct & Hj & Hjn & Hl & ->)%in_writes.
    assert (j = k) as -> by (exact (NoDup_lookup _ _ _ _ Hnd Hl Hk)). destruct (writes_open _ _ Hin) as (b0 & Hb0 & _).
    rewrite (apply_writes_lookup _ _ _ _ _ Hndw Hin Hb0) in Hb. injection Hb as <-. cbn. lia.
  - rewrite apply_writes_frame in Hb by done. rewrite (Hfilled k a b Hk Hb).
    destruct (decide (committed / n <= k)) as [Hge|Hlt].
    + assert (~ (committed < target /\ k * n < target)) as Hout.
      { intros [Hct Hkt]. apply Hno. apply (list_elem_of_fmap_2 fst ws (a, min n (target - k * n))). apply in_writes. exists k. done. }
      assert (n * (committed / n) <= n * k) by (apply Nat.mul_le_mono_l; lia). lia.
    + assert (n * S k <= n * (committed / n)) by (apply Nat.mul_le_mono_l; lia). lia.
Qed.

Lemma filled_grow (hs : list addr) : (forall a, a ∈ hs -> Some a ∉ l) ->
  (forall k a b, hs !! k = Some a -> h !! a = Some b -> size_ b = min n (required - length l * n - k * n)) ->
  filled (apply_writes ws h) n required (l ++ (Some <$> hs)).
Proof.
  intros Hfresh Hsz k a b Hk Hb. apply lookup_app_Some in Hk as [Hk|[Hge Hk]]; [by eapply filled_writes|].
  rewrite list_lookup_fmap in Hk. destruct (hs !! (k - length l)) as [x|] eqn:Hx; [|done]. injection Hk as <-.
  rewrite apply_writes_frame in Hb.
  - rewrite (Hsz _ _ _ Hx Hb). nia.
  - intros Hin. apply (Hfresh x); [by eapply list_elem_of_lookup_2|]. by apply (writes_addresses n committed target l Hnd).
Qed.
End Fill.

(** The slots of the blocks an allocation creates, in order. *)
Lemma allocated_filled {O} (w : world O) n hs w' : pool_wf w -> AllocateBlocks n w = (Ok hs, w') ->
  forall k a b, hs !! k = Some a -> heap w' !! a = Some b -> size_ b = min (block_size_ (pool w)) (n - k * block_size_ (pool w)).
Proof.
  intros Hwf Hrun k a b Hk Hb. unfold AllocateBlocks in Hrun.
  destruct (Nat.le_gt_cases (BlocksNeeded (pool w) n) (AvailableBlocks (pool w))) as [Hle|Hgt];
    [|rewrite (AllocateBlocks_refused n true w Hwf) in Hrun by done; done].
  destruct (AllocateBlocks_run n true w Hwf Hle) as (h & Hrun' & Hh). assert (w' = alloc_world w n h) as -> by congruence.
  assert (hs = new_handles w n) as -> by congruence. unfold new_handles in Hk. apply lookup_seq in Hk as [-> Hk].
  cbn [heap alloc_world] in Hb. rewrite Hh, decide_True in Hb by lia. replace (next_addr w + k - next_addr w) with k in Hb by lia.
  by apply new_blocks_lookup in Hb as (i & _ & ->).
Qed.

Lemma held_rings_insert l i t t' : l !! i = Some t -> window_blocks_ t' = window_blocks_ t -> held_rings (<[i := t']> l) = held_rings l.
Proof.
  revert i. induction l as [|x l IH]; intros [|i] Hi Hw; cbn in *; [done..| |].
  - injection Hi as ->. unfold held_rings. cbn. by rewrite Hw.
  - unfold held_rings in *. cbn. by rewrite IH.
Qed.

Lemma held_blocks_insert l i t t' extra : l !! i = Some t -> items (table_blocks_ t') = items (table_blocks_ t) ++ extra ->
  held_blocks (<[i := t']> l) ≡ₚ held_blocks l ++ extra.
Proof.
  revert i. induction l as [|x l IH]; intros [|i] Hi Hw; cbn in *; [done..| |].
  - injection Hi as ->. unfold held_blocks. cbn. rewrite Hw. solve_Permutation.
  - unfold held_blocks in *. cbn. rewrite IH by done. by rewrite app_assoc.
Qed.

Lemma sync_ids s s' : index_sync s -> table_index s' = table_index s -> request_id_ <$> tables s' = request_id_ <$> tables s -> index_sync s'.
Proof.
  intros Hs Hti Hids. unfold index_sync in *. rewrite Hti. destruct (table_index s) as [ti|]; [|done]. destruct Hs as [Hwf Hs].
  split; [done|]. intros id i. rewrite Hs. 
  assert (forall l : list PagedCacheBlockTable, (exists t, l !! i = Some t /\ request_id_ t = id) <-> (request_id_ <$> l) !! i = Some id) as Heq.
  { intros l. rewrite list_lookup_fmap, fmap_Some. naive_solver. }
  by rewrite !Heq, Hids.
Qed.

Lemma accounted_generation {O} (w : world O) H : accounted w H -> accounted (set_pool (RecordOccupancyMutation (pool w)) w) H.
Proof. by intros [? ? ?]. Qed.

(** Growing the table at [i] from its committed boundary to [required]. *)
Section Grow.
Context (s : cache_state PrefixCache.PrefixCache) (i : nat) (t : PagedCacheBlockTable) (required : nat).
Context (hs : list addr) (w1 : world PrefixCache.PrefixCache).
#[local] Abbreviation n := (bs s).
#[local] Abbreviation l := (items (table_blocks_ t)).
#[local] Abbreviation new := (required - length l * n).
#[local] Abbreviation ws := (writes n (committed_slots_ t) (min required (length l * n)) l).
Context (Hs : paged_ok s) (Hi : tables s !! i = Some t) (Hreq : committed_slots_ t < required).
Context (Hrun : AllocateBlocks new (main s) = (Ok hs, w1)) (Hal : allocated (main s) new true hs w1).

Lemma grow_table : table_ok s t.
Proof. pose proof (po_tables _ Hs) as Hall. rewrite Forall_forall in Hall. apply Hall. by eapply list_elem_of_lookup_2. Qed.

Lemma grow_old a : Some a ∈ held_blocks (tables s) -> heap w1 !! a = heap (main s) !! a.
Proof. eapply allocated_keeps; [apply Hs|exact Hal]. Qed.

Lemma grow_held a : Some a ∈ l -> Some a ∈ held_blocks (tables s).
Proof. intros Ha. apply held_blocks_elem. exists t. split; [by eapply list_elem_of_lookup_2|done]. Qed.

Lemma grow_live a : Some a ∈ l -> exists b, heap w1 !! a = Some b /\ capacity_ b = n.
Proof.
  intros Ha. pose proof (table_owned s t Hs ltac:(by eapply list_elem_of_lookup_2)) as Ho. rewrite Forall_forall in Ho.
  destruct (Ho _ Ha) as (a' & b & [= <-] & Hb & Hsl). exists b. split; [by rewrite grow_old by (by apply grow_held)|].
  destruct (pw_slot _ (ck_pool _ (po_cache _ Hs)) _ _ Hsl) as (b' & Hb' & Hbw). assert (b' = b) as -> by congruence. apply Hbw.
Qed.

Lemma grow_some : Forall is_Some l.
Proof.
  eapply Forall_impl; [apply (table_owned s t Hs); by eapply list_elem_of_lookup_2|]. intros h. apply owned_some.
Qed.

Lemma grow_filled : filled (heap w1) n (committed_slots_ t) l.
Proof. eapply filled_heap; [|apply (to_filled _ _ grow_table)]. intros a Ha. by apply grow_old, grow_held. Qed.

Lemma grow_fillable k : committed_slots_ t / n <= k ->
  fillable n (committed_slots_ t) (min required (length l * n)) k (drop k l) (heap w1).
Proof.
  intros Hk. exact (filled_fillable _ n (committed_slots_ t) required l (paged_bs _ Hs) grow_live grow_some grow_filled
    (to_capacity _ _ grow_table) (Nat.lt_le_incl _ _ Hreq) _ k eq_refl Hk).
Qed.

Lemma grow_writes a z : (a, z) ∈ ws -> exists b, heap w1 !! a = Some b /\ IsFull b = false /\ size_ b <= z <= capacity_ b.
Proof.
  exact (writes_open _ n (committed_slots_ t) required l (paged_bs _ Hs) grow_live grow_some grow_filled
    (to_capacity _ _ grow_table) (Nat.lt_le_incl _ _ Hreq) a z).
Qed.

(** The blocks of another table are full where the two share them, so they stay as they are. *)
Lemma grow_other j u a : tables s !! j = Some u -> j <> i -> Some a ∈ items (table_blocks_ u) ->
  apply_writes ws (heap w1) !! a = heap (main s) !! a.
Proof.
  intros Hj Hne Ha. assert (Some a ∈ held_blocks (tables s)) as Hin by (apply held_blocks_elem; exists u; split; [by eapply list_elem_of_lookup_2|done]).
  rewrite <-(grow_old a Hin). apply apply_writes_frame. intros Hw. pose proof Hw as ([a' z] & Heq & Hz)%list_elem_of_fmap. cbn in Heq. subst a'.
  destruct (grow_writes a z Hz) as (b & Hb & Hfull & _). rewrite grow_old in Hb by done.
  pose proof (po_account _ Hs) as Hac. pose proof (ac_owned _ _ Hac) as Ho. rewrite Forall_forall in Ho.
  destruct (Ho _ Hin) as (a' & b' & [= <-] & Hb' & Hsl). assert (b' = b) as -> by congruence.
  destruct (ac_shared _ _ Hac _ a b Hsl Hb) as [Hf _]; [|congruence].
  assert (Some a ∈ l) as Hl by (eapply writes_addresses; [apply grow_table|exact Hw]).
  assert (tables s ≡ₚ t :: u :: delete (if decide (j < i) then j else j - 1) (delete i (tables s))) as Hp.
  { rewrite (delete_Permutation _ _ _ Hi) at 1. apply Permutation_skip, delete_Permutation. case_decide.
    - by rewrite list_lookup_delete_lt by lia.
    - rewrite list_lookup_delete_ge by lia. by replace (S (j - 1)) with j by lia. }
  assert (held_blocks (tables s) ≡ₚ l ++ items (table_blocks_ u) ++
    held_blocks (delete (if decide (j < i) then j else j - 1) (delete i (tables s)))) as -> by (unfold held_blocks; by rewrite Hp at 1).
  rewrite !copies_app. apply copies_pos in Ha, Hl. lia.
Qed.

Lemma grow_fresh a : a ∈ hs -> Some a ∉ l.
Proof.
  intros Hin Hl. destruct (al_new _ _ _ _ _ Hal a Hin) as [Hnone _].
  destruct (table_valid s t a Hs ltac:(by eapply list_elem_of_lookup_2) Hl) as [b Hb]. congruence.
Qed.

Lemma grow_room : required <= (length l + length hs) * n.
Proof.
  rewrite (al_count _ _ _ _ _ Hal). unfold BlocksNeeded.
  pose proof (blocks_needed_bounds (block_size_ (pool (main s))) new (paged_bs _ Hs)) as [Hb _]. cbn zeta in Hb. unfold bs in *. nia.
Qed.

Definition grown_main : world PrefixCache.PrefixCache :=
  let w := set_heap (apply_writes ws (heap w1)) w1 in set_pool (RecordOccupancyMutation (pool w)) w.

Lemma grown_ok t' s' : request_id_ t' = request_id_ t -> sealed_identity_ t' = sealed_identity_ t -> items (table_blocks_ t') = l ++ (Some <$> hs) -> window_blocks_ t' = window_blocks_ t ->
  committed_slots_ t' = required -> main s' = grown_main -> window s' = window s -> tables s' = <[i := t']> (tables s) ->
  table_index s' = table_index s -> paged_ok s'.
Proof.
  intros Hid Hseal Hitems Hwin Hcom Hm Hw Ht Hti. pose proof (po_cache _ Hs) as Hck. pose proof grow_table as Hto.
  destruct (allocated_pool _ _ _ _ _ (ck_pool _ Hck) Hrun) as [Hbs Hcap].
  assert (bs s' = n) as Hbs' by (unfold bs; by rewrite Hm).
  destruct (writes_addresses n (committed_slots_ t) (min required (length l * n)) l (to_NoDup _ _ Hto)) as [Hndw _].
  split.
  - rewrite Hm. unfold grown_main. cbn zeta. apply cache_ok_generation, writes_cache_ok; [by eapply allocate_cache_ok|done|].
    intros a z Hz. destruct (grow_writes a z Hz) as (b & Hb & _ & Hle). by exists b.
  - rewrite Hm, Ht, (held_blocks_insert _ _ _ _ _ Hi Hitems). unfold grown_main. cbn zeta. apply accounted_generation, writes_accounted; [|done|].
    + eapply allocated_accounted; [apply Hck|apply Hs|exact Hal].
    + intros a z Hz. destruct (grow_writes a z Hz) as (b & Hb & Hf & _). by exists b.
  - rewrite Hbs', Hm. cbn. rewrite Hcap. apply Hs.
  - pose proof (po_window _ Hs) as Hwo. unfold window_ok in *. by rewrite Hw, Ht, (held_rings_insert _ _ _ _ Hi Hwin).
  - eapply sync_ids; [apply Hs|done|]. rewrite Ht, list_fmap_insert, Hid. apply list_insert_id. by rewrite list_lookup_fmap, Hi.
  - rewrite Hti. apply Hs.
  - rewrite Ht. apply Forall_lookup. intros j u Hj. assert (heap (main s') = apply_writes ws (heap w1)) as Hh by (by rewrite Hm).
    assert (observer (main s') = observer (main s)) as Hobs by (rewrite Hm; apply (al_observer _ _ _ _ _ Hal)).
    destruct (decide (j = i)) as [->|Hne].
    + rewrite list_lookup_insert_eq in Hj by (by eapply lookup_lt_Some). injection Hj as <-. split.
      * rewrite Hid. apply Hto.
      * rewrite Hitems. apply NoDup_app. split_and!; [apply Hto| |apply NoDup_fmap_2; [apply _|apply Hal]].
        intros h Hh1 (a & -> & Ha)%list_elem_of_fmap. by apply (grow_fresh a).
      * rewrite Hbs', Hh, Hcom, Hitems. apply filled_grow; try done; try apply Hto; [apply paged_bs, Hs|apply grow_live|apply grow_some|
          apply grow_filled|lia|apply grow_fresh|by apply (allocated_filled (main s)); [apply Hck|]].
      * rewrite Hbs', Hcom, Hitems, length_app, length_fmap. apply grow_room.
      * rewrite Hwin. apply Hto.
      * rewrite Hseal, Hobs. apply Hto.
    + rewrite list_lookup_insert_ne in Hj by done. pose proof (po_tables _ Hs) as Hall. rewrite Forall_lookup in Hall.
      destruct (Hall j u Hj) as [H1 H2 H3 H4 H5 H6]. split; rewrite ?Hbs', ?Hobs; try done. rewrite Hh. eapply filled_heap; [|exact H3].
      intros a Ha. by eapply grow_other.
Qed.

(** The loop over the tail writes exactly these slots. *)
Lemma grow_fill c : main (store c) = w1 ->
  fill_tail (drop (committed_slots_ t / n) l) (min required (length l * n) - committed_slots_ t) c =
    (Ok tt, set_store (set_main (set_heap (apply_writes ws (heap w1)) w1) (store c)) c).
Proof.
  intros Hm. pose proof (paged_bs _ Hs) as Hn. pose proof (to_capacity _ _ grow_table) as Hcap. unfold writes.
  destruct (Nat.ltb_spec (committed_slots_ t) (min required (length l * n))) as [Hlt|Hge].
  - apply fill_tail_run. rewrite <-Hm at 1.
    pose proof (Nat.div_mod (committed_slots_ t) n ltac:(lia)). pose proof (Nat.mod_upper_bound (committed_slots_ t) n ltac:(lia)).
    pose proof (fill_slots_ok n (committed_slots_ t) (min required (length l * n)) (drop (committed_slots_ t / n) l) Hn Hlt
      (committed_slots_ t / n) (store c) ltac:(lia)) as Hfill.
    replace (max (committed_slots_ t / n * n) (committed_slots_ t)) with (committed_slots_ t) in Hfill by lia.
    rewrite Hfill, Hm; [done| |rewrite Hm; by apply grow_fillable].
    pose proof (writes_addresses n (committed_slots_ t) (min required (length l * n)) l (to_NoDup _ _ grow_table)) as [Hnd _].
    unfold writes in Hnd. by rewrite (proj2 (Nat.ltb_lt _ _) Hlt) in Hnd.
  - replace (min required (length l * n) - committed_slots_ t) with 0 by lia. cbn [apply_writes foldl].
    destruct (drop (committed_slots_ t / n) l); cbn; rewrite world_heap_id, <-Hm; by destruct c as [[] ?].
Qed.
End Grow.

Lemma alter_twice {A} (f g : A -> A) (i : nat) (l : list A) x : l !! i = Some x -> alter f i (alter g i l) = <[i := f (g x)]> l.
Proof. revert i. induction l as [|y l IH]; intros [|i] Hi; cbn in *; [done..| |]; [by injection Hi as ->|]. by rewrite <-IH. Qed.

(** Growth succeeds in the invariant or throws without effect. *)
Lemma AppendTokens_ok c r : paged_ok (store c) -> keeps_ok (AppendTokens cfg r c) c.
Proof.
  intros Hs. unfold AppendTokens. destruct (find_table (cr_request_id r) (tables (store c))) as [[i t]|] eqn:Hf.
  2: { unfold CanAppendTokens, get_store, mbind, M_bind, gets. by rewrite Hf. }
  rewrite (bind_ok _ _ _ _ _ (CanAppend_run c r i t Hs Hf)). destruct (_ || _) eqn:Hcan; cbn [negb]; [|done].
  destruct (_ && _); [done|]. unfold get_store. rewrite gets_bind, Hf. apply find_table_Some in Hf as [Hi _].
  destruct (Nat.leb_spec (RequiredSlots r) (committed_slots_ t)) as [Hle|Hreq]; [done|]. cbn [orb] in Hcan. apply Nat.leb_le in Hcan.
  rewrite (bind_ok _ _ _ _ _ (block_size_run c Hs)). pose proof (list_elem_of_lookup_2 _ _ _ Hi) as Hin.
  pose proof (table_room _ _ Hs Hin) as Hroom. pose proof (to_capacity _ _ (grow_table _ _ _ Hs Hi)) as Hcap.
  rewrite u64_mul_small, u64_sub_small by nia.
  set (n := bs (store c)) in *. set (l := items (table_blocks_ t)) in *. set (new := RequiredSlots r - length l * n).
  replace (if _ <? _ then _ else 0) with new by (subst new; destruct (Nat.ltb_spec (N.to_nat (N.of_nat (length l) * N.of_nat n - N.of_nat (committed_slots_ t)))
    (RequiredSlots r - committed_slots_ t)); lia).
  replace (RequiredSlots r - committed_slots_ t - new) with (min (RequiredSlots r) (length l * n) - committed_slots_ t) by lia.
  assert (BlocksNeeded (pool (main (store c))) new <= AvailableBlocks (pool (main (store c)))) as Hav.
  { pose proof (blocks_needed_bounds (block_size_ (pool (main (store c)))) new (paged_bs _ Hs)) as [_ Hb]. cbn zeta in Hb.
    unfold BlocksNeeded. subst new n. unfold bs in *. nia. }
  destruct (AllocateBlocks_allocated new true (main (store c)) (ck_pool _ (po_cache _ Hs)) Hav) as (hs & w1 & Hrun & Hal).
  pose proof (grow_fill (store c) i t (RequiredSlots r) hs w1 Hs Hi Hreq Hal) as Hfill.
  pose proof (grown_ok (store c) i t (RequiredSlots r) hs w1 Hs Hi Hreq Hrun Hal) as Hok.
  unfold update_table, modify_store. erewrite bind_ok by reflexivity. erewrite bind_ok by reflexivity.
  erewrite bind_ok; [|eapply on_store_ok, on_main_ok; exact Hrun]. erewrite bind_ok; [|apply Hfill; reflexivity].
  erewrite bind_ok by reflexivity. erewrite bind_ok by reflexivity. cbn -[bs grown_main RequiredSlots alter]. split; [|done].
  eapply Hok; [..|apply (alter_twice _ _ _ _ t Hi)|]; try done; cbn; unfold append, reserve; repeat case_match; done.
Qed.

(** ** Snapshots *)

Definition slots_in {O} (w : world O) (h : option addr) : nat := default 0 (used_slots w <$> h).

Lemma owned_ids {O} (w : world O) l : Forall (owned w) l -> NoDup l -> NoDup (block_id w <$> l).
Proof.
  intros Ho Hnd. apply NoDup_fmap_2_strong; [|done]. intros h1 h2 H1 H2. rewrite Forall_forall in Ho.
  apply block_id_inj; by apply Ho.
Qed.

Lemma owned_range {O} (w : world O) l : pool_wf w -> Forall (owned w) l -> Forall (fun b => b < pool_capacity_ (pool w)) (block_id w <$> l).
Proof.
  intros Hwf Ho. apply Forall_fmap. eapply Forall_impl; [exact Ho|]. intros h (a & b & -> & Hb & Hsl). cbn. rewrite Hb, <-(pw_length _ Hwf).
  by eapply lookup_lt_Some.
Qed.

Lemma table_snapshot_run c id l : pool_wf (main (store c)) -> Forall (owned (main (store c))) l -> exists r,
  table_snapshot id l c = (Ok r, c) /\ rb_request_id r = id /\ rb_block_ids r = block_id (main (store c)) <$> l /\
  rb_used_slots r = sum (slots_in (main (store c)) <$> l) /\ rb_used_slots r + rb_empty_slots r = length l * bs (store c).
Proof.
  intros Hwf. induction 1 as [|h l (a & b & -> & Hb & Hsl) _ (r & Hrun & Hid & Hids & Hu & He)]; cbn [table_snapshot]; [by eexists|].
  destruct (pw_slot _ Hwf _ _ Hsl) as (b' & Hb' & Hbw). assert (b' = b) as -> by congruence.
  assert (deref_main (Some a) (store c) = (Ok b, store c)) as Hd.
  { destruct c as [[] ?]. cbn in *. unfold deref_main, on_main. cbn. by rewrite (deref_ok a b main Hb). }
  rewrite (bind_ok _ _ _ _ _ (on_store_ok _ _ _ _ Hd)), set_store_id, (bind_ok _ _ _ _ _ Hrun). eexists. split; [done|].
  cbn [rb_request_id rb_block_ids rb_used_slots rb_empty_slots]. rewrite !fmap_cons. split_and!; [done|..].
  - rewrite Hids. f_equal. cbn. by rewrite Hb.
  - rewrite Hu. cbn [slots_in fmap option_fmap option_map default]. unfold used_slots. rewrite Hb. done.
  - pose proof (bw_capacity _ _ _ Hbw). pose proof (bw_size _ _ _ Hbw). unfold EmptySlots, bs in *. cbn [length]. lia.
Qed.

Lemma map_k_run {A B} (f : A -> KM B) (P : A -> B -> Prop) c l : (forall x, x ∈ l -> exists y, f x c = (Ok y, c) /\ P x y) ->
  exists ys, map_k f l c = (Ok ys, c) /\ Forall2 P l ys.
Proof.
  induction l as [|x l IH]; intros Hf; cbn [map_k]; [by eexists|]. destruct (Hf x ltac:(left)) as (y & Hy & Hp).
  destruct IH as (ys & Hys & Hall); [intros z Hz; apply Hf; by right|].
  rewrite (bind_ok _ _ _ _ _ Hy), (bind_ok _ _ _ _ _ Hys). exists (y :: ys). by split; [|constructor].
Qed.

Lemma window_snapshot_run c w id l : window (store c) = Some w -> Forall (owned w) l -> exists r,
  window_table_snapshot id l c = (Ok r, c) /\ rb_request_id r = id /\ rb_block_ids r = block_id w <$> l.
Proof.
  intros Hw. induction 1 as [|h l (a & b & -> & Hb & Hsl) _ (r & Hrun & Hid & Hids)]; cbn [window_table_snapshot]; [by eexists|].
  assert (deref_window (Some a) (store c) = (Ok b, store c)) as Hd.
  { destruct c as [[] ?]. cbn in *. subst. unfold deref_window, on_window. cbn. by rewrite (deref_ok a b w Hb). }
  rewrite (bind_ok _ _ _ _ _ (on_store_ok _ _ _ _ Hd)), set_store_id, (bind_ok _ _ _ _ _ Hrun). eexists. split; [done|].
  cbn [rb_request_id rb_block_ids]. rewrite fmap_cons, Hids. split; [done|]. f_equal. cbn. by rewrite Hb.
Qed.

Definition cached {O} (w : world O) (a : addr) (x : CachedBlockSnapshot) : Prop :=
  exists b, heap w !! a = Some b /\ x = mkCachedBlock (id_ b) (ref_count_ b) (size_ b) (IsFull b) (HasIdentity b).

Lemma block_snapshots_run c l : (forall a, a ∈ l -> is_Some (heap (main (store c)) !! a)) ->
  exists xs, block_snapshots l c = (Ok xs, c) /\ Forall2 (cached (main (store c))) l xs.
Proof.
  induction l as [|a l IH]; intros Hl; cbn [block_snapshots]; [by eexists|]. destruct (Hl a ltac:(left)) as [b Hb].
  destruct IH as (xs & Hxs & Hall); [intros z Hz; apply Hl; by right|].
  rewrite (bind_ok _ _ _ _ _ (on_store_ok _ _ _ _ (on_main_ok _ _ _ _ (deref_ok a b _ Hb)))).
  replace (set_store _ c) with c by (by destruct c as [[] ?]). rewrite (bind_ok _ _ _ _ _ Hxs).
  eexists. split; [done|]. constructor; [|done]. by exists b.
Qed.

(** A densely filled table holds its committed slots. *)
Lemma filled_sum h n committed l : 0 < n -> (forall x, x ∈ l -> exists a b, x = Some a /\ h !! a = Some b) -> filled h n committed l ->
  committed <= length l * n -> sum ((fun x => match x with Some a => match h !! a with Some b => size_ b | None => 0 end | None => 0 end) <$> l) = committed.
Proof.
  intros Hn Hl Hf Hc. transitivity (sum (slots_of n committed true <$> seq 0 (length l))); [|rewrite sum_slots_of; lia].
  f_equal. apply list_eq. intros k. rewrite !list_lookup_fmap. destruct (l !! k) as [x|] eqn:Hk.
  - rewrite (proj2 (lookup_seq 0 _ k k)) by (split; [done|by eapply lookup_lt_Some]). cbn. f_equal.
    destruct (Hl x (list_elem_of_lookup_2 _ _ _ Hk)) as (a & b & -> & Hb). rewrite Hb. by apply (Hf k a).
  - apply lookup_ge_None in Hk. rewrite (lookup_ge_None_2 (seq _ _)); [done|]. by rewrite length_seq.
Qed.

(** What the snapshot of a table says. *)
Record table_seen s t (r : RequestBlockSnapshot) : Prop := mk_table_seen
  { ts_id : rb_request_id r = request_id_ t;
    ts_ids : rb_block_ids r = block_id (main s) <$> items (table_blocks_ t);
    ts_used : rb_used_slots r = committed_slots_ t;
    ts_slots : rb_used_slots r + rb_empty_slots r = length (items (table_blocks_ t)) * bs s }.

Lemma table_seen_run c t : paged_ok (store c) -> t ∈ tables (store c) ->
  exists r, table_snapshot (request_id_ t) (items (table_blocks_ t)) c = (Ok r, c) /\ table_seen (store c) t r.
Proof.
  intros Hs Ht. pose proof (table_owned _ _ Hs Ht) as Ho. pose proof (po_tables _ Hs) as Hall. rewrite Forall_forall in Hall.
  destruct (Hall t Ht) as [_ _ Hf Hc _ _].
  destruct (table_snapshot_run c (request_id_ t) _ (ck_pool _ (po_cache _ Hs)) Ho) as (r & Hrun & Hid & Hids & Hu & He).
  exists r. split; [done|]. split; try done. rewrite Hu. 
  rewrite <-(filled_sum (heap (main (store c))) (bs (store c)) (committed_slots_ t) (items (table_blocks_ t)) (paged_bs _ Hs)) at 1; [|..|exact Hf|exact Hc].
  2: { intros x Hx. rewrite Forall_forall in Ho. destruct (Ho x Hx) as (a & b & -> & Hb & _). by exists a, b. }
  f_equal. apply list_fmap_ext. intros _ [a|] _; done.
Qed.

Lemma NoDup_omap_id {A} (l : list (option A)) : (forall i j a, l !! i = Some (Some a) -> l !! j = Some (Some a) -> i = j) -> NoDup (omap id l).
Proof.
  induction l as [|[x|] l IH]; intros Hl; [apply NoDup_nil_2| |].
  - change (NoDup (x :: omap id l)). apply NoDup_cons. split.
    + intros (y & Hy & Heq)%list_elem_of_omap. cbn in Heq. subst y. apply list_elem_of_lookup in Hy as [j Hj]. specialize (Hl 0 (S j) x eq_refl Hj). done.
    + apply IH. intros i j a Hi Hj. specialize (Hl (S i) (S j) a Hi Hj). lia.
  - apply IH. intros i j a Hi Hj. specialize (Hl (S i) (S j) a Hi Hj). lia.
Qed.

Lemma OwnedBlocks_spec {O} (w : world O) : pool_wf w -> NoDup (OwnedBlocks (pool w)) /\
  forall a, a ∈ OwnedBlocks (pool w) <-> owned w (Some a).
Proof.
  intros Hwf. split.
  - apply NoDup_omap_id. intros i j a Hi Hj. destruct (owned_slot w i a Hwf Hi) as (b & Hb & <- & _).
    destruct (owned_slot w j a Hwf Hj) as (b' & Hb' & <- & _). congruence.
  - intros a. unfold OwnedBlocks. rewrite list_elem_of_omap. split.
    + intros (y & [i Hi]%list_elem_of_lookup & Hy). cbn in Hy. subst y. destruct (owned_slot w i a Hwf Hi) as (b & _ & _ & Ho & _). done.
    + intros (a' & b & [= <-] & _ & Hsl). exists (Some a). split; [by eapply list_elem_of_lookup_2|done].
Qed.

(** The rings partition the window pool: no block of it is shared. *)
Lemma rings_partition (w : world unit) H : pool_wf w -> private_pool w -> accounted w H ->
  NoDup H /\ AvailableBlocks (pool w) + length H = pool_capacity_ (pool w).
Proof.
  intros Hwf Hp [Ho Hr Hsh]. destruct (OwnedBlocks_spec w Hwf) as [Hnd Hown].
  assert (NoDup H) as HndH.
  { apply NoDup_copies. intros h Hh. rewrite Forall_forall in Ho. destruct (Ho h Hh) as (a & b & -> & Hb & Hsl).
    destruct (Nat.le_gt_cases (copies (Some a) H) 1) as [|Hgt]; [done|]. destruct (Hsh _ a b Hsl Hb Hgt) as [_ Hi].
    unfold HasIdentity in Hi. by rewrite (Hp _ a b Hsl Hb) in Hi. }
  split; [done|]. rewrite <-(pw_length _ Hwf), <-owned_available, Nat.add_comm. f_equal. rewrite <-(length_fmap Some (OwnedBlocks (pool w))).
  apply Permutation_length, NoDup_Permutation; [done|by apply NoDup_fmap_2; [apply _|]|]. intros h. rewrite list_elem_of_fmap. split.
  - intros Hh. rewrite Forall_forall in Ho. pose proof (Ho h Hh) as (a & b & -> & Hb & Hsl). exists a. split; [done|]. apply Hown. by apply Ho.
  - intros (a & -> & (a' & b & [= <-] & Hb & Hsl)%Hown). apply copies_pos. pose proof (Hr _ a b Hsl Hb) as Href.
    destruct (pw_slot _ Hwf _ _ Hsl) as (b' & Hb' & Hbw). assert (b' = b) as -> by congruence. pose proof (bw_refs _ _ _ Hbw).
    unfold indexed_ref, HasIdentity in Href. rewrite (Hp _ a b Hsl Hb) in Href. cbn in Href. lia.
Qed.

Definition ring_seen (w : world unit) t (r : RequestBlockSnapshot) : Prop :=
  rb_request_id r = request_id_ t /\ rb_block_ids r = block_id w <$> items (window_blocks_ t).

Lemma seen_blocks s l rs : Forall2 (table_seen s) l rs -> request_blocks rs = block_id (main s) <$> held_blocks l /\
  rb_request_id <$> rs = request_id_ <$> l.
Proof.
  induction 1 as [|t r l rs [H1 H2 _ _] _ [IH1 IH2]]; [done|]. unfold request_blocks, held_blocks in *. cbn [mbind list_bind].
  rewrite fmap_app, !fmap_cons. by rewrite IH1, IH2, H1, H2.
Qed.

Lemma seen_rings (w : world unit) l rs : Forall2 (ring_seen w) l rs -> request_blocks rs = block_id w <$> held_rings l /\
  rb_request_id <$> rs = request_id_ <$> l.
Proof.
  induction 1 as [|t r l rs [H1 H2] _ [IH1 IH2]]; [done|]. unfold request_blocks, held_rings in *. cbn [mbind list_bind].
  rewrite fmap_app, !fmap_cons. by rewrite IH1, IH2, H1, H2.
Qed.

Lemma window_seen_ok s w rs : paged_ok s -> window s = Some w -> Forall2 (ring_seen w) (tables s) rs ->
  window_consistent (mkWindowSnapshot (pool_capacity_ (pool w)) (AvailableBlocks (pool w)) ring rs []).
Proof.
  intros Hs Hw Hseen. pose proof (po_window _ Hs) as Hwo. unfold window_ok in Hwo. rewrite Hw in Hwo. destruct Hwo as (_ & Hwf & Hp & Hac).
  destruct (rings_partition w _ Hwf Hp Hac) as [Hnd Htot]. destruct (seen_rings w _ _ Hseen) as [Hb Hid].
  split; cbn [wb_total_blocks wb_free_blocks wb_blocks_per_request wb_requests wb_transaction_reserved_block_ids].
  - rewrite Hb, length_fmap. cbn. lia.
  - rewrite Hid. by apply paged_ids.
  - pose proof (po_tables _ Hs) as Hall. apply Forall_forall. intros r [k Hk]%list_elem_of_lookup.
    destruct (Forall2_lookup_r _ _ _ _ _ Hseen Hk) as (t & Ht & _ & ->). rewrite length_fmap. rewrite Forall_lookup in Hall. by apply (to_ring _ _ (Hall k t Ht)).
  - rewrite Hb, app_nil_r. apply owned_range; [done|apply Hac].
  - rewrite Hb, app_nil_r. apply owned_ids; [apply Hac|done].
Qed.

Lemma allocated_request_blocks c : AllocatedBlocks c = length (request_blocks (cs_requests c)).
Proof.
  unfold AllocatedBlocks, request_blocks. induction (cs_requests c) as [|r l IH]; [done|]. rewrite fmap_cons.
  change (length (rb_block_ids r) + sum (length ∘ rb_block_ids <$> l) = length (rb_block_ids r ++ (l ≫= rb_block_ids))). rewrite length_app, IH. done.
Qed.

Lemma Forall2_fmap_eq {A B C} (f : A -> C) (g : B -> C) l k : Forall2 (fun x y => f x = g y) l k -> f <$> l = g <$> k.
Proof. induction 1 as [|x y l k Hxy _ IH]; [done|]. rewrite !fmap_cons. by f_equal. Qed.

Lemma physical_seen {O} (w : world O) xs : pool_wf w -> Forall2 (cached w) (OwnedBlocks (pool w)) xs ->
  cb_block_id <$> xs = block_id w <$> (Some <$> OwnedBlocks (pool w)).
Proof.
  intros _ Hx. rewrite <-list_fmap_compose. symmetry. apply Forall2_fmap_eq. eapply Forall2_impl; [exact Hx|].
  intros a x (b & Hb & ->). cbn. by rewrite Hb.
Qed.

Section Seen.
Context (s : cache_state PrefixCache.PrefixCache) (columns : nat).
Context (xs : list CachedBlockSnapshot) (rs : list RequestBlockSnapshot) (ws : WindowBlockPoolSnapshot).
Context (Hs : paged_ok s) (Hx : Forall2 (cached (main s)) (OwnedBlocks (pool (main s))) xs).
Context (Hr : Forall2 (table_seen s) (tables s) rs) (Hw : window_consistent ws).
#[local] Abbreviation snap :=
  (mkCacheSnapshot (bs s) (pool_capacity_ (pool (main s))) (AvailableBlocks (pool (main s))) columns rs [] [] [] xs ws).

Lemma seen_pool : pool_wf (main s).
Proof. apply Hs. Qed.

Lemma seen_owned : Forall (owned (main s)) (held_blocks (tables s)).
Proof. apply (ac_owned _ _ (po_account _ Hs)). Qed.

Lemma seen_empty : xs = [] -> request_blocks rs = [].
Proof.
  intros ->. apply Forall2_nil_inv_r in Hx. rewrite (proj1 (seen_blocks _ _ _ Hr)).
  destruct (held_blocks (tables s)) as [|h l] eqn:Hl; [done|]. pose proof seen_owned as Ho. rewrite Hl in Ho. apply Forall_cons in Ho as [Ho _].
  pose proof (owned_some _ _ Ho) as [a ->]. apply (OwnedBlocks_spec (main s) seen_pool) in Ho. rewrite Hx in Ho. by apply not_elem_of_nil in Ho.
Qed.

Lemma seen_tables : Forall (request_consistent snap) rs.
Proof.
  pose proof (po_tables _ Hs) as Hall. apply Forall_lookup. intros k r Hk. destruct (Forall2_lookup_r _ _ _ _ _ Hr Hk) as (t & Ht & [Hid Hids Hu He]).
  pose proof (table_owned s t Hs (list_elem_of_lookup_2 _ _ _ Ht)) as Ho. rewrite Forall_lookup in Hall.
  split; cbn [cs_total_blocks cs_block_size]; rewrite ?Hids.
  - apply owned_range; [apply seen_pool|done].
  - apply owned_ids; [done|apply (Hall k t Ht)].
  - intros _. by rewrite length_fmap.
Qed.

Lemma seen_physical : Forall (block_consistent snap) xs.
Proof.
  apply Forall_lookup. intros k x Hk. destruct (Forall2_lookup_r _ _ _ _ _ Hx Hk) as (a & Ha & b & Hb & ->).
  apply list_elem_of_lookup_2, (OwnedBlocks_spec (main s) seen_pool) in Ha. destruct Ha as (a' & b' & [= <-] & Hb' & Hsl).
  assert (b' = b) as -> by congruence. destruct (pw_slot _ seen_pool _ _ Hsl) as (b' & Hb'' & Hbw). assert (b' = b) as -> by congruence.
  assert (references snap (id_ b) = copies (Some a) (held_blocks (tables s))) as Href.
  { unfold references. cbn [cs_requests cs_transaction_reserved_block_ids cs_transaction_adopted_block_ids].
    rewrite !app_nil_r, (proj1 (seen_blocks _ _ _ Hr)). apply copies_occ; [apply seen_pool|apply seen_owned|done]. }
  split; cbn [cb_block_id cb_ref_count cb_indexed cb_full cb_used_slots cs_total_blocks cs_block_size]; rewrite ?Href.
  - rewrite <-(pw_length _ seen_pool). by eapply lookup_lt_Some.
  - exact (ac_refs _ _ (po_account _ Hs) _ _ _ Hsl Hb).
  - exact (ac_shared _ _ (po_account _ Hs) _ _ _ Hsl Hb).
  - pose proof (bw_capacity _ _ _ Hbw). pose proof (bw_size _ _ _ Hbw). unfold bs. lia.
Qed.

(** The accounting part of the snapshot is consistent; only a stale table width can be reported. *)
Lemma seen_consistent : cache_consistent snap <-> (columns <> 0 -> Forall (fun r => length (rb_block_ids r) <= columns) rs).
Proof.
  split; [by intros [_ _ _ _ _ _ _ _ _ _ _ ?]|]. intros Hcol. destruct (OwnedBlocks_spec (main s) seen_pool) as [Hnd Hown].
  split; cbn [cs_free_blocks cs_blocks cs_total_blocks cs_requests cs_transaction_reserved_block_ids cs_transaction_adopted_block_ids
    cs_window_blocks cs_block_table_columns]; try done.
  - rewrite <-(pw_length _ seen_pool), <-owned_available. rewrite (Forall2_length _ _ _ Hx). case_bool_decide as Hxs; [|lia].
    rewrite allocated_request_blocks. cbn [cs_requests]. rewrite (seen_empty Hxs), Hxs. unfold TransactionReservedBlocks. cbn. lia.
  - rewrite (proj2 (seen_blocks _ _ _ Hr)). by apply paged_ids.
  - apply seen_tables.
  - intros Hxs. rewrite (seen_empty Hxs). apply NoDup_nil_2.
  - apply NoDup_nil_2.
  - by intros b ?%not_elem_of_nil.
  - split; try done; apply NoDup_nil_2.
  - rewrite (physical_seen (main s) xs seen_pool Hx). apply owned_ids; [|by apply NoDup_fmap_2; [apply _|]].
    apply Forall_fmap, Forall_forall. intros a Ha. by apply Hown.
  - apply seen_physical.
Qed.
End Seen.

(** The block table last built covers every request. *)
Definition columns_cover c : Prop :=
  block_table_columns_ c = 0 \/ Forall (fun t => length (items (table_blocks_ t)) <= block_table_columns_ c) (tables (store c)).

(** Snapshots read every block without effect; each request is seen with its committed
    slots; the validator accepts the snapshot unless the block table has become too narrow. *)
Lemma Snapshot_run c : paged_ok (store c) -> exists snap, Snapshot cfg c = (Ok snap, c) /\
  (fun r => (rb_request_id r, rb_used_slots r)) <$> cs_requests snap = (fun t => (request_id_ t, committed_slots_ t)) <$> tables (store c) /\
  (ValidateCacheInvariants snap = [] <-> columns_cover c).
Proof.
  intros Hs. destruct (block_snapshots_run c (OwnedBlocks (pool (main (store c))))) as (xs & Hxs & Hx).
  { intros a Ha. apply (OwnedBlocks_spec _ (ck_pool _ (po_cache _ Hs))) in Ha as (a' & b & [= <-] & Hb & _). by exists b. }
  destruct (map_k_run (fun t => table_snapshot (request_id_ t) (items (table_blocks_ t))) (table_seen (store c)) c (tables (store c))) as (rs & Hrs & Hr).
  { intros t Ht. by apply table_seen_run. }
  assert (exists ws, (if Windowed cfg then match window (store c) with
     | Some w => rings ← map_k (fun t => window_table_snapshot (request_id_ t) (items (window_blocks_ t))) (tables (store c));
                 mret (mkWindowSnapshot (pool_capacity_ (pool w)) (AvailableBlocks (pool w)) ring rings [])
     | None => undefined end else mret (mkWindowSnapshot 0 0 0 [] [])) c = (Ok ws, c) /\ window_consistent ws) as (ws & Hws & Hwc).
  { pose proof (po_window _ Hs) as Hwo. unfold window_ok, Windowed in *. destruct (window (store c)) as [w|] eqn:Hw.
    - destruct Hwo as (Hpos & Hwf & Hp & Hac). rewrite (proj2 (Nat.ltb_lt 0 ring)) by done.
      destruct (map_k_run (fun t => window_table_snapshot (request_id_ t) (items (window_blocks_ t))) (ring_seen w) c (tables (store c))) as (gs & Hgs & Hg).
      { intros t Ht. destruct (window_snapshot_run c w (request_id_ t) (items (window_blocks_ t)) Hw) as (r & ? & ?); [|by exists r].
        pose proof (ac_owned _ _ Hac) as Ho. rewrite Forall_forall in Ho |- *. intros h Hh. apply Ho. apply list_elem_of_bind. by exists t. }
      rewrite (bind_ok _ _ _ _ _ Hgs). eexists. split; [done|]. by apply (window_seen_ok (store c)).
    - rewrite Hwo. eexists. split; [done|]. split; cbn; try done; apply NoDup_nil_2. }
  unfold Snapshot, get_store. rewrite !gets_bind, (bind_ok _ _ _ _ _ Hxs), (bind_ok _ _ _ _ _ Hrs), (bind_ok _ _ _ _ _ Hws).
  eexists. split; [done|]. cbn [cs_requests]. split.
  - symmetry. apply Forall2_fmap_eq. eapply Forall2_impl; [exact Hr|]. intros t r [Hid _ Hu _]. by rewrite Hid, Hu.
  - rewrite ValidateCacheInvariants_exact, (seen_consistent (store c)) by done. unfold columns_cover.
    assert (forall n, Forall (fun r => length (rb_block_ids r) <= n) rs <-> Forall (fun t => length (items (table_blocks_ t)) <= n) (tables (store c))) as Heq.
    { intros n. clear -Hr. induction Hr as [|t r l rs [_ Hids _ _] _ IH]; [done|]. by rewrite !Forall_cons, IH, Hids, length_fmap. }
    rewrite Heq. destruct (decide (block_table_columns_ c = 0)); naive_solver.
Qed.
End Invariant.
