(* ===== verification/PagedCacheTables.v ===== *)
(** * The block tables of the paged key-value cache

    What [BlockTables] and [WindowBlockTables] write: one row per request of the batch,
    which holds the ids of the request's blocks and [-1] after them, or the repeated ids
    of its window ring. *)

From S2P Require Import Prelude PagedPlanner BlockPool RequestIndex Positions PrefixCache PrefixCacheProofs Reservation ReservationProofs EngineInvariants PagedCache Accounting PagedCacheProofs.

Open Scope nat_scope.

(** ** Writing rows *)

Lemma store_id_run i v d : i < length d -> store_id i v d = Ok (<[i := v]> d).
Proof. intros Hi. unfold store_id. by rewrite (proj2 (Nat.ltb_lt _ _) Hi). Qed.

Lemma fill_ids_run read (val : option addr -> Z) c l : (forall h, h ∈ l -> exists b, read h (store c) = (Ok b, store c) /\ to_int32 (id_ b) = val h) ->
  forall at_ d, at_ + length l <= length d -> fill_ids read l at_ d c = (Ok (list_inserts at_ (val <$> l) d), c).
Proof.
  induction l as [|h l IH]; intros Hl at_ d Hlen; cbn [fill_ids]; [done|]. destruct (Hl h ltac:(left)) as (b & Hb & Hv). cbn in Hlen.
  rewrite (bind_ok _ _ _ _ _ (on_store_ok _ _ _ _ Hb)), set_store_id, store_id_run by lia. erewrite bind_ok by reflexivity.
  rewrite IH; [|intros x Hx; apply Hl; by right|rewrite length_insert; lia]. rewrite fmap_cons. cbn [list_inserts].
  by rewrite list_insert_inserts_lt, Hv by lia.
Qed.

Lemma fill_pad_run count : forall at_ d c, at_ + count <= length d -> fill_pad count at_ d c = (Ok (list_inserts at_ (replicate count (-1)%Z) d), c).
Proof.
  induction count as [|count IH]; intros at_ d c Hlen; cbn [fill_pad]; [done|]. rewrite store_id_run by lia. erewrite bind_ok by reflexivity.
  rewrite IH by (rewrite length_insert; lia). cbn [replicate list_inserts]. by rewrite list_insert_inserts_lt by lia.
Qed.

(** The cells of one row. *)
Definition paged_row {O} (w : world O) (columns : nat) (l : list (option addr)) : list Z :=
  ((fun h => to_int32 (block_id w h)) <$> l) ++ replicate (columns - length l) (-1)%Z.

Definition ring_cell (w : world unit) (l : list (option addr)) (j : nat) : Z :=
  from_option (fun h => to_int32 (block_id w h)) 0%Z (l !! (j mod length l)).

Lemma owned_read (s : cache_state PrefixCache.PrefixCache) h : owned (main s) h -> exists b, deref_main h s = (Ok b, s) /\ id_ b = block_id (main s) h.
Proof.
  intros (a & b & -> & Hb & _). exists b. split; [|cbn; by rewrite Hb].
  destruct s. cbn in *. unfold deref_main, on_main. cbn. by rewrite (deref_ok a b main Hb).
Qed.

Lemma owned_read_window (s : cache_state PrefixCache.PrefixCache) w h : window s = Some w -> owned w h ->
  exists b, deref_window h s = (Ok b, s) /\ id_ b = block_id w h.
Proof.
  intros Hw (a & b & -> & Hb & _). exists b. split; [|cbn; by rewrite Hb].
  destruct s. cbn in *. subst. unfold deref_window, on_window. cbn. by rewrite (deref_ok a b w Hb).
Qed.

Section Tables.
Context (cfg : PagedConfig).
Abbreviation ring := (ring_blocks_ cfg).

(** The row of a request: the first place its id has in the batch. *)
Definition row_of (requests : list N) (id : N) : option nat := fst <$> list_find (fun x => x = id) requests.

Lemma row_of_Some requests id r : row_of requests id = Some r -> requests !! r = Some id.
Proof. unfold row_of. rewrite fmap_Some. intros ([r' x] & (Hl & -> & _)%list_find_Some & ->). done. Qed.

Lemma row_of_None requests id : row_of requests id = None -> id ∉ requests.
Proof. unfold row_of. rewrite fmap_None. intros Hf%list_find_None Hin. rewrite Forall_forall in Hf. by apply (Hf id). Qed.

(** The step of the loop for one table writes its row. *)
Definition writes_row (win : bool) (columns : nat) (c : PagedKeyValueCache) (t : PagedCacheBlockTable) (cells : list Z) : Prop :=
  length cells = columns /\ forall row d, row * columns + columns <= length d ->
    (if win then
       match ring_row cfg columns (items (window_blocks_ t)) with
       | Some l => fill_ids deref_window l (row * columns) d
       | None => undefined
       end
     else
       d ← fill_ids deref_main (items (table_blocks_ t)) (row * columns) d;
       fill_pad (columns - length (items (table_blocks_ t))) (row * columns + length (items (table_blocks_ t))) d) c =
    (Ok (list_inserts (row * columns) cells d), c).

Lemma paged_row_written c columns t : Forall (owned (main (store c))) (items (table_blocks_ t)) -> length (items (table_blocks_ t)) <= columns ->
  writes_row false columns c t (paged_row (main (store c)) columns (items (table_blocks_ t))).
Proof.
  intros Ho Hlen. split; [unfold paged_row; rewrite length_app, length_fmap, length_replicate; lia|]. intros row d Hd.
  rewrite (bind_ok _ _ _ _ _ (fill_ids_run deref_main (fun h => to_int32 (block_id (main (store c)) h)) c _
    ltac:(intros h Hh; rewrite Forall_forall in Ho; destruct (owned_read (store c) h (Ho h Hh)) as (b & ? & <-); by exists b)
    (row * columns) d ltac:(lia))).
  rewrite fill_pad_run by (rewrite length_inserts; lia). unfold paged_row.
  by rewrite list_inserts_app_l, length_fmap, Nat.add_comm.
Qed.

Lemma ring_row_run columns (l : list (option addr)) : length l = ring -> 0 < ring ->
  ring_row cfg columns l = Some ((fun j => default None (l !! (j mod ring))) <$> seq 0 columns).
Proof.
  intros Hl Hr. unfold ring_row. apply mapM_Some. apply Forall2_fmap_r, Forall_Forall2_diag, Forall_forall. intros j _.
  unfold WindowRingColumn. destruct (N.eqb_spec (N.of_nat ring) 0); [lia|]. cbn.
  rewrite <-Nnat.Nat2N.inj_mod, Nnat.Nat2N.id. destruct (lookup_lt_is_Some_2 l (j mod ring)) as [h ->]; [rewrite Hl; by apply Nat.mod_upper_bound; lia|done].
Qed.

Lemma ring_row_written c w columns t : window (store c) = Some w -> Forall (owned w) (items (window_blocks_ t)) ->
  length (items (window_blocks_ t)) = ring -> 0 < ring ->
  writes_row true columns c t (ring_cell w (items (window_blocks_ t)) <$> seq 0 columns).
Proof.
  intros Hw Ho Hl Hr. split; [by rewrite length_fmap, length_seq|]. intros row d Hd. rewrite ring_row_run by done.
  rewrite (fill_ids_run deref_window (fun h => to_int32 (block_id w h)) c).
  - do 3 f_equal. rewrite <-list_fmap_compose. apply list_fmap_ext. intros _ j _. unfold ring_cell. cbn. rewrite Hl.
    destruct (lookup_lt_is_Some_2 (items (window_blocks_ t)) (j mod ring)) as [h ->]; [rewrite Hl; by apply Nat.mod_upper_bound; lia|done].
  - intros h (j & -> & _)%list_elem_of_fmap. rewrite Forall_forall in Ho.
    destruct (lookup_lt_is_Some_2 (items (window_blocks_ t)) (j mod ring)) as [h Hh]; [rewrite Hl; by apply Nat.mod_upper_bound; lia|].
    rewrite Hh. cbn [default]. destruct (owned_read_window (store c) w h Hw (Ho h (list_elem_of_lookup_2 _ _ _ Hh))) as (b & ? & Hb). exists b. by rewrite Hb.
  - rewrite length_fmap, length_seq. lia.
Qed.

(** The loop writes the rows of the requests that have a table and leaves the others. *)
Lemma FillBlockTables_run c requests win columns (cells : PagedCacheBlockTable -> list Z) l :
  NoDup (request_id_ <$> l) -> (forall t, t ∈ l -> writes_row win columns c t (cells t)) ->
  (forall t, t ∈ l -> request_id_ t ∈ requests) ->
  forall d, length d = length requests * columns -> exists d', FillBlockTables cfg l requests win columns d c = (Ok d', c) /\ length d' = length d /\
    (forall t r j, t ∈ l -> row_of requests (request_id_ t) = Some r -> j < columns -> d' !! (r * columns + j) = cells t !! j) /\
    (forall r j, j < columns -> (forall t, t ∈ l -> row_of requests (request_id_ t) <> Some r) -> d' !! (r * columns + j) = d !! (r * columns + j)).
Proof.
  induction l as [|t l IH]; intros Hnd Hw Hreq d Hd; cbn [FillBlockTables].
  { exists d. split_and!; [done..|by intros t r j ?%not_elem_of_nil|done]. }
  rewrite fmap_cons in Hnd. apply NoDup_cons in Hnd as [Hid Hnd]. destruct (Hw t ltac:(left)) as [Hlen Hrun].
  destruct (row_of requests (request_id_ t)) as [row|] eqn:Hrow; [|by apply row_of_None in Hrow; destruct Hrow; apply Hreq; left].
  pose proof (row_of_Some _ _ _ Hrow) as Hat. pose proof (lookup_lt_Some _ _ _ Hat) as Hlt.
  unfold row_of in Hrow. destruct (list_find _ requests) as [[row' x]|] eqn:Hfind; [|done]. cbn in Hrow. injection Hrow as ->.
  assert (row * columns + columns <= length d) as Hfit by (rewrite Hd; nia).
  rewrite (bind_ok _ _ _ _ _ (Hrun row d Hfit)). set (d1 := list_inserts (row * columns) (cells t) d).
  destruct (IH Hnd) with (d := d1) as (d' & Hrun' & Hlen' & Hin & Hout);
    [intros u Hu; apply Hw; by right|intros u Hu; apply Hreq; by right|by subst d1; rewrite length_inserts|].
  exists d'. split_and!; [done|by subst d1; rewrite Hlen', length_inserts|..].
  - intros u r j Hu Hr Hj. apply elem_of_cons in Hu as [->|Hu]; [|by apply Hin].
    assert (r = row) as -> by (unfold row_of in Hr; rewrite Hfind in Hr; cbn in Hr; congruence). rewrite Hout; [|done|].
    + subst d1. rewrite list_lookup_inserts by lia. f_equal. lia.
    + intros u Hu Hr'. apply row_of_Some in Hr'. apply Hid. assert (request_id_ u = request_id_ t) as <- by congruence. by apply list_elem_of_fmap_2.
  - intros r j Hj Hno. rewrite Hout; [|done|intros u Hu; apply Hno; by right]. subst d1.
    assert (r <> row) as Hne by (intros ->; apply (Hno t ltac:(left)); unfold row_of; by rewrite Hfind).
    destruct (decide (r < row)); [rewrite list_lookup_inserts_lt by nia|rewrite list_lookup_inserts_ge by nia]; done.
Qed.

Lemma widest_run c requests l : forall m, exists r, widest l requests m c = (r, c) /\
  match r with
  | Ok n => Forall (fun t => request_id_ t ∈ requests) l /\ m <= n /\ Forall (fun t => length (items (table_blocks_ t)) <= n) l /\
      (n = m \/ exists t, t ∈ l /\ length (items (table_blocks_ t)) = n)
  | Throw e => e = TableNotRequested /\ ~ Forall (fun t => request_id_ t ∈ requests) l
  | _ => False
  end.
Proof.
  induction l as [|t l IH]; intros m; cbn [widest]; [eexists; split; [done|]; split_and!; [done..|by left]|]. case_bool_decide as Hin.
  - destruct (IH (max m (length (items (table_blocks_ t))))) as (r & -> & Hr). eexists. split; [done|]. destruct r as [n|e| |]; [|..|done|done].
    + destruct Hr as (H1 & H2 & H3 & H4). split_and!; [by constructor|lia|constructor; [lia|done]|]. destruct H4 as [->|(u & Hu & <-)].
      * destruct (Nat.max_spec m (length (items (table_blocks_ t)))) as [[_ ->]|[_ ->]]; [|by left]. right. exists t. split; [by left|done].
      * right. exists u. split; [by right|done].
    + destruct Hr as [-> Hn]. split; [done|]. by intros [_ ?]%Forall_cons.
  - eexists. split; [done|]. split; [done|]. by intros [? _]%Forall_cons.
Qed.

(** The cell of a paged row: a block id, or [-1] past the table. *)
Definition paged_cell {O} (w : world O) (l : list (option addr)) (j : nat) : Z :=
  from_option (fun h => to_int32 (block_id w h)) (-1)%Z (l !! j).

Lemma paged_row_lookup {O} (w : world O) columns l j : length l <= columns -> j < columns -> paged_row w columns l !! j = Some (paged_cell w l j).
Proof.
  intros Hl Hj. unfold paged_row, paged_cell. destruct (l !! j) as [h|] eqn:Hh.
  - apply lookup_app_l_Some. by rewrite list_lookup_fmap, Hh.
  - apply lookup_ge_None in Hh. rewrite lookup_app_r by (by rewrite length_fmap). rewrite length_fmap. apply lookup_replicate. split; [done|lia].
Qed.

(** A tensor [d] with one row per request, whose rows are [cell]. *)
Definition rows_are (c : PagedKeyValueCache) (requests : list N) (columns : nat) (cell : PagedCacheBlockTable -> nat -> Z) (d : list Z) : Prop :=
  length d = length requests * columns /\
  forall t r j, t ∈ tables (store c) -> row_of requests (request_id_ t) = Some r -> j < columns -> d !! (r * columns + j) = Some (cell t j).

Context (fresh : nat -> list Z) (Hfresh : forall n, length (fresh n) = n).

Lemma paged_rows c requests columns : paged_ok cfg (store c) -> Forall (fun t => request_id_ t ∈ requests) (tables (store c)) ->
  Forall (fun t => length (items (table_blocks_ t)) <= columns) (tables (store c)) -> forall c', store c' = store c ->
  exists d, FillBlockTables cfg (tables (store c)) requests false columns (fresh (length requests * columns)) c' = (Ok d, c') /\
    rows_are c requests columns (fun t => paged_cell (main (store c)) (items (table_blocks_ t))) d.
Proof.
  intros Hs Hreq Hcol c' Hc'. rewrite Forall_forall in Hreq, Hcol.
  destruct (FillBlockTables_run c' requests false columns (fun t => paged_row (main (store c)) columns (items (table_blocks_ t))) (tables (store c))
    (paged_ids _ _ Hs)) with (d := fresh (length requests * columns)) as (d & Hrun & Hlen & Hin & _); [|done|done|].
  - intros t Ht. rewrite <-Hc'. apply paged_row_written; [rewrite Hc'; by eapply table_owned|by apply Hcol].
  - exists d. split; [done|]. split; [by rewrite Hlen|]. intros t r j Ht Hr Hj. rewrite (Hin t r j Ht Hr Hj). apply paged_row_lookup; [by apply Hcol|done].
Qed.

Lemma ring_rows c requests columns w : paged_ok cfg (store c) -> window (store c) = Some w -> Forall (fun t => request_id_ t ∈ requests) (tables (store c)) ->
  forall c', store c' = store c ->
  exists d, FillBlockTables cfg (tables (store c)) requests true columns (fresh (length requests * columns)) c' = (Ok d, c') /\
    rows_are c requests columns (fun t => ring_cell w (items (window_blocks_ t))) d.
Proof.
  intros Hs Hw Hreq c' Hc'. rewrite Forall_forall in Hreq. pose proof (po_window _ _ Hs) as Hwo. unfold window_ok in Hwo. rewrite Hw in Hwo.
  destruct Hwo as (Hpos & _ & _ & Hac). pose proof (po_tables _ _ Hs) as Hall. rewrite Forall_forall in Hall.
  destruct (FillBlockTables_run c' requests true columns (fun t => ring_cell w (items (window_blocks_ t)) <$> seq 0 columns) (tables (store c))
    (paged_ids _ _ Hs)) with (d := fresh (length requests * columns)) as (d & Hrun & Hlen & Hin & _); [|done|done|].
  - intros t Ht. apply ring_row_written; [by rewrite Hc'| |apply (Hall t Ht)|done].
    pose proof (ac_owned _ _ Hac) as Ho. rewrite Forall_forall in Ho |- *. intros h Hh. apply Ho. apply list_elem_of_bind. by exists t.
  - exists d. split; [done|]. split; [by rewrite Hlen|]. intros t r j Ht Hr Hj. rewrite (Hin t r j Ht Hr Hj).
    rewrite list_lookup_fmap, (proj2 (lookup_seq 0 columns j j)) by lia. done.
Qed.

Definition too_large (c : PagedKeyValueCache) (requests : list N) : Prop :=
  graph_capture_ cfg = true /\ (max_block_table_rows_ cfg < length requests \/
    exists t, t ∈ tables (store c) /\ max_block_table_columns_ cfg < length (items (table_blocks_ t))).

Lemma graph_columns max_blocks : (0 < N.of_nat (max_block_table_columns_ cfg) < two64)%N -> exists columns,
  GetGraphBlockTableColumns (N.of_nat max_blocks) (N.of_nat (max_block_table_columns_ cfg)) = Ok columns /\
  (max_blocks <= max_block_table_columns_ cfg -> max_blocks <= N.to_nat columns).
Proof.
  intros Hmax. unfold GetGraphBlockTableColumns. destruct (N.eqb_spec (N.of_nat (max_block_table_columns_ cfg)) 0); [lia|].
  destruct (columns_loop_spec 66 0 (N.min kMinGraphBlockTableColumns (N.of_nat (max_block_table_columns_ cfg))) (N.of_nat max_blocks)
    (N.of_nat (max_block_table_columns_ cfg))) as (r & -> & _ & Hcov & _); [cbn; lia|done|lia|lia|].
  exists r. split; [done|]. intros Hle. lia.
Qed.

(** [BlockTables] on a consistent cache: a full-width table or a reported limit. *)
Lemma BlockTables_run c requests : paged_ok cfg (store c) ->
  (graph_capture_ cfg = true -> (0 < N.of_nat (max_block_table_columns_ cfg) < two64)%N) ->
  match BlockTables cfg requests fresh c with
  | (Ok d, c') => exists columns, c' = set_columns columns c /\
      Forall (fun t => request_id_ t ∈ requests) (tables (store c)) /\
      Forall (fun t => length (items (table_blocks_ t)) <= columns) (tables (store c)) /\
      rows_are c requests columns (fun t => paged_cell (main (store c)) (items (table_blocks_ t))) d
  | (Throw e, c') => e = TableNotRequested /\ c' = c /\ ~ Forall (fun t => request_id_ t ∈ requests) (tables (store c)) \/
      e = GraphTableTooLarge /\ store c' = store c /\ too_large c requests
  | _ => False
  end.
Proof.
  intros Hs Hmax. unfold BlockTables, get_store. rewrite gets_bind. destruct (widest_run c requests (tables (store c)) 0) as (r & Hrun & Hr).
  destruct r as [n|e| |]; [|..|done|done].
  2: { rewrite (bind_throw _ _ _ _ _ Hrun). left. destruct Hr as [-> Hn]. done. }
  rewrite (bind_ok _ _ _ _ _ Hrun). destruct Hr as (Hreq & _ & Hcol & Hatt).
  assert (forall columns, n <= columns -> Forall (fun t => length (items (table_blocks_ t)) <= columns) (tables (store c))) as Hwide.
  { intros columns Hle. eapply Forall_impl; [exact Hcol|]. cbn. lia. }
  destruct (graph_capture_ cfg) eqn:Hg.
  - destruct (graph_columns n (Hmax eq_refl)) as (columns & -> & Hcov). set (c1 := set_columns (N.to_nat columns) c).
    assert (forall k : nat -> KM (list Z), ((columns0 ← (_ ← modify (set_columns (N.to_nat columns));
      _ ← throw_if ((N.to_nat columns <? n) || (max_block_table_rows_ cfg <? length requests)) GraphTableTooLarge; mret (N.to_nat columns)); k columns0) c) =
      if (N.to_nat columns <? n) || (max_block_table_rows_ cfg <? length requests) then (Throw GraphTableTooLarge, c1) else k (N.to_nat columns) c1) as ->
      by (intros k; by destruct (_ || _)).
    destruct (_ || _) eqn:Hbig.
    + right. do 2 (split; [done|]). split; [done|]. apply orb_true_iff in Hbig as [Hlt%Nat.ltb_lt|Hlt%Nat.ltb_lt]; [|by left]. right.
      destruct Hatt as [->|(t & Ht & <-)]; [lia|]. exists t. split; [done|]. destruct (decide (length (items (table_blocks_ t)) <= max_block_table_columns_ cfg)); lia.
    + apply orb_false_iff in Hbig as [Hge%Nat.ltb_ge _]. destruct (paged_rows c requests (N.to_nat columns) Hs Hreq (Hwide _ Hge) c1 eq_refl) as (d & -> & Hd).
      exists (N.to_nat columns). split; [done|]. split; [done|]. split; [by apply Hwide|done].
  - erewrite (bind_ok _ _ c n (set_columns n c)) by reflexivity.
    destruct (paged_rows c requests n Hs Hreq Hcol (set_columns n c) eq_refl) as (d & -> & Hd). by exists n.
Qed.
End Tables.

