(* ===== verification/PagedCacheCalls.v ===== *)
(** * Sequences of calls on the paged key-value cache

    Sealing committed blocks into the prefix cache, and the states the cache reaches from
    its construction by any sequence of calls. *)

From S2P Require Import Prelude PagedPlanner BlockPool RequestIndex Positions PrefixCache PrefixCacheProofs Reservation ReservationProofs EngineInvariants PagedCache Accounting PagedCacheProofs PagedCacheTables.

Open Scope nat_scope.

(** ** Sealing *)

Section Sealing.
Context (cfg : PagedConfig).
Implicit Types s : cache_state PrefixCache.PrefixCache.

(** The full-attention pool and its index may change as long as the tables keep what they hold. *)
Lemma main_changed_ok s w' : paged_ok cfg s -> cache_ok w' -> accounted w' (held_blocks (tables s)) ->
  block_size_ (pool w') = block_size_ (pool (main s)) -> pool_capacity_ (pool w') = pool_capacity_ (pool (main s)) ->
  (forall j, held (observer (main s)) j -> held (observer w') j) ->
  (forall a b', Some a ∈ held_blocks (tables s) -> heap w' !! a = Some b' -> exists b, heap (main s) !! a = Some b /\ size_ b' = size_ b) ->
  paged_ok cfg (set_main w' s).
Proof.
  intros Hs Hck Hac Hbs Hcap Hheld Hsz. assert (bs (set_main w' s) = bs s) as Hbs' by done. destruct Hs as [H1 H2 H3 H4 H5 H6 H7].
  split; try done; [rewrite Hbs'; cbn [main set_main]; by rewrite Hcap|]. cbn [tables set_main]. rewrite Forall_forall in H7 |- *.
  intros t Ht. destruct (H7 t Ht) as [T1 T2 T3 T4 T5 T6]. split; rewrite ?Hbs'; try done.
  - intros k a b' Hk Hb'. destruct (Hsz a b') as (b & Hb & ->); [|done|by eapply T3].
    apply held_blocks_elem. exists t. split; [done|by eapply list_elem_of_lookup_2].
  - intros p Hp. by apply Hheld, T6.
Qed.

Lemma same_pool_ok s w' : paged_ok cfg s -> cache_ok w' -> heap w' = heap (main s) -> pool w' = pool (main s) ->
  (forall j, held (observer (main s)) j -> held (observer w') j) -> paged_ok cfg (set_main w' s).
Proof.
  intros Hs Hck Hh Hp Hheld. apply main_changed_ok; try done; rewrite ?Hp; try done.
  - destruct (po_account _ _ Hs) as [A1 A2 A3]. split; unfold owned in *; by rewrite ?Hh, ?Hp.
  - intros x bx _. rewrite Hh. eauto.
Qed.

(** Indexing, evicting and refusing leave the tables' accounting in place. *)
Lemma registration_ok s a b tokens parent r w' : paged_ok cfg s -> heap (main s) !! a = Some b -> blocks_ (pool (main s)) !! id_ b = Some (Some a) ->
  registration (main s) a b tokens parent (Ok r, w') -> 
  paged_ok cfg (set_main w' s) /\ block_size_ (pool w') = block_size_ (pool (main s)) /\
  (registered_identity r <> None -> options_ (observer w') = options_ (observer (main s))).
Proof.
  intros Hs Hb Hsl (Hck & _ & _ & Hheld & Hst). pose proof (po_cache _ _ Hs) as Hck0. pose proof (po_account _ _ Hs) as Hac.
  assert (forall w1 v, reclaimed v (main s) w1 -> accounted w1 (held_blocks (tables s)) /\
    forall x bx, Some x ∈ held_blocks (tables s) -> heap w1 !! x = Some bx -> exists b0, heap (main s) !! x = Some b0 /\ size_ bx = size_ b0) as Hrec.
  { intros w1 v Hrc. destruct (reclaimed_accounted v _ _ _ Hck0 Hac Hrc) as [Hac1 Hh]. split; [done|]. intros x bx Hx Hbx.
    rewrite Hh in Hbx by done. by exists bx. }
  destruct (status r).
  - destruct Hst as (i & Hi & [[_ ->]|(Hno & _ & v & w1 & Hrc & Hni & _)]); [by rewrite set_main_id|].
    destruct (Hrec w1 v Hrc) as [Hac1 Hsz]. destruct (rc_pool _ _ _ Hrc) as (Hp1 & Hp2 & _). destruct (rc_cache _ _ _ Hrc) as (Ho & _).
    destruct (evict_keeps (main s) v w1 a b Hck0 Hrc Hb Hsl Hno) as [Hb1 Hsl1].
    { intros id Hid. destruct (rc_victims _ _ _ Hrc id Hid) as (e & He & _). by exists e. }
    split; [|by rewrite (ni_options _ _ _ _ _ _ _ _ Hni), (ni_pool _ _ _ _ _ _ _ _ Hni)]. apply main_changed_ok; try done; rewrite ?(ni_pool _ _ _ _ _ _ _ _ Hni); try done.
    + exact (indexed_accounted w1 _ a b i Hac1 Hb1 Hsl1 Hno w' (ni_heap _ _ _ _ _ _ _ _ Hni) (ni_pool _ _ _ _ _ _ _ _ Hni)).
    + intros x bx Hx. rewrite (ni_heap _ _ _ _ _ _ _ _ Hni). destruct (decide (x = a)) as [->|Hne].
      * rewrite lookup_insert_eq. intros [= <-]. by exists b.
      * rewrite lookup_insert_ne by done. by apply Hsz.
  - destruct Hst as (Hn & Hh & Hp & _). rewrite Hn, Hp. split; [by apply same_pool_ok|done].
  - destruct Hst as (Hn & Hh & Hp & _). rewrite Hn, Hp. split; [by apply same_pool_ok|done].
  - destruct Hst as (Hn & Hrc & _). rewrite Hn. destruct (Hrec w' [] Hrc) as [Hac1 Hsz].
    destruct (rc_pool _ _ _ Hrc) as (Hp1 & Hp2 & _). split; [by apply main_changed_ok|done].
Qed.

Lemma alter_insert {A} (f : A -> A) (i : nat) (l : list A) x : l !! i = Some x -> alter f i l = <[i := f x]> l.
Proof. revert i. induction l as [|y l IH]; intros [|i] Hi; cbn in *; [done..| |]; [by injection Hi as ->|]. by rewrite <-IH. Qed.

Lemma alter_none {A} (f : A -> A) (i : nat) (l : list A) : l !! i = None -> alter f i l = l.
Proof. revert i. induction l as [|y l IH]; intros [|i] Hi; cbn in *; [done..|]. by rewrite IH. Qed.

(** Rewriting the sealing state of a table. *)
Lemma resealed_ok s i f : paged_ok cfg s -> (forall t, request_id_ (f t) = request_id_ t /\ committed_slots_ (f t) = committed_slots_ t /\
    table_blocks_ (f t) = table_blocks_ t /\ window_blocks_ (f t) = window_blocks_ t) ->
  (forall t, tables s !! i = Some t -> parent_held (observer (main s)) (sealed_identity_ (f t))) ->
  paged_ok cfg (set_tables (alter f i (tables s)) s).
Proof.
  intros Hs Hf Hp. destruct (tables s !! i) as [t|] eqn:Hi.
  2: { rewrite alter_none by done. by destruct s. }
  pose proof (alter_insert f i (tables s) t Hi) as Halt.
  destruct (Hf t) as (F1 & F2 & F3 & F4). destruct Hs as [H1 H2 H3 H4 H5 H6 H7]. rewrite Halt.
  split; cbn [main window tables table_index set_tables]; try done.
  - rewrite (held_blocks_insert _ _ t (f t) [] Hi) by (by rewrite F3, app_nil_r). by rewrite app_nil_r.
  - unfold window_ok in *. cbn [window tables set_tables]. by rewrite (held_rings_insert _ _ t (f t) Hi F4).
  - eapply sync_ids; [exact H5|done|]. cbn [tables set_tables]. rewrite list_fmap_insert, F1. apply list_insert_id. by rewrite list_lookup_fmap, Hi.
  - apply Forall_insert; [eapply Forall_impl; [exact H7|]; by intros t0 [T1 T2 T3 T4 T5 T6]|].
    rewrite Forall_lookup in H7. destruct (H7 i t Hi) as [T1 T2 T3 T4 T5 T6]. split; rewrite ?F1, ?F2, ?F3, ?F4; try done. by apply Hp.
Qed.

Lemma Register_step c i t k h chunk parent : paged_ok cfg (store c) -> tables (store c) !! i = Some t -> items (table_blocks_ t) !! k = Some h ->
  S k * bs (store c) <= committed_slots_ t -> length chunk = bs (store c) -> parent_held (observer (main (store c))) parent ->
  Enabled (observer (main (store c))) = true ->
  exists r w', on_prefix (Register h chunk parent) c = (Ok r, set_store (set_main w' (store c)) c) /\ paged_ok cfg (set_main w' (store c)) /\
    block_size_ (pool w') = bs (store c) /\ (registered_identity r <> None -> options_ (observer w') = options_ (observer (main (store c)))) /\
    parent_held (observer w') (registered_identity r).
Proof.
  intros Hs Hi Hk Hfull Hlen Hp Hen. pose proof (po_cache _ _ Hs) as Hck.
  pose proof (table_owned _ _ t Hs (list_elem_of_lookup_2 _ _ _ Hi)) as Ho. rewrite Forall_lookup in Ho.
  destruct (Ho k h Hk) as (a & b & -> & Hb & Hsl). pose proof (Register_live (main (store c)) a b chunk parent Hck Hb Hp Hen) as Hreg.
  destruct (pw_slot _ (ck_pool _ Hck) _ _ Hsl) as (b' & Hb' & Hbw). assert (b' = b) as -> by congruence.
  assert (size_ b = capacity_ b /\ capacity_ b = bs (store c)) as [Hsize Hcap].
  { pose proof (po_tables _ _ Hs) as Hall. rewrite Forall_lookup in Hall. pose proof (to_filled _ _ _ (Hall i t Hi) k a b Hk Hb) as Hf.
    pose proof (bw_capacity _ _ _ Hbw) as Hc. unfold bs in *. split; [|done]. nia. }
  destruct (Register (Some a) chunk parent (main (store c))) as [[r|e| |] w'] eqn:Hrun; [|..|done|done].
  2: { destruct Hreg as (_ & [Hf|[Hl|Hn]]); [|congruence|done]. unfold IsFull in Hf. apply Nat.eqb_neq in Hf. lia. }
  pose proof (registration_ok _ a b chunk parent r w' Hs Hb Hsl Hreg) as (Hok & Hbs' & Hopt).
  exists r, w'. unfold on_prefix. rewrite Hrun. split_and!; [done..|].
  destruct Hreg as (Hck' & _ & _ & _ & Hst). destruct (status r).
  - destruct Hst as (i0 & -> & [[Hid ->]|(_ & _ & v & w1 & _ & Hni & _)]); intros p [= <-].
    + destruct (ck_identity _ Hck a b i0 Hb Hid) as (e & He & Hea). destruct (ck_linked _ Hck _ _ He) as (b1 & Hl).
      assert (b1 = b) as -> by (pose proof (lk_heap _ _ _ _ Hl); congruence). pose proof (lk_identity _ _ _ _ Hl) as Hid'.
      assert (entry_identity e = i0) as <- by congruence. exact (proj2 (proj2 (ix_entry _ _ (ck_index _ Hck) _ _ He))).
    + exact (proj1 (ni_held _ _ _ _ _ _ _ _ Hni)).
  - destruct Hst as (-> & _). done.
  - destruct Hst as (-> & _). done.
  - destruct Hst as (-> & _). done.
Qed.

Lemma span_run {A} offset n (l : list A) c : offset + n <= length l -> span offset n l c = (Ok (take n (drop offset l)), c).
Proof. intros Hle. unfold span. by rewrite (proj2 (Nat.leb_le _ _) Hle). Qed.

(** The loop never throws: every block it reaches is full and owned. *)
Lemma seal_loop_ok i tokens remaining : forall index parent c t, paged_ok cfg (store c) -> tables (store c) !! i = Some t ->
  (index + remaining) * bs (store c) <= committed_slots_ t -> (index + remaining) * bs (store c) <= length tokens ->
  parent_held (observer (main (store c))) parent -> Enabled (observer (main (store c))) = true ->
  exists c', seal_loop remaining index i (bs (store c)) tokens parent c = (Ok tt, c') /\ paged_ok cfg (store c') /\
    block_table_columns_ c' = block_table_columns_ c.
Proof.
  induction remaining as [|remaining IH]; intros index parent c t Hs Hi Hcom Htok Hp Hen; cbn [seal_loop]; [by exists c|].
  unfold get_store. rewrite gets_bind, Hi. pose proof (paged_bs _ _ Hs) as Hn. pose proof (po_tables _ _ Hs) as Hall. rewrite Forall_lookup in Hall.
  pose proof (to_capacity _ _ _ (Hall i t Hi)) as Hcap.
  destruct (lookup_lt_is_Some_2 (items (table_blocks_ t)) index ltac:(nia)) as [h Hh]. rewrite Hh.
  rewrite (bind_ok _ _ _ _ _ (span_run (index * bs (store c)) (bs (store c)) tokens c ltac:(nia))).
  destruct (Register_step c i t index h (take (bs (store c)) (drop (index * bs (store c)) tokens)) parent) as (r & w' & Hrun & Hs1 & Hbs & Hopt & Hp');
    [done|done|done|nia|rewrite length_take, length_drop; nia|done|done|].
  rewrite (bind_ok _ _ _ _ _ Hrun). set (c1 := set_store (set_main w' (store c)) c) in *. unfold update_table, modify_store.
  destruct (registered_identity r) as [path|] eqn:Hid.
  - erewrite bind_ok by reflexivity. set (c2 := set_store _ c1).
    assert (paged_ok cfg (store c2)) as Hs2 by (apply (resealed_ok (store c1) i (set_sealed (index + 1) (Some path))); done).
    assert (bs (store c2) = bs (store c)) as Hbs2 by done.
    destruct (IH (S index) (Some path) c2 (set_sealed (index + 1) (Some path) t)) as (c' & Hrun' & Hs' & Hcol);
      rewrite ?Hbs2; try done; try (cbn [committed_slots_ set_sealed]; nia).
    + cbn. by rewrite list_lookup_alter_eq, Hi.
    + unfold Enabled in *. change (observer (main (store c2))) with (observer w'). by rewrite Hopt by done.
    + rewrite Hbs2 in Hrun'. by exists c'.
  - eexists. split; [reflexivity|]. split; [|done]. apply (resealed_ok (store c1) i (set_sealing_stopped (StopsSealing r))); [done|done|].
    intros t0 Ht0. cbn in Ht0. rewrite Hi in Ht0. injection Ht0 as <-. cbn [sealed_identity_ set_sealing_stopped].
    pose proof (po_tables _ _ Hs1) as Hall1. rewrite Forall_lookup in Hall1. apply (to_sealed _ _ _ (Hall1 i t Hi)).
Qed.

Lemma indexed_table_run c id : paged_ok cfg (store c) -> exists found, indexed_table id c = (Ok found, c) /\
  forall i t, found = Some (i, t) -> tables (store c) !! i = Some t.
Proof.
  intros Hs. destruct (po_indexed _ _ Hs) as [ti Hti]. unfold indexed_table. rewrite (bind_ok _ _ _ _ _ (find_index_run c id ti Hti)).
  unfold get_store. rewrite gets_bind. eexists. split; [reflexivity|]. intros i t Hf. destruct (Find ti id) as [k|]; [|done].
  apply fmap_Some in Hf as (t' & Ht' & [= -> ->]). done.
Qed.

(** Sealing succeeds, or throws without effect when the token mirror is too short. *)
Lemma Seal_ok c id tokens : paged_ok cfg (store c) -> requires_checkpoint (options_ (observer (main (store c)))) = false ->
  keeps_ok cfg (SealCommittedBlocks id tokens None c) c.
Proof.
  intros Hs Hreq. unfold SealCommittedBlocks, get_prefix. rewrite gets_bind, Hreq.
  destruct (Enabled (observer (main (store c)))) eqn:Hen; cbn [negb]; [|done].
  destruct (indexed_table_run c id Hs) as (found & Hrun & Hfound). rewrite (bind_ok _ _ _ _ _ Hrun).
  destruct found as [[i t]|]; [|done]. specialize (Hfound i t eq_refl). destruct (sealing_stopped_ t); [done|].
  rewrite (bind_ok _ _ _ _ _ (block_size_run _ c Hs)). pose proof (paged_bs _ _ Hs) as Hn.
  destruct (Nat.leb_spec (committed_slots_ t / bs (store c)) (sealed_blocks_ t)) as [|Hlt]; [done|].
  destruct (Nat.ltb_spec (length tokens) (committed_slots_ t / bs (store c) * bs (store c))) as [|Hlen]; [done|].
  erewrite bind_ok by reflexivity. pose proof (Nat.Div0.mul_div_le (committed_slots_ t) (bs (store c))) as Hdiv.
  destruct (seal_loop_ok i tokens (committed_slots_ t / bs (store c) - sealed_blocks_ t) (sealed_blocks_ t) (sealed_identity_ t) c t Hs Hfound)
    as (c' & -> & Hs' & Hcol); [rewrite (Nat.add_comm (sealed_blocks_ t)), Nat.sub_add by lia; lia..| |done|done].
  pose proof (po_tables _ _ Hs) as Hall. rewrite Forall_lookup in Hall. apply (to_sealed _ _ _ (Hall i t Hfound)).
Qed.
End Sealing.

(** ** Calls *)

Section Calls.
Context (cfg : PagedConfig) (fresh : nat -> list Z).

Inductive paged_call : Type :=
  | CallAdd (r : CacheRequest)
  | CallAppend (r : CacheRequest)
  | CallRemove (request_id : N)
  | CallSeal (request_id : N) (tokens : list Z)
  | CallBlockTables (requests : list N).

Definition run_paged_call (call : paged_call) : KM unit :=
  match call with
  | CallAdd r => Add cfg r
  | CallAppend r => AppendTokens cfg r
  | CallRemove id => Remove id
  | CallSeal id tokens => SealCommittedBlocks id tokens None
  | CallBlockTables requests => _ ← BlockTables cfg requests fresh; mret tt
  end.

(** Request ids are positive; a cache that requires checkpoints seals at checkpoints. *)
Definition paged_call_valid (call : paged_call) (c : PagedKeyValueCache) : Prop :=
  match call with
  | CallAdd r => cr_request_id r <> 0%N
  | CallSeal _ _ => requires_checkpoint (options_ (observer (main (store c)))) = false
  | _ => True
  end.

Inductive paged_reachable (size num_blocks max_batch_size this : nat) (enabled requires : bool) (max_checkpoints : nat) : PagedKeyValueCache -> Prop :=
  | paged_start c : make_PagedKeyValueCache size num_blocks (ring_blocks_ cfg) max_batch_size this enabled requires max_checkpoints = Ok c ->
      paged_reachable size num_blocks max_batch_size this enabled requires max_checkpoints c
  | paged_step c call r c' : paged_reachable size num_blocks max_batch_size this enabled requires max_checkpoints c -> paged_call_valid call c ->
      run_paged_call call c = (r, c') -> paged_reachable size num_blocks max_batch_size this enabled requires max_checkpoints c'.

Lemma initial_paged_ok size num_blocks max_batch_size this enabled requires max_checkpoints c : 0 < size ->
  (N.of_nat (num_blocks * size) < two64)%N ->
  make_PagedKeyValueCache size num_blocks (ring_blocks_ cfg) max_batch_size this enabled requires max_checkpoints = Ok c -> paged_ok cfg (store c).
Proof.
  intros Hsize Hwidth Hmake. unfold make_PagedKeyValueCache in Hmake. set (options := mkOptions _ _ _ _ _) in Hmake.
  destruct (SetReferenceObserver (Some this) (initial_world size num_blocks (make_PrefixCache num_blocks options))) as [[[]|?| |] w] eqn:Hset; try done.
  destruct (make_RequestIndex (N.of_nat max_batch_size)) as [ti|?| |] eqn:Hti; try done. injection Hmake as <-.
  pose proof (initial_cache_ok size num_blocks options this w Hsize Hset) as Hck. injection Hset as <-.
  destruct (N.lt_ge_cases (N.of_nat max_batch_size) (2 ^ 62)) as [Hlt|Hge]; [|destruct (make_refuses _ Hge); congruence].
  destruct (make_spec _ Hlt) as (ti' & Hti' & Hwf & Hc & _). assert (ti' = ti) as -> by congruence.
  assert (forall O (w : world O) k, blocks_ (pool w) = replicate k None -> accounted w []) as Hac.
  { intros O w k Hb. split; [done|..]; intros id a b Hid; rewrite Hb in Hid; by apply lookup_replicate in Hid as [? _]. }
  assert (forall win, (win = None -> ring_blocks_ cfg = 0) -> (forall w, win = Some w -> 0 < ring_blocks_ cfg /\ pool_wf w /\
    exists k, blocks_ (pool w) = replicate k None) -> forall m, window_ok cfg (mkState m win [] 0 (Some ti) 0)) as Hwin.
  { intros [w|] Hn Hw m; [|by apply Hn]. destruct (Hw w eq_refl) as (H1 & H2 & k & Hk). split_and!; [done..| |by eapply Hac].
    intros id a b Hid. rewrite Hk in Hid. by apply lookup_replicate in Hid as [? _]. }
  split; cbn [store main window tables table_index]; try done.
  - apply Hwin; destruct (Nat.eqb_spec (ring_blocks_ cfg) 0); try done.
    intros w [= <-]. split_and!; [lia|by apply initial_world_wf|by eexists].
  - unfold index_sync. cbn. split; [done|]. intros id i. rewrite Hc, lookup_empty. split; [done|]. intros (t & Ht & _). by rewrite lookup_nil in Ht.
Qed.

Context (Hfresh : forall n, length (fresh n) = n).
Context (Hgraph : graph_capture_ cfg = true -> (0 < N.of_nat (max_block_table_columns_ cfg) < two64)%N).

(** A call on a consistent cache returns, or throws and leaves pools and tables alone. *)
Lemma run_paged_call_ok call c : paged_ok cfg (store c) -> paged_call_valid call c ->
  match run_paged_call call c with
  | (Ok _, c') => paged_ok cfg (store c')
  | (Throw _, c') => store c' = store c
  | _ => False
  end.
Proof.
  intros Hs Hv. assert (forall A (r : outcome PagedError A * PagedKeyValueCache), keeps_ok cfg r c ->
    match r with (Ok _, c') => paged_ok cfg (store c') | (Throw _, c') => store c' = store c | _ => False end) as Hkeep.
  { intros A [[a|e| |] c'] Hk; cbn in Hk; [apply Hk|by subst|done|done]. }
  destruct call as [r|r|id|id tokens|requests]; cbn [run_paged_call paged_call_valid] in *.
  - by apply Hkeep, Add_ok.
  - by apply Hkeep, AppendTokens_ok.
  - destruct (Remove_run cfg c id Hs) as (c' & -> & _ & Hr). destruct (find_table id (tables (store c))) as [[i t]|] eqn:Hf; [|by subst].
    apply find_table_Some in Hf as [Hi _]. by eapply removed_ok.
  - by apply Hkeep, Seal_ok.
  - pose proof (BlockTables_run cfg fresh Hfresh c requests Hs Hgraph) as Hrun. unfold mbind, M_bind.
    destruct (BlockTables cfg requests fresh c) as [[d|e| |] c']; [|..|done|done].
    + destruct Hrun as (columns & -> & _). done.
    + by destruct Hrun as [(_ & -> & _)|(_ & -> & _)].
Qed.

Lemma paged_reachable_ok size num_blocks max_batch_size this enabled requires max_checkpoints c : 0 < size ->
  (N.of_nat (num_blocks * size) < two64)%N ->
  paged_reachable size num_blocks max_batch_size this enabled requires max_checkpoints c -> paged_ok cfg (store c).
Proof.
  intros Hsize Hwidth. induction 1 as [c Hmake|c call r c' _ Hs Hv Hrun]; [by eapply initial_paged_ok|].
  pose proof (run_paged_call_ok call c Hs Hv) as Hok. rewrite Hrun in Hok. destruct r; [done|by rewrite Hok|done|done].
Qed.
End Calls.

Lemma others_filter (id : N) ids rest : NoDup ids -> ids ≡ₚ id :: rest -> rest ≡ₚ filter (fun x => x <> id) ids.
Proof.
  intros Hnd Hp. rewrite Hp in Hnd |- *. apply NoDup_cons in Hnd as [Hid _]. rewrite filter_cons_False by (intros Hne; by apply Hne).
  rewrite filter_all; [done|]. intros x Hx ->. done.
Qed.

Lemma Remove_ids cfg c id : paged_ok cfg (store c) -> exists c', Remove id c = (Ok tt, c') /\
  request_id_ <$> tables (store c') ≡ₚ filter (fun x => x <> id) (request_id_ <$> tables (store c)).
Proof.
  intros Hs. destruct (Remove_run cfg c id Hs) as (c' & Hrun & _ & Hr). exists c'. split; [done|].
  destruct (find_table id (tables (store c))) as [[i t]|] eqn:Hf.
  - apply find_table_Some in Hf as [Hi Hid]. pose proof (rm_tables _ _ _ _ Hr) as Hp. apply (fmap_Permutation request_id_) in Hp.
    rewrite !ids_regen in Hp. etrans; [exact Hp|]. apply others_filter; [by eapply paged_ids|].
    rewrite <-Hid. exact (fmap_Permutation request_id_ _ _ (delete_Permutation _ _ _ Hi)).
  - subst c'. rewrite filter_all; [done|]. apply find_table_None in Hf. intros x Hx ->. done.
Qed.


(** ** A run *)

Definition sample_config : PagedConfig := mkConfig 2 2 4 false 0 0.
Definition zeros (n : nat) : list Z := replicate n 0%Z.
Definition sample_cache : PagedKeyValueCache :=
  match make_PagedKeyValueCache 2 5 2 3 9 true false 0 with Ok c => c | _ => mkPaged (mkState (initial_world 2 5 (make_PrefixCache 5 (mkOptions true 5 false 0 None))) None [] 0 None 0) 0 end.
Definition sample_calls : list paged_call :=
  [CallAdd (mkCacheRequest 7 3 3); CallAppend (mkCacheRequest 7 3 3); CallSeal 7 [11; 12; 13]%Z; CallAdd (mkCacheRequest 8 2 2);
   CallAppend (mkCacheRequest 8 2 2); CallBlockTables [8; 7]%N].
Definition after_call_of (call : paged_call) (c : PagedKeyValueCache) : PagedKeyValueCache := (run_paged_call sample_config zeros call c).2.
Definition after_calls (calls : list paged_call) (c : PagedKeyValueCache) : PagedKeyValueCache := foldl (fun c call => after_call_of call c) c calls.
Definition sample_state : PagedKeyValueCache := after_calls sample_calls sample_cache.

Fixpoint calls_valid (calls : list paged_call) (c : PagedKeyValueCache) : Prop :=
  match calls with [] => True | call :: calls => paged_call_valid call c /\ calls_valid calls (after_call_of call c) end.

Lemma after_calls_reachable calls : forall c, paged_reachable sample_config zeros 2 5 3 9 true false 0 c -> calls_valid calls c ->
  paged_reachable sample_config zeros 2 5 3 9 true false 0 (after_calls calls c).
Proof.
  induction calls as [|call calls IH]; intros c Hc Hv; [done|]. destruct Hv as [Hv Hvs]. apply IH; [|done].
  eapply paged_step; [exact Hc|exact Hv|]. apply surjective_pairing.
Qed.

Lemma sample_state_reachable : paged_reachable sample_config zeros 2 5 3 9 true false 0 sample_state.
Proof. apply after_calls_reachable; [by apply paged_start|]. repeat split; try done. Qed.

Lemma sample_graph : graph_capture_ sample_config = true -> (0 < N.of_nat (max_block_table_columns_ sample_config) < two64)%N.
Proof. intros H. discriminate H. Qed.

Lemma zeros_length n : length (zeros n) = n.
Proof. apply length_replicate. Qed.

Lemma sample_state_ok : paged_ok sample_config (store sample_state).
Proof.
  eapply paged_reachable_ok; [|..|exact sample_state_reachable]; [exact zeros_length|exact sample_graph|lia|done].
Qed.


