(* ===== verification/Logits.v ===== *)
(** * Logits processing and greedy selection

    Models the CPU helpers that edit one row of logits before a token is picked:
    [sampling_distribution.h] ([ApplyMinLengthToLogits],
    [ApplyRepetitionPenaltyToLogits], [ApplyNoRepeatNgramToLogits],
    [LogitsPenaltyProcessor]), the row-wise versions of [Search_Cpu] in [search.cpp], and
    [ArgMax] of [search.h].  A [float] is the [spec_float] of [TurnPolicy]; the arithmetic
    is IEEE binary32, rounded to nearest even. *)

From S2P Require Import Prelude TurnPolicy.
From Stdlib Require Import SpecFloat.

Open Scope nat_scope.

(** [std::numeric_limits<float>::lowest()]. *)
Definition lowest : float := S754_finite true 16777215 104.

(** [a > b], [a < b] and [a == b] on [float]: false as soon as one is a NaN. *)
Definition gt (a b : float) : bool := SFltb b a.

(** [vocab_size] of a row, and the test [0 <= id && id < vocab_size]. *)
Definition in_vocab (vocab_size : nat) (id : Z) : bool := ((0 <=? id) && (id <? Z.of_nat vocab_size))%Z.

(** [logits[id] = value] for an id the code has tested, and untouched otherwise. *)
Definition set_score (value : float) (id : Z) (logits : list float) : list float :=
  if in_vocab (length logits) id then <[Z.to_nat id := value]> logits else logits.

(** ** [sampling_distribution.h] *)

Definition ApplyMinLengthToLogits (logits : list float) (current_length min_length : Z)
    (eos_token_ids : list Z) : list float :=
  if (min_length <=? current_length)%Z then logits
  else foldl (fun l eos => set_score lowest eos l) logits eos_token_ids.

Definition penalised (penalty score : float) : float :=
  if SFltb score zero32 then SFmul 24 128 score penalty else SFdiv 24 128 score penalty.

(** The loop over the prefix: a token of the vocabulary is penalised the first time it is
    met.  [visited] is at least as long as the vocabulary. *)
Fixpoint penalty_loop (vocab_size : nat) (penalty : float) (prefix : list Z)
    (logits : list float) (visited : list bool) : list float * list bool :=
  match prefix with
  | [] => (logits, visited)
  | word_id :: rest =>
    let i := Z.to_nat word_id in
    if in_vocab vocab_size word_id && negb (default false (visited !! i)) then
      let score := default zero32 (logits !! i) in
      penalty_loop vocab_size penalty rest (<[i := penalised penalty score]> logits) (<[i := true]> visited)
    else penalty_loop vocab_size penalty rest logits visited
  end.

(** The second loop: the flags the first one may have raised are lowered. *)
Definition reset_visited (vocab_size : nat) (prefix : list Z) (visited : list bool) : list bool :=
  foldl (fun v word_id => if in_vocab vocab_size word_id then <[Z.to_nat word_id := false]> v else v)
    visited prefix.

Definition ApplyRepetitionPenaltyToLogits (logits : list float) (prefix : list Z) (penalty : float)
    (visited : list bool) : list float * list bool :=
  if SFeqb penalty one32 then (logits, visited)
  else
    let vocab_size := length logits in
    let visited := if length visited <? vocab_size then replicate vocab_size false else visited in
    let '(logits', visited') := penalty_loop vocab_size penalty prefix logits visited in
    (logits', reset_visited vocab_size prefix visited').

(** One start position of the scan for repeated n-grams. *)
Definition ban_at (prefix target_prefix : list Z) (ngram_prefix_length : nat) (logits : list float)
    (start : nat) : list float :=
  if bool_decide (take ngram_prefix_length (drop start prefix) = target_prefix) then
    match prefix !! (start + ngram_prefix_length) with
    | Some banned_token => set_score lowest banned_token logits
    | None => logits
    end
  else logits.

Definition ApplyNoRepeatNgramToLogits (logits : list float) (prefix : list Z) (ngram_size : Z) : list float :=
  if (ngram_size <=? 0)%Z || (length prefix <? Z.to_nat ngram_size) then logits
  else
    let ngram_prefix_length := Z.to_nat (ngram_size - 1) in
    let target_prefix := drop (length prefix - ngram_prefix_length) prefix in
    let last_start := length prefix - Z.to_nat ngram_size in
    foldl (ban_at prefix target_prefix ngram_prefix_length) logits (seq 0 (S last_start)).

Record LogitsPenaltyProcessor : Type := mkProcessor
  { repetition_penalty_ : float;
    min_length_ : Z;
    no_repeat_ngram_size_ : Z;
    eos_token_ids_ : list Z;
    active_ : bool;
    repetition_visited_ : list bool;
    logits_buffer_ : list float }.

Definition make_LogitsPenaltyProcessor (vocab_size : nat) (repetition_penalty : float) (min_length : Z)
    (no_repeat_ngram_size : Z) (eos_token_ids : list Z) : LogitsPenaltyProcessor :=
  let active := negb (SFeqb repetition_penalty one32) || (0 <? min_length)%Z || (0 <? no_repeat_ngram_size)%Z in
  mkProcessor repetition_penalty min_length no_repeat_ngram_size eos_token_ids active []
    (if active then replicate vocab_size zero32 else []).

(** [std::copy] of a row into the buffer: the row replaces the buffer's first elements;
    a row longer than the buffer would be written past its end. *)
Definition copy_into {A} (source target : list A) : list A := source ++ drop (length source) target.

Definition Apply (logits : list float) (current_length : Z) (prefix : list Z) (p : LogitsPenaltyProcessor) :
    outcome unit (list float) * LogitsPenaltyProcessor :=
  if negb (active_ p) then (Ok logits, p)
  else if length (logits_buffer_ p) <? length logits then (Undefined, p)
  else
    let buffer := copy_into logits (logits_buffer_ p) in
    let buffer := ApplyMinLengthToLogits buffer current_length (min_length_ p) (eos_token_ids_ p) in
    let '(buffer, visited) := ApplyRepetitionPenaltyToLogits buffer prefix (repetition_penalty_ p)
      (repetition_visited_ p) in
    let buffer := ApplyNoRepeatNgramToLogits buffer prefix (no_repeat_ngram_size_ p) in
    (Ok buffer, mkProcessor (repetition_penalty_ p) (min_length_ p) (no_repeat_ngram_size_ p)
                  (eos_token_ids_ p) (active_ p) visited buffer).

(** ** [Search_Cpu], one row of the batch

    [ApplyMinLength] and [ApplyRepetitionPenalty] call the shared helpers on every row;
    [ApplyNoRepeatNgram] has a loop of its own. *)

(** The comparison loop: it stops at the first token that differs. *)
Fixpoint matches_loop (sequence target_prefix : list Z) (start j n : nat) : bool :=
  match n with
  | 0 => true
  | S n' => if bool_decide (sequence !! (start + j) = target_prefix !! j)
            then matches_loop sequence target_prefix start (S j) n' else false
  end.

Definition search_ban_at (sequence target_prefix : list Z) (prefix_length : nat) (logits : list float)
    (start : nat) : list float :=
  if matches_loop sequence target_prefix start 0 prefix_length then
    match sequence !! (start + prefix_length) with
    | Some banned_token => set_score lowest banned_token logits
    | None => logits
    end
  else logits.

Definition ApplyNoRepeatNgram (ngram_size : Z) (sequence : list Z) (logits : list float) : list float :=
  if (ngram_size <=? 0)%Z then logits
  else if (Z.of_nat (length sequence) <? ngram_size)%Z then logits
  else
    let prefix_length := Z.to_nat (ngram_size - 1) in
    let target_prefix := take prefix_length (drop (length sequence - prefix_length) sequence) in
    let last_start := length sequence - Z.to_nat ngram_size in
    foldl (search_ban_at sequence target_prefix prefix_length) logits (seq 0 (S last_start)).

Definition ApplyMinLength (min_length length : Z) (eos_token_ids : list Z) (logits : list float) : list float :=
  if (min_length <=? length)%Z then logits
  else ApplyMinLengthToLogits logits length min_length eos_token_ids.

Definition ApplyRepetitionPenalty (penalty : float) (sequence : list Z) (visited : list bool)
    (logits : list float) : list float * list bool :=
  if SFeqb penalty one32 then (logits, visited)
  else ApplyRepetitionPenaltyToLogits logits sequence penalty visited.

(** ** [ArgMax] *)

Inductive ArgMaxError : Type := RequiresNonEmpty.

Fixpoint argmax_loop {S} (better : S -> S -> bool) (i : nat) (rest : list S) (best_index : nat) (best_score : S) : nat :=
  match rest with
  | [] => best_index
  | x :: rest' => if better x best_score then argmax_loop better (i + 1) rest' i x
                  else argmax_loop better (i + 1) rest' best_index best_score
  end.

Definition ArgMax {A S} (better : S -> S -> bool) (score : A -> nat -> S) (values : list A) : outcome ArgMaxError nat :=
  match values with
  | [] => Throw RequiresNonEmpty
  | v :: _ =>
    let scores := imap (fun i x => score x i) values in
    Ok (argmax_loop better 1 (tail scores) 0 (score v 0))
  end.

Definition ArgMax_float (values : list float) : outcome ArgMaxError nat := ArgMax gt (fun value _ => value) values.

(** ** What the edits of a row do *)

Lemma in_vocab_spec n id : in_vocab n id = true <-> (0 <= id < Z.of_nat n)%Z.
Proof. unfold in_vocab. rewrite andb_true_iff, Z.leb_le, Z.ltb_lt. done. Qed.

Lemma length_set_score v id l : length (set_score v id l) = length l.
Proof. unfold set_score. case_match; [apply length_insert|done]. Qed.

Lemma set_score_eq v l t : t < length l -> set_score v (Z.of_nat t) l !! t = Some v.
Proof.
  intros Ht. unfold set_score. rewrite (proj2 (in_vocab_spec _ _)) by lia.
  by rewrite Nat2Z.id, list_lookup_insert_eq.
Qed.

Lemma set_score_ne v id l t : id <> Z.of_nat t -> set_score v id l !! t = l !! t.
Proof.
  intros Hne. unfold set_score. destruct (in_vocab _ _) eqn:Hv; [|done].
  apply in_vocab_spec in Hv. apply list_lookup_insert_ne. lia.
Qed.

(** Masking a list of ids masks exactly the ids of the list that are in the row. *)
Definition mask (ids : list Z) (logits : list float) : list float :=
  foldl (fun l id => set_score lowest id l) logits ids.

Lemma mask_cons id ids l : mask (id :: ids) l = mask ids (set_score lowest id l).
Proof. done. Qed.

Lemma length_mask ids l : length (mask ids l) = length l.
Proof. revert l. induction ids as [|id ids IH]; intros l; [done|]. by rewrite mask_cons, IH, length_set_score. Qed.

Lemma mask_out ids l t : Z.of_nat t ∉ ids -> mask ids l !! t = l !! t.
Proof.
  revert l. induction ids as [|id ids IH]; intros l Ht; [done|].
  apply not_elem_of_cons in Ht as [Hne Hnin]. by rewrite mask_cons, IH, set_score_ne by done.
Qed.

Lemma mask_in ids l t : t < length l -> Z.of_nat t ∈ ids -> mask ids l !! t = Some lowest.
Proof.
  revert l. induction ids as [|id ids IH]; intros l Ht Hin; [by apply not_elem_of_nil in Hin|].
  rewrite mask_cons. destruct (decide (Z.of_nat t ∈ ids)) as [Hin'|Hnin].
  - apply IH; [by rewrite length_set_score|done].
  - apply elem_of_cons in Hin as [<-|Hin]; [|done]. rewrite mask_out by done. by apply set_score_eq.
Qed.

(** ** Repeated n-grams *)

(** Appending [t] to [s] ends it with an [n]-gram that occurs in [s] already. *)
Definition repeats (n : nat) (s : list Z) (t : Z) : Prop :=
  exists before after, s = before ++ drop (length s + 1 - n) (s ++ [t]) ++ after.

(** The tokens the scan finds: what followed an earlier copy of the trailing tokens. *)
Definition followers (n : nat) (s : list Z) : list Z :=
  omap (fun start => if bool_decide (take (n - 1) (drop start s) = drop (length s - (n - 1)) s)
                     then s !! (start + (n - 1)) else None) (seq 0 (S (length s - n))).

Lemma last_ngram n (s : list Z) t : 0 < n <= length s ->
  drop (length s + 1 - n) (s ++ [t]) = drop (length s - (n - 1)) s ++ [t].
Proof. intros Hn. rewrite drop_app_le by lia. do 2 f_equal. lia. Qed.

Lemma followers_spec n s t : 0 < n <= length s -> t ∈ followers n s <-> repeats n s t.
Proof.
  intros Hn. unfold followers, repeats. rewrite last_ngram, list_elem_of_omap by done.
  set (w := drop (length s - (n - 1)) s). assert (length w = n - 1) as Hw by (unfold w; rewrite length_drop; lia).
  split.
  - intros (start & Hseq & Ht). case_bool_decide as Hm; [|done]. exists (take start s), (drop (start + n) s).
    rewrite <- (take_drop start s) at 1. f_equal. rewrite <- (take_drop (n - 1) (drop start s)), Hm, <- app_assoc.
    f_equal. rewrite drop_drop. rewrite (drop_S _ _ _ Ht). cbn. do 2 f_equal. lia.
  - intros (a & b & Hs). exists (length a). rewrite elem_of_seq.
    assert (length s = length a + n + length b) as Hl by (rewrite Hs, !length_app, Hw; cbn; lia).
    split; [lia|]. clearbody w.
    assert (s = a ++ w ++ t :: b) as -> by (by rewrite Hs, <- app_assoc).
    rewrite drop_app_length, take_app_length' by done.
    rewrite bool_decide_true by done. rewrite lookup_app_r by lia.
    by apply list_lookup_middle; lia.
Qed.

Lemma repeats_long n s t : length s < n -> ~ repeats n s t.
Proof.
  intros Hn (a & b & Hs). apply (f_equal length) in Hs.
  rewrite !length_app, length_drop, length_app in Hs. cbn in Hs. lia.
Qed.

Lemma ban_scan (prefix target : list Z) k starts logits :
  foldl (ban_at prefix target k) logits starts =
  mask (omap (fun start => if bool_decide (take k (drop start prefix) = target)
                           then prefix !! (start + k) else None) starts) logits.
Proof.
  revert logits. induction starts as [|start starts IH]; intros logits; [done|].
  cbn [foldl omap list_omap]. rewrite IH. unfold ban_at. case_bool_decide; [|done].
  by destruct (prefix !! (start + k)).
Qed.

Lemma no_repeat_is_mask logits prefix n : 0 < n <= length prefix ->
  ApplyNoRepeatNgramToLogits logits prefix (Z.of_nat n) = mask (followers n prefix) logits.
Proof.
  intros Hn. unfold ApplyNoRepeatNgramToLogits. rewrite (proj2 (Z.leb_gt _ _)) by lia.
  rewrite Nat2Z.id, (proj2 (Nat.ltb_ge _ _)) by lia. cbn [orb].
  replace (Z.to_nat (Z.of_nat n - 1)) with (n - 1) by lia. apply ban_scan.
Qed.

Lemma no_repeat_short logits prefix n : length prefix < n ->
  ApplyNoRepeatNgramToLogits logits prefix (Z.of_nat n) = logits.
Proof.
  intros Hn. unfold ApplyNoRepeatNgramToLogits. rewrite Nat2Z.id, (proj2 (Nat.ltb_lt _ _)) by lia.
  by rewrite orb_true_r.
Qed.

Lemma no_repeat_lookup logits prefix n t : 0 < n -> t < length logits ->
  (repeats n prefix (Z.of_nat t) -> ApplyNoRepeatNgramToLogits logits prefix (Z.of_nat n) !! t = Some lowest) /\
  (~ repeats n prefix (Z.of_nat t) -> ApplyNoRepeatNgramToLogits logits prefix (Z.of_nat n) !! t = logits !! t).
Proof.
  intros Hn Ht. destruct (decide (length prefix < n)) as [Hs|Hs].
  - rewrite no_repeat_short by done. split; [|done]. intros Hr. by apply repeats_long in Hr.
  - rewrite no_repeat_is_mask by lia. split.
    + intros Hr. apply mask_in; [done|]. apply followers_spec; [lia|done].
    + intros Hr. apply mask_out. rewrite followers_spec by lia. done.
Qed.

Lemma length_no_repeat logits prefix n : length (ApplyNoRepeatNgramToLogits logits prefix n) = length logits.
Proof.
  unfold ApplyNoRepeatNgramToLogits. case_match; [done|]. rewrite ban_scan. apply length_mask.
Qed.

(** ** The search's own n-gram loop is the shared one *)

Lemma matches_loop_spec (sequence target : list Z) start j n : j + n = length target ->
  matches_loop sequence target start j n = bool_decide (take n (drop (start + j) sequence) = drop j target).
Proof.
  revert j. induction n as [|n IH]; intros j Hl; cbn [matches_loop].
  - rewrite (drop_ge target) by lia. done.
  - destruct (lookup_lt_is_Some_2 target j) as [y Hy]; [lia|]. rewrite (drop_S _ _ _ Hy), Hy.
    destruct (sequence !! (start + j)) as [x|] eqn:Hx.
    + rewrite (drop_S _ _ _ Hx). cbn [take]. case_bool_decide as Hxy.
      * rewrite IH by lia. injection Hxy as ->. replace (S (start + j)) with (start + S j) by lia.
        apply bool_decide_ext. split; [by intros ->|by intros [= ->]].
      * symmetry. apply bool_decide_eq_false. intros [= -> _]. done.
    + rewrite bool_decide_false by done. symmetry. apply bool_decide_eq_false.
      rewrite drop_ge by (by apply lookup_ge_None). by rewrite take_nil.
Qed.

Lemma foldl_pointwise {A B} (f g : A -> B -> A) (l : list B) a :
  (forall x y, f x y = g x y) -> foldl f a l = foldl g a l.
Proof. intros Hfg. revert a. induction l as [|x l IH]; intros a; [done|]. cbn. by rewrite Hfg, IH. Qed.

Lemma ApplyNoRepeatNgram_shared n sequence logits :
  ApplyNoRepeatNgram n sequence logits = ApplyNoRepeatNgramToLogits logits sequence n.
Proof.
  unfold ApplyNoRepeatNgram, ApplyNoRepeatNgramToLogits.
  destruct (n <=? 0)%Z eqn:Hn; [done|]. apply Z.leb_gt in Hn. cbn [orb].
  destruct (Z.of_nat (length sequence) <? n)%Z eqn:Hl.
  - apply Z.ltb_lt in Hl. by rewrite (proj2 (Nat.ltb_lt _ _)) by lia.
  - apply Z.ltb_ge in Hl. rewrite (proj2 (Nat.ltb_ge _ _)) by lia.
    rewrite take_ge by (rewrite length_drop; lia). set (target := drop _ _).
    assert (length target = Z.to_nat (n - 1)) as Ht by (unfold target; rewrite length_drop; lia).
    apply foldl_pointwise. intros l start. unfold search_ban_at, ban_at.
    rewrite matches_loop_spec by done. rewrite Nat.add_0_r. done.
Qed.

(** ** The repetition penalty *)

(** The row and the flags after the tokens [seen] have been met. *)
Definition penalised_row (penalty : float) (seen : list Z) (logits : list float) : list float :=
  imap (fun t score => if bool_decide (Z.of_nat t ∈ seen) then penalised penalty score else score) logits.

Definition visited_row (vocab_size m : nat) (seen : list Z) : list bool :=
  (fun t => bool_decide (t < vocab_size /\ Z.of_nat t ∈ seen)) <$> seq 0 m.

Lemma lookup_visited_row n m seen t : t < m ->
  visited_row n m seen !! t = Some (bool_decide (t < n /\ Z.of_nat t ∈ seen)).
Proof. intros Ht. unfold visited_row. by rewrite list_lookup_fmap, (lookup_seq_lt 0 m t Ht). Qed.

Lemma length_visited_row n m seen : length (visited_row n m seen) = m.
Proof. unfold visited_row. by rewrite length_fmap, length_seq. Qed.

Lemma penalised_row_same penalty seen seen' logits :
  (forall t, t < length logits -> Z.of_nat t ∈ seen <-> Z.of_nat t ∈ seen') ->
  penalised_row penalty seen logits = penalised_row penalty seen' logits.
Proof.
  intros Hs. unfold penalised_row. apply list_eq. intros t. rewrite !list_lookup_imap.
  destruct (logits !! t) as [x|] eqn:Hx; [|done]. cbn. apply lookup_lt_Some in Hx.
  by rewrite (bool_decide_ext _ _ (Hs t Hx)).
Qed.

Lemma visited_row_same n m seen seen' :
  (forall t, t < n -> Z.of_nat t ∈ seen <-> Z.of_nat t ∈ seen') -> visited_row n m seen = visited_row n m seen'.
Proof.
  intros Hs. unfold visited_row. apply list_fmap_ext. intros _ t _. apply bool_decide_ext. naive_solver.
Qed.

Lemma penalised_row_snoc penalty seen logits id i : Z.to_nat id = i -> in_vocab (length logits) id = true ->
  id ∉ seen ->
  <[i := penalised penalty (default zero32 (penalised_row penalty seen logits !! i))]> (penalised_row penalty seen logits) =
  penalised_row penalty (seen ++ [id]) logits.
Proof.
  intros Hi [Hlo Hhi]%in_vocab_spec Hnin. assert (id = Z.of_nat i) as -> by lia.
  destruct (lookup_lt_is_Some_2 logits i) as [x Hx]; [lia|].
  unfold penalised_row at 1. rewrite list_lookup_imap, Hx. cbn. rewrite bool_decide_false by done.
  apply list_eq. intros t. destruct (decide (i = t)) as [<-|Hne].
  - rewrite list_lookup_insert_eq by (unfold penalised_row; rewrite length_imap; by eapply lookup_lt_Some).
    unfold penalised_row. rewrite list_lookup_imap, Hx. cbn. by rewrite bool_decide_true by set_solver.
  - rewrite list_lookup_insert_ne by done. unfold penalised_row. rewrite !list_lookup_imap.
    destruct (logits !! t); [|done]. cbn. f_equal.
    rewrite (bool_decide_ext (Z.of_nat t ∈ seen) (Z.of_nat t ∈ seen ++ [Z.of_nat i])); [done|]. set_solver by lia.
Qed.

Lemma visited_row_snoc n m seen id i : Z.to_nat id = i -> in_vocab n id = true -> n <= m ->
  <[i := true]> (visited_row n m seen) = visited_row n m (seen ++ [id]).
Proof.
  intros Hi [Hlo Hhi]%in_vocab_spec Hm. assert (id = Z.of_nat i) as -> by lia.
  apply list_eq. intros t. destruct (decide (t < m)) as [Ht|Ht].
  - rewrite lookup_visited_row by done. destruct (decide (i = t)) as [<-|Hne].
    + rewrite list_lookup_insert_eq by (by rewrite length_visited_row). by rewrite bool_decide_true by (split; [lia|set_solver]).
    + rewrite list_lookup_insert_ne, lookup_visited_row by done. f_equal. apply bool_decide_ext. set_solver by lia.
  - rewrite !lookup_ge_None_2; [done|rewrite length_visited_row; lia|rewrite length_insert, length_visited_row; lia].
Qed.

Lemma penalty_loop_spec penalty rest logits m seen : length logits <= m ->
  penalty_loop (length logits) penalty rest (penalised_row penalty seen logits) (visited_row (length logits) m seen) =
  (penalised_row penalty (seen ++ rest) logits, visited_row (length logits) m (seen ++ rest)).
Proof.
  intros Hm. revert seen. induction rest as [|id rest IH]; intros seen; cbn [penalty_loop].
  - by rewrite app_nil_r.
  - replace (seen ++ id :: rest) with ((seen ++ [id]) ++ rest) by (by rewrite <- app_assoc).
    destruct (in_vocab (length logits) id) eqn:Hid; cbn [andb].
    + pose proof (proj1 (in_vocab_spec _ _) Hid) as Hr. rewrite lookup_visited_row by lia. cbn [default].
      rewrite Z2Nat.id by lia. case_bool_decide as Hseen; cbn [negb].
      * rewrite <- (IH (seen ++ [id])). f_equal; [apply penalised_row_same|apply visited_row_same]; set_solver.
      * rewrite <- (IH (seen ++ [id])), (visited_row_snoc _ _ _ id), (penalised_row_snoc _ _ _ id); try done. naive_solver lia.
    + assert (forall t, t < length logits -> Z.of_nat t <> id) as Hout.
      { intros t Ht <-. rewrite (proj2 (in_vocab_spec _ _)) in Hid; [done|lia]. }
      rewrite <- (IH (seen ++ [id])). f_equal; [apply penalised_row_same|apply visited_row_same]; set_solver.
Qed.

Lemma penalised_row_nil penalty logits : penalised_row penalty [] logits = logits.
Proof.
  unfold penalised_row. apply list_eq. intros t. rewrite list_lookup_imap. by destruct (logits !! t).
Qed.

Lemma visited_row_nil n m : visited_row n m [] = replicate m false.
Proof.
  apply list_eq. intros t. destruct (decide (t < m)) as [Ht|Ht].
  - rewrite lookup_visited_row, lookup_replicate_2 by done. f_equal. apply bool_decide_eq_false. set_solver.
  - rewrite !lookup_ge_None_2; [done|rewrite length_replicate; lia|rewrite length_visited_row; lia].
Qed.

(** Lowering the flags of a prefix leaves those of the other tokens. *)
Lemma reset_visited_spec n prefix v t : length v >= n ->
  reset_visited n prefix v !! t = if bool_decide (t < n /\ Z.of_nat t ∈ prefix) then Some false else v !! t.
Proof.
  unfold reset_visited. revert v. induction prefix as [|id prefix IH]; intros v Hv; cbn [foldl].
  - rewrite bool_decide_false by set_solver. done.
  - destruct (in_vocab n id) eqn:Hid.
    + apply in_vocab_spec in Hid. rewrite IH by (by rewrite length_insert).
      destruct (decide (Z.to_nat id = t)) as [<-|Hne].
      * rewrite list_lookup_insert_eq by lia. rewrite (bool_decide_true (_ < n /\ _ ∈ id :: _)); [by case_bool_decide|].
        split; [lia|]. rewrite Z2Nat.id by lia. left.
      * rewrite list_lookup_insert_ne by done.
        rewrite (bool_decide_ext (t < n /\ Z.of_nat t ∈ prefix) (t < n /\ Z.of_nat t ∈ id :: prefix)); [done|]. set_solver by lia.
    + rewrite IH by done.
      rewrite (bool_decide_ext (t < n /\ Z.of_nat t ∈ prefix) (t < n /\ Z.of_nat t ∈ id :: prefix)); [done|].
      assert (t < n -> Z.of_nat t <> id); [|set_solver].
      intros Ht <-. rewrite (proj2 (in_vocab_spec _ _)) in Hid; [done|lia].
Qed.

(** On a scratch buffer that is all false the penalty reaches every token of the prefix
    once, and the buffer is all false again, at least as long as the vocabulary. *)
Lemma repetition_penalty_spec logits prefix penalty k : SFeqb penalty one32 = false ->
  ApplyRepetitionPenaltyToLogits logits prefix penalty (replicate k false) =
  (penalised_row penalty prefix logits, replicate (Nat.max k (length logits)) false).
Proof.
  intros Hp. unfold ApplyRepetitionPenaltyToLogits. rewrite Hp, length_replicate. set (n := length logits).
  replace (if k <? n then replicate n false else replicate k false) with (replicate (Nat.max k n) false)
    by (destruct (Nat.ltb_spec k n); f_equal; lia).
  rewrite <- (penalised_row_nil penalty logits) at 1. rewrite <- (visited_row_nil n). unfold n.
  rewrite penalty_loop_spec by lia. cbn [app]. f_equal. apply list_eq. intros t.
  rewrite reset_visited_spec by (rewrite length_visited_row; lia).
  destruct (decide (t < Nat.max k (length logits))) as [Ht|Ht].
  - rewrite lookup_visited_row, visited_row_nil, lookup_replicate_2 by done. by case_bool_decide.
  - rewrite bool_decide_false by lia. rewrite !lookup_ge_None_2; [done|..]; rewrite length_visited_row; lia.
Qed.

(** ** The order of floats

    Comparison of two floats that are not NaN is lexicographic on their class, exponent
    and mantissa, with the last two mirrored for negative numbers. *)

Definition is_nan (x : float) : bool := match x with S754_nan => true | _ => false end.

Definition float_key (x : float) : Z * (Z * Z) :=
  match x with
  | S754_nan => (0, (0, 0))
  | S754_infinity true => (-2, (0, 0))
  | S754_infinity false => (2, (0, 0))
  | S754_zero _ => (0, (0, 0))
  | S754_finite true m e => (-1, (- e, Z.neg m))
  | S754_finite false m e => (1, (e, Z.pos m))
  end%Z.

Definition key_lt (a b : Z * (Z * Z)) : Prop :=
  (a.1 < b.1 \/ a.1 = b.1 /\ (a.2.1 < b.2.1 \/ a.2.1 = b.2.1 /\ a.2.2 < b.2.2))%Z.

Lemma SFltb_key a b : is_nan a = false -> is_nan b = false -> SFltb a b = true <-> key_lt (float_key a) (float_key b).
Proof.
  intros Ha Hb. unfold key_lt, SFltb.
  destruct a as [sa|[]| |[] ma ea], b as [sb|[]| |[] mb eb]; try done; cbn -[Z.lt];
    try (split; [done|lia]); try (split; [lia|done]).
  all: destruct (Z.compare_spec ea eb); subst; rewrite ?compare_cont_compare; cbn [CompOpp];
    try (destruct (Pos.compare_spec ma mb); subst; cbn [CompOpp]); split; (done || lia).
Qed.

Lemma key_lt_neg_trans a b c : ~ key_lt a b -> ~ key_lt b c -> ~ key_lt a c.
Proof. unfold key_lt. lia. Qed.
Lemma key_lt_irrefl a : ~ key_lt a a.
Proof. unfold key_lt. lia. Qed.
Lemma key_lt_trans a b c : key_lt a b -> key_lt b c -> key_lt a c.
Proof. unfold key_lt. lia. Qed.

Lemma gt_true a b : is_nan a = false -> is_nan b = false -> gt a b = true <-> key_lt (float_key b) (float_key a).
Proof. intros Ha Hb. by apply SFltb_key. Qed.

Lemma gt_false a b : is_nan a = false -> is_nan b = false -> gt a b = false <-> ~ key_lt (float_key b) (float_key a).
Proof. intros Ha Hb. rewrite <- gt_true by done. by destruct (gt a b). Qed.

(** ** Greedy selection *)

(** [t] is the first position of [row] whose score nothing exceeds. *)
Definition first_max (row : list float) (t : nat) (x : float) : Prop :=
  row !! t = Some x /\ forall u y, row !! u = Some y -> gt y x = false /\ (u < t -> gt x y = true).

(** One more score: it becomes the best if it exceeds the best so far. *)
Lemma first_max_snoc row t x y : Forall (fun z => is_nan z = false) (row ++ [y]) -> first_max row t x ->
  first_max (row ++ [y]) (if gt y x then length row else t) (if gt y x then y else x).
Proof.
  rewrite Forall_lookup. intros Hn [Hx Hmax]. pose proof (lookup_lt_Some _ _ _ Hx) as Ht.
  assert (is_nan x = false) as Nx by (apply (Hn t); by apply lookup_app_l_Some).
  assert (is_nan y = false) as Ny by (apply (Hn (length row)); by apply list_lookup_middle).
  assert (forall u z, (row ++ [y]) !! u = Some z -> u < length row /\ row !! u = Some z \/ u = length row /\ z = y) as Hc.
  { intros u z [Hu|[Hle Hu]]%lookup_app_Some; [left; split; [by eapply lookup_lt_Some|done]|right].
    apply list_lookup_singleton_Some in Hu. naive_solver lia. }
  destruct (gt y x) eqn:Hgt; (split; [first [by apply list_lookup_middle|by apply lookup_app_l_Some]|]);
    intros u z Hu; pose proof (Hn _ _ Hu) as Nz; destruct (Hc _ _ Hu) as [[Hlt Hz]|[-> ->]].
  - destruct (Hmax _ _ Hz) as [Hle _]. rewrite gt_false in * by done. rewrite gt_true in * by done.
    unfold key_lt in *. lia.
  - rewrite gt_false by done. split; [apply key_lt_irrefl|lia].
  - by apply Hmax.
  - split; [done|lia].
Qed.

Lemma argmax_loop_spec row rest t x : Forall (fun z => is_nan z = false) (row ++ rest) -> first_max row t x ->
  exists y, first_max (row ++ rest) (argmax_loop gt (length row) rest t x) y.
Proof.
  revert row t x. induction rest as [|y rest IH]; intros row t x Hn Hmax; cbn [argmax_loop].
  - exists x. by rewrite app_nil_r.
  - assert (row ++ y :: rest = (row ++ [y]) ++ rest) as Ha by (by rewrite <- app_assoc).
    rewrite Ha in *. replace (length row + 1) with (length (row ++ [y])) by (rewrite length_app; done).
    pose proof (first_max_snoc row t x y (proj1 (proj1 (Forall_app _ _ _) Hn)) Hmax) as Hm.
    destruct (gt y x); by eapply IH.
Qed.

Lemma ArgMax_float_spec row : row <> [] -> Forall (fun z => is_nan z = false) row ->
  exists t x, ArgMax_float row = Ok t /\ first_max row t x.
Proof.
  intros Hne Hn. destruct row as [|x row]; [done|]. unfold ArgMax_float, ArgMax.
  assert (imap (fun (_ : nat) (v : float) => v) (x :: row) = x :: row) as Hi.
  { apply list_eq. intros i. rewrite list_lookup_imap. by destruct ((x :: row) !! i). }
  assert (first_max [x] 0 x) as H0.
  { split; [done|]. intros [|u] y Hy; [|done]. injection Hy as <-. rewrite Forall_cons in Hn. destruct Hn as [Nx _].
    rewrite gt_false by done. split; [apply key_lt_irrefl|lia]. }
  destruct (argmax_loop_spec [x] row 0 x Hn H0) as [y Hy]. eexists _, y. split; [reflexivity|].
  rewrite Hi. exact Hy.
Qed.

Lemma no_repeat_row_nan n sequence logits : Forall (fun z => is_nan z = false) logits ->
  Forall (fun z => is_nan z = false) (ApplyNoRepeatNgramToLogits logits sequence n).
Proof.
  intros Hn. unfold ApplyNoRepeatNgramToLogits. case_match; [done|]. rewrite ban_scan.
  generalize (omap (fun start => if bool_decide (take (Z.to_nat (n - 1)) (drop start sequence) =
    drop (length sequence - Z.to_nat (n - 1)) sequence) then sequence !! (start + Z.to_nat (n - 1)) else None)
    (seq 0 (S (length sequence - Z.to_nat n)))) as ids.
  intros ids. revert logits Hn. induction ids as [|id ids IH]; intros logits Hn; [done|]. rewrite mask_cons. apply IH.
  unfold set_score. case_match; [by apply Forall_insert|done].
Qed.

(** Greedy selection under an n-gram restriction never repeats an n-gram while it has
    a choice.  If some token neither completes an [n]-gram that already occurs in the
    sequence nor scores as low as a masked token, [ArgMax] over the row edited by
    [Search_Cpu::ApplyNoRepeatNgram] returns a token that repeats no [n]-gram; nothing
    allowed scores higher, and every allowed token before it scores lower. *)
Theorem greedy_never_repeats (n : nat) (sequence : list Z) (logits : list float) (u : nat) (y : float) :
  0 < n -> Forall (fun z => is_nan z = false) logits ->
  logits !! u = Some y -> ~ repeats n sequence (Z.of_nat u) -> gt y lowest = true ->
  exists t x, ArgMax_float (ApplyNoRepeatNgram (Z.of_nat n) sequence logits) = Ok t /\
    logits !! t = Some x /\ ~ repeats n sequence (Z.of_nat t) /\
    forall v z, logits !! v = Some z -> ~ repeats n sequence (Z.of_nat v) ->
      gt z x = false /\ (v < t -> gt x z = true).
Proof.
  intros Hn Hnan Hu Hrep Hgt. rewrite ApplyNoRepeatNgram_shared.
  destruct (ArgMax_float_spec (ApplyNoRepeatNgramToLogits logits sequence (Z.of_nat n))) as (t & x & Hok & Hx & Hmax).
  { intros Hnil. apply (f_equal length) in Hnil. rewrite length_no_repeat in Hnil.
    apply lookup_lt_Some in Hu. cbn in Hnil. lia. }
  { by apply no_repeat_row_nan. }
  assert (forall v z, logits !! v = Some z -> ~ repeats n sequence (Z.of_nat v) ->
    gt z x = false /\ (v < t -> gt x z = true)) as Hall.
  { intros v z Hz Hv. apply Hmax. rewrite (proj2 (no_repeat_lookup _ _ _ _ Hn (lookup_lt_Some _ _ _ Hz)) Hv). done. }
  pose proof (lookup_lt_Some _ _ _ Hx) as Ht. rewrite length_no_repeat in Ht.
  assert (~ repeats n sequence (Z.of_nat t)) as Hnr.
  { intros Hr. rewrite (proj1 (no_repeat_lookup _ _ _ _ Hn Ht) Hr) in Hx. injection Hx as <-.
    destruct (Hall u y Hu Hrep) as [Hf _]. by rewrite Hf in Hgt. }
  exists t, x. split_and!; try done. rewrite <- Hx. symmetry. by apply no_repeat_lookup.
Qed.

Definition sample_row : list float := [one32; half32; zero32; half32].

Lemma greedy_never_repeats_witness :
  exists t x, ArgMax_float (ApplyNoRepeatNgram (Z.of_nat 2) [0; 0; 1]%Z sample_row) = Ok t /\
    sample_row !! t = Some x /\ ~ repeats 2 [0; 0; 1]%Z (Z.of_nat t) /\
    forall v z, sample_row !! v = Some z -> ~ repeats 2 [0; 0; 1]%Z (Z.of_nat v) ->
      gt z x = false /\ (v < t -> gt x z = true).
Proof.
  apply (greedy_never_repeats 2 [0; 0; 1]%Z sample_row 2 zero32); [lia| |reflexivity| |reflexivity].
  - repeat constructor.
  - rewrite <- followers_spec by (cbn; lia). vm_compute. intros Hin. inversion Hin.
Defined.

(** ** The two paths that process logits

    Standard decoding edits the row through the search, speculative decoding through a
    [LogitsPenaltyProcessor]; each keeps a scratch buffer from row to row. *)

(** A row with the length of the sequence it extends and its tokens. *)
Definition row_request : Type := list float * Z * list Z.

Definition search_row (penalty : float) (min_length ngram_size : Z) (eos : list Z)
    (row : row_request) (visited : list bool) : list float * list bool :=
  let '(logits, current_length, prefix) := row in
  let '(logits, visited) := ApplyRepetitionPenalty penalty prefix visited (ApplyMinLength min_length current_length eos logits) in
  (ApplyNoRepeatNgram ngram_size prefix logits, visited).

Fixpoint run_search (penalty : float) (min_length ngram_size : Z) (eos : list Z)
    (rows : list row_request) (visited : list bool) : list (list float) :=
  match rows with
  | [] => []
  | row :: rest => let '(logits, visited') := search_row penalty min_length ngram_size eos row visited in
                   logits :: run_search penalty min_length ngram_size eos rest visited'
  end.

Fixpoint run_processor (rows : list row_request) (p : LogitsPenaltyProcessor) : list (outcome unit (list float)) :=
  match rows with
  | [] => []
  | (logits, current_length, prefix) :: rest =>
    let '(result, p') := Apply logits current_length prefix p in result :: run_processor rest p'
  end.

(** Between rows the buffers carry nothing: the flags are all false. *)
Record processor_ok (vocab_size : nat) (penalty : float) (min_length ngram_size : Z) (eos : list Z)
    (p : LogitsPenaltyProcessor) : Prop := mk_processor_ok
  { po_penalty : repetition_penalty_ p = penalty;
    po_min : min_length_ p = min_length;
    po_ngram : no_repeat_ngram_size_ p = ngram_size;
    po_eos : eos_token_ids_ p = eos;
    po_active : active_ p = negb (SFeqb penalty one32) || (0 <? min_length)%Z || (0 <? ngram_size)%Z;
    po_visited : exists k, repetition_visited_ p = replicate k false;
    po_buffer : active_ p = true -> length (logits_buffer_ p) = vocab_size }.

(** The penalty of a row does not depend on which clean buffer it is given. *)
Lemma penalty_clean logits prefix penalty k :
  exists k', forall k0, ApplyRepetitionPenaltyToLogits logits prefix penalty (replicate k false) =
    ((ApplyRepetitionPenaltyToLogits logits prefix penalty (replicate k0 false)).1, replicate k' false).
Proof.
  destruct (SFeqb penalty one32) eqn:Hp.
  - exists k. intros k0. unfold ApplyRepetitionPenaltyToLogits. by rewrite Hp.
  - eexists. intros k0. rewrite !repetition_penalty_spec by done. done.
Qed.

Lemma length_penalty logits prefix penalty k :
  length (ApplyRepetitionPenaltyToLogits logits prefix penalty (replicate k false)).1 = length logits.
Proof.
  destruct (SFeqb penalty one32) eqn:Hp; [unfold ApplyRepetitionPenaltyToLogits; by rewrite Hp|].
  rewrite repetition_penalty_spec by done. unfold penalised_row. apply length_imap.
Qed.

Lemma length_min_length logits len ml eos : length (ApplyMinLengthToLogits logits len ml eos) = length logits.
Proof. unfold ApplyMinLengthToLogits. case_match; [done|]. apply length_mask. Qed.

Lemma ApplyMinLength_shared ml len eos logits : ApplyMinLength ml len eos logits = ApplyMinLengthToLogits logits len ml eos.
Proof. unfold ApplyMinLength, ApplyMinLengthToLogits. by case_match. Qed.

Lemma ApplyRepetitionPenalty_shared penalty prefix visited logits :
  ApplyRepetitionPenalty penalty prefix visited logits = ApplyRepetitionPenaltyToLogits logits prefix penalty visited.
Proof. unfold ApplyRepetitionPenalty, ApplyRepetitionPenaltyToLogits. by case_match. Qed.

Lemma search_row_spec penalty ml n eos logits len prefix k : exists k',
  search_row penalty ml n eos (logits, len, prefix) (replicate k false) =
  (ApplyNoRepeatNgramToLogits
     (ApplyRepetitionPenaltyToLogits (ApplyMinLengthToLogits logits len ml eos) prefix penalty (replicate 0 false)).1
     prefix n, replicate k' false).
Proof.
  destruct (penalty_clean (ApplyMinLengthToLogits logits len ml eos) prefix penalty k) as [k' Hk]. exists k'.
  unfold search_row. rewrite ApplyMinLength_shared, ApplyRepetitionPenalty_shared, (Hk 0).
  by rewrite ApplyNoRepeatNgram_shared.
Qed.

Lemma Apply_spec penalty ml n eos logits len prefix p : (0 <= len)%Z ->
  processor_ok (length logits) penalty ml n eos p ->
  (Apply logits len prefix p).1 = Ok (ApplyNoRepeatNgramToLogits
     (ApplyRepetitionPenaltyToLogits (ApplyMinLengthToLogits logits len ml eos) prefix penalty (replicate 0 false)).1
     prefix n) /\
  processor_ok (length logits) penalty ml n eos (Apply logits len prefix p).2.
Proof.
  intros Hlen [Hp Hml Hn Heos Ha [k Hv] Hb]. unfold Apply. destruct (active_ p) eqn:Hact; cbn [negb].
  - specialize (Hb eq_refl). rewrite (proj2 (Nat.ltb_ge _ _)) by lia.
    unfold copy_into. rewrite drop_ge, app_nil_r by lia. rewrite Hp, Hml, Hn, Heos, Hv.
    destruct (penalty_clean (ApplyMinLengthToLogits logits len ml eos) prefix penalty k) as [k' Hk].
    rewrite (Hk 0). split; [done|]. split; cbn; try done; [by exists k'|]. intros _.
    rewrite length_no_repeat. etransitivity; [apply (length_penalty _ _ _ 0)|apply length_min_length].
  - symmetry in Ha. apply orb_false_iff in Ha as [[Ha1%negb_false_iff Ha2%Z.ltb_ge]%orb_false_iff Ha3%Z.ltb_ge].
    split.
    + unfold ApplyMinLengthToLogits. rewrite (proj2 (Z.leb_le _ _)) by lia.
      unfold ApplyRepetitionPenaltyToLogits. rewrite Ha1. cbn [fst].
      unfold ApplyNoRepeatNgramToLogits. by rewrite (proj2 (Z.leb_le _ _)) by lia.
    + split; try done; [|by exists k|cbn; by rewrite Hact]. cbn [snd]. rewrite Hact, Ha1.
      by rewrite (proj2 (Z.ltb_ge _ _)), (proj2 (Z.ltb_ge _ _)) by lia.
Qed.


