(* ===== verification/GreedySearch.v ===== *)
(** * Greedy search on the CPU

    Models [search.{h,cpp}] for [GreedySearch_Cpu] (with its bases [Search] and
    [Search_Cpu]) and [sequences.{h,cpp}]: the token buffer of a batch of sequences, the
    selection and commit of tokens, end-of-stream accounting, rewinding, and the
    transaction checkpoint.  The row of scores a token is picked from is data; the token a
    categorical draw yields is an argument of the sampling operations.  Logging and the
    copies between host and device memory are left out. *)

From S2P Require Import Prelude TurnPolicy Logits.

Open Scope nat_scope.

(** The fields of [GeneratorParams] and of the model configuration the search reads. *)
Record GeneratorParams : Type := mkParams
  { batch_size : nat;
    num_beams : nat;
    max_length : nat;
    vocab_size : nat;
    eos_token_id : list Z;
    pad_token_id : Z }.

Definition BatchBeamSize (p : GeneratorParams) : nat := batch_size p * num_beams p.

(** [Sequences], [Search_Cpu] and [GreedySearch_Cpu] together. *)
Record GreedySearch_Cpu : Type := mkGreedySearch
  { sequences_ : list Z;              (* batch_beam_size rows of max_length_ tokens *)
    max_length_ : nat;
    current_length_ : nat;
    sequence_lengths_ : list Z;
    next_tokens_ : list Z;
    next_token_scores_ : list float;
    done_ : bool;
    eos_seen_ : list bool;
    not_done_count_ : Z;
    transaction_checkpoint_active_ : bool;
    transaction_restore_pending_ : bool;
    transaction_sequence_length_ : nat;
    transaction_sequence_lengths_ : list Z;
    transaction_done_ : bool;
    transaction_next_tokens_ : list Z;
    transaction_eos_seen_ : list bool;
    transaction_not_done_count_ : Z }.

#[global] Instance set_sequences : Setter sequences_ := fun v s =>
  mkGreedySearch v (max_length_ s) (current_length_ s) (sequence_lengths_ s) (next_tokens_ s) (next_token_scores_ s)
    (done_ s) (eos_seen_ s) (not_done_count_ s) (transaction_checkpoint_active_ s) (transaction_restore_pending_ s)
    (transaction_sequence_length_ s) (transaction_sequence_lengths_ s) (transaction_done_ s)
    (transaction_next_tokens_ s) (transaction_eos_seen_ s) (transaction_not_done_count_ s).
#[global] Instance set_max_length : Setter max_length_ := fun v s =>
  mkGreedySearch (sequences_ s) v (current_length_ s) (sequence_lengths_ s) (next_tokens_ s) (next_token_scores_ s)
    (done_ s) (eos_seen_ s) (not_done_count_ s) (transaction_checkpoint_active_ s) (transaction_restore_pending_ s)
    (transaction_sequence_length_ s) (transaction_sequence_lengths_ s) (transaction_done_ s)
    (transaction_next_tokens_ s) (transaction_eos_seen_ s) (transaction_not_done_count_ s).
#[global] Instance set_current_length : Setter current_length_ := fun v s =>
  mkGreedySearch (sequences_ s) (max_length_ s) v (sequence_lengths_ s) (next_tokens_ s) (next_token_scores_ s)
    (done_ s) (eos_seen_ s) (not_done_count_ s) (transaction_checkpoint_active_ s) (transaction_restore_pending_ s)
    (transaction_sequence_length_ s) (transaction_sequence_lengths_ s) (transaction_done_ s)
    (transaction_next_tokens_ s) (transaction_eos_seen_ s) (transaction_not_done_count_ s).
#[global] Instance set_sequence_lengths : Setter sequence_lengths_ := fun v s =>
  mkGreedySearch (sequences_ s) (max_length_ s) (current_length_ s) v (next_tokens_ s) (next_token_scores_ s)
    (done_ s) (eos_seen_ s) (not_done_count_ s) (transaction_checkpoint_active_ s) (transaction_restore_pending_ s)
    (transaction_sequence_length_ s) (transaction_sequence_lengths_ s) (transaction_done_ s)
    (transaction_next_tokens_ s) (transaction_eos_seen_ s) (transaction_not_done_count_ s).
#[global] Instance set_next_tokens : Setter next_tokens_ := fun v s =>
  mkGreedySearch (sequences_ s) (max_length_ s) (current_length_ s) (sequence_lengths_ s) v (next_token_scores_ s)
    (done_ s) (eos_seen_ s) (not_done_count_ s) (transaction_checkpoint_active_ s) (transaction_restore_pending_ s)
    (transaction_sequence_length_ s) (transaction_sequence_lengths_ s) (transaction_done_ s)
    (transaction_next_tokens_ s) (transaction_eos_seen_ s) (transaction_not_done_count_ s).
#[global] Instance set_next_token_scores : Setter next_token_scores_ := fun v s =>
  mkGreedySearch (sequences_ s) (max_length_ s) (current_length_ s) (sequence_lengths_ s) (next_tokens_ s) v
    (done_ s) (eos_seen_ s) (not_done_count_ s) (transaction_checkpoint_active_ s) (transaction_restore_pending_ s)
    (transaction_sequence_length_ s) (transaction_sequence_lengths_ s) (transaction_done_ s)
    (transaction_next_tokens_ s) (transaction_eos_seen_ s) (transaction_not_done_count_ s).
#[global] Instance set_done : Setter done_ := fun v s =>
  mkGreedySearch (sequences_ s) (max_length_ s) (current_length_ s) (sequence_lengths_ s) (next_tokens_ s)
    (next_token_scores_ s) v (eos_seen_ s) (not_done_count_ s) (transaction_checkpoint_active_ s)
    (transaction_restore_pending_ s) (transaction_sequence_length_ s) (transaction_sequence_lengths_ s)
    (transaction_done_ s) (transaction_next_tokens_ s) (transaction_eos_seen_ s) (transaction_not_done_count_ s).
#[global] Instance set_eos_seen : Setter eos_seen_ := fun v s =>
  mkGreedySearch (sequences_ s) (max_length_ s) (current_length_ s) (sequence_lengths_ s) (next_tokens_ s)
    (next_token_scores_ s) (done_ s) v (not_done_count_ s) (transaction_checkpoint_active_ s)
    (transaction_restore_pending_ s) (transaction_sequence_length_ s) (transaction_sequence_lengths_ s)
    (transaction_done_ s) (transaction_next_tokens_ s) (transaction_eos_seen_ s) (transaction_not_done_count_ s).
#[global] Instance set_not_done_count : Setter not_done_count_ := fun v s =>
  mkGreedySearch (sequences_ s) (max_length_ s) (current_length_ s) (sequence_lengths_ s) (next_tokens_ s)
    (next_token_scores_ s) (done_ s) (eos_seen_ s) v (transaction_checkpoint_active_ s)
    (transaction_restore_pending_ s) (transaction_sequence_length_ s) (transaction_sequence_lengths_ s)
    (transaction_done_ s) (transaction_next_tokens_ s) (transaction_eos_seen_ s) (transaction_not_done_count_ s).
#[global] Instance set_transaction_checkpoint_active : Setter transaction_checkpoint_active_ := fun v s =>
  mkGreedySearch (sequences_ s) (max_length_ s) (current_length_ s) (sequence_lengths_ s) (next_tokens_ s)
    (next_token_scores_ s) (done_ s) (eos_seen_ s) (not_done_count_ s) v (transaction_restore_pending_ s)
    (transaction_sequence_length_ s) (transaction_sequence_lengths_ s) (transaction_done_ s)
    (transaction_next_tokens_ s) (transaction_eos_seen_ s) (transaction_not_done_count_ s).
#[global] Instance set_transaction_restore_pending : Setter transaction_restore_pending_ := fun v s =>
  mkGreedySearch (sequences_ s) (max_length_ s) (current_length_ s) (sequence_lengths_ s) (next_tokens_ s)
    (next_token_scores_ s) (done_ s) (eos_seen_ s) (not_done_count_ s) (transaction_checkpoint_active_ s) v
    (transaction_sequence_length_ s) (transaction_sequence_lengths_ s) (transaction_done_ s)
    (transaction_next_tokens_ s) (transaction_eos_seen_ s) (transaction_not_done_count_ s).
#[global] Instance set_transaction_sequence_length : Setter transaction_sequence_length_ := fun v s =>
  mkGreedySearch (sequences_ s) (max_length_ s) (current_length_ s) (sequence_lengths_ s) (next_tokens_ s)
    (next_token_scores_ s) (done_ s) (eos_seen_ s) (not_done_count_ s) (transaction_checkpoint_active_ s)
    (transaction_restore_pending_ s) v (transaction_sequence_lengths_ s) (transaction_done_ s)
    (transaction_next_tokens_ s) (transaction_eos_seen_ s) (transaction_not_done_count_ s).
#[global] Instance set_transaction_sequence_lengths : Setter transaction_sequence_lengths_ := fun v s =>
  mkGreedySearch (sequences_ s) (max_length_ s) (current_length_ s) (sequence_lengths_ s) (next_tokens_ s)
    (next_token_scores_ s) (done_ s) (eos_seen_ s) (not_done_count_ s) (transaction_checkpoint_active_ s)
    (transaction_restore_pending_ s) (transaction_sequence_length_ s) v (transaction_done_ s)
    (transaction_next_tokens_ s) (transaction_eos_seen_ s) (transaction_not_done_count_ s).
#[global] Instance set_transaction_done : Setter transaction_done_ := fun v s =>
  mkGreedySearch (sequences_ s) (max_length_ s) (current_length_ s) (sequence_lengths_ s) (next_tokens_ s)
    (next_token_scores_ s) (done_ s) (eos_seen_ s) (not_done_count_ s) (transaction_checkpoint_active_ s)
    (transaction_restore_pending_ s) (transaction_sequence_length_ s) (transaction_sequence_lengths_ s) v
    (transaction_next_tokens_ s) (transaction_eos_seen_ s) (transaction_not_done_count_ s).
#[global] Instance set_transaction_next_tokens : Setter transaction_next_tokens_ := fun v s =>
  mkGreedySearch (sequences_ s) (max_length_ s) (current_length_ s) (sequence_lengths_ s) (next_tokens_ s)
    (next_token_scores_ s) (done_ s) (eos_seen_ s) (not_done_count_ s) (transaction_checkpoint_active_ s)
    (transaction_restore_pending_ s) (transaction_sequence_length_ s) (transaction_sequence_lengths_ s)
    (transaction_done_ s) v (transaction_eos_seen_ s) (transaction_not_done_count_ s).
#[global] Instance set_transaction_eos_seen : Setter transaction_eos_seen_ := fun v s =>
  mkGreedySearch (sequences_ s) (max_length_ s) (current_length_ s) (sequence_lengths_ s) (next_tokens_ s)
    (next_token_scores_ s) (done_ s) (eos_seen_ s) (not_done_count_ s) (transaction_checkpoint_active_ s)
    (transaction_restore_pending_ s) (transaction_sequence_length_ s) (transaction_sequence_lengths_ s)
    (transaction_done_ s) (transaction_next_tokens_ s) v (transaction_not_done_count_ s).
#[global] Instance set_transaction_not_done_count : Setter transaction_not_done_count_ := fun v s =>
  mkGreedySearch (sequences_ s) (max_length_ s) (current_length_ s) (sequence_lengths_ s) (next_tokens_ s)
    (next_token_scores_ s) (done_ s) (eos_seen_ s) (not_done_count_ s) (transaction_checkpoint_active_ s)
    (transaction_restore_pending_ s) (transaction_sequence_length_ s) (transaction_sequence_lengths_ s)
    (transaction_done_ s) (transaction_next_tokens_ s) (transaction_eos_seen_ s) v.

Inductive SearchError : Type :=
  | CheckpointAlreadyActive
  | CheckpointNotActive
  | RestoreAlreadyPending
  | RestoreNotPending
  | EmptyScores.

Abbreviation SM := (M GreedySearch_Cpu SearchError).

(** [span[i] = v] and [span[i]]: undefined out of range. *)
Definition store {S E A} (field : S -> list A) `{!Setter field} (i : nat) (v : A) : M S E unit := fun s =>
  if i <? length (field s) then (Ok tt, s <| field := <[i := v]> (field s) |>) else (Undefined, s).

Definition fetch {S E A} (get : S -> list A) (i : nat) : M S E A := fun s =>
  match get s !! i with Some x => (Ok x, s) | None => (Undefined, s) end.

Section search.
Variable params_ : GeneratorParams.

(** The constructors.  The token buffer is allocated without being written; its content
    is what the allocation holds. *)
Definition make_GreedySearch_Cpu (buffer : list Z) : GreedySearch_Cpu :=
  mkGreedySearch (take (BatchBeamSize params_ * max_length params_)
                    (buffer ++ replicate (BatchBeamSize params_ * max_length params_) 0%Z))
    (max_length params_) 0 (replicate (BatchBeamSize params_) 0%Z) (replicate (batch_size params_) 0%Z) []
    false (replicate (batch_size params_) false) (Z.of_nat (batch_size params_))
    false false 0 [] false [] [] 0.

(** [Sequences] *)
Definition GetSequenceLength (s : GreedySearch_Cpu) : nat := current_length_ s.

Definition GetSequence (i : nat) (s : GreedySearch_Cpu) : list Z :=
  take (current_length_ s) (drop (i * max_length_ s) (sequences_ s)).

Definition AfterAppendNextTokens (next_tokens_size batch_beam_size : nat) : SM unit :=
  if batch_beam_size =? 0 then undefined
  else modify (fun s => s <| current_length_ := current_length_ s + next_tokens_size / batch_beam_size |>).

Definition IsDone (s : GreedySearch_Cpu) : bool := done_ s.

Definition ResetDone : SM unit := modify (fun s => s
  <| done_ := false |> <| not_done_count_ := Z.of_nat (batch_size params_) |>
    <| eos_seen_ := replicate (length (eos_seen_ s)) false |>).

Definition SetLogits (logits : list float) : SM unit := modify (fun s => s <| next_token_scores_ := logits |>).

Definition contains (l : list Z) (x : Z) : bool := bool_decide (x ∈ l).

Definition PadIfAlreadyEOS (batch_id : nat) : SM bool :=
  seen ← fetch eos_seen_ batch_id;
  if negb seen then mret false
  else _ ← store next_tokens_ batch_id (pad_token_id params_); mret true.

Definition SetNextToken (batch_id : nat) (token : Z) : SM unit :=
  _ ← store next_tokens_ batch_id token;
  if contains (eos_token_id params_) token then
    _ ← store eos_seen_ batch_id true;
    _ ← modify (fun s => s <| not_done_count_ := (not_done_count_ s - 1)%Z |>);
    n ← gets not_done_count_;
    if (n =? 0)%Z then modify (fun s => s <| done_ := true |>) else mret tt
  else mret tt.

Definition AppendNextTokensToSequences : SM unit :=
  current_length ← gets GetSequenceLength;
  max_len ← gets max_length_;
  next_tokens ← gets next_tokens_;
  _ ← for_each (fun i =>
        token ← lift (match next_tokens !! i with Some t => Ok t | None => Undefined end);
        store sequences_ (i * max_len + current_length) token)
      (seq 0 (BatchBeamSize params_));
  _ ← AfterAppendNextTokens (length next_tokens) (BatchBeamSize params_);
  length ← gets GetSequenceLength;
  if length =? max_length params_ then modify (fun s => s <| done_ := true |>) else mret tt.

(** The loop over the batch every selection runs, around the token of a row. *)
Definition select_row (pick : nat -> SM Z) (batch_id : nat) : SM unit :=
  padded ← PadIfAlreadyEOS batch_id;
  if (padded : bool) then mret tt
  else token ← pick batch_id; SetNextToken batch_id token.

Definition select_rows (pick : nat -> SM Z) : SM unit :=
  _ ← for_each (select_row pick) (seq 0 (batch_size params_));
  d ← gets done_;
  if negb d then AppendNextTokensToSequences else mret tt.

(** The scores of a row; a span past the end of the logits is undefined. *)
Definition GetScores (row : nat) : SM (list float) := fun s =>
  if length (next_token_scores_ s) <? (row + 1) * vocab_size params_ then (Undefined, s)
  else (Ok (take (vocab_size params_) (drop (row * vocab_size params_) (next_token_scores_ s))), s).

Definition SelectTop : SM unit := select_rows (fun batch_id =>
  scores ← GetScores batch_id;
  match ArgMax_float scores with
  | Ok token => mret (Z.of_nat token)
  | _ => throw EmptyScores
  end).

(** [SampleTopK], [SampleTopP] and [SampleTopKTopP]: the loop is the same, the token of
    a row is the one drawn from the row's distribution. *)
Definition SampleRows (drawn : nat -> Z) : SM unit := select_rows (fun batch_id => mret (drawn batch_id)).

Definition CommitToken (token : Z) : SM unit :=
  _ ← SetNextToken 0 token;
  d ← gets done_;
  if negb d then AppendNextTokensToSequences else mret tt.

Definition AppendTokens (next_tokens : list Z) : SM unit :=
  if batch_size params_ =? 0 then undefined
  else
    let tokens_count_per_batch := length next_tokens / batch_size params_ in
    _ ← for_each (fun j =>
          _ ← for_each (fun i =>
                match next_tokens !! (i * tokens_count_per_batch + j) with
                | Some token => SetNextToken i token
                | None => undefined
                end) (seq 0 (batch_size params_));
          AppendNextTokensToSequences)
        (seq 0 tokens_count_per_batch);
    ResetDone.

Definition RewindTo (index : nat) : SM unit :=
  _ ← ResetDone;
  _ ← (if 0 <? index then
         for_each (fun i =>
           max_len ← gets max_length_;
           token ← fetch sequences_ (i * max_len + index);
           store next_tokens_ i token) (seq 0 (BatchBeamSize params_))
       else modify (fun s => s <| next_tokens_ := replicate (length (next_tokens_ s)) 0%Z |>));
  modify (fun s => s <| current_length_ := index |>).

(** ** The transaction checkpoint *)

Definition SaveStateForTransactionImpl : SM unit := modify (fun s => s
  <| transaction_sequence_lengths_ := sequence_lengths_ s |> <| transaction_done_ := done_ s |>
    <| transaction_next_tokens_ := next_tokens_ s |> <| transaction_eos_seen_ := eos_seen_ s |>
    <| transaction_not_done_count_ := not_done_count_ s |>).

Definition RestoreStateForTransactionImpl : SM unit := modify (fun s => s
  <| sequence_lengths_ := transaction_sequence_lengths_ s |> <| done_ := transaction_done_ s |>
    <| next_tokens_ := transaction_next_tokens_ s |> <| eos_seen_ := transaction_eos_seen_ s |>
    <| not_done_count_ := transaction_not_done_count_ s |>).

(** [SaveStateForTransaction] and [SaveStateForExternalSamplingTransaction] differ in a
    flag the CPU search ignores. *)
Definition StartTransactionCheckpoint : SM unit :=
  active ← gets transaction_checkpoint_active_;
  _ ← throw_if active CheckpointAlreadyActive;
  _ ← modify (fun s => s <| transaction_sequence_length_ := GetSequenceLength s |>);
  _ ← SaveStateForTransactionImpl;
  modify (fun s => s <| transaction_checkpoint_active_ := true |>).

Definition QueueStateRestoreForTransaction : SM unit :=
  active ← gets transaction_checkpoint_active_;
  _ ← throw_if (negb active) CheckpointNotActive;
  pending ← gets transaction_restore_pending_;
  _ ← throw_if pending RestoreAlreadyPending;
  _ ← modify (fun s => s <| current_length_ := transaction_sequence_length_ s |>);
  _ ← RestoreStateForTransactionImpl;
  modify (fun s => s <| transaction_restore_pending_ := true |>).

Definition CompleteStateRestoreForTransaction : SM unit :=
  active ← gets transaction_checkpoint_active_;
  pending ← gets transaction_restore_pending_;
  _ ← throw_if (negb active || negb pending) RestoreNotPending;
  modify (fun s => s <| transaction_restore_pending_ := false |> <| transaction_checkpoint_active_ := false |>).

Definition RestoreStateForTransaction : SM unit :=
  _ ← QueueStateRestoreForTransaction;
  CompleteStateRestoreForTransaction.

Definition CommitStateForTransaction : SM unit :=
  active ← gets transaction_checkpoint_active_;
  pending ← gets transaction_restore_pending_;
  _ ← throw_if (negb active || pending) CheckpointNotActive;
  modify (fun s => s <| transaction_checkpoint_active_ := false |>).
End search.

(** ** What the operations do *)

(** The position [j] of sequence [i] in the flat buffer. *)
Definition cell (i j : nat) (s : GreedySearch_Cpu) : option Z := sequences_ s !! (i * max_length_ s + j).

(** How many sequences have not seen an end-of-stream token. *)
Definition unseen (l : list bool) : nat := length (filter (fun b => b = false) l).

(** The fields a step of decoding does not write. *)
Definition frame (s : GreedySearch_Cpu) :=
  (max_length_ s, sequence_lengths_ s, next_token_scores_ s,
   (transaction_checkpoint_active_ s, transaction_restore_pending_ s, transaction_sequence_length_ s),
   (transaction_sequence_lengths_ s, transaction_done_ s, transaction_next_tokens_ s,
    transaction_eos_seen_ s, transaction_not_done_count_ s)).

Record params_ok (p : GeneratorParams) : Prop := mk_params_ok
  { po_batch : 0 < batch_size p;
    po_beams : num_beams p = 1;
    po_max : 0 < max_length p }.

(** The buffers have the sizes the constructor gave them. *)
Record wf (p : GeneratorParams) (s : GreedySearch_Cpu) : Prop := mk_wf
  { wf_max : max_length_ s = max_length p;
    wf_sequences : length (sequences_ s) = batch_size p * max_length p;
    wf_next : length (next_tokens_ s) = batch_size p;
    wf_eos : length (eos_seen_ s) = batch_size p;
    wf_current : current_length_ s <= max_length p }.

Lemma unseen_app l1 l2 : unseen (l1 ++ l2) = unseen l1 + unseen l2.
Proof. unfold unseen. by rewrite filter_app, length_app. Qed.

Lemma unseen_flag_cons b l : unseen (b :: l) = (if b then 0 else 1) + unseen l.
Proof. unfold unseen. rewrite filter_cons. by destruct b. Qed.

Lemma unseen_replicate n : unseen (replicate n false) = n.
Proof. induction n as [|n IH]; [done|]. cbn [replicate]. rewrite unseen_flag_cons, IH. done. Qed.

Lemma unseen_zero l : unseen l = 0 <-> Forall (fun b => b = true) l.
Proof.
  induction l as [|b l IH]; [done|]. rewrite unseen_flag_cons, Forall_cons, <- IH. destruct b; naive_solver lia.
Qed.

Section search_proofs.
Context (p : GeneratorParams) (Hp : params_ok p).
Implicit Types s : GreedySearch_Cpu.

Lemma batch_beam : BatchBeamSize p = batch_size p.
Proof. unfold BatchBeamSize. rewrite (po_beams _ Hp). lia. Qed.

Lemma cell_index i j k m : i < k -> j < m -> i * m + j < k * m.
Proof. nia. Qed.

Lemma cell_inj i j i' j' m : j < m -> j' < m -> i * m + j = i' * m + j' -> i = i' /\ j = j'.
Proof. intros Hj Hj' He. assert (i = i') by nia. subst. lia. Qed.

Lemma lookup_GetSequence i j s : GetSequence i s !! j = if decide (j < current_length_ s) then cell i j s else None.
Proof.
  unfold GetSequence, cell. case_decide as Hj.
  - by rewrite lookup_take_lt, lookup_drop by lia.
  - apply lookup_take_ge. lia.
Qed.

Lemma length_GetSequence i s : wf p s -> i < batch_size p -> length (GetSequence i s) = current_length_ s.
Proof.
  intros [Hm Hs _ _ Hc] Hi. unfold GetSequence. rewrite length_take, length_drop, Hm, Hs. nia.
Qed.

(** Appending the selected tokens writes one column of the buffer. *)
Lemma append_next s : wf p s -> current_length_ s < max_length p ->
  exists b, let s' := s <| sequences_ := b |> <| current_length_ := current_length_ s + 1 |>
    <| done_ := done_ s || (current_length_ s + 1 =? max_length p) |> in
    AppendNextTokensToSequences p s = (Ok tt, s') /\ wf p s' /\
    forall i j, i < batch_size p -> j < max_length p ->
      cell i j s' = if decide (j = current_length_ s) then next_tokens_ s !! i else cell i j s.
Proof.
  intros [Hm Hs Hn He Hc] Hlt. unfold AppendNextTokensToSequences. rewrite !gets_bind.
  set (cur := current_length_ s). unfold GetSequenceLength. fold cur.
  destruct (for_seq_inv (E := SearchError) (fun i =>
        token ← lift (match next_tokens_ s !! i with Some t => Ok t | None => Undefined end);
        store sequences_ (i * max_length_ s + cur) token)
     (fun k s' => exists b, s' = s <| sequences_ := b |> /\ length b = batch_size p * max_length p /\
        forall i j, i < batch_size p -> j < max_length p -> b !! (i * max_length p + j) =
          if decide (j = cur /\ i < k) then next_tokens_ s !! i else sequences_ s !! (i * max_length p + j))
     (BatchBeamSize p)) with (s := s) as (s1 & Hrun & b & -> & Hb & Hcell).
  - intros k s1 Hk (b & -> & Hb & Hcell). rewrite batch_beam in Hk.
    destruct (lookup_lt_is_Some_2 (next_tokens_ s) k) as [t Ht]; [lia|].
    unfold lift, mbind, M_bind, store. rewrite Ht. cbn -[Nat.ltb].
    rewrite Hb, Hm, (proj2 (Nat.ltb_lt _ _)) by (by apply cell_index; lia). eexists. split; [reflexivity|].
    exists (<[k * max_length p + cur := t]> b). split; [done|]. split; [by rewrite length_insert|].
    intros i j Hi Hj. destruct (decide (i = k /\ j = cur)) as [[-> ->]|Hne].
    + rewrite list_lookup_insert_eq by (rewrite Hb; by apply cell_index; lia).
      rewrite decide_True by (split; [done|lia]). done.
    + rewrite list_lookup_insert_ne by (intros [-> ->]%cell_inj; [by apply Hne|lia|lia]).
      rewrite Hcell by done. do 2 case_decide; try done; exfalso; lia.
  - exists (sequences_ s). split; [by destruct s|]. split; [done|]. intros i j _ _. by rewrite decide_False by lia.
  - rewrite (bind_ok _ _ _ _ _ Hrun). unfold AfterAppendNextTokens. rewrite batch_beam, Hn in *.
    rewrite (proj2 (Nat.eqb_neq _ _)) by (pose proof (po_batch _ Hp); lia).
    rewrite Nat.div_same by (pose proof (po_batch _ Hp); lia).
    exists b. split_and!.
    + unfold modify, mbind, M_bind, gets. cbn -[Nat.eqb Nat.add]. fold cur.
      destruct (cur + 1 =? max_length p) eqn:Hd; [by rewrite orb_true_r|]. rewrite orb_false_r. by destruct s.
    + split; try done. cbn. lia.
    + intros i j Hi Hj. unfold cell. cbn. rewrite Hm, Hcell by done. do 2 case_decide; try done; exfalso; lia.
Qed.

Definition is_eos (token : Z) : bool := contains (eos_token_id p) token.

(** [SetNextToken] on a row of the batch. *)
Lemma SetNextToken_run i t s : wf p s -> i < batch_size p ->
  SetNextToken p i t s =
  (Ok tt, if is_eos t then s <| next_tokens_ := <[i := t]> (next_tokens_ s) |> <| eos_seen_ := <[i := true]> (eos_seen_ s) |>
                             <| not_done_count_ := (not_done_count_ s - 1)%Z |>
                             <| done_ := done_ s || (not_done_count_ s - 1 =? 0)%Z |>
          else s <| next_tokens_ := <[i := t]> (next_tokens_ s) |>).
Proof.
  intros [Hm Hs Hn He Hc] Hi. unfold SetNextToken, is_eos, store, mbind, M_bind. rewrite Hn, (proj2 (Nat.ltb_lt _ _)) by done.
  destruct (contains _ _); [|done]. cbn -[Nat.ltb Z.eqb]. rewrite He, (proj2 (Nat.ltb_lt _ _)) by done.
  cbn -[Nat.ltb Z.eqb]. destruct (_ =? 0)%Z; cbn; [by rewrite orb_true_r|by rewrite orb_false_r].
Qed.

Lemma SetNextToken_wf i t s : wf p s -> i < batch_size p -> exists s', SetNextToken p i t s = (Ok tt, s') /\
  wf p s' /\ next_tokens_ s' = <[i := t]> (next_tokens_ s) /\ sequences_ s' = sequences_ s /\
  current_length_ s' = current_length_ s /\ frame s' = frame s.
Proof.
  intros Hw Hi. rewrite SetNextToken_run by done. eexists. split; [reflexivity|]. destruct Hw.
  destruct (is_eos t); (split_and!; [split; cbn; rewrite ?length_insert; done|done..]).
Qed.

(** Every row of the batch gets its token. *)
Lemma set_column_run (toks : nat -> option Z) s : wf p s -> (forall i, i < batch_size p -> is_Some (toks i)) ->
  exists s', for_each (fun i => match toks i with Some token => SetNextToken p i token | None => undefined end)
               (seq 0 (batch_size p)) s = (Ok tt, s') /\
    wf p s' /\ (forall i, i < batch_size p -> next_tokens_ s' !! i = toks i) /\ sequences_ s' = sequences_ s /\
    current_length_ s' = current_length_ s /\ frame s' = frame s.
Proof.
  intros Hw Htoks.
  destruct (for_seq_inv (E := SearchError) (fun i => match toks i with Some token => SetNextToken p i token | None => undefined end)
     (fun k s' => wf p s' /\ (forall i, i < k -> next_tokens_ s' !! i = toks i) /\ sequences_ s' = sequences_ s /\
        current_length_ s' = current_length_ s /\ frame s' = frame s) (batch_size p)) with (s := s) as (s' & Hrun & Hs').
  - intros k s1 Hk (Hw1 & Ht & Hseq & Hcur & Hf). destruct (Htoks k Hk) as [t Hkt]. rewrite Hkt.
    destruct (SetNextToken_wf k t s1 Hw1 Hk) as (s2 & Hr & Hw2 & Hn2 & Hs2 & Hc2 & Hf2). exists s2. split; [done|].
    split_and!; [done| |congruence..]. intros i Hi. rewrite Hn2.
    destruct (decide (k = i)) as [<-|Hne]; [rewrite list_lookup_insert_eq by (by rewrite (wf_next _ _ Hw1)); done|].
    rewrite list_lookup_insert_ne by done. apply Ht. lia.
  - split_and!; try done. lia.
  - exists s'. done.
Qed.

(** The flags after [ResetDone]. *)
Definition cleared (s : GreedySearch_Cpu) : Prop :=
  done_ s = false /\ not_done_count_ s = Z.of_nat (batch_size p) /\ eos_seen_ s = replicate (batch_size p) false.

(** [s'] extends every sequence of [s] by [count] tokens, given by row and column, and
    keeps the rest of the buffer. *)
Record extends (count : nat) (token : nat -> nat -> option Z) (s s' : GreedySearch_Cpu) : Prop := mk_extends
  { ex_wf : wf p s';
    ex_current : current_length_ s' = current_length_ s + count;
    ex_frame : frame s' = frame s;
    ex_cell : forall i j, i < batch_size p -> j < max_length p ->
      cell i j s' = if decide (current_length_ s <= j < current_length_ s + count)
                    then token i (j - current_length_ s) else cell i j s }.

Lemma frame_max s s' : frame s' = frame s -> max_length_ s' = max_length_ s.
Proof. unfold frame. congruence. Qed.

Lemma append_column s (toks : nat -> option Z) : wf p s -> current_length_ s < max_length p ->
  (forall i, i < batch_size p -> next_tokens_ s !! i = toks i) ->
  exists s', AppendNextTokensToSequences p s = (Ok tt, s') /\ extends 1 (fun i _ => toks i) s s' /\
    next_tokens_ s' = next_tokens_ s /\ eos_seen_ s' = eos_seen_ s /\ not_done_count_ s' = not_done_count_ s /\
    done_ s' = done_ s || (current_length_ s' =? max_length p).
Proof.
  intros Hw Hc Ht. destruct (append_next s Hw Hc) as (b & Hrun & Hw' & Hcell). eexists. split; [exact Hrun|].
  split; [split; try done|done]. intros i j Hi Hj. rewrite Hcell by done.
  do 2 case_decide; try (exfalso; lia); [by apply Ht|done].
Qed.

Lemma extends_refl token s : wf p s -> extends 0 token s s.
Proof. intros Hw. split; [done|lia|done|]. intros i j _ _. by rewrite decide_False by lia. Qed.

Lemma extends_snoc n token col s s1 s2 : extends n token s s1 -> extends 1 (fun i _ => col i) s1 s2 ->
  extends (n + 1) (fun i j => if decide (j < n) then token i j else col i) s s2.
Proof.
  intros [H1 C1 F1 E1] [H2 C2 F2 E2]. split; [done|lia|congruence|]. intros i j Hi Hj. rewrite E2, E1, C1 by done.
  repeat case_decide; try done; try (exfalso; lia).
Qed.

Lemma extends_GetSequence n token s s' i : extends n token s s' -> wf p s -> i < batch_size p ->
  current_length_ s + n <= max_length p -> (forall j, j < n -> is_Some (token i j)) ->
  GetSequence i s' = GetSequence i s ++ omap (token i) (seq 0 n).
Proof.
  intros [Hw' Hc Hf Hcell] Hw Hi Hmax Htok.
  assert (forall m, m <= n -> length (omap (token i) (seq 0 m)) = m /\
    forall j, j < m -> omap (token i) (seq 0 m) !! j = token i j) as Ho.
  { induction m as [|m IH]; intros Hm; [split; [done|lia]|]. destruct IH as [IHl IHj]; [lia|].
    rewrite seq_S, omap_app. destruct (Htok m) as [t Ht]; [lia|]. cbn. rewrite Ht, length_app, IHl. cbn.
    split; [lia|]. intros j Hj. destruct (decide (j < m)) as [Hlt|Hge]; [by rewrite lookup_app_l by lia; apply IHj|].
    assert (j = m) as -> by lia. rewrite lookup_app_r, IHl, Nat.sub_diag by lia. done. }
  destruct (Ho n) as [Hl Hj]; [done|]. apply list_eq. intros j. rewrite lookup_GetSequence, Hc.
  pose proof (length_GetSequence i s Hw Hi) as Hlen.
  case_decide as Hjn.
  - rewrite Hcell by lia. case_decide as Hin.
    + rewrite lookup_app_r, Hlen, Hj by lia. done.
    + rewrite lookup_app_l, lookup_GetSequence by lia. by rewrite decide_True by lia.
  - rewrite lookup_ge_None_2; [done|]. rewrite length_app, Hlen, Hl. lia.
Qed.

Lemma ResetDone_run s : length (eos_seen_ s) = batch_size p ->
  ResetDone p s = (Ok tt, s <| done_ := false |> <| not_done_count_ := Z.of_nat (batch_size p) |>
                            <| eos_seen_ := replicate (batch_size p) false |>).
Proof. intros He. unfold ResetDone, modify. cbn. by rewrite He. Qed.

Lemma extends_ext n token token' s s' : (forall i j, i < batch_size p -> j < n -> token i j = token' i j) ->
  extends n token s s' -> extends n token' s s'.
Proof.
  intros Ht [Hw Hc Hf He]. split; try done. intros i j Hi Hj. rewrite He by done. case_decide; [|done]. apply Ht; lia.
Qed.

(** Appending a prompt: row [i] gets the [i]-th slice, whatever end-of-stream tokens it
    holds, and the flags are those of a sequence that is not done. *)
Lemma AppendTokens_run toks s : wf p s -> let count := length toks / batch_size p in
  current_length_ s + count <= max_length p ->
  exists s', AppendTokens p toks s = (Ok tt, s') /\ cleared s' /\
    extends count (fun i j => toks !! (i * count + j)) s s'.
Proof.
  intros Hw count Hroom. unfold AppendTokens. pose proof (po_batch _ Hp) as Hb.
  rewrite (proj2 (Nat.eqb_neq _ _)) by lia. fold count.
  assert (batch_size p * count <= length toks) as Hlen by (unfold count; apply Nat.Div0.mul_div_le).
  destruct (for_seq_inv (E := SearchError) (fun j =>
      _ ← for_each (fun i => match toks !! (i * count + j) with Some token => SetNextToken p i token | None => undefined end)
            (seq 0 (batch_size p));
      AppendNextTokensToSequences p)
     (fun k s' => extends k (fun i j => toks !! (i * count + j)) s s') count) with (s := s) as (s1 & Hrun & H1).
  - intros k s1 Hk Hex. pose proof (ex_wf _ _ _ _ Hex) as Hw1. pose proof (ex_current _ _ _ _ Hex) as Hc1.
    destruct (set_column_run (fun i => toks !! (i * count + k)) s1 Hw1) as (s2 & Hr2 & Hw2 & Hn2 & Hs2 & Hc2 & Hf2).
    { intros i Hi. apply lookup_lt_is_Some_2. nia. }
    rewrite (bind_ok _ _ _ _ _ Hr2).
    destruct (append_column s2 (fun i => toks !! (i * count + k)) Hw2) as (s3 & Hr3 & Hex3 & _); [lia|done|].
    exists s3. split; [done|].
    assert (extends 1 (fun i _ => toks !! (i * count + k)) s1 s3) as Hex13.
    { destruct Hex3 as [A B C D]. split; [done|congruence|congruence|]. intros i j Hi Hj. rewrite D, Hc2 by done.
      unfold cell. by rewrite Hs2, (frame_max _ _ Hf2). }
    eapply extends_ext; [|exact (extends_snoc _ _ _ _ _ _ Hex Hex13)]. intros i j Hi Hj. cbn.
    case_decide; [done|]. assert (j = k) as -> by lia. done.
  - by apply extends_refl.
  - rewrite (bind_ok _ _ _ _ _ Hrun). rewrite ResetDone_run by apply (wf_eos _ _ (ex_wf _ _ _ _ H1)).
    eexists. split; [reflexivity|]. split; [done|]. destruct H1 as [[] B C D]. split; try done.
    split; try done. cbn. apply length_replicate.
Qed.

(** ** Selection *)

Definition chosen (pick : nat -> Z) (i : nat) (seen : bool) : Z := if seen then pad_token_id p else pick i.
Definition seen_after (pick : nat -> Z) (i : nat) (seen : bool) : bool := seen || is_eos (pick i).

(** The end-of-stream bookkeeping between selections. *)
Record counted (s : GreedySearch_Cpu) : Prop := mk_counted
  { ct_count : not_done_count_ s = Z.of_nat (unseen (eos_seen_ s));
    ct_done : unseen (eos_seen_ s) = 0 -> done_ s = true }.

(** The state when the first [k] rows have been visited. *)
Definition visited_rows (pick : nat -> Z) (k : nat) (s : GreedySearch_Cpu) : GreedySearch_Cpu :=
  let seen := take k (imap (seen_after pick) (eos_seen_ s)) ++ drop k (eos_seen_ s) in
  s <| next_tokens_ := take k (imap (chosen pick) (eos_seen_ s)) ++ drop k (next_tokens_ s) |>
    <| eos_seen_ := seen |> <| not_done_count_ := Z.of_nat (unseen seen) |> <| done_ := bool_decide (unseen seen = 0) |>.

Lemma take_imap_S {A B} (f : nat -> A -> B) l k x : l !! k = Some x ->
  take (k + 1) (imap f l) = take k (imap f l) ++ [f k x].
Proof.
  intros Hx. rewrite Nat.add_1_r. apply take_S_r. by rewrite list_lookup_imap, Hx.
Qed.

Lemma insert_take_drop {A} (l1 l2 : list A) k x : length l1 = k -> k < length l2 ->
  <[k := x]> (l1 ++ drop k l2) = (l1 ++ [x]) ++ drop (k + 1) l2.
Proof.
  intros <- Hk. destruct (lookup_lt_is_Some_2 l2 (length l1) Hk) as [y Hy].
  rewrite (drop_S _ _ _ Hy), insert_app_r_alt, Nat.sub_diag by lia. cbn. by rewrite <- app_assoc, Nat.add_1_r.
Qed.

Lemma visited_rows_wf pick k s : wf p s -> k <= batch_size p -> wf p (visited_rows pick k s).
Proof.
  intros [Hm Hs Hn He Hc] Hk. split; try done; cbn; rewrite length_app, length_take, length_imap, length_drop; lia.
Qed.

Lemma rows_step {A B} (f : nat -> A -> B) (l : list A) (l' : list B) k x : length l' = length l -> l !! k = Some x ->
  <[k := f k x]> (take k (imap f l) ++ drop k l') = take (k + 1) (imap f l) ++ drop (k + 1) l'.
Proof.
  intros Hl Hx. pose proof (lookup_lt_Some _ _ _ Hx) as Hk. rewrite insert_take_drop.
  - by rewrite (take_imap_S f l k x Hx).
  - rewrite length_take, length_imap. lia.
  - lia.
Qed.

Lemma unseen_insert_true l k : l !! k = Some false -> unseen l = unseen (<[k := true]> l) + 1.
Proof.
  revert k. induction l as [|b l IH]; intros k Hk; [done|]. destruct k as [|k].
  - injection Hk as ->. change (<[0 := true]> (false :: l)) with (true :: l). rewrite !unseen_flag_cons. lia.
  - change (<[S k := true]> (b :: l)) with (b :: <[k := true]> l). rewrite !unseen_flag_cons, (IH k Hk). lia.
Qed.

Lemma visited_rows_step pick k s b : wf p s -> eos_seen_ s !! k = Some b ->
  let v := visited_rows pick k s in let seen := <[k := seen_after pick k b]> (eos_seen_ v) in
  visited_rows pick (k + 1) s =
  v <| next_tokens_ := <[k := chosen pick k b]> (next_tokens_ v) |> <| eos_seen_ := seen |>
    <| not_done_count_ := Z.of_nat (unseen seen) |> <| done_ := bool_decide (unseen seen = 0) |>.
Proof.
  intros [_ _ Hn He _] Hb. unfold visited_rows. cbn -[take drop unseen].
  rewrite !(rows_step _ _ _ k b) by (done || congruence). done.
Qed.

Lemma PadIfAlreadyEOS_run k (b : bool) s : wf p s -> k < batch_size p -> eos_seen_ s !! k = Some b ->
  PadIfAlreadyEOS p k s = (Ok b, if b then s <| next_tokens_ := <[k := pad_token_id p]> (next_tokens_ s) |> else s).
Proof.
  intros Hw Hk Hb. unfold PadIfAlreadyEOS, fetch, store, mbind, M_bind. rewrite Hb. destruct b; [|done]. cbn -[Nat.ltb].
  by rewrite (wf_next _ _ Hw), (proj2 (Nat.ltb_lt _ _)).
Qed.

Lemma select_row_run (picks : nat -> SM Z) (pick : nat -> Z) k s : wf p s -> k < batch_size p ->
  (eos_seen_ s !! k = Some false -> picks k (visited_rows pick k s) = (Ok (pick k), visited_rows pick k s)) ->
  select_row p picks k (visited_rows pick k s) = (Ok tt, visited_rows pick (k + 1) s).
Proof.
  intros Hw Hk Hpick. pose proof (visited_rows_wf pick k s Hw ltac:(lia)) as Hwv.
  pose proof (wf_eos _ _ Hw) as He. destruct (lookup_lt_is_Some_2 (eos_seen_ s) k) as [b Hb]; [lia|].
  assert (eos_seen_ (visited_rows pick k s) !! k = Some b) as Hbv.
  { cbn. rewrite lookup_app_r; rewrite length_take, length_imap, Nat.min_l by lia; [|done].
    by rewrite Nat.sub_diag, lookup_drop, Nat.add_0_r. }
  rewrite (visited_rows_step pick k s b Hw Hb).
  assert (not_done_count_ (visited_rows pick k s) = Z.of_nat (unseen (eos_seen_ (visited_rows pick k s)))) as Hcv by done.
  assert (done_ (visited_rows pick k s) = bool_decide (unseen (eos_seen_ (visited_rows pick k s)) = 0)) as Hdv by done.
  revert Hwv Hbv Hcv Hdv Hpick. generalize (visited_rows pick k s). intros v Hwv Hbv Hcv Hdv Hpick.
  unfold select_row. rewrite (bind_ok _ _ _ _ _ (PadIfAlreadyEOS_run k b v Hwv Hk Hbv)). unfold chosen, seen_after.
  destruct b; cbn [orb].
  - unfold mret, M_ret. rewrite (list_insert_id _ _ _ Hbv), <- Hcv, <- Hdv. by destruct v.
  - rewrite (bind_ok _ _ _ _ _ (Hpick Hb)), SetNextToken_run by done. f_equal. destruct (is_eos (pick k)).
    + pose proof (unseen_insert_true _ _ Hbv) as Hu. cbn. rewrite Hcv, Hdv, Hu. f_equal.
      * rewrite bool_decide_false by lia. cbn [orb]. destruct (Z.eqb_spec (Z.of_nat (unseen (<[k:=true]> (eos_seen_ v)) + 1) - 1) 0);
          symmetry; [apply bool_decide_eq_true|apply bool_decide_eq_false]; lia.
      * f_equal. lia.
    + rewrite (list_insert_id _ _ _ Hbv), <- Hcv, <- Hdv. by destruct v.
Qed.

(** ** Selection, rewinding and transactions as a whole *)

Lemma visited_rows_0 pick s : counted s -> done_ s = false -> visited_rows pick 0 s = s.
Proof.
  intros [Hc Hd] Hf. unfold visited_rows. rewrite !drop_0. rewrite !take_0. cbn [app]. cbv zeta.
  rewrite <- Hc, bool_decide_false by (intros H0; by rewrite (Hd H0) in Hf). rewrite <- Hf. by destruct s.
Qed.

(** A selection in which the picks are [pick]: rows that are done are padded; if every row
    is done now nothing is appended, otherwise every row gets its token. *)
Lemma select_rows_run (picks : nat -> SM Z) pick s :
  wf p s -> counted s -> done_ s = false -> current_length_ s < max_length p ->
  (forall k, k < batch_size p -> eos_seen_ s !! k = Some false ->
     picks k (visited_rows pick k s) = (Ok (pick k), visited_rows pick k s)) ->
  exists s', select_rows p picks s = (Ok tt, s') /\ counted s' /\
    next_tokens_ s' = imap (chosen pick) (eos_seen_ s) /\ eos_seen_ s' = imap (seen_after pick) (eos_seen_ s) /\
    (if bool_decide (unseen (eos_seen_ s') = 0)
     then extends 0 (fun _ _ => None) s s' /\ done_ s' = true
     else extends 1 (fun i _ => next_tokens_ s' !! i) s s' /\ done_ s' = (current_length_ s' =? max_length p)).
Proof.
  intros Hw Hct Hd Hlt Hpick. pose proof (wf_eos _ _ Hw) as He. pose proof (wf_next _ _ Hw) as Hn.
  destruct (for_seq_inv (select_row p picks) (fun k s1 => s1 = visited_rows pick k s) (batch_size p)) with (s := s) as (s1 & Hrun & Hs1).
  { intros k s1 Hk ->. eexists. split; [|done]. by apply select_row_run; [..|apply Hpick]. }
  { by rewrite visited_rows_0. }
  unfold select_rows. rewrite (bind_ok _ _ _ _ _ Hrun), gets_bind. pose proof (visited_rows_wf pick (batch_size p) s Hw ltac:(lia)) as Hw1.
  rewrite <- Hs1 in Hw1.
  assert (next_tokens_ s1 = imap (chosen pick) (eos_seen_ s)) as Hn1.
  { rewrite Hs1. cbn. rewrite drop_ge, app_nil_r, take_ge by (rewrite ?length_imap; lia). done. }
  assert (eos_seen_ s1 = imap (seen_after pick) (eos_seen_ s)) as He1.
  { rewrite Hs1. cbn. rewrite drop_ge, app_nil_r, take_ge by (rewrite ?length_imap; lia). done. }
  assert (done_ s1 = bool_decide (unseen (eos_seen_ s1) = 0)) as Hd1 by (by rewrite Hs1).
  assert (not_done_count_ s1 = Z.of_nat (unseen (eos_seen_ s1))) as Hc1 by (by rewrite Hs1).
  assert (sequences_ s1 = sequences_ s /\ current_length_ s1 = current_length_ s /\ frame s1 = frame s) as (Hq1 & Hl1 & Hf1) by (by rewrite Hs1).
  assert (forall i j, cell i j s1 = cell i j s) as Hcell by (intros i j; unfold cell; by rewrite Hq1, (frame_max _ _ Hf1)).
  clear Hs1 Hrun. rewrite Hd1. case_bool_decide as Hz; cbn [negb].
  - exists s1. split; [done|]. split; [by split|]. split; [done|]. split; [done|].
    rewrite bool_decide_true by done. split; [|done]. split; [done|lia|done|].
    intros i j _ _. rewrite decide_False by lia. apply Hcell.
  - destruct (append_column s1 (fun i => next_tokens_ s1 !! i) Hw1) as (s2 & Hr2 & [E1 E2 E3 E4] & Hn2 & He2 & Hc2 & Hd2); [lia|done|].
    exists s2. split; [done|]. rewrite He2, Hn2. split; [split; rewrite He2; [by rewrite Hc2|done]|].
    split; [done|]. split; [done|].
    rewrite bool_decide_false by done. split; [|by rewrite Hd2, Hd1].
    split; [done|lia|congruence|]. intros i j Hi Hj. rewrite E4, Hl1, Hcell by done. done.
Qed.

Lemma counted_cleared s : cleared s -> counted s.
Proof.
  intros (Hd & Hc & He). pose proof (po_batch _ Hp). split; rewrite He, unseen_replicate; [done|lia].
Qed.

Lemma SampleRows_picks drawn k s : (fun i : nat => mret (drawn i) : SM Z) k (visited_rows drawn k s) =
  (Ok (drawn k), visited_rows drawn k s).
Proof. done. Qed.

(** The token [ArgMax] picks for a row of the logits. *)
Definition top_pick (logits : list float) (row : nat) : Z :=
  match ArgMax_float (take (vocab_size p) (drop (row * vocab_size p) logits)) with Ok t => Z.of_nat t | _ => 0%Z end.

Lemma SelectTop_picks logits k s : next_token_scores_ s = logits -> k < batch_size p -> 0 < vocab_size p ->
  batch_size p * vocab_size p <= length logits ->
  (scores ← GetScores p k;
   match ArgMax_float scores with Ok token => mret (Z.of_nat token) | _ => throw EmptyScores end) s =
  (Ok (top_pick logits k), s).
Proof.
  intros Hs Hk Hv Hl. unfold GetScores, mbind, M_bind. rewrite Hs, (proj2 (Nat.ltb_ge _ _)) by nia.
  unfold top_pick. destruct (take _ _) as [|x l] eqn:Ht; [|done].
  apply (f_equal length) in Ht. rewrite length_take, length_drop in Ht. cbn in Ht. nia.
Qed.

(** Committing a token that is already chosen is a selection of a batch of one. *)
Lemma CommitToken_select t s : batch_size p = 1 -> wf p s -> counted s -> done_ s = false ->
  CommitToken p t s = SampleRows p (fun _ => t) s.
Proof.
  intros Hb Hw [Hc Hz] Hd. unfold CommitToken, SampleRows, select_rows. rewrite Hb. cbn [seq].
  assert (eos_seen_ s !! 0 = Some false) as He.
  { pose proof (wf_eos _ _ Hw) as Hl. rewrite Hb in Hl. destruct (eos_seen_ s) as [|[] [|]] eqn:Hes; try done.
    by rewrite Hz in Hd. }
  pose proof (SetNextToken_run 0 t s Hw ltac:(lia)) as H1. set (s1 := if is_eos t then _ else _) in H1.
  assert (select_row p (fun _ => mret t) 0 s = (Ok tt, s1)) as H2.
  { unfold select_row. rewrite (bind_ok _ _ _ _ _ (PadIfAlreadyEOS_run 0 false s Hw ltac:(lia) He)). exact H1. }
  assert (for_each (select_row p (fun _ => mret t)) [0] s = (Ok tt, s1)) as H3.
  { cbn [for_each]. by rewrite (bind_ok _ _ _ _ _ H2). }
  by rewrite (bind_ok _ _ _ _ _ H1), (bind_ok _ _ _ _ _ H3).
Qed.

Lemma RewindTo_run n s : wf p s -> n < max_length p -> exists s', RewindTo p n s = (Ok tt, s') /\ wf p s' /\ cleared s' /\
  current_length_ s' = n /\ sequences_ s' = sequences_ s /\ frame s' = frame s /\
  (0 < n -> forall i, i < batch_size p -> next_tokens_ s' !! i = cell i n s).
Proof.
  intros Hw Hn. unfold RewindTo. rewrite (bind_ok _ _ _ _ _ (ResetDone_run s (wf_eos _ _ Hw))).
  set (s0 := s <| done_ := false |> <| not_done_count_ := _ |> <| eos_seen_ := _ |>).
  assert (wf p s0) as Hw0 by (destruct Hw; split; try done; cbn; apply length_replicate).
  assert (cleared s0 /\ sequences_ s0 = sequences_ s /\ max_length_ s0 = max_length_ s /\ frame s0 = frame s) as (Hcl & Hq & Hml & Hfr) by done.
  clearbody s0.
  destruct (Nat.ltb_spec 0 n) as [Hpos|Hz].
  - destruct (for_seq_inv (E := SearchError) (fun i => max_len ← gets max_length_; token ← fetch sequences_ (i * max_len + n);
        store next_tokens_ i token)
      (fun k s1 => exists l, s1 = s0 <| next_tokens_ := l |> /\ length l = batch_size p /\
         forall i, i < k -> l !! i = cell i n s0) (BatchBeamSize p)) with (s := s0) as (s1 & Hrun & l & -> & Hl & Hlk).
    + intros k s1 Hk (l & -> & Hl & Hlk). rewrite batch_beam in Hk. rewrite gets_bind.
      destruct (lookup_lt_is_Some_2 (sequences_ s0) (k * max_length_ s0 + n)) as [t Ht].
      { destruct Hw0 as [Hm Hs _ _ _]. rewrite Hm, Hs. by apply cell_index. }
      unfold fetch, store, mbind, M_bind. cbn -[Nat.ltb]. rewrite Ht. cbn -[Nat.ltb]. rewrite Hl, (proj2 (Nat.ltb_lt _ _)) by done.
      eexists. split; [reflexivity|]. exists (<[k := t]> l). split; [done|]. split; [by rewrite length_insert|].
      intros i Hi. destruct (decide (i = k)) as [->|Hne]; [by rewrite list_lookup_insert_eq by lia|].
      rewrite list_lookup_insert_ne by done. apply Hlk. lia.
    + exists (next_tokens_ s0). split; [by destruct s0|]. split; [apply (wf_next _ _ Hw0)|lia].
    + rewrite (bind_ok _ _ _ _ _ Hrun). eexists. split; [reflexivity|]. rewrite batch_beam in Hlk.
      split; [destruct Hw0; split; cbn; (done || lia)|]. split_and!; try done. intros _ i Hi.
      unfold cell in Hlk |- *. rewrite <- Hq, <- Hml. by apply Hlk.
  - rewrite modify_bind. eexists. split; [reflexivity|]. destruct Hw0 as [A B C D F].
    split; [split; cbn in *; rewrite ?length_replicate; (done || lia)|]. split_and!; try done. lia.
Qed.

(** ** The abstract search

    What a client of the search relies on: a batch of token sequences of equal length,
    a flag per sequence, a flag for the batch, and at most one checkpoint, which is a copy
    of all of these. *)

Record batch_view : Type := mkView { v_rows : list (list Z); v_seen : list bool; v_done : bool }.
Record abstract : Type := mkAbstract { a_view : batch_view; a_saved : option batch_view }.

Inductive search_op : Type :=
  | OpAppend (tokens : list Z)
  | OpSelectTop (logits : list float)
  | OpSample (drawn : nat -> Z)
  | OpCommitToken (token : Z)
  | OpRewind (index : nat)
  | OpSave
  | OpRestore
  | OpCommit.

Definition run_op (op : search_op) : SM unit :=
  match op with
  | OpAppend tokens => AppendTokens p tokens
  | OpSelectTop logits => _ ← SetLogits logits; SelectTop p
  | OpSample drawn => SampleRows p drawn
  | OpCommitToken token => CommitToken p token
  | OpRewind index => RewindTo p index
  | OpSave => StartTransactionCheckpoint
  | OpRestore => RestoreStateForTransaction
  | OpCommit => CommitStateForTransaction
  end.

Definition view_length (v : batch_view) : nat := match v_rows v with r :: _ => length r | [] => 0 end.

Definition select_view (pick : nat -> Z) (v : batch_view) : batch_view :=
  let seen := imap (seen_after pick) (v_seen v) in
  if bool_decide (unseen seen = 0) then mkView (v_rows v) seen true
  else mkView (imap (fun i r => r ++ option_list (imap (chosen pick) (v_seen v) !! i)) (v_rows v)) seen
         (view_length v + 1 =? max_length p).

Definition spec_op (op : search_op) (a : abstract) : abstract :=
  let v := a_view a in
  match op with
  | OpAppend tokens =>
      let count := length tokens / batch_size p in
      mkAbstract (mkView (imap (fun i r => r ++ take count (drop (i * count) tokens)) (v_rows v))
                    (replicate (batch_size p) false) false) (a_saved a)
  | OpSelectTop logits => mkAbstract (select_view (top_pick logits) v) (a_saved a)
  | OpSample drawn => mkAbstract (select_view drawn v) (a_saved a)
  | OpCommitToken token => mkAbstract (select_view (fun _ => token) v) (a_saved a)
  | OpRewind index => mkAbstract (mkView (take index <$> v_rows v) (replicate (batch_size p) false) false) (a_saved a)
  | OpSave => mkAbstract v (Some v)
  | OpRestore => mkAbstract (default v (a_saved a)) None
  | OpCommit => mkAbstract v None
  end.

(** What the callers guarantee: a prompt leaves room for a token, a selection follows
    only while the batch is not done, a rewind shortens the sequences but not below the
    checkpoint, and checkpoints do not nest. *)
Definition allowed (op : search_op) (a : abstract) : Prop :=
  let v := a_view a in
  match op with
  | OpAppend tokens => view_length v + length tokens / batch_size p < max_length p
  | OpSelectTop logits => v_done v = false /\ 0 < vocab_size p /\ batch_size p * vocab_size p <= length logits
  | OpSample _ => v_done v = false
  | OpCommitToken _ => v_done v = false /\ batch_size p = 1
  | OpRewind index => index <= view_length v /\ index < max_length p /\
      match a_saved a with Some w => view_length w <= index | None => True end
  | OpSave => a_saved a = None
  | OpRestore | OpCommit => is_Some (a_saved a)
  end.

(** The sequences of a state, and their leading [n] tokens. *)
Definition rows_of (n : nat) (s : GreedySearch_Cpu) : list (list Z) :=
  (fun i => take n (drop (i * max_length_ s) (sequences_ s))) <$> seq 0 (batch_size p).

Record saved_ok (s : GreedySearch_Cpu) (w : batch_view) : Prop := mk_saved_ok
  { sv_rows : v_rows w = rows_of (transaction_sequence_length_ s) s;
    sv_seen : v_seen w = transaction_eos_seen_ s;
    sv_done : v_done w = transaction_done_ s;
    sv_length : transaction_sequence_length_ s <= current_length_ s;
    sv_room : v_done w = false -> transaction_sequence_length_ s < max_length p;
    sv_next : length (transaction_next_tokens_ s) = batch_size p;
    sv_eos : length (transaction_eos_seen_ s) = batch_size p;
    sv_count : transaction_not_done_count_ s = Z.of_nat (unseen (transaction_eos_seen_ s));
    sv_full : unseen (transaction_eos_seen_ s) = 0 -> transaction_done_ s = true }.

(** The simulation relation. *)
Record refines (s : GreedySearch_Cpu) (a : abstract) : Prop := mk_refines
  { rf_wf : wf p s;
    rf_counted : counted s;
    rf_rows : v_rows (a_view a) = rows_of (current_length_ s) s;
    rf_seen : v_seen (a_view a) = eos_seen_ s;
    rf_done : v_done (a_view a) = done_ s;
    rf_room : done_ s = false -> current_length_ s < max_length p;
    rf_pending : transaction_restore_pending_ s = false;
    rf_saved : match a_saved a with
               | Some w => transaction_checkpoint_active_ s = true /\ saved_ok s w
               | None => transaction_checkpoint_active_ s = false
               end }.

Lemma rows_of_current s : rows_of (current_length_ s) s = (fun i => GetSequence i s) <$> seq 0 (batch_size p).
Proof. done. Qed.

Lemma omap_slice (l : list Z) a n : omap (fun j => l !! (a + j)) (seq 0 n) = take n (drop a l).
Proof.
  induction n as [|n IH]; [done|]. rewrite seq_S, omap_app, IH. cbn. destruct (l !! (a + n)) as [x|] eqn:Hx.
  - symmetry. apply take_S_r. by rewrite lookup_drop.
  - apply lookup_ge_None in Hx. rewrite app_nil_r, !take_ge by (rewrite length_drop; lia). done.
Qed.

Lemma lookup_rows_of n s i : i < batch_size p -> rows_of n s !! i = Some (take n (drop (i * max_length_ s) (sequences_ s))).
Proof. intros Hi. unfold rows_of. by rewrite list_lookup_fmap, (lookup_seq_lt 0 _ i Hi). Qed.

Lemma length_rows_of n s : length (rows_of n s) = batch_size p.
Proof. unfold rows_of. by rewrite length_fmap, length_seq. Qed.

(** Two states that agree on the first [n] cells of every sequence have the same rows. *)
Lemma rows_of_cells n s s' : (forall i j, i < batch_size p -> j < n -> cell i j s' = cell i j s) ->
  rows_of n s' = rows_of n s.
Proof.
  intros Hc. apply list_eq. intros i. destruct (decide (i < batch_size p)) as [Hi|Hi];
    [|by rewrite !lookup_ge_None_2 by (rewrite length_rows_of; lia)].
  rewrite !lookup_rows_of by done. f_equal. apply list_eq. intros j. destruct (decide (j < n)) as [Hj|Hj];
    [|by rewrite !lookup_take_ge by lia]. rewrite !lookup_take_lt, !lookup_drop by lia. by apply Hc.
Qed.

Lemma rows_of_take n m s : n <= m -> take n <$> rows_of m s = rows_of n s.
Proof.
  intros Hn. unfold rows_of. rewrite <- list_fmap_compose. apply list_fmap_ext. intros _ i _. cbn.
  by rewrite take_take, Nat.min_l.
Qed.

Lemma rows_of_extends n token s s' : wf p s -> extends n token s s' -> current_length_ s + n <= max_length p ->
  (forall i j, i < batch_size p -> j < n -> is_Some (token i j)) ->
  rows_of (current_length_ s') s' = imap (fun i r => r ++ omap (token i) (seq 0 n)) (rows_of (current_length_ s) s).
Proof.
  intros Hw Hex Hn Htok. apply list_eq. intros i. rewrite list_lookup_imap.
  destruct (decide (i < batch_size p)) as [Hi|Hi]; [|by rewrite !lookup_ge_None_2 by (rewrite length_rows_of; lia)].
  rewrite !lookup_rows_of by done. cbn. f_equal. apply (extends_GetSequence _ _ _ _ _ Hex); auto.
Qed.

Lemma view_length_rows s a : refines s a -> view_length (a_view a) = current_length_ s.
Proof.
  intros [Hw _ Hr _ _ _ _ _]. unfold view_length. rewrite Hr, rows_of_current. pose proof (po_batch _ Hp) as Hb.
  destruct (batch_size p) as [|n] eqn:Hn; [lia|]. cbn [seq fmap list_fmap]. apply length_GetSequence; [done|lia].
Qed.

(** The checkpoint survives every step that keeps the cells below it. *)
Lemma saved_kept s s' a : refines s a -> frame s' = frame s ->
  (forall w, a_saved a = Some w -> transaction_sequence_length_ s <= current_length_ s') ->
  (forall i j, i < batch_size p -> j < transaction_sequence_length_ s -> a_saved a <> None -> cell i j s' = cell i j s) ->
  transaction_restore_pending_ s' = false /\
  match a_saved a with
  | Some w => transaction_checkpoint_active_ s' = true /\ saved_ok s' w
  | None => transaction_checkpoint_active_ s' = false
  end.
Proof.
  intros [_ _ _ _ _ _ Hpend Hsv] Hf Hlen Hcell. unfold frame in Hf. injection Hf as F1 F2 F3 F4 F5 F6 F7 F8 F9 F10 F11.
  split; [congruence|]. destruct (a_saved a) as [w|]; [|congruence].
  destruct Hsv as [Hact [R1 R2 R3 R4 R5 R6 R7 R8 R9]]. split; [congruence|].
  split; rewrite ?F6, ?F8, ?F9, ?F10, ?F11; try done; [|by eapply Hlen].
  rewrite R1. symmetry. apply rows_of_cells. intros i j Hi Hj. by apply Hcell.
Qed.

Lemma extends_saved n token s s' a : refines s a -> extends n token s s' ->
  transaction_restore_pending_ s' = false /\
  match a_saved a with
  | Some w => transaction_checkpoint_active_ s' = true /\ saved_ok s' w
  | None => transaction_checkpoint_active_ s' = false
  end.
Proof.
  intros Href Hex. assert (forall w, a_saved a = Some w -> transaction_sequence_length_ s <= current_length_ s) as Hle.
  { intros w Hw. pose proof (rf_saved _ _ Href) as Hsv. rewrite Hw in Hsv. apply Hsv. }
  apply (saved_kept s); [done|apply (ex_frame _ _ _ _ Hex)| |].
  - intros w Hw. specialize (Hle w Hw). rewrite (ex_current _ _ _ _ Hex). lia.
  - intros i j Hi Hj Hs. destruct (a_saved a) as [w|]; [|done]. specialize (Hle w eq_refl).
    pose proof (wf_current _ _ (rf_wf _ _ Href)). rewrite (ex_cell _ _ _ _ Hex) by lia. by rewrite decide_False by lia.
Qed.

Lemma select_refines picks pick s a : refines s a -> v_done (a_view a) = false ->
  (forall k, k < batch_size p -> eos_seen_ s !! k = Some false ->
     picks k (visited_rows pick k s) = (Ok (pick k), visited_rows pick k s)) ->
  exists s', select_rows p picks s = (Ok tt, s') /\ refines s' (mkAbstract (select_view pick (a_view a)) (a_saved a)).
Proof.
  intros Href Hd Hp0. rewrite (rf_done _ _ Href) in Hd. pose proof (rf_room _ _ Href Hd) as Hroom.
  pose proof (rf_wf _ _ Href) as Hw.
  destruct (select_rows_run picks pick s Hw (rf_counted _ _ Href) Hd Hroom Hp0) as (s' & Hrun & Hct & Hn & He & Hcase).
  exists s'. split; [done|]. unfold select_view. rewrite (rf_seen _ _ Href), <- He.
  case_bool_decide as Hz; destruct Hcase as [Hex Hdone].
  - destruct (extends_saved _ _ _ _ _ Href Hex) as [Hpend Hsv]. split; cbn; try done; try congruence; [apply Hex|].
    rewrite (rf_rows _ _ Href), (ex_current _ _ _ _ Hex), Nat.add_0_r. symmetry. apply rows_of_cells.
    intros i j Hi Hj. rewrite (ex_cell _ _ _ _ Hex) by (pose proof (wf_current _ _ Hw); lia). by rewrite decide_False by lia.
  - destruct (extends_saved _ _ _ _ _ Href Hex) as [Hpend Hsv]. split; cbn; try done; [apply Hex| | |].
    + rewrite (rf_rows _ _ Href), <- Hn.
      rewrite (rows_of_extends 1 _ s s' Hw Hex) by (lia || (intros i j Hi _; apply lookup_lt_is_Some_2; by rewrite (wf_next _ _ (ex_wf _ _ _ _ Hex)))).
      apply imap_ext. intros i r Hr. cbn. by destruct (next_tokens_ s' !! i).
    + rewrite Hdone, (ex_current _ _ _ _ Hex). f_equal. by rewrite (view_length_rows s a Href).
    + rewrite Hdone. intros H0%Nat.eqb_neq. pose proof (wf_current _ _ (ex_wf _ _ _ _ Hex)). lia.
Qed.

Lemma append_refines tokens s a : refines s a -> allowed (OpAppend tokens) a ->
  exists s', AppendTokens p tokens s = (Ok tt, s') /\ refines s' (spec_op (OpAppend tokens) a).
Proof.
  intros Href Hal. cbn in Hal. rewrite (view_length_rows s a Href) in Hal. pose proof (rf_wf _ _ Href) as Hw.
  destruct (AppendTokens_run tokens s Hw) as (s' & Hrun & Hcl & Hex); [lia|]. exists s'. split; [done|].
  destruct (extends_saved _ _ _ _ _ Href Hex) as [Hpend Hsv].
  split; cbn; try done; [apply Hex|by apply counted_cleared| |by destruct Hcl as (_ & _ & ->)|by destruct Hcl as (-> & _)|].
  - rewrite (rf_rows _ _ Href), (rows_of_extends _ _ s s' Hw Hex); [|lia|].
    + apply imap_ext. intros i r Hr. f_equal. symmetry. apply omap_slice.
    + intros i j Hi Hj. apply lookup_lt_is_Some_2.
      assert (batch_size p * (length tokens / batch_size p) <= length tokens) by apply Nat.Div0.mul_div_le. nia.
  - rewrite (ex_current _ _ _ _ Hex). lia.
Qed.

Lemma rewind_refines index s a : refines s a -> allowed (OpRewind index) a ->
  exists s', RewindTo p index s = (Ok tt, s') /\ refines s' (spec_op (OpRewind index) a).
Proof.
  intros Href (Hle & Hlt & Hsaved). rewrite (view_length_rows s a Href) in Hle. pose proof (rf_wf _ _ Href) as Hw.
  destruct (RewindTo_run index s Hw Hlt) as (s' & Hrun & Hw' & Hcl & Hc & Hq & Hf & _). exists s'. split; [done|].
  assert (forall i j, cell i j s' = cell i j s) as Hcell by (intros i j; unfold cell; by rewrite Hq, (frame_max _ _ Hf)).
  destruct (saved_kept s s' a Href Hf) as [Hpend Hsv].
  - intros w Hs. pose proof (rf_saved _ _ Href) as H1. rewrite Hs in H1, Hsaved. destruct H1 as [_ H1].
    rewrite Hc. etransitivity; [|exact Hsaved]. unfold view_length. rewrite (sv_rows _ _ H1). pose proof (po_batch _ Hp).
    unfold rows_of. pose proof (wf_sequences _ _ Hw) as Hlen. destruct (batch_size p) as [|n]; [lia|].
    cbn [seq fmap list_fmap]. rewrite length_take, length_drop, Hlen.
    pose proof (sv_length _ _ H1). pose proof (wf_current _ _ Hw). nia.
  - intros i j _ _ _. apply Hcell.
  - split; cbn; try done; [by apply counted_cleared| |by destruct Hcl as (_ & _ & ->)|by destruct Hcl as (-> & _)|by rewrite Hc].
    rewrite (rf_rows _ _ Href), rows_of_take, Hc by done. symmetry. by apply rows_of_cells.
Qed.

Lemma save_refines s a : refines s a -> a_saved a = None ->
  exists s', StartTransactionCheckpoint s = (Ok tt, s') /\ refines s' (spec_op OpSave a).
Proof.
  intros [Hw Hct Hr Hse Hd Hroom Hpend Hsv] Hn. rewrite Hn in Hsv. unfold StartTransactionCheckpoint.
  rewrite gets_bind, Hsv, throw_if_false by done. eexists. split; [reflexivity|]. split; try done; [by destruct Hw|by destruct Hct|].
  split; [done|]. destruct Hw, Hct. split; try done. cbn. rewrite Hd. done.
Qed.

Lemma restore_refines s a : refines s a -> is_Some (a_saved a) ->
  exists s', RestoreStateForTransaction s = (Ok tt, s') /\ refines s' (spec_op OpRestore a).
Proof.
  intros [Hw Hct Hr Hse Hd Hroom Hpend Hsv] [w Hs]. rewrite Hs in Hsv. destruct Hsv as [Hact Hok].
  unfold RestoreStateForTransaction. erewrite bind_ok.
  2: { unfold QueueStateRestoreForTransaction. rewrite gets_bind, Hact, throw_if_false, gets_bind, Hpend, throw_if_false by done.
       reflexivity. }
  unfold CompleteStateRestoreForTransaction. rewrite !gets_bind. cbn [transaction_checkpoint_active_ transaction_restore_pending_].
  rewrite throw_if_false by (cbn; by rewrite Hact). eexists. split; [reflexivity|].
  destruct Hw as [W1 W2 W3 W4 W5], Hok as [R1 R2 R3 R4 R5 R6 R7 R8 R9].
  split; cbn; rewrite ?Hs; cbn; try done; [|intros H0; apply R5; congruence].
  split; cbn; try done. lia.
Qed.

Lemma commit_refines s a : refines s a -> is_Some (a_saved a) ->
  exists s', CommitStateForTransaction s = (Ok tt, s') /\ refines s' (spec_op OpCommit a).
Proof.
  intros [Hw Hct Hr Hse Hd Hroom Hpend Hsv] [w Hs]. rewrite Hs in Hsv. destruct Hsv as [Hact _].
  unfold CommitStateForTransaction. rewrite !gets_bind, Hact, Hpend, throw_if_false by done. eexists. split; [reflexivity|].
  split; try done; [by destruct Hw|by destruct Hct].
Qed.

Lemma op_refines op s a : refines s a -> allowed op a ->
  exists s', run_op op s = (Ok tt, s') /\ refines s' (spec_op op a).
Proof.
  intros Href Hal. destruct op as [tokens|logits|drawn|token|index| | |]; cbn [run_op].
  - by apply append_refines.
  - destruct Hal as (Hd & Hv & Hl). unfold SetLogits. rewrite modify_bind. unfold SelectTop.
    apply (select_refines _ _ (s <| next_token_scores_ := logits |>)); [|done|].
    + destruct Href as [W C R S D M P V]. split; try done; [by destruct W|by destruct C|].
      destruct (a_saved a) as [w|]; [|done]. destruct V as [A V]. split; [done|]. by destruct V.
    + intros k Hk _. by apply (SelectTop_picks logits).
  - apply select_refines; [done|done|]. intros k _ _. apply SampleRows_picks.
  - destruct Hal as [Hd Hb]. rewrite (CommitToken_select token s Hb (rf_wf _ _ Href) (rf_counted _ _ Href)) by (by rewrite <- (rf_done _ _ Href)).
    apply select_refines; [done|done|]. intros k _ _. apply (SampleRows_picks (fun _ => token)).
  - by apply rewind_refines.
  - by apply save_refines.
  - by apply restore_refines.
  - by apply commit_refines.
Qed.

(** A sequence of operations each of which its callers may issue. *)
Fixpoint allowed_all (ops : list search_op) (a : abstract) : Prop :=
  match ops with [] => True | op :: rest => allowed op a /\ allowed_all rest (spec_op op a) end.

Definition empty_view : batch_view := mkView (replicate (batch_size p) []) (replicate (batch_size p) false) false.

Lemma make_refines buffer : refines (make_GreedySearch_Cpu p buffer) (mkAbstract empty_view None).
Proof.
  pose proof (po_max _ Hp). split; try done.
  - split; try done; cbn; rewrite ?length_replicate; try done; [|lia]. unfold BatchBeamSize. rewrite (po_beams _ Hp).
    rewrite length_take, length_app, length_replicate. lia.
  - apply counted_cleared. done.
  - unfold empty_view, rows_of. cbn. apply list_eq. intros i. rewrite list_lookup_fmap.
    destruct (decide (i < batch_size p)) as [Hi|Hi]; [by rewrite lookup_replicate_2, (lookup_seq_lt 0 _ i Hi) by done|].
    rewrite !lookup_ge_None_2; [done|rewrite length_seq; lia|rewrite length_replicate; lia].
Qed.
End search_proofs.


Definition sample_params : GeneratorParams := mkParams 2 1 6 4 [3%Z] 0.

Definition sample_ops : list search_op :=
  [OpAppend [1; 3; 2; 2]%Z; OpSave; OpSample (fun i => if i =? 0 then 3%Z else 1%Z);
   OpSample (fun _ => 2%Z); OpRestore; OpSelectTop (sample_row ++ sample_row); OpSave; OpCommit; OpRewind 2].

