(* ===== verification/Turns.v ===== *)
(** * The life cycle of a request

    Models [engine/request.{h,cpp}] as a whole: turns and their admission, the step
    transaction with speculative drafts, token selection, finish reasons, cancellation,
    failure, close, auxiliary decoders and rewinding, over the greedy search of
    [GreedySearch] and the stop-string controller of [StopString].  [Request] models the
    part of the same class that planning sees.

    The members of the class are grouped into records, with the names of the source: the
    turn, the drafts, the random streams, the checkpoint of a transaction and the progress.
    Token counts are [nat], lengths that the code keeps as [int64_t] are [Z], identifiers
    and seeds are [N].  A random generator is represented by its seed and how many words
    were drawn from it.  Thread checks, weak references to the engine and device copies are
    left out: an engine is its address, and a lock that fails is [None]. *)

From S2P Require Import Prelude TurnPolicy Logits GreedySearch StepPlan EngineInvariants StopString.
From Stdlib Require Import SpecFloat.

Open Scope nat_scope.

(** ** Interfaces

    The grammar engine behind [ConstrainedLogitsProcessor] and the device sampler are
    outside this code. *)

Class ConstrainedLogitsProcessor (G E : Type) : Type := {
  CommitTokens : list Z -> G -> outcome E unit * G;
  ProcessLogits : list float -> G -> list float;
  AllowsOnlyTokens : list Z -> G -> bool;
  IsDelimitedActive : G -> bool;
  DelimitedOpeningToken : G -> option Z
}.

(** [BatchedSampler]: a state of the sampler's pool, as far as a request sees it. *)
Class BatchedSampler (D : Type) : Type := {
  OwnsState : D -> bool;
  CreateState : N -> D;
  ReseedState : N -> D -> D
}.

(** ** Random streams *)

Inductive rng_seed : Type := SeedValue (value : N) | SeedSequence (words : list N).
Record mt19937 : Type := mkRng { seeded_with : rng_seed; words_drawn : N }.

Definition two32 : N := 4294967296.

Definition MakeHostRandomGenerator (seed : N) : mt19937 :=
  if (seed <=? 4294967295)%N then mkRng (SeedValue seed) 0
  else mkRng (SeedSequence [(seed mod two32)%N; (seed / two32)%N]) 0.

Definition MakeDraftRandomGenerator (seed : N) : mt19937 :=
  mkRng (SeedSequence [(seed mod two32)%N; (seed / two32)%N; 0x44464c53%N]) 0.

(** A negative configured seed asks for a random one; its two halves are arguments. *)
Definition InitialSeedBasis (configured_seed : Z) (high low : N) : N :=
  if (0 <=? configured_seed)%Z then Z.to_N configured_seed
  else N.lor (N.shiftl (high mod two32) 32) (low mod two32).

Definition draw (words : N) (g : mt19937) : mt19937 := mkRng (seeded_with g) (words_drawn g + words)%N.

(** ** The request *)

Record TurnBoundary : Type := mkBoundary { boundary_turn_id : N; boundary_sequence_length : nat }.

(** A sparse distribution a draft token was drawn from. *)
Record TargetTokenSelection : Type := mkSelection { indices : list Z; probs : list float }.

Record DraftVerificationState : Type := mkVerification
  { completed_generation : bool;
    eos : bool;
    stop_match_index : Z }.

Definition no_verification : DraftVerificationState := mkVerification false false (-1).

Record Turn : Type := mkTurn
  { turn_policy_ : EffectiveTurnPolicy;
    turn_prompt_tokens_ : nat;
    turn_generated_tokens_ : nat;
    current_turn_id_ : N;
    next_turn_id_ : N;
    has_current_turn_ : bool;
    turn_id_exhausted_ : bool;
    turn_boundaries_ : list TurnBoundary;
    finish_reason_ : GenerationFinishReason;
    matched_stop_string_index_ : Z }.

Record Drafts : Type := mkDrafts
  { draft_tokens_ : list Z;
    draft_token_distributions_ : list TargetTokenSelection;
    staged_draft_count_ : nat;
    accepted_draft_count_ : nat;
    evaluated_draft_count_ : nat;
    draft_verification_ : DraftVerificationState }.

Record Seeds : Type := mkSeeds
  { current_seed_basis_ : N;
    pending_reseed_ : option N;
    pending_reseed_applied_ : bool;
    rng_ : mt19937;
    draft_rng_ : mt19937 }.

Record Progress : Type := mkProgress
  { processed_sequence_length_ : Z;
    adopted_prefix_length_ : nat;
    turn_cached_prompt_tokens_ : nat;
    prefix_adoption_staged_ : bool;
    prompt_sequence_length_ : Z;
    scheduled_token_count_ : nat }.

Definition no_drafts : Drafts := mkDrafts [] [] 0 0 0 no_verification.

Inductive RequestError (E GE : Type) : Type :=
  | SearchFailure (e : SearchError)
  | StopFailure (e : ControllerError E)
  | GuidanceFailure (e : GE)
  | AppendTooLong | ZeroTurnMaximum | NoInputTokens | TurnIdsExhausted | BeginOnClosed | TurnNotComplete
  | NoMirrorCapacity | ResourcesRemain | ForeignRequest | CancelClosed | CancelBeforeTurn | NotAssigned
  | NoTokens | DraftsInFlight | DraftsOnClosed | NotReadyToDecode | GuidedDrafts | DelimitedDrafts
  | SampledDraftsNeedTopK | DraftsNeedPlainScores | NoEngine | EngineWithoutDrafts | TooManyDrafts
  | BadDraftDistribution | StagedMoreThanProposed | AcceptedMoreThanStaged | InvalidTransition
  | SampledMoreThanProposed | PromoteWithoutToken | CompletionNotStaged | TooManyVisible | MirrorTooShort
  | MirrorOutOfSync | AuxiliaryPending | AuxiliaryRewind | BadTokenCount | CannotStagePrefix
  | SeedNotCheckpointed | FewerTokens | UnknownTurn | UnexpectedEnd | MissingRngCheckpoint.
Arguments SearchFailure {E GE} e.
Arguments StopFailure {E GE} e.
Arguments GuidanceFailure {E GE} e.
Arguments AppendTooLong {E GE}.
Arguments ZeroTurnMaximum {E GE}.
Arguments NoInputTokens {E GE}.
Arguments TurnIdsExhausted {E GE}.
Arguments BeginOnClosed {E GE}.
Arguments TurnNotComplete {E GE}.
Arguments NoMirrorCapacity {E GE}.
Arguments ResourcesRemain {E GE}.
Arguments ForeignRequest {E GE}.
Arguments CancelClosed {E GE}.
Arguments CancelBeforeTurn {E GE}.
Arguments NotAssigned {E GE}.
Arguments NoTokens {E GE}.
Arguments DraftsInFlight {E GE}.
Arguments DraftsOnClosed {E GE}.
Arguments NotReadyToDecode {E GE}.
Arguments GuidedDrafts {E GE}.
Arguments DelimitedDrafts {E GE}.
Arguments SampledDraftsNeedTopK {E GE}.
Arguments DraftsNeedPlainScores {E GE}.
Arguments NoEngine {E GE}.
Arguments EngineWithoutDrafts {E GE}.
Arguments TooManyDrafts {E GE}.
Arguments BadDraftDistribution {E GE}.
Arguments StagedMoreThanProposed {E GE}.
Arguments AcceptedMoreThanStaged {E GE}.
Arguments InvalidTransition {E GE}.
Arguments SampledMoreThanProposed {E GE}.
Arguments PromoteWithoutToken {E GE}.
Arguments CompletionNotStaged {E GE}.
Arguments TooManyVisible {E GE}.
Arguments MirrorTooShort {E GE}.
Arguments MirrorOutOfSync {E GE}.
Arguments AuxiliaryPending {E GE}.
Arguments AuxiliaryRewind {E GE}.
Arguments BadTokenCount {E GE}.
Arguments CannotStagePrefix {E GE}.
Arguments SeedNotCheckpointed {E GE}.
Arguments FewerTokens {E GE}.
Arguments UnknownTurn {E GE}.
Arguments UnexpectedEnd {E GE}.
Arguments MissingRngCheckpoint {E GE}.

#[global] Instance set_turn_policy : Setter turn_policy_ := fun v t =>
  mkTurn v (turn_prompt_tokens_ t) (turn_generated_tokens_ t) (current_turn_id_ t) (next_turn_id_ t)
    (has_current_turn_ t) (turn_id_exhausted_ t) (turn_boundaries_ t) (finish_reason_ t)
    (matched_stop_string_index_ t).
#[global] Instance set_turn_prompt_tokens : Setter turn_prompt_tokens_ := fun v t =>
  mkTurn (turn_policy_ t) v (turn_generated_tokens_ t) (current_turn_id_ t) (next_turn_id_ t) (has_current_turn_ t)
    (turn_id_exhausted_ t) (turn_boundaries_ t) (finish_reason_ t) (matched_stop_string_index_ t).
#[global] Instance set_turn_generated_tokens : Setter turn_generated_tokens_ := fun v t =>
  mkTurn (turn_policy_ t) (turn_prompt_tokens_ t) v (current_turn_id_ t) (next_turn_id_ t) (has_current_turn_ t)
    (turn_id_exhausted_ t) (turn_boundaries_ t) (finish_reason_ t) (matched_stop_string_index_ t).
#[global] Instance set_current_turn_id : Setter current_turn_id_ := fun v t =>
  mkTurn (turn_policy_ t) (turn_prompt_tokens_ t) (turn_generated_tokens_ t) v (next_turn_id_ t)
    (has_current_turn_ t) (turn_id_exhausted_ t) (turn_boundaries_ t) (finish_reason_ t)
    (matched_stop_string_index_ t).
#[global] Instance set_next_turn_id : Setter next_turn_id_ := fun v t =>
  mkTurn (turn_policy_ t) (turn_prompt_tokens_ t) (turn_generated_tokens_ t) (current_turn_id_ t) v
    (has_current_turn_ t) (turn_id_exhausted_ t) (turn_boundaries_ t) (finish_reason_ t)
    (matched_stop_string_index_ t).
#[global] Instance set_has_current_turn : Setter has_current_turn_ := fun v t =>
  mkTurn (turn_policy_ t) (turn_prompt_tokens_ t) (turn_generated_tokens_ t) (current_turn_id_ t) (next_turn_id_ t) v
    (turn_id_exhausted_ t) (turn_boundaries_ t) (finish_reason_ t) (matched_stop_string_index_ t).
#[global] Instance set_turn_id_exhausted : Setter turn_id_exhausted_ := fun v t =>
  mkTurn (turn_policy_ t) (turn_prompt_tokens_ t) (turn_generated_tokens_ t) (current_turn_id_ t) (next_turn_id_ t)
    (has_current_turn_ t) v (turn_boundaries_ t) (finish_reason_ t) (matched_stop_string_index_ t).
#[global] Instance set_turn_boundaries : Setter turn_boundaries_ := fun v t =>
  mkTurn (turn_policy_ t) (turn_prompt_tokens_ t) (turn_generated_tokens_ t) (current_turn_id_ t) (next_turn_id_ t)
    (has_current_turn_ t) (turn_id_exhausted_ t) v (finish_reason_ t) (matched_stop_string_index_ t).
#[global] Instance set_finish_reason : Setter finish_reason_ := fun v t =>
  mkTurn (turn_policy_ t) (turn_prompt_tokens_ t) (turn_generated_tokens_ t) (current_turn_id_ t) (next_turn_id_ t)
    (has_current_turn_ t) (turn_id_exhausted_ t) (turn_boundaries_ t) v (matched_stop_string_index_ t).
#[global] Instance set_matched_stop_string_index : Setter matched_stop_string_index_ := fun v t =>
  mkTurn (turn_policy_ t) (turn_prompt_tokens_ t) (turn_generated_tokens_ t) (current_turn_id_ t) (next_turn_id_ t)
    (has_current_turn_ t) (turn_id_exhausted_ t) (turn_boundaries_ t) (finish_reason_ t) v.

#[global] Instance set_draft_tokens : Setter draft_tokens_ := fun v d =>
  mkDrafts v (draft_token_distributions_ d) (staged_draft_count_ d) (accepted_draft_count_ d)
    (evaluated_draft_count_ d) (draft_verification_ d).
#[global] Instance set_draft_token_distributions : Setter draft_token_distributions_ := fun v d =>
  mkDrafts (draft_tokens_ d) v (staged_draft_count_ d) (accepted_draft_count_ d) (evaluated_draft_count_ d)
    (draft_verification_ d).
#[global] Instance set_staged_draft_count : Setter staged_draft_count_ := fun v d =>
  mkDrafts (draft_tokens_ d) (draft_token_distributions_ d) v (accepted_draft_count_ d) (evaluated_draft_count_ d)
    (draft_verification_ d).
#[global] Instance set_accepted_draft_count : Setter accepted_draft_count_ := fun v d =>
  mkDrafts (draft_tokens_ d) (draft_token_distributions_ d) (staged_draft_count_ d) v (evaluated_draft_count_ d)
    (draft_verification_ d).
#[global] Instance set_evaluated_draft_count : Setter evaluated_draft_count_ := fun v d =>
  mkDrafts (draft_tokens_ d) (draft_token_distributions_ d) (staged_draft_count_ d) (accepted_draft_count_ d) v
    (draft_verification_ d).
#[global] Instance set_draft_verification : Setter draft_verification_ := fun v d =>
  mkDrafts (draft_tokens_ d) (draft_token_distributions_ d) (staged_draft_count_ d) (accepted_draft_count_ d)
    (evaluated_draft_count_ d) v.

#[global] Instance set_current_seed_basis : Setter current_seed_basis_ := fun v g =>
  mkSeeds v (pending_reseed_ g) (pending_reseed_applied_ g) (rng_ g) (draft_rng_ g).
#[global] Instance set_pending_reseed : Setter pending_reseed_ := fun v g =>
  mkSeeds (current_seed_basis_ g) v (pending_reseed_applied_ g) (rng_ g) (draft_rng_ g).
#[global] Instance set_pending_reseed_applied : Setter pending_reseed_applied_ := fun v g =>
  mkSeeds (current_seed_basis_ g) (pending_reseed_ g) v (rng_ g) (draft_rng_ g).
#[global] Instance set_rng : Setter rng_ := fun v g =>
  mkSeeds (current_seed_basis_ g) (pending_reseed_ g) (pending_reseed_applied_ g) v (draft_rng_ g).
#[global] Instance set_draft_rng : Setter draft_rng_ := fun v g =>
  mkSeeds (current_seed_basis_ g) (pending_reseed_ g) (pending_reseed_applied_ g) (rng_ g) v.

#[global] Instance set_processed_sequence_length : Setter processed_sequence_length_ := fun v q =>
  mkProgress v (adopted_prefix_length_ q) (turn_cached_prompt_tokens_ q) (prefix_adoption_staged_ q)
    (prompt_sequence_length_ q) (scheduled_token_count_ q).
#[global] Instance set_adopted_prefix_length : Setter adopted_prefix_length_ := fun v q =>
  mkProgress (processed_sequence_length_ q) v (turn_cached_prompt_tokens_ q) (prefix_adoption_staged_ q)
    (prompt_sequence_length_ q) (scheduled_token_count_ q).
#[global] Instance set_turn_cached_prompt_tokens : Setter turn_cached_prompt_tokens_ := fun v q =>
  mkProgress (processed_sequence_length_ q) (adopted_prefix_length_ q) v (prefix_adoption_staged_ q)
    (prompt_sequence_length_ q) (scheduled_token_count_ q).
#[global] Instance set_prefix_adoption_staged : Setter prefix_adoption_staged_ := fun v q =>
  mkProgress (processed_sequence_length_ q) (adopted_prefix_length_ q) (turn_cached_prompt_tokens_ q) v
    (prompt_sequence_length_ q) (scheduled_token_count_ q).
#[global] Instance set_prompt_sequence_length : Setter prompt_sequence_length_ := fun v q =>
  mkProgress (processed_sequence_length_ q) (adopted_prefix_length_ q) (turn_cached_prompt_tokens_ q)
    (prefix_adoption_staged_ q) v (scheduled_token_count_ q).
#[global] Instance set_scheduled_token_count : Setter scheduled_token_count_ := fun v q =>
  mkProgress (processed_sequence_length_ q) (adopted_prefix_length_ q) (turn_cached_prompt_tokens_ q)
    (prefix_adoption_staged_ q) (prompt_sequence_length_ q) v.

#[global] Instance set_completed_generation : Setter completed_generation := fun v v0 =>
  mkVerification v (eos v0) (stop_match_index v0).
#[global] Instance set_eos : Setter eos := fun v v0 =>
  mkVerification (completed_generation v0) v (stop_match_index v0).
#[global] Instance set_stop_match_index : Setter stop_match_index := fun v v0 =>
  mkVerification (completed_generation v0) (eos v0) v.

Section request.
Context {T E : Type} `{!Tokenizer T E} {G GE : Type} `{!ConstrainedLogitsProcessor G GE}.
Context {D : Type} `{!BatchedSampler D}.

(** What a transaction saves beside the checkpoint of the search. *)
Record Checkpoint : Type := mkCheckpoint
  { transaction_rng_ : mt19937;
    transaction_processed_sequence_length_ : Z;
    transaction_tokens_host_size_ : nat;
    guidance_transaction_checkpoint_ : option G;
    stop_controller_transaction_checkpoint_ : nat }.

Record Request : Type := mkRequest
  { request_id : N;                                  (* the address of the object *)
    status_ : RequestStatus;
    tokens_host_ : list Z;
    max_session_tokens_ : nat;
    prefill_chunk_size_ : option nat;                (* params_->search.chunk_size *)
    params_ : option GeneratorParams;
    search_ : option GreedySearch_Cpu;
    guidance_logits_processor_ : option G;
    stop_controller_ : option (StopStringController (T := T));
    batched_sampler_state_ : option D;
    engine_ : option N;
    engine_identity_ : option N;
    needs_replay_after_rewind_ : bool;
    turn : Turn;
    drafts : Drafts;
    seeds : Seeds;
    checkpoint : Checkpoint;
    progress : Progress }.

#[global] Instance set_transaction_rng : Setter transaction_rng_ := fun v x =>
  mkCheckpoint v (transaction_processed_sequence_length_ x) (transaction_tokens_host_size_ x)
    (guidance_transaction_checkpoint_ x) (stop_controller_transaction_checkpoint_ x).
#[global] Instance set_transaction_processed_sequence_length : Setter transaction_processed_sequence_length_ := fun v x =>
  mkCheckpoint (transaction_rng_ x) v (transaction_tokens_host_size_ x) (guidance_transaction_checkpoint_ x)
    (stop_controller_transaction_checkpoint_ x).
#[global] Instance set_transaction_tokens_host_size : Setter transaction_tokens_host_size_ := fun v x =>
  mkCheckpoint (transaction_rng_ x) (transaction_processed_sequence_length_ x) v (guidance_transaction_checkpoint_ x)
    (stop_controller_transaction_checkpoint_ x).
#[global] Instance set_guidance_transaction_checkpoint : Setter guidance_transaction_checkpoint_ := fun v x =>
  mkCheckpoint (transaction_rng_ x) (transaction_processed_sequence_length_ x) (transaction_tokens_host_size_ x) v
    (stop_controller_transaction_checkpoint_ x).
#[global] Instance set_stop_controller_transaction_checkpoint : Setter stop_controller_transaction_checkpoint_ := fun v x =>
  mkCheckpoint (transaction_rng_ x) (transaction_processed_sequence_length_ x) (transaction_tokens_host_size_ x)
    (guidance_transaction_checkpoint_ x) v.
#[global] Instance set_request_id : Setter request_id := fun v r =>
  mkRequest v (status_ r) (tokens_host_ r) (max_session_tokens_ r) (prefill_chunk_size_ r) (params_ r) (search_ r)
    (guidance_logits_processor_ r) (stop_controller_ r) (batched_sampler_state_ r) (engine_ r) (engine_identity_ r)
    (needs_replay_after_rewind_ r) (turn r) (drafts r) (seeds r) (checkpoint r) (progress r).
#[global] Instance set_status : Setter status_ := fun v r =>
  mkRequest (request_id r) v (tokens_host_ r) (max_session_tokens_ r) (prefill_chunk_size_ r) (params_ r) (search_ r)
    (guidance_logits_processor_ r) (stop_controller_ r) (batched_sampler_state_ r) (engine_ r) (engine_identity_ r)
    (needs_replay_after_rewind_ r) (turn r) (drafts r) (seeds r) (checkpoint r) (progress r).
#[global] Instance set_tokens_host : Setter tokens_host_ := fun v r =>
  mkRequest (request_id r) (status_ r) v (max_session_tokens_ r) (prefill_chunk_size_ r) (params_ r) (search_ r)
    (guidance_logits_processor_ r) (stop_controller_ r) (batched_sampler_state_ r) (engine_ r) (engine_identity_ r)
    (needs_replay_after_rewind_ r) (turn r) (drafts r) (seeds r) (checkpoint r) (progress r).
#[global] Instance set_max_session_tokens : Setter max_session_tokens_ := fun v r =>
  mkRequest (request_id r) (status_ r) (tokens_host_ r) v (prefill_chunk_size_ r) (params_ r) (search_ r)
    (guidance_logits_processor_ r) (stop_controller_ r) (batched_sampler_state_ r) (engine_ r) (engine_identity_ r)
    (needs_replay_after_rewind_ r) (turn r) (drafts r) (seeds r) (checkpoint r) (progress r).
#[global] Instance set_prefill_chunk_size : Setter prefill_chunk_size_ := fun v r =>
  mkRequest (request_id r) (status_ r) (tokens_host_ r) (max_session_tokens_ r) v (params_ r) (search_ r)
    (guidance_logits_processor_ r) (stop_controller_ r) (batched_sampler_state_ r) (engine_ r) (engine_identity_ r)
    (needs_replay_after_rewind_ r) (turn r) (drafts r) (seeds r) (checkpoint r) (progress r).
#[global] Instance set_params : Setter params_ := fun v r =>
  mkRequest (request_id r) (status_ r) (tokens_host_ r) (max_session_tokens_ r) (prefill_chunk_size_ r) v (search_ r)
    (guidance_logits_processor_ r) (stop_controller_ r) (batched_sampler_state_ r) (engine_ r) (engine_identity_ r)
    (needs_replay_after_rewind_ r) (turn r) (drafts r) (seeds r) (checkpoint r) (progress r).
#[global] Instance set_search : Setter search_ := fun v r =>
  mkRequest (request_id r) (status_ r) (tokens_host_ r) (max_session_tokens_ r) (prefill_chunk_size_ r) (params_ r) v
    (guidance_logits_processor_ r) (stop_controller_ r) (batched_sampler_state_ r) (engine_ r) (engine_identity_ r)
    (needs_replay_after_rewind_ r) (turn r) (drafts r) (seeds r) (checkpoint r) (progress r).
#[global] Instance set_guidance_logits_processor : Setter guidance_logits_processor_ := fun v r =>
  mkRequest (request_id r) (status_ r) (tokens_host_ r) (max_session_tokens_ r) (prefill_chunk_size_ r) (params_ r)
    (search_ r) v (stop_controller_ r) (batched_sampler_state_ r) (engine_ r) (engine_identity_ r)
    (needs_replay_after_rewind_ r) (turn r) (drafts r) (seeds r) (checkpoint r) (progress r).
#[global] Instance set_stop_controller : Setter stop_controller_ := fun v r =>
  mkRequest (request_id r) (status_ r) (tokens_host_ r) (max_session_tokens_ r) (prefill_chunk_size_ r) (params_ r)
    (search_ r) (guidance_logits_processor_ r) v (batched_sampler_state_ r) (engine_ r) (engine_identity_ r)
    (needs_replay_after_rewind_ r) (turn r) (drafts r) (seeds r) (checkpoint r) (progress r).
#[global] Instance set_batched_sampler_state : Setter batched_sampler_state_ := fun v r =>
  mkRequest (request_id r) (status_ r) (tokens_host_ r) (max_session_tokens_ r) (prefill_chunk_size_ r) (params_ r)
    (search_ r) (guidance_logits_processor_ r) (stop_controller_ r) v (engine_ r) (engine_identity_ r)
    (needs_replay_after_rewind_ r) (turn r) (drafts r) (seeds r) (checkpoint r) (progress r).
#[global] Instance set_engine : Setter engine_ := fun v r =>
  mkRequest (request_id r) (status_ r) (tokens_host_ r) (max_session_tokens_ r) (prefill_chunk_size_ r) (params_ r)
    (search_ r) (guidance_logits_processor_ r) (stop_controller_ r) (batched_sampler_state_ r) v (engine_identity_ r)
    (needs_replay_after_rewind_ r) (turn r) (drafts r) (seeds r) (checkpoint r) (progress r).
#[global] Instance set_engine_identity : Setter engine_identity_ := fun v r =>
  mkRequest (request_id r) (status_ r) (tokens_host_ r) (max_session_tokens_ r) (prefill_chunk_size_ r) (params_ r)
    (search_ r) (guidance_logits_processor_ r) (stop_controller_ r) (batched_sampler_state_ r) (engine_ r) v
    (needs_replay_after_rewind_ r) (turn r) (drafts r) (seeds r) (checkpoint r) (progress r).
#[global] Instance set_needs_replay_after_rewind : Setter needs_replay_after_rewind_ := fun v r =>
  mkRequest (request_id r) (status_ r) (tokens_host_ r) (max_session_tokens_ r) (prefill_chunk_size_ r) (params_ r)
    (search_ r) (guidance_logits_processor_ r) (stop_controller_ r) (batched_sampler_state_ r) (engine_ r)
    (engine_identity_ r) v (turn r) (drafts r) (seeds r) (checkpoint r) (progress r).
#[global] Instance set_turn : Setter turn := fun v r =>
  mkRequest (request_id r) (status_ r) (tokens_host_ r) (max_session_tokens_ r) (prefill_chunk_size_ r) (params_ r)
    (search_ r) (guidance_logits_processor_ r) (stop_controller_ r) (batched_sampler_state_ r) (engine_ r)
    (engine_identity_ r) (needs_replay_after_rewind_ r) v (drafts r) (seeds r) (checkpoint r) (progress r).
#[global] Instance set_drafts : Setter drafts := fun v r =>
  mkRequest (request_id r) (status_ r) (tokens_host_ r) (max_session_tokens_ r) (prefill_chunk_size_ r) (params_ r)
    (search_ r) (guidance_logits_processor_ r) (stop_controller_ r) (batched_sampler_state_ r) (engine_ r)
    (engine_identity_ r) (needs_replay_after_rewind_ r) (turn r) v (seeds r) (checkpoint r) (progress r).
#[global] Instance set_seeds : Setter seeds := fun v r =>
  mkRequest (request_id r) (status_ r) (tokens_host_ r) (max_session_tokens_ r) (prefill_chunk_size_ r) (params_ r)
    (search_ r) (guidance_logits_processor_ r) (stop_controller_ r) (batched_sampler_state_ r) (engine_ r)
    (engine_identity_ r) (needs_replay_after_rewind_ r) (turn r) (drafts r) v (checkpoint r) (progress r).
#[global] Instance set_checkpoint : Setter checkpoint := fun v r =>
  mkRequest (request_id r) (status_ r) (tokens_host_ r) (max_session_tokens_ r) (prefill_chunk_size_ r) (params_ r)
    (search_ r) (guidance_logits_processor_ r) (stop_controller_ r) (batched_sampler_state_ r) (engine_ r)
    (engine_identity_ r) (needs_replay_after_rewind_ r) (turn r) (drafts r) (seeds r) v (progress r).
#[global] Instance set_progress : Setter progress := fun v r =>
  mkRequest (request_id r) (status_ r) (tokens_host_ r) (max_session_tokens_ r) (prefill_chunk_size_ r) (params_ r)
    (search_ r) (guidance_logits_processor_ r) (stop_controller_ r) (batched_sampler_state_ r) (engine_ r)
    (engine_identity_ r) (needs_replay_after_rewind_ r) (turn r) (drafts r) (seeds r) (checkpoint r) v.

Abbreviation RError := (RequestError E GE).
Abbreviation RM := (M Request RError).

(** Fields one record down. *)
Definition in_turn (f : Turn -> Turn) : RM unit := modify (fun r => r <| turn := f (turn r) |>).
Definition in_drafts (f : Drafts -> Drafts) : RM unit := modify (fun r => r <| drafts := f (drafts r) |>).
Definition in_seeds (f : Seeds -> Seeds) : RM unit := modify (fun r => r <| seeds := f (seeds r) |>).
Definition in_checkpoint (f : Checkpoint -> Checkpoint) : RM unit := modify (fun r => r <| checkpoint := f (checkpoint r) |>).
Definition in_progress (f : Progress -> Progress) : RM unit := modify (fun r => r <| progress := f (progress r) |>).

(** Calls on the members behind pointers: a null pointer is undefined. *)
Definition on_search {A} (f : GeneratorParams -> M GreedySearch_Cpu SearchError A) : RM A := fun r =>
  match search_ r, params_ r with
  | Some s, Some p => let '(o, s') := f p s in (map_error SearchFailure o, r <| search_ := Some s' |>)
  | _, _ => (Undefined, r)
  end.

Definition read_search {A} (f : GreedySearch_Cpu -> A) : RM A := on_search (fun _ => gets f).

Definition on_stop {A} (f : M (StopStringController (T := T)) (ControllerError E) A) : RM A := fun r =>
  match stop_controller_ r with
  | Some c => let '(o, c') := f c in (map_error StopFailure o, r <| stop_controller_ := Some c' |>)
  | None => (Undefined, r)
  end.

(** [if (guidance_logits_processor_) guidance_logits_processor_->CommitTokens(tokens)] *)
Definition commit_guidance (tokens : list Z) : RM unit := fun r =>
  match guidance_logits_processor_ r with
  | Some g => let '(o, g') := CommitTokens tokens g in
              (map_error GuidanceFailure o, r <| guidance_logits_processor_ := Some g' |>)
  | None => (Ok tt, r)
  end.

Definition CurrentSequenceLength : RM Z := read_search (fun s => Z.of_nat (GetSequenceLength s)).

Definition CommittedSequenceLength : RM Z :=
  current ← CurrentSequenceLength;
  staged ← gets (fun r => staged_draft_count_ (drafts r));
  mret (current - Z.of_nat staged)%Z.

Definition IsPrefill (r : Request) : bool :=
  (processed_sequence_length_ (progress r) <? prompt_sequence_length_ (progress r))%Z.

(** ** Construction *)

Definition CreateRequestParams (vocab : nat) (eos_ids : list Z) (pad : Z) (max_session_tokens : nat) : GeneratorParams :=
  mkParams 1 1 max_session_tokens vocab eos_ids pad.

Definition make_Request (id : N) (model_search : Search) (vocab : nat) (eos_ids : list Z) (pad : Z)
    (chunk_size : option nat) (configured_seed : Z) (high low : N) (buffer : list Z) (max_session_tokens : nat) : Request :=
  let p := CreateRequestParams vocab eos_ids pad max_session_tokens in
  let basis := InitialSeedBasis configured_seed high low in
  mkRequest id Unassigned [] max_session_tokens chunk_size (Some p) (Some (make_GreedySearch_Cpu p buffer))
    None None None None None false
    (mkTurn (ResolveTurnPolicy model_search (mkTurnOptions None None None None None None None None))
       0 0 0 1 false false [] FinishNone (-1))
    no_drafts
    (mkSeeds basis None false (MakeHostRandomGenerator basis) (MakeDraftRandomGenerator basis))
    (mkCheckpoint (mkRng (SeedValue 5489) 0) 0 0 None 0)
    (mkProgress 0 0 0 false 0 0).

Definition AttachToEngine (engine : N) : RM unit := modify (fun r =>
  r <| engine_identity_ := Some engine |> <| engine_ := Some engine |>).

Definition BelongsTo (engine : N) (r : Request) : bool := bool_decide (engine_identity_ r = Some engine).
Definition IsAwaitingFirstTurn (r : Request) : bool := bool_decide (status_ r = Unassigned).
Definition IsRestartableCanceledTurn (r : Request) : bool :=
  bool_decide (finish_reason_ (turn r) = Canceled) && (processed_sequence_length_ (progress r) =? 0)%Z.

(** ** Admission of a turn *)

Definition ValidateAppendLength (max_session_tokens current_sequence_length token_count : nat) : RM unit :=
  throw_if ((max_session_tokens <=? current_sequence_length) ||
            (max_session_tokens - current_sequence_length <=? token_count)) AppendTooLong.

(** [tokens_host_.capacity()]: the constructor reserves the session limit. *)
Definition capacity (r : Request) : nat := max_session_tokens_ r.

Definition ValidateTurnAdmission (tokens : list Z) (max_generated : option N) : RM unit :=
  _ ← throw_if (bool_decide (max_generated = Some 0%N)) ZeroTurnMaximum;
  _ ← throw_if (bool_decide (tokens = [])) NoInputTokens;
  exhausted ← gets (fun r => turn_id_exhausted_ (turn r));
  _ ← throw_if exhausted TurnIdsExhausted;
  first_turn ← gets IsAwaitingFirstTurn;
  status ← gets status_;
  _ ← (if negb first_turn && negb (IsTurnComplete status)
       then _ ← throw_if (IsClosed status) BeginOnClosed; throw TurnNotComplete
       else mret tt);
  sequence_length ← (if (first_turn : bool) then mret 0 else current ← CurrentSequenceLength; mret (Z.to_nat current));
  limit ← gets max_session_tokens_;
  _ ← ValidateAppendLength limit sequence_length (length tokens);
  r ← gets id;
  throw_if (capacity r <? length (tokens_host_ r) + length tokens) NoMirrorCapacity.

Record RequestTurnAdmission : Type := mkAdmission
  { admission_status : RequestStatus;
    host_token_count : nat;
    admission_prompt_sequence_length : Z;
    admission_processed_sequence_length : Z;
    transaction_started : bool;
    policy : EffectiveTurnPolicy;
    pending_stop_controller : option (StopStringController (T := T));
    pending_guidance : option G }.

#[global] Instance set_admission_status : Setter admission_status := fun v a =>
  mkAdmission v (host_token_count a) (admission_prompt_sequence_length a) (admission_processed_sequence_length a)
    (transaction_started a) (policy a) (pending_stop_controller a) (pending_guidance a).
#[global] Instance set_host_token_count : Setter host_token_count := fun v a =>
  mkAdmission (admission_status a) v (admission_prompt_sequence_length a) (admission_processed_sequence_length a)
    (transaction_started a) (policy a) (pending_stop_controller a) (pending_guidance a).
#[global] Instance set_admission_prompt_sequence_length : Setter admission_prompt_sequence_length := fun v a =>
  mkAdmission (admission_status a) (host_token_count a) v (admission_processed_sequence_length a)
    (transaction_started a) (policy a) (pending_stop_controller a) (pending_guidance a).
#[global] Instance set_admission_processed_sequence_length : Setter admission_processed_sequence_length := fun v a =>
  mkAdmission (admission_status a) (host_token_count a) (admission_prompt_sequence_length a) v
    (transaction_started a) (policy a) (pending_stop_controller a) (pending_guidance a).
#[global] Instance set_transaction_started : Setter transaction_started := fun v a =>
  mkAdmission (admission_status a) (host_token_count a) (admission_prompt_sequence_length a)
    (admission_processed_sequence_length a) v (policy a) (pending_stop_controller a) (pending_guidance a).
#[global] Instance set_policy : Setter policy := fun v a =>
  mkAdmission (admission_status a) (host_token_count a) (admission_prompt_sequence_length a)
    (admission_processed_sequence_length a) (transaction_started a) v (pending_stop_controller a)
    (pending_guidance a).
#[global] Instance set_pending_stop_controller : Setter pending_stop_controller := fun v a =>
  mkAdmission (admission_status a) (host_token_count a) (admission_prompt_sequence_length a)
    (admission_processed_sequence_length a) (transaction_started a) (policy a) v (pending_guidance a).
#[global] Instance set_pending_guidance : Setter pending_guidance := fun v a =>
  mkAdmission (admission_status a) (host_token_count a) (admission_prompt_sequence_length a)
    (admission_processed_sequence_length a) (transaction_started a) (policy a) (pending_stop_controller a) v.

(** The four members every checkpoint of the request writes. *)
Definition save_locals (stop_checkpoint : Request -> nat) : RM unit := modify (fun r =>
  let x := checkpoint r in
  r <| checkpoint := mkCheckpoint (rng_ (seeds r)) (processed_sequence_length_ (progress r)) (length (tokens_host_ r))
                       (guidance_transaction_checkpoint_ x) (stop_checkpoint r) |>).

Definition stop_history (r : Request) : nat :=
  match stop_controller_ r with Some c => length (turn_tokens_ c) | None => 0 end.

(** [SaveStateForTransaction] and [SaveStateForExternalSamplingTransaction]: they differ
    in what the search checkpoints of the device state. *)
Definition SaveStateForTransaction : RM unit :=
  guidance_checkpoint ← gets guidance_logits_processor_;
  _ ← on_search (fun _ => StartTransactionCheckpoint);
  _ ← modify (fun r => r <| checkpoint := (checkpoint r) <| guidance_transaction_checkpoint_ := guidance_checkpoint |> |>);
  save_locals stop_history.

Definition SaveStateForNewTurnTransaction : RM unit :=
  r ← gets id;
  _ ← throw_if (bool_decide (is_Some (guidance_logits_processor_ r)) || bool_decide (is_Some (stop_controller_ r)) ||
                bool_decide (is_Some (pending_reseed_ (seeds r))) || pending_reseed_applied_ (seeds r)) ResourcesRemain;
  _ ← on_search (fun _ => StartTransactionCheckpoint);
  _ ← in_checkpoint (fun x => x <| guidance_transaction_checkpoint_ := None |>);
  save_locals (fun _ => 0).

(** The admission is passed by reference: what it holds when an exception leaves the
    operation is what the caller rolls back. *)
Abbreviation AM := (M (Request * RequestTurnAdmission) RError).

Definition on_request {A} (m : RM A) : AM A := fun '(r, admission) => let '(o, r') := m r in (o, (r', admission)).
Definition in_admission (f : RequestTurnAdmission -> RequestTurnAdmission) : AM unit :=
  modify (fun '(r, admission) => (r, f admission)).

Definition PrepareTurnAdmission (tokens : list Z) : AM unit :=
  first_turn ← on_request (gets IsAwaitingFirstTurn);
  r ← on_request (gets id);
  _ ← in_admission (fun a => a <| admission_status := status_ r |> <| host_token_count := length (tokens_host_ r) |>
        <| admission_prompt_sequence_length := prompt_sequence_length_ (progress r) |>
        <| admission_processed_sequence_length := processed_sequence_length_ (progress r) |>);
  _ ← on_request SaveStateForNewTurnTransaction;
  _ ← in_admission (fun a => a <| transaction_started := true |>);
  on_request (
    _ ← on_search (fun p => AppendTokens p tokens);
    _ ← modify (fun r => r <| tokens_host_ := tokens_host_ r ++ tokens |>);
    current ← CurrentSequenceLength;
    _ ← in_progress (fun q => q <| prompt_sequence_length_ := current |>);
    _ ← (if (first_turn : bool) then in_progress (fun q => q <| processed_sequence_length_ := 0%Z |>) else mret tt);
    modify (fun r => r <| status_ := Assigned |>)).

(** The reseed becomes durable with the step that consumed it. *)
Definition promote_seed (g : Seeds) : Seeds :=
  if pending_reseed_applied_ g then
    let basis := default (current_seed_basis_ g) (pending_reseed_ g) in
    mkSeeds basis None false (rng_ g) (MakeDraftRandomGenerator basis)
  else g.

Definition CommitStateForTransaction : RM unit :=
  _ ← on_search (fun _ => GreedySearch.CommitStateForTransaction);
  _ ← in_checkpoint (fun x => x <| guidance_transaction_checkpoint_ := None |>);
  g ← gets seeds;
  if pending_reseed_applied_ g && negb (bool_decide (is_Some (pending_reseed_ g))) then undefined
  else in_seeds promote_seed.

Definition two64_max : N := 18446744073709551615.

(** The turn takes the next identifier; the last one exhausts the space. *)
Definition begin_turn (prompt_tokens host_tokens : nat) (t : Turn) : Turn :=
  let t := t <| turn_prompt_tokens_ := prompt_tokens |> <| turn_generated_tokens_ := 0 |>
             <| current_turn_id_ := next_turn_id_ t |> <| has_current_turn_ := true |>
             <| turn_boundaries_ := turn_boundaries_ t ++ [mkBoundary (next_turn_id_ t) host_tokens] |> in
  let t := if (next_turn_id_ t =? two64_max)%N then t <| turn_id_exhausted_ := true |>
           else t <| next_turn_id_ := (next_turn_id_ t + 1)%N |> in
  t <| finish_reason_ := FinishNone |> <| matched_stop_string_index_ := (-1)%Z |>.

Definition CommitTurnAdmission (seed : option N) : AM N :=
  a ← gets snd;
  _ ← on_request CommitStateForTransaction;
  _ ← on_request (
    _ ← modify (fun r => r <| stop_controller_ := pending_stop_controller a |>);
    _ ← in_checkpoint (fun x => x <| stop_controller_transaction_checkpoint_ := 0 |>);
    _ ← modify (fun r => r <| guidance_logits_processor_ := pending_guidance a |>);
    _ ← in_checkpoint (fun x => x <| guidance_transaction_checkpoint_ := None |>);
    _ ← in_turn (fun t => t <| turn_policy_ := policy a |>);
    _ ← in_progress (fun q => q <| adopted_prefix_length_ := 0 |> <| turn_cached_prompt_tokens_ := 0 |>);
    _ ← in_seeds (fun g => g <| pending_reseed_ := seed |> <| pending_reseed_applied_ := false |>);
    host ← gets (fun r => length (tokens_host_ r));
    in_turn (begin_turn (host - host_token_count a) (host_token_count a)));
  _ ← in_admission (fun a => a <| transaction_started := false |> <| pending_stop_controller := None |>
                              <| pending_guidance := None |>);
  on_request (gets (fun r => current_turn_id_ (turn r))).

(** ** Rolling a transaction back *)

(** [tokens_host_.resize(n)]: growing appends zeros. *)
Definition resize (n : nat) (l : list Z) : list Z := take n l ++ replicate (n - length l) 0%Z.

(** The members [QueueStateRestoreForTransaction] and [RestoreStateForTransaction] reset. *)
Definition restore_locals (r : Request) : Request :=
  let x := checkpoint r in
  r <| seeds := (seeds r) <| rng_ := transaction_rng_ x |> <| pending_reseed_applied_ := false |> |>
    <| progress := (progress r) <| processed_sequence_length_ := transaction_processed_sequence_length_ x |>
                              <| scheduled_token_count_ := 0 |> |>
    <| tokens_host_ := resize (transaction_tokens_host_size_ x) (tokens_host_ r) |>
    <| drafts := (drafts r) <| staged_draft_count_ := 0 |> <| accepted_draft_count_ := 0 |>
                          <| evaluated_draft_count_ := 0 |> <| draft_verification_ := no_verification |> |>.

(** [guidance_logits_processor_ = std::move(guidance_transaction_checkpoint_)] *)
Definition restore_guidance : RM unit := modify (fun r =>
  match guidance_transaction_checkpoint_ (checkpoint r) with
  | Some g => r <| guidance_logits_processor_ := Some g |>
                <| checkpoint := (checkpoint r) <| guidance_transaction_checkpoint_ := None |> |>
  | None => r
  end).

Definition restore_stop : RM unit :=
  stop ← gets stop_controller_;
  match stop with
  | Some _ => k ← gets (fun r => stop_controller_transaction_checkpoint_ (checkpoint r)); on_stop (RollbackTo k)
  | None => mret tt
  end.

Definition RestoreStateForTransaction : RM unit :=
  _ ← on_search (fun _ => GreedySearch.RestoreStateForTransaction);
  _ ← modify restore_locals;
  _ ← restore_guidance;
  restore_stop.

Definition QueueStateRestoreForTransaction : RM unit :=
  _ ← on_search (fun _ => GreedySearch.QueueStateRestoreForTransaction);
  modify restore_locals.

Definition CompleteStateRestoreForTransaction : RM unit :=
  _ ← on_search (fun _ => GreedySearch.CompleteStateRestoreForTransaction);
  _ ← restore_guidance;
  restore_stop.

Definition RollbackTurnAdmission : AM unit :=
  a ← gets snd;
  if negb (transaction_started a) then mret tt
  else
    _ ← on_request (
      _ ← modify (fun r => r <| status_ := admission_status a |>
                             <| tokens_host_ := resize (host_token_count a) (tokens_host_ r) |>
                             <| progress := (progress r) <| prompt_sequence_length_ := admission_prompt_sequence_length a |>
                                  <| processed_sequence_length_ := admission_processed_sequence_length a |> |>);
      RestoreStateForTransaction);
    in_admission (fun a => a <| transaction_started := false |>).

(** ** The end of a turn *)

Definition ReleaseTurnResources : RM unit :=
  _ ← modify (fun r => r <| stop_controller_ := None |>);
  _ ← in_checkpoint (fun x => x <| stop_controller_transaction_checkpoint_ := 0 |>
                              <| guidance_transaction_checkpoint_ := None |>);
  _ ← modify (fun r => r <| guidance_logits_processor_ := None |>);
  _ ← in_drafts (fun _ => no_drafts);
  in_seeds (fun g => g <| pending_reseed_ := None |> <| pending_reseed_applied_ := false |>).

Definition CanCancelFromEngine (engine turn_id : N) : RM bool :=
  r ← gets id;
  _ ← throw_if (negb (BelongsTo engine r)) ForeignRequest;
  _ ← throw_if (IsClosed (status_ r)) CancelClosed;
  _ ← throw_if (negb (has_current_turn_ (turn r))) CancelBeforeTurn;
  mret ((turn_id =? current_turn_id_ (turn r))%N && negb (IsTurnComplete (status_ r)) && IsExecutable (status_ r)).

Record RequestTurnCounters : Type := mkCounters { prompt_tokens : nat; generated_tokens : nat }.

Definition CompleteCancelFromEngine : RM RequestTurnCounters :=
  _ ← modify (fun r => r <| status_ := TurnComplete |>);
  _ ← in_turn (fun t => t <| finish_reason_ := Canceled |> <| matched_stop_string_index_ := (-1)%Z |>);
  _ ← ReleaseTurnResources;
  gets (fun r => mkCounters (turn_prompt_tokens_ (turn r)) (turn_generated_tokens_ (turn r))).

Definition MarkClosedFromEngine : RM unit :=
  _ ← modify (fun r => r <| status_ := Closed |> <| needs_replay_after_rewind_ := false |>);
  _ ← in_checkpoint (fun x => x <| guidance_transaction_checkpoint_ := None |>);
  _ ← modify (fun r => r <| guidance_logits_processor_ := None |> <| stop_controller_ := None |>);
  _ ← in_checkpoint (fun x => x <| stop_controller_transaction_checkpoint_ := 0 |>);
  _ ← modify (fun r => r <| batched_sampler_state_ := None |>);
  in_drafts (fun _ => no_drafts).

Definition CompleteClose : RM unit :=
  _ ← modify (fun r => r <| engine_ := None |> <| engine_identity_ := None |> <| status_ := Closed |>);
  _ ← in_checkpoint (fun x => x <| guidance_transaction_checkpoint_ := None |>);
  _ ← modify (fun r => r <| guidance_logits_processor_ := None |> <| stop_controller_ := None |>);
  _ ← in_checkpoint (fun x => x <| stop_controller_transaction_checkpoint_ := 0 |>);
  _ ← modify (fun r => r <| batched_sampler_state_ := None |> <| search_ := None |> <| params_ := None |>);
  _ ← in_drafts (fun _ => no_drafts);
  _ ← modify (fun r => r <| tokens_host_ := [] |>);
  in_turn (fun t => t <| turn_boundaries_ := [] |>).

Definition CompleteCloseFromEngine : RM unit := _ ← MarkClosedFromEngine; CompleteClose.

Definition MarkFailedFromEngine : RM unit :=
  _ ← in_turn (fun t => t <| finish_reason_ := Failed |>);
  _ ← modify (fun r => r <| needs_replay_after_rewind_ := false |>);
  in_turn (fun t => t <| matched_stop_string_index_ := (-1)%Z |>).

Definition CompleteFailedTurnFromEngine : RM unit :=
  _ ← modify (fun r => r <| status_ := TurnComplete |>);
  _ ← in_turn (fun t => t <| finish_reason_ := Failed |>);
  _ ← modify (fun r => r <| needs_replay_after_rewind_ := false |>);
  _ ← in_turn (fun t => t <| matched_stop_string_index_ := (-1)%Z |>);
  ReleaseTurnResources.

Definition Schedule : RM unit :=
  status ← gets status_;
  _ ← throw_if (negb (bool_decide (status = Assigned))) NotAssigned;
  s ← gets search_;
  _ ← (if negb (bool_decide (is_Some s)) then throw NoTokens
       else current ← CurrentSequenceLength; throw_if (current =? 0)%Z NoTokens);
  modify (fun r => r <| status_ := Active |>).

(** ** Speculative drafts *)

Definition TurnEosFloor (r : Request) : Z :=
  if (min_generated_tokens (turn_policy_ (turn r)) =? 0)%N then 0%Z
  else (prompt_sequence_length_ (progress r) + Z.of_N (min_generated_tokens (turn_policy_ (turn r))))%Z.

Definition RemainingTurnTokenBudget (r : Request) : option nat :=
  limit ← max_generated_tokens (turn_policy_ (turn r));
  Some (N.to_nat limit - turn_generated_tokens_ (turn r)).

Definition DraftTokenValidationError (r : Request) : option RError :=
  let t := turn_policy_ (turn r) in
  match guidance_logits_processor_ r with
  | Some g => if negb (bool_decide (is_Some (DelimitedOpeningToken g))) then Some GuidedDrafts
              else if IsDelimitedActive g then Some DelimitedDrafts
              else if negb (IsGreedy t) && (top_k t <=? 0)%Z then Some SampledDraftsNeedTopK
              else if negb (SFeqb (repetition_penalty t) one32) || (0 <? no_repeat_ngram_size t)%Z
                   then Some DraftsNeedPlainScores else None
  | None => if negb (IsGreedy t) && (top_k t <=? 0)%Z then Some SampledDraftsNeedTopK
            else if negb (SFeqb (repetition_penalty t) one32) || (0 <? no_repeat_ngram_size t)%Z
                 then Some DraftsNeedPlainScores else None
  end.

Definition HasDelimitedGuidance (r : Request) : bool :=
  match guidance_logits_processor_ r with Some g => bool_decide (is_Some (DelimitedOpeningToken g)) | None => false end.

Definition HasGuidance (r : Request) : bool :=
  match guidance_logits_processor_ r with
  | Some g => negb (HasDelimitedGuidance r) || IsDelimitedActive g
  | None => false
  end.

(** The tokens before the first opening marker. *)
Fixpoint before_marker (opener : Z) (tokens : list Z) : list Z :=
  match tokens with
  | [] => []
  | t :: rest => if (t =? opener)%Z then [] else t :: before_marker opener rest
  end.

Definition SetDraftTokens (max_drafts : nat) (tokens : list Z) : RM unit :=
  r ← gets id;
  _ ← throw_if (negb (staged_draft_count_ (drafts r) =? 0)) DraftsInFlight;
  _ ← throw_if (IsClosed (status_ r)) DraftsOnClosed;
  match tokens with
  | [] => in_drafts (fun d => d <| draft_tokens_ := [] |> <| draft_token_distributions_ := [] |>)
  | _ =>
    _ ← throw_if (negb (IsExecuting (status_ r)) || IsPrefill r) NotReadyToDecode;
    _ ← (match DraftTokenValidationError r with Some e => throw e | None => mret tt end);
    _ ← throw_if (negb (bool_decide (is_Some (engine_ r)))) NoEngine;
    _ ← throw_if (max_drafts =? 0) EngineWithoutDrafts;
    _ ← throw_if (max_drafts <? length tokens) TooManyDrafts;
    let tokens := match guidance_logits_processor_ r with
                  | Some g => match DelimitedOpeningToken g with Some o => before_marker o tokens | None => tokens end
                  | None => tokens
                  end in
    current ← CurrentSequenceLength;
    _ ← ValidateAppendLength (max_session_tokens_ r) (Z.to_nat current) (length tokens);
    _ ← throw_if (capacity r <? length (tokens_host_ r) + length tokens) NoMirrorCapacity;
    in_drafts (fun d => d <| draft_tokens_ := tokens |> <| draft_token_distributions_ := [] |>)
  end.

Definition bad_distribution (d : TargetTokenSelection) : bool :=
  bool_decide (indices d = []) || negb (length (indices d) =? length (probs d)).

(** [SetDraftTokenDistributions]: a token is drawn from every distribution on the draft
    stream; the tokens and the generator words each takes are arguments. *)
Definition SetDraftTokenDistributions (max_drafts : nat) (distributions : list (TargetTokenSelection * (Z * N))) : RM unit :=
  _ ← for_each (fun '(distribution, (_, words)) =>
        _ ← throw_if (bad_distribution distribution) BadDraftDistribution;
        in_seeds (fun g => g <| draft_rng_ := draw words (draft_rng_ g) |>)) distributions;
  _ ← SetDraftTokens max_drafts (fst ∘ snd <$> distributions);
  in_drafts (fun d => d <| draft_token_distributions_ := take (length (draft_tokens_ d)) (fst <$> distributions) |>).

Definition SetSampledDraftTokens (max_drafts : nat) (tokens : list Z) (distributions : list TargetTokenSelection) : RM unit :=
  _ ← throw_if (negb (length tokens =? length distributions)) BadDraftDistribution;
  _ ← throw_if (existsb bad_distribution distributions) BadDraftDistribution;
  _ ← SetDraftTokens max_drafts tokens;
  in_drafts (fun d => d <| draft_token_distributions_ := take (length (draft_tokens_ d)) distributions |>).

Definition StagedDraftTokens (r : Request) : list Z := take (staged_draft_count_ (drafts r)) (draft_tokens_ (drafts r)).

Definition IsStopToken (token : Z) : RM bool := fun r =>
  match params_ r with Some p => (Ok (contains (eos_token_id p) token), r) | None => (Undefined, r) end.

Definition AppendDraftsForTransaction (draft_count : nat) : RM unit :=
  if draft_count =? 0 then mret tt
  else
    d ← gets drafts;
    _ ← throw_if (negb (staged_draft_count_ d =? 0) || (length (draft_tokens_ d) <? draft_count)) StagedMoreThanProposed;
    let staged := take draft_count (draft_tokens_ d) in
    _ ← on_search (fun p => AppendTokens p staged);
    _ ← modify (fun r => r <| tokens_host_ := tokens_host_ r ++ staged |>);
    in_drafts (fun d => d <| staged_draft_count_ := draft_count |> <| accepted_draft_count_ := 0 |>
                          <| evaluated_draft_count_ := 0 |> <| draft_verification_ := no_verification |>).

(** [turn_policy_.max_generated_tokens && generated >= *turn_policy_.max_generated_tokens] *)
Definition turn_limit_reached (generated : nat) (r : Request) : bool :=
  match max_generated_tokens (turn_policy_ (turn r)) with
  | Some limit => (limit <=? N.of_nat generated)%N
  | None => false
  end.

Definition observe_stop (token : Z) : RM (option StopStringMatch) :=
  stop ← gets stop_controller_;
  match stop with Some _ => on_stop (ObserveToken token) | None => mret None end.

(** One accepted draft: it goes through the search, the mirror, the grammar and the stop
    controller; the result says whether verification ends with it. *)
Definition accept_draft (token : Z) : RM bool :=
  _ ← in_drafts (fun d => d <| evaluated_draft_count_ := evaluated_draft_count_ d + 1 |>);
  sequence_length_before ← CurrentSequenceLength;
  _ ← on_search (fun p => CommitToken p token);
  sequence_length_after ← CurrentSequenceLength;
  search_done ← read_search IsDone;
  stopped ← (if (sequence_length_after =? sequence_length_before + 1)%Z then
      _ ← modify (fun r => r <| tokens_host_ := tokens_host_ r ++ [token] |>);
      _ ← in_drafts (fun d => d <| staged_draft_count_ := staged_draft_count_ d + 1 |>
                                <| accepted_draft_count_ := accepted_draft_count_ d + 1 |>);
      _ ← commit_guidance [token];
      found ← observe_stop token;
      match found with
      | Some m => _ ← in_drafts (fun d => d <| draft_verification_ :=
                        mkVerification true (eos (draft_verification_ d)) (Z.of_nat (index m)) |>);
                  mret true
      | None => mret false
      end
    else if negb (sequence_length_after =? sequence_length_before)%Z || negb search_done then throw InvalidTransition
    else mret false);
  if (stopped : bool) then mret true
  else
    r ← gets id;
    is_eos ← IsStopToken token;
    if search_done || turn_limit_reached (turn_generated_tokens_ (turn r) + accepted_draft_count_ (drafts r)) r then
      _ ← in_drafts (fun d => d <| draft_verification_ :=
            mkVerification true (search_done && is_eos) (stop_match_index (draft_verification_ d)) |>);
      mret true
    else mret false.

Fixpoint accept_loop (tokens : list Z) : RM unit :=
  match tokens with
  | [] => mret tt
  | token :: rest => ended ← accept_draft token; if (ended : bool) then mret tt else accept_loop rest
  end.

Definition CommitAcceptedDraftsForTransaction (accepted_count : nat) : RM unit :=
  proposed_count ← gets (fun r => staged_draft_count_ (drafts r));
  _ ← throw_if (proposed_count <? accepted_count) AcceptedMoreThanStaged;
  current ← CurrentSequenceLength;
  let committed_length := Z.to_nat current - proposed_count in
  _ ← modify (fun r => r <| tokens_host_ := resize (length (tokens_host_ r) - proposed_count) (tokens_host_ r) |>);
  _ ← on_search (fun p => RewindTo p committed_length);
  _ ← in_drafts (fun d => d <| staged_draft_count_ := 0 |> <| accepted_draft_count_ := 0 |>
                            <| evaluated_draft_count_ := 0 |> <| draft_verification_ := no_verification |>);
  tokens ← gets (fun r => draft_tokens_ (drafts r));
  _ ← (if length tokens <? accepted_count then undefined else accept_loop (take accepted_count tokens));
  v ← gets (fun r => draft_verification_ (drafts r));
  if negb (completed_generation v) && (accepted_count <? proposed_count)
  then in_drafts (fun d => d <| evaluated_draft_count_ := evaluated_draft_count_ d + 1 |>) else mret tt.

Definition RewindDraftsForTransaction (accepted_count : nat) : RM unit :=
  staged ← gets (fun r => staged_draft_count_ (drafts r));
  _ ← throw_if (staged <? accepted_count) AcceptedMoreThanStaged;
  let rejected_count := staged - accepted_count in
  _ ← in_drafts (fun d => d <| accepted_draft_count_ := accepted_count |> <| evaluated_draft_count_ := accepted_count |>);
  if rejected_count =? 0 then mret tt
  else
    _ ← in_drafts (fun d => d <| staged_draft_count_ := accepted_count |>);
    _ ← modify (fun r => r <| tokens_host_ := resize (length (tokens_host_ r) - rejected_count) (tokens_host_ r) |>);
    current ← CurrentSequenceLength;
    on_search (fun p => RewindTo p (Z.to_nat current - rejected_count)).

Definition AppendAcceptedSampledToken (token : Z) : RM unit :=
  d ← gets drafts;
  _ ← throw_if (length (draft_tokens_ d) <=? accepted_draft_count_ d) SampledMoreThanProposed;
  _ ← modify (fun r => r <| tokens_host_ := tokens_host_ r ++ [token] |>);
  in_drafts (fun d => d <| staged_draft_count_ := staged_draft_count_ d + 1 |>
                        <| accepted_draft_count_ := accepted_draft_count_ d + 1 |>
                        <| evaluated_draft_count_ := evaluated_draft_count_ d + 1 |>).

Definition MarkFinalStageAsEvaluatedNonAcceptedDraft : RM unit :=
  in_drafts (fun d => d <| evaluated_draft_count_ := evaluated_draft_count_ d + 1 |>).

Definition DiscardStagedDrafts : RM unit :=
  staged ← gets (fun r => staged_draft_count_ (drafts r));
  _ ← modify (fun r => r <| tokens_host_ := resize (length (tokens_host_ r) - staged) (tokens_host_ r) |>);
  in_drafts (fun d => d <| staged_draft_count_ := 0 |> <| accepted_draft_count_ := 0 |>
                        <| evaluated_draft_count_ := 0 |> <| draft_verification_ := no_verification |>).

(** ** Progress *)

Definition Snapshot : RM RequestStateSnapshot :=
  current ← CommittedSequenceLength;
  r ← gets id;
  let t := turn r in
  mret (mkRequestState (request_id r) (status_ r) current (processed_sequence_length_ (progress r)) (IsPrefill r)
          (has_current_turn_ t) (current_turn_id_ t) (finish_reason_ t) (matched_stop_string_index_ t)).

Definition unprocessed : RM nat :=
  current ← CurrentSequenceLength;
  processed ← gets (fun r => processed_sequence_length_ (progress r));
  mret (Z.to_nat (current - processed)).

Definition ScheduledTokenCount : RM nat :=
  n ← unprocessed;
  scheduled ← gets (fun r => scheduled_token_count_ (progress r));
  mret (Nat.min scheduled n).

(** [sequence_positions.h]: a chunk of a prefill. *)
Definition chunk_of (unprocessed_count : nat) (chunk_size : option nat) : nat :=
  match chunk_size with
  | Some 0 | None => unprocessed_count
  | Some c => Nat.min unprocessed_count c
  end.

Definition ScheduleTokens : RM unit :=
  n ← unprocessed;
  chunk ← gets prefill_chunk_size_;
  in_progress (fun q => q <| scheduled_token_count_ := chunk_of n chunk |>).

Definition BindScheduledTokenCount (token_count : nat) : RM unit :=
  current ← CurrentSequenceLength;
  r ← gets id;
  let remaining := (current - processed_sequence_length_ (progress r) +
                    Z.of_nat (length (draft_tokens_ (drafts r)) - staged_draft_count_ (drafts r)))%Z in
  _ ← throw_if ((remaining <=? 0)%Z || (token_count =? 0) || (Z.to_nat remaining <? token_count)) BadTokenCount;
  in_progress (fun q => q <| scheduled_token_count_ := token_count |>).

Definition IsChunkComplete : RM bool :=
  current ← CurrentSequenceLength;
  scheduled ← ScheduledTokenCount;
  processed ← gets (fun r => processed_sequence_length_ (progress r));
  mret (current <=? processed + Z.of_nat scheduled)%Z.

Definition AdvanceChunk : RM unit :=
  scheduled ← ScheduledTokenCount;
  in_progress (fun q => q <| processed_sequence_length_ := (processed_sequence_length_ q + Z.of_nat scheduled)%Z |>).

Definition UnprocessedTokensCpu : RM (list Z) :=
  scheduled ← ScheduledTokenCount;
  r ← gets id;
  let start := Z.to_nat (processed_sequence_length_ (progress r)) in
  if length (tokens_host_ r) <? start + scheduled then throw MirrorOutOfSync
  else mret (take scheduled (drop start (tokens_host_ r))).

Definition UnprocessedTokens : RM (list Z) :=
  sequence ← read_search (GetSequence 0);
  scheduled ← ScheduledTokenCount;
  r ← gets id;
  let start := Z.to_nat (processed_sequence_length_ (progress r)) in
  if length sequence <? start + scheduled then undefined
  else mret (take scheduled (drop start sequence)).

Definition StagePrefixAdoption (adopted_tokens : nat) : RM unit :=
  r ← gets id;
  current ← CurrentSequenceLength;
  _ ← throw_if (negb (IsQueued (status_ r)) || prefix_adoption_staged_ (progress r) ||
                negb (processed_sequence_length_ (progress r) =? 0)%Z || (adopted_tokens =? 0) ||
                (Z.to_nat current <=? adopted_tokens) || (length (tokens_host_ r) <? adopted_tokens)) CannotStagePrefix;
  let turn_start := length (tokens_host_ r) - turn_prompt_tokens_ (turn r) in
  in_progress (fun q => q <| processed_sequence_length_ := Z.of_nat adopted_tokens |>
    <| adopted_prefix_length_ := adopted_tokens |>
    <| turn_cached_prompt_tokens_ := if turn_start <? adopted_tokens then adopted_tokens - turn_start else 0 |>
    <| prefix_adoption_staged_ := true |>).

Definition RollbackPrefixAdoption : RM unit :=
  staged ← gets (fun r => prefix_adoption_staged_ (progress r));
  if negb staged then mret tt
  else in_progress (fun q => mkProgress 0 0 0 false (prompt_sequence_length_ q) 0).

Definition CommitPrefixAdoption : RM unit := in_progress (fun q => q <| prefix_adoption_staged_ := false |>).

(** ** Auxiliary decoders *)

Definition auxiliary_ready (tokens : list Z) : RM unit :=
  r ← gets id;
  current ← (if negb (bool_decide (status_ r = Active)) || bool_decide (tokens = []) then throw AuxiliaryPending
             else CurrentSequenceLength);
  _ ← throw_if (negb (processed_sequence_length_ (progress r) =? current)%Z) AuxiliaryPending;
  ValidateAppendLength (max_session_tokens_ r) (Z.to_nat current) (length tokens).

Definition AppendTokensForAuxiliaryDecoder (tokens : list Z) : RM unit :=
  _ ← auxiliary_ready tokens;
  _ ← on_search (fun p => AppendTokens p tokens);
  modify (fun r => r <| tokens_host_ := tokens_host_ r ++ tokens |>).

(** The overload for device tokens mirrors them as a token that is not the pad token. *)
Definition AppendDeviceTokensForAuxiliaryDecoder (tokens : list Z) : RM unit :=
  _ ← auxiliary_ready tokens;
  _ ← on_search (fun p => AppendTokens p tokens);
  pad ← on_search (fun p => mret (pad_token_id p));
  let non_pad := if (pad =? 0)%Z then 1%Z else 0%Z in
  modify (fun r => r <| tokens_host_ := tokens_host_ r ++ replicate (length tokens) non_pad |>).

Definition CreateAuxiliaryDecoderRequest (engine : N) (tokens : list Z) : RM unit :=
  _ ← AttachToEngine engine;
  _ ← modify (fun r => r <| status_ := Active |>);
  _ ← AppendTokensForAuxiliaryDecoder tokens;
  current ← CurrentSequenceLength;
  in_progress (fun q => q <| prompt_sequence_length_ := current |>).

Definition RewindAuxiliaryDecoderTo (sequence_length : nat) : RM unit :=
  r ← gets id;
  current ← (if negb (bool_decide (status_ r = Active)) then throw AuxiliaryRewind else CurrentSequenceLength);
  _ ← throw_if (negb (processed_sequence_length_ (progress r) =? current)%Z ||
                (Z.to_nat (processed_sequence_length_ (progress r)) <? sequence_length)) AuxiliaryRewind;
  _ ← on_search (fun p => RewindTo p sequence_length);
  _ ← modify (fun r => r <| tokens_host_ := resize sequence_length (tokens_host_ r) |>);
  in_progress (fun q => q <| processed_sequence_length_ := Z.of_nat sequence_length |> <| scheduled_token_count_ := 0 |>).

Definition CommitAuxiliaryDecoderStep : RM unit :=
  scheduled ← ScheduledTokenCount;
  in_progress (fun q => q <| processed_sequence_length_ := (processed_sequence_length_ q + Z.of_nat scheduled)%Z |>
                          <| scheduled_token_count_ := 0 |>).

(** ** Generation *)

Record RequestStepResult : Type := mkStepResult
  { token : Z;
    token_appended : bool;
    done : bool;
    finish_reason : GenerationFinishReason;
    matched_stop_string_index : Z;
    visible_tokens : list Z }.          (* the leading visible_token_count entries *)

(** [StageVisibleTokens]: the tokens a step makes visible. *)
Definition StageVisibleTokens (committed_count : nat) (sampled_token : option Z) : RM (list Z) :=
  host ← gets tokens_host_;
  _ ← throw_if (N.to_nat kMaxGeneratedTokensPerStep <? committed_count + length (option_list sampled_token)) TooManyVisible;
  _ ← throw_if (length host <? committed_count) MirrorTooShort;
  mret (drop (length host - committed_count) host ++ option_list sampled_token).

(** The penalties leave their scratch buffer clean, so it is not part of the state. *)
Definition ApplyLogitsProcessors (logits : list float) (guidance_applied : bool) : RM unit :=
  r ← gets id;
  let logits := match guidance_logits_processor_ r with
                | Some g => if guidance_applied then logits else ProcessLogits logits g
                | None => logits
                end in
  current ← CurrentSequenceLength;
  sequence ← read_search (GetSequence 0);
  ids ← on_search (fun p => mret (eos_token_id p));
  let eos_floor := TurnEosFloor r in
  let only_eos := match guidance_logits_processor_ r with Some g => AllowsOnlyTokens ids g | None => false end in
  let logits := if (current <? eos_floor)%Z && negb only_eos then ApplyMinLength eos_floor current ids logits else logits in
  let logits := (ApplyRepetitionPenalty (repetition_penalty (turn_policy_ (turn r))) sequence [] logits).1 in
  on_search (fun _ => SetLogits (ApplyNoRepeatNgram (no_repeat_ngram_size (turn_policy_ (turn r))) sequence logits)).

(** [drawn] is the token a categorical draw yields and the generator words it takes. *)
Definition SelectNextToken (drawn : Z * N) : RM unit :=
  t ← gets (fun r => turn_policy_ (turn r));
  if IsGreedy t then on_search SelectTop
  else
    _ ← on_search (fun p => SampleRows p (fun _ => drawn.1));
    in_seeds (fun g => g <| rng_ := draw drawn.2 (rng_ g) |>).

Definition StageGeneration (sequence_length_before : Z) : RM RequestStepResult :=
  search_done ← read_search IsDone;
  current ← CurrentSequenceLength;
  next_tokens ← read_search next_tokens_;
  let appended := (sequence_length_before <? current)%Z in
  let token := default 0%Z (last next_tokens) in
  r ← gets id;
  let generated := turn_generated_tokens_ (turn r) + accepted_draft_count_ (drafts r) + (if appended then 1 else 0) in
  let limit := turn_limit_reached generated r in
  let context_limit := max_session_tokens_ r <=? Z.to_nat current in
  found ← (if appended then observe_stop token else mret None);
  is_eos ← IsStopToken token;
  let '(reason, matched) :=
    match found with
    | Some m => (StopString, Z.of_nat (index m))
    | None => (if search_done && negb (bool_decide (next_tokens = [])) && is_eos then EosToken
               else if limit then TurnLimit
               else if context_limit || search_done then ContextLimit else FinishNone, (-1)%Z)
    end in
  accepted ← gets (fun r => accepted_draft_count_ (drafts r));
  visible ← StageVisibleTokens accepted (if appended then Some token else None);
  _ ← (if appended then commit_guidance [token] else mret tt);
  mret (mkStepResult token appended (negb (bool_decide (reason = FinishNone))) reason matched visible).

Definition StageGenerationForTransaction (plan : RequestStepPlan) : RM RequestStepResult :=
  accepted ← gets (fun r => accepted_draft_count_ (drafts r));
  StageGeneration (sequence_length_before plan + Z.of_nat accepted)%Z.

Definition ApplyLogitsForTransaction (logits : list float) (guidance_applied : bool) (drawn : Z * N) : RM RequestStepResult :=
  before ← CurrentSequenceLength;
  _ ← ApplyLogitsProcessors logits guidance_applied;
  _ ← SelectNextToken drawn;
  StageGeneration before.

Definition StageDraftCompletionForTransaction : RM RequestStepResult :=
  r ← gets id;
  let v := draft_verification_ (drafts r) in
  _ ← throw_if (negb (completed_generation v)) CompletionNotStaged;
  let '(reason, matched) :=
    if (0 <=? stop_match_index v)%Z then (StopString, stop_match_index v)
    else (if turn_limit_reached (turn_generated_tokens_ (turn r) + accepted_draft_count_ (drafts r)) r then TurnLimit
          else if eos v then EosToken else ContextLimit, (-1)%Z) in
  visible ← StageVisibleTokens (accepted_draft_count_ (drafts r)) None;
  mret (mkStepResult 0 false true reason matched visible).

Definition PromoteFinalStageAsAcceptedDraft (result : RequestStepResult) : RM RequestStepResult :=
  _ ← throw_if (negb (token_appended result)) PromoteWithoutToken;
  _ ← AppendAcceptedSampledToken (token result);
  mret (mkStepResult (token result) false (done result) (finish_reason result) (matched_stop_string_index result)
          (visible_tokens result)).

Definition ApplyPendingSeedForTransaction (sampler : bool) (device_state_checkpointed : bool) : RM unit :=
  r ← gets id;
  match pending_reseed_ (seeds r) with
  | None => mret tt
  | Some seed =>
    let device_state := match batched_sampler_state_ r with
                        | Some d => if sampler && OwnsState d then Some d else None
                        | None => None
                        end in
    _ ← throw_if (bool_decide (is_Some device_state) && negb device_state_checkpointed) SeedNotCheckpointed;
    _ ← in_seeds (fun g => g <| rng_ := MakeHostRandomGenerator seed |>);
    _ ← modify (fun r => match device_state with
                         | Some d => r <| batched_sampler_state_ := Some (ReseedState seed d) |>
                         | None => r
                         end);
    in_seeds (fun g => g <| pending_reseed_applied_ := true |>)
  end.

Definition SamplingState : RM unit := modify (fun r =>
  match batched_sampler_state_ r with
  | Some d => if OwnsState d then r else r <| batched_sampler_state_ := Some (CreateState (current_seed_basis_ (seeds r))) |>
  | None => r <| batched_sampler_state_ := Some (CreateState (current_seed_basis_ (seeds r))) |>
  end).

Definition CommitSamplingState (state : option D) : RM unit := modify (fun r =>
  match state with Some d => r <| batched_sampler_state_ := Some d |> | None => r end).

Definition CommitStep (plan : RequestStepPlan) (result : RequestStepResult) : RM unit :=
  accepted_drafts ← gets (fun r => accepted_draft_count_ (drafts r));
  _ ← in_turn (fun t => t <| turn_generated_tokens_ := turn_generated_tokens_ t + accepted_drafts |>);
  _ ← (if token_appended result then
         _ ← modify (fun r => r <| tokens_host_ := tokens_host_ r ++ [token result] |>);
         in_turn (fun t => t <| turn_generated_tokens_ := turn_generated_tokens_ t + 1 |>)
       else mret tt);
  _ ← in_progress (fun q => q <| processed_sequence_length_ :=
        Z.of_N (u64_sub (target_cache_slots plan) (u64_sub (draft_token_count plan) (N.of_nat accepted_drafts))) |>);
  _ ← modify (fun r => r <| needs_replay_after_rewind_ := false |>
                         <| status_ := if done result then TurnComplete else Active |>);
  _ ← (if done result then
         _ ← in_turn (fun t => t <| finish_reason_ := finish_reason result |>
                                 <| matched_stop_string_index_ := matched_stop_string_index result |>);
         ReleaseTurnResources
       else mret tt);
  in_drafts (fun _ => no_drafts).

(** The non-transactional completion of static batching. *)
Definition CompleteGeneration : RM RequestStepResult :=
  next_tokens ← read_search next_tokens_;
  current ← CurrentSequenceLength;
  _ ← modify (fun r => r <| needs_replay_after_rewind_ := false |>);
  host ← gets (fun r => length (tokens_host_ r));
  new_tokens ← (if host <? Z.to_nat current then
      let count := Z.to_nat current - host in
      _ ← throw_if (length next_tokens <? count) FewerTokens;
      let new_tokens := drop (length next_tokens - count) next_tokens in
      _ ← modify (fun r => r <| tokens_host_ := tokens_host_ r ++ new_tokens |>);
      _ ← commit_guidance new_tokens;
      _ ← in_turn (fun t => t <| turn_generated_tokens_ := turn_generated_tokens_ t + count |>);
      mret new_tokens
    else mret []);
  r ← gets id;
  search_done ← read_search IsDone;
  is_eos ← IsStopToken (default 0%Z (last next_tokens));
  let limit := turn_limit_reached (turn_generated_tokens_ (turn r)) r in
  let context_limit := max_session_tokens_ r <=? Z.to_nat current in
  _ ← (if search_done || limit || context_limit then
         _ ← modify (fun r => r <| status_ := TurnComplete |>);
         _ ← in_turn (fun t => t <| finish_reason_ :=
               if search_done && negb (bool_decide (next_tokens = [])) && is_eos then EosToken
               else if limit then TurnLimit else ContextLimit |>);
         ReleaseTurnResources
       else mret tt);
  visible ← StageVisibleTokens (length new_tokens) None;
  r ← gets id;
  mret (mkStepResult (default 0%Z (last new_tokens)) (negb (length new_tokens =? 0)) (IsTurnComplete (status_ r))
          (finish_reason_ (turn r)) (-1) visible).

Definition PrepareGeneration (logits : list float) (guidance_applied : bool) : RM unit :=
  current ← CurrentSequenceLength;
  _ ← in_progress (fun q => q <| processed_sequence_length_ := current |>);
  ApplyLogitsProcessors logits guidance_applied.

Definition GenerateNextTokens (logits : list float) (guidance_applied : bool) (drawn : Z * N) : RM unit :=
  _ ← PrepareGeneration logits guidance_applied;
  SelectNextToken drawn.

(** ** Rewinding *)

Record RequestRewindState : Type := mkRewind
  { rewind_search : GreedySearch_Cpu;
    rewind_sequence_length : nat;
    retained_turn_count : nat }.

(** The boundary of a turn and its position. *)
Fixpoint find_boundary (turn_id : N) (i : nat) (l : list TurnBoundary) : option (nat * TurnBoundary) :=
  match l with
  | [] => None
  | b :: rest => if (boundary_turn_id b =? turn_id)%N then Some (i, b) else find_boundary turn_id (i + 1) rest
  end.

Definition PrepareRewindToStartOfTurn (turn_id : N) (buffer : list Z) : RM RequestRewindState :=
  r ← gets id;
  match find_boundary turn_id 0 (turn_boundaries_ (turn r)), params_ r with
  | None, _ => throw UnknownTurn
  | _, None => undefined
  | Some (position, b), Some p =>
    let n := boundary_sequence_length b in
    let fresh := make_GreedySearch_Cpu p buffer in
    if n =? 0 then mret (mkRewind fresh n position)
    else if length (tokens_host_ r) <? n then undefined
    else
      let '(o, s) := AppendTokens p (take n (tokens_host_ r)) fresh in
      _ ← lift (map_error SearchFailure o);
      mret (mkRewind s n position)
  end.

Definition CommitRewind (state : RequestRewindState) : RM unit :=
  _ ← modify (fun r => r <| search_ := Some (rewind_search state) |>
                         <| tokens_host_ := resize (rewind_sequence_length state) (tokens_host_ r) |>);
  _ ← in_turn (fun t => t <| turn_boundaries_ := take (retained_turn_count state) (turn_boundaries_ t) |>);
  _ ← in_progress (fun q => q <| processed_sequence_length_ := 0%Z |> <| prompt_sequence_length_ := 0%Z |>
                              <| scheduled_token_count_ := 0 |>);
  _ ← in_turn (fun t => t <| turn_prompt_tokens_ := 0 |> <| turn_generated_tokens_ := 0 |>);
  _ ← ReleaseTurnResources;
  modify (fun r => r <| needs_replay_after_rewind_ := true |>).

(** ** The step of one scheduled request

    The part [ScheduledRequests] plays for one request of a step, on the CPU search (which
    does not take part in batched sampling): binding the planned tokens, the checkpoint, the
    drafts, the verification of their rows, the staged result, and commit or rollback. *)

(** The checks of the [ScheduledRequests] constructor for an entry of the plan. *)
Definition bind_plan (entry : RequestStepPlan) : RM unit :=
  r ← gets id;
  _ ← throw_if (negb (IsExecutable (status_ r))) NotAssigned;
  _ ← throw_if (length (draft_tokens_ (drafts r)) <? N.to_nat (draft_token_count entry)) StagedMoreThanProposed;
  current ← CurrentSequenceLength;
  let remaining := (current - processed_sequence_length_ (progress r) + Z.of_N (draft_token_count entry))%Z in
  _ ← throw_if ((remaining <=? 0)%Z || (unprocessed_token_count entry =? 0)%N ||
                (Z.to_nat remaining <? N.to_nat (unprocessed_token_count entry))) BadTokenCount;
  BindScheduledTokenCount (N.to_nat (unprocessed_token_count entry)).

(** [try { m } catch (...) { handler (errors swallowed); rethrow }] *)
Definition or_rethrow {A} (m : RM A) (handler : RM unit) : RM A := fun r =>
  match m r with
  | (Throw e, r') => match handler r' with
                     | (Ok _, r'') | (Throw _, r'') => (Throw e, r'')
                     | (Terminate, r'') => (Terminate, r'')
                     | (Undefined, r'') => (Undefined, r'')
                     end
  | other => other
  end.

(** [RestoreStateForTransaction] of [ScheduledRequests]: queue, then complete. *)
Definition restore_step : RM unit := _ ← QueueStateRestoreForTransaction; CompleteStateRestoreForTransaction.

Definition BeginTransaction (draft_count : nat) : RM unit :=
  _ ← SaveStateForTransaction;
  or_rethrow (AppendDraftsForTransaction draft_count) restore_step.

(** The rows of a verification with the minimum length applied to each, and their best
    tokens ([std::max_element]). *)
Definition verify_argmax (eos_floor committed_length : Z) (ids : list Z) (rows : list (list float)) : list Z :=
  imap (fun offset row =>
    let row_length := (committed_length + Z.of_nat offset)%Z in
    let row := if (row_length <? eos_floor)%Z then ApplyMinLength eos_floor row_length ids row else row in
    match ArgMax_float row with Ok best => Z.of_nat best | _ => 0%Z end) rows.

(** The longest prefix of the drafts the target would have produced itself. *)
Fixpoint accepted_prefix (row_argmax staged : list Z) : nat :=
  match row_argmax, staged with
  | best :: row_argmax', draft :: staged' => if (best =? draft)%Z then S (accepted_prefix row_argmax' staged') else 0
  | _, _ => 0
  end.

(** Greedy verification ([SelectSampledRows] for a greedy request with drafts). *)
Definition verify_greedy (rows : list (list float)) : RM Z :=
  r ← gets id;
  committed ← CommittedSequenceLength;
  ids ← on_search (fun p => mret (eos_token_id p));
  let row_argmax := verify_argmax (TurnEosFloor r) committed ids rows in
  let accepted_count := accepted_prefix row_argmax (StagedDraftTokens r) in
  _ ← CommitAcceptedDraftsForTransaction accepted_count;
  match row_argmax !! accepted_count with Some best => mret best | None => undefined end.

(** One draw of a sampled verification: the token the target draws, whether the ratio test
    accepts the draft, and the generator words taken. *)
Record target_draw : Type := mkDraw { drawn_token : Z; ratio_accepts : bool; drawn_words : N }.

(** The loop of a sampled request: the selected tokens, how many drafts they confirm, and
    the random stream after each of them. *)
Fixpoint select_sampled (ratio : bool) (budget : option nat) (staged : list Z) (draws : list target_draw)
    (selected : list Z) (confirmed : nat) (rngs : list mt19937) : RM (list Z * nat * list mt19937) :=
  let within := match budget with Some b => length selected <? b | None => true end in
  match draws with
  | [] => mret (selected, confirmed, rngs)
  | d :: draws' =>
    if negb within then mret (selected, confirmed, rngs)
    else
      _ ← in_seeds (fun g => g <| rng_ := draw (drawn_words d) (rng_ g) |>);
      g ← gets (fun r => rng_ (seeds r));
      match staged with
      | [] => mret (selected ++ [drawn_token d], confirmed, rngs ++ [g])       (* the bonus row *)
      | draft :: staged' =>
        let accepted := if ratio then ratio_accepts d else (drawn_token d =? draft)%Z in
        let token := if ratio && ratio_accepts d then draft else drawn_token d in
        is_stop ← IsStopToken token;
        if negb accepted || is_stop then mret (selected ++ [token], confirmed, rngs ++ [g])
        else select_sampled ratio budget staged' draws' (selected ++ [token]) (confirmed + 1) (rngs ++ [g])
      end
  end.

Definition verify_sampled (draws : list target_draw) : RM (list Z * nat * list mt19937) :=
  r ← gets id;
  let staged := StagedDraftTokens r in
  let ratio := Nat.min (staged_draft_count_ (drafts r)) (length (draft_token_distributions_ (drafts r))) =? length staged in
  let budget := RemainingTurnTokenBudget r in
  _ ← RewindDraftsForTransaction 0;
  select_sampled ratio budget staged draws [] 0 [].

(** [commit_sampled_stage] for each selected token in turn, until one ends the round. *)
Fixpoint commit_stages (plan : RequestStepPlan) (selected : list Z) (confirmed stage : nat) (rngs : list mt19937)
    (stops : bool) : RM RequestStepResult :=
  match selected with
  | [] => undefined
  | next :: rest =>
    _ ← on_search (fun p => CommitToken p next);
    result ← StageGenerationForTransaction plan;
    let last_stage := bool_decide (rest = []) in
    let stopped := bool_decide (finish_reason result = StopString) in
    if stopped || last_stage then
      _ ← throw_if (stopped && negb last_stage && (negb stops || (length rngs <=? stage))) MissingRngCheckpoint;
      final ← (if stage <? confirmed then PromoteFinalStageAsAcceptedDraft result
               else if stage <? N.to_nat (draft_token_count plan)
               then _ ← MarkFinalStageAsEvaluatedNonAcceptedDraft; mret result
               else mret result);
      _ ← (if stopped && negb last_stage then
             match rngs !! stage with Some g => in_seeds (fun s => s <| rng_ := g |>) | None => undefined end
           else mret tt);
      mret final
    else if negb (token_appended result) || done result then throw UnexpectedEnd
    else
      _ ← AppendAcceptedSampledToken (token result);
      commit_stages plan rest confirmed (stage + 1) rngs stops
  end.

(** What the model and the sampler contribute to the step of a request. *)
Inductive step_input : Type :=
  | PlainRow (logits : list float) (drawn : Z * N)
  | GreedyRows (rows : list (list float))
  | SampledRows (draws : list target_draw).

Definition no_result : RequestStepResult := mkStepResult 0 false false FinishNone (-1) [].

Definition apply_pending_seed : RM unit :=
  pending ← gets (fun r => bool_decide (is_Some (pending_reseed_ (seeds r))));
  complete ← IsChunkComplete;
  if pending && complete then ApplyPendingSeedForTransaction false false else mret tt.

Definition GenerateNextTokensForTransaction (plan : RequestStepPlan) (input : step_input) : RM RequestStepResult :=
  _ ← apply_pending_seed;
  match input with
  | PlainRow logits drawn =>
    complete ← IsChunkComplete;
    if (complete : bool) then ApplyLogitsForTransaction logits false drawn else mret no_result
  | GreedyRows rows =>
    best ← verify_greedy rows;
    v ← gets (fun r => draft_verification_ (drafts r));
    if completed_generation v then StageDraftCompletionForTransaction
    else
      complete ← IsChunkComplete;
      if (complete : bool) then _ ← on_search (fun p => CommitToken p best); StageGenerationForTransaction plan
      else mret no_result
  | SampledRows draws =>
    stops ← gets (fun r => bool_decide (is_Some (stop_controller_ r)));
    '(selected, confirmed, rngs) ← verify_sampled draws;
    commit_stages plan selected confirmed 0 rngs stops
  end.

(** A step up to its staged result. *)
Definition stage_step (plan : RequestStepPlan) (input : step_input) : RM RequestStepResult :=
  _ ← bind_plan plan;
  _ ← BeginTransaction (N.to_nat (draft_token_count plan));
  GenerateNextTokensForTransaction plan input.

(** A step that commits. *)
Definition run_step (plan : RequestStepPlan) (input : step_input) : RM RequestStepResult :=
  result ← stage_step plan input;
  _ ← CommitStateForTransaction;
  _ ← CommitStep plan result;
  mret result.

(** A step that fails after its tokens were staged: the engine restores the request. *)
Definition abort_step (plan : RequestStepPlan) (input : step_input) : RM unit :=
  _ ← stage_step plan input;
  restore_step.

(** ** Admission as the engine runs it

    [Engine::BeginTurn] for one request, after the policy of the turn has been resolved and
    its stop controller and grammar built: [add] is the registration with the scheduler,
    which can throw.  The engine registers a request with its first turn only; for a later
    turn [add] does nothing. *)
Definition begin_turn_attempt (tokens : list Z) (seed : option N) (add : AM unit) : AM N :=
  _ ← PrepareTurnAdmission tokens;
  _ ← add;
  CommitTurnAdmission seed.

(** The attempt and the handler around it.  A rollback that throws makes the engine
    unhealthy, which is not part of this state. *)
Definition admit_or_rollback (tokens : list Z) (seed : option N) (add : AM unit) (a : RequestTurnAdmission) : RM N := fun r =>
  match begin_turn_attempt tokens seed add (r, a) with
  | (Throw e, s) => match RollbackTurnAdmission s with
                    | (Ok _, (r', _)) | (Throw _, (r', _)) => (Throw e, r')
                    | (Terminate, (r', _)) => (Terminate, r')
                    | (Undefined, (r', _)) => (Undefined, r')
                    end
  | (o, (r', _)) => (o, r')
  end.

Definition BeginTurn (tokens : list Z) (max_generated seed : option N) (add : AM unit) (a : RequestTurnAdmission) : RM N :=
  _ ← ValidateTurnAdmission tokens max_generated;
  admit_or_rollback tokens seed add a.
End request.
