(* ===== verification/TurnsProofs.v ===== *)
(** * Turns: the search of one request

    A request owns a search of one sequence.  The simulation of [GreedySearch] becomes a
    statement about a token list, and every operation of the request that calls the search
    has a lemma that runs it. *)

From S2P Require Import Prelude TurnPolicy Logits GreedySearch StepPlan EngineInvariants StopString Turns.
From Stdlib Require Import SpecFloat.

Open Scope nat_scope.

(** ** One sequence *)

(** A token list, its end-of-stream flag and its done flag. *)
Definition one : Type := list Z * bool * bool.
Definition one_view (v : one) : batch_view := mkView [v.1.1] [v.1.2] v.2.

(** The parameters of a request's search. *)
Record single (p : GeneratorParams) : Prop := mk_single
  { sg_ok : params_ok p;
    sg_batch : batch_size p = 1 }.

(** The search holds the sequence, and the saved one if a checkpoint is active. *)
Definition holds (p : GeneratorParams) (s : GreedySearch_Cpu) (v : one) (saved : option one) : Prop :=
  refines p s (mkAbstract (one_view v) (one_view <$> saved)).

Section one_sequence.
Context (p : GeneratorParams) (Hp : single p).
Implicit Types (s : GreedySearch_Cpu) (l : list Z) (saved : option one).

Lemma holds_sequence s l seen d saved : holds p s (l, seen, d) saved ->
  GetSequence 0 s = l /\ current_length_ s = length l /\ done_ s = d /\ eos_seen_ s = [seen] /\
  (d = false -> length l < max_length p /\ seen = false) /\ length l <= max_length p.
Proof.
  intros Hh. pose proof (view_length_rows p (sg_ok _ Hp) s _ Hh) as Hl. destruct Hh as [Hw Hct Hr Hs Hd Hroom _ _].
  cbn in Hl, Hr, Hs, Hd. rewrite rows_of_current, (sg_batch _ Hp) in Hr. cbn in Hr. injection Hr as Hr.
  pose proof (wf_current _ _ Hw) as Hc. split_and!; [done|done|done|done| |lia].
  intros ->. split; [rewrite Hl; by apply Hroom|].
  destruct Hct as [_ Hz]. rewrite <- Hs in Hz. destruct seen; [|done]. specialize (Hz eq_refl). congruence.
Qed.

(** Running an operation of the search whose abstract effect is known. *)
Lemma holds_op op s v saved v' saved' : holds p s v saved ->
  allowed p op (mkAbstract (one_view v) (one_view <$> saved)) ->
  spec_op p op (mkAbstract (one_view v) (one_view <$> saved)) = mkAbstract (one_view v') (one_view <$> saved') ->
  exists s', run_op p op s = (Ok tt, s') /\ holds p s' v' saved'.
Proof.
  intros Hh Hal Heq. destruct (op_refines p (sg_ok _ Hp) op s _ Hh Hal) as (s' & Hrun & Href).
  exists s'. split; [done|]. unfold holds. by rewrite <- Heq.
Qed.

Lemma one_append toks s l seen d saved : holds p s (l, seen, d) saved -> length l + length toks < max_length p ->
  exists s', AppendTokens p toks s = (Ok tt, s') /\ holds p s' (l ++ toks, false, false) saved.
Proof.
  intros Hh Hroom. apply (holds_op (OpAppend toks) s _ saved _ saved Hh).
  - cbn. rewrite (sg_batch _ Hp), Nat.div_1_r. done.
  - cbn. rewrite (sg_batch _ Hp), Nat.div_1_r, firstn_all. done.
Qed.

(** What picking a token does to the sequence. *)
Definition picked (t : Z) (l : list Z) : one :=
  if contains (eos_token_id p) t then (l, true, true) else (l ++ [t], false, length l + 1 =? max_length p).

Lemma select_view_one pick l : select_view p pick (one_view (l, false, false)) = one_view (picked (pick 0) l).
Proof.
  unfold select_view, picked, one_view. cbn. unfold seen_after, is_eos. cbn.
  by destruct (contains (eos_token_id p) (pick 0)).
Qed.

Lemma one_commit t s l seen saved : holds p s (l, seen, false) saved ->
  exists s', CommitToken p t s = (Ok tt, s') /\ holds p s' (picked t l) saved.
Proof.
  intros Hh. destruct (holds_sequence _ _ _ _ _ Hh) as (_ & _ & _ & _ & Hv & _). destruct (Hv eq_refl) as [_ ->].
  apply (holds_op (OpCommitToken t) s _ saved _ saved Hh); [split; [done|apply (sg_batch _ Hp)]|]. cbn. f_equal. apply (select_view_one (fun _ => t)).
Qed.

Lemma one_sample t s l seen saved : holds p s (l, seen, false) saved ->
  exists s', SampleRows p (fun _ => t) s = (Ok tt, s') /\ holds p s' (picked t l) saved.
Proof.
  intros Hh. destruct (holds_sequence _ _ _ _ _ Hh) as (_ & _ & _ & _ & Hv & _). destruct (Hv eq_refl) as [_ ->].
  apply (holds_op (OpSample (fun _ => t)) s _ saved _ saved Hh); [done|]. cbn. f_equal. apply (select_view_one (fun _ => t)).
Qed.

Lemma one_logits logits s v saved : holds p s v saved ->
  exists s', SetLogits logits s = (Ok tt, s') /\ holds p s' v saved /\ next_token_scores_ s' = logits.
Proof.
  intros Hh. eexists. split; [reflexivity|]. split; [|done].
  destruct Hh as [W C R S Dn M P V]. split; try done; [by destruct W|by destruct C|].
  cbn in V |- *. destruct saved as [w|]; [|done]. destruct V as [A V]. split; [done|]. by destruct V.
Qed.

Lemma one_select s l seen saved : holds p s (l, seen, false) saved ->
  0 < vocab_size p -> vocab_size p <= length (next_token_scores_ s) ->
  exists s', SelectTop p s = (Ok tt, s') /\ holds p s' (picked (top_pick p (next_token_scores_ s) 0) l) saved.
Proof.
  intros Hh Hv Hl. destruct (holds_sequence _ _ _ _ _ Hh) as (_ & _ & _ & _ & Hs & _). destruct (Hs eq_refl) as [_ ->].
  pose proof (holds_op (OpSelectTop (next_token_scores_ s)) s _ saved (picked (top_pick p (next_token_scores_ s) 0) l) saved Hh) as Hop.
  cbn [run_op] in Hop. unfold SetLogits in Hop. rewrite modify_bind in Hop.
  replace (s <| next_token_scores_ := next_token_scores_ s |>) with s in Hop by (by destruct s).
  apply Hop; [cbn; rewrite (sg_batch _ Hp); lia|]. cbn. f_equal. apply (select_view_one (top_pick p (next_token_scores_ s))).
Qed.

Lemma one_rewind n s l seen d saved : holds p s (l, seen, d) saved -> n <= length l -> n < max_length p ->
  (forall w, saved = Some w -> length w.1.1 <= n) ->
  exists s', RewindTo p n s = (Ok tt, s') /\ holds p s' (take n l, false, false) saved.
Proof.
  intros Hh Hn Hm Hs. apply (holds_op (OpRewind n) s _ saved _ saved Hh).
  - cbn. split_and!; [done|done|]. destruct saved as [w|]; [|done]. cbn. by apply Hs.
  - cbn. by rewrite (sg_batch _ Hp).
Qed.

Lemma one_save s v : holds p s v None ->
  exists s', StartTransactionCheckpoint s = (Ok tt, s') /\ holds p s' v (Some v).
Proof. intros Hh. by apply (holds_op OpSave s v None v (Some v) Hh). Qed.

Lemma one_restore s v w : holds p s v (Some w) ->
  exists s', GreedySearch.RestoreStateForTransaction s = (Ok tt, s') /\ holds p s' w None.
Proof. intros Hh. apply (holds_op OpRestore s v (Some w) w None Hh); [by eexists|done]. Qed.

Lemma one_release s v w : holds p s v (Some w) ->
  exists s', GreedySearch.CommitStateForTransaction s = (Ok tt, s') /\ holds p s' v None.
Proof. intros Hh. apply (holds_op OpCommit s v (Some w) v None Hh); [by eexists|done]. Qed.

(** The token a pick leaves in the slot the result is read from. *)
Lemma select_next picks pick s l seen saved : holds p s (l, seen, false) saved ->
  (forall k, k < batch_size p -> eos_seen_ s !! k = Some false ->
     picks k (visited_rows p pick k s) = (Ok (pick k), visited_rows p pick k s)) ->
  exists s', select_rows p picks s = (Ok tt, s') /\ next_tokens_ s' = [pick 0].
Proof.
  intros Hh Hpick. destruct (holds_sequence _ _ _ _ _ Hh) as (_ & Hc & Hd & Hes & Hv & _). destruct (Hv eq_refl) as [Hlt ->].
  destruct (select_rows_run p (sg_ok _ Hp) picks pick s (rf_wf _ _ _ Hh) (rf_counted _ _ _ Hh) Hd) as (s' & Hrun & _ & Hn & _);
    [lia|done|]. exists s'. split; [done|]. rewrite Hn, Hes. done.
Qed.

Lemma commit_next t s l seen saved : holds p s (l, seen, false) saved ->
  exists s', CommitToken p t s = (Ok tt, s') /\ next_tokens_ s' = [t].
Proof.
  intros Hh. destruct (holds_sequence _ _ _ _ _ Hh) as (_ & _ & Hd & _ & _).
  rewrite (CommitToken_select p t s (sg_batch _ Hp) (rf_wf _ _ _ Hh) (rf_counted _ _ _ Hh) Hd).
  by apply (select_next _ (fun _ => t) _ _ _ _ Hh).
Qed.

Lemma SelectTop_next s l seen saved : holds p s (l, seen, false) saved ->
  0 < vocab_size p -> vocab_size p <= length (next_token_scores_ s) ->
  exists s', SelectTop p s = (Ok tt, s') /\ next_tokens_ s' = [top_pick p (next_token_scores_ s) 0].
Proof.
  intros Hh Hv Hl. apply (select_next _ (top_pick p (next_token_scores_ s)) _ _ _ _ Hh). intros k Hk _.
  apply (SelectTop_picks p (next_token_scores_ s)); [done|done|done|]. rewrite (sg_batch _ Hp). lia.
Qed.
End one_sequence.

(** ** Running the operations of a request *)

Section request_proofs.
Context {T E : Type} `{!Tokenizer T E} {G GE : Type} `{!ConstrainedLogitsProcessor G GE}.
Context {D : Type} `{!BatchedSampler D}.
Implicit Types (r : Request (T := T) (G := G) (D := D)) (p : GeneratorParams) (s : GreedySearch_Cpu).

Abbreviation ROk := (@Ok (RequestError E GE) _).

Lemma set_search_id r s : search_ r = Some s -> r <| search_ := Some s |> = r.
Proof. destruct r. cbn. by intros ->. Qed.

Lemma on_search_ok {A} (f : GeneratorParams -> M GreedySearch_Cpu SearchError A) r p s a s' :
  params_ r = Some p -> search_ r = Some s -> f p s = (Ok a, s') ->
  on_search f r = (ROk a, r <| search_ := Some s' |>).
Proof. intros Hp Hs Hf. unfold on_search. by rewrite Hs, Hp, Hf. Qed.

Lemma read_search_ok {A} (f : GreedySearch_Cpu -> A) r p s :
  params_ r = Some p -> search_ r = Some s -> read_search f r = (ROk (f s), r).
Proof. intros Hp Hs. unfold read_search. rewrite (on_search_ok _ r p s (f s) s) by done. by rewrite set_search_id. Qed.

Lemma IsStopToken_run t r p : params_ r = Some p -> IsStopToken t r = (ROk (contains (eos_token_id p) t), r).
Proof. intros Hp. unfold IsStopToken. by rewrite Hp. Qed.

(** The search of a request that is not closed, and the sequence it holds. *)
Record owns (p : GeneratorParams) (r : Request (T := T) (G := G) (D := D)) (s : GreedySearch_Cpu) (v : one) (saved : option one) :
    Prop := mk_owns
  { ow_params : params_ r = Some p;
    ow_search : search_ r = Some s;
    ow_single : single p;
    ow_max : max_length p = max_session_tokens_ r;
    ow_holds : holds p s v saved }.

(** A field the search does not see. *)
Lemma owns_frame p r r' s v saved : params_ r' = params_ r -> search_ r' = search_ r ->
  max_session_tokens_ r' = max_session_tokens_ r -> owns p r s v saved -> owns p r' s v saved.
Proof. intros H1 H2 H3 []. split; congruence. Qed.

Section with_search.
Context (p : GeneratorParams).

Lemma CurrentSequenceLength_run r s l seen d saved : owns p r s (l, seen, d) saved ->
  CurrentSequenceLength r = (ROk (Z.of_nat (length l)), r).
Proof.
  intros [Hp Hs Hsg _ Hh]. unfold CurrentSequenceLength. rewrite (read_search_ok _ r p s Hp Hs). unfold GetSequenceLength.
  by destruct (holds_sequence p Hsg _ _ _ _ _ Hh) as (_ & -> & _).
Qed.

Lemma IsDone_run r s l seen d saved : owns p r s (l, seen, d) saved -> read_search IsDone r = (ROk d, r).
Proof.
  intros [Hp Hs Hsg _ Hh]. rewrite (read_search_ok _ r p s Hp Hs). unfold IsDone.
  by destruct (holds_sequence p Hsg _ _ _ _ _ Hh) as (_ & _ & -> & _).
Qed.

Lemma GetSequence_run r s l seen d saved : owns p r s (l, seen, d) saved -> read_search (GetSequence 0) r = (ROk l, r).
Proof.
  intros [Hp Hs Hsg _ Hh]. rewrite (read_search_ok _ r p s Hp Hs).
  by destruct (holds_sequence p Hsg _ _ _ _ _ Hh) as (-> & _).
Qed.

(** Lifting an operation of the search. *)
Lemma owns_op r s v saved f s' v' saved' : owns p r s v saved -> f p s = (Ok tt, s') -> holds p s' v' saved' ->
  on_search f r = (ROk tt, r <| search_ := Some s' |>) /\ owns p (r <| search_ := Some s' |>) s' v' saved'.
Proof. intros [Hp Hs Hsg Hm _] Hf Hh. split; [by apply (on_search_ok f r p s)|by split]. Qed.

Lemma unprocessed_run r s l seen d saved : owns p r s (l, seen, d) saved ->
  unprocessed r = (ROk (Z.to_nat (Z.of_nat (length l) - processed_sequence_length_ (progress r))), r).
Proof. intros Ho. unfold unprocessed. by rewrite (bind_ok _ _ _ _ _ (CurrentSequenceLength_run _ _ _ _ _ _ Ho)). Qed.

Lemma IsChunkComplete_run r s l seen d saved : owns p r s (l, seen, d) saved ->
  (0 <= processed_sequence_length_ (progress r) <= Z.of_nat (length l))%Z ->
  IsChunkComplete r =
  (ROk (length l <=? Z.to_nat (processed_sequence_length_ (progress r)) + scheduled_token_count_ (progress r)), r).
Proof.
  intros Ho Hb. unfold IsChunkComplete. rewrite (bind_ok _ _ _ _ _ (CurrentSequenceLength_run _ _ _ _ _ _ Ho)).
  unfold ScheduledTokenCount. unfold mbind at 1, M_bind at 1.
  rewrite (bind_ok _ _ _ _ _ (unprocessed_run _ _ _ _ _ _ Ho)). unfold gets, mbind, M_bind, mret, M_ret. do 2 f_equal.
  apply Bool.eq_iff_eq_true. rewrite Z.leb_le, Nat.leb_le. lia.
Qed.

(** ** The checkpoint of a step *)

Lemma SaveStateForTransaction_run r s v : owns p r s v None -> exists s', SaveStateForTransaction r =
  (ROk tt, r <| search_ := Some s' |>
            <| checkpoint := mkCheckpoint (rng_ (seeds r)) (processed_sequence_length_ (progress r))
                 (length (tokens_host_ r)) (guidance_logits_processor_ r) (stop_history r) |>) /\
  holds p s' v (Some v).
Proof.
  intros Ho. destruct (one_save p (ow_single _ _ _ _ _ Ho) s v (ow_holds _ _ _ _ _ Ho)) as (s' & Hs & Hh).
  destruct (owns_op r s v None (fun _ => StartTransactionCheckpoint) s' v (Some v) Ho Hs Hh) as [Hrun _].
  exists s'. split; [|done]. unfold SaveStateForTransaction. rewrite gets_bind, (bind_ok _ _ _ _ _ Hrun), modify_bind. done.
Qed.

Lemma CommitStateForTransaction_run r s v w : owns p r s v (Some w) -> pending_reseed_applied_ (seeds r) = false ->
  exists s', CommitStateForTransaction r =
  (ROk tt, r <| search_ := Some s' |> <| checkpoint := (checkpoint r) <| guidance_transaction_checkpoint_ := None |> |>) /\
  holds p s' v None.
Proof.
  intros Ho Hr. destruct (one_release p (ow_single _ _ _ _ _ Ho) s v w (ow_holds _ _ _ _ _ Ho)) as (s' & Hs & Hh).
  destruct (owns_op r s v (Some w) (fun _ => GreedySearch.CommitStateForTransaction) s' v None Ho Hs Hh) as [Hrun _].
  exists s'. split; [|done]. unfold CommitStateForTransaction. rewrite (bind_ok _ _ _ _ _ Hrun).
  unfold in_checkpoint. rewrite modify_bind, gets_bind. cbn [seeds set_field set_checkpoint set_search].
  rewrite Hr. cbn [andb]. unfold in_seeds, modify, promote_seed. cbn [seeds set_field set_checkpoint set_search].
  rewrite Hr. done.
Qed.

(** ** What a generated token does

    The effect of one generated token on a turn, whatever path produced it: end of stream
    ends the turn without being appended; otherwise the token is appended, the stop strings
    observe it, and a stop string takes precedence over the limit of the turn and the limit
    of the session. *)

Record gen : Type := mkGen
  { g_tokens : list Z;
    g_stop : option (StopStringController (T := T));
    g_count : nat;
    g_end : option (GenerationFinishReason * Z) }.

Definition observe_pure (c : option (StopStringController (T := T))) (t : Z) :
    option (option StopStringMatch * option (StopStringController (T := T))) :=
  match c with
  | None => Some (None, None)
  | Some c => match ObserveToken t c with (Ok m, c') => Some (m, Some c') | _ => None end
  end.

Definition limit_reached (limit : option N) (n : nat) : bool :=
  match limit with Some k => (k <=? N.of_nat n)%N | None => false end.

Definition emit (limit : option N) (t : Z) (g : gen) : option gen :=
  if contains (eos_token_id p) t then Some (mkGen (g_tokens g) (g_stop g) (g_count g) (Some (EosToken, (-1)%Z)))
  else
    '(m, c) ← observe_pure (g_stop g) t;
    let l := g_tokens g ++ [t] in
    let n := g_count g + 1 in
    Some (mkGen l c n
      (match m with
       | Some m => Some (StopString, Z.of_nat (index m))
       | None => if limit_reached limit n then Some (TurnLimit, (-1)%Z)
                 else if max_length p <=? length l then Some (ContextLimit, (-1)%Z) else None
       end)).

Fixpoint emit_all (limit : option N) (ts : list Z) (g : gen) : option gen :=
  match ts with
  | [] => Some g
  | t :: ts => g' ← emit limit t g; match g_end g' with Some _ => Some g' | None => emit_all limit ts g' end
  end.

Lemma set_stop_id r c : stop_controller_ r = c -> r <| stop_controller_ := c |> = r.
Proof. destruct r. cbn. by intros ->. Qed.

Lemma observe_stop_run t r m c : observe_pure (stop_controller_ r) t = Some (m, c) ->
  observe_stop t r = (ROk m, r <| stop_controller_ := c |>).
Proof.
  intros Ho. unfold observe_stop. rewrite gets_bind. unfold observe_pure in Ho. unfold on_stop.
  destruct (stop_controller_ r) as [c0|] eqn:Hc.
  - rewrite Hc. destruct (ObserveToken t c0) as [[m0|e| |] c1]; try done. by injection Ho as -> <-.
  - injection Ho as <- <-. by rewrite set_stop_id.
Qed.

Definition limit_of r : option N := max_generated_tokens (turn_policy_ (turn r)).

(** The result of staging a token: what the step reports and the new stop controller. *)
Definition staged_result (t : Z) (g : gen) (visible : list Z) : RequestStepResult :=
  mkStepResult t (negb (contains (eos_token_id p) t)) (bool_decide (is_Some (g_end g)))
    (default FinishNone (fst <$> g_end g)) (default (-1)%Z (snd <$> g_end g)) visible.

Lemma observe_stop_fails t r x r' : observe_pure (stop_controller_ r) t = None -> observe_stop t r <> (ROk x, r').
Proof.
  intros Ho. unfold observe_stop. rewrite gets_bind. unfold observe_pure in Ho. unfold on_stop.
  destruct (stop_controller_ r) as [c0|] eqn:Hc; [|done]. rewrite Hc.
  by destruct (ObserveToken t c0) as [[m0|e| |] c1].
Qed.

Lemma observe_stop_params t r : params_ (observe_stop (GE := GE) t r).2 = params_ r.
Proof.
  unfold observe_stop. rewrite gets_bind. unfold on_stop. destruct (stop_controller_ r) as [c|] eqn:Hc; [|done].
  rewrite Hc. by destruct (ObserveToken t c) as [o c'].
Qed.

Lemma StageVisibleTokens_run n o r : n <= length (tokens_host_ r) -> n + length (option_list o) <= 8 ->
  StageVisibleTokens n o r = (ROk (drop (length (tokens_host_ r) - n) (tokens_host_ r) ++ option_list o), r).
Proof.
  intros Hn H8. unfold StageVisibleTokens. rewrite gets_bind.
  rewrite throw_if_false by (apply Nat.ltb_ge; exact H8). by rewrite throw_if_false by (by apply Nat.ltb_ge).
Qed.

(** The part of [StageGeneration] before the stop strings observe the token. *)
Lemma StageGeneration_prefix t r s l saved : 
  owns p r s (picked p t l) saved -> next_tokens_ s = [t] ->
  let ends := contains (eos_token_id p) t in
  StageGeneration (Z.of_nat (length l)) r =
  ('(reason, matched) ← (
     found ← (if ends then mret None else observe_stop t);
     mret (match found with
      | Some m => (StopString, Z.of_nat (index m))
      | None => (if ends then EosToken
                 else if limit_reached (limit_of r) (turn_generated_tokens_ (turn r) + accepted_draft_count_ (drafts r) + 1) then TurnLimit
                 else if max_length p <=? length l + 1 then ContextLimit else FinishNone, (-1)%Z)
      end));
   accepted ← gets (fun r => accepted_draft_count_ (drafts r));
   visible ← StageVisibleTokens accepted (if ends then None else Some t);
   _ ← (if ends then mret tt else commit_guidance [t]);
   mret (mkStepResult t (negb ends) (negb (bool_decide (reason = FinishNone))) reason matched visible)) r.
Proof.
  intros Ho Hn ends. pose proof (ow_params _ _ _ _ _ Ho) as Hp. pose proof (ow_search _ _ _ _ _ Ho) as Hs.
  unfold StageGeneration, ends, picked in *. destruct (contains (eos_token_id p) t) eqn:He.
  - rewrite (bind_ok _ _ _ _ _ (IsDone_run _ _ _ _ _ _ Ho)), (bind_ok _ _ _ _ _ (CurrentSequenceLength_run _ _ _ _ _ _ Ho)).
    rewrite (bind_ok _ _ _ _ _ (read_search_ok next_tokens_ r p s Hp Hs)), Hn, gets_bind, Z.ltb_irrefl. cbn [last default]. unfold id.
    rewrite ret_bind, (bind_ok _ _ _ _ _ (IsStopToken_run t r p Hp)), He.
    rewrite bool_decide_eq_false_2 by done. done.
  - rewrite (bind_ok _ _ _ _ _ (IsDone_run _ _ _ _ _ _ Ho)), (bind_ok _ _ _ _ _ (CurrentSequenceLength_run _ _ _ _ _ _ Ho)).
    rewrite (bind_ok _ _ _ _ _ (read_search_ok next_tokens_ r p s Hp Hs)), Hn, gets_bind.
    assert ((Z.of_nat (length l) <? Z.of_nat (length (l ++ [t])))%Z = true) as -> by (apply Z.ltb_lt; rewrite length_app; cbn; lia).
    cbn [last default]. unfold id. rewrite bind_bind.
    pose proof (observe_stop_params t r) as Hq. destruct (observe_stop t r) as [[found|e| |] r1] eqn:Hob;
      [|unfold mbind, M_bind; by rewrite Hob ..].
    rewrite !(bind_ok _ _ _ _ _ Hob), ret_bind. cbn in Hq. rewrite Hp in Hq. rewrite (bind_ok _ _ _ _ _ (IsStopToken_run t r1 p Hq)), He.
    rewrite andb_false_r, length_app, Nat2Z.id, <- (ow_max _ _ _ _ _ Ho). cbn [length].
    assert ((max_length p <=? length l + 1) || (length l + 1 =? max_length p) = (max_length p <=? length l + 1)) as ->.
    { apply Bool.eq_iff_eq_true. rewrite orb_true_iff, Nat.leb_le, Nat.eqb_eq. lia. }
    by destruct found.
Qed.

Lemma StageGeneration_run t r s l saved g' :
  owns p r s (picked p t l) saved -> next_tokens_ s = [t] -> guidance_logits_processor_ r = None ->
  accepted_draft_count_ (drafts r) <= length (tokens_host_ r) -> accepted_draft_count_ (drafts r) < 8 ->
  emit (limit_of r) t (mkGen l (stop_controller_ r) (turn_generated_tokens_ (turn r) + accepted_draft_count_ (drafts r)) None) = Some g' ->
  StageGeneration (Z.of_nat (length l)) r =
  (ROk (staged_result t g' (drop (length (tokens_host_ r) - accepted_draft_count_ (drafts r)) (tokens_host_ r) ++
          (if contains (eos_token_id p) t then [] else [t]))),
   r <| stop_controller_ := g_stop g' |>).
Proof.
  intros Ho Hn Hg Hacc H8 Hem. rewrite (StageGeneration_prefix _ _ _ _ _ Ho Hn). unfold emit, staged_result in *.
  destruct (contains (eos_token_id p) t).
  - injection Hem as <-. rewrite bind_bind, ret_bind, ret_bind, gets_bind.
    rewrite (bind_ok _ _ _ _ _ (StageVisibleTokens_run _ None r Hacc ltac:(cbn; lia))), ret_bind. by rewrite set_stop_id.
  - cbn [g_stop g_tokens g_count] in Hem. destruct (observe_pure (stop_controller_ r) t) as [[m c]|] eqn:Hob; [|done].
    injection Hem as <-. set (r1 := r <| stop_controller_ := c |>).
    rewrite bind_bind, (bind_ok _ _ _ _ _ (observe_stop_run _ _ _ _ Hob)), ret_bind.
    assert (forall reason matched, (accepted ← gets (fun r => accepted_draft_count_ (drafts r));
       visible ← StageVisibleTokens accepted (Some t); _ ← commit_guidance [t];
       mret (mkStepResult t true (negb (bool_decide (reason = FinishNone))) reason matched visible)) r1 =
      (ROk (mkStepResult t true (negb (bool_decide (reason = FinishNone))) reason matched
         (drop (length (tokens_host_ r) - accepted_draft_count_ (drafts r)) (tokens_host_ r) ++ [t])), r1)) as Hrest.
    { intros reason matched. rewrite gets_bind, (bind_ok _ _ _ _ _ (StageVisibleTokens_run _ (Some t) r1 Hacc ltac:(cbn; lia))).
      assert (commit_guidance [t] r1 = (ROk tt, r1)) as Hc by (unfold commit_guidance; cbn; by rewrite Hg). by rewrite (bind_ok _ _ _ _ _ Hc). }
    cbn [g_end]. destruct m as [m|]; [by rewrite Hrest|].
    destruct (limit_reached _ _); [by rewrite Hrest|]. rewrite length_app. cbn [length].
    destruct (max_length p <=? length l + 1); by rewrite Hrest.
Qed.

Lemma StageGeneration_fails t r s l saved x r' :
  owns p r s (picked p t l) saved -> next_tokens_ s = [t] ->
  emit (limit_of r) t (mkGen l (stop_controller_ r) (turn_generated_tokens_ (turn r) + accepted_draft_count_ (drafts r)) None) = None ->
  StageGeneration (Z.of_nat (length l)) r <> (ROk x, r').
Proof.
  intros Ho Hn Hem. rewrite (StageGeneration_prefix _ _ _ _ _ Ho Hn). unfold emit in Hem.
  destruct (contains (eos_token_id p) t); [done|]. cbn [g_stop] in Hem.
  destruct (observe_pure (stop_controller_ r) t) as [[m c]|] eqn:Hob; [done|].
  intros (y & r1 & (z & r2 & Hz & _)%bind_inv_ok & _)%bind_inv_ok. by apply (observe_stop_fails _ _ _ _ Hob) in Hz.
Qed.
End with_search.
End request_proofs.
