(* ===== verification/Speculation.v ===== *)
(** * Speculative decoding is lossless

    A decode step of a greedy request with drafts verifies several rows of logits at once;
    a plain step consumes one.  Both are run here against the same description of what a
    generated token does ([TurnsProofs.emit]), and the speculative step is shown to leave
    the request where as many plain steps would have. *)

From S2P Require Import Prelude TurnPolicy Logits GreedySearch StepPlan EngineInvariants StopString Turns TurnsProofs.
From Stdlib Require Import SpecFloat.

Open Scope nat_scope.

Section speculation.
Context {T E : Type} `{!Tokenizer T E} {G GE : Type} `{!ConstrainedLogitsProcessor G GE}.
Context {D : Type} `{!BatchedSampler D}.
Context (p : GeneratorParams).
Implicit Types (r : Request (T := T) (G := G) (D := D)) (s : GreedySearch_Cpu) (l : list Z) (saved : option one).

Abbreviation ROk := (@Ok (RequestError E GE) _).

(** The members a step has not touched since [r0], and the ones it has. *)
Record at_step (r0 r : Request (T := T) (G := G) (D := D)) (host : list Z) (c : option (StopStringController (T := T)))
    (dr : Drafts) : Prop := mk_at
  { at_status : status_ r = status_ r0;
    at_turn : turn r = turn r0;
    at_seeds : seeds r = seeds r0;
    at_progress : progress r = progress r0;
    at_guidance : guidance_logits_processor_ r = None;
    at_host : tokens_host_ r = host;
    at_stop : stop_controller_ r = c;
    at_drafts : drafts r = dr;
    at_checkpoint : checkpoint r = mkCheckpoint (rng_ (seeds r0)) (processed_sequence_length_ (progress r0))
      (length (tokens_host_ r0)) (guidance_logits_processor_ r0) (stop_history r0) }.

(** A request that can take a step: its search holds the tokens of the mirror, no grammar,
    no reseed and no transaction is pending. *)
Record ready (r : Request (T := T) (G := G) (D := D)) (l : list Z) : Prop := mk_ready
  { rd_search : exists s, owns p r s (l, false, false) None;
    rd_host : tokens_host_ r = l;
    rd_guidance : guidance_logits_processor_ r = None;
    rd_reseed : pending_reseed_ (seeds r) = None;
    rd_applied : pending_reseed_applied_ (seeds r) = false;
    rd_staged : staged_draft_count_ (drafts r) = 0;
    rd_accepted : accepted_draft_count_ (drafts r) = 0;
    rd_status : IsExecutable (status_ r) = true;
    rd_processed : (0 <= processed_sequence_length_ (progress r) < Z.of_nat (length l))%Z;
    rd_width : (N.of_nat (max_length p) < two64)%N;
    rd_budget : limit_reached (limit_of r) (turn_generated_tokens_ (turn r)) = false }.

(** A plan that feeds every unprocessed token and [k] drafts. *)
Record whole_plan (r : Request (T := T) (G := G) (D := D)) (l : list Z) (k : nat) (plan : RequestStepPlan) : Prop := mk_whole
  { wp_before : sequence_length_before plan = Z.of_nat (length l);
    wp_tokens : Z.of_N (unprocessed_token_count plan) = (Z.of_nat (length l) - processed_sequence_length_ (progress r) + Z.of_nat k)%Z;
    wp_some : unprocessed_token_count plan <> 0%N;
    wp_drafts : draft_token_count plan = N.of_nat k;
    wp_slots : target_cache_slots plan = N.of_nat (length l + k) }.

Definition bound (plan : RequestStepPlan) (r : Request (T := T) (G := G) (D := D)) : Request (T := T) (G := G) (D := D) :=
  r <| progress := (progress r) <| scheduled_token_count_ := N.to_nat (unprocessed_token_count plan) |> |>.

Lemma bind_plan_run r l k plan : ready r l -> whole_plan r l k plan -> k <= length (draft_tokens_ (drafts r)) ->
  bind_plan plan r = (ROk tt, bound plan r).
Proof.
  intros [[s Ho] _ _ _ _ Hst _ Hex Hpr _ _] [_ Htok Hsome Hd _] Hk. unfold bind_plan, BindScheduledTokenCount.
  rewrite gets_bind. unfold id. rewrite Hex, Hd, Nat2N.id. rewrite throw_if_false by done.
  rewrite throw_if_false by (apply Nat.ltb_ge; lia). rewrite (bind_ok _ _ _ _ _ (CurrentSequenceLength_run p _ _ _ _ _ _ Ho)).
  rewrite throw_if_false; [|apply orb_false_iff; split; [apply orb_false_iff; split|]; [apply Z.leb_gt; lia|by apply N.eqb_neq|apply Nat.ltb_ge; lia]].
  rewrite (bind_ok _ _ _ _ _ (CurrentSequenceLength_run p _ _ _ _ _ _ Ho)), gets_bind. unfold id. rewrite Hst.
  rewrite throw_if_false; [done|]. apply orb_false_iff; split; [apply orb_false_iff; split|]; [apply Z.leb_gt; lia|apply Nat.eqb_neq; lia|apply Nat.ltb_ge; lia].
Qed.

Lemma owns_setters r r' s v saved : params_ r' = params_ r -> search_ r' = search_ r ->
  max_session_tokens_ r' = max_session_tokens_ r -> owns p r s v saved -> owns p r' s v saved.
Proof. apply owns_frame. Qed.

(** What the transaction starts with. *)
Definition staged_drafts (k : nat) (d : Drafts) : Drafts :=
  if k =? 0 then d else d <| staged_draft_count_ := k |> <| accepted_draft_count_ := 0 |>
    <| evaluated_draft_count_ := 0 |> <| draft_verification_ := no_verification |>.

Lemma BeginTransaction_run r0 l k : ready r0 l -> k <= length (draft_tokens_ (drafts r0)) -> length l + k < max_length p ->
  exists r s, BeginTransaction k r0 = (ROk tt, r) /\
  owns p r s (l ++ take k (draft_tokens_ (drafts r0)), false, false) (Some (l, false, false)) /\
  at_step r0 r (l ++ take k (draft_tokens_ (drafts r0))) (stop_controller_ r0) (staged_drafts k (drafts r0)).
Proof.
  intros [[s Ho] Hh Hg _ _ Hst _ _ _ _ _] Hk Hm. unfold BeginTransaction.
  destruct (SaveStateForTransaction_run (E := E) (GE := GE) p _ _ _ Ho) as (s1 & Hrun & H1). rewrite (bind_ok _ _ _ _ _ Hrun).
  match goal with |- context [or_rethrow _ _ ?x] => set (r1 := x) end.
  assert (owns p r1 s1 (l, false, false) (Some (l, false, false))) as Ho1 by (destruct Ho; by split).
  unfold or_rethrow, AppendDraftsForTransaction, staged_drafts. destruct (Nat.eqb_spec k 0) as [->|Hne].
  { exists r1, s1. rewrite take_0, app_nil_r. split; [done|]. split; [done|]. by split. }
  rewrite gets_bind. change (drafts r1) with (drafts r0). rewrite Hst. rewrite throw_if_false by (apply orb_false_iff; split; [done|apply Nat.ltb_ge; lia]).
  destruct (one_append p (ow_single _ _ _ _ _ Ho) (take k (draft_tokens_ (drafts r0))) s1 _ _ _ _ H1) as (s2 & Hs2 & H2); [rewrite length_take; lia|].
  destruct (owns_op (E := E) (GE := GE) p r1 s1 _ _ (fun p => AppendTokens p (take k (draft_tokens_ (drafts r0)))) s2 _ _ Ho1 Hs2 H2) as [Hrun2 Ho2].
  rewrite (bind_ok _ _ _ _ _ Hrun2), modify_bind. unfold in_drafts, modify. eexists _, s2. split; [reflexivity|].
  split; [by destruct Ho2|]. split; try done. cbn. by rewrite Hh.
Qed.

(** ** The token a row of logits picks *)

Definition row_pick (floor len : Z) (row : list float) : Z :=
  match ArgMax_float (if (len <? floor)%Z then ApplyMinLength floor len (eos_token_id p) row else row) with
  | Ok best => Z.of_nat best
  | _ => 0%Z
  end.

Lemma verify_argmax_picks floor committed rows :
  verify_argmax floor committed (eos_token_id p) rows = imap (fun i row => row_pick floor (committed + Z.of_nat i) row) rows.
Proof. done. Qed.

(** A greedy policy whose scores only the minimum length edits. *)
Record plain_policy (t : EffectiveTurnPolicy) : Prop := mk_plain
  { pl_greedy : IsGreedy t = true;
    pl_penalty : SFeqb (repetition_penalty t) one32 = true;
    pl_ngram : (no_repeat_ngram_size t <= 0)%Z }.

(** The condition under which the code accepts drafts for a greedy request. *)
Lemma validated_plain r : guidance_logits_processor_ r = None -> IsGreedy (turn_policy_ (turn r)) = true ->
  DraftTokenValidationError (E := E) r = None -> plain_policy (turn_policy_ (turn r)).
Proof.
  intros Hg Hgr. unfold DraftTokenValidationError. rewrite Hg, Hgr. cbn [negb andb].
  destruct (SFeqb _ one32) eqn:Hp; cbn [negb orb]; [|done]. destruct (Z.ltb_spec 0 (no_repeat_ngram_size (turn_policy_ (turn r)))); [done|].
  intros _. by split.
Qed.

Lemma ApplyMinLength_length m n ids row : length (ApplyMinLength m n ids row) = length row.
Proof.
  unfold ApplyMinLength, ApplyMinLengthToLogits. repeat case_match; try done.
  revert row. induction ids as [|i ids IH]; intros row; cbn; [done|]. rewrite IH. apply length_set_score.
Qed.

Lemma ApplyLogitsProcessors_run r s l saved logits : owns p r s (l, false, false) saved -> guidance_logits_processor_ r = None ->
  plain_policy (turn_policy_ (turn r)) ->
  exists s', ApplyLogitsProcessors logits false r = (ROk tt, r <| search_ := Some s' |>) /\ holds p s' (l, false, false) saved /\
    next_token_scores_ s' = (if (Z.of_nat (length l) <? TurnEosFloor r)%Z
                             then ApplyMinLength (TurnEosFloor r) (Z.of_nat (length l)) (eos_token_id p) logits else logits).
Proof.
  intros Ho Hg [_ Hpen Hng]. unfold ApplyLogitsProcessors. rewrite gets_bind. unfold id. rewrite Hg.
  rewrite (bind_ok _ _ _ _ _ (CurrentSequenceLength_run p _ _ _ _ _ _ Ho)), (bind_ok _ _ _ _ _ (GetSequence_run p _ _ _ _ _ _ Ho)).
  assert (on_search (fun p => mret (eos_token_id p)) r = (ROk (eos_token_id p), r)) as Hids.
  { rewrite (on_search_ok _ r p s (eos_token_id p) s) by (by destruct Ho). by rewrite set_search_id by (by destruct Ho). }
  rewrite (bind_ok _ _ _ _ _ Hids). cbn [negb]. rewrite andb_true_r. unfold ApplyRepetitionPenalty, ApplyNoRepeatNgram. rewrite Hpen.
  assert ((no_repeat_ngram_size (turn_policy_ (turn r)) <=? 0)%Z = true) as -> by (by apply Z.leb_le). cbn [fst].
  match goal with |- context [SetLogits ?x] => set (scores := x) end.
  destruct (one_logits p scores s _ _ (ow_holds _ _ _ _ _ Ho)) as (s' & Hs & Hh & Hsc). exists s'. split; [|done].
  exact (proj1 (owns_op (E := E) (GE := GE) p r s _ _ (fun _ => SetLogits scores) s' _ _ Ho Hs Hh)).
Qed.

Lemma SelectNextToken_run r s l saved drawn : owns p r s (l, false, false) saved -> IsGreedy (turn_policy_ (turn r)) = true ->
  0 < vocab_size p -> length (next_token_scores_ s) = vocab_size p ->
  let t := match ArgMax_float (next_token_scores_ s) with Ok best => Z.of_nat best | _ => 0%Z end in
  exists s', SelectNextToken drawn r = (ROk tt, r <| search_ := Some s' |>) /\ holds p s' (picked p t l) saved /\ next_tokens_ s' = [t].
Proof.
  intros Ho Hgr Hv Hl t. pose proof (ow_single _ _ _ _ _ Ho) as Hsg.
  assert (top_pick p (next_token_scores_ s) 0 = t) as Ht by (unfold top_pick, t; cbn; by rewrite <- Hl, firstn_all).
  destruct (one_select p Hsg s l false saved (ow_holds _ _ _ _ _ Ho) Hv) as (s' & Hs & Hh); [lia|].
  destruct (SelectTop_next p Hsg s l false saved (ow_holds _ _ _ _ _ Ho) Hv) as (s2 & Hs2 & Hn); [lia|].
  rewrite Hs in Hs2. injection Hs2 as <-. rewrite Ht in *. exists s'. unfold SelectNextToken. rewrite gets_bind, Hgr.
  split; [|done]. by apply (owns_op (E := E) (GE := GE) p r s _ _ SelectTop s' _ _ Ho Hs Hh).
Qed.

(** ** A plain row *)

Lemma ApplyLogitsForTransaction_run r0 r s l saved host c dr logits drawn :
  owns p r s (l, false, false) saved -> at_step r0 r host c dr -> plain_policy (turn_policy_ (turn r0)) ->
  0 < vocab_size p -> length logits = vocab_size p ->
  accepted_draft_count_ dr <= length host -> accepted_draft_count_ dr < 8 ->
  let t := row_pick (TurnEosFloor r) (Z.of_nat (length l)) logits in
  match emit p (limit_of r0) t (mkGen l c (turn_generated_tokens_ (turn r0) + accepted_draft_count_ dr) None) with
  | Some g => exists r' s',
    ApplyLogitsForTransaction logits false drawn r =
    (ROk (staged_result p t g (drop (length host - accepted_draft_count_ dr) host ++ (if contains (eos_token_id p) t then [] else [t]))), r') /\
    owns p r' s' (picked p t l) saved /\ at_step r0 r' host (g_stop g) dr
  | None => forall x r', ApplyLogitsForTransaction logits false drawn r <> (ROk x, r')
  end.
Proof.
  intros Ho Hat Hpl Hv Hlen Hacc H8 t. destruct Hat as [A1 A2 A3 A4 A5 A6 A7 A8 A9]. unfold ApplyLogitsForTransaction.
  rewrite (bind_ok _ _ _ _ _ (CurrentSequenceLength_run p _ _ _ _ _ _ Ho)).
  destruct (ApplyLogitsProcessors_run r s l saved logits Ho A5) as (s1 & Hr1 & Hh1 & Hsc); [by rewrite A2|].
  rewrite (bind_ok _ _ _ _ _ Hr1). set (r1 := r <| search_ := Some s1 |>).
  assert (owns p r1 s1 (l, false, false) saved) as Ho1 by (destruct Ho; by split).
  destruct (SelectNextToken_run r1 s1 l saved drawn Ho1) as (s2 & Hr2 & Hh2 & Hn); [change (turn r1) with (turn r); rewrite A2; apply Hpl|done| |].
  { rewrite Hsc. case_match; [by rewrite ApplyMinLength_length|done]. }
  rewrite (bind_ok _ _ _ _ _ Hr2). rewrite Hsc in Hh2, Hn. fold (row_pick (TurnEosFloor r) (Z.of_nat (length l)) logits) in Hh2, Hn. fold t in Hh2, Hn.
  set (r2 := r1 <| search_ := Some s2 |>). assert (owns p r2 s2 (picked p t l) saved) as Ho2 by (destruct Ho; by split).
  assert (limit_of r0 = limit_of r2) as -> by (unfold limit_of; by rewrite <- A2).
  destruct (emit p _ t _) as [g|] eqn:Hem.
  - exists (r2 <| stop_controller_ := g_stop g |>), s2. split.
    + rewrite <- A2, <- A7, <- A8 in Hem. rewrite <- A6, <- A8.
      apply (StageGeneration_run p t r2 s2 l saved g Ho2 Hn A5); [cbn; by rewrite A6, A8|cbn; by rewrite A8|done].
    + split; [by destruct Ho2|by split].
  - rewrite <- A2, <- A7, <- A8 in Hem. intros x r'. by apply (StageGeneration_fails p t r2 s2 l saved x r' Ho2 Hn).
Qed.

(** ** Committing a step *)

Definition ended (g : gen (T := T)) : bool := bool_decide (is_Some (g_end g)).
Definition at_eos (g : gen (T := T)) : bool := match g_end g with Some (EosToken, _) => true | _ => false end.

(** The search after the tokens of [g]. *)
Definition final_view (g : gen (T := T)) : one := (g_tokens g, at_eos g, at_eos g || (length (g_tokens g) =? max_length p)).

Definition turn_after (t : Turn) (g : gen (T := T)) : Turn :=
  let t := t <| turn_generated_tokens_ := g_count g |> in
  match g_end g with
  | Some (reason, matched) => t <| finish_reason_ := reason |> <| matched_stop_string_index_ := matched |>
  | None => t
  end.

(** The request after a step whose tokens are described by [g]. *)
Record advanced (r0 r : Request (T := T) (G := G) (D := D)) (g : gen (T := T)) (processed : Z) : Prop := mk_advanced
  { av_search : exists s, owns p r s (final_view g) None;
    av_host : tokens_host_ r = g_tokens g;
    av_turn : turn r = turn_after (turn r0) g;
    av_status : status_ r = if ended g then TurnComplete else Active;
    av_stop : stop_controller_ r = if ended g then None else g_stop g;
    av_guidance : guidance_logits_processor_ r = None;
    av_drafts : drafts r = no_drafts;
    av_seeds : seeds r = seeds r0;
    av_progress : progress r = (progress r0) <| processed_sequence_length_ := processed |> }.

(** What the result of a step must say about [g]. *)
Record reports (host : list Z) (before : nat) (res : RequestStepResult) (g : gen (T := T)) : Prop := mk_reports
  { rp_done : done res = ended g;
    rp_end : forall reason matched, g_end g = Some (reason, matched) ->
               finish_reason res = reason /\ matched_stop_string_index res = matched;
    rp_host : host ++ (if token_appended res then [token res] else []) = g_tokens g;
    rp_count : before + (if token_appended res then 1 else 0) = g_count g }.

Lemma commit_run r0 r s l w host c dr g res plan k :
  owns p r s (final_view g) (Some w) -> at_step r0 r host c dr -> ready r0 l -> c = g_stop g ->
  reports host (turn_generated_tokens_ (turn r0) + accepted_draft_count_ dr) res g ->
  draft_token_count plan = N.of_nat k -> target_cache_slots plan = N.of_nat (length l + k) -> length l + k < max_length p ->
  accepted_draft_count_ dr <= k ->
  exists r', (_ ← CommitStateForTransaction; _ ← CommitStep plan res; mret res) r = (ROk res, r') /\
    advanced r0 r' g (Z.of_nat (length l + accepted_draft_count_ dr)).
Proof.
  intros Ho [A1 A2 A3 A4 A5 A6 A7 A8 A9] [_ _ _ Hre Hap _ _ _ _ Hw _] -> [R1 R2 R3 R4] Hd Hs Hm Hk.
  destruct (CommitStateForTransaction_run (E := E) (GE := GE) p r s _ _ Ho) as (s' & Hrun & Hh); [by rewrite A3|].
  rewrite (bind_ok _ _ _ _ _ Hrun). set (r1 := r <| search_ := Some s' |> <| checkpoint := _ |>).
  unfold CommitStep, in_turn, in_progress, in_drafts. rewrite bind_bind, gets_bind, bind_bind, modify_bind.
  change (drafts r1) with (drafts r). rewrite A8, Hd, Hs.
  rewrite (u64_sub_small (N.of_nat k)) by lia. rewrite u64_sub_small by lia.
  replace (Z.of_N (N.of_nat (length l + k) - (N.of_nat k - N.of_nat (accepted_draft_count_ dr)))) with (Z.of_nat (length l + accepted_draft_count_ dr)) by lia.
  destruct Ho as [O1 O2 O3 O4 _]. unfold ended in R1.
  assert (exists e, g_end g = e) as [e He] by eauto. unfold ReleaseTurnResources, in_checkpoint, in_drafts, in_seeds.
  destruct (token_appended res) eqn:Et; destruct e as [[reason matched]|]; rewrite He in R1; rewrite R1;
    (eexists; split; [reflexivity|]); 
    (split;
     [exists s'; split; [exact O1|reflexivity|exact O3|exact O4|exact Hh]
     |cbn; rewrite A6, <- R3; by rewrite ?app_nil_r
     |cbn; unfold turn_after; rewrite A2, He; try (destruct (R2 _ _ He) as [-> ->]); rewrite <- R4; destruct (turn r0); cbn;
        by rewrite ?Nat.add_0_r
     |by unfold ended; rewrite He
     |unfold ended; rewrite He; first [done|exact A7]
     |first [done|exact A5]
     |done
     |cbn; rewrite A3; destruct (seeds r0); cbn in *; by subst
     |cbn; by rewrite A4]).
Qed.

Lemma emit_view limit t l c n g : emit p limit t (mkGen l c n None) = Some g -> picked p t l = final_view g.
Proof.
  unfold emit, picked, final_view. destruct (contains (eos_token_id p) t); [by intros [= <-]|].
  cbn. destruct (observe_pure c t) as [[m c']|]; [|done]. intros [= <-]. unfold at_eos. cbn. rewrite length_app. cbn.
  destruct m; [done|]. destruct (limit_reached _ _); [done|]. by destruct (max_length p <=? _).
Qed.

Lemma staged_reports limit t l c n g visible : emit p limit t (mkGen l c n None) = Some g ->
  reports l n (staged_result p t g visible) g.
Proof.
  unfold emit, staged_result, ended. destruct (contains (eos_token_id p) t) eqn:He.
  - intros [= <-]. split; cbn; [done| |apply app_nil_r|lia]. by intros ? ? [= <- <-].
  - cbn. destruct (observe_pure c t) as [[m c']|]; [|done]. intros [= <-]. split; [done| |done|done].
    intros reason matched Hg. cbn [finish_reason matched_stop_string_index]. by rewrite Hg.
Qed.

(** Generation so far. *)
Definition gen_of (r : Request (T := T) (G := G) (D := D)) (l : list Z) : gen (T := T) :=
  mkGen l (stop_controller_ r) (turn_generated_tokens_ (turn r)) None.

Lemma ready_room r l : ready r l -> length l < max_length p.
Proof.
  intros Hr. destruct (rd_search _ _ Hr) as [s Ho].
  destruct (holds_sequence p (ow_single _ _ _ _ _ Ho) _ _ _ _ _ (ow_holds _ _ _ _ _ Ho)) as (_ & _ & _ & _ & Hroom & _). by apply Hroom.
Qed.

Lemma ready_bound r l plan : ready r l -> ready (bound plan r) l.
Proof. intros [[s Ho] H1 H2 H3 H4 H5 H6 H7 H8 H9 H10]. split; try done. exists s. by destruct Ho. Qed.

Lemma apply_pending_seed_run r s v saved l seen d : pending_reseed_ (seeds r) = None -> owns p r s v saved -> v = (l, seen, d) ->
  apply_pending_seed r = (ROk tt, r).
Proof.
  intros Hp Ho ->. unfold apply_pending_seed. rewrite gets_bind, Hp. rewrite bool_decide_eq_false_2 by (by intros [? ?]). cbn [andb].
  unfold IsChunkComplete, ScheduledTokenCount. rewrite !bind_bind.
  rewrite (bind_ok _ _ _ _ _ (CurrentSequenceLength_run p _ _ _ _ _ _ Ho)), !bind_bind.
  by rewrite (bind_ok _ _ _ _ _ (unprocessed_run p _ _ _ _ _ _ Ho)).
Qed.

(** The planned tokens complete the sequence. *)
Lemma complete_chunk r r1 l l1 k plan : ready r l -> whole_plan r l k plan -> progress r1 = progress (bound plan r) ->
  length l1 <= length l + k ->
  (length l1 <=? Z.to_nat (processed_sequence_length_ (progress r1)) + scheduled_token_count_ (progress r1)) = true.
Proof.
  intros Hr Hw -> Hl. apply Nat.leb_le. cbn. pose proof (wp_tokens _ _ _ _ Hw). pose proof (rd_processed _ _ Hr). lia.
Qed.

(** A plain step up to its staged result: what the token it picks does. *)
Lemma plain_staged r l plan logits drawn :
  ready r l -> whole_plan r l 0 plan -> plain_policy (turn_policy_ (turn r)) ->
  0 < vocab_size p -> length logits = vocab_size p ->
  let t := row_pick (TurnEosFloor r) (Z.of_nat (length l)) logits in
  match emit p (limit_of r) t (gen_of r l) with
  | Some g => exists r' s', let res := staged_result p t g (if contains (eos_token_id p) t then [] else [t]) in
      stage_step plan (PlainRow logits drawn) r = (ROk res, r') /\
      owns p r' s' (final_view g) (Some (l, false, false)) /\ at_step (bound plan r) r' l (g_stop g) (drafts r) /\
      reports l (turn_generated_tokens_ (turn r)) res g
  | None => forall x r', stage_step plan (PlainRow logits drawn) r <> (ROk x, r')
  end.
Proof.
  intros Hr Hw Hpl Hv Hlen t. unfold stage_step. rewrite (bind_ok _ _ _ _ _ (bind_plan_run r l 0 plan Hr Hw ltac:(lia))).
  pose proof (ready_bound r l plan Hr) as Hb. set (r0 := bound plan r) in *. pose proof (ready_room r l Hr) as Hlt.
  destruct (BeginTransaction_run r0 l 0 Hb ltac:(lia) ltac:(lia)) as (r1 & s1 & Hrun & Ho & Hat).
  rewrite (wp_drafts _ _ _ _ Hw). change (N.to_nat (N.of_nat 0)) with 0. rewrite (bind_ok _ _ _ _ _ Hrun). rewrite take_0, app_nil_r in *. 
  unfold GenerateNextTokensForTransaction.
  assert (seeds r1 = seeds r) as Hsd by apply Hat.
  rewrite (bind_ok _ _ _ _ _ (apply_pending_seed_run r1 s1 _ _ _ _ _ ltac:(rewrite Hsd; apply Hr) Ho eq_refl)).
  assert (progress r1 = progress r0) as Hpg by apply Hat.
  rewrite (bind_ok _ _ _ _ _ (IsChunkComplete_run p _ _ _ _ _ _ Ho ltac:(rewrite Hpg; pose proof (rd_processed _ _ Hb); lia))).
  rewrite (complete_chunk r r1 l l 0 plan Hr Hw Hpg ltac:(lia)).
  pose proof (ApplyLogitsForTransaction_run r0 r1 s1 l _ _ _ _ logits drawn Ho Hat Hpl Hv Hlen) as Happ.
  cbn [staged_drafts Nat.eqb] in Happ. change (drafts r0) with (drafts r) in Happ. rewrite (rd_accepted _ _ Hr) in Happ.
  specialize (Happ ltac:(lia) ltac:(lia)). cbn zeta in Happ. rewrite Nat.add_0_r, Nat.sub_0_r, drop_all, app_nil_l in Happ.
  assert (TurnEosFloor r1 = TurnEosFloor r) as Hfl by (unfold TurnEosFloor; by rewrite Hpg, (at_turn _ _ _ _ _ Hat)).
  rewrite Hfl in Happ. change (emit p (limit_of r0)) with (emit (T := T) (E := E) p (limit_of r)) in Happ. fold t in Happ.
  change (mkGen l (stop_controller_ r0) (turn_generated_tokens_ (turn r0)) None) with (gen_of r l) in Happ.
  destruct (emit p (limit_of r) t (gen_of r l)) as [g|] eqn:Hem; [|done].
  destruct Happ as (r2 & s2 & Hrun2 & Ho2 & Hat2). rewrite (emit_view _ _ _ _ _ _ Hem) in Ho2. exists r2, s2.
  split; [done|]. split; [done|]. split; [done|]. by apply (staged_reports (limit_of r) _ _ (stop_controller_ r)).
Qed.

(** Committing it. *)
Lemma plain_step r l plan logits drawn :
  ready r l -> whole_plan r l 0 plan -> plain_policy (turn_policy_ (turn r)) ->
  0 < vocab_size p -> length logits = vocab_size p ->
  let t := row_pick (TurnEosFloor r) (Z.of_nat (length l)) logits in
  match emit p (limit_of r) t (gen_of r l) with
  | Some g => exists r', run_step plan (PlainRow logits drawn) r =
      (ROk (staged_result p t g (if contains (eos_token_id p) t then [] else [t])), r') /\
      advanced (bound plan r) r' g (Z.of_nat (length l))
  | None => forall x r', run_step plan (PlainRow logits drawn) r <> (ROk x, r')
  end.
Proof.
  intros Hr Hw Hpl Hv Hlen t. pose proof (plain_staged r l plan logits drawn Hr Hw Hpl Hv Hlen) as Hst. cbn zeta in Hst. fold t in Hst.
  unfold run_step. destruct (emit p (limit_of r) t (gen_of r l)) as [g|] eqn:Hem.
  - destruct Hst as (r2 & s2 & Hrun & Ho & Hat & Hrep). rewrite (bind_ok _ _ _ _ _ Hrun).
    pose proof (ready_bound r l plan Hr) as Hb. pose proof (ready_room r l Hr) as Hlt. pose proof (rd_accepted _ _ Hr) as Hacc.
    destruct (commit_run (bound plan r) r2 s2 l _ l _ (drafts r) g _ plan 0 Ho Hat Hb eq_refl
      ltac:(rewrite Hacc, Nat.add_0_r; exact Hrep) (wp_drafts _ _ _ _ Hw) (wp_slots _ _ _ _ Hw) ltac:(lia) ltac:(lia)) as (r' & Hc & Hadv).
    exists r'. split; [done|]. by rewrite Hacc, Nat.add_0_r in Hadv.
  - intros x r' (y & r2 & Hy & _)%bind_inv_ok. by apply Hst in Hy.
Qed.

(** ** Accepting drafts *)

(** What the verification of drafts has recorded about how [g] ended. *)
Definition verdict (v : DraftVerificationState) (g : gen (T := T)) : Prop :=
  match g_end g with
  | None => v = no_verification
  | Some (reason, matched) => completed_generation v = true /\
      match reason with
      | StopString => stop_match_index v = matched /\ (0 <= matched)%Z
      | EosToken => stop_match_index v = (-1)%Z /\ eos v = true /\ matched = (-1)%Z
      | TurnLimit | ContextLimit => stop_match_index v = (-1)%Z /\ eos v = false /\ matched = (-1)%Z
      | _ => False
      end
  end.

(** The counters of the drafts once the sequence has grown from [l0] tokens to those of [g]. *)
Record verified (limit : option N) (n0 l0 : nat) (dr : Drafts) (g : gen (T := T)) : Prop := mk_verified
  { vf_staged : staged_draft_count_ dr = accepted_draft_count_ dr;
    vf_count : n0 + accepted_draft_count_ dr = g_count g;
    vf_len : l0 + accepted_draft_count_ dr = length (g_tokens g);
    vf_verdict : verdict (draft_verification_ dr) g;
    vf_limit : forall reason matched, g_end g = Some (reason, matched) -> reason <> StopString ->
                 limit_reached limit (g_count g) = bool_decide (reason = TurnLimit) }.

(** A sequence that goes on. *)
Record live (limit : option N) (g : gen (T := T)) : Prop := mk_live
  { lv_end : g_end g = None;
    lv_room : length (g_tokens g) < max_length p;
    lv_limit : limit_reached limit (g_count g) = false }.

Lemma live_view limit g : live limit g -> final_view g = (g_tokens g, false, false).
Proof. intros [He Hl _]. unfold final_view, at_eos. rewrite He. cbn. by rewrite (proj2 (Nat.eqb_neq _ _)) by lia. Qed.

Lemma emit_live limit t g g' : live limit g -> emit p limit t g = Some g' -> g_end g' = None -> live limit g'.
Proof.
  intros [_ Hr _]. unfold emit. destruct (contains _ t); [by intros [= <-]|]. cbn.
  destruct (observe_pure _ t) as [[m c]|]; [|done]. intros [= <-] He. cbn in He. split; [done|cbn|cbn].
  - destruct m; [done|]. destruct (limit_reached _ _); [done|]. destruct (Nat.leb_spec (max_length p) (length (g_tokens g ++ [t]))); [done|lia].
  - destruct m; [done|]. by destruct (limit_reached _ _).
Qed.

(** What was proposed. *)
Definition proposal (d : Drafts) : list Z * list TargetTokenSelection := (draft_tokens_ d, draft_token_distributions_ d).

Lemma CommitToken_run t r s l saved : owns p r s (l, false, false) saved ->
  exists s', on_search (fun p => CommitToken p t) r = (ROk tt, r <| search_ := Some s' |>) /\
    owns p (r <| search_ := Some s' |>) s' (picked p t l) saved /\ next_tokens_ s' = [t].
Proof.
  intros Ho. pose proof (ow_single _ _ _ _ _ Ho) as Hsg. pose proof (ow_holds _ _ _ _ _ Ho) as Hh.
  destruct (one_commit p Hsg t s l false saved Hh) as (s' & Hs & Hh').
  destruct (commit_next p Hsg t s l false saved Hh) as (s2 & Hs2 & Hn). rewrite Hs in Hs2. injection Hs2 as <-.
  exists s'. destruct (owns_op (E := E) (GE := GE) p r s _ _ (fun p => CommitToken p t) s' _ _ Ho Hs Hh'). done.
Qed.

Lemma limit_same r0 r n : turn r = turn r0 -> turn_limit_reached n r = limit_reached (limit_of r0) n.
Proof. intros Ht. unfold turn_limit_reached, limit_reached, limit_of. by rewrite Ht. Qed.

Lemma accept_draft_run t r0 r s saved (l0 : nat) dr g g' :
  let limit := limit_of r0 in let n0 := turn_generated_tokens_ (turn r0) in
  live limit g -> owns p r s (final_view g) saved -> at_step r0 r (g_tokens g) (g_stop g) dr -> verified limit n0 l0 dr g ->
  emit p limit t g = Some g' ->
  exists r' s' dr', accept_draft t r = (ROk (ended g'), r') /\ owns p r' s' (final_view g') saved /\
    at_step r0 r' (g_tokens g') (g_stop g') dr' /\ verified limit n0 l0 dr' g' /\ proposal dr' = proposal dr.
Proof.
  intros limit n0 Hl Ho Hat Hvf Hem. pose proof (live_view _ _ Hl) as Hview. rewrite Hview in Ho.
  destruct Hat as [A1 A2 A3 A4 A5 A6 A7 A8 A9], Hvf as [V1 V2 V3 V4 V5].
  unfold verdict in V4. rewrite (lv_end _ _ Hl) in V4.
  unfold accept_draft, in_drafts. rewrite modify_bind. set (r1 := r <| drafts := _ |>).
  assert (owns p r1 s (g_tokens g, false, false) saved) as Ho1 by (by destruct Ho).
  rewrite (bind_ok _ _ _ _ _ (CurrentSequenceLength_run p _ _ _ _ _ _ Ho1)).
  destruct (CommitToken_run t r1 s _ _ Ho1) as (s2 & Hrun & Ho2 & _). rewrite (bind_ok _ _ _ _ _ Hrun).
  set (r2 := r1 <| search_ := Some s2 |>) in *. unfold emit in Hem. unfold picked in Ho2.
  destruct (contains (eos_token_id p) t) eqn:He.
  - injection Hem as <-. rewrite (bind_ok _ _ _ _ _ (CurrentSequenceLength_run p _ _ _ _ _ _ Ho2)), (bind_ok _ _ _ _ _ (IsDone_run p _ _ _ _ _ _ Ho2)).
    rewrite (proj2 (Z.eqb_neq _ _)) by lia. rewrite Z.eqb_refl. cbn [negb orb]. rewrite ret_bind, gets_bind.
    rewrite (bind_ok _ _ _ _ _ (IsStopToken_run _ _ _ (ow_params _ _ _ _ _ Ho2))), He. cbn [orb andb]. rewrite modify_bind.
    eexists _, s2, _. split; [reflexivity|]. split; [by destruct Ho2|]. split; [by split|]. subst dr. split; [|done].
    split; [done|done|done|cbn|cbn].
    + rewrite V4. done.
    + intros ? ? [= <- <-] _. rewrite (lv_limit _ _ Hl). done.
  - cbn [mbind option_bind] in Hem. destruct (observe_pure (g_stop g) t) as [[m c]|] eqn:Hob; [|done]. injection Hem as <-.
    rewrite (bind_ok _ _ _ _ _ (CurrentSequenceLength_run p _ _ _ _ _ _ Ho2)), (bind_ok _ _ _ _ _ (IsDone_run p _ _ _ _ _ _ Ho2)).
    assert ((Z.of_nat (length (g_tokens g ++ [t])) =? Z.of_nat (length (g_tokens g)) + 1)%Z = true) as -> by (apply Z.eqb_eq; rewrite length_app; cbn; lia).
    rewrite bind_bind, modify_bind, bind_bind, modify_bind. set (r3 := r2 <| tokens_host_ := _ |> <| drafts := _ |>).
    assert (commit_guidance [t] r3 = (ROk tt, r3)) as Hc by (unfold commit_guidance; change (guidance_logits_processor_ r3) with (guidance_logits_processor_ r); by rewrite A5).
    rewrite bind_bind, (bind_ok _ _ _ _ _ Hc). rewrite <- A7 in Hob.
    rewrite bind_bind, (bind_ok _ _ _ _ _ (observe_stop_run (GE := GE) t r3 m c Hob)). set (r4 := r3 <| stop_controller_ := c |>).
    assert (owns p r4 s2 (g_tokens g ++ [t], false, length (g_tokens g) + 1 =? max_length p) saved) as Ho4 by (by destruct Ho2).
    destruct m as [m|].
    + rewrite bind_bind, modify_bind, ret_bind. eexists _, s2, _. split; [reflexivity|].
      split; [unfold final_view, at_eos; cbn; rewrite length_app; by destruct Ho4|].
      split; [split; try done; cbn; by rewrite A6|]. split; [|by rewrite <- A8]. split; cbn; [rewrite A8; lia|rewrite A8; lia|rewrite A8, length_app; cbn; lia|split; [done|lia]|by intros ? ? [= <- <-]].
    + rewrite ret_bind, gets_bind. rewrite (bind_ok _ _ _ _ _ (IsStopToken_run _ r4 _ (ow_params _ _ _ _ _ Ho4))), He, andb_false_r.
      unfold id. rewrite (limit_same r0 r4) by done. change (turn r4) with (turn r). change (drafts r4) with (drafts r3).
      assert (turn_generated_tokens_ (turn r) + accepted_draft_count_ (drafts r3) = g_count g + 1) as -> by (cbn; rewrite A2, A8; fold n0; lia).
      rewrite length_app. cbn [length]. pose proof (lv_room _ _ Hl) as Hroom. fold limit.
      replace (max_length p <=? length (g_tokens g) + 1) with (length (g_tokens g) + 1 =? max_length p)
        by (apply Bool.eq_iff_eq_true; rewrite Nat.leb_le, Nat.eqb_eq; lia).
      assert (verified limit n0 l0 (drafts r3) (mkGen (g_tokens g ++ [t]) c (g_count g + 1) None)) as Hv.
      { split; cbn; [rewrite A8; lia|rewrite A8; lia|rewrite A8, length_app; cbn; lia|by rewrite A8|done]. }
      destruct (length (g_tokens g) + 1 =? max_length p) eqn:Hfull, (limit_reached limit (g_count g + 1)) eqn:Hlim; cbn [orb];
        rewrite ?modify_bind; (eexists _, s2, _; split; [reflexivity|]);
        (split; [unfold final_view, at_eos; cbn; rewrite length_app; cbn [length]; rewrite Hfull; by destruct Ho4|]);
        (split; [split; try done; cbn; by rewrite A6|]); (split; [|by rewrite <- A8]);
        first [exact Hv|destruct Hv as [X1 X2 X3 X4 _]; split; [done|done|done|cbn; by rewrite A8, V4|cbn; intros ? ? [= <- <-] _; by rewrite Hlim]].
Qed.

Lemma accept_loop_run ts : forall r0 r s saved (l0 : nat) dr g g',
  let limit := limit_of r0 in let n0 := turn_generated_tokens_ (turn r0) in
  live limit g -> owns p r s (final_view g) saved -> at_step r0 r (g_tokens g) (g_stop g) dr -> verified limit n0 l0 dr g ->
  emit_all p limit ts g = Some g' ->
  exists r' s' dr', accept_loop ts r = (ROk tt, r') /\ owns p r' s' (final_view g') saved /\
    at_step r0 r' (g_tokens g') (g_stop g') dr' /\ verified limit n0 l0 dr' g' /\ proposal dr' = proposal dr /\
    (g_end g' = None -> live limit g').
Proof.
  induction ts as [|t ts IH]; intros r0 r s saved l0 dr g g' limit n0 Hl Ho Hat Hvf Hem; cbn [accept_loop emit_all] in *.
  { injection Hem as <-. eexists r, s, dr. done. }
  destruct (emit p limit t g) as [g1|] eqn:He1; [|done]. cbn [mbind option_bind] in Hem.
  destruct (accept_draft_run t r0 r s saved l0 dr g g1 Hl Ho Hat Hvf He1) as (r1 & s1 & dr1 & Hrun & Ho1 & Hat1 & Hvf1 & Hpr).
  rewrite <- Hpr. rewrite (bind_ok _ _ _ _ _ Hrun). unfold ended. destruct (g_end g1) as [e|] eqn:Hend.
  - injection Hem as <-. rewrite bool_decide_eq_true_2 by eauto. eexists r1, s1, dr1. split; [done|]. split; [done|]. split; [done|]. split; [done|]. split; [done|]. congruence.
  - rewrite bool_decide_eq_false_2 by (by intros [? ?]). apply (IH r0 r1 s1 saved l0 dr1 g1 g'); [by apply (emit_live limit t g)|done..].
Qed.

(** Undoing the staged drafts and accepting the first [a] of them again. *)
Lemma CommitAcceptedDrafts_run r0 r s l k a g :
  let limit := limit_of r0 in let n0 := turn_generated_tokens_ (turn r0) in
  let ts := draft_tokens_ (drafts r0) in
  ready r0 l -> k <> 0 -> a <= k -> k <= length ts -> length l + k < max_length p ->
  owns p r s (l ++ take k ts, false, false) (Some (l, false, false)) ->
  at_step r0 r (l ++ take k ts) (stop_controller_ r0) (staged_drafts k (drafts r0)) ->
  emit_all p limit (take a ts) (mkGen l (stop_controller_ r0) n0 None) = Some g ->
  exists r' s' dr', CommitAcceptedDraftsForTransaction a r = (ROk tt, r') /\ owns p r' s' (final_view g) (Some (l, false, false)) /\
    at_step r0 r' (g_tokens g) (g_stop g) dr' /\ verified limit n0 (length l) dr' g /\ proposal dr' = proposal (drafts r0) /\
    (g_end g = None -> live limit g).
Proof.
  intros limit n0 ts Hr Hk Hak Hts Hm Ho Hat Hem. destruct Hat as [A1 A2 A3 A4 A5 A6 A7 A8 A9].
  assert (length (l ++ take k ts) = length l + k) as Hlen by (rewrite length_app, length_take; lia).
  assert (drafts r = staged_drafts k (drafts r0)) as Hdr by done. unfold staged_drafts in Hdr. rewrite (proj2 (Nat.eqb_neq _ _) Hk) in Hdr.
  unfold CommitAcceptedDraftsForTransaction, in_drafts. rewrite gets_bind, Hdr. cbn [staged_draft_count_ set_field set_staged_draft_count set_accepted_draft_count set_evaluated_draft_count set_draft_verification].
  rewrite throw_if_false by (by apply Nat.ltb_ge). rewrite (bind_ok _ _ _ _ _ (CurrentSequenceLength_run p _ _ _ _ _ _ Ho)).
  rewrite Nat2Z.id, Hlen, Nat.add_sub, modify_bind. set (r1 := r <| tokens_host_ := _ |>).
  destruct (one_rewind p (ow_single _ _ _ _ _ Ho) (length l) s _ _ _ _ (ow_holds _ _ _ _ _ Ho)) as (s2 & Hs2 & Hh2); [lia|lia|by intros ? [= <-]|].
  rewrite take_app_length in Hh2. assert (owns p r1 s (l ++ take k ts, false, false) (Some (l, false, false))) as Ho1 by (by destruct Ho).
  destruct (owns_op (E := E) (GE := GE) p r1 s _ _ (fun p => RewindTo p (length l)) s2 _ _ Ho1 Hs2 Hh2) as [Hrun2 Ho2].
  rewrite (bind_ok _ _ _ _ _ Hrun2), modify_bind. set (r3 := r1 <| search_ := Some s2 |> <| drafts := _ |>). rewrite gets_bind.
  assert (draft_tokens_ (drafts r3) = ts) as -> by (cbn; by rewrite Hdr). rewrite (proj2 (Nat.ltb_ge (length ts) a)) by lia.
  set (g0 := mkGen l (stop_controller_ r0) n0 None) in *.
  assert (tokens_host_ r3 = l) as Hh3.
  { cbn. rewrite A6, Hlen, Nat.add_sub. unfold resize. rewrite Hlen, take_app_length.
    replace (length l - (length l + k)) with 0 by lia. apply app_nil_r. }
  destruct (accept_loop_run (take a ts) r0 r3 s2 (Some (l, false, false)) (length l) (drafts r3) g0 g) as (r4 & s4 & dr4 & Hrun4 & Ho4 & Hat4 & Hvf4 & Hpr & Hlv).
  - split; [done|cbn; lia|apply Hr].
  - unfold final_view, at_eos. cbn [g_end g0 g_tokens orb]. rewrite (proj2 (Nat.eqb_neq _ _)) by lia. by destruct Ho2.
  - by split.
  - split; cbn; [done|lia|lia|done|done].
  - done.
  - assert (proposal (drafts r3) = proposal (drafts r0)) as Hpr3 by (unfold proposal; cbn; by rewrite Hdr). rewrite Hpr3 in Hpr.
    rewrite (bind_ok _ _ _ _ _ Hrun4), gets_bind. case_match.
    + eexists _, s4, _. split; [reflexivity|]. split; [by destruct Ho4|]. split; [destruct Hat4; by split|].
      destruct Hat4 as [_ _ _ _ _ _ _ H8 _], Hvf4. rewrite H8. by split.
    + by exists r4, s4, dr4.
Qed.

(** ** The whole verification *)

Lemma accepted_prefix_take picks staged : take (accepted_prefix picks staged) staged = take (accepted_prefix picks staged) picks.
Proof.
  revert staged. induction picks as [|b picks IH]; intros [|d staged]; cbn; [done..|].
  destruct (Z.eqb_spec b d) as [->|]; cbn; [by rewrite IH|done].
Qed.

Lemma accepted_prefix_le picks staged : accepted_prefix picks staged <= length staged.
Proof. revert staged. induction picks as [|b picks IH]; intros [|d staged]; cbn; try lia. destruct (b =? d)%Z; [|lia]. specialize (IH staged). lia. Qed.

Lemma emit_all_snoc limit ts t g g' : g_end g = None -> emit_all p limit (ts ++ [t]) g = Some g' ->
  exists g1, emit_all p limit ts g = Some g1 /\
    match g_end g1 with Some _ => g' = g1 | None => emit p limit t g1 = Some g' end.
Proof.
  revert g. induction ts as [|u ts IH]; intros g He Hem; cbn [emit_all app] in *.
  - exists g. split; [done|]. rewrite He. destruct (emit p limit t g) as [g1|]; [|done]. cbn in Hem. by destruct (g_end g1).
  - destruct (emit p limit u g) as [g1|]; [|done]. cbn [mbind option_bind] in *. destruct (g_end g1) as [e|] eqn:He1; [|by apply IH].
    injection Hem as <-. exists g1. split; [done|]. by rewrite He1.
Qed.

Lemma on_eos_ids r s v saved : owns p r s v saved -> on_search (fun p => mret (eos_token_id p)) r = (ROk (eos_token_id p), r).
Proof. intros [Hp Hs _ _ _]. rewrite (on_search_ok _ r p s (eos_token_id p) s) by done. by rewrite set_search_id. Qed.

Lemma verify_greedy_run r0 r s l k rows g :
  let ts := draft_tokens_ (drafts r0) in
  let picks := verify_argmax (TurnEosFloor r0) (Z.of_nat (length l)) (eos_token_id p) rows in
  let a := accepted_prefix picks (take k ts) in
  ready r0 l -> k <> 0 -> k <= length ts -> length l + k < max_length p ->
  owns p r s (l ++ take k ts, false, false) (Some (l, false, false)) ->
  at_step r0 r (l ++ take k ts) (stop_controller_ r0) (staged_drafts k (drafts r0)) ->
  emit_all p (limit_of r0) (take a ts) (mkGen l (stop_controller_ r0) (turn_generated_tokens_ (turn r0)) None) = Some g ->
  length rows = k + 1 ->
  exists r' s' dr' best, picks !! a = Some best /\ verify_greedy rows r = (ROk best, r') /\ owns p r' s' (final_view g) (Some (l, false, false)) /\
    at_step r0 r' (g_tokens g) (g_stop g) dr' /\ verified (limit_of r0) (turn_generated_tokens_ (turn r0)) (length l) dr' g /\
    proposal dr' = proposal (drafts r0) /\ (g_end g = None -> live (limit_of r0) g) /\ a <= k.
Proof.
  intros ts picks a Hr Hk Hts Hm Ho Hat Hem Hrows.
  assert (a <= k) as Hak by (pose proof (accepted_prefix_le picks (take k ts)) as H; rewrite length_take in H; unfold a; lia).
  destruct (CommitAcceptedDrafts_run r0 r s l k a g Hr Hk Hak Hts Hm Ho Hat Hem) as (r1 & s1 & dr1 & Hrun & Ho1 & Hat1 & Hvf1 & Hpr1 & Hlv1).
  assert (is_Some (picks !! a)) as [best Hb].
  { apply lookup_lt_is_Some. unfold picks. rewrite verify_argmax_picks, length_imap, Hrows. lia. }
  exists r1, s1, dr1, best. split; [done|]. split; [|done]. unfold verify_greedy. rewrite gets_bind. unfold CommittedSequenceLength. rewrite bind_bind.
  rewrite (bind_ok _ _ _ _ _ (CurrentSequenceLength_run p _ _ _ _ _ _ Ho)), bind_bind, gets_bind, ret_bind, (bind_ok _ _ _ _ _ (on_eos_ids _ _ _ _ Ho)).
  unfold id, StagedDraftTokens. rewrite (at_drafts _ _ _ _ _ Hat). unfold staged_drafts. rewrite (proj2 (Nat.eqb_neq _ _) Hk). cbn [staged_draft_count_ draft_tokens_ set_field set_staged_draft_count set_accepted_draft_count set_evaluated_draft_count set_draft_verification].
  assert (TurnEosFloor r = TurnEosFloor r0) as -> by (unfold TurnEosFloor; by rewrite (at_turn _ _ _ _ _ Hat), (at_progress _ _ _ _ _ Hat)).
  replace (Z.of_nat (length (l ++ take k ts)) - Z.of_nat k)%Z with (Z.of_nat (length l)) by (rewrite length_app, length_take; lia).
  fold ts picks a. rewrite (bind_ok _ _ _ _ _ Hrun). fold picks. by rewrite Hb.
Qed.

Lemma StageDraftCompletion_run r0 r (l0 : nat) dr g reason matched :
  at_step r0 r (g_tokens g) (g_stop g) dr -> verified (limit_of r0) (turn_generated_tokens_ (turn r0)) l0 dr g ->
  g_end g = Some (reason, matched) -> accepted_draft_count_ dr <= 8 ->
  StageDraftCompletionForTransaction r = (ROk (mkStepResult 0 false true reason matched (drop l0 (g_tokens g))), r).
Proof.
  intros [A1 A2 A3 A4 A5 A6 A7 A8 A9] [V1 V2 V3 V4 V5] He H8. unfold StageDraftCompletionForTransaction. rewrite gets_bind. unfold id. rewrite A8.
  unfold verdict in V4. rewrite He in V4. destruct V4 as [Hc Hv]. rewrite Hc, throw_if_false by done. rewrite (limit_same r0 r) by done. rewrite A2, V2.
  assert (forall re ma, (visible ← StageVisibleTokens (accepted_draft_count_ dr) None; mret (mkStepResult 0 false true re ma visible)) r =
    (ROk (mkStepResult 0 false true re ma (drop l0 (g_tokens g))), r)) as Hrest.
  { intros re ma. rewrite (bind_ok _ _ _ _ _ (StageVisibleTokens_run (accepted_draft_count_ dr) None r ltac:(rewrite A6; lia) ltac:(cbn; lia))).
    rewrite A6. cbn [option_list]. rewrite app_nil_r. unfold mret, M_ret. do 4 f_equal. lia. }
  specialize (V5 reason matched He).
  destruct reason; try done; [|destruct Hv as [Hi Hm]; rewrite Hi, (proj2 (Z.leb_le _ _)) by done; apply Hrest|..];
    destruct Hv as (Hi & Hs & ->); rewrite Hi, V5, ?Hs by done; apply Hrest.
Qed.

Lemma emit_prefix limit t g g' : emit p limit t g = Some g' ->
  g_tokens g' = g_tokens g ++ (if contains (eos_token_id p) t then [] else [t]).
Proof.
  unfold emit. destruct (contains _ t); [by intros [= <-]; rewrite app_nil_r|]. cbn.
  destruct (observe_pure _ t) as [[m c]|]; [|done]. by intros [= <-].
Qed.

Lemma emit_grows limit t g g' : emit p limit t g = Some g' -> g_end g' = None -> length (g_tokens g') = length (g_tokens g) + 1.
Proof.
  unfold emit. destruct (contains _ t); [by intros [= <-]|]. cbn. destruct (observe_pure _ t) as [[m c]|]; [|done].
  intros [= <-] _. cbn. by rewrite length_app.
Qed.

Lemma emit_all_length limit ts g g' : emit_all p limit ts g = Some g' -> length (g_tokens g') <= length (g_tokens g) + length ts.
Proof.
  revert g. induction ts as [|t ts IH]; intros g; cbn [emit_all length]; [intros [= <-]; lia|].
  destruct (emit p limit t g) as [g1|] eqn:He; [|done]. cbn [mbind option_bind].
  assert (length (g_tokens g1) <= length (g_tokens g) + 1) by (rewrite (emit_prefix _ _ _ _ He), length_app; case_match; cbn; lia).
  destruct (g_end g1); [intros [= <-]; lia|]. intros H1%IH. lia.
Qed.

Lemma emit_all_prefix limit ts : forall g g', emit_all p limit ts g = Some g' -> exists y, g_tokens g' = g_tokens g ++ y.
Proof.
  induction ts as [|t ts IH]; intros g g'; cbn [emit_all]; [intros [= <-]; exists []; by rewrite app_nil_r|].
  destruct (emit p _ _ g) as [g1|] eqn:He; [|done]. cbn [mbind option_bind]. pose proof (emit_prefix _ _ _ _ He) as Hpre.
  destruct (g_end g1); [intros [= <-]; eauto|]. intros [y Hy]%IH. rewrite Hy, Hpre, <- app_assoc. eauto.
Qed.

(** The picks up to the first disagreement: the accepted drafts and one more token. *)
Lemma accepted_picks rows floor committed ts k : length rows = k + 1 -> k <= length ts ->
  let picks := verify_argmax floor committed (eos_token_id p) rows in
  let a := accepted_prefix picks (take k ts) in
  a <= k /\ exists best, picks !! a = Some best /\ take (a + 1) picks = take a ts ++ [best].
Proof.
  intros Hrows Hts picks a.
  assert (a <= k) as Hak by (pose proof (accepted_prefix_le picks (take k ts)) as H; rewrite length_take in H; unfold a; lia).
  split; [done|].
  assert (is_Some (picks !! a)) as [best Hbest] by (apply lookup_lt_is_Some; unfold picks; rewrite verify_argmax_picks, length_imap, Hrows; lia).
  exists best. split; [done|]. rewrite Nat.add_1_r, (take_S_r _ _ _ Hbest). f_equal. unfold a. rewrite <- accepted_prefix_take, take_take.
  f_equal. fold a. lia.
Qed.

(** The token after the accepted drafts. *)
Lemma bonus_staged plan r0 l r s dr best g1 g :
  live (limit_of r0) g1 -> owns p r s (final_view g1) (Some (l, false, false)) -> at_step r0 r (g_tokens g1) (g_stop g1) dr ->
  verified (limit_of r0) (turn_generated_tokens_ (turn r0)) (length l) dr g1 -> accepted_draft_count_ dr < 8 ->
  sequence_length_before plan = Z.of_nat (length l) -> emit p (limit_of r0) best g1 = Some g ->
  exists res r' s', (_ ← on_search (fun p => CommitToken p best); StageGenerationForTransaction plan) r = (ROk res, r') /\
    owns p r' s' (final_view g) (Some (l, false, false)) /\ at_step r0 r' (g_tokens g1) (g_stop g) dr /\
    reports (g_tokens g1) (turn_generated_tokens_ (turn r0) + accepted_draft_count_ dr) res g /\
    visible_tokens res = drop (length l) (g_tokens g) /\
    length l + accepted_draft_count_ dr + (if ended g then 0 else 1) <= length (g_tokens g).
Proof.
  intros Hlv Ho [A1 A2 A3 A4 A5 A6 A7 A8 A9] Hvf H8 Hbefore Hem. rewrite (live_view _ _ Hlv) in Ho. pose proof (vf_len _ _ _ _ _ Hvf) as Hvl.
  destruct (CommitToken_run best r s _ _ Ho) as (s3 & Hrun3 & Ho3 & Hn). rewrite (bind_ok _ _ _ _ _ Hrun3).
  set (r3 := r <| search_ := Some s3 |>) in *. unfold StageGenerationForTransaction. rewrite gets_bind.
  change (drafts r3) with (drafts r). rewrite A8, Hbefore.
  replace (Z.of_nat (length l) + Z.of_nat (accepted_draft_count_ dr))%Z with (Z.of_nat (length (g_tokens g1))) by lia.
  assert (g1 = mkGen (g_tokens g1) (g_stop g1) (turn_generated_tokens_ (turn r0) + accepted_draft_count_ dr) None) as Hg1.
  { rewrite (vf_count _ _ _ _ _ Hvf), <- (lv_end _ _ Hlv). by destruct g1. }
  assert (limit_of r0 = limit_of r3) as Hlim by (unfold limit_of; by rewrite <- A2).
  rewrite Hg1 in Hem. pose proof Hem as Hst. rewrite Hlim, <- A2, <- A7, <- A8 in Hst.
  apply (StageGeneration_run p best r3 s3 (g_tokens g1) _ g Ho3 Hn A5 ltac:(cbn; rewrite A6, A8; lia) ltac:(cbn; by rewrite A8)) in Hst.
  rewrite (emit_view _ _ _ _ _ _ Hem) in Ho3. set (r4 := r3 <| stop_controller_ := g_stop g |>) in *.
  eexists _, r4, s3. split; [exact Hst|]. split; [by destruct Ho3|]. split; [by split|]. split; [|split].
  - by apply (staged_reports (limit_of r0) _ _ (g_stop g1)).
  - cbn [visible_tokens staged_result]. rewrite (emit_prefix _ _ _ _ Hem). cbn. rewrite A6, A8.
    replace (length (g_tokens g1) - accepted_draft_count_ dr) with (length l) by lia. by rewrite drop_app_le by lia.
  - unfold ended. destruct (g_end g) eqn:Hge.
    + rewrite (emit_prefix _ _ _ _ Hem), length_app. cbn [g_tokens]. rewrite bool_decide_eq_true_2 by eauto. lia.
    + rewrite (emit_grows _ _ _ _ Hem Hge). cbn [g_tokens]. rewrite bool_decide_eq_false_2 by (by intros [? ?]). lia.
Qed.

(** A speculative step up to its staged result: what its tokens do one by one. *)
Lemma speculative_staged r l k plan rows g :
  let ts := draft_tokens_ (drafts r) in
  let picks := verify_argmax (TurnEosFloor r) (Z.of_nat (length l)) (eos_token_id p) rows in
  let a := accepted_prefix picks (take k ts) in
  ready r l -> whole_plan r l k plan -> 0 < k <= 7 -> k <= length ts -> length l + k < max_length p -> length rows = k + 1 ->
  emit_all p (limit_of r) (take (a + 1) picks) (gen_of r l) = Some g ->
  exists res r' s' host dr, stage_step plan (GreedyRows rows) r = (ROk res, r') /\
    owns p r' s' (final_view g) (Some (l, false, false)) /\ at_step (bound plan r) r' host (g_stop g) dr /\
    reports host (turn_generated_tokens_ (turn r) + accepted_draft_count_ dr) res g /\ accepted_draft_count_ dr <= k /\
    visible_tokens res = drop (length l) (g_tokens g) /\ l `prefix_of` host /\ proposal dr = proposal (drafts r) /\
    length l + accepted_draft_count_ dr + (if ended g then 0 else 1) <= length (g_tokens g).
Proof.
  intros ts picks a Hr Hw Hk Hts Hm Hrows Hem. unfold stage_step.
  rewrite (bind_ok _ _ _ _ _ (bind_plan_run r l k plan Hr Hw Hts)).
  pose proof (ready_bound r l plan Hr) as Hb. set (r0 := bound plan r) in *.
  destruct (BeginTransaction_run r0 l k Hb Hts Hm) as (r1 & s1 & Hrun & Ho & Hat).
  rewrite (wp_drafts _ _ _ _ Hw), Nat2N.id, (bind_ok _ _ _ _ _ Hrun). unfold GenerateNextTokensForTransaction.
  assert (seeds r1 = seeds r) as Hsd by apply Hat.
  rewrite (bind_ok _ _ _ _ _ (apply_pending_seed_run r1 s1 _ _ _ _ _ ltac:(rewrite Hsd; apply Hr) Ho eq_refl)).
  destruct (accepted_picks rows (TurnEosFloor r) (Z.of_nat (length l)) ts k Hrows Hts) as (Hak & best & Hbest & Htake).
  fold picks in Hak, Hbest, Htake. fold a in Hak, Hbest, Htake.
  rewrite Htake in Hem. apply emit_all_snoc in Hem as (g1 & Hem1 & Hlast); [|done].
  destruct (verify_greedy_run r0 r1 s1 l k rows g1 Hb ltac:(lia) Hts Hm Ho Hat Hem1 Hrows) as (r2 & s2 & dr2 & best' & Hb' & Hrun2 & Ho2 & Hat2 & Hvf & Hpr & Hlv & _).
  change (picks !! a = Some best') in Hb'. rewrite Hbest in Hb'. injection Hb' as <-.
  rewrite (bind_ok _ _ _ _ _ Hrun2), gets_bind, (at_drafts _ _ _ _ _ Hat2). pose proof (vf_len _ _ _ _ _ Hvf) as Hvl.
  assert (l `prefix_of` g_tokens g1) as Hpre by (destruct (emit_all_prefix _ _ _ _ Hem1) as [y Hy]; exists y; exact Hy).
  assert (accepted_draft_count_ dr2 <= k) as Hacc by (apply emit_all_length in Hem1; rewrite length_take in Hem1; cbn in Hem1; lia).
  pose proof (vf_verdict _ _ _ _ _ Hvf) as Hv. unfold verdict in Hv. destruct (g_end g1) as [[reason matched]|] eqn:Hend.
  - subst g1. destruct Hv as [-> _]. eexists _, r2, s2, (g_tokens g), dr2.
    split; [apply (StageDraftCompletion_run r0 r2 (length l) dr2 g reason matched Hat2 Hvf Hend); lia|].
    split; [done|]. split; [done|]. split; [|split; [done|split; [done|split; [done|split; [done|]]]]].
    + split; [unfold ended; by rewrite Hend|by rewrite Hend; intros ? ? [= -> ->]|by rewrite app_nil_r|rewrite Nat.add_0_r; apply Hvf].
    + unfold ended. rewrite Hend. cbn. lia.
  - specialize (Hlv eq_refl). rewrite Hv. cbn [completed_generation no_verification].
    assert (progress r2 = progress r0) as Hpg by apply Hat2. pose proof Ho2 as Ho2'. rewrite (live_view _ _ Hlv) in Ho2'.
    rewrite (bind_ok _ _ _ _ _ (IsChunkComplete_run p _ _ _ _ _ _ Ho2' ltac:(rewrite Hpg; pose proof (rd_processed _ _ Hr); cbn; lia))).
    rewrite (complete_chunk r r2 l (g_tokens g1) k plan Hr Hw Hpg ltac:(lia)).
    destruct (bonus_staged plan r0 l r2 s2 dr2 best g1 g Hlv Ho2 Hat2 Hvf ltac:(lia) (wp_before _ _ _ _ Hw) Hlast) as (res & r4 & s4 & Hst & H1 & H2 & H3 & H4 & H5).
    by exists res, r4, s4, (g_tokens g1), dr2.
Qed.

(** Committing it. *)
Lemma speculative_step r l k plan rows g :
  let ts := draft_tokens_ (drafts r) in
  let picks := verify_argmax (TurnEosFloor r) (Z.of_nat (length l)) (eos_token_id p) rows in
  let a := accepted_prefix picks (take k ts) in
  ready r l -> whole_plan r l k plan -> 0 < k <= 7 -> k <= length ts -> length l + k < max_length p -> length rows = k + 1 ->
  emit_all p (limit_of r) (take (a + 1) picks) (gen_of r l) = Some g ->
  exists res r' accepted, run_step plan (GreedyRows rows) r = (ROk res, r') /\
    advanced (bound plan r) r' g (Z.of_nat (length l + accepted)) /\
    visible_tokens res = drop (length l) (g_tokens g) /\ done res = ended g /\
    length l + accepted + (if ended g then 0 else 1) <= length (g_tokens g).
Proof.
  intros ts picks a Hr Hw Hk Hts Hm Hrows Hem.
  destruct (speculative_staged r l k plan rows g Hr Hw Hk Hts Hm Hrows Hem) as (res & r1 & s1 & host & dr & Hrun & Ho & Hat & Hrep & Hacc & Hvis & _ & _ & Hgrow).
  destruct (commit_run (bound plan r) r1 s1 l _ host _ dr g res plan k Ho Hat (ready_bound r l plan Hr) eq_refl Hrep
    (wp_drafts _ _ _ _ Hw) (wp_slots _ _ _ _ Hw) Hm Hacc) as (r' & Hc & Hadv).
  exists res, r', (accepted_draft_count_ dr). unfold run_step. rewrite (bind_ok _ _ _ _ _ Hrun). split; [done|]. split; [done|]. split; [done|]. split; [apply Hrep|done].
Qed.

(** ** Plain decoding with a model *)

(** The entry of a step that feeds everything a request has and [k] drafts. *)
Definition plan_of (k : nat) (r : Request (T := T) (G := G) (D := D)) : RequestStepPlan :=
  let n := length (tokens_host_ r) in
  mkStepEntry (request_id r) (Z.of_nat n) (Z.to_N (Z.of_nat n - processed_sequence_length_ (progress r) + Z.of_nat k))
    (N.of_nat k) 0 0 (N.of_nat (n + k)) (N.of_nat (n + k)) (IsPrefill r) false 0 None.

Lemma plan_of_whole k r l : ready r l -> whole_plan r l k (plan_of k r).
Proof. intros Hr. pose proof (rd_processed _ _ Hr). unfold plan_of. rewrite (rd_host _ _ Hr). split; cbn; lia. Qed.

(** At most [n] plain steps, each on the logits the model computes for the tokens so far;
    the tokens they make visible. *)
Fixpoint plain_steps (model : list Z -> list float) (n : nat) :
    M (Request (T := T) (G := G) (D := D)) (RequestError E GE) (list Z) :=
  match n with
  | 0 => mret []
  | S n =>
    r ← gets id;
    if IsTurnComplete (status_ r) then mret []
    else
      result ← run_step (plan_of 0 r) (PlainRow (model (tokens_host_ r)) (0%Z, 0%N));
      rest ← plain_steps model n;
      mret (visible_tokens result ++ rest)
  end.

(** The rows of logits a speculative step computes: after each prefix of the drafts. *)
Definition speculative_rows (model : list Z -> list float) (k : nat) (r : Request (T := T) (G := G) (D := D)) : list (list float) :=
  (fun j => model (tokens_host_ r ++ take j (draft_tokens_ (drafts r)))) <$> seq 0 (k + 1).

(** The request as its owner sees it; how far the cache has been fed may differ. *)
Definition same_request (r1 r2 : Request (T := T) (G := G) (D := D)) : Prop :=
  tokens_host_ r1 = tokens_host_ r2 /\ status_ r1 = status_ r2 /\ turn r1 = turn r2 /\
  stop_controller_ r1 = stop_controller_ r2 /\ guidance_logits_processor_ r1 = guidance_logits_processor_ r2 /\
  drafts r1 = drafts r2 /\ seeds r1 = seeds r2 /\
  prompt_sequence_length_ (progress r1) = prompt_sequence_length_ (progress r2) /\
  ((fun s => (GetSequence 0 s, IsDone s, eos_seen_ s)) <$> search_ r1) = ((fun s => (GetSequence 0 s, IsDone s, eos_seen_ s)) <$> search_ r2).

Record reached (r0 r : Request (T := T) (G := G) (D := D)) (g : gen (T := T)) : Prop := mk_reached
  { rc_search : exists s, owns p r s (final_view g) None;
    rc_host : tokens_host_ r = g_tokens g;
    rc_turn : turn r = turn_after (turn r0) g;
    rc_status : status_ r = if ended g then TurnComplete else Active;
    rc_stop : stop_controller_ r = if ended g then None else g_stop g;
    rc_guidance : guidance_logits_processor_ r = None;
    rc_drafts : drafts r = no_drafts;
    rc_seeds : seeds r = seeds r0;
    rc_prompt : prompt_sequence_length_ (progress r) = prompt_sequence_length_ (progress r0) }.

Lemma advanced_reached plan r0 r g n : advanced (bound plan r0) r g n -> reached r0 r g.
Proof. intros [A1 A2 A3 A4 A5 A6 A7 A8 A9]. split; [done..|by rewrite A9]. Qed.

Lemma reached_same r0 r1 r2 g : reached r0 r1 g -> reached r0 r2 g -> same_request r1 r2.
Proof.
  intros [[s1 Ho1] A2 A3 A4 A5 A6 A7 A8 A9] [[s2 Ho2] B2 B3 B4 B5 B6 B7 B8 B9]. unfold same_request.
  split_and!; try congruence. destruct Ho1 as [_ -> Hsg _ H1], Ho2 as [_ -> _ _ H2]. cbn. unfold IsDone.
  destruct (holds_sequence p Hsg _ _ _ _ _ H1) as (-> & _ & -> & -> & _).
  by destruct (holds_sequence p Hsg _ _ _ _ _ H2) as (-> & _ & -> & -> & _).
Qed.

(** Generation as a function of the tokens: the pick of the model's row, one at a time. *)
Fixpoint greedy_run (limit : option N) (floor : Z) (model : list Z -> list float) (n : nat) (g : gen (T := T)) : option (gen (T := T)) :=
  match n with
  | 0 => Some g
  | S n =>
    g' ← emit p limit (row_pick floor (Z.of_nat (length (g_tokens g))) (model (g_tokens g))) g;
    match g_end g' with Some _ => Some g' | None => greedy_run limit floor model n g' end
  end.

(** A request that goes on after a step can take the next one. *)
Lemma reached_ready r l r' g : ready r l -> live (limit_of r) g -> reached r r' g ->
  (0 <= processed_sequence_length_ (progress r') < Z.of_nat (length (g_tokens g)))%Z ->
  ready r' (g_tokens g) /\ gen_of r' (g_tokens g) = g /\ limit_of r' = limit_of r /\ TurnEosFloor r' = TurnEosFloor r /\
  turn_policy_ (turn r') = turn_policy_ (turn r).
Proof.
  intros Hr Hl [B1 B2 B3 B4 B5 B6 B7 B8 B9] Hp. pose proof (lv_end _ _ Hl) as He. unfold ended in *. rewrite He in *.
  unfold turn_after in B3. rewrite He in B3. rewrite bool_decide_eq_false_2 in B4, B5 by (by intros [? ?]).
  assert (limit_of r' = limit_of r) as Hlim by (unfold limit_of; by rewrite B3).
  split; [|split; [|split; [done|split]]].
  - rewrite (live_view _ _ Hl) in B1. split; try done; [by rewrite B8; apply Hr|by rewrite B8; apply Hr|by rewrite B7|by rewrite B7|by rewrite B4| |].
    + apply Hr.
    + rewrite Hlim, B3. apply Hl.
  - unfold gen_of. rewrite B5, B3, <- He. by destruct g.
  - unfold TurnEosFloor. by rewrite B9, B3.
  - by rewrite B3.
Qed.

Lemma ready_live r l : ready r l -> live (limit_of r) (gen_of r l).
Proof. intros Hr. split; [done|exact (ready_room r l Hr)|apply Hr]. Qed.

Lemma reached_trans r0 r1 r2 g1 g2 : g_end g1 = None -> reached r0 r1 g1 -> reached r1 r2 g2 -> reached r0 r2 g2.
Proof.
  intros He [A1 A2 A3 A4 A5 A6 A7 A8 A9] [B1 B2 B3 B4 B5 B6 B7 B8 B9]. split; try done; [|congruence..].
  rewrite B3, A3. unfold turn_after. rewrite He. by destruct (turn r0), (g_end g2) as [[]|].
Qed.

Lemma executable_not_complete st : IsExecutable st = true -> IsTurnComplete st = false.
Proof. by destruct st. Qed.

Lemma plain_steps_S model n r : IsTurnComplete (status_ r) = false -> plain_steps model (S n) r =
  (result ← run_step (plan_of 0 r) (PlainRow (model (tokens_host_ r)) (0%Z, 0%N));
   rest ← plain_steps model n; mret (visible_tokens result ++ rest)) r.
Proof. intros Hs. cbn [plain_steps]. rewrite gets_bind. unfold id. by rewrite Hs. Qed.

Lemma greedy_run_S limit floor model n g : greedy_run limit floor model (S n) g =
  g' ← emit p limit (row_pick floor (Z.of_nat (length (g_tokens g))) (model (g_tokens g))) g;
  match g_end g' with Some _ => Some g' | None => greedy_run limit floor model n g' end.
Proof. done. Qed.

Lemma greedy_run_prefix limit floor model n : forall g g', greedy_run limit floor model n g = Some g' -> exists y, g_tokens g' = g_tokens g ++ y.
Proof.
  induction n as [|n IH]; intros g g'; [intros [= <-]; exists []; by rewrite app_nil_r|]. rewrite greedy_run_S.
  destruct (emit p _ _ g) as [g1|] eqn:He; [|done]. cbn [mbind option_bind]. pose proof (emit_prefix _ _ _ _ He) as Hpre.
  destruct (g_end g1); [intros [= <-]; eauto|]. intros [y Hy]%IH. rewrite Hy, Hpre, <- app_assoc. eauto.
Qed.

(** One plain step of a model, and what the next one starts from. *)
Lemma plain_step_model model : 0 < vocab_size p -> (forall ctx, length (model ctx) = vocab_size p) ->
  forall r l, ready r l -> plain_policy (turn_policy_ (turn r)) ->
  match emit p (limit_of r) (row_pick (TurnEosFloor r) (Z.of_nat (length l)) (model l)) (gen_of r l) with
  | Some g => exists res r', run_step (plan_of 0 r) (PlainRow (model (tokens_host_ r)) (0%Z, 0%N)) r = (ROk res, r') /\
      visible_tokens res = drop (length l) (g_tokens g) /\ reached r r' g /\
      (g_end g = None -> ready r' (g_tokens g) /\ gen_of r' (g_tokens g) = g /\ limit_of r' = limit_of r /\
         TurnEosFloor r' = TurnEosFloor r /\ turn_policy_ (turn r') = turn_policy_ (turn r))
  | None => forall x r', run_step (plan_of 0 r) (PlainRow (model (tokens_host_ r)) (0%Z, 0%N)) r <> (ROk x, r')
  end.
Proof.
  intros Hv Hlen r l Hr Hpl. rewrite (rd_host _ _ Hr).
  pose proof (plain_step r l (plan_of 0 r) (model l) (0%Z, 0%N) Hr (plan_of_whole 0 r l Hr) Hpl Hv (Hlen l)) as Hs. cbn zeta in Hs.
  destruct (emit p _ _ _) as [g|] eqn:Hem; [|done]. destruct Hs as (r' & Hrun & Hadv).
  eexists _, r'. split; [exact Hrun|]. pose proof (advanced_reached _ _ _ _ _ Hadv) as Hre. split; [|split; [done|]].
  - cbn [visible_tokens staged_result]. rewrite (emit_prefix _ _ _ _ Hem). cbn [g_tokens]. by rewrite drop_app_length.
  - intros He. apply (reached_ready r l r' g Hr (emit_live _ _ _ _ (ready_live r l Hr) Hem He) Hre).
    rewrite (av_progress _ _ _ _ Hadv). cbn. rewrite (emit_grows _ _ _ _ Hem He). cbn. lia.
Qed.

Lemma plain_steps_run model : 0 < vocab_size p -> (forall ctx, length (model ctx) = vocab_size p) ->
  forall n r l, ready r l -> plain_policy (turn_policy_ (turn r)) ->
  match greedy_run (limit_of r) (TurnEosFloor r) model (S n) (gen_of r l) with
  | Some g => exists r', plain_steps model (S n) r = (ROk (drop (length l) (g_tokens g)), r') /\ reached r r' g
  | None => forall x r', plain_steps model (S n) r <> (ROk x, r')
  end.
Proof.
  intros Hv Hlen n. induction n as [|n IH]; intros r l Hr Hpl; pose proof (plain_step_model model Hv Hlen r l Hr Hpl) as Hone.
  all: rewrite greedy_run_S; change (g_tokens (gen_of r l)) with l;
    destruct (emit p (limit_of r) (row_pick _ _ _) (gen_of r l)) as [g1|] eqn:Hem1; [destruct Hone as (res & r1 & Hrun & Hvis & Hre & Hnext)|];
    [|intros x r'; rewrite plain_steps_S by (by apply executable_not_complete, Hr); intros (y & r2 & Hy & _)%bind_inv_ok; by apply Hone in Hy].
  all: cbn [mbind option_bind]; rewrite plain_steps_S by (by apply executable_not_complete, Hr); rewrite (bind_ok _ _ _ _ _ Hrun), Hvis.
  - assert (exists r', (rest ← plain_steps model 0; mret (drop (length l) (g_tokens g1) ++ rest)) r1 = (ROk (drop (length l) (g_tokens g1)), r') /\ reached r r' g1).
    { exists r1. split; [|done]. cbn [plain_steps]. by rewrite ret_bind, app_nil_r. }
    cbn [greedy_run]. by destruct (g_end g1).
  - destruct (g_end g1) as [e|] eqn:He.
    + exists r1. split; [|done]. cbn [plain_steps]. rewrite bind_bind, gets_bind. unfold id.
      assert (IsTurnComplete (status_ r1) = true) as -> by (rewrite (rc_status _ _ _ Hre); unfold ended; by rewrite He).
      by rewrite ret_bind, app_nil_r.
    + destruct (Hnext eq_refl) as (Hr1 & Hg1 & Hlim & Hfl & Hpol). specialize (IH r1 (g_tokens g1) Hr1 ltac:(by rewrite Hpol)).
      rewrite Hg1, Hlim, Hfl in IH.
      destruct (greedy_run _ _ model (S n) g1) as [g|] eqn:Hgo; [|by intros x r' (y & r2 & Hy & _)%bind_inv_ok; apply IH in Hy].
      destruct IH as (r' & Hrun' & Hre'). exists r'. split; [|by apply (reached_trans r r1 r' g1)].
      rewrite (bind_ok _ _ _ _ _ Hrun'). unfold mret, M_ret. do 2 f_equal.
      rewrite (emit_prefix _ _ _ _ Hem1) in *. cbn [g_tokens gen_of] in *. destruct (greedy_run_prefix _ _ _ _ _ _ Hgo) as [y ->].
      rewrite (emit_prefix _ _ _ _ Hem1). cbn [g_tokens gen_of]. rewrite <- app_assoc, !drop_app_length, app_assoc. by rewrite drop_app_length.
Qed.

Lemma emit_continues limit t g g' : emit p limit t g = Some g' -> g_end g' = None -> g_tokens g' = g_tokens g ++ [t].
Proof.
  intros Hem He. rewrite (emit_prefix _ _ _ _ Hem). unfold emit in Hem. destruct (contains _ t); [by injection Hem as <-|done].
Qed.

(** Up to the first disagreement the rows of the verification are the rows plain decoding
    would have computed. *)
Lemma greedy_run_picks limit floor model l ts k : k <= length ts ->
  let picks := verify_argmax floor (Z.of_nat (length l)) (eos_token_id p) ((fun j => model (l ++ take j ts)) <$> seq 0 (k + 1)) in
  let a := accepted_prefix picks (take k ts) in
  forall n j g, j + n <= a + 1 -> g_tokens g = l ++ take j picks ->
  greedy_run limit floor model n g = emit_all p limit (take n (drop j picks)) g.
Proof.
  intros Hk picks a n. assert (a <= k) as Hak by (pose proof (accepted_prefix_le picks (take k ts)) as H; rewrite length_take in H; unfold a; lia).
  assert (length picks = k + 1) as Hlen by (unfold picks; by rewrite verify_argmax_picks, length_imap, length_fmap, length_seq).
  assert (forall j, j <= k -> picks !! j = Some (row_pick floor (Z.of_nat (length l + j)) (model (l ++ take j ts)))) as Hpick.
  { intros j Hj. unfold picks. rewrite verify_argmax_picks, list_lookup_imap, list_lookup_fmap, (lookup_seq_lt 0 (k + 1) j) by lia.
    cbn. by rewrite Nat2Z.inj_add. }
  induction n as [|n IH]; intros j g Hj Hg; [done|]. rewrite greedy_run_S.
  assert (take j ts = take j picks) as Hts.
  { pose proof (accepted_prefix_take picks (take k ts)) as Ht. fold a in Ht. apply (f_equal (take j)) in Ht.
    rewrite !take_take in Ht. rewrite !Nat.min_l in Ht by lia. by rewrite <- Ht. }
  specialize (Hpick j ltac:(lia)). rewrite Hts in Hpick. rewrite <- Hg in Hpick.
  replace (length l + j) with (length (g_tokens g)) in Hpick by (rewrite Hg, length_app, length_take; lia).
  rewrite (drop_S _ _ _ Hpick). cbn [take emit_all]. destruct (emit p limit _ g) as [g1|] eqn:Hem; [|done]. cbn [mbind option_bind].
  destruct (g_end g1) eqn:He; [done|]. apply IH; [lia|]. rewrite (emit_continues _ _ _ _ Hem He), Hg at 1.
  by rewrite (take_S_r _ _ _ Hpick), app_assoc.
Qed.
End speculation.

(** C1: speculative decoding is lossless for a greedy request without guidance, whatever
    the drafts.  Take a request that can decode, [k] drafts the code accepts, and a model
    that maps a token list to logits.  If plain steps on that model, as many as the drafts
    the verification accepts and one more, succeed, then the single step that verifies the
    [k] drafts against the [k + 1] rows of the same model succeeds too: it makes the same
    tokens visible and leaves the same tokens, search, status, counters, finish reason,
    matched stop string, stop controller and random streams. *)
Theorem speculation_lossless {T E : Type} `{!Tokenizer T E} {G GE : Type} `{!ConstrainedLogitsProcessor G GE}
    {D : Type} `{!BatchedSampler D} p (r r2 : Request (T := T) (G := G) (D := D)) l k model out :
  let ts := draft_tokens_ (drafts r) in
  let rows := speculative_rows model k r in
  let accepted := accepted_prefix (verify_argmax (TurnEosFloor r) (Z.of_nat (length l)) (eos_token_id p) rows) (take k ts) in
  ready p r l -> IsGreedy (turn_policy_ (turn r)) = true -> DraftTokenValidationError (E := E) r = None ->
  0 < k <= 7 -> k <= length ts -> length l + k < max_length p ->
  0 < vocab_size p -> (forall ctx, length (model ctx) = vocab_size p) ->
  plain_steps model (accepted + 1) r = (@Ok (RequestError E GE) _ out, r2) ->
  exists result r1, run_step (plan_of k r) (GreedyRows rows) r = (@Ok (RequestError E GE) _ result, r1) /\
    visible_tokens result = out /\ same_request r1 r2.
Proof.
  intros ts rows accepted Hr Hgr Hval Hk Hts Hm Hv Hlen Hplain.
  pose proof (validated_plain r (rd_guidance _ _ _ Hr) Hgr Hval) as Hpl.
  assert (rows = (fun j => model (l ++ take j ts)) <$> seq 0 (k + 1)) as Hrows by (unfold rows, speculative_rows; by rewrite (rd_host _ _ _ Hr)).
  pose proof (plain_steps_run p model Hv Hlen accepted r l Hr Hpl) as Hrun.
  rewrite (greedy_run_picks p (limit_of r) (TurnEosFloor r) model l ts k Hts (S accepted) 0 (gen_of r l)) in Hrun;
    [|unfold accepted; rewrite Hrows; lia|by rewrite take_0, app_nil_r].
  rewrite drop_0, <- Hrows in Hrun. rewrite Nat.add_1_r in Hplain.
  destruct (emit_all p _ _ (gen_of r l)) as [g|] eqn:Hem; [|by apply Hrun in Hplain].
  destruct Hrun as (r2' & Hrun & Hre). rewrite Hrun in Hplain. injection Hplain as <- <-.
  destruct (speculative_step p r l k (plan_of k r) rows g Hr
    (plan_of_whole p k r l Hr) Hk Hts Hm) as (res & r1 & acc & Hs & Hadv & Hvis & _); [by rewrite Hrows, length_fmap, length_seq|by rewrite Nat.add_1_r|].
  exists res, r1. split; [done|]. split; [done|]. apply (reached_same p r _ _ g); [by apply (advanced_reached p _ _ _ _ _ Hadv)|done].
Qed.
