(* ===== verification/TurnSteps.v ===== *)
(** * Steps of a turn: rollback, retry and termination

    A step that was staged and then aborted leaves no trace: the same step can be run again
    as if it had never been tried.  A turn whose steps run ends: by end of stream, a stop
    string, its token budget or the session limit. *)

From S2P Require Import Prelude TurnPolicy Logits GreedySearch StepPlan EngineInvariants StopString Turns TurnsProofs Speculation.
From Stdlib Require Import SpecFloat.

Open Scope nat_scope.

Section steps.
Context {T E : Type} `{!Tokenizer T E} {G GE : Type} `{!ConstrainedLogitsProcessor G GE}.
Context {D : Type} `{!BatchedSampler D}.
Context (p : GeneratorParams).
Implicit Types (r : Request (T := T) (G := G) (D := D)) (s : GreedySearch_Cpu) (l : list Z).

Abbreviation ROk := (@Ok (RequestError E GE) _).
Abbreviation Stop := (option (StopStringController (T := T))).

(** ** The stop controller of a turn *)

(** [c'] is [c] after it observed [xs]. *)
Definition history (c c' : Stop) (xs : list Z) : Prop :=
  match c, c' with
  | Some c, Some c' => observe_all xs c = (Ok tt, c')
  | None, None => True
  | _, _ => False
  end.

(** The controller came from the constructor and has observed the turn so far. *)
Definition well_founded_stop (c : Stop) : Prop :=
  forall c1, c = Some c1 -> exists ss c0 ts, make_StopStringController true ss = Ok c0 /\ observe_all ts c0 = (Ok tt, c1).

Definition in_vocab (t : Z) : Prop := (0 <= t < Z.of_nat (vocab_size p))%Z.

(** The tokenizer decodes every token of the vocabulary. *)
Definition can_observe (c : Stop) : Prop :=
  forall c0, c = Some c0 -> forall xs, Forall in_vocab xs -> exists c', observe_all xs c0 = (Ok tt, c').

Lemma history_refl c : history c c [].
Proof. by destruct c. Qed.

Lemma history_trans c1 c2 c3 xs ys : history c1 c2 xs -> history c2 c3 ys -> history c1 c3 (xs ++ ys).
Proof.
  destruct c1, c2, c3; cbn; try done. intros H1 H2. unfold observe_all in *. by rewrite for_each_app, (bind_ok _ _ _ _ _ H1).
Qed.

Lemma observe_pure_history c t m c' : observe_pure c t = Some (m, c') -> history c c' [t].
Proof.
  unfold observe_pure. destruct c as [c|]; [|by intros [= <- <-]]. destruct (ObserveToken t c) as [[m0|e| |] c1] eqn:Ho; try done.
  intros [= <- <-]. cbn. unfold observe_all. cbn. unfold mbind, M_bind. by rewrite Ho.
Qed.

Lemma observe_pure_total c t : can_observe c -> in_vocab t -> exists m c', observe_pure c t = Some (m, c') /\ can_observe c'.
Proof.
  intros Hc Ht. destruct c as [c|]; [|by exists None, None].
  destruct (Hc c eq_refl [t] ltac:(by apply Forall_singleton)) as [c' Hobs]. unfold observe_all in Hobs. cbn in Hobs.
  apply bind_inv_ok in Hobs as ([] & c1 & (m & c2 & Ho & [= ->])%bind_inv_ok & [= ->]).
  exists m, (Some c'). cbn. rewrite Ho. split; [done|]. intros c0 [= <-] xs Hxs.
  destruct (Hc c eq_refl (t :: xs) ltac:(by constructor)) as [c'' Hall]. exists c''.
  assert (history (Some c) (Some c') [t]) as Hh by (apply (observe_pure_history _ _ m); cbn; by rewrite Ho).
  cbn in Hh. unfold observe_all in *. change (t :: xs) with ([t] ++ xs) in Hall. by rewrite for_each_app, (bind_ok _ _ _ _ _ Hh) in Hall.
Qed.

(** Rolling the controller back to where the step began. *)
Lemma stop_rollback c c' xs : well_founded_stop (Some c) -> observe_all xs c = (Ok tt, c') ->
  RollbackTo (length (turn_tokens_ c)) c' = (Ok tt, c).
Proof.
  intros Hw Hx. destruct (Hw c eq_refl) as (ss & c0 & ts & Hmake & Hobs).
  destruct (observe_all_replays _ _ _ Hobs) as (Htok & _ & _). rewrite (make_controller_tokens _ _ Hmake), app_nil_l in Htok.
  assert (observe_all (ts ++ xs) c0 = (Ok tt, c')) as Hall.
  { unfold observe_all in *. by rewrite for_each_app, (bind_ok _ _ _ _ _ Hobs). }
  destruct (rollback_run ss c0 (ts ++ xs) c' (length ts) Hmake Hall) as (ck & Hck & Hrun); [rewrite length_app; lia|].
  rewrite take_app_length, Hobs in Hck. injection Hck as <-. by rewrite Htok.
Qed.

(** ** Generated tokens are in the vocabulary *)

Lemma argmax_loop_bound (rest : list float) : forall i best x, best < i -> argmax_loop gt i rest best x < i + length rest.
Proof.
  induction rest as [|y rest IH]; intros i best x Hb; cbn [argmax_loop length]; [lia|].
  destruct (gt y x); [specialize (IH (i + 1) i y ltac:(lia))|specialize (IH (i + 1) best x ltac:(lia))]; lia.
Qed.

Lemma ArgMax_float_bound row t : ArgMax_float row = Ok t -> t < length row.
Proof.
  unfold ArgMax_float, ArgMax. destruct row as [|x row]; [done|]. intros [= <-].
  pose proof (argmax_loop_bound (tail (imap (fun _ x => x) (x :: row))) 1 0 x ltac:(lia)) as Hb.
  cbn [imap tail] in Hb |- *. rewrite length_imap in Hb. cbn [length]. lia.
Qed.

Lemma row_pick_in_vocab floor len row : 0 < vocab_size p -> length row = vocab_size p -> in_vocab (row_pick p floor len row).
Proof.
  intros Hv Hl. unfold row_pick, in_vocab. destruct (ArgMax_float _) as [t| | |] eqn:Ha; [|lia..].
  apply ArgMax_float_bound in Ha. assert (t < vocab_size p); [|lia].
  rewrite <- Hl. destruct (len <? floor)%Z; [by rewrite ApplyMinLength_length in Ha|done].
Qed.

Lemma picks_in_vocab floor committed rows : 0 < vocab_size p -> Forall (fun row => length row = vocab_size p) rows ->
  Forall in_vocab (verify_argmax floor committed (eos_token_id p) rows).
Proof.
  intros Hv Hlen. apply Forall_lookup. intros j t. rewrite verify_argmax_picks, list_lookup_imap.
  destruct (rows !! j) as [row|] eqn:Hrow; [|done]. intros [= <-]. apply row_pick_in_vocab; [done|]. exact (Forall_lookup_1 _ _ _ _ Hlen Hrow).
Qed.

(** ** Tokens of a turn with an observable controller *)

Lemma emit_total limit t g : can_observe (g_stop g) -> in_vocab t ->
  exists g' xs, emit p limit t g = Some g' /\ can_observe (g_stop g') /\ history (g_stop g) (g_stop g') xs.
Proof.
  intros Hc Ht. unfold emit. destruct (contains (eos_token_id p) t).
  { eexists _, []. split; [reflexivity|]. split; [done|apply history_refl]. }
  destruct (observe_pure_total _ _ Hc Ht) as (m & c' & Ho & Hc'). rewrite Ho. cbn [mbind option_bind].
  eexists _, [t]. split; [reflexivity|]. split; [done|]. by apply (observe_pure_history _ _ m).
Qed.

Lemma emit_all_total limit ts : Forall in_vocab ts -> forall g, can_observe (g_stop g) ->
  exists g' xs, emit_all p limit ts g = Some g' /\ can_observe (g_stop g') /\ history (g_stop g) (g_stop g') xs.
Proof.
  induction 1 as [|t ts Ht _ IH]; intros g Hc; cbn [emit_all]; [eexists g, []; split; [done|]; split; [done|apply history_refl]|].
  destruct (emit_total limit t g Hc Ht) as (g1 & xs & -> & Hc1 & Hh). cbn [mbind option_bind].
  destruct (g_end g1); [by exists g1, xs|]. destruct (IH g1 Hc1) as (g' & ys & He & Hc' & Hh'). exists g', (xs ++ ys).
  split; [done|]. split; [done|]. by apply (history_trans _ (g_stop g1)).
Qed.

Lemma emit_count limit t g g' : emit p limit t g = Some g' -> g_end g' = None -> g_count g' = g_count g + 1.
Proof.
  unfold emit. destruct (contains _ t); [by intros [= <-]|]. cbn. destruct (observe_pure _ t) as [[m c]|]; [|done]. by intros [= <-].
Qed.

(** How generation stands: it goes on within its limits, or it ended for a reason that is
    true of the counters. *)
Definition sound (limit : option N) (g : gen (T := T)) : Prop :=
  length (g_tokens g) <= max_length p /\ (forall m, limit = Some m -> (N.of_nat (g_count g) <= m)%N) /\
  match g_end g with
  | None => live p limit g
  | Some (StopString, matched) => (0 <= matched)%Z
  | Some (EosToken, matched) => matched = (-1)%Z
  | Some (TurnLimit, matched) => matched = (-1)%Z /\ limit = Some (N.of_nat (g_count g))
  | Some (ContextLimit, matched) => matched = (-1)%Z /\ length (g_tokens g) = max_length p
  | Some _ => False
  end.

Lemma live_sound limit g : live p limit g -> sound limit g.
Proof.
  intros Hl. pose proof (lv_room _ _ _ Hl). split; [lia|]. split; [|by rewrite (lv_end _ _ _ Hl)].
  intros m ->. pose proof (lv_limit _ _ _ Hl) as Hm. apply N.leb_gt in Hm. lia.
Qed.

Lemma emit_sound limit t g g' : live p limit g -> emit p limit t g = Some g' -> sound limit g'.
Proof.
  intros Hl He. destruct (g_end g') as [[reason matched]|] eqn:Hg; [|by apply live_sound, (emit_live p limit t g)].
  destruct Hl as [_ Hroom Hlim]. assert (forall m, limit = Some m -> (N.of_nat (g_count g) < m)%N) as Hm.
  { intros m ->. unfold limit_reached in Hlim. by apply N.leb_gt in Hlim. }
  unfold emit in He. unfold sound. rewrite Hg. destruct (contains _ t).
  { injection He as <-. injection Hg as <- <-. split; [cbn; lia|]. split; [|done]. intros m H. specialize (Hm m H). cbn. lia. }
  destruct (observe_pure (g_stop g) t) as [[m c]|]; [|done]. cbn [mbind option_bind] in He. injection He as <-. cbn in Hg |- *. rewrite length_app in *. cbn in *.
  split; [lia|]. split; [intros m' H; specialize (Hm m' H); lia|].
  destruct m; [injection Hg as <- <-; lia|]. destruct (limit_reached limit (g_count g + 1)) eqn:Hl.
  - injection Hg as <- <-. split; [done|]. unfold limit_reached in Hl. destruct limit as [k|]; [|done]. apply N.leb_le in Hl. specialize (Hm k eq_refl). f_equal. lia.
  - destruct (Nat.leb_spec (max_length p) (length (g_tokens g) + 1)); [|done]. injection Hg as <- <-. split; [done|]. lia.
Qed.

Lemma emit_all_sound limit ts : forall g g', live p limit g -> emit_all p limit ts g = Some g' -> sound limit g'.
Proof.
  induction ts as [|t ts IH]; intros g g' Hl; cbn [emit_all]; [intros [= <-]; by apply live_sound|].
  destruct (emit p limit t g) as [g1|] eqn:He; [|done]. cbn [mbind option_bind]. pose proof (emit_sound _ _ _ _ Hl He) as Hs.
  destruct (g_end g1) eqn:Hg; [by intros [= <-]|]. apply IH. by apply (emit_live p limit t g).
Qed.

(** ** Restoring the request *)

(** The request of [r] before its step: everything but the tokens bound to the step and
    the verification counters of its drafts. *)
Record restored (r r' : Request (T := T) (G := G) (D := D)) (l : list Z) : Prop := mk_restored
  { rs_search : exists s, owns p r' s (l, false, false) None;
    rs_host : tokens_host_ r' = tokens_host_ r;
    rs_status : status_ r' = status_ r;
    rs_turn : turn r' = turn r;
    rs_stop : stop_controller_ r' = stop_controller_ r;
    rs_guidance : guidance_logits_processor_ r' = guidance_logits_processor_ r;
    rs_seeds : seeds r' = seeds r;
    rs_progress : progress r' = (progress r) <| scheduled_token_count_ := 0 |>;
    rs_drafts : drafts r' = mkDrafts (draft_tokens_ (drafts r)) (draft_token_distributions_ (drafts r)) 0 0 0 no_verification }.

Lemma resize_prefix (l host : list Z) : l `prefix_of` host -> resize (length l) host = l.
Proof.
  intros [y ->]. unfold resize. rewrite take_app_length, length_app. replace (length l - (length l + length y)) with 0 by lia. apply app_nil_r.
Qed.

Lemma restore_step_run plan r l r1 s v host c dr xs :
  ready p r l -> at_step (bound plan r) r1 host c dr -> owns p r1 s v (Some (l, false, false)) -> l `prefix_of` host ->
  well_founded_stop (stop_controller_ r) -> history (stop_controller_ r) c xs ->
  proposal dr = proposal (drafts r) ->
  exists r', restore_step r1 = (ROk tt, r') /\ restored r r' l.
Proof.
  intros Hr [A1 A2 A3 A4 A5 A6 A7 A8 A9] Ho Hpre Hw Hh [= Hd1 Hd2].
  destruct (one_restore p (ow_single _ _ _ _ _ Ho) s v _ (ow_holds _ _ _ _ _ Ho)) as (s' & Hs & Hhold).
  apply bind_inv_ok in Hs as ([] & s1 & Hq & Hc). unfold restore_step, QueueStateRestoreForTransaction, CompleteStateRestoreForTransaction.
  pose proof (on_search_ok (E := E) (GE := GE) (fun _ => GreedySearch.QueueStateRestoreForTransaction) r1 p s tt s1
    (ow_params _ _ _ _ _ Ho) (ow_search _ _ _ _ _ Ho) Hq) as Hrun1. rewrite bind_bind, (bind_ok _ _ _ _ _ Hrun1), modify_bind.
  set (r2 := restore_locals _).
  pose proof (on_search_ok (E := E) (GE := GE) (fun _ => GreedySearch.CompleteStateRestoreForTransaction) r2 p s1 tt s'
    (ow_params _ _ _ _ _ Ho) eq_refl Hc) as Hrun2. rewrite (bind_ok _ _ _ _ _ Hrun2). set (r3 := r2 <| search_ := Some s' |>).
  assert (checkpoint r3 = checkpoint r1) as Hck by done. rewrite A9 in Hck.
  assert (restore_guidance (E := E) (GE := GE) r3 = (ROk tt, r3)) as Hg.
  { unfold restore_guidance, modify. rewrite Hck. cbn [guidance_transaction_checkpoint_]. by rewrite (rd_guidance _ _ _ (ready_bound p r l plan Hr)). }
  rewrite (bind_ok _ _ _ _ _ Hg).
  assert (restore_stop r3 = (ROk tt, r3 <| stop_controller_ := stop_controller_ r |>)) as Hst.
  { unfold restore_stop. rewrite gets_bind. change (stop_controller_ r3) with (stop_controller_ r1). rewrite A7. unfold history in Hh.
    destruct c as [c'|], (stop_controller_ r) as [c0|] eqn:Hc0; try done; [|by rewrite set_stop_id].
    rewrite gets_bind, Hck. cbn [stop_controller_transaction_checkpoint_]. unfold stop_history, bound. cbn [stop_controller_ set_field set_progress].
    rewrite Hc0. unfold on_stop. change (stop_controller_ r3) with (stop_controller_ r1). rewrite A7. by rewrite (stop_rollback c0 c' xs). }
  rewrite Hst. eexists. split; [reflexivity|]. pose proof (rd_host _ _ _ Hr) as Hl.
  assert (checkpoint (r1 <| search_ := Some s1 |>) = checkpoint r1) as Hck1 by done. rewrite A9 in Hck1.
  split.
  - exists s'. destruct Ho as [O1 _ O3 O4 _]. by split.
  - cbn. rewrite A9, A6. cbn. rewrite Hl. by apply resize_prefix.
  - done.
  - done.
  - done.
  - cbn. rewrite A5. by rewrite (rd_guidance _ _ _ Hr).
  - cbn. rewrite A9, A3. cbn. pose proof (rd_applied _ _ _ Hr) as Hap. destruct (seeds r). cbn in Hap |- *. unfold set_field, set_rng, set_pending_reseed_applied. cbn. by rewrite Hap.
  - cbn. rewrite A9, A4. cbn. by destruct (progress r).
  - cbn. rewrite A8. rewrite <- Hd1, <- Hd2. by destruct dr.
Qed.

(** ** Aborting a step *)

(** The inputs of a step that the plan of [k] drafts calls for. *)
Definition suits (r : Request (T := T) (G := G) (D := D)) (l : list Z) (k : nat) (input : step_input) : Prop :=
  match input with
  | PlainRow logits _ => k = 0 /\ length logits = vocab_size p
  | GreedyRows rows => 0 < k <= 7 /\ k <= length (draft_tokens_ (drafts r)) /\ length l + k < max_length p /\
      length rows = k + 1 /\ Forall (fun row => length row = vocab_size p) rows
  | SampledRows _ => False
  end.

(** What a step stages. *)
Lemma stage_step_run r l k plan input :
  ready p r l -> whole_plan r l k plan -> plain_policy (turn_policy_ (turn r)) -> 0 < vocab_size p ->
  suits r l k input -> can_observe (stop_controller_ r) ->
  exists res r1 s g host dr xs, stage_step plan input r = (ROk res, r1) /\
    owns p r1 s (final_view p g) (Some (l, false, false)) /\ at_step (bound plan r) r1 host (g_stop g) dr /\
    reports host (turn_generated_tokens_ (turn r) + accepted_draft_count_ dr) res g /\ accepted_draft_count_ dr <= k /\
    l `prefix_of` host /\ history (stop_controller_ r) (g_stop g) xs /\
    proposal dr = proposal (drafts r).
Proof.
  intros Hr Hw Hpl Hv Hin Hobs. destruct input as [logits drawn|rows|]; [| |done].
  - destruct Hin as [-> Hlen]. pose proof (plain_staged p r l plan logits drawn Hr Hw Hpl Hv Hlen) as Hst. cbn zeta in Hst.
    destruct (emit_total (limit_of r) (row_pick p (TurnEosFloor r) (Z.of_nat (length l)) logits) (gen_of r l) Hobs) as (g & xs & Hem & _ & Hh);
      [by apply row_pick_in_vocab|]. rewrite Hem in Hst. destruct Hst as (r1 & s & Hrun & Ho & Hat & Hrep).
    eexists _, r1, s, g, l, (drafts r), xs. split; [exact Hrun|]. pose proof (rd_accepted _ _ _ Hr) as Hacc. rewrite Hacc, Nat.add_0_r.
    done.
  - destruct Hin as (Hk & Hts & Hm & Hrows & Hlen). set (picks := verify_argmax (TurnEosFloor r) (Z.of_nat (length l)) (eos_token_id p) rows).
    destruct (emit_all_total (limit_of r) (take (accepted_prefix picks (take k (draft_tokens_ (drafts r))) + 1) picks)
      ltac:(by apply Forall_take, picks_in_vocab) (gen_of r l) Hobs) as (g & xs & Hem & Hc & Hh).
    destruct (speculative_staged p r l k plan rows g Hr Hw Hk Hts Hm Hrows Hem) as (res & r1 & s & host & dr & Hrun & Ho & Hat & Hrep & Hacc & _ & Hpre & Hpr & _).
    by exists res, r1, s, g, host, dr, xs.
Qed.

(** ** Running a step *)

(** The tokens a step generates, as a function of the request and the rows. *)
Definition step_gen (r : Request (T := T) (G := G) (D := D)) (l : list Z) (k : nat) (input : step_input) : option (gen (T := T)) :=
  match input with
  | PlainRow logits _ => emit p (limit_of r) (row_pick p (TurnEosFloor r) (Z.of_nat (length l)) logits) (gen_of r l)
  | GreedyRows rows =>
    let picks := verify_argmax (TurnEosFloor r) (Z.of_nat (length l)) (eos_token_id p) rows in
    emit_all p (limit_of r) (take (accepted_prefix picks (take k (draft_tokens_ (drafts r))) + 1) picks) (gen_of r l)
  | SampledRows _ => None
  end.

Lemma run_step_run r l k plan input :
  ready p r l -> whole_plan r l k plan -> plain_policy (turn_policy_ (turn r)) -> 0 < vocab_size p ->
  suits r l k input -> can_observe (stop_controller_ r) ->
  exists res r1 g, step_gen r l k input = Some g /\ run_step plan input r = (ROk res, r1) /\
    visible_tokens res = drop (length l) (g_tokens g) /\ reached p r r1 g /\ sound (limit_of r) g /\
    (Z.of_nat (length l) <= processed_sequence_length_ (progress r1) <= Z.of_nat (length (g_tokens g)) - (if ended g then 0 else 1))%Z /\
    can_observe (g_stop g) /\ exists xs, history (stop_controller_ r) (g_stop g) xs.
Proof.
  intros Hr Hw Hpl Hv Hin Hobs. destruct input as [logits drawn|rows|]; [| |done].
  - destruct Hin as [-> Hlen]. pose proof (plain_step p r l plan logits drawn Hr Hw Hpl Hv Hlen) as Hst. cbn zeta in Hst.
    destruct (emit_total (limit_of r) (row_pick p (TurnEosFloor r) (Z.of_nat (length l)) logits) (gen_of r l) Hobs) as (g & xs & Hem & Hc & Hh);
      [by apply row_pick_in_vocab|]. rewrite Hem in Hst. destruct Hst as (r1 & Hrun & Hadv).
    eexists _, r1, g. split; [exact Hem|]. split; [exact Hrun|]. split; [|split; [exact (advanced_reached p _ _ _ _ _ Hadv)|split; [exact (emit_sound _ _ _ _ (ready_live p r l Hr) Hem)|split; [|by eauto]]]].
    + cbn [visible_tokens staged_result]. rewrite (emit_prefix p _ _ _ _ Hem). cbn [g_tokens gen_of]. by rewrite drop_app_length.
    + rewrite (av_progress _ _ _ _ _ Hadv). cbn. rewrite (emit_prefix p _ _ _ _ Hem), length_app. cbn [g_tokens gen_of]. unfold ended.
      destruct (g_end g) eqn:Hge; [rewrite bool_decide_eq_true_2 by eauto; lia|].
      rewrite bool_decide_eq_false_2 by (by intros [? ?]). pose proof (emit_grows p _ _ _ _ Hem Hge) as Hg. rewrite (emit_prefix p _ _ _ _ Hem), length_app in Hg. cbn [g_tokens gen_of] in Hg. lia.
  - destruct Hin as (Hk & Hts & Hm & Hrows & Hlen). cbn [step_gen]. set (picks := verify_argmax _ _ _ _).
    destruct (emit_all_total (limit_of r) (take (accepted_prefix picks (take k (draft_tokens_ (drafts r))) + 1) picks)
      ltac:(by apply Forall_take, picks_in_vocab) (gen_of r l) Hobs) as (g & xs & Hem & Hc & Hh).
    destruct (speculative_step p r l k plan rows g Hr Hw Hk Hts Hm Hrows Hem) as (res & r1 & acc & Hrun & Hadv & Hvis & _ & Hgrow).
    exists res, r1, g. split; [done|]. split; [done|]. split; [done|]. split; [exact (advanced_reached p _ _ _ _ _ Hadv)|].
    split; [exact (emit_all_sound _ _ _ _ (ready_live p r l Hr) Hem)|]. split; [|by eauto].
    rewrite (av_progress _ _ _ _ _ Hadv). cbn. destruct (ended g); lia.
Qed.

Lemma restored_ready r r' l : ready p r l -> restored r r' l -> ready p r' l.
Proof.
  intros [R1 R2 R3 R4 R5 R6 R7 R8 R9 R10 R11] [S1 S2 S3 S4 S5 S6 S7 S8 S9].
  split; rewrite ?S2, ?S3, ?S4, ?S6, ?S7, ?S8, ?S9; try done. unfold limit_of. by rewrite S4.
Qed.

Lemma restored_gen r r' l k input : restored r r' l -> step_gen r' l k input = step_gen r l k input.
Proof.
  intros [S1 S2 S3 S4 S5 S6 S7 S8 S9]. unfold step_gen, limit_of, TurnEosFloor, gen_of. by rewrite S4, S5, S8, S9.
Qed.
End steps.


(** ** Turns finish *)

Section finishing.
Context {T E : Type} `{!Tokenizer T E}.
Context (p : GeneratorParams).

Lemma greedy_run_total limit floor model : 0 < vocab_size p -> (forall ctx, length (model ctx) = vocab_size p) ->
  forall n (g : gen (T := T)), live p limit g -> can_observe p (g_stop g) -> exists g', greedy_run p limit floor model n g = Some g' /\
  sound p limit g' /\ (g_end g' = None -> length (g_tokens g') = length (g_tokens g) + n /\ g_count g' = g_count g + n).
Proof.
  intros Hv Hlen. induction n as [|n IH]; intros g Hl Hc.
  { exists g. split; [done|]. split; [by apply live_sound|]. lia. }
  rewrite greedy_run_S. set (t := row_pick _ _ _ _).
  destruct (emit_total p limit t g Hc ltac:(by apply row_pick_in_vocab)) as (g1 & _ & He & Hc1 & _). rewrite He. cbn [mbind option_bind].
  pose proof (emit_sound p _ _ _ _ Hl He) as Hs. destruct (g_end g1) as [e|] eqn:Hg; [exists g1; by rewrite Hg|].
  destruct (IH g1 (emit_live p _ _ _ _ Hl He Hg) Hc1) as (g' & Hrun & Hs' & Hrest). exists g'. split; [done|]. split; [done|].
  intros Hg'. destruct (Hrest Hg') as [H1 H2]. rewrite (emit_grows p _ _ _ _ He Hg) in H1. rewrite (emit_count p _ _ _ _ He Hg) in H2. lia.
Qed.
End finishing.

