(* ===== verification/Lifecycle.v ===== *)
(** * The life of a request

    Requests of the plain class (greedy, no grammar, no reseed) under every call the engine
    makes: admission of a turn and its rollback, scheduling, prefill chunks, decode and
    speculative steps and their aborts, drafts, cancellation, failure and close.  No call
    runs into undefined behaviour and after every one the invariants the engine validates
    hold. *)

From S2P Require Import Prelude TurnPolicy Logits GreedySearch StepPlan EngineInvariants StopString Turns TurnsProofs Speculation TurnSteps.
From Stdlib Require Import SpecFloat.

Open Scope nat_scope.

Section life.
Context {T E : Type} `{!Tokenizer T E} {G GE : Type} `{!ConstrainedLogitsProcessor G GE}.
Context {D : Type} `{!BatchedSampler D}.
Context (p : GeneratorParams).
Implicit Types (r : Request (T := T) (G := G) (D := D)) (s : GreedySearch_Cpu) (l : list Z)
  (a : RequestTurnAdmission (T := T) (G := G)).

Abbreviation ROk := (@Ok (RequestError E GE) _).

(** ** Between turns *)

Record idle (r : Request (T := T) (G := G) (D := D)) (l : list Z) : Prop := mk_idle
  { id_search : exists s seen d, owns p r s (l, seen, d) None;
    id_host : tokens_host_ r = l;
    id_guidance : guidance_logits_processor_ r = None;
    id_stop : stop_controller_ r = None;
    id_reseed : pending_reseed_ (seeds r) = None;
    id_applied : pending_reseed_applied_ (seeds r) = false;
    id_drafts : drafts r = no_drafts;
    id_status : status_ r = Unassigned /\ l = [] \/ status_ r = TurnComplete;
    id_processed : (0 <= processed_sequence_length_ (progress r) <= Z.of_nat (length l))%Z;
    id_width : (N.of_nat (max_length p) < two64)%N }.

(** What the code checks before it touches the request. *)
Definition admissible (tokens : list Z) (max_generated : option N) (r : Request (T := T) (G := G) (D := D)) (l : list Z) : bool :=
  negb (bool_decide (max_generated = Some 0%N)) && negb (bool_decide (tokens = [])) &&
  negb (turn_id_exhausted_ (turn r)) && (length l + length tokens <? max_length p).

Lemma append_length_check len n max : ((max <=? len) || (max - len <=? n)) = negb (len + n <? max).
Proof. apply Bool.eq_iff_eq_true. rewrite orb_true_iff, !Nat.leb_le, negb_true_iff, Nat.ltb_ge. lia. Qed.

Lemma ValidateTurnAdmission_run tokens max_generated r l : idle r l ->
  if admissible tokens max_generated r l then ValidateTurnAdmission tokens max_generated r = (ROk tt, r)
  else exists e, ValidateTurnAdmission (E := E) (GE := GE) tokens max_generated r = (Throw e, r).
Proof.
  intros [(s & seen & d & Ho) Hh _ _ _ _ _ Hst _ _]. unfold admissible, ValidateTurnAdmission.
  case_bool_decide; cbn [negb andb]; [by eexists|]. rewrite throw_if_false by done.
  case_bool_decide; cbn [negb andb]; [by eexists|]. rewrite throw_if_false, gets_bind by done.
  destruct (turn_id_exhausted_ (turn r)); cbn [negb andb]; [by eexists|]. rewrite throw_if_false, !gets_bind by done.
  assert (exists first, (first = true -> l = []) /\ IsAwaitingFirstTurn r = first /\ negb first && negb (IsTurnComplete (status_ r)) = false) as (first & Hf & -> & ->).
  { unfold IsAwaitingFirstTurn. destruct Hst as [[-> ->]|Hst]; [by exists true|]. rewrite Hst. by exists false. }
  rewrite ret_bind.
  assert ((if first then mret 0 else current ← CurrentSequenceLength; mret (Z.to_nat current)) r = (ROk (length l), r)) as Hlen.
  { destruct first; [by rewrite (Hf eq_refl)|]. rewrite (bind_ok _ _ _ _ _ (CurrentSequenceLength_run p _ _ _ _ _ _ Ho)), Nat2Z.id. done. }
  rewrite (bind_ok _ _ _ _ _ Hlen), gets_bind. unfold ValidateAppendLength.
  rewrite append_length_check, <- (ow_max _ _ _ _ _ Ho). destruct (Nat.ltb_spec (length l + length tokens) (max_length p)); cbn [negb]; [|by eexists].
  rewrite throw_if_false, gets_bind by done. unfold id, capacity. rewrite Hh, <- (ow_max _ _ _ _ _ Ho). unfold throw_if. rewrite (proj2 (Nat.ltb_ge _ _)) by lia. done.
Qed.

Lemma on_request_ok {A} (m : M (Request (T := T) (G := G) (D := D)) (RequestError E GE) A) r a x r' :
  m r = (Ok x, r') -> on_request m (r, a) = (Ok x, (r', a)).
Proof. intros Hm. unfold on_request. by rewrite Hm. Qed.

Lemma on_request_gets {A B} (f : Request (T := T) (G := G) (D := D) -> A) (k : A -> M _ (RequestError E GE) B) r a :
  (on_request (gets f) ≫= k) (r, a) = k (f r) (r, a).
Proof. done. Qed.

(** The request after its tokens were appended, before the scheduler is asked. *)
Record prepared (r r1 : Request (T := T) (G := G) (D := D)) (l tokens : list Z) : Prop := mk_prepared
  { pp_search : exists s seen d, owns p r1 s (l ++ tokens, false, false) (Some (l, seen, d)) /\
                  exists s0, owns p r s0 (l, seen, d) None;
    pp_host : tokens_host_ r1 = l ++ tokens;
    pp_status : status_ r1 = Assigned;
    pp_turn : turn r1 = turn r;
    pp_guidance : guidance_logits_processor_ r1 = None;
    pp_stop : stop_controller_ r1 = None;
    pp_seeds : seeds r1 = seeds r;
    pp_drafts : drafts r1 = no_drafts;
    pp_progress : progress r1 = (progress r) <| prompt_sequence_length_ := Z.of_nat (length (l ++ tokens)) |>
                                <| processed_sequence_length_ := (if IsAwaitingFirstTurn r then 0%Z else processed_sequence_length_ (progress r)) |>;
    pp_checkpoint : checkpoint r1 = mkCheckpoint (rng_ (seeds r)) (processed_sequence_length_ (progress r)) (length l) None 0;
    pp_engine : engine_identity_ r1 = engine_identity_ r }.

Definition saved_admission (r : Request (T := T) (G := G) (D := D)) (a : RequestTurnAdmission (T := T) (G := G)) : RequestTurnAdmission :=
  mkAdmission (status_ r) (length (tokens_host_ r)) (prompt_sequence_length_ (progress r)) (processed_sequence_length_ (progress r))
    true (policy a) (pending_stop_controller a) (pending_guidance a).

Lemma PrepareTurnAdmission_run tokens r l a : idle r l -> length l + length tokens < max_length p ->
  exists r1, PrepareTurnAdmission tokens (r, a) = (ROk tt, (r1, saved_admission r a)) /\ prepared r r1 l tokens.
Proof.
  intros [(s & seen & d & Ho) Hh Hg Hs Hre Hap Hdr _ _ _] Hlt. unfold PrepareTurnAdmission.
  rewrite !on_request_gets.
  unfold in_admission. rewrite modify_bind.
  destruct (one_save p (ow_single _ _ _ _ _ Ho) s _ (ow_holds _ _ _ _ _ Ho)) as (s1 & Hs1 & Hh1).
  pose proof (on_search_ok (E := E) (GE := GE) (fun _ => StartTransactionCheckpoint) r p s tt s1 (ow_params _ _ _ _ _ Ho) (ow_search _ _ _ _ _ Ho) Hs1) as Hrun1.
  set (r1 := r <| search_ := Some s1 |> <| checkpoint := mkCheckpoint (rng_ (seeds r)) (processed_sequence_length_ (progress r)) (length (tokens_host_ r)) None 0 |>).
  assert (SaveStateForNewTurnTransaction r = (ROk tt, r1)) as Hsave.
  { unfold SaveStateForNewTurnTransaction. rewrite gets_bind. unfold id. rewrite Hg, Hs, Hre, Hap. rewrite throw_if_false by done.
    rewrite (bind_ok _ _ _ _ _ Hrun1). done. }
  rewrite (bind_ok _ _ _ _ _ (on_request_ok _ _ _ _ _ Hsave)), modify_bind.
  destruct (one_append p (ow_single _ _ _ _ _ Ho) tokens s1 l seen d _ Hh1 Hlt) as (s2 & Hs2 & Hh2).
  pose proof (on_search_ok (E := E) (GE := GE) (fun p => AppendTokens p tokens) r1 p s1 tt s2 (ow_params _ _ _ _ _ Ho) eq_refl Hs2) as Hrun2.
  eexists. split.
  - apply on_request_ok. rewrite (bind_ok _ _ _ _ _ Hrun2), modify_bind. set (r2 := r1 <| search_ := Some s2 |> <| tokens_host_ := _ |>).
    assert (owns p r2 s2 (l ++ tokens, false, false) (Some (l, seen, d))) as Ho2 by (destruct Ho; by split).
    rewrite (bind_ok _ _ _ _ _ (CurrentSequenceLength_run p _ _ _ _ _ _ Ho2)). unfold in_progress. rewrite modify_bind.
    assert (forall r', (if IsAwaitingFirstTurn r then modify (fun r => r <| progress := (progress r) <| processed_sequence_length_ := 0%Z |> |>) else mret tt) r' =
      (ROk tt, if IsAwaitingFirstTurn r then r' <| progress := (progress r') <| processed_sequence_length_ := 0%Z |> |> else r')) as Hif by (by intros r'; destruct (IsAwaitingFirstTurn r)).
    rewrite (bind_ok _ _ _ _ _ (Hif _)). reflexivity.
  - destruct (IsAwaitingFirstTurn r) eqn:Hf; split; rewrite ?Hf; cbn; rewrite ?Hh; try done.
    all: try (exists s2, seen, d; split; [destruct Ho as [O1 O2 O3 O4 O5]; by split|by exists s]).
    all: try by destruct (progress r).
Qed.

(** ** Rolling an admission back *)

(** Everything a caller of an idle request can observe; only the tokens bound to a step,
    of which there is none, and the saved checkpoint may differ. *)
Record unchanged (r r' : Request (T := T) (G := G) (D := D)) (l : list Z) : Prop := mk_unchanged
  { un_search : exists s s' seen d, owns p r s (l, seen, d) None /\ owns p r' s' (l, seen, d) None;
    un_host : tokens_host_ r' = tokens_host_ r;
    un_status : status_ r' = status_ r;
    un_turn : turn r' = turn r;
    un_guidance : guidance_logits_processor_ r' = guidance_logits_processor_ r;
    un_stop : stop_controller_ r' = stop_controller_ r;
    un_seeds : seeds r' = seeds r;
    un_drafts : drafts r' = drafts r;
    un_progress : progress r' = (progress r) <| scheduled_token_count_ := 0 |>;
    un_engine : engine_identity_ r' = engine_identity_ r }.

Lemma RollbackTurnAdmission_run tokens r r1 l a : idle r l -> prepared r r1 l tokens ->
  exists r' a', RollbackTurnAdmission (r1, saved_admission r a) = (ROk tt, (r', a')) /\ unchanged r r' l.
Proof.
  intros [_ Hh Hg Hs Hre Hap Hdr _ _ _] [(s & seen & d & Ho & s0 & Ho0) P2 P3 P4 P5 P6 P7 P8 P9 P10 P11].
  unfold RollbackTurnAdmission. rewrite gets_bind. cbn [snd saved_admission transaction_started negb].
  set (r2 := r1 <| status_ := status_ r |> <| tokens_host_ := resize (length (tokens_host_ r)) (tokens_host_ r1) |>
    <| progress := (progress r1) <| prompt_sequence_length_ := prompt_sequence_length_ (progress r) |>
                                 <| processed_sequence_length_ := processed_sequence_length_ (progress r) |> |>).
  destruct (one_restore p (ow_single _ _ _ _ _ Ho) s _ _ (ow_holds _ _ _ _ _ Ho)) as (s' & Hs' & Hh').
  pose proof (on_search_ok (E := E) (GE := GE) (fun _ => GreedySearch.RestoreStateForTransaction) r2 p s tt s' (ow_params _ _ _ _ _ Ho) (ow_search _ _ _ _ _ Ho) Hs') as Hrun.
  set (r3 := restore_locals (r2 <| search_ := Some s' |>)).
  assert (RestoreStateForTransaction r2 = (ROk tt, r3)) as Hrst.
  { unfold RestoreStateForTransaction. rewrite (bind_ok _ _ _ _ _ Hrun), modify_bind. fold r3. unfold restore_guidance. rewrite modify_bind.
    change (checkpoint r3) with (checkpoint r1). rewrite P10. cbn [guidance_transaction_checkpoint_].
    unfold restore_stop. rewrite gets_bind. change (stop_controller_ r3) with (stop_controller_ r1). by rewrite P6. }
  eexists r3, _. split.
  - erewrite bind_ok; [|apply on_request_ok; rewrite modify_bind; exact Hrst]. reflexivity.
  - split; try done.
    + exists s0, s', seen, d. split; [done|]. destruct Ho as [O1 _ O3 O4 _]. by split.
    + cbn. rewrite P10, P2, Hh. cbn. rewrite resize_prefix by (by eexists). by apply resize_prefix.
    + cbn. by rewrite P5, Hg.
    + cbn. by rewrite P6, Hs.
    + cbn. rewrite P10, P7. cbn. destruct (seeds r). cbn in Hap |- *. unfold set_field, set_rng, set_pending_reseed_applied. cbn. by rewrite Hap.
    + cbn. by rewrite P8, Hdr.
    + cbn. rewrite P10, P9. cbn. by destruct (progress r).
Qed.

(** ** A committed admission *)

Record admitted (r r' : Request (T := T) (G := G) (D := D)) (l tokens : list Z) (a : RequestTurnAdmission (T := T) (G := G))
    (seed : option N) : Prop := mk_admitted
  { ad_search : exists s, owns p r' s (l ++ tokens, false, false) None;
    ad_host : tokens_host_ r' = l ++ tokens;
    ad_status : status_ r' = Assigned;
    ad_turn : turn r' = begin_turn (length tokens) (length l) ((turn r) <| turn_policy_ := policy a |>);
    ad_stop : stop_controller_ r' = pending_stop_controller a;
    ad_guidance : guidance_logits_processor_ r' = pending_guidance a;
    ad_seeds : seeds r' = (seeds r) <| pending_reseed_ := seed |> <| pending_reseed_applied_ := false |>;
    ad_drafts : drafts r' = no_drafts;
    ad_prompt : prompt_sequence_length_ (progress r') = Z.of_nat (length (l ++ tokens));
    ad_processed : processed_sequence_length_ (progress r') = if IsAwaitingFirstTurn r then 0%Z else processed_sequence_length_ (progress r);
    ad_engine : engine_identity_ r' = engine_identity_ r }.

Lemma CommitTurnAdmission_run tokens seed r r1 l a : idle r l -> prepared r r1 l tokens ->
  exists r' a', CommitTurnAdmission seed (r1, saved_admission r a) = (ROk (next_turn_id_ (turn r)), (r', a')) /\ admitted r r' l tokens a seed.
Proof.
  intros [_ Hh Hg Hs Hre Hap Hdr _ _ _] [(s & seen & d & Ho & _) P2 P3 P4 P5 P6 P7 P8 P9 P10 P11].
  unfold CommitTurnAdmission. rewrite gets_bind.
  destruct (CommitStateForTransaction_run (E := E) (GE := GE) p r1 s _ _ Ho) as (s' & Hrun & Hh'); [by rewrite P7|].
  rewrite (bind_ok _ _ _ _ _ (on_request_ok _ _ _ _ _ Hrun)). unfold in_checkpoint, in_turn, in_progress, in_seeds, in_admission.
  eexists _, _. split; [erewrite bind_ok; [|apply on_request_ok; rewrite !modify_bind, gets_bind; reflexivity]; rewrite modify_bind|].
  - unfold on_request, gets. cbn. f_equal. unfold begin_turn. cbn. rewrite P4. by destruct (_ =? _)%N.
  - split; cbn; rewrite ?P4, ?P7, ?P8, ?P9, ?P2, ?P11; try done.
    + exists s'. destruct Ho as [O1 _ O3 O4 _]. by split.
    + rewrite Hh, length_app. f_equal. lia.
Qed.

(** The whole admission; [o] is the scheduler's answer. *)
Lemma BeginTurn_run tokens max_generated seed (o : outcome (RequestError E GE) unit) r l a : idle r l ->
  if admissible tokens max_generated r l then
    match o with
    | Ok _ => exists r', BeginTurn tokens max_generated seed (fun x => (o, x)) a r = (ROk (next_turn_id_ (turn r)), r') /\ admitted r r' l tokens a seed
    | Throw e => exists r', BeginTurn tokens max_generated seed (fun x => (o, x)) a r = (Throw e, r') /\ unchanged r r' l
    | _ => True
    end
  else exists e, BeginTurn tokens max_generated seed (fun x => (o, x)) a r = (Throw e, r).
Proof.
  intros Hi. pose proof (ValidateTurnAdmission_run tokens max_generated r l Hi) as Hv. unfold BeginTurn.
  destruct (admissible tokens max_generated r l) eqn:Hadm; [|destruct Hv as [e He]; exists e; by rewrite (bind_throw _ _ _ _ _ He)].
  unfold admissible in Hadm. rewrite !andb_true_iff, Nat.ltb_lt in Hadm. destruct Hadm as [_ Hlt].
  destruct (PrepareTurnAdmission_run tokens r l a Hi Hlt) as (r1 & Hprep & Hpp).
  destruct o as [[]|e| |]; [| |done|done]; rewrite (bind_ok _ _ _ _ _ Hv); unfold admit_or_rollback, begin_turn_attempt.
  - destruct (CommitTurnAdmission_run tokens seed r r1 l a Hi Hpp) as (r' & a' & Hc & Had). exists r'.
    rewrite (bind_ok _ _ _ _ _ Hprep). unfold mbind, M_bind. by rewrite Hc.
  - destruct (RollbackTurnAdmission_run tokens r r1 l a Hi Hpp) as (r' & a' & Hrb & Hun). exists r'.
    rewrite (bind_ok _ _ _ _ _ Hprep). unfold mbind, M_bind. by rewrite Hrb.
Qed.

(** ** The invariant *)

(** A turn in progress. *)
Record executing (r : Request (T := T) (G := G) (D := D)) (l : list Z) : Prop := mk_executing
  { ex_ready : ready p r l;
    ex_policy : plain_policy (turn_policy_ (turn r));
    ex_founded : well_founded_stop (stop_controller_ r);
    ex_observe : can_observe p (stop_controller_ r);
    ex_turn : has_current_turn_ (turn r) = true;
    ex_reason : finish_reason_ (turn r) = FinishNone }.

(** A turn that is over, and how. *)
Record completed (r : Request (T := T) (G := G) (D := D)) (l : list Z) : Prop := mk_completed
  { cm_idle : idle r l;
    cm_turn : has_current_turn_ (turn r) = true;
    cm_reason : finish_reason_ (turn r) <> FinishNone;
    cm_input : IsPrefill r = true -> finish_reason_ (turn r) = Canceled \/ finish_reason_ (turn r) = Failed }.

Record life (r : Request (T := T) (G := G) (D := D)) (l : list Z) : Prop := mk_life
  { lf_next : next_turn_id_ (turn r) <> 0%N;
    lf_current : has_current_turn_ (turn r) = true -> current_turn_id_ (turn r) <> 0%N;
    lf_matched : finish_reason_ (turn r) = StopString <-> (0 <= matched_stop_string_index_ (turn r))%Z;
    lf_prompt : (prompt_sequence_length_ (progress r) <= Z.of_nat (length l))%Z;
    lf_phase : match status_ r with
               | Unassigned => idle r l /\ finish_reason_ (turn r) = FinishNone
               | Assigned | Active => executing r l
               | TurnComplete => completed r l
               | Closed => False
               end }.

(** A closed request: it has let go of everything. *)
Record shut (r : Request (T := T) (G := G) (D := D)) : Prop := mk_shut
  { sh_status : status_ r = Closed;
    sh_engine : engine_identity_ r = None;
    sh_drafts : drafts r = no_drafts }.

Definition alive (r : Request (T := T) (G := G) (D := D)) : Prop := (exists l, life r l) \/ shut r.

Lemma life_search r l : life r l -> exists s seen d, owns p r s (l, seen, d) None /\ tokens_host_ r = l /\
  staged_draft_count_ (drafts r) = 0 /\ (0 <= processed_sequence_length_ (progress r) <= Z.of_nat (length l))%Z.
Proof.
  intros [_ _ _ _ Hp]. destruct (status_ r); [..|done].
  - destruct Hp as [[(s & seen & d & Ho) Hh _ _ _ _ Hd _ Hpr _] _]. exists s, seen, d. by rewrite Hd.
  - destruct Hp as [[[s Ho] Hh _ _ _ Hd _ _ Hpr _ _] _ _ _ _ _]. exists s, false, false. split; [done|]. split; [done|]. split; [done|lia].
  - destruct Hp as [[[s Ho] Hh _ _ _ Hd _ _ Hpr _ _] _ _ _ _ _]. exists s, false, false. split; [done|]. split; [done|]. split; [done|lia].
  - destruct Hp as [[(s & seen & d & Ho) Hh _ _ _ _ Hd _ Hpr _] _]. exists s, seen, d. by rewrite Hd.
Qed.

(** What the engine validates holds of it. *)
Lemma life_consistent r l : life r l -> exists snapshot, Snapshot r = (ROk snapshot, r) /\ ValidateRequestInvariants snapshot = [].
Proof.
  intros Hl. destruct (life_search r l Hl) as (s & seen & d & Ho & _ & Hst & Hpr). unfold Snapshot, CommittedSequenceLength.
  rewrite bind_bind, (bind_ok _ _ _ _ _ (CurrentSequenceLength_run p _ _ _ _ _ _ Ho)), bind_bind, gets_bind, ret_bind, gets_bind. unfold id. rewrite Hst.
  eexists. split; [reflexivity|]. apply ValidateRequestInvariants_exact. destruct Hl as [_ Hc Hm _ Hph]. split; cbn.
  - lia.
  - done.
  - done.
  - intros He. destruct (status_ r); try done; by destruct Hph.
  - intros He. rewrite He in Hph. by destruct Hph.
Qed.

(** ** Calls *)

Inductive request_call : Type :=
  | CallBegin (tokens : list Z) (max_generated : option N) (admission : RequestTurnAdmission (T := T) (G := G))
      (scheduler : outcome (RequestError E GE) unit)
  | CallSchedule
  | CallDrafts (max_drafts : nat) (tokens : list Z)
  | CallStep (plan : RequestStepPlan) (input : step_input)
  | CallAbort (plan : RequestStepPlan) (input : step_input)
  | CallCancel (engine turn_id : N)
  | CallFail
  | CallClose.

Definition run_call (c : request_call) : M (Request (T := T) (G := G) (D := D)) (RequestError E GE) unit :=
  match c with
  | CallBegin tokens max_generated a o => _ ← BeginTurn tokens max_generated None (fun x => (o, x)) a; mret tt
  | CallSchedule => Schedule
  | CallDrafts n tokens => SetDraftTokens n tokens
  | CallStep plan input => _ ← run_step plan input; mret tt
  | CallAbort plan input => abort_step plan input
  | CallCancel engine turn_id =>
    can ← CanCancelFromEngine engine turn_id;
    if (can : bool) then _ ← CompleteCancelFromEngine; mret tt else mret tt
  | CallFail => CompleteFailedTurnFromEngine
  | CallClose => CompleteCloseFromEngine
  end.

(** A plan that feeds part of the prompt. *)
Record chunk_plan (r : Request (T := T) (G := G) (D := D)) (l : list Z) (plan : RequestStepPlan) : Prop := mk_chunk
  { ck_some : unprocessed_token_count plan <> 0%N;
    ck_part : (processed_sequence_length_ (progress r) + Z.of_N (unprocessed_token_count plan) < Z.of_nat (length l))%Z;
    ck_drafts : draft_token_count plan = 0%N;
    ck_slots : Z.of_N (target_cache_slots plan) = (processed_sequence_length_ (progress r) + Z.of_N (unprocessed_token_count plan))%Z }.

(** The calls the engine makes: a step only on a request in execution and with a plan made
    for it; an admission with the resources of its turn. *)
Definition allowed_call (c : request_call) (r : Request (T := T) (G := G) (D := D)) : Prop :=
  match c with
  | CallBegin _ max_generated a o =>
    pending_guidance a = None /\ plain_policy (policy a) /\ max_generated_tokens (policy a) = max_generated /\
    well_founded_stop (pending_stop_controller a) /\ can_observe p (pending_stop_controller a) /\
    (o = Ok tt \/ exists e, o = Throw e)
  | CallStep plan input => IsExecutable (status_ r) = true /\
    ((exists k, whole_plan r (tokens_host_ r) k plan /\ suits p r (tokens_host_ r) k input) \/
     (chunk_plan r (tokens_host_ r) plan /\ exists logits drawn, input = PlainRow logits drawn))
  | CallAbort plan input => IsExecutable (status_ r) = true /\
    exists k, whole_plan r (tokens_host_ r) k plan /\ suits p r (tokens_host_ r) k input
  | CallFail => IsExecutable (status_ r) = true
  | _ => True
  end.

Definition returns (o : outcome (RequestError E GE) unit) : Prop := o = Ok tt \/ exists e, o = Throw e.

(** A call that keeps the invariant, whether it succeeds or throws. *)
Definition keeps (m : M (Request (T := T) (G := G) (D := D)) (RequestError E GE) unit) (r : Request (T := T) (G := G) (D := D)) : Prop :=
  exists o r', m r = (o, r') /\ returns o /\ alive r'.

Lemma keeps_throw m r e : m r = (Throw e, r) -> alive r -> keeps m r.
Proof. intros Hm Ha. exists (Throw e), r. split; [done|]. split; [right; by eexists|done]. Qed.

Lemma keeps_ok m r r' : m r = (Ok tt, r') -> alive r' -> keeps m r.
Proof. intros Hm Ha. exists (Ok tt), r'. split; [done|]. split; [by left|done]. Qed.

(** Admission is refused while a turn runs and after close. *)
Lemma BeginTurn_busy tokens max_generated (o : outcome (RequestError E GE) unit) a r : IsExecutable (status_ r) = true \/ status_ r = Closed ->
  exists e, BeginTurn tokens max_generated None (fun x => (o, x)) a r = (Throw e, r).
Proof.
  intros Hst. assert (exists e, ValidateTurnAdmission (E := E) (GE := GE) tokens max_generated r = (Throw e, r)) as [e He].
  { unfold ValidateTurnAdmission. destruct (bool_decide (max_generated = _)); [eexists; reflexivity|]. rewrite throw_if_false by done.
    destruct (bool_decide (tokens = [])); [eexists; reflexivity|]. rewrite throw_if_false, gets_bind by done.
    destruct (turn_id_exhausted_ (turn r)); [eexists; reflexivity|]. rewrite throw_if_false, !gets_bind by done. unfold IsAwaitingFirstTurn.
    destruct Hst as [Hst|Hst]; [destruct (status_ r); try done|rewrite Hst]; eexists; reflexivity. }
  exists e. unfold BeginTurn. by rewrite (bind_throw _ _ _ _ _ He).
Qed.

Lemma unchanged_life r r' l : life r l -> idle r l -> unchanged r r' l -> life r' l.
Proof.
  intros [L1 L2 L3 L4 L5] [I1 I2 I3 I4 I5 I6 I7 I8 I9 I10] [(s & s' & seen & d & _ & Ho') U2 U3 U4 U5 U6 U7 U8 U9 U10].
  assert (idle r' l) as Hi'.
  { split; rewrite ?U2, ?U3, ?U5, ?U6, ?U7, ?U8, ?U9; try done. by exists s', seen, d. }
  split; rewrite ?U3, ?U4, ?U9; try done. destruct I8 as [[Hs ->]|Hs]; rewrite Hs in L5 |- *; [by destruct L5|].
  destruct L5 as [_ C2 C3 C4]. split; rewrite ?U4; try done. unfold IsPrefill in *. by rewrite U9.
Qed.

Lemma begin_turn_facts n h t : next_turn_id_ t <> 0%N -> let t' := begin_turn n h t in
  next_turn_id_ t' <> 0%N /\ current_turn_id_ t' = next_turn_id_ t /\ has_current_turn_ t' = true /\
  finish_reason_ t' = FinishNone /\ matched_stop_string_index_ t' = (-1)%Z /\ turn_policy_ t' = turn_policy_ t /\ turn_generated_tokens_ t' = 0.
Proof. intros Hn. unfold begin_turn. cbn. destruct (_ =? _)%N; cbn; [done|]. split; [lia|done]. Qed.

Lemma admitted_life tokens max_generated r r' l a : life r l -> idle r l -> admissible tokens max_generated r l = true ->
  pending_guidance a = None -> plain_policy (policy a) -> max_generated_tokens (policy a) = max_generated ->
  well_founded_stop (pending_stop_controller a) -> can_observe p (pending_stop_controller a) ->
  admitted r r' l tokens a None -> life r' (l ++ tokens).
Proof.
  intros [L1 _ _ _ _] [_ _ _ _ I5 _ _ I8 I9 I10] Hadm Hg Hpl Hmax Hw Hc [A1 A2 A3 A4 A5 A6 A7 A8 A9 A10 A11].
  unfold admissible in Hadm. rewrite !andb_true_iff, Nat.ltb_lt, !negb_true_iff, !bool_decide_eq_false in Hadm. destruct Hadm as [[[Hm Ht] _] Hlt].
  set (t0 := (turn r) <| turn_policy_ := policy a |>) in A4. assert (next_turn_id_ t0 <> 0%N) as L1' by exact L1.
  destruct (begin_turn_facts (length tokens) (length l) t0 L1') as (F1 & F2 & F3 & F4 & F5 & F6 & F7).
  rewrite <- A4 in F1, F2, F3, F4, F5, F6, F7. cbn in F2, F6.
  assert (0 < length tokens) as Hpos by (destruct tokens; [done|cbn; lia]).
  assert (0 <= processed_sequence_length_ (progress r') < Z.of_nat (length (l ++ tokens)))%Z as Hpr.
  { rewrite A10, length_app. destruct (IsAwaitingFirstTurn r); lia. }
  split; [done|intros _; by rewrite F2|rewrite F4, F5; split; [done|lia]|rewrite A9; lia|]. rewrite A3. split.
  - split; try done; [by rewrite A6|by rewrite A7|by rewrite A7|by rewrite A8|by rewrite A8|by rewrite A3|].
    unfold limit_of, limit_reached. rewrite F6, F7, Hmax. destruct max_generated as [m|]; [|done]. apply N.leb_gt.
    destruct m; [done|cbn; lia].
  - by rewrite F6.
  - by rewrite A5.
  - by rewrite A5.
  - done.
  - done.
Qed.

Lemma begin_keeps tokens max_generated a o r : alive r -> allowed_call (CallBegin tokens max_generated a o) r ->
  keeps (run_call (CallBegin tokens max_generated a o)) r.
Proof.
  intros Ha (Hg & Hpl & Hmax & Hw & Hc & Ho). unfold keeps. cbn [run_call].
  assert (IsExecutable (status_ r) = true \/ status_ r = Closed \/ exists l, life r l /\ idle r l) as Hcase.
  { destruct Ha as [[l Hl]|Hs]; [|by right; left; apply Hs]. pose proof (lf_phase _ _ Hl) as Hph.
    destruct (status_ r); [right; right; exists l; by destruct Hph|by left|by left|right; right; exists l; by destruct Hph|done]. }
  destruct Hcase as [Hb|[Hb|(l & Hl & Hi)]].
  1, 2: destruct (BeginTurn_busy tokens max_generated o a r) as [e He]; [by auto|];
    apply (keeps_throw _ _ e); [by rewrite (bind_throw _ _ _ _ _ He)|done].
  pose proof (BeginTurn_run tokens max_generated None o r l a Hi) as Hrun. destruct (admissible tokens max_generated r l) eqn:Hadm.
  - destruct Ho as [->|[e ->]]; destruct Hrun as (r' & Hrun & Hpost).
    + apply (keeps_ok _ _ r'); [by rewrite (bind_ok _ _ _ _ _ Hrun)|]. left. exists (l ++ tokens). by apply (admitted_life tokens max_generated r r' l a).
    + exists (Throw e), r'. split; [by rewrite (bind_throw _ _ _ _ _ Hrun)|]. split; [right; by eexists|]. left. exists l. by apply (unchanged_life r).
  - destruct Hrun as [e He]. apply (keeps_throw _ _ e); [by rewrite (bind_throw _ _ _ _ _ He)|done].
Qed.

(** ** Scheduling, drafts, and the end of a turn *)

Lemma executing_phase r l : life r l -> IsExecutable (status_ r) = true -> executing r l.
Proof. intros [_ _ _ _ Hp]. by destruct (status_ r). Qed.

Lemma schedule_keeps r : alive r -> keeps Schedule r.
Proof.
  intros Ha. unfold keeps, Schedule. destruct (decide (status_ r = Assigned)) as [Hs|Hs].
  2: { apply (keeps_throw _ _ NotAssigned); [|done]. rewrite gets_bind. by rewrite bool_decide_eq_false_2. }
  destruct Ha as [[l Hl]|[Hc _ _]]; [|congruence]. pose proof (executing_phase r l Hl ltac:(by rewrite Hs)) as Hx.
  pose proof (ex_ready _ _ Hx) as Hr. destruct (rd_search _ _ _ Hr) as [s Ho]. pose proof (rd_processed _ _ _ Hr) as Hpr.
  apply (keeps_ok _ _ (r <| status_ := Active |>)).
  - rewrite gets_bind, Hs. rewrite throw_if_false by done. rewrite gets_bind, (ow_search _ _ _ _ _ Ho). rewrite bool_decide_eq_true_2 by eauto. cbn [negb]. rewrite bind_bind.
    rewrite (bind_ok _ _ _ _ _ (CurrentSequenceLength_run p _ _ _ _ _ _ Ho)). rewrite throw_if_false by (apply Z.eqb_neq; lia). done.
  - left. exists l. destruct Hl as [L1 L2 L3 L4 _], Hx as [_ X2 X3 X4 X5 X6]. split; try done. split; try done.
    destruct Hr as [_ R2 R3 R4 R5 R6 R7 R8 R9 R10 R11]. split; try done. exists s. by destruct Ho.
Qed.

(** Replacing the proposed drafts. *)
Lemma life_drafts r l tokens : life r l -> (tokens = [] \/ IsExecutable (status_ r) = true) ->
  life (r <| drafts := (drafts r) <| draft_tokens_ := tokens |> <| draft_token_distributions_ := [] |> |>) l.
Proof.
  intros [L1 L2 L3 L4 L5] Ht. split; try done. cbn.
  assert (forall (Hi : idle r l), tokens = [] -> idle (r <| drafts := (drafts r) <| draft_tokens_ := tokens |> <| draft_token_distributions_ := [] |> |>) l) as Hidle.
  { intros [(s & seen & d & Ho) I2 I3 I4 I5 I6 I7 I8 I9 I10] ->. split; try done; [exists s, seen, d; by destruct Ho|]. cbn. by rewrite I7. }
  assert (executing r l -> executing (r <| drafts := (drafts r) <| draft_tokens_ := tokens |> <| draft_token_distributions_ := [] |> |>) l) as Hexec.
  { intros [[[s Ho] R2 R3 R4 R5 R6 R7 R8 R9 R10 R11] X2 X3 X4 X5 X6]. split; try done. split; try done. exists s. by destruct Ho. }
  destruct (status_ r); destruct Ht as [Ht|Ht]; try done; try by apply Hexec.
  - destruct L5. split; [by apply Hidle|done].
  - destruct L5 as [C1 C2 C3 C4]. split; try done. by apply Hidle.
Qed.

Lemma drafts_keeps n tokens r : alive r -> keeps (SetDraftTokens n tokens) r.
Proof.
  intros Ha. unfold keeps, SetDraftTokens. 
  assert (staged_draft_count_ (drafts r) = 0) as Hst.
  { destruct Ha as [[l Hl]|[_ _ ->]]; [|done]. by destruct (life_search r l Hl) as (_ & _ & _ & _ & _ & ? & _). }
  destruct Ha as [[l Hl]|Hsh].
  2: { apply (keeps_throw _ _ DraftsOnClosed); [|by right]. rewrite gets_bind. unfold id. rewrite Hst. rewrite throw_if_false by done. by rewrite (sh_status _ Hsh). }
  destruct (life_search r l Hl) as (s & seen & d & Ho & Hh & _).
  assert (IsClosed (status_ r) = false) as Hcl by (pose proof (lf_phase _ _ Hl); by destruct (status_ r)).
  assert (alive r) as Ha by (left; by exists l).
  destruct tokens as [|t tokens].
  - eapply keeps_ok; [rewrite gets_bind; unfold id; rewrite Hst, Hcl; rewrite !throw_if_false by done; reflexivity|]. left. exists l. by apply life_drafts; [|left].
  - destruct (negb (IsExecuting (status_ r)) || IsPrefill r) eqn:Hex.
    { apply (keeps_throw _ _ NotReadyToDecode); [|done]. rewrite gets_bind. unfold id. rewrite Hst, Hcl. rewrite !throw_if_false by done. by rewrite Hex. }
    apply orb_false_iff in Hex as [Hex Hpre]. apply negb_false_iff in Hex.
    assert (executing r l) as Hx by (apply (executing_phase r l Hl); unfold IsExecutable; rewrite Hex; by rewrite orb_true_r).
    assert (forall m, (exists e, m r = (@Throw (RequestError E GE) unit e, r)) -> exists o r', m r = (o, r') /\ returns o /\ alive r') as Hthrow.
    { intros m [e He]. exists (Throw e), r. split; [done|]. split; [right; by eexists|done]. }
    rewrite gets_bind. unfold id. rewrite Hst, Hcl, Hex, Hpre. rewrite !throw_if_false by done. rewrite (rd_guidance _ _ _ (ex_ready _ _ Hx)).
    destruct (DraftTokenValidationError r) as [e|]; [apply Hthrow; by eexists|]. rewrite ret_bind.
    destruct (engine_ r) as [e|]; [|apply Hthrow; by eexists]. rewrite throw_if_false by done.
    destruct (n =? 0); [apply Hthrow; by eexists|]. rewrite throw_if_false by done.
    destruct (n <? length (t :: tokens)); [apply Hthrow; by eexists|]. rewrite throw_if_false by done.
    rewrite (bind_ok _ _ _ _ _ (CurrentSequenceLength_run p _ _ _ _ _ _ Ho)). unfold ValidateAppendLength.
    destruct ((max_session_tokens_ r <=? _) || _); [apply Hthrow; by eexists|]. rewrite throw_if_false by done.
    destruct (capacity r <? _); [apply Hthrow; by eexists|]. rewrite throw_if_false by done.
    eexists _, _. split; [reflexivity|]. split; [by left|]. left. exists l. apply life_drafts; [done|right].
    unfold IsExecutable. rewrite Hex. by rewrite orb_true_r.
Qed.

(** Ending a turn from outside. *)
Lemma end_turn_life r l reason : life r l -> IsExecutable (status_ r) = true -> reason = Canceled \/ reason = Failed ->
  forall r', params_ r' = params_ r -> search_ r' = search_ r -> max_session_tokens_ r' = max_session_tokens_ r -> tokens_host_ r' = tokens_host_ r ->
  guidance_logits_processor_ r' = None -> stop_controller_ r' = None -> seeds r' = (seeds r) <| pending_reseed_ := None |> <| pending_reseed_applied_ := false |> ->
  drafts r' = no_drafts -> status_ r' = TurnComplete -> progress r' = progress r ->
  turn r' = (turn r) <| finish_reason_ := reason |> <| matched_stop_string_index_ := (-1)%Z |> -> life r' l.
Proof.
  intros Hl He Hreason r' E1 E2 E3 E4 E5 E6 E7 E8 E9 E10 E11.
  destruct (executing_phase r l Hl He) as [[[s Ho] R2 R3 R4 R5 R6 R7 R8 R9 R10 R11] X2 X3 X4 X5 X6].
  destruct Hl as [L1 L2 L3 L4 _]. split; rewrite ?E11, ?E10; cbn; try done; [destruct Hreason as [-> | ->]; (split; [done|lia])|].
  rewrite E9. split; rewrite ?E11; cbn; [|done|by destruct Hreason as [-> | ->]|done].
  split; rewrite ?E10; try congruence; [|by rewrite E7|by rewrite E7|by right|lia].
  exists s, false, false. by apply (owns_frame p r).
Qed.

Lemma cancel_keeps engine turn_id r : alive r -> keeps (run_call (CallCancel engine turn_id)) r.
Proof.
  intros Ha. unfold keeps. cbn [run_call]. unfold CanCancelFromEngine. 
  destruct (BelongsTo engine r) eqn:Hb.
  2: { apply (keeps_throw _ _ ForeignRequest); [|done]. rewrite bind_bind, gets_bind. unfold id. by rewrite Hb. }
  destruct Ha as [[l Hl]|[Hc Hen _]]; [|unfold BelongsTo in Hb; rewrite Hen in Hb; by apply bool_decide_eq_true in Hb].
  assert (IsClosed (status_ r) = false) as Hcl by (pose proof (lf_phase _ _ Hl); by destruct (status_ r)).
  assert (alive r) as Ha by (left; by exists l).
  destruct (has_current_turn_ (turn r)) eqn:Hh.
  2: { apply (keeps_throw _ _ CancelBeforeTurn); [|done]. rewrite bind_bind, gets_bind. unfold id. rewrite Hb, Hcl. 
       rewrite bind_bind, throw_if_false, bind_bind, throw_if_false by done. by rewrite Hh. }
  rewrite bind_bind, gets_bind. unfold id. rewrite Hb, Hcl, Hh. rewrite bind_bind, throw_if_false, bind_bind, throw_if_false, bind_bind, throw_if_false, ret_bind by done.
  destruct ((turn_id =? _)%N && _ && IsExecutable (status_ r)) eqn:Hcan.
  - apply andb_true_iff in Hcan as [_ Hex]. eexists _, _. split; [reflexivity|]. split; [by left|]. left. exists l.
    by apply (end_turn_life r l Canceled Hl Hex); [by left|..].
  - exists (Ok tt), r. split; [done|]. split; [by left|done].
Qed.

Lemma fail_keeps r : alive r -> IsExecutable (status_ r) = true -> keeps CompleteFailedTurnFromEngine r.
Proof.
  intros [[l Hl]|[Hc _ _]] Hex; [|by rewrite Hc in Hex]. eexists _, _. split; [reflexivity|]. split; [by left|]. left. exists l.
  by apply (end_turn_life r l Failed Hl Hex); [by right|..].
Qed.

Lemma close_keeps r : keeps CompleteCloseFromEngine r.
Proof. eexists _, _. split; [reflexivity|]. split; [by left|]. right. by split. Qed.

(** ** Steps *)

Lemma founded_history c c' xs : well_founded_stop c -> history c c' xs -> well_founded_stop c'.
Proof.
  intros Hw Hh c1 ->. destruct c as [c|]; [|done]. destruct (Hw c eq_refl) as (ss & c0 & ts & Hm & Ho).
  exists ss, c0, (ts ++ xs). split; [done|]. unfold observe_all in *. by rewrite for_each_app, (bind_ok _ _ _ _ _ Ho).
Qed.

Lemma ended_spec (g : gen (T := T)) : ended g = match g_end g with Some _ => true | None => false end.
Proof. unfold ended. destruct (g_end g); [by apply bool_decide_eq_true_2|]. apply bool_decide_eq_false_2. by intros [? ?]. Qed.

Lemma reached_life r l r1 g xs : life r l -> executing r l -> reached p r r1 g -> sound p (limit_of r) g ->
  (Z.of_nat (length l) <= processed_sequence_length_ (progress r1) <= Z.of_nat (length (g_tokens g)) - (if ended g then 0 else 1))%Z ->
  can_observe p (g_stop g) -> history (stop_controller_ r) (g_stop g) xs -> life r1 (g_tokens g).
Proof.
  intros [L1 L2 L3 L4 _] [Hr X2 X3 X4 X5 X6] Hre (Hmax & _ & Hend) Hpr Hc Hh. rewrite ended_spec in Hpr.
  destruct (g_end g) as [[reason matched]|] eqn:Hg; cbn in Hpr.
  - destruct Hre as [[s Ho] B2 B3 B4 B5 B6 B7 B8 B9]. rewrite ended_spec, Hg in B4, B5. unfold turn_after in B3. rewrite Hg in B3.
    assert (finish_reason_ (turn r1) = reason /\ matched_stop_string_index_ (turn r1) = matched) as [Hfr Hma] by (rewrite B3; done).
    split; rewrite ?Hfr, ?Hma; [by rewrite B3|by rewrite B3| |rewrite B9; lia|].
    { destruct reason; [done|rewrite Hend; split; [done|lia]|by split|destruct Hend as [-> _]; split; [done|lia]..|done|done]. }
    rewrite B4. split; [|by rewrite B3|by rewrite Hfr; destruct reason|].
    + split; try done; [eexists s, _, _; exact Ho|by rewrite B8; apply Hr|by rewrite B8; apply Hr|by right|lia|apply Hr].
    + unfold IsPrefill. rewrite B9. intros Hp%Z.ltb_lt. lia.
  - assert (0 <= processed_sequence_length_ (progress r1) < Z.of_nat (length (g_tokens g)))%Z as Hpr1 by lia.
    destruct (reached_ready p r l r1 g Hr Hend Hre Hpr1) as (Hr1 & _ & _ & _ & Hpol).
    destruct Hre as [_ B2 B3 B4 B5 B6 B7 B8 B9]. rewrite ended_spec, Hg in B4, B5. unfold turn_after in B3. rewrite Hg in B3.
    split; [by rewrite B3|by rewrite B3|by rewrite B3|rewrite B9; lia|]. rewrite B4. split; [done|by rewrite Hpol| | |by rewrite B3|by rewrite B3].
    + rewrite B5. by apply (founded_history (stop_controller_ r) _ xs).
    + by rewrite B5.
Qed.

(** A chunk of the prompt: nothing is generated, the cache moves on. *)
Lemma chunk_step_run r l plan logits drawn : ready p r l -> chunk_plan r l plan ->
  exists res r', run_step plan (PlainRow logits drawn) r = (ROk res, r') /\ (exists s, owns p r' s (l, false, false) None) /\
    tokens_host_ r' = l /\ turn r' = turn r /\ status_ r' = Active /\ stop_controller_ r' = stop_controller_ r /\
    guidance_logits_processor_ r' = None /\ seeds r' = seeds r /\ drafts r' = no_drafts /\
    prompt_sequence_length_ (progress r') = prompt_sequence_length_ (progress r) /\
    processed_sequence_length_ (progress r') = (processed_sequence_length_ (progress r) + Z.of_N (unprocessed_token_count plan))%Z.
Proof.
  intros Hr [C1 C2 C3 C4]. pose proof Hr as [[s Ho] R2 R3 R4 R5 R6 R7 R8 R9 R10 R11]. pose proof (ready_room p r l Hr) as Hroom.
  assert (bind_plan plan r = (ROk tt, bound plan r)) as Hbind.
  { unfold bind_plan, BindScheduledTokenCount. rewrite gets_bind. unfold id. rewrite R8, C3. rewrite throw_if_false by done.
    rewrite throw_if_false by (apply Nat.ltb_ge; cbn; lia). rewrite (bind_ok _ _ _ _ _ (CurrentSequenceLength_run p _ _ _ _ _ _ Ho)).
    rewrite throw_if_false; [|apply orb_false_iff; split; [apply orb_false_iff; split|]; [apply Z.leb_gt; lia|by apply N.eqb_neq|apply Nat.ltb_ge; lia]].
    rewrite (bind_ok _ _ _ _ _ (CurrentSequenceLength_run p _ _ _ _ _ _ Ho)), gets_bind. unfold id. rewrite R6.
    rewrite throw_if_false; [done|]. apply orb_false_iff; split; [apply orb_false_iff; split|]; [apply Z.leb_gt; lia|apply Nat.eqb_neq; lia|apply Nat.ltb_ge; lia]. }
  destruct (BeginTransaction_run (E := E) (GE := GE) p (bound plan r) l 0 (ready_bound p r l plan Hr) ltac:(lia) ltac:(lia)) as (r1 & s1 & Hbegin & Ho1 & Hat).
  rewrite take_0, app_nil_r in Ho1, Hat. destruct Hat as [A1 A2 A3 A4 A5 A6 A7 A8 _]. cbn [staged_drafts Nat.eqb] in A8.
  assert (stage_step plan (PlainRow logits drawn) r = (ROk no_result, r1)) as Hstage.
  { unfold stage_step. rewrite (bind_ok _ _ _ _ _ Hbind), C3. change (N.to_nat 0) with 0. rewrite (bind_ok _ _ _ _ _ Hbegin). unfold GenerateNextTokensForTransaction.
    rewrite (bind_ok _ _ _ _ _ (apply_pending_seed_run p r1 s1 _ _ _ _ _ ltac:(rewrite A3; exact R4) Ho1 eq_refl)).
    rewrite (bind_ok _ _ _ _ _ (IsChunkComplete_run p _ _ _ _ _ _ Ho1 ltac:(rewrite A4; cbn; lia))).
    rewrite (proj2 (Nat.leb_gt _ _)); [done|]. rewrite A4. cbn. lia. }
  destruct (CommitStateForTransaction_run (E := E) (GE := GE) p r1 s1 _ _ Ho1 ltac:(rewrite A3; exact R5)) as (s2 & Hcommit & Hh2).
  exists no_result. eexists. split.
  { unfold run_step. rewrite (bind_ok _ _ _ _ _ Hstage), (bind_ok _ _ _ _ _ Hcommit). reflexivity. }
  cbn. rewrite A2, A3, A4, A6, A7, A8. cbn. rewrite R7, C3, Nat.add_0_r. split_and!; try done.
  - exists s2. destruct Ho1 as [O1 _ O3 O4 _]. by split.
  - by destruct (turn r).
  - change (u64_sub 0 (N.of_nat 0)) with 0%N. rewrite u64_sub_small by lia. rewrite N.sub_0_r. lia.
Qed.

Context (Hvocab : 0 < vocab_size p).

Lemma step_keeps plan input r : alive r -> allowed_call (CallStep plan input) r -> keeps (run_call (CallStep plan input)) r.
Proof.
  intros [[l Hl]|[Hc _ _]] [Hex Hplan]; [|by rewrite Hc in Hex]. pose proof (executing_phase r l Hl Hex) as Hx.
  pose proof (ex_ready _ _ Hx) as Hr. rewrite (rd_host _ _ _ Hr) in Hplan. cbn [run_call].
  destruct Hplan as [(k & Hw & Hin)|(Hck & logits & drawn & ->)].
  - destruct (run_step_run (E := E) (GE := GE) p r l k plan input Hr Hw (ex_policy _ _ Hx) Hvocab Hin (ex_observe _ _ Hx))
      as (res & r1 & g & _ & Hrun & _ & Hre & Hs & Hpr & Hobs & xs & Hh).
    apply (keeps_ok _ _ r1); [by rewrite (bind_ok _ _ _ _ _ Hrun)|]. left. exists (g_tokens g). by apply (reached_life r l r1 g xs).
  - destruct (chunk_step_run r l plan logits drawn Hr Hck) as (res & r1 & Hrun & Hs & F1 & F2 & F3 & F4 & F5 & F6 & F7 & F8 & F9).
    apply (keeps_ok _ _ r1); [by rewrite (bind_ok _ _ _ _ _ Hrun)|]. left. exists l.
    destruct Hl as [L1 L2 L3 L4 _], Hx as [[_ R2 R3 R4 R5 R6 R7 R8 R9 R10 R11] X2 X3 X4 X5 X6], Hck as [C1 C2 C3 C4].
    split; rewrite ?F2, ?F8; try done. rewrite F3. split; rewrite ?F2, ?F4; try done.
    split; try done; rewrite ?F6, ?F7, ?F3, ?F2; try done; [rewrite F9; lia|]. unfold limit_of. by rewrite F2.
Qed.

Lemma abort_keeps plan input r : alive r -> allowed_call (CallAbort plan input) r -> keeps (run_call (CallAbort plan input)) r.
Proof.
  intros [[l Hl]|[Hc _ _]] [Hex (k & Hw & Hin)]; [|by rewrite Hc in Hex]. pose proof (executing_phase r l Hl Hex) as Hx.
  pose proof (ex_ready _ _ Hx) as Hr. rewrite (rd_host _ _ _ Hr) in Hw, Hin. cbn [run_call].
  destruct (stage_step_run (E := E) (GE := GE) p r l k plan input Hr Hw (ex_policy _ _ Hx) Hvocab Hin (ex_observe _ _ Hx))
    as (res & r1 & s & g & host & dr & xs & Hrun & Ho & Hat & _ & _ & Hpre & Hh & Hpr).
  destruct (restore_step_run (E := E) (GE := GE) p plan r l r1 s _ host _ dr xs Hr Hat Ho Hpre (ex_founded _ _ Hx) Hh Hpr) as (r' & Hrs & Hre).
  apply (keeps_ok _ _ r'); [unfold abort_step; by rewrite (bind_ok _ _ _ _ _ Hrun)|]. left. exists l.
  pose proof (restored_ready p r r' l Hr Hre) as Hr'. destruct Hre as [_ S2 S3 S4 S5 S6 S7 S8 S9].
  destruct Hl as [L1 L2 L3 L4 _], Hx as [_ X2 X3 X4 X5 X6]. split; rewrite ?S4, ?S8; try done. rewrite S3.
  assert (executing r' l) by (split; rewrite ?S4, ?S5; done). by destruct (status_ r).
Qed.

Lemma call_keeps c r : alive r -> allowed_call c r -> keeps (run_call c) r.
Proof.
  intros Ha Hal. destruct c.
  - by apply begin_keeps.
  - by apply schedule_keeps.
  - by apply drafts_keeps.
  - by apply step_keeps.
  - by apply abort_keeps.
  - by apply cancel_keeps.
  - by apply fail_keeps.
  - apply close_keeps.
Qed.
End life.

(** ** Reachable requests *)

Section reachability.
Context {T E : Type} `{!Tokenizer T E} {G GE : Type} `{!ConstrainedLogitsProcessor G GE}.
Context {D : Type} `{!BatchedSampler D}.
Context (id : N) (model_search : Search) (vocab : nat) (eos_ids : list Z) (pad : Z) (chunk_size : option nat)
  (configured_seed : Z) (high low : N) (buffer : list Z) (max_session_tokens : nat) (engine : N).

Definition session_params : GeneratorParams := CreateRequestParams vocab eos_ids pad max_session_tokens.

(** A request as [Engine::CreateRequest] leaves it. *)
Definition new_request : Request (T := T) (G := G) (D := D) :=
  (AttachToEngine (E := E) (GE := GE) engine
    (make_Request id model_search vocab eos_ids pad chunk_size configured_seed high low buffer max_session_tokens)).2.

Inductive reachable : Request (T := T) (G := G) (D := D) -> Prop :=
  | reach_new : reachable new_request
  | reach_call r c o r' : reachable r -> allowed_call session_params c r -> run_call (E := E) (GE := GE) c r = (o, r') -> reachable r'.

Hypothesis Hvocab : 0 < vocab.
Hypothesis Hmax : 0 < max_session_tokens.
Hypothesis Hwidth : (N.of_nat max_session_tokens < two64)%N.

Lemma new_life : life session_params new_request [].
Proof.
  assert (single session_params) as Hsg by (split; [split; cbn; [lia|done|exact Hmax]|done]).
  split; [done|done|cbn; split; [done|lia]|done|]. cbn. split; [|done]. split; try done; [|by left].
  exists (make_GreedySearch_Cpu session_params buffer), false, false. split; try done.
  exact (make_refines session_params (sg_ok _ Hsg) buffer).
Qed.

Lemma reachable_alive r : reachable r -> alive session_params r.
Proof.
  induction 1 as [|r c o r' _ IH Hal Hrun]; [left; exists []; exact new_life|].
  destruct (call_keeps session_params Hvocab c r IH Hal) as (o1 & r1 & Hrun1 & _ & Ha). rewrite Hrun1 in Hrun. by injection Hrun as _ <-.
Qed.

Lemma reachable_executing r : reachable r -> IsExecutable (status_ r) = true -> executing session_params r (tokens_host_ r).
Proof.
  intros Hre Hex. destruct (reachable_alive r Hre) as [[l Hl]|[Hc _ _]]; [|by rewrite Hc in Hex].
  pose proof (executing_phase session_params r l Hl Hex) as Hx. by rewrite (rd_host _ _ _ (ex_ready _ _ _ Hx)).
Qed.
End reachability.



(** ** A sample session

    A vocabulary of six tokens with end of stream 5, a session of twelve tokens, a prompt of
    three, and a model that counts the tokens modulo five. *)

#[local] Existing Instance byte_tokenizer.
#[local] Instance no_grammar : ConstrainedLogitsProcessor unit unit :=
  {| CommitTokens := fun _ g => (Ok tt, g); ProcessLogits := fun l _ => l; AllowsOnlyTokens := fun _ _ => false;
     IsDelimitedActive := fun _ => false; DelimitedOpeningToken := fun _ => None |}.
#[local] Instance no_device : BatchedSampler unit :=
  {| OwnsState := fun _ => true; CreateState := fun _ => tt; ReseedState := fun _ d => d |}.

Definition counting_model (ctx : list Z) : list float :=
  (fun i => if i =? length ctx mod 5 then one32 else zero32) <$> seq 0 6.

Definition session_p : GeneratorParams := session_params 6 [5%Z] 0 12.
Definition session_new : Request (T := nat) (G := unit) (D := unit) :=
  new_request (E := unit) (GE := unit) 7 greedy_model 6 [5%Z] 0 None 3 0 0 [] 12 1.
Definition session_admission : RequestTurnAdmission (T := nat) (G := unit) :=
  mkAdmission Unassigned 0 0 0 false
    (ResolveTurnPolicy greedy_model (mkTurnOptions (Some 8%N) None None None None None None None)) None None.
Definition session_after (c : request_call (T := nat) (E := unit) (G := unit) (GE := unit)) (r : Request (T := nat) (G := unit) (D := unit)) :
    Request (T := nat) (G := unit) (D := unit) := (run_call (E := unit) (GE := unit) c r).2.
Abbreviation sample_reachable := (reachable (T := nat) (E := unit) (G := unit) (GE := unit) (D := unit) 7 greedy_model 6 [5%Z] 0 None 3 0 0 [] 12 1).

Definition session_begun := session_after (CallBegin [1; 2; 3]%Z (Some 8%N) session_admission (Ok tt)) session_new.
Definition session_active := session_after CallSchedule session_begun.
Definition session_decoding := session_after (CallStep (plan_of 0 session_active) (PlainRow (counting_model [1; 2; 3]%Z) (0%Z, 0%N))) session_active.
Definition session_drafted := session_after (CallDrafts 7 [4; 0; 2]%Z) session_decoding.

Lemma session_call r c : sample_reachable r -> allowed_call session_p c r -> sample_reachable (session_after c r).
Proof.
  intros Hr Hal. refine (reach_call _ _ _ _ _ _ _ _ _ _ _ _ r c (run_call c r).1 _ Hr Hal _). unfold session_after. by destruct (run_call c r).
Qed.

Lemma counting_length ctx : length (counting_model ctx) = vocab_size session_p.
Proof. unfold counting_model. by rewrite length_fmap, length_seq. Qed.

Lemma no_stop_observes : can_observe (E := unit) session_p (None : option (StopStringController (T := nat))).
Proof. by intros c. Qed.

Lemma session_drafted_reachable : sample_reachable session_drafted.
Proof.
  apply session_call; [|done]. apply session_call; [apply session_call; [apply session_call; [apply reach_new|]|done]|].
  - split; [done|]. split; [split; vm_compute; congruence|]. split; [done|]. split; [by intros c|]. split; [exact no_stop_observes|by left].
  - split; [by vm_compute|]. left. exists 0. split; [split; vm_compute; congruence|]. split; [done|]. apply counting_length.
Qed.

Lemma session_drafted_ready : ready session_p session_drafted [1; 2; 3; 3]%Z.
Proof.
  assert (tokens_host_ session_drafted = [1; 2; 3; 3]%Z) as <- by (by vm_compute).
  refine (ex_ready _ _ _ (reachable_executing 7 greedy_model 6 [5%Z] 0 None 3 0 0 [] 12 1 _ _ _ _ session_drafted_reachable _)); [lia|lia|by vm_compute|by vm_compute].
Qed.

Lemma session_drafted_stop : stop_controller_ session_drafted = None.
Proof. by vm_compute. Qed.

Lemma speculation_lossless_witness :
  exists result r1, run_step (plan_of 3 session_drafted) (GreedyRows (speculative_rows counting_model 3 session_drafted)) session_drafted =
      (@Ok (RequestError unit unit) _ result, r1) /\
    visible_tokens result = [4; 0; 1]%Z /\ same_request r1 (plain_steps (E := unit) (GE := unit) counting_model 3 session_drafted).2.
Proof.
  exact (speculation_lossless (E := unit) (GE := unit) session_p session_drafted _ [1; 2; 3; 3]%Z 3 counting_model [4; 0; 1]%Z
    session_drafted_ready ltac:(by vm_compute) ltac:(by vm_compute) ltac:(lia) ltac:(vm_compute; lia) ltac:(vm_compute; lia) ltac:(vm_compute; lia)
    counting_length ltac:(vm_compute; reflexivity)).
Defined.




Lemma session_new_idle : idle session_p session_new [].
Proof. exact (proj1 (lf_phase _ _ _ (new_life (E := unit) (GE := unit) 7 greedy_model 6 [5%Z] 0 None 3 0 0 [] 12 1 ltac:(lia) ltac:(lia) eq_refl))). Qed.

