(* ===== verification/StateManifest.v ===== *)
(** * The model state manifest

    Models [models/model_state_manifest.{h,cpp}]: the decoder's declared state groups, the
    validation of that declaration ([ValidateConfig]) and the validation of a session's
    metadata against it ([ValidateSession]), on which the fixed-state pool relies.  Names are
    strings with one [%d] placeholder for the layer.  The session's metadata is a record of
    lookups, since the session belongs to the ONNX runtime; a lookup of an unknown name
    throws.  Machine integers that may overflow are checked, and an overflow is [Undefined]. *)

From S2P Require Import Prelude.
From stdpp Require Import strings pretty gmap.
From Stdlib Require Import Ascii.

Open Scope Z_scope.

(** ** Outcomes as a monad *)

#[export] Instance outcome_ret {E} : MRet (outcome E) := fun A a => Ok a.
#[export] Instance outcome_bind {E} : MBind (outcome E) := fun A B k m =>
  match m with Ok a => k a | Throw e => Throw e | Terminate => Terminate | Undefined => Undefined end.

Definition reject_if {E} (b : bool) (e : E) : outcome E unit := if b then Throw e else Ok tt.
Definition or_throw {E A} (e : E) (o : option A) : outcome E A := match o with Some a => Ok a | None => Throw e end.

(** Running a loop body for every element, in order. *)
Fixpoint fold_result {E A B} (f : A -> B -> outcome E B) (l : list A) (b : B) : outcome E B :=
  match l with
  | [] => Ok b
  | x :: l' => b' ← f x b; fold_result f l' b'
  end.
Fixpoint each {E A} (f : A -> outcome E unit) (l : list A) : outcome E unit :=
  match l with
  | [] => Ok tt
  | x :: l' => _ ← f x; each f l'
  end.

(** ** State groups *)

Inductive StateGroupKind : Type := InvalidGroup | PagedKeyValue | FixedConv | FixedRecurrent | FixedPle | FixedIndexer.
#[global] Instance StateGroupKind_eq_dec : EqDecision StateGroupKind.
Proof. solve_decision. Defined.

Inductive StateUpdateKind : Type := InvalidUpdate | CausalConv | GatedDeltaNet | Ple | Indexer.
#[global] Instance StateUpdateKind_eq_dec : EqDecision StateUpdateKind.
Proof. solve_decision. Defined.

Record StateUpdate : Type := mkUpdate
  { update_capacity : Z;
    update_enabled : bool;
    update_key_head_count : Z;
    update_compress_ratio : Z }.

Record StateGroup : Type := mkGroup
  { group_kind : StateGroupKind;
    group_layer_ids : list Z;
    group_state_update : option StateUpdate }.

Definition MaxStateUpdateCapacity : Z := 8.

(** The fields of [Config::Model::Decoder] the manifest and the fixed-state pool read. *)
Record Decoder : Type := mkDecoder
  { num_hidden_layers : Z;
    decoder_state_update_capacity : Z;
    state_groups : option (list StateGroup);
    past_key_names : string; present_key_names : string;
    past_value_names : string; present_value_names : string;
    past_conv_names : string; present_conv_names : string;
    past_recurrent_names : string; present_recurrent_names : string;
    past_ple_token_names : string; present_ple_token_names : string;
    past_ple_conv_names : string; present_ple_conv_names : string;
    past_indexer_names : string; present_indexer_names : string;
    past_indexer_kv_buffer_names : string; present_indexer_kv_buffer_names : string;
    past_indexer_state_lengths_names : string; present_indexer_state_lengths_names : string;
    in_state_update_capture_count : string; in_state_update_active : string;
    state_update_conv_value_names : string; state_update_ple_token_names : string;
    state_update_ple_conv_value_names : string; state_update_indexer_names : string;
    state_update_recurrent_capsule_names : string;
    ple_token_pad_id : Z;
    past_present_share_buffer : bool }.

(** The session's metadata. *)
Record SessionInfo : Type := mkSession
  { HasInput : string -> bool;
    HasOutput : string -> bool;
    GetInputDataType : string -> option N;
    GetInputShape : string -> option (list Z);
    GetOutputDataType : string -> option N;
    GetOutputShape : string -> option (list Z) }.

(** Element types are the codes of [ONNXTensorElementDataType]. *)
Definition type_float : N := 1.
Definition type_int32 : N := 6.
Definition type_int64 : N := 7.

Inductive Semantic : Type := SemKey | SemValue | SemState | SemTokens | SemConv | SemKvBuffer | SemStateLengths | SemUpdate.
Inductive Direction : Type := DirInput | DirOutput.

(** Each error names the group it found. *)
Inductive ManifestError : Type :=
  | NoGroups | MissingKind (g : nat) | NoLayers (g : nat) | UpdateUnsupported (g : nat) | UpdateCapacityRange (g : nat)
  | MissingCaptureCount (g : nat) | TemplateCaptureCount (g : nat) | TemplateActive (g : nat)
  | UnusedKeyHeads (g : nat) | MissingKeyHeads (g : nat) | MissingRatio (g : nat) | UnusedRatio (g : nat)
  | CapacitiesDiffer | EnabledDiffer | LayerOutOfRange (g : nat) (l : Z) | DuplicateLayer (g : nat) (l : Z)
  | OverlappingPaged (g : nat) (l : Z) | MissingTemplate (g : nat) (s : Semantic) (d : Direction)
  | MalformedTemplate (g : nat) (s : Semantic) (d : Direction) | BindingCollision (g : nat) (name : string)
  | UpdatesPartial | UpdatesRequired | CapacityMismatch | NoPlaceholder | MetadataUnknown (name : string)
  | BindingNotFound (g : nat) (d : Direction) (name : string) | DtypeMismatch (g : nat) | ShapeMismatch (g : nat)
  | PagedRank (g : nat) | PagedMismatch (g : nat) | RankMismatch (g : nat) (name : string) | CaptureCountDtype (g : nat)
  | ActiveDtype (g : nat) | ActiveShape (g : nat) | BatchMismatch (g : nat) | ValueDtype (g : nat) | ValueShape (g : nat)
  | TokensShape (g : nat) | CapsuleDtype (g : nat) | CapsuleWidth (g : nat) | IndexerGeometry (g : nat) | PagedGroupCount.

Abbreviation checked := (outcome ManifestError).

(** ** Bindings *)

Record StateBinding : Type := mkStateBinding
  { semantic : Semantic;
    binding_in : string;
    binding_out : string }.

Definition StateBindingsFor (d : Decoder) (kind : StateGroupKind) : list StateBinding :=
  match kind with
  | PagedKeyValue =>
    [mkStateBinding SemKey (past_key_names d) (present_key_names d);
     mkStateBinding SemValue (past_value_names d) (present_value_names d)]
  | FixedConv => [mkStateBinding SemState (past_conv_names d) (present_conv_names d)]
  | FixedRecurrent => [mkStateBinding SemState (past_recurrent_names d) (present_recurrent_names d)]
  | FixedPle =>
    [mkStateBinding SemTokens (past_ple_token_names d) (present_ple_token_names d);
     mkStateBinding SemConv (past_ple_conv_names d) (present_ple_conv_names d)]
  | FixedIndexer =>
    [mkStateBinding SemKey (past_indexer_names d) (present_indexer_names d);
     mkStateBinding SemKvBuffer (past_indexer_kv_buffer_names d) (present_indexer_kv_buffer_names d);
     mkStateBinding SemStateLengths (past_indexer_state_lengths_names d) (present_indexer_state_lengths_names d)]
  | InvalidGroup => []
  end.

Definition IsFixedKind (kind : StateGroupKind) : bool :=
  match kind with FixedConv | FixedRecurrent | FixedPle | FixedIndexer => true | _ => false end.
Definition SupportsStateUpdate (kind : StateGroupKind) : bool :=
  match kind with FixedConv | FixedRecurrent | FixedPle | FixedIndexer => true | _ => false end.

Definition StateUpdateKindFor (kind : StateGroupKind) : StateUpdateKind :=
  match kind with
  | FixedConv => CausalConv
  | FixedRecurrent => GatedDeltaNet
  | FixedPle => Ple
  | FixedIndexer => Indexer
  | _ => InvalidUpdate
  end.

(** [std::string::find] of a character from a position. *)
Definition find_percent (from : nat) (value : string) : option nat := String.index from "%" value.

Definition malformed (value : string) : bool :=
  match find_percent 0 value with
  | None => true
  | Some i =>
    (String.length value <=? i + 1)%nat || negb (bool_decide (String.get (i + 1) value = Some "d"%char)) ||
    bool_decide (is_Some (find_percent (i + 2) value))
  end.

Definition ValidateBindingTemplate (g : nat) (s : Semantic) (d : Direction) (value : string) : checked unit :=
  _ ← reject_if (bool_decide (value = "")) (MissingTemplate g s d);
  reject_if (malformed value) (MalformedTemplate g s d).

(** [std::to_string] of a layer id. *)
Definition layer_name (z : Z) : string := pretty z.

(** [result.replace(result.find("%d"), 2, ...)], which throws when there is no placeholder. *)
Definition expand_placeholder (binding : string) (layer_id : Z) : option string :=
  i ← String.index 0 "%d" binding;
  Some (String.substring 0 i binding +:+ layer_name layer_id +:+
        String.substring (i + 2) (String.length binding - (i + 2)) binding).

Definition ExpandBinding (value : string) (layer_id : Z) : checked string := or_throw NoPlaceholder (expand_placeholder value layer_id).

(** ** [ValidateConfig] *)

(** What the loop over the groups accumulates. *)
Record ConfigScan : Type := mkScan
  { paged_layers : gset Z;
    expanded_bindings : gset string;
    fixed_state_update_capacity : option Z;
    fixed_state_update_enabled : option bool;
    fixed_group_count : nat;
    fixed_state_update_group_count : nat }.

Definition has_percent (value : string) : bool := bool_decide (is_Some (find_percent 0 value)).

(** The checks of one [state_update] section that do not look at other groups. *)
Definition check_update (d : Decoder) (g : nat) (kind : StateGroupKind) (u : StateUpdate) : checked unit :=
  _ ← reject_if (negb (SupportsStateUpdate kind)) (UpdateUnsupported g);
  _ ← reject_if ((update_capacity u <? 1) || (MaxStateUpdateCapacity <? update_capacity u)) (UpdateCapacityRange g);
  _ ← reject_if (bool_decide (in_state_update_capture_count d = "")) (MissingCaptureCount g);
  _ ← reject_if (has_percent (in_state_update_capture_count d)) (TemplateCaptureCount g);
  _ ← reject_if (has_percent (in_state_update_active d)) (TemplateActive g);
  _ ← reject_if (bool_decide (kind = FixedConv) && negb (update_key_head_count u =? 0)) (UnusedKeyHeads g);
  _ ← reject_if (bool_decide (kind = FixedRecurrent) && (update_key_head_count u <=? 0)) (MissingKeyHeads g);
  _ ← reject_if (negb (bool_decide (kind = FixedRecurrent)) && negb (update_key_head_count u =? 0)) (UnusedKeyHeads g);
  _ ← reject_if (bool_decide (kind = FixedIndexer) && (update_compress_ratio u <=? 0)) (MissingRatio g);
  reject_if (negb (bool_decide (kind = FixedIndexer)) && negb (update_compress_ratio u =? 0)) (UnusedRatio g).

(** All groups agree on the value of a setting. *)
Definition agree {A} `{EqDecision A} (seen : option A) (a : A) (e : ManifestError) : checked (option A) :=
  match seen with
  | None => Ok (Some a)
  | Some b => if bool_decide (b = a) then Ok seen else Throw e
  end.

Definition scan_update (d : Decoder) (g : nat) (group : StateGroup) (s : ConfigScan) : checked ConfigScan :=
  match group_state_update group with
  | None => Ok s
  | Some u =>
    _ ← check_update d g (group_kind group) u;
    capacity ← agree (fixed_state_update_capacity s) (update_capacity u) CapacitiesDiffer;
    enabled ← agree (fixed_state_update_enabled s) (update_enabled u) EnabledDiffer;
    Ok (mkScan (paged_layers s) (expanded_bindings s) capacity enabled (fixed_group_count s)
          (S (fixed_state_update_group_count s)))
  end.

(** One layer id: in range, new to the group, and new to the paged groups. *)
Definition scan_layer (d : Decoder) (g : nat) (kind : StateGroupKind) (l : Z) (s : gset Z * gset Z) : checked (gset Z * gset Z) :=
  let '(layer_ids, paged) := s in
  _ ← reject_if ((l <? 0) || (num_hidden_layers d <=? l)) (LayerOutOfRange g l);
  _ ← reject_if (bool_decide (l ∈ layer_ids)) (DuplicateLayer g l);
  if bool_decide (kind = PagedKeyValue) then
    _ ← reject_if (bool_decide (l ∈ paged)) (OverlappingPaged g l); Ok ({[l]} ∪ layer_ids, {[l]} ∪ paged)
  else Ok ({[l]} ∪ layer_ids, paged).

(** [expanded_bindings.insert(name)] *)
Definition claim (g : nat) (name : string) (s : gset string) : checked (gset string) :=
  if bool_decide (name ∈ s) then Throw (BindingCollision g name) else Ok ({[name]} ∪ s).

Definition scan_binding (g : nat) (layers : list Z) (b : StateBinding) (s : gset string) : checked (gset string) :=
  _ ← ValidateBindingTemplate g (semantic b) DirInput (binding_in b);
  _ ← ValidateBindingTemplate g (semantic b) DirOutput (binding_out b);
  fold_result (fun l s =>
    input ← ExpandBinding (binding_in b) l;
    output ← ExpandBinding (binding_out b) l;
    s' ← claim g input s; claim g output s') layers s.

(** The output templates of a group's compact updates. *)
Definition update_templates (d : Decoder) (kind : StateGroupKind) : list string :=
  match kind with
  | FixedConv => [state_update_conv_value_names d]
  | FixedRecurrent => [state_update_recurrent_capsule_names d]
  | FixedPle => state_update_ple_conv_value_names d ::
      (if bool_decide (state_update_ple_token_names d = "") then [] else [state_update_ple_token_names d])
  | _ => [state_update_indexer_names d]
  end.

Definition scan_update_template (g : nat) (layers : list Z) (t : string) (s : gset string) : checked (gset string) :=
  _ ← ValidateBindingTemplate g SemUpdate DirOutput t;
  fold_result (fun l s => name ← ExpandBinding t l; claim g name s) layers s.

Definition scan_group (d : Decoder) (gi : nat * StateGroup) (s : ConfigScan) : checked ConfigScan :=
  let '(g, group) := gi in
  _ ← reject_if (bool_decide (group_kind group = InvalidGroup)) (MissingKind g);
  _ ← reject_if (bool_decide (group_layer_ids group = [])) (NoLayers g);
  let fixed := if IsFixedKind (group_kind group) then S (fixed_group_count s) else fixed_group_count s in
  s1 ← scan_update d g group (mkScan (paged_layers s) (expanded_bindings s) (fixed_state_update_capacity s)
         (fixed_state_update_enabled s) fixed (fixed_state_update_group_count s));
  '(_, paged) ← fold_result (scan_layer d g (group_kind group)) (group_layer_ids group) (∅, paged_layers s1);
  names ← fold_result (scan_binding g (group_layer_ids group)) (StateBindingsFor d (group_kind group)) (expanded_bindings s1);
  names' ← (match group_state_update group with
            | Some _ => fold_result (scan_update_template g (group_layer_ids group)) (update_templates d (group_kind group)) names
            | None => Ok names
            end);
  Ok (mkScan paged names' (fixed_state_update_capacity s1) (fixed_state_update_enabled s1) (fixed_group_count s1)
        (fixed_state_update_group_count s1)).

Definition check_totals (d : Decoder) (s : ConfigScan) : checked unit :=
  let partial := negb (fixed_state_update_group_count s =? fixed_group_count s)%nat in
  _ ← reject_if (negb (fixed_state_update_group_count s =? 0)%nat && partial) UpdatesPartial;
  if 0 <? decoder_state_update_capacity d then
    _ ← reject_if partial UpdatesRequired;
    reject_if (negb (bool_decide (fixed_state_update_capacity s = Some (decoder_state_update_capacity d)))) CapacityMismatch
  else Ok tt.

Definition ValidateConfig (d : Decoder) : checked unit :=
  match state_groups d with
  | None => Ok tt
  | Some groups =>
    _ ← reject_if (bool_decide (groups = [])) NoGroups;
    s ← fold_result (scan_group d) (imap pair groups) (mkScan ∅ ∅ None None 0 0);
    check_totals d s
  end.

(** ** The manifest *)

Record ModelStateManifest : Type := mkManifest
  { manifest_groups : list StateGroup;
    manifest_decoder : Decoder }.

Definition make_ModelStateManifest (d : Decoder) : checked ModelStateManifest :=
  _ ← ValidateConfig d; Ok (mkManifest (default [] (state_groups d)) d).

Definition StateGroups (m : ModelStateManifest) : list StateGroup := manifest_groups m.
Definition HasStateGroupKind (m : ModelStateManifest) (kind : StateGroupKind) : bool :=
  existsb (fun g => bool_decide (group_kind g = kind)) (manifest_groups m).
Definition HasFixedStateGroups (m : ModelStateManifest) : bool :=
  HasStateGroupKind m FixedConv || HasStateGroupKind m FixedRecurrent || HasStateGroupKind m FixedPle ||
  HasStateGroupKind m FixedIndexer.

Definition ValidateDynamicEngineCompatibility (d : Decoder) : checked unit :=
  _ ← ValidateConfig d;
  match state_groups d with
  | None => Ok tt
  | Some groups =>
    reject_if (negb (length (filter (fun g => group_kind g = PagedKeyValue) groups) =? 1)%nat) PagedGroupCount
  end.

(** ** [ValidateSession] *)

Record TensorMetadata : Type := mkMetadata
  { meta_type : N;
    meta_shape : list Z;
    meta_name : string }.

Fixpoint dims_match (left right : list Z) : bool :=
  match left, right with
  | l :: left', r :: right' => negb ((0 <=? l) && (0 <=? r) && negb (l =? r)) && dims_match left' right'
  | _, _ => true
  end.
Definition StateShapesCompatible (left right : list Z) : bool :=
  (length left =? length right)%nat && dims_match left right.

Definition DimensionsCompatible (left right : Z) : bool := (left <? 0) || (right <? 0) || (left =? right).

Definition ValidateCompatiblePair (g : nat) (input output : TensorMetadata) : checked unit :=
  _ ← reject_if (negb (meta_type input =? meta_type output)%N) (DtypeMismatch g);
  reject_if (negb (StateShapesCompatible (meta_shape input) (meta_shape output))) (ShapeMismatch g).

Definition ValidatePagedGeometry (g : nat) (tensor : TensorMetadata) (reference : option TensorMetadata) :
    checked (option TensorMetadata) :=
  _ ← reject_if (negb (length (meta_shape tensor) =? 4)%nat) (PagedRank g);
  match reference with
  | None => Ok (Some tensor)
  | Some r =>
    _ ← reject_if (negb (meta_type tensor =? meta_type r)%N || negb (StateShapesCompatible (meta_shape tensor) (meta_shape r)))
          (PagedMismatch g);
    Ok reference
  end.

Definition ValidateRank (g : nat) (tensor : TensorMetadata) (expected_rank : nat) : checked unit :=
  reject_if (negb (length (meta_shape tensor) =? expected_rank)%nat) (RankMismatch g (meta_name tensor)).

Definition input_metadata (s : SessionInfo) (name : string) : checked TensorMetadata :=
  type ← or_throw (MetadataUnknown name) (GetInputDataType s name);
  shape ← or_throw (MetadataUnknown name) (GetInputShape s name);
  Ok (mkMetadata type shape name).
Definition output_metadata (s : SessionInfo) (name : string) : checked TensorMetadata :=
  type ← or_throw (MetadataUnknown name) (GetOutputDataType s name);
  shape ← or_throw (MetadataUnknown name) (GetOutputShape s name);
  Ok (mkMetadata type shape name).

(** [tensor.shape[axis]], which the code does not check. *)
Definition dim (t : TensorMetadata) (axis : nat) : checked Z :=
  match meta_shape t !! axis with Some z => Ok z | None => Undefined end.

(** Signed arithmetic at its width. *)
Definition int_max : Z := 2147483647.
Definition int64_max : Z := 9223372036854775807.
Definition fits (bound z : Z) : checked Z := if (- bound - 1 <=? z) && (z <=? bound) then Ok z else Undefined.

Definition check_capture_count (g : nat) (d : Decoder) (s : SessionInfo) : checked TensorMetadata :=
  let name := in_state_update_capture_count d in
  _ ← reject_if (negb (HasInput s name)) (BindingNotFound g DirInput name);
  capture_count ← input_metadata s name;
  _ ← reject_if (negb (meta_type capture_count =? type_int32)%N) (CaptureCountDtype g);
  _ ← ValidateRank g capture_count 1;
  Ok capture_count.

Definition check_active (g : nat) (d : Decoder) (s : SessionInfo) : checked unit :=
  let name := in_state_update_active d in
  if bool_decide (name = "") then Ok tt
  else
    _ ← reject_if (negb (HasInput s name)) (BindingNotFound g DirInput name);
    active ← input_metadata s name;
    _ ← reject_if (negb (meta_type active =? type_int32)%N) (ActiveDtype g);
    _ ← ValidateRank g active 1;
    first ← dim active 0;
    reject_if (negb (first =? 1)) (ActiveShape g).

Definition get_output (g : nat) (s : SessionInfo) (template : string) (l : Z) : checked TensorMetadata :=
  name ← ExpandBinding template l;
  _ ← reject_if (negb (HasOutput s name)) (BindingNotFound g DirOutput name);
  output_metadata s name.

Definition state_rank (kind : StateUpdateKind) : nat :=
  match kind with GatedDeltaNet => 4 | Ple => 2 | _ => 3 end.

(** The metadata of the output a binding expands to. *)
Definition bound_output (s : SessionInfo) (template : string) (l : Z) : checked TensorMetadata :=
  name ← ExpandBinding template l; output_metadata s name.

Definition check_conv_value (g : nat) (s : SessionInfo) (u : StateUpdate) (conv : TensorMetadata) (template : string) (l : Z) :
    checked unit :=
  _ ← ValidateRank g conv 3;
  value ← get_output g s template l;
  _ ← ValidateRank g value 3;
  _ ← reject_if (negb (meta_type value =? meta_type conv)%N) (ValueDtype g);
  c0 ← dim conv 0; c1 ← dim conv 1; v0 ← dim value 0; v1 ← dim value 1; v2 ← dim value 2;
  reject_if (negb (DimensionsCompatible c0 v0) || negb (v1 =? update_capacity u) || negb (DimensionsCompatible c1 v2)) (ValueShape g).

Definition check_tokens (g : nat) (d : Decoder) (s : SessionInfo) (u : StateUpdate) (state : TensorMetadata) (l : Z) : checked unit :=
  if bool_decide (state_update_ple_token_names d = "") then Ok tt
  else
    tokens ← get_output g s (state_update_ple_token_names d) l;
    _ ← ValidateRank g tokens 3;
    s0 ← dim state 0; s1 ← dim state 1; t0 ← dim tokens 0; t1 ← dim tokens 1; t2 ← dim tokens 2;
    reject_if (negb (meta_type state =? type_int64)%N || negb (meta_type tokens =? type_int64)%N ||
               negb (DimensionsCompatible s0 t0) || negb (t1 =? update_capacity u) || negb (DimensionsCompatible s1 t2))
      (TokensShape g).

Definition check_capsule (g : nat) (d : Decoder) (s : SessionInfo) (u : StateUpdate) (state : TensorMetadata) (l : Z) : checked unit :=
  capsule ← get_output g s (state_update_recurrent_capsule_names d) l;
  _ ← ValidateRank g capsule 2;
  _ ← reject_if (negb (meta_type state =? type_float)%N || negb (meta_type capsule =? type_float)%N) (CapsuleDtype g);
  s0 ← dim state 0; c0 ← dim capsule 0;
  _ ← reject_if (negb (DimensionsCompatible s0 c0)) (BatchMismatch g);
  s1 ← dim state 1; s2 ← dim state 2; s3 ← dim state 3;
  keys ← fits int64_max (update_key_head_count u * s3);
  sum ← fits int64_max (s1 + keys);
  values ← fits int64_max (s1 * s2);
  per_token ← fits int64_max (sum + values);
  expected ← fits int64_max (update_capacity u * per_token);
  c1 ← dim capsule 1;
  reject_if (negb (c1 =? expected)) (CapsuleWidth g).

Definition check_indexer (g : nat) (d : Decoder) (s : SessionInfo) (u : StateUpdate) (state : TensorMetadata) (l : Z) : checked unit :=
  payload ← get_output g s (state_update_indexer_names d) l;
  buffer ← bound_output s (present_indexer_kv_buffer_names d) l;
  lengths ← bound_output s (present_indexer_state_lengths_names d) l;
  _ ← ValidateRank g payload 3;
  _ ← ValidateRank g buffer 3;
  _ ← ValidateRank g lengths 2;
  p0 ← dim payload 0; p1 ← dim payload 1; p2 ← dim payload 2; b1 ← dim buffer 1; b2 ← dim buffer 2; l1 ← dim lengths 1;
  s0 ← dim state 0; s2 ← dim state 2;
  _ ← reject_if (negb (meta_type payload =? meta_type state)%N || negb (meta_type buffer =? meta_type state)%N ||
                 negb (meta_type lengths =? type_int32)%N || negb (p1 =? update_capacity u) || negb (l1 =? 2)) (IndexerGeometry g);
  twice ← fits int_max (2 * update_compress_ratio u);
  width ← fits int_max (twice - 1);
  reject_if (negb (b1 =? width) || negb (DimensionsCompatible s0 p0) ||
             negb (DimensionsCompatible s2 p2) || negb (DimensionsCompatible b2 p2)) (IndexerGeometry g).

(** One layer of a group with compact updates. *)
Definition check_update_layer (g : nat) (d : Decoder) (s : SessionInfo) (kind : StateGroupKind) (u : StateUpdate)
    (capture_count : TensorMetadata) (l : Z) : checked unit :=
  let bindings := StateBindingsFor d kind in
  match bindings with
  | [] => Undefined
  | front :: _ =>
    state ← bound_output s (binding_out front) l;
    _ ← ValidateRank g state (state_rank (StateUpdateKindFor kind));
    s0 ← dim state 0; c0 ← dim capture_count 0;
    _ ← reject_if (negb (DimensionsCompatible s0 c0)) (BatchMismatch g);
    match StateUpdateKindFor kind with
    | CausalConv => check_conv_value g s u state (state_update_conv_value_names d) l
    | Ple =>
      match bindings !! 1%nat with
      | None => Undefined
      | Some conv_binding =>
        conv ← bound_output s (binding_out conv_binding) l;
        _ ← check_conv_value g s u conv (state_update_ple_conv_value_names d) l;
        check_tokens g d s u state l
      end
    | GatedDeltaNet => check_capsule g d s u state l
    | _ => check_indexer g d s u state l
    end
  end.

Definition ValidateStateUpdateSession (g : nat) (group : StateGroup) (d : Decoder) (s : SessionInfo) : checked unit :=
  match group_state_update group with
  | None => Ok tt
  | Some u =>
    capture_count ← check_capture_count g d s;
    _ ← check_active g d s;
    each (check_update_layer g d s (group_kind group) u capture_count) (group_layer_ids group)
  end.

(** One layer of one binding; the reference is the first paged tensor of the group. *)
Definition check_binding_layer (g : nat) (s : SessionInfo) (kind : StateGroupKind) (b : StateBinding) (l : Z)
    (reference : option TensorMetadata) : checked (option TensorMetadata) :=
  input_name ← ExpandBinding (binding_in b) l;
  output_name ← ExpandBinding (binding_out b) l;
  _ ← reject_if (negb (HasInput s input_name)) (BindingNotFound g DirInput input_name);
  _ ← reject_if (negb (HasOutput s output_name)) (BindingNotFound g DirOutput output_name);
  input ← input_metadata s input_name;
  output ← output_metadata s output_name;
  _ ← ValidateCompatiblePair g input output;
  if bool_decide (kind = PagedKeyValue) then
    reference' ← ValidatePagedGeometry g input reference; ValidatePagedGeometry g output reference'
  else Ok reference.

Definition check_group_session (d : Decoder) (s : SessionInfo) (gi : nat * StateGroup) : checked unit :=
  let '(g, group) := gi in
  _ ← fold_result (fun b reference => fold_result (check_binding_layer g s (group_kind group) b) (group_layer_ids group) reference)
        (StateBindingsFor d (group_kind group)) None;
  ValidateStateUpdateSession g group d s.

Definition ValidateSession (m : ModelStateManifest) (s : SessionInfo) : checked unit :=
  each (check_group_session (manifest_decoder m) s) (imap pair (manifest_groups m)).
