(* ===== verification/StateManifestProofs.v ===== *)
(** * What the model state manifest accepts

    [ValidateConfig] accepts exactly the declarations described by [config_ok], and a session
    that [ValidateSession] accepts has the ranks the fixed-state pool reads. *)

From S2P Require Import Prelude StateManifest.
From stdpp Require Import strings pretty gmap.
From Stdlib Require Import Ascii.

Open Scope Z_scope.

(** ** Outcomes *)

(** A computation that returns or throws. *)
Definition is_total {E A} (r : outcome E A) : Prop := match r with Ok _ | Throw _ => True | _ => False end.

Section outcomes.
Context {E : Type}.

Lemma total_bind {A B} (m : outcome E A) (k : A -> outcome E B) : is_total m -> (forall a, m = Ok a -> is_total (k a)) -> is_total (m ≫= k).
Proof. destruct m; cbn; auto. Qed.

Lemma bind_iff {A B} (m : outcome E A) (k : A -> outcome E B) b : m ≫= k = Ok b <-> exists a, m = Ok a /\ k a = Ok b.
Proof. destruct m; cbn; [|naive_solver..]. split; [eauto|]. by intros (a' & [= <-] & H). Qed.

Lemma result_bind_ok {A B} (m : outcome E A) (k : A -> outcome E B) b : m ≫= k = Ok b -> exists a, m = Ok a /\ k a = Ok b.
Proof. apply bind_iff. Qed.

Lemma reject_iff b (e : E) u : reject_if b e = Ok u <-> b = false.
Proof. destruct u, b; cbn; naive_solver. Qed.

Lemma reject_bind {B} b (e : E) (m : outcome E B) r : (_ ← reject_if b e; m) = Ok r <-> b = false /\ m = Ok r.
Proof. destruct b; cbn; naive_solver. Qed.

Lemma reject_total b (e : E) : is_total (reject_if b e).
Proof. by destruct b. Qed.

Lemma or_throw_total {A} (e : E) (o : option A) : is_total (or_throw e o).
Proof. by destruct o. Qed.

Lemma fold_result_total {A B} (f : A -> B -> outcome E B) l : (forall x b, is_total (f x b)) -> forall b, is_total (fold_result f l b).
Proof. intros Hf. induction l as [|x l IH]; intros b; cbn; [done|]. apply total_bind; auto. Qed.

Lemma each_total {A} (f : A -> outcome E unit) l : (forall x, is_total (f x)) -> is_total (each f l).
Proof. intros Hf. induction l as [|x l IH]; cbn; [done|]. apply total_bind; auto. Qed.

Lemma each_iff {A} (f : A -> outcome E unit) l : each f l = Ok tt <-> Forall (fun x => f x = Ok tt) l.
Proof.
  induction l as [|x l IH]; cbn; [split; [by constructor|done]|]. rewrite bind_iff, Forall_cons, <- IH. split; [by intros ([] & ? & ?)|eauto].
Qed.

(** A fold whose every round succeeds exactly under a condition, with a known result. *)
Lemma fold_result_iff {A B} (f : A -> B -> outcome E B) (C : A -> B -> Prop) (h : A -> B -> B) :
  (forall x b b', f x b = Ok b' <-> C x b /\ b' = h x b) ->
  forall l b b', fold_result f l b = Ok b' <-> (fix go l b := match l with [] => True | x :: l' => C x b /\ go l' (h x b) end) l b /\
    b' = foldl (fun b x => h x b) b l.
Proof.
  intros Hf l. induction l as [|x l IH]; intros b b'; cbn; [naive_solver|]. rewrite bind_iff. setoid_rewrite Hf. setoid_rewrite IH. naive_solver.
Qed.
End outcomes.
Create HintDb totals.
#[export] Hint Resolve reject_total or_throw_total : totals.

(** Totality of a computation, from that of its parts. *)
Ltac totals := repeat match goal with
  | |- is_total (Ok _) => exact I
  | |- is_total (Throw _) => exact I
  | |- is_total _ => solve [auto with totals]
  | |- is_total (_ ≫= _) => apply total_bind; [|intros ? _]
  | |- is_total (fold_result _ _ _) => apply fold_result_total; intros
  | |- is_total (each _ _) => apply each_total; intros
  | |- is_total (match ?x with _ => _ end) => destruct x
  end.

(** ** Templates *)

Definition percent : ascii := "%".
Definition percent_free (s : string) : Prop := find_percent 0 s = None.

(** Exactly one placeholder. *)
Definition template_ok (v : string) : Prop := exists pre post, v = pre +:+ "%d" +:+ post /\ percent_free pre /\ percent_free post.

Lemma prefix_percent c s : String.prefix "%" (String c s) = bool_decide (c = percent).
Proof.
  change (String.prefix "%" (String c s)) with (if ascii_dec "%" c then String.prefix "" s else false).
  destruct (ascii_dec "%" c) as [<-|Hne]; [rewrite bool_decide_true by done; by destruct s|]. by rewrite bool_decide_false by (intros ->; by apply Hne).
Qed.

Lemma index_cons t c s : String.index 0 t (String c s) = if String.prefix t (String c s) then Some 0%nat else S <$> String.index 0 t s.
Proof. change (String.index 0 t (String c s)) with (if String.prefix t (String c s) then Some 0%nat else match String.index 0 t s with Some n => Some (S n) | None => None end). by destruct (String.index 0 t s). Qed.

Lemma find_percent_cons c s : find_percent 0 (String c s) = if decide (c = percent) then Some 0%nat else S <$> find_percent 0 s.
Proof. unfold find_percent. rewrite index_cons, prefix_percent. case_bool_decide; by case_decide. Qed.

Lemma find_percent_skip n c s : find_percent (S n) (String c s) = S <$> find_percent n s.
Proof. unfold find_percent. cbn. by destruct (String.index n "%" s). Qed.

Lemma malformed_cons c s : malformed (String c s) =
  if decide (c = percent) then match s with String "d" post => bool_decide (is_Some (find_percent 0 post)) | _ => true end else malformed s.
Proof.
  unfold malformed at 1. rewrite find_percent_cons. destruct (decide (c = percent)) as [->|Hne].
  - destruct s as [|c' post]; [done|]. cbn [Nat.add]. rewrite !find_percent_skip. cbn [String.length String.get Nat.leb orb].
    destruct (decide (c' = "d"%char)) as [->|Hd].
    + rewrite bool_decide_true by done. cbn. apply bool_decide_ext. rewrite !fmap_is_Some. done.
    + rewrite bool_decide_false by congruence. cbn. repeat (destruct c' as [[] [] [] [] [] [] [] []]; try done).
  - unfold malformed. destruct (find_percent 0 s) as [i|]; [|done]. cbn [fmap option_fmap option_map Nat.add String.length String.get Nat.leb].
    rewrite find_percent_skip. f_equal. apply bool_decide_ext. by rewrite fmap_is_Some.
Qed.

Lemma malformed_spec v : malformed v = false <-> template_ok v.
Proof.
  unfold template_ok. induction v as [|c s IH].
  - split; [done|]. intros ([|] & post & Heq & _); done.
  - rewrite malformed_cons. destruct (decide (c = percent)) as [->|Hne].
    + split.
      * destruct s as [|c' post]; [done|]. intros H. assert (c' = "d"%char) as -> by (destruct c' as [[] [] [] [] [] [] [] []]; done).
        rewrite bool_decide_eq_false, eq_None_not_Some in H || apply bool_decide_eq_false in H. exists "", post.
        split; [done|]. split; [done|]. unfold percent_free. by apply eq_None_not_Some.
      * intros ([|c' pre] & post & Heq & Hpre & Hpost); cbn in Heq.
        { injection Heq as ->. apply bool_decide_eq_false. unfold percent_free in Hpost. rewrite Hpost. by intros [? ?]. }
        injection Heq as <- _. unfold percent_free in Hpre. rewrite find_percent_cons, decide_True in Hpre by done. done.
    + rewrite IH. split; intros (pre & post & Heq & Hpre & Hpost).
      * exists (String c pre), post. split; [by subst|]. split; [|done]. unfold percent_free in *. by rewrite find_percent_cons, decide_False, Hpre.
      * destruct pre as [|c' pre]; cbn in Heq; [by injection Heq as -> _|]. injection Heq as -> ->. exists pre, post. split; [done|]. split; [|done].
        unfold percent_free in *. rewrite find_percent_cons, decide_False in Hpre by done. by destruct (find_percent 0 pre).
Qed.

Lemma percent_free_cons c s : percent_free (String c s) -> c <> percent /\ percent_free s.
Proof. unfold percent_free. rewrite find_percent_cons. case_decide; [done|]. by destruct (find_percent 0 s). Qed.

Lemma index_placeholder post pre : percent_free pre -> String.index 0 "%d" (pre +:+ "%d" +:+ post) = Some (String.length pre).
Proof.
  induction pre as [|c pre IH]; intros Hf.
  - change ("" +:+ "%d" +:+ post) with (String "%" (String "d" post)). rewrite index_cons. by destruct post.
  - apply percent_free_cons in Hf as [Hne Hf]. change (String c pre +:+ "%d" +:+ post) with (String c (pre +:+ "%d" +:+ post)). rewrite index_cons, (IH Hf).
    change (String.prefix "%d" (String c ?s)) with (if ascii_dec "%" c then String.prefix "d" s else false). destruct (ascii_dec "%" c) as [<-|]; [by destruct Hne|done].
Qed.

Lemma substring_front s t : String.substring 0 (String.length s) (s +:+ t) = s.
Proof. induction s as [|c s IH]; [by destruct t|]. change (String c (String.substring 0 (String.length s) (s +:+ t)) = String c s). by rewrite IH. Qed.

Lemma substring_whole s : String.substring 0 (String.length s) s = s.
Proof. induction s as [|c s IH]; [done|]. cbn. by f_equal. Qed.

Lemma substring_back s t n m : String.substring (String.length s + n) m (s +:+ t) = String.substring n m t.
Proof. induction s as [|c s IH]; [done|exact IH]. Qed.

Lemma length_app_string s t : String.length (s +:+ t) = (String.length s + String.length t)%nat.
Proof. induction s as [|c s IH]; [done|]. change (S (String.length (s +:+ t)) = S (String.length s + String.length t)). by rewrite IH. Qed.

(** A template names its layer between fixed parts. *)
Lemma expand_template pre post l : percent_free pre -> expand_placeholder (pre +:+ "%d" +:+ post) l = Some (pre +:+ layer_name l +:+ post).
Proof.
  intros Hf. unfold expand_placeholder. rewrite (index_placeholder post pre Hf). cbn [mbind option_bind]. f_equal. rewrite substring_front. do 2 f_equal.
  rewrite substring_back, !length_app_string. replace (String.length pre + (String.length "%d" + String.length post) - (String.length pre + 2))%nat with (String.length post) by (cbn; lia).
  apply substring_whole.
Qed.

Definition expand (v : string) (l : Z) : string := default "" (expand_placeholder v l).

Lemma expand_ok v l : template_ok v -> ExpandBinding v l = Ok (expand v l).
Proof. intros (pre & post & -> & Hf & _). unfold ExpandBinding, expand. by rewrite expand_template. Qed.

Lemma app_string_inj s t t' : s +:+ t = s +:+ t' -> t = t'.
Proof. induction s as [|c s IH]; [done|]. change (String c (s +:+ t) = String c (s +:+ t') -> t = t'). intros [= H]. by apply IH. Qed.

Lemma app_string_inj_r s s' t : s +:+ t = s' +:+ t -> s = s'.
Proof.
  revert s'. induction s as [|c s IH]; intros [|c' s'] H; [done|..].
  - apply (f_equal String.length) in H. rewrite !length_app_string in H. cbn in H. lia.
  - apply (f_equal String.length) in H. rewrite !length_app_string in H. cbn in H. lia.
  - change (String c (s +:+ t) = String c' (s' +:+ t)) in H. injection H as -> H. f_equal. by apply IH.
Qed.

(** Different layers have different names. *)
Lemma expand_inj v l l' : template_ok v -> expand v l = expand v l' -> l = l'.
Proof.
  intros (pre & post & -> & Hf & _). unfold expand. rewrite !expand_template by done. intros H%app_string_inj%app_string_inj_r.
  by apply (inj pretty) in H.
Qed.

(** ** What [ValidateConfig] accepts *)

Definition binding_names (layers : list Z) (b : StateBinding) : list string := layers ≫= fun l => [expand (binding_in b) l; expand (binding_out b) l].

(** The names a group claims, in the order they are claimed. *)
Definition group_names (d : Decoder) (g : StateGroup) : list string :=
  (StateBindingsFor d (group_kind g) ≫= binding_names (group_layer_ids g)) ++
  match group_state_update g with Some _ => update_templates d (group_kind g) ≫= fun t => expand t <$> group_layer_ids g | None => [] end.

Definition group_paged (g : StateGroup) : list Z := if bool_decide (group_kind g = PagedKeyValue) then group_layer_ids g else [].
Definition group_templates (d : Decoder) (g : StateGroup) : list string :=
  (StateBindingsFor d (group_kind g) ≫= fun b => [binding_in b; binding_out b]) ++
  match group_state_update g with Some _ => update_templates d (group_kind g) | None => [] end.

Record update_ok (d : Decoder) (kind : StateGroupKind) (u : StateUpdate) : Prop := mk_update_ok
  { up_kind : IsFixedKind kind = true;
    up_capacity : 1 <= update_capacity u <= MaxStateUpdateCapacity;
    up_count : in_state_update_capture_count d <> "" /\ percent_free (in_state_update_capture_count d);
    up_active : percent_free (in_state_update_active d);
    up_heads : if decide (kind = FixedRecurrent) then 0 < update_key_head_count u else update_key_head_count u = 0;
    up_ratio : if decide (kind = FixedIndexer) then 0 < update_compress_ratio u else update_compress_ratio u = 0 }.

Record group_ok (d : Decoder) (g : StateGroup) : Prop := mk_group_ok
  { gk_kind : group_kind g <> InvalidGroup;
    gk_layers : group_layer_ids g <> [];
    gk_range : Forall (fun l => 0 <= l < num_hidden_layers d) (group_layer_ids g);
    gk_distinct : NoDup (group_layer_ids g);
    gk_update : forall u, group_state_update g = Some u -> update_ok d (group_kind g) u;
    gk_templates : Forall template_ok (group_templates d g) }.

Lemma has_percent_false v : has_percent v = false <-> percent_free v.
Proof. unfold has_percent, percent_free. by rewrite bool_decide_eq_false, <- eq_None_not_Some. Qed.

Lemma check_update_iff d g kind u : check_update d g kind u = Ok tt <-> update_ok d kind u.
Proof.
  unfold check_update. rewrite !reject_bind, reject_iff, !has_percent_false, negb_false_iff, bool_decide_eq_false, orb_false_iff, !andb_false_iff, !negb_false_iff, !Z.ltb_ge, !Z.leb_gt, !Z.eqb_eq, !bool_decide_eq_false, !bool_decide_eq_true.
  unfold SupportsStateUpdate. split.
  - intros (H1 & H2 & H3 & H4 & H5 & H6 & H7 & H8 & H9 & H10). split; try done; destruct (decide _); naive_solver.
  - intros [H1 H2 [H3 H4] H5 H6 H7]. split_and!; try done; repeat destruct (decide _); subst; naive_solver.
Qed.

Lemma agree_iff {A} `{EqDecision A} seen (a : A) e r : agree seen a e = Ok r <-> (seen = None \/ seen = Some a) /\ r = Some a.
Proof. unfold agree. destruct seen as [b|]; [case_bool_decide|]; naive_solver. Qed.

Lemma scan_layers_iff d g kind ls : forall ids paged r, fold_result (scan_layer d g kind) ls (ids, paged) = Ok r <->
  (Forall (fun l => 0 <= l < num_hidden_layers d) ls /\ NoDup ls /\ (forall l, l ∈ ls -> l ∉ ids) /\ (kind = PagedKeyValue -> forall l, l ∈ ls -> l ∉ paged)) /\
  r = (list_to_set ls ∪ ids, if bool_decide (kind = PagedKeyValue) then list_to_set ls ∪ paged else paged).
Proof.
  induction ls as [|l ls IH]; intros ids paged r.
  - cbn. rewrite !(left_id_L ∅ (∪)). assert ((if bool_decide (kind = PagedKeyValue) then paged else paged) = paged) as -> by (by case_bool_decide).
    split; [intros [= <-]|intros [_ ->]; done]. split; [|done]. split_and!; [by apply Forall_nil_2|apply NoDup_nil_2|intros l Hl; by apply elem_of_nil in Hl|intros _ l Hl; by apply elem_of_nil in Hl].
  - cbn [fold_result]. rewrite bind_iff.
    assert (forall r', scan_layer d g kind l (ids, paged) = Ok r' <-> (0 <= l < num_hidden_layers d /\ l ∉ ids /\ (kind = PagedKeyValue -> l ∉ paged)) /\
      r' = ({[l]} ∪ ids, if bool_decide (kind = PagedKeyValue) then {[l]} ∪ paged else paged)) as Hone.
    { intros r'. unfold scan_layer. rewrite !reject_bind, orb_false_iff, Z.ltb_ge, Z.leb_gt, bool_decide_eq_false.
      case_bool_decide as Hk; [rewrite reject_bind, bool_decide_eq_false|]; naive_solver. }
    setoid_rewrite Hone. rewrite Forall_cons, NoDup_cons. split.
    + intros (r' & [(Hr & Hi & Hp) ->] & Hrest). apply IH in Hrest as ((H1 & H2 & H3 & H4) & ->). split.
      * split_and!; try done; try lia; [intros Hin; specialize (H3 l Hin); set_solver|..].
        -- intros l' [->|Hl']%elem_of_cons; [done|]. specialize (H3 l' Hl'). set_solver.
        -- intros Hk l' [->|Hl']%elem_of_cons; [by apply Hp|]. specialize (H4 Hk l' Hl'). rewrite bool_decide_true in H4 by done. set_solver.
      * cbn. f_equal; [set_solver|]. case_bool_decide; set_solver.
    + intros (((Hr & HF) & (Hni & Hnd) & H3 & H4) & ->). eexists. split; [split; [|reflexivity]|].
      * split_and!; try done; try lia; [apply H3; by left|intros Hk; apply (H4 Hk); by left].
      * apply IH. split; [split_and!; try done|].
        -- intros l' Hl'. specialize (H3 l' ltac:(by right)). rewrite not_elem_of_union, not_elem_of_singleton. split; [|done]. by intros ->.
        -- intros Hk l' Hl'. rewrite bool_decide_true by done. specialize (H4 Hk l' ltac:(by right)). rewrite not_elem_of_union, not_elem_of_singleton. split; [|done]. by intros ->.
        -- cbn. f_equal; [set_solver|]. case_bool_decide; set_solver.
Qed.

(** ** Claiming names *)

Lemma claims_iff g names : forall s s', fold_result (claim g) names s = Ok s' <->
  (NoDup names /\ forall n, n ∈ names -> n ∉ s) /\ s' = list_to_set names ∪ s.
Proof.
  induction names as [|n names IH]; intros s s'.
  - cbn. rewrite (left_id_L ∅ (∪)). split; [intros [= <-]|by intros [_ ->]]. split; [|done]. split; [apply NoDup_nil_2|]. intros n Hn. by apply elem_of_nil in Hn.
  - cbn [fold_result]. rewrite bind_iff, NoDup_cons. unfold claim at 1. setoid_rewrite IH. split.
    + intros (s1 & H1 & (Hnd & Hdis) & ->). case_bool_decide as Hn; [done|]. injection H1 as <-. split; [split; [split|]|]; [|done|..].
      * intros Hin. specialize (Hdis n Hin). set_solver.
      * intros n' [->|Hin]%elem_of_cons; [done|]. specialize (Hdis n' Hin). set_solver.
      * cbn. set_solver.
    + intros (((Hn & Hnd) & Hdis) & ->). exists ({[n]} ∪ s). rewrite bool_decide_false by (apply Hdis; by left). split; [done|]. split; [split; [done|]|cbn; set_solver].
      intros n' Hin. rewrite not_elem_of_union, not_elem_of_singleton. split; [by intros ->|]. apply Hdis. by right.
Qed.

Lemma fold_result_app {E A B} (f : A -> B -> outcome E B) l l' b : fold_result f (l ++ l') b = (b' ← fold_result f l b; fold_result f l' b').
Proof. revert b. induction l as [|x l IH]; intros b; cbn; [done|]. destruct (f x b); cbn; [apply IH|done..]. Qed.

(** A loop that validates templates and claims what they expand to. *)
Lemma fold_claims {A} g (f : A -> gset string -> checked (gset string)) (T : A -> list string) (N : A -> list string) (l : list A) :
  (forall x s s', f x s = Ok s' <-> Forall template_ok (T x) /\ fold_result (claim g) (N x) s = Ok s') ->
  forall s s', fold_result f l s = Ok s' <-> Forall template_ok (l ≫= T) /\ fold_result (claim g) (l ≫= N) s = Ok s'.
Proof.
  intros Hf. induction l as [|x l IH]; intros s s'; cbn [fold_result]; [split; [intros H; split; [by apply Forall_nil_2|done]|by intros [_ H]]|].
  rewrite bind_iff, !bind_cons, Forall_app, fold_result_app, bind_iff. setoid_rewrite Hf. setoid_rewrite IH. naive_solver.
Qed.

Lemma validate_template_iff g s d v : ValidateBindingTemplate g s d v = Ok tt <-> template_ok v.
Proof.
  unfold ValidateBindingTemplate. rewrite reject_bind, reject_iff, malformed_spec, bool_decide_eq_false. split; [by intros [_ H]|].
  intros H. split; [|done]. intros ->. destruct H as ([|] & post & Heq & _); done.
Qed.

Lemma validate_template_bind {B} g s d v (m : checked B) r : (_ ← ValidateBindingTemplate g s d v; m) = Ok r <-> template_ok v /\ m = Ok r.
Proof. rewrite bind_iff. setoid_rewrite <- (validate_template_iff g s d v). split; [by intros ([] & ? & ?)|eauto]. Qed.

Lemma scan_binding_iff g layers b s s' : scan_binding g layers b s = Ok s' <->
  Forall template_ok [binding_in b; binding_out b] /\ fold_result (claim g) (binding_names layers b) s = Ok s'.
Proof.
  unfold scan_binding, binding_names. rewrite !validate_template_bind, !Forall_cons, Forall_nil.
  assert (template_ok (binding_in b) -> template_ok (binding_out b) -> forall s, fold_result (fun l s =>
      input ← ExpandBinding (binding_in b) l; output ← ExpandBinding (binding_out b) l; s' ← claim g input s; claim g output s') layers s =
    fold_result (claim g) (layers ≫= fun l => [expand (binding_in b) l; expand (binding_out b) l]) s) as Hfold.
  { intros Hi Ho. induction layers as [|l layers IH]; intros s0; [done|]. rewrite bind_cons. cbn [fold_result app]. rewrite !expand_ok by done. cbn [mbind outcome_bind].
    destruct (claim g (expand (binding_in b) l) s0) as [s1| | |]; try done. cbn. destruct (claim g (expand (binding_out b) l) s1) as [s2| | |]; try done. apply IH. }
  split.
  - intros (Hi & Ho & H). rewrite Hfold in H by done. done.
  - intros ((Hi & Ho & _) & H). rewrite Hfold by done. done.
Qed.

Lemma scan_update_template_iff g layers t s s' : scan_update_template g layers t s = Ok s' <->
  Forall template_ok [t] /\ fold_result (claim g) (expand t <$> layers) s = Ok s'.
Proof.
  unfold scan_update_template. rewrite validate_template_bind, Forall_singleton.
  assert (template_ok t -> forall s, fold_result (fun l s => name ← ExpandBinding t l; claim g name s) layers s = fold_result (claim g) (expand t <$> layers) s) as Hfold.
  { intros Ht. induction layers as [|l layers IH]; intros s0; [done|]. cbn [fold_result fmap list_fmap]. rewrite expand_ok by done. cbn [mbind outcome_bind].
    destruct (claim g (expand t l) s0) as [s1| | |]; try done. apply IH. }
  split; intros [Ht H]; (split; [done|]); [by rewrite <- Hfold|by rewrite Hfold].
Qed.

Lemma bind_ret_list {A} (l : list A) : (l ≫= fun x => [x]) = l.
Proof. induction l as [|x l IH]; [done|]. cbn. by f_equal. Qed.

(** ** One group *)

(** What a group adds to the scan. *)
Definition scan_next (d : Decoder) (g : StateGroup) (s : ConfigScan) : ConfigScan :=
  mkScan (list_to_set (group_paged g) ∪ paged_layers s) (list_to_set (group_names d g) ∪ expanded_bindings s)
    (match group_state_update g with Some u => Some (update_capacity u) | None => fixed_state_update_capacity s end)
    (match group_state_update g with Some u => Some (update_enabled u) | None => fixed_state_update_enabled s end)
    (if IsFixedKind (group_kind g) then S (fixed_group_count s) else fixed_group_count s)
    (match group_state_update g with Some _ => S (fixed_state_update_group_count s) | None => fixed_state_update_group_count s end).

Record scan_cond (d : Decoder) (g : StateGroup) (s : ConfigScan) : Prop := mk_scan_cond
  { sn_group : group_ok d g;
    sn_paged : forall l, l ∈ group_paged g -> l ∉ paged_layers s;
    sn_names : NoDup (group_names d g);
    sn_fresh : forall n, n ∈ group_names d g -> n ∉ expanded_bindings s;
    sn_updates : forall u, group_state_update g = Some u ->
      (fixed_state_update_capacity s = None \/ fixed_state_update_capacity s = Some (update_capacity u)) /\
      (fixed_state_update_enabled s = None \/ fixed_state_update_enabled s = Some (update_enabled u)) }.

Lemma scan_update_iff d g group s s' : scan_update d g group s = Ok s' <->
  (forall u, group_state_update group = Some u -> update_ok d (group_kind group) u /\
     (fixed_state_update_capacity s = None \/ fixed_state_update_capacity s = Some (update_capacity u)) /\
     (fixed_state_update_enabled s = None \/ fixed_state_update_enabled s = Some (update_enabled u))) /\
  s' = mkScan (paged_layers s) (expanded_bindings s)
    (match group_state_update group with Some u => Some (update_capacity u) | None => fixed_state_update_capacity s end)
    (match group_state_update group with Some u => Some (update_enabled u) | None => fixed_state_update_enabled s end)
    (fixed_group_count s) (match group_state_update group with Some _ => S (fixed_state_update_group_count s) | None => fixed_state_update_group_count s end).
Proof.
  unfold scan_update. destruct (group_state_update group) as [u|]; [|destruct s; naive_solver].
  split.
  - intros H. apply bind_iff in H as ([] & Hu & H). apply check_update_iff in Hu. apply bind_iff in H as (c & Hc & H). apply agree_iff in Hc as [Hc ->].
    apply bind_iff in H as (e & He & H). apply agree_iff in He as [He ->]. injection H as <-. split; [|done]. by intros ? [= <-].
  - intros [H ->]. destruct (H u eq_refl) as (Hu & Hc & He). apply bind_iff. exists tt. split; [by apply check_update_iff|].
    apply bind_iff. eexists. split; [by apply agree_iff|]. apply bind_iff. eexists. by split; [apply agree_iff|].
Qed.

Lemma scan_group_iff d g group s s' : scan_group d (g, group) s = Ok s' <-> scan_cond d group s /\ s' = scan_next d group s.
Proof.
  unfold scan_group. rewrite !reject_bind, !bool_decide_eq_false, bind_iff.
  assert (forall layers bs s s', fold_result (scan_binding g layers) bs s = Ok s' <-> Forall template_ok (bs ≫= fun b => [binding_in b; binding_out b]) /\
    fold_result (claim g) (bs ≫= binding_names layers) s = Ok s') as Hb by (intros; apply fold_claims; intros; apply scan_binding_iff).
  assert (forall layers ts s s', fold_result (scan_update_template g layers) ts s = Ok s' <-> Forall template_ok ts /\
    fold_result (claim g) (ts ≫= fun t => expand t <$> layers) s = Ok s') as Ht.
  { intros layers ts s0 s0'. rewrite (fold_claims g _ (fun t => [t]) (fun t => expand t <$> layers)) by (intros; apply scan_update_template_iff). by rewrite bind_ret_list. }
  assert (forall s0 s0', (exists names, fold_result (scan_binding g (group_layer_ids group)) (StateBindingsFor d (group_kind group)) s0 = Ok names /\
      match group_state_update group with Some _ => fold_result (scan_update_template g (group_layer_ids group)) (update_templates d (group_kind group)) names | None => Ok names end = Ok s0') <->
    Forall template_ok (group_templates d group) /\ (NoDup (group_names d group) /\ forall n, n ∈ group_names d group -> n ∉ s0) /\ s0' = list_to_set (group_names d group) ∪ s0) as Hnames.
  { intros s0 s0'. setoid_rewrite Hb. unfold group_templates, group_names. rewrite <- (claims_iff g), Forall_app, fold_result_app, bind_iff.
    destruct (group_state_update group); [setoid_rewrite Ht; naive_solver|]. rewrite Forall_nil. cbn. naive_solver. }
  split.
  - intros (Hk & Hl & s1 & Hu & H). apply scan_update_iff in Hu as [Hu ->]. apply bind_iff in H as ([ids paged] & Hlay & H).
    apply scan_layers_iff in Hlay as ((Hr & Hnd & _ & Hpg) & [= _ ->]). cbn in H, Hpg. apply bind_iff in H as (names & Hn1 & H). apply bind_iff in H as (names' & Hn2 & H). injection H as <-.
    destruct (proj1 (Hnames (expanded_bindings s) names')) as (HT & (HN & HD) & ->); [eauto|]. split; [|unfold scan_next, group_paged; cbn; f_equal; case_bool_decide; [done|set_solver]].
    split; try done; [split; try done; intros u Hx; by apply Hu| |intros u Hx; by apply Hu].
    unfold group_paged. case_bool_decide; [by apply Hpg|]. intros l Hin. by apply elem_of_nil in Hin.
  - intros [[[Hk Hl Hr Hnd Hu HT] Hpg HN HD Hup] ->]. split; [done|]. split; [done|]. eexists. split; [apply scan_update_iff; split; [|reflexivity]|].
    { intros u Hx. split; [by apply Hu|]. by apply Hup. }
    apply bind_iff. eexists. split; [apply scan_layers_iff; split; [|reflexivity]|].
    { split_and!; try done. cbn. intros Hpk l Hin. apply Hpg. unfold group_paged. by rewrite bool_decide_true. }
    cbn [paged_layers expanded_bindings fixed_state_update_capacity fixed_state_update_enabled fixed_group_count fixed_state_update_group_count].
    destruct (proj2 (Hnames (expanded_bindings s) (list_to_set (group_names d group) ∪ expanded_bindings s))) as (names & Hn1 & Hn2); [by split; [|split; [split|reflexivity]]|].
    apply bind_iff. exists names. split; [done|]. apply bind_iff. eexists. split; [exact Hn2|]. f_equal. unfold scan_next, group_paged. f_equal. case_bool_decide; [done|set_solver].
Qed.

(** ** The whole declaration *)

Definition declared_updates (gs : list StateGroup) : list StateUpdate := omap group_state_update gs.

(** A declaration the manifest accepts: every group is well formed, no layer is paged twice,
    no two bindings have the same name, all compact updates agree, and they are declared for
    every fixed group when one declares them or the decoder asks for them. *)
Record config_ok (d : Decoder) (gs : list StateGroup) : Prop := mk_config_ok
  { ck_some : gs <> [];
    ck_groups : Forall (group_ok d) gs;
    ck_paged : NoDup (gs ≫= group_paged);
    ck_names : NoDup (gs ≫= group_names d);
    ck_agree : forall u u', u ∈ declared_updates gs -> u' ∈ declared_updates gs ->
      update_capacity u = update_capacity u' /\ update_enabled u = update_enabled u';
    ck_all : declared_updates gs <> [] \/ 0 < decoder_state_update_capacity d ->
      Forall (fun g => IsFixedKind (group_kind g) = true -> is_Some (group_state_update g)) gs;
    ck_capacity : 0 < decoder_state_update_capacity d ->
      exists u, u ∈ declared_updates gs /\ update_capacity u = decoder_state_update_capacity d }.

Definition scan_all (d : Decoder) (gs : list StateGroup) (s : ConfigScan) : ConfigScan := foldl (fun s g => scan_next d g s) s gs.

(** The conditions of the rounds together. *)
Record scans (d : Decoder) (gs : list StateGroup) (s : ConfigScan) : Prop := mk_scans
  { ss_groups : Forall (group_ok d) gs;
    ss_paged : NoDup (gs ≫= group_paged);
    ss_paged' : forall l, l ∈ gs ≫= group_paged -> l ∉ paged_layers s;
    ss_names : NoDup (gs ≫= group_names d);
    ss_names' : forall n, n ∈ gs ≫= group_names d -> n ∉ expanded_bindings s;
    ss_agree : forall u u', u ∈ declared_updates gs -> u' ∈ declared_updates gs ->
      update_capacity u = update_capacity u' /\ update_enabled u = update_enabled u';
    ss_agree' : forall u, u ∈ declared_updates gs ->
      (fixed_state_update_capacity s = None \/ fixed_state_update_capacity s = Some (update_capacity u)) /\
      (fixed_state_update_enabled s = None \/ fixed_state_update_enabled s = Some (update_enabled u)) }.

Lemma scans_nil d s : scans d [] s.
Proof.
  split; first [apply NoDup_nil_2|by apply Forall_nil_2|intros ? Hin; by apply elem_of_nil in Hin|intros ? ? Hin; by apply elem_of_nil in Hin].
Qed.

Lemma declared_cons g gs : declared_updates (g :: gs) = option_list (group_state_update g) ++ declared_updates gs.
Proof. unfold declared_updates. cbn. by destruct (group_state_update g). Qed.

Lemma scans_cons d g gs s : scans d (g :: gs) s <-> scan_cond d g s /\ scans d gs (scan_next d g s).
Proof.
  split.
  - intros [H1 H2 H2' H3 H3' H4 H4']. rewrite bind_cons in H2, H2'. rewrite bind_cons in H3, H3'. rewrite declared_cons in H4, H4'.
    apply Forall_cons in H1 as [Hg H1]. apply NoDup_app in H2 as (P1 & P2 & P3). apply NoDup_app in H3 as (N1 & N2 & N3).
    setoid_rewrite elem_of_app in H2'. setoid_rewrite elem_of_app in H3'. setoid_rewrite elem_of_app in H4. setoid_rewrite elem_of_app in H4'.
    split.
    + split; try done; [intros l Hl; apply H2'; by left|intros n Hn; apply H3'; by left|]. intros u Hu. apply H4'. left. rewrite Hu. by left.
    + split; try done; cbn.
      * intros l Hl. rewrite not_elem_of_union, elem_of_list_to_set. split; [intros Hin; by apply (P2 l Hin)|apply H2'; by right].
      * intros n Hn. rewrite not_elem_of_union, elem_of_list_to_set. split; [intros Hin; by apply (N2 n Hin)|apply H3'; by right].
      * intros u u' Hu Hu'. apply H4; by right.
      * intros u Hu. destruct (group_state_update g) as [u0|]; [|apply H4'; by right].
        destruct (H4 u0 u ltac:(left; by left) ltac:(by right)) as [-> ->]. auto.
  - intros [[Hg Hp Hn Hf Hu] [H1 H2 H2' H3 H3' H4 H4']]. cbn in H2', H3', H4'. setoid_rewrite not_elem_of_union in H2'. setoid_rewrite not_elem_of_union in H3'.
    setoid_rewrite elem_of_list_to_set in H2'. setoid_rewrite elem_of_list_to_set in H3'.
    split; rewrite ?bind_cons, ?declared_cons.
    + by apply Forall_cons.
    + apply NoDup_app. split_and!; [|intros l Hl Hin; by destruct (H2' l Hin)|done]. unfold group_paged. case_bool_decide; [apply Hg|apply NoDup_nil_2].
    + intros l [Hl|Hl]%elem_of_app; [by apply Hp|by apply H2'].
    + apply NoDup_app. split_and!; [done|intros n Hx Hin; by destruct (H3' n Hin)|done].
    + intros n [Hx|Hx]%elem_of_app; [by apply Hf|by apply H3'].
    + destruct (group_state_update g) as [u0|]; [|done]. cbn [option_list app]. intros u u' [->|Hu1]%elem_of_cons [->|Hu2]%elem_of_cons; [done|..|by apply H4].
      * destruct (H4' u' Hu2) as [[|[= ->]] [|[= ->]]]; done.
      * destruct (H4' u Hu1) as [[|[= ->]] [|[= ->]]]; done.
    + intros u [Hin|Hin]%elem_of_app.
      * destruct (group_state_update g) as [u0|]; [|by apply elem_of_nil in Hin]. apply list_elem_of_singleton in Hin as ->. by apply Hu.
      * destruct (group_state_update g) as [u0|]; [|by apply H4']. destruct (Hu u0 eq_refl) as [Hc He], (H4' u Hin) as [[|[= <-]] [|[= <-]]]; done.
Qed.

Lemma scan_groups_iff d l : forall s s', fold_result (scan_group d) l s = Ok s' <-> scans d l.*2 s /\ s' = scan_all d l.*2 s.
Proof.
  induction l as [|[g group] l IH]; intros s s'; cbn [fold_result].
  - split; [intros [= <-]; split; [apply scans_nil|done]|by intros [_ ->]].
  - rewrite bind_iff, fmap_cons, scans_cons. setoid_rewrite scan_group_iff. setoid_rewrite IH. naive_solver.
Qed.

Lemma scan_counts d gs : forall s,
  fixed_group_count (scan_all d gs s) = (length (filter (fun g => IsFixedKind (group_kind g) = true) gs) + fixed_group_count s)%nat /\
  fixed_state_update_group_count (scan_all d gs s) = (length (declared_updates gs) + fixed_state_update_group_count s)%nat.
Proof.
  induction gs as [|g gs IH]; intros s; [done|]. change (scan_all d (g :: gs) s) with (scan_all d gs (scan_next d g s)). destruct (IH (scan_next d g s)) as [-> ->].
  rewrite filter_cons, declared_cons. cbn. destruct (IsFixedKind (group_kind g)), (group_state_update g); cbn; repeat case_decide; cbn; split; lia || done.
Qed.

Lemma scan_capacity d gs : forall s, scans d gs s -> forall u, u ∈ declared_updates gs -> fixed_state_update_capacity (scan_all d gs s) = Some (update_capacity u).
Proof.
  induction gs as [|g gs IH]; intros s Hs u Hu; [by apply elem_of_nil in Hu|]. change (scan_all d (g :: gs) s) with (scan_all d gs (scan_next d g s)).
  destruct (declared_updates gs) as [|u1 us] eqn:Hus.
  - rewrite declared_cons, Hus, app_nil_r in Hu. destruct (group_state_update g) as [u0|] eqn:Hg; [|by apply elem_of_nil in Hu]. apply list_elem_of_singleton in Hu as ->.
    assert (forall s, scan_all d gs s = scan_all d gs s -> fixed_state_update_capacity (scan_all d gs s) = fixed_state_update_capacity s) as Hkeep.
    { clear -Hus. induction gs as [|g gs IH]; intros s _; [done|]. rewrite declared_cons in Hus. apply app_eq_nil in Hus as [Hn Hus].
      change (scan_all d (g :: gs) s) with (scan_all d gs (scan_next d g s)). rewrite (IH Hus) by done. cbn. by destruct (group_state_update g). }
    rewrite Hkeep by done. cbn. by rewrite Hg.
  - assert (u1 ∈ declared_updates (g :: gs)) as Hu1 by (rewrite declared_cons, Hus; apply elem_of_app; right; by left).
    destruct (ss_agree _ _ _ Hs u u1 Hu Hu1) as [-> _]. apply scans_cons in Hs as [_ Hs]. apply IH; [done|]. by left.
Qed.

Lemma declared_le d gs : Forall (group_ok d) gs ->
  (length (declared_updates gs) <= length (filter (fun g => IsFixedKind (group_kind g) = true) gs))%nat.
Proof.
  induction 1 as [|g gs Hg _ IH]; [done|]. rewrite declared_cons, filter_cons. destruct (group_state_update g) as [u|] eqn:Hu; cbn.
  - destruct (gk_update _ _ Hg u Hu) as [-> _ _ _ _ _]. rewrite decide_True by done. cbn. lia.
  - case_decide; cbn; lia.
Qed.

(** When updates are only declared for fixed groups, counting them tells whether all have one. *)
Lemma counts_agree d gs : Forall (group_ok d) gs ->
  length (declared_updates gs) = length (filter (fun g => IsFixedKind (group_kind g) = true) gs) <->
  Forall (fun g => IsFixedKind (group_kind g) = true -> is_Some (group_state_update g)) gs.
Proof.
  induction 1 as [|g gs Hg HF IH]; [split; [by constructor|done]|]. pose proof (declared_le d gs HF) as Hle. rewrite declared_cons, filter_cons, Forall_cons, <- IH.
  destruct (group_state_update g) as [u|] eqn:Hu; cbn.
  - destruct (gk_update _ _ Hg u Hu) as [Hk _ _ _ _ _]. rewrite Hk, decide_True by done. cbn. split; [intros H; split; [eauto|lia]|lia].
  - case_decide as Hk; cbn; [|split; [intros H; split; [done|lia]|lia]]. split; [lia|]. intros [H _]. by destruct (H Hk).
Qed.

Lemma check_totals_iff d gs s : scans d gs (mkScan ∅ ∅ None None 0 0) -> s = scan_all d gs (mkScan ∅ ∅ None None 0 0) ->
  check_totals d s = Ok tt <->
  (declared_updates gs <> [] \/ 0 < decoder_state_update_capacity d ->
     Forall (fun g => IsFixedKind (group_kind g) = true -> is_Some (group_state_update g)) gs) /\
  (0 < decoder_state_update_capacity d -> exists u, u ∈ declared_updates gs /\ update_capacity u = decoder_state_update_capacity d).
Proof.
  intros Hs ->. unfold check_totals. destruct (scan_counts d gs (mkScan ∅ ∅ None None 0 0)) as [-> ->]. cbn [fixed_group_count fixed_state_update_group_count].
  rewrite !Nat.add_0_r, <- (counts_agree d gs (ss_groups _ _ _ Hs)), reject_bind, andb_false_iff, !negb_false_iff, !Nat.eqb_eq, length_zero_iff_nil.
  assert (fixed_state_update_capacity (scan_all d gs (mkScan ∅ ∅ None None 0 0)) = Some (decoder_state_update_capacity d) <->
    exists u, u ∈ declared_updates gs /\ update_capacity u = decoder_state_update_capacity d) as Hcap.
  { split.
    - destruct (declared_updates gs) as [|u us] eqn:Hus.
      + assert (forall s, fixed_state_update_capacity s = None -> fixed_state_update_capacity (scan_all d gs s) = None) as ->; [|done|done].
        clear -Hus. induction gs as [|g gs IH]; intros s H; [done|]. rewrite declared_cons in Hus. apply app_eq_nil in Hus as [Hn Hus].
        change (scan_all d (g :: gs) s) with (scan_all d gs (scan_next d g s)). apply (IH Hus). cbn. by destruct (group_state_update g).
      + rewrite (scan_capacity d gs _ Hs u) by (rewrite Hus; by left). intros [= H]. exists u. split; [by left|done].
    - intros (u & Hu & <-). by apply scan_capacity. }
  destruct (Z.ltb_spec 0 (decoder_state_update_capacity d)) as [Hpos|Hpos].
  - rewrite reject_bind, reject_iff, !negb_false_iff, Nat.eqb_eq, bool_decide_eq_true, Hcap. naive_solver.
  - split; [intros [[H|H] _]; (split; [|lia]); [|done]; intros [|]; [done|lia]|]. intros [H _]. split; [|done].
    destruct (declared_updates gs); [by left|right]. apply H. by left.
Qed.

Lemma imap_pair_snd {A} (l : list A) : (imap pair l).*2 = l.
Proof. apply list_eq. intros i. rewrite list_lookup_fmap, list_lookup_imap. by destruct (l !! i). Qed.

Lemma ValidateConfig_iff d : ValidateConfig d = Ok tt <-> match state_groups d with None => True | Some gs => config_ok d gs end.
Proof.
  unfold ValidateConfig. destruct (state_groups d) as [gs|]; [|done]. rewrite reject_bind, bool_decide_eq_false, bind_iff. split.
  - intros (Hne & s & Hs & Ht). apply scan_groups_iff in Hs as [Hs ->]. rewrite imap_pair_snd in Hs, Ht. apply (check_totals_iff d gs _ Hs eq_refl) in Ht as [H1 H2].
    destruct Hs. by split.
  - intros []. split; [done|]. assert (scans d gs (mkScan ∅ ∅ None None 0 0)) as Hs.
    { split; try done; intros; cbn; first [apply not_elem_of_empty|auto]. }
    eexists. split; [apply scan_groups_iff; rewrite imap_pair_snd; split; [exact Hs|reflexivity]|]. by apply (check_totals_iff d gs).
Qed.

(** It returns or throws. *)
Lemma claim_total g n s : is_total (claim g n s).
Proof. unfold claim. by case_bool_decide. Qed.

Lemma template_total g s d v : is_total (ValidateBindingTemplate g s d v).
Proof. unfold ValidateBindingTemplate. totals. Qed.

Lemma expand_total v l : is_total (ExpandBinding v l).
Proof. apply or_throw_total. Qed.

Lemma agree_total {A} `{EqDecision A} s (a : A) e : is_total (agree s a e).
Proof. unfold agree. destruct s; [by case_bool_decide|done]. Qed.
#[export] Hint Resolve claim_total template_total expand_total agree_total : totals.

Lemma scan_group_total d gi s : is_total (scan_group d gi s).
Proof. destruct gi as [g group]. unfold scan_group, scan_update, check_update, scan_layer, scan_binding, scan_update_template. totals. Qed.

Lemma ValidateConfig_total d : is_total (ValidateConfig d).
Proof. unfold ValidateConfig, check_totals. pose proof (scan_group_total d). totals. Qed.

(** The declarations the manifest is meant to accept. *)
Definition accepted (d : Decoder) : Prop := match state_groups d with None => True | Some gs => config_ok d gs end.

(** C16: the manifest accepts exactly the decoder configurations that are well formed: one that
    declares no state groups, or one whose groups have distinct non-negative layers, templates
    with one layer placeholder, no layer paged twice, no two bindings of the same expanded name,
    and compact updates that agree and are declared for every fixed group once one declares
    them.  Every other configuration throws, and no configuration makes the check read out of
    range. *)
Theorem manifest_config_exact d : match ValidateConfig d with Ok _ => accepted d | Throw _ => ~ accepted d | _ => False end.
Proof.
  pose proof (ValidateConfig_iff d) as H. pose proof (ValidateConfig_total d) as Ht. destruct (ValidateConfig d) as [[]|e| |]; try done; [by apply H|].
  intros Ha. by apply H in Ha.
Qed.

(** ** Sessions *)

(** The rank of the output a template names for a layer. *)
Definition output_rank (s : SessionInfo) (template : string) (l : Z) (rank : nat) : Prop :=
  exists name shape, expand_placeholder template l = Some name /\ GetOutputShape s name = Some shape /\ length shape = rank.

Lemma rank_iff g t n : ValidateRank g t n = Ok tt <-> length (meta_shape t) = n.
Proof. unfold ValidateRank. by rewrite reject_iff, negb_false_iff, Nat.eqb_eq. Qed.

Lemma bound_output_rank s template l t n : bound_output s template l = Ok t -> length (meta_shape t) = n -> output_rank s template l n.
Proof.
  unfold bound_output, ExpandBinding, output_metadata. destruct (expand_placeholder template l) as [name|] eqn:Hn; [|done]. cbn.
  destruct (GetOutputDataType s name); [|done]. cbn. destruct (GetOutputShape s name) as [shape|] eqn:Hs; [|done]. cbn. intros [= <-] Hl. by exists name, shape.
Qed.

(** What a session accepted for a group with compact updates looks like. *)
Definition update_ranks (d : Decoder) (s : SessionInfo) (kind : StateGroupKind) (l : Z) : Prop :=
  match kind with
  | FixedConv => output_rank s (present_conv_names d) l 3
  | FixedRecurrent => output_rank s (present_recurrent_names d) l 4
  | FixedPle => output_rank s (present_ple_token_names d) l 2 /\ output_rank s (present_ple_conv_names d) l 3
  | FixedIndexer =>
    output_rank s (present_indexer_names d) l 3 /\ output_rank s (present_indexer_kv_buffer_names d) l 3 /\
    output_rank s (present_indexer_state_lengths_names d) l 2
  | _ => True
  end.

Lemma conv_value_rank g s u conv template l : check_conv_value g s u conv template l = Ok tt -> length (meta_shape conv) = 3%nat.
Proof. intros ([] & H & _)%result_bind_ok. by apply rank_iff in H. Qed.

Lemma indexer_rank g d s u state l : check_indexer g d s u state l = Ok tt ->
  output_rank s (present_indexer_kv_buffer_names d) l 3 /\ output_rank s (present_indexer_state_lengths_names d) l 2.
Proof.
  intros (payload & _ & (buffer & Hb & (lengths & Hl & H)%result_bind_ok)%result_bind_ok)%result_bind_ok.
  apply result_bind_ok in H as ([] & _ & H). apply result_bind_ok in H as ([] & Hrb%rank_iff & H). apply result_bind_ok in H as ([] & Hrl%rank_iff & _).
  split; by eapply bound_output_rank.
Qed.

Lemma check_update_layer_ranks g d s kind u cc l : check_update_layer g d s kind u cc l = Ok tt -> update_ranks d s kind l.
Proof.
  unfold check_update_layer. destruct (StateBindingsFor d kind) as [|front rest] eqn:Hb; [done|].
  intros (state & Hs & H)%result_bind_ok. apply result_bind_ok in H as ([] & Hr%rank_iff & H).
  apply result_bind_ok in H as (s0 & _ & H). apply result_bind_ok in H as (c0 & _ & H). apply result_bind_ok in H as ([] & _ & H).
  pose proof (bound_output_rank s _ l state _ Hs Hr) as Hrank. destruct kind; try done; cbn in Hb; injection Hb as <- <-; cbn in *; try done.
  - split; [done|]. apply result_bind_ok in H as (conv & Hc & H). apply result_bind_ok in H as ([] & Hv%conv_value_rank & _). by eapply bound_output_rank.
  - split; [done|]. by eapply indexer_rank.
Qed.

Lemma session_ranks m s g u l : ValidateSession m s = Ok tt -> g ∈ manifest_groups m -> group_state_update g = Some u -> l ∈ group_layer_ids g ->
  update_ranks (manifest_decoder m) s (group_kind g) l.
Proof.
  unfold ValidateSession. rewrite each_iff, Forall_forall. intros H [i Hg]%list_elem_of_lookup Hu Hl.
  assert ((i, g) ∈ imap pair (manifest_groups m)) as Hin by (apply list_elem_of_lookup; exists i; by rewrite list_lookup_imap, Hg).
  destruct (result_bind_ok _ _ _ (H (i, g) Hin)) as (r & _ & Hs).
  unfold ValidateStateUpdateSession in Hs. rewrite Hu in Hs. apply result_bind_ok in Hs as (cc & _ & Hs). apply result_bind_ok in Hs as ([] & _ & Hs).
  rewrite each_iff, Forall_forall in Hs. by eapply check_update_layer_ranks, Hs.
Qed.

(** ** Sessions are validated without undefined behaviour *)

(** Extents and ratios of a realistic size. *)
Definition dim_bound : Z := 268435456.
Record session_bounded (s : SessionInfo) : Prop := mk_session_bounded
  { sb_outputs : forall name shape, GetOutputShape s name = Some shape -> Forall (fun z => - dim_bound <= z <= dim_bound) shape }.

Definition update_bounded (u : StateUpdate) : Prop := Z.abs (update_key_head_count u) <= int_max /\ update_compress_ratio u <= 2 ^ 30 - 1.

Lemma dim_ok t i : (i < length (meta_shape t))%nat -> exists z, dim t i = Ok z /\ z ∈ meta_shape t.
Proof.
  intros Hi. apply lookup_lt_is_Some in Hi as [z Hz]. exists z. unfold dim. rewrite Hz. split; [done|]. by eapply list_elem_of_lookup_2.
Qed.

Lemma dim_total t i : (i < length (meta_shape t))%nat -> is_total (dim t i).
Proof. intros (z & -> & _)%dim_ok. done. Qed.

Lemma fits_ok b z : - b - 1 <= z <= b -> fits b z = Ok z.
Proof. intros [H1 H2]. unfold fits. by rewrite (proj2 (Z.leb_le _ _) H1), (proj2 (Z.leb_le _ _) H2). Qed.

Lemma rank_bind_total {B} g t n (k : unit -> checked B) : (length (meta_shape t) = n -> is_total (k tt)) -> is_total (ValidateRank g t n ≫= k).
Proof. intros H. apply total_bind; [apply reject_total|]. intros [] Hr. apply H. by apply rank_iff in Hr. Qed.

Lemma dim_bind_total {B} t i n (k : Z -> checked B) : length (meta_shape t) = n -> (i < n)%nat -> (forall z, z ∈ meta_shape t -> is_total (k z)) -> is_total (dim t i ≫= k).
Proof. intros Hn Hi H. destruct (dim_ok t i) as (z & -> & Hz); [by rewrite Hn|]. by apply H. Qed.

Lemma output_metadata_total s name : is_total (output_metadata s name).
Proof. unfold output_metadata. totals. Qed.
Lemma input_metadata_total s name : is_total (input_metadata s name).
Proof. unfold input_metadata. totals. Qed.
#[export] Hint Resolve output_metadata_total input_metadata_total : totals.
Lemma get_output_total g s template l : is_total (get_output g s template l).
Proof. unfold get_output. totals. Qed.
Lemma bound_output_total s template l : is_total (bound_output s template l).
Proof. unfold bound_output. totals. Qed.
#[export] Hint Resolve get_output_total bound_output_total : totals.

Section session_total.
Context (d : Decoder) (s : SessionInfo) (Hs : session_bounded s).

Lemma output_bounded name t : output_metadata s name = Ok t -> Forall (fun z => - dim_bound <= z <= dim_bound) (meta_shape t).
Proof using Hs.
  intros (ty & _ & (shape & Hsh & [= <-])%result_bind_ok)%result_bind_ok. cbn. destruct (GetOutputShape s name) as [sh|] eqn:Hn; [|done]. injection Hsh as ->. by apply (sb_outputs _ Hs name).
Qed.

Lemma bound_output_bounded template l t : bound_output s template l = Ok t -> Forall (fun z => - dim_bound <= z <= dim_bound) (meta_shape t).
Proof using Hs. intros (name & _ & H)%result_bind_ok. by eapply output_bounded. Qed.

Lemma conv_value_total g u conv template l : is_total (check_conv_value g s u conv template l).
Proof.
  unfold check_conv_value. apply rank_bind_total. intros Hc. apply total_bind; [auto with totals|]. intros v _. apply rank_bind_total. intros Hv.
  apply total_bind; [auto with totals|]. intros _ _. repeat (eapply dim_bind_total; [eassumption|lia|]; intros ? _). auto with totals.
Qed.

Lemma tokens_total g u state l : length (meta_shape state) = 2%nat -> is_total (check_tokens g d s u state l).
Proof.
  intros Hst. unfold check_tokens. case_bool_decide; [done|]. apply total_bind; [auto with totals|]. intros t _. apply rank_bind_total. intros Ht.
  repeat (eapply dim_bind_total; [eassumption|lia|]; intros ? _). auto with totals.
Qed.

Lemma capsule_total g u state l : update_bounded u -> 1 <= update_capacity u <= MaxStateUpdateCapacity -> length (meta_shape state) = 4%nat ->
  Forall (fun z => - dim_bound <= z <= dim_bound) (meta_shape state) -> is_total (check_capsule g d s u state l).
Proof.
  intros [Hh _] Hcap Hst Hb. unfold check_capsule. apply total_bind; [auto with totals|]. intros c _. apply rank_bind_total. intros Hc. apply total_bind; [auto with totals|]. intros _ _.
  eapply (dim_bind_total state 0); [done|lia|]. intros s0 _. eapply (dim_bind_total c 0); [done|lia|]. intros c0 _. apply total_bind; [auto with totals|]. intros _ _.
  rewrite Forall_forall in Hb.
  eapply (dim_bind_total state 1); [done|lia|]. intros s1 H1%Hb. eapply (dim_bind_total state 2); [done|lia|]. intros s2 H2%Hb. eapply (dim_bind_total state 3); [done|lia|]. intros s3 H3%Hb.
  unfold dim_bound, int_max, MaxStateUpdateCapacity in *.
  assert (Z.abs (update_key_head_count u * s3) <= 2147483647 * 268435456) as Hk by (rewrite Z.abs_mul; apply Z.mul_le_mono_nonneg; lia).
  assert (Z.abs (s1 * s2) <= 268435456 * 268435456) as Hv by (rewrite Z.abs_mul; apply Z.mul_le_mono_nonneg; lia).
  rewrite (fits_ok int64_max (update_key_head_count u * s3)) by (unfold int64_max; lia). cbn [mbind outcome_bind]. rewrite (fits_ok int64_max (s1 + _)) by (unfold int64_max; lia).
  cbn [mbind outcome_bind]. rewrite (fits_ok int64_max (s1 * s2)) by (unfold int64_max; lia). cbn [mbind outcome_bind]. rewrite (fits_ok int64_max (_ + s1 * s2)) by (unfold int64_max; lia).
  cbn [mbind outcome_bind]. set (x := s1 + update_key_head_count u * s3 + s1 * s2).
  assert (Z.abs (update_capacity u * x) <= 8 * (268435456 + 2147483647 * 268435456 + 268435456 * 268435456)) as Hx by (rewrite Z.abs_mul; apply Z.mul_le_mono_nonneg; lia).
  rewrite (fits_ok int64_max (update_capacity u * x)) by (unfold int64_max; lia). cbn [mbind outcome_bind]. eapply (dim_bind_total c 1); [done|lia|]. intros c1 _. auto with totals.
Qed.

Lemma indexer_total g u state l : update_bounded u -> 0 < update_compress_ratio u -> length (meta_shape state) = 3%nat -> is_total (check_indexer g d s u state l).
Proof.
  intros [_ Hr] Hpos Hst. unfold check_indexer. do 3 (apply total_bind; [auto with totals|]; intros ? _). apply rank_bind_total. intros Hp. apply rank_bind_total. intros Hb. apply rank_bind_total. intros Hl.
  repeat (eapply dim_bind_total; [eassumption|lia|]; intros ? _). apply total_bind; [auto with totals|]. intros _ _.
  rewrite (fits_ok int_max (2 * update_compress_ratio u)) by (unfold int_max; lia). cbn [mbind outcome_bind]. rewrite (fits_ok int_max (2 * _ - 1)) by (unfold int_max; lia). cbn [mbind outcome_bind].
  auto with totals.
Qed.

Lemma update_layer_total g kind u cc l : update_ok d kind u -> update_bounded u -> length (meta_shape cc) = 1%nat -> is_total (check_update_layer g d s kind u cc l).
Proof using Hs.
  intros Hok Hu Hcc. unfold check_update_layer. destruct (StateBindingsFor d kind) as [|front rest] eqn:Hb; [by destruct Hok as [Hk _ _ _ _ _]; destruct kind|].
  apply total_bind; [auto with totals|]. intros state Hst. apply rank_bind_total. intros Hr.
  assert (2 <= length (meta_shape state))%nat as Hr2 by (rewrite Hr; destruct kind; cbn; lia).
  eapply dim_bind_total; [done|lia|]. intros s0 _. eapply dim_bind_total; [exact Hcc|lia|]. intros c0 _. apply total_bind; [auto with totals|]. intros _ _.
  destruct Hok as [Hk Hcap _ _ _ Hratio]. destruct kind; try done; cbn in Hb, Hr; injection Hb as <- <-; cbn [StateUpdateKindFor].
  - apply conv_value_total.
  - apply capsule_total; try done. by eapply bound_output_bounded.
  - cbn. apply total_bind; [auto with totals|]. intros conv _. apply total_bind; [apply conv_value_total|]. intros _ _. by apply tokens_total.
  - by apply indexer_total.
Qed.
End session_total.

Lemma capture_count_rank g d s cc : check_capture_count g d s = Ok cc -> length (meta_shape cc) = 1%nat.
Proof.
  unfold check_capture_count. intros H. apply result_bind_ok in H as ([] & _ & H). apply result_bind_ok in H as (cc' & _ & H). apply result_bind_ok in H as ([] & _ & H).
  apply result_bind_ok in H as ([] & Hr%rank_iff & H). by injection H as <-.
Qed.

Lemma check_active_total g d s : is_total (check_active g d s).
Proof.
  unfold check_active. case_bool_decide; [done|]. do 3 (apply total_bind; [auto with totals|]; intros ? _). apply rank_bind_total. intros Hr.
  eapply dim_bind_total; [done|lia|]. intros ? _. auto with totals.
Qed.

Lemma session_total d m s : make_ModelStateManifest d = Ok m -> session_bounded s -> Forall update_bounded (declared_updates (manifest_groups m)) ->
  is_total (ValidateSession m s).
Proof.
  intros ([] & Hc & [= <-])%result_bind_ok Hs Hu. cbn in Hu. unfold ValidateSession. cbn [manifest_groups manifest_decoder]. apply ValidateConfig_iff in Hc.
  destruct (state_groups d) as [gs|]; [|done]. cbn in *. destruct Hc as [_ Hgs _ _ _ _ _].
  assert (forall gi, gi ∈ imap pair gs -> is_total (check_group_session d s gi)) as Hall.
  { intros [g group] [i Hi]%list_elem_of_lookup. rewrite list_lookup_imap in Hi. destruct (gs !! i) as [group'|] eqn:Hg; [|done]. injection Hi as <- <-.
    unfold check_group_session. apply total_bind. { unfold check_binding_layer, ValidateCompatiblePair, ValidatePagedGeometry. totals. }
    intros _ _. unfold ValidateStateUpdateSession. destruct (group_state_update group') as [u|] eqn:Hu'; [|done].
    apply total_bind; [unfold check_capture_count, ValidateRank; totals|]. intros cc Hcc%capture_count_rank. apply total_bind; [apply check_active_total|]. intros _ _.
    apply each_total. intros l. apply update_layer_total; [done|..|done].
    - rewrite Forall_lookup in Hgs. by apply (gk_update _ _ (Hgs _ _ Hg)).
    - rewrite Forall_forall in Hu. apply Hu. apply list_elem_of_omap. exists group'. split; [by eapply list_elem_of_lookup_2|done]. }
  revert Hall. generalize (imap pair gs). intros l Hall. induction l as [|x l IH]; [done|]. cbn. apply total_bind; [apply Hall; by left|]. intros _ _. apply IH. intros; apply Hall. by right.
Qed.
