(* ===== verification/FixedStateSpec.v ===== *)
(** * Tensors of the fixed decoder state

    Models the host-only part of [engine/fixed_state_pool.{h,cpp}]: the checked size
    arithmetic, the geometry of a binding, the tensor specifications the pool builds from
    the model's state groups, and the views of one reservation.  Sizes are 64-bit naturals. *)

From S2P Require Import Prelude RequestIndex StateManifest StateManifestProofs.
From stdpp Require Import strings pretty.

Open Scope N_scope.

(** ** Errors *)

Inductive FixedStateError : Type :=
  | ExceedsMemory | MismatchedTypes | NoBatchDimension | MismatchedRanks | ZeroBatch | AsymmetricBatch
  | DynamicDimension (axis : nat) | IncompatibleGeometry (axis : nat) | UnsupportedType | NotFixedGroup
  | MissingPlaceholder | UnknownTensor | ManifestRejected | ConvElementSize | IndexerElementSize | PleElementSize
  | NoModel | ZeroCapacity | CapacityTooLarge | NoDevice | InconsistentBatch | DynamicUpdate | NoBindings
  | InconsistentUpdates | NotTransactional | NoCompactReplay | StaticBatch | PadNotInt64 | IndexFailure (e : IndexError)
  | DeviceFailure | Unhealthy | LiveReservation | ForeignHandle | StaleHandle | NoCommittedState | NoReclamation
  | CheckpointGenerations | ReclaimDidNotRelease | CaptureFailed | ForeignCheckpoint | StaleCheckpoint
  | NoRequestIdentity | NotCommittedOwner | EmptyReservation | ExceedsCapacity | UpdatesDisabled | UpdatesUndeclared
  | CaptureTooLarge | ReservationIdsExhausted | InvalidRequest | CheckpointCoversTarget | ResidentCheckpoint
  | SlotGenerations | NoFreeSlot | NotCapturing | NoLongerReserved | RowOutOfRange | BadKeptTokens | TransitionMismatch
  | PrefixAlreadySet | RejectsTooMany | NotReservedForCommit | NotActive | ChangedAfterReserve | GenerationExhausted
  | TokensRegress | InvalidLengths | ReplayTooLong | DiscardCommitted.

Abbreviation result := (outcome FixedStateError).

(** ** Sizes *)

Definition CheckedMultiply (left right : N) : result N :=
  if negb (left =? 0) && (size_max / left <? right) then Throw ExceedsMemory else Ok (u64_mul left right).

Definition CheckedAdd (left right : N) : result N :=
  if size_max - left <? right then Throw ExceedsMemory else Ok (u64_add left right).

Definition SizeOf (type : N) : result N :=
  match type with
  | 2 => Ok 1 | 3 => Ok 1 | 4 => Ok 2 | 5 => Ok 2 | 12 => Ok 4 | 6 => Ok 4 | 13 => Ok 8 | 7 => Ok 8
  | 9 => Ok 1 | 1 => Ok 4 | 11 => Ok 8 | 10 => Ok 2 | 16 => Ok 2 | 17 => Ok 1 | 19 => Ok 1
  | _ => Throw UnsupportedType
  end.

(** ** Geometry of a binding *)

Record Geometry : Type := mkGeometry
  { row_element_count : N;
    fixed_batch_size : N }.

Definition to_fixed (extent : Z) : N := if (0 <? extent)%Z then Z.to_N extent else 0.

(** The loop over the axes after the batch axis. *)
Fixpoint row_elements (axis : nat) (input output : list Z) (count : N) : result N :=
  match input, output with
  | [], _ => Ok count
  | i :: input', o :: output' =>
    _ ← reject_if (i <=? 0)%Z (DynamicDimension axis);
    _ ← reject_if (negb (o =? i)%Z) (IncompatibleGeometry axis);
    count' ← CheckedMultiply count (u64_of_Z i);
    row_elements (S axis) input' output' count'
  | _ :: _, [] => Undefined
  end.

Definition ValidateFixedStateGeometry (input_type : N) (input_shape : list Z) (output_type : N)
    (output_shape : list Z) : result Geometry :=
  _ ← reject_if (negb (input_type =? output_type)) MismatchedTypes;
  _ ← reject_if (length input_shape =? 0)%nat NoBatchDimension;
  _ ← reject_if (negb (length input_shape =? length output_shape)%nat) MismatchedRanks;
  match input_shape, output_shape with
  | i :: inputs, o :: outputs =>
    _ ← reject_if ((i =? 0)%Z || (o =? 0)%Z) ZeroBatch;
    let input_fixed := to_fixed i in
    let output_fixed := to_fixed o in
    _ ← reject_if (negb (input_fixed =? 0) && negb (output_fixed =? 0) && negb (input_fixed =? output_fixed)) AsymmetricBatch;
    count ← row_elements 1 inputs outputs 1;
    Ok (mkGeometry count (if negb (input_fixed =? 0) then input_fixed else output_fixed))
  | _, _ => Undefined
  end.

(** ** Templates of the fixed state *)

Definition ExpandBinding (binding : string) (layer_id : Z) : result string :=
  or_throw MissingPlaceholder (expand_placeholder binding layer_id).

Record FixedStateTemplate : Type := mkTemplate
  { template_input : string;
    template_output : string;
    initialize_to_ple_token_pad_id : bool;
    template_share : bool }.

Definition FixedStateTemplates (d : Decoder) (kind : StateGroupKind) : result (list FixedStateTemplate) :=
  match kind with
  | FixedConv => Ok [mkTemplate (past_conv_names d) (present_conv_names d) false false]
  | FixedRecurrent => Ok [mkTemplate (past_recurrent_names d) (present_recurrent_names d) false false]
  | FixedPle =>
    Ok [mkTemplate (past_ple_token_names d) (present_ple_token_names d) true false;
        mkTemplate (past_ple_conv_names d) (present_ple_conv_names d) false false]
  | FixedIndexer =>
    Ok [mkTemplate (past_indexer_names d) (present_indexer_names d) false true;
        mkTemplate (past_indexer_kv_buffer_names d) (present_indexer_kv_buffer_names d) false false;
        mkTemplate (past_indexer_state_lengths_names d) (present_indexer_state_lengths_names d) false false]
  | InvalidGroup | PagedKeyValue => Throw NotFixedGroup
  end.

Definition is_fixed (kind : StateGroupKind) : bool :=
  match kind with FixedConv | FixedRecurrent | FixedPle | FixedIndexer => true | InvalidGroup | PagedKeyValue => false end.

Definition binding_row_bytes (s : SessionInfo) (t : FixedStateTemplate) (layer_id : Z) : result N :=
  input ← ExpandBinding (template_input t) layer_id;
  output ← ExpandBinding (template_output t) layer_id;
  type ← or_throw UnknownTensor (GetInputDataType s input);
  input_shape ← or_throw UnknownTensor (GetInputShape s input);
  output_type ← or_throw UnknownTensor (GetOutputDataType s output);
  output_shape ← or_throw UnknownTensor (GetOutputShape s output);
  geometry ← ValidateFixedStateGeometry type input_shape output_type output_shape;
  size ← SizeOf type;
  CheckedMultiply (row_element_count geometry) size.

Definition StateBankBytes (d : Decoder) (s : SessionInfo) (groups : list StateGroup) (capacity : N) : result N :=
  fold_result (fun group bytes =>
    if is_fixed (group_kind group) then
      templates ← FixedStateTemplates d (group_kind group);
      fold_result (fun template bytes =>
        fold_result (fun layer_id bytes =>
          row_bytes ← binding_row_bytes s template layer_id;
          bank ← CheckedMultiply capacity row_bytes;
          CheckedAdd bytes bank) (group_layer_ids group) bytes) templates bytes
    else Ok bytes) groups 0.

(** ** Tensor specifications *)

Record StateUpdateOutputSpec : Type := mkUpdateOutput
  { output_spec_name : string;
    output_spec_type : N;
    output_spec_shape : list Z;
    output_spec_row_bytes : N }.

Definition no_name : string := "".
Definition no_update_output : StateUpdateOutputSpec := mkUpdateOutput no_name 0 [] 0.

(** What a compact update of the tensor looks like. *)
Record UpdateSpec : Type := mkUpdateSpec
  { state_update_kind : StateUpdateKind;
    state_update_enabled : bool;
    state_update_capacity : N;
    state_update_capture_count_name : string;
    state_update_active_name : string;
    state_update_value : StateUpdateOutputSpec;
    state_update_capsule : StateUpdateOutputSpec;
    state_update_row_bytes : N;
    state_update_channel_count : N;
    state_update_state_width : N;
    state_update_key_width : N;
    state_update_key_head_count : N;
    state_update_state_capacity : N;
    state_update_compress_ratio : N }.

Definition no_update : UpdateSpec :=
  mkUpdateSpec InvalidUpdate false 0 "" "" no_update_output no_update_output 0 0 0 0 0 0 0.

Record TensorSpec : Type := mkTensor
  { tensor_kind : StateGroupKind;
    layer_id : Z;
    component_index : nat;
    input_name : string;
    output_name : string;
    data_type : N;
    session_shape : list Z;
    row_bytes : N;
    initial_int64_value : option Z;
    share_past_present_buffer : bool;
    update : UpdateSpec }.

(** The product of the axes after the first; [load_update_output] rejects a dynamic one. *)
Fixpoint update_row_elements (shape : list Z) (count : N) : result N :=
  match shape with
  | [] => Ok count
  | extent :: shape' =>
    _ ← reject_if (extent <=? 0)%Z DynamicUpdate;
    count' ← CheckedMultiply count (u64_of_Z extent);
    update_row_elements shape' count'
  end.

Definition load_update_output (s : SessionInfo) (layer_id : Z) (template : string) : result StateUpdateOutputSpec :=
  if bool_decide (template = "") then Ok no_update_output
  else
    name ← ExpandBinding template layer_id;
    type ← or_throw UnknownTensor (GetOutputDataType s name);
    shape ← or_throw UnknownTensor (GetOutputShape s name);
    elements ← update_row_elements (tail shape) 1;
    size ← SizeOf type;
    bytes ← CheckedMultiply elements size;
    Ok (mkUpdateOutput name type shape bytes).

Definition update_kind_of (kind : StateGroupKind) (component : nat) : StateUpdateKind :=
  match kind with
  | FixedConv => CausalConv
  | FixedRecurrent => GatedDeltaNet
  | FixedPle => if (component =? 0)%nat then Ple else CausalConv
  | _ => if (component =? 0)%nat then Indexer else InvalidUpdate
  end.

Definition value_template (d : Decoder) (kind : StateGroupKind) (component : nat) : string :=
  match kind, component with
  | FixedConv, _ => state_update_conv_value_names d
  | FixedPle, 0%nat => state_update_ple_token_names d
  | FixedPle, 1%nat => state_update_ple_conv_value_names d
  | FixedIndexer, 0%nat => state_update_indexer_names d
  | _, _ => ""
  end.

Definition capsule_template (d : Decoder) (kind : StateGroupKind) : string :=
  match kind with FixedRecurrent => state_update_recurrent_capsule_names d | _ => "" end.

(** [session_shape[axis]], which the code does not check. *)
Definition extent (shape : list Z) (axis : nat) : result N :=
  match shape !! axis with Some z => Ok (u64_of_Z z) | None => Undefined end.

Definition ValidateFixedStateUpdateElementSize (kind : StateUpdateKind) (element_size : N) : result unit :=
  let two_or_four := (element_size =? 2) || (element_size =? 4) in
  _ ← reject_if (bool_decide (kind = CausalConv) && negb two_or_four) ConvElementSize;
  _ ← reject_if (bool_decide (kind = Indexer) && negb two_or_four) IndexerElementSize;
  reject_if (bool_decide (kind = Ple) && negb (two_or_four || (element_size =? 8))) PleElementSize.

(** The channels, width and capacity of the state a replay rewrites. *)
Definition update_geometry (kind : StateUpdateKind) (elements : N) (shape : list Z) (compress_ratio : Z) : result (N * N * N * N) :=
  match kind with
  | Ple => Ok (1, elements, 0, 0)
  | Indexer =>
    width ← extent shape 2; capacity ← extent shape 1;
    Ok (0, width, capacity, u64_of_Z compress_ratio)
  | InvalidUpdate => Ok (0, 0, 0, 0)
  | _ => channels ← extent shape 1; width ← extent shape 2; Ok (channels, width, 0, 0)
  end.

Definition update_spec (d : Decoder) (s : SessionInfo) (kind : StateGroupKind) (layer_id : Z) (component : nat)
    (elements element_size : N) (shape : list Z) (u : StateUpdate) : result UpdateSpec :=
  let update_kind := update_kind_of kind component in
  value ← load_update_output s layer_id (value_template d kind component);
  capsule ← load_update_output s layer_id (capsule_template d kind);
  bytes ← CheckedAdd (output_spec_row_bytes value) (output_spec_row_bytes capsule);
  '(channels, width, capacity, ratio) ← update_geometry update_kind elements shape (update_compress_ratio u);
  _ ← ValidateFixedStateUpdateElementSize update_kind element_size;
  '(key_width, key_heads) ←
    (if bool_decide (update_kind = GatedDeltaNet)
     then w ← extent shape 3; Ok (w, u64_of_Z (update_key_head_count u)) else Ok (0, 0));
  Ok (mkUpdateSpec update_kind (update_enabled u) (u64_of_Z (update_capacity u)) (in_state_update_capture_count d)
        (in_state_update_active d) value capsule bytes channels width key_width key_heads capacity ratio).

(** One round of the constructor's inner loop: the tensor, and the batch extent it fixes. *)
Definition tensor_spec (d : Decoder) (s : SessionInfo) (is_cuda : bool) (g : StateGroup) (layer_id : Z)
    (component : nat) (t : FixedStateTemplate) (fixed_session_batch_size : N) : result (TensorSpec * N) :=
  input ← ExpandBinding (template_input t) layer_id;
  output ← ExpandBinding (template_output t) layer_id;
  type ← or_throw UnknownTensor (GetInputDataType s input);
  shape ← or_throw UnknownTensor (GetInputShape s input);
  output_type ← or_throw UnknownTensor (GetOutputDataType s output);
  output_shape ← or_throw UnknownTensor (GetOutputShape s output);
  geometry ← ValidateFixedStateGeometry type shape output_type output_shape;
  let batch := fixed_batch_size geometry in
  _ ← reject_if (negb (batch =? 0) && negb (fixed_session_batch_size =? 0) && negb (fixed_session_batch_size =? batch))
        InconsistentBatch;
  size ← SizeOf type;
  bytes ← CheckedMultiply (row_element_count geometry) size;
  u ← match group_state_update g with
      | Some u => update_spec d s (group_kind g) layer_id component (row_element_count geometry) size shape u
      | None => Ok no_update
      end;
  Ok (mkTensor (group_kind g) layer_id component input output type shape bytes
        (if initialize_to_ple_token_pad_id t then Some (ple_token_pad_id d) else None)
        (template_share t && past_present_share_buffer d && is_cuda) u,
      if negb (batch =? 0) then batch else fixed_session_batch_size).

(** Bytes the pool accounts for, and the batch extent its tensors agree on. *)
Record Footprint : Type := mkFootprint
  { persistent : N;
    zeroing_scratch : N;
    session_batch : N;
    specs : list TensorSpec }.

Definition add_tensor (d : Decoder) (s : SessionInfo) (is_cuda : bool) (capacity checkpoints : N) (g : StateGroup)
    (layer_id : Z) (c : nat * FixedStateTemplate) (f : Footprint) : result Footprint :=
  '(spec, batch) ← tensor_spec d s is_cuda g layer_id c.1 c.2 (session_batch f);
  rows ← CheckedMultiply capacity (row_bytes spec);
  banks ← CheckedMultiply rows (if share_past_present_buffer spec then 2 else 4);
  p1 ← CheckedAdd (persistent f) banks;
  checkpoint_bytes ← CheckedMultiply checkpoints (row_bytes spec);
  p2 ← CheckedAdd p1 checkpoint_bytes;
  update_bytes ← CheckedMultiply capacity (state_update_row_bytes (update spec));
  p3 ← CheckedAdd p2 update_bytes;
  z ← CheckedAdd (zeroing_scratch f) (row_bytes spec);
  Ok (mkFootprint p3 z batch (specs f ++ [spec])).

Definition collect_tensors (d : Decoder) (s : SessionInfo) (is_cuda : bool) (capacity checkpoints : N)
    (groups : list StateGroup) : result Footprint :=
  fold_result (fun g f =>
    if is_fixed (group_kind g) then
      templates ← FixedStateTemplates d (group_kind g);
      fold_result (fun layer_id f =>
        fold_result (add_tensor d s is_cuda capacity checkpoints g layer_id)
          (imap pair templates) f) (group_layer_ids g) f
    else Ok f) groups (mkFootprint 0 0 0 []).

(** Every tensor declares the same compact update contract. *)
Definition same_contract (a b : UpdateSpec) : bool :=
  eqb (state_update_enabled a) (state_update_enabled b) &&
  (state_update_capacity a =? state_update_capacity b) &&
  bool_decide (state_update_capture_count_name a = state_update_capture_count_name b) &&
  bool_decide (state_update_active_name a = state_update_active_name b).

(** ** Views of one reservation

    A buffer of a tensor: one of its two banks, the checkpoint rows, the zero row, or one of
    the staging buffers.  A tensor that shares its past and present buffers has one bank and
    one staging buffer under both names. *)

Inductive buffer : Type :=
  | Bank (second : bool) | CheckpointBank | ZeroRow | GatheredStaging | OutputStaging | UpdateValue | UpdateCapsule.
#[global] Instance buffer_eq_dec : EqDecision buffer.
Proof. solve_decision. Defined.

Record loc : Type := mkLoc { loc_tensor : nat; loc_buffer : buffer; loc_row : nat }.
#[global] Instance loc_eq_dec : EqDecision loc.
Proof. solve_decision. Defined.

Definition bank (spec : TensorSpec) (b : bool) : buffer := Bank (b && negb (share_past_present_buffer spec)).
Definition output_staging (spec : TensorSpec) : buffer :=
  if share_past_present_buffer spec then GatheredStaging else OutputStaging.

(** A tensor over consecutive rows of a buffer. *)
Record view : Type := mkView { view_tensor : nat; view_buffer : buffer; view_first : nat; view_rows : nat }.
Definition view_at (v : view) (row : nat) : loc := mkLoc (view_tensor v) (view_buffer v) (view_first v + row).

Record FixedStateBinding : Type := mkBinding
  { binding_kind : StateGroupKind;
    binding_layer_id : Z;
    binding_input_name : string; binding_input : view;
    binding_output_name : string; binding_output : view;
    binding_update_kind : StateUpdateKind;
    binding_update_capacity : N;
    binding_capture_count_name : option string;
    binding_active_name : option string;
    binding_value : option (string * view);
    binding_capsule : option (string * view) }.

Record FixedStateReservationViews : Type := mkViews
  { gathered_inputs : list view;
    staged_outputs : list view;
    has_capture_count : bool;
    has_active : bool;
    state_update_tensors : list (option view * option view);
    bindings : list FixedStateBinding;
    staging_bytes : N }.

Record ViewKey : Type := mkViewKey
  { key_rows : nat;
    key_first_direct_slot : nat;
    key_direct_active_bank : bool;
    key_direct : bool;
    key_captures : bool }.
#[global] Instance ViewKey_eq_dec : EqDecision ViewKey.
Proof. solve_decision. Defined.

Definition kMaxCachedViews : nat := 16.

(** The model-wide update contract: capacity, and the names of its two inputs. *)
Record Contract : Type := mkContract
  { contract_enabled : bool;
    contract_capacity : N;
    contract_capture_count_name : string;
    contract_active_name : string }.

Definition update_view (captures : bool) (rows t : nat) (b : buffer) (o : StateUpdateOutputSpec) : result (option view) :=
  if negb captures || bool_decide (output_spec_name o = "") then Ok None
  else
    _ ← CheckedMultiply (N.of_nat rows) (output_spec_row_bytes o);
    Ok (Some (mkView t b 0 rows)).

Definition named {A} (o : StateUpdateOutputSpec) : option A -> option (string * A) := fmap (pair (output_spec_name o)).

Section views.
Context (c : Contract) (rows : nat) (direct_layout : bool) (direct_active_bank : bool)
  (first_direct_slot : nat) (captures : bool).

Definition capture_count_name : option string :=
  if negb (contract_capacity c =? 0) then Some (contract_capture_count_name c) else None.
Definition active_name : option string :=
  if negb (contract_capacity c =? 0) && negb (bool_decide (contract_active_name c = "")) then Some (contract_active_name c) else None.

(** One round of the loop over the tensors. *)
Definition add_view (ts : nat * TensorSpec) (v : FixedStateReservationViews) : result FixedStateReservationViews :=
  let '(t, spec) := ts in
  let u := update spec in
  _ ← CheckedMultiply (N.of_nat rows) (row_bytes spec);
  let first := if direct_layout then first_direct_slot else 0%nat in
  let gathered := mkView t (if direct_layout then bank spec direct_active_bank else GatheredStaging) first rows in
  let staged := mkView t (if direct_layout then bank spec (negb direct_active_bank) else output_staging spec) first rows in
  value ← update_view captures rows t UpdateValue (state_update_value u);
  capsule ← update_view captures rows t UpdateCapsule (state_update_capsule u);
  one ← CheckedMultiply (N.of_nat rows) (row_bytes spec);
  both ← CheckedMultiply one 2;
  bytes ← CheckedAdd (staging_bytes v) both;
  bytes' ← (if captures then
              extra ← CheckedMultiply (N.of_nat rows) (state_update_row_bytes u); CheckedAdd bytes extra
            else Ok bytes);
  let b := mkBinding (tensor_kind spec) (layer_id spec) (input_name spec) gathered (output_name spec) staged
             (state_update_kind u) (state_update_capacity u) capture_count_name active_name
             (named (state_update_value u) value) (named (state_update_capsule u) capsule) in
  Ok (mkViews (gathered_inputs v ++ [gathered]) (staged_outputs v ++ [staged]) (has_capture_count v) (has_active v)
        (if captures then state_update_tensors v ++ [(value, capsule)] else state_update_tensors v)
        (bindings v ++ [b]) bytes').

(** The capture counts and the flag that switches captures on. *)
Definition first_views : result FixedStateReservationViews :=
  if negb (contract_capacity c =? 0) then
    counts ← CheckedMultiply (N.of_nat rows) 4;
    bytes ← CheckedAdd 0 counts;
    if negb (bool_decide (contract_active_name c = "")) then
      bytes' ← CheckedAdd bytes 4; Ok (mkViews [] [] true true [] [] bytes')
    else Ok (mkViews [] [] true false [] [] bytes)
  else Ok (mkViews [] [] false false [] [] 0).

Definition BuildReservationViews (tensors : list TensorSpec) : result FixedStateReservationViews :=
  v ← first_views; fold_result add_view (imap pair tensors) v.
End views.

Definition PlannedStagingBytes (c : Contract) (tensors : list TensorSpec) (row_count : nat) (captures : bool) : result N :=
  bytes ← (if negb (contract_capacity c =? 0) then
             counts ← CheckedMultiply (N.of_nat row_count) 4;
             bytes ← CheckedAdd 0 counts;
             if negb (bool_decide (contract_active_name c = "")) then CheckedAdd bytes 4 else Ok bytes
           else Ok 0);
  fold_result (fun spec bytes =>
    one ← CheckedMultiply (N.of_nat row_count) (row_bytes spec);
    both ← CheckedMultiply one 2;
    bytes' ← CheckedAdd bytes both;
    if captures then
      extra ← CheckedMultiply (N.of_nat row_count) (state_update_row_bytes (update spec)); CheckedAdd bytes' extra
    else Ok bytes') tensors bytes.

(** ** What the views are *)

Definition gathered_view (rows : nat) (direct bank_two : bool) (first : nat) (ts : nat * TensorSpec) : view :=
  mkView ts.1 (if direct then bank ts.2 bank_two else GatheredStaging) (if direct then first else 0%nat) rows.
Definition staged_view (rows : nat) (direct bank_two : bool) (first : nat) (ts : nat * TensorSpec) : view :=
  mkView ts.1 (if direct then bank ts.2 (negb bank_two) else output_staging ts.2) (if direct then first else 0%nat) rows.
Definition update_views (rows : nat) (ts : nat * TensorSpec) : option view * option view :=
  let at_ b o := if bool_decide (output_spec_name o = no_name) then None else Some (mkView ts.1 b 0 rows) in
  (at_ UpdateValue (state_update_value (update ts.2)), at_ UpdateCapsule (state_update_capsule (update ts.2))).

Lemma CheckedMultiply_total a b : is_total (CheckedMultiply a b).
Proof. unfold CheckedMultiply. by destruct (_ && _). Qed.

Lemma CheckedAdd_total a b : is_total (CheckedAdd a b).
Proof. unfold CheckedAdd. by destruct (_ <? _). Qed.
#[export] Hint Resolve CheckedMultiply_total CheckedAdd_total : totals.

Section view_facts.
Context (c : Contract) (rows : nat) (direct bank_two : bool) (first : nat) (captures : bool).

Lemma add_view_total ts v : is_total (add_view c rows direct bank_two first captures ts v).
Proof. destruct ts as [t spec]. unfold add_view, update_view. totals. Qed.

Lemma BuildReservationViews_total ts : is_total (BuildReservationViews c rows direct bank_two first captures ts).
Proof. unfold BuildReservationViews, first_views. pose proof add_view_total. totals. Qed.

Lemma update_view_spec t b o w : captures = true -> update_view captures rows t b o = Ok w ->
  w = if bool_decide (output_spec_name o = no_name) then None else Some (mkView t b 0 rows).
Proof.
  intros ->. unfold update_view. cbn [negb orb]. change "" with no_name. case_bool_decide; [by intros [= <-]|].
  by intros (? & _ & [= <-])%result_bind_ok.
Qed.

Lemma add_view_spec ts v v' : add_view c rows direct bank_two first captures ts v = Ok v' ->
  gathered_inputs v' = gathered_inputs v ++ [gathered_view rows direct bank_two first ts] /\
  staged_outputs v' = staged_outputs v ++ [staged_view rows direct bank_two first ts] /\
  state_update_tensors v' = (if captures then state_update_tensors v ++ [update_views rows ts] else state_update_tensors v).
Proof.
  destruct ts as [t spec]. unfold add_view. intros (? & _ & H)%result_bind_ok.
  apply result_bind_ok in H as (val & Hval & H). apply result_bind_ok in H as (cap & Hcap & H).
  repeat (apply result_bind_ok in H as (? & _ & H)). injection H as <-. cbn. split_and!; [done|done|].
  destruct captures eqn:Hc; [|done]. do 2 f_equal. rewrite <- Hc in Hval, Hcap.
  by rewrite (update_view_spec _ _ _ _ Hc Hval), (update_view_spec _ _ _ _ Hc Hcap).
Qed.

Lemma views_spec ts v : BuildReservationViews c rows direct bank_two first captures ts = Ok v ->
  gathered_inputs v = gathered_view rows direct bank_two first <$> imap pair ts /\
  staged_outputs v = staged_view rows direct bank_two first <$> imap pair ts /\
  (captures = true -> state_update_tensors v = update_views rows <$> imap pair ts).
Proof.
  unfold BuildReservationViews. intros (v0 & H0 & H)%result_bind_ok.
  assert (gathered_inputs v0 = [] /\ staged_outputs v0 = [] /\ state_update_tensors v0 = []) as (G & S & U).
  { unfold first_views in H0. destruct (negb _) in H0; [|by simplify_eq].
    apply result_bind_ok in H0 as (? & _ & H0). apply result_bind_ok in H0 as (? & _ & H0).
    destruct (negb _) in H0; [apply result_bind_ok in H0 as (? & _ & H0)|]; by simplify_eq. }
  assert (forall l w, fold_result (add_view c rows direct bank_two first captures) l w = Ok v ->
    gathered_inputs v = gathered_inputs w ++ (gathered_view rows direct bank_two first <$> l) /\
    staged_outputs v = staged_outputs w ++ (staged_view rows direct bank_two first <$> l) /\
    (captures = true -> state_update_tensors v = state_update_tensors w ++ (update_views rows <$> l))) as Hfold.
  { induction l as [|x l IH]; intros w; cbn; [intros [= <-]; by rewrite !app_nil_r|].
    intros (w1 & (G1 & S1 & U1)%add_view_spec & (G2 & S2 & U2)%IH)%result_bind_ok. rewrite G2, S2, G1, S1, <- !app_assoc.
    split_and!; [done|done|]. intros Hc. rewrite U2, U1, Hc, <- app_assoc by done. done. }
  destruct (Hfold _ _ H) as (H1 & H2 & H3). rewrite G, S in *. split_and!; [done|done|]. intros Hc. by rewrite H3, U.
Qed.
End view_facts.

(** Without direct bindings, neither the bank nor the first slot matters. *)
Lemma views_staged c rows b b' first first' captures ts :
  BuildReservationViews c rows false b first captures ts = BuildReservationViews c rows false b' first' captures ts.
Proof. reflexivity. Qed.
