(* ===== verification/FixedStatePool.v ===== *)
(** * The fixed-state pool

    Models [FixedStatePool] and [FixedStateReservation] of [engine/fixed_state_pool.{h,cpp}]:
    slots that hold the fixed decoder state of a request in one of two persistent banks, the
    reservation that gathers the visible state of a batch, stages the outputs of a step into
    the inactive banks and publishes them by flipping the banks, deferred replays of accepted
    drafts, checkpoints of prefixes, and release.

    Device memory is a function from locations (a row of a buffer of a tensor) to values.
    The device is asynchronous: a copy or replay stays in flight until the device is
    synchronized, and when an operation throws, every location in flight holds junk.  Which
    operations throw, and the junk they leave, is the list [faults] of the device, so that
    the theorems hold for every pattern of failures.  A reservation's pointer to its pool is
    a flag; the pool's pointer to its live reservation is the reservation's id. *)

From S2P Require Import Prelude RequestIndex EngineInvariants StateManifest StateManifestProofs FixedStateSpec.

Open Scope nat_scope.

(** ** The device *)

Inductive StateUpdateReplayKind : Type := ReplayCausalConv | ReplayGatedDeltaNet | ReplaySnapshot | ReplayIndexer.

(** The sibling rows of an indexer tensor: buffer and lengths, each with its destination. *)
Record IndexerSiblings : Type := mkSiblings
  { source_aux_state : loc; destination_aux_state : loc;
    source_lengths : loc; destination_lengths : loc;
    aux_capacity : N }.

Record StateUpdateReplayDesc : Type := mkReplay
  { replay_spec : TensorSpec;
    replay_kind : StateUpdateReplayKind;
    source_state : loc;
    destination_state : loc;
    replay_value : option loc;
    replay_capsule : option loc;
    kept_count : N;
    siblings : option IndexerSiblings }.

Definition destinations (d : StateUpdateReplayDesc) : list loc :=
  destination_state d :: match siblings d with Some s => [destination_aux_state s; destination_lengths s] | None => [] end.

Definition sources (d : StateUpdateReplayDesc) : list loc :=
  source_state d :: option_list (replay_value d) ++ option_list (replay_capsule d) ++
  match siblings d with Some s => [source_aux_state s; source_lengths s] | None => [] end.

Class DeviceInterface (V : Type) : Type := {
  SupportsOffsetTensorViews : bool;
  SupportsTransactionalFixedState : bool;
  SupportsCompactStateReplay : bool;
  device_is_cuda : bool;
  zero_value : V;
  filled_value : Z -> V;
  read_lengths : V -> Z * Z;
  (** The value a replay leaves in one of its destinations. *)
  replay : StateUpdateReplayDesc -> (loc -> V) -> loc -> V
}.

(** A replay reads its sources. *)
Class DeviceLaws (V : Type) `{!DeviceInterface V} : Prop := {
  replay_reads d m m' l : (forall a, a ∈ sources d -> m a = m' a) -> l ∈ destinations d -> replay d m l = replay d m' l
}.

(** ** Slots, checkpoints and the pool *)

Record Slot : Type := mkSlot
  { slot_request_id : N;
    slot_generation : N;
    state_generation : N;
    committed_tokens : nat;
    slot_reservation_id : N;
    active_bank : bool;
    ownership : FixedStateSlotOwnership }.

Definition empty_slot : Slot := mkSlot 0 0 0 0 0 false SlotFree.

Record PrefixCheckpointSlot : Type := mkCheckpointSlot
  { checkpoint_generation : N;
    checkpoint_token_count : nat;
    occupied : bool }.

Record FixedStatePrefixCheckpoint : Type := mkPrefixCheckpoint
  { cp_pool : N;
    cp_slot : nat;
    cp_generation : N;
    TokenCount : nat }.

Record FixedStateSlotHandle : Type := mkHandle
  { handle_pool : N;
    handle_request_id : N;
    handle_slot : nat;
    handle_generation : N }.

Record FixedStateCommittedState : Type := mkCommittedState
  { state_handle : FixedStateSlotHandle;
    state_committed_tokens : nat }.

Record FixedStateReservationRequest : Type := mkFixedRequest
  { fr_request_id : N;
    fr_target_tokens : nat;
    fr_capture_count : N;
    fr_prefix_checkpoint : option FixedStatePrefixCheckpoint }.

Record Device (V : Type) : Type := mkDevice
  { memory : loc -> V;
    in_flight : list loc;
    faults : list (option (loc -> V)) }.
Arguments mkDevice {V} _ _ _.
Arguments memory {V} _.
Arguments in_flight {V} _.
Arguments faults {V} _.

(** What never changes after construction. *)
Record PoolConfig : Type := mkPoolConfig
  { owner : N;
    capacity : nat;
    tensors : list TensorSpec;
    contract : Contract;
    persistent_bytes : N;
    zeroing_scratch_bytes : N }.

Record FixedStatePool (V : Type) : Type := mkPool
  { config : PoolConfig;
    device : Device V;
    active_staging_bytes : N;
    capture_count_staging : list Z;
    active_staging : Z;
    next_reservation_id : N;
    active_reservation_id : N;
    healthy : bool;
    active_reservation : option N;
    slots : list Slot;
    committed_index : RequestIndex;
    prefix_checkpoints : list PrefixCheckpointSlot;
    deferred_replay : list StateUpdateReplayDesc;
    view_cache : list (ViewKey * FixedStateReservationViews) }.
Arguments mkPool {V} _ _ _ _ _ _ _ _ _ _ _ _ _ _.
Arguments config {V} _.
Arguments device {V} _.
Arguments active_staging_bytes {V} _.
Arguments capture_count_staging {V} _.
Arguments active_staging {V} _.
Arguments next_reservation_id {V} _.
Arguments active_reservation_id {V} _.
Arguments healthy {V} _.
Arguments active_reservation {V} _.
Arguments slots {V} _.
Arguments committed_index {V} _.
Arguments prefix_checkpoints {V} _.
Arguments deferred_replay {V} _.
Arguments view_cache {V} _.

(** [s.field = v] for the fields that change. *)
#[global] Instance set_device {V} : Setter (@device V) := fun v p =>
    mkPool (config p) v (active_staging_bytes p) (capture_count_staging p) (active_staging p) (next_reservation_id
    p) (active_reservation_id p) (healthy p) (active_reservation p) (slots p) (committed_index p)
    (prefix_checkpoints p) (deferred_replay p) (view_cache p).
#[global] Instance set_active_staging_bytes {V} : Setter (@active_staging_bytes V) := fun v p =>
    mkPool (config p) (device p) v (capture_count_staging p) (active_staging p) (next_reservation_id p)
    (active_reservation_id p) (healthy p) (active_reservation p) (slots p) (committed_index p) (prefix_checkpoints
    p) (deferred_replay p) (view_cache p).
#[global] Instance set_capture_count_staging {V} : Setter (@capture_count_staging V) := fun v p =>
    mkPool (config p) (device p) (active_staging_bytes p) v (active_staging p) (next_reservation_id p)
    (active_reservation_id p) (healthy p) (active_reservation p) (slots p) (committed_index p) (prefix_checkpoints
    p) (deferred_replay p) (view_cache p).
#[global] Instance set_active_staging {V} : Setter (@active_staging V) := fun v p =>
    mkPool (config p) (device p) (active_staging_bytes p) (capture_count_staging p) v (next_reservation_id p)
    (active_reservation_id p) (healthy p) (active_reservation p) (slots p) (committed_index p) (prefix_checkpoints
    p) (deferred_replay p) (view_cache p).
#[global] Instance set_next_reservation_id {V} : Setter (@next_reservation_id V) := fun v p =>
    mkPool (config p) (device p) (active_staging_bytes p) (capture_count_staging p) (active_staging p) v
    (active_reservation_id p) (healthy p) (active_reservation p) (slots p) (committed_index p) (prefix_checkpoints
    p) (deferred_replay p) (view_cache p).
#[global] Instance set_active_reservation_id {V} : Setter (@active_reservation_id V) := fun v p =>
    mkPool (config p) (device p) (active_staging_bytes p) (capture_count_staging p) (active_staging p)
    (next_reservation_id p) v (healthy p) (active_reservation p) (slots p) (committed_index p) (prefix_checkpoints
    p) (deferred_replay p) (view_cache p).
#[global] Instance set_healthy {V} : Setter (@healthy V) := fun v p =>
    mkPool (config p) (device p) (active_staging_bytes p) (capture_count_staging p) (active_staging p)
    (next_reservation_id p) (active_reservation_id p) v (active_reservation p) (slots p) (committed_index p)
    (prefix_checkpoints p) (deferred_replay p) (view_cache p).
#[global] Instance set_active_reservation {V} : Setter (@active_reservation V) := fun v p =>
    mkPool (config p) (device p) (active_staging_bytes p) (capture_count_staging p) (active_staging p)
    (next_reservation_id p) (active_reservation_id p) (healthy p) v (slots p) (committed_index p)
    (prefix_checkpoints p) (deferred_replay p) (view_cache p).
#[global] Instance set_slots {V} : Setter (@slots V) := fun v p =>
    mkPool (config p) (device p) (active_staging_bytes p) (capture_count_staging p) (active_staging p)
    (next_reservation_id p) (active_reservation_id p) (healthy p) (active_reservation p) v (committed_index p)
    (prefix_checkpoints p) (deferred_replay p) (view_cache p).
#[global] Instance set_committed_index {V} : Setter (@committed_index V) := fun v p =>
    mkPool (config p) (device p) (active_staging_bytes p) (capture_count_staging p) (active_staging p)
    (next_reservation_id p) (active_reservation_id p) (healthy p) (active_reservation p) (slots p) v
    (prefix_checkpoints p) (deferred_replay p) (view_cache p).
#[global] Instance set_prefix_checkpoints {V} : Setter (@prefix_checkpoints V) := fun v p =>
    mkPool (config p) (device p) (active_staging_bytes p) (capture_count_staging p) (active_staging p)
    (next_reservation_id p) (active_reservation_id p) (healthy p) (active_reservation p) (slots p)
    (committed_index p) v (deferred_replay p) (view_cache p).
#[global] Instance set_deferred_replay {V} : Setter (@deferred_replay V) := fun v p =>
    mkPool (config p) (device p) (active_staging_bytes p) (capture_count_staging p) (active_staging p)
    (next_reservation_id p) (active_reservation_id p) (healthy p) (active_reservation p) (slots p)
    (committed_index p) (prefix_checkpoints p) v (view_cache p).
#[global] Instance set_view_cache {V} : Setter (@view_cache V) := fun v p =>
    mkPool (config p) (device p) (active_staging_bytes p) (capture_count_staging p) (active_staging p)
    (next_reservation_id p) (active_reservation_id p) (healthy p) (active_reservation p) (slots p)
    (committed_index p) (prefix_checkpoints p) (deferred_replay p) v.
#[global] Instance set_slot_request_id : Setter slot_request_id := fun v s =>
    mkSlot v (slot_generation s) (state_generation s) (committed_tokens s) (slot_reservation_id s) (active_bank s)
    (ownership s).
#[global] Instance set_slot_generation : Setter slot_generation := fun v s =>
    mkSlot (slot_request_id s) v (state_generation s) (committed_tokens s) (slot_reservation_id s) (active_bank s)
    (ownership s).
#[global] Instance set_state_generation : Setter state_generation := fun v s =>
    mkSlot (slot_request_id s) (slot_generation s) v (committed_tokens s) (slot_reservation_id s) (active_bank s)
    (ownership s).
#[global] Instance set_committed_tokens : Setter committed_tokens := fun v s =>
    mkSlot (slot_request_id s) (slot_generation s) (state_generation s) v (slot_reservation_id s) (active_bank s)
    (ownership s).
#[global] Instance set_slot_reservation_id : Setter slot_reservation_id := fun v s =>
    mkSlot (slot_request_id s) (slot_generation s) (state_generation s) (committed_tokens s) v (active_bank s)
    (ownership s).
#[global] Instance set_active_bank : Setter active_bank := fun v s =>
    mkSlot (slot_request_id s) (slot_generation s) (state_generation s) (committed_tokens s) (slot_reservation_id
    s) v (ownership s).
#[global] Instance set_ownership : Setter ownership := fun v s =>
    mkSlot (slot_request_id s) (slot_generation s) (state_generation s) (committed_tokens s) (slot_reservation_id
    s) (active_bank s) v.
#[global] Instance set_memory {V} : Setter (@memory V) := fun v d => mkDevice v (in_flight d) (faults d).
#[global] Instance set_in_flight {V} : Setter (@in_flight V) := fun v d => mkDevice (memory d) v (faults d).
#[global] Instance set_faults {V} : Setter (@faults V) := fun v d => mkDevice (memory d) (in_flight d) v.

Section pool.
Context {V : Type} `{!DeviceInterface V}.

Abbreviation PM := (M (FixedStatePool V) FixedStateError).

(** ** Device operations *)

Definition spoil (junk : loc -> V) (ls : list loc) (m : loc -> V) (l : loc) : V :=
  if bool_decide (l ∈ ls) then junk l else m l.

Definition on_device {A} (m : M (Device V) FixedStateError A) : PM A := fun p =>
  let '(o, d) := m (device p) in (o, p <| device := d |>).

(** Enqueues work that writes [dests]. *)
Definition enqueue (f : (loc -> V) -> loc -> V) (dests : list loc) : M (Device V) FixedStateError unit := fun d =>
  match faults d with
  | Some junk :: rest =>
    (Throw DeviceFailure, mkDevice (spoil junk (in_flight d ++ dests) (memory d)) (in_flight d ++ dests) rest)
  | _ => (Ok tt, mkDevice (f (memory d)) (in_flight d ++ dests) (tail (faults d)))
  end.

Definition sync : M (Device V) FixedStateError unit := fun d =>
  match faults d with
  | Some junk :: rest => (Throw DeviceFailure, mkDevice (spoil junk (in_flight d) (memory d)) (in_flight d) rest)
  | _ => (Ok tt, mkDevice (memory d) [] (tail (faults d)))
  end.

Definition Synchronize : PM unit := on_device sync.

Definition copy (dst src : loc) (m : loc -> V) (l : loc) : V := if bool_decide (l = dst) then m src else m l.
Definition CopyFrom (dst src : loc) : PM unit := on_device (enqueue (copy dst src) [dst]).

(** A transfer to or from the host that writes no state row. *)
Definition transfer : PM unit := on_device (enqueue id []).

Definition apply_replay (d : StateUpdateReplayDesc) (m : loc -> V) (l : loc) : V :=
  if bool_decide (l ∈ destinations d) then replay d m l else m l.
Definition apply_replays (ds : list StateUpdateReplayDesc) (m : loc -> V) : loc -> V := foldl (fun m d => apply_replay d m) m ds.
Definition ReplayStateUpdates (ds : list StateUpdateReplayDesc) : PM unit :=
  on_device (enqueue (apply_replays ds) (ds ≫= destinations)).

(** [try { m } catch (...) { handler; try { Synchronize } catch (...) {} throw; }] *)
Definition drain : PM unit := fun p => (Ok tt, (Synchronize p).2).
Definition guarded {A} (handler : PM unit) (m : PM A) : PM A := fun p =>
  match m p with
  | (Throw e, p') => ((_ ← handler; _ ← drain; throw e) : PM A) p'
  | r => r
  end.

Definition fail_pool : PM unit := modify (fun p => p <| healthy := false |>).

(** ** Slots *)

Definition get_slot (i : nat) : PM Slot :=
  p ← gets id; match slots p !! i with Some s => mret s | None => undefined end.
Definition update_slot (i : nat) (f : Slot -> Slot) : PM unit :=
  s ← get_slot i; modify (fun p => p <| slots := <[i := f s]> (slots p) |>).

Definition FindSlot (request_id : N) : PM (option (nat * Slot)) :=
  p ← gets id;
  match Find (committed_index p) request_id with
  | Some i => s ← get_slot i; mret (Some (i, s))
  | None => mret None
  end.

Definition EnsureHealthy : PM unit := p ← gets id; throw_if (negb (healthy p)) Unhealthy.
Definition EnsureIdle : PM unit := p ← gets id; throw_if (negb (active_reservation_id p =? 0)%N) LiveReservation.

Definition MakeHandle (p : FixedStatePool V) (i : nat) (s : Slot) : FixedStateSlotHandle :=
  mkHandle (owner (config p)) (slot_request_id s) i (slot_generation s).

(** [ValidateHandle] and [ValidateCommittedHandle]. *)
Definition ValidateHandle (h : FixedStateSlotHandle) (required : FixedStateSlotOwnership) : PM Slot :=
  p ← gets id;
  _ ← throw_if (negb (handle_pool h =? owner (config p))%N || (handle_request_id h =? 0)%N || (length (slots p) <=? handle_slot h))
        ForeignHandle;
  s ← get_slot (handle_slot h);
  _ ← throw_if (negb (bool_decide (ownership s = required)) || negb (slot_request_id s =? handle_request_id h)%N ||
                negb (slot_generation s =? handle_generation h)%N) StaleHandle;
  mret s.

(** The queue is cleared whether the launch throws or not; a failed launch leaves visible
    state unwritten. *)
Definition launch_replays (ds : list StateUpdateReplayDesc) : PM unit := fun p =>
  match ReplayStateUpdates ds p with
  | (Throw e, p') => (Throw e, p' <| deferred_replay := [] |> <| healthy := false |>)
  | (o, p') => (o, p' <| deferred_replay := [] |>)
  end.

Definition FlushDeferredReplay : PM unit :=
  p ← gets id;
  match deferred_replay p with [] => mret tt | ds => launch_replays ds end.

(** ** Queries *)

Definition Capacity (p : FixedStatePool V) : nat := capacity (config p).
Definition FreeSlotCount (p : FixedStatePool V) : nat := length (filter (fun s => ownership s = SlotFree) (slots p)).
Definition AvailableSlots (p : FixedStatePool V) : nat := FreeSlotCount p.
Definition CommittedSlotCount (p : FixedStatePool V) : nat := index_size_ (committed_index p).
Definition SupportsStateUpdates (p : FixedStatePool V) : bool :=
  contract_enabled (contract (config p)) && negb (contract_capacity (contract (config p)) =? 0)%N.
Definition StateUpdateCapacity (p : FixedStatePool V) : N :=
  if SupportsStateUpdates p then contract_capacity (contract (config p)) else 0%N.
Definition PrefixCheckpointCapacity (p : FixedStatePool V) : nat := length (prefix_checkpoints p).
Definition AvailablePrefixCheckpoints (p : FixedStatePool V) : nat :=
  length (filter (fun c => occupied c = false) (prefix_checkpoints p)).
Definition OwnsCommittedSlot (p : FixedStatePool V) (request_id : N) : bool :=
  match Find (committed_index p) request_id with Some _ => true | None => false end.

Definition HandleFor (request_id : N) : PM FixedStateSlotHandle :=
  _ ← throw_if (request_id =? 0)%N NoRequestIdentity;
  s ← FindSlot request_id;
  p ← gets id;
  match s with
  | Some (i, s) => _ ← throw_if (negb (bool_decide (ownership s = SlotCommitted))) NotCommittedOwner; mret (MakeHandle p i s)
  | None => throw NotCommittedOwner
  end.

Definition CommittedState (request_id : N) : PM (option FixedStateCommittedState) :=
  s ← FindSlot request_id;
  p ← gets id;
  mret ((fun '(i, s) => mkCommittedState (MakeHandle p i s) (committed_tokens s)) <$> s).

Definition StateGeneration (h : FixedStateSlotHandle) : PM N := s ← ValidateHandle h SlotCommitted; mret (state_generation s).
Definition CommittedTokens (h : FixedStateSlotHandle) : PM nat := s ← ValidateHandle h SlotCommitted; mret (committed_tokens s).

(** The fields of the snapshot that [ValidateFixedStateInvariants] reads. *)
Definition slot_snapshot (i : nat) (s : Slot) : FixedStateSlotSnapshot :=
  mkSlotSnapshot (slot_request_id s) i (state_generation s) (committed_tokens s) (ownership s).
Definition count_slots (o : FixedStateSlotOwnership) (l : list Slot) : nat := length (filter (fun s => ownership s = o) l).
Definition Snapshot (p : FixedStatePool V) : FixedStatePoolSnapshot :=
  mkFixedSnapshot (capacity (config p)) (count_slots SlotFree (slots p)) (count_slots SlotReserved (slots p))
    (count_slots SlotCommitted (slots p)) (healthy p) (imap slot_snapshot (slots p)).

(** ** Release *)

Definition ValidateRelease (h : FixedStateSlotHandle) : PM unit :=
  _ ← EnsureIdle; _ ← ValidateHandle h SlotCommitted; mret tt.

(** The slot keeps its generation and its bank. *)
Definition freed (s : Slot) : Slot := mkSlot 0 (slot_generation s) 0 0 0 (active_bank s) SlotFree.

Definition erase_index (request_id : N) : PM unit := fun p =>
  match Erase (committed_index p) request_id with
  | Ok (_, i) => (Ok tt, p <| committed_index := i |>)
  | Throw e => (Throw (IndexFailure e), p)
  | Terminate => (Terminate, p)
  | Undefined => (Undefined, p)
  end.

Definition ReleaseValidated (h : FixedStateSlotHandle) : PM unit :=
  p ← gets id;
  if negb (active_reservation_id p =? 0)%N || negb (handle_pool h =? owner (config p))%N || (length (slots p) <=? handle_slot h)
  then terminate
  else
    s ← get_slot (handle_slot h);
    if negb (bool_decide (ownership s = SlotCommitted)) || negb (slot_request_id s =? handle_request_id h)%N ||
       negb (slot_generation s =? handle_generation h)%N
    then terminate
    else
      _ ← update_slot (handle_slot h) freed;
      erase_index (handle_request_id h).

Definition Release (h : FixedStateSlotHandle) : PM unit := _ ← ValidateRelease h; ReleaseValidated h.

(** ** Reservations *)

Inductive FixedStateReservationState : Type := Reserved | Prepared | Committed | Discarded | Failed.
#[global] Instance FixedStateReservationState_eq_dec : EqDecision FixedStateReservationState.
Proof. solve_decision. Defined.

Record Storage : Type := mkStorage
  { handles : list FixedStateSlotHandle;
    provisional : list bool;
    expected_state_generations : list N;
    target_tokens : list nat;
    capture_counts : list N;
    commit_step_tokens : list nat;
    commit_kept_tokens : list nat;
    views : FixedStateReservationViews;
    captures_state_updates : bool;
    uses_direct_bindings : bool;
    direct_active_bank : bool;
    first_direct_slot : nat }.

(** [attached] is whether the pointer to the pool is set. *)
Record FixedStateReservation : Type := mkReservation
  { attached : bool;
    reservation_id : N;
    storage : option Storage;
    reservation_state : FixedStateReservationState }.

(** Phase 1: what a row of the batch will own. *)
Record RowPlan : Type := mkRow
  { row_request_id : N;
    row_slot : nat;
    row_provisional : bool;
    row_generation : N;
    row_expected : N;
    row_target : nat;
    row_checkpoint : option FixedStatePrefixCheckpoint }.

Record Planning : Type := mkPlanning
  { planned : list RowPlan;
    seen_ids : list N;
    slot_taken : list bool;
    next_free_index : nat }.

Definition ValidatePrefixCheckpoint (c : FixedStatePrefixCheckpoint) : PM unit :=
  p ← gets id;
  _ ← throw_if (negb (cp_pool c =? owner (config p))%N || (length (prefix_checkpoints p) <=? cp_slot c)) ForeignCheckpoint;
  match prefix_checkpoints p !! cp_slot c with
  | Some s => throw_if (negb (occupied s) || negb (checkpoint_generation s =? cp_generation c)%N ||
                        negb (checkpoint_token_count s =? TokenCount c)) StaleCheckpoint
  | None => undefined
  end.

(** The scan of [next_free_slot]. *)
Fixpoint skip_taken (taken : list bool) (i : nat) : option nat :=
  match taken with
  | [] => None
  | true :: taken' => skip_taken taken' (S i)
  | false :: _ => Some i
  end.

Definition u64_max : N := (two64 - 1)%N.

(** A request without committed ownership takes the next free slot. *)
Definition plan_admission (st : Planning) (seen : list N) (r : FixedStateReservationRequest) : PM Planning :=
  match skip_taken (drop (next_free_index st) (slot_taken st)) (next_free_index st) with
  | None => throw NoFreeSlot
  | Some i =>
    s ← get_slot i;
    _ ← throw_if (slot_generation s =? u64_max)%N SlotGenerations;
    mret (mkPlanning (planned st ++ [mkRow (fr_request_id r) i true (slot_generation s + 1)%N 0 (fr_target_tokens r)
                                       (fr_prefix_checkpoint r)])
            seen (<[i := true]> (slot_taken st)) (S i))
  end.

Definition plan_row (st : Planning) (r : FixedStateReservationRequest) : PM Planning :=
  _ ← throw_if ((fr_request_id r =? 0)%N || bool_decide (fr_request_id r ∈ seen_ids st)) InvalidRequest;
  let seen := fr_request_id r :: seen_ids st in
  found ← FindSlot (fr_request_id r);
  _ ← match fr_prefix_checkpoint r with
      | Some c => _ ← ValidatePrefixCheckpoint c; throw_if (fr_target_tokens r <=? TokenCount c) CheckpointCoversTarget
      | None => mret tt
      end;
  match found with
  | Some (i, s) =>
    if bool_decide (ownership s = SlotCommitted) then
      _ ← throw_if (bool_decide (is_Some (fr_prefix_checkpoint r))) ResidentCheckpoint;
      mret (mkPlanning (planned st ++ [mkRow (fr_request_id r) i false (slot_generation s) (state_generation s)
                                         (fr_target_tokens r) None]) seen (slot_taken st) (next_free_index st))
    else plan_admission st seen r
  | None => plan_admission st seen r
  end.

Fixpoint plan_rows (rs : list FixedStateReservationRequest) (st : Planning) : PM Planning :=
  match rs with
  | [] => mret st
  | r :: rs' => st' ← plan_row st r; plan_rows rs' st'
  end.

(** The bank new rows join: that of the residents if they agree, and the first otherwise. *)
Fixpoint common_bank (bank : option bool) (rows : list RowPlan) (ss : list Slot) : bool :=
  match rows with
  | [] => default false bank
  | r :: rows' =>
    if row_provisional r then common_bank bank rows' ss
    else
      let b := from_option active_bank false (ss !! row_slot r) in
      match bank with
      | None => common_bank (Some b) rows' ss
      | Some b' => if eqb b' b then common_bank bank rows' ss else false
      end
  end.

(** Whether the rows are residents in consecutive slots. *)
Definition consecutive (rows : list RowPlan) (first : nat) : bool :=
  forallb (fun '(i, r) => negb (row_provisional r) && (row_slot r =? first + i)) (imap pair rows).

Definition bank_one_count (rows : list RowPlan) (ss : list Slot) : nat :=
  length (filter (fun r => row_provisional r = false /\ from_option active_bank false (ss !! row_slot r) = true) rows).

(** The bank most rows already use; on a tie, the bank of the first row. *)
Definition majority_bank (rows : list RowPlan) (first : nat) (ss : list Slot) : bool :=
  let ones := bank_one_count rows ss in
  let zeros := length rows - ones in
  if zeros <? ones then true
  else if ones <? zeros then false
  else from_option active_bank false (ss !! first).

Definition bank_loc (spec : TensorSpec) (t : nat) (b : bool) (slot : nat) : loc := mkLoc t (bank spec b) slot.

(** Copies the visible rows that are in the other bank; the result is whether any was. *)
Definition normalize_row (t : nat) (spec : TensorSpec) (target : bool) (enqueued : bool) (r : RowPlan) : PM bool :=
  s ← get_slot (row_slot r);
  if eqb (active_bank s) target then mret enqueued
  else _ ← CopyFrom (bank_loc spec t target (row_slot r)) (bank_loc spec t (active_bank s) (row_slot r)); mret true.

Fixpoint fold_m {A B} (f : B -> A -> PM B) (l : list A) (b : B) : PM B :=
  match l with
  | [] => mret b
  | x :: l' => b' ← f b x; fold_m f l' b'
  end.

Definition normalize_tensor (rows : list RowPlan) (target : bool) (enqueued : bool) (ts : nat * TensorSpec) : PM bool :=
  if share_past_present_buffer ts.2 then mret enqueued else fold_m (normalize_row ts.1 ts.2 target) rows enqueued.

Definition set_bank (b : bool) (r : RowPlan) : PM unit := update_slot (row_slot r) (fun s => s <| active_bank := b |>).

Definition normalize (rows : list RowPlan) (target : bool) : PM unit :=
  guarded fail_pool (
    p ← gets id;
    enqueued ← fold_m (normalize_tensor rows target) (imap pair (tensors (config p))) false;
    if (enqueued : bool) then _ ← Synchronize; for_each (set_bank target) rows else mret tt).

(** Phase 2: the views, from the cache or built. *)
Definition lift_result {A} (r : result A) : PM A := lift r.

Definition find_views (k : ViewKey) (l : list (ViewKey * FixedStateReservationViews)) : option FixedStateReservationViews :=
  snd <$> List.find (fun e => bool_decide (e.1 = k)) l.

Definition reservation_views (k : ViewKey) (bank : bool) (first : nat) : PM FixedStateReservationViews :=
  p ← gets id;
  match find_views k (view_cache p) with
  | Some v => mret v
  | None =>
    v ← lift_result (BuildReservationViews (contract (config p)) (key_rows k) (key_direct k) bank first (key_captures k)
                       (tensors (config p)));
    _ ← modify (fun p =>
      let cached := if kMaxCachedViews <=? length (view_cache p) then tail (view_cache p) else view_cache p in
      p <| view_cache := cached ++ [(k, v)] |>);
    mret v
  end.

(** Phase 3: gathering one row of one tensor. *)
Definition gather_row (t : nat) (spec : TensorSpec) (gathered : view) (ir : nat * RowPlan) : PM unit :=
  let '(i, r) := ir in
  let dst := view_at gathered i in
  if row_provisional r then
    match row_checkpoint r with
    | Some c => CopyFrom dst (mkLoc t CheckpointBank (cp_slot c))
    | None => CopyFrom dst (mkLoc t ZeroRow 0)
    end
  else
    s ← get_slot (row_slot r);
    CopyFrom dst (bank_loc spec t (active_bank s) (row_slot r)).

Definition gather_tensor (v : FixedStateReservationViews) (rows : list RowPlan) (ts : nat * TensorSpec) : PM unit :=
  match gathered_inputs v !! ts.1 with
  | Some gathered => for_each (gather_row ts.1 ts.2 gathered) (imap pair rows)
  | None => undefined
  end.

(** [static_cast<int32_t>] of a count within [INT32_MAX]. *)
Definition host_count (captures : bool) (r : FixedStateReservationRequest) : Z :=
  if captures then Z.of_N (fr_capture_count r) else 0%Z.

Definition gather (v : FixedStateReservationViews) (captures direct : bool) (requests : list FixedStateReservationRequest)
    (rows : list RowPlan) : PM unit :=
  guarded fail_pool (
    _ ← (if has_capture_count v
         then _ ← modify (fun p => p <| capture_count_staging := host_count captures <$> requests |>); transfer
         else mret tt);
    p ← gets id;
    if negb direct then _ ← for_each (gather_tensor v rows) (imap pair (tensors (config p))); Synchronize
    else if negb device_is_cuda then Synchronize else mret tt).

(** Phase 4: provisional ownership. *)
Definition admit_row (reservation : N) (bank : bool) (r : RowPlan) : PM unit :=
  if row_provisional r then
    update_slot (row_slot r) (fun s =>
      mkSlot (row_request_id r) (u64_succ (slot_generation s)) 0 (from_option TokenCount 0 (row_checkpoint r)) reservation bank
        SlotReserved)
  else mret tt.

Definition make_handle (id : N) (r : RowPlan) : FixedStateSlotHandle := mkHandle id (row_request_id r) (row_slot r) (row_generation r).

Definition check_captures (requests : list FixedStateReservationRequest) : PM unit :=
  p ← gets id;
  let c := contract (config p) in
  _ ← throw_if (existsb (fun r => negb (fr_capture_count r =? 0)%N) requests && negb (SupportsStateUpdates p))
        (if negb (contract_capacity c =? 0)%N then UpdatesDisabled else UpdatesUndeclared);
  throw_if (SupportsStateUpdates p &&
            existsb (fun r => (contract_capacity c <? fr_capture_count r)%N || (2147483647 <? fr_capture_count r)%N) requests)
    CaptureTooLarge.

Definition Reserve (requests : list FixedStateReservationRequest) : PM FixedStateReservation :=
  _ ← EnsureHealthy;
  _ ← EnsureIdle;
  _ ← FlushDeferredReplay;
  _ ← throw_if (length requests =? 0) EmptyReservation;
  p ← gets id;
  _ ← throw_if (capacity (config p) <? length requests) ExceedsCapacity;
  let captures := existsb (fun r => negb (fr_capture_count r =? 0)%N) requests in
  _ ← check_captures requests;
  let reservation := next_reservation_id p in
  _ ← throw_if ((reservation =? 0)%N || (reservation =? u64_max)%N) ReservationIdsExhausted;
  st ← plan_rows requests (mkPlanning [] [] ((fun s => negb (bool_decide (ownership s = SlotFree))) <$> slots p) 0);
  let rows := planned st in
  let admission_bank := common_bank None rows (slots p) in
  let first := from_option row_slot 0 (head rows) in
  let direct := SupportsOffsetTensorViews && consecutive rows first in
  let bank := direct && majority_bank rows first (slots p) in
  _ ← (if direct then normalize rows bank else mret tt);
  let key := mkViewKey (length requests) (if direct then first else 0) bank direct captures in
  v ← reservation_views key bank first;
  _ ← (if has_active v then modify (fun p => p <| active_staging := if captures then 1%Z else 0%Z |>) else mret tt);
  let st := mkStorage (make_handle (owner (config p)) <$> rows) (row_provisional <$> rows) (row_expected <$> rows)
              (row_target <$> rows) (fr_capture_count <$> requests) (replicate (length requests) 0)
              (replicate (length requests) 0) v captures direct bank (if direct then first else 0) in
  _ ← gather v captures direct requests rows;
  _ ← for_each (admit_row reservation admission_bank) rows;
  _ ← modify (fun p => p <| next_reservation_id := u64_succ (next_reservation_id p) |>
        <| active_reservation_id := reservation |> <| active_staging_bytes := staging_bytes v |>
        <| active_reservation := Some reservation |>);
  mret (mkReservation true reservation (Some st) Reserved).

(** ** The operations of a reservation *)

Abbreviation RM := (M (FixedStatePool V * FixedStateReservation) FixedStateError).

Definition on_pool {A} (m : PM A) : RM A := fun w => let '(o, p) := m w.1 in (o, (p, w.2)).
Definition set_reservation_state (s : FixedStateReservationState) : RM unit :=
  modify (fun w => (w.1, mkReservation (attached w.2) (reservation_id w.2) (storage w.2) s)).
Definition set_storage (s : Storage) : RM unit :=
  modify (fun w => (w.1, mkReservation (attached w.2) (reservation_id w.2) (Some s) (reservation_state w.2))).

Definition Handles (r : FixedStateReservation) : list FixedStateSlotHandle := from_option handles [] (storage r).
Definition Bindings (r : FixedStateReservation) : list FixedStateBinding := from_option (bindings ∘ views) [] (storage r).
Definition TargetTokens (r : FixedStateReservation) : list nat := from_option target_tokens [] (storage r).
Definition reservation_staging_bytes (r : FixedStateReservation) : N := from_option (staging_bytes ∘ views) 0%N (storage r).
Definition NewSlotCount (r : FixedStateReservation) : nat :=
  from_option (fun st => length (filter (fun b => b = true) (provisional st))) 0 (storage r).
Definition CapturesStateUpdates (r : FixedStateReservation) : bool := from_option captures_state_updates false (storage r).
Definition UsesDirectBindings (r : FixedStateReservation) : bool := from_option uses_direct_bindings false (storage r).

Definition storage_layout_key (st : Storage) : N :=
  let state_updates := if captures_state_updates st then 1%N else 0%N in
  let addresses :=
    if uses_direct_bindings st
    then u64_add (u64_add 1 (u64_mul (N.of_nat (first_direct_slot st)) 2)) (if direct_active_bank st then 1 else 0) else 0%N in
  u64_add (u64_add 1 state_updates) (u64_mul addresses 2).
Definition BindingLayoutKey (r : FixedStateReservation) : N := from_option storage_layout_key 0%N (storage r).

(** The row is in range and the counts belong to the step's captures. *)
Definition CommitPrefix (row step_tokens kept_tokens : nat) : RM unit :=
  w ← gets id;
  match storage w.2 with
  | None => throw NotCapturing
  | Some st =>
    _ ← throw_if (negb (captures_state_updates st)) NotCapturing;
    _ ← throw_if (negb (bool_decide (reservation_state w.2 = Reserved))) NoLongerReserved;
    _ ← throw_if (length (handles st) <=? row) RowOutOfRange;
    _ ← throw_if ((kept_tokens =? 0) || (step_tokens <? kept_tokens)) BadKeptTokens;
    match capture_counts st !! row, commit_kept_tokens st !! row, target_tokens st !! row with
    | Some capture_count, Some kept, Some target =>
      let captured := N.to_nat capture_count in
      let full_acceptance := kept_tokens =? step_tokens in
      _ ← throw_if ((capture_count =? 0)%N || negb (step_tokens =? captured + 1) || (negb full_acceptance && (captured <? kept_tokens)))
            TransitionMismatch;
      _ ← throw_if (negb (kept =? 0)) PrefixAlreadySet;
      let rejected := step_tokens - kept_tokens in
      _ ← throw_if (target <? rejected) RejectsTooMany;
      set_storage (mkStorage (handles st) (provisional st) (expected_state_generations st)
        (<[row := target - rejected]> (target_tokens st)) (capture_counts st)
        (<[row := step_tokens]> (commit_step_tokens st)) (<[row := kept_tokens]> (commit_kept_tokens st)) (views st)
        (captures_state_updates st) (uses_direct_bindings st) (direct_active_bank st) (first_direct_slot st))
    | _, _, _ => undefined
    end
  end.

(** The checks of one row in [FixedStatePool::ValidateCommit]. *)
Definition validate_row (r : FixedStateReservation) (st : Storage) (row : nat) : PM unit :=
  p ← gets id;
  match handles st !! row, provisional st !! row, expected_state_generations st !! row, target_tokens st !! row with
  | Some h, Some new, Some expected, Some target =>
    _ ← throw_if (negb (handle_pool h =? owner (config p))%N || (length (slots p) <=? handle_slot h)) ChangedAfterReserve;
    s ← get_slot (handle_slot h);
    _ ← throw_if (negb (bool_decide (ownership s = if (new : bool) then SlotReserved else SlotCommitted)) ||
                  negb (slot_request_id s =? handle_request_id h)%N || negb (slot_generation s =? handle_generation h)%N ||
                  negb (state_generation s =? expected)%N || (new && negb (slot_reservation_id s =? reservation_id r)%N))
          ChangedAfterReserve;
    _ ← throw_if (state_generation s =? u64_max)%N GenerationExhausted;
    throw_if (target <? committed_tokens s) TokensRegress
  | _, _, _, _ => undefined
  end.

Definition pool_ValidateCommit (r : FixedStateReservation) : PM unit :=
  _ ← EnsureHealthy;
  p ← gets id;
  match storage r with
  | Some st =>
    _ ← throw_if (negb (active_reservation_id p =? reservation_id r)%N) NotActive;
    for_each (validate_row r st) (seq 0 (length (handles st)))
  | None => throw NotActive
  end.

Definition ValidateCommit : RM unit :=
  w ← gets id;
  _ ← throw_if (negb (attached w.2) || negb (bool_decide (reservation_state w.2 = Reserved))) NotReservedForCommit;
  on_pool (pool_ValidateCommit w.2).

(** The lengths an indexer replay starts from, and the room it needs. *)
Definition check_lengths (spec buffer_spec : TensorSpec) (lengths : Z * Z) (kept : nat) : PM unit :=
  let ratio := state_update_compress_ratio (update spec) in
  let key_capacity := state_update_state_capacity (update spec) in
  buffer_capacity ← lift_result (extent (session_shape buffer_spec) 1);
  _ ← throw_if ((ratio =? 0)%N || (buffer_capacity <? ratio - 1)%N || (lengths.1 <? 0)%Z || (lengths.2 <? 0)%Z ||
                (key_capacity <? Z.to_N lengths.1)%N || (ratio <=? Z.to_N lengths.2)%N ||
                (buffer_capacity <? Z.to_N lengths.2)%N) InvalidLengths;
  let retained := (Z.to_N lengths.2 + N.of_nat kept)%N in
  throw_if ((key_capacity - Z.to_N lengths.1 <? retained / ratio)%N || (Z.to_N (2147483647 - lengths.1) <? retained / ratio)%N ||
            (buffer_capacity <? retained mod ratio)%N) ReplayTooLong.

Definition replay_kind_of (k : StateUpdateKind) : StateUpdateReplayKind :=
  match k with
  | CausalConv => ReplayCausalConv
  | GatedDeltaNet => ReplayGatedDeltaNet
  | Ple => ReplaySnapshot
  | _ => ReplayIndexer
  end.

(** The siblings of an indexer tensor are the next two tensors. *)
Definition indexer_siblings (v : FixedStateReservationViews) (t : nat) (spec : TensorSpec) (slot row : nat) (inactive : bool)
    (kept : nat) : PM IndexerSiblings :=
  p ← gets id;
  match tensors (config p) !! (t + 1), tensors (config p) !! (t + 2), gathered_inputs v !! (t + 1), gathered_inputs v !! (t + 2) with
  | Some buffer_spec, Some lengths_spec, Some buffer_view, Some lengths_view =>
    _ ← transfer;
    p ← gets id;
    _ ← check_lengths spec buffer_spec (read_lengths (memory (device p) (view_at lengths_view row))) kept;
    capacity ← lift_result (extent (session_shape buffer_spec) 1);
    mret (mkSiblings (view_at buffer_view row) (bank_loc buffer_spec (t + 1) inactive slot)
            (view_at lengths_view row) (bank_loc lengths_spec (t + 2) inactive slot) capacity)
  | _, _, _, _ => undefined
  end.

Definition stage_row (t : nat) (spec : TensorSpec) (staged : view) (slot row : nat) (inactive : bool) : PM unit :=
  CopyFrom (bank_loc spec t inactive slot) (view_at staged row).

(** One row of one tensor: staged whole, left to its sibling, or queued for replay. *)
Definition prepare_row (st : Storage) (t : nat) (spec : TensorSpec) (row : nat) : PM (list StateUpdateReplayDesc) :=
  let v := views st in
  match handles st !! row, commit_kept_tokens st !! row, commit_step_tokens st !! row, staged_outputs v !! t, gathered_inputs v !! t with
  | Some h, Some kept, Some step, Some staged, Some gathered =>
    s ← get_slot (handle_slot h);
    let inactive := negb (active_bank s) in
    let whole := if negb (uses_direct_bindings st) then stage_row t spec staged (handle_slot h) row inactive else mret tt in
    if (kept =? 0) || (kept =? step) then _ ← whole; mret []
    else if bool_decide (tensor_kind spec = FixedIndexer) && negb (component_index spec =? 0) then mret []
    else if bool_decide (tensor_kind spec = FixedPle) && (component_index spec =? 0) &&
            bool_decide (output_spec_name (state_update_value (update spec)) = no_name)
    then _ ← whole; mret []
    else
      sib ← (if bool_decide (state_update_kind (update spec) = Indexer)
             then Some <$> indexer_siblings v t spec (handle_slot h) row inactive kept else mret None);
      match state_update_tensors v !! t with
      | Some (value, capsule) =>
        mret [mkReplay spec (replay_kind_of (state_update_kind (update spec))) (view_at gathered row)
                (bank_loc spec t inactive (handle_slot h)) (flip view_at row <$> value) (flip view_at row <$> capsule)
                (N.of_nat kept) sib]
      | None => undefined
      end
  | _, _, _, _, _ => undefined
  end.

Definition prepare_tensor (st : Storage) (ts : nat * TensorSpec) : PM (list StateUpdateReplayDesc) :=
  mjoin <$> mapM (prepare_row st ts.1 ts.2) (seq 0 (length (handles st))).

(** ** Ending a reservation *)

Definition release_row (r : FixedStateReservation) (st : Storage) (row : nat) : PM unit :=
  match provisional st !! row, handles st !! row with
  | Some true, Some h =>
    s ← get_slot (handle_slot h);
    if bool_decide (ownership s = SlotReserved) && (slot_request_id s =? handle_request_id h)%N &&
       (slot_generation s =? handle_generation h)%N && (slot_reservation_id s =? reservation_id r)%N
    then update_slot (handle_slot h) freed
    else mret tt
  | Some false, Some _ => mret tt
  | _, _ => undefined
  end.

Definition ReleaseProvisionalSlots (r : FixedStateReservation) : PM unit :=
  p ← gets id;
  match storage r with
  | Some st =>
    if (reservation_id r =? 0)%N || negb (active_reservation_id p =? reservation_id r)%N then mret tt
    else for_each (release_row r st) (seq 0 (length (handles st)))
  | None => mret tt
  end.

(** Phase 2 of a commit: all device work, into the inactive banks. *)
Definition stage_outputs (st : Storage) : PM unit :=
  _ ← FlushDeferredReplay;
  p ← gets id;
  ds ← mapM (prepare_tensor st) (imap pair (tensors (config p)));
  _ ← Synchronize;
  modify (fun p => p <| deferred_replay := mjoin ds |>).

(** The handler of [PrepareCommit]. *)
Definition fail_reservation (e : FixedStateError) : RM unit :=
  _ ← on_pool fail_pool;
  _ ← set_reservation_state Failed;
  w ← gets id;
  _ ← on_pool (ReleaseProvisionalSlots w.2);
  _ ← on_pool drain;
  throw e.

Definition prepare_storage (st : Storage) : RM unit := fun w =>
  match stage_outputs st w.1 with
  | (Ok _, p) => set_reservation_state Prepared (p, w.2)
  | (Throw e, p) => fail_reservation e (p, w.2)
  | (Terminate, p) => (Terminate, (p, w.2))
  | (Undefined, p) => (Undefined, (p, w.2))
  end.

Definition pool_PrepareCommit : RM unit :=
  w ← gets id;
  _ ← on_pool (pool_ValidateCommit w.2);
  match storage w.2 with None => undefined | Some st => prepare_storage st end.

Definition PrepareCommit : RM unit :=
  w ← gets id;
  _ ← throw_if (negb (attached w.2) || negb (bool_decide (reservation_state w.2 = Reserved))) NotReservedForCommit;
  pool_PrepareCommit.

(** Phase 3 of a commit: flip the bank and publish. *)
Definition flipped (target : nat) (s : Slot) : Slot :=
  s <| active_bank := negb (active_bank s) |> <| state_generation := u64_succ (state_generation s) |> <| committed_tokens := target |>.
Definition promoted (s : Slot) : Slot := s <| slot_reservation_id := 0%N |> <| ownership := SlotCommitted |>.

Definition publish_row (st : Storage) (row : nat) : PM unit :=
  match handles st !! row, provisional st !! row, target_tokens st !! row with
  | Some h, Some new, Some target =>
    _ ← update_slot (handle_slot h) (flipped target);
    if (new : bool) then
      _ ← update_slot (handle_slot h) promoted;
      s ← get_slot (handle_slot h);
      p ← gets id;
      let '(inserted, index) := Insert (committed_index p) (slot_request_id s) (handle_slot h) in
      _ ← modify (fun p => p <| committed_index := index |>);
      if (inserted : bool) then mret tt else terminate
    else mret tt
  | _, _, _ => undefined
  end.

Definition PublishCommit : RM unit :=
  w ← gets id;
  if negb (attached w.2) || negb (bool_decide (reservation_state w.2 = Prepared)) then terminate
  else
    match storage w.2 with
    | None => undefined
    | Some st => _ ← on_pool (for_each (publish_row st) (seq 0 (length (handles st)))); set_reservation_state Committed
    end.

Definition Commit : RM unit := _ ← ValidateCommit; _ ← PrepareCommit; PublishCommit.

Definition pool_Discard : RM unit :=
  w ← gets id;
  _ ← on_pool (p ← gets id;
       if bool_decide (reservation_state w.2 = Prepared) && (active_reservation_id p =? reservation_id w.2)%N
       then modify (fun p => p <| deferred_replay := [] |>) else mret tt);
  _ ← on_pool (ReleaseProvisionalSlots w.2);
  set_reservation_state Discarded.

Definition Discard : RM unit :=
  w ← gets id;
  _ ← throw_if (bool_decide (reservation_state w.2 = Committed)) DiscardCommitted;
  if negb (attached w.2) || bool_decide (reservation_state w.2 = Discarded) || bool_decide (reservation_state w.2 = Failed)
  then mret tt else pool_Discard.

Definition Finish : RM unit := fun w =>
  let '(p, r) := w in
  let p1 := if negb (reservation_id r =? 0)%N && (active_reservation_id p =? reservation_id r)%N
            then p <| active_reservation_id := 0%N |> <| active_staging_bytes := 0%N |> else p in
  let p2 := if bool_decide (active_reservation p = Some (reservation_id r)) then p1 <| active_reservation := None |> else p1 in
  (Ok tt, (p2, mkReservation false 0 (storage r) (reservation_state r))).

(** [~FixedStateReservation]. *)
Definition destroy_reservation : RM unit :=
  w ← gets id;
  if negb (attached w.2) then mret tt
  else
    _ ← (if bool_decide (reservation_state w.2 = Reserved) || bool_decide (reservation_state w.2 = Prepared)
         then pool_Discard else mret tt);
    Finish.

(** Moving leaves a detached, discarded reservation behind; the pool follows the new one. *)
Definition move_reservation (r : FixedStateReservation) : FixedStateReservation * FixedStateReservation :=
  (r, mkReservation false 0 None Discarded).

(** [~FixedStatePool] leaves its live reservation detached. *)
Definition destroy_pool (p : FixedStatePool V) (r : FixedStateReservation) : FixedStateReservation :=
  if bool_decide (active_reservation p = Some (reservation_id r)) then
    mkReservation false 0 (storage r)
      (match reservation_state r with Reserved | Prepared => Failed | s => s end)
  else r.

(** ** Checkpoints of prefixes *)

Definition ReleasePrefixCheckpoint (slot : nat) (generation : N) : PM unit :=
  modify (fun p =>
    match prefix_checkpoints p !! slot with
    | Some c =>
      if occupied c && (checkpoint_generation c =? generation)%N
      then p <| prefix_checkpoints := <[slot := mkCheckpointSlot (checkpoint_generation c) 0 false]> (prefix_checkpoints p) |>
      else p
    | None => p
    end).

Definition find_vacant (l : list PrefixCheckpointSlot) : option nat := fst <$> list_find (fun c => occupied c = false) l.

(** The row a new checkpoint takes: a vacant one, or that of the checkpoint to replace. *)
Definition checkpoint_target (replacement : option FixedStatePrefixCheckpoint) (can_reclaim : bool) : PM (option nat) :=
  p ← gets id;
  match find_vacant (prefix_checkpoints p) with
  | Some i => mret (Some i)
  | None =>
    match replacement with
    | None => mret None
    | Some c => _ ← throw_if (negb can_reclaim) NoReclamation; _ ← ValidatePrefixCheckpoint c; mret (Some (cp_slot c))
    end
  end.

Definition get_checkpoint (i : nat) : PM PrefixCheckpointSlot :=
  p ← gets id; match prefix_checkpoints p !! i with Some c => mret c | None => undefined end.

(** Copying every tensor's visible row; any failure becomes one error. *)
Definition capture_rows (i slot : nat) (bank : bool) : PM unit := fun p =>
  match (guarded fail_pool (
           _ ← for_each (fun ts => CopyFrom (mkLoc ts.1 CheckpointBank i) (bank_loc ts.2 ts.1 bank slot))
                 (imap pair (tensors (config p))); Synchronize)) p with
  | (Throw _, p') => (Throw CaptureFailed, p')
  | r => r
  end.

(** [CapturePrefixCheckpoint] without the reclaiming callback: up to the point where the
    selected row may have to be reclaimed, and from there on. *)
Definition capture_select (request_id : N) (replacement : option FixedStatePrefixCheckpoint) (can_reclaim : bool) :
    PM (option (FixedStateCommittedState * nat)) :=
  _ ← EnsureHealthy;
  _ ← FlushDeferredReplay;
  committed ← CommittedState request_id;
  match committed with
  | None => throw NoCommittedState
  | Some committed =>
    target ← checkpoint_target replacement can_reclaim;
    match target with
    | None => mret None
    | Some i =>
      c ← get_checkpoint i;
      _ ← throw_if (checkpoint_generation c =? u64_max)%N CheckpointGenerations;
      mret (Some (committed, i))
    end
  end.

Definition capture_finish (committed : FixedStateCommittedState) (bank : bool) (i : nat) (generation : N) : PM FixedStatePrefixCheckpoint :=
  c ← get_checkpoint i;
  _ ← throw_if (occupied c) ReclaimDidNotRelease;
  _ ← capture_rows i (handle_slot (state_handle committed)) bank;
  _ ← modify (fun p => p <| prefix_checkpoints :=
        <[i := mkCheckpointSlot generation (state_committed_tokens committed) true]> (prefix_checkpoints p) |>);
  p ← gets id;
  mret (mkPrefixCheckpoint (owner (config p)) i generation (state_committed_tokens committed)).
End pool.

(** [CapturePrefixCheckpoint]: the callback may touch more than the pool, so it runs in any
    state that has one. *)
Class HasPool (S V : Type) : Type := {
  pool_of : S -> FixedStatePool V;
  with_pool : FixedStatePool V -> S -> S
}.
#[global] Instance pool_has_pool {V} : HasPool (FixedStatePool V) V := {| pool_of p := p; with_pool p _ := p |}.

Definition in_pool {S V A} `{!HasPool S V} (m : M (FixedStatePool V) FixedStateError A) : M S FixedStateError A := fun s =>
  let '(o, p) := m (pool_of s) in (o, with_pool p s).

Definition CapturePrefixCheckpoint {S V} `{!DeviceInterface V, !HasPool S V} (request_id : N)
    (replacement : option FixedStatePrefixCheckpoint) (reclaim_checkpoint : option (M S FixedStateError unit)) :
    M S FixedStateError (option FixedStatePrefixCheckpoint) :=
  selected ← in_pool (capture_select request_id replacement (bool_decide (is_Some reclaim_checkpoint)));
  match selected with
  | None => mret None
  | Some (committed, i) =>
    c ← in_pool (get_checkpoint i);
    s ← in_pool (get_slot (handle_slot (state_handle committed)));
    _ ← (if occupied c then match reclaim_checkpoint with Some reclaim => reclaim | None => undefined end else mret tt);
    Some <$> in_pool (capture_finish committed (active_bank s) i (checkpoint_generation c + 1)%N)
  end.
