(* ===== verification/FixedStateDevice.v ===== *)
(** * Device work of the fixed-state pool

    Device work is described by the copies it enqueues ([dev_prog]): if nothing fails they
    have all happened, and if something fails only their destinations and what was already
    in flight can have been lost. *)

From S2P Require Import Prelude RequestIndex EngineInvariants StateManifest StateManifestProofs FixedStateSpec FixedStatePool.

Open Scope nat_scope.

Section device_programs.
Context {V : Type} `{!DeviceInterface V}.
Abbreviation Pool := (FixedStatePool V).
Abbreviation PM := (M (FixedStatePool V) FixedStateError).
Implicit Types (p : FixedStatePool V) (m : loc -> V) (l : loc) (cs : list (loc * loc)).

(** ** Copies *)

Definition run_copies cs m : loc -> V := foldl (fun m c => copy c.1 c.2 m) m cs.

Lemma run_copies_app cs cs' m : run_copies (cs ++ cs') m = run_copies cs' (run_copies cs m).
Proof. apply foldl_app. Qed.

Lemma run_copies_other cs l : l ∉ cs.*1 -> forall m, run_copies cs m l = m l.
Proof.
  induction cs as [|[d s] cs IH]; intros Hl m; [done|]. rewrite fmap_cons, not_elem_of_cons in Hl.
  change (run_copies cs (copy d s m) l = m l). rewrite IH by apply Hl. unfold copy. by rewrite bool_decide_false by apply Hl.
Qed.

(** A batch of copies that writes none of its sources and gives each destination one source. *)
Lemma run_copies_hit cs : (forall c, c ∈ cs -> c.2 ∉ cs.*1) -> (forall d s s', (d, s) ∈ cs -> (d, s') ∈ cs -> s = s') ->
  forall d s m, (d, s) ∈ cs -> run_copies cs m d = m s.
Proof.
  intros Hsrc Hfun d s m Hin. apply list_elem_of_split in Hin as (cs1 & cs2 & ->).
  rewrite run_copies_app. change (run_copies cs2 (copy d s (run_copies cs1 m)) d = m s).
  assert (run_copies cs1 m s = m s) as Hs.
  { apply run_copies_other. specialize (Hsrc (d, s) ltac:(set_solver)). rewrite fmap_app in Hsrc. set_solver. }
  assert (copy d s (run_copies cs1 m) d = m s) as Hd by (unfold copy; by rewrite bool_decide_true).
  assert (copy d s (run_copies cs1 m) s = m s) as Hds by (unfold copy; case_bool_decide; [by rewrite <- Hs|done]).
  revert Hd Hds. generalize (copy d s (run_copies cs1 m)). intros m1 Hd Hds.
  assert (forall c, c ∈ cs2 -> c.1 <> s /\ (c.1 = d -> c.2 = s)) as H.
  { intros [d' s'] Hc. split; cbn; [|intros ->; apply (Hfun d); set_solver].
    intros ->. apply (Hsrc (d, s)); [set_solver|]. rewrite fmap_app, fmap_cons, elem_of_app. right. right. apply list_elem_of_fmap.
    by exists (s, s'). }
  clear Hsrc Hfun. revert m1 Hd Hds. induction cs2 as [|[d' s'] cs2 IH]; intros m1 Hd Hds; [done|].
  change (run_copies cs2 (copy d' s' m1) d = m s). destruct (H (d', s') ltac:(by left)) as [Hne Heq]. cbn in Hne, Heq.
  apply IH; [intros c Hc; apply H; by right|..]; unfold copy; case_bool_decide; subst; try done. by rewrite Heq.
Qed.

(** ** Computations that only enqueue copies *)

(** All copies of [cs] were enqueued. *)
Definition ran p cs p' : Prop :=
  exists fs, p' = p <| device := mkDevice (run_copies cs (memory (device p))) (in_flight (device p) ++ cs.*1) fs |>.

(** Some operation failed after a part of them. *)
Definition broke p cs p' : Prop :=
  exists d, p' = p <| device := d |> /\
    (forall l, l ∉ in_flight (device p) ++ cs.*1 -> memory d l = memory (device p) l) /\
    (forall l, l ∈ in_flight d -> l ∈ in_flight (device p) ++ cs.*1).

Definition dev_prog {A} p (m : PM A) cs (a : A) : Prop :=
  match m p with
  | (Ok a', p') => a' = a /\ ran p cs p'
  | (Throw _, p') => broke p cs p'
  | _ => False
  end.

Lemma ran_refl p : ran p [] p.
Proof. exists (faults (device p)). destruct p as [? [] ]. cbn. by rewrite app_nil_r. Qed.

Lemma broke_refl p cs : broke p cs p.
Proof. exists (device p). split; [by destruct p|]. split; [done|]. intros l Hl. apply elem_of_app. by left. Qed.

Lemma ran_trans p p1 p2 cs cs' : ran p cs p1 -> ran p1 cs' p2 -> ran p (cs ++ cs') p2.
Proof. intros [f1 ->] [f2 ->]. exists f2. cbn. by rewrite run_copies_app, fmap_app, app_assoc. Qed.

Lemma ran_broke p p1 p2 cs cs' : ran p cs p1 -> broke p1 cs' p2 -> broke p (cs ++ cs') p2.
Proof.
  intros [f1 ->] (d & -> & Hm & Hf). exists d. split; [done|]. cbn in Hm, Hf. setoid_rewrite fmap_app. setoid_rewrite app_assoc. split.
  - intros l Hl. rewrite Hm by done. apply run_copies_other. set_solver.
  - done.
Qed.

Lemma broke_weaken p p' cs cs' : broke p cs p' -> broke p (cs ++ cs') p'.
Proof. intros (d & -> & Hm & Hf). exists d. split; [done|]. rewrite fmap_app. split; intros; [apply Hm|apply Hf in H]; set_solver. Qed.

Lemma dev_ret {A} p (a : A) : dev_prog p (mret a) [] a.
Proof. split; [done|apply ran_refl]. Qed.

Lemma dev_bind {A B} p (m : PM A) (k : A -> PM B) cs cs' a b :
  dev_prog p m cs a -> (forall p', ran p cs p' -> dev_prog p' (k a) cs' b) -> dev_prog p (m ≫= k) (cs ++ cs') b.
Proof.
  unfold dev_prog, mbind, M_bind. destruct (m p) as [[a'|e| |] p1]; try done.
  - intros [-> Hr] Hk. specialize (Hk p1 Hr). destruct (k a p1) as [[b'|e| |] p2]; try done.
    + destruct Hk as [-> Hk]. split; [done|]. by eapply ran_trans.
    + by eapply ran_broke.
  - intros Hb _. by apply broke_weaken.
Qed.

Lemma dev_fmap {A B} p (m : PM A) (f : A -> B) cs a : dev_prog p m cs a -> dev_prog p (f <$> m) cs (f a).
Proof. intros H. unfold fmap, M_fmap. rewrite <- (app_nil_r cs). eapply dev_bind; [done|]. intros p' _. apply dev_ret. Qed.

(** A step that only reads the pool. *)
Lemma dev_read {A B} p (f : Pool -> A) (k : A -> PM B) cs b :
  dev_prog p (k (f p)) cs b -> dev_prog p (gets f ≫= k) cs b.
Proof. done. Qed.

Lemma dev_copy p d s : dev_prog p (CopyFrom d s) [(d, s)] tt.
Proof.
  unfold dev_prog, CopyFrom, on_device, enqueue. destruct p as [cfg [m fl [|[junk|] fs]] ? ? ? ? ? ? ? ? ? ? ? ?]; cbn;
    (split; [done|by eexists]) || (eexists; split; [done|]; cbn; split; [|done]; intros l Hl; unfold spoil; by rewrite bool_decide_false by done).
Qed.

Lemma dev_transfer p : dev_prog p transfer [] tt.
Proof.
  unfold dev_prog, transfer, on_device, enqueue. destruct p as [cfg [m fl [|[junk|] fs]] ? ? ? ? ? ? ? ? ? ? ? ?]; cbn;
    (split; [done|by eexists]) || (eexists; split; [done|]; cbn; split; [|done]; intros l Hl; unfold spoil; by rewrite bool_decide_false by done).
Qed.

Lemma dev_throw_if {B} p b e (k : unit -> PM B) cs r :
  (b = false -> dev_prog p (k tt) cs r) -> dev_prog p (throw_if b e ≫= k) cs r.
Proof. destruct b; [intros _; apply broke_refl|]. intros H. by apply H. Qed.

Lemma dev_get_slot {B} p i s (k : Slot -> PM B) cs b :
  slots p !! i = Some s -> dev_prog p (k s) cs b -> dev_prog p (get_slot i ≫= k) cs b.
Proof. intros Hs H. unfold dev_prog, get_slot, mbind, M_bind, gets in *. cbn. by rewrite Hs. Qed.

(** What copying leaves alone. *)
Lemma ran_host p cs p' : ran p cs p' ->
  config p' = config p /\ slots p' = slots p /\ committed_index p' = committed_index p /\ prefix_checkpoints p' = prefix_checkpoints p /\
  deferred_replay p' = deferred_replay p.
Proof. by intros [fs ->]. Qed.

Lemma dev_for_each {A} (f : A -> PM unit) (c : A -> list (loc * loc)) (l : list A) : forall p,
  (forall p' cs x, ran p cs p' -> x ∈ l -> dev_prog p' (f x) (c x) tt) -> dev_prog p (for_each f l) (l ≫= c) tt.
Proof.
  induction l as [|x l IH]; intros p H; [apply dev_ret|].
  change (dev_prog p (for_each f (x :: l)) (c x ++ (l ≫= c)) tt).
  eapply dev_bind; [apply (H p []); [apply ran_refl|by left]|]. intros p1 Hr. apply IH.
  intros p' cs y Hr' Hy. eapply H; [by eapply ran_trans|by right].
Qed.

Lemma dev_mapM {A B} (f : A -> PM B) (c : A -> list (loc * loc)) (g : A -> B) (l : list A) : forall p,
  (forall p' cs x, ran p cs p' -> x ∈ l -> dev_prog p' (f x) (c x) (g x)) -> dev_prog p (mapM f l) (l ≫= c) (g <$> l).
Proof.
  induction l as [|x l IH]; intros p H; [apply dev_ret|].
  change (dev_prog p (f x ≫= fun y => mapM f l ≫= fun k => mret (y :: k)) (c x ++ (l ≫= c)) (g x :: (g <$> l))).
  eapply dev_bind; [apply (H p []); [apply ran_refl|by left]|]. intros p1 Hr. rewrite <- (app_nil_r (l ≫= c)).
  eapply dev_bind; [|intros; apply dev_ret]. apply IH.
  intros p' cs y Hr' Hy. eapply H; [by eapply ran_trans|by right].
Qed.

Lemma dev_fold {A} (f : bool -> A -> PM bool) (c : A -> list (loc * loc)) (h : A -> bool) (l : list A) : forall p b,
  (forall p' cs x b, ran p cs p' -> x ∈ l -> dev_prog p' (f b x) (c x) (b || h x)) ->
  dev_prog p (fold_m f l b) (l ≫= c) (b || existsb h l).
Proof.
  induction l as [|x l IH]; intros p b H; [cbn; rewrite orb_false_r; apply dev_ret|].
  change (dev_prog p (f b x ≫= fun b' => fold_m f l b') (c x ++ (l ≫= c)) (b || existsb h (x :: l))).
  eapply dev_bind; [apply (H p []); [apply ran_refl|by left]|]. intros p1 Hr. cbn [existsb]. rewrite orb_assoc. apply IH.
  intros p' cs y b' Hr' Hy. eapply H; [by eapply ran_trans|by right].
Qed.

(** ** Synchronizing *)

(** The copies have all happened and nothing is in flight. *)
Definition settled_run p cs p' : Prop :=
  exists fs, p' = p <| device := mkDevice (run_copies cs (memory (device p))) [] fs |>.

Definition lost p cs p' : Prop :=
  exists d, p' = p <| device := d |> /\ (forall l, l ∉ in_flight (device p) ++ cs.*1 -> memory d l = memory (device p) l).

Lemma Synchronize_run p : match Synchronize p with
  | (Ok _, p') => settled_run p [] p'
  | (Throw _, p') => lost p [] p' /\ broke p [] p'
  | _ => False end.
Proof.
  unfold Synchronize, on_device, sync. destruct p as [cfg [m fl [|[junk|] fs]] ? ? ? ? ? ? ? ? ? ? ? ?]; cbn; try (by eexists).
  split; eexists; (split; [done|]); cbn; rewrite app_nil_r; [|split; [|done]]; intros l Hl; unfold spoil; by rewrite bool_decide_false.
Qed.

Lemma broke_lost p cs p' : broke p cs p' -> lost p cs p'.
Proof. intros (d & H1 & H2 & _). by exists d. Qed.

Lemma dev_sync {A} p (m : PM A) cs a : dev_prog p m cs a ->
  match (m ≫= fun _ => Synchronize) p with
  | (Ok _, p') => settled_run p cs p'
  | (Throw _, p') => broke p cs p'
  | _ => False end.
Proof.
  unfold dev_prog, mbind, M_bind. destruct (m p) as [[a'|e| |] p1]; try done. intros [-> Hr]. pose proof (Synchronize_run p1) as H.
  destruct (Synchronize p1) as [[u|e| |] p2]; try done.
  - destruct Hr as [f1 ->], H as [f2 ->]. by exists f2.
  - destruct H as [_ H]. rewrite <- (app_nil_r cs). by eapply ran_broke.
Qed.

(** The drain of a handler only touches what is in flight. *)
Lemma drain_broke p cs p' : broke p cs p' -> broke p cs (drain p').2.
Proof.
  intros (d & -> & Hm & Hf). unfold drain. cbn [snd]. pose proof (Synchronize_run (p <| device := d |>)) as H.
  destruct (Synchronize _) as [[u|e| |] p2]; try done.
  - destruct H as [fs ->]. eexists. split; [done|]. cbn. split; [done|]. intros l Hl. by apply elem_of_nil in Hl.
  - destruct H as [_ (d' & -> & Hm' & Hf')]. cbn in Hm', Hf'. rewrite app_nil_r in Hm', Hf'. exists d'. split; [done|]. split.
    + intros l Hl. rewrite Hm' by (intros Hin; apply Hl; by apply Hf). by apply Hm.
    + intros l Hl. apply Hf. by apply Hf'.
Qed.
End device_programs.
