(* ===== verification/FixedStateReserve.v ===== *)
(** * Reserving fixed state

    The invariant of the fixed-state pool, what a request's committed state is, and what
    [FixedStatePool::Reserve] does to both: it gathers the committed state of the batch in
    front of the model without changing anything a request can see. *)

From S2P Require Import Prelude RequestIndex EngineInvariants StateManifest StateManifestProofs FixedStateSpec FixedStatePool FixedStateDevice.

Open Scope nat_scope.

(** ** What a request can see *)

Section pool_state.
Context {V : Type} `{!DeviceInterface V}.
Implicit Types (p : FixedStatePool V).

(** Device memory once the deferred replays have run. *)
Definition settled p : loc -> V := apply_replays (deferred_replay p) (memory (device p)).

(** The committed row of a tensor, and the number of tokens it stands for. *)
Definition visible p (id : N) (t : nat) : option V :=
  i ← Find (committed_index p) id; s ← slots p !! i; spec ← tensors (config p) !! t;
  Some (settled p (bank_loc spec t (active_bank s) i)).
Definition visible_tokens p (id : N) : option nat :=
  i ← Find (committed_index p) id; s ← slots p !! i; Some (committed_tokens s).

(** Locations whose last write the device has not confirmed. *)
Definition at_risk p : list loc := in_flight (device p) ++ (deferred_replay p ≫= destinations).

(** ** The invariant *)

(** A free slot is clean, a reserved slot belongs to the live reservation, and a committed
    slot to a request alone. *)
Definition slot_ok (active : N) (s : Slot) : Prop :=
  (slot_generation s < two64)%N /\
  match ownership s with
  | SlotFree => slot_request_id s = 0%N /\ state_generation s = 0%N /\ committed_tokens s = 0 /\ slot_reservation_id s = 0%N
  | SlotReserved => slot_request_id s <> 0%N /\ state_generation s = 0%N /\ slot_reservation_id s = active /\ active <> 0%N
  | SlotCommitted => slot_request_id s <> 0%N /\ (state_generation s < two64)%N /\ slot_reservation_id s = 0%N
  end.

Definition owns (ss : list Slot) (id : N) (i : nat) : Prop :=
  exists s, ss !! i = Some s /\ ownership s = SlotCommitted /\ slot_request_id s = id.

Definition built_views (c : PoolConfig) (k : ViewKey) : result FixedStateReservationViews :=
  BuildReservationViews (contract c) (key_rows k) (key_direct k) (key_direct_active_bank k) (key_first_direct_slot k)
    (key_captures k) (tensors c).

Record pool_ok p : Prop := mk_pool_ok
  { po_slots : length (slots p) = capacity (config p);
    po_index : index_wf (committed_index p);
    po_max : max_entries_ (committed_index p) = capacity (config p);
    po_owner : forall id i, contents (committed_index p) !! id = Some i <-> owns (slots p) id i;
    po_slot : forall i s, slots p !! i = Some s -> slot_ok (active_reservation_id p) s;
    po_unique : forall i j s s', slots p !! i = Some s -> slots p !! j = Some s' -> ownership s <> SlotFree ->
      ownership s' <> SlotFree -> slot_request_id s = slot_request_id s' -> i = j;
    po_next : (next_reservation_id p < two64)%N;
    po_views : forall k v, (k, v) ∈ view_cache p -> built_views (config p) k = Ok v;
    po_checkpoints : forall i c, prefix_checkpoints p !! i = Some c -> (checkpoint_generation c < two64)%N }.

Lemma get_slot_bind {A} p i s (k : Slot -> M (FixedStatePool V) FixedStateError A) :
  slots p !! i = Some s -> (get_slot i ≫= k) p = k s p.
Proof. intros Hs. unfold get_slot, mbind, M_bind, gets, id. by rewrite Hs. Qed.

Lemma Find_owner p id i : pool_ok p -> Find (committed_index p) id = Some i <-> owns (slots p) id i.
Proof. intros H. rewrite (Find_contents _ _ (po_index _ H)). apply (po_owner _ H). Qed.

Lemma Find_none p id : pool_ok p -> Find (committed_index p) id = None -> forall i, ~ owns (slots p) id i.
Proof. intros H Hn i Ho. apply (Find_owner _ _ _ H) in Ho. congruence. Qed.

(** ** Planning the rows *)

Definition row_ok p (r : RowPlan) : Prop :=
  row_request_id r <> 0%N /\
  exists s, slots p !! row_slot r = Some s /\
    if row_provisional r then
      (forall i, ~ owns (slots p) (row_request_id r) i) /\ ownership s = SlotFree /\ row_generation r = (slot_generation s + 1)%N /\
      (slot_generation s + 1 < two64)%N /\ row_expected r = 0%N
    else
      ownership s = SlotCommitted /\ slot_request_id s = row_request_id r /\ row_generation r = slot_generation s /\
      row_expected r = state_generation s /\ row_checkpoint r = None.

Record rows_ok p (requests : list FixedStateReservationRequest) (rows : list RowPlan) : Prop := mk_rows_ok
  { rw_rows : Forall (row_ok p) rows;
    rw_ids : NoDup (row_request_id <$> rows);
    rw_slots : NoDup (row_slot <$> rows);
    rw_requests : Forall2 (fun q r => row_request_id r = fr_request_id q /\ row_target r = fr_target_tokens q /\
      (row_provisional r = true -> row_checkpoint r = fr_prefix_checkpoint q)) requests rows }.

Lemma rw_row p rs rows r : rows_ok p rs rows -> r ∈ rows -> row_ok p r.
Proof. intros H. apply Forall_forall, H. Qed.

Record planning_ok p (requests : list FixedStateReservationRequest) (st : Planning) : Prop := mk_planning_ok
  { pl_rows : rows_ok p requests (planned st);
    pl_seen : forall id, id ∈ row_request_id <$> planned st -> id ∈ seen_ids st;
    pl_taken : length (slot_taken st) = length (slots p);
    pl_free : forall i, slot_taken st !! i = Some false ->
      (exists s, slots p !! i = Some s /\ ownership s = SlotFree) /\ i ∉ row_slot <$> planned st }.

Lemma skip_taken_spec l : forall i j, skip_taken l i = Some j -> i <= j /\ l !! (j - i) = Some false.
Proof.
  induction l as [|[] l IH]; intros i j; cbn; [done| |].
  - intros [Hle Hl]%IH. split; [lia|]. replace (j - i) with (S (j - S i)) by lia. done.
  - intros [= <-]. split; [lia|]. by rewrite Nat.sub_diag.
Qed.

Lemma rows_snoc p rs rows q r : rows_ok p rs rows -> row_ok p r -> row_request_id r ∉ row_request_id <$> rows ->
  row_slot r ∉ row_slot <$> rows -> row_request_id r = fr_request_id q -> row_target r = fr_target_tokens q ->
  (row_provisional r = true -> row_checkpoint r = fr_prefix_checkpoint q) -> rows_ok p (rs ++ [q]) (rows ++ [r]).
Proof.
  intros [H1 H2 H3 H4] Hr Hi Hs Hq Ht Hc. split.
  - by apply Forall_app_2; [|constructor].
  - rewrite fmap_app. apply NoDup_app. split; [done|]. split; [|apply NoDup_singleton]. intros x Hx ->%list_elem_of_singleton. done.
  - rewrite fmap_app. apply NoDup_app. split; [done|]. split; [|apply NoDup_singleton]. intros x Hx ->%list_elem_of_singleton. done.
  - apply Forall2_app; [done|]. by constructor.
Qed.

(** A request that is not resident. *)
Lemma plan_admission_run p rs st q : pool_ok p -> planning_ok p rs st -> fr_request_id q <> 0%N ->
  fr_request_id q ∉ seen_ids st -> (forall i, ~ owns (slots p) (fr_request_id q) i) ->
  match plan_admission st (fr_request_id q :: seen_ids st) q p with
  | (Ok st', p') => p' = p /\ planning_ok p (rs ++ [q]) st'
  | (Throw _, p') => p' = p
  | _ => False end.
Proof.
  intros Hp [Hrows Hseen Htaken Hfree] Hid Hnew Hnone. unfold plan_admission.
  destruct (skip_taken _ _) as [i|] eqn:Hskip; [|done]. apply skip_taken_spec in Hskip as [Hle Hi].
  rewrite lookup_drop in Hi. replace (next_free_index st + (i - next_free_index st)) with i in Hi by lia.
  destruct (Hfree i Hi) as [(s & Hs & Hown) Hni]. rewrite (get_slot_bind _ _ _ _ Hs). unfold mbind, M_bind, throw_if.
  destruct (N.eqb_spec (slot_generation s) u64_max) as [|Hg]; [done|]. cbn. split; [done|].
  destruct (po_slot _ Hp _ _ Hs) as [Hgen _].
  split; cbn.
  - apply rows_snoc; try done; [|intros Hin; by apply Hnew, Hseen].
    split; [done|]. exists s. cbn. split_and!; try done. unfold u64_max, two64 in *. lia.
  - intros x. rewrite fmap_app, elem_of_app. intros [Hx|Hx]; [right; by apply Hseen|]. cbn in Hx.
    apply list_elem_of_singleton in Hx as ->. by left.
  - by rewrite length_insert.
  - intros j Hj. apply list_lookup_insert_Some in Hj as [(_ & [=] & _)|[Hij Hj]]. destruct (Hfree j Hj) as [Hjs Hjn].
    split; [done|]. rewrite fmap_app, elem_of_app. intros [?|Hx]; [done|]. cbn in Hx. apply list_elem_of_singleton in Hx. done.
Qed.

Lemma check_checkpoint_run p c n :
  match (match c with
         | Some c => _ ← ValidatePrefixCheckpoint c; throw_if (n <=? TokenCount c) CheckpointCoversTarget
         | None => mret tt end : M (FixedStatePool V) FixedStateError unit) p with
  | (Ok _, p') => p' = p
  | (Throw _, p') => p' = p
  | _ => False end.
Proof.
  destruct c as [c|]; [|done]. unfold ValidatePrefixCheckpoint, mbind, M_bind, gets, throw_if, id. cbn.
  destruct (Nat.leb_spec (length (prefix_checkpoints p)) (cp_slot c)) as [Hle|Hlt]; [by rewrite orb_true_r|]. rewrite orb_false_r.
  destruct (negb _); [done|]. cbn. apply lookup_lt_is_Some in Hlt as [s ->]. destruct (_ || _); [done|]. cbn. by destruct (_ <=? _).
Qed.

Lemma FindSlot_run p id : pool_ok p ->
  (exists i s, owns (slots p) id i /\ slots p !! i = Some s /\ ownership s = SlotCommitted /\ slot_request_id s = id /\
     FindSlot id p = (Ok (Some (i, s)), p)) \/
  ((forall i, ~ owns (slots p) id i) /\ FindSlot id p = (Ok None, p)).
Proof.
  intros Hp. unfold FindSlot. rewrite gets_bind. unfold Datatypes.id. destruct (Find (committed_index p) id) as [i|] eqn:Hf.
  - left. apply (Find_owner _ _ _ Hp) in Hf as Ho. destruct Ho as (s & Hs & Hc & Hi). exists i, s. split; [by exists s|].
    split_and!; try done. by rewrite (get_slot_bind _ _ _ _ Hs).
  - right. split; [by apply Find_none|done].
Qed.

Lemma plan_row_run p rs st q : pool_ok p -> planning_ok p rs st ->
  match plan_row st q p with
  | (Ok st', p') => p' = p /\ planning_ok p (rs ++ [q]) st'
  | (Throw _, p') => p' = p
  | _ => False end.
Proof.
  intros Hp Hst. unfold plan_row. destruct (_ || _) eqn:Hbad; [done|]. rewrite (throw_if_false _ _ _ _ eq_refl).
  apply orb_false_iff in Hbad as [Hid%N.eqb_neq Hnew%bool_decide_eq_false]. cbv zeta.
  pose proof (check_checkpoint_run p (fr_prefix_checkpoint q) (fr_target_tokens q)) as Hcp.
  destruct (FindSlot_run p (fr_request_id q) Hp) as [(i & s & Ho & Hs & Hc & Hi & Hf)|[Hnone Hf]];
    rewrite (bind_ok _ _ _ _ _ Hf); unfold mbind at 1, M_bind at 1;
    destruct ((match fr_prefix_checkpoint q with _ => _ end) p) as [[[]|e| |] p1]; try done; subst p1.
  - rewrite bool_decide_true by done. unfold mbind, M_bind. case_bool_decide as Hck; [done|]. cbn. split; [done|].
    destruct Hst as [Hrows Hseen Htaken Hfree]. split; cbn.
    + apply rows_snoc; try done.
      * split; [done|]. exists s. cbn. split_and!; try done.
      * cbn. intros Hin. by apply Hnew, Hseen.
      * cbn. intros (r & -> & Hr)%list_elem_of_fmap. destruct (rw_row _ _ _ _ Hrows Hr) as (Hr0 & s' & Hs' & Hrest). rewrite Hs in Hs'. injection Hs' as <-. destruct (row_provisional r).
        -- destruct Hrest as (_ & Hown & _). congruence.
        -- destruct Hrest as (_ & Hid' & _). apply Hnew, Hseen. rewrite <- Hi, Hid'. by apply list_elem_of_fmap_2.
    + intros x. rewrite fmap_app, elem_of_app. intros [Hx|Hx]; [right; by apply Hseen|]. cbn in Hx.
      apply list_elem_of_singleton in Hx as ->. by left.
    + done.
    + intros j Hj. destruct (Hfree j Hj) as [(s' & Hs' & Hown) Hjn]. split; [eauto|]. rewrite fmap_app, elem_of_app.
      intros [?|Hx]; [done|]. cbn in Hx. apply list_elem_of_singleton in Hx as ->. congruence.
  - by apply plan_admission_run.
Qed.

Lemma plan_rows_run p qs : pool_ok p -> forall rs st, planning_ok p rs st ->
  match plan_rows qs st p with
  | (Ok st', p') => p' = p /\ planning_ok p (rs ++ qs) st'
  | (Throw _, p') => p' = p
  | _ => False end.
Proof.
  intros Hp. induction qs as [|q qs IH]; intros rs st Hst; cbn [plan_rows]; [by rewrite app_nil_r|].
  unfold mbind, M_bind. pose proof (plan_row_run p rs st q Hp Hst) as H. destruct (plan_row st q p) as [[st'|e| |] p1]; try done.
  destruct H as [-> Hst']. specialize (IH _ _ Hst'). by rewrite <- app_assoc in IH.
Qed.

Lemma planning_start p : planning_ok p []
  (mkPlanning [] [] ((fun s => negb (bool_decide (ownership s = SlotFree))) <$> slots p) 0).
Proof.
  split; cbn; [by split; constructor|done|apply length_fmap|]. intros i Hi. split; [|apply not_elem_of_nil].
  rewrite list_lookup_fmap in Hi. destruct (slots p !! i) as [s|]; [|done]. injection Hi as Hi.
  exists s. split; [done|]. by apply negb_false_iff, bool_decide_eq_true in Hi.
Qed.

(** ** Updating slots *)

Definition set_slots (ss : list Slot) p : FixedStatePool V := p <| slots := ss |>.

Lemma for_each_slots {A} (body : A -> M (FixedStatePool V) FixedStateError unit) (F : A -> Slot -> Slot) (g : A -> nat) (l : list A) :
  (forall x p', x ∈ l -> is_Some (slots p' !! g x) -> body x p' = (Ok tt, set_slots (alter (F x) (g x) (slots p')) p')) ->
  NoDup (g <$> l) -> forall p, (forall x, x ∈ l -> is_Some (slots p !! g x)) ->
  exists ss, for_each body l p = (Ok tt, set_slots ss p) /\ length ss = length (slots p) /\
    (forall x, x ∈ l -> ss !! g x = F x <$> slots p !! g x) /\ (forall i, i ∉ g <$> l -> ss !! i = slots p !! i).
Proof.
  induction l as [|x l IH]; intros Hb Hnd p Hin.
  - exists (slots p). split; [by destruct p|]. split; [done|]. split; [|done]. intros x Hx. by apply elem_of_nil in Hx.
  - rewrite fmap_cons in Hnd. apply NoDup_cons in Hnd as [Hx Hnd]. cbn [for_each].
    rewrite (bind_ok _ _ _ _ _ (Hb x p ltac:(by left) ltac:(apply Hin; by left))).
    set (p1 := set_slots _ p). destruct (IH ltac:(intros; apply Hb; [by right|done]) Hnd p1) as (ss & Hr & Hlen & Hh & Ho).
    { intros y Hy. apply lookup_lt_is_Some. cbn. rewrite length_alter. apply lookup_lt_is_Some, Hin. by right. }
    exists ss. split; [rewrite Hr; by destruct p|]. cbn in Hlen. rewrite length_alter in Hlen. split; [done|]. split.
    + intros y [->|Hy]%elem_of_cons.
      * rewrite Ho by done. cbn. by rewrite list_lookup_alter_eq.
      * rewrite Hh by done. cbn. rewrite list_lookup_alter_ne; [done|]. intros Heq. apply Hx. rewrite Heq. by apply list_elem_of_fmap_2.
    + intros i Hi. rewrite fmap_cons, not_elem_of_cons in Hi. rewrite Ho by apply Hi. cbn. apply list_lookup_alter_ne. destruct Hi as [Hi _]. congruence.
Qed.

Lemma update_slot_run p i f : is_Some (slots p !! i) -> update_slot i f p = (Ok tt, set_slots (alter f i (slots p)) p).
Proof.
  intros [s Hs]. unfold update_slot. rewrite (get_slot_bind _ _ _ _ Hs). unfold modify, set_slots. do 2 f_equal.
  apply list_eq. intros j. destruct (decide (i = j)) as [<-|Hne].
  - rewrite list_lookup_insert_eq, list_lookup_alter_eq, Hs by (by eapply lookup_lt_Some). done.
  - by rewrite list_lookup_insert_ne, list_lookup_alter_ne.
Qed.

(** ** One bank for the whole batch *)

Definition norm_copies (ss : list Slot) (rows : list RowPlan) (target : bool) (ts : nat * TensorSpec) : list (loc * loc) :=
  if share_past_present_buffer ts.2 then []
  else rows ≫= fun r =>
    match ss !! row_slot r with
    | Some s => if eqb (active_bank s) target then []
                else [(bank_loc ts.2 ts.1 target (row_slot r), bank_loc ts.2 ts.1 (active_bank s) (row_slot r))]
    | None => []
    end.

Definition off_target (ss : list Slot) (target : bool) (r : RowPlan) : bool :=
  from_option (fun s => negb (eqb (active_bank s) target)) false (ss !! row_slot r).

Lemma normalize_row_prog p t spec target r b : is_Some (slots p !! row_slot r) ->
  dev_prog p (normalize_row t spec target b r)
    (match slots p !! row_slot r with
     | Some s => if eqb (active_bank s) target then []
                 else [(bank_loc spec t target (row_slot r), bank_loc spec t (active_bank s) (row_slot r))]
     | None => [] end) (b || off_target (slots p) target r).
Proof.
  intros [s Hs]. unfold normalize_row, off_target. eapply dev_get_slot; [done|]. rewrite Hs. cbn [from_option].
  destruct (eqb (active_bank s) target); cbn [negb].
  - rewrite orb_false_r. apply dev_ret.
  - rewrite orb_true_r. change [(?a, ?b)] with ([(a, b)] ++ []). eapply dev_bind; [apply dev_copy|]. intros. apply dev_ret.
Qed.

Lemma normalize_prog p rows target (ts : list (nat * TensorSpec)) : Forall (fun r => is_Some (slots p !! row_slot r)) rows ->
  dev_prog p (fold_m (normalize_tensor rows target) ts false) (ts ≫= norm_copies (slots p) rows target)
    (existsb (fun x => negb (share_past_present_buffer x.2) && existsb (off_target (slots p) target) rows) ts).
Proof.
  intros Hrows. rewrite Forall_forall in Hrows.
  apply (dev_fold _ _ (fun x => negb (share_past_present_buffer x.2) && existsb (off_target (slots p) target) rows) ts p false).
  intros p' cs [t spec] b Hr _. destruct (ran_host _ _ _ Hr) as (_ & Hss & _). unfold normalize_tensor, norm_copies. cbn.
  destruct (share_past_present_buffer spec); cbn; [rewrite orb_false_r; apply dev_ret|].
  apply (dev_fold _ _ (off_target (slots p) target)). intros p'' cs' r b' Hr' Hin.
  destruct (ran_host _ _ _ Hr') as (_ & Hss' & _). rewrite <- Hss, <- Hss'. apply normalize_row_prog. rewrite Hss', Hss. by apply Hrows.
Qed.

Lemma elem_imap_pair {A} (l : list A) t x : (t, x) ∈ imap pair l <-> l !! t = Some x.
Proof.
  rewrite list_elem_of_lookup. split.
  - intros [i Hi]. rewrite list_lookup_imap in Hi. destruct (l !! i) eqn:E; cbn in Hi; [|done]. by injection Hi as <- <-.
  - intros H. exists t. by rewrite list_lookup_imap, H.
Qed.

Lemma elem_norm_copies p rows target d s0 : (d, s0) ∈ imap pair (tensors (config p)) ≫= norm_copies (slots p) rows target <->
  exists t spec r s, tensors (config p) !! t = Some spec /\ share_past_present_buffer spec = false /\ r ∈ rows /\
    slots p !! row_slot r = Some s /\ active_bank s = negb target /\
    d = bank_loc spec t target (row_slot r) /\ s0 = bank_loc spec t (active_bank s) (row_slot r).
Proof.
  rewrite list_elem_of_bind. split.
  - intros ([t spec] & Hin & Ht%elem_imap_pair). unfold norm_copies in Hin. cbn in Hin.
    destruct (share_past_present_buffer spec) eqn:Hsh; [by apply elem_of_nil in Hin|].
    apply list_elem_of_bind in Hin as (r & Hin & Hr). destruct (slots p !! row_slot r) as [s|] eqn:Hs; [|by apply elem_of_nil in Hin].
    destruct (eqb (active_bank s) target) eqn:He; [by apply elem_of_nil in Hin|]. apply list_elem_of_singleton in Hin as [= -> ->].
    exists t, spec, r, s. split_and!; try done. destruct (active_bank s), target; done.
  - intros (t & spec & r & s & Ht & Hsh & Hr & Hs & Ha & -> & ->). exists (t, spec). split; [|by apply elem_imap_pair].
    unfold norm_copies. cbn. rewrite Hsh. apply list_elem_of_bind. exists r. split; [|done]. rewrite Hs.
    rewrite Ha. destruct target; cbn; by left.
Qed.

Lemma bank_neq spec b : share_past_present_buffer spec = false -> bank spec (negb b) <> bank spec b.
Proof. intros H [=]. rewrite H in *. by destruct b. Qed.

Lemma norm_dst_private p rows target l : l ∈ (imap pair (tensors (config p)) ≫= norm_copies (slots p) rows target).*1 ->
  exists t spec i s, tensors (config p) !! t = Some spec /\ share_past_present_buffer spec = false /\ slots p !! i = Some s /\
    active_bank s = negb target /\ l = bank_loc spec t target i /\ exists r, r ∈ rows /\ row_slot r = i.
Proof.
  intros ([d s0] & -> & H)%list_elem_of_fmap. apply elem_norm_copies in H as (t & spec & r & s & H1 & H2 & H3 & H4 & H5 & -> & ->).
  exists t, spec, (row_slot r), s. eauto 10.
Qed.

(** Normalization never writes a visible row. *)
Lemma norm_not_visible p rows target t spec i s : tensors (config p) !! t = Some spec -> slots p !! i = Some s ->
  bank_loc spec t (active_bank s) i ∉ (imap pair (tensors (config p)) ≫= norm_copies (slots p) rows target).*1.
Proof.
  intros Ht Hs (t' & spec' & i' & s' & Ht' & Hsh & Hs' & Ha & Heq & _)%norm_dst_private.
  injection Heq as -> Hb <-. rewrite Ht in Ht'. injection Ht' as <-. rewrite Hs in Hs'. injection Hs' as <-.
  rewrite Ha, Hsh in Hb. by destruct target.
Qed.


Definition set_device (d : Device V) p : FixedStatePool V := p <| device := d |>.

(** Every row keeps its owner and its visible contents, possibly in the other bank. *)
Definition rehoused p (ss : list Slot) (d : Device V) : Prop :=
  length ss = length (slots p) /\
  forall i s, slots p !! i = Some s -> exists b, ss !! i = Some (s <| active_bank := b |>) /\
    forall t spec, tensors (config p) !! t = Some spec ->
      memory d (bank_loc spec t b i) = memory (device p) (bank_loc spec t (active_bank s) i).

Definition not_bank (l : loc) : Prop := forall b, loc_buffer l <> Bank b.

(** The initial rows and the rows of checkpoints, which a step only reads. *)
Definition static (l : loc) : Prop := loc_buffer l = ZeroRow \/ loc_buffer l = CheckpointBank.

Lemma static_other l : static l -> not_bank l /\ loc_buffer l <> GatheredStaging.
Proof. intros [H|H]; (split; [intros b|]); by rewrite H. Qed.

Lemma norm_copies_memory p rows target fl fs (cs := imap pair (tensors (config p)) ≫= norm_copies (slots p) rows target) :
  let d := mkDevice (run_copies cs (memory (device p))) fl fs in
  (forall t spec i s, tensors (config p) !! t = Some spec -> slots p !! i = Some s ->
     memory d (bank_loc spec t (active_bank s) i) = memory (device p) (bank_loc spec t (active_bank s) i) /\
     (i ∈ row_slot <$> rows -> memory d (bank_loc spec t target i) = memory (device p) (bank_loc spec t (active_bank s) i))) /\
  (forall l, not_bank l -> memory d l = memory (device p) l).
Proof.
  cbn. assert (forall t spec i s, tensors (config p) !! t = Some spec -> slots p !! i = Some s ->
    run_copies cs (memory (device p)) (bank_loc spec t (active_bank s) i) = memory (device p) (bank_loc spec t (active_bank s) i)) as Hkeep.
  { intros t spec i s Ht Hs. apply run_copies_other. by apply norm_not_visible. }
  split.
  - intros t spec i s Ht Hs. split; [by apply Hkeep|]. intros (r & -> & Hr)%list_elem_of_fmap.
    destruct (share_past_present_buffer spec) eqn:Hsh.
    { specialize (Hkeep t spec _ _ Ht Hs). unfold bank_loc, bank in *. rewrite Hsh, !andb_false_r in *. done. }
    destruct (eqb (active_bank s) target) eqn:Ha; [apply eqb_prop in Ha as <-; by apply Hkeep|].
    assert (active_bank s = negb target) as Ha' by (by destruct (active_bank s), target).
    apply run_copies_hit.
    + intros [d0 s0] Hc. apply elem_norm_copies in Hc as (t' & spec' & r' & s' & Ht' & _ & _ & Hs' & _ & -> & ->). by apply norm_not_visible.
    + intros d0 s1 s2 (t1 & spec1 & r1 & sl1 & Ht1 & _ & _ & Hs1 & _ & -> & ->)%elem_norm_copies
        (t2 & spec2 & r2 & sl2 & Ht2 & _ & _ & Hs2 & _ & Heq & ->)%elem_norm_copies.
      injection Heq as -> Hb Hrow. rewrite Ht1 in Ht2. injection Ht2 as <-. rewrite Hrow, Hs2 in Hs1. injection Hs1 as <-. by rewrite Hrow.
    + apply elem_norm_copies. exists t, spec, r, s. done.
  - intros l Hl. apply run_copies_other. intros (t & spec & i & s & _ & _ & _ & _ & -> & _)%norm_dst_private.
    by eapply Hl.
Qed.

(** Whether normalization has anything to copy. *)
Definition norm_flag p (rows : list RowPlan) (target : bool) : bool :=
  existsb (fun x => negb (share_past_present_buffer x.2) && existsb (off_target (slots p) target) rows) (imap pair (tensors (config p))).

Lemma norm_flag_true p rows target t spec r s : tensors (config p) !! t = Some spec -> share_past_present_buffer spec = false ->
  r ∈ rows -> slots p !! row_slot r = Some s -> active_bank s <> target -> norm_flag p rows target = true.
Proof.
  intros Ht Hsh Hr Hs Ha. apply existsb_exists. exists (t, spec). split; [by apply list_elem_of_In, elem_imap_pair|].
  cbn. rewrite Hsh. cbn. apply existsb_exists. exists r. split; [by apply list_elem_of_In|]. unfold off_target. rewrite Hs. cbn.
  by destruct (active_bank s), target.
Qed.

Lemma norm_nothing p rows target : norm_flag p rows target = false ->
  imap pair (tensors (config p)) ≫= norm_copies (slots p) rows target = [] /\
  (Forall (fun spec => share_past_present_buffer spec = true) (tensors (config p)) \/
   forall r s, r ∈ rows -> slots p !! row_slot r = Some s -> active_bank s = target).
Proof.
  intros Hflag. split.
  - destruct (_ ≫= _) as [|[d0 s0] cs] eqn:Hcs; [done|]. exfalso.
    assert ((d0, s0) ∈ imap pair (tensors (config p)) ≫= norm_copies (slots p) rows target) as Hin by (rewrite Hcs; by left).
    apply elem_norm_copies in Hin as (t & spec & r & s & Ht & Hsh & Hr & Hs & Ha & _).
    rewrite (norm_flag_true p rows target t spec r s) in Hflag; try done. rewrite Ha. by destruct target.
  - destruct (decide (Forall (fun spec => share_past_present_buffer spec = true) (tensors (config p)))) as [|Hex]; [by left|right].
    intros r s Hr Hs. apply not_Forall_Exists, Exists_exists in Hex as (spec & Hspec & Hsh); [|apply _].
    apply list_elem_of_lookup in Hspec as [t Ht]. apply not_true_is_false in Hsh.
    destruct (decide (active_bank s = target)) as [|Hne]; [done|]. by rewrite (norm_flag_true p rows target t spec r s) in Hflag.
Qed.

(** A failed device operation: the pool is unhealthy and some locations are lost. *)
Definition failed_with p (cs : list (loc * loc)) p' : Prop :=
  exists d, p' = set_device d p <| healthy := false |> /\
    forall l, l ∉ in_flight (device p) -> l ∉ cs.*1 -> memory d l = memory (device p) l.

Lemma guarded_dev {A} (m : M (FixedStatePool V) FixedStateError A) p p0 cs (Q : A -> FixedStatePool V -> Prop) :
  match m p with (Ok a, p') => Q a p' | (Throw _, p') => broke p0 cs p' | _ => False end ->
  match guarded fail_pool m p with (Ok a, p') => Q a p' | (Throw _, p') => failed_with p0 cs p' | _ => False end.
Proof.
  unfold guarded. destruct (m p) as [[a|e| |] p1]; try done. intros Hb.
  assert (broke (p0 <| healthy := false |>) cs (p1 <| healthy := false |>)) as Hb' by (destruct Hb as (d & -> & Hd); by exists d).
  apply drain_broke in Hb' as (d & Heq & Hm & _). unfold mbind, M_bind, fail_pool, modify. cbn in *.
  exists d. split; [exact Heq|]. intros l H1 H2. apply Hm. rewrite elem_of_app. by intros [?|?].
Qed.

(** The visible row of every slot is where it was, and so is every static row. *)
Definition unmoved p (d : Device V) : Prop :=
  (forall t spec i s, tensors (config p) !! t = Some spec -> slots p !! i = Some s ->
     bank_loc spec t (active_bank s) i ∉ in_flight (device p) ->
     memory d (bank_loc spec t (active_bank s) i) = memory (device p) (bank_loc spec t (active_bank s) i)) /\
  (forall l, static l -> l ∉ in_flight (device p) -> memory d l = memory (device p) l).

Definition normalized p (rows : list RowPlan) (target : bool) p' : Prop :=
  exists ss d, p' = set_slots ss (set_device d p) /\ rehoused p ss d /\
    (forall l, not_bank l -> memory d l = memory (device p) l) /\
    (in_flight d = [] \/ ss = slots p /\ in_flight d = in_flight (device p)) /\
    (Forall (fun spec => share_past_present_buffer spec = true) (tensors (config p)) \/
     forall r s, r ∈ rows -> ss !! row_slot r = Some s -> active_bank s = target).

(** Flipping the banks after the copies are done. *)
Lemma flip_rows_run p rows target fs (cs := imap pair (tensors (config p)) ≫= norm_copies (slots p) rows target) :
  Forall (fun r => is_Some (slots p !! row_slot r)) rows -> NoDup (row_slot <$> rows) ->
  exists p', for_each (set_bank target) rows (set_device (mkDevice (run_copies cs (memory (device p))) [] fs) p) = (Ok tt, p') /\
    normalized p rows target p'.
Proof.
  intros Hrows Hnd. set (d := mkDevice _ _ _).
  destruct (for_each_slots (set_bank target) (fun _ s => s <| active_bank := target |>) row_slot rows) with (p := set_device d p)
    as (ss & Hrun & Hlen & Hhit & Hother); [|done|by apply Forall_forall|].
  { intros r p' _ Hr. by apply update_slot_run. }
  rewrite Hrun. eexists. split; [done|]. exists ss, d. split; [done|].
  destruct (norm_copies_memory p rows target [] fs) as [Hm1 Hm2]. split; [|split; [done|split]].
  - split; [done|]. intros i s Hs. destruct (decide (i ∈ row_slot <$> rows)) as [Hin|Hout].
    + exists target. split; [|intros t spec Ht; by apply (Hm1 t spec i s Ht Hs)].
      apply list_elem_of_fmap in Hin as (r & -> & Hr). rewrite (Hhit r Hr). cbn. by rewrite Hs.
    + exists (active_bank s). split; [rewrite (Hother i Hout); cbn; rewrite Hs; by destruct s|]. intros t spec Ht. by apply (Hm1 t spec i s Ht Hs).
  - by left.
  - right. intros r s Hr. rewrite (Hhit r Hr). cbn. intros (s0 & Hs0 & ->)%fmap_Some. done.
Qed.

Lemma normalize_run p rows target : Forall (fun r => is_Some (slots p !! row_slot r)) rows -> NoDup (row_slot <$> rows) ->
  match normalize rows target p with
  | (Ok _, p') => normalized p rows target p'
  | (Throw _, p') => exists d, p' = set_device d p <| healthy := false |> /\ unmoved p d
  | _ => False end.
Proof.
  intros Hrows Hnd. set (cs := imap pair (tensors (config p)) ≫= norm_copies (slots p) rows target).
  assert (match (p0 ← gets Datatypes.id; enqueued ← fold_m (normalize_tensor rows target) (imap pair (tensors (config p0))) false;
    if (enqueued : bool) then _ ← Synchronize; for_each (set_bank target) rows else mret tt) p with
    | (Ok _, p') => normalized p rows target p' | (Throw _, p') => broke p cs p' | _ => False end) as Hin.
  { rewrite gets_bind. pose proof (normalize_prog p rows target (imap pair (tensors (config p))) Hrows) as Hprog.
    fold (norm_flag p rows target) in Hprog. fold cs in Hprog. pose proof (dev_sync _ _ _ _ Hprog) as Hsync.
    unfold dev_prog in Hprog. unfold Datatypes.id. destruct (fold_m _ _ _ p) as [[b|e| |] p1] eqn:Hf; try done.
    2: { by rewrite (bind_throw _ _ _ _ _ Hf). }
    rewrite (bind_ok _ _ _ _ _ Hf) in Hsync. rewrite (bind_ok _ _ _ _ _ Hf). destruct Hprog as [-> Hran]. destruct (norm_flag p rows target) eqn:Hflag.
    - destruct (Synchronize p1) as [[u|e| |] p2] eqn:Hs; try done; [|by rewrite (bind_throw _ _ _ _ _ Hs)].
      rewrite (bind_ok _ _ _ _ _ Hs). destruct Hsync as [fs ->].
      destruct (flip_rows_run p rows target fs Hrows Hnd) as (p' & Hrun & Hn). fold cs in Hrun. unfold set_device in Hrun. by rewrite Hrun.
    - destruct (norm_nothing p rows target Hflag) as [Hnil Hbank]. fold cs in Hnil. rewrite Hnil in Hran. destruct Hran as [fs ->].
      exists (slots p), (mkDevice (memory (device p)) (in_flight (device p)) fs).
      split; [rewrite app_nil_r; by destruct p|]. split; [|split; [done|split; [by right|done]]]. split; [done|]. intros i s Hs.
      exists (active_bank s). split; [rewrite Hs; by destruct s|done]. }
  apply (guarded_dev _ p p cs (fun _ => normalized p rows target)) in Hin. unfold normalize. destruct (guarded _ _ p) as [[u|e| |] p1]; try done.
  destruct Hin as (d & -> & Hd). exists d. split; [done|]. split; [intros t spec i s Ht Hs Hl; apply Hd; [done|]; by apply norm_not_visible|].
  intros l [Hnb _]%static_other Hl. apply Hd; [done|]. intros (t & spec & i & s & _ & _ & _ & _ & -> & _)%norm_dst_private. by eapply Hnb.
Qed.

(** ** Views *)

Definition set_views (vc : list (ViewKey * FixedStateReservationViews)) p : FixedStatePool V := p <| view_cache := vc |>.

Lemma reservation_views_run p k bank first : pool_ok p -> bank = key_direct_active_bank k ->
  (key_direct k = true -> first = key_first_direct_slot k) ->
  match reservation_views k bank first p with
  | (Ok v, p') => built_views (config p) k = Ok v /\ exists vc, p' = set_views vc p /\
      forall k v, (k, v) ∈ vc -> built_views (config p) k = Ok v
  | (Throw _, p') => p' = p
  | _ => False end.
Proof.
  intros Hp Hb Hf. unfold reservation_views. rewrite gets_bind. unfold Datatypes.id.
  destruct (find_views k (view_cache p)) as [v|] eqn:Hfind.
  - assert ((k, v) ∈ view_cache p) as Hin.
    { unfold find_views in Hfind. destruct (List.find _ _) as [[k' v']|] eqn:Hl; [|done]. injection Hfind as <-.
      apply List.find_some in Hl as [Hl Hk%bool_decide_eq_true]. cbn in Hk. subst k'. by apply list_elem_of_In. }
    split; [by apply (po_views _ Hp)|]. exists (view_cache p). split; [by destruct p|apply (po_views _ Hp)].
  - assert (BuildReservationViews (contract (config p)) (key_rows k) (key_direct k) bank first (key_captures k) (tensors (config p)) =
      built_views (config p) k) as Heq.
    { unfold built_views. subst bank. destruct (key_direct k); [by rewrite Hf|apply views_staged]. }
    rewrite Heq. pose proof (BuildReservationViews_total (contract (config p)) (key_rows k) (key_direct k) (key_direct_active_bank k)
      (key_first_direct_slot k) (key_captures k) (tensors (config p))) as Htot. fold (built_views (config p) k) in Htot.
    unfold lift_result, lift, mbind, M_bind. destruct (built_views (config p) k) as [v|e| |] eqn:Hbuilt; try done. cbn. split; [done|].
    eexists. split; [done|]. intros k' v' [Hin|Hin]%elem_of_app.
    + apply (po_views _ Hp). case_match; [|done]. destruct (view_cache p); [done|]. by right.
    + by apply list_elem_of_singleton in Hin as [= -> ->].
Qed.

(** ** Gathering *)

Definition gather_source (ss : list Slot) (t : nat) (spec : TensorSpec) (r : RowPlan) : loc :=
  if row_provisional r then
    match row_checkpoint r with Some c => mkLoc t CheckpointBank (cp_slot c) | None => mkLoc t ZeroRow 0 end
  else bank_loc spec t (from_option active_bank false (ss !! row_slot r)) (row_slot r).

Definition gather_copies (ss : list Slot) (rows : list RowPlan) (ts : nat * TensorSpec) : list (loc * loc) :=
  imap (fun i r => (mkLoc ts.1 GatheredStaging i, gather_source ss ts.1 ts.2 r)) rows.

Lemma elem_gather_copies p rows d s0 : (d, s0) ∈ imap pair (tensors (config p)) ≫= gather_copies (slots p) rows <->
  exists t spec i r, tensors (config p) !! t = Some spec /\ rows !! i = Some r /\ d = mkLoc t GatheredStaging i /\
    s0 = gather_source (slots p) t spec r.
Proof.
  rewrite list_elem_of_bind. split.
  - intros ([t spec] & Hin & Ht%elem_imap_pair). apply list_elem_of_lookup in Hin as [i Hi]. unfold gather_copies in Hi.
    rewrite list_lookup_imap in Hi. destruct (rows !! i) as [r|] eqn:Hr; [|done]. injection Hi as <- <-. by exists t, spec, i, r.
  - intros (t & spec & i & r & Ht & Hr & -> & ->). exists (t, spec). split; [|by apply elem_imap_pair].
    apply list_elem_of_lookup. exists i. unfold gather_copies. by rewrite list_lookup_imap, Hr.
Qed.

Lemma imap_as_bind {A B} (l : list A) : forall f : nat -> A -> B, imap f l = imap pair l ≫= fun x => [f x.1 x.2].
Proof.
  enough (forall (g : nat -> nat) (f : nat -> A -> B), imap (f ∘ g) l = imap (fun i x => (g i, x)) l ≫= fun x => [f x.1 x.2]) as H.
  { intros f. apply (H (fun i => i)). }
  induction l as [|x l IH]; intros g f; [done|]. rewrite !imap_cons. cbn. f_equal. apply (IH (g ∘ S)).
Qed.

Lemma gather_source_other ss t spec r : loc_buffer (gather_source ss t spec r) <> GatheredStaging.
Proof. unfold gather_source. destruct (row_provisional r); [destruct (row_checkpoint r)|]; done. Qed.

Lemma gather_prog p v rows n : Forall (fun r => is_Some (slots p !! row_slot r)) rows ->
  gathered_inputs v = gathered_view n false false 0 <$> imap pair (tensors (config p)) ->
  dev_prog p (for_each (gather_tensor v rows) (imap pair (tensors (config p))))
    (imap pair (tensors (config p)) ≫= gather_copies (slots p) rows) tt.
Proof.
  intros Hrows Hv. rewrite Forall_forall in Hrows. apply dev_for_each. intros p' cs [t spec] Hr Ht%elem_imap_pair.
  destruct (ran_host _ _ _ Hr) as (_ & Hss & _). unfold gather_tensor. cbn [fst snd].
  rewrite Hv, list_lookup_fmap, list_lookup_imap, Ht. cbn [fmap option_fmap option_map].
  unfold gather_copies. cbn [fst snd]. rewrite (imap_as_bind rows (fun i r => (mkLoc t GatheredStaging i, gather_source (slots p) t spec r))).
  apply dev_for_each. intros p'' cs' [i r] Hr' Hi%elem_imap_pair. destruct (ran_host _ _ _ Hr') as (_ & Hss' & _).
  unfold gather_row, gather_source. cbn [fst snd]. destruct (row_provisional r).
  - destruct (row_checkpoint r); apply dev_copy.
  - destruct (Hrows r) as [s Hs]; [by eapply list_elem_of_lookup_2|]. eapply dev_get_slot; [by rewrite Hss', Hss|].
    rewrite Hs. cbn. apply dev_copy.
Qed.

Definition set_counts (hc : list Z) p : FixedStatePool V := p <| capture_count_staging := hc |>.

(** What gathering leaves: the staged inputs of every row, and nothing else changed. *)
Definition gathered p (rows : list RowPlan) (direct : bool) p' : Prop :=
  exists d hc, p' = set_device d (set_counts hc p) /\
    (forall l, loc_buffer l <> GatheredStaging -> memory d l = memory (device p) l) /\
    (direct = false -> forall t spec i r, tensors (config p) !! t = Some spec -> rows !! i = Some r ->
       memory d (mkLoc t GatheredStaging i) = memory (device p) (gather_source (slots p) t spec r)) /\
    (in_flight d = [] \/ in_flight d = in_flight (device p)).

(** A failure after copies into the staging buffers only. *)
Definition gather_failed p p' : Prop :=
  exists d hc, p' = set_device d (set_counts hc p) <| healthy := false |> /\
    forall l, l ∉ in_flight (device p) -> loc_buffer l <> GatheredStaging -> memory d l = memory (device p) l.

Lemma gather_counts p v captures requests cs (k : M (FixedStatePool V) FixedStateError unit) (Q : FixedStatePool V -> Prop) :
  (forall p', (exists hc, ran (set_counts hc p) [] p') ->
     match k p' with (Ok _, p2) => Q p2 | (Throw _, p2) => broke p' cs p2 | _ => False end) ->
  exists hc, match ((if has_capture_count v
         then _ ← modify (fun p => p <| capture_count_staging := host_count captures <$> requests |>); transfer
         else mret tt) ≫= fun _ => k) p with
  | (Ok _, p2) => Q p2
  | (Throw _, p2) => broke (set_counts hc p) cs p2
  | _ => False end.
Proof.
  intros Hk. destruct (has_capture_count v).
  - set (hc := host_count captures <$> requests). exists hc. rewrite bind_bind, modify_bind. fold (set_counts hc p).
    pose proof (dev_transfer (set_counts hc p)) as Ht. unfold dev_prog in Ht. unfold mbind, M_bind.
    destruct (transfer _) as [[u|e| |] p1]; try done.
    + destruct Ht as [_ Hran]. specialize (Hk p1 ltac:(by exists hc)). destruct (k p1) as [[u'|e| |] p2]; try done.
      by eapply (ran_broke _ _ _ []).
    + by apply (broke_weaken _ _ []).
  - exists (capture_count_staging p). replace (set_counts _ p) with p by (by destruct p). rewrite ret_bind.
    specialize (Hk p ltac:(exists (capture_count_staging p); replace (set_counts _ p) with p by (by destruct p); apply ran_refl)).
    destruct (k p) as [[u'|e| |] p2]; done.
Qed.

Lemma gather_run p v captures direct requests rows n : Forall (fun r => is_Some (slots p !! row_slot r)) rows ->
  (direct = false -> gathered_inputs v = gathered_view n false false 0 <$> imap pair (tensors (config p))) ->
  match gather v captures direct requests rows p with
  | (Ok _, p') => gathered p rows direct p'
  | (Throw _, p') => gather_failed p p'
  | _ => False end.
Proof.
  intros Hrows Hv. set (cs := if direct then [] else imap pair (tensors (config p)) ≫= gather_copies (slots p) rows).
  assert (forall p1, (exists hc, ran (set_counts hc p) [] p1) ->
    match (p0 ← gets Datatypes.id;
           if negb direct then _ ← for_each (gather_tensor v rows) (imap pair (tensors (config p0))); Synchronize
           else if negb device_is_cuda then Synchronize else mret tt) p1 with
    | (Ok _, p2) => gathered p rows direct p2 | (Throw _, p2) => broke p1 cs p2 | _ => False end) as Hk.
  { intros p1 [hc [fs ->]]. cbn. rewrite app_nil_r. set (p1 := _ <| device := _ |>). rewrite gets_bind. destruct direct; cbn [negb].
    - subst cs. destruct device_is_cuda; cbn [negb].
      + exists (device p1), hc. split; [done|]. split; [done|]. split; [done|by right].
      + pose proof (Synchronize_run p1) as H. destruct (Synchronize p1) as [[u|e| |] p2]; try done; [|apply H].
        destruct H as [fs' ->]. eexists _, hc. split; [done|]. split; [done|]. split; [done|by left].
    - pose proof (gather_prog p1 v rows n Hrows (Hv eq_refl)) as Hprog. apply dev_sync in Hprog.
      destruct ((for_each _ _ ≫= _) p1) as [[u|e| |] p2]; try done. destruct Hprog as [fs' ->].
      eexists _, hc. split; [done|]. cbn. split; [|split].
      + intros l Hl. apply run_copies_other. intros ([d s0] & -> & (t & spec & i & r & _ & _ & -> & _)%(elem_gather_copies p1))%list_elem_of_fmap. done.
      + intros _ t spec i r Ht Hr. apply run_copies_hit; [| |apply (elem_gather_copies p1); by exists t, spec, i, r].
        * intros [d s0] (t' & spec' & i' & r' & _ & _ & -> & ->)%(elem_gather_copies p1) ([d' s'] & Heq & (t2 & spec2 & i2 & r2 & _ & _ & -> & _)%(elem_gather_copies p1))%list_elem_of_fmap.
          exact (gather_source_other _ t' spec' r' (f_equal loc_buffer Heq)).
        * intros d s1 s2 (t1 & spec1 & i1 & r1 & Ht1 & Hr1 & -> & ->)%(elem_gather_copies p1) (t2 & spec2 & i2 & r2 & Ht2 & Hr2 & [= <- <-] & ->)%(elem_gather_copies p1).
          by rewrite Ht1 in Ht2; rewrite Hr1 in Hr2; simplify_eq.
      + by left. }
  destruct (gather_counts p v captures requests cs _ (gathered p rows direct) Hk) as [hc Hin]. clear Hk.
  apply (guarded_dev _ p _ cs (fun _ => gathered p rows direct)) in Hin. fold (gather v captures direct requests rows) in Hin.
  destruct (gather _ _ _ _ _ p) as [[u|e| |] p1]; try done. destruct Hin as (d & -> & Hd). exists d, hc. split; [done|].
  intros l Hl Hb. apply Hd; [done|]. intros ([d0 s0] & -> & Hin')%list_elem_of_fmap. subst cs. destruct direct; [by apply elem_of_nil in Hin'|].
  apply elem_gather_copies in Hin' as (t & spec & i & r & _ & _ & -> & _). done.
Qed.

(** ** Deferred replays *)

Definition set_deferred (ds : list StateUpdateReplayDesc) p : FixedStatePool V := p <| deferred_replay := ds |>.

Lemma apply_replays_other ds l : l ∉ ds ≫= destinations -> forall m : loc -> V, apply_replays ds m l = m l.
Proof.
  induction ds as [|d ds IH]; intros Hl m; [done|]. rewrite bind_cons, not_elem_of_app in Hl.
  change (apply_replays ds (apply_replay d m) l = m l). rewrite IH by apply Hl. unfold apply_replay. by rewrite bool_decide_false by apply Hl.
Qed.

Lemma settled_other p l : l ∉ at_risk p -> settled p l = memory (device p) l.
Proof. intros Hl. apply apply_replays_other. unfold at_risk in Hl. rewrite not_elem_of_app in Hl. apply Hl. Qed.

Lemma Flush_run p :
  match FlushDeferredReplay p with
  | (Ok _, p') => exists d, p' = set_deferred [] (set_device d p) /\ memory d = settled p /\ in_flight d = at_risk p
  | (Throw _, p') => exists d, p' = set_deferred [] (set_device d p) <| healthy := false |> /\
      forall l, l ∉ at_risk p -> memory d l = memory (device p) l
  | _ => False end.
Proof.
  unfold FlushDeferredReplay, at_risk, settled. rewrite gets_bind. unfold Datatypes.id. destruct (deferred_replay p) as [|d0 ds] eqn:Hd.
  - exists (device p). split; [|split; [done|by rewrite app_nil_r]]. destruct p; cbn in *. by subst.
  - unfold launch_replays, ReplayStateUpdates, on_device, enqueue. destruct (faults (device p)) as [|[junk|] fs] eqn:Hf; cbn [tail].
    + eexists. split; [by destruct p|]. done.
    + eexists. split; [by destruct p|]. intros l Hl. cbn. unfold spoil. by rewrite bool_decide_false.
    + eexists. split; [by destruct p|]. done.
Qed.

(** ** The stages of a reservation *)

(** Where the committed row of a request is. *)
Definition row_at p (id : N) (t : nat) : option loc :=
  i ← Find (committed_index p) id; s ← slots p !! i; spec ← tensors (config p) !! t;
  Some (bank_loc spec t (active_bank s) i).

Lemma visible_row_at p id t : visible p id t = settled p <$> row_at p id t.
Proof. unfold visible, row_at. destruct (Find _ _) as [i|]; [|done]. cbn. destruct (slots p !! i); [|done]. cbn. by destruct (_ !! t). Qed.

(** Same owners, in the same slots. *)
Definition same_owners (ss ss' : list Slot) : Prop :=
  length ss' = length ss /\ forall i s, ss !! i = Some s -> exists b, ss' !! i = Some (s <| active_bank := b |>).

(** Between the first and the last host update of [Reserve]: the replays have run, and every
    request sees what it saw. *)
Record staged p0 p : Prop := mk_staged
  { sg_ok : pool_ok p;
    sg_config : config p = config p0;
    sg_index : committed_index p = committed_index p0;
    sg_checkpoints : prefix_checkpoints p = prefix_checkpoints p0;
    sg_active : active_reservation_id p = active_reservation_id p0;
    sg_next : next_reservation_id p = next_reservation_id p0;
    sg_healthy : healthy p = healthy p0;
    sg_deferred : deferred_replay p = [];
    sg_owners : same_owners (slots p0) (slots p);
    sg_rows : forall i s s' t spec, slots p0 !! i = Some s -> slots p !! i = Some s' -> tensors (config p0) !! t = Some spec ->
      memory (device p) (bank_loc spec t (active_bank s') i) = settled p0 (bank_loc spec t (active_bank s) i);
    sg_memory : forall l, not_bank l -> loc_buffer l <> GatheredStaging -> memory (device p) l = settled p0 l;
    sg_flight : in_flight (device p) = [] \/ slots p = slots p0 /\ in_flight (device p) = at_risk p0 }.

(** What a failure leaves: tokens and owners as they were, and every row the device had
    already confirmed. *)
Record kept p0 p : Prop := mk_kept
  { kp_ok : pool_ok p;
    kp_config : config p = config p0;
    kp_active : active_reservation_id p = active_reservation_id p0;
    kp_tokens : forall id, visible_tokens p id = visible_tokens p0 id;
    kp_visible : forall id t, (forall l, row_at p0 id t = Some l -> l ∉ at_risk p0) -> visible p id t = visible p0 id t;
    kp_static : forall l, static l -> l ∉ at_risk p0 -> settled p l = settled p0 l }.

Lemma same_owners_refl ss : same_owners ss ss.
Proof. split; [done|]. intros i s Hs. exists (active_bank s). rewrite Hs. by destruct s. Qed.

Lemma same_owners_back ss ss' i s' : same_owners ss ss' -> ss' !! i = Some s' ->
  exists s b, ss !! i = Some s /\ s' = s <| active_bank := b |>.
Proof.
  intros [Hlen H] Hs'. assert (is_Some (ss !! i)) as [s Hs] by (apply lookup_lt_is_Some; rewrite <- Hlen; by eapply lookup_lt_Some).
  destruct (H i s Hs) as [b Hb]. rewrite Hs' in Hb. injection Hb as ->. by exists s, b.
Qed.

Lemma same_owners_trans s1 s2 s3 : same_owners s1 s2 -> same_owners s2 s3 -> same_owners s1 s3.
Proof.
  intros [L1 H1] [L2 H2]. split; [congruence|]. intros i s Hs. destruct (H1 i s Hs) as [b1 Hb1].
  destruct (H2 i _ Hb1) as [b2 Hb2]. by exists b2.
Qed.

Lemma same_owners_owns ss ss' id i : same_owners ss ss' -> owns ss' id i <-> owns ss id i.
Proof.
  intros H. split.
  - intros (s' & Hs' & Ho & Hi). destruct (same_owners_back _ _ _ _ H Hs') as (s & b & Hs & ->). by exists s.
  - intros (s & Hs & Ho & Hi). destruct H as [_ H]. destruct (H i s Hs) as [b Hb]. by exists (s <| active_bank := b |>).
Qed.

(** The invariant does not look at banks, memory or health. *)
Lemma pool_ok_host p p' : pool_ok p -> config p' = config p -> committed_index p' = committed_index p ->
  prefix_checkpoints p' = prefix_checkpoints p -> active_reservation_id p' = active_reservation_id p ->
  next_reservation_id p' = next_reservation_id p -> same_owners (slots p) (slots p') ->
  (forall k v, (k, v) ∈ view_cache p' -> built_views (config p) k = Ok v) -> pool_ok p'.
Proof.
  intros [] Hc Hi Hcp Ha Hn Ho Hv. split; rewrite ?Hc, ?Hi, ?Hcp, ?Ha, ?Hn; try done.
  - by rewrite (proj1 Ho).
  - intros id i. by rewrite (same_owners_owns _ _ _ _ Ho).
  - intros i s' Hs'. destruct (same_owners_back _ _ _ _ Ho Hs') as (s & b & Hs & ->). apply (po_slot0 _ _ Hs).
  - intros i j s1 s2 H1 H2 N1 N2. destruct (same_owners_back _ _ _ _ Ho H1) as (s1' & b1 & H1' & ->).
    destruct (same_owners_back _ _ _ _ Ho H2) as (s2' & b2 & H2' & ->). by apply (po_unique0 _ _ _ _ H1' H2').
Qed.

Lemma same_owners_none ss ss' i : same_owners ss ss' -> ss !! i = None -> ss' !! i = None.
Proof. intros [Hlen _] Hn. apply lookup_ge_None. rewrite Hlen. by apply lookup_ge_None. Qed.

Lemma staged_sees p0 p : staged p0 p -> (forall id t, visible p id t = visible p0 id t) /\ (forall id, visible_tokens p id = visible_tokens p0 id).
Proof.
  intros H. unfold visible, visible_tokens, settled. rewrite (sg_index _ _ H), (sg_config _ _ H), (sg_deferred _ _ H).
  pose proof (sg_owners _ _ H) as Ho. split.
  - intros id t. destruct (Find _ _) as [i|]; [|done]. cbn. destruct (slots p0 !! i) as [s|] eqn:Hs; [|by rewrite (same_owners_none _ _ _ Ho Hs)].
    destruct (proj2 Ho i s Hs) as [b Hb]. rewrite Hb. cbn. destruct (tensors (config p0) !! t) as [spec|] eqn:Ht; [|done].
    cbn. f_equal. apply (sg_rows _ _ H i s _ t spec Hs Hb Ht).
  - intros id. destruct (Find _ _) as [i|]; [|done]. cbn. destruct (slots p0 !! i) as [s|] eqn:Hs; [|by rewrite (same_owners_none _ _ _ Ho Hs)].
    destruct (proj2 Ho i s Hs) as [b Hb]. by rewrite Hb.
Qed.

Lemma staged_kept p0 p : staged p0 p -> kept p0 p.
Proof.
  intros H. destruct (staged_sees _ _ H). split; [apply H|apply H|apply H|done|by intros|]. intros l [Hnb Hg]%static_other _. unfold settled at 1.
  rewrite (sg_deferred _ _ H). by apply (sg_memory _ _ H).
Qed.

Lemma staged_flush p d : pool_ok p -> memory d = settled p -> in_flight d = at_risk p -> staged p (set_deferred [] (set_device d p)).
Proof.
  intros Hp Hm Hf. split; try done.
  - apply (pool_ok_host p); try done; [apply same_owners_refl|apply (po_views _ Hp)].
  - apply same_owners_refl.
  - intros i s s' t spec Hs Hs' Ht. cbn in *. rewrite Hs in Hs'. injection Hs' as <-. by rewrite Hm.
  - intros l _ _. cbn. by rewrite Hm.
  - right. split; [done|]. cbn. by rewrite Hf.
Qed.

Lemma kept_flush p d : pool_ok p -> (forall l, l ∉ at_risk p -> memory d l = memory (device p) l) ->
  kept p (set_deferred [] (set_device d p) <| healthy := false |>).
Proof.
  intros Hp Hm. split; try done.
  - apply (pool_ok_host p); try done; [apply same_owners_refl|apply (po_views _ Hp)].
  - intros id t Hsafe. rewrite !visible_row_at. change (row_at (set_deferred _ _ <| healthy := false |>) id t) with (row_at p id t).
    destruct (row_at p id t) as [l|] eqn:Hl; [|done]. cbn. f_equal. rewrite settled_other by (by apply Hsafe). apply Hm. by apply Hsafe.
  - intros l _ Hl. rewrite (settled_other p) by done. by apply Hm.
Qed.

Lemma staged_normalized p0 p rows target p' : staged p0 p -> normalized p rows target p' -> staged p0 p'.
Proof.
  intros H (ss & d & -> & [Hlen Hre] & Hother & Hfl & _).
  assert (same_owners (slots p) ss) as Hso by (split; [done|]; intros i s Hs; destruct (Hre i s Hs) as (b & Hb & _); eauto).
  split; try apply H.
  - apply (pool_ok_host p); try done; [apply H|apply (po_views _ (sg_ok _ _ H))].
  - eapply same_owners_trans; [apply H|done].
  - intros i s s' t spec Hs Hs' Ht. cbn in *. destruct (same_owners_back _ _ _ _ Hso Hs') as (s1 & b1 & Hs1 & ->).
    destruct (Hre i s1 Hs1) as (b & Hb & Hrow). rewrite Hs' in Hb. injection Hb as ->.
    rewrite <- (sg_rows _ _ H i s s1 t spec Hs Hs1 Ht). apply Hrow. by rewrite (sg_config _ _ H).
  - intros l Hl Hg. cbn. rewrite Hother by done. by apply (sg_memory _ _ H).
  - cbn. destruct Hfl as [->|[-> ->]]; [by left|]. apply (sg_flight _ _ H).
Qed.

Lemma staged_gathered p0 p rows direct p' : staged p0 p -> gathered p rows direct p' -> staged p0 p'.
Proof.
  intros H (d & hc & -> & Hother & _ & Hfl). split; try apply H.
  - apply (pool_ok_host p); try done; [apply H|apply same_owners_refl|apply (po_views _ (sg_ok _ _ H))].
  - intros i s s' t spec Hs Hs' Ht. cbn in *. rewrite Hother by done. by apply (sg_rows _ _ H i s s' t spec).
  - intros l Hl Hg. cbn. rewrite Hother by done. by apply (sg_memory _ _ H).
  - cbn. destruct Hfl as [->| ->]; [by left|]. apply (sg_flight _ _ H).
Qed.

Lemma staged_host p0 p p' : staged p0 p -> device p' = device p -> config p' = config p -> committed_index p' = committed_index p ->
  prefix_checkpoints p' = prefix_checkpoints p -> active_reservation_id p' = active_reservation_id p ->
  next_reservation_id p' = next_reservation_id p -> healthy p' = healthy p -> deferred_replay p' = deferred_replay p ->
  slots p' = slots p -> (forall k v, (k, v) ∈ view_cache p' -> built_views (config p) k = Ok v) -> staged p0 p'.
Proof.
  intros [] Hd Hc Hi Hcp Ha Hn Hh Hdf Hs Hv. split; rewrite ?Hd, ?Hc, ?Hi, ?Hcp, ?Ha, ?Hn, ?Hh, ?Hdf, ?Hs; try done.
  apply (pool_ok_host p); try done. rewrite Hs. apply same_owners_refl.
Qed.

(** A failure after some stage. *)
Lemma kept_failed p0 p d p' : staged p0 p -> unmoved p d -> config p' = config p -> committed_index p' = committed_index p ->
  prefix_checkpoints p' = prefix_checkpoints p -> active_reservation_id p' = active_reservation_id p ->
  next_reservation_id p' = next_reservation_id p -> deferred_replay p' = deferred_replay p -> slots p' = slots p ->
  view_cache p' = view_cache p -> device p' = d -> kept p0 p'.
Proof.
  intros H [Hun Hstat] Hc Hi Hcp Ha Hn Hdf Hs Hv Hd. destruct (staged_sees _ _ H) as [Hsee Htok].
  assert (forall id t, row_at p' id t = row_at p id t) as Hrow by (intros; unfold row_at; by rewrite Hi, Hs, Hc).
  split.
  - apply (pool_ok_host p); try done; [apply H|rewrite Hs; apply same_owners_refl|rewrite Hv; apply (po_views _ (sg_ok _ _ H))].
  - rewrite Hc. apply H.
  - rewrite Ha. apply H.
  - intros id. rewrite <- Htok. unfold visible_tokens. by rewrite Hi, Hs.
  - intros id t Hsafe. rewrite <- Hsee, !visible_row_at, Hrow. unfold settled. rewrite Hdf, (sg_deferred _ _ H). cbn.
    destruct (row_at p id t) as [l|] eqn:Hl; [|done]. cbn. f_equal. subst d.
    assert (l ∉ in_flight (device p)) as Hnot.
    { destruct (sg_flight _ _ H) as [->|[Hss ->]]; [apply not_elem_of_nil|]. apply Hsafe. rewrite <- Hl. unfold row_at.
      by rewrite (sg_index _ _ H), (sg_config _ _ H), Hss. }
    unfold row_at in Hl. destruct (Find _ _) as [i|]; [|done]. cbn in Hl. destruct (slots p !! i) as [s|] eqn:Hsl; [|done]. cbn in Hl.
    destruct (tensors (config p) !! t) as [spec|] eqn:Ht; [|done]. injection Hl as <-. by apply (Hun t spec i s).
  - intros l Hl Hr. destruct (static_other _ Hl) as [H1 H2]. rewrite <- (sg_memory _ _ H l H1 H2). unfold settled. rewrite Hdf, (sg_deferred _ _ H), Hd.
    apply Hstat; [done|]. destruct (sg_flight _ _ H) as [->|[_ ->]]; [apply not_elem_of_nil|done].
Qed.

Lemma kept_gather p0 p p' : staged p0 p -> gather_failed p p' -> kept p0 p'.
Proof.
  intros H (d & hc & -> & Hd). apply (kept_failed p0 p d); try done. split; [intros t spec i s Ht Hs Hl; by apply Hd|].
  intros l [_ Hg]%static_other Hl. by apply Hd.
Qed.

(** ** A live reservation *)

Definition storage_key (st : Storage) : ViewKey :=
  mkViewKey (length (handles st)) (first_direct_slot st) (direct_active_bank st) (uses_direct_bindings st) (captures_state_updates st).

Definition all_shared p : Prop := Forall (fun spec => share_past_present_buffer spec = true) (tensors (config p)).

(** The reservation and the pool agree on what each row owns. *)
Record live p (r : FixedStateReservation) (st : Storage) : Prop := mk_live
  { lv_attached : attached r = true;
    lv_storage : storage r = Some st;
    lv_id : reservation_id r = active_reservation_id p;
    lv_nonzero : reservation_id r <> 0%N;
    lv_row : forall row h, handles st !! row = Some h -> exists s new, slots p !! handle_slot h = Some s /\
      provisional st !! row = Some new /\ handle_pool h = owner (config p) /\ slot_request_id s = handle_request_id h /\
      slot_generation s = handle_generation h /\ expected_state_generations st !! row = Some (state_generation s) /\
      ownership s = (if new : bool then SlotReserved else SlotCommitted);
    lv_slots : NoDup (handle_slot <$> handles st);
    lv_lengths : length (target_tokens st) = length (handles st) /\ length (capture_counts st) = length (handles st) /\
      length (commit_step_tokens st) = length (handles st) /\ length (commit_kept_tokens st) = length (handles st) /\
      length (provisional st) = length (handles st);
    lv_partial : forall row kept, commit_kept_tokens st !! row = Some kept -> kept <> 0 -> captures_state_updates st = true;
    lv_captures : captures_state_updates st = true -> contract_capacity (contract (config p)) <> 0%N;
    lv_reserved : forall i s, slots p !! i = Some s -> ownership s = SlotReserved -> i ∈ handle_slot <$> handles st;
    lv_views : built_views (config p) (storage_key st) = Ok (views st);
    lv_direct : uses_direct_bindings st = true -> forall row h, handles st !! row = Some h ->
      handle_slot h = first_direct_slot st + row /\
      (all_shared p \/ forall s, slots p !! handle_slot h = Some s -> active_bank s = direct_active_bank st) }.

(** Where the model reads a row, and where it writes it. *)
Definition input_at (st : Storage) (spec : TensorSpec) (t row : nat) : loc :=
  if uses_direct_bindings st then bank_loc spec t (direct_active_bank st) (first_direct_slot st + row) else mkLoc t GatheredStaging row.
Definition output_at (st : Storage) (spec : TensorSpec) (t row : nat) : loc :=
  if uses_direct_bindings st then bank_loc spec t (negb (direct_active_bank st)) (first_direct_slot st + row)
  else mkLoc t (output_staging spec) row.

(** What the model must read for a request: its committed row, the row of the checkpoint it
    adopts, or the initial row. *)
Definition presented p (q : FixedStateReservationRequest) (t : nat) : V :=
  match visible p (fr_request_id q) t with
  | Some v => v
  | None => settled p (match fr_prefix_checkpoint q with Some c => mkLoc t CheckpointBank (cp_slot c) | None => mkLoc t ZeroRow 0 end)
  end.

Lemma consecutive_spec rows first : consecutive rows first = true -> forall i r, rows !! i = Some r ->
  row_provisional r = false /\ row_slot r = first + i.
Proof.
  unfold consecutive. rewrite forallb_forall. intros H i r Hr. specialize (H (i, r)). cbn in H.
  apply andb_prop in H as [H1 H2]; [|by apply list_elem_of_In, elem_imap_pair]. split; [by apply negb_true_iff|by apply Nat.eqb_eq].
Qed.

Lemma rows_ok_owners p p' rs rows : same_owners (slots p) (slots p') -> rows_ok p rs rows -> rows_ok p' rs rows.
Proof.
  intros Ho [H1 H2 H3 H4]. split; try done. eapply Forall_impl; [exact H1|]. intros r (Hr & s & Hs & Hrest). split; [done|].
  destruct (proj2 Ho _ _ Hs) as [b Hb]. exists (s <| active_bank := b |>). split; [done|]. destruct (row_provisional r); [|done].
  destruct Hrest as (Hn & Hrest). split; [|done]. intros i. by rewrite (same_owners_owns _ _ _ _ Ho).
Qed.

Lemma rows_in_range p rs rows : rows_ok p rs rows -> Forall (fun r => is_Some (slots p !! row_slot r)) rows.
Proof. intros H. eapply Forall_impl; [apply H|]. intros r (_ & s & Hs & _). eauto. Qed.

(** ** Provisional ownership *)

Definition admitted (reservation : N) (bank : bool) (r : RowPlan) (s : Slot) : Slot :=
  if row_provisional r then
    mkSlot (row_request_id r) (u64_succ (slot_generation s)) 0 (from_option TokenCount 0 (row_checkpoint r)) reservation bank SlotReserved
  else s.

Lemma admit_run p rs rows reservation bank : rows_ok p rs rows ->
  exists ss, for_each (admit_row reservation bank) rows p = (Ok tt, set_slots ss p) /\ length ss = length (slots p) /\
    (forall r, r ∈ rows -> ss !! row_slot r = admitted reservation bank r <$> slots p !! row_slot r) /\
    (forall i, i ∉ row_slot <$> rows -> ss !! i = slots p !! i).
Proof.
  intros H. apply for_each_slots; [|apply H|apply Forall_forall, (rows_in_range _ _ _ H)].
  intros r p' _ Hr. unfold admit_row, admitted. destruct (row_provisional r); [by apply update_slot_run|].
  unfold mret, M_ret, set_slots. destruct Hr as [s Hs]. do 2 f_equal.
  assert (alter (fun s => s) (row_slot r) (slots p') = slots p') as ->; [|by destruct p'].
  apply list_eq. intros i. destruct (decide (row_slot r = i)) as [<-|]; [|by rewrite list_lookup_alter_ne].
  rewrite list_lookup_alter_eq. by destruct (_ !! _).
Qed.

(** The pool once the reservation owns its rows. *)
Definition booked (reservation bytes : N) (ss : list Slot) p : FixedStatePool V :=
  set_slots ss p <| next_reservation_id := u64_succ (next_reservation_id p) |> <| active_reservation_id := reservation |>
    <| active_staging_bytes := bytes |> <| active_reservation := Some reservation |>.

Section booking.
Context p rs rows (reservation bytes : N) (bank : bool) ss (Hp : pool_ok p) (Hidle : active_reservation_id p = 0%N)
  (Hrows : rows_ok p rs rows) (Hres : reservation <> 0%N) (Hlen : length ss = length (slots p))
  (Hin : forall r, r ∈ rows -> ss !! row_slot r = admitted reservation bank r <$> slots p !! row_slot r)
  (Hout : forall i, i ∉ row_slot <$> rows -> ss !! i = slots p !! i).

(** A slot is as it was, or a free slot that a new row took. *)
Lemma booked_slot i s' : ss !! i = Some s' ->
  (slots p !! i = Some s' /\ ownership s' <> SlotReserved) \/
  exists r s, r ∈ rows /\ row_slot r = i /\ row_provisional r = true /\ slots p !! i = Some s /\ ownership s = SlotFree /\
    (slot_generation s + 1 < two64)%N /\ row_generation r = (slot_generation s + 1)%N /\ s' = admitted reservation bank r s.
Proof using Hp Hidle Hrows Hin Hout.
  intros Hs'.
  assert (slots p !! i = Some s' -> ownership s' <> SlotReserved) as Hno.
  { intros Hs Hr. destruct (po_slot _ Hp _ _ Hs) as [_ H]. rewrite Hr in H. destruct H as (_ & _ & _ & H). by rewrite Hidle in H. }
  destruct (decide (i ∈ row_slot <$> rows)) as [Hi|Hi]; [|left; rewrite (Hout i Hi) in Hs'; by split; [|apply Hno]].
  apply list_elem_of_fmap in Hi as (r & -> & Hr). rewrite (Hin r Hr) in Hs'.
  destruct (rw_row _ _ _ _ Hrows Hr) as (Hid & s & Hs & Hrest).
  rewrite Hs in Hs'. injection Hs' as <-. unfold admitted in *. destruct (row_provisional r) eqn:Hpr.
  - right. destruct Hrest as (_ & Hf & Hg & Hlt & _). exists r, s. unfold admitted. rewrite Hpr. split_and!; done.
  - left. split; [done|]. by apply Hno.
Qed.

Lemma booked_owns id i : owns ss id i <-> owns (slots p) id i.
Proof using Hp Hidle Hrows Hin Hout.
  split.
  - intros (s' & Hs' & Ho & Hi). destruct (booked_slot i s' Hs') as [[Hs _]|(r & s & _ & _ & Hpr & _ & _ & _ & _ & ->)]; [by exists s'|].
    unfold admitted in Ho. by rewrite Hpr in Ho.
  - intros (s & Hs & Ho & Hi). exists s. split; [|done]. destruct (decide (i ∈ row_slot <$> rows)) as [Hir|Hir]; [|by rewrite (Hout i Hir)].
    apply list_elem_of_fmap in Hir as (r & -> & Hr). rewrite (Hin r Hr), Hs. cbn. f_equal. unfold admitted.
    destruct (rw_row _ _ _ _ Hrows Hr) as (_ & s1 & Hs1 & Hrest).
    rewrite Hs in Hs1. injection Hs1 as <-. destruct (row_provisional r); [|done]. destruct Hrest as (_ & Hf & _). congruence.
Qed.

Lemma booked_id i s' : ss !! i = Some s' -> ownership s' <> SlotFree -> slot_request_id s' <> 0%N /\
  ((exists s, slots p !! i = Some s /\ s = s' /\ ownership s = SlotCommitted) \/ exists r, r ∈ rows /\ row_slot r = i /\ row_provisional r = true /\ slot_request_id s' = row_request_id r).
Proof using Hp Hidle Hrows Hin Hout.
  intros Hs' Hown. destruct (booked_slot i s' Hs') as [[Hs Hnr]|(r & s & Hr & Hi & Hpr & _ & _ & _ & _ & ->)].
  - destruct (po_slot _ Hp _ _ Hs) as [_ H]. destruct (ownership s') eqn:Ho; try done. split; [apply H|]. left. by exists s'.
  - unfold admitted. rewrite Hpr. cbn. split; [|right; by exists r]. by destruct (rw_row _ _ _ _ Hrows Hr).
Qed.

Lemma booked_ok : pool_ok (booked reservation bytes ss p).
Proof using Hp Hidle Hrows Hres Hlen Hin Hout.
  split; cbn; try apply Hp.
  - by rewrite Hlen; apply Hp.
  - intros id i. rewrite booked_owns. apply (po_owner _ Hp).
  - intros i s' Hs'. destruct (booked_slot i s' Hs') as [[Hs Hnr]|(r & s & Hr & Hi & Hpr & Hs & Hf & Hlt & Hg & ->)].
    + destruct (po_slot _ Hp _ _ Hs) as [Hgen Hrest]. split; [done|]. destruct (ownership s') eqn:Ho; done.
    + unfold admitted. rewrite Hpr. split; cbn; [unfold u64_succ; apply N.mod_lt; done|].
      split_and!; try done. by destruct (rw_row _ _ _ _ Hrows Hr).
  - intros i j s1 s2 H1 H2 N1 N2 Heq. destruct (booked_id i s1 H1 N1) as [Hnz1 [(s1' & Hs1 & -> & Hc1)|(r1 & Hr1 & Hi1 & Hp1 & He1)]],
      (booked_id j s2 H2 N2) as [Hnz2 [(s2' & Hs2 & -> & Hc2)|(r2 & Hr2 & Hi2 & Hp2 & He2)]].
    + by apply (po_unique _ Hp i j s1 s2).
    + destruct (rw_row _ _ _ _ Hrows Hr2) as (_ & s & _ & Hrest). rewrite Hp2 in Hrest.
      destruct Hrest as (Hno & _). destruct (Hno i). exists s1. by rewrite Heq.
    + destruct (rw_row _ _ _ _ Hrows Hr1) as (_ & s & _ & Hrest). rewrite Hp1 in Hrest.
      destruct Hrest as (Hno & _). destruct (Hno j). exists s2. by rewrite <- Heq.
    + apply list_elem_of_lookup in Hr1 as [k1 Hk1], Hr2 as [k2 Hk2]. assert (k1 = k2) as ->; [|by rewrite Hk1 in Hk2; simplify_eq].
      eapply (NoDup_lookup (row_request_id <$> rows)); [apply Hrows|rewrite list_lookup_fmap, Hk1; done|].
      rewrite list_lookup_fmap, Hk2. cbn. congruence.
  - unfold u64_succ. by apply N.mod_lt.
Qed.

Lemma booked_sees : (forall id t, visible (booked reservation bytes ss p) id t = visible p id t) /\
  (forall id, visible_tokens (booked reservation bytes ss p) id = visible_tokens p id).
Proof using Hp Hidle Hrows Hin Hout.
  assert (forall id i, Find (committed_index p) id = Some i -> ss !! i = slots p !! i) as Hkeep.
  { intros id i Hf. apply (Find_owner _ _ _ Hp) in Hf as Ho. destruct Ho as (s & Hs & Hc & Hid). rewrite Hs.
    destruct (decide (i ∈ row_slot <$> rows)) as [Hir|Hir]; [|by rewrite (Hout i Hir)].
    apply list_elem_of_fmap in Hir as (r & -> & Hr). rewrite (Hin r Hr), Hs. cbn. f_equal. unfold admitted.
    destruct (rw_row _ _ _ _ Hrows Hr) as (_ & s1 & Hs1 & Hrest).
    rewrite Hs in Hs1. injection Hs1 as <-. destruct (row_provisional r); [|done]. destruct Hrest as (_ & Hf' & _). congruence. }
  unfold visible, visible_tokens. cbn. split; intros id; [intros t|]; destruct (Find _ id) as [i|] eqn:Hf; try done; cbn; by rewrite (Hkeep id i Hf).
Qed.

Lemma booked_row_at id t : row_at (booked reservation bytes ss p) id t = row_at p id t.
Proof using Hp Hidle Hrows Hin Hout.
  unfold row_at. cbn. destruct (Find _ id) as [i|] eqn:Hf; [|done]. cbn.
  apply (Find_owner _ _ _ Hp) in Hf. pose proof Hf as Hf'. apply booked_owns in Hf'.
  destruct Hf as (s & Hs & Hc & _), Hf' as (s' & Hs' & Hc' & _). rewrite Hs, Hs'. cbn.
  destruct (booked_slot i s' Hs') as [[Hs2 _]|(r & s2 & _ & _ & Hpr & _ & _ & _ & _ & ->)].
  - rewrite Hs in Hs2. by injection Hs2 as ->.
  - unfold admitted in Hc'. by rewrite Hpr in Hc'.
Qed.
End booking.

(** The storage [Reserve] builds. *)
Definition new_storage (id : N) (requests : list FixedStateReservationRequest) (rows : list RowPlan) (v : FixedStateReservationViews)
    (captures direct bank : bool) (first : nat) : Storage :=
  mkStorage (make_handle id <$> rows) (row_provisional <$> rows) (row_expected <$> rows)
    (row_target <$> rows) (fr_capture_count <$> requests) (replicate (length requests) 0)
    (replicate (length requests) 0) v captures direct bank first.

Lemma booked_live p requests rows reservation bytes new_bank ss v captures direct bank first :
  pool_ok p -> active_reservation_id p = 0%N -> rows_ok p requests rows -> reservation <> 0%N ->
  (captures = true -> contract_capacity (contract (config p)) <> 0%N) ->
  (forall r, r ∈ rows -> ss !! row_slot r = admitted reservation new_bank r <$> slots p !! row_slot r) ->
  (forall i, i ∉ row_slot <$> rows -> ss !! i = slots p !! i) ->
  built_views (config p) (mkViewKey (length requests) first bank direct captures) = Ok v ->
  (direct = true -> forall i r, rows !! i = Some r -> row_provisional r = false /\ row_slot r = first + i) ->
  (direct = true -> all_shared p \/ forall r s, r ∈ rows -> slots p !! row_slot r = Some s -> active_bank s = bank) ->
  live (booked reservation bytes ss p) (mkReservation true reservation (Some (new_storage (owner (config p)) requests rows v captures direct bank first)) Reserved)
    (new_storage (owner (config p)) requests rows v captures direct bank first).
Proof.
  intros Hp Hidle Hrows Hres Hcap Hin Hout Hv Hdir Hbank.
  assert (length rows = length requests) as Hlen by (symmetry; eapply Forall2_length, Hrows).
  assert (handle_slot <$> (make_handle (owner (config p)) <$> rows) = row_slot <$> rows) as Hslots by (rewrite <- list_fmap_compose; done).
  split; cbn; try done.
  - intros row h (r & -> & Hr)%list_lookup_fmap_Some. assert (r ∈ rows) as Hel by (by eapply list_elem_of_lookup_2).
    destruct (rw_row _ _ _ _ Hrows Hel) as (Hid & s & Hs & Hrest).
    exists (admitted reservation new_bank r s), (row_provisional r). cbn. rewrite (Hin r Hel), Hs, !list_lookup_fmap, Hr. cbn.
    unfold admitted. destruct (row_provisional r).
    + destruct Hrest as (_ & _ & Hg & Hlt & He). split_and!; try done; cbn; [|by rewrite He]. rewrite Hg. apply N.mod_small, Hlt.
    + destruct Hrest as (Hc & Hi & Hg & He & _). split_and!; try done. by rewrite He.
  - rewrite Hslots. apply Hrows.
  - rewrite !length_fmap, !length_replicate. done.
  - intros row kept Hk Hnz. apply lookup_replicate in Hk as [-> _]. done.
  - intros i s' Hs' Ho. rewrite Hslots. destruct (decide (i ∈ row_slot <$> rows)) as [|Hno]; [done|]. rewrite (Hout i Hno) in Hs'.
    destruct (po_slot _ Hp _ _ Hs') as [_ H]. rewrite Ho in H. destruct H as (_ & _ & _ & H). by rewrite Hidle in H.
  - unfold storage_key. cbn. by rewrite length_fmap, Hlen.
  - intros Hd row h (r & -> & Hr)%list_lookup_fmap_Some. destruct (Hdir Hd row r Hr) as [Hpr Hsl]. split; [done|].
    destruct (Hbank Hd) as [Hall|Hall]; [by left|right]. assert (r ∈ rows) as Hel by (by eapply list_elem_of_lookup_2).
    intros s. cbn. rewrite (Hin r Hel). unfold admitted. rewrite Hpr. intros (s0 & Hs0 & ->)%fmap_Some. by apply (Hall r s0).
Qed.

(** The row each binding presents. *)
Lemma presented_row p0 p requests rows t spec row q r : staged p0 p -> rows_ok p requests rows -> requests !! row = Some q -> rows !! row = Some r ->
  tensors (config p0) !! t = Some spec -> memory (device p) (gather_source (slots p) t spec r) = presented p0 q t.
Proof.
  intros Hst Hrows Hq Hr Ht. assert (r ∈ rows) as Hel by (by eapply list_elem_of_lookup_2).
  destruct (Forall2_lookup_lr _ _ _ _ _ _ (rw_requests _ _ _ Hrows) Hq Hr) as (Hid & _ & Hcp).
  destruct (rw_row _ _ _ _ Hrows Hel) as (Hnz & s & Hs & Hrest). unfold presented. rewrite <- Hid.
  rewrite <- (proj1 (staged_sees _ _ Hst)). unfold visible, gather_source. destruct (row_provisional r).
  - destruct Hrest as (Hno & _). destruct (Find (committed_index p) (row_request_id r)) as [i|] eqn:Hf.
    { apply (Find_owner _ _ _ (sg_ok _ _ Hst)) in Hf. by destruct (Hno i). }
    cbn. rewrite (Hcp eq_refl). destruct (fr_prefix_checkpoint q); by apply (sg_memory _ _ Hst).
  - destruct Hrest as (Hc & Hi & _). assert (Find (committed_index p) (row_request_id r) = Some (row_slot r)) as ->.
    { apply (Find_owner _ _ _ (sg_ok _ _ Hst)). by exists s. }
    cbn. rewrite Hs. cbn. rewrite (sg_config _ _ Hst), Ht. cbn. unfold settled. by rewrite (sg_deferred _ _ Hst).
Qed.

Lemma EnsureHealthy_bind {A} p (k : unit -> M (FixedStatePool V) FixedStateError A) :
  (EnsureHealthy ≫= k) p = if healthy p then k tt p else (Throw Unhealthy, p).
Proof. unfold EnsureHealthy. rewrite bind_bind, gets_bind. unfold Datatypes.id. by destruct (healthy p). Qed.

Lemma EnsureIdle_bind {A} p (k : unit -> M (FixedStatePool V) FixedStateError A) :
  (EnsureIdle ≫= k) p = if (active_reservation_id p =? 0)%N then k tt p else (Throw LiveReservation, p).
Proof. unfold EnsureIdle. rewrite bind_bind, gets_bind. unfold Datatypes.id. by destruct (_ =? 0)%N. Qed.

Lemma check_captures_run p requests : match check_captures requests p with
  | (Ok _, p') => p' = p /\ (existsb (fun r => negb (fr_capture_count r =? 0)%N) requests = true -> contract_capacity (contract (config p)) <> 0%N)
  | (Throw _, p') => p' = p
  | _ => False end.
Proof.
  unfold check_captures. rewrite gets_bind. unfold Datatypes.id, mbind, M_bind, throw_if, SupportsStateUpdates.
  destruct (existsb (fun r => negb (fr_capture_count r =? 0)%N) requests); cbn; [|by destruct (_ && existsb _ _)].
  destruct (contract_enabled _); cbn; [|done]. destruct (N.eqb_spec (contract_capacity (contract (config p))) 0); cbn; [done|].
  by destruct (existsb _ _).
Qed.

Lemma kept_refl p : pool_ok p -> kept p p.
Proof. intros Hp. by split. Qed.

(** What a successful reservation promises. *)
Record reserved p0 (requests : list FixedStateReservationRequest) (r : FixedStateReservation) (st : Storage) p : Prop := mk_reserved
  { rv_live : live p r st;
    rv_ok : pool_ok p;
    rv_state : reservation_state r = Reserved;
    rv_config : config p = config p0;
    rv_healthy : healthy p = true;
    rv_deferred : deferred_replay p = [];
    rv_visible : forall id t, visible p id t = visible p0 id t;
    rv_tokens : forall id, visible_tokens p id = visible_tokens p0 id;
    rv_ids : handle_request_id <$> handles st = fr_request_id <$> requests;
    rv_targets : target_tokens st = fr_target_tokens <$> requests;
    rv_counts : capture_counts st = fr_capture_count <$> requests;
    rv_fresh : commit_step_tokens st = replicate (length requests) 0 /\ commit_kept_tokens st = replicate (length requests) 0;
    rv_inputs : forall row q t spec, requests !! row = Some q -> tensors (config p0) !! t = Some spec ->
      memory (device p) (input_at st spec t row) = presented p0 q t;
    rv_flight : forall id t l, row_at p id t = Some l -> l ∈ in_flight (device p) -> row_at p0 id t = Some l /\ l ∈ at_risk p0;
    rv_static : forall l, static l -> memory (device p) l = settled p0 l /\ (l ∈ in_flight (device p) -> l ∈ at_risk p0) }.

(** The last two phases, from the gathered inputs. *)
Lemma finish_reserve p0 p requests rows reservation new_bank v captures direct bank first : staged p0 p -> healthy p0 = true ->
  active_reservation_id p0 = 0%N -> rows_ok p requests rows -> reservation <> 0%N ->
  (captures = true -> contract_capacity (contract (config p0)) <> 0%N) ->
  built_views (config p) (mkViewKey (length requests) first bank direct captures) = Ok v ->
  (direct = true -> forall i r, rows !! i = Some r -> row_provisional r = false /\ row_slot r = first + i) ->
  (direct = true -> all_shared p \/ forall r s, r ∈ rows -> slots p !! row_slot r = Some s -> active_bank s = bank) ->
  (direct = false -> forall t spec i r, tensors (config p) !! t = Some spec -> rows !! i = Some r ->
     memory (device p) (mkLoc t GatheredStaging i) = memory (device p) (gather_source (slots p) t spec r)) ->
  exists ss, for_each (admit_row reservation new_bank) rows p = (Ok tt, set_slots ss p) /\
    reserved p0 requests (mkReservation true reservation (Some (new_storage (owner (config p)) requests rows v captures direct bank first)) Reserved)
      (new_storage (owner (config p)) requests rows v captures direct bank first) (booked reservation (staging_bytes v) ss p).
Proof.
  intros Hst Hh Hidle Hrows Hres Hcap Hv Hdir Hbank Hgath. destruct (admit_run p requests rows reservation new_bank Hrows) as (ss & Hrun & Hlen & Hin & Hout).
  exists ss. split; [done|]. pose proof (sg_ok _ _ Hst) as Hp. assert (active_reservation_id p = 0%N) as Hidle' by (by rewrite (sg_active _ _ Hst)).
  destruct (booked_sees p requests rows reservation (staging_bytes v) new_bank ss Hp Hidle' Hrows Hin Hout) as [Hsee Htok].
  destruct (staged_sees _ _ Hst) as [Hsee0 Htok0].
  pose proof (booked_row_at p requests rows reservation (staging_bytes v) new_bank ss Hp Hidle' Hrows Hin Hout) as Hrow.
  split; try done.
  - rewrite <- (sg_config _ _ Hst) in Hcap. by eapply booked_live.
  - by eapply booked_ok.
  - apply (sg_config _ _ Hst).
  - cbn. by rewrite (sg_healthy _ _ Hst).
  - apply (sg_deferred _ _ Hst).
  - intros. by rewrite Hsee.
  - intros. by rewrite Htok.
  - cbn. rewrite <- list_fmap_compose. pose proof (rw_requests _ _ _ Hrows) as H2. clear -H2. induction H2 as [|q r rs rws [H _] _ IH]; cbn; [done|]. by rewrite IH, H.
  - cbn. pose proof (rw_requests _ _ _ Hrows) as H2. clear -H2. induction H2 as [|q r rs rws (_ & H & _) _ IH]; cbn; [done|]. by rewrite IH, H.
  - intros row q t spec Hq Ht. destruct (Forall2_lookup_l _ _ _ _ _ (rw_requests _ _ _ Hrows) Hq) as (r & Hr & _).
    rewrite <- (presented_row p0 p requests rows t spec row q r Hst Hrows Hq Hr Ht). unfold input_at. cbn. rewrite <- (sg_config _ _ Hst) in Ht.
    destruct direct; [|by apply Hgath]. destruct (Hdir eq_refl row r Hr) as [Hpr Hsl]. unfold gather_source. rewrite Hpr.
    assert (r ∈ rows) as Hel by (by eapply list_elem_of_lookup_2). destruct (rw_row _ _ _ _ Hrows Hel) as (_ & s & Hs & _). rewrite Hs. cbn. rewrite <- Hsl.
    destruct (Hbank eq_refl) as [Hall|Hall]; [|by rewrite (Hall r s Hel Hs)]. unfold bank_loc, FixedStateSpec.bank.
    rewrite (proj1 (Forall_forall _ _) Hall spec) by (by eapply list_elem_of_lookup_2). by rewrite !andb_false_r.
  - intros id t l Hl Hfl. rewrite Hrow in Hl. cbn in Hfl. destruct (sg_flight _ _ Hst) as [Hnil|[Hss Hrisk]].
    { rewrite Hnil in Hfl. by apply elem_of_nil in Hfl. }
    rewrite <- Hrisk. split; [|done]. rewrite <- Hl. unfold row_at. by rewrite (sg_index _ _ Hst), (sg_config _ _ Hst), Hss.
  - intros l [H1 H2]%static_other. split; [by apply (sg_memory _ _ Hst)|]. cbn. destruct (sg_flight _ _ Hst) as [->|[_ ->]]; [|done]. intros Hl. by apply elem_of_nil in Hl.
Qed.

Lemma maybe_normalize p0 p requests rows (direct bank : bool) : staged p0 p -> rows_ok p requests rows ->
  match (if direct then normalize rows bank else mret tt) p with
  | (Ok _, p') => staged p0 p' /\ same_owners (slots p) (slots p') /\ config p' = config p /\
      (direct = true -> all_shared p \/ forall r s, r ∈ rows -> slots p' !! row_slot r = Some s -> active_bank s = bank)
  | (Throw _, p') => kept p0 p'
  | _ => False end.
Proof.
  intros Hst Hrows. destruct direct; [|split; [done|split; [apply same_owners_refl|done]]].
  pose proof (normalize_run p rows bank (rows_in_range _ _ _ Hrows) (rw_slots _ _ _ Hrows)) as Hn.
  destruct (normalize rows bank p) as [[u|e| |] p1]; try done.
  - split; [by eapply staged_normalized|]. destruct Hn as (ss & d & -> & [Hlen Hre] & _ & _ & Hb). split; [|split; [done|]].
    + split; [done|]. intros i s Hs. destruct (Hre i s Hs) as (b & Hb' & _). eauto.
    + intros _. destruct Hb as [Hb|Hb]; [by left|by right].
  - destruct Hn as (d & -> & Hun). by apply (kept_failed p0 p d).
Qed.

(** From the planned rows to the end. *)
Lemma reserve_rows p0 p requests rows reservation captures : staged p0 p -> healthy p0 = true -> active_reservation_id p0 = 0%N ->
  rows_ok p requests rows -> reservation <> 0%N -> (captures = true -> contract_capacity (contract (config p0)) <> 0%N) ->
  let first := from_option row_slot 0 (head rows) in
  let direct := SupportsOffsetTensorViews && consecutive rows first in
  let bank := direct && majority_bank rows first (slots p) in
  let key := mkViewKey (length requests) (if direct then first else 0) bank direct captures in
  match (_ ← (if direct then normalize rows bank else mret tt);
         v ← reservation_views key bank first;
         _ ← (if has_active v then modify (fun p => p <| active_staging := if captures then 1%Z else 0%Z |>) else mret tt);
         _ ← gather v captures direct requests rows;
         _ ← for_each (admit_row reservation (common_bank None rows (slots p))) rows;
         _ ← modify (fun p => p <| next_reservation_id := u64_succ (next_reservation_id p) |>
               <| active_reservation_id := reservation |> <| active_staging_bytes := staging_bytes v |>
               <| active_reservation := Some reservation |>);
         mret (mkReservation true reservation
           (Some (new_storage (owner (config p)) requests rows v captures direct bank (if direct then first else 0))) Reserved)) p with
  | (Ok r, p') => exists st, reserved p0 requests r st p'
  | (Throw _, p') => kept p0 p'
  | _ => False end.
Proof.
  intros Hst Hh Hidle Hrows Hres Hcap first direct bank key. cbv zeta.
  pose proof (maybe_normalize p0 p requests rows direct bank Hst Hrows) as Hnorm.
  unfold mbind at 1, M_bind at 1. destruct ((if direct then normalize rows bank else mret tt) p) as [[u|e| |] p1]; try done.
  destruct Hnorm as (Hst1 & Hso & Hc1 & Hb1). clear u.
  assert (direct = true -> first = key_first_direct_slot key) as Hkf by (intros Hd; cbn; by rewrite Hd).
  pose proof (reservation_views_run p1 key bank first (sg_ok _ _ Hst1) eq_refl Hkf) as Hv.
  unfold mbind at 1, M_bind at 1. destruct (reservation_views key bank first p1) as [[v|e| |] p2]; try done; [|subst; by apply staged_kept].
  destruct Hv as [Hv (vc & -> & Hvc)]. assert (staged p0 (set_views vc p1)) as Hst2 by (by apply (staged_host p0 p1)).
  assert (exists p3, (if has_active v then modify (E := FixedStateError) (fun p => p <| active_staging := if captures then 1%Z else 0%Z |>) else mret tt) (set_views vc p1) =
    (Ok tt, p3) /\ staged p0 p3 /\ config p3 = config p1 /\ slots p3 = slots p1) as (p3 & H3 & Hst3 & Hc3 & Hs3).
  { destruct (has_active v); eexists; (split; [reflexivity|]); split; try done. by apply (staged_host p0 p1). }
  rewrite (bind_ok _ _ _ _ _ H3). assert (rows_ok p3 requests rows) as Hrows3 by (apply (rows_ok_owners p); [by rewrite Hs3|done]).
  assert (direct = false -> gathered_inputs v = gathered_view (length requests) false false 0 <$> imap pair (tensors (config p3))) as Hgv.
  { intros Hd. rewrite Hc3. unfold built_views in Hv. cbn in Hv. rewrite Hd in Hv. apply views_spec in Hv as (-> & _). unfold bank. by rewrite Hd. }
  pose proof (gather_run p3 v captures direct requests rows (length requests) (rows_in_range _ _ _ Hrows3) Hgv) as Hg.
  unfold mbind at 1, M_bind at 1. destruct (gather v captures direct requests rows p3) as [[u|e| |] p4]; try done; [|by eapply kept_gather].
  pose proof (staged_gathered p0 p3 rows direct p4 Hst3 Hg) as Hst4. destruct Hg as (d4 & hc & -> & Hother & Hstage & _).
  destruct (finish_reserve p0 (set_device d4 (set_counts hc p3)) requests rows reservation (common_bank None rows (slots p)) v captures direct bank
    (if direct then first else 0)) as (ss & Hrun & Hres'); try done.
  - apply (rows_ok_owners p3); [apply same_owners_refl|done].
  - change (built_views (config p3) key = Ok v). by rewrite Hc3.
  - intros Hd. rewrite Hd in *. apply andb_prop in Hd as [_ Hd]. by apply consecutive_spec.
  - intros Hd. destruct (Hb1 Hd) as [Ha|Ha]; [left; unfold all_shared in *; cbn; rewrite Hc3, Hc1; done|right].
    intros r s Hr. cbn. rewrite Hs3. by apply Ha.
  - intros Hd t spec i r Ht Hr. cbn. rewrite (Hstage Hd t spec i r Ht Hr). symmetry. apply Hother, gather_source_other.
  - rewrite (bind_ok _ _ _ _ _ Hrun), modify_bind. eexists. replace (owner (config p)) with (owner (config p3)) by (by rewrite Hc3, Hc1). exact Hres'.
Qed.

Lemma Reserve_run p requests : pool_ok p -> active_reservation_id p = 0%N ->
  match Reserve requests p with
  | (Ok r, p') => exists st, reserved p requests r st p'
  | (Throw _, p') => kept p p'
  | _ => False end.
Proof.
  intros Hp Hidle. unfold Reserve. rewrite EnsureHealthy_bind. destruct (healthy p) eqn:Hh; [|by apply kept_refl].
  rewrite EnsureIdle_bind, Hidle. cbn [N.eqb]. pose proof (Flush_run p) as Hf. unfold mbind at 1, M_bind at 1.
  destruct (FlushDeferredReplay p) as [[u|e| |] p1]; try done; [|destruct Hf as (d & -> & Hd); by apply kept_flush].
  destruct Hf as (d & -> & Hm & Hr). pose proof (staged_flush p d Hp Hm Hr) as Hst. set (p1 := set_deferred _ _) in *.
  destruct (length requests =? 0); [by apply staged_kept|]. rewrite (throw_if_false _ _ _ _ eq_refl), gets_bind. unfold Datatypes.id.
  destruct (_ <? length requests); [by apply staged_kept|]. rewrite (throw_if_false _ _ _ _ eq_refl). cbv zeta.
  pose proof (check_captures_run p1 requests) as Hc. unfold mbind at 1, M_bind at 1.
  destruct (check_captures requests p1) as [[u'|e| |] p2]; try done; [destruct Hc as [-> Hc]|subst p2; by apply staged_kept].
  destruct (_ || _) eqn:Hid; [by apply staged_kept|]. rewrite (throw_if_false _ _ _ _ eq_refl). apply orb_false_iff in Hid as [Hid%N.eqb_neq _].
  pose proof (plan_rows_run p1 requests (sg_ok _ _ Hst) [] _ (planning_start p1)) as Hplan. unfold mbind at 1, M_bind at 1.
  destruct (plan_rows _ _ p1) as [[st|e| |] p2]; try done; [|subst; by apply staged_kept]. destruct Hplan as [-> Hplan].
  apply (reserve_rows p p1 requests (planned st)); try done. apply (pl_rows _ _ _ Hplan).
Qed.
End pool_state.
