(* ===== verification/FixedStateCommit.v ===== *)
(** * Committing fixed state

    What a commit of the fixed-state pool does: [PrepareCommit] writes the outputs of the
    step, or queues the replay of the accepted drafts, without touching a visible row;
    [PublishCommit] makes exactly those rows visible; discarding and failing leave every
    visible row as it was. *)

From S2P Require Import Prelude RequestIndex EngineInvariants StateManifest StateManifestProofs FixedStateSpec FixedStatePool FixedStateDevice FixedStateReserve.
From stdpp Require Import strings.

Open Scope nat_scope.

(** ** Rows of a step *)

(** A row of a tensor is published whole, rewritten with its sibling's replay, or replayed. *)
Inductive row_mode : Type := Whole | Sibling | Replayed.

Definition is_sibling (spec : TensorSpec) : bool :=
  bool_decide (tensor_kind spec = FixedIndexer) && negb (component_index spec =? 0).

Definition without_value (spec : TensorSpec) : bool :=
  bool_decide (tensor_kind spec = FixedPle) && (component_index spec =? 0) &&
  bool_decide (output_spec_name (state_update_value (update spec)) = no_name).

(** Whether the step keeps only a part of the row's tokens. *)
Definition partial (st : Storage) (row : nat) : bool :=
  match commit_kept_tokens st !! row, commit_step_tokens st !! row with
  | Some kept, Some step => negb (kept =? 0) && negb (kept =? step)
  | _, _ => false
  end.

Definition mode (st : Storage) (spec : TensorSpec) (row : nat) : row_mode :=
  if negb (partial st row) then Whole
  else if is_sibling spec then Sibling
  else if without_value spec then Whole
  else Replayed.

(** Indexer keys are followed by their buffer and their lengths. *)
Record tensors_ok (c : PoolConfig) : Prop := mk_tensors_ok
  { tk_indexer : forall t spec, tensors c !! t = Some spec -> state_update_kind (update spec) = Indexer ->
      is_sibling spec = false /\ without_value spec = false /\ exists buffer lengths, tensors c !! (t + 1) = Some buffer /\ tensors c !! (t + 2) = Some lengths /\
        is_Some (session_shape buffer !! 1) /\ is_sibling buffer = true /\ component_index buffer = 1 /\
        is_sibling lengths = true /\ component_index lengths = 2;
    tk_sibling : forall t spec, tensors c !! t = Some spec -> is_sibling spec = true -> contract_capacity (contract c) <> 0%N ->
      component_index spec <= t /\ (component_index spec = 1 \/ component_index spec = 2) /\
      exists key, tensors c !! (t - component_index spec) = Some key /\ state_update_kind (update key) = Indexer }.

Section commit.
Context {V : Type} `{!DeviceInterface V}.
Implicit Types (p : FixedStatePool V) (st : Storage).

(** The slot of a row and the bank its next state goes to. *)
Definition slot_of st (row : nat) : nat := from_option handle_slot 0 (handles st !! row).
Definition next_bank (ss : list Slot) st (row : nat) : bool := from_option (negb ∘ active_bank) true (ss !! slot_of st row).
Definition target_at (ss : list Slot) st (spec : TensorSpec) (t row : nat) : loc := bank_loc spec t (next_bank ss st row) (slot_of st row).

Definition row_copies (ss : list Slot) st (ts : nat * TensorSpec) (row : nat) : list (loc * loc) :=
  match mode st ts.2 row with
  | Whole => if uses_direct_bindings st then [] else [(target_at ss st ts.2 ts.1 row, output_at st ts.2 ts.1 row)]
  | _ => []
  end.

Definition row_siblings (c : PoolConfig) (ss : list Slot) st (t row : nat) : option IndexerSiblings :=
  buffer ← tensors c !! (t + 1); lengths ← tensors c !! (t + 2); z ← session_shape buffer !! 1;
  Some (mkSiblings (input_at st buffer (t + 1) row) (target_at ss st buffer (t + 1) row)
          (input_at st lengths (t + 2) row) (target_at ss st lengths (t + 2) row) (u64_of_Z z)).

Definition row_replay (c : PoolConfig) (ss : list Slot) st (ts : nat * TensorSpec) (row : nat) : StateUpdateReplayDesc :=
  let '(t, spec) := ts in
  let updates := update_views (length (handles st)) ts in
  mkReplay spec (replay_kind_of (state_update_kind (update spec))) (input_at st spec t row) (target_at ss st spec t row)
    (flip view_at row <$> updates.1) (flip view_at row <$> updates.2) (N.of_nat (from_option id 0 (commit_kept_tokens st !! row)))
    (if bool_decide (state_update_kind (update spec) = Indexer) then row_siblings c ss st t row else None).

Definition row_replays (c : PoolConfig) (ss : list Slot) st (ts : nat * TensorSpec) (row : nat) : list StateUpdateReplayDesc :=
  match mode st ts.2 row with Replayed => [row_replay c ss st ts row] | _ => [] end.

(** The row a commit publishes, in terms of the memory the model left. *)
Definition published (c : PoolConfig) (ss : list Slot) st (m : loc -> V) (t : nat) (spec : TensorSpec) (row : nat) : option V :=
  match mode st spec row with
  | Whole => Some (m (output_at st spec t row))
  | Replayed => Some (replay (row_replay c ss st (t, spec) row) m (target_at ss st spec t row))
  | Sibling =>
    key ← tensors c !! (t - component_index spec);
    Some (replay (row_replay c ss st (t - component_index spec, key) row) m (target_at ss st spec t row))
  end.

(** ** The staging program *)

Lemma live_lookup p r st row : live p r st -> row < length (handles st) ->
  exists h s kept step, handles st !! row = Some h /\ slots p !! handle_slot h = Some s /\
    commit_kept_tokens st !! row = Some kept /\ commit_step_tokens st !! row = Some step.
Proof.
  intros H Hrow. apply lookup_lt_is_Some in Hrow as Hh. destruct Hh as [h Hh]. destruct (lv_row _ _ _ H row h Hh) as (s & new & Hs & _).
  destruct (lv_lengths _ _ _ H) as (_ & _ & L1 & L2 & _).
  destruct (lookup_lt_is_Some_2 (commit_kept_tokens st) row ltac:(lia)) as [kept Hk].
  destruct (lookup_lt_is_Some_2 (commit_step_tokens st) row ltac:(lia)) as [step Hst]. by exists h, s, kept, step.
Qed.

Lemma live_views p r st : live p r st ->
  (forall t spec, tensors (config p) !! t = Some spec ->
     (exists v, gathered_inputs (views st) !! t = Some v /\ forall row, view_at v row = input_at st spec t row) /\
     (exists v, staged_outputs (views st) !! t = Some v /\ forall row, view_at v row = output_at st spec t row)) /\
  (captures_state_updates st = true -> forall t spec, tensors (config p) !! t = Some spec ->
     state_update_tensors (views st) !! t = Some (update_views (length (handles st)) (t, spec))).
Proof.
  intros H. pose proof (lv_views _ _ _ H) as Hv. unfold built_views in Hv. cbn in Hv. apply views_spec in Hv as (Hg & Hs & Hu). split.
  - intros t spec Ht. rewrite Hg, Hs, !list_lookup_fmap, list_lookup_imap, Ht. split; (eexists; split; [reflexivity|]); intros row;
      unfold view_at, input_at, output_at, gathered_view, staged_view, bank_loc; cbn; by destruct (uses_direct_bindings st).
  - intros Hc t spec Ht. by rewrite (Hu Hc), list_lookup_fmap, list_lookup_imap, Ht.
Qed.

Lemma siblings_prog p r st t spec row kept : live p r st -> tensors_ok (config p) -> tensors (config p) !! t = Some spec ->
  state_update_kind (update spec) = Indexer -> row < length (handles st) ->
  exists sib, row_siblings (config p) (slots p) st t row = Some sib /\
    dev_prog p (indexer_siblings (views st) t spec (slot_of st row) row (next_bank (slots p) st row) kept) [] sib.
Proof.
  intros H Htok Ht Hk Hrow. destruct (tk_indexer _ Htok t spec Ht Hk) as (_ & _ & buffer & lengths & Hb & Hl & [z Hz] & _).
  destruct (live_views _ _ _ H) as [Hin _]. destruct (Hin _ _ Hb) as [(vb & Hvb & Eb) _]. destruct (Hin _ _ Hl) as [(vl & Hvl & El) _].
  unfold row_siblings. rewrite Hb, Hl. cbn. rewrite Hz. cbn. eexists. split; [done|].
  unfold indexer_siblings. apply dev_read. unfold Datatypes.id. rewrite Hb, Hl, Hvb, Hvl.
  change (@nil (loc * loc)) with (@nil (loc * loc) ++ []). eapply dev_bind; [apply dev_transfer|]. intros p1 Hr. apply dev_read.
  assert (extent (session_shape buffer) 1 = Ok (u64_of_Z z)) as Hext by (unfold extent; by rewrite Hz).
  change (@nil (loc * loc)) with (@nil (loc * loc) ++ []). eapply dev_bind with (a := tt).
  - unfold check_lengths. rewrite Hext. unfold lift_result. change (dev_prog p1 (lift (Ok (u64_of_Z z)) ≫= ?k) [] tt) with (dev_prog p1 (k (u64_of_Z z)) [] tt).
    cbv beta. apply dev_throw_if. intros _. destruct (_ || _); [apply broke_refl|apply dev_ret].
  - intros p2 Hr2. rewrite Hext. change (dev_prog p2 (lift_result (Ok (u64_of_Z z)) ≫= ?k) [] ?b) with (dev_prog p2 (k (u64_of_Z z)) [] b).
    rewrite Eb, El. apply dev_ret.
Qed.

Lemma prepare_row_prog p r st t spec row : live p r st -> tensors_ok (config p) -> tensors (config p) !! t = Some spec ->
  row < length (handles st) ->
  dev_prog p (prepare_row st t spec row) (row_copies (slots p) st (t, spec) row) (row_replays (config p) (slots p) st (t, spec) row).
Proof.
  intros H Htok Ht Hrow. destruct (live_lookup _ _ _ _ H Hrow) as (h & s & kept & step & Hh & Hs & Hk & Hst).
  destruct (live_views _ _ _ H) as [Hio Hup]. destruct (Hio _ _ Ht) as [(vg & Hvg & Eg) (vs & Hvs & Es)].
  assert (slot_of st row = handle_slot h) as Hslot by (unfold slot_of; by rewrite Hh).
  assert (next_bank (slots p) st row = negb (active_bank s)) as Hbank by (unfold next_bank; by rewrite Hslot, Hs).
  unfold prepare_row. rewrite Hh, Hk, Hst, Hvs, Hvg. eapply dev_get_slot; [exact Hs|]. cbv zeta.
  assert (dev_prog p (_ ← (if negb (uses_direct_bindings st) then stage_row t spec vs (handle_slot h) row (negb (active_bank s)) else mret tt); mret [])
    (if uses_direct_bindings st then [] else [(target_at (slots p) st spec t row, output_at st spec t row)]) (@nil StateUpdateReplayDesc)) as Hwhole.
  { destruct (uses_direct_bindings st); cbn [negb]; [apply dev_ret|]. unfold stage_row, target_at. rewrite Es, Hslot, Hbank.
    change [(?a, ?b)] with ([(a, b)] ++ []). eapply dev_bind; [apply dev_copy|]. intros. apply dev_ret. }
  unfold row_copies, row_replays, mode, partial. cbn [fst snd]. rewrite Hk, Hst.
  replace ((kept =? 0) || (kept =? step)) with (negb (negb (kept =? 0) && negb (kept =? step))) by (by destruct (kept =? 0), (kept =? step)).
  destruct (negb (_ && _)) eqn:Hpart; [exact Hwhole|]. unfold is_sibling. destruct (bool_decide (tensor_kind spec = FixedIndexer) && _) eqn:Hsib; [apply dev_ret|].
  unfold without_value. destruct (_ && bool_decide (output_spec_name _ = _)); [exact Hwhole|].
  assert (captures_state_updates st = true) as Hcap.
  { apply (lv_partial _ _ _ H row kept Hk). intros ->. done. }
  change (@nil (loc * loc)) with (@nil (loc * loc) ++ []).
  apply (dev_bind p _ _ [] [] (if bool_decide (state_update_kind (update spec) = Indexer) then row_siblings (config p) (slots p) st t row else None)).
  - destruct (bool_decide (state_update_kind _ = Indexer)) eqn:Hi; [|apply dev_ret]. apply bool_decide_eq_true in Hi.
    destruct (siblings_prog p r st t spec row kept H Htok Ht Hi Hrow) as (sib & -> & Hd).
    rewrite Hslot, Hbank in Hd. by apply dev_fmap.
  - intros p1 _. rewrite (Hup Hcap _ _ Ht). unfold row_replay. rewrite Eg, Hk. unfold target_at. rewrite Hslot, Hbank.
    destruct (update_views (length (handles st)) (t, spec)) as [val cap]. apply dev_ret.
Qed.

Definition row_numbers st : list nat := seq 0 (length (handles st)).
Definition all_copies p st : list (loc * loc) :=
  imap pair (tensors (config p)) ≫= fun ts => row_numbers st ≫= row_copies (slots p) st ts.
Definition all_replays p st : list StateUpdateReplayDesc :=
  imap pair (tensors (config p)) ≫= fun ts => row_numbers st ≫= row_replays (config p) (slots p) st ts.

Lemma mjoin_fmap {A B} (f : A -> list B) (l : list A) : mjoin (f <$> l) = l ≫= f.
Proof. induction l as [|x l IH]; [done|]. change (f x ++ mjoin (f <$> l) = f x ++ (l ≫= f)). by rewrite IH. Qed.

Lemma live_ran p r st cs p' : live p r st -> ran p cs p' -> live p' r st.
Proof. intros H [fs ->]. by destruct H; split. Qed.

Lemma stage_outputs_run p r st : live p r st -> tensors_ok (config p) -> deferred_replay p = [] ->
  match stage_outputs st p with
  | (Ok _, p') => exists fs, p' = set_deferred (all_replays p st) (set_device (mkDevice (run_copies (all_copies p st) (memory (device p))) [] fs) p)
  | (Throw _, p') => broke p (all_copies p st) p'
  | _ => False end.
Proof.
  intros H Htok Hdef. unfold stage_outputs.
  assert (FlushDeferredReplay p = (Ok tt, p)) as Hflush by (unfold FlushDeferredReplay; rewrite gets_bind; unfold Datatypes.id; by rewrite Hdef).
  rewrite (bind_ok _ _ _ _ _ Hflush), gets_bind. unfold Datatypes.id.
  assert (dev_prog p (mapM (prepare_tensor st) (imap pair (tensors (config p)))) (all_copies p st)
    ((fun ts => row_numbers st ≫= row_replays (config p) (slots p) st ts) <$> imap pair (tensors (config p)))) as Hprog.
  { apply dev_mapM. intros p1 cs [t spec] Hr Ht%elem_imap_pair. unfold prepare_tensor. cbn [fst snd].
    rewrite <- (mjoin_fmap (row_replays (config p) (slots p) st (t, spec))). apply dev_fmap.
    destruct (ran_host _ _ _ Hr) as (Hc1 & Hs1 & _).
    apply dev_mapM. intros p2 cs2 row Hr2 Hrow. destruct (ran_host _ _ _ Hr2) as (Hc2 & Hs2 & _).
    rewrite <- Hc1, <- Hs1, <- Hc2, <- Hs2. apply (prepare_row_prog p2 r); [by eapply live_ran, Hr2; eapply live_ran, Hr|by rewrite Hc2, Hc1|by rewrite Hc2, Hc1|].
    apply elem_of_seq in Hrow. lia. }
  unfold dev_prog in Hprog. destruct (mapM (M := M (FixedStatePool V) FixedStateError) _ _ p) as [[ds|e| |] p1] eqn:Hm; try done; [|by rewrite (bind_throw _ _ _ _ _ Hm)].
  rewrite (bind_ok _ _ _ _ _ Hm). destruct Hprog as [-> Hran]. pose proof (Synchronize_run p1) as Hs.
  destruct (Synchronize p1) as [[u|e| |] p2] eqn:Hsy; try done.
  - rewrite (bind_ok _ _ _ _ _ Hsy). destruct Hran as [f1 ->], Hs as [f2 ->]. exists f2. unfold all_replays. rewrite <- mjoin_fmap. done.
  - rewrite (bind_throw _ _ _ _ _ Hsy). destruct Hs as [_ Hs]. rewrite <- (app_nil_r (all_copies p st)). by eapply ran_broke.
Qed.

(** ** What the program writes *)

Lemma elem_all_copies p st d s0 : (d, s0) ∈ all_copies p st <-> uses_direct_bindings st = false /\
  exists t spec row, tensors (config p) !! t = Some spec /\ row < length (handles st) /\ mode st spec row = Whole /\
    d = target_at (slots p) st spec t row /\ s0 = output_at st spec t row.
Proof.
  unfold all_copies. rewrite list_elem_of_bind. split.
  - intros ([t spec] & Hin & Ht%elem_imap_pair). apply list_elem_of_bind in Hin as (row & Hin & Hrow%elem_of_seq).
    unfold row_copies in Hin. cbn in Hin. destruct (mode st spec row) eqn:Hm; try (by apply elem_of_nil in Hin).
    destruct (uses_direct_bindings st); [by apply elem_of_nil in Hin|]. apply list_elem_of_singleton in Hin as [= -> ->].
    split; [done|]. exists t, spec, row. split_and!; try done; lia.
  - intros (Hd & t & spec & row & Ht & Hrow & Hm & -> & ->). exists (t, spec). split; [|by apply elem_imap_pair].
    apply list_elem_of_bind. exists row. split; [|apply elem_of_seq; lia]. unfold row_copies. cbn. rewrite Hm, Hd. by left.
Qed.

Lemma elem_all_replays p st d : d ∈ all_replays p st <->
  exists t spec row, tensors (config p) !! t = Some spec /\ row < length (handles st) /\ mode st spec row = Replayed /\
    d = row_replay (config p) (slots p) st (t, spec) row.
Proof.
  unfold all_replays. rewrite list_elem_of_bind. split.
  - intros ([t spec] & Hin & Ht%elem_imap_pair). apply list_elem_of_bind in Hin as (row & Hin & Hrow%elem_of_seq).
    unfold row_replays in Hin. cbn in Hin. destruct (mode st spec row) eqn:Hm; try (by apply elem_of_nil in Hin).
    apply list_elem_of_singleton in Hin as ->. exists t, spec, row. split_and!; try done; lia.
  - intros (t & spec & row & Ht & Hrow & Hm & ->). exists (t, spec). split; [|by apply elem_imap_pair].
    apply list_elem_of_bind. exists row. split; [|apply elem_of_seq; lia]. unfold row_replays. cbn. rewrite Hm. by left.
Qed.

(** Rows of different requests are in different slots. *)
Lemma slot_of_inj p r st i j : live p r st -> i < length (handles st) -> j < length (handles st) -> slot_of st i = slot_of st j -> i = j.
Proof.
  intros H Hi Hj Heq. apply lookup_lt_is_Some in Hi as [hi Hi], Hj as [hj Hj]. unfold slot_of in Heq. rewrite Hi, Hj in Heq. cbn in Heq.
  eapply (NoDup_lookup (handle_slot <$> handles st)); [apply H|rewrite list_lookup_fmap, Hi; done|rewrite list_lookup_fmap, Hj; cbn; by rewrite Heq].
Qed.

Lemma mode_replayed st spec row : mode st spec row = Replayed -> partial st row = true /\ is_sibling spec = false.
Proof. unfold mode. destruct (partial st row); [|done]. destruct (is_sibling spec); [done|]. by destruct (without_value spec). Qed.

Lemma mode_sibling st spec row : mode st spec row = Sibling -> partial st row = true /\ is_sibling spec = true.
Proof. unfold mode. destruct (partial st row); [|done]. destruct (is_sibling spec); [done|]. by destruct (without_value spec). Qed.

Lemma mode_key st spec spec' row : is_sibling spec = true -> mode st spec row = Sibling -> is_sibling spec' = false -> without_value spec' = false ->
  mode st spec' row = Replayed.
Proof. intros Hs [Hp _]%mode_sibling H1 H2. unfold mode. by rewrite Hp, H1, H2. Qed.

(** The tensors a replay writes: its own and its siblings. *)
Lemma replay_destinations p st t spec row l : tensors_ok (config p) -> tensors (config p) !! t = Some spec -> mode st spec row = Replayed ->
  l ∈ destinations (row_replay (config p) (slots p) st (t, spec) row) <->
  l = target_at (slots p) st spec t row \/
  (state_update_kind (update spec) = Indexer /\ exists k sib, (k = 1 \/ k = 2) /\ tensors (config p) !! (t + k) = Some sib /\ is_sibling sib = true /\
     component_index sib = k /\ l = target_at (slots p) st sib (t + k) row).
Proof.
  intros Htok Ht Hm. unfold row_replay, destinations. cbn [destination_state siblings]. rewrite elem_of_cons.
  destruct (bool_decide (state_update_kind (update spec) = Indexer)) eqn:Hi.
  - apply bool_decide_eq_true in Hi. destruct (tk_indexer _ Htok t spec Ht Hi) as (_ & _ & b & g & Hb & Hg & [z Hz] & Sb & Cb & Sg & Cg).
    unfold row_siblings. rewrite Hb, Hg. cbn. rewrite Hz. cbn. split.
    + intros [->|Hin]; [by left|right]. split; [done|]. apply elem_of_cons in Hin as [->|Hin].
      * exists 1, b. split_and!; try done. by left.
      * apply list_elem_of_singleton in Hin as ->. exists 2, g. split_and!; try done. by right.
    + intros [->|(_ & k & sib & [->| ->] & Hs & _ & _ & ->)]; [by left|right..].
      * rewrite Hb in Hs. injection Hs as <-. by left.
      * rewrite Hg in Hs. injection Hs as <-. right. by left.
  - apply bool_decide_eq_false in Hi. split; [intros [->|Hin]; [by left|by apply elem_of_nil in Hin]|]. intros [->|[? _]]; [by left|done].
Qed.

(** A location of a row of a tensor or of its siblings. *)
Definition touches (c : PoolConfig) st (t row : nat) (l : loc) : Prop :=
  loc_row l = slot_of st row /\
  (loc_tensor l = t \/ exists k sib, (k = 1 \/ k = 2) /\ tensors c !! (t + k) = Some sib /\ is_sibling sib = true /\
     component_index sib = k /\ loc_tensor l = t + k).

Lemma touches_inj p r st t t' spec spec' row row' l : live p r st -> tensors (config p) !! t = Some spec -> tensors (config p) !! t' = Some spec' ->
  is_sibling spec = false -> is_sibling spec' = false -> row < length (handles st) -> row' < length (handles st) ->
  touches (config p) st t row l -> touches (config p) st t' row' l -> t = t' /\ row = row'.
Proof.
  intros H Ht Ht' Hs Hs' Hr Hr' [E1 T1] [E2 T2]. split; [|by eapply slot_of_inj; [exact H|..]; [done|done|congruence]].
  destruct T1 as [T1|(k & sib & _ & L1 & S1 & C1 & T1)], T2 as [T2|(k' & sib' & _ & L2 & S2 & C2 & T2)].
  - congruence.
  - rewrite <- T2, T1, Ht in L2. injection L2 as <-. congruence.
  - rewrite <- T1, T2, Ht' in L1. injection L1 as <-. congruence.
  - rewrite <- T1, T2, L2 in L1. injection L1 as <-. lia.
Qed.

Lemma destination_touches p st t spec row l : tensors_ok (config p) -> tensors (config p) !! t = Some spec -> mode st spec row = Replayed ->
  l ∈ destinations (row_replay (config p) (slots p) st (t, spec) row) -> touches (config p) st t row l.
Proof.
  intros Htok Ht Hm Hl. apply (replay_destinations p st t spec row l Htok Ht Hm) in Hl as [->|(_ & k & sib & Hk & Hs & Ss & Cs & ->)];
    (split; [done|]); [by left|right; by exists k, sib].
Qed.

Lemma input_touches p r st spec t row : live p r st -> row < length (handles st) ->
  not_bank (input_at st spec t row) \/ (uses_direct_bindings st = true /\ loc_row (input_at st spec t row) = slot_of st row /\ loc_tensor (input_at st spec t row) = t).
Proof.
  intros H Hrow. unfold input_at. destruct (uses_direct_bindings st) eqn:Hd; [right|by left]. split; [done|]. split; [|done]. cbn.
  apply lookup_lt_is_Some in Hrow as [h Hh]. unfold slot_of. rewrite Hh. cbn. symmetry. by apply (lv_direct _ _ _ H Hd row h Hh).
Qed.

Lemma source_touches p r st t spec row l : live p r st -> tensors_ok (config p) -> tensors (config p) !! t = Some spec -> row < length (handles st) ->
  l ∈ sources (row_replay (config p) (slots p) st (t, spec) row) -> not_bank l \/ (uses_direct_bindings st = true /\ touches (config p) st t row l).
Proof.
  intros H Htok Ht Hrow. unfold row_replay, sources. cbn [source_state replay_value replay_capsule siblings]. rewrite elem_of_cons, !elem_of_app.
  assert (forall b o, l ∈ option_list (flip view_at row <$> (if bool_decide (output_spec_name o = no_name) then None else Some (mkView t b 0 (length (handles st))))) ->
    (forall b', b <> Bank b') -> not_bank l) as Hup.
  { intros b o. case_bool_decide; [intros Hl; by apply elem_of_nil in Hl|]. intros ->%list_elem_of_singleton Hb b'. apply Hb. }
  intros [->|[Hl|[Hl|Hl]]].
  - destruct (input_touches p r st spec t row H Hrow) as [|(Hd & H1 & H2)]; [by left|right; split; [done|split; [done|by left]]].
  - left. by apply (Hup UpdateValue (state_update_value (update spec)) Hl).
  - left. by apply (Hup UpdateCapsule (state_update_capsule (update spec)) Hl).
  - destruct (bool_decide (state_update_kind (update spec) = Indexer)) eqn:Hi; [|by apply elem_of_nil in Hl].
    apply bool_decide_eq_true in Hi. destruct (tk_indexer _ Htok t spec Ht Hi) as (_ & _ & b & g & Hb & Hg & [z Hz] & Sb & Cb & Sg & Cg).
    unfold row_siblings in Hl. rewrite Hb, Hg in Hl. cbn in Hl. rewrite Hz in Hl. cbn in Hl. apply elem_of_cons in Hl as [->|Hl].
    + destruct (input_touches p r st b (t + 1) row H Hrow) as [|(Hd & H1 & H2)]; [by left|right; split; [done|split; [done|right]]]. exists 1, b. split_and!; try done. by left.
    + apply list_elem_of_singleton in Hl as ->. destruct (input_touches p r st g (t + 2) row H Hrow) as [|(Hd & H1 & H2)]; [by left|right; split; [done|split; [done|right]]].
      exists 2, g. split_and!; try done. by right.
Qed.

(** ** The effect of the queued replays *)

Context `{!DeviceLaws V}.

Lemma apply_replays_hit ds1 d ds2 (m : loc -> V) l : l ∈ destinations d -> (forall d', d' ∈ ds2 -> l ∉ destinations d') ->
  (forall d' a, d' ∈ ds1 -> a ∈ sources d -> a ∉ destinations d') -> apply_replays (ds1 ++ d :: ds2) m l = replay d m l.
Proof.
  intros Hl H2 H1. unfold apply_replays. rewrite foldl_app. cbn [foldl]. fold (apply_replays ds1 m).
  change (apply_replays ds2 (apply_replay d (apply_replays ds1 m)) l = replay d m l).
  rewrite apply_replays_other by (intros (d' & Hd' & Hin)%list_elem_of_bind; by apply (H2 d')).
  unfold apply_replay. rewrite bool_decide_true by done. apply replay_reads; [|done].
  intros a Ha. apply apply_replays_other. intros (d' & Hd' & Hin)%list_elem_of_bind. by apply (H1 d' a).
Qed.

Section staged_rows.
Context p r st (H : live p r st) (Htok : tensors_ok (config p)).

Lemma replays_nodup : NoDup (all_replays p st).
Proof using H Htok.
  apply NoDup_bind.
  - intros [t spec] [t' spec'] d Ht%elem_imap_pair Ht'%elem_imap_pair (row & Hd & Hrow%elem_of_seq)%list_elem_of_bind (row' & Hd' & Hrow'%elem_of_seq)%list_elem_of_bind.
    unfold row_replays in *. cbn in *. destruct (mode st spec row); try (by apply elem_of_nil in Hd). destruct (mode st spec' row'); try (by apply elem_of_nil in Hd').
    apply list_elem_of_singleton in Hd as ->. apply list_elem_of_singleton in Hd'. apply (f_equal destination_state) in Hd'. cbn in Hd'. injection Hd' as -> _ _. congruence.
  - intros [t spec] Ht%elem_imap_pair. apply NoDup_bind; [|intros row _; unfold row_replays; destruct (mode _ _ _); [constructor|constructor|apply NoDup_singleton]|apply NoDup_seq].
    intros row row' d Hrow%elem_of_seq Hrow'%elem_of_seq Hd Hd'. unfold row_replays in *. cbn in *.
    destruct (mode st spec row); try (by apply elem_of_nil in Hd). destruct (mode st spec row'); try (by apply elem_of_nil in Hd').
    apply list_elem_of_singleton in Hd as ->. apply list_elem_of_singleton in Hd'. apply (f_equal destination_state) in Hd'. cbn in Hd'. injection Hd' as _ Hs.
    eapply slot_of_inj; [exact H|lia|lia|done].
  - apply NoDup_fmap_1 with (f := fst). assert ((imap pair (tensors (config p))).*1 = seq 0 (length (tensors (config p)))) as ->; [|apply NoDup_seq].
    apply list_eq. intros i. rewrite list_lookup_fmap, list_lookup_imap. destruct (tensors (config p) !! i) as [x|] eqn:Hx.
    + rewrite lookup_seq_lt by (by eapply lookup_lt_Some). done.
    + rewrite lookup_seq_ge by (by apply lookup_ge_None). done.
Qed.

(** A replay's destinations are written by it alone, from memory nothing else wrote. *)
Lemma replayed_row m t spec row l : tensors (config p) !! t = Some spec -> row < length (handles st) -> mode st spec row = Replayed ->
  l ∈ destinations (row_replay (config p) (slots p) st (t, spec) row) ->
  apply_replays (all_replays p st) m l = replay (row_replay (config p) (slots p) st (t, spec) row) m l.
Proof using H Htok DeviceLaws0.
  intros Ht Hrow Hm Hl. set (d := row_replay _ _ _ _ _) in *. assert (d ∈ all_replays p st) as Hd by (apply elem_all_replays; by exists t, spec, row).
  pose proof replays_nodup as Hnd. apply list_elem_of_split in Hd as (ds1 & ds2 & Hds). rewrite Hds in Hnd |- *.
  assert (forall d', d' ∈ ds1 ++ ds2 -> exists t' spec' row', tensors (config p) !! t' = Some spec' /\ row' < length (handles st) /\
    mode st spec' row' = Replayed /\ d' = row_replay (config p) (slots p) st (t', spec') row' /\ (t' <> t \/ row' <> row)) as Hother.
  { intros d' Hd'. assert (d' ∈ all_replays p st) as Hin by (rewrite Hds; set_solver).
    apply elem_all_replays in Hin as (t' & spec' & row' & Ht' & Hrow' & Hm' & ->). exists t', spec', row'. split_and!; try done.
    destruct (decide (t' = t)) as [->|]; [|by left]. destruct (decide (row' = row)) as [->|]; [|by right].
    rewrite Ht in Ht'. injection Ht' as <-. apply NoDup_app in Hnd as (_ & N1 & N2). apply NoDup_cons in N2 as [N2 _].
    apply elem_of_app in Hd' as [Hd'|Hd']; [destruct (N1 _ Hd'); by left|done]. }
  apply (destination_touches p st t spec row l Htok Ht Hm) in Hl as Htl. apply mode_replayed in Hm as Hms. destruct Hms as [_ Hs].
  apply apply_replays_hit; [done|..].
  - intros d' Hd' Hl'. destruct (Hother d') as (t' & spec' & row' & Ht' & Hrow' & Hm' & -> & Hne); [set_solver|].
    apply (destination_touches p st t' spec' row' l Htok Ht' Hm') in Hl'. apply mode_replayed in Hm' as [_ Hs'].
    destruct (touches_inj p r st t t' spec spec' row row' l) as [-> ->]; try done. by destruct Hne.
  - intros d' a Hd' Ha Hl'. destruct (Hother d') as (t' & spec' & row' & Ht' & Hrow' & Hm' & -> & Hne); [set_solver|].
    pose proof (proj1 (replay_destinations p st t' spec' row' a Htok Ht' Hm') Hl') as Hshape.
    apply (destination_touches p st t' spec' row' a Htok Ht' Hm') in Hl'. apply mode_replayed in Hm' as [_ Hs'].
    destruct (source_touches p r st t spec row a H Htok Ht Hrow Ha) as [Hnb|[_ Hta]].
    + destruct Hshape as [->|(_ & k & sib & _ & _ & _ & _ & ->)]; by eapply Hnb.
    + destruct (touches_inj p r st t t' spec spec' row row' a) as [-> ->]; try done. by destruct Hne.
Qed.

(** Copies only write banks, and only when the bindings are staged. *)
Lemma copies_other (m : loc -> V) l : not_bank l \/ uses_direct_bindings st = true -> run_copies (all_copies p st) m l = m l.
Proof.
  intros Hl. apply run_copies_other. intros ([d s0] & -> & (Hd & t & spec & row & _ & _ & _ & -> & _)%elem_all_copies)%list_elem_of_fmap.
  destruct Hl as [Hl|Hl]; [by eapply Hl|congruence].
Qed.

Lemma copied_row (m : loc -> V) t spec row : uses_direct_bindings st = false -> tensors (config p) !! t = Some spec -> row < length (handles st) ->
  mode st spec row = Whole -> run_copies (all_copies p st) m (target_at (slots p) st spec t row) = m (output_at st spec t row).
Proof using H.
  intros Hd Ht Hrow Hm. apply run_copies_hit; [| |apply elem_all_copies; split; [done|]; by exists t, spec, row].
  - intros [d s0] (_ & t' & spec' & row' & _ & _ & _ & -> & ->)%elem_all_copies ([d' s'] & Heq & (_ & t2 & spec2 & row2 & _ & _ & _ & -> & _)%elem_all_copies)%list_elem_of_fmap.
    apply (f_equal loc_buffer) in Heq. unfold output_at, target_at, bank_loc in Heq. rewrite Hd in Heq. cbn in Heq.
    unfold output_staging in Heq. by destruct (share_past_present_buffer spec').
  - intros d s1 s2 (_ & t1 & spec1 & row1 & Ht1 & Hr1 & _ & -> & ->)%elem_all_copies (_ & t2 & spec2 & row2 & Ht2 & Hr2 & _ & Heq & ->)%elem_all_copies.
    injection Heq as -> _ Hs. rewrite Ht1 in Ht2. injection Ht2 as <-. by rewrite (slot_of_inj p r st row1 row2 H Hr1 Hr2 Hs).
Qed.

(** With direct bindings the model writes the target itself. *)
Lemma direct_target t spec row : uses_direct_bindings st = true -> tensors (config p) !! t = Some spec -> row < length (handles st) ->
  target_at (slots p) st spec t row = output_at st spec t row.
Proof using H.
  intros Hd Ht Hrow. unfold target_at, output_at. rewrite Hd. apply lookup_lt_is_Some in Hrow as [h Hh].
  destruct (lv_row _ _ _ H row h Hh) as (s & new & Hs & _). destruct (lv_direct _ _ _ H Hd row h Hh) as [Hsl Hb].
  unfold next_bank, slot_of. rewrite Hh. cbn. rewrite Hs. cbn. rewrite <- Hsl.
  destruct Hb as [Hall|Hb]; [|by rewrite (Hb s Hs)]. unfold bank_loc, bank.
  rewrite (proj1 (Forall_forall _ _) Hall spec) by (by eapply list_elem_of_lookup_2). by rewrite !andb_false_r.
Qed.

(** A row that is published whole is not a destination of any replay. *)
Lemma whole_not_replayed t spec row : tensors (config p) !! t = Some spec -> row < length (handles st) -> mode st spec row = Whole ->
  target_at (slots p) st spec t row ∉ all_replays p st ≫= destinations.
Proof using H Htok.
  intros Ht Hrow Hm (d & Hl & (t' & spec' & row' & Ht' & Hrow' & Hm' & ->)%elem_all_replays)%list_elem_of_bind.
  apply (destination_touches p st t' spec' row' _ Htok Ht' Hm') in Hl as [Hs Htt].
  assert (row = row') as <- by (by apply (slot_of_inj p r st row row' H)).
  apply mode_replayed in Hm' as Hx. destruct Hx as [Hp Hs']. assert (without_value spec = true /\ is_sibling spec = false) as [Hw Hsib].
  { unfold mode in Hm. rewrite Hp in Hm. cbn in Hm. destruct (is_sibling spec); [done|]. by destruct (without_value spec). }
  destruct Htt as [Heq|(k & sib & _ & Hsb & Hss & _ & Heq)]; cbn in Heq; subst.
  - rewrite Ht in Ht'. injection Ht' as <-. congruence.
  - rewrite Ht in Hsb. injection Hsb as <-. congruence.
Qed.

Lemma staged_published (m : loc -> V) t spec row : tensors (config p) !! t = Some spec -> row < length (handles st) ->
  published (config p) (slots p) st m t spec row =
  Some (apply_replays (all_replays p st) (run_copies (all_copies p st) m) (target_at (slots p) st spec t row)).
Proof using H Htok DeviceLaws0.
  intros Ht Hrow. unfold published.
  assert (forall t' spec', tensors (config p) !! t' = Some spec' -> mode st spec' row = Replayed ->
    forall l, l ∈ destinations (row_replay (config p) (slots p) st (t', spec') row) ->
    apply_replays (all_replays p st) (run_copies (all_copies p st) m) l = replay (row_replay (config p) (slots p) st (t', spec') row) m l) as Hrep.
  { intros t' spec' Ht' Hm' l Hl. rewrite (replayed_row _ t' spec' row l Ht' Hrow Hm' Hl). apply replay_reads; [|done]. intros a Ha.
    apply copies_other. destruct (source_touches p r st t' spec' row a H Htok Ht' Hrow Ha) as [|[Hd _]]; [by left|by right]. }
  destruct (mode st spec row) eqn:Hm.
  - f_equal. rewrite apply_replays_other by (by apply whole_not_replayed). destruct (uses_direct_bindings st) eqn:Hd.
    + rewrite copies_other by (by right). by rewrite direct_target.
    + by rewrite copied_row.
  - apply mode_sibling in Hm as Hx. destruct Hx as [Hp Hsib]. assert (captures_state_updates st = true) as Hcap.
    { unfold partial in Hp. destruct (commit_kept_tokens st !! row) as [kept|] eqn:Hk; [|done]. destruct (commit_step_tokens st !! row); [|done].
      apply (lv_partial _ _ _ H row kept Hk). intros ->. done. }
    destruct (tk_sibling _ Htok t spec Ht Hsib (lv_captures _ _ _ H Hcap)) as (Hle & Hk & key & Hkey & Hki). rewrite Hkey. cbn. f_equal.
    destruct (tk_indexer _ Htok _ key Hkey Hki) as (Ks & Kw & _).
    assert (mode st key row = Replayed) as Hkm by (by eapply (mode_key st spec key)). symmetry. apply Hrep; [done|done|].
    apply (replay_destinations p st _ key row _ Htok Hkey Hkm). right. split; [done|]. exists (component_index spec), spec.
    replace (t - component_index spec + component_index spec) with t by lia. done.
  - f_equal. symmetry. apply Hrep; [done|done|]. apply (replay_destinations p st t spec row _ Htok Ht Hm). by left.
Qed.
End staged_rows.
End commit.
