(* ===== verification/FixedStateConstruct.v ===== *)
(** * Constructing a fixed-state pool

    The constructor of [FixedStatePool]: it validates the manifest against the session,
    collects the tensors, checks that they agree, and writes the initial rows.  For a session
    the manifest accepts it never reads outside a shape, and the pool it returns satisfies
    the invariants the transactions start from. *)

From S2P Require Import Prelude RequestIndex EngineInvariants StateManifest StateManifestProofs FixedStateSpec FixedStatePool FixedStateDevice FixedStateReserve FixedStateCommit.
From stdpp Require Import strings.

Open Scope nat_scope.

Section construct.
Context {V : Type} `{!DeviceInterface V}.

Abbreviation DM := (M (Device V) FixedStateError).

(** ** The constructor *)

(** Any rejection of the manifest becomes an exception of the constructor. *)
Definition from_manifest {A} (r : checked A) : DM A :=
  match r with Ok a => mret a | Throw _ => throw ManifestRejected | Terminate => terminate | Undefined => undefined end.
Definition from_index {A} (r : outcome IndexError A) : DM A :=
  match r with Ok a => mret a | Throw e => throw (IndexFailure e) | Terminate => terminate | Undefined => undefined end.

Definition contract_of (u : UpdateSpec) : Contract :=
  mkContract (state_update_enabled u) (state_update_capacity u) (state_update_capture_count_name u) (state_update_active_name u).

(** The capture counts of a batch, and the flag that switches captures on. *)
Definition contract_bytes (c : Contract) (capacity bytes : N) : result N :=
  if negb (contract_capacity c =? 0)%N then
    counts ← CheckedMultiply capacity 4;
    bytes' ← CheckedAdd bytes counts;
    if negb (bool_decide (contract_active_name c = no_name)) then CheckedAdd bytes' 4 else Ok bytes'
  else Ok bytes.

(** Allocating the buffers of one tensor. *)
Definition allocate : DM unit := enqueue id [].

Definition write_row (l : loc) (v : V) : DM unit := enqueue (fun m l' => if bool_decide (l' = l) then v else m l') [l].

Definition init_row (ts : nat * TensorSpec) : DM unit :=
  match initial_int64_value ts.2 with
  | Some z => _ ← throw_if (negb (data_type ts.2 =? type_int64)%N) PadNotInt64; write_row (mkLoc ts.1 ZeroRow 0) (filled_value z)
  | None => write_row (mkLoc ts.1 ZeroRow 0) zero_value
  end.

(** [catch (...) { try { Synchronize } catch (...) {} throw; }] *)
Definition drained {A} (m : DM A) : DM A := fun d =>
  match m d with
  | (Throw e, d') => (Throw e, (sync d').2)
  | r => r
  end.

Definition checkpoint_rows (n : N) : list PrefixCheckpointSlot := replicate (N.to_nat n) (mkCheckpointSlot 0 0 false).

Definition fresh_pool (c : PoolConfig) (x : RequestIndex) (checkpoints : N) (d : Device V) : FixedStatePool V :=
  mkPool c d 0 [] 0 1 0 true None (replicate (capacity c) empty_slot) x (checkpoint_rows checkpoints) [] [].

(** The checks after the tensors have been collected. *)
Definition checked_config (owner capacity : N) (f : Footprint) : result PoolConfig :=
  match specs f with
  | [] => Throw NoBindings
  | front :: _ =>
    let c := contract_of (update front) in
    _ ← reject_if (negb (forallb (fun spec => same_contract (update spec) (update front)) (specs f))) InconsistentUpdates;
    _ ← reject_if (negb SupportsTransactionalFixedState) NotTransactional;
    _ ← reject_if (contract_enabled c && negb (contract_capacity c =? 0)%N && negb SupportsCompactStateReplay) NoCompactReplay;
    bytes ← contract_bytes c capacity (persistent f);
    _ ← reject_if (negb (session_batch f =? 0)%N) StaticBatch;
    Ok (mkPoolConfig owner (N.to_nat capacity) (specs f) c bytes (zeroing_scratch f))
  end.

Definition int64_limit : N := 9223372036854775807.

Definition make_FixedStatePool (has_model has_device : bool) (decoder : Decoder) (s : SessionInfo) (owner capacity checkpoints : N) :
    DM (FixedStatePool V) :=
  x ← from_index (make_RequestIndex capacity);
  _ ← throw_if (negb has_model) NoModel;
  _ ← throw_if (capacity =? 0)%N ZeroCapacity;
  _ ← throw_if (int64_limit <? capacity)%N CapacityTooLarge;
  _ ← throw_if (negb has_device) NoDevice;
  m ← from_manifest (make_ModelStateManifest decoder);
  _ ← from_manifest (ValidateSession m s);
  f ← lift (collect_tensors decoder s device_is_cuda capacity checkpoints (StateGroups m));
  c ← lift (checked_config owner capacity f);
  _ ← for_each (fun _ => allocate) (tensors c);
  _ ← (if negb (contract_capacity (contract c) =? 0)%N then allocate else mret tt);
  _ ← drained (_ ← for_each init_row (imap pair (tensors c)); sync);
  d ← gets id;
  mret (fresh_pool c x checkpoints d).
End construct.

(** ** The collected tensors *)

Section collected.
Context (d : Decoder) (s : SessionInfo) (is_cuda : bool).

(** A tensor made from a template of a group for a layer. *)
Record component (g : StateGroup) (l : Z) (c : nat * FixedStateTemplate) (spec : TensorSpec) : Prop := mk_component
  { cp_kind : tensor_kind spec = group_kind g;
    cp_index : component_index spec = c.1;
    cp_update : match group_state_update g with
      | None => update spec = no_update
      | Some u => state_update_kind (update spec) = update_kind_of (group_kind g) c.1 /\ state_update_capacity (update spec) = u64_of_Z (update_capacity u)
      end;
    cp_shape : output_rank s (template_output c.2) l (length (session_shape spec)) }.

Lemma geometry_ranks it ishape ot oshape geo : ValidateFixedStateGeometry it ishape ot oshape = Ok geo -> length ishape = length oshape.
Proof.
  unfold ValidateFixedStateGeometry. rewrite !reject_bind. intros (_ & _ & H & _). by apply negb_false_iff, Nat.eqb_eq in H.
Qed.

Lemma update_spec_kind g l c el size shape u us : update_spec d s (group_kind g) l c el size shape u = Ok us ->
  state_update_kind us = update_kind_of (group_kind g) c /\ state_update_capacity us = u64_of_Z (update_capacity u).
Proof.
  unfold update_spec. intros H. apply result_bind_ok in H as (v & _ & H). apply result_bind_ok in H as (cap & _ & H). apply result_bind_ok in H as (b & _ & H).
  apply result_bind_ok in H as ([[[ch w] ca] ra] & _ & H). apply result_bind_ok in H as ([] & _ & H). apply result_bind_ok in H as ([kw kh] & _ & H). injection H as <-. done.
Qed.

Lemma tensor_spec_component g l i t batch spec batch' : tensor_spec d s is_cuda g l i t batch = Ok (spec, batch') -> component g l (i, t) spec.
Proof.
  unfold tensor_spec. intros H. apply result_bind_ok in H as (input & _ & H). apply result_bind_ok in H as (output & Ho & H). apply result_bind_ok in H as (type & _ & H).
  apply result_bind_ok in H as (shape & _ & H). apply result_bind_ok in H as (otype & _ & H). apply result_bind_ok in H as (oshape & Hos & H).
  apply result_bind_ok in H as (geo & Hgeo%geometry_ranks & H). apply reject_bind in H as [_ H]. apply result_bind_ok in H as (size & _ & H). apply result_bind_ok in H as (bytes & _ & H).
  apply result_bind_ok in H as (u & Hu & H). injection H as <- _. split; cbn; try done.
  - destruct (group_state_update g) as [su|]; [by apply update_spec_kind in Hu|]. by injection Hu as <-.
  - unfold FixedStateSpec.ExpandBinding in Ho. destruct (expand_placeholder (template_output t) l) as [name|] eqn:Hn; [|done]. injection Ho as ->.
    destruct (GetOutputShape s output) as [sh|] eqn:Hsh; [|done]. injection Hos as ->. by exists output, oshape.
Qed.

Lemma add_tensor_component capacity checkpoints g l c f f' : add_tensor d s is_cuda capacity checkpoints g l c f = Ok f' ->
  exists spec, specs f' = specs f ++ [spec] /\ component g l c spec.
Proof.
  unfold add_tensor. intros H. apply result_bind_ok in H as ([spec batch] & Hs%tensor_spec_component & H). destruct c as [i t].
  repeat (apply result_bind_ok in H as (? & _ & H)). injection H as <-. by exists spec.
Qed.

(** The tensors of one layer: one for each template, in order. *)
Definition layer_block (g : StateGroup) (b : list TensorSpec) : Prop :=
  exists l templates, l ∈ group_layer_ids g /\ FixedStateTemplates d (group_kind g) = Ok templates /\ Forall2 (component g l) (imap pair templates) b.

Lemma fold_blocks {A} (f : A -> Footprint -> result Footprint) (P : list TensorSpec -> Prop) (l : list A) :
  (forall x fp fp', x ∈ l -> f x fp = Ok fp' -> exists bs, specs fp' = specs fp ++ concat bs /\ Forall P bs) ->
  forall fp fp', fold_result f l fp = Ok fp' -> exists bs, specs fp' = specs fp ++ concat bs /\ Forall P bs.
Proof.
  induction l as [|x l IH]; intros Hf fp fp'; cbn; [intros [= <-]; exists []; rewrite app_nil_r; split; [done|by apply Forall_nil_2]|].
  intros (fp1 & (bs1 & H1 & F1)%Hf & H)%result_bind_ok; [|by left]. destruct (IH ltac:(intros; eapply Hf; [by right|done]) _ _ H) as (bs2 & H2 & F2).
  exists (bs1 ++ bs2). rewrite H2, H1, concat_app, app_assoc. split; [done|]. by apply Forall_app.
Qed.

Lemma collect_blocks capacity checkpoints groups f : collect_tensors d s is_cuda capacity checkpoints groups = Ok f ->
  exists bs, specs f = concat bs /\ Forall (fun b => exists g, g ∈ groups /\ is_fixed (group_kind g) = true /\ layer_block g b) bs.
Proof.
  unfold collect_tensors. intros H. eapply (fold_blocks _ (fun b => exists g, g ∈ groups /\ is_fixed (group_kind g) = true /\ layer_block g b)) in H; [done|].
  clear. intros g fp fp' Hg. destruct (is_fixed (group_kind g)) eqn:Hfix; [|intros [= <-]; exists []; rewrite app_nil_r; split; [done|by apply Forall_nil_2]].
  intros (templates & Ht & H)%result_bind_ok. eapply fold_blocks; [|exact H]. clear H. intros l fp1 fp1' Hl H.
  assert (forall cs fp fp', fold_result (add_tensor d s is_cuda capacity checkpoints g l) cs fp = Ok fp' ->
    exists b, specs fp' = specs fp ++ b /\ Forall2 (component g l) cs b) as Hlayer.
  { clear. induction cs as [|c cs IH]; intros fp fp'; cbn; [intros [= <-]; exists []; rewrite app_nil_r; split; [done|constructor]|].
    intros (fp1 & (spec & H1 & C1)%add_tensor_component & (b & H2 & C2)%IH)%result_bind_ok. exists (spec :: b). rewrite H2, H1, <- app_assoc. split; [done|by constructor]. }
  apply Hlayer in H as (b & Hb & Hc). exists [b]. cbn. rewrite app_nil_r. split; [done|]. apply Forall_singleton. exists g. split_and!; try done. by exists l, templates.
Qed.
End collected.

(** ** The shape the transactions rely on *)

Lemma lookup_concat {A} (bs : list (list A)) : forall t x, concat bs !! t = Some x ->
  exists b n i, b ∈ bs /\ t = n + i /\ b !! i = Some x /\ forall j, j < length b -> concat bs !! (n + j) = b !! j.
Proof.
  induction bs as [|b bs IH]; intros t x; cbn; [done|]. intros [Hl|[Hle Hl]]%lookup_app_Some.
  - exists b, 0, t. split_and!; [by left|done|done|]. intros j Hj. by rewrite lookup_app_l.
  - destruct (IH _ _ Hl) as (b' & n & i & Hin & Heq & Hb & Hall). exists b', (length b + n), i. split_and!; [by right|lia|done|].
    intros j Hj. rewrite <- Nat.add_assoc, lookup_app_r by lia. replace (length b + (n + j) - length b) with (n + j) by lia. by apply Hall.
Qed.

Lemma output_rank_unique s template l n n' : output_rank s template l n -> output_rank s template l n' -> n = n'.
Proof. intros (name & sh & H1 & H2 & <-) (name' & sh' & H1' & H2' & <-). congruence. Qed.

Lemma update_kind_indexer kind i : is_fixed kind = true -> update_kind_of kind i = Indexer -> kind = FixedIndexer /\ i = 0.
Proof. destruct kind; try done; cbn; destruct (Nat.eqb_spec i 0); done. Qed.

Section shape.
Context (d : Decoder) (s : SessionInfo) (m : ModelStateManifest) (c : PoolConfig) (bs : list (list TensorSpec)).
Context (Hm : manifest_decoder m = d) (Hs : ValidateSession m s = Ok tt) (Ht : tensors c = concat bs)
  (Hb : Forall (fun b => exists g, g ∈ manifest_groups m /\ is_fixed (group_kind g) = true /\ layer_block d s g b) bs)
  (Hc : forall spec, spec ∈ tensors c -> state_update_capacity (update spec) = contract_capacity (contract c)).

(** A tensor in its block. *)
Lemma tensor_block t spec : tensors c !! t = Some spec -> exists g l templates n i b, g ∈ manifest_groups m /\ is_fixed (group_kind g) = true /\
  l ∈ group_layer_ids g /\ FixedStateTemplates d (group_kind g) = Ok templates /\ t = n + i /\ length b = length templates /\ b !! i = Some spec /\
  (forall j tmpl, templates !! j = Some tmpl -> exists spec', b !! j = Some spec' /\ tensors c !! (n + j) = Some spec' /\ component s g l (j, tmpl) spec') /\
  exists tmpl, templates !! i = Some tmpl /\ component s g l (i, tmpl) spec.
Proof using Ht Hb.
  rewrite Ht. intros (b & n & i & Hin & -> & Hi & Hall)%lookup_concat. rewrite Forall_forall in Hb. destruct (Hb b Hin) as (g & Hg & Hf & l & templates & Hl & Htm & HF).
  exists g, l, templates, n, i, b. pose proof (Forall2_length _ _ _ HF) as Hlen. rewrite length_imap in Hlen. split_and!; try done.
  - intros j tmpl Hj. assert (imap pair templates !! j = Some (j, tmpl)) as Hp by (by rewrite list_lookup_imap, Hj).
    destruct (Forall2_lookup_l _ _ _ _ _ HF Hp) as (spec' & Hs' & Hcomp). exists spec'. split_and!; try done. rewrite Hall by (by eapply lookup_lt_Some). done.
  - destruct (Forall2_lookup_r _ _ _ _ _ HF Hi) as ([i' tmpl] & Hp & Hcomp). rewrite list_lookup_imap in Hp. destruct (templates !! i) as [t'|]; [|done]. injection Hp as <- <-. eauto.
Qed.

Lemma constructed_tensors_ok : tensors_ok c.
Proof using Hm Hs Ht Hb Hc.
  split.
  - intros t spec Hsp Hk. destruct (tensor_block t spec Hsp) as (g & l & templates & n & i & b & Hg & Hf & Hl & Htm & -> & Hlen & Hi & Hall & tmpl & Hti & [Ck Ci Cu _]).
    destruct (group_state_update g) as [u|] eqn:Hu; [|by rewrite Cu in Hk]. destruct Cu as [Cu _]. rewrite Hk in Cu. symmetry in Cu. apply update_kind_indexer in Cu as [Hkind Hi0]; [|done].
    cbn in Hi0. subst i. rewrite Hkind in Htm. injection Htm as <-.
    destruct (Hall 1 _ eq_refl) as (buffer & _ & Hb1 & [Bk Bi _ Bs]), (Hall 2 _ eq_refl) as (lengths & _ & Hb2 & [Lk Li _ _]).
    pose proof (session_ranks m s g u l Hs Hg Hu Hl) as Hr. rewrite Hkind, Hm in Hr. destruct Hr as (_ & Hr & _). cbn in Bs.
    pose proof (output_rank_unique _ _ _ _ _ Bs Hr) as Hrank. unfold is_sibling, without_value. rewrite Ck, Hkind, Ci. split; [done|]. split; [done|].
    exists buffer, lengths. rewrite Nat.add_0_r. split_and!; try done; [apply lookup_lt_is_Some; lia|by rewrite Bk, Hkind, Bi|by rewrite Lk, Hkind, Li].
  - intros t spec Hsp Hsib Hcap. destruct (tensor_block t spec Hsp) as (g & l & templates & n & i & b & Hg & Hf & Hl & Htm & -> & Hlen & Hi & Hall & tmpl & Hti & [Ck Ci Cu _]).
    unfold is_sibling in Hsib. apply andb_prop in Hsib as [Hkind%bool_decide_eq_true Hne%negb_true_iff%Nat.eqb_neq]. rewrite Ck in Hkind. rewrite Hkind in Htm. injection Htm as <-.
    rewrite Ci in Hne |- *. cbn in Hne |- *. apply lookup_lt_Some in Hti. cbn in Hti. split; [lia|]. split; [lia|].
    destruct (Hall 0 _ eq_refl) as (key & _ & Hkey & [Kk Ki Ku _]). exists key. rewrite Nat.add_0_r in Hkey. replace (n + i - i) with n by lia. split; [done|].
    destruct (group_state_update g) as [u|]; [by destruct Ku as [-> _]; rewrite Hkind|]. exfalso. apply Hcap.
    rewrite <- (Hc key) by (by eapply list_elem_of_lookup_2). by rewrite Ku.
Qed.
End shape.

(** ** Construction is defined *)

Lemma row_elements_total : forall i o axis n, length i = length o -> is_total (row_elements axis i o n).
Proof.
  induction i as [|x i IH]; intros [|y o] axis n Hl; try done. cbn [row_elements]. do 2 (apply total_bind; [auto with totals|intros _ _]).
  apply total_bind; [auto with totals|]. intros n' _. apply IH. by injection Hl.
Qed.

Lemma geometry_total it ishape ot oshape : is_total (ValidateFixedStateGeometry it ishape ot oshape).
Proof.
  unfold ValidateFixedStateGeometry. apply total_bind; [auto with totals|]. intros _ _. apply total_bind; [auto with totals|]. intros [] H1%reject_iff%Nat.eqb_neq.
  apply total_bind; [auto with totals|]. intros [] H2%reject_iff%negb_false_iff%Nat.eqb_eq. destruct ishape as [|i ishape], oshape as [|o oshape]; try done.
  do 2 (apply total_bind; [auto with totals|intros _ _]). apply total_bind; [|done]. apply row_elements_total. by injection H2.
Qed.

Lemma SizeOf_total t : is_total (SizeOf t).
Proof. unfold SizeOf. repeat (destruct t as [|t]; try done; repeat (destruct t as [t|t|]; try done)). Qed.

Lemma update_row_elements_total l : forall n, is_total (update_row_elements l n).
Proof. induction l as [|x l IH]; intros n; [done|]. cbn. totals. Qed.
#[export] Hint Resolve geometry_total SizeOf_total update_row_elements_total : totals.

Lemma load_update_output_total s l t : is_total (load_update_output s l t).
Proof. unfold load_update_output, FixedStateSpec.ExpandBinding. totals. Qed.
#[export] Hint Resolve load_update_output_total : totals.

(** The axes a compact update reads. *)
Definition axes_read (k : StateUpdateKind) : nat := match k with CausalConv => 3 | GatedDeltaNet => 4 | Indexer => 3 | _ => 0 end.

Lemma extent_total shape i : i < length shape -> is_total (extent shape i).
Proof. intros [z Hz]%lookup_lt_is_Some. unfold extent. by rewrite Hz. Qed.

Lemma update_spec_total d s kind l i el size shape u : axes_read (update_kind_of kind i) <= length shape -> is_total (update_spec d s kind l i el size shape u).
Proof.
  intros Hax. unfold update_spec, ValidateFixedStateUpdateElementSize. do 3 (apply total_bind; [auto with totals|intros ? _]).
  apply total_bind; [destruct (update_kind_of kind i); cbn in *; repeat (apply total_bind; [apply extent_total; lia|intros ? _]); done|]. intros [[[ch w] ca] ra] _.
  apply total_bind; [totals|]. intros _ _. apply total_bind; [|by intros [kw kh] _]. case_bool_decide as Hk; [|done]. rewrite Hk in Hax. cbn in Hax.
  apply total_bind; [apply extent_total; lia|done].
Qed.

Lemma component_rank d s kind l templates i tmpl n : FixedStateTemplates d kind = Ok templates -> templates !! i = Some tmpl -> update_ranks d s kind l ->
  output_rank s (template_output tmpl) l n -> axes_read (update_kind_of kind i) <= n.
Proof.
  intros Ht Hi Hr Hn. destruct kind; try done; injection Ht as <-.
  - destruct i; [|done]. injection Hi as <-. by rewrite (output_rank_unique _ _ _ _ _ Hn Hr).
  - destruct i; [|done]. injection Hi as <-. by rewrite (output_rank_unique _ _ _ _ _ Hn Hr).
  - destruct Hr as [_ Hr]. destruct i as [|[|]]; [cbn; lia| |done]. injection Hi as <-. by rewrite (output_rank_unique _ _ _ _ _ Hn Hr).
  - destruct Hr as [Hr _]. destruct i as [|i]; [injection Hi as <-; by rewrite (output_rank_unique _ _ _ _ _ Hn Hr)|]. cbn. lia.
Qed.

Section collect_total.
Context (d : Decoder) (s : SessionInfo) (is_cuda : bool).

Lemma tensor_spec_total g l templates i tmpl batch : FixedStateTemplates d (group_kind g) = Ok templates -> templates !! i = Some tmpl ->
  (forall u, group_state_update g = Some u -> update_ranks d s (group_kind g) l) -> is_total (tensor_spec d s is_cuda g l i tmpl batch).
Proof.
  intros Ht Hi Hr. unfold tensor_spec. apply total_bind; [apply or_throw_total|]. intros input _. apply total_bind; [apply or_throw_total|]. intros output Ho.
  apply total_bind; [apply or_throw_total|]. intros type _. apply total_bind; [apply or_throw_total|]. intros shape _. apply total_bind; [apply or_throw_total|]. intros otype _.
  apply total_bind; [apply or_throw_total|]. intros oshape Hos. apply total_bind; [auto with totals|]. intros geo Hgeo%geometry_ranks. apply total_bind; [auto with totals|]. intros _ _.
  apply total_bind; [auto with totals|]. intros size _. apply total_bind; [auto with totals|]. intros bytes _. apply total_bind; [|done].
  destruct (group_state_update g) as [u|] eqn:Hu; [|done]. apply update_spec_total. rewrite Hgeo. apply (component_rank d s (group_kind g) l templates i tmpl); try done; [by apply (Hr u)|].
  unfold FixedStateSpec.ExpandBinding in Ho. destruct (expand_placeholder (template_output tmpl) l) as [name|] eqn:Hn; [|done]. injection Ho as ->.
  destruct (GetOutputShape s output) as [sh|] eqn:Hsh; [|done]. injection Hos as ->. by exists output, oshape.
Qed.

Lemma fold_total_in {A B} (f : A -> B -> result B) l : (forall x b, x ∈ l -> is_total (f x b)) -> forall b, is_total (fold_result f l b).
Proof.
  induction l as [|x l IH]; intros Hf b; [done|]. cbn. apply total_bind; [apply Hf; by left|]. intros b' _. apply IH. intros; apply Hf. by right.
Qed.

Lemma collect_total m capacity checkpoints : manifest_decoder m = d -> ValidateSession m s = Ok tt ->
  is_total (collect_tensors d s is_cuda capacity checkpoints (manifest_groups m)).
Proof.
  intros Hm Hs. unfold collect_tensors. apply fold_total_in. intros g f Hg. destruct (is_fixed (group_kind g)) eqn:Hf; [|done].
  destruct (FixedStateTemplates d (group_kind g)) as [templates| | |] eqn:Ht; [|by destruct (group_kind g)..]. cbn [mbind outcome_bind].
  apply fold_total_in. intros l f1 Hl. apply fold_total_in. intros [i tmpl] f2 [k Hk]%list_elem_of_lookup. rewrite list_lookup_imap in Hk.
  destruct (templates !! k) as [tm|] eqn:Htk; [|done]. injection Hk as <- <-. unfold add_tensor. apply total_bind.
  - apply (tensor_spec_total g l templates); try done. intros u Hu. rewrite <- Hm. by eapply session_ranks.
  - intros [spec batch] _. totals.
Qed.
End collect_total.

(** ** The pool that is returned *)

Section constructed.
Context {V : Type} `{!DeviceInterface V}.
Implicit Types (dev : Device V).

(** The row a new request starts from. *)
Definition initial_value (spec : TensorSpec) : V := match initial_int64_value spec with Some z => filled_value z | None => zero_value end.
Definition zero_loc (ts : nat * TensorSpec) : loc := mkLoc ts.1 ZeroRow 0.

Lemma enqueue_run (f : (loc -> V) -> loc -> V) dests dev : match enqueue f dests dev with
  | (Ok _, dev') => memory dev' = f (memory dev)
  | (Throw _, _) => True
  | _ => False end.
Proof. unfold enqueue. by destruct (faults dev) as [|[|] ]. Qed.

Lemma init_row_run ts dev : match init_row ts dev with
  | (Ok _, dev') => forall l, memory dev' l = if bool_decide (l = zero_loc ts) then initial_value ts.2 else memory dev l
  | (Throw _, _) => True
  | _ => False end.
Proof.
  unfold init_row, initial_value, write_row. destruct (initial_int64_value ts.2) as [z|].
  - destruct (negb _); [done|]. rewrite (throw_if_false _ _ _ _ eq_refl).
    pose proof (enqueue_run (fun m l' => if bool_decide (l' = mkLoc ts.1 ZeroRow 0) then filled_value z else m l') [mkLoc ts.1 ZeroRow 0] dev) as H.
    destruct (enqueue _ _ dev) as [[u|e| |] dev']; try done. by rewrite H.
  - pose proof (enqueue_run (fun m l' => if bool_decide (l' = mkLoc ts.1 ZeroRow 0) then zero_value else m l') [mkLoc ts.1 ZeroRow 0] dev) as H.
    destruct (enqueue _ _ dev) as [[u|e| |] dev']; try done. by rewrite H.
Qed.

Lemma init_rows_run l : NoDup l.*1 -> forall dev, match for_each init_row l dev with
  | (Ok _, dev') => (forall ts, ts ∈ l -> memory dev' (zero_loc ts) = initial_value ts.2) /\
      (forall lc, lc ∉ zero_loc <$> l -> memory dev' lc = memory dev lc)
  | (Throw _, _) => True
  | _ => False end.
Proof.
  induction l as [|ts l IH]; intros Hnd dev; [split; [|done]; intros ts Hin; by apply elem_of_nil in Hin|]. rewrite fmap_cons in Hnd. apply NoDup_cons in Hnd as [Hno Hnd].
  cbn [for_each]. unfold mbind, M_bind. pose proof (init_row_run ts dev) as H1. destruct (init_row ts dev) as [[u|e| |] dev1]; try done.
  specialize (IH Hnd dev1). destruct (for_each init_row l dev1) as [[u'|e| |] dev2]; try done. destruct IH as [Hin Hout]. split.
  - intros ts' [->|Hts]%elem_of_cons; [|by apply Hin]. rewrite Hout; [by rewrite H1, bool_decide_true|].
    intros (ts' & Heq & Hts')%list_elem_of_fmap. apply Hno. apply list_elem_of_fmap. exists ts'. split; [by injection Heq|done].
  - intros lc Hlc. rewrite fmap_cons, not_elem_of_cons in Hlc. destruct Hlc as [Hne Hlc]. rewrite Hout, H1, bool_decide_false by done. done.
Qed.

Lemma fresh_pool_ok c x cap checkpoints dev : make_RequestIndex cap = Ok x -> capacity c = N.to_nat cap -> pool_ok (fresh_pool c x checkpoints dev).
Proof.
  intros Hx Hc. destruct (N.lt_ge_cases cap (2 ^ 62)) as [Hlt|Hge]; [|by destruct (make_refuses cap Hge) as [e He]; rewrite He in Hx].
  destruct (make_spec cap Hlt) as (x' & Hx' & Hwf & Hemp & Hmax). rewrite Hx in Hx'. injection Hx' as <-.
  assert (forall i s, replicate (capacity c) empty_slot !! i = Some s -> s = empty_slot) as Hrep by (intros i s [-> _]%lookup_replicate; done).
  split; cbn; try done.
  - apply length_replicate.
  - by rewrite Hmax.
  - intros id i. rewrite Hemp, lookup_empty. split; [done|]. intros (s & Hs%Hrep & Ho & _). by subst.
  - intros i s ->%Hrep. done.
  - intros i j s s' ->%Hrep _ H. by destruct H.
  - intros k v Hin. by apply elem_of_nil in Hin.
  - unfold checkpoint_rows. intros i cp [-> _]%lookup_replicate. done.
Qed.

Lemma imap_pair_fst {A} (l : list A) : NoDup (imap pair l).*1.
Proof.
  assert ((imap pair l).*1 = seq 0 (length l)) as ->; [|apply NoDup_seq]. apply list_eq. intros i. rewrite list_lookup_fmap, list_lookup_imap.
  destruct (l !! i) as [x|] eqn:Hx; [by rewrite lookup_seq_lt by (by eapply lookup_lt_Some)|by rewrite lookup_seq_ge by (by apply lookup_ge_None)].
Qed.

Lemma checked_config_spec owner cap f c : checked_config owner cap f = Ok c ->
  tensors c = specs f /\ capacity c = N.to_nat cap /\ forall spec, spec ∈ tensors c -> state_update_capacity (update spec) = contract_capacity (contract c).
Proof.
  unfold checked_config. destruct (specs f) as [|front rest] eqn:Hsp; [done|]. intros H. apply reject_bind in H as [Hsame%negb_false_iff H]. apply reject_bind in H as [_ H]. apply reject_bind in H as [_ H].
  apply result_bind_ok in H as (bytes & _ & H). apply reject_bind in H as [_ H]. injection H as <-. cbn [tensors capacity contract contract_capacity contract_of]. split_and!; try done.
  intros spec Hin. rewrite forallb_forall in Hsame. specialize (Hsame spec ltac:(by apply list_elem_of_In)). unfold same_contract in Hsame.
  apply andb_prop in Hsame as [Hsame _]. apply andb_prop in Hsame as [Hsame _]. apply andb_prop in Hsame as [_ Hsame]. by apply N.eqb_eq in Hsame.
Qed.

Lemma checked_config_total owner cap f : is_total (checked_config owner cap f).
Proof. unfold checked_config, contract_bytes. totals. Qed.

Lemma index_total cap : is_total (make_RequestIndex cap).
Proof.
  destruct (N.lt_ge_cases cap (2 ^ 62)) as [Hlt|Hge]; [destruct (make_spec cap Hlt) as (x & -> & _)|destruct (make_refuses cap Hge) as [e ->]]; done.
Qed.

Lemma sync_run dev : match sync dev with (Ok _, dev') => memory dev' = memory dev /\ in_flight dev' = [] | (Throw _, _) => True | _ => False end.
Proof. unfold sync. by destruct (faults dev) as [|[|] ]. Qed.

Lemma allocations_run (l : list TensorSpec) : forall dev, match for_each (fun _ => allocate) l dev with (Ok _, _) | (Throw _, _) => True | _ => False end.
Proof.
  induction l as [|x l IH]; intros dev; [done|]. cbn [for_each]. unfold mbind, M_bind. pose proof (enqueue_run id [] dev) as H. unfold allocate.
  destruct (enqueue id [] dev) as [[u|e| |] dev']; try done. apply IH.
Qed.

(** Writing the initial rows of the collected tensors. *)
Lemma written_run ts dev : match drained (_ ← for_each init_row (imap pair ts); sync) dev with
  | (Ok _, dev') => in_flight dev' = [] /\ forall t spec, ts !! t = Some spec -> memory dev' (mkLoc t ZeroRow 0) = initial_value spec
  | (Throw _, _) => True
  | _ => False end.
Proof.
  unfold drained, mbind, M_bind. pose proof (init_rows_run (imap pair ts) (imap_pair_fst ts) dev) as Hi. destruct (for_each init_row _ dev) as [[u|e| |] dev1]; try done.
  pose proof (sync_run dev1) as Hs. destruct (sync dev1) as [[u'|e| |] dev2]; try done. destruct Hs as [Hm Hf]. split; [done|]. intros t spec Ht. rewrite Hm.
  apply (proj1 Hi (t, spec)). by apply elem_imap_pair.
Qed.

End constructed.
