(* ===== verification/FixedStateStep.v ===== *)
(** * A step of the fixed-state pool

    The transaction of one model step over the fixed decoder state: reserve, let the model
    write its output bindings, keep the accepted prefixes, commit, and end the reservation.
    The theorem at the end says what every request sees afterwards, for every pattern of
    device failures. *)

From S2P Require Import Prelude RequestIndex EngineInvariants StateManifest StateManifestProofs FixedStateSpec FixedStatePool FixedStateDevice FixedStateReserve FixedStateCommit.

Open Scope nat_scope.

Section step.
Context {V : Type} `{!DeviceInterface V, !DeviceLaws V}.
Implicit Types (p : FixedStatePool V) (st : Storage) (r : FixedStateReservation).

(** ** The model's part *)

(** The locations the output bindings and the capture buffers view. *)
Definition output_locs (c : PoolConfig) st : list loc :=
  imap pair (tensors c) ≫= fun ts => row_numbers st ≫= fun row =>
    [output_at st ts.2 ts.1 row; mkLoc ts.1 UpdateValue row; mkLoc ts.1 UpdateCapsule row].

Definition run_model (out : loc -> V) st p : FixedStatePool V :=
  set_device (mkDevice (fun l => if bool_decide (l ∈ output_locs (config p) st) then out l else memory (device p) l)
    (in_flight (device p)) (faults (device p))) p.

(** ** Rows a step may not disturb *)

Definition batch st : list N := handle_request_id <$> handles st.

(** Rows of other requests, and rows of tensors with two banks. *)
Definition stable (c : PoolConfig) st (id : N) (t : nat) : Prop :=
  id ∈ batch st -> forall spec, tensors c !! t = Some spec -> share_past_present_buffer spec = false.

Lemma row_at_inv p id t l : pool_ok p -> row_at p id t = Some l ->
  exists i s spec, slots p !! i = Some s /\ ownership s = SlotCommitted /\ slot_request_id s = id /\ Find (committed_index p) id = Some i /\
    tensors (config p) !! t = Some spec /\ l = bank_loc spec t (active_bank s) i.
Proof.
  intros Hp Hl. unfold row_at in Hl. destruct (Find _ _) as [i|] eqn:Hf; [|done]. cbn in Hl. destruct (slots p !! i) as [s|] eqn:Hs; [|done]. cbn in Hl.
  destruct (tensors (config p) !! t) as [spec|] eqn:Ht; [|done]. injection Hl as <-.
  apply (Find_owner _ _ _ Hp) in Hf as Ho. destruct Ho as (s' & Hs' & Hc & Hi). rewrite Hs in Hs'. injection Hs' as <-.
  by exists i, s, spec.
Qed.

Lemma target_not_visible p r st id t t' spec' row l : pool_ok p -> live p r st -> row_at p id t = Some l -> stable (config p) st id t ->
  tensors (config p) !! t' = Some spec' -> row < length (handles st) -> l <> target_at (slots p) st spec' t' row.
Proof.
  intros Hp H Hl Hst Ht' Hrow ->. apply (row_at_inv _ _ _ _ Hp) in Hl as (i & s & spec & Hs & Hc & Hid & _ & Ht & Heq).
  injection Heq as -> Hb Hsl. rewrite Ht in Ht'. injection Ht' as <-. apply lookup_lt_is_Some in Hrow as [h Hh].
  destruct (lv_row _ _ _ H row h Hh) as (s' & new & Hs' & _ & _ & Hid' & _).
  unfold next_bank, slot_of in Hb, Hsl. rewrite Hh in Hb, Hsl. cbn in Hb, Hsl. rewrite Hsl, Hs in *. injection Hs' as <-. cbn in Hb.
  rewrite (Hst ltac:(rewrite <- Hid, Hid'; apply list_elem_of_fmap_2; by eapply list_elem_of_lookup_2) spec Ht) in Hb. by destruct (active_bank s).
Qed.

Lemma elem_output_locs c st l : l ∈ output_locs c st -> exists t spec row, tensors c !! t = Some spec /\ row < length (handles st) /\
  (l = output_at st spec t row \/ not_bank l).
Proof.
  intros ([t spec] & Hin & Ht%elem_imap_pair)%list_elem_of_bind. apply list_elem_of_bind in Hin as (row & Hin & Hrow%elem_of_seq). cbn in Hin.
  exists t, spec, row. split_and!; [done|lia|]. apply elem_of_cons in Hin as [->|Hin]; [by left|right].
  apply elem_of_cons in Hin as [->|Hin]; [done|]. apply list_elem_of_singleton in Hin as ->. done.
Qed.

Lemma output_not_visible p r st id t l : pool_ok p -> live p r st -> row_at p id t = Some l -> stable (config p) st id t ->
  l ∉ output_locs (config p) st.
Proof.
  intros Hp H Hl Hst Hin. apply elem_output_locs in Hin as (t' & spec' & row & Ht' & Hrow & [->|Hnb]).
  - destruct (uses_direct_bindings st) eqn:Hd.
    + eapply target_not_visible; [exact Hp|exact H|exact Hl|exact Hst|exact Ht'|exact Hrow|]. symmetry. by apply (direct_target p r).
    + apply (row_at_inv _ _ _ _ Hp) in Hl as (i & s & spec & _ & _ & _ & _ & _ & Heq). apply (f_equal loc_buffer) in Heq.
      unfold output_at in Heq. rewrite Hd in Heq. cbn in Heq. unfold output_staging in Heq. by destruct (share_past_present_buffer spec').
  - apply (row_at_inv _ _ _ _ Hp) in Hl as (i & s & spec & _ & _ & _ & _ & _ & ->). by eapply Hnb.
Qed.

Lemma output_not_static c st l : static l -> l ∉ output_locs c st.
Proof.
  intros Hl ([t spec] & Hin & _)%list_elem_of_bind. apply list_elem_of_bind in Hin as (row & Hin & _). cbn in Hin.
  rewrite !elem_of_cons in Hin. destruct Hl as [Hl|Hl], Hin as [->|[->|[->|Hin]]]; try done; try (by apply elem_of_nil in Hin);
    revert Hl; unfold output_at, output_staging; destruct (uses_direct_bindings st); try done; by destruct (share_past_present_buffer spec).
Qed.

(** ** While a reservation is live *)

(** Every stable row is as it was before the reservation. *)
Record during p0 r st p : Prop := mk_during
  { du_live : live p r st;
    du_ok : pool_ok p;
    du_config : config p = config p0;
    du_tokens : forall id, visible_tokens p id = visible_tokens p0 id;
    du_visible : forall id t, stable (config p0) st id t -> visible p id t = visible p0 id t;
    du_flight : forall id t l, row_at p id t = Some l -> l ∈ in_flight (device p) -> row_at p0 id t = Some l /\ l ∈ at_risk p0;
    du_static : forall l, static l -> settled p l = settled p0 l /\ (l ∈ in_flight (device p) -> l ∈ at_risk p0) }.

Lemma reserved_during p0 requests r st p : reserved p0 requests r st p -> during p0 r st p.
Proof.
  intros H. split; [apply H|apply H|apply H|apply H|intros; apply H|apply H|]. intros l Hl. unfold settled at 1. rewrite (rv_deferred _ _ _ _ _ H). by apply (rv_static _ _ _ _ _ H).
Qed.

Lemma live_memory p r st d : live p r st -> live (set_device d p) r st.
Proof. intros H. by destruct H; split. Qed.

Lemma pool_ok_device p d : pool_ok p -> pool_ok (set_device d p).
Proof. intros H. by destruct H; split. Qed.

Lemma run_model_during p0 r st out p : during p0 r st p -> deferred_replay p = [] -> during p0 r st (run_model out st p).
Proof.
  intros [] Hd. split; try done; [by apply live_memory|by apply pool_ok_device| |].
  - intros id t Hst. rewrite <- du_visible0 by done. rewrite !visible_row_at. change (row_at (run_model out st p) id t) with (row_at p id t).
    destruct (row_at p id t) as [l|] eqn:Hl; [|done]. cbn. f_equal. unfold settled. cbn. rewrite Hd. cbn.
    rewrite bool_decide_false; [done|]. apply (output_not_visible p r st id t); try done. by rewrite du_config0.
  - intros l Hl. destruct (du_static0 l Hl) as [<- Hfl]. split; [|done]. unfold settled. cbn. rewrite Hd. cbn.
    rewrite bool_decide_false; [done|]. by apply output_not_static.
Qed.

(** ** Keeping a prefix *)

Definition with_storage st r : FixedStateReservation := mkReservation (attached r) (reservation_id r) (Some st) (reservation_state r).

(** The storage after the prefix of a row has been fixed. *)
Definition keep_prefix (row step kept : nat) st : Storage :=
  mkStorage (handles st) (provisional st) (expected_state_generations st)
    (alter (fun target => target - (step - kept)) row (target_tokens st)) (capture_counts st)
    (<[row := step]> (commit_step_tokens st)) (<[row := kept]> (commit_kept_tokens st)) (views st)
    (captures_state_updates st) (uses_direct_bindings st) (direct_active_bank st) (first_direct_slot st).

Lemma CommitPrefix_run p r st row step kept : live p r st ->
  match CommitPrefix row step kept (p, r) with
  | (Ok _, w) => w = (p, with_storage (keep_prefix row step kept st) r) /\ row < length (handles st) /\ 0 < kept <= step /\
      captures_state_updates st = true /\ reservation_state r = Reserved /\ commit_kept_tokens st !! row = Some 0 /\
      exists target, target_tokens st !! row = Some target /\ step - kept <= target
  | (Throw _, w) => w = (p, r)
  | _ => False end.
Proof.
  intros H. unfold CommitPrefix. rewrite gets_bind. cbn [id snd]. rewrite (lv_storage _ _ _ H).
  destruct (captures_state_updates st) eqn:Hcap; [|done]. rewrite (throw_if_false _ _ _ _ eq_refl).
  destruct (bool_decide (reservation_state r = Reserved)) eqn:Hs; [|done]. rewrite (throw_if_false _ _ _ _ eq_refl). apply bool_decide_eq_true in Hs.
  destruct (Nat.leb_spec (length (handles st)) row) as [|Hrow]; [done|]. rewrite (throw_if_false _ _ _ _ eq_refl).
  destruct (_ || _) eqn:Hk; [done|]. rewrite (throw_if_false _ _ _ _ eq_refl). apply orb_false_iff in Hk as [Hk1%Nat.eqb_neq Hk2%Nat.ltb_ge].
  destruct (lv_lengths _ _ _ H) as (L1 & L2 & L3 & L4 & _).
  destruct (lookup_lt_is_Some_2 (capture_counts st) row ltac:(lia)) as [cap ->]. destruct (lookup_lt_is_Some_2 (commit_kept_tokens st) row ltac:(lia)) as [k Hk]. rewrite Hk.
  destruct (lookup_lt_is_Some_2 (target_tokens st) row ltac:(lia)) as [target Ht]. rewrite Ht. cbv zeta.
  destruct (_ || _); [done|]. rewrite (throw_if_false _ _ _ _ eq_refl). destruct (Nat.eqb_spec k 0) as [->|]; [|done]. rewrite (throw_if_false _ _ _ _ eq_refl).
  destruct (Nat.ltb_spec target (step - kept)); [done|]. rewrite (throw_if_false _ _ _ _ eq_refl). cbn.
  split; [|split_and!; try done; [lia|by exists target]]. unfold keep_prefix, with_storage. do 4 f_equal; [|done].
  apply list_eq. intros j. destruct (decide (row = j)) as [<-|]; [|by rewrite list_lookup_insert_ne, list_lookup_alter_ne].
  rewrite list_lookup_insert_eq, list_lookup_alter_eq, Ht by lia. done.
Qed.

Lemma keep_prefix_during p0 r st p row step kept : during p0 r st p -> captures_state_updates st = true ->
  during p0 (with_storage (keep_prefix row step kept st) r) (keep_prefix row step kept st) p.
Proof.
  intros [] Hcap. split; try done. destruct du_live0. split; try done; cbn.
  rewrite length_alter, !length_insert. done.
Qed.

(** ** Validation *)

(** No row's token count goes back. *)
Definition monotone p st : Prop :=
  forall row h s target, handles st !! row = Some h -> slots p !! handle_slot h = Some s -> target_tokens st !! row = Some target ->
    committed_tokens s <= target.

Lemma validate_row_run p r st row : live p r st -> row < length (handles st) ->
  match validate_row r st row p with
  | (Ok _, p') => p' = p /\ forall h s target, handles st !! row = Some h -> slots p !! handle_slot h = Some s ->
      target_tokens st !! row = Some target -> committed_tokens s <= target
  | (Throw _, p') => p' = p
  | _ => False end.
Proof.
  intros H Hrow. apply lookup_lt_is_Some in Hrow as Hh. destruct Hh as [h Hh]. destruct (lv_row _ _ _ H row h Hh) as (s & new & Hs & Hn & Ho & Hi & Hg & He & Hw).
  destruct (lv_lengths _ _ _ H) as (L1 & _). destruct (lookup_lt_is_Some_2 (target_tokens st) row ltac:(lia)) as [target Ht].
  unfold validate_row. rewrite gets_bind. unfold Datatypes.id. rewrite Hh, Hn, He, Ht. destruct (_ || _); [done|]. rewrite (throw_if_false _ _ _ _ eq_refl).
  rewrite (get_slot_bind _ _ _ _ Hs). destruct (_ || _); [done|]. rewrite (throw_if_false _ _ _ _ eq_refl).
  destruct (_ =? u64_max)%N; [done|]. rewrite (throw_if_false _ _ _ _ eq_refl). unfold throw_if. destruct (Nat.ltb_spec target (committed_tokens s)); [done|].
  cbn. split; [done|]. intros h' s' target' [= <-] Hs' [= <-]. rewrite Hs in Hs'. injection Hs' as <-. lia.
Qed.

Lemma pool_ValidateCommit_run p r st : live p r st ->
  match pool_ValidateCommit r p with
  | (Ok _, p') => p' = p /\ healthy p = true /\ monotone p st
  | (Throw _, p') => p' = p
  | _ => False end.
Proof.
  intros H. unfold pool_ValidateCommit. rewrite EnsureHealthy_bind. destruct (healthy p) eqn:Hh; [|done]. rewrite gets_bind. unfold Datatypes.id.
  rewrite (lv_storage _ _ _ H). destruct (negb _); [done|]. rewrite (throw_if_false _ _ _ _ eq_refl).
  assert (forall l, (forall row, row ∈ l -> row < length (handles st)) ->
    match for_each (validate_row r st) l p with
    | (Ok _, p') => p' = p /\ forall row h s target, row ∈ l -> handles st !! row = Some h -> slots p !! handle_slot h = Some s ->
        target_tokens st !! row = Some target -> committed_tokens s <= target
    | (Throw _, p') => p' = p | _ => False end) as Hl.
  { induction l as [|row l IH]; intros Hin; [split; [done|]; intros ? ? ? ? Hr; by apply elem_of_nil in Hr|]. cbn [for_each].
    pose proof (validate_row_run p r st row H ltac:(apply Hin; by left)) as Hr. unfold mbind, M_bind.
    destruct (validate_row r st row p) as [[u|e| |] p1]; try done. destruct Hr as [-> Hr]. specialize (IH ltac:(intros; apply Hin; by right)).
    destruct (for_each _ l p) as [[u'|e| |] p2]; try done. destruct IH as [-> IH]. split; [done|].
    intros row' h s target [->|Hr']%elem_of_cons; [apply Hr|by apply IH]. }
  specialize (Hl (seq 0 (length (handles st))) ltac:(intros row Hrow%elem_of_seq; lia)).
  destruct (for_each _ _ p) as [[u|e| |] p1]; try done. destruct Hl as [-> Hl]. split_and!; [done|done|].
  intros row h s target Hh'. apply Hl; [|done]. apply elem_of_seq. apply lookup_lt_Some in Hh'. lia.
Qed.

(** ** Ending a reservation *)

(** After the provisional slots have been given back. *)
Record closed p0 st p : Prop := mk_closed
  { cl_ok : pool_ok p;
    cl_config : config p = config p0;
    cl_tokens : forall id, visible_tokens p id = visible_tokens p0 id;
    cl_visible : forall id t, stable (config p0) st id t -> (forall l, row_at p0 id t = Some l -> l ∉ at_risk p0) -> visible p id t = visible p0 id t;
    cl_static : forall l, static l -> l ∉ at_risk p0 -> settled p l = settled p0 l;
    cl_free : forall i s, slots p !! i = Some s -> ownership s <> SlotReserved }.

Definition released_slot (s : Slot) : Slot := if bool_decide (ownership s = SlotReserved) then freed s else s.

(** What [release_row] does to the slot of its row. *)
Definition release_one r st (row : nat) (s : Slot) : Slot :=
  match provisional st !! row, handles st !! row with
  | Some true, Some h =>
    if bool_decide (ownership s = SlotReserved) && (slot_request_id s =? handle_request_id h)%N &&
       (slot_generation s =? handle_generation h)%N && (slot_reservation_id s =? reservation_id r)%N then freed s else s
  | _, _ => s
  end.

Lemma alter_as {A} (f g : A -> A) (i : nat) (l : list A) x : l !! i = Some x -> f x = g x -> alter f i l = alter g i l.
Proof.
  intros Hx Heq. apply list_eq. intros j. destruct (decide (i = j)) as [<-|]; [|by rewrite !list_lookup_alter_ne].
  rewrite !list_lookup_alter_eq, Hx. cbn. by rewrite Heq.
Qed.

Lemma alter_id {A} (i : nat) (l : list A) : alter (fun x => x) i l = l.
Proof. apply list_eq. intros j. destruct (decide (i = j)) as [<-|]; [rewrite list_lookup_alter_eq; by destruct (l !! i)|by rewrite list_lookup_alter_ne]. Qed.

Lemma release_row_run p r st row h new s : handles st !! row = Some h -> provisional st !! row = Some new -> slots p !! handle_slot h = Some s ->
  release_row r st row p = (Ok tt, set_slots (alter (release_one r st row) (slot_of st row) (slots p)) p).
Proof.
  intros Hh Hn Hs. assert (slot_of st row = handle_slot h) as Hsl by (unfold slot_of; by rewrite Hh). rewrite Hsl.
  assert (forall b : bool, (if b then update_slot (handle_slot h) freed else mret tt) p = (Ok tt, set_slots (alter (fun s => if b then freed s else s) (handle_slot h) (slots p)) p)) as Hb.
  { intros [|]; [by apply update_slot_run; exists s|]. rewrite alter_id. by destruct p. }
  unfold release_row. rewrite Hh, Hn. destruct new.
  - rewrite (get_slot_bind _ _ _ _ Hs), Hb. do 2 f_equal. apply (alter_as _ _ _ _ s Hs). unfold release_one. by rewrite Hn, Hh.
  - rewrite (Hb false). do 2 f_equal. apply (alter_as _ _ _ _ s Hs). unfold release_one. by rewrite Hn.
Qed.

(** A live row's slot is freed exactly when it is reserved. *)
Lemma release_one_live p r st row s : pool_ok p -> live p r st -> row < length (handles st) -> slots p !! slot_of st row = Some s ->
  release_one r st row s = released_slot s.
Proof.
  intros Hp H Hrow Hs. destruct (live_lookup _ _ _ row H Hrow) as (h & _ & _ & _ & Hh & _).
  destruct (lv_row _ _ _ H row h Hh) as (s' & new & Hs' & Hn & _ & Hi & Hg & _ & Hw).
  unfold slot_of in Hs. rewrite Hh in Hs. cbn in Hs. rewrite Hs' in Hs. injection Hs as <-. unfold release_one, released_slot. rewrite Hn, Hh, Hw.
  destruct new; [|by rewrite bool_decide_false]. rewrite Hi, Hg, !N.eqb_refl, bool_decide_true by done. cbn.
  destruct (po_slot _ Hp _ _ Hs') as [_ Hok]. rewrite Hw in Hok. destruct Hok as (_ & _ & -> & _). by rewrite (lv_id _ _ _ H), N.eqb_refl.
Qed.

Lemma reserved_row p r st i s : live p r st -> slots p !! i = Some s -> ownership s = SlotReserved -> i ∈ slot_of st <$> row_numbers st.
Proof.
  intros H Hs Ho. pose proof (lv_reserved _ _ _ H i s Hs Ho) as Hin. apply list_elem_of_fmap in Hin as (h & -> & [row Hh]%list_elem_of_lookup).
  apply list_elem_of_fmap. exists row. unfold slot_of. rewrite Hh. split; [done|]. apply elem_of_seq. apply lookup_lt_Some in Hh. lia.
Qed.

(** [ReleaseProvisionalSlots] frees every reserved slot. *)
Lemma ReleaseProvisionalSlots_run p r st : pool_ok p -> live p r st ->
  exists ss, ReleaseProvisionalSlots r p = (Ok tt, set_slots ss p) /\ length ss = length (slots p) /\
    forall i s, slots p !! i = Some s -> ss !! i = Some (released_slot s).
Proof.
  intros Hp H. unfold ReleaseProvisionalSlots. rewrite gets_bind. unfold Datatypes.id. rewrite (lv_storage _ _ _ H), <- (lv_id _ _ _ H), N.eqb_refl.
  rewrite (proj2 (N.eqb_neq _ _) (lv_nonzero _ _ _ H)). cbn [negb orb].
  destruct (for_each_slots (V := V) (release_row r st) (release_one r st) (slot_of st) (row_numbers st)) with (p := p) as (ss & Hrun & Hlen & Hhit & Hout).
  - intros row p' Hrow%elem_of_seq [s Hs]. destruct (live_lookup _ _ _ row H ltac:(lia)) as (h & _ & _ & _ & Hh & _).
    destruct (lv_row _ _ _ H row h Hh) as (_ & new & _ & Hn & _). apply (release_row_run p' r st row h new s); try done.
    unfold slot_of in Hs. by rewrite Hh in Hs.
  - apply NoDup_fmap_2_strong; [|apply NoDup_seq]. intros i j Hi%elem_of_seq Hj%elem_of_seq. apply (slot_of_inj p r st); [done|lia|lia].
  - intros row Hrow%elem_of_seq. destruct (live_lookup _ _ _ row H ltac:(lia)) as (h & s & _ & _ & Hh & Hs & _). unfold slot_of. rewrite Hh. by exists s.
  - exists ss. split; [exact Hrun|]. split; [done|]. intros i s Hs. destruct (decide (i ∈ slot_of st <$> row_numbers st)) as [Hin|Hno].
    + apply list_elem_of_fmap in Hin as (row & -> & Hrow). rewrite (Hhit row Hrow), Hs. cbn. f_equal. apply elem_of_seq in Hrow.
      apply (release_one_live p); try done. lia.
    + rewrite (Hout i Hno), Hs. f_equal. unfold released_slot. case_bool_decide as Ho; [|done]. by destruct Hno; eapply reserved_row.
Qed.

Section released.
Context p ss (Hp : pool_ok p) (Hlen : length ss = length (slots p)) (Hss : forall i s, slots p !! i = Some s -> ss !! i = Some (released_slot s)).

Lemma released_back i s' : ss !! i = Some s' -> exists s, slots p !! i = Some s /\ s' = released_slot s.
Proof using Hlen Hss.
  intros Hs'. destruct (lookup_lt_is_Some_2 (slots p) i) as [s Hs]; [rewrite <- Hlen; by eapply lookup_lt_Some|].
  exists s. split; [done|]. rewrite (Hss i s Hs) in Hs'. by injection Hs'.
Qed.

Lemma released_owns id i : owns ss id i <-> owns (slots p) id i.
Proof using Hlen Hss.
  split.
  - intros (s' & Hs' & Ho & Hi). destruct (released_back i s' Hs') as (s & Hs & ->). unfold released_slot in *. case_bool_decide; [done|]. by exists s.
  - intros (s & Hs & Ho & Hi). exists s. split; [|done]. rewrite (Hss i s Hs). unfold released_slot. rewrite bool_decide_false; [done|]. by rewrite Ho.
Qed.

Lemma released_ok : pool_ok (set_slots ss p).
Proof using Hp Hlen Hss.
  split; cbn; try apply Hp.
  - rewrite Hlen. apply Hp.
  - intros id i. rewrite released_owns. apply (po_owner _ Hp).
  - intros i s' Hs'. destruct (released_back i s' Hs') as (s & Hs & ->). destruct (po_slot _ Hp _ _ Hs) as [Hg Hrest].
    unfold released_slot. case_bool_decide; [by split|]. by split.
  - intros i j s1 s2 H1 H2 N1 N2 Heq. destruct (released_back i s1 H1) as (s1' & H1' & ->), (released_back j s2 H2) as (s2' & H2' & ->).
    unfold released_slot in *. repeat case_bool_decide; try done. by apply (po_unique _ Hp _ _ _ _ H1' H2').
Qed.

Lemma released_free i s : ss !! i = Some s -> ownership s <> SlotReserved.
Proof using Hlen Hss. intros Hs'. destruct (released_back i s Hs') as (s0 & Hs & ->). unfold released_slot. by case_bool_decide. Qed.

Lemma released_sees : (forall id t, row_at (set_slots ss p) id t = row_at p id t) /\ (forall id, visible_tokens (set_slots ss p) id = visible_tokens p id).
Proof using Hp Hlen Hss.
  assert (forall id i, Find (committed_index p) id = Some i -> ss !! i = slots p !! i) as Hk.
  { intros id i Hf. apply (Find_owner _ _ _ Hp) in Hf as (s & Hs & Ho & _). rewrite (Hss i s Hs), Hs. unfold released_slot. by rewrite bool_decide_false by (by rewrite Ho). }
  unfold row_at, visible_tokens. cbn. split; intros id; [intros t|]; destruct (Find _ id) as [i|] eqn:Hf; try done; cbn; by rewrite (Hk id i Hf).
Qed.
End released.

(** A pool whose host state is that of [p] with the reserved slots freed. *)
Lemma release_closed p0 r st p ss d p' : during p0 r st p -> length ss = length (slots p) ->
  (forall i s, slots p !! i = Some s -> ss !! i = Some (released_slot s)) ->
  config p' = config p -> committed_index p' = committed_index p -> prefix_checkpoints p' = prefix_checkpoints p ->
  active_reservation_id p' = active_reservation_id p -> next_reservation_id p' = next_reservation_id p -> view_cache p' = view_cache p ->
  slots p' = ss -> deferred_replay p' = [] -> device p' = d ->
  (forall id t l, stable (config p0) st id t -> row_at p id t = Some l -> l ∉ in_flight (device p) -> memory d l = settled p l) ->
  (forall l, static l -> l ∉ in_flight (device p) -> memory d l = settled p l) ->
  closed p0 st p'.
Proof.
  intros Hdu Hlen Hss Hc Hi Hcp Ha Hn Hv Hs Hdf Hd Hm Hstat. destruct (released_sees p ss (du_ok _ _ _ _ Hdu) Hlen Hss) as [Hrow Htok]. split.
  - apply (pool_ok_host (set_slots ss p)); try done; [by apply released_ok; [apply Hdu|..]|rewrite Hs; apply same_owners_refl|].
    rewrite Hv. apply (po_views _ (du_ok _ _ _ _ Hdu)).
  - rewrite Hc. apply Hdu.
  - intros id. rewrite <- (du_tokens _ _ _ _ Hdu), <- Htok. unfold visible_tokens. by rewrite Hi, Hs.
  - intros id t Hst Hsafe. rewrite <- (du_visible _ _ _ _ Hdu id t Hst), !visible_row_at.
    assert (row_at p' id t = row_at p id t) as -> by (rewrite <- Hrow; unfold row_at; by rewrite Hi, Hs, Hc).
    destruct (row_at p id t) as [l|] eqn:Hl; [|done]. cbn. f_equal. unfold settled at 1. rewrite Hdf, Hd. cbn. apply (Hm id t l Hst Hl).
    intros Hfl. destruct (du_flight _ _ _ _ Hdu id t l Hl Hfl) as [H0 Hr]. by apply (Hsafe l).
  - intros l Hl Hr. destruct (du_static _ _ _ _ Hdu l Hl) as [<- Hfl]. unfold settled at 1. rewrite Hdf, Hd. apply Hstat; [done|]. intros Hin. by apply Hr, Hfl.
  - rewrite Hs. intros i s. by apply (released_free p ss Hlen Hss).
Qed.

(** ** Preparing *)

Lemma copies_not_visible p r st id t l : pool_ok p -> live p r st -> row_at p id t = Some l -> stable (config p) st id t -> l ∉ (all_copies p st).*1.
Proof.
  intros Hp H Hl Hst ([d s0] & -> & (_ & t' & spec' & row & Ht' & Hrow & _ & Heq & _)%elem_all_copies)%list_elem_of_fmap. cbn in Hl.
  by eapply (target_not_visible p r st id t t' spec' row).
Qed.

Lemma replays_not_visible p r st id t l : pool_ok p -> live p r st -> tensors_ok (config p) -> row_at p id t = Some l -> stable (config p) st id t ->
  l ∉ all_replays p st ≫= destinations.
Proof.
  intros Hp H Htok Hl Hst (d & Hd & (t' & spec' & row & Ht' & Hrow & Hm & ->)%elem_all_replays)%list_elem_of_bind.
  apply (replay_destinations p st t' spec' row l Htok Ht' Hm) in Hd as [Heq|(_ & k & sib & _ & Hs & _ & _ & Heq)].
  - exact (target_not_visible p r st id t t' spec' row l Hp H Hl Hst Ht' Hrow Heq).
  - exact (target_not_visible p r st id t (t' + k) sib row l Hp H Hl Hst Hs Hrow Heq).
Qed.

Lemma writes_not_static p st l : tensors_ok (config p) -> static l -> l ∉ (all_copies p st).*1 /\ l ∉ all_replays p st ≫= destinations.
Proof.
  intros Htok [Hnb _]%static_other. split.
  - intros ([d s0] & -> & (_ & t & spec & row & _ & _ & _ & -> & _)%elem_all_copies)%list_elem_of_fmap. by eapply Hnb.
  - intros (d & Hd & (t & spec & row & Ht & _ & Hm & ->)%elem_all_replays)%list_elem_of_bind.
    apply (replay_destinations p st t spec row l Htok Ht Hm) in Hd as [->|(_ & k & sib & _ & _ & _ & _ & ->)]; by eapply Hnb.
Qed.

(** A prepared reservation: every row it will publish is ready. *)
Record prepared p0 p1 r st p : Prop := mk_prepared
  { pr_during : during p0 r st p;
    pr_state : reservation_state r = Prepared;
    pr_slots : slots p = slots p1;
    pr_rows : forall t spec row, tensors (config p) !! t = Some spec -> row < length (handles st) ->
      published (config p1) (slots p1) st (memory (device p1)) t spec row = Some (settled p (target_at (slots p1) st spec t row));
    pr_monotone : monotone p1 st;
    pr_quiet : forall id t l, stable (config p0) st id t -> row_at p id t = Some l -> l ∉ deferred_replay p ≫= destinations;
    pr_static : forall l, static l -> l ∉ deferred_replay p ≫= destinations }.

Definition with_state (x : FixedStateReservationState) r : FixedStateReservation := mkReservation (attached r) (reservation_id r) (storage r) x.

Lemma live_state p r st x : live p r st -> live p (with_state x r) st.
Proof. intros H. by destruct H; split. Qed.

Lemma staged_prepared p0 r st p fs : during p0 r st p -> tensors_ok (config p) -> deferred_replay p = [] -> monotone p st ->
  prepared p0 p (with_state Prepared r) st
    (set_deferred (all_replays p st) (set_device (mkDevice (run_copies (all_copies p st) (memory (device p))) [] fs) p)).
Proof.
  intros Hdu Htok Hdef Hmono. destruct Hdu as [Hlv Hok Hc Ht Hv Hf Hsta]. set (p' := set_deferred _ _). split; try done.
  - split; try done.
    + apply live_state. by destruct Hlv; split.
    + apply (pool_ok_host p); try done; [apply same_owners_refl|apply (po_views _ Hok)].
    + intros id t Hst. rewrite <- Hv, !visible_row_at by done. change (row_at p' id t) with (row_at p id t).
      destruct (row_at p id t) as [l|] eqn:Hl; [|done]. cbn [fmap option_fmap option_map]. f_equal. unfold settled. rewrite Hdef. rewrite <- Hc in Hst.
      change (apply_replays (all_replays p st) (run_copies (all_copies p st) (memory (device p))) l = memory (device p) l).
      rewrite apply_replays_other by (by eapply replays_not_visible). apply run_copies_other. by eapply copies_not_visible.
    + intros id t l _ Hl. by apply elem_of_nil in Hl.
    + intros l Hl. split; [|intros Hin; by apply elem_of_nil in Hin]. rewrite <- (proj1 (Hsta l Hl)). destruct (writes_not_static p st l Htok Hl) as [H1 H2].
      unfold settled. rewrite Hdef. change (apply_replays (all_replays p st) (run_copies (all_copies p st) (memory (device p))) l = memory (device p) l).
      rewrite apply_replays_other by done. by apply run_copies_other.
  - intros t spec row Ht' Hrow. apply (staged_published p r); try done.
  - intros id t l Hst Hl. rewrite <- Hc in Hst. by eapply replays_not_visible.
  - intros l Hl. by apply writes_not_static.
Qed.
End step.
