(* ===== verification/FixedStateClose.v ===== *)
(** * Ending a fixed-state reservation

    [PrepareCommit], with its failure handler, [Discard] and the destructor of a reservation:
    on every path but a successful commit the reserved slots are given back, the token counts
    stay and every stable row the device had confirmed is still there. *)

From S2P Require Import Prelude RequestIndex EngineInvariants StateManifest StateManifestProofs FixedStateSpec FixedStatePool FixedStateDevice FixedStateReserve FixedStateCommit FixedStateStep.

Open Scope nat_scope.

Section close.
Context {V : Type} `{!DeviceInterface V, !DeviceLaws V}.
Implicit Types (p : FixedStatePool V) (st : Storage) (r : FixedStateReservation).

(** ** Preparing a commit *)

Lemma on_pool_bind {A B} (m : M (FixedStatePool V) FixedStateError A) (k : A -> M (FixedStatePool V * FixedStateReservation) FixedStateError B) p r a p' :
  m p = (Ok a, p') -> (on_pool m ≫= k) (p, r) = k a (p', r).
Proof. intros H. unfold on_pool, mbind, M_bind. cbn. by rewrite H. Qed.

Definition unhealthy p : FixedStatePool V := p <| healthy := false |>.

Lemma during_unhealthy p0 r st p d : during p0 r st p -> live (unhealthy (set_device d p)) r st /\ pool_ok (unhealthy (set_device d p)).
Proof. intros [Hl Hok _ _ _ _ _]. split; [destruct Hl|destruct Hok]; by split. Qed.

(** The handler gives the slots back and leaves the rest alone. *)
Lemma fail_reservation_run p0 r st p p1 e cs : during p0 r st p -> deferred_replay p = [] ->
  (forall id t l, stable (config p0) st id t -> row_at p id t = Some l -> l ∉ cs.*1) -> (forall l, static l -> l ∉ cs.*1) -> broke p cs p1 ->
  exists p', fail_reservation e (p1, r) = (Throw e, (p', with_state Failed r)) /\ closed p0 st p' /\ active_reservation_id p' = reservation_id r.
Proof.
  intros Hdu Hdef Hcs Hsta (d & -> & Hm & Hf). destruct (during_unhealthy p0 r st p d Hdu) as [Hlv Hok].
  unfold fail_reservation. rewrite (on_pool_bind fail_pool _ _ r tt (unhealthy (set_device d p)) eq_refl).
  unfold set_reservation_state. rewrite modify_bind, gets_bind. unfold Datatypes.id. cbn [fst snd]. fold (with_state Failed r).
  destruct (ReleaseProvisionalSlots_run _ (with_state Failed r) st Hok (live_state _ _ _ _ Hlv)) as (ss & Hrun & Hlen & Hss).
  rewrite (on_pool_bind _ _ _ _ _ _ Hrun). set (q := set_slots ss (unhealthy p)).
  assert (broke q cs (set_device d q)) as Hb by (exists d; done). apply drain_broke in Hb as (d' & Hd' & Hm' & _).
  change (set_slots ss (unhealthy (set_device d p))) with (set_device d q).
  rewrite (on_pool_bind drain _ _ _ tt (set_device d' q)) by (unfold drain in *; cbn in Hd' |- *; by rewrite Hd').
  exists (set_device d' q). split; [done|]. split; [|symmetry; apply Hdu].
  apply (release_closed p0 r st p ss d'); try done; [intros id t l Hst Hl Hfl|intros l Hl Hfl]; cbn in Hm'; unfold settled; rewrite Hdef; cbn;
    apply Hm'; rewrite not_elem_of_app; (split; [done|]); [by apply (Hcs id t)|by apply Hsta].
Qed.

Lemma PrepareCommit_run p0 r st p : during p0 r st p -> tensors_ok (config p) -> deferred_replay p = [] ->
  match PrepareCommit (p, r) with
  | (Ok _, (p', r')) => r' = with_state Prepared r /\ prepared p0 p r' st p' /\ healthy p' = healthy p
  | (Throw _, (p', r')) => p' = p /\ r' = r \/ closed p0 st p' /\ active_reservation_id p' = reservation_id r /\ r' = with_state Failed r
  | _ => False end.
Proof.
  intros Hdu Htok Hdef. unfold PrepareCommit. rewrite gets_bind. unfold Datatypes.id. cbn [snd]. destruct (negb _ || negb _); [by left|].
  rewrite (throw_if_false _ _ _ _ eq_refl). unfold pool_PrepareCommit. rewrite gets_bind. unfold Datatypes.id. cbn [snd].
  pose proof (pool_ValidateCommit_run p r st (du_live _ _ _ _ Hdu)) as Hval. unfold mbind at 1, M_bind at 1, on_pool. cbn [fst snd].
  destruct (pool_ValidateCommit r p) as [[u|e| |] p1]; try done; [|left; by subst]. destruct Hval as (-> & _ & Hmono).
  rewrite (lv_storage _ _ _ (du_live _ _ _ _ Hdu)). unfold prepare_storage. cbn [fst snd].
  pose proof (stage_outputs_run p r st (du_live _ _ _ _ Hdu) Htok Hdef) as Hst. destruct (stage_outputs st p) as [[u'|e| |] p1]; try done.
  - destruct Hst as [fs ->]. split; [done|]. split; [by apply (staged_prepared p0 r)|done].
  - destruct (fail_reservation_run p0 r st p p1 e (all_copies p st) Hdu Hdef) as (p' & -> & Hcl & Ha); [|by intros l Hl; apply writes_not_static|done|by right].
    intros id t l Hs Hl. apply (copies_not_visible p r st id t l); [apply Hdu|apply Hdu|done|by rewrite (du_config _ _ _ _ Hdu)].
Qed.

(** ** Discarding *)

(** A reservation that can be discarded without losing a visible row. *)
Definition discardable p0 r st p : Prop :=
  during p0 r st p /\ (reservation_state r = Prepared \/ deferred_replay p = []) /\
  forall l, static l \/ (exists id t, stable (config p0) st id t /\ row_at p id t = Some l) -> l ∉ deferred_replay p ≫= destinations.

Lemma during_discardable p0 r st p : during p0 r st p -> deferred_replay p = [] -> discardable p0 r st p.
Proof. intros H Hd. split; [done|]. split; [by right|]. rewrite Hd. intros l _ Hl. by apply elem_of_nil in Hl. Qed.

Lemma prepared_discardable p0 p1 r st p : prepared p0 p1 r st p -> discardable p0 r st p.
Proof. intros H. split; [apply H|]. split; [left; apply H|]. intros l [Hl|(id & t & Hst & Hl)]; [by apply H|by eapply pr_quiet]. Qed.

Lemma pool_Discard_run p0 r st p : discardable p0 r st p ->
  exists p', pool_Discard (p, r) = (Ok tt, (p', with_state Discarded r)) /\ closed p0 st p' /\ active_reservation_id p' = reservation_id r.
Proof.
  intros (Hdu & Hcase & Hquiet). pose proof (du_live _ _ _ _ Hdu) as Hlv. unfold pool_Discard. rewrite gets_bind. unfold Datatypes.id. cbn [fst snd].
  assert (((p ← gets (λ p, p);
       if bool_decide (reservation_state r = Prepared) && (active_reservation_id p =? reservation_id r)%N
       then modify (fun p => p <| deferred_replay := [] |>) else mret tt) : M (FixedStatePool V) FixedStateError unit) p = (Ok tt, set_deferred [] p)) as Hclear.
  { rewrite gets_bind, (lv_id _ _ _ Hlv), N.eqb_refl, andb_true_r. destruct (bool_decide _) eqn:Hb; [done|]. apply bool_decide_eq_false in Hb.
    destruct Hcase as [|Hd]; [done|]. unfold mret, M_ret, set_deferred. rewrite <- Hd. by destruct p. }
  rewrite (on_pool_bind _ _ _ _ _ _ Hclear).
  assert (pool_ok (set_deferred [] p) /\ live (set_deferred [] p) r st) as [Hok Hlv'].
  { split; [pose proof (du_ok _ _ _ _ Hdu) as []|destruct Hlv]; by split. }
  destruct (ReleaseProvisionalSlots_run _ r st Hok Hlv') as (ss & Hrun & Hlen & Hss). rewrite (on_pool_bind _ _ _ _ _ _ Hrun).
  exists (set_slots ss (set_deferred [] p)). split; [done|]. split; [|symmetry; apply Hlv].
  apply (release_closed p0 r st p ss (device p)); try done; intros; unfold settled; symmetry; apply apply_replays_other, Hquiet; eauto.
Qed.

(** ** Finishing *)

(** The idle pool after a step that committed nothing. *)
Record survived p0 st p : Prop := mk_survived
  { sv_ok : pool_ok p;
    sv_idle : active_reservation_id p = 0%N;
    sv_config : config p = config p0;
    sv_tokens : forall id, visible_tokens p id = visible_tokens p0 id;
    sv_visible : forall id t, stable (config p0) st id t -> (forall l, row_at p0 id t = Some l -> l ∉ at_risk p0) ->
      visible p id t = visible p0 id t;
    sv_static : forall l, static l -> l ∉ at_risk p0 -> settled p l = settled p0 l }.

Lemma slot_ok_idle a b s : slot_ok a s -> ownership s <> SlotReserved -> slot_ok b s.
Proof. unfold slot_ok. by destruct (ownership s). Qed.

(** [Finish] detaches the reservation; with no slot reserved the pool is idle again. *)
Lemma Finish_run p r : pool_ok p -> (forall i s, slots p !! i = Some s -> ownership s <> SlotReserved) ->
  active_reservation_id p = reservation_id r -> reservation_id r <> 0%N ->
  exists p' r', Finish (p, r) = (Ok tt, (p', r')) /\ pool_ok p' /\ active_reservation_id p' = 0%N /\ config p' = config p /\
    slots p' = slots p /\ committed_index p' = committed_index p /\ device p' = device p /\ deferred_replay p' = deferred_replay p /\
    healthy p' = healthy p.
Proof.
  intros Hok Hfree Ha Hnz. unfold Finish. rewrite Ha, N.eqb_refl, (proj2 (N.eqb_neq _ _) Hnz). cbn [negb andb].
  set (p1 := set_active_staging_bytes 0%N (set_active_reservation_id 0%N p)).
  assert (pool_ok p1) as Hp1. { destruct Hok. split; try done. intros i s Hs. eapply slot_ok_idle; [by apply (po_slot i)|by apply (Hfree i)]. }
  do 2 eexists. split; [reflexivity|]. destruct (bool_decide _); [|done]. split; [|done]. destruct Hp1; by split.
Qed.

Lemma finish_closed p0 r st p : closed p0 st p -> active_reservation_id p = reservation_id r -> reservation_id r <> 0%N ->
  exists p' r', Finish (p, r) = (Ok tt, (p', r')) /\ survived p0 st p'.
Proof.
  intros [] Ha Hnz. destruct (Finish_run p r) as (p' & r' & Hrun & Hok & Hi & Hc & Hs & Hx & Hd & Hdf & _); try done.
  exists p', r'. split; [done|]. split; try done.
  - by rewrite Hc.
  - intros id. rewrite <- cl_tokens. unfold visible_tokens. by rewrite Hx, Hs.
  - intros id t Hst Hr. rewrite <- cl_visible by done. unfold visible, settled. by rewrite Hx, Hs, Hc, Hd, Hdf.
  - intros l Hl Hr. rewrite <- cl_static by done. unfold settled. by rewrite Hd, Hdf.
Qed.

(** The destructor of a reservation that has not been published. *)
Lemma destroy_unpublished p0 r st p : discardable p0 r st p -> reservation_state r = Reserved \/ reservation_state r = Prepared ->
  exists p' r', destroy_reservation (p, r) = (Ok tt, (p', r')) /\ survived p0 st p'.
Proof.
  intros Hd Hs. pose proof (du_live _ _ _ _ (proj1 Hd)) as Hlv. unfold destroy_reservation. rewrite gets_bind. unfold Datatypes.id. cbn [snd].
  rewrite (lv_attached _ _ _ Hlv). cbn [negb]. assert (bool_decide (reservation_state r = Reserved) || bool_decide (reservation_state r = Prepared) = true) as ->.
  { apply orb_true_iff. rewrite !bool_decide_eq_true. done. }
  destruct (pool_Discard_run p0 r st p Hd) as (p' & Hrun & Hcl & Ha). rewrite (bind_ok _ _ _ _ _ Hrun).
  apply (finish_closed p0 (with_state Discarded r) st p'); try done. apply Hlv.
Qed.

Lemma destroy_failed p0 r st p : closed p0 st p -> attached r = true -> active_reservation_id p = reservation_id r -> reservation_id r <> 0%N ->
  exists p' r', destroy_reservation (p, with_state Failed r) = (Ok tt, (p', r')) /\ survived p0 st p'.
Proof.
  intros Hcl Hat Ha Hnz. unfold destroy_reservation. rewrite gets_bind. unfold Datatypes.id. cbn [snd with_state attached reservation_state].
  rewrite Hat. cbn. by apply (finish_closed p0 (with_state Failed r) st p).
Qed.
End close.
