(* ===== verification/FixedStatePublish.v ===== *)
(** * Publishing fixed state

    [PublishCommit] flips the bank of every row of the batch, so that the prepared rows become
    the visible ones, and enters new requests into the index; it cannot fail. *)

From S2P Require Import Prelude RequestIndex EngineInvariants StateManifest StateManifestProofs FixedStateSpec FixedStatePool FixedStateDevice FixedStateReserve FixedStateCommit FixedStateStep FixedStateClose.

Open Scope nat_scope.

Section publish.
Context {V : Type} `{!DeviceInterface V, !DeviceLaws V}.
Implicit Types (p : FixedStatePool V) (st : Storage) (r : FixedStateReservation).

(** ** One row *)

(** The slot of a published row. *)
Definition published_slot (target : nat) (s : Slot) : Slot :=
  mkSlot (slot_request_id s) (slot_generation s) (u64_succ (state_generation s)) target 0 (negb (active_bank s)) SlotCommitted.

Definition set_index (x : RequestIndex) p : FixedStatePool V := p <| committed_index := x |>.

(** A slot that is not committed leaves room in the index. *)
Lemma index_room p i s : pool_ok p -> slots p !! i = Some s -> ownership s <> SlotCommitted ->
  index_size_ (committed_index p) < max_entries_ (committed_index p).
Proof.
  intros Hp Hs Ho. rewrite (po_max _ Hp), <- (po_slots _ Hp), <- (contents_size _ (po_index _ Hp)).
  set (vals := (map_to_list (contents (committed_index p))).*2).
  assert (forall id j, (id, j) ∈ map_to_list (contents (committed_index p)) -> owns (slots p) id j) as Hown.
  { intros id j Hin%elem_of_map_to_list. by apply (po_owner _ Hp). }
  assert (NoDup (i :: vals)) as Hnd.
  { constructor.
    - intros ([id j] & -> & Hin)%list_elem_of_fmap. destruct (Hown _ _ Hin) as (s' & Hs' & Hc & _). cbn in Hs. congruence.
    - apply NoDup_fmap_2_strong; [|apply NoDup_map_to_list]. intros [id j] [id' j'] Hi Hj Heq. cbn in Heq. subst j'.
      destruct (Hown _ _ Hi) as (s1 & H1 & _ & <-), (Hown _ _ Hj) as (s2 & H2 & _ & <-). congruence. }
  assert (i :: vals ⊆+ seq 0 (length (slots p))) as Hsub.
  { apply NoDup_submseteq; [done|]. intros j Hj. apply elem_of_seq. split; [lia|]. apply elem_of_cons in Hj as [->|Hj]; [by eapply lookup_lt_Some|].
    apply list_elem_of_fmap in Hj as ([id j'] & -> & Hin). destruct (Hown _ _ Hin) as (s' & Hs' & _). by eapply lookup_lt_Some. }
  apply submseteq_length in Hsub. rewrite length_seq in Hsub. cbn in Hsub. unfold vals in Hsub. rewrite length_fmap, length_map_to_list in Hsub. lia.
Qed.

Section published_row.
Context p i s (target : nat) (x : RequestIndex) (Hp : pool_ok p) (Hs : slots p !! i = Some s) (Hs' : ownership s <> SlotFree).
Context (Hx : index_wf x) (Hmax : max_entries_ x = max_entries_ (committed_index p))
  (Hcont : contents x = <[slot_request_id s := i]> (contents (committed_index p))).

Definition published_slots : list Slot := alter (published_slot target) i (slots p).

Lemma published_lookup j : published_slots !! j = if decide (j = i) then Some (published_slot target s) else slots p !! j.
Proof using Hs.
  unfold published_slots. case_decide as Hj; [subst; rewrite list_lookup_alter_eq, Hs; done|by rewrite list_lookup_alter_ne].
Qed.

Lemma published_owns id j : owns published_slots id j <-> contents x !! id = Some j.
Proof using Hp Hs Hs' Hcont.
  rewrite Hcont. destruct (decide (id = slot_request_id s)) as [->|Hne].
  - rewrite lookup_insert_eq. split.
    + intros (s1 & H1 & Hc & Hid). rewrite published_lookup in H1. case_decide; [by subst|]. f_equal.
      eapply (po_unique _ Hp _ _ _ _ Hs H1); [done|by rewrite Hc|done].
    + intros [= <-]. exists (published_slot target s). rewrite published_lookup, decide_True by done. done.
  - rewrite lookup_insert_ne by done. rewrite (po_owner _ Hp). unfold owns. setoid_rewrite published_lookup. case_decide as Hj; [subst j|done].
    split; intros (s1 & H1 & _ & Hid); [injection H1 as <-; by destruct Hne|congruence].
Qed.

Lemma published_ok : pool_ok (set_index x (set_slots published_slots p)).
Proof using Hp Hs Hs' Hx Hmax Hcont.
  split; cbn; try apply Hp; try done.
  - unfold published_slots. rewrite length_alter. apply Hp.
  - rewrite Hmax. apply Hp.
  - intros id j. by rewrite published_owns.
  - intros j s1 H1. rewrite published_lookup in H1. case_decide; [|by apply (po_slot _ Hp j)]. injection H1 as <-.
    destruct (po_slot _ Hp _ _ Hs) as [Hg Hrest]. split; [done|]. cbn. split_and!; try done; [|by apply N.mod_lt].
    by destruct (ownership s); try (destruct Hrest).
  - intros a b s1 s2 H1 H2 N1 N2 Hid. rewrite published_lookup in H1, H2. repeat case_decide; subst; try done.
    + injection H2 as <-. by apply (po_unique _ Hp _ _ _ _ H1 Hs).
    + injection H1 as <-. symmetry. by apply (po_unique _ Hp _ _ _ _ H2 Hs).
    + by apply (po_unique _ Hp _ _ _ _ H1 H2).
Qed.
End published_row.

(** What publishing leaves alone. *)
Record republished p p' : Prop := mk_republished
  { rp_ok : pool_ok p';
    rp_config : config p' = config p;
    rp_device : device p' = device p;
    rp_deferred : deferred_replay p' = deferred_replay p;
    rp_active : active_reservation_id p' = active_reservation_id p;
    rp_healthy : healthy p' = healthy p }.

Lemma republished_trans p p1 p2 : republished p p1 -> republished p1 p2 -> republished p p2.
Proof. intros [] []. split; congruence. Qed.

Lemma publish_row_run p st row h new target s : pool_ok p -> handles st !! row = Some h -> provisional st !! row = Some new ->
  target_tokens st !! row = Some target -> slots p !! handle_slot h = Some s -> ownership s = (if (new : bool) then SlotReserved else SlotCommitted) ->
  exists p', publish_row st row p = (Ok tt, p') /\ republished p p' /\ slots p' = published_slots p (handle_slot h) target.
Proof.
  intros Hp Hh Hn Ht Hs Ho. set (i := handle_slot h) in *. destruct (po_slot _ Hp _ _ Hs) as [_ Hrest].
  unfold publish_row. rewrite Hh, Hn, Ht. fold i. rewrite (bind_ok _ _ _ _ _ (update_slot_run p i _ (mk_is_Some _ _ Hs))).
  destruct new; rewrite Ho in Hrest.
  - destruct (Insert_ok (committed_index p) (slot_request_id s) i) as (x & Hins & Hwf & Hc & Hmax & _);
      [apply Hp|apply Hrest| |by apply (index_room p i s Hp Hs); rewrite Ho|].
    { destruct (contents (committed_index p) !! slot_request_id s) as [j|] eqn:Hj; [|done]. apply (po_owner _ Hp) in Hj as (s' & Hs' & Hc' & Hid).
      assert (i = j) as <- by (apply (po_unique _ Hp _ _ _ _ Hs Hs'); by rewrite ?Ho, ?Hc'). congruence. }
    set (p1 := set_slots (alter (flipped target) i (slots p)) p).
    assert (slots p1 !! i = Some (flipped target s)) as H1 by (cbn; by rewrite list_lookup_alter_eq, Hs).
    rewrite (bind_ok _ _ _ _ _ (update_slot_run p1 i promoted (mk_is_Some _ _ H1))). set (p2 := set_slots _ p1).
    assert (slots p2 = published_slots p i target) as H2.
    { apply list_eq. intros j. rewrite (published_lookup p i s target Hs). cbn. case_decide as Hj; [subst j|by rewrite !list_lookup_alter_ne].
      rewrite !list_lookup_alter_eq, Hs. done. }
    rewrite (get_slot_bind p2 i (published_slot target s)) by (by rewrite H2, (published_lookup p i s target Hs), decide_True).
    rewrite gets_bind. change (committed_index (Datatypes.id p2)) with (committed_index p). cbn [slot_request_id published_slot]. rewrite Hins, modify_bind.
    exists (set_index x p2). split; [done|]. split; [|done]. split; try done.
    replace p2 with (set_slots (published_slots p i target) p) by (unfold p2; cbn; by rewrite <- H2).
    apply (published_ok p i s); try done. by rewrite Ho.
  - eexists. split; [reflexivity|]. assert (forall f : Slot -> Slot, f s = published_slot target s -> alter f i (slots p) = published_slots p i target) as Hf.
    { intros f Hf. by apply (alter_as _ _ _ _ s Hs). }
    rewrite Hf by (destruct Hrest as (_ & _ & Hr); destruct s; cbn in *; by subst). split; [|done]. split; try done.
    change (set_slots ?ss p) with (set_index (committed_index p) (set_slots ss p)).
    apply (published_ok p i s); try done; [by rewrite Ho|apply Hp|]. symmetry. apply insert_id, (po_owner _ Hp). by exists s.
Qed.

(** ** The batch *)

(** The slots after the first [n] rows. *)
Definition published_rows p st (n : nat) (ss : list Slot) : Prop :=
  (forall row h target, row < n -> handles st !! row = Some h -> target_tokens st !! row = Some target ->
     ss !! handle_slot h = published_slot target <$> slots p !! handle_slot h) /\
  (forall i, i ∉ handle_slot <$> take n (handles st) -> ss !! i = slots p !! i).

Lemma publish_rows_run p r st : pool_ok p -> live p r st ->
  exists p', for_each (publish_row st) (seq 0 (length (handles st))) p = (Ok tt, p') /\ republished p p' /\
    published_rows p st (length (handles st)) (slots p').
Proof.
  intros Hp H. destruct (for_seq_inv (publish_row st) (fun n p' => n <= length (handles st) /\ republished p p' /\ published_rows p st n (slots p'))
    (length (handles st))) with (s := p) as (p' & Hrun & _ & Hrp & Hrows); [|split; [lia|split; [by split|split; [intros; lia|done]]]|by exists p'].
  intros n p1 Hn (_ & Hrp & Hdone & Hrest). destruct (lookup_lt_is_Some_2 (handles st) n Hn) as [h Hh].
  destruct (lv_row _ _ _ H n h Hh) as (s & new & Hs & Hnew & _ & _ & _ & _ & Ho).
  destruct (lookup_lt_is_Some_2 (target_tokens st) n) as [target Ht]; [destruct (lv_lengths _ _ _ H); lia|].
  assert (handle_slot h ∉ handle_slot <$> take n (handles st)) as Hfresh.
  { intros (h' & Heq & [row Hrow]%list_elem_of_lookup)%list_elem_of_fmap. apply lookup_take_Some in Hrow as [Hrow Hlt].
    assert (n = row) as ->; [|lia]. eapply (NoDup_lookup (handle_slot <$> handles st)); [apply H|rewrite list_lookup_fmap, Hh; done|].
    rewrite list_lookup_fmap, Hrow. cbn. by rewrite Heq. }
  assert (slots p1 !! handle_slot h = Some s) as Hs1 by (by rewrite Hrest).
  destruct (publish_row_run p1 st n h new target s (rp_ok _ _ Hrp) Hh Hnew Ht Hs1 Ho) as (p2 & Hrun & Hrp2 & Hslots).
  exists p2. split; [done|]. split; [lia|]. split; [by eapply republished_trans|]. rewrite Hslots. split.
  - intros row h' target' Hrow Hh' Ht'. rewrite (published_lookup p1 _ s target Hs1). destruct (decide (row = n)) as [->|Hne].
    + rewrite Hh in Hh'. injection Hh' as <-. rewrite Ht in Ht'. injection Ht' as <-. by rewrite decide_True, Hs.
    + rewrite decide_False; [apply Hdone with row; try done; lia|]. intros Heq. apply Hfresh. rewrite <- Heq. apply list_elem_of_fmap_2.
      apply (list_elem_of_lookup_2 _ row). rewrite lookup_take_lt by lia. done.
  - intros i Hi. rewrite Nat.add_1_r, (take_S_r _ _ _ Hh), fmap_app, not_elem_of_app in Hi. destruct Hi as [Hi Hne].
    rewrite (published_lookup p1 _ s target Hs1), decide_False by (intros ->; apply Hne; by left). by apply Hrest.
Qed.

(** ** What requests see afterwards *)

Record committed_step p0 p1 st p : Prop := mk_committed_step
  { cm_ok : pool_ok p;
    cm_config : config p = config p0;
    cm_free : forall i s, slots p !! i = Some s -> ownership s <> SlotReserved;
    cm_rows : forall row h t spec, handles st !! row = Some h -> tensors (config p0) !! t = Some spec ->
      visible p (handle_request_id h) t = published (config p1) (slots p1) st (memory (device p1)) t spec row;
    cm_tokens : forall row h, handles st !! row = Some h -> visible_tokens p (handle_request_id h) = target_tokens st !! row;
    cm_others : forall id, id ∉ batch st -> visible_tokens p id = visible_tokens p0 id /\ forall t, visible p id t = visible p0 id t;
    cm_static : forall l, static l -> settled p l = settled p0 l }.

Section seen.
Context p r st p' (Hp : pool_ok p) (H : live p r st) (Hrp : republished p p') (Hrows : published_rows p st (length (handles st)) (slots p')).

Lemma published_row_slot row h : handles st !! row = Some h ->
  exists s target, slots p !! handle_slot h = Some s /\ target_tokens st !! row = Some target /\
    Find (committed_index p') (handle_request_id h) = Some (handle_slot h) /\ slots p' !! handle_slot h = Some (published_slot target s).
Proof using H Hrp Hrows.
  intros Hh. apply lookup_lt_Some in Hh as Hlt. destruct (lv_row _ _ _ H row h Hh) as (s & new & Hs & _ & _ & Hid & _).
  destruct (lookup_lt_is_Some_2 (target_tokens st) row) as [target Ht]; [destruct (lv_lengths _ _ _ H); lia|].
  exists s, target. pose proof (proj1 Hrows row h target Hlt Hh Ht) as Hs'. rewrite Hs in Hs'. split_and!; try done.
  apply (Find_owner _ _ _ (rp_ok _ _ Hrp)). by exists (published_slot target s).
Qed.

Lemma published_free i s : slots p' !! i = Some s -> ownership s <> SlotReserved.
Proof using H Hrp Hrows.
  intros Hs Ho. destruct (decide (i ∈ handle_slot <$> handles st)) as [(h & -> & [row Hh]%list_elem_of_lookup)%list_elem_of_fmap|Hno].
  - destruct (published_row_slot row h Hh) as (s0 & target & _ & _ & _ & Hs'). rewrite Hs in Hs'. by injection Hs' as ->.
  - destruct Hrows as [_ Hout]. rewrite firstn_all in Hout. rewrite Hout in Hs by done. by apply Hno, (lv_reserved _ _ _ H i s).
Qed.

(** Other requests keep their slots. *)
Lemma published_other id : id ∉ batch st -> Find (committed_index p') id = Find (committed_index p) id /\
  forall i, Find (committed_index p) id = Some i -> slots p' !! i = slots p !! i.
Proof using Hp H Hrp Hrows.
  intros Hid. destruct Hrows as [_ Hout]. rewrite firstn_all in Hout.
  assert (forall i s, i ∈ handle_slot <$> handles st -> slots p !! i = Some s \/ slots p' !! i = Some s -> slot_request_id s <> id) as Hb.
  { intros i s (h & -> & [row Hh]%list_elem_of_lookup)%list_elem_of_fmap Hs <-. apply Hid. destruct (lv_row _ _ _ H row h Hh) as (s1 & _ & Hs1 & _ & _ & Hi & _).
    destruct (published_row_slot row h Hh) as (s2 & target & Hs2 & _ & _ & Hs'). rewrite Hs1 in Hs2. injection Hs2 as <-.
    assert (slot_request_id s = handle_request_id h) as ->; [|apply list_elem_of_fmap_2; by eapply list_elem_of_lookup_2].
    destruct Hs as [Hs|Hs]; [congruence|]. rewrite Hs in Hs'. injection Hs' as ->. done. }
  assert (forall i, owns (slots p') id i <-> owns (slots p) id i) as Howns.
  { intros i. destruct (decide (i ∈ handle_slot <$> handles st)) as [Hin|Hno]; [|unfold owns; by rewrite Hout].
    split; intros (s & Hs & _ & Hi); exfalso; (eapply (Hb i s); [done| |done]); auto. }
  split.
  - apply option_eq. intros i. rewrite (Find_owner _ _ _ (rp_ok _ _ Hrp)), (Find_owner _ _ _ Hp). apply Howns.
  - intros i (s & Hs & _ & Hi)%(Find_owner _ _ _ Hp). apply Hout. intros Hin. by apply (Hb i s Hin); [left|].
Qed.
End seen.

Lemma published_step p0 p1 r st p p' : prepared p0 p1 r st p -> config p1 = config p0 -> republished p p' ->
  published_rows p st (length (handles st)) (slots p') -> committed_step p0 p1 st p'.
Proof.
  intros Hpr Hc1 Hrp Hrows. pose proof (pr_during _ _ _ _ _ Hpr) as Hdu. pose proof (du_ok _ _ _ _ Hdu) as Hp. pose proof (du_live _ _ _ _ Hdu) as Hlv.
  assert (settled p' = settled p) as Hset by (unfold settled; by rewrite (rp_deferred _ _ Hrp), (rp_device _ _ Hrp)).
  assert (config p' = config p0) as Hc by (rewrite (rp_config _ _ Hrp); apply Hdu). split; try done; [apply Hrp|by eapply published_free| | | |intros l Hl; rewrite Hset; by apply (du_static _ _ _ _ Hdu)].
  - intros row h t spec Hh Ht. destruct (published_row_slot p r st p' Hlv Hrp Hrows row h Hh) as (s & target & Hs & _ & Hf & Hs').
    rewrite (pr_rows _ _ _ _ _ Hpr t spec row) by (rewrite ?(du_config _ _ _ _ Hdu); first [exact Ht | by eapply lookup_lt_Some]).
    unfold visible. rewrite Hf. cbn. rewrite Hs'. cbn. rewrite Hc, Ht, Hset. cbn. do 2 f_equal. unfold target_at, next_bank, slot_of.
    rewrite <- (pr_slots _ _ _ _ _ Hpr), Hh. cbn. by rewrite Hs.
  - intros row h Hh. destruct (published_row_slot p r st p' Hlv Hrp Hrows row h Hh) as (s & target & Hs & Ht & Hf & Hs').
    unfold visible_tokens. rewrite Hf. cbn. by rewrite Hs', Ht.
  - intros id Hid. destruct (published_other p r st p' Hp Hlv Hrp Hrows id Hid) as [Hf Hsl]. split.
    + rewrite <- (du_tokens _ _ _ _ Hdu). unfold visible_tokens. rewrite Hf. destruct (Find (committed_index p) id) as [i|] eqn:Hi; [|done]. cbn. by rewrite Hsl.
    + intros t. rewrite <- (du_visible _ _ _ _ Hdu) by (intros Hin; by destruct Hid). unfold visible. rewrite Hf, Hset, (rp_config _ _ Hrp).
      destruct (Find (committed_index p) id) as [i|] eqn:Hi; [|done]. cbn. by rewrite Hsl.
Qed.

(** ** The whole commit *)

Lemma Commit_run p0 r st p : during p0 r st p -> tensors_ok (config p) -> deferred_replay p = [] ->
  match Commit (p, r) with
  | (Ok _, (p', r')) => r' = with_state Committed r /\ committed_step p0 p st p' /\ active_reservation_id p' = reservation_id r /\
      healthy p' = true /\ monotone p st
  | (Throw _, (p', r')) => p' = p /\ r' = r \/ closed p0 st p' /\ active_reservation_id p' = reservation_id r /\ r' = with_state Failed r
  | _ => False end.
Proof.
  intros Hdu Htok Hdef. unfold Commit, ValidateCommit. rewrite bind_bind, gets_bind. unfold Datatypes.id. cbn [snd]. rewrite bind_bind.
  destruct (negb _ || negb _); [by left|]. rewrite (throw_if_false _ _ _ _ eq_refl).
  pose proof (pool_ValidateCommit_run p r st (du_live _ _ _ _ Hdu)) as Hval. unfold mbind at 1, M_bind at 1, on_pool at 1. cbn [fst snd].
  destruct (pool_ValidateCommit r p) as [[u|e| |] p1]; try done; [|left; by subst]. destruct Hval as (-> & Hh & Hmono).
  pose proof (PrepareCommit_run p0 r st p Hdu Htok Hdef) as Hprep. unfold mbind at 1, M_bind at 1.
  destruct (PrepareCommit (p, r)) as [[u'|e| |] [p1 r1]]; try done. destruct Hprep as (-> & Hpr & Hh1).
  unfold PublishCommit. rewrite gets_bind. unfold Datatypes.id. pose proof (du_live _ _ _ _ (pr_during _ _ _ _ _ Hpr)) as Hlv. cbn [snd].
  rewrite (lv_attached _ _ _ Hlv). cbn [with_state reservation_state negb orb]. rewrite bool_decide_true by done. cbn [negb].
  rewrite (lv_storage _ _ _ Hlv). destruct (publish_rows_run p1 _ st (du_ok _ _ _ _ (pr_during _ _ _ _ _ Hpr)) Hlv) as (p2 & Hrun & Hrp & Hrows).
  rewrite (on_pool_bind _ _ _ _ _ _ Hrun). split; [done|]. split; [by eapply published_step; [done|apply Hdu|..]|].
  cbn [fst]. rewrite (rp_active _ _ Hrp), (rp_healthy _ _ Hrp), Hh1, Hh. split; [|done]. symmetry. apply Hlv.
Qed.
End publish.
