(* ===== verification/FixedStateTransaction.v ===== *)
(** * The fixed-state transaction

    One model step over the fixed decoder state: [Reserve], the model writes its output
    bindings, [CommitPrefix] keeps the accepted part of a row, [Commit], and the destructor of
    the reservation, which runs whether the step succeeded or not. *)

From S2P Require Import Prelude RequestIndex EngineInvariants StateManifest StateManifestProofs FixedStateSpec FixedStatePool FixedStateDevice FixedStateReserve FixedStateCommit FixedStateStep FixedStateClose FixedStatePublish.

Open Scope nat_scope.

Section transaction.
Context {V : Type} `{!DeviceInterface V, !DeviceLaws V}.
Implicit Types (p : FixedStatePool V) (st : Storage) (r : FixedStateReservation) (keeps : list (nat * (nat * nat))).

(** ** Keeping prefixes *)

(** For some rows, the tokens of the step and how many of them are kept. *)
Definition keep_rows keeps : M (FixedStatePool V * FixedStateReservation) FixedStateError unit :=
  for_each (fun k => CommitPrefix k.1 k.2.1 k.2.2) keeps.

Definition kept_storage keeps st : Storage := foldl (fun st k => keep_prefix k.1 k.2.1 k.2.2 st) st keeps.

Lemma kept_storage_handles keeps : forall st, handles (kept_storage keeps st) = handles st.
Proof. induction keeps as [|[row [step kept]] keeps IH]; intros st; [done|]. apply (IH (keep_prefix row step kept st)). Qed.

Lemma keep_rows_run p0 p keeps : forall r st, during p0 r st p ->
  match keep_rows keeps (p, r) with
  | (Ok _, w) => w = (p, with_storage (kept_storage keeps st) r) /\ during p0 (with_storage (kept_storage keeps st) r) (kept_storage keeps st) p /\
      NoDup keeps.*1 /\ (forall row, row ∈ keeps.*1 -> commit_kept_tokens st !! row = Some 0)
  | (Throw _, w) => exists st', w = (p, with_storage st' r) /\ during p0 (with_storage st' r) st' p /\ handles st' = handles st
  | _ => False end.
Proof.
  induction keeps as [|[row [step kept]] keeps IH]; intros r st Hdu.
  - assert (with_storage st r = r) as Hr. { destruct r. pose proof (lv_storage _ _ _ (du_live _ _ _ _ Hdu)) as H. cbn in H. by subst. }
    cbn. rewrite Hr. split; [done|]. split; [done|]. split; [constructor|]. intros row Hin. by apply elem_of_nil in Hin.
  - unfold keep_rows. cbn [for_each]. pose proof (CommitPrefix_run p r st row step kept (du_live _ _ _ _ Hdu)) as Hrun.
    unfold mbind, M_bind. cbn [fst snd]. destruct (CommitPrefix row step kept (p, r)) as [[u|e| |] w]; try done.
    + destruct Hrun as (-> & Hrow & Hk & Hcap & _ & H0 & _). set (st1 := keep_prefix row step kept st).
      specialize (IH (with_storage st1 r) st1 (keep_prefix_during p0 r st p row step kept Hdu Hcap)). fold (keep_rows keeps).
      destruct (keep_rows keeps _) as [[u'|e| |] w]; try done.
      destruct IH as (-> & Hdu' & Hnd & Hz). split; [done|]. split; [done|].
      assert (row ∉ keeps.*1) as Hfresh.
      { intros Hin. specialize (Hz row Hin). cbn in Hz. rewrite list_lookup_insert_eq in Hz by (by eapply lookup_lt_Some). injection Hz as ->. lia. }
      split; [by constructor|]. intros row' [->|Hin]%elem_of_cons; [done|]. specialize (Hz row' Hin). cbn in Hz.
      rewrite list_lookup_insert_ne in Hz; [done|]. by intros ->.
    + subst w. exists st. assert (with_storage st r = r) as ->; [|done]. destruct r. pose proof (lv_storage _ _ _ (du_live _ _ _ _ Hdu)) as H. cbn in H. by subst.
Qed.

(** The tokens a row gives up. *)
Definition rejected keeps (row : nat) : nat :=
  match List.find (fun k => k.1 =? row) keeps with Some (_, (step, kept)) => step - kept | None => 0 end.

Lemma rejected_absent keeps row : row ∉ keeps.*1 -> rejected keeps row = 0.
Proof.
  unfold rejected. induction keeps as [|[row' k] keeps IH]; [done|]. rewrite fmap_cons, not_elem_of_cons. intros [Hne Hno]. cbn.
  destruct (Nat.eqb_spec row' row); [by subst|by apply IH].
Qed.

Lemma kept_targets keeps row : NoDup keeps.*1 -> forall st,
  target_tokens (kept_storage keeps st) !! row = (fun n => n - rejected keeps row) <$> target_tokens st !! row.
Proof.
  induction keeps as [|[row' [step kept]] keeps IH]; intros Hnd st.
  - cbn. destruct (target_tokens st !! row) as [n|]; [|done]. cbn. by rewrite Nat.sub_0_r.
  - rewrite fmap_cons in Hnd. apply NoDup_cons in Hnd as [Hno Hnd]. change (kept_storage (_ :: keeps) st) with (kept_storage keeps (keep_prefix row' step kept st)).
    rewrite IH by done. unfold rejected at 2. cbn. destruct (Nat.eqb_spec row' row) as [->|Hne].
    + rewrite list_lookup_alter_eq, rejected_absent by done. destruct (target_tokens st !! row); [|done]. cbn. by rewrite Nat.sub_0_r.
    + by rewrite list_lookup_alter_ne.
Qed.

(** ** The step *)

(** [out] is the model: what it writes, from its bindings and the memory it is run on. *)
Definition fixed_step (requests : list FixedStateReservationRequest) (out : Storage -> (loc -> V) -> loc -> V) keeps :
    M (FixedStatePool V) FixedStateError unit := fun p =>
  match Reserve requests p with
  | (Ok r, p1) =>
    match storage r with
    | Some st =>
      let '(o, w) := (_ ← keep_rows keeps; Commit) (run_model (out st (memory (device p1))) st p1, r) in
      let '(ended, w') := destroy_reservation w in
      (match ended with Ok _ => o | e => e end, w'.1)
    | None => (Undefined, p1)
    end
  | (Throw e, p1) => (Throw e, p1)
  | (Terminate, p1) => (Terminate, p1)
  | (Undefined, p1) => (Undefined, p1)
  end.

(** The destructor after the reservation has been worked on. *)
Definition after_step p0 st keeps p1 (o : outcome FixedStateError unit) (p' : FixedStatePool V) : Prop :=
  match o with
  | Ok _ => committed_step p0 p1 (kept_storage keeps st) p' /\ active_reservation_id p' = 0%N /\ healthy p' = true /\ NoDup keeps.*1
  | Throw _ => survived p0 st p'
  | _ => False
  end.

Lemma survived_batch p0 st st' p : handles st' = handles st -> survived p0 st' p -> survived p0 st p.
Proof. intros Hh []. split; try done. intros id t Hst. apply sv_visible. unfold stable, batch in *. by rewrite Hh. Qed.

Lemma destroy_committed p0 r st p1 p : attached r = true -> committed_step p0 p1 st p -> active_reservation_id p = reservation_id r ->
  reservation_id r <> 0%N -> exists p' r', destroy_reservation (p, with_state Committed r) = (Ok tt, (p', r')) /\
    committed_step p0 p1 st p' /\ active_reservation_id p' = 0%N /\ healthy p' = healthy p.
Proof.
  intros Hat [] Ha Hnz. unfold destroy_reservation. rewrite gets_bind. unfold Datatypes.id. cbn [snd with_state attached reservation_state]. rewrite Hat.
  destruct (Finish_run p (with_state Committed r)) as (p' & r' & Hrun & Hok & Hi & Hc & Hs & Hx & Hd & Hdf & Hh); try done.
  exists p', r'. split; [done|]. split; [|done].
  assert (forall id t, visible p' id t = visible p id t) as Hv by (intros; unfold visible, settled; by rewrite Hx, Hs, Hc, Hd, Hdf).
  assert (forall id, visible_tokens p' id = visible_tokens p id) as Ht by (intros; unfold visible_tokens; by rewrite Hx, Hs).
  split; try done; intros; rewrite ?Hv, ?Ht; [by rewrite Hc|rewrite Hs in *; by eapply cm_free|by apply cm_rows|by apply cm_tokens| |rewrite <- cm_static by done; unfold settled; by rewrite Hd, Hdf].
  split; [by apply cm_others|]. intros t. rewrite Hv. by apply cm_others.
Qed.

Lemma worked_step p0 r st p keeps : during p0 r st p -> reservation_state r = Reserved -> tensors_ok (config p) -> deferred_replay p = [] ->
  let '(o, w) := (_ ← keep_rows keeps; Commit) (p, r) in
  exists w', destroy_reservation w = (Ok tt, w') /\ after_step p0 st keeps p o w'.1.
Proof.
  intros Hdu Hrs Htok Hdef. pose proof (keep_rows_run p0 p keeps r st Hdu) as Hk. unfold mbind, M_bind.
  assert (forall st', handles st' = handles st -> during p0 (with_storage st' r) st' p ->
    exists w', destroy_reservation (p, with_storage st' r) = (Ok tt, w') /\ survived p0 st w'.1) as Hstop.
  { intros st' Hh Hd. destruct (destroy_unpublished p0 (with_storage st' r) st' p) as (p' & r' & Hrun & Hs); [by apply during_discardable|by left|].
    exists (p', r'). split; [done|]. by eapply survived_batch. }
  destruct (keep_rows keeps (p, r)) as [[u|e| |] w]; try done; [|destruct Hk as (st' & -> & Hd & Hh); by apply Hstop].
  destruct Hk as (-> & Hd & Hnd & _). pose proof (kept_storage_handles keeps st) as Hh. set (st' := kept_storage keeps st) in *.
  pose proof (Commit_run p0 (with_storage st' r) st' p Hd Htok Hdef) as Hc. pose proof (du_live _ _ _ _ Hd) as Hlv.
  destruct (Commit _) as [[u'|e| |] [p1 r1]]; try done.
  - destruct Hc as (-> & Hc & Ha & Hheal & _). destruct (destroy_committed p0 _ st' p p1 (lv_attached _ _ _ Hlv) Hc Ha (lv_nonzero _ _ _ Hlv)) as (p' & r' & Hrun & H1 & H2 & H3).
    exists (p', r'). split; [done|]. split; [done|]. split; [done|]. cbn [fst]. by rewrite H3.
  - destruct Hc as [[-> ->]|(Hc & Ha & ->)]; [by apply Hstop|].
    destruct (destroy_failed p0 _ st' p1 Hc (lv_attached _ _ _ Hlv) Ha (lv_nonzero _ _ _ Hlv)) as (p' & r' & Hrun & Hs).
    exists (p', r'). split; [done|]. by eapply survived_batch.
Qed.

(** The step, through its reservation. *)
Lemma fixed_step_run p requests out keeps : pool_ok p -> active_reservation_id p = 0%N -> tensors_ok (config p) ->
  match fixed_step requests out keeps p with
  | (Undefined, _) | (Terminate, _) => False
  | (o, p') => (exists r st p1, Reserve requests p = (Ok r, p1) /\ storage r = Some st /\ reserved p requests r st p1 /\
      after_step p st keeps (run_model (out st (memory (device p1))) st p1) o p') \/
    (is_ok o = false /\ kept p p')
  end.
Proof.
  intros Hp Hidle Htok. unfold fixed_step. pose proof (Reserve_run p requests Hp Hidle) as Hres.
  destruct (Reserve requests p) as [[r|e| |] p1]; try done; [|by right]. destruct Hres as [st Hres]. pose proof (rv_live _ _ _ _ _ Hres) as Hlv.
  rewrite (lv_storage _ _ _ Hlv). set (p2 := run_model _ st p1).
  assert (during p r st p2) as Hdu by (apply run_model_during; [by eapply reserved_during|by eapply rv_deferred]).
  pose proof (worked_step p r st p2 keeps Hdu (rv_state _ _ _ _ _ Hres)) as Hw.
  change (config p2) with (config p1) in Hw. rewrite (rv_config _ _ _ _ _ Hres) in Hw. specialize (Hw Htok (rv_deferred _ _ _ _ _ Hres)).
  destruct ((_ ← keep_rows keeps; Commit) (p2, r)) as [o w]. destruct Hw as (w' & -> & Ha).
  assert (exists r0 st0 p0, (Ok r, p1) = (Ok (E := FixedStateError) r0, p0) /\ storage r0 = Some st0 /\ reserved p requests r0 st0 p0 /\
    after_step p st0 keeps (run_model (out st0 (memory (device p0))) st0 p0) o w'.1) as Hex by (exists r, st, p1; rewrite (lv_storage _ _ _ Hlv); done).
  destruct o; try done; by left.
Qed.

Lemma reserved_batch p requests r st p1 keeps : reserved p requests r st p1 -> batch (kept_storage keeps st) = fr_request_id <$> requests.
Proof. intros H. unfold batch. rewrite kept_storage_handles. apply (rv_ids _ _ _ _ _ H). Qed.

Lemma reserved_handle p requests r st p1 row q : reserved p requests r st p1 -> requests !! row = Some q ->
  exists h, handles st !! row = Some h /\ handle_request_id h = fr_request_id q.
Proof.
  intros H Hq. pose proof (rv_ids _ _ _ _ _ H) as Hids. apply (f_equal (.!! row)) in Hids. rewrite !list_lookup_fmap, Hq in Hids.
  destruct (handles st !! row) as [h|]; [|done]. injection Hids as Hid. by exists h.
Qed.


(** ** The abstract step *)

(** What a pool stands for: the tokens and rows of each request, and the static rows. *)
Record FixedState : Type := mkFixedState
  { request_tokens : N -> option nat;
    request_row : N -> nat -> option V;
    static_row : loc -> V }.

Definition abstraction p : FixedState := mkFixedState (visible_tokens p) (visible p) (settled p).

(** The rows the model is given for a request. *)
Definition given (A : FixedState) (q : FixedStateReservationRequest) (t : nat) : V :=
  match request_row A (fr_request_id q) t with
  | Some v => v
  | None => static_row A (match fr_prefix_checkpoint q with Some c => mkLoc t CheckpointBank (cp_slot c) | None => mkLoc t ZeroRow 0 end)
  end.

(** A step in which the new row of each tensor is [f] of the rows the request had. *)
Record advances (n : nat) (requests : list FixedStateReservationRequest) (f : nat -> list V -> V) (A B : FixedState) : Prop := mk_advances
  { ad_tokens : forall q, q ∈ requests -> request_tokens B (fr_request_id q) = Some (fr_target_tokens q);
    ad_rows : forall q t, q ∈ requests -> t < n -> request_row B (fr_request_id q) t = Some (f t (given A q <$> seq 0 n));
    ad_others : forall id, id ∉ fr_request_id <$> requests -> request_tokens B id = request_tokens A id /\ forall t, request_row B id t = request_row A id t;
    ad_static : forall l, static l -> static_row B l = static_row A l }.

(** The model that computes each output row with [f] from the input rows at the same position
    of the batch. *)
Definition row_of st (l : loc) : nat := if uses_direct_bindings st then loc_row l - first_direct_slot st else loc_row l.
Definition input_rows (c : PoolConfig) st (m : loc -> V) (row : nat) : list V := imap (fun t spec => m (input_at st spec t row)) (tensors c).
Definition row_model (c : PoolConfig) (f : nat -> list V -> V) st (m : loc -> V) (l : loc) : V := f (loc_tensor l) (input_rows c st m (row_of st l)).

Lemma output_position st spec t row : loc_tensor (output_at st spec t row) = t /\ row_of st (output_at st spec t row) = row.
Proof. unfold output_at, row_of. destruct (uses_direct_bindings st); cbn; [|done]. split; [done|lia]. Qed.

Lemma output_written c st spec t row : tensors c !! t = Some spec -> row < length (handles st) -> output_at st spec t row ∈ output_locs c st.
Proof.
  intros Ht Hrow. apply list_elem_of_bind. exists (t, spec). split; [|by apply elem_imap_pair]. apply list_elem_of_bind. exists row.
  split; [by left|]. apply elem_of_seq. lia.
Qed.

(** Without kept prefixes every row is published whole. *)
Lemma reserved_whole p requests r st p1 spec row : reserved p requests r st p1 -> mode st spec row = Whole.
Proof.
  intros H. unfold mode, partial. destruct (rv_fresh _ _ _ _ _ H) as [-> ->]. destruct (replicate _ _ !! row) as [n|] eqn:Hn; [|done].
  apply lookup_replicate in Hn as [-> _]. done.
Qed.

Lemma input_rows_presented p requests r st p1 row q : reserved p requests r st p1 -> requests !! row = Some q ->
  input_rows (config p) st (memory (device p1)) row = given (abstraction p) q <$> seq 0 (length (tensors (config p))).
Proof.
  intros H Hq. apply list_eq. intros t. unfold input_rows. rewrite list_lookup_imap, list_lookup_fmap. destruct (tensors (config p) !! t) as [spec|] eqn:Ht.
  - rewrite lookup_seq_lt by (by eapply lookup_lt_Some). cbn. f_equal. by apply (rv_inputs _ _ _ _ _ H).
  - rewrite lookup_seq_ge by (by apply lookup_ge_None). done.
Qed.

End transaction.
