(* ===== verification/FixedStateCalls.v ===== *)
(** * Release, checkpoints and snapshots of a fixed-state pool

    The operations between transactions: releasing a request, capturing the committed state
    of a request as a checkpoint and giving checkpoints back, and the snapshot that the engine
    validates.  Then every sequence of calls on a constructed pool keeps the invariant. *)

From S2P Require Import Prelude RequestIndex EngineInvariants StateManifest StateManifestProofs FixedStateSpec FixedStatePool FixedStateDevice FixedStateReserve FixedStateCommit FixedStateStep FixedStateClose FixedStatePublish FixedStateTransaction FixedStateConstruct.

Open Scope nat_scope.

Section calls.
Context {V : Type} `{!DeviceInterface V, !DeviceLaws V}.
Implicit Types (p : FixedStatePool V).

(** ** Release *)

(** The handle names a committed slot and its current generation. *)
Definition handle_current p (h : FixedStateSlotHandle) : Prop :=
  handle_pool h = owner (config p) /\ exists s, slots p !! handle_slot h = Some s /\ ownership s = SlotCommitted /\
    slot_request_id s = handle_request_id h /\ slot_generation s = handle_generation h.

Lemma ValidateHandle_run p h : pool_ok p ->
  (handle_current p h /\ exists s, slots p !! handle_slot h = Some s /\ ValidateHandle h SlotCommitted p = (Ok s, p)) \/
  (~ handle_current p h /\ exists e, ValidateHandle h SlotCommitted p = (Throw e, p)).
Proof.
  intros Hp. unfold ValidateHandle. rewrite gets_bind. unfold Datatypes.id.
  destruct (negb (handle_pool h =? owner (config p))%N || (handle_request_id h =? 0)%N || (length (slots p) <=? handle_slot h)) eqn:Hbad.
  - right. split; [|by eexists]. intros (Ho & s & Hs & Hc & Hi & _). rewrite Ho, N.eqb_refl in Hbad. cbn in Hbad. apply orb_prop in Hbad as [Hz%N.eqb_eq|Hl%Nat.leb_le].
    + destruct (po_slot _ Hp _ _ Hs) as [_ Hok]. rewrite Hc in Hok. by destruct Hok as [Hnz _]; rewrite Hi in Hnz.
    + apply lookup_lt_Some in Hs. lia.
  - rewrite (throw_if_false _ _ _ _ eq_refl). apply orb_false_iff in Hbad as [[Ho%negb_false_iff%N.eqb_eq Hz]%orb_false_iff Hl%Nat.leb_gt].
    apply lookup_lt_is_Some in Hl as [s Hs]. rewrite (get_slot_bind _ _ _ _ Hs). destruct (_ || _) eqn:Hst.
    + right. split; [|by eexists]. intros (_ & s' & Hs' & Hc & Hi & Hg). rewrite Hs in Hs'. injection Hs' as <-. rewrite Hc, Hi, Hg, !N.eqb_refl, bool_decide_true in Hst by done. done.
    + left. rewrite (throw_if_false _ _ _ _ eq_refl). apply orb_false_iff in Hst as [[Hc%negb_false_iff%bool_decide_eq_true Hi%negb_false_iff%N.eqb_eq]%orb_false_iff Hg%negb_false_iff%N.eqb_eq].
      split; [|by exists s]. split; [done|]. by exists s.
Qed.

Section freed_slot.
Context p i s (x : RequestIndex) (Hp : pool_ok p) (Hs : slots p !! i = Some s) (Hc : ownership s = SlotCommitted).
Context (Hx : index_wf x) (Hmax : max_entries_ x = max_entries_ (committed_index p)) (Hcont : contents x = delete (slot_request_id s) (contents (committed_index p))).

Definition freed_slots : list Slot := alter freed i (slots p).

Lemma freed_lookup j : freed_slots !! j = if decide (j = i) then Some (freed s) else slots p !! j.
Proof using Hs. unfold freed_slots. case_decide; [subst; by rewrite list_lookup_alter_eq, Hs|by rewrite list_lookup_alter_ne]. Qed.

Lemma freed_owns id j : owns freed_slots id j <-> contents x !! id = Some j.
Proof using Hp Hs Hc Hcont.
  rewrite Hcont. destruct (decide (id = slot_request_id s)) as [->|Hne].
  - rewrite lookup_delete_eq. split; [|done]. intros (s1 & H1 & Hc1 & Hid). rewrite freed_lookup in H1. case_decide as Hj; [by injection H1 as <-|]. destruct Hj.
    apply (po_unique _ Hp _ _ _ _ H1 Hs); rewrite ?Hc1, ?Hc; done.
  - rewrite lookup_delete_ne by done. rewrite (po_owner _ Hp). unfold owns. setoid_rewrite freed_lookup. case_decide as Hj; [subst j|done].
    split; intros (s1 & H1 & Hc1 & Hid); [by injection H1 as <-|congruence].
Qed.

Lemma freed_ok : pool_ok (set_index x (set_slots freed_slots p)).
Proof using Hp Hs Hc Hx Hmax Hcont.
  split; cbn; try apply Hp; try done.
  - unfold freed_slots. rewrite length_alter. apply Hp.
  - rewrite Hmax. apply Hp.
  - intros id j. by rewrite freed_owns.
  - intros j s1 H1. rewrite freed_lookup in H1. case_decide; [|by apply (po_slot _ Hp j)]. injection H1 as <-. destruct (po_slot _ Hp _ _ Hs) as [Hg _]. by split.
  - intros a b s1 s2 H1 H2 N1 N2 Hid. rewrite freed_lookup in H1, H2. repeat case_decide; subst; try done; try (by injection H1 as <-); try (by injection H2 as <-).
    by apply (po_unique _ Hp _ _ _ _ H1 H2).
Qed.

Lemma freed_sees id : id <> slot_request_id s -> Find x id = Find (committed_index p) id /\ forall j, Find (committed_index p) id = Some j -> freed_slots !! j = slots p !! j.
Proof using Hp Hs Hc Hx Hmax Hcont.
  intros Hne. split.
  - rewrite (Find_contents _ _ Hx), (Find_contents _ _ (po_index _ Hp)), Hcont. by rewrite lookup_delete_ne.
  - intros j (s1 & H1 & _ & Hid)%(Find_owner _ _ _ Hp). rewrite freed_lookup, decide_False; [done|]. intros ->. congruence.
Qed.
End freed_slot.

Lemma Release_run p h : pool_ok p -> active_reservation_id p = 0%N ->
  match Release h p with
  | (Ok _, p') => handle_current p h /\ pool_ok p' /\ active_reservation_id p' = 0%N /\ config p' = config p /\ device p' = device p /\
      deferred_replay p' = deferred_replay p /\ healthy p' = healthy p /\ visible_tokens p' (handle_request_id h) = None /\
      (forall id, id <> handle_request_id h -> visible_tokens p' id = visible_tokens p id /\ forall t, visible p' id t = visible p id t) /\
      exists s, slots p !! handle_slot h = Some s /\ slots p' !! handle_slot h = Some (freed s)
  | (Throw _, p') => p' = p /\ ~ handle_current p h
  | _ => False end.
Proof.
  intros Hp Hidle. unfold Release, ValidateRelease. rewrite !bind_bind, EnsureIdle_bind, Hidle. cbn [N.eqb].
  destruct (ValidateHandle_run p h Hp) as [(Hcur & s & Hs & Hrun)|(Hno & e & Hrun)]; rewrite bind_bind; [|by rewrite (bind_throw _ _ _ _ _ Hrun)].
  rewrite (bind_ok _ _ _ _ _ Hrun), ret_bind. unfold ReleaseValidated. rewrite gets_bind. unfold Datatypes.id. destruct Hcur as (Ho & s' & Hs' & Hc & Hi & Hg). rewrite Hs in Hs'. injection Hs' as <-.
  rewrite Hidle, Ho, !N.eqb_refl. destruct (Nat.leb_spec (length (slots p)) (handle_slot h)) as [Hle|_]; [apply lookup_lt_Some in Hs; lia|]. cbn [negb orb N.eqb].
  rewrite (get_slot_bind _ _ _ _ Hs), Hc, Hi, Hg, !N.eqb_refl, bool_decide_true by done. cbn [negb orb].
  rewrite (bind_ok _ _ _ _ _ (update_slot_run p (handle_slot h) freed (mk_is_Some _ _ Hs))). unfold erase_index.
  change (committed_index (set_slots ?ss p)) with (committed_index p).
  assert (contents (committed_index p) !! handle_request_id h = Some (handle_slot h)) as Hcx by (apply (po_owner _ Hp); by exists s).
  destruct (erase_present (committed_index p) (handle_request_id h) (handle_slot h) (po_index _ Hp) Hcx) as (x & -> & Hwf & Hcont & Hmax).
  rewrite <- Hi in Hcont. pose proof (freed_ok p (handle_slot h) s x Hp Hs Hc Hwf Hmax Hcont) as Hok. split; [split; [done|by exists s]|]. split_and!; try done.
  - unfold visible_tokens. cbn. rewrite (Find_contents _ _ Hwf), Hcont, Hi. by rewrite lookup_delete_eq.
  - rewrite <- Hi. intros id Hid. destruct (freed_sees p (handle_slot h) s x Hp Hs Hc Hwf Hmax Hcont id Hid) as [Hf Hsl]. unfold visible_tokens, visible. cbn. rewrite Hf.
    destruct (Find (committed_index p) id) as [j|] eqn:Hj; [|done]. cbn. unfold freed_slots in Hsl. by rewrite Hsl.
  - exists s. split; [done|]. cbn. by rewrite list_lookup_alter_eq, Hs.
Qed.

(** ** Capturing a checkpoint *)

Definition set_checkpoints (cs : list PrefixCheckpointSlot) p : FixedStatePool V := p <| prefix_checkpoints := cs |>.

Lemma pool_ok_checkpoints cs p : pool_ok p -> (forall i c, cs !! i = Some c -> (checkpoint_generation c < two64)%N) -> pool_ok (set_checkpoints cs p).
Proof. intros [] H. by split. Qed.

Definition capture_copies p (i slot : nat) (bank : bool) : list (loc * loc) :=
  imap pair (tensors (config p)) ≫= fun ts => [(mkLoc ts.1 CheckpointBank i, bank_loc ts.2 ts.1 bank slot)].

Lemma elem_capture_copies p i slot bank dst src : (dst, src) ∈ capture_copies p i slot bank <->
  exists t spec, tensors (config p) !! t = Some spec /\ dst = mkLoc t CheckpointBank i /\ src = bank_loc spec t bank slot.
Proof.
  unfold capture_copies. rewrite list_elem_of_bind. split.
  - intros ([t spec] & [= -> ->]%list_elem_of_singleton & Ht%elem_imap_pair). by exists t, spec.
  - intros (t & spec & Ht & -> & ->). exists (t, spec). split; [by left|by apply elem_imap_pair].
Qed.

(** The row of a checkpoint. *)
Definition checkpoint_row (i : nat) (l : loc) : Prop := loc_buffer l = CheckpointBank /\ loc_row l = i.

Lemma capture_other p i slot bank l : ~ checkpoint_row i l -> l ∉ (capture_copies p i slot bank).*1.
Proof. intros Hl ([dst src] & -> & (t & spec & _ & -> & _)%elem_capture_copies)%list_elem_of_fmap. by apply Hl. Qed.

Lemma capture_rows_run p i slot bank :
  match capture_rows i slot bank p with
  | (Ok _, p') => settled_run p (capture_copies p i slot bank) p'
  | (Throw _, p') => failed_with p (capture_copies p i slot bank) p'
  | _ => False end.
Proof.
  unfold capture_rows. set (m := (_ ← for_each _ _; Synchronize) : M (FixedStatePool V) FixedStateError unit).
  assert (match m p with (Ok _, p') => settled_run p (capture_copies p i slot bank) p' | (Throw _, p') => broke p (capture_copies p i slot bank) p' | _ => False end) as Hm.
  { apply (dev_sync p _ _ tt). apply dev_for_each. intros p' cs [t spec] _ _. apply dev_copy. }
  apply (guarded_dev m p p (capture_copies p i slot bank) (fun _ => settled_run p (capture_copies p i slot bank))) in Hm.
  destruct (guarded fail_pool m p) as [[u|e| |] p']; done.
Qed.

(** Each destination receives the visible row. *)
Lemma captured_row p i slot bank (m : loc -> V) t spec : tensors (config p) !! t = Some spec ->
  run_copies (capture_copies p i slot bank) m (mkLoc t CheckpointBank i) = m (bank_loc spec t bank slot).
Proof.
  intros Ht. apply run_copies_hit; [| |apply elem_capture_copies; by exists t, spec].
  - intros [dst src] (t' & spec' & _ & -> & ->)%elem_capture_copies. apply capture_other. by intros [? _].
  - intros dst s1 s2 (t1 & spec1 & H1 & -> & ->)%elem_capture_copies (t2 & spec2 & H2 & Heq & ->)%elem_capture_copies. injection Heq as ->. congruence.
Qed.

(** The state a capture copies from: the replays have run and requests see what they saw. *)
Record settled_for p0 p : Prop := mk_settled_for
  { st_ok : pool_ok p;
    st_config : config p = config p0;
    st_active : active_reservation_id p = active_reservation_id p0;
    st_index : committed_index p = committed_index p0;
    st_slots : slots p = slots p0;
    st_deferred : deferred_replay p = [];
    st_memory : memory (device p) = settled p0;
    st_flight : in_flight (device p) = at_risk p0 }.

Lemma settled_for_sees p0 p : settled_for p0 p -> (forall id t, visible p id t = visible p0 id t) /\ (forall id, visible_tokens p id = visible_tokens p0 id) /\
  (forall id t, row_at p id t = row_at p0 id t) /\ settled p = settled p0.
Proof.
  intros []. assert (settled p = settled p0) as Hset by (unfold settled at 1; by rewrite st_deferred0, st_memory0). split_and!; [..|done]; intros; unfold visible, visible_tokens, row_at; by rewrite ?Hset, st_index0, st_slots0, ?st_config0.
Qed.

Lemma settled_for_checkpoints p0 p cs : settled_for p0 p -> (forall i c, cs !! i = Some c -> (checkpoint_generation c < two64)%N) -> settled_for p0 (set_checkpoints cs p).
Proof. intros [] H. split; try done. by apply pool_ok_checkpoints. Qed.

Lemma flush_settled p : pool_ok p -> match FlushDeferredReplay p with
  | (Ok _, p') => settled_for p p' /\ prefix_checkpoints p' = prefix_checkpoints p
  | (Throw _, p') => kept p p'
  | _ => False end.
Proof.
  intros Hp. pose proof (Flush_run p) as Hf. destruct (FlushDeferredReplay p) as [[u|e| |] p1]; try done; destruct Hf as (d & -> & Hf).
  - destruct Hf as [Hm Hr]. split; [|done]. split; try done. apply (pool_ok_host p); try done; [apply same_owners_refl|apply (po_views _ Hp)].
  - by apply kept_flush.
Qed.

(** What a failed capture leaves: as [kept], except for the row it was writing. *)
Record capture_kept p0 (i : nat) p : Prop := mk_capture_kept
  { ct_ok : pool_ok p;
    ct_config : config p = config p0;
    ct_active : active_reservation_id p = active_reservation_id p0;
    ct_tokens : forall id, visible_tokens p id = visible_tokens p0 id;
    ct_visible : forall id t, (forall l, row_at p0 id t = Some l -> l ∉ at_risk p0) -> visible p id t = visible p0 id t;
    ct_static : forall l, static l -> ~ checkpoint_row i l -> l ∉ at_risk p0 -> settled p l = settled p0 l }.

Lemma kept_capture p0 i p : kept p0 p -> capture_kept p0 i p.
Proof. intros []. split; try done. intros l Hl _. by apply kp_static. Qed.

Lemma settled_for_capture p0 i p : settled_for p0 p -> capture_kept p0 i p.
Proof.
  intros H. destruct (settled_for_sees _ _ H) as (Hv & Ht & _ & Hset). destruct H. split; try done. intros l _ _ _. by rewrite Hset.
Qed.

Record captured p0 (id : N) (cp : FixedStatePrefixCheckpoint) p : Prop := mk_captured
  { cd_ok : pool_ok p;
    cd_config : config p = config p0;
    cd_active : active_reservation_id p = active_reservation_id p0;
    cd_visible : forall id' t, visible p id' t = visible p0 id' t;
    cd_tokens : forall id', visible_tokens p id' = visible_tokens p0 id';
    cd_count : visible_tokens p0 id = Some (TokenCount cp);
    cd_row : forall t spec, tensors (config p0) !! t = Some spec -> visible p0 id t = Some (settled p (mkLoc t CheckpointBank (cp_slot cp)));
    cd_static : forall l, static l -> ~ checkpoint_row (cp_slot cp) l -> settled p l = settled p0 l;
    cd_handle : cp_pool cp = owner (config p0) /\ prefix_checkpoints p !! cp_slot cp = Some (mkCheckpointSlot (cp_generation cp) (TokenCount cp) true) }.

Lemma capture_failed p0 p p' i slot bank : settled_for p0 p -> failed_with p (capture_copies p i slot bank) p' -> capture_kept p0 i p'.
Proof.
  intros H (d & -> & Hd). destruct (settled_for_sees _ _ H) as (Hv & Ht & Hrow & Hset). pose proof (st_deferred _ _ H) as Hdf.
  assert (forall l, ~ checkpoint_row i l -> l ∉ at_risk p0 -> settled (set_device d p <| healthy := false |>) l = settled p0 l) as Hl.
  { intros l Hno Hr. rewrite <- Hset. unfold settled. cbn. rewrite Hdf. cbn. apply Hd; [by rewrite (st_flight _ _ H)|by apply capture_other]. }
  split; [|apply H|apply H|done| |by intros l _; apply Hl].
  - apply (pool_ok_host p); try done; [apply H|apply same_owners_refl|apply (po_views _ (st_ok _ _ H))].
  - intros id t Hsafe. rewrite !visible_row_at. change (row_at (set_device d p <| healthy := false |>) id t) with (row_at p id t). rewrite Hrow.
    destruct (row_at p0 id t) as [l|] eqn:Hl0; [|done]. cbn. f_equal. apply Hl; [|by apply Hsafe]. rewrite <- Hrow in Hl0.
    apply (row_at_inv _ _ _ _ (st_ok _ _ H)) in Hl0 as (j & s & spec & _ & _ & _ & _ & _ & ->). by intros [? _].
Qed.

Lemma capture_finish_run p0 p committed i gen c id s : settled_for p0 p -> prefix_checkpoints p !! i = Some c -> (gen < two64)%N ->
  Find (committed_index p) id = Some (handle_slot (state_handle committed)) -> slots p !! handle_slot (state_handle committed) = Some s ->
  state_committed_tokens committed = committed_tokens s ->
  match capture_finish committed (active_bank s) i gen p with
  | (Ok cp, p') => captured p0 id cp p' /\ cp_slot cp = i /\ cp_generation cp = gen
  | (Throw _, p') => capture_kept p0 i p'
  | _ => False end.
Proof.
  intros H Hc Hgen Hf Hs Htok. destruct (settled_for_sees _ _ H) as (Hv & Ht & Hrow & Hset). pose proof (st_deferred _ _ H) as Hdf. unfold capture_finish, get_checkpoint. rewrite bind_bind, gets_bind. unfold Datatypes.id.
  rewrite Hc, ret_bind. destruct (occupied c); [by apply settled_for_capture|]. rewrite (throw_if_false _ _ _ _ eq_refl).
  pose proof (capture_rows_run p i (handle_slot (state_handle committed)) (active_bank s)) as Hrun. unfold mbind at 1, M_bind at 1.
  destruct (capture_rows i _ _ p) as [[u|e| |] p1]; try done; [|by eapply capture_failed]. destruct Hrun as [fs ->]. rewrite modify_bind, gets_bind. unfold Datatypes.id.
  set (d := mkDevice _ _ _). set (cs := <[i := _]> _). change (set_checkpoints cs (set_device d p)) with (set_checkpoints cs (set_device d p)).
  assert (forall l, ~ checkpoint_row i l -> settled (set_checkpoints cs (set_device d p)) l = settled p0 l) as Hl.
  { intros l Hno. rewrite <- Hset. unfold settled. cbn. rewrite Hdf. cbn. by apply run_copies_other, capture_other. }
  assert (forall id' t, visible (set_checkpoints cs (set_device d p)) id' t = visible p0 id' t) as Hvis.
  { intros id' t. rewrite !visible_row_at. change (row_at (set_checkpoints cs (set_device d p)) id' t) with (row_at p id' t). rewrite Hrow.
    destruct (row_at p0 id' t) as [l|] eqn:Hl0; [|done]. cbn. f_equal. apply Hl. rewrite <- Hrow in Hl0. apply (row_at_inv _ _ _ _ (st_ok _ _ H)) in Hl0 as (j & s' & spec & _ & _ & _ & _ & _ & ->). by intros [? _]. }
  split; [|done]. split; try done; try apply H.
  - apply pool_ok_checkpoints; [apply pool_ok_device, H|]. intros j c' Hj. unfold cs in Hj. destruct (decide (i = j)) as [<-|Hne].
    + cbn in Hj. rewrite list_lookup_insert_eq in Hj by (by eapply lookup_lt_Some). by injection Hj as <-.
    + cbn in Hj. rewrite list_lookup_insert_ne in Hj by done. by apply (po_checkpoints _ (st_ok _ _ H) j).
  - cbn. rewrite <- Ht, Htok. unfold visible_tokens. rewrite Hf. cbn. by rewrite Hs.
  - intros t spec Hsp. rewrite <- Hv. unfold visible. rewrite Hf. cbn. rewrite Hs. cbn. rewrite (st_config _ _ H), Hsp. cbn. f_equal. unfold settled. cbn. rewrite Hdf. cbn.
    symmetry. apply captured_row. by rewrite (st_config _ _ H).
  - intros l _. apply Hl.
  - split; [cbn; by rewrite (st_config _ _ H)|]. unfold cs. cbn. by rewrite list_lookup_insert_eq by (by eapply lookup_lt_Some).
Qed.

Lemma ValidatePrefixCheckpoint_run p c : match ValidatePrefixCheckpoint c p with
  | (Ok _, p') => p' = p /\ exists s, prefix_checkpoints p !! cp_slot c = Some s /\ checkpoint_generation s = cp_generation c
  | (Throw _, p') => p' = p
  | _ => False end.
Proof.
  unfold ValidatePrefixCheckpoint. rewrite gets_bind. unfold Datatypes.id. destruct (negb _ || _) eqn:Hb; [done|]. rewrite (throw_if_false _ _ _ _ eq_refl).
  apply orb_false_iff in Hb as [_ Hl%Nat.leb_gt]. apply lookup_lt_is_Some in Hl as [s Hs]. rewrite Hs. unfold throw_if. destruct (_ || _) eqn:Hg; [done|].
  cbn. split; [done|]. exists s. split; [done|]. apply orb_false_iff in Hg as [[_ Hg]%orb_false_iff _]. by apply negb_false_iff, N.eqb_eq in Hg.
Qed.

Lemma checkpoint_target_run p replacement can : match checkpoint_target replacement can p with
  | (Ok (Some i), p') => p' = p /\ exists c, prefix_checkpoints p !! i = Some c /\ (occupied c = true -> can = true)
  | (Ok None, p') => p' = p
  | (Throw _, p') => p' = p
  | _ => False end.
Proof.
  unfold checkpoint_target. rewrite gets_bind. unfold Datatypes.id. destruct (find_vacant (prefix_checkpoints p)) as [i|] eqn:Hv.
  - split; [done|]. unfold find_vacant in Hv. apply fmap_Some in Hv as ([j c] & (Hc & Ho & _)%list_find_Some & ->). exists c. split; [done|]. by rewrite Ho.
  - destruct replacement as [c|]; [|done]. destruct can; [|done]. cbn [negb]. rewrite (throw_if_false _ _ _ _ eq_refl). pose proof (ValidatePrefixCheckpoint_run p c) as H.
    unfold mbind, M_bind. destruct (ValidatePrefixCheckpoint c p) as [[u|e| |] p1]; try done. destruct H as (-> & s & Hs & _). split; [done|]. by exists s.
Qed.

Lemma capture_select_run p id replacement can : pool_ok p -> match capture_select id replacement can p with
  | (Ok (Some (committed, i)), p') => settled_for p p' /\ prefix_checkpoints p' = prefix_checkpoints p /\
      Find (committed_index p') id = Some (handle_slot (state_handle committed)) /\
      (exists s, slots p' !! handle_slot (state_handle committed) = Some s /\ state_committed_tokens committed = committed_tokens s) /\
      exists c, prefix_checkpoints p' !! i = Some c /\ checkpoint_generation c <> u64_max /\ (occupied c = true -> can = true)
  | (Ok None, p') => settled_for p p'
  | (Throw _, p') => kept p p'
  | _ => False end.
Proof.
  intros Hp. unfold capture_select. rewrite EnsureHealthy_bind. destruct (healthy p); [|by apply kept_refl]. pose proof (flush_settled p Hp) as Hf. unfold mbind at 1, M_bind at 1.
  destruct (FlushDeferredReplay p) as [[u|e| |] p1]; try done. destruct Hf as [Hst Hcp].
  assert (kept p p1) as Hk. { pose proof (settled_for_capture p 0 p1 Hst) as []. destruct (settled_for_sees _ _ Hst) as (_ & _ & _ & Hset). split; try done. intros. by rewrite Hset. }
  unfold CommittedState. rewrite bind_bind. destruct (FindSlot_run p1 id (st_ok _ _ Hst)) as [(slot & s & Ho & Hs & Hc & Hi & Hrun)|(_ & Hrun)]; rewrite (bind_ok _ _ _ _ _ Hrun), bind_bind, gets_bind, ret_bind; [|done].
  cbn [fmap option_fmap option_map]. pose proof (checkpoint_target_run p1 replacement can) as Ht. unfold mbind at 1, M_bind at 1.
  destruct (checkpoint_target replacement can p1) as [[[i|]|e| |] p2]; try done; [|by subst|by subst]. destruct Ht as (-> & c & Hci & Hocc).
  unfold get_checkpoint. rewrite bind_bind, gets_bind. unfold Datatypes.id. rewrite Hci, ret_bind. destruct (N.eqb_spec (checkpoint_generation c) u64_max) as [|Hg]; [done|].
  rewrite (throw_if_false _ _ _ _ eq_refl). split; [done|]. split; [done|]. split; [cbn; by apply (Find_owner _ _ _ (st_ok _ _ Hst))|]. split; [by exists s|]. by exists c.
Qed.

Lemma ReleasePrefixCheckpoint_run p slot gen : exists cs, ReleasePrefixCheckpoint slot gen p = (Ok tt, set_checkpoints cs p) /\
  length cs = length (prefix_checkpoints p) /\ forall i c, cs !! i = Some c -> exists c0, prefix_checkpoints p !! i = Some c0 /\ checkpoint_generation c = checkpoint_generation c0.
Proof.
  unfold ReleasePrefixCheckpoint, modify. destruct (prefix_checkpoints p !! slot) as [c|] eqn:Hc; [destruct (_ && _)|].
  - eexists. split; [reflexivity|]. split; [apply length_insert|]. intros i c' Hi. destruct (decide (slot = i)) as [<-|Hne].
    + rewrite list_lookup_insert_eq in Hi by (by eapply lookup_lt_Some). injection Hi as <-. by exists c.
    + rewrite list_lookup_insert_ne in Hi by done. by exists c'.
  - exists (prefix_checkpoints p). split; [by destruct p|]. eauto.
  - exists (prefix_checkpoints p). split; [by destruct p|]. eauto.
Qed.

(** The callback gives one checkpoint back. *)
Definition reclaimer (r : nat * N) : M (FixedStatePool V) FixedStateError unit := ReleasePrefixCheckpoint r.1 r.2.

Lemma Capture_run p id replacement reclaim : pool_ok p ->
  match CapturePrefixCheckpoint id replacement (reclaimer <$> reclaim) p with
  | (Ok (Some cp), p') => captured p id cp p' /\ exists c, prefix_checkpoints p !! cp_slot cp = Some c /\ cp_generation cp = (checkpoint_generation c + 1)%N
  | (Ok None, p') => settled_for p p'
  | (Throw _, p') => exists i, capture_kept p i p'
  | _ => False end.
Proof.
  intros Hp. unfold CapturePrefixCheckpoint. assert (forall A (m : M (FixedStatePool V) FixedStateError A) q, in_pool m q = m q) as Hin by (intros A m q; unfold in_pool; cbn; by destruct (m q)).
  pose proof (capture_select_run p id replacement (bool_decide (is_Some (reclaimer <$> reclaim))) Hp) as Hsel. unfold mbind at 1, M_bind at 1. rewrite Hin.
  destruct (capture_select _ _ _ p) as [[[[committed i]|]|e| |] p1]; try done; [|exists 0; by apply kept_capture].
  destruct Hsel as (Hst & Hcp & Hf & (s & Hs & Htok) & c & Hc & Hg & Hocc). unfold mbind at 1, M_bind at 1. rewrite Hin. unfold get_checkpoint at 1. rewrite gets_bind. unfold Datatypes.id. rewrite Hc.
  cbn [mret M_ret]. unfold mbind at 1, M_bind at 1. rewrite Hin. unfold get_slot at 1. rewrite gets_bind. unfold Datatypes.id. rewrite Hs. cbn [mret M_ret]. pose proof (po_checkpoints _ (st_ok _ _ Hst) i c Hc) as Hlt.
  assert (forall p2 c2, settled_for p p2 -> committed_index p2 = committed_index p1 -> slots p2 = slots p1 -> prefix_checkpoints p2 !! i = Some c2 ->
    match ((Some <$> in_pool (capture_finish committed (active_bank s) i (checkpoint_generation c + 1)%N)) : M (FixedStatePool V) FixedStateError _) p2 with
    | (Ok (Some cp), p') => captured p id cp p' /\ exists c, prefix_checkpoints p !! cp_slot cp = Some c /\ cp_generation cp = (checkpoint_generation c + 1)%N
    | (Ok None, p') => settled_for p p' | (Throw _, p') => exists i, capture_kept p i p' | _ => False end) as Hfin.
  { intros p2 c2 H2 Hi2 Hs2 Hc2. unfold fmap, M_fmap, mbind, M_bind. rewrite Hin.
    pose proof (capture_finish_run p p2 committed i (checkpoint_generation c + 1)%N c2 id s H2 Hc2 ltac:(unfold u64_max in Hg; lia) ltac:(by rewrite Hi2) ltac:(by rewrite Hs2) Htok) as Hr.
    destruct (capture_finish _ _ _ _ p2) as [[cp|e| |] p3]; try done; [|by exists i]. destruct Hr as (Hcd & Hi & Hgen). split; [done|]. exists c. by rewrite Hi, <- Hcp. }
  destruct (occupied c) eqn:Ho; [|rewrite ret_bind; by apply (Hfin p1 c)]. specialize (Hocc eq_refl). apply bool_decide_eq_true in Hocc. destruct reclaim as [[slot gen]|]; [|by destruct Hocc]. cbn [fmap option_fmap option_map].
  destruct (ReleasePrefixCheckpoint_run p1 slot gen) as (cs & Hrel & Hlen & Hcs). unfold reclaimer. cbn [fst snd]. rewrite (bind_ok _ _ _ _ _ Hrel).
  destruct (lookup_lt_is_Some_2 cs i) as [c2 Hc2]; [rewrite Hlen; by eapply lookup_lt_Some|]. apply (Hfin _ c2); try done. apply settled_for_checkpoints; [done|].
  intros j cj Hj. destruct (Hcs j cj Hj) as (c0 & Hc0 & ->). by apply (po_checkpoints _ (st_ok _ _ Hst) j).
Qed.

(** ** Snapshots *)

(** A snapshot keeps owners and identities. *)
Definition same_labels (f : nat -> Slot -> FixedStateSlotSnapshot) : Prop := forall i s, fs_ownership (f i s) = ownership s /\ fs_request_id (f i s) = slot_request_id s.

Lemma count_labels o (l : list Slot) : forall f, same_labels f -> count_slots o l = count_owned o (imap f l).
Proof.
  unfold count_slots, count_owned. induction l as [|s l IH]; intros f Hf; [done|]. cbn [imap]. rewrite !filter_cons, (proj1 (Hf 0 s)).
  case_decide; cbn [length]; rewrite (IH (f ∘ S)); done || by intros i s'; apply Hf.
Qed.

Lemma owned_labels (l : list Slot) : forall f, same_labels f -> fs_request_id <$> owned_slots (imap f l) = slot_request_id <$> filter (fun s => ownership s <> SlotFree) l.
Proof.
  unfold owned_slots. induction l as [|s l IH]; intros f Hf; [done|]. cbn [imap]. rewrite !filter_cons, (proj1 (Hf 0 s)).
  case_decide; rewrite ?fmap_cons, ?(proj2 (Hf 0 s)); rewrite (IH (f ∘ S)); done || by intros i s'; apply Hf.
Qed.

(** Owners that are unique by position are unique. *)
Lemma owners_nodup (l : list Slot) : (forall i j s s', l !! i = Some s -> l !! j = Some s' -> ownership s <> SlotFree -> ownership s' <> SlotFree ->
  slot_request_id s = slot_request_id s' -> i = j) -> NoDup (slot_request_id <$> filter (fun s => ownership s <> SlotFree) l).
Proof.
  induction l as [|s l IH]; intros Hu; [constructor|]. assert (NoDup (slot_request_id <$> filter (fun s => ownership s <> SlotFree) l)) as Hl.
  { apply IH. intros i j s1 s2 H1 H2 N1 N2 Hid. specialize (Hu (S i) (S j) s1 s2 H1 H2 N1 N2 Hid). lia. }
  rewrite filter_cons. case_decide as Hf; [|done]. rewrite fmap_cons. constructor; [|done].
  intros (s' & Hid & [Hf' [j Hj]%list_elem_of_lookup]%list_elem_of_filter)%list_elem_of_fmap. by specialize (Hu 0 (S j) s s' eq_refl Hj Hf Hf' Hid).
Qed.

Lemma snapshot_lookup p i sn : fx_slots (Snapshot p) !! i = Some sn -> exists s, slots p !! i = Some s /\ sn = slot_snapshot i s.
Proof. cbn. rewrite list_lookup_imap. destruct (slots p !! i) as [s|]; [|done]. intros [= <-]. by exists s. Qed.

Lemma snapshot_consistent p : pool_ok p -> healthy p = true -> fixed_consistent (Snapshot p).
Proof.
  intros Hp Hh. split; try done; try (symmetry; by apply count_labels).
  - cbn. rewrite length_imap. apply Hp.
  - apply Forall_lookup. intros i sn (s & Hs & ->)%snapshot_lookup. cbn. rewrite <- (po_slots _ Hp). by eapply lookup_lt_Some.
  - apply NoDup_alt. intros i j x Hi Hj. rewrite list_lookup_fmap in Hi, Hj. apply fmap_Some in Hi as (si & (s & Hs & ->)%snapshot_lookup & ->), Hj as (sj & (s' & Hs' & ->)%snapshot_lookup & Heq).
    by cbn in Heq.
  - apply Forall_lookup. intros i sn (s & Hs & ->)%snapshot_lookup. cbn. intros Ho. destruct (po_slot _ Hp _ _ Hs) as [_ Hok]. rewrite Ho in Hok. by destruct Hok as (? & ? & ? & _).
  - apply Forall_forall. intros sn [Hown [i (s & Hs & ->)%snapshot_lookup]%list_elem_of_lookup]%list_elem_of_filter. cbn in *. destruct (po_slot _ Hp _ _ Hs) as [_ Hok]. destruct (ownership s); [done|by destruct Hok..].
  - cbn. rewrite owned_labels by done. apply owners_nodup, (po_unique _ Hp).
Qed.

(** ** Sequences of calls *)

Inductive FixedCall : Type :=
  | CallStep (requests : list FixedStateReservationRequest) (out : Storage -> (loc -> V) -> loc -> V) (keeps : list (nat * (nat * nat)))
  | CallRelease (h : FixedStateSlotHandle)
  | CallCapture (id : N) (replacement : option FixedStatePrefixCheckpoint) (reclaim : option (nat * N))
  | CallReleaseCheckpoint (slot : nat) (generation : N).

(** Whether a call returned or threw, and the pool it leaves. *)
Definition after {A} (m : M (FixedStatePool V) FixedStateError A) p : option (FixedStatePool V) :=
  match m p with (Ok _, p') | (Throw _, p') => Some p' | _ => None end.

Definition fixed_call (c : FixedCall) p : option (FixedStatePool V) :=
  match c with
  | CallStep requests out keeps => after (fixed_step requests out keeps) p
  | CallRelease h => after (Release h) p
  | CallCapture id replacement reclaim => after (CapturePrefixCheckpoint id replacement (reclaimer <$> reclaim)) p
  | CallReleaseCheckpoint slot generation => after (ReleasePrefixCheckpoint slot generation) p
  end.

Fixpoint fixed_calls (cs : list FixedCall) p : option (FixedStatePool V) :=
  match cs with [] => Some p | c :: cs' => p' ← fixed_call c p; fixed_calls cs' p' end.

Definition between_steps (c : PoolConfig) p : Prop := pool_ok p /\ active_reservation_id p = 0%N /\ config p = c.

Lemma fixed_call_safe c call p : tensors_ok c -> between_steps c p -> exists p', fixed_call call p = Some p' /\ between_steps c p'.
Proof.
  intros Htok (Hp & Hidle & <-). unfold fixed_call, after. destruct call as [requests out keeps|h|id replacement reclaim|slot gen].
  - pose proof (fixed_step_run p requests out keeps Hp Hidle Htok) as H. destruct (fixed_step requests out keeps p) as [[u|e| |] p']; try done; exists p'; (split; [done|]).
    + destruct H as [(r & st & p1 & _ & _ & _ & [] & Hi & _)|[[=] _]]. done.
    + destruct H as [(r & st & p1 & _ & _ & _ & [])|[_ []]]; [done|]. split; [done|]. by rewrite kp_active.
  - pose proof (Release_run p h Hp Hidle) as H. destruct (Release h p) as [[u|e| |] p']; try done; exists p'; (split; [done|]).
    + by destruct H as (_ & H1 & H2 & H3 & _).
    + destruct H as [-> _]. done.
  - pose proof (Capture_run p id replacement reclaim Hp) as H. destruct (CapturePrefixCheckpoint _ _ _ p) as [[[cp|]|e| |] p']; try done; exists p'; (split; [done|]).
    + destruct H as [[] _]. split; [done|]. by rewrite cd_active0.
    + destruct H. split; [done|]. by rewrite st_active0.
    + destruct H as [i []]. split; [done|]. by rewrite ct_active0.
  - destruct (ReleasePrefixCheckpoint_run p slot gen) as (cs & -> & _ & Hcs). eexists. split; [done|]. split; [|done]. apply pool_ok_checkpoints; [done|].
    intros i c Hi. destruct (Hcs i c Hi) as (c0 & Hc0 & ->). by apply (po_checkpoints _ Hp i).
Qed.

Lemma fixed_calls_safe c cs : tensors_ok c -> forall p, between_steps c p -> exists p', fixed_calls cs p = Some p' /\ between_steps c p'.
Proof.
  intros Htok. induction cs as [|call cs IH]; intros p Hp; [by exists p|]. cbn. destruct (fixed_call_safe c call p Htok Hp) as (p1 & -> & H1). by apply IH.
Qed.

(** C13: over every sequence of steps, releases and checkpoint calls, whatever device work fails,
    no call on a fixed-state pool reaches a termination or an out-of-range access, the pool is
    idle and its invariant holds after each of them, and while it is healthy its snapshot
    passes the engine's validation. *)
Theorem fixed_calls_invariant p cs : pool_ok p -> active_reservation_id p = 0%N -> tensors_ok (config p) ->
  exists p', fixed_calls cs p = Some p' /\ pool_ok p' /\ active_reservation_id p' = 0%N /\
    (healthy p' = true -> ValidateFixedStateInvariants (Snapshot p') = []).
Proof.
  intros Hp Hidle Htok. destruct (fixed_calls_safe (config p) cs Htok p ltac:(by split)) as (p' & Hrun & Hok & Hi & _). exists p'. split_and!; try done.
  intros Hh. by apply ValidateFixedStateInvariants_exact, snapshot_consistent.
Qed.

(** Releasing with the current handle of a request removes its state and frees its slot for
    another, leaving every other request's rows and tokens; with any other handle it throws
    and changes nothing.  A handle is current only until then: the next owner of the slot has
    another generation. *)
Theorem release_exact p h : pool_ok p -> active_reservation_id p = 0%N ->
  match Release h p with
  | (Ok _, p') => handle_current p h /\ pool_ok p' /\ visible_tokens p' (handle_request_id h) = None /\ ~ handle_current p' h /\
      (forall id, id <> handle_request_id h -> visible_tokens p' id = visible_tokens p id /\ forall t, visible p' id t = visible p id t)
  | (Throw _, p') => p' = p /\ ~ handle_current p h
  | _ => False
  end.
Proof.
  intros Hp Hidle. pose proof (Release_run p h Hp Hidle) as H. destruct (Release h p) as [[u|e| |] p']; try done.
  destruct H as (Hc & Hok & _ & _ & _ & _ & _ & Hn & Ho & s & _ & Hs). split_and!; try done. intros (_ & s' & Hs' & Hco & _). rewrite Hs in Hs'. by injection Hs' as <-.
Qed.

(** ** Checkpoints carry state *)

Definition run_steps (l : list (list FixedStateReservationRequest * (Storage -> (loc -> V) -> loc -> V) * list (nat * (nat * nat)))) :
    M (FixedStatePool V) FixedStateError unit := for_each (fun x => fixed_step x.1.1 x.1.2 x.2) l.

Lemma run_steps_static l : forall p p', between_steps (config p) p -> tensors_ok (config p) -> run_steps l p = (Ok tt, p') ->
  between_steps (config p) p' /\ forall lc, static lc -> settled p' lc = settled p lc.
Proof.
  induction l as [|[[requests out] keeps] l IH]; intros p p' Hb Htok; [by intros [= <-]|]. unfold run_steps. cbn [for_each fst snd]. intros (u & p1 & H1 & H2)%bind_inv_ok.
  pose proof (fixed_step_run p requests out keeps (proj1 Hb) (proj1 (proj2 Hb)) Htok) as Hr. rewrite H1 in Hr.
  destruct Hr as [(r & st & q & _ & _ & _ & [] & Hi & _)|[[=] _]]. specialize (IH p1 p'). rewrite cm_config in IH. destruct (IH) as [Hb' Hst]; [done|done|done|].
  split; [done|]. intros lc Hlc. rewrite (Hst lc Hlc). by apply cm_static.
Qed.

End calls.
