(* ===== verification/FixedStateBytes.v ===== *)
(** * Bytes of a reservation

    [PlannedStagingBytes], which the cache manager uses to admit a step, and the bytes a
    reservation accounts for are computed by different code; they agree. *)

From S2P Require Import Prelude RequestIndex EngineInvariants StateManifest StateManifestProofs FixedStateSpec FixedStatePool FixedStateDevice FixedStateReserve FixedStateCommit FixedStateConstruct.
From stdpp Require Import strings.

Open Scope N_scope.

(** ** Checked sizes *)

Lemma CheckedMultiply_iff a b c : CheckedMultiply a b = Ok c <-> a * b <= size_max /\ c = a * b.
Proof.
  assert (a <> 0 -> (size_max / a < b) <-> size_max < a * b) as Hdiv.
  { intros Ha. split; [|by apply N.Div0.div_lt_upper_bound]. intros Hlt. eapply N.lt_le_trans; [apply (N.mul_succ_div_gt size_max a Ha)|].
    apply N.mul_le_mono_l. lia. }
  unfold CheckedMultiply. destruct (N.eqb_spec a 0) as [->|Ha]; cbn [negb andb].
  - unfold u64_mul. rewrite !N.mul_0_l. split; [intros [= <-]; split; [apply N.le_0_l|done]|by intros [_ ->]].
  - destruct (N.ltb_spec (size_max / a) b) as [Hlt|Hge].
    + split; [done|]. intros [Hle _]. apply Hdiv in Hlt; [lia|done].
    + assert (a * b <= size_max) as Hle by (destruct (N.lt_ge_cases size_max (a * b)) as [Hx|]; [apply Hdiv in Hx; lia|done]).
      rewrite u64_mul_small by (unfold size_max, two64 in *; lia). split; [by intros [= <-]|by intros [_ ->]].
Qed.

Lemma CheckedAdd_iff a b c : a <= size_max -> CheckedAdd a b = Ok c <-> a + b <= size_max /\ c = a + b.
Proof.
  intros Ha. unfold CheckedAdd. destruct (N.ltb_spec (size_max - a) b) as [Hlt|Hge]; [split; [done|intros [H _]; lia]|].
  rewrite u64_add_small by (unfold size_max, two64 in *; lia). split; [intros [= <-]; split; [lia|done]|by intros [_ ->]].
Qed.

(** A computation whose only exception is that of the checked sizes. *)
Definition sized {A} (r : result A) : Prop := match r with Ok _ | Throw ExceedsMemory => True | _ => False end.

Lemma sized_bind {A B} (m : result A) (k : A -> result B) : sized m -> (forall a, m = Ok a -> sized (k a)) -> sized (m ≫= k).
Proof. destruct m as [a|e| |]; cbn; auto. Qed.
Lemma sized_multiply a b : sized (CheckedMultiply a b).
Proof. unfold CheckedMultiply. by destruct (_ && _). Qed.
Lemma sized_add a b : sized (CheckedAdd a b).
Proof. unfold CheckedAdd. by destruct (_ <? _). Qed.

Ltac sizes := repeat match goal with
  | |- sized (Ok _) => exact I
  | |- sized (CheckedMultiply _ _) => apply sized_multiply
  | |- sized (CheckedAdd _ _) => apply sized_add
  | |- sized (_ ≫= _) => apply sized_bind; [|intros ? _]
  | |- sized (match ?x with _ => _ end) => destruct x
  end.

(** With one exception, agreeing on success is agreeing. *)
Lemma sized_eq {A} (r r' : result A) : sized r -> sized r' -> (forall a, r = Ok a <-> r' = Ok a) -> r = r'.
Proof.
  destruct r as [a|[]| |], r' as [b|[]| |]; try done; intros _ _ H.
  - by apply H.
  - by specialize (proj1 (H a) eq_refl).
  - by specialize (proj2 (H b) eq_refl).
Qed.

(** ** One tensor *)

Section bytes.
Context (c : Contract) (rows : nat) (direct bank_two : bool) (first : nat) (captures : bool).

(** What a tensor adds to the staging bytes. *)
Definition tensor_bytes (spec : TensorSpec) (bytes : N) : result N :=
  one ← CheckedMultiply (N.of_nat rows) (row_bytes spec);
  both ← CheckedMultiply one 2;
  bytes' ← CheckedAdd bytes both;
  if captures then
    extra ← CheckedMultiply (N.of_nat rows) (state_update_row_bytes (update spec)); CheckedAdd bytes' extra
  else Ok bytes'.

(** The update outputs fit in the update row. *)
Definition update_rows_fit (spec : TensorSpec) : Prop :=
  output_spec_row_bytes (state_update_value (update spec)) <= state_update_row_bytes (update spec) /\
  output_spec_row_bytes (state_update_capsule (update spec)) <= state_update_row_bytes (update spec).

Lemma update_view_ok t b o bytes : output_spec_row_bytes o <= bytes -> (captures = true -> N.of_nat rows * bytes <= size_max) ->
  exists w, update_view captures rows t b o = Ok w.
Proof.
  intros Ho Hb. unfold update_view. destruct captures; cbn [negb orb]; [|by eexists]. case_bool_decide; [by eexists|].
  assert (CheckedMultiply (N.of_nat rows) (output_spec_row_bytes o) = Ok (N.of_nat rows * output_spec_row_bytes o)) as ->.
  { apply CheckedMultiply_iff. split; [|done]. specialize (Hb eq_refl). nia. }
  by eexists.
Qed.

Lemma add_view_bytes t spec v : update_rows_fit spec ->
  (v' ← add_view c rows direct bank_two first captures (t, spec) v; Ok (staging_bytes v')) = tensor_bytes spec (staging_bytes v).
Proof.
  intros [Hv Hc]. apply sized_eq; [unfold add_view, update_view; sizes|unfold tensor_bytes; sizes|]. intros a. unfold add_view, tensor_bytes. split.
  - intros H. apply bind_iff in H as (v' & H & [= <-]). apply bind_iff in H as (one & H1 & H). apply bind_iff in H as (val & _ & H). apply bind_iff in H as (cap & _ & H).
    apply bind_iff in H as (one' & H1' & H). apply bind_iff in H as (both & H2 & H). apply bind_iff in H as (bytes & H3 & H). apply bind_iff in H as (bytes' & H4 & H). injection H as <-.
    apply bind_iff. exists one'. split; [done|]. apply bind_iff. exists both. split; [done|]. apply bind_iff. by exists bytes.
  - intros H. apply bind_iff in H as (one & H1 & H). apply bind_iff in H as (both & H2 & H). apply bind_iff in H as (bytes & H3 & H).
    assert (captures = true -> N.of_nat rows * state_update_row_bytes (update spec) <= size_max) as Hb.
    { destruct captures; [|done]. intros _. apply bind_iff in H as (extra & Hx & _). by apply CheckedMultiply_iff in Hx as [Hx _]. }
    destruct (update_view_ok t UpdateValue _ _ Hv Hb) as [val Hval], (update_view_ok t UpdateCapsule _ _ Hc Hb) as [cap Hcap].
    rewrite H1. cbn [mbind outcome_bind]. rewrite Hval. cbn [mbind outcome_bind]. rewrite Hcap. cbn [mbind outcome_bind].
    rewrite H2. cbn [mbind outcome_bind]. rewrite H3. cbn [mbind outcome_bind]. by rewrite H.
Qed.

Lemma add_views_bytes l : Forall update_rows_fit l.*2 -> forall v,
  (v' ← fold_result (add_view c rows direct bank_two first captures) l v; Ok (staging_bytes v')) = fold_result tensor_bytes l.*2 (staging_bytes v).
Proof.
  induction l as [|[t spec] l IH]; intros Hl v; [done|]. rewrite fmap_cons in Hl. apply Forall_cons in Hl as [Hfit Hl].
  pose proof (add_view_bytes t spec v Hfit) as H1. cbn [fold_result fmap list_fmap fst snd]. rewrite <- H1.
  destruct (add_view _ _ _ _ _ _ _ _) as [v'|e| |]; try done. cbn [mbind outcome_bind]. by apply IH.
Qed.

Lemma views_bytes ts : Forall update_rows_fit ts ->
  (v ← BuildReservationViews c rows direct bank_two first captures ts; Ok (staging_bytes v)) = PlannedStagingBytes c ts rows captures.
Proof.
  intros Hts. rewrite <- (imap_pair_snd ts) in Hts. rewrite <- (imap_pair_snd ts) at 2. unfold BuildReservationViews, PlannedStagingBytes.
  assert ((v ← first_views c rows; Ok (staging_bytes v)) =
    (if negb (contract_capacity c =? 0) then
       counts ← CheckedMultiply (N.of_nat rows) 4; bytes ← CheckedAdd 0 counts;
       if negb (bool_decide (contract_active_name c = "")) then CheckedAdd bytes 4 else Ok bytes
     else Ok 0)) as Hfirst.
  { unfold first_views. destruct (negb _); [|done]. destruct (CheckedMultiply _ _); try done. cbn [mbind outcome_bind].
    destruct (CheckedAdd 0 _); try done. cbn [mbind outcome_bind]. destruct (negb _); [|done]. by destruct (CheckedAdd _ 4). }
  rewrite <- Hfirst. destruct (first_views c rows) as [v|e| |]; try done. cbn [mbind outcome_bind]. by apply add_views_bytes.
Qed.
End bytes.

(** ** The tensors of a pool *)

Lemma fold_result_inv {E A B} (I : B -> Prop) (f : A -> B -> outcome E B) l : (forall x b b', I b -> f x b = Ok b' -> I b') ->
  forall b b', I b -> fold_result f l b = Ok b' -> I b'.
Proof.
  intros Hf. induction l as [|x l IH]; intros b b' Hb; cbn; [by intros [= <-]|]. intros (b1 & H1 & H)%result_bind_ok. eapply IH; [|done]. by eapply Hf.
Qed.

Lemma load_update_output_small s l t o : load_update_output s l t = Ok o -> output_spec_row_bytes o <= size_max.
Proof.
  unfold load_update_output. destruct (bool_decide _); [by intros [= <-]|]. intros H. do 5 (apply result_bind_ok in H as (? & _ & H)).
  apply result_bind_ok in H as (bytes & [Hle ->]%CheckedMultiply_iff & H). by injection H as <-.
Qed.

Lemma update_spec_fits d s kind l i el size shape u us : update_spec d s kind l i el size shape u = Ok us ->
  output_spec_row_bytes (state_update_value us) <= state_update_row_bytes us /\ output_spec_row_bytes (state_update_capsule us) <= state_update_row_bytes us.
Proof.
  unfold update_spec. intros H. apply result_bind_ok in H as (v & Hv%load_update_output_small & H). apply result_bind_ok in H as (cap & _ & H).
  apply result_bind_ok in H as (b & [_ ->]%CheckedAdd_iff & H); [|done]. apply result_bind_ok in H as ([[[ch w] ca] ra] & _ & H).
  apply result_bind_ok in H as ([] & _ & H). apply result_bind_ok in H as ([kw kh] & _ & H). injection H as <-. cbn. lia.
Qed.

Lemma tensor_spec_fits d s is_cuda g l i t batch spec batch' : tensor_spec d s is_cuda g l i t batch = Ok (spec, batch') -> update_rows_fit spec.
Proof.
  unfold tensor_spec. intros H. do 7 (apply result_bind_ok in H as (? & _ & H)). apply reject_bind in H as [_ H]. do 2 (apply result_bind_ok in H as (? & _ & H)).
  apply result_bind_ok in H as (u & Hu & H). injection H as <- _. unfold update_rows_fit. cbn.
  destruct (group_state_update g); [by apply update_spec_fits in Hu|]. by injection Hu as <-.
Qed.

Lemma collect_fits d s is_cuda cap checkpoints groups f : collect_tensors d s is_cuda cap checkpoints groups = Ok f -> Forall update_rows_fit (specs f).
Proof.
  unfold collect_tensors. apply (fold_result_inv (fun f => Forall update_rows_fit (specs f))); [|by apply Forall_nil_2]. clear f. intros g f f' Hf.
  destruct (is_fixed (group_kind g)); [|by intros [= <-]]. intros (templates & _ & H)%result_bind_ok. revert H.
  apply (fold_result_inv (fun f => Forall update_rows_fit (specs f))); [|done]. clear f f' Hf. intros l f f' Hf.
  apply (fold_result_inv (fun f => Forall update_rows_fit (specs f))); [|done]. clear f f' Hf. intros ct f f' Hf H. unfold add_tensor in H.
  apply result_bind_ok in H as ([spec batch] & Hs%tensor_spec_fits & H). repeat (apply result_bind_ok in H as (? & _ & H)). injection H as <-. cbn.
  apply Forall_app. split; [done|]. by apply Forall_singleton.
Qed.

Section constructed.
Context {V : Type} `{!DeviceInterface V}.

Lemma constructed_fits has_model has_device decoder s owner cap checkpoints dev (p : FixedStatePool V) dev' :
  make_FixedStatePool has_model has_device decoder s owner cap checkpoints dev = (Ok p, dev') -> Forall update_rows_fit (tensors (config p)).
Proof.
  unfold make_FixedStatePool. intros H. do 7 (apply bind_inv_ok in H as (? & ? & _ & H)). apply bind_inv_ok in H as (f & ? & Hf & H). apply bind_inv_ok in H as (c & ? & Hc & H).
  do 4 (apply bind_inv_ok in H as (? & ? & _ & H)). injection H as <- _. injection Hf as Hf%collect_fits _. injection Hc as Hc _. cbn [fresh_pool config].
  by apply checked_config_spec in Hc as (-> & _).
Qed.

(** C17: the bytes a pool plans for a step, by which the cache manager admits it, are the bytes
    the step's reservation accounts for, in every layout: the two computations give the same
    number, or both report that it exceeds what a size can hold. *)
Theorem planned_bytes_exact has_model has_device decoder s owner cap checkpoints dev (p : FixedStatePool V) dev' rows direct bank_two first captures :
  make_FixedStatePool has_model has_device decoder s owner cap checkpoints dev = (Ok p, dev') ->
  (v ← BuildReservationViews (contract (config p)) rows direct bank_two first captures (tensors (config p)); Ok (staging_bytes v)) =
  PlannedStagingBytes (contract (config p)) (tensors (config p)) rows captures.
Proof. intros H. eapply views_bytes, constructed_fits, H. Qed.
End constructed.
