(* ===== verification/FixedStateSamples.v ===== *)
(** * A sample pool

    One causal convolution of one layer, two slots and one checkpoint row, over a device whose
    rows are integers, and the witnesses of the fixed-state theorems on it. *)

From S2P Require Import Prelude RequestIndex EngineInvariants StateManifest StateManifestProofs FixedStateSpec FixedStatePool FixedStateDevice FixedStateReserve FixedStateCommit FixedStateConstruct FixedStateStep FixedStateClose FixedStatePublish FixedStateTransaction FixedStateCalls FixedStateBytes.
From stdpp Require Import strings.

Open Scope nat_scope.

(** ** The device, the declaration and the session *)

#[global] Instance sample_device : DeviceInterface Z := {
  SupportsOffsetTensorViews := true;
  SupportsTransactionalFixedState := true;
  SupportsCompactStateReplay := true;
  device_is_cuda := false;
  zero_value := 0%Z;
  filled_value := fun z => z;
  read_lengths := fun v => (v, 0%Z);
  replay := fun d m _ => (m (source_state d) + 100 * Z.of_N (kept_count d))%Z
}.

#[global] Instance sample_laws : DeviceLaws Z.
Proof.
  split. intros d m m' l H _. cbn. f_equal. apply H. unfold sources. set_solver.
Qed.

Definition sample_decoder : Decoder :=
  mkDecoder 1 2 (Some [mkGroup FixedConv [0%Z] (Some (mkUpdate 2 true 0 0))]) "" "" "" "" "pc%d" "sc%d" "" "" "" "" "" "" "" "" "" "" "" ""
    "cc" "" "uv%d" "" "" "" "" 0 false.

Definition sample_input (name : string) : option (N * list Z) :=
  if bool_decide (name = "pc0") then Some (1%N, [-1; 4; 3]%Z) else if bool_decide (name = "cc") then Some (6%N, [-1]%Z) else None.
Definition sample_output (name : string) : option (N * list Z) :=
  if bool_decide (name = "sc0") then Some (1%N, [-1; 4; 3]%Z) else if bool_decide (name = "uv0") then Some (1%N, [-1; 2; 4]%Z) else None.
Definition sample_session : SessionInfo :=
  mkSession (fun n => bool_decide (is_Some (sample_input n))) (fun n => bool_decide (is_Some (sample_output n)))
    (fun n => fst <$> sample_input n) (fun n => snd <$> sample_input n) (fun n => fst <$> sample_output n) (fun n => snd <$> sample_output n).

Definition sample_memory : Device Z := mkDevice (fun _ => 5%Z) [] [].
Definition failing_memory : Device Z := mkDevice (fun _ => 5%Z) [] [None; None; Some (fun _ => 9%Z)].

Definition sample_made := make_FixedStatePool true true sample_decoder sample_session 1 2 1 sample_memory.
Definition sample_config : PoolConfig := Eval vm_compute in
  match sample_made with (Ok p, _) => config p | _ => mkPoolConfig 0 2 [] (mkContract false 0 "" "") 0 0 end.
Definition sample_index : RequestIndex := match make_RequestIndex 2 with Ok x => x | _ => mkIndex [] 0 0 end.
Definition sample_pool : FixedStatePool Z := fresh_pool sample_config sample_index 1 sample_made.2.

(** Each row becomes one more than it was. *)
Definition sample_model := row_model sample_config (fun t rows => (nth t rows 0 + 1)%Z).
Definition sample_requests (id : N) (target : nat) (captures : N) (cp : option FixedStatePrefixCheckpoint) : list FixedStateReservationRequest :=
  [mkFixedRequest id target captures cp].

Lemma sample_ok : pool_ok sample_pool.
Proof. by apply (fresh_pool_ok sample_config sample_index 2 1). Qed.

Lemma sample_tensors : tensors_ok sample_config.
Proof. split; intros [|[|t]] spec [= <-]; discriminate. Qed.

(** The pool after a step on request 7, and after capturing its row. *)
Definition stepped_pool : FixedStatePool Z := (fixed_step (sample_requests 7 3 0 None) sample_model [] sample_pool).2.
Definition sample_capture := CapturePrefixCheckpoint 7 None None stepped_pool.
Definition sample_checkpoint : FixedStatePrefixCheckpoint := mkPrefixCheckpoint 1 0 1 3.
Definition further_steps : list (list FixedStateReservationRequest * (Storage -> (loc -> Z) -> loc -> Z) * list (nat * (nat * nat))) :=
  [(sample_requests 7 6 0 None, sample_model, []); (sample_requests 7 9 0 None, sample_model, [])].
Definition further_pool : FixedStatePool Z := (run_steps further_steps sample_capture.2).2.
Definition adopting : outcome FixedStateError FixedStateReservation * FixedStatePool Z :=
  Reserve (sample_requests 8 5 0 (Some sample_checkpoint)) further_pool.

Lemma stepped_ok : pool_ok stepped_pool /\ active_reservation_id stepped_pool = 0%N /\ config stepped_pool = sample_config.
Proof.
  destruct (fixed_call_safe sample_config (CallStep (sample_requests 7 3 0 None) sample_model []) sample_pool sample_tensors) as (p' & Hrun & H);
    [split; [apply sample_ok|done]|].
  unfold fixed_call, after in Hrun. unfold stepped_pool. destruct (fixed_step _ _ _ sample_pool) as [[]]; by simplify_eq.
Qed.

(** ** Witnesses *)




Lemma planned_bytes_exact_witness : exists p d, sample_made = (Ok p, d) /\
  PlannedStagingBytes (contract (config p)) (tensors (config p)) 2 true = Ok 264%N /\
  (v ← BuildReservationViews (contract (config p)) 2 true false 0 true (tensors (config p)); Ok (staging_bytes v)) = Ok 264%N.
Proof.
  assert (is_ok sample_made.1 = true) as Hr by (vm_compute; reflexivity).
  assert (match sample_made with (Ok p, _) => PlannedStagingBytes (contract (config p)) (tensors (config p)) 2 true = Ok 264%N | _ => True end) as Hb by (vm_compute; reflexivity).
  destruct sample_made as [[p|e| |] d] eqn:Hm; try discriminate. exists p, d. split_and!; [reflexivity|exact Hb|]. rewrite <- Hb.
  exact (planned_bytes_exact true true sample_decoder sample_session 1 2 1 sample_memory p d 2 true false 0 true Hm).
Defined.

(** A step, a capture, a release, a stale release and a step that adopts the checkpoint. *)
Definition sample_calls : list (FixedCall (V := Z)) :=
  [CallStep (sample_requests 7 3 0 None) sample_model []; CallCapture 7 None None; CallRelease (mkHandle 1 7 0 1); CallRelease (mkHandle 1 7 0 1);
   CallStep (sample_requests 8 5 0 (Some sample_checkpoint)) sample_model []].

Lemma fixed_calls_invariant_witness : exists p', fixed_calls sample_calls sample_pool = Some p' /\ pool_ok p' /\ ValidateFixedStateInvariants (Snapshot p') = [].
Proof.
  destruct (fixed_calls_invariant sample_pool sample_calls sample_ok eq_refl sample_tensors) as (p' & Hrun & Hok & _ & Hsnap).
  exists p'. split_and!; [exact Hrun|exact Hok|]. apply Hsnap.
  assert (healthy <$> fixed_calls sample_calls sample_pool = Some true) as Hh by (vm_compute; reflexivity). rewrite Hrun in Hh. by injection Hh.
Defined.

Lemma release_exact_witness : exists p', Release (mkHandle 1 7 0 1) stepped_pool = (Ok tt, p') /\ visible_tokens stepped_pool 7 = Some 3 /\ visible_tokens p' 7 = None.
Proof.
  destruct stepped_ok as (Hok & Hi & _). pose proof (release_exact stepped_pool (mkHandle 1 7 0 1) Hok Hi) as H.
  assert ((Release (mkHandle 1 7 0 1) stepped_pool).1 = Ok tt) as Hr by (vm_compute; reflexivity).
  destruct (Release _ stepped_pool) as [o p']. cbn in Hr. subst o. exists p'. split_and!; [reflexivity|vm_compute; reflexivity|]. apply H.
Defined.

